(* ===== verification/_CoqProject ===== *)
-Q . S2P
Prelude.v
TablePage.v
TableHeap.v
Watermark.v
Transaction.v
Mvcc.v
RowInvariant.v
SnapshotSpec.v
MachineInvariant.v
MachineSteps.v
Simulation.v
Isolation.v
IsolationTheorems.v
BTreePage.v
BPlusTree.v
BTreeInvariant.v
BTreeInsert.v
BTreeIterator.v
BTreeRebalance.v
BTreeDelete.v
BTreeRemove.v
GenericKey.v
BTreeTheorems.v
ArcReplacer.v
DiskManager.v
BufferPool.v
PoolMachine.v
PoolSteps.v
PoolRefinement.v
PoolTheorems.v
NumericText.v
DateTime.v
TextTheorems.v
StringHeap.v
ValidityMask.v
SortKey.v
VectorOps.v
SortKeyOrder.v
SortKeyWrite.v
TopN.v
TopNSteps.v
StreamOperator.v
OrderTheorems.v
TaskMachine.v
TaskInvariant.v
TaskTermination.v
TaskTheorems.v
RowFormat.v
RowScatter.v
PRLHashTable.v
HashInvariant.v
HashAppend.v
HashGroups.v
VectorHash.v
HashSystem.v
HashTheorems.v
HashJoin.v
JoinProbe.v
JoinExecute.v
JoinTheorems.v
PipelineExecutor.v
ResultCollector.v
StreamOps.v
LikeMatch.v
VectorKernels.v
ColumnReads.v
ExpressionExecutor.v
ExpressionEval.v
ExpressionTheorems.v
ExactFloat.v
Aggregate.v
AggregateState.v
AggregateTheorems.v
PipelineTheorems.v
Plan.v
Optimizer.v
JoinOrder.v
OptimizerRules.v
JoinOrderRegion.v
OptimizerTheorems.v
