(* ===== verification/Prelude.v ===== *)
(** * A verification of BumbleBeeDB's storage and execution engine

    BumbleBeeDB is an embedded analytical database in C++ (src/src).  SQL is parsed by a third-party
    parser, bound, planned, optimized and executed by vectorised operators over columns, in pipelines that
    worker threads run in parallel; the rows of durable tables live in a transactional storage engine.  This library
    models the storage engine, the optimizer, the vectors, expressions and operators of the execution engine
    with the executor that runs them, and the conversions between values and their text, function by function, and
    proves what makes them correct.  [Prelude] holds what every file shares: outcomes, the state monad with
    its notation and the tactic [run], machine integers and byte buffers.

    ** The parts, bottom up, and where they are modelled

    - Disk: [DiskManager.v].  [single_file_disk_manager.cpp] over the bytes of its file; the class
      [DiskManager] is its interface and [DiskLaws] its contract, each call taking the outcome ([io]) the
      operating system gives it.
    - Replacement policy: [ArcReplacer.v].  [arc_replacer.cpp], its four lists and two maps; the class
      [Replacer] and [ReplacerLaws] are what the pool relies on.
    - Buffer pool and page guards: [BufferPool.v] has [buffer_pool_manager.cpp] and [page_guard.cpp], every
      method whole and as its critical sections; [PoolMachine.v] interleaves the sections of any number of
      threads and has their invariant; [PoolSteps.v] and [PoolRefinement.v] prove it and the refinement,
      [PoolTheorems.v] states the claims.
    - Table pages: [TablePage.v] ([table_page.cpp]), with the interface the heap uses.
    - Table heaps and record ids: [TableHeap.v] ([table_heap.cpp], [rid.h]), over a page store.
    - Transactions: [Watermark.v], [Transaction.v] ([watermark.cpp], [transaction.h]) and [Mvcc.v]
      ([mvcc.cpp], [transaction_manager.cpp], the reclaiming part of [Catalog::DropTable]).
      [SnapshotSpec.v] has the abstract snapshot-isolation database and the step relation that interleaves
      the atomic pieces of the engine, and runs schedules of them; [RowInvariant.v], [MachineInvariant.v],
      [MachineSteps.v], [Simulation.v] and [Isolation.v] prove the simulation and its consequences;
      [IsolationTheorems.v] states the claims.
    - B+ tree index: [BTreePage.v] ([b_plus_tree_page.cpp] and the leaf and internal pages), [BPlusTree.v]
      ([b_plus_tree.cpp], [index_iterator.cpp]), and [GenericKey.v] ([generic_key.h]).
      [BTreeInvariant.v], [BTreeInsert.v], [BTreeIterator.v],
      [BTreeRebalance.v], [BTreeDelete.v] and [BTreeRemove.v] carry the proofs; [BTreeTheorems.v] has the
      index over the tree ([b_plus_tree_index.h]) and the claims.
    - Values and text: [NumericText.v] ([numeric_utils], the integer casts of [cast_operators.h]),
      [DateTime.v] ([date.cpp], [timestamp.cpp], the renderings of [cast_operators.h]);
      [TextTheorems.v] has the proofs about dates and the claims.
    - Vectors: [StringHeap.v] ([bumble_string.h], [string_heap.cpp]), [ValidityMask.v] ([validity_mask.cpp]),
      [VectorOps.v] ([vector.cpp], [vector_copy.cpp]: flat, constant and dictionary columns, slices, copies,
      flattening).  [VectorHash.v] hashes them ([hash.cpp], [vector_hash.cpp]).
    - ORDER BY: [SortKey.v] ([create_sort_key.cpp]), with [SortKeyOrder.v] and [SortKeyWrite.v] for the order
      of the bytes and where they are written; [TopN.v] (the top-N heap), with
      [TopNSteps.v]; [OrderTheorems.v] has the operator ([physical_top_n.cpp]) and the claims.
    - Rows and hash tables: [RowFormat.v] ([row_layout.cpp], [row_operations.cpp]: rows as bytes), with
      [RowScatter.v]; [PRLHashTable.v] ([prl_hash_table.cpp]), with [HashInvariant.v], [HashAppend.v] and
      [HashGroups.v];
      [HashSystem.v] has the tables of one operator side by side, [HashTheorems.v] the claims.
    - Hash join: [HashJoin.v] ([physical_hash_join.cpp]), over the interface [StreamOperator.v] of an operator
      that is called until it wants more input; [JoinProbe.v] and [JoinExecute.v] carry the
      proofs, [JoinTheorems.v] the claim.
    - Expressions: [LikeMatch.v], [VectorKernels.v] ([logical_type.cpp]; the comparison, cast and
      arithmetic kernels of [type/vector/operations]) and [ExpressionExecutor.v]
      ([expression_executor.cpp]); [ColumnReads.v] and [ExpressionEval.v] relate them to the meaning of an
      expression on a row, [ExpressionTheorems.v] states the claims.
    - Pipelines: [PipelineExecutor.v] ([pipeline_executor.cpp]) with its
      reading as a nest of loops, and how operators that work row by row compose; [ResultCollector.v]
      ([physical_result_collector.h]), [StreamOps.v] ([physical_filter.h], the probe side of the join) provides
      them and the tasks of a query; [PipelineTheorems.v] has the projection ([physical_projection.h]) and
      the claims.
    - Aggregates: [Aggregate.v] ([value.cpp], [aggregate_state.h], [physical_ungrouped_aggregate.cpp]) over the
      floating-point arithmetic of [ExactFloat.v]; [AggregateState.v] carries the proofs,
      [AggregateTheorems.v] the claim.
    - Parallel executor: [TaskMachine.v] ([executor.cpp], [task.cpp], [task_scheduler.cpp], [pipeline.cpp]:
      every thread at every access to shared state), with [TaskInvariant.v] and [TaskTermination.v];
      [TaskTheorems.v] has [PeakTaskDemand] and the claims.
    - Optimizer: [Plan.v] (the nodes of a plan, [execution/plans], the keys of a hash join of
      [physical_plan_generator.cpp], and the answers of a plan: the relation the optimizer has to keep),
      [Optimizer.v] (the rules, one file under [optimizer/] each) and [JoinOrder.v] ([optimizer/join_order]
      in binary64 arithmetic, and [Optimizer::Optimize]).  [OptimizerRules.v] proves the rules,
      [JoinOrderRegion.v] the search and the plan made of its tree, [OptimizerTheorems.v] column pruning and
      the claim.

    ** How the model reads

    A C++ object is a record with the fields of the class; a method that changes it is a function of type
    [ST] (the state in, an outcome and the state out), so that what was done before an exception stays
    done.  An outcome is [Ok] or an [error]: an exception of the engine, a range error of the library, a
    failed assertion, a process abort, a wait that does not end, or undefined behaviour (an access outside
    an object, an overflow of a signed type).  A theorem that a call is [Ok] therefore includes that none
    of these happens.  Integers are [Z] with the width written where the code has one ([u16], [i32],
    [wrap_u], [wrap_s], [s32], [s64]).  Concurrency is a step relation whose steps are the code's critical
    sections; latches are the guards of its steps.  Maps are [gmap]s, vectors are lists with the
    out-of-range case written out.

    ** What the theorems show

    - Isolation: under every interleaving of reads, writes, commits, rollbacks and garbage collection the
      engine is a snapshot-isolation database (refinement by forward simulation); reads repeat, conflicts
      are reported exactly when they exist, first committer wins, serializable validation is sound, commits
      complete, aborts end in one of two ways.
    - Index: over integer columns inside the key's bytes, any sequence of operations refines a sorted map; each operation never fails on a
      well-formed tree and keeps it well formed; scans yield exactly the range; freeing frees exactly the
      tree; the optimistic paths agree with the pessimistic ones.
    - Storage: page and heap operations change exactly the addressed row or nothing (a growth that wraps the
      free-space check is undefined; the 32-bit slot of a record id is cut to 16 bits where the page is called); reopening rebuilds the
      heap; morsels tile the directory; the watermark refines a multiset.
    - Buffer pool: under every interleaving of critical sections (the three of a deletion among them) within
      the stated discipline the pool is a plain map from page ids to pages; a fetch ends with the page
      pinned once more; flushing everything makes the file durable; the ARC replacer is a set of evictable
      frames within the bounds of the ARC paper.  The discipline keeps accesses away from a page that is
      being deleted; what happens without it is exhibited.
    - Text: day counts and calendar dates correspond one to one; dates, timestamps and integers survive the
      way to text and back; integer casts are exact; decimals render digit by digit.
    - Order: sort keys compare as bytes the way ORDER BY compares the rows, for rows without NaN and byte
      [0xff], the greatest integer tying with NULL; the top-N operator returns the first rows in key order
      whatever the split among workers.
    - Hash tables and joins: the tables behave as lists of rows, read back bit for bit; probes and groups are
      exact under any collision; the hash join gives, row by row, the rows of the inner, left, semi, anti and
      null-aware anti join, or throws when the memory budget refuses a reservation of its build.
    - Expressions: a filter keeps the rows whose predicate is TRUE in three-valued logic, on every path of the
      executor; LIKE decides its declarative meaning; integer arithmetic and casts are exact, and where the
      language leaves them undefined is said.
    - Optimizer: the optimized plan has exactly the answers of the given one, as sets of possible lists of
      rows, through every rule, the reordering of joins and the pruning of columns; no assertion of a rule
      trips, and the searches end.  The plans are those of the planner with two restrictions, where the
      rewriting changes answers: no outer join on a constant true, which the code mistakes for a cross
      product, and equalities between columns only of one type or of two numeric types other than DECIMAL
      of different rank, since the hash join compares bytes.  Casts other than between integers are a
      parameter (the class [Casts]).
    - Aggregates: without GROUP BY they are exact for every split of the input, counts below 2 to the 31,
      numbers that a double holds.
    - Pipelines: the push loop is a nest of loops; a parallel query ends and returns what a serial one
      does, in its order, however work is dealt to the tasks.
    - Parallel executor: pipelines run in dependency order, no wake-up is lost, every run ends with every
      pipeline finalized once, and the demand for threads is bounded as computed unless a source asks for
      more when its tasks are created.
    - Where the code does not do what it means to, a theorem exhibits it: lost or resurrected pages,
      rollbacks that cannot restore a row, rows of a dropped table, truncated rows, a NaN that collides
      with every key, timestamps that overflow, sort keys that collide, a NULL divided by -1 that traps, a
      list element that does not fit its column, a COUNT of strings that throws, a MAX that is rounded,
      a WHERE over a LEFT JOIN ON true that does not filter, an equality of two types that a hash join
      decides otherwise, a growing update that wraps around, a thread demand that is exceeded.

    ** Bounds and fuel

    Recursion that is not structural takes fuel, and the theorems say it is enough: B+ tree descents get
    one unit per allocated page (a path visits distinct pages), version walks one per timestamp up to the
    latest commit (timestamps decrease along a chain), [append_loop] three (two turns suffice, the second
    runs on a fresh page); [CheckedPage] needs two turns, [FormatUnsigned] eleven for 64 bits, the 400-year
    loops 14700 for 32.  [LIKE] gets a unit per pair of positions and for each retry; rounds of
    [FindOrCreateGroups] and walks of the hash directory are bounded by its size, which is larger than the
    number of rows; a pipeline's turns are not known in advance, so its theorems say that from some number on
    any fuel gives the result; the union-find over join keys follows at most as many links as there are
    columns, and the greedy search joins two trees in each of as many rounds as there are relations;
    [PeakTaskDemand] closes the dependencies in as many rounds as there are pipelines.

    ** Not modelled

    The binder and planner, which work on the tree of a third-party parser; aggregates with GROUP BY and the
    statements that write, which are arguments of a plan's answers; the grace and nested-loop joins as operators,
    table scans, sorting to disk and the operators that write tables; the Parquet and CSV readers;
    the catalog's name tables and persistence; nested columns; the kernels for floats, decimals
    and casts to or from text inside the expression executor, which are its parameters; the disk
    scheduler's queue and threads (a request is one step); latch crabbing of concurrent B+ tree operations
    (one call runs at a time, with its held guards as data); profiling; connections, shell and Python
    bindings.  Crash recovery does not exist in the program. *)

From Stdlib Require Export ZArith Lia.
From Stdlib Require Export Strings.Byte.
From stdpp Require Export base tactics option list list_numbers gmap strings numbers.
From stdpp Require Export fin_maps fin_sets.

#[global] Open Scope Z_scope.
#[global] Set Default Goal Selector "!".

(** ** Outcomes

    C++ operations of the engine return normally, throw, trip a debug assertion, or have undefined
    behaviour (an access outside an object).  [error] keeps the failure classes apart. *)

(** [ExceptionType] of [common/exception.h]. *)
Inductive ExceptionType :=
  | INVALID | OUT_OF_RANGE | CONVERSION | UNKNOWN_TYPE | DECIMAL_ERROR | MISMATCH_TYPE
  | DIVIDE_BY_ZERO | INCOMPATIBLE_TYPE | OUT_OF_MEMORY | NOT_IMPLEMENTED | PARSER | BINDER
  | PLANNER | EXECUTION | DATABASE_CLOSED | PROGRAMMING | CONFLICT | DATA.

Inductive error :=
  | EException (ty : ExceptionType) (msg : string)   (** a [bumblebee::Exception] *)
  | ERange (msg : string)                            (** a [std::range_error] *)
  | EAssert (msg : string)                           (** a failed [BUMBLEBEE_ASSERT] *)
  | EAbort                                           (** [std::abort] *)
  | EBlocked                                         (** a wait that this call never ends *)
  | EUndefined.                                      (** undefined behaviour *)

Inductive result (A : Type) :=
  | Ok (a : A)
  | Err (e : error).
Arguments Ok {A} _.
Arguments Err {A} _.

#[global] Instance ExceptionType_eq_dec : EqDecision ExceptionType.
Proof. solve_decision. Defined.
#[global] Instance error_eq_dec : EqDecision error.
Proof. solve_decision. Defined.
#[global] Instance result_eq_dec `{EqDecision A} : EqDecision (result A).
Proof. solve_decision. Defined.

#[global] Instance result_ret : MRet result := @Ok.
#[global] Instance result_bind : MBind result := λ A B f r,
  match r with Ok a => f a | Err e => Err e end.

(** A C++ throw leaves the mutations made before it in place, so the state survives an error. *)
Definition ST (S A : Type) : Type := S → result A * S.

#[global] Instance ST_ret S : MRet (ST S) := λ A a s, (Ok a, s).
#[global] Instance ST_bind S : MBind (ST S) := λ A B f m s,
  match m s with
  | (Ok a, s') => f a s'
  | (Err e, s') => (Err e, s')
  end.

Definition st_get {S} : ST S S := λ s, (Ok s, s).
Definition st_put {S} (s : S) : ST S unit := λ _, (Ok tt, s).
Definition st_throw {S A} (e : error) : ST S A := λ s, (Err e, s).
Definition st_lift {S A} (r : result A) : ST S A := λ s, (r, s).

Lemma result_bind_ok {A B} (f : A → result B) (r : result A) b :
  r ≫= f = Ok b ↔ ∃ a, r = Ok a ∧ f a = Ok b.
Proof. destruct r; unfold mbind; simpl; naive_solver. Qed.

(** The state monad on successful runs. *)
Lemma ST_bind_ok {S A B} (m : ST S A) (f : A → ST S B) s a s' :
  m s = (Ok a, s') → (m ≫= f) s = f a s'.
Proof. intros E. unfold mbind, ST_bind. by rewrite E. Qed.
Lemma ST_lift_ok {S A B} (r : result A) (f : A → ST S B) s a :
  r = Ok a → (st_lift r ≫= f) s = f a s.
Proof. intros ->. done. Qed.

(** Run one statement of a monadic body, given its outcome. *)
Ltac run E := first [rewrite (ST_bind_ok _ _ _ _ _ E) | rewrite (ST_lift_ok _ _ _ _ E)]; cbv beta iota.

(** ** Machine integers *)

Definition wrap_u (w z : Z) : Z := z mod 2 ^ w.
Definition wrap_s (w z : Z) : Z := (z + 2 ^ (w - 1)) mod 2 ^ w - 2 ^ (w - 1).

(** [static_cast<uint16_t>] and friends. *)
Definition u8 : Z → Z := wrap_u 8.
Definition u16 : Z → Z := wrap_u 16.
Definition u32 : Z → Z := wrap_u 32.
Definition u64 : Z → Z := wrap_u 64.
Definition i32 : Z → Z := wrap_s 32.
Definition i64 : Z → Z := wrap_s 64.

Lemma wrap_u_small w z : 0 ≤ z < 2 ^ w → wrap_u w z = z.
Proof. apply Z.mod_small. Qed.
Lemma wrap_u_range w z : 0 ≤ w → 0 ≤ wrap_u w z < 2 ^ w.
Proof. intros. apply Z.mod_pos_bound. lia. Qed.
Lemma wrap_s_small w z : - 2 ^ (w - 1) ≤ z < 2 ^ (w - 1) → 0 < w → wrap_s w z = z.
Proof.
  intros H Hw. unfold wrap_s. rewrite Z.mod_small; [lia|].
  replace w with (Z.succ (w - 1)) at 3 by lia. rewrite Z.pow_succ_r; lia.
Qed.
Lemma wrap_s_range w z : 0 < w → - 2 ^ (w - 1) ≤ wrap_s w z < 2 ^ (w - 1).
Proof.
  intros Hw. unfold wrap_s.
  assert (2 ^ w = 2 * 2 ^ (w - 1)) as E.
  { replace w with (Z.succ (w - 1)) at 1 by lia. rewrite Z.pow_succ_r; lia. }
  assert (0 < 2 ^ w) by lia.
  pose proof (Z.mod_pos_bound (z + 2 ^ (w - 1)) (2 ^ w)). lia.
Qed.
Lemma wrap_u_congr w z : 0 ≤ w → ∃ k, wrap_u w z = z + k * 2 ^ w.
Proof.
  intros. exists (- (z / 2 ^ w)). unfold wrap_u.
  rewrite Z.mod_eq by lia. lia.
Qed.
Lemma wrap_s_congr w z : 0 < w → ∃ k, wrap_s w z = z + k * 2 ^ w.
Proof.
  intros. exists (- ((z + 2 ^ (w - 1)) / 2 ^ w)). unfold wrap_s.
  rewrite Z.mod_eq by lia. lia.
Qed.

(** [machine] normalises the casts that are provably lossless. *)
Ltac machine :=
  unfold u8, u16, u32, u64, i32, i64 in *;
  repeat (rewrite wrap_u_small in * by (change (2 ^ 64) with 18446744073709551616 in *; lia)).

(** ** Byte buffers *)

#[global] Instance byte_eq_dec : EqDecision byte := Byte.byte_eq_dec.

(** [memcpy(buf + off, src, n)] and [buf[off .. off+n)], undefined outside the buffers. *)
Definition mem_write (buf : list byte) (off : Z) (src : list byte) (n : Z) : result (list byte) :=
  if bool_decide (0 ≤ off ∧ 0 ≤ n ∧ off + n ≤ Z.of_nat (length buf) ∧ n ≤ Z.of_nat (length src))
  then Ok (take (Z.to_nat off) buf ++ take (Z.to_nat n) src ++ drop (Z.to_nat (off + n)) buf)
  else Err EUndefined.

Definition mem_read (buf : list byte) (off n : Z) : list byte :=
  take (Z.to_nat n) (drop (Z.to_nat off) buf).

Lemma mem_write_ok buf off src n :
  0 ≤ off → 0 ≤ n → off + n ≤ Z.of_nat (length buf) → n ≤ Z.of_nat (length src) →
  mem_write buf off src n =
    Ok (take (Z.to_nat off) buf ++ take (Z.to_nat n) src ++ drop (Z.to_nat (off + n)) buf).
Proof. intros. unfold mem_write. rewrite bool_decide_true; [done|lia]. Qed.

Lemma mem_write_oob buf off src n :
  off < 0 ∨ Z.of_nat (length buf) < off + n → mem_write buf off src n = Err EUndefined.
Proof. intros. unfold mem_write. rewrite bool_decide_false; [done|lia]. Qed.

Lemma mem_write_inv buf off src n buf' :
  mem_write buf off src n = Ok buf' →
  0 ≤ off ∧ 0 ≤ n ∧ off + n ≤ Z.of_nat (length buf) ∧ n ≤ Z.of_nat (length src) ∧
  buf' = take (Z.to_nat off) buf ++ take (Z.to_nat n) src ++ drop (Z.to_nat (off + n)) buf.
Proof. unfold mem_write. case_bool_decide; naive_solver. Qed.

Lemma mem_write_length buf off src n buf' :
  mem_write buf off src n = Ok buf' → length buf' = length buf.
Proof.
  intros (?&?&?&?&->)%mem_write_inv.
  rewrite !length_app, !length_take, length_drop. lia.
Qed.

Lemma mem_read_length buf off n :
  0 ≤ off → 0 ≤ n → off + n ≤ Z.of_nat (length buf) → Z.of_nat (length (mem_read buf off n)) = n.
Proof. intros. unfold mem_read. rewrite length_take, length_drop. lia. Qed.

Lemma mem_read_lookup buf off n i :
  (i < Z.to_nat n)%nat → mem_read buf off n !! i = buf !! (Z.to_nat off + i)%nat.
Proof. intros. unfold mem_read. by rewrite lookup_take_lt, lookup_drop by lia. Qed.

Lemma mem_write_lookup buf off src n buf' i :
  mem_write buf off src n = Ok buf' →
  buf' !! i = if decide (Z.to_nat off ≤ i < Z.to_nat (off + n))%nat
              then src !! (i - Z.to_nat off)%nat else buf !! i.
Proof.
  intros (?&?&?&?&->)%mem_write_inv.
  case_decide as Hi.
  - rewrite lookup_app_r; rewrite length_take; [|lia].
    rewrite lookup_app_l; [|rewrite length_take; lia].
    rewrite lookup_take_lt by lia. f_equal. lia.
  - destruct (decide (i < Z.to_nat off)%nat).
    + rewrite lookup_app_l by (rewrite length_take; lia). by rewrite lookup_take_lt.
    + rewrite lookup_app_r; rewrite length_take; [|lia].
      rewrite lookup_app_r; rewrite length_take; [|lia].
      rewrite lookup_drop. f_equal. lia.
Qed.

Lemma mem_read_ext buf1 off1 buf2 off2 n :
  (∀ i, (i < Z.to_nat n)%nat → buf1 !! (Z.to_nat off1 + i)%nat = buf2 !! (Z.to_nat off2 + i)%nat) →
  mem_read buf1 off1 n = mem_read buf2 off2 n.
Proof.
  intros H. apply list_eq. intros i.
  destruct (decide (i < Z.to_nat n)%nat).
  - rewrite !mem_read_lookup by done. auto.
  - unfold mem_read. rewrite !lookup_take_ge by lia. done.
Qed.

(** Reading back a window that was just written, and one the write does not meet. *)
Lemma mem_read_write_same buf off src n buf' :
  mem_write buf off src n = Ok buf' → mem_read buf' off n = take (Z.to_nat n) src.
Proof.
  intros Hw. pose proof (mem_write_inv _ _ _ _ _ Hw) as (?&?&?&?&_).
  apply list_eq. intros i. destruct (decide (i < Z.to_nat n)%nat).
  - rewrite mem_read_lookup, (mem_write_lookup _ _ _ _ _ _ Hw) by done.
    rewrite decide_True by lia. rewrite lookup_take_lt by done. f_equal. lia.
  - unfold mem_read. rewrite !lookup_take_ge by lia. done.
Qed.

Lemma mem_read_write_other buf off src n buf' off' n' :
  mem_write buf off src n = Ok buf' → 0 ≤ off' →
  (off' + n' ≤ off ∨ off + n ≤ off') → mem_read buf' off' n' = mem_read buf off' n'.
Proof.
  intros Hw ? Hd. pose proof (mem_write_inv _ _ _ _ _ Hw) as (?&?&?&?&_).
  apply mem_read_ext. intros i Hi. rewrite (mem_write_lookup _ _ _ _ _ _ Hw).
  rewrite decide_False by lia. done.
Qed.

(** ** Lists *)

Lemma last_lookup_Z {A} (l : list A) :
  l ≠ [] → last l = l !! Z.to_nat (Z.of_nat (length l) - 1).
Proof. intros. rewrite last_lookup. f_equal. destruct l; simpl; [done|lia]. Qed.

(** ** Automation *)

Create HintDb bb discriminated.
#[export] Hint Resolve mem_write_length : bb.

(** Split a conjunction hypothesis bundle and simplify equations. *)
Ltac inv_ok :=
  repeat match goal with
  | H : Ok _ = Ok _ |- _ => injection H as H
  | H : Ok _ = Err _ |- _ => discriminate H
  | H : Err _ = Ok _ |- _ => discriminate H
  | H : (_, _) = (_, _) |- _ => injection H as ? ?
  end; simplify_eq/=.

(** Case analysis on the scrutinee of the first conditional of a hypothesis. *)
Ltac case_if_in H :=
  match type of H with
  | context [if ?b then _ else _] => destruct b eqn:?
  end.
