(* ===== verification/TablePage.v ===== *)
(** * The slotted table page ([storage/page/table_page.{h,cpp}], [storage/table/tuple_meta.h])

    A [TablePage] overlays one 8 KiB frame: a header of 8 bytes, a slot array of 24-byte entries
    growing forward, and row payloads growing backward from the end of the page.  The model keeps
    the header fields and the initialised part of the slot array as record fields and the frame as a
    list of bytes addressed by absolute page offset; [page_wf] contains the fact that justifies
    keeping them apart: every payload byte lies at or above the end of the slot array. *)

From S2P Require Import Prelude.

Definition PAGE_SIZE : Z := 8192.
Definition INVALID_PAGE_ID : Z := -1.
Definition TABLE_PAGE_HEADER_SIZE : Z := 8.
Definition TUPLE_INFO_SIZE : Z := 24.

(** [struct TupleMeta]. *)
Record TupleMeta := mkTupleMeta { ts_ : Z; is_deleted_ : bool }.

#[global] Instance TupleMeta_eq_dec : EqDecision TupleMeta.
Proof. solve_decision. Defined.

(** [TablePage::SlotInfo]: offset, size and metadata of one row. *)
Record SlotInfo := mkSlot { slot_off : Z; slot_size : Z; slot_meta : TupleMeta }.

Record TablePage := mkTablePage {
  next_page_id_ : Z;
  num_tuples_ : Z;
  num_deleted_tuples_ : Z;
  tuple_info_ : list SlotInfo;
  page_bytes : list byte
}.

(** The zero-filled frame a page is laid over when it is first bound. *)
Definition zero_page : TablePage := mkTablePage 0 0 0 [] (replicate (Z.to_nat PAGE_SIZE) x00).

Definition Init (p : TablePage) : TablePage :=
  mkTablePage INVALID_PAGE_ID 0 0 [] (page_bytes p).

Definition GetNumTuples (p : TablePage) : Z := num_tuples_ p.
Definition GetNumDeletedTuples (p : TablePage) : Z := num_deleted_tuples_ p.
Definition GetNextPageId (p : TablePage) : Z := next_page_id_ p.
Definition SetNextPageId (n : Z) (p : TablePage) : TablePage :=
  mkTablePage n (num_tuples_ p) (num_deleted_tuples_ p) (tuple_info_ p) (page_bytes p).

Definition empty_slot : SlotInfo := mkSlot 0 0 (mkTupleMeta 0 false).

(** [tuple_info_[i]]. *)
Definition info_at (p : TablePage) (i : Z) : SlotInfo :=
  default empty_slot (tuple_info_ p !! Z.to_nat i).

(** [tuple_info_[i] = s]: overwrites an initialised entry, or initialises the next one. *)
Definition set_info (l : list SlotInfo) (i : Z) (s : SlotInfo) : list SlotInfo :=
  if bool_decide (Z.to_nat i < length l)%nat then <[Z.to_nat i := s]> l else l ++ [s].

Definition GetNextRowOffset (p : TablePage) (row_size : Z) : option Z :=
  let slot_end_offset :=
    if bool_decide (num_tuples_ p > 0) then slot_off (info_at p (num_tuples_ p - 1)) else PAGE_SIZE in
  let offset_size := TABLE_PAGE_HEADER_SIZE + TUPLE_INFO_SIZE * (num_tuples_ p + 1) in
  if bool_decide (row_size > slot_end_offset ∨ u64 (slot_end_offset - row_size) < offset_size)
  then None
  else Some (u16 (slot_end_offset - row_size)).

Definition InsertRow (meta : TupleMeta) (row_data : list byte) (row_size : Z) (p : TablePage)
    : result (option Z * TablePage) :=
  match GetNextRowOffset p row_size with
  | None => Ok (None, p)
  | Some row_offset =>
      let slot := num_tuples_ p in
      let info := set_info (tuple_info_ p) slot (mkSlot row_offset row_size meta) in
      data ← mem_write (page_bytes p) row_offset row_data row_size;
      Ok (Some slot,
          mkTablePage (next_page_id_ p) (u16 (num_tuples_ p + 1)) (num_deleted_tuples_ p) info data)
  end.

Definition slot_out_of_range : error := EException INVALID "Slot out of range".

(** [if (!old_meta.is_deleted_ && meta.is_deleted_) num_deleted_tuples_++]. *)
Definition bump_deleted (p : TablePage) (old_meta meta : TupleMeta) : Z :=
  if negb (is_deleted_ old_meta) && is_deleted_ meta
  then u16 (num_deleted_tuples_ p + 1) else num_deleted_tuples_ p.

Definition UpdateTupleMeta (meta : TupleMeta) (slot : Z) (p : TablePage) : result TablePage :=
  if bool_decide (slot >= num_tuples_ p) then Err slot_out_of_range else
  let s := info_at p slot in
  Ok (mkTablePage (next_page_id_ p) (num_tuples_ p) (bump_deleted p (slot_meta s) meta)
        (set_info (tuple_info_ p) slot (mkSlot (slot_off s) (slot_size s) meta)) (page_bytes p)).

(** The returned pointer is modelled by the bytes it designates while the page is latched. *)
Definition GetRow (slot : Z) (p : TablePage) : result (TupleMeta * list byte * Z) :=
  if bool_decide (slot >= num_tuples_ p) then Err slot_out_of_range else
  let s := info_at p slot in
  Ok (slot_meta s, mem_read (page_bytes p) (slot_off s) (slot_size s), slot_size s).

Definition GetTupleMeta (slot : Z) (p : TablePage) : result TupleMeta :=
  if bool_decide (slot >= num_tuples_ p) then Err slot_out_of_range else
  Ok (slot_meta (info_at p slot)).

Definition UpdateRowInPlaceUnsafe (meta : TupleMeta) (row_data : list byte) (row_size slot : Z)
    (p : TablePage) : result TablePage :=
  if bool_decide (slot >= num_tuples_ p) then Err slot_out_of_range else
  let s := info_at p slot in
  if bool_decide (slot_size s ≠ row_size) then Err (EException INVALID "Row size mismatch") else
  data ← mem_write (page_bytes p) (slot_off s) row_data row_size;
  Ok (mkTablePage (next_page_id_ p) (num_tuples_ p) (bump_deleted p (slot_meta s) meta)
        (set_info (tuple_info_ p) slot (mkSlot (slot_off s) (slot_size s) meta)) data).

(** The final loop of [UpdateRow]: shift the offsets of the slots after [slot] by [delta]. *)
Definition shift_slot (delta : Z) (s : SlotInfo) : SlotInfo :=
  mkSlot (u16 (slot_off s + delta)) (slot_size s) (slot_meta s).

Definition shift_after (l : list SlotInfo) (slot delta : Z) : list SlotInfo :=
  take (Z.to_nat slot + 1) l ++ (shift_slot delta <$> drop (Z.to_nat slot + 1) l).

Definition UpdateRow (meta : TupleMeta) (row_data : list byte) (row_size slot : Z) (p : TablePage)
    : result (bool * TablePage) :=
  if bool_decide (slot >= num_tuples_ p) then Err slot_out_of_range else
  let s := info_at p slot in
  let off_s := slot_off s in
  let old_size := slot_size s in
  if bool_decide (row_size = old_size) then
    data ← mem_write (page_bytes p) off_s row_data row_size;
    Ok (true, mkTablePage (next_page_id_ p) (num_tuples_ p) (bump_deleted p (slot_meta s) meta)
                (set_info (tuple_info_ p) slot (mkSlot off_s row_size meta)) data)
  else
  let delta := old_size - row_size in
  let off_last := slot_off (info_at p (num_tuples_ p - 1)) in
  let below_size := u16 (off_s - off_last) in
  (* size_t arithmetic: the negative [delta] of a grow is converted to 64 bits *)
  let new_below_start := u64 (off_last + delta) in
  let header_end := TABLE_PAGE_HEADER_SIZE + TUPLE_INFO_SIZE * num_tuples_ p in
  if bool_decide (new_below_start < header_end) then Ok (false, p) else
  data ← (if bool_decide (below_size > 0)
          then mem_write (page_bytes p) new_below_start
                 (mem_read (page_bytes p) off_last below_size) below_size
          else Ok (page_bytes p));
  let new_off_s := u16 (off_s + delta) in
  data ← mem_write data new_off_s row_data row_size;
  Ok (true, mkTablePage (next_page_id_ p) (num_tuples_ p) (bump_deleted p (slot_meta s) meta)
              (shift_after (set_info (tuple_info_ p) slot (mkSlot new_off_s row_size meta)) slot delta)
              data).

(** ** Well-formedness and the abstract contents of a page *)

(** Rows are packed downward from [top] in slot order. *)
Fixpoint packed (top : Z) (l : list SlotInfo) : Prop :=
  match l with
  | [] => True
  | s :: l' => 0 ≤ slot_size s ∧ 0 ≤ slot_off s ∧ slot_off s + slot_size s = top ∧ packed (slot_off s) l'
  end.

(** The offset below which everything is free. *)
Definition low_end (top : Z) (l : list SlotInfo) : Z :=
  match last l with Some s => slot_off s | None => top end.

Record page_wf (p : TablePage) : Prop := {
  wf_len : Z.of_nat (length (page_bytes p)) = PAGE_SIZE;
  wf_num : num_tuples_ p = Z.of_nat (length (tuple_info_ p));
  wf_packed : packed PAGE_SIZE (tuple_info_ p);
  wf_room : TABLE_PAGE_HEADER_SIZE + TUPLE_INFO_SIZE * num_tuples_ p ≤ low_end PAGE_SIZE (tuple_info_ p)
}.

(** What a client sees: the metadata and bytes of every slot. *)
Definition slot_row (data : list byte) (s : SlotInfo) : TupleMeta * list byte :=
  (slot_meta s, mem_read data (slot_off s) (slot_size s)).
Definition page_rows (p : TablePage) : list (TupleMeta * list byte) :=
  slot_row (page_bytes p) <$> tuple_info_ p.

(** The free bytes between the slot array and the payloads. *)
Definition free_space (p : TablePage) : Z :=
  low_end PAGE_SIZE (tuple_info_ p) - (TABLE_PAGE_HEADER_SIZE + TUPLE_INFO_SIZE * num_tuples_ p).

(** ** Packing *)

Lemma low_end_nil top : low_end top [] = top.
Proof. done. Qed.
Lemma low_end_snoc top l s : low_end top (l ++ [s]) = slot_off s.
Proof. unfold low_end. by rewrite last_snoc. Qed.
Lemma low_end_cons top s l : low_end top (s :: l) = low_end (slot_off s) l.
Proof. unfold low_end. destruct l as [|s' l]; [done|]. rewrite last_cons_cons. by destruct (last (s' :: l)) eqn:E; [|apply last_None in E]. Qed.
Lemma low_end_app top l1 l2 : low_end top (l1 ++ l2) = low_end (low_end top l1) l2.
Proof. revert top. induction l1 as [|s l1 IH]; intros top; [done|]. by rewrite <- app_comm_cons, !low_end_cons, IH. Qed.

Lemma packed_app top l1 l2 :
  packed top (l1 ++ l2) ↔ packed top l1 ∧ packed (low_end top l1) l2.
Proof.
  revert top. induction l1 as [|s l1 IH]; intros top; simpl; [naive_solver|].
  rewrite IH, low_end_cons. naive_solver.
Qed.

Lemma packed_low_end top l : packed top l → 0 ≤ top → 0 ≤ low_end top l ≤ top.
Proof.
  revert top. induction l as [|s l IH]; intros top; simpl; [unfold low_end; simpl; lia|].
  intros (?&?&?&Hp) ?. rewrite low_end_cons. specialize (IH _ Hp). lia.
Qed.

(** Every slot of a packed array lies between the low end and the top. *)
Lemma packed_elem top l s :
  packed top l → 0 ≤ top → s ∈ l →
  low_end top l ≤ slot_off s ∧ 0 ≤ slot_size s ∧ slot_off s + slot_size s ≤ top.
Proof.
  revert top. induction l as [|s' l IH]; intros top Hp Htop Hs; [set_solver|].
  destruct Hp as (?&?&?&Hp). rewrite low_end_cons.
  apply elem_of_cons in Hs as [->|Hs].
  - pose proof (packed_low_end _ _ Hp). lia.
  - specialize (IH _ Hp ltac:(lia) Hs). lia.
Qed.

(** Shifting every slot by [delta] moves the packing. *)
Lemma shift_slot_off delta s :
  0 ≤ slot_off s + delta < 2 ^ 16 → slot_off (shift_slot delta s) = slot_off s + delta.
Proof. intros. simpl. unfold u16. by rewrite wrap_u_small. Qed.

Lemma low_end_shift delta top l :
  packed top l → 0 ≤ top → 0 ≤ low_end top l + delta → top + delta < 2 ^ 16 →
  low_end (top + delta) (shift_slot delta <$> l) = low_end top l + delta.
Proof.
  revert top. induction l as [|s l IH]; intros top Hp Htop Hlo Hhi; [done|].
  destruct Hp as (?&?&?&Hp). rewrite low_end_cons in Hlo.
  pose proof (packed_low_end _ _ Hp ltac:(lia)).
  rewrite fmap_cons, !low_end_cons, shift_slot_off by lia. apply IH; auto; lia.
Qed.

Lemma packed_shift delta top l :
  packed top l → 0 ≤ top → 0 ≤ low_end top l + delta → top + delta < 2 ^ 16 →
  packed (top + delta) (shift_slot delta <$> l).
Proof.
  revert top. induction l as [|s l IH]; intros top Hp Htop Hlo Hhi; [done|].
  destruct Hp as (?&?&?&Hp). rewrite low_end_cons in Hlo.
  pose proof (packed_low_end _ _ Hp ltac:(lia)).
  rewrite fmap_cons. cbn [packed]. rewrite shift_slot_off by lia.
  change (slot_size (shift_slot delta s)) with (slot_size s).
  repeat split; [lia..|]. apply IH; auto; lia.
Qed.

(** ** Facts about well-formed pages *)

Lemma page_rows_length p : length (page_rows p) = length (tuple_info_ p).
Proof. apply length_fmap. Qed.

Lemma info_at_Some p i s : 0 ≤ i → tuple_info_ p !! Z.to_nat i = Some s → info_at p i = s.
Proof. intros ? H. unfold info_at. by rewrite H. Qed.

Lemma info_at_last p :
  page_wf p → 0 < num_tuples_ p →
  slot_off (info_at p (num_tuples_ p - 1)) = low_end PAGE_SIZE (tuple_info_ p).
Proof.
  intros [_ Hn _ _] Hpos. unfold info_at, low_end. rewrite Hn.
  rewrite last_lookup_Z by (intros E; rewrite E in Hn; simpl in Hn; lia).
  destruct (_ !! _) eqn:E; [done|]. apply lookup_ge_None in E. lia.
Qed.

Lemma set_info_split l1 s l2 s' :
  set_info (l1 ++ s :: l2) (Z.of_nat (length l1)) s' = l1 ++ s' :: l2.
Proof.
  unfold set_info. case_bool_decide as Hlt; [|rewrite length_app in Hlt; simpl in Hlt; lia].
  rewrite Nat2Z.id, insert_app_r_alt, Nat.sub_diag by lia. done.
Qed.
Lemma set_info_snoc l s : set_info l (Z.of_nat (length l)) s = l ++ [s].
Proof. unfold set_info. case_bool_decide; [lia|done]. Qed.

Lemma set_info_num p s :
  page_wf p → set_info (tuple_info_ p) (num_tuples_ p) s = tuple_info_ p ++ [s].
Proof. intros Hwf. rewrite (wf_num _ Hwf). apply set_info_snoc. Qed.

Lemma shift_after_split l1 s l2 delta :
  shift_after (l1 ++ s :: l2) (Z.of_nat (length l1)) delta = l1 ++ s :: (shift_slot delta <$> l2).
Proof.
  unfold shift_after. rewrite Nat2Z.id.
  replace (l1 ++ s :: l2) with ((l1 ++ [s]) ++ l2) by (by rewrite <- app_assoc).
  rewrite take_app_length', drop_app_length' by (rewrite length_app; simpl; lia).
  by rewrite <- app_assoc.
Qed.

(** Naming the slot an index addresses. *)
Lemma slot_split p slot :
  page_wf p → 0 ≤ slot < num_tuples_ p →
  ∃ l1 s l2, tuple_info_ p = l1 ++ s :: l2 ∧ slot = Z.of_nat (length l1) ∧ info_at p slot = s.
Proof.
  intros [_ Hn _ _] Hs.
  destruct (lookup_lt_is_Some_2 (tuple_info_ p) (Z.to_nat slot)) as [s Hl]; [lia|].
  exists (take (Z.to_nat slot) (tuple_info_ p)), s, (drop (S (Z.to_nat slot)) (tuple_info_ p)).
  split; [by rewrite take_drop_middle|].
  split; [rewrite length_take; lia|]. by apply info_at_Some; [lia|].
Qed.

Lemma slot_row_ext data data' s :
  mem_read data' (slot_off s) (slot_size s) = mem_read data (slot_off s) (slot_size s) →
  slot_row data' s = slot_row data s.
Proof. unfold slot_row. by intros ->. Qed.

Lemma wf_low_bounds p :
  page_wf p → TABLE_PAGE_HEADER_SIZE ≤ low_end PAGE_SIZE (tuple_info_ p) ≤ PAGE_SIZE.
Proof.
  intros [_ Hn Hp Hr]. pose proof (packed_low_end _ _ Hp).
  unfold TABLE_PAGE_HEADER_SIZE, TUPLE_INFO_SIZE, PAGE_SIZE in *. lia.
Qed.

(** Slots fit: at most 341 of them, so the 16-bit counter never wraps. *)
Lemma wf_num_bound p : page_wf p → 0 ≤ num_tuples_ p ≤ 341.
Proof.
  intros Hwf. pose proof (wf_low_bounds _ Hwf) as Hb. destruct Hwf as [_ Hn _ Hr].
  unfold TABLE_PAGE_HEADER_SIZE, TUPLE_INFO_SIZE, PAGE_SIZE in *. lia.
Qed.

(** ** Operations *)

Lemma Init_wf p :
  Z.of_nat (length (page_bytes p)) = PAGE_SIZE → page_wf (Init p) ∧ page_rows (Init p) = [].
Proof. intros. split; [|done]. split; [done..|]. vm_compute. discriminate. Qed.

(** [GetNextRowOffset] answers exactly when the free gap holds the row and its slot entry. *)
Lemma GetNextRowOffset_spec p row_size :
  page_wf p → 0 ≤ row_size →
  GetNextRowOffset p row_size =
    if bool_decide (row_size + TUPLE_INFO_SIZE ≤ free_space p)
    then Some (low_end PAGE_SIZE (tuple_info_ p) - row_size) else None.
Proof.
  intros Hwf Hsz. pose proof (wf_low_bounds _ Hwf). pose proof (wf_num_bound _ Hwf).
  unfold GetNextRowOffset.
  replace (if bool_decide (num_tuples_ p > 0) then _ else _) with (low_end PAGE_SIZE (tuple_info_ p)).
  2:{ case_bool_decide; [by rewrite info_at_last by (auto; lia)|].
      destruct Hwf as [_ Hn _ _]. destruct (tuple_info_ p); [done|simpl in *; lia]. }
  unfold free_space, TABLE_PAGE_HEADER_SIZE, TUPLE_INFO_SIZE, PAGE_SIZE in *.
  set (e := low_end 8192 (tuple_info_ p)) in *. clearbody e.
  destruct (decide (row_size > e)) as [Hgt|Hle].
  - rewrite bool_decide_true by auto. rewrite bool_decide_false by lia. done.
  - unfold u64, u16. rewrite !wrap_u_small by lia.
    repeat case_bool_decide; try done; lia.
Qed.

(** Appending a row below the packed area. *)
Lemma insert_wf p row_data row_size meta data nd :
  page_wf p → 0 ≤ row_size → row_size + TUPLE_INFO_SIZE ≤ free_space p →
  mem_write (page_bytes p) (low_end PAGE_SIZE (tuple_info_ p) - row_size) row_data row_size = Ok data →
  let p' := mkTablePage (next_page_id_ p) (u16 (num_tuples_ p + 1)) nd
    (tuple_info_ p ++ [mkSlot (low_end PAGE_SIZE (tuple_info_ p) - row_size) row_size meta]) data in
  page_wf p' ∧ page_rows p' = page_rows p ++ [(meta, take (Z.to_nat row_size) row_data)].
Proof.
  intros Hwf Hsz Hfit Hw. pose proof (wf_low_bounds _ Hwf). pose proof (wf_num_bound _ Hwf).
  pose proof (mem_write_length _ _ _ _ _ Hw) as Hlen. destruct Hwf as [Hl Hn Hp Hr].
  unfold free_space, TABLE_PAGE_HEADER_SIZE, TUPLE_INFO_SIZE in *.
  assert (u16 (num_tuples_ p + 1) = num_tuples_ p + 1) as Hu
    by (unfold u16; rewrite wrap_u_small; lia).
  split.
  - split; simpl; [by rewrite Hlen|rewrite Hu, length_app; simpl; lia| |].
    + apply packed_app. simpl. repeat split; auto; lia.
    + rewrite low_end_snoc, Hu. simpl. unfold TABLE_PAGE_HEADER_SIZE, TUPLE_INFO_SIZE. lia.
  - unfold page_rows; simpl. rewrite fmap_app. f_equal.
    + apply list_fmap_ext. intros i s Hs%list_elem_of_lookup_2. apply slot_row_ext.
      pose proof (packed_elem _ _ _ Hp ltac:(done) Hs).
      eapply mem_read_write_other; [done|lia|lia].
    + simpl. unfold slot_row; simpl. by rewrite (mem_read_write_same _ _ _ _ _ Hw).
Qed.

(** ** Resizing a row in place *)

Section resize.
Context (p : TablePage) (l1 : list SlotInfo) (s : SlotInfo) (l2 : list SlotInfo).
Context (Hwf : page_wf p) (Hsplit : tuple_info_ p = l1 ++ s :: l2).

Lemma resize_layout :
  packed PAGE_SIZE l1 ∧ packed (slot_off s) l2 ∧
  0 ≤ slot_size s ∧ 0 ≤ slot_off s ∧ slot_off s + slot_size s = low_end PAGE_SIZE l1 ∧
  low_end PAGE_SIZE (tuple_info_ p) = low_end (slot_off s) l2 ∧
  low_end PAGE_SIZE l1 ≤ PAGE_SIZE ∧ low_end (slot_off s) l2 ≤ slot_off s ∧
  8 + 24 * num_tuples_ p ≤ low_end (slot_off s) l2.
Proof using All.
  destruct Hwf as [_ _ Hp Hr]. rewrite Hsplit in *.
  apply packed_app in Hp as [Hp1 Hp2]. simpl in Hp2. destruct Hp2 as (?&?&?&?).
  rewrite low_end_app, low_end_cons in *.
  pose proof (packed_low_end _ _ Hp1 ltac:(done)).
  pose proof (packed_low_end _ l2 ltac:(done) ltac:(done)).
  unfold TABLE_PAGE_HEADER_SIZE, TUPLE_INFO_SIZE in *. repeat split; auto; lia.
Qed.

(** The rows before the slot keep their place, the slot's own row is replaced, and the rows
    after it move down (or up) by [delta] with their bytes. *)
Lemma resize_rows meta row_data row_size data nd :
  let delta := slot_size s - row_size in
  Z.of_nat (length data) = PAGE_SIZE →
  0 ≤ row_size →
  8 + 24 * num_tuples_ p ≤ low_end (slot_off s) l2 + delta →
  (∀ i, (i < Z.to_nat row_size)%nat → data !! (Z.to_nat (slot_off s + delta) + i)%nat = row_data !! i) →
  (∀ i, low_end (slot_off s) l2 ≤ i < slot_off s →
     data !! Z.to_nat (i + delta) = page_bytes p !! Z.to_nat i) →
  (∀ i, low_end PAGE_SIZE l1 ≤ i → data !! Z.to_nat i = page_bytes p !! Z.to_nat i) →
  row_size ≤ Z.of_nat (length row_data) →
  let p' := mkTablePage (next_page_id_ p) (num_tuples_ p) nd
     (l1 ++ mkSlot (slot_off s + delta) row_size meta :: (shift_slot delta <$> l2)) data in
  page_wf p' ∧
  page_rows p' = <[length l1 := (meta, take (Z.to_nat row_size) row_data)]> (page_rows p).
Proof using All.
  intros delta Hlen Hsz Hroom Hrow Hmove Hkeep Hsrc p'.
  pose proof resize_layout as (Hp1&Hp2&?&?&?&?&?&?&?).
  pose proof (wf_num_bound _ Hwf) as Hnb. pose proof (wf_num _ Hwf) as Hn.
  unfold PAGE_SIZE in *.
  assert (low_end (slot_off s + delta) (shift_slot delta <$> l2) = low_end (slot_off s) l2 + delta)
    as Hlow by (apply low_end_shift; auto; lia).
  split.
  - split; [done| | |]; simpl.
    + rewrite Hn, Hsplit, !length_app; simpl. by rewrite length_fmap.
    + change PAGE_SIZE with 8192. apply packed_app. cbn [packed slot_size slot_off].
      split_and!; [done|lia|lia|lia|]. apply packed_shift; auto; lia.
    + rewrite low_end_app, low_end_cons. simpl. rewrite Hlow. unfold TABLE_PAGE_HEADER_SIZE, TUPLE_INFO_SIZE. lia.
  - unfold page_rows; simpl. rewrite Hsplit, !fmap_app, !fmap_cons.
    rewrite insert_app_r_alt by (rewrite length_fmap; lia).
    rewrite length_fmap, Nat.sub_diag. simpl. f_equal; [|f_equal].
    + apply list_fmap_ext. intros i t Ht%list_elem_of_lookup_2. apply slot_row_ext.
      pose proof (packed_elem _ _ _ Hp1 ltac:(done) Ht). apply mem_read_ext. intros j Hj.
      replace (Z.to_nat (slot_off t) + j)%nat with (Z.to_nat (slot_off t + Z.of_nat j)) by lia.
      apply Hkeep. lia.
    + unfold slot_row; simpl. f_equal. apply list_eq. intros i.
      destruct (decide (i < Z.to_nat row_size)%nat).
      * rewrite mem_read_lookup, lookup_take_lt by done. auto.
      * unfold mem_read. by rewrite !lookup_take_ge by lia.
    + rewrite <- list_fmap_compose. apply list_fmap_ext. intros i t Ht%list_elem_of_lookup_2.
      pose proof (packed_elem _ _ _ Hp2 ltac:(lia) Ht).
      unfold slot_row; simpl. f_equal. unfold u16. rewrite wrap_u_small by lia.
      apply mem_read_ext. intros j Hj.
      replace (Z.to_nat (slot_off t + delta) + j)%nat
        with (Z.to_nat (slot_off t + Z.of_nat j + delta)) by lia.
      rewrite Hmove by lia. f_equal. lia.
Qed.
End resize.

(** ** Contracts of the operations *)

Lemma page_rows_lookup p slot :
  page_wf p → 0 ≤ slot < num_tuples_ p →
  page_rows p !! Z.to_nat slot =
    Some (slot_meta (info_at p slot),
          mem_read (page_bytes p) (slot_off (info_at p slot)) (slot_size (info_at p slot))).
Proof.
  intros Hwf Hs. destruct (slot_split p slot Hwf Hs) as (l1&s&l2&Hi&->&->).
  unfold page_rows. rewrite Nat2Z.id, Hi, list_lookup_fmap, list_lookup_middle by done. done.
Qed.

Lemma page_rows_size p slot m old :
  page_wf p → 0 ≤ slot → page_rows p !! Z.to_nat slot = Some (m, old) →
  slot < num_tuples_ p ∧ slot_meta (info_at p slot) = m ∧
  Z.of_nat (length old) = slot_size (info_at p slot).
Proof.
  intros Hwf H0 Hl. assert (slot < num_tuples_ p) as Hlt.
  { apply lookup_lt_Some in Hl. rewrite page_rows_length in Hl. rewrite (wf_num _ Hwf). lia. }
  rewrite page_rows_lookup in Hl by auto. injection Hl as <- <-. split_and!; [done..|].
  destruct (slot_split p slot Hwf) as (l1&s&l2&Hi&Hsl&Hs); [lia|]. rewrite Hs.
  pose proof (resize_layout p l1 s l2 Hwf Hi) as (?&?&?&?&?&?&?&?&?).
  apply mem_read_length; [lia..|]. rewrite (wf_len _ Hwf). lia.
Qed.

(** [GetRow] and [GetTupleMeta] return the slot's metadata and bytes, and throw past the end. *)
Lemma GetRow_spec p slot :
  page_wf p → 0 ≤ slot →
  GetRow slot p = match page_rows p !! Z.to_nat slot with
                  | Some (m, row) => Ok (m, row, Z.of_nat (length row))
                  | None => Err slot_out_of_range
                  end.
Proof.
  intros Hwf H0. unfold GetRow. case_bool_decide.
  - rewrite lookup_ge_None_2; [done|]. rewrite page_rows_length. pose proof (wf_num _ Hwf). lia.
  - pose proof (page_rows_lookup p slot Hwf ltac:(lia)) as E. rewrite E.
    apply page_rows_size in E as (_&_&E); auto. by rewrite E.
Qed.

Lemma GetTupleMeta_spec p slot :
  page_wf p → 0 ≤ slot →
  GetTupleMeta slot p = match page_rows p !! Z.to_nat slot with
                        | Some (m, _) => Ok m
                        | None => Err slot_out_of_range
                        end.
Proof.
  intros Hwf H0. unfold GetTupleMeta. case_bool_decide.
  - rewrite lookup_ge_None_2; [done|]. rewrite page_rows_length. pose proof (wf_num _ Hwf). lia.
  - by rewrite page_rows_lookup by (auto; lia).
Qed.

(** Rewriting a slot's metadata keeps the layout and every row's bytes. *)
Lemma set_meta_spec p slot meta nd :
  page_wf p → 0 ≤ slot < num_tuples_ p →
  let s := info_at p slot in
  let p' := mkTablePage (next_page_id_ p) (num_tuples_ p) nd
              (set_info (tuple_info_ p) slot (mkSlot (slot_off s) (slot_size s) meta)) (page_bytes p) in
  page_wf p' ∧ page_rows p' = alter (λ mr, (meta, mr.2)) (Z.to_nat slot) (page_rows p).
Proof.
  intros Hwf Hs s p'. destruct (slot_split p slot Hwf Hs) as (l1&s'&l2&Hi&Hsl&Hs').
  subst p' s. rewrite Hs'. clear Hs'. subst slot.
  pose proof (resize_layout p l1 s' l2 Hwf Hi) as (?&?&?&?&?&?&?&?&?). destruct Hwf as [Hl Hn Hp Hr].
  rewrite Hi, set_info_split. split.
  - split; simpl; auto.
    + rewrite Hn, Hi, !length_app; done.
    + apply packed_app. simpl. split_and!; auto.
    + rewrite low_end_app, low_end_cons. simpl. rewrite Hi, low_end_app, low_end_cons in Hr. done.
  - unfold page_rows; simpl. rewrite Hi, Nat2Z.id, !fmap_app, !fmap_cons.
    rewrite alter_app_r_alt by (rewrite length_fmap; lia).
    rewrite length_fmap, Nat.sub_diag. done.
Qed.

Lemma InsertRow_spec p meta row_data row_size :
  page_wf p → 0 ≤ row_size ≤ Z.of_nat (length row_data) →
  if bool_decide (row_size + TUPLE_INFO_SIZE ≤ free_space p) then
    ∃ p', InsertRow meta row_data row_size p = Ok (Some (num_tuples_ p), p') ∧ page_wf p' ∧
          page_rows p' = page_rows p ++ [(meta, take (Z.to_nat row_size) row_data)] ∧
          next_page_id_ p' = next_page_id_ p
  else InsertRow meta row_data row_size p = Ok (None, p).
Proof.
  intros Hwf Hsz. unfold InsertRow. rewrite GetNextRowOffset_spec by (auto; lia).
  case_bool_decide as Hfit; [|done].
  pose proof (wf_low_bounds _ Hwf) as Hlb. pose proof (wf_len _ Hwf) as Hlen.
  pose proof (wf_num_bound _ Hwf).
  destruct (mem_write (page_bytes p) (low_end PAGE_SIZE (tuple_info_ p) - row_size) row_data row_size)
    as [data|] eqn:Hw.
  2:{ rewrite mem_write_ok in Hw; try discriminate; try lia.
      unfold free_space, TABLE_PAGE_HEADER_SIZE, TUPLE_INFO_SIZE in *. lia. }
  simpl. pose proof (insert_wf p row_data row_size meta data (num_deleted_tuples_ p) Hwf
                       ltac:(lia) Hfit Hw) as [Hwf' Hrows].
  rewrite set_info_num by done.
  eexists. split_and!; [done|exact Hwf'|exact Hrows|done].
Qed.

(** [InsertRow] appends the row exactly when it and its 24-byte slot entry fit in the free gap:
    it then returns the next slot number, the page stays well formed, no other row changes and the
    new slot reads back the given metadata and bytes; otherwise it returns nothing and leaves the
    page untouched.  It never writes outside the page. *)
Theorem InsertRow_appends p meta row_data row_size :
  page_wf p → 0 ≤ row_size ≤ Z.of_nat (length row_data) →
  if bool_decide (row_size + TUPLE_INFO_SIZE ≤ free_space p) then
    ∃ p', InsertRow meta row_data row_size p = Ok (Some (num_tuples_ p), p') ∧ page_wf p' ∧
          page_rows p' = page_rows p ++ [(meta, take (Z.to_nat row_size) row_data)] ∧
          next_page_id_ p' = next_page_id_ p
  else InsertRow meta row_data row_size p = Ok (None, p).
Proof. apply InsertRow_spec. Qed.

Lemma InsertRow_appends_witness :
  page_wf (Init zero_page) ∧
  InsertRow (mkTupleMeta 7 false) [x61; x62] 2 (Init zero_page) ≠ Ok (None, Init zero_page).
Proof.
  assert (page_wf (Init zero_page)) as H by (apply Init_wf; reflexivity).
  split; [exact H|].
  pose proof (InsertRow_appends (Init zero_page) (mkTupleMeta 7 false) [x61; x62] 2 H
                ltac:(simpl; lia)) as E.
  rewrite bool_decide_true in E by (vm_compute; discriminate).
  destruct E as (p' & -> & _). discriminate.
Defined.

(** Writing the shifted block and then the row (the resizing branch of [UpdateRow]). *)
Lemma resize_writes p l1 s l2 row_data row_size :
  page_wf p → tuple_info_ p = l1 ++ s :: l2 →
  let delta := slot_size s - row_size in
  let off_last := low_end (slot_off s) l2 in
  0 ≤ row_size ≤ Z.of_nat (length row_data) →
  8 + 24 * num_tuples_ p ≤ off_last + delta →
  ∃ d1 d2,
    (if bool_decide (u16 (slot_off s - off_last) > 0)
     then mem_write (page_bytes p) (off_last + delta)
            (mem_read (page_bytes p) off_last (u16 (slot_off s - off_last))) (u16 (slot_off s - off_last))
     else Ok (page_bytes p)) = Ok d1 ∧
    mem_write d1 (slot_off s + delta) row_data row_size = Ok d2 ∧
    Z.of_nat (length d2) = PAGE_SIZE ∧
    (∀ i, (i < Z.to_nat row_size)%nat → d2 !! (Z.to_nat (slot_off s + delta) + i)%nat = row_data !! i) ∧
    (∀ i, off_last ≤ i < slot_off s → d2 !! Z.to_nat (i + delta) = page_bytes p !! Z.to_nat i) ∧
    (∀ i, low_end PAGE_SIZE l1 ≤ i → d2 !! Z.to_nat i = page_bytes p !! Z.to_nat i).
Proof.
  intros Hwf Hi delta off_last Hsz Hroom.
  pose proof (resize_layout p l1 s l2 Hwf Hi) as (_&_&?&?&?&?&?&?&?).
  pose proof (wf_num_bound _ Hwf). pose proof (wf_len _ Hwf) as Hlen. unfold PAGE_SIZE in *.
  assert (u16 (slot_off s - off_last) = slot_off s - off_last) as ->
    by (unfold u16; rewrite wrap_u_small; lia).
  assert (∃ d1, (if bool_decide (slot_off s - off_last > 0)
     then mem_write (page_bytes p) (off_last + delta)
            (mem_read (page_bytes p) off_last (slot_off s - off_last)) (slot_off s - off_last)
     else Ok (page_bytes p)) = Ok d1 ∧ length d1 = length (page_bytes p) ∧
     ∀ i, d1 !! i = if decide (Z.to_nat (off_last + delta) ≤ i < Z.to_nat (slot_off s + delta))%nat
                    then page_bytes p !! Z.to_nat (Z.of_nat i - delta) else page_bytes p !! i)
    as (d1 & -> & Hl1 & Hd1).
  { case_bool_decide.
    - assert (∃ d1, mem_write (page_bytes p) (off_last + delta)
        (mem_read (page_bytes p) off_last (slot_off s - off_last)) (slot_off s - off_last) = Ok d1)
        as [d1 Hw].
      { eexists. apply mem_write_ok; try lia. rewrite mem_read_length; lia. }
      exists d1. split_and!; [done|by eapply mem_write_length|]. intros i.
      rewrite (mem_write_lookup _ _ _ _ _ i Hw).
      replace (off_last + delta + (slot_off s - off_last)) with (slot_off s + delta) by lia.
      case_decide; [|done]. rewrite mem_read_lookup by lia. f_equal. lia.
    - exists (page_bytes p). split_and!; [done..|]. intros i. case_decide; [lia|done]. }
  assert (∃ d2, mem_write d1 (slot_off s + delta) row_data row_size = Ok d2) as [d2 Hw2].
  { eexists. apply mem_write_ok; lia. }
  exists d1, d2. pose proof (mem_write_length _ _ _ _ _ Hw2).
  split_and!; [done|done|lia| | |]; intros i Hij; rewrite (mem_write_lookup _ _ _ _ _ _ Hw2).
  - rewrite decide_True by lia. f_equal. lia.
  - rewrite decide_False, Hd1, decide_True by lia. f_equal. lia.
  - rewrite decide_False, Hd1, decide_False by lia. done.
Qed.

(** The size-changing branch with the 64-bit conversion made explicit. *)
Lemma UpdateRow_resize p slot meta row_data row_size l1 s l2 :
  page_wf p → tuple_info_ p = l1 ++ s :: l2 → slot = Z.of_nat (length l1) → info_at p slot = s →
  0 ≤ row_size ≤ Z.of_nat (length row_data) → row_size ≠ slot_size s →
  8 + 24 * num_tuples_ p ≤ low_end (slot_off s) l2 + (slot_size s - row_size) →
  ∃ p', UpdateRow meta row_data row_size slot p = Ok (true, p') ∧ page_wf p' ∧
        page_rows p' = <[length l1 := (meta, take (Z.to_nat row_size) row_data)]> (page_rows p) ∧
        next_page_id_ p' = next_page_id_ p.
Proof.
  intros Hwf Hi Hsl Hs Hsz Hne Hroom.
  pose proof (resize_layout p l1 s l2 Hwf Hi) as (_&_&?&?&?&Hlow&?&?&?).
  pose proof (wf_num_bound _ Hwf) as Hnb. unfold PAGE_SIZE in *.
  assert (slot < num_tuples_ p) as Hlt
    by (rewrite (wf_num _ Hwf), Hi, length_app; simpl; lia).
  destruct (resize_writes p l1 s l2 row_data row_size Hwf Hi Hsz Hroom)
    as (d1&d2&E1&E2&Hlen&R1&R2&R3).
  unfold UpdateRow. rewrite bool_decide_false by lia. rewrite Hs.
  rewrite bool_decide_false by done.
  rewrite info_at_last by (auto; lia). unfold PAGE_SIZE. rewrite Hlow.
  replace (u64 (low_end (slot_off s) l2 + (slot_size s - row_size)))
    with (low_end (slot_off s) l2 + (slot_size s - row_size))
    by (unfold u64; rewrite wrap_u_small; lia).
  replace (u16 (slot_off s + (slot_size s - row_size)))
    with (slot_off s + (slot_size s - row_size)) by (unfold u16; rewrite wrap_u_small; lia).
  unfold TABLE_PAGE_HEADER_SIZE, TUPLE_INFO_SIZE. rewrite bool_decide_false by lia.
  rewrite E1. simpl. rewrite E2. simpl.
  rewrite Hsl, Hi, set_info_split, shift_after_split.
  destruct (resize_rows p l1 s l2 Hwf Hi meta row_data row_size d2 (bump_deleted p (slot_meta s) meta))
    as [Hwf' Hrows]; auto; [lia..|].
  eexists. split_and!; [done|exact Hwf'|exact Hrows|done].
Qed.

Lemma shift_slot_0 top l : packed top l → 0 ≤ top < 2 ^ 16 → shift_slot 0 <$> l = l.
Proof.
  revert top. induction l as [|s l IH]; intros top Hp Htop; [done|].
  destruct Hp as (?&?&?&Hp). rewrite fmap_cons. f_equal; [|eapply IH; [done|lia]].
  destruct s as [off sz m]; unfold shift_slot; simpl in *.
  unfold u16. rewrite wrap_u_small, Z.add_0_r by lia. done.
Qed.

(** Overwriting a row with one of the same size. *)
Lemma overwrite_spec p slot meta row_data :
  page_wf p → 0 ≤ slot < num_tuples_ p →
  let s := info_at p slot in
  slot_size s ≤ Z.of_nat (length row_data) →
  ∃ data, mem_write (page_bytes p) (slot_off s) row_data (slot_size s) = Ok data ∧
    ∀ nd, let p' := mkTablePage (next_page_id_ p) (num_tuples_ p) nd
                      (set_info (tuple_info_ p) slot (mkSlot (slot_off s) (slot_size s) meta)) data in
    page_wf p' ∧ page_rows p' = <[Z.to_nat slot := (meta, take (Z.to_nat (slot_size s)) row_data)]> (page_rows p).
Proof.
  intros Hwf Hslot s Hsrc. destruct (slot_split p slot Hwf Hslot) as (l1&s'&l2&Hi&Hsl&Hs).
  subst s. rewrite Hs in *. rename s' into s.
  pose proof (resize_layout p l1 s l2 Hwf Hi) as (_&Hp2&?&?&?&Hlow&?&?&?).
  pose proof (wf_len _ Hwf) as Hlen. pose proof (wf_num_bound _ Hwf). unfold PAGE_SIZE in *.
  destruct (mem_write (page_bytes p) (slot_off s) row_data (slot_size s)) as [data|] eqn:Hw.
  2:{ rewrite mem_write_ok in Hw; [discriminate|lia..]. }
  exists data. split; [done|]. intros nd.
  pose proof (resize_rows p l1 s l2 Hwf Hi meta row_data (slot_size s) data nd) as R.
  cbv zeta in R. rewrite Z.sub_diag, !Z.add_0_r, (shift_slot_0 (slot_off s)) in R by (auto; lia).
  rewrite Hsl, Hi, set_info_split, Nat2Z.id. apply R; try lia.
  - rewrite (mem_write_length _ _ _ _ _ Hw). done.
  - intros i Hj. rewrite (mem_write_lookup _ _ _ _ _ _ Hw), decide_True by lia. f_equal. lia.
  - intros i Hj. rewrite (mem_write_lookup _ _ _ _ _ _ Hw), Z.add_0_r, decide_False by lia. done.
  - intros i Hj. unfold PAGE_SIZE in Hj. rewrite (mem_write_lookup _ _ _ _ _ _ Hw), decide_False by lia. done.
Qed.

Lemma UpdateRow_spec p slot meta row_data row_size m old :
  page_wf p → 0 ≤ slot → page_rows p !! Z.to_nat slot = Some (m, old) →
  0 ≤ row_size ≤ Z.of_nat (length row_data) →
  row_size - Z.of_nat (length old) ≤ low_end PAGE_SIZE (tuple_info_ p) →
  if bool_decide (row_size - Z.of_nat (length old) ≤ free_space p) then
    ∃ p', UpdateRow meta row_data row_size slot p = Ok (true, p') ∧ page_wf p' ∧
          page_rows p' = <[Z.to_nat slot := (meta, take (Z.to_nat row_size) row_data)]> (page_rows p) ∧
          next_page_id_ p' = next_page_id_ p
  else UpdateRow meta row_data row_size slot p = Ok (false, p).
Proof.
  intros Hwf H0 Hrow Hsz Hgrow.
  destruct (page_rows_size p slot m old Hwf H0 Hrow) as (Hlt & _ & Hold). rewrite Hold in *.
  pose proof (wf_low_bounds _ Hwf). pose proof (wf_num_bound _ Hwf). pose proof (wf_room _ Hwf).
  destruct (slot_split p slot Hwf ltac:(lia)) as (l1&s&l2&Hi&Hsl&Hs). rewrite Hs in *.
  pose proof (resize_layout p l1 s l2 Hwf Hi) as (_&_&?&?&?&Hlow&?&?&?).
  unfold free_space, PAGE_SIZE, TABLE_PAGE_HEADER_SIZE, TUPLE_INFO_SIZE in *.
  destruct (decide (row_size = slot_size s)) as [->|Hne].
  - rewrite bool_decide_true by lia.
    destruct (overwrite_spec p slot meta row_data Hwf ltac:(lia)) as (data & Hw & Hp'); [by rewrite Hs; lia|].
    rewrite Hs in *. destruct (Hp' (bump_deleted p (slot_meta s) meta)) as [Hwf' Hrows].
    unfold UpdateRow. rewrite bool_decide_false by lia. rewrite Hs, bool_decide_true, Hw by done. simpl.
    eexists. split_and!; [done|exact Hwf'|exact Hrows|done].
  - case_bool_decide as Hfit.
    + replace (Z.to_nat slot) with (length l1) by lia. eapply UpdateRow_resize; eauto. lia.
    + unfold UpdateRow. rewrite bool_decide_false by lia. rewrite Hs, bool_decide_false by done.
      rewrite info_at_last by (auto; lia). unfold PAGE_SIZE, u64.
      rewrite wrap_u_small by lia.
      unfold TABLE_PAGE_HEADER_SIZE, TUPLE_INFO_SIZE. rewrite bool_decide_true by lia. done.
Qed.

Lemma free_space_low p : page_wf p → free_space p ≤ low_end PAGE_SIZE (tuple_info_ p).
Proof. intros Hwf. pose proof (wf_num_bound p Hwf). unfold free_space, TABLE_PAGE_HEADER_SIZE, TUPLE_INFO_SIZE. lia. Qed.

(** A page holding one 2-byte row. *)
Definition sample_page : TablePage :=
  match InsertRow (mkTupleMeta 7 false) [x61; x62] 2 (Init zero_page) with
  | Ok (_, p) => p
  | Err _ => zero_page
  end.

Lemma sample_page_wf :
  page_wf sample_page ∧ page_rows sample_page = [(mkTupleMeta 7 false, [x61; x62])].
Proof.
  split; [|vm_compute; reflexivity].
  split; [vm_compute; reflexivity..| |]; vm_compute; repeat split; discriminate.
Qed.

Lemma UpdateRow_wraps_spec p slot meta row_data row_size m old :
  page_wf p → 0 ≤ slot → page_rows p !! Z.to_nat slot = Some (m, old) →
  row_size < 2 ^ 16 →
  low_end PAGE_SIZE (tuple_info_ p) < row_size - Z.of_nat (length old) →
  UpdateRow meta row_data row_size slot p = Err EUndefined.
Proof.
  intros Hwf H0 Hrow Hsz Hgrow.
  destruct (page_rows_size p slot m old Hwf H0 Hrow) as (Hlt & _ & Hold). rewrite Hold in *.
  pose proof (wf_low_bounds _ Hwf). pose proof (wf_num_bound _ Hwf). pose proof (wf_len _ Hwf) as Hlen.
  destruct (slot_split p slot Hwf ltac:(lia)) as (l1&s&l2&Hi&Hsl&Hs). rewrite Hs in *.
  pose proof (resize_layout p l1 s l2 Hwf Hi) as (_&_&?&?&?&Hlow&?&?&?).
  unfold PAGE_SIZE, TABLE_PAGE_HEADER_SIZE in *.
  unfold UpdateRow. rewrite bool_decide_false by lia. rewrite Hs, bool_decide_false by lia.
  rewrite info_at_last by (auto; lia). unfold PAGE_SIZE. rewrite Hlow.
  set (start := low_end (slot_off s) l2 + (slot_size s - row_size)).
  assert (u64 start = start + 18446744073709551616) as ->.
  { unfold u64, wrap_u. symmetry. apply Z.mod_unique with (-1); subst start; lia. }
  unfold TABLE_PAGE_HEADER_SIZE, TUPLE_INFO_SIZE. rewrite bool_decide_false by (subst start; lia).
  case_bool_decide as Hb.
  - rewrite mem_write_oob by (subst start; lia). done.
  - simpl. assert (slot_off s = low_end (slot_off s) l2) as Heq.
    { unfold u16 in Hb. rewrite wrap_u_small in Hb by lia. lia. }
    assert (u16 (slot_off s + (slot_size s - row_size)) =
            slot_off s + (slot_size s - row_size) + 65536) as ->.
    { unfold u16, wrap_u. symmetry. apply Z.mod_unique with (-1); lia. }
    rewrite mem_write_oob by lia. done.
Qed.

(** C32: [UpdateRow] in every case.  A slot past the end is refused with an exception.  When the growth fits
    the gap between the slot array and the lowest row, that row alone is replaced: every other slot keeps its
    metadata and bytes although the rows below it are moved, and the page stays well formed.  When it does
    not fit, the outcome depends on the lowest row offset: a growth of at most that offset is rejected and
    the page is untouched, but a larger one is not rejected, as the header says it is - the [size_t] sum
    [off_last + delta] wraps, passes the test, and the move of the lower rows (or, when there are none, the
    copy of the row) leaves the page: undefined behaviour. *)
Theorem UpdateRow_replaces p slot meta row_data row_size :
  page_wf p → 0 ≤ slot → 0 ≤ row_size ≤ Z.of_nat (length row_data) → row_size < 2 ^ 16 →
  match page_rows p !! Z.to_nat slot with
  | None => UpdateRow meta row_data row_size slot p = Err slot_out_of_range
  | Some (_, old) =>
      let growth := row_size - Z.of_nat (length old) in
      if bool_decide (growth ≤ free_space p) then
        ∃ p', UpdateRow meta row_data row_size slot p = Ok (true, p') ∧ page_wf p' ∧
              page_rows p' = <[Z.to_nat slot := (meta, take (Z.to_nat row_size) row_data)]> (page_rows p) ∧
              next_page_id_ p' = next_page_id_ p
      else if bool_decide (growth ≤ low_end PAGE_SIZE (tuple_info_ p)) then
        UpdateRow meta row_data row_size slot p = Ok (false, p)
      else UpdateRow meta row_data row_size slot p = Err EUndefined
  end.
Proof.
  intros Hwf H0 Hn H16. destruct (page_rows p !! Z.to_nat slot) as [[m old]|] eqn:Hrow.
  - pose proof (UpdateRow_spec p slot meta row_data row_size m old Hwf H0 Hrow Hn) as E.
    pose proof (free_space_low p Hwf). cbv zeta.
    destruct (decide (row_size - Z.of_nat (length old) ≤ free_space p)) as [Hf|Hf];
      [rewrite bool_decide_true in E |- * by done|rewrite bool_decide_false in E |- * by done].
    + apply E. lia.
    + case_bool_decide; [by apply E|]. eapply UpdateRow_wraps_spec; eauto. lia.
  - apply lookup_ge_None in Hrow. rewrite page_rows_length in Hrow. unfold UpdateRow.
    by rewrite bool_decide_true by (rewrite (wf_num _ Hwf); lia).
Qed.
Lemma UpdateRow_replaces_witness :
  (∃ p', UpdateRow (mkTupleMeta 9 false) [x63; x64; x65] 3 0 sample_page = Ok (true, p') ∧
         page_rows p' = [(mkTupleMeta 9 false, [x63; x64; x65])]) ∧
  UpdateRow (mkTupleMeta 9 false) (replicate (Z.to_nat 9000) x63) 9000 0 sample_page = Err EUndefined ∧
  UpdateRow (mkTupleMeta 9 false) [x63] 1 1 sample_page = Err slot_out_of_range.
Proof.
  destruct sample_page_wf as [Hwf Hrows].
  assert (page_rows sample_page !! Z.to_nat 0 = Some (mkTupleMeta 7 false, [x61; x62])) as H0 by (by rewrite Hrows).
  split_and!.
  - pose proof (UpdateRow_replaces sample_page 0 (mkTupleMeta 9 false) [x63; x64; x65] 3 Hwf ltac:(lia)
      ltac:(simpl; lia) ltac:(lia)) as E. rewrite H0 in E. cbv beta iota zeta in E. rewrite Hrows in E.
    rewrite bool_decide_true in E by (vm_compute; discriminate).
    destruct E as (p' & E & _ & R & _). exists p'. split; [exact E|exact R].
  - pose proof (UpdateRow_replaces sample_page 0 (mkTupleMeta 9 false) (replicate (Z.to_nat 9000) x63) 9000 Hwf
      ltac:(lia) ltac:(rewrite length_replicate; lia) ltac:(lia)) as E. rewrite H0 in E. cbv beta iota zeta in E.
    rewrite !bool_decide_false in E by (vm_compute; intros H; by apply H). exact E.
  - pose proof (UpdateRow_replaces sample_page 1 (mkTupleMeta 9 false) [x63] 1 Hwf ltac:(lia)
      ltac:(simpl; lia) ltac:(lia)) as E. rewrite Hrows in E. exact E.
Defined.

(** Deleting a slot and restoring it leaves the rows as they were but the deleted-slot counter one
    higher: only the live-to-deleted transition is counted, never its reverse. *)
Lemma UpdateTupleMeta_spec p slot meta m old :
  page_wf p → 0 ≤ slot → page_rows p !! Z.to_nat slot = Some (m, old) →
  ∃ p', UpdateTupleMeta meta slot p = Ok p' ∧ page_wf p' ∧
        page_rows p' = <[Z.to_nat slot := (meta, old)]> (page_rows p) ∧
        next_page_id_ p' = next_page_id_ p ∧
        num_deleted_tuples_ p' = bump_deleted p m meta.
Proof.
  intros Hwf H0 Hrow. destruct (page_rows_size p slot m old Hwf H0 Hrow) as (Hlt & Hm & _).
  unfold UpdateTupleMeta. rewrite bool_decide_false by lia.
  destruct (set_meta_spec p slot meta (bump_deleted p (slot_meta (info_at p slot)) meta) Hwf ltac:(lia))
    as [Hwf' Hrows].
  eexists. split_and!; [done|exact Hwf'| |done|by rewrite Hm].
  etransitivity; [exact Hrows|]. apply list_eq. intros i.
  destruct (decide (i = Z.to_nat slot)) as [->|].
  - rewrite list_lookup_alter, decide_True, Hrow by done.
    rewrite list_lookup_insert_eq; [done|]. by eapply lookup_lt_Some.
  - rewrite list_lookup_alter_ne, list_lookup_insert_ne by done. done.
Qed.

(** the deleted-slot counter drifts: tombstoning a live slot and restoring its metadata (what
    an aborted delete does) gives back the same rows, but [GetNumDeletedTuples] is one higher. *)
Theorem deleted_count_drifts p slot m old :
  page_wf p → 0 ≤ slot → page_rows p !! Z.to_nat slot = Some (m, old) → is_deleted_ m = false →
  ∃ p1 p2, UpdateTupleMeta (mkTupleMeta (ts_ m) true) slot p = Ok p1 ∧
           UpdateTupleMeta m slot p1 = Ok p2 ∧ page_rows p2 = page_rows p ∧
           GetNumDeletedTuples p2 = u16 (GetNumDeletedTuples p + 1).
Proof.
  intros Hwf H0 Hrow Hm.
  destruct (UpdateTupleMeta_spec p slot (mkTupleMeta (ts_ m) true) m old Hwf H0 Hrow)
    as (p1 & E1 & Hwf1 & R1 & _ & D1).
  assert (page_rows p1 !! Z.to_nat slot = Some (mkTupleMeta (ts_ m) true, old)) as Hrow1.
  { rewrite R1. apply list_lookup_insert_eq. by eapply lookup_lt_Some. }
  destruct (UpdateTupleMeta_spec p1 slot m _ old Hwf1 H0 Hrow1) as (p2 & E2 & _ & R2 & _ & D2).
  exists p1, p2. split_and!; [done..| |].
  - rewrite R2, R1, list_insert_insert_eq. by apply list_insert_id.
  - unfold GetNumDeletedTuples. rewrite D2. unfold bump_deleted at 1. simpl.
    rewrite D1. unfold bump_deleted. simpl. by rewrite Hm.
Qed.

Lemma deleted_count_drifts_witness :
  ∃ p1 p2, UpdateTupleMeta (mkTupleMeta 7 true) 0 sample_page = Ok p1 ∧
           UpdateTupleMeta (mkTupleMeta 7 false) 0 p1 = Ok p2 ∧
           page_rows p2 = page_rows sample_page ∧ GetNumDeletedTuples p2 = 1.
Proof.
  destruct sample_page_wf as [Hwf Hrows].
  exact (deleted_count_drifts sample_page 0 (mkTupleMeta 7 false) [x61; x62] Hwf
    ltac:(lia) ltac:(by rewrite Hrows) eq_refl).
Defined.

(** * The interface between row pages and the table heap

    [TableHeap] and the MVCC layer reach a page only through [GetRow], [GetTupleMeta],
    [UpdateTupleMeta], [UpdateRow], [InsertRow], [Init] and the next-page link.  [RowPage] names these
    operations and [RowPageLaws] states what the clients rely on: a page is an array of
    [(metadata, bytes)] rows.  The clients are proved against the laws; [TablePage] discharges
    them. *)

Class RowPage (P : Type) := {
  rp_zero : P;                                     (** a zero-filled frame *)
  rp_init : P → P;
  rp_num : P → Z;
  rp_next : P → Z;
  rp_set_next : Z → P → P;
  rp_get_row : Z → P → result (TupleMeta * list byte * Z);
  rp_get_meta : Z → P → result TupleMeta;
  rp_set_meta : TupleMeta → Z → P → result P;
  rp_insert : TupleMeta → list byte → Z → P → result (option Z * P);
  rp_update : TupleMeta → list byte → Z → Z → P → result (bool * P)
}.

Class RowPageLaws (P : Type) `{!RowPage P} := {
  rp_wf : P → Prop;
  (** a frame on which [Init] may be called *)
  rp_frame : P → Prop;
  rp_rows : P → list (TupleMeta * list byte);
  rp_zero_frame : rp_frame rp_zero;
  rp_wf_frame p : rp_wf p → rp_frame p;
  rp_init_ok p : rp_frame p → rp_wf (rp_init p) ∧ rp_rows (rp_init p) = [] ∧ rp_next (rp_init p) = INVALID_PAGE_ID;
  rp_num_ok p : rp_wf p → rp_num p = Z.of_nat (length (rp_rows p));
  rp_num_bound p : rp_wf p → rp_num p < 2 ^ 16;
  rp_set_next_ok n p : rp_wf p → rp_wf (rp_set_next n p) ∧ rp_rows (rp_set_next n p) = rp_rows p ∧
                                  rp_next (rp_set_next n p) = n;
  rp_get_row_ok slot p : rp_wf p → 0 ≤ slot →
    rp_get_row slot p = match rp_rows p !! Z.to_nat slot with
                        | Some (m, row) => Ok (m, row, Z.of_nat (length row))
                        | None => Err slot_out_of_range
                        end;
  rp_get_meta_ok slot p : rp_wf p → 0 ≤ slot →
    rp_get_meta slot p = match rp_rows p !! Z.to_nat slot with
                         | Some (m, _) => Ok m
                         | None => Err slot_out_of_range
                         end;
  rp_set_meta_ok meta slot p m row : rp_wf p → 0 ≤ slot → rp_rows p !! Z.to_nat slot = Some (m, row) →
    ∃ p', rp_set_meta meta slot p = Ok p' ∧ rp_wf p' ∧ rp_next p' = rp_next p ∧
          rp_rows p' = <[Z.to_nat slot := (meta, row)]> (rp_rows p);
  (** An insertion appends the row or leaves the page alone; it fails on an empty page only when the
      row exceeds the page. *)
  rp_insert_ok meta row n p : rp_wf p → 0 ≤ n ≤ Z.of_nat (length row) →
    (∃ p', rp_insert meta row n p = Ok (Some (Z.of_nat (length (rp_rows p))), p') ∧ rp_wf p' ∧
           rp_next p' = rp_next p ∧ rp_rows p' = rp_rows p ++ [(meta, take (Z.to_nat n) row)])
    ∨ rp_insert meta row n p = Ok (None, p);
  (** An update replaces one row, is refused without effect, or has undefined behaviour. *)
  rp_update_ok meta row n slot p m old : rp_wf p → 0 ≤ slot → rp_rows p !! Z.to_nat slot = Some (m, old) →
    0 ≤ n ≤ Z.of_nat (length row) → n < 2 ^ 16 →
    (∃ p', rp_update meta row n slot p = Ok (true, p') ∧ rp_wf p' ∧ rp_next p' = rp_next p ∧
           rp_rows p' = <[Z.to_nat slot := (meta, take (Z.to_nat n) row)]> (rp_rows p))
    ∨ rp_update meta row n slot p = Ok (false, p)
    ∨ rp_update meta row n slot p = Err EUndefined;
  (** A row no longer than the one it replaces always fits. *)
  rp_update_shrink meta row n slot p m old : rp_wf p → 0 ≤ slot →
    rp_rows p !! Z.to_nat slot = Some (m, old) → 0 ≤ n ≤ Z.of_nat (length row) →
    n ≤ Z.of_nat (length old) → ∃ p', rp_update meta row n slot p = Ok (true, p')
}.

(** ** The slotted page implements the interface *)

#[global] Instance TablePage_RowPage : RowPage TablePage := {|
  rp_zero := zero_page;
  rp_init := Init;
  rp_num := GetNumTuples;
  rp_next := GetNextPageId;
  rp_set_next := SetNextPageId;
  rp_get_row := GetRow;
  rp_get_meta := GetTupleMeta;
  rp_set_meta := UpdateTupleMeta;
  rp_insert := InsertRow;
  rp_update := UpdateRow
|}.

#[global] Program Instance TablePage_laws : RowPageLaws TablePage := {|
  rp_wf := page_wf;
  rp_frame := λ p, Z.of_nat (length (page_bytes p)) = PAGE_SIZE;
  rp_rows := page_rows
|}.
Next Obligation. done. Qed.
Next Obligation. intros p H. apply H. Qed.
Next Obligation. intros p H. destruct (Init_wf p H) as [? ?]. done. Qed.
Next Obligation. intros p H. simpl. unfold GetNumTuples. by rewrite page_rows_length, (wf_num _ H). Qed.
Next Obligation. intros p H. pose proof (wf_num_bound p H). simpl. unfold GetNumTuples. lia. Qed.
Next Obligation. intros n p [? ? ? ?]. split_and!; [by split|done..]. Qed.
Next Obligation. intros slot p. apply GetRow_spec. Qed.
Next Obligation. intros slot p. apply GetTupleMeta_spec. Qed.
Next Obligation.
  intros meta slot p m row Hwf H0 Hrow.
  destruct (UpdateTupleMeta_spec p slot meta m row Hwf H0 Hrow) as (p' & E & ? & ? & ? & ?).
  exists p'. done.
Qed.
Next Obligation.
  intros meta row n p Hwf Hn. pose proof (InsertRow_spec p meta row n Hwf Hn) as E.
  case_bool_decide; [left|right; done]. destruct E as (p' & E & ? & ? & ?). exists p'.
  rewrite page_rows_length, <- (wf_num _ Hwf). done.
Qed.
Next Obligation.
  intros meta row n slot p m old Hwf H0 Hrow Hn H16.
  destruct (decide (n - Z.of_nat (length old) ≤ low_end PAGE_SIZE (tuple_info_ p))) as [Hle|Hgt].
  - pose proof (UpdateRow_spec p slot meta row n m old Hwf H0 Hrow Hn Hle) as E.
    case_bool_decide; [left|by right; left]. destruct E as (p' & E & ? & ? & ?). by exists p'.
  - right; right. eapply UpdateRow_wraps_spec; eauto. lia.
Qed.
Next Obligation.
  intros meta row n slot p m old Hwf H0 Hrow Hn Hle.
  pose proof (wf_low_bounds _ Hwf). pose proof (wf_room _ Hwf).
  unfold TABLE_PAGE_HEADER_SIZE, TUPLE_INFO_SIZE in *.
  pose proof (UpdateRow_spec p slot meta row n m old Hwf H0 Hrow Hn ltac:(lia)) as E.
  rewrite bool_decide_true in E by (unfold free_space, TABLE_PAGE_HEADER_SIZE, TUPLE_INFO_SIZE; lia).
  destruct E as (p' & E & _). eauto.
Qed.
