(* ===== verification/TableHeap.v ===== *)
(** * Record identifiers and the table heap ([storage/table/{rid.h, table_heap.*}])

    A [TableHeap] is a singly linked list of row pages reached through the buffer pool.  The pool is
    used here through its contract only ([Store]: the contents of every page and the page-id
    allocator); [BufferPool.v] is about how the pool keeps that contract.  Rows are opaque byte
    strings with the [uint32_t] size that [ScatterChunk] computed; the code narrows that size to 16
    bits when it hands a row to a page. *)

From S2P Require Import Prelude TablePage.

(** ** [RID] *)

Record RID := mkRID { page_id_ : Z; slot_num_ : Z }.

#[global] Instance RID_eq_dec : EqDecision RID.
Proof. solve_decision. Defined.
#[global] Program Instance RID_countable : Countable RID :=
  inj_countable' (λ r, (page_id_ r, slot_num_ r)) (λ p, mkRID p.1 p.2) _.
Next Obligation. by intros []. Qed.

(** [RID::Get]: page id in the high 32 bits, slot in the low 32 bits of an [int64_t]. *)
Definition RID_Get (r : RID) : Z :=
  i64 (Z.lor (Z.shiftl (page_id_ r) 32) (slot_num_ r)).
(** [GetSlotNum()], a [uint32_t], as the [uint16_t] argument of the page operations. *)
Definition page_slot (r : RID) : Z := u16 (slot_num_ r).
Lemma page_slot_small r : 0 ≤ slot_num_ r < 2 ^ 16 → page_slot r = slot_num_ r.
Proof. apply wrap_u_small. Qed.
(** [explicit RID(int64_t)]. *)
Definition RID_of_int64 (z : Z) : RID := mkRID (i32 (Z.shiftr z 32)) (u32 z).

(** ** The page store the heap runs on *)

Record Store (P : Type) := mkStore {
  st_pages : gmap Z P;          (** page contents, absent = zero-filled *)
  st_next_page_id : Z;          (** [next_page_id_] *)
  st_free_pages : list Z        (** [free_pages_] *)
}.
Arguments mkStore {P} _ _ _.
Arguments st_pages {P} _.
Arguments st_next_page_id {P} _.
Arguments st_free_pages {P} _.

Section store.
Context {P : Type} `{!RowPage P}.

Definition page_at (st : Store P) (pid : Z) : P := default rp_zero (st_pages st !! pid).
Definition set_page (pid : Z) (p : P) (st : Store P) : Store P :=
  mkStore (<[pid := p]> (st_pages st)) (st_next_page_id st) (st_free_pages st).

(** [BufferPoolManager::NewPage]: the last reclaimed id, else the next new one. *)
Definition NewPage (st : Store P) : Z * Store P :=
  match last (st_free_pages st) with
  | Some id => (id, mkStore (st_pages st) (st_next_page_id st)
                      (take (length (st_free_pages st) - 1) (st_free_pages st)))
  | None => (st_next_page_id st,
             mkStore (st_pages st) (st_next_page_id st + 1) (st_free_pages st))
  end.

(** [BufferPoolManager::DeletePage] of an unpinned page: contents gone, id reclaimed. *)
Definition DeletePage (pid : Z) (st : Store P) : Store P :=
  mkStore (delete pid (st_pages st)) (st_next_page_id st) (st_free_pages st ++ [pid]).
End store.

(** ** [TableHeap] *)

Record TableHeap := mkTableHeap {
  first_page_id_ : Z;
  last_page_id_ : Z;
  page_directory_ : list Z
}.

Definition row_too_large : error := EException EXECUTION "row is too large to fit in a page".
Definition update_too_large : error :=
  EException EXECUTION "updated row is too large to fit in its page".

(** One row of a scattered chunk: its bytes and its [uint32_t] size. *)
Record ScatteredRow := mkScattered { sc_bytes : list byte; sc_size : Z }.

Section heap.
Context {P : Type} `{!RowPage P}.

(** [TableHeap(bpm, schema)]. *)
Definition new_TableHeap (st : Store P) : TableHeap * Store P :=
  let (pid, st) := NewPage st in
  (mkTableHeap pid pid [pid], set_page pid (rp_init (page_at st pid)) st).

(** The recovery constructor: walk the on-disk chain from the first page. *)
Fixpoint walk_chain (fuel : nat) (pid : Z) (st : Store P) : option (list Z) :=
  if bool_decide (pid = INVALID_PAGE_ID) then Some [] else
  match fuel with
  | O => None
  | S f => rest ← walk_chain f (rp_next (page_at st pid)) st; Some (pid :: rest)
  end.
Definition open_TableHeap (fuel : nat) (first last : Z) (st : Store P) : option TableHeap :=
  dir ← walk_chain fuel first st; Some (mkTableHeap first last dir).

(** [AppendRowBytes]: the loop of the code; each turn either returns, throws, or links a fresh
    page.  [None] is "out of fuel". *)
Fixpoint append_loop (fuel : nat) (meta : TupleMeta) (row : list byte) (row_size : Z)
    (h : TableHeap) (st : Store P) : option (result RID * (TableHeap * Store P)) :=
  match fuel with
  | O => None
  | S f =>
      let page := page_at st (last_page_id_ h) in
      match rp_insert meta row row_size page with
      | Err e => Some (Err e, (h, st))
      | Ok (Some slot, page') =>
          Some (Ok (mkRID (last_page_id_ h) slot), (h, set_page (last_page_id_ h) page' st))
      | Ok (None, page') =>
          if bool_decide (rp_num page' = 0) then Some (Err row_too_large, (h, st)) else
          let (new_page_id, st) := NewPage st in
          let st := set_page (last_page_id_ h) (rp_set_next new_page_id page') st in
          let st := set_page new_page_id (rp_init (page_at st new_page_id)) st in
          let h := mkTableHeap (first_page_id_ h) new_page_id (page_directory_ h ++ [new_page_id]) in
          append_loop f meta row row_size h st
      end
  end.

(** Two turns are always enough: the second one runs on a freshly initialised page. *)
Definition AppendRowBytes (meta : TupleMeta) (row : list byte) (row_size : Z)
    (h : TableHeap) (st : Store P) : result RID * (TableHeap * Store P) :=
  default (Err EUndefined, (h, st)) (append_loop 3 meta row row_size h st).

(** [TableHeap::Append]: store every row with timestamp 0; the rows stored before a failure stay. *)
Fixpoint Append (rows : list ScatteredRow) (h : TableHeap) (st : Store P)
    : result (list RID) * (TableHeap * Store P) :=
  match rows with
  | [] => (Ok [], (h, st))
  | r :: rows =>
      match AppendRowBytes (mkTupleMeta 0 false) (sc_bytes r) (u16 (sc_size r)) h st with
      | (Err e, hs) => (Err e, hs)
      | (Ok rid, (h, st)) =>
          match Append rows h st with
          | (Ok rids, hs) => (Ok (rid :: rids), hs)
          | (Err e, hs) => (Err e, hs)
          end
      end
  end.

(** [TableHeap::Delete]: set the tombstone flag of each addressed row. *)
Fixpoint Delete (rids : list RID) (st : Store P) : result unit * Store P :=
  match rids with
  | [] => (Ok tt, st)
  | rid :: rids =>
      let page := page_at st (page_id_ rid) in
      match (meta ← rp_get_meta (page_slot rid) page;
             rp_set_meta (mkTupleMeta (ts_ meta) true) (page_slot rid) page) with
      | Err e => (Err e, st)
      | Ok page' => Delete rids (set_page (page_id_ rid) page' st)
      end
  end.

(** [TableHeap::Update]: overwrite each addressed row, keeping its metadata. *)
Fixpoint Update (rows : list (RID * ScatteredRow)) (st : Store P) : result unit * Store P :=
  match rows with
  | [] => (Ok tt, st)
  | (rid, r) :: rows =>
      let page := page_at st (page_id_ rid) in
      match ('(meta, _, _) ← rp_get_row (page_slot rid) page;
             rp_update meta (sc_bytes r) (u16 (sc_size r)) (page_slot rid) page) with
      | Err e => (Err e, st)
      | Ok (false, _) => (Err update_too_large, st)
      | Ok (true, page') => Update rows (set_page (page_id_ rid) page' st)
      end
  end.

(** [TableHeap::Fetch]: the bytes of each addressed row, deleted or not. *)
Fixpoint Fetch (rids : list RID) (st : Store P) : result (list (list byte)) :=
  match rids with
  | [] => Ok []
  | rid :: rids =>
      '(_, row, _) ← rp_get_row (page_slot rid) (page_at st (page_id_ rid));
      rows ← Fetch rids st;
      Ok (row :: rows)
  end.

(** [EstimatedRowCount]: the sum of the slot counts over the page directory. *)
Definition EstimatedRowCount (h : TableHeap) (st : Store P) : Z :=
  foldl (λ total pid, total + rp_num (page_at st pid)) 0 (page_directory_ h).

(** [FreeAllPages]: every page of the directory goes back to the free list. *)
Definition FreeAllPages (h : TableHeap) (st : Store P) : TableHeap * Store P :=
  (mkTableHeap INVALID_PAGE_ID INVALID_PAGE_ID [],
   foldl (λ st pid, DeletePage pid st) st (page_directory_ h)).
End heap.

(** ** Parallel scans: morsels *)

Record ParallelScanState := mkScanState {
  ps_pages : list Z;            (** [pages_], the page directory at open *)
  ps_stop_slot : Z;             (** [stop_slot_], slot count of the last page at open *)
  ps_next_page_idx : Z;         (** [next_page_idx_] *)
  ps_morsel_pages : Z           (** [morsel_pages_] *)
}.

(** [ParallelScanState::NextMorsel]: the atomic [fetch_add] and the clipped range. *)
Definition NextMorsel (s : ParallelScanState) : option (Z * Z) * ParallelScanState :=
  let start := ps_next_page_idx s in
  let s' := mkScanState (ps_pages s) (ps_stop_slot s) (start + ps_morsel_pages s) (ps_morsel_pages s) in
  let n := Z.of_nat (length (ps_pages s)) in
  if bool_decide (start >= n) then (None, s')
  else (Some (start, Z.min (start + ps_morsel_pages s) n), s').

(** ** [RID] packing *)

Lemma land_shiftl_small p s : 0 ≤ s < 2 ^ 32 → Z.land (Z.shiftl p 32) s = 0.
Proof.
  intros Hs. apply Z.bits_inj'. intros n Hn. rewrite Z.land_spec, Z.bits_0.
  destruct (decide (n < 32)).
  - by rewrite Z.shiftl_spec_low by lia.
  - rewrite (Z.bits_above_log2 s); [by rewrite andb_false_r|lia|].
    destruct (decide (s = 0)) as [->|]; [simpl; lia|].
    apply Z.log2_lt_pow2; [lia|]. eapply Z.lt_le_trans; [apply Hs|]. apply Z.pow_le_mono_r; lia.
Qed.

Lemma lor_shiftl_add p s : 0 ≤ s < 2 ^ 32 → Z.lor (Z.shiftl p 32) s = p * 2 ^ 32 + s.
Proof.
  intros Hs. rewrite <- Z.shiftl_mul_pow2 by lia. pose proof (land_shiftl_small p s Hs).
  rewrite <- Z.lxor_lor by done. symmetry. by apply Z.add_nocarry_lxor.
Qed.

(** Packing a record identifier into an [int64_t] and unpacking it is lossless for every
    32-bit page id (negative sentinel included) and every 32-bit slot, and so is the converse. *)
Theorem RID_roundtrip :
  (∀ r, - 2 ^ 31 ≤ page_id_ r < 2 ^ 31 → 0 ≤ slot_num_ r < 2 ^ 32 → RID_of_int64 (RID_Get r) = r) ∧
  (∀ z, - 2 ^ 63 ≤ z < 2 ^ 63 → RID_Get (RID_of_int64 z) = z).
Proof.
  split.
  - intros [p s] Hp Hs; simpl in *. unfold RID_Get, RID_of_int64. simpl.
    rewrite lor_shiftl_add by done. unfold i64. rewrite wrap_s_small by lia.
    f_equal.
    + rewrite Z.shiftr_div_pow2, Z.div_add_l by lia. rewrite Z.div_small, Z.add_0_r by lia.
      unfold i32. apply wrap_s_small; lia.
    + unfold u32, wrap_u. rewrite Z.add_comm, Z.mod_add by lia. by apply Z.mod_small.
  - intros z Hz. unfold RID_Get, RID_of_int64. simpl.
    assert (- 2 ^ 31 ≤ z / 2 ^ 32 < 2 ^ 31) as Hd.
    { split; [apply Z.div_le_lower_bound; lia|apply Z.div_lt_upper_bound; lia]. }
    rewrite Z.shiftr_div_pow2 by lia. unfold i32. rewrite (wrap_s_small 32) by lia.
    pose proof (wrap_u_range 32 z ltac:(lia)).
    rewrite lor_shiftl_add by done. unfold u32, wrap_u, i64.
    rewrite (Z.mul_comm (z / 2 ^ 32)), <- Z.div_mod by lia. apply wrap_s_small; lia.
Qed.

(** ** The store *)

Section store_facts.
Context {P : Type} `{!RowPage P, !RowPageLaws P}.

Record store_wf (st : Store P) : Prop := {
  sw_free : NoDup (st_free_pages st);
  sw_bound : ∀ pid, pid ∈ st_free_pages st → 0 ≤ pid < st_next_page_id st;
  sw_next : 0 ≤ st_next_page_id st;
  sw_frames : ∀ pid, rp_frame (page_at st pid)
}.

(** Page ids that were handed out and not reclaimed. *)
Definition allocated (st : Store P) (pid : Z) : Prop :=
  0 ≤ pid < st_next_page_id st ∧ pid ∉ st_free_pages st.

Lemma page_at_set st pid p pid' :
  page_at (set_page pid p st) pid' = if decide (pid = pid') then p else page_at st pid'.
Proof. unfold page_at, set_page; simpl. rewrite lookup_insert. by case_decide. Qed.
Lemma page_at_set_eq st pid p : page_at (set_page pid p st) pid = p.
Proof. rewrite page_at_set. by rewrite decide_True. Qed.
Lemma page_at_set_ne st pid p pid' : pid ≠ pid' → page_at (set_page pid p st) pid' = page_at st pid'.
Proof. intros. rewrite page_at_set. by rewrite decide_False. Qed.

Lemma set_page_wf st pid p : store_wf st → rp_frame p → store_wf (set_page pid p st).
Proof.
  intros [? ? ? ?] Hp. split; [done..|]. intros pid'. rewrite page_at_set. case_decide; done.
Qed.
Lemma set_page_allocated st pid p pid' : allocated (set_page pid p st) pid' ↔ allocated st pid'.
Proof. done. Qed.

(** A new page was not allocated before and is the only one that becomes allocated. *)
Lemma NewPage_spec st pid st' :
  store_wf st → NewPage st = (pid, st') →
  store_wf st' ∧ ¬ allocated st pid ∧ 0 ≤ pid ∧ (∀ pid', page_at st' pid' = page_at st pid') ∧
  (∀ pid', allocated st' pid' ↔ pid' = pid ∨ allocated st pid').
Proof.
  intros [Hf Hb Hn Hfr] H. unfold NewPage in H.
  destruct (last (st_free_pages st)) as [id|] eqn:E; injection H as <- <-.
  - apply last_Some in E as [l El].
    assert (take (length (st_free_pages st) - 1) (st_free_pages st) = l) as Ht.
    { rewrite El, length_app. simpl. rewrite Nat.add_sub. by rewrite take_app_length. }
    rewrite Ht. rewrite El in *. apply NoDup_app in Hf as (Hl & Hdis & _).
    assert (0 ≤ id < st_next_page_id st) by (apply Hb; set_solver).
    unfold allocated. simpl. rewrite El. split_and!.
    + split; simpl; [done|intros p Hp; apply Hb; set_solver|done|done].
    + intros [_ Hni]. apply Hni. set_solver.
    + lia.
    + done.
    + intros pid'. split.
      * intros [??]. destruct (decide (pid' = id)); [by left|right]. set_solver.
      * intros [->|[??]]; [|set_solver]. split; [lia|]. intros Hi. eapply Hdis; [done|set_solver].
  - apply last_None in E. unfold allocated; simpl. rewrite E in *. split_and!.
    + split; simpl; [constructor|intros p; set_solver|lia|done].
    + lia.
    + lia.
    + done.
    + intros pid'. split; [|intros [->|[??]]; (split; [lia|set_solver])].
      intros [??]. destruct (decide (pid' = st_next_page_id st)); [by left|right].
      split; [lia|set_solver].
Qed.
End store_facts.

(** ** The heap invariant *)

Section heap_facts.
Context {P : Type} `{!RowPage P, !RowPageLaws P}.
Implicit Types (st : Store P) (h : TableHeap).

Record heap_wf st h : Prop := {
  hw_nodup : NoDup (page_directory_ h);
  hw_first : head (page_directory_ h) = Some (first_page_id_ h);
  hw_last : last (page_directory_ h) = Some (last_page_id_ h);
  hw_alloc : ∀ pid, pid ∈ page_directory_ h → allocated st pid;
  hw_pages : ∀ pid, pid ∈ page_directory_ h → rp_wf (page_at st pid);
  (** the on-disk chain follows the directory *)
  hw_chain : ∀ i pid, page_directory_ h !! i = Some pid →
    rp_next (page_at st pid) = default INVALID_PAGE_ID (page_directory_ h !! S i)
}.

(** The row a record identifier designates. *)
Definition row_at st (rid : RID) : option (TupleMeta * list byte) :=
  if bool_decide (0 ≤ slot_num_ rid) then rp_rows (page_at st (page_id_ rid)) !! Z.to_nat (slot_num_ rid)
  else None.
Definition heap_row st h (rid : RID) : option (TupleMeta * list byte) :=
  if bool_decide (page_id_ rid ∈ page_directory_ h) then row_at st rid else None.

Lemma hw_last_elem st h : heap_wf st h → last_page_id_ h ∈ page_directory_ h.
Proof. intros Hw. apply last_Some_elem_of. apply (hw_last _ _ Hw). Qed.

Lemma row_at_ext st st' rid :
  page_at st' (page_id_ rid) = page_at st (page_id_ rid) → row_at st' rid = row_at st rid.
Proof. unfold row_at. by intros ->. Qed.

(** Replacing the contents of one page of the heap by a page with the same link. *)
Lemma heap_wf_set_page st h pid p :
  heap_wf st h → rp_wf p → rp_next p = rp_next (page_at st pid) → heap_wf (set_page pid p st) h.
Proof.
  intros [? ? ? ? ? Hc] Hp Hn. split; auto.
  - intros pid' Hin. rewrite page_at_set. case_decide; auto.
  - intros i pid' Hi. rewrite page_at_set. case_decide; subst; [rewrite Hn|]; auto.
Qed.

(** One successful turn of the append loop. *)
Lemma append_here st h meta row n p' :
  store_wf st → heap_wf st h → 
  let page := page_at st (last_page_id_ h) in
  rp_wf p' → rp_next p' = rp_next page → rp_rows p' = rp_rows page ++ [(meta, row)] →
  n = Z.of_nat (length (rp_rows page)) →
  let rid := mkRID (last_page_id_ h) n in
  let st' := set_page (last_page_id_ h) p' st in
  store_wf st' ∧ heap_wf st' h ∧ heap_row st h rid = None ∧
  ∀ rid', heap_row st' h rid' = if decide (rid = rid') then Some (meta, row) else heap_row st h rid'.
Proof.
  intros Hst Hh page Hp' Hnext Hrows Hn rid st'.
  split; [by apply set_page_wf; [|apply rp_wf_frame]|].
  split; [by apply heap_wf_set_page|].
  pose proof (hw_last_elem _ _ Hh) as Hin.
  unfold heap_row, row_at; simpl. split.
  { rewrite bool_decide_true by done. rewrite bool_decide_true by lia.
    rewrite lookup_ge_None_2; [done|]. subst n. fold page. lia. }
  intros rid'. subst rid st'. rewrite page_at_set.
  destruct (decide (mkRID (last_page_id_ h) n = rid')) as [<-|Hr].
  - simpl. rewrite !bool_decide_true by (done || lia).
    rewrite decide_True by done. rewrite Hrows, Hn, Nat2Z.id.
    by rewrite lookup_app_r, Nat.sub_diag by done.
  - destruct (decide (last_page_id_ h = page_id_ rid')) as [Hpg|]; [|done].
    repeat case_bool_decide; try done.
    rewrite Hrows, <- Hpg. fold page. destruct (decide (slot_num_ rid' < n)).
    + rewrite lookup_app_l; [done|lia].
    + assert (slot_num_ rid' ≠ n) by (intros Heq; apply Hr; destruct rid'; simpl in *; congruence).
      rewrite !lookup_ge_None_2; [done|lia|rewrite length_app; simpl; lia].
Qed.

(** Linking a freshly initialised page behind the last one. *)
Lemma link_fresh st h new st1 :
  store_wf st → heap_wf st h → NewPage st = (new, st1) →
  let st2 := set_page (last_page_id_ h) (rp_set_next new (page_at st (last_page_id_ h))) st1 in
  let st3 := set_page new (rp_init (page_at st2 new)) st2 in
  let h' := mkTableHeap (first_page_id_ h) new (page_directory_ h ++ [new]) in
  store_wf st3 ∧ heap_wf st3 h' ∧ rp_rows (page_at st3 new) = [] ∧
  (∀ rid, heap_row st3 h' rid = heap_row st h rid) ∧
  (∀ pid, allocated st3 pid ↔ pid = new ∨ allocated st pid) ∧ ¬ allocated st new ∧
  (∀ pid, pid ∉ page_directory_ h' → page_at st3 pid = page_at st pid).
Proof.
  intros Hst Hh HN st2 st3 h'.
  destruct (NewPage_spec st new st1 Hst HN) as (Hst1 & Hna & Hge & Hpg & Hal).
  pose proof (hw_last_elem _ _ Hh) as Hlin.
  assert (new ∉ page_directory_ h) as Hnew.
  { intros Hin. apply Hna. by apply (hw_alloc _ _ Hh). }
  assert (last_page_id_ h ≠ new) as Hne by congruence.
  pose proof (hw_pages _ _ Hh _ Hlin) as Hlw.
  destruct (rp_set_next_ok new _ Hlw) as (Hsw & Hsr & Hsn).
  assert (page_at st2 new = page_at st new) as Hp2.
  { subst st2. rewrite page_at_set_ne by done. apply Hpg. }
  assert (rp_frame (page_at st2 new)) as Hfr by (rewrite Hp2; apply Hst).
  destruct (rp_init_ok _ Hfr) as (Hiw & Hir & Hin).
  assert (∀ pid, page_at st3 pid = if decide (new = pid) then rp_init (page_at st2 new)
            else if decide (last_page_id_ h = pid) then rp_set_next new (page_at st (last_page_id_ h))
            else page_at st pid) as Hat.
  { intros pid. subst st3. rewrite page_at_set. case_decide; [done|].
    subst st2. rewrite page_at_set. case_decide; [done|]. apply Hpg. }
  split_and!.
  - subst st3 st2. apply set_page_wf; [apply set_page_wf; [done|by apply rp_wf_frame]|by apply rp_wf_frame].
  - split; simpl.
    + apply NoDup_app. split_and!; [apply Hh|set_solver|apply NoDup_singleton].
    + rewrite head_app, (hw_first _ _ Hh). done.
    + by rewrite last_snoc.
    + intros pid Hpid. change (allocated st1 pid). apply Hal.
      apply elem_of_app in Hpid as [Hpid| ->%list_elem_of_singleton]; [right; by apply Hh|by left].
    + intros pid Hpid. rewrite Hat. repeat case_decide; [done|done|]. apply Hh. set_solver.
    + intros i pid Hi. rewrite Hat. apply lookup_app_Some in Hi as [Hi|[Hle Hi]].
      * rewrite decide_False by (intros ->; apply Hnew; by eapply list_elem_of_lookup_2).
        pose proof (lookup_lt_Some _ _ _ Hi) as Hlt.
        case_decide as Hl.
        -- subst pid. assert (i = length (page_directory_ h) - 1)%nat as ->.
           { pose proof (hw_last _ _ Hh) as HL. rewrite last_lookup in HL.
             eapply NoDup_lookup; [apply Hh|exact Hi|]. rewrite <- HL. f_equal. lia. }
           rewrite Hsn. rewrite lookup_app_r by lia.
           replace (S (length (page_directory_ h) - 1) - length (page_directory_ h))%nat with 0%nat by lia.
           done.
        -- rewrite (hw_chain _ _ Hh _ _ Hi). rewrite lookup_app_l; [done|].
           assert (i ≠ length (page_directory_ h) - 1)%nat; [|lia].
           intros ->. pose proof (hw_last _ _ Hh) as HL. rewrite last_lookup in HL.
           apply Hl. replace (Nat.pred (length (page_directory_ h))) with (length (page_directory_ h) - 1)%nat in HL by lia.
           congruence.
      * apply list_lookup_singleton_Some in Hi as [Hi0 <-]. rewrite decide_True by done.
        rewrite Hin. rewrite lookup_ge_None_2; [done|]. rewrite length_app. simpl. lia.
  - rewrite Hat, decide_True by done. done.
  - intros rid. unfold heap_row, row_at; simpl. rewrite Hat.
    destruct (decide (page_id_ rid = new)) as [Hn|Hn].
    + rewrite Hn, (bool_decide_false (new ∈ page_directory_ h)) by done.
      rewrite decide_True by done. rewrite Hir. by repeat case_bool_decide.
    + rewrite (decide_False (P := new = page_id_ rid)) by congruence.
      rewrite (bool_decide_ext (page_id_ rid ∈ page_directory_ h ++ [new]) (page_id_ rid ∈ page_directory_ h))
        by set_solver.
      case_decide as Hl; [|done]. by rewrite <- Hl, Hsr.
  - intros pid. change (allocated st1 pid ↔ pid = new ∨ allocated st pid). apply Hal.
  - done.
  - simpl. intros pid Hpid. rewrite Hat. rewrite !decide_False; [done| |]; set_solver.
Qed.
End heap_facts.

Section append_facts.
Context {P : Type} `{!RowPage P, !RowPageLaws P}.
Implicit Types (st : Store P) (h : TableHeap).

(** What one append may change. *)
Record appended st h st' h' : Prop := {
  ap_store : store_wf st';
  ap_heap : heap_wf st' h';
  ap_dir : ∃ ext, page_directory_ h' = page_directory_ h ++ ext ∧ ∀ pid, pid ∈ ext → ¬ allocated st pid;
  ap_alloc : ∀ pid, allocated st' pid ↔ allocated st pid ∨ pid ∈ page_directory_ h';
  ap_frame : ∀ pid, pid ∉ page_directory_ h' → page_at st' pid = page_at st pid
}.

Lemma appended_same st h st' :
  store_wf st' → heap_wf st' h → heap_wf st h →
  (∀ pid, allocated st' pid ↔ allocated st pid) →
  (∀ pid, pid ∉ page_directory_ h → page_at st' pid = page_at st pid) → appended st h st' h.
Proof.
  intros Hst Hh Hh0 Ha Hp. split; auto.
  - exists []. rewrite app_nil_r. set_solver.
  - intros pid. rewrite Ha. split; [by left|]. intros [?|Hin]; [done|]. by apply (hw_alloc _ _ Hh0).
Qed.

Lemma appended_trans st h st1 h1 st2 h2 :
  appended st h st1 h1 → appended st1 h1 st2 h2 → appended st h st2 h2.
Proof.
  intros [? Hh1 (e1 & D1 & E1) A1 F1] [? ? (e2 & D2 & E2) A2 F2]. split; auto.
  - exists (e1 ++ e2). rewrite D2, D1, app_assoc. split; [done|].
    intros pid [?|Hin]%elem_of_app; [auto|]. specialize (E2 pid Hin). rewrite A1 in E2. tauto.
  - intros pid. rewrite A2, A1, D2. set_solver.
  - intros pid Hpid. rewrite F2, F1; [done| |done]. rewrite D2 in Hpid. set_solver.
Qed.

(** The append loop on a heap whose last page cannot refuse twice. *)
Lemma append_loop_spec fuel meta row n h st :
  store_wf st → heap_wf st h → 0 ≤ n ≤ Z.of_nat (length row) →
  (2 ≤ fuel)%nat ∨ (1 ≤ fuel ∧ rp_rows (page_at st (last_page_id_ h)) = [])%nat →
  ∃ r h' st', append_loop fuel meta row n h st = Some (r, (h', st')) ∧ appended st h st' h' ∧
    match r with
    | Ok rid => page_id_ rid ∈ page_directory_ h' ∧ 0 ≤ slot_num_ rid ∧ heap_row st h rid = None ∧
        ∀ rid', heap_row st' h' rid' =
          if decide (rid = rid') then Some (meta, take (Z.to_nat n) row) else heap_row st h rid'
    | Err e => e = row_too_large ∧ ∀ rid', heap_row st' h' rid' = heap_row st h rid'
    end.
Proof.
  revert h st. induction fuel as [|f IH]; intros h st Hst Hh Hn Hf; [lia|].
  pose proof (hw_last_elem _ _ Hh) as Hlin. pose proof (hw_pages _ _ Hh _ Hlin) as Hpw.
  cbn [append_loop].
  destruct (rp_insert_ok meta row n _ Hpw Hn) as [(p' & -> & Hw' & Hn' & Hr')| ->].
  - edestruct (append_here st h meta _ _ p' Hst Hh Hw' Hn' Hr' eq_refl) as (S1 & S2 & S3 & S4).
    eexists _, _, _. split; [done|]. split.
    + apply appended_same; auto. intros pid Hpid. apply page_at_set_ne. set_solver.
    + split_and!; [done|simpl; lia|done|done].
  - case_bool_decide as Hz.
    { eexists _, _, _. split; [done|]. split; [by apply appended_same|done]. }
    assert (1 ≤ f)%nat as Hf1.
    { destruct Hf as [?|[? Hnil]]; [lia|]. rewrite (rp_num_ok _ Hpw), Hnil in Hz. done. }
    destruct (NewPage st) as [new st1] eqn:HN.
    destruct (link_fresh st h new st1 Hst Hh HN) as (L1 & L2 & L3 & L4 & L5 & L6 & L7).
    pose proof (NewPage_spec st new st1 Hst HN) as (_ & _ & _ & Hpg & _).
    edestruct (IH _ _ L1 L2 Hn) as (r & h' & st' & E & Hap & Hres); [right; split; [done|exact L3]|].
    eexists r, h', st'. split; [exact E|]. split.
    + eapply appended_trans; [|exact Hap]. split; auto.
      * exists [new]. split; [done|]. intros pid ->%list_elem_of_singleton. done.
      * intros pid. rewrite L5. simpl. pose proof (hw_alloc _ _ Hh pid). set_solver.
    + destruct r as [rid|e]; [|destruct Hres as [-> Hres]; split; [done|]].
      * destruct Hres as (? & ? & Hnone & Hres). rewrite L4 in Hnone. split_and!; auto.
        intros rid'. rewrite Hres. case_decide; [done|]. apply L4.
      * intros rid'. by rewrite Hres, L4.
Qed.

(** [AppendRowBytes] always finishes within its two turns. *)
Lemma AppendRowBytes_spec meta row n h st :
  store_wf st → heap_wf st h → 0 ≤ n ≤ Z.of_nat (length row) →
  ∃ r h' st', AppendRowBytes meta row n h st = (r, (h', st')) ∧ appended st h st' h' ∧
    match r with
    | Ok rid => page_id_ rid ∈ page_directory_ h' ∧ 0 ≤ slot_num_ rid ∧ heap_row st h rid = None ∧
        ∀ rid', heap_row st' h' rid' =
          if decide (rid = rid') then Some (meta, take (Z.to_nat n) row) else heap_row st h rid'
    | Err e => e = row_too_large ∧ ∀ rid', heap_row st' h' rid' = heap_row st h rid'
    end.
Proof.
  intros Hst Hh Hn.
  destruct (append_loop_spec 3 meta row n h st Hst Hh Hn) as (r & h' & st' & E & ?); [left; lia|].
  exists r, h', st'. split; [|done]. unfold AppendRowBytes. by rewrite E.
Qed.
End append_facts.

(** ** Contracts on slotted pages *)

(** appending a row to a table heap terminates and either returns a fresh record identifier at
    which exactly that row is now stored - every other row of the table unchanged, the heap
    invariant (directory, on-disk chain, allocation) kept - or throws "row is too large" and changes
    no row.  Pages of other tables are never touched. *)
Theorem AppendRowBytes_correct (meta : TupleMeta) (row : list byte) (n : Z) (h : TableHeap)
    (st : Store TablePage) :
  store_wf st → heap_wf st h → 0 ≤ n ≤ Z.of_nat (length row) →
  ∃ r h' st', AppendRowBytes meta row n h st = (r, (h', st')) ∧ store_wf st' ∧ heap_wf st' h' ∧
    (∀ pid, allocated st pid → pid ∉ page_directory_ h → page_at st' pid = page_at st pid) ∧
    match r with
    | Ok rid => heap_row st h rid = None ∧
        ∀ rid', heap_row st' h' rid' =
          if decide (rid = rid') then Some (meta, take (Z.to_nat n) row) else heap_row st h rid'
    | Err e => e = row_too_large ∧ ∀ rid', heap_row st' h' rid' = heap_row st h rid'
    end.
Proof.
  intros Hst Hh Hn.
  destruct (AppendRowBytes_spec meta row n h st Hst Hh Hn) as (r & h' & st' & E & [? ? (ext & D & X) ? F] & R).
  exists r, h', st'. split_and!; auto.
  - intros pid Ha Hd. apply F. rewrite D. intros [?|?]%elem_of_app; [done|]. by eapply X.
  - destruct r; [naive_solver|done].
Qed.

(** An empty store and a table created in it. *)
Definition empty_store : Store TablePage := mkStore ∅ 0 [].
Definition new_table : TableHeap * Store TablePage := new_TableHeap empty_store.

Lemma zero_frame : Z.of_nat (length (page_bytes zero_page)) = PAGE_SIZE.
Proof. reflexivity. Qed.

Lemma empty_store_wf : store_wf empty_store.
Proof.
  split; simpl; [constructor|set_solver|lia|]. intros pid. unfold page_at. simpl.
  rewrite lookup_empty. exact zero_frame.
Qed.

(** A new table is a well-formed heap with one empty page. *)
Lemma new_TableHeap_spec {P} `{!RowPage P, !RowPageLaws P} (st : Store P) h st' :
  store_wf st → new_TableHeap st = (h, st') →
  store_wf st' ∧ heap_wf st' h ∧ (∀ rid, heap_row st' h rid = None) ∧
  page_directory_ h = [first_page_id_ h] ∧ ¬ allocated st (first_page_id_ h) ∧
  (∀ pid, allocated st' pid ↔ pid = first_page_id_ h ∨ allocated st pid) ∧
  (∀ pid, pid ≠ first_page_id_ h → page_at st' pid = page_at st pid).
Proof.
  intros Hst. unfold new_TableHeap. destruct (NewPage st) as [pid st1] eqn:HN.
  destruct (NewPage_spec st pid st1 Hst HN) as (Hst1 & Hna & Hge & Hpg & Hal). intros [= <- <-].
  destruct (rp_init_ok (page_at st1 pid)) as (Hiw & Hir & Hin); [apply Hst1|].
  split_and!; simpl; auto.
  - apply set_page_wf; [done|by apply rp_wf_frame].
  - split; simpl; auto.
    + apply NoDup_singleton.
    + intros p ->%list_elem_of_singleton. change (allocated st1 pid). apply Hal. by left.
    + intros p ->%list_elem_of_singleton. by rewrite page_at_set_eq.
    + intros i p Hi%list_lookup_singleton_Some. destruct Hi as [-> <-]. by rewrite page_at_set_eq, Hin.
  - intros rid. unfold heap_row, row_at; simpl. case_bool_decide as Hi; [|done].
    apply list_elem_of_singleton in Hi as ->. rewrite page_at_set_eq, Hir. by case_bool_decide.
  - intros p Hp. rewrite page_at_set_ne by congruence. apply Hpg.
Qed.

Lemma new_table_wf : store_wf new_table.2 ∧ heap_wf new_table.2 new_table.1.
Proof.
  destruct (new_TableHeap_spec empty_store new_table.1 new_table.2 empty_store_wf eq_refl)
    as (? & ? & _). done.
Qed.

Lemma AppendRowBytes_correct_witness :
  ∃ r h' st', AppendRowBytes (mkTupleMeta 0 false) [x61] 1 new_table.1 new_table.2 = (r, (h', st')) ∧
    heap_wf st' h'.
Proof.
  destruct new_table_wf as [H1 H2].
  destruct (AppendRowBytes_correct (mkTupleMeta 0 false) [x61] 1 _ _ H1 H2)
    as (r & h' & st' & E & _ & ? & _); [simpl; lia|].
  exists r, h', st'. done.
Defined.

(** Walking the on-disk chain from the [i]-th page of the directory. *)
Lemma walk_chain_drop {P} `{!RowPage P, !RowPageLaws P} (st : Store P) h fuel i :
  heap_wf st h → (length (page_directory_ h) - i ≤ fuel)%nat →
  walk_chain fuel (default INVALID_PAGE_ID (page_directory_ h !! i)) st = Some (drop i (page_directory_ h)).
Proof.
  intros Hh. revert i. induction fuel as [|f IH]; intros i Hf.
  - rewrite lookup_ge_None_2, drop_ge by lia. done.
  - destruct (page_directory_ h !! i) as [pid|] eqn:Hi; simpl.
    + pose proof (list_elem_of_lookup_2 _ _ _ Hi) as Hin. apply (hw_alloc _ _ Hh) in Hin as [[? _] _].
      rewrite bool_decide_false by (unfold INVALID_PAGE_ID; lia).
      rewrite (hw_chain _ _ Hh _ _ Hi), IH by lia. simpl. by rewrite (drop_S _ _ _ Hi).
    + apply lookup_ge_None in Hi. by rewrite drop_ge by lia.
Qed.

(** reopening a table from its persisted first and last page ids rebuilds exactly the heap that
    was closed: the walk of the on-disk page chain terminates and yields the page directory. *)
Theorem reopen_roundtrip (st : Store TablePage) (h : TableHeap) (fuel : nat) :
  heap_wf st h → (length (page_directory_ h) ≤ fuel)%nat →
  open_TableHeap fuel (first_page_id_ h) (last_page_id_ h) st = Some h.
Proof.
  intros Hh Hf. unfold open_TableHeap. pose proof (hw_first _ _ Hh) as H1.
  pose proof (walk_chain_drop st h fuel 0 Hh ltac:(lia)) as E.
  rewrite head_lookup in H1. rewrite H1 in E. simpl in E. rewrite E. simpl. by destruct h.
Qed.

Lemma reopen_roundtrip_witness :
  open_TableHeap 1 (first_page_id_ new_table.1) (last_page_id_ new_table.1) new_table.2 = Some new_table.1.
Proof. apply (reopen_roundtrip new_table.2 new_table.1 1); [apply new_table_wf|vm_compute; lia]. Defined.

(** A row whose [uint32_t] size is 65536 or more is not rejected as too large: the size is
    narrowed to 16 bits first, so the heap stores only the first [size mod 65536] bytes and reports
    success. *)
Theorem Append_truncates_large_row (r : ScatteredRow) (h : TableHeap) (st : Store TablePage) h' st' rid :
  store_wf st → heap_wf st h → 2 ^ 16 ≤ sc_size r ≤ Z.of_nat (length (sc_bytes r)) →
  Append [r] h st = (Ok [rid], (h', st')) →
  ∃ m stored, heap_row st' h' rid = Some (m, stored) ∧
    stored = take (Z.to_nat (sc_size r mod 2 ^ 16)) (sc_bytes r) ∧
    Z.of_nat (length stored) < sc_size r.
Proof.
  intros Hst Hh Hsz. cbn [Append]. assert (0 ≤ u16 (sc_size r) < 2 ^ 16) by (apply wrap_u_range; lia).
  destruct (AppendRowBytes_spec (mkTupleMeta 0 false) (sc_bytes r) (u16 (sc_size r)) h st Hst Hh)
    as (res & h1 & st1 & -> & _ & Hres); [lia|].
  destruct res as [rid1|]; [|done]. intros [= <- <- <-]. destruct Hres as (_ & _ & _ & Hres).
  eexists _, _. split; [by rewrite Hres, decide_True|]. split; [done|].
  rewrite length_take. unfold u16, wrap_u in *. lia.
Qed.

Definition wide_row : ScatteredRow := mkScattered (replicate (Z.to_nat 65540) x41) 65540.

Lemma Append_truncates_large_row_witness :
  ∃ h' st' rid m stored, Append [wide_row] new_table.1 new_table.2 = (Ok [rid], (h', st')) ∧
    heap_row st' h' rid = Some (m, stored) ∧ Z.of_nat (length stored) < 65540.
Proof.
  assert (∃ h' st' rid, Append [wide_row] new_table.1 new_table.2 = (Ok [rid], (h', st')))
    as (h' & st' & rid & E) by (eexists _, _, _; vm_compute; reflexivity).
  destruct (Append_truncates_large_row wide_row _ _ h' st' rid (proj1 new_table_wf) (proj2 new_table_wf))
    as (m & stored & H1 & _ & H3); [split; [vm_compute; discriminate|]|exact E|].
  - unfold wide_row, sc_bytes, sc_size. rewrite length_replicate, Z2Nat.id by lia. lia.
  - exists h', st', rid, m, stored. split_and!; [exact E|exact H1|exact H3].
Defined.

(** ** Morsels *)

(** The ranges handed out by repeated calls of [NextMorsel]. *)
Fixpoint morsels (fuel : nat) (s : ParallelScanState) : list (Z * Z) :=
  match fuel with
  | O => []
  | S f => match NextMorsel s with
           | (Some r, s') => r :: morsels f s'
           | (None, _) => []
           end
  end.

(** Consecutive ranges covering [[a, b)]. *)
Fixpoint tiles (a b : Z) (rs : list (Z * Z)) : Prop :=
  match rs with
  | [] => a = b
  | (x, y) :: rs => x = a ∧ a < y ∧ y ≤ b ∧ tiles y b rs
  end.

Lemma morsels_tile fuel s :
  0 ≤ ps_next_page_idx s ≤ Z.of_nat (length (ps_pages s)) → 1 ≤ ps_morsel_pages s →
  Z.of_nat (length (ps_pages s)) - ps_next_page_idx s ≤ Z.of_nat fuel →
  tiles (ps_next_page_idx s) (Z.of_nat (length (ps_pages s))) (morsels fuel s).
Proof.
  revert s. induction fuel as [|f IH]; intros s Hi Hm Hf; simpl; [lia|].
  unfold NextMorsel. case_bool_decide; simpl; [lia|]. split_and!; [done|lia|lia|].
  destruct (Z.min_spec (ps_next_page_idx s + ps_morsel_pages s) (Z.of_nat (length (ps_pages s))))
    as [[? ->]|[? ->]].
  - apply (IH (mkScanState (ps_pages s) (ps_stop_slot s) (ps_next_page_idx s + ps_morsel_pages s) (ps_morsel_pages s)));
      simpl; lia.
  - destruct f; simpl; [done|]. unfold NextMorsel. simpl. rewrite bool_decide_true by lia. done.
Qed.

(** the morsels a parallel scan hands out are consecutive, disjoint and cover every page of the
    snapshotted directory exactly once, whatever the morsel size (at least 1). *)
Theorem morsels_cover_directory (pages : list Z) (stop m : Z) :
  1 ≤ m → tiles 0 (Z.of_nat (length pages)) (morsels (length pages) (mkScanState pages stop 0 m)).
Proof. intros Hm. apply (morsels_tile _ (mkScanState pages stop 0 m)); simpl; lia. Qed.

Lemma morsels_cover_directory_witness : tiles 0 3 (morsels 3 (mkScanState [4; 5; 6] 1 0 2)).
Proof. apply (morsels_cover_directory [4; 5; 6] 1 2). lia. Defined.
