(* ===== verification/Watermark.v ===== *)
(** * The garbage-collection watermark ([concurrency/watermark.{h,cpp}])

    [Watermark] keeps a reference-counted ordered map of the read timestamps of live transactions
    and caches its smallest key.  The specification is a multiset of live timestamps whose minimum
    (or the latest commit timestamp when it is empty) is the watermark. *)

From stdpp Require Import gmultiset sorting.
From S2P Require Import Prelude.

Record Watermark := mkWatermark {
  commit_ts_ : Z;
  watermark_ : Z;
  current_reads_ : gmap Z Z   (** read_ts -> number of live transactions reading at it *)
}.

(** [explicit Watermark(timestamp_t commit_ts)]. *)
Definition new_Watermark (commit_ts : Z) : Watermark := mkWatermark commit_ts commit_ts ∅.

(** [current_reads_.begin()->first]: the smallest key of the ordered map. *)
Definition min_of (x : Z) (l : list Z) : Z := foldr Z.min x l.
Definition first_key (m : gmap Z Z) : option Z :=
  match (map_to_list m).*1 with
  | [] => None
  | k :: ks => Some (min_of k ks)
  end.

Definition is_empty (m : gmap Z Z) : bool := bool_decide (m = ∅).

Definition AddTxn (read_ts : Z) (w : Watermark) : result Watermark :=
  if bool_decide (read_ts < commit_ts_ w)
  then Err (EException INVALID "read ts < commit ts in watermark") else
  let was_empty := is_empty (current_reads_ w) in
  let reads := <[read_ts := default 0 (current_reads_ w !! read_ts) + 1]> (current_reads_ w) in
  let wm := if was_empty || bool_decide (read_ts < watermark_ w) then read_ts else watermark_ w in
  Ok (mkWatermark (commit_ts_ w) wm reads).

Definition RemoveTxn (read_ts : Z) (w : Watermark) : result Watermark :=
  match current_reads_ w !! read_ts with
  | None => Err (EException INVALID "removing a read ts not present in watermark")
  | Some c =>
      let reads := if bool_decide (c - 1 = 0) then delete read_ts (current_reads_ w)
                   else <[read_ts := c - 1]> (current_reads_ w) in
      let wm := if is_empty reads then watermark_ w else default (watermark_ w) (first_key reads) in
      Ok (mkWatermark (commit_ts_ w) wm reads)
  end.

Definition UpdateCommitTs (commit_ts : Z) (w : Watermark) : Watermark :=
  mkWatermark commit_ts (watermark_ w) (current_reads_ w).

Definition GetWatermark (w : Watermark) : Z :=
  if is_empty (current_reads_ w) then commit_ts_ w else watermark_ w.

(** ** Specification *)

(** [lb] is the least element of a set of timestamps. *)
Definition is_least (lb : Z) (P : Z → Prop) : Prop := P lb ∧ ∀ t, P t → lb ≤ t.

(** The multiset of live read timestamps a watermark stands for. *)
Definition live_reads (w : Watermark) (live : gmultiset Z) : Prop :=
  ∀ t, multiplicity t live = Z.to_nat (default 0 (current_reads_ w !! t)).

Record wm_wf (w : Watermark) : Prop := {
  wm_pos : ∀ t c, current_reads_ w !! t = Some c → 0 < c;
  wm_least : current_reads_ w ≠ ∅ → is_least (watermark_ w) (λ t, is_Some (current_reads_ w !! t))
}.

(** ** Least keys *)

Lemma min_of_spec x l : is_least (min_of x l) (λ t, t = x ∨ t ∈ l).
Proof.
  unfold is_least, min_of. induction l as [|y l [IH1 IH2]]; simpl.
  - split; [by left|]. intros t [->|Ht]; [lia|set_solver].
  - split.
    + destruct (Z.min_spec y (foldr Z.min x l)) as [[_ ->]|[_ ->]]; set_solver.
    + intros t Ht. assert (t = y ∨ t = x ∨ t ∈ l) as [->|Ht'] by set_solver; [lia|].
      specialize (IH2 t Ht'). lia.
Qed.

Lemma first_key_spec m :
  m ≠ ∅ → ∃ k, first_key m = Some k ∧ is_least k (λ t, is_Some (m !! t)).
Proof.
  intros Hne. unfold first_key.
  assert (∀ t, t ∈ (map_to_list m).*1 ↔ is_Some (m !! t)) as Hin.
  { intros t. rewrite list_elem_of_fmap. split.
    - intros ([k v] & -> & Hkv%elem_of_map_to_list). eauto.
    - intros [v Hv]. exists (t, v). by rewrite elem_of_map_to_list. }
  destruct ((map_to_list m).*1) as [|k ks] eqn:E.
  - apply fmap_nil_inv, map_to_list_empty_iff in E. done.
  - eexists. split; [done|]. destruct (min_of_spec k ks) as [H1 H2]. split.
    + apply Hin. set_solver.
    + intros t Ht. apply H2. apply Hin in Ht. set_solver.
Qed.

Lemma is_least_unique a b P : is_least a P → is_least b P → a = b.
Proof. intros [? Ha] [? Hb]. specialize (Ha b). specialize (Hb a). lia || (apply Z.le_antisymm; auto). Qed.

Lemma is_least_iff a P Q : (∀ t, P t ↔ Q t) → is_least a P → is_least a Q.
Proof. intros H [H1 H2]. split; [by apply H|]. intros t Ht. by apply H2, H. Qed.

(** ** The invariant is kept *)

Lemma new_Watermark_wf c : wm_wf (new_Watermark c) ∧ live_reads (new_Watermark c) ∅.
Proof.
  unfold new_Watermark. split; [split|]; cbn [current_reads_ watermark_].
  - intros t c'. by rewrite lookup_empty.
  - done.
  - intros t. cbn [current_reads_]. rewrite lookup_empty, multiplicity_empty. done.
Qed.

Lemma AddTxn_spec w live ts :
  wm_wf w → live_reads w live → commit_ts_ w ≤ ts →
  ∃ w', AddTxn ts w = Ok w' ∧ wm_wf w' ∧ live_reads w' (live ⊎ {[+ ts +]}) ∧
        commit_ts_ w' = commit_ts_ w.
Proof.
  intros [Hpos Hleast] Hlive Hts. unfold AddTxn. rewrite bool_decide_false by lia.
  eexists. split; [done|]. split; [split|split]; simpl.
  - intros t c. rewrite lookup_insert. case_decide; [|by apply Hpos].
    intros [= <-]. destruct (current_reads_ w !! ts) eqn:E; simpl; [|lia]. apply Hpos in E. lia.
  - intros _. unfold is_empty. case_bool_decide as He; simpl.
    + split; [rewrite lookup_insert_eq; eauto|]. intros t. rewrite He, lookup_insert.
      case_decide; [subst; lia|]. rewrite lookup_empty. by intros [].
    + specialize (Hleast He). destruct Hleast as [H1 H2].
      case_bool_decide as Hlt; split.
      * rewrite lookup_insert_eq. eauto.
      * intros t. rewrite lookup_insert. case_decide; [subst; lia|].
        intros Ht%H2. lia.
      * rewrite lookup_insert. case_decide; [eauto|done].
      * intros t. rewrite lookup_insert. case_decide; [subst; lia|]. auto.
  - intros t. cbn [current_reads_].
    rewrite multiplicity_disj_union, (Hlive t), lookup_insert. case_decide as Ht.
    + subst t. rewrite multiplicity_singleton_eq.
      destruct (current_reads_ w !! ts) as [c|] eqn:E; simpl; [|done].
      apply Hpos in E. lia.
    + rewrite multiplicity_singleton_ne by done. lia.
  - done.
Qed.

Lemma live_reads_elem w live t :
  wm_wf w → live_reads w live → t ∈ live ↔ is_Some (current_reads_ w !! t).
Proof.
  intros [Hpos _] Hl. rewrite elem_of_multiplicity, (Hl t).
  destruct (current_reads_ w !! t) as [c|] eqn:E; simpl.
  - apply Hpos in E. split; [eauto|lia].
  - split; [lia|by intros []].
Qed.

Lemma live_reads_empty w live :
  wm_wf w → live_reads w live → live = ∅ ↔ current_reads_ w = ∅.
Proof.
  intros Hwf Hl. split.
  - intros ->. apply map_empty. intros t. apply eq_None_not_Some.
    rewrite <- (live_reads_elem w ∅ t Hwf Hl). multiset_solver.
  - intros He. apply gmultiset_eq. intros t. rewrite (Hl t), He, lookup_empty, multiplicity_empty. done.
Qed.

Lemma RemoveTxn_spec w live ts :
  wm_wf w → live_reads w live → ts ∈ live →
  ∃ w', RemoveTxn ts w = Ok w' ∧ wm_wf w' ∧ live_reads w' (live ∖ {[+ ts +]}) ∧
        commit_ts_ w' = commit_ts_ w.
Proof.
  intros Hwf Hlive Hin. pose proof Hwf as [Hpos Hleast].
  apply (live_reads_elem w live ts Hwf Hlive) in Hin as [c Hc]. unfold RemoveTxn. rewrite Hc.
  eexists. split; [done|]. pose proof (Hpos _ _ Hc).
  set (reads := if bool_decide (c - 1 = 0) then _ else _).
  assert (∀ t, reads !! t = if decide (ts = t) then (if decide (c = 1) then None else Some (c - 1))
                            else current_reads_ w !! t) as Hr.
  { intros t. subst reads. case_bool_decide; [rewrite lookup_delete|rewrite lookup_insert];
      repeat case_decide; try done; lia. }
  split; [split|split]; cbn [current_reads_ watermark_ commit_ts_].
  - intros t d. rewrite Hr. destruct (decide (ts = t)); [|by apply Hpos].
    destruct (decide (c = 1)); [done|]. intros [= <-]. lia.
  - intros Hne. unfold is_empty. rewrite bool_decide_false by done.
    destruct (first_key_spec reads Hne) as (k & -> & Hk). done.
  - intros t. cbn [current_reads_]. rewrite Hr, multiplicity_difference, (Hlive t).
    destruct (decide (ts = t)) as [<-|Ht].
    + rewrite Hc, multiplicity_singleton_eq. simpl. destruct (decide (c = 1)); simpl; lia.
    + rewrite multiplicity_singleton_ne by done. lia.
  - done.
Qed.

Lemma UpdateCommitTs_spec w live c :
  wm_wf w → live_reads w live → wm_wf (UpdateCommitTs c w) ∧ live_reads (UpdateCommitTs c w) live.
Proof. intros [? ?] ?. split; [by split|done]. Qed.

(** The value of the watermark is the minimum of the live timestamps, or the commit timestamp. *)
Lemma GetWatermark_spec w live :
  wm_wf w → live_reads w live →
  if decide (live = ∅) then GetWatermark w = commit_ts_ w
  else is_least (GetWatermark w) (λ t, t ∈ live).
Proof.
  intros Hwf Hl. pose proof (live_reads_empty w live Hwf Hl) as He. unfold GetWatermark, is_empty.
  case_decide as Hd; [by rewrite bool_decide_true by tauto|].
  rewrite bool_decide_false by tauto.
  eapply is_least_iff; [|apply (wm_least w Hwf); tauto]. intros t. symmetry. by apply live_reads_elem.
Qed.

(** ** Sequences of calls *)

Inductive wm_op := WAdd (ts : Z) | WRemove (ts : Z) | WCommit (ts : Z).

Definition wm_run (o : wm_op) (w : Watermark) : result Watermark :=
  match o with
  | WAdd ts => AddTxn ts w
  | WRemove ts => RemoveTxn ts w
  | WCommit ts => Ok (UpdateCommitTs ts w)
  end.

(** The specification: live timestamps and the latest commit timestamp. *)
Definition spec_run (o : wm_op) (s : gmultiset Z * Z) : option (gmultiset Z * Z) :=
  match o with
  | WAdd ts => if bool_decide (s.2 ≤ ts) then Some (s.1 ⊎ {[+ ts +]}, s.2) else None
  | WRemove ts => if bool_decide (ts ∈ s.1) then Some (s.1 ∖ {[+ ts +]}, s.2) else None
  | WCommit ts => Some (s.1, ts)
  end.

Definition to_option {A} (r : result A) : option A :=
  match r with Ok a => Some a | Err _ => None end.

Definition wm_refines (w : Watermark) (s : gmultiset Z * Z) : Prop :=
  wm_wf w ∧ live_reads w s.1 ∧ commit_ts_ w = s.2.

Lemma wm_step_refines o w s :
  wm_refines w s →
  match to_option (wm_run o w), spec_run o s with
  | Some w', Some s' => wm_refines w' s'
  | None, None => True
  | _, _ => False
  end.
Proof.
  intros (Hwf & Hl & Hc). destruct s as [live c]; simpl in *. subst c. destruct o as [ts|ts|ts]; simpl.
  - case_bool_decide.
    + destruct (AddTxn_spec w live ts Hwf Hl) as (w' & -> & ? & ? & ?); [done|]. done.
    + unfold AddTxn. by rewrite bool_decide_true by lia.
  - case_bool_decide as Hin.
    + destruct (RemoveTxn_spec w live ts Hwf Hl Hin) as (w' & -> & ? & ? & ?). done.
    + unfold RemoveTxn. rewrite (live_reads_elem w) in Hin by done.
      destruct (current_reads_ w !! ts); [by destruct Hin; eauto|done].
  - pose proof (UpdateCommitTs_spec w live ts Hwf Hl) as [??]. done.
Qed.

(** for every sequence of registrations, deregistrations and commits, the cached watermark
    agrees with the specification: a call throws exactly when the timestamp is older than the
    latest commit (registration) or not registered (deregistration), and after the sequence the
    watermark is the smallest live read timestamp, or the latest commit timestamp if none is live. *)
Theorem watermark_refines ops c :
  let wr := foldl (λ (r : option Watermark) o, w ← r; to_option (wm_run o w)) (Some (new_Watermark c)) ops in
  let sr := foldl (λ (r : option (gmultiset Z * Z)) o, s ← r; spec_run o s) (Some (∅, c)) ops in
  match wr, sr with
  | Some w, Some (live, ct) =>
      if decide (live = ∅) then GetWatermark w = ct else is_least (GetWatermark w) (λ t, t ∈ live)
  | None, None => True
  | _, _ => False
  end.
Proof.
  assert (∀ (ro : option Watermark) (so : option (gmultiset Z * Z)),
    match ro, so with Some w, Some s => wm_refines w s | None, None => True | _, _ => False end →
    match foldl (λ (r : option Watermark) o, w ← r; to_option (wm_run o w)) ro ops,
          foldl (λ (r : option (gmultiset Z * Z)) o, s ← r; spec_run o s) so ops with
    | Some w, Some s => wm_refines w s | None, None => True | _, _ => False end) as Hind.
  { induction ops as [|o ops IH]; intros ro so Hr; [done|]. cbn [foldl]. apply IH.
    destruct ro as [w|], so as [s|]; try done. exact (wm_step_refines o w s Hr). }
  assert (wm_refines (new_Watermark c) (∅, c)) as H0
    by (pose proof (new_Watermark_wf c) as [??]; by split_and!).
  specialize (Hind (Some (new_Watermark c)) (Some (∅, c)) H0). cbv zeta.
  destruct (foldl _ (Some (new_Watermark c)) ops) as [w|],
    (foldl _ (Some (∅, c)) ops) as [[live ct]|]; try done.
  destruct Hind as (Hwf & Hl & Hc). simpl in *.
  pose proof (GetWatermark_spec w live Hwf Hl) as G. case_decide; congruence.
Qed.

(** A registration never moves the watermark below the latest commit timestamp or below an
    earlier watermark that was itself at most that timestamp, so a version reclaimed under one
    watermark stays unreachable for every transaction that starts later. *)
Theorem watermark_add_monotone w live ts w' :
  wm_wf w → live_reads w live → GetWatermark w ≤ commit_ts_ w → AddTxn ts w = Ok w' →
  GetWatermark w ≤ GetWatermark w' ∧ GetWatermark w' ≤ ts.
Proof.
  intros Hwf Hl Hle Hadd.
  assert (commit_ts_ w ≤ ts) as Hts by (unfold AddTxn in Hadd; case_bool_decide; [done|lia]).
  destruct (AddTxn_spec w live ts Hwf Hl Hts) as (w2 & E & Hwf2 & Hl2 & Hc2).
  rewrite E in Hadd. injection Hadd as ->.
  pose proof (GetWatermark_spec w live Hwf Hl) as G.
  pose proof (GetWatermark_spec w' _ Hwf2 Hl2) as G2.
  rewrite decide_False in G2 by multiset_solver. destruct G2 as [G2a G2b].
  split; [|apply G2b; multiset_solver].
  assert (GetWatermark w' = ts ∨ GetWatermark w' ∈ live) as [->|Hin] by multiset_solver; [lia|].
  rewrite decide_False in G by multiset_solver. destruct G as [_ G]. auto.
Qed.

Lemma watermark_add_monotone_witness :
  ∃ w, AddTxn 5 (new_Watermark 3) = Ok w ∧ 3 ≤ GetWatermark w ∧ GetWatermark w ≤ 5.
Proof.
  exists (mkWatermark 3 5 {[5 := 1]}). split; [vm_compute; reflexivity|].
  apply (watermark_add_monotone (new_Watermark 3) ∅ 5 (mkWatermark 3 5 {[5 := 1]}));
    [apply new_Watermark_wf|apply new_Watermark_wf|vm_compute; discriminate|vm_compute; reflexivity].
Defined.
