(* ===== verification/Transaction.v ===== *)
(** * Transactions and the transaction manager's tables
    ([concurrency/transaction.h], [concurrency/transaction_manager.{h,cpp}], [common/config.h])

    A [Transaction] object is shared: the manager's map, the executing connection and undo links all
    refer to it.  The model keeps every object ever created in a store [db_txns] keyed by transaction
    id and represents the manager's [txn_map_] by the set of ids still in it, so that a transaction
    reclaimed by garbage collection disappears from the map while its object keeps its identity. *)

From S2P Require Import Prelude TablePage TableHeap Watermark.

Definition INVALID_TXN_ID : Z := -1.
Definition TXN_START_ID : Z := 2 ^ 62.

Inductive TransactionState := RUNNING | TAINTED | COMMITTED | ABORTED.
Inductive IsolationLevel := SNAPSHOT_ISOLATION | SERIALIZABLE.

#[global] Instance TransactionState_eq_dec : EqDecision TransactionState.
Proof. solve_decision. Defined.
#[global] Instance IsolationLevel_eq_dec : EqDecision IsolationLevel.
Proof. solve_decision. Defined.

Record UndoLink := mkUndoLink { prev_txn_ : Z; prev_log_idx_ : Z }.

#[global] Instance UndoLink_eq_dec : EqDecision UndoLink.
Proof. solve_decision. Defined.

(** [UndoLink{}]. *)
Definition no_link : UndoLink := mkUndoLink INVALID_TXN_ID 0.
(** [UndoLink::IsValid]. *)
Definition IsValid (l : UndoLink) : bool := bool_decide (prev_txn_ l ≠ INVALID_TXN_ID).

Record UndoLog := mkUndoLog {
  log_is_deleted_ : bool;
  log_row_ : list byte;
  log_ts_ : Z;
  prev_version_ : UndoLink
}.

(** A recorded scan predicate; the layout argument of the C++ closure is the table's own and is
    fixed when the predicate is built. *)
Definition ScanPredicate : Type := list byte → bool.

Record Transaction := mkTransaction {
  state_ : TransactionState;
  read_ts_ : Z;
  txn_commit_ts_ : Z;
  cancellation_requested_ : bool;
  active_statements_ : Z;
  undo_logs_ : list UndoLog;
  write_set_ : gmap Z (gset RID);
  scan_predicates_ : gmap Z (list ScanPredicate);
  isolation_level_ : IsolationLevel;
  txn_id_ : Z;
  start_time_ : Z
}.

Definition new_Transaction (id : Z) (iso : IsolationLevel) (read_ts now : Z) : Transaction :=
  mkTransaction RUNNING read_ts INVALID_TXN_ID false 0 [] ∅ ∅ iso id now.

Definition GetTransactionTempTs (t : Transaction) : Z := txn_id_ t.
Definition IsTempTs (ts : Z) : bool := bool_decide (ts >= TXN_START_ID).

Definition set_state (s : TransactionState) (t : Transaction) : Transaction :=
  mkTransaction s (read_ts_ t) (txn_commit_ts_ t) (cancellation_requested_ t) (active_statements_ t)
    (undo_logs_ t) (write_set_ t) (scan_predicates_ t) (isolation_level_ t) (txn_id_ t) (start_time_ t).
Definition set_commit_ts (c : Z) (t : Transaction) : Transaction :=
  mkTransaction (state_ t) (read_ts_ t) c (cancellation_requested_ t) (active_statements_ t)
    (undo_logs_ t) (write_set_ t) (scan_predicates_ t) (isolation_level_ t) (txn_id_ t) (start_time_ t).
Definition set_cancel (b : bool) (t : Transaction) : Transaction :=
  mkTransaction (state_ t) (read_ts_ t) (txn_commit_ts_ t) b (active_statements_ t)
    (undo_logs_ t) (write_set_ t) (scan_predicates_ t) (isolation_level_ t) (txn_id_ t) (start_time_ t).
Definition set_active (n : Z) (t : Transaction) : Transaction :=
  mkTransaction (state_ t) (read_ts_ t) (txn_commit_ts_ t) (cancellation_requested_ t) n
    (undo_logs_ t) (write_set_ t) (scan_predicates_ t) (isolation_level_ t) (txn_id_ t) (start_time_ t).

Definition is_open (t : Transaction) : bool :=
  match state_ t with RUNNING | TAINTED => true | _ => false end.

(** [RequestCancellation]: true only for the first request on an open transaction. *)
Definition RequestCancellation (t : Transaction) : bool * Transaction :=
  if negb (is_open t) then (false, t)
  else if cancellation_requested_ t then (false, t) else (true, set_cancel true t).

Definition cancelled : error := EException EXECUTION "transaction was cancelled by its timeout".

Definition EnterStatement (t : Transaction) : result unit * Transaction :=
  if cancellation_requested_ t then (Err cancelled, t) else
  let t := set_active (active_statements_ t + 1) t in
  if cancellation_requested_ t || negb (is_open t)
  then (Err (EException EXECUTION "transaction is no longer active"), set_active (active_statements_ t - 1) t)
  else (Ok tt, t).
Definition LeaveStatement (t : Transaction) : Transaction := set_active (active_statements_ t - 1) t.
Definition ThrowIfCancellationRequested (t : Transaction) : result unit :=
  if cancellation_requested_ t then Err cancelled else Ok tt.

Definition IsExpired (timeout now : Z) (t : Transaction) : bool := bool_decide (now - start_time_ t >= timeout).

(** [AppendUndoLog]: returns the link to the new log. *)
Definition AppendUndoLog (log : UndoLog) (t : Transaction) : UndoLink * Transaction :=
  (mkUndoLink (txn_id_ t) (Z.of_nat (length (undo_logs_ t))),
   mkTransaction (state_ t) (read_ts_ t) (txn_commit_ts_ t) (cancellation_requested_ t)
     (active_statements_ t) (undo_logs_ t ++ [log]) (write_set_ t) (scan_predicates_ t)
     (isolation_level_ t) (txn_id_ t) (start_time_ t)).
Definition ModifyUndoLog (idx : Z) (log : UndoLog) (t : Transaction) : Transaction :=
  mkTransaction (state_ t) (read_ts_ t) (txn_commit_ts_ t) (cancellation_requested_ t)
    (active_statements_ t) (<[Z.to_nat idx := log]> (undo_logs_ t)) (write_set_ t) (scan_predicates_ t)
    (isolation_level_ t) (txn_id_ t) (start_time_ t).
(** [undo_logs_[log_id]]; out of range is undefined. *)
Definition txn_GetUndoLog (idx : Z) (t : Transaction) : option UndoLog :=
  if bool_decide (0 ≤ idx) then undo_logs_ t !! Z.to_nat idx else None.

Definition AppendWriteSet (oid : Z) (rid : RID) (t : Transaction) : Transaction :=
  mkTransaction (state_ t) (read_ts_ t) (txn_commit_ts_ t) (cancellation_requested_ t)
    (active_statements_ t) (undo_logs_ t)
    (<[oid := {[rid]} ∪ default ∅ (write_set_ t !! oid)]> (write_set_ t)) (scan_predicates_ t)
    (isolation_level_ t) (txn_id_ t) (start_time_ t).
Definition AppendScanPredicate (oid : Z) (pred : ScanPredicate) (t : Transaction) : Transaction :=
  mkTransaction (state_ t) (read_ts_ t) (txn_commit_ts_ t) (cancellation_requested_ t)
    (active_statements_ t) (undo_logs_ t) (write_set_ t)
    (<[oid := default [] (scan_predicates_ t !! oid) ++ [pred]]> (scan_predicates_ t))
    (isolation_level_ t) (txn_id_ t) (start_time_ t).
Definition IsScanTuple (oid : Z) (row : list byte) (t : Transaction) : bool :=
  match scan_predicates_ t !! oid with
  | None => false
  | Some preds => existsb (λ pred, pred row) preds
  end.
Definition SetTainted (t : Transaction) : result Transaction :=
  if bool_decide (state_ t ≠ RUNNING)
  then Err (EException INVALID "only a RUNNING transaction can be tainted")
  else Ok (set_state TAINTED t).

(** ** [TransactionManager] *)

Record TransactionManager := mkTxnMgr {
  txn_timeout_ : Z;
  next_txn_id_ : Z;
  last_commit_ts_ : Z;
  txn_map_ : gset Z;
  running_txns_ : Watermark;
  version_info_ : gmap Z (gmap Z UndoLink)   (** page id -> slot -> head undo link *)
}.

Definition new_TransactionManager (timeout : Z) : TransactionManager :=
  mkTxnMgr timeout TXN_START_ID 0 ∅ (new_Watermark 0) ∅.

(** The database the MVCC layer runs on: pages, the heaps of the row tables of the catalog, the
    transaction objects and the manager. *)
Record Db (P : Type) := mkDb {
  db_store : Store P;
  db_heaps : gmap Z TableHeap;
  db_txns : gmap Z Transaction;
  db_mgr : TransactionManager
}.
Arguments mkDb {P} _ _ _ _.
Arguments db_store {P} _.
Arguments db_heaps {P} _.
Arguments db_txns {P} _.
Arguments db_mgr {P} _.

Section manager.
Context {P : Type} `{!RowPage P}.
Implicit Types (db : Db P).

Definition with_store (st : Store P) db : Db P := mkDb st (db_heaps db) (db_txns db) (db_mgr db).
Definition with_txns (ts : gmap Z Transaction) db : Db P := mkDb (db_store db) (db_heaps db) ts (db_mgr db).
Definition with_mgr (m : TransactionManager) db : Db P := mkDb (db_store db) (db_heaps db) (db_txns db) m.
Definition with_txn (tid : Z) (t : Transaction) db : Db P := with_txns (<[tid := t]> (db_txns db)) db.

(** [BeginShared]: [now] is the reading of the steady clock. *)
Definition BeginShared (iso : IsolationLevel) (now : Z) db : result Z * Db P :=
  let m := db_mgr db in
  let txn_id := next_txn_id_ m in
  let read_ts := last_commit_ts_ m in
  let txn := new_Transaction txn_id iso read_ts now in
  let m := mkTxnMgr (txn_timeout_ m) (txn_id + 1) (last_commit_ts_ m) ({[txn_id]} ∪ txn_map_ m)
             (running_txns_ m) (version_info_ m) in
  let db := with_mgr m (with_txn txn_id txn db) in
  match AddTxn read_ts (running_txns_ m) with
  | Err e => (Err e, db)
  | Ok w => (Ok txn_id, with_mgr (mkTxnMgr (txn_timeout_ m) (next_txn_id_ m) (last_commit_ts_ m)
                                    (txn_map_ m) w (version_info_ m)) db)
  end.

Definition GetTransactionState (tid : Z) db : option TransactionState :=
  if bool_decide (tid ∈ txn_map_ (db_mgr db)) then state_ <$> db_txns db !! tid else None.

(** [GetUndoLink]. *)
Definition GetUndoLink (rid : RID) db : option UndoLink :=
  match version_info_ (db_mgr db) !! page_id_ rid with
  | None => None
  | Some page_info => page_info !! slot_num_ rid
  end.

(** [UpdateUndoLink] with its optional gate. *)
Definition UpdateUndoLink (rid : RID) (prev_link : option UndoLink)
    (check : option (option UndoLink → bool)) db : bool * Db P :=
  let m := db_mgr db in
  let page_info := default ∅ (version_info_ m !! page_id_ rid) in
  let put pi := with_mgr (mkTxnMgr (txn_timeout_ m) (next_txn_id_ m) (last_commit_ts_ m)
                   (txn_map_ m) (running_txns_ m) (<[page_id_ rid := pi]> (version_info_ m))) db in
  let ok := match check with None => true | Some c => c (page_info !! slot_num_ rid) end in
  if negb ok then (false, put page_info) else
  (true, put (match prev_link with
              | Some l => <[slot_num_ rid := l]> page_info
              | None => delete (slot_num_ rid) page_info
              end)).

(** [GetUndoLogOptional]: nothing when the owning transaction was collected; undefined when it has no such log. *)
Definition GetUndoLogOptional (link : UndoLink) db : result (option UndoLog) :=
  if bool_decide (prev_txn_ link ∈ txn_map_ (db_mgr db)) then
    match t ← db_txns db !! prev_txn_ link; txn_GetUndoLog (prev_log_idx_ link) t with
    | Some log => Ok (Some log)
    | None => Err EUndefined
    end
  else Ok None.

Definition GetUndoLog (link : UndoLink) db : result UndoLog :=
  log ← GetUndoLogOptional link db;
  match log with
  | Some log => Ok log
  | None => Err (EException INVALID "undo log not found — owning transaction was already collected")
  end.

Definition mgr_GetWatermark db : Z := GetWatermark (running_txns_ (db_mgr db)).

(** [SetLastCommitTs]: seeding the clock on reopen. *)
Definition SetLastCommitTs (ts : Z) db : Db P :=
  let m := db_mgr db in
  with_mgr (mkTxnMgr (txn_timeout_ m) (next_txn_id_ m) ts (txn_map_ m)
              (UpdateCommitTs ts (running_txns_ m)) (version_info_ m)) db.

Definition GetTransactionCount db : Z := Z.of_nat (size (txn_map_ (db_mgr db))).
End manager.

(** ** Head links *)

Section link_facts.
Context {P : Type} `{!RowPage P}.
Implicit Types (db : Db P).

Lemma GetUndoLink_update rid l db rid' :
  GetUndoLink rid' (UpdateUndoLink rid l None db).2 = if decide (rid = rid') then l else GetUndoLink rid' db.
Proof.
  unfold UpdateUndoLink, GetUndoLink; simpl. rewrite lookup_insert.
  case_decide as Hp; simpl.
  - rewrite Hp. destruct l as [l|]; [rewrite lookup_insert|rewrite lookup_delete];
      destruct (decide (rid = rid')) as [->|Hne]; try (by rewrite decide_True by done).
    all: rewrite decide_False by (intros ?; apply Hne; destruct rid, rid'; simpl in *; congruence).
    all: destruct (version_info_ (db_mgr db) !! page_id_ rid'); simpl; [done|by rewrite lookup_empty].
  - rewrite decide_False by congruence. done.
Qed.
End link_facts.
