(* ===== verification/Mvcc.v ===== *)
(** * The MVCC layer ([storage/mvcc/mvcc.cpp]) and the transaction lifecycle
    ([concurrency/transaction_manager.cpp])

    Every function below is the whole C++ function; an exception keeps the mutations made before it.
    The page latch taken by each function is what makes it one atomic step; [SnapshotSpec.v]
    interleaves these steps. *)

From S2P Require Import Prelude TablePage TableHeap Watermark Transaction.

Section mvcc.
Context {P : Type} `{!RowPage P}.
Implicit Types (db : Db P).

Definition write_write_conflict : error :=
  EException CONFLICT "write-write conflict: a concurrent transaction modified this row".
Definition restore_failed : error :=
  EException EXECUTION "failed to restore pre-image row on rollback".

(** [ThrowWriteWriteConflict]: taint, then throw ([SetTainted] may itself throw). *)
Definition ThrowWriteWriteConflict (tid : Z) (t : Transaction) db : result unit * Db P :=
  match SetTainted t with
  | Err e => (Err e, db)
  | Ok t' => (Err write_write_conflict, with_txn tid t' db)
  end.

Definition rid_page (rid : RID) db : P := page_at (db_store db) (page_id_ rid).
Definition put_page (rid : RID) (p : P) db : Db P := with_store (set_page (page_id_ rid) p (db_store db)) db.

(** The [apply_base] closure of [ApplyMvccModify]. *)
Definition apply_base (temp_ts : Z) (rid : RID) (is_delete : bool) (new_row : list byte) (new_size : Z) db
    : result unit * Db P :=
  let page := rid_page rid db in
  let new_meta := mkTupleMeta temp_ts is_delete in
  if is_delete then
    match rp_set_meta new_meta (page_slot rid) page with
    | Err e => (Err e, db)
    | Ok page' => (Ok tt, put_page rid page' db)
    end
  else
    match rp_update new_meta new_row new_size (page_slot rid) page with
    | Err e => (Err e, db)
    | Ok (false, _) => (Err update_too_large, db)
    | Ok (true, page') => (Ok tt, put_page rid page' db)
    end.

Definition ApplyMvccModify (tid oid : Z) (rid : RID) (is_delete : bool) (new_row : list byte)
    (new_size : Z) db : result unit * Db P :=
  match db_txns db !! tid with
  | None => (Err EUndefined, db)
  | Some t =>
    match rp_get_row (page_slot rid) (rid_page rid db) with
    | Err e => (Err e, db)
    | Ok (meta, old_bytes, old_size) =>
      let read_ts := read_ts_ t in
      let temp_ts := GetTransactionTempTs t in
      if bool_decide (ts_ meta = temp_ts) then
        (* Branch 1: my own uncommitted version *)
        match apply_base temp_ts rid is_delete new_row new_size db with
        | (Err e, db) => (Err e, db)
        | (Ok _, db) => (Ok tt, with_txn tid (AppendWriteSet oid rid t) db)
        end
      else if bool_decide (ts_ meta ≤ read_ts) then
        (* Branch 2: version the committed base *)
        let log := mkUndoLog (is_deleted_ meta) (if is_deleted_ meta then [] else old_bytes) (ts_ meta)
                     (default no_link (GetUndoLink rid db)) in
        let (link, t) := AppendUndoLog log t in
        let db := with_txn tid t db in
        match apply_base temp_ts rid is_delete new_row new_size db with
        | (Err e, db) => (Err e, db)
        | (Ok _, db) =>
            let db := (UpdateUndoLink rid (Some link) None db).2 in
            (Ok tt, with_txn tid (AppendWriteSet oid rid t) db)
        end
      else
        (* Branch 3: first committer wins *)
        ThrowWriteWriteConflict tid t db
    end
  end.

(** One row of [MvccInsert]. *)
Definition MvccInsertRow (tid oid : Z) (r : ScatteredRow) db : result RID * Db P :=
  match db_txns db !! tid, db_heaps db !! oid with
  | Some t, Some h =>
      match AppendRowBytes (mkTupleMeta (GetTransactionTempTs t) false) (sc_bytes r) (u16 (sc_size r))
              h (db_store db) with
      | (res, (h', st')) =>
          let db := mkDb st' (<[oid := h']> (db_heaps db)) (db_txns db) (db_mgr db) in
          match res with
          | Err e => (Err e, db)
          | Ok rid => (Ok rid, with_txn tid (AppendWriteSet oid rid t) db)
          end
      end
  | _, _ => (Err EUndefined, db)
  end.

Fixpoint MvccInsert (tid oid : Z) (rows : list ScatteredRow) db : result (list RID) * Db P :=
  match rows with
  | [] => (Ok [], db)
  | r :: rows =>
      match MvccInsertRow tid oid r db with
      | (Err e, db) => (Err e, db)
      | (Ok rid, db) =>
          match MvccInsert tid oid rows db with
          | (Ok rids, db) => (Ok (rid :: rids), db)
          | (Err e, db) => (Err e, db)
          end
      end
  end.

Fixpoint MvccUpdate (tid oid : Z) (rows : list (RID * ScatteredRow)) db : result unit * Db P :=
  match rows with
  | [] => (Ok tt, db)
  | (rid, r) :: rows =>
      match ApplyMvccModify tid oid rid false (sc_bytes r) (u16 (sc_size r)) db with
      | (Err e, db) => (Err e, db)
      | (Ok _, db) => MvccUpdate tid oid rows db
      end
  end.

Fixpoint MvccDelete (tid oid : Z) (rids : list RID) db : result unit * Db P :=
  match rids with
  | [] => (Ok tt, db)
  | rid :: rids =>
      match ApplyMvccModify tid oid rid true [] 0 db with
      | (Err e, db) => (Err e, db)
      | (Ok _, db) => MvccDelete tid oid rids db
      end
  end.

(** ** Reading *)

(** The version walk of [ReconstructVisible]; [EBlocked] is "out of fuel". *)
Fixpoint walk_versions (fuel : nat) (read_ts : Z) (link : option UndoLink) db : result (option (list byte)) :=
  match link with
  | None => Ok None
  | Some l =>
      if negb (IsValid l) then Ok None else
      match fuel with
      | O => Err EBlocked
      | S f =>
          log ← GetUndoLogOptional l db;
          match log with
          | None => Ok None
          | Some undo =>
              if bool_decide (log_ts_ undo ≤ read_ts) then
                Ok (if log_is_deleted_ undo then None else Some (log_row_ undo))
              else walk_versions f read_ts (Some (prev_version_ undo)) db
          end
      end
  end.

Definition ReconstructVisible (fuel : nat) (t : Transaction) (meta : TupleMeta) (base_row : list byte)
    (head_link : option UndoLink) db : result (option (list byte)) :=
  if bool_decide (ts_ meta = GetTransactionTempTs t ∨ ts_ meta ≤ read_ts_ t) then
    Ok (if is_deleted_ meta then None else Some base_row)
  else walk_versions fuel (read_ts_ t) head_link db.

(** Versions of one row carry strictly decreasing commit timestamps, so a walk visits at most one
    version per timestamp up to the latest commit. *)
Definition walk_fuel db : nat := Z.to_nat (last_commit_ts_ (db_mgr db)) + 1.

Definition CollectVisibleVersion (tid : Z) (rid : RID) db : result (option (list byte)) :=
  match db_txns db !! tid with
  | None => Err EUndefined
  | Some t =>
      '(meta, row, _) ← rp_get_row (page_slot rid) (rid_page rid db);
      ReconstructVisible (walk_fuel db) t meta row (GetUndoLink rid db) db
  end.

(** [MvccFetch]: the visible versions of the addressed rows, in order. *)
Fixpoint MvccFetch (tid : Z) (rids : list RID) db : result (list (list byte)) :=
  match rids with
  | [] => Ok []
  | rid :: rids =>
      v ← CollectVisibleVersion tid rid db;
      vs ← MvccFetch tid rids db;
      Ok (match v with Some row => row :: vs | None => vs end)
  end.

(** ** Commit and rollback of one row *)

Definition MvccStampCommit (rid : RID) (commit_ts : Z) db : result unit * Db P :=
  let page := rid_page rid db in
  match (meta ← rp_get_meta (page_slot rid) page;
         rp_set_meta (mkTupleMeta commit_ts (is_deleted_ meta)) (page_slot rid) page) with
  | Err e => (Err e, db)
  | Ok page' => (Ok tt, put_page rid page' db)
  end.

Definition MvccRollback (tid : Z) (rid : RID) db : result unit * Db P :=
  match db_txns db !! tid with
  | None => (Err EUndefined, db)
  | Some t =>
    let page := rid_page rid db in
    let head_link := GetUndoLink rid db in
    let own := match head_link with
               | Some l => if IsValid l && bool_decide (prev_txn_ l = txn_id_ t) then Some l else None
               | None => None
               end in
    match own with
    | Some l =>
        match txn_GetUndoLog (prev_log_idx_ l) t with
        | None => (Err EUndefined, db)
        | Some log =>
            let restored := mkTupleMeta (log_ts_ log) (log_is_deleted_ log) in
            match (if log_is_deleted_ log then
                     page' ← rp_set_meta restored (page_slot rid) page; Ok (true, page')
                   else rp_update restored (log_row_ log) (u16 (Z.of_nat (length (log_row_ log))))
                          (page_slot rid) page) with
            | Err e => (Err e, db)
            | Ok (false, _) => (Err restore_failed, db)
            | Ok (true, page') =>
                let db := put_page rid page' db in
                let link' := if IsValid (prev_version_ log) then Some (prev_version_ log) else None in
                (Ok tt, (UpdateUndoLink rid link' None db).2)
            end
        end
    | None =>
        match (meta ← rp_get_meta (page_slot rid) page;
               rp_set_meta (mkTupleMeta 0 true) (page_slot rid) page) with
        | Err e => (Err e, db)
        | Ok page' => (Ok tt, put_page rid page' db)
        end
    end
  end.

(** ** [TransactionManager::Commit], [Abort], garbage collection, validation *)

(** The write set in iteration order; tables without a row heap are skipped by the callers. *)
Definition write_list db (t : Transaction) : list (Z * RID) :=
  '(oid, rids) ← map_to_list (write_set_ t);
  match db_heaps db !! oid with
  | None => []
  | Some _ => pair oid <$> elements rids
  end.

Fixpoint stamp_all (rids : list RID) (commit_ts : Z) db : result unit * Db P :=
  match rids with
  | [] => (Ok tt, db)
  | rid :: rids =>
      match MvccStampCommit rid commit_ts db with
      | (Err e, db) => (Err e, db)
      | (Ok _, db) => stamp_all rids commit_ts db
      end
  end.

Fixpoint rollback_all (tid : Z) (rids : list RID) db : result unit * Db P :=
  match rids with
  | [] => (Ok tt, db)
  | rid :: rids =>
      match MvccRollback tid rid db with
      | (Err e, db) => (Err e, db)
      | (Ok _, db) => rollback_all tid rids db
      end
  end.

(** The stores that publish a commit. *)
Definition publish_commit (tid : Z) (t : Transaction) (commit_ts : Z) db : Db P :=
  let m := db_mgr db in
  with_mgr (mkTxnMgr (txn_timeout_ m) (next_txn_id_ m) commit_ts (txn_map_ m) (running_txns_ m)
              (version_info_ m))
    (with_txn tid (set_state COMMITTED (set_commit_ts commit_ts t)) db).

(** Deregistering from the watermark; [commit_ts] is given on the commit path only. *)
Definition deregister (t : Transaction) (commit_ts : option Z) db : result unit * Db P :=
  let m := db_mgr db in
  let w := match commit_ts with Some c => UpdateCommitTs c (running_txns_ m) | None => running_txns_ m end in
  let put w := with_mgr (mkTxnMgr (txn_timeout_ m) (next_txn_id_ m) (last_commit_ts_ m) (txn_map_ m) w
                           (version_info_ m)) db in
  match RemoveTxn (read_ts_ t) w with
  | Err e => (Err e, put w)
  | Ok w' => (Ok tt, put w')
  end.

Definition Abort (tid : Z) db : result unit * Db P :=
  match db_txns db !! tid with
  | None => (Err EUndefined, db)
  | Some t =>
    match state_ t with
    | ABORTED => (Ok tt, db)
    | COMMITTED => (Err (EException INVALID "only a RUNNING or TAINTED transaction can abort"), db)
    | RUNNING | TAINTED =>
        match rollback_all tid (write_list db t).*2 db with
        | (Err e, db) => (Err e, db)
        | (Ok _, db) =>
            let db := with_txn tid (set_state ABORTED t) db in
            deregister t None db
        end
    end
  end.

(** [RidConflictsWithReads]: the version walk. *)
Fixpoint conflict_walk (fuel : nat) (t : Transaction) (oid : Z) (link : option UndoLink) db : result bool :=
  match link with
  | None => Ok false
  | Some l =>
      if negb (IsValid l) then Ok false else
      match fuel with
      | O => Err EBlocked
      | S f =>
          log ← GetUndoLogOptional l db;
          match log with
          | None => Ok false
          | Some undo =>
              if negb (log_is_deleted_ undo) && IsScanTuple oid (log_row_ undo) t then Ok true
              else if bool_decide (log_ts_ undo ≤ read_ts_ t) then Ok false
              else conflict_walk f t oid (Some (prev_version_ undo)) db
          end
      end
  end.

Definition RidConflictsWithReads (fuel : nat) (t : Transaction) (oid : Z) (rid : RID) db : result bool :=
  '(meta, base, _) ← rp_get_row (page_slot rid) (rid_page rid db);
  let committed := negb (IsTempTs (ts_ meta)) in
  if committed && (negb (is_deleted_ meta) && IsScanTuple oid base t) then Ok true
  else if committed && bool_decide (ts_ meta ≤ read_ts_ t) then Ok false
  else conflict_walk fuel t oid (GetUndoLink rid db) db.

(** The write sets of the transactions of the map that committed after [t]'s snapshot. *)
Definition suspects (tid : Z) (t : Transaction) db : list (Z * RID) :=
  other ← elements (txn_map_ (db_mgr db));
  match db_txns db !! other with
  | None => []
  | Some o =>
      if bool_decide (other = tid) then []
      else if bool_decide (state_ o ≠ COMMITTED) then []
      else if bool_decide (txn_commit_ts_ o ≤ read_ts_ t) then []
      else '(oid, rids) ← map_to_list (write_set_ o); pair oid <$> elements rids
  end.

Fixpoint check_suspects (fuel : nat) (t : Transaction) (l : list (Z * RID)) db : result bool :=
  match l with
  | [] => Ok true
  | (oid, rid) :: l =>
      match db_heaps db !! oid with
      | None => check_suspects fuel t l db
      | Some _ =>
          c ← RidConflictsWithReads fuel t oid rid db;
          if c : bool then Ok false else check_suspects fuel t l db
      end
  end.

Definition VerifyTxn (tid : Z) db : result bool :=
  match db_txns db !! tid with
  | None => Err EUndefined
  | Some t =>
      if bool_decide (isolation_level_ t ≠ SERIALIZABLE) then Ok true
      else if bool_decide (write_set_ t = ∅) then Ok true
      else check_suspects (walk_fuel db) t (suspects tid t db) db
  end.

(** The part of [Commit] under [commit_mutex_], after validation succeeded. *)
Definition commit_validated (tid : Z) (t : Transaction) db : result bool * Db P :=
  let commit_ts := last_commit_ts_ (db_mgr db) + 1 in
  match stamp_all (write_list db t).*2 commit_ts db with
  | (Err e, db) => (Err e, db)
  | (Ok _, db) =>
      match deregister t (Some commit_ts) (publish_commit tid t commit_ts db) with
      | (Err e, db) => (Err e, db)
      | (Ok _, db) => (Ok true, db)
      end
  end.

(** Rolling back inside [Commit] and reporting failure. *)
Definition abort_and (r : result bool) (tid : Z) db : result bool * Db P :=
  match Abort tid db with
  | (Err e, db) => (Err e, db)
  | (Ok _, db) => (r, db)
  end.

Definition Commit (tid : Z) db : result bool * Db P :=
  match db_txns db !! tid with
  | None => (Err EUndefined, db)
  | Some t =>
    if cancellation_requested_ t then
      abort_and (Err (EException EXECUTION "cannot commit: transaction was cancelled by its timeout")) tid db
    else
    let validate k :=
      if bool_decide (isolation_level_ t = SERIALIZABLE) then
        match VerifyTxn tid db with
        | Err e => (Err e, db)
        | Ok false => abort_and (Ok false) tid db
        | Ok true => k
        end
      else k in
    validate
      (if bool_decide (state_ t ≠ RUNNING)
       then (Err (EException INVALID "only a RUNNING transaction can commit"), db)
       else validate (commit_validated tid t db))
  end.

Definition txn_is (f : Transaction → bool) db (tid : Z) : bool :=
  match db_txns db !! tid with Some t => f t | None => false end.

(** [AbortAllRunning]: the open transactions of the map, in turn. *)
Definition open_txns db : list Z :=
  filter (λ tid, txn_is is_open db tid = true) (elements (txn_map_ (db_mgr db))).
Fixpoint abort_each (tids : list Z) db : result unit * Db P :=
  match tids with
  | [] => (Ok tt, db)
  | tid :: tids =>
      match db_txns db !! tid with
      | None => abort_each tids db
      | Some t =>
          if is_open t then
            match Abort tid db with
            | (Err e, db) => (Err e, db)
            | (Ok _, db) => abort_each tids db
            end
          else abort_each tids db
      end
  end.
Definition AbortAllRunning db : result unit * Db P := abort_each (open_txns db) db.

(** ** [GarbageCollection] *)

(** Phase 0: cancel expired transactions, abort the idle ones; counts the first cancellations. *)
Fixpoint expire_each (tids : list Z) (timed_out : Z) db : result Z * Db P :=
  match tids with
  | [] => (Ok timed_out, db)
  | tid :: tids =>
      match db_txns db !! tid with
      | None => expire_each tids timed_out db
      | Some t =>
          if is_open t then
            let (first, t') := RequestCancellation t in
            let db := with_txn tid t' db in
            let n := if first then timed_out + 1 else timed_out in
            if bool_decide (active_statements_ t' = 0) then
              match Abort tid db with
              | (Err e, db) => (Err e, db)
              | (Ok _, db) => expire_each tids n db
              end
            else expire_each tids n db
          else expire_each tids timed_out db
      end
  end.

Definition collectible (watermark : Z) (t : Transaction) : bool :=
  match state_ t with
  | ABORTED => true
  | COMMITTED => bool_decide (txn_commit_ts_ t ≤ watermark)
  | _ => false
  end.

(** The reclaim loop over [txn_map_]. *)
Definition reclaim (watermark : Z) db : Z * Db P :=
  let m := db_mgr db in
  let dead := filter (λ tid, txn_is (collectible watermark) db tid = true) (txn_map_ m) in
  (Z.of_nat (size dead),
   with_mgr (mkTxnMgr (txn_timeout_ m) (next_txn_id_ m) (last_commit_ts_ m) (txn_map_ m ∖ dead)
               (running_txns_ m) (version_info_ m)) db).

Definition GarbageCollection (now : Z) db : result (Z * Z) * Db P :=
  let expired := filter (λ tid, txn_is (IsExpired (txn_timeout_ (db_mgr db)) now) db tid = true)
                   (open_txns db) in
  match expire_each expired 0 db with
  | (Err e, db) => (Err e, db)
  | (Ok timed_out, db) =>
      let watermark := mgr_GetWatermark db in
      let (reclaimed, db) := reclaim watermark db in
      (Ok (timed_out, reclaimed), db)
  end.

(** [Catalog::DropTable], for a row table already resolved to its oid: the heap's pages go back to
    the free list and the table leaves the catalog; the manager's version table is not touched. *)
Definition DropTable (oid : Z) db : bool * Db P :=
  match db_heaps db !! oid with
  | None => (false, db)
  | Some h =>
      let (_, st) := FreeAllPages h (db_store db) in
      (true, mkDb st (delete oid (db_heaps db)) (db_txns db) (db_mgr db))
  end.
End mvcc.
