(* ===== verification/RowInvariant.v ===== *)
(** * Version chains

    What a head undo link stands for: the list of committed versions of one row, newest first.
    [committed_chain] reads it off the transaction objects; the lemmas show that growth of the
    transaction table never changes a chain, that timestamps strictly decrease along it (so a walk is
    bounded by the latest commit timestamp), and that the walk of [ReconstructVisible] computes the
    version visible at a timestamp even after garbage collection removed the owners of old links. *)

From S2P Require Import Prelude TablePage TableHeap Watermark Transaction Mvcc.

(** A committed version: its commit timestamp and the row, [None] for a tombstone. *)
Definition version : Type := Z * option (list byte).

Definition meta_val (m : TupleMeta) (row : list byte) : option (list byte) :=
  if is_deleted_ m then None else Some row.
Definition log_val (log : UndoLog) : option (list byte) :=
  if log_is_deleted_ log then None else Some (log_row_ log).

(** The version visible at [ts], and the timestamp of the newest version. *)
Fixpoint lookup_at (ts : Z) (vs : list version) : option (list byte) :=
  match vs with
  | [] => None
  | (t, v) :: vs => if decide (t ≤ ts) then v else lookup_at ts vs
  end.
Definition head_ts (vs : list version) : Z :=
  match vs with [] => 0 | (t, _) :: _ => t end.

Definition short (row : list byte) : Prop := Z.of_nat (length row) < 2 ^ 16.

(** [committed_chain txns link hi vs]: following [link] below a version committed at [hi] yields the
    versions [vs], each log owned by the transaction that committed the version above it. *)
Inductive committed_chain (txns : gmap Z Transaction) : option UndoLink → Z → list version → Prop :=
  | cc_none hi : committed_chain txns None hi []
  | cc_invalid l hi : IsValid l = false → committed_chain txns (Some l) hi []
  | cc_cons l t log vs :
      IsValid l = true → txns !! prev_txn_ l = Some t → state_ t = COMMITTED →
      txn_GetUndoLog (prev_log_idx_ l) t = Some log →
      0 ≤ log_ts_ log ≤ read_ts_ t → short (log_row_ log) →
      committed_chain txns (Some (prev_version_ log)) (log_ts_ log) vs →
      committed_chain txns (Some l) (txn_commit_ts_ t) ((log_ts_ log, log_val log) :: vs).

(** The chain under an uncommitted version of [tid]: nothing (a fresh insert), or the pre-image in
    [tid]'s own log on top of a committed chain. *)
Inductive pending_chain (txns : gmap Z Transaction) (tid : Z) : option UndoLink → list version → Prop :=
  | pc_fresh : pending_chain txns tid None []
  | pc_log l t log vs :
      IsValid l = true → prev_txn_ l = tid → txns !! tid = Some t →
      txn_GetUndoLog (prev_log_idx_ l) t = Some log →
      0 ≤ log_ts_ log ≤ read_ts_ t → short (log_row_ log) →
      committed_chain txns (Some (prev_version_ log)) (log_ts_ log) vs →
      pending_chain txns tid (Some l) ((log_ts_ log, log_val log) :: vs).

(** Transaction objects only grow: snapshots are fixed, undo logs are appended, and a committed
    transaction is final. *)
Definition txn_le (t t' : Transaction) : Prop :=
  read_ts_ t' = read_ts_ t ∧ undo_logs_ t `prefix_of` undo_logs_ t' ∧
  (state_ t = COMMITTED → state_ t' = COMMITTED ∧ txn_commit_ts_ t' = txn_commit_ts_ t).
Definition txns_le (txns txns' : gmap Z Transaction) : Prop :=
  ∀ tid t, txns !! tid = Some t → ∃ t', txns' !! tid = Some t' ∧ txn_le t t'.

#[global] Instance txn_le_refl : Reflexive txn_le.
Proof. intros t. unfold txn_le. done. Qed.
#[global] Instance txns_le_refl : Reflexive txns_le.
Proof. intros txns tid t H. exists t. split; [done|reflexivity]. Qed.

#[global] Instance txn_le_trans : Transitive txn_le.
Proof.
  intros x y z (R1 & P1 & C1) (R2 & P2 & C2). split; [congruence|]. split; [by etrans|].
  intros Hs. destruct (C1 Hs) as [Hs' ->%symmetry]. destruct (C2 Hs') as [? ?]. split; [done|congruence].
Qed.
#[global] Instance txns_le_trans : Transitive txns_le.
Proof.
  intros x y z H1 H2 tid t Ht. destruct (H1 _ _ Ht) as (t1 & Ht1 & ?). destruct (H2 _ _ Ht1) as (t2 & Ht2 & ?).
  exists t2. split; [done|]. by etrans.
Qed.

Lemma txns_le_insert txns tid t t' : txns !! tid = Some t → txn_le t t' → txns_le txns (<[tid := t']> txns).
Proof.
  intros H Hle tid' t0 H0. destruct (decide (tid = tid')) as [<-|Hne].
  - rewrite lookup_insert_eq. simplify_eq. eauto.
  - rewrite lookup_insert_ne by done. exists t0. split; [done|reflexivity].
Qed.
Lemma txns_le_fresh txns tid t' : txns !! tid = None → txns_le txns (<[tid := t']> txns).
Proof.
  intros H tid' t0 H0. rewrite lookup_insert_ne by congruence. exists t0. split; [done|reflexivity].
Qed.

Lemma txn_log_le t t' i log : txn_le t t' → txn_GetUndoLog i t = Some log → txn_GetUndoLog i t' = Some log.
Proof.
  intros (_ & Hp & _). unfold txn_GetUndoLog. case_bool_decide; [|done]. intros. by eapply prefix_lookup_Some.
Qed.

Lemma committed_chain_le txns txns' lk hi vs :
  txns_le txns txns' → committed_chain txns lk hi vs → committed_chain txns' lk hi vs.
Proof.
  intros Hle. induction 1 as [| |l t log vs HV Ht Hs Hlog Hts Hsh Hc IH]; [constructor|by constructor|].
  destruct (Hle _ _ Ht) as (t' & Ht' & Htl). pose proof Htl as (Hr & _ & Hst).
  destruct (Hst Hs) as [Hs' <-]. econstructor; eauto using txn_log_le. by rewrite Hr.
Qed.

Lemma pending_chain_le txns txns' tid lk vs :
  txns_le txns txns' → pending_chain txns tid lk vs → pending_chain txns' tid lk vs.
Proof.
  intros Hle. destruct 1 as [|l t log vs HV Hl Ht Hlog Hts Hsh Hc]; [constructor|].
  destruct (Hle _ _ Ht) as (t' & Ht' & Htl). pose proof Htl as (Hr & _ & _).
  econstructor; eauto using txn_log_le, committed_chain_le. by rewrite Hr.
Qed.

(** Committed transactions commit after their snapshot. *)
Definition commits_after_snapshot (txns : gmap Z Transaction) : Prop :=
  ∀ tid t, txns !! tid = Some t → state_ t = COMMITTED → read_ts_ t < txn_commit_ts_ t.

Lemma committed_chain_length txns lk hi vs :
  commits_after_snapshot txns → 0 ≤ hi → committed_chain txns lk hi vs → Z.of_nat (length vs) ≤ hi.
Proof.
  intros Hca. intros Hhi Hc. revert Hhi.
  induction Hc as [| |l t log vs HV Ht Hs Hlog Hts Hsh Hc IH]; intros Hhi; simpl; [lia..|].
  specialize (Hca _ _ Ht Hs). lia.
Qed.

Lemma pending_chain_bound txns tid lk vs bound :
  commits_after_snapshot txns → (∀ t, txns !! tid = Some t → 0 ≤ read_ts_ t ≤ bound) → 0 ≤ bound →
  pending_chain txns tid lk vs → 0 ≤ head_ts vs ≤ bound ∧ Z.of_nat (length vs) ≤ bound + 1.
Proof.
  intros Hca Hb H0. destruct 1 as [|l t log vs HV Hl Ht Hlog Hts Hsh Hc]; simpl; [lia|].
  specialize (Hb _ Ht). apply committed_chain_length in Hc; [lia|done|lia].
Qed.

(** Beyond the newest version a lookup does not depend on the timestamp. *)
Lemma lookup_at_ge vs ts ts' : head_ts vs ≤ ts → head_ts vs ≤ ts' → lookup_at ts vs = lookup_at ts' vs.
Proof. destruct vs as [|[t v] vs]; simpl; [done|]. intros. by rewrite !decide_True by done. Qed.

(** ** The walk *)

Section walk.
Context {P : Type} `{!RowPage P}.
Implicit Types (db : Db P).

(** Collected owners committed at or before [ts]. *)
Definition collected_before (ts : Z) db : Prop :=
  ∀ tid t, db_txns db !! tid = Some t → state_ t = COMMITTED → tid ∉ txn_map_ (db_mgr db) →
    txn_commit_ts_ t ≤ ts.

Lemma walk_committed fuel ts lk hi vs db :
  committed_chain (db_txns db) lk hi vs → collected_before ts db → ts < hi → (length vs ≤ fuel)%nat →
  walk_versions fuel ts lk db = Ok (lookup_at ts vs).
Proof.
  intros Hc Hcb. revert fuel. induction Hc as [| l hi HV |l t log vs HV Ht Hs Hlog Hts Hsh Hc IH]; intros fuel Hlt Hf.
  - by destruct fuel.
  - destruct fuel; simpl; by rewrite HV.
  - destruct fuel as [|f]; [simpl in Hf; lia|]. cbn [walk_versions]. rewrite HV. cbn [negb].
    unfold GetUndoLogOptional. rewrite bool_decide_true.
    2:{ destruct (decide (prev_txn_ l ∈ txn_map_ (db_mgr db))) as [|Hni]; [done|].
        exfalso. specialize (Hcb _ _ Ht Hs Hni). lia. }
    rewrite Ht. cbn [mbind option_bind]. rewrite Hlog. simpl.
    case_bool_decide; [by rewrite decide_True by done|]. rewrite decide_False by done.
    apply IH; [lia|simpl in Hf; lia].
Qed.

Lemma walk_pending fuel ts tid lk vs db :
  pending_chain (db_txns db) tid lk vs → tid ∈ txn_map_ (db_mgr db) → collected_before ts db →
  (length vs ≤ fuel)%nat → walk_versions fuel ts lk db = Ok (lookup_at ts vs).
Proof.
  intros Hp Hin Hcb Hf. destruct Hp as [|l t log vs HV Hl Ht Hlog Hts Hsh Hc]; [by destruct fuel|].
  destruct fuel as [|f]; [simpl in Hf; lia|]. cbn [walk_versions]. rewrite HV. cbn [negb].
  unfold GetUndoLogOptional. subst tid. rewrite bool_decide_true by done.
  rewrite Ht. cbn [mbind option_bind]. rewrite Hlog. simpl.
  case_bool_decide; [by rewrite decide_True by done|]. rewrite decide_False by done.
  eapply walk_committed; eauto; [lia|simpl in Hf; lia].
Qed.
End walk.

(** * The versioning invariant of one row

    [row_inv] relates what the engine stores for one record identifier - the base tuple of the page,
    the head undo link, the transaction objects - to what the abstract database says about it: its
    value in every snapshot, the commit that last wrote it, and who claims it.  Each operation of the
    MVCC layer changes one row, so its effect on the invariant is one lemma here. *)

(** Claims on a row: the transaction, the value it wrote ([None] while it is being rolled back) and
    the stamp the base tuple carries. *)
Definition claims : Type := Z → option (option (list byte)) → Z → Prop.
Definition unclaimed (cl : claims) : Prop := ∀ tid v s, ¬ cl tid v s.
Definition claimed_by (cl : claims) (tid : Z) (v : option (option (list byte))) (s : Z) : Prop :=
  cl tid v s ∧ ∀ tid' v' s', cl tid' v' s' → tid' = tid ∧ v' = v ∧ s' = s.

Inductive row_inv (txns : gmap Z Transaction) (last : Z) (cl : claims)
    (snap : Z → option (list byte)) (md : Z) : option (TupleMeta * list byte) → option UndoLink → Prop :=
  | ri_none :
      unclaimed cl → (∀ ts, 0 ≤ ts ≤ last → snap ts = None) → md = 0 →
      row_inv txns last cl snap md None None
  | ri_committed m row lk vs :
      unclaimed cl → short row → 0 ≤ ts_ m ≤ last →
      (∀ ts, 0 ≤ ts ≤ last → snap ts = lookup_at ts ((ts_ m, meta_val m row) :: vs)) → md = ts_ m →
      committed_chain txns lk (ts_ m) vs →
      row_inv txns last cl snap md (Some (m, row)) lk
  | ri_pending m row lk vs tid v :
      claimed_by cl tid v (ts_ m) → short row → (∀ x, v = Some x → x = meta_val m row) →
      (∀ ts, 0 ≤ ts ≤ last → snap ts = lookup_at ts vs) → md = head_ts vs →
      pending_chain txns tid lk vs →
      row_inv txns last cl snap md (Some (m, row)) lk.

Definition same_claims (cl cl' : claims) : Prop := ∀ tid v s, cl tid v s ↔ cl' tid v s.

#[global] Instance same_claims_refl : Reflexive same_claims.
Proof. by intros cl tid v s. Qed.

Lemma unclaimed_same cl cl' : same_claims cl cl' → unclaimed cl → unclaimed cl'.
Proof. intros H Hu tid v s Hc. eapply Hu. by apply H. Qed.
Lemma claimed_by_same cl cl' tid v s : same_claims cl cl' → claimed_by cl tid v s → claimed_by cl' tid v s.
Proof. intros H [Hc Hu]. split; [by apply H|]. intros. apply Hu. by apply H. Qed.

(** Frame: an operation on something else. *)
Lemma row_inv_frame txns txns' last cl cl' snap md ro lk :
  txns_le txns txns' → same_claims cl cl' →
  row_inv txns last cl snap md ro lk → row_inv txns' last cl' snap md ro lk.
Proof.
  intros Hle Hcl. destruct 1.
  - apply ri_none; eauto using unclaimed_same.
  - eapply ri_committed; eauto using unclaimed_same, committed_chain_le.
  - eapply ri_pending; eauto using claimed_by_same, pending_chain_le.
Qed.

(** A fresh insert. *)
Lemma row_inv_insert txns txns' last cl cl' snap md tid m row :
  row_inv txns last cl snap md None None → claimed_by cl' tid (Some (meta_val m row)) (ts_ m) → short row →
  row_inv txns' last cl' snap md (Some (m, row)) None.
Proof.
  intros H Hcl Hs. inversion H as [Hu Hsn Hm| |]; subst.
  eapply ri_pending with (vs := []); [done|done|naive_solver|done|done|constructor].
Qed.

(** Overwriting an own uncommitted version. *)
Lemma row_inv_rewrite txns txns' last cl cl' snap md m row lk tid v m' row' :
  row_inv txns last cl snap md (Some (m, row)) lk → cl tid v (ts_ m) → txns_le txns txns' →
  claimed_by cl' tid (Some (meta_val m' row')) (ts_ m') → short row' →
  row_inv txns' last cl' snap md (Some (m', row')) lk.
Proof.
  intros H Hc Hle Hcl Hs. inversion H as [|? ? ? ? Hu|? ? ? vs T v0 [? Hu] ? ? ? ? ?]; subst.
  - exfalso. by eapply Hu.
  - destruct (Hu _ _ _ Hc) as (-> & _). eapply ri_pending; eauto using pending_chain_le. naive_solver.
Qed.

(** Versioning a committed base: the pre-image goes to the writer's own new log. *)
Lemma row_inv_version txns txns' last cl cl' snap md m row lk tid t t' l log m' row' :
  row_inv txns last cl snap md (Some (m, row)) lk → unclaimed cl →
  txns !! tid = Some t → txns' !! tid = Some t' → txns_le txns txns' → ts_ m ≤ read_ts_ t →
  read_ts_ t' = read_ts_ t →
  IsValid l = true → prev_txn_ l = tid → txn_GetUndoLog (prev_log_idx_ l) t' = Some log →
  log = mkUndoLog (is_deleted_ m) (if is_deleted_ m then [] else row) (ts_ m) (default no_link lk) →
  claimed_by cl' tid (Some (meta_val m' row')) (ts_ m') → short row' →
  row_inv txns' last cl' snap md (Some (m', row')) (Some l).
Proof.
  intros H Hu Ht Ht' Hle Hts Hr HV Hl Hlog -> Hcl Hs.
  inversion H as [|? ? ? vs Hu' Hsr Hm Hsn Hmd Hc|? ? ? vs T v0 [Hc _]]; subst; [|exfalso; by eapply Hu].
  eapply ri_pending; [done|done|naive_solver| | |eapply (pc_log _ _ l t'); eauto; simpl].
  - simpl. intros ts Hb. rewrite Hsn by done. simpl. f_equal. unfold meta_val, log_val; simpl.
    by destruct (is_deleted_ m).
  - done.
  - rewrite Hr. lia.
  - by destruct (is_deleted_ m).
  - destruct lk as [lk|]; simpl; [by eapply committed_chain_le|].
    inversion Hc; subst. by apply cc_invalid.
Qed.

(** Stamping: only the stamp of the claim changes. *)
Lemma row_inv_stamp txns last cl cl' snap md m row lk tid v c :
  row_inv txns last cl snap md (Some (m, row)) lk → cl tid v (ts_ m) → claimed_by cl' tid v c →
  row_inv txns last cl' snap md (Some (mkTupleMeta c (is_deleted_ m), row)) lk.
Proof.
  intros H Hc Hcl. inversion H as [|? ? ? ? Hu|? ? ? vs T v0 [? Hu] ? ? ? ? ?]; subst; [exfalso; by eapply Hu|].
  destruct (Hu _ _ _ Hc) as (-> & -> & _). eapply ri_pending; eauto.
Qed.

(** Giving a write up: the claim stays until the row is restored. *)
Lemma row_inv_give_up txns last cl cl' snap md ro lk tid v s :
  row_inv txns last cl snap md ro lk → cl tid v s → claimed_by cl' tid None s →
  row_inv txns last cl' snap md ro lk.
Proof.
  intros H Hc Hcl. inversion H as [Hu|? ? ? ? Hu|? ? ? vs T v0 [? Hu] ? ? ? ? ?]; subst; try (exfalso; by eapply Hu).
  destruct (Hu _ _ _ Hc) as (-> & -> & ->). eapply ri_pending; eauto. naive_solver.
Qed.

(** Rolling back a versioned row: the pre-image of the own log becomes the base again. *)
Lemma row_inv_restore txns last cl cl' snap md m row l tid v s t log :
  row_inv txns last cl snap md (Some (m, row)) (Some l) → cl tid v s → unclaimed cl' →
  commits_after_snapshot txns → txns !! tid = Some t → read_ts_ t ≤ last →
  txn_GetUndoLog (prev_log_idx_ l) t = Some log →
  ∀ row', (log_is_deleted_ log = false → row' = log_row_ log) → short row' →
  row_inv txns last cl' snap md (Some (mkTupleMeta (log_ts_ log) (log_is_deleted_ log), row'))
    (if IsValid (prev_version_ log) then Some (prev_version_ log) else None).
Proof.
  intros H Hc Hu' Hca Ht Hr Hlog row' Hrow' Hs'.
  inversion H as [|? ? ? ? Hu|? ? ? vs T v0 [? Hu] ? ? Hsn Hmd Hp]; subst; [exfalso; by eapply Hu|].
  destruct (Hu _ _ _ Hc) as (-> & _).
  inversion Hp as [|? t0 log0 vs0 HV Hl Ht0 Hlog0 Hts Hsh Hcc]; subst. simplify_eq.
  eapply ri_committed; simpl; [done|done|lia| |done|].
  - intros ts Hb. rewrite Hsn by done. simpl. unfold meta_val, log_val; simpl.
    destruct (log_is_deleted_ log) eqn:E; [done|]. by rewrite Hrow'.
  - destruct (IsValid (prev_version_ log)) eqn:E; [done|].
    inversion Hcc; subst; [apply cc_none|congruence].
Qed.

(** Rolling back a fresh insert: a tombstone older than every commit. *)
Lemma row_inv_unfresh txns last cl cl' snap md m row tid v s row' :
  row_inv txns last cl snap md (Some (m, row)) None → cl tid v s → unclaimed cl' → 0 ≤ last → short row' →
  row_inv txns last cl' snap md (Some (mkTupleMeta 0 true, row')) None.
Proof.
  intros H Hc Hu' Hlast Hs'.
  inversion H as [|? ? ? ? Hu|? ? ? vs T v0 [? Hu] ? ? Hsn Hmd Hp]; subst; [exfalso; by eapply Hu|].
  inversion Hp; subst. eapply ri_committed with (vs := []); simpl; [done|done|lia| |done|constructor].
  intros ts Hb. rewrite Hsn by done. simpl. by case_decide.
Qed.

(** Publishing a commit: the claims of [tid] become the newest committed version, every other row
    is the same in the new snapshot as in the one before. *)
Lemma row_inv_publish txns txns' last cl cl' snap snap' md m row lk tid t t' x :
  row_inv txns last cl snap md (Some (m, row)) lk → cl tid (Some x) (last + 1) → unclaimed cl' →
  0 ≤ last → txns_le txns txns' →
  txns !! tid = Some t → txns' !! tid = Some t' → state_ t' = COMMITTED → txn_commit_ts_ t' = last + 1 →
  txn_le t t' → read_ts_ t ≤ last →
  (∀ ts, 0 ≤ ts ≤ last → snap' ts = snap ts) → snap' (last + 1) = x →
  row_inv txns' (last + 1) cl' snap' (last + 1) (Some (m, row)) lk.
Proof.
  intros H Hc Hu' Hlast Hle Ht Ht' Hs' Hct Htl Hr Hsn' Hx.
  inversion H as [|? ? ? ? Hu|? ? ? vs T v0 [? Hu] Hsh Hv Hsn Hmd Hp]; subst; [exfalso; by eapply Hu|].
  destruct (Hu _ _ _ Hc) as (<- & <- & Hm).
  eapply ri_committed with (vs := vs); try rewrite <- Hm; [done|done|lia| |done|].
  - intros ts Hb. simpl. case_decide.
    + replace ts with (last + 1) by lia. by apply Hv.
    + rewrite Hsn' by lia. apply Hsn. lia.
  - inversion Hp as [|l t0 log vs0 HV Hl Ht0 Hlog Hts Hsh' Hcc]; subst; [constructor|].
    rewrite Ht in Ht0. injection Ht0 as <-.
    rewrite <- Hct. eapply cc_cons; eauto using txn_log_le, committed_chain_le.
    destruct Htl as (-> & _). done.
Qed.

Lemma row_inv_bystander txns txns' last cl cl' snap snap' md ro lk :
  row_inv txns last cl snap md ro lk → same_claims cl cl' → txns_le txns txns' → 0 ≤ last →
  commits_after_snapshot txns → (∀ tid t, txns !! tid = Some t → 0 ≤ read_ts_ t ≤ last) →
  (∀ ts, 0 ≤ ts ≤ last → snap' ts = snap ts) → snap' (last + 1) = snap last →
  row_inv txns' (last + 1) cl' snap' md ro lk.
Proof.
  intros H Hcl Hle Hlast Hca Hrd Hold Hnew.
  assert (∀ vs, head_ts vs ≤ last → (∀ ts, 0 ≤ ts ≤ last → snap ts = lookup_at ts vs) →
            ∀ ts, 0 ≤ ts ≤ last + 1 → snap' ts = lookup_at ts vs) as Hext.
  { intros vs Hh Hsn ts Hb. destruct (decide (ts = last + 1)) as [->|].
    - rewrite Hnew, Hsn by lia. apply lookup_at_ge; lia.
    - rewrite Hold by lia. apply Hsn. lia. }
  destruct H as [Hu Hsn ->|m row lk vs Hu Hs Hm Hsn -> Hc|m row lk vs tid v Hu Hs Hv Hsn -> Hp].
  - apply ri_none; [by eapply unclaimed_same| |done]. intros ts Hb.
    apply (Hext []); [done| |done]. done.
  - eapply ri_committed; eauto using unclaimed_same, committed_chain_le; [lia|].
    apply Hext; [simpl; lia|done].
  - eapply ri_pending; eauto using claimed_by_same, pending_chain_le. apply Hext; [|done].
    eapply pending_chain_bound; eauto.
Qed.
