(* ===== verification/SnapshotSpec.v ===== *)
(** * Snapshot isolation: the specification and the interleaved machine

    [SI] is the abstract database: one immutable state per commit timestamp, and a private write set
    per open transaction.  [Machine] is the concrete database of [Mvcc.v] together with the program
    counters of the finalisations in progress (commit, rollback, garbage collection), and [step]
    interleaves their atomic pieces: one page latch, or one critical section of the manager, each.
    [Simulation.v] proves that the machine implements [SI]. *)

From S2P Require Import Prelude TablePage TableHeap Watermark Transaction Mvcc.

(** ** The abstract machine *)

Record SI := mkSI {
  si_last : Z;                                           (** latest commit timestamp *)
  si_snap : Z → RID → option (list byte);                (** the database after each commit *)
  si_mod : RID → Z;                                      (** commit that last wrote a row *)
  si_open : gmap Z (Z * gmap RID (option (list byte)));  (** open txn: snapshot and writes *)
  si_done : gmap Z (Z * Z * gset RID)                    (** committed txn: snapshot, commit, rows *)
}.

Definition si_init : SI := mkSI 0 (λ _ _, None) (λ _, 0) ∅ ∅.

(** What transaction [tid] reads: its own write, else the row in its snapshot. *)
Definition si_read (a : SI) (tid : Z) (rid : RID) : option (list byte) :=
  match si_open a !! tid with
  | Some (r, w) => match w !! rid with Some v => v | None => si_snap a r rid end
  | None => None
  end.

Inductive si_step : SI → SI → Prop :=
  | SIBegin a tid :
      si_open a !! tid = None → si_done a !! tid = None →
      si_step a (mkSI (si_last a) (si_snap a) (si_mod a) (<[tid := (si_last a, ∅)]> (si_open a)) (si_done a))
  | SIWrite a tid r w rid v :
      si_open a !! tid = Some (r, w) →
      (∀ tid' r' w', si_open a !! tid' = Some (r', w') → tid' ≠ tid → w' !! rid = None) →
      si_mod a rid ≤ r →
      si_step a (mkSI (si_last a) (si_snap a) (si_mod a) (<[tid := (r, <[rid := v]> w)]> (si_open a)) (si_done a))
  | SICommit a tid r w :
      si_open a !! tid = Some (r, w) →
      si_step a (mkSI (si_last a + 1)
        (λ ts rid, if decide (ts = si_last a + 1)
                   then match w !! rid with Some v => v | None => si_snap a (si_last a) rid end
                   else si_snap a ts rid)
        (λ rid, match w !! rid with Some _ => si_last a + 1 | None => si_mod a rid end)
        (delete tid (si_open a))
        (<[tid := (r, si_last a + 1, dom w)]> (si_done a)))
  | SIAbort a tid :
      si_step a (mkSI (si_last a) (si_snap a) (si_mod a) (delete tid (si_open a)) (si_done a)).

(** ** The concrete machine *)

Section machine.
Context {P : Type} `{!RowPage P}.

Record Machine := mkMachine {
  mc_db : Db P;
  (** holder of [commit_mutex_]: rows still to stamp, or published and not yet deregistered *)
  mc_commit : option (Z * option (list RID));
  (** transactions in [Abort]: rows still to roll back, or marked aborted and not deregistered *)
  mc_undo : gmap Z (option (list RID));
  (** the watermark a garbage collection read and has not used yet *)
  mc_gc : option Z
}.

Definition finalizing (m : Machine) (tid : Z) : Prop :=
  (∃ ph, mc_commit m = Some (tid, ph)) ∨ is_Some (mc_undo m !! tid).

Definition with_db (db : Db P) (m : Machine) : Machine :=
  mkMachine db (mc_commit m) (mc_undo m) (mc_gc m).

(** A record identifier addresses a page of table [oid], in a slot the page operations can name. *)
Definition in_table (db : Db P) (oid : Z) (rid : RID) : Prop :=
  0 ≤ slot_num_ rid < 2 ^ 16 ∧ ∃ h, db_heaps db !! oid = Some h ∧ page_id_ rid ∈ page_directory_ h.

(** A running transaction that is not being finalised. *)
Definition active (m : Machine) (tid : Z) (t : Transaction) : Prop :=
  db_txns (mc_db m) !! tid = Some t ∧ state_ t = RUNNING ∧ ¬ finalizing m tid.

(** Changes to the fields of a transaction that versioning does not look at. *)
Inductive local_change (t : Transaction) : Transaction → Prop :=
  | LCCancel : local_change t (RequestCancellation t).2
  | LCEnter : local_change t (EnterStatement t).2
  | LCLeave : local_change t (LeaveStatement t)
  | LCPredicate oid pred : local_change t (AppendScanPredicate oid pred t).

Inductive step : Machine → Machine → Prop :=
  | SBegin m iso now tid db' :
      BeginShared iso now (mc_db m) = (Ok tid, db') → step m (with_db db' m)
  | SLocal m tid t t' :
      db_txns (mc_db m) !! tid = Some t → local_change t t' →
      step m (with_db (with_txn tid t' (mc_db m)) m)
  | SCreate m oid h st' :
      db_heaps (mc_db m) !! oid = None → new_TableHeap (db_store (mc_db m)) = (h, st') →
      step m (with_db (mkDb st' (<[oid := h]> (db_heaps (mc_db m))) (db_txns (mc_db m)) (db_mgr (mc_db m))) m)
  | SModify m tid t oid rid is_delete row n r db' :
      active m tid t → in_table (mc_db m) oid rid → 0 ≤ n ≤ Z.of_nat (length row) → n < 2 ^ 16 →
      ApplyMvccModify tid oid rid is_delete row n (mc_db m) = (r, db') → r ≠ Err EUndefined →
      step m (with_db db' m)
  | SInsert m tid t oid row r db' :
      active m tid t → u16 (sc_size row) ≤ Z.of_nat (length (sc_bytes row)) →
      MvccInsertRow tid oid row (mc_db m) = (r, db') → r ≠ Err EUndefined →
      step m (with_db db' m)
  | SCommitStart m tid t :
      active m tid t → mc_commit m = None → last_commit_ts_ (db_mgr (mc_db m)) + 1 < TXN_START_ID →
      step m (mkMachine (mc_db m) (Some (tid, Some ((write_list (mc_db m) t).*2))) (mc_undo m) (mc_gc m))
  | SStamp m tid rid rest db' :
      mc_commit m = Some (tid, Some (rid :: rest)) →
      MvccStampCommit rid (last_commit_ts_ (db_mgr (mc_db m)) + 1) (mc_db m) = (Ok tt, db') →
      step m (mkMachine db' (Some (tid, Some rest)) (mc_undo m) (mc_gc m))
  | SPublish m tid t :
      mc_commit m = Some (tid, Some []) → db_txns (mc_db m) !! tid = Some t →
      step m (mkMachine (publish_commit tid t (last_commit_ts_ (db_mgr (mc_db m)) + 1) (mc_db m))
                (Some (tid, None)) (mc_undo m) (mc_gc m))
  | SCommitEnd m tid t db' :
      mc_commit m = Some (tid, None) → db_txns (mc_db m) !! tid = Some t →
      deregister t (Some (last_commit_ts_ (db_mgr (mc_db m)))) (mc_db m) = (Ok tt, db') →
      step m (mkMachine db' None (mc_undo m) (mc_gc m))
  | SAbortStart m tid t :
      db_txns (mc_db m) !! tid = Some t → is_open t = true → ¬ finalizing m tid →
      step m (mkMachine (mc_db m) (mc_commit m) (<[tid := Some ((write_list (mc_db m) t).*2)]> (mc_undo m)) (mc_gc m))
  | SRollback m tid rid rest db' :
      mc_undo m !! tid = Some (Some (rid :: rest)) →
      MvccRollback tid rid (mc_db m) = (Ok tt, db') →
      step m (mkMachine db' (mc_commit m) (<[tid := Some rest]> (mc_undo m)) (mc_gc m))
  | SAborted m tid t :
      mc_undo m !! tid = Some (Some []) → db_txns (mc_db m) !! tid = Some t →
      step m (mkMachine (with_txn tid (set_state ABORTED t) (mc_db m)) (mc_commit m)
                (<[tid := None]> (mc_undo m)) (mc_gc m))
  | SAbortEnd m tid t db' :
      mc_undo m !! tid = Some None → db_txns (mc_db m) !! tid = Some t →
      deregister t None (mc_db m) = (Ok tt, db') →
      step m (mkMachine db' (mc_commit m) (delete tid (mc_undo m)) (mc_gc m))
  | SWatermark m :
      step m (mkMachine (mc_db m) (mc_commit m) (mc_undo m) (Some (mgr_GetWatermark (mc_db m))))
  | SReclaim m w :
      mc_gc m = Some w →
      step m (mkMachine (reclaim w (mc_db m)).2 (mc_commit m) (mc_undo m) None).

Definition mc_init (timeout : Z) : Machine :=
  mkMachine (mkDb (mkStore ∅ 0 []) ∅ ∅ (new_TransactionManager timeout)) None ∅ None.

Inductive reachable (timeout : Z) : Machine → Prop :=
  | reach_init : reachable timeout (mc_init timeout)
  | reach_step m m' : reachable timeout m → step m m' → reachable timeout m'.
End machine.
Arguments Machine : clear implicits.

(** * Running schedules

    An executable scheduler for the interleaved machine of [SnapshotSpec.v]: a command names one
    step, [exec] performs it when its guard holds, and every executed schedule is an execution of the
    step relation.  Concrete scenarios are evaluated with it. *)

Inductive Command :=
  | CBegin (iso : IsolationLevel)
  | CCreate (oid : Z)
  | CPredicate (tid oid : Z) (pred : ScanPredicate)
  | CUpdate (tid oid : Z) (rid : RID) (row : list byte)
  | CDelete (tid oid : Z) (rid : RID)
  | CInsert (tid oid : Z) (row : list byte)
  | CCommitStart (tid : Z)
  | CStamp
  | CPublish
  | CCommitEnd
  | CAbortStart (tid : Z)
  | CRollback (tid : Z)
  | CAborted (tid : Z)
  | CAbortEnd (tid : Z)
  | CWatermark
  | CReclaim.

Section exec.
Context {P : Type} `{!RowPage P}.
Implicit Types (m : Machine P).

#[global] Instance finalizing_dec m tid : Decision (finalizing m tid).
Proof.
  refine (cast_if (decide ((fst <$> mc_commit m) = Some tid ∨ is_Some (mc_undo m !! tid)))).
  - abstract (unfold finalizing; destruct (mc_commit m) as [[c ph]|]; naive_solver).
  - abstract (unfold finalizing; destruct (mc_commit m) as [[c ph]|]; naive_solver).
Defined.

Definition in_tableb (db : Db P) (oid : Z) (rid : RID) : bool :=
  bool_decide (0 ≤ slot_num_ rid < 2 ^ 16) &&
  match db_heaps db !! oid with Some h => bool_decide (page_id_ rid ∈ page_directory_ h) | None => false end.

Definition activeb m (tid : Z) : option Transaction :=
  match db_txns (mc_db m) !! tid with
  | Some t => if bool_decide (state_ t = RUNNING) && negb (bool_decide (finalizing m tid)) then Some t else None
  | None => None
  end.

(** Undefined behaviour has no successor. *)
Definition defined {A} (r : result A * Db P) m : option (Machine P) :=
  match r.1 with Err EUndefined => None | _ => Some (with_db r.2 m) end.

Definition modify m (tid oid : Z) (rid : RID) (del : bool) (row : list byte) : option (Machine P) :=
  t ← activeb m tid;
  if in_tableb (mc_db m) oid rid && bool_decide (Z.of_nat (length row) < 2 ^ 16)
  then defined (ApplyMvccModify tid oid rid del row (Z.of_nat (length row)) (mc_db m)) m else None.

Definition exec (c : Command) m : option (Machine P) :=
  let db := mc_db m in
  match c with
  | CBegin iso => match BeginShared iso 0 db with (Ok _, db') => Some (with_db db' m) | _ => None end
  | CCreate oid =>
      match db_heaps db !! oid with
      | None => let (h, st') := new_TableHeap (db_store db) in
                Some (with_db (mkDb st' (<[oid := h]> (db_heaps db)) (db_txns db) (db_mgr db)) m)
      | Some _ => None
      end
  | CPredicate tid oid pred =>
      t ← db_txns db !! tid; Some (with_db (with_txn tid (AppendScanPredicate oid pred t) db) m)
  | CUpdate tid oid rid row => modify m tid oid rid false row
  | CDelete tid oid rid => modify m tid oid rid true []
  | CInsert tid oid row =>
      t ← activeb m tid;
      if bool_decide (Z.of_nat (length row) < 2 ^ 16)
      then defined (MvccInsertRow tid oid (mkScattered row (Z.of_nat (length row))) db) m else None
  | CCommitStart tid =>
      t ← activeb m tid;
      if bool_decide (mc_commit m = None) && bool_decide (last_commit_ts_ (db_mgr db) + 1 < TXN_START_ID)
      then Some (mkMachine db (Some (tid, Some ((write_list db t).*2))) (mc_undo m) (mc_gc m)) else None
  | CStamp =>
      match mc_commit m with
      | Some (tid, Some (rid :: rest)) =>
          match MvccStampCommit rid (last_commit_ts_ (db_mgr db) + 1) db with
          | (Ok _, db') => Some (mkMachine db' (Some (tid, Some rest)) (mc_undo m) (mc_gc m))
          | _ => None
          end
      | _ => None
      end
  | CPublish =>
      match mc_commit m with
      | Some (tid, Some []) =>
          t ← db_txns db !! tid;
          Some (mkMachine (publish_commit tid t (last_commit_ts_ (db_mgr db) + 1) db) (Some (tid, None)) (mc_undo m) (mc_gc m))
      | _ => None
      end
  | CCommitEnd =>
      match mc_commit m with
      | Some (tid, None) =>
          t ← db_txns db !! tid;
          match deregister t (Some (last_commit_ts_ (db_mgr db))) db with
          | (Ok _, db') => Some (mkMachine db' None (mc_undo m) (mc_gc m))
          | _ => None
          end
      | _ => None
      end
  | CAbortStart tid =>
      t ← db_txns db !! tid;
      if is_open t && negb (bool_decide (finalizing m tid))
      then Some (mkMachine db (mc_commit m) (<[tid := Some ((write_list db t).*2)]> (mc_undo m)) (mc_gc m)) else None
  | CRollback tid =>
      match mc_undo m !! tid with
      | Some (Some (rid :: rest)) =>
          match MvccRollback tid rid db with
          | (Ok _, db') => Some (mkMachine db' (mc_commit m) (<[tid := Some rest]> (mc_undo m)) (mc_gc m))
          | _ => None
          end
      | _ => None
      end
  | CAborted tid =>
      match mc_undo m !! tid with
      | Some (Some []) =>
          t ← db_txns db !! tid;
          Some (mkMachine (with_txn tid (set_state ABORTED t) db) (mc_commit m) (<[tid := None]> (mc_undo m)) (mc_gc m))
      | _ => None
      end
  | CAbortEnd tid =>
      match mc_undo m !! tid with
      | Some None =>
          t ← db_txns db !! tid;
          match deregister t None db with
          | (Ok _, db') => Some (mkMachine db' (mc_commit m) (delete tid (mc_undo m)) (mc_gc m))
          | _ => None
          end
      | _ => None
      end
  | CWatermark => Some (mkMachine db (mc_commit m) (mc_undo m) (Some (mgr_GetWatermark db)))
  | CReclaim => w ← mc_gc m; Some (mkMachine (reclaim w db).2 (mc_commit m) (mc_undo m) None)
  end.

Fixpoint run (cs : list Command) m : option (Machine P) :=
  match cs with
  | [] => Some m
  | c :: cs => m' ← exec c m; run cs m'
  end.

(** ** Executed schedules are executions *)

Lemma in_tableb_spec db oid rid : in_tableb db oid rid = true → in_table db oid rid.
Proof.
  unfold in_tableb, in_table. rewrite andb_true_iff, bool_decide_eq_true. intros [Hs H]. split; [done|].
  destruct (db_heaps db !! oid) as [h|]; [|done]. exists h. by apply bool_decide_eq_true in H.
Qed.
Lemma activeb_spec m tid t : activeb m tid = Some t → active m tid t.
Proof.
  unfold activeb, active. destruct (db_txns (mc_db m) !! tid) as [t'|]; [|done].
  destruct (_ && _) eqn:E; [|done]. intros [= ->].
  apply andb_true_iff in E as [E1%bool_decide_eq_true E2%negb_true_iff]. by apply bool_decide_eq_false in E2.
Qed.
Lemma defined_spec {A} (r : result A) db' m m' : defined (r, db') m = Some m' → r ≠ Err EUndefined ∧ m' = with_db db' m.
Proof. unfold defined. simpl. destruct r as [|[]]; naive_solver. Qed.

Lemma modify_step m tid oid rid del row m' : modify m tid oid rid del row = Some m' → step m m'.
Proof.
  unfold modify. destruct (activeb m tid) as [t|] eqn:Ha; [|done]. simpl.
  destruct (_ && _) eqn:E; [|done]. apply andb_true_iff in E as [Ht%in_tableb_spec Hn%bool_decide_eq_true].
  destruct (ApplyMvccModify _ _ _ _ _ _ _) as [r db'] eqn:HM. intros [Hr ->]%defined_spec.
  eapply SModify; eauto; [by apply activeb_spec|]. lia.
Qed.

Lemma u16_id z : 0 ≤ z < 2 ^ 16 → u16 z = z.
Proof. apply wrap_u_small. Qed.

Lemma exec_step c m m' : exec c m = Some m' → step m m'.
Proof.
  destruct c; unfold exec; intros H.
  - destruct (BeginShared iso 0 (mc_db m)) as [[]] eqn:E; simplify_eq. by eapply SBegin.
  - destruct (db_heaps (mc_db m) !! oid) eqn:E; [done|]. destruct (new_TableHeap _) as [h st'] eqn:E'. simplify_eq.
    by eapply SCreate.
  - destruct (db_txns (mc_db m) !! tid) eqn:E; [|done]. simplify_eq/=. eapply SLocal; [done|constructor].
  - by eapply modify_step.
  - by eapply modify_step.
  - destruct (activeb m tid) as [t|] eqn:Ha; [|done]. simpl in H. case_bool_decide as Hn; [|done].
    destruct (MvccInsertRow _ _ _ _) as [r db'] eqn:HM. apply defined_spec in H as [Hr ->].
    eapply SInsert; eauto using activeb_spec. simpl. rewrite u16_id by lia. done.
  - destruct (activeb m tid) as [t|] eqn:Ha; [|done]. simpl in H. destruct (_ && _) eqn:E; [|done].
    apply andb_true_iff in E as [?%bool_decide_eq_true ?%bool_decide_eq_true]. simplify_eq.
    eapply SCommitStart; eauto using activeb_spec.
  - destruct (mc_commit m) as [[tid [[|rid rest]|]]|] eqn:E; try done.
    destruct (MvccStampCommit _ _ _) as [[[]|] db'] eqn:HM; [|done]. simplify_eq. by eapply SStamp.
  - destruct (mc_commit m) as [[tid [[|rid rest]|]]|] eqn:E; try done.
    destruct (db_txns (mc_db m) !! tid) eqn:Ht; [|done]. simplify_eq/=. by eapply SPublish.
  - destruct (mc_commit m) as [[tid [[|rid rest]|]]|] eqn:E; try done.
    destruct (db_txns (mc_db m) !! tid) eqn:Ht; [|done]. simpl in H.
    destruct (deregister _ _ _) as [[[]|] db'] eqn:HM; [|done]. simplify_eq. by eapply SCommitEnd.
  - destruct (db_txns (mc_db m) !! tid) eqn:Ht; [|done]. simpl in H. destruct (_ && _) eqn:E; [|done].
    apply andb_true_iff in E as [? E2%negb_true_iff]. apply bool_decide_eq_false in E2. simplify_eq. by eapply SAbortStart.
  - destruct (mc_undo m !! tid) as [[[|rid rest]|]|] eqn:E; try done.
    destruct (MvccRollback _ _ _) as [[[]|] db'] eqn:HM; [|done]. simplify_eq. by eapply SRollback.
  - destruct (mc_undo m !! tid) as [[[|rid rest]|]|] eqn:E; try done.
    destruct (db_txns (mc_db m) !! tid) eqn:Ht; [|done]. simplify_eq/=. by eapply SAborted.
  - destruct (mc_undo m !! tid) as [[[|rid rest]|]|] eqn:E; try done.
    destruct (db_txns (mc_db m) !! tid) eqn:Ht; [|done]. simpl in H.
    destruct (deregister _ _ _) as [[[]|] db'] eqn:HM; [|done]. simplify_eq. by eapply SAbortEnd.
  - simplify_eq. apply SWatermark.
  - destruct (mc_gc m) as [w|] eqn:E; [|done]. simplify_eq/=. by eapply SReclaim.
Qed.

Lemma run_steps cs m m' : run cs m = Some m' → rtc step m m'.
Proof.
  revert m. induction cs as [|c cs IH]; intros m; simpl; [by intros [= ->]|].
  destruct (exec c m) as [m1|] eqn:E; [|done]. simpl. intros H. eapply rtc_l; [by eapply exec_step|auto].
Qed.

Lemma run_reachable timeout cs m : run cs (mc_init timeout) = Some m → reachable timeout m.
Proof.
  intros H%run_steps. apply (rtc_ind_r (R := step) (reachable timeout) (mc_init timeout));
    [constructor| |done]. intros. by eapply reach_step.
Qed.
End exec.
