(* ===== verification/MachineInvariant.v ===== *)
(** * The MVCC operations at the level of rows

    [db_row] is the base tuple a record identifier designates in the tables of the database.  The
    lemmas give the effect of every operation of [Mvcc.v] on it: each changes the addressed row, or
    nothing, and keeps the storage invariant [db_wf]. *)

From stdpp Require Import gmultiset.
From S2P Require Import Prelude TablePage TableHeap Watermark Transaction Mvcc RowInvariant SnapshotSpec.

Section rows.
Context {P : Type} `{!RowPage P, !RowPageLaws P}.
Implicit Types (db : Db P).

(** The storage invariant: allocation, every table's heap, and no page in two tables. *)
Record db_wf db : Prop := {
  dw_store : store_wf (db_store db);
  dw_heap : ∀ oid h, db_heaps db !! oid = Some h → heap_wf (db_store db) h;
  dw_disj : ∀ o1 o2 h1 h2 pid, db_heaps db !! o1 = Some h1 → db_heaps db !! o2 = Some h2 →
    pid ∈ page_directory_ h1 → pid ∈ page_directory_ h2 → o1 = o2
}.

Definition owned db (pid : Z) : Prop := map_Exists (λ _ h, pid ∈ page_directory_ h) (db_heaps db).
#[global] Instance owned_dec db pid : Decision (owned db pid).
Proof. unfold owned. apply _. Defined.

Definition db_row db (rid : RID) : option (TupleMeta * list byte) :=
  if decide (owned db (page_id_ rid)) then row_at (db_store db) rid else None.

Lemma db_row_ext db db' rid :
  db_store db' = db_store db → db_heaps db' = db_heaps db → db_row db' rid = db_row db rid.
Proof. destruct db, db'; simpl. by intros -> ->. Qed.

Lemma owned_spec db pid : owned db pid ↔ ∃ oid h, db_heaps db !! oid = Some h ∧ pid ∈ page_directory_ h.
Proof. unfold owned, map_Exists. naive_solver. Qed.

Lemma in_table_owned db oid rid : in_table db oid rid → owned db (page_id_ rid) ∧ 0 ≤ slot_num_ rid < 2 ^ 16.
Proof. intros (? & h & ? & ?). split; [|done]. apply owned_spec. eauto. Qed.

Lemma owned_page_wf db pid : db_wf db → owned db pid → rp_wf (page_at (db_store db) pid).
Proof. intros Hw (oid & h & Hh & Hin)%owned_spec. eapply hw_pages; [by eapply dw_heap|done]. Qed.

Lemma db_row_inv db rid x :
  db_row db rid = Some x →
  owned db (page_id_ rid) ∧ 0 ≤ slot_num_ rid ∧ rp_rows (rid_page rid db) !! Z.to_nat (slot_num_ rid) = Some x.
Proof.
  unfold db_row, row_at, rid_page. case_decide; [|done]. case_bool_decide; [|done]. done.
Qed.

(** A page has fewer rows than a slot number can name. *)
Lemma db_row_bound db rid x : db_wf db → db_row db rid = Some x → 0 ≤ slot_num_ rid < 2 ^ 16.
Proof.
  intros Hw (Ho & Hs & Hr)%db_row_inv. split; [done|]. apply lookup_lt_Some in Hr.
  pose proof (owned_page_wf _ _ Hw Ho) as Hp. pose proof (rp_num_bound _ Hp) as Hb. rewrite (rp_num_ok _ Hp) in Hb. unfold rid_page in Hr. lia.
Qed.
Lemma db_row_slot db rid x : db_wf db → db_row db rid = Some x → page_slot rid = slot_num_ rid.
Proof. intros Hw Hrow. apply page_slot_small. by eapply db_row_bound. Qed.

Lemma get_row_spec db oid rid :
  db_wf db → in_table db oid rid →
  rp_get_row (page_slot rid) (rid_page rid db) =
    match db_row db rid with
    | Some (m, row) => Ok (m, row, Z.of_nat (length row))
    | None => Err slot_out_of_range
    end.
Proof.
  intros Hw [Ho Hs]%in_table_owned. unfold db_row, row_at. rewrite decide_True by done.
  rewrite bool_decide_true by lia. rewrite page_slot_small by done. apply rp_get_row_ok; [by apply owned_page_wf|lia].
Qed.

Lemma get_meta_row db rid m row :
  db_wf db → db_row db rid = Some (m, row) → rp_get_meta (page_slot rid) (rid_page rid db) = Ok m.
Proof.
  intros Hw Hrow. rewrite (db_row_slot _ _ _ Hw Hrow). revert Hrow. intros (Ho & Hs & Hr)%db_row_inv. rewrite rp_get_meta_ok by (done || by apply owned_page_wf).
  by rewrite Hr.
Qed.

(** [db'] is [db] with row [rid] set to [x]. *)
Definition row_put (rid : RID) (x : TupleMeta * list byte) db db' : Prop :=
  ∃ st', db' = with_store st' db ∧ db_wf db' ∧
    ∀ rid', db_row db' rid' = if decide (rid = rid') then Some x else db_row db rid'.

Lemma row_put_page db rid x y p' :
  db_wf db → db_row db rid = Some x → rp_wf p' → rp_next p' = rp_next (rid_page rid db) →
  rp_rows p' = <[Z.to_nat (slot_num_ rid) := y]> (rp_rows (rid_page rid db)) →
  row_put rid y db (put_page rid p' db).
Proof.
  intros Hw (Ho & Hs & Hr)%db_row_inv Hp' Hn Hrows.
  exists (set_page (page_id_ rid) p' (db_store db)). split; [done|]. split.
  - destruct Hw as [Hst Hh Hd]. split; simpl; auto.
    + apply set_page_wf; [done|by apply rp_wf_frame].
    + intros oid h Hoid. apply heap_wf_set_page; eauto.
  - intros rid'. unfold db_row.
    change (owned (put_page rid p' db)) with (owned db).
    change (db_store (put_page rid p' db)) with (set_page (page_id_ rid) p' (db_store db)).
    destruct (decide (rid = rid')) as [<-|Hne].
    + rewrite decide_True by done. unfold row_at. rewrite bool_decide_true by done.
      rewrite page_at_set_eq, Hrows. apply list_lookup_insert_eq. by eapply lookup_lt_Some.
    + destruct (decide (owned db (page_id_ rid'))); [|done]. unfold row_at.
      destruct (bool_decide_reflect (0 ≤ slot_num_ rid')); [|done].
      rewrite page_at_set. destruct (decide (page_id_ rid = page_id_ rid')) as [Hpg|]; [|done].
      rewrite Hrows. unfold rid_page. rewrite <- Hpg. apply list_lookup_insert_ne.
      intros Heq. apply Hne. destruct rid, rid'; simpl in *. f_equal; [done|lia].
Qed.

Lemma set_meta_put db rid m row m' :
  db_wf db → db_row db rid = Some (m, row) →
  ∃ p', rp_set_meta m' (page_slot rid) (rid_page rid db) = Ok p' ∧ row_put rid (m', row) db (put_page rid p' db).
Proof.
  intros Hw Hrow. rewrite (db_row_slot _ _ _ Hw Hrow). pose proof (db_row_inv _ _ _ Hrow) as (Ho & Hs & Hr).
  destruct (rp_set_meta_ok m' _ _ m row (owned_page_wf _ _ Hw Ho) Hs Hr) as (p' & E & ? & ? & ?).
  exists p'. split; [done|]. by eapply row_put_page.
Qed.

Lemma update_put db rid m row m' new n :
  db_wf db → db_row db rid = Some (m, row) → 0 ≤ n ≤ Z.of_nat (length new) → n < 2 ^ 16 →
  let r := rp_update m' new n (page_slot rid) (rid_page rid db) in
  (∃ p', r = Ok (true, p') ∧ row_put rid (m', take (Z.to_nat n) new) db (put_page rid p' db))
  ∨ r = Ok (false, rid_page rid db) ∨ r = Err EUndefined.
Proof.
  intros Hw Hrow Hn H16. rewrite (db_row_slot _ _ _ Hw Hrow). pose proof (db_row_inv _ _ _ Hrow) as (Ho & Hs & Hr).
  destruct (rp_update_ok m' new n _ _ m row (owned_page_wf _ _ Hw Ho) Hs Hr Hn H16)
    as [(p' & E & ? & ? & ?)|[E|E]]; [left|by right; left|by right; right].
  exists p'. split; [done|]. by eapply row_put_page.
Qed.

(** ** The operations *)

Definition new_version (is_delete : bool) (old new : list byte) (n : Z) : list byte :=
  if is_delete then old else take (Z.to_nat n) new.

Lemma apply_base_put temp rid del new n m old db :
  db_wf db → db_row db rid = Some (m, old) → 0 ≤ n ≤ Z.of_nat (length new) → n < 2 ^ 16 →
  (∃ db', apply_base temp rid del new n db = (Ok tt, db') ∧
          row_put rid (mkTupleMeta temp del, new_version del old new n) db db')
  ∨ (∃ e, apply_base temp rid del new n db = (Err e, db) ∧ e ∈ [update_too_large; EUndefined]).
Proof.
  intros Hw Hrow Hn H16. unfold apply_base, new_version. destruct del.
  - destruct (set_meta_put db rid m old (mkTupleMeta temp true) Hw Hrow) as (p' & -> & ?). left. eauto.
  - destruct (update_put db rid m old (mkTupleMeta temp false) new n Hw Hrow Hn H16)
      as [(p' & -> & ?)|[->| ->]]; [left; eauto|right..].
    all: eexists; split; [done|set_solver].
Qed.

(** The log that versions a committed base. *)
Definition pre_image (rid : RID) (m : TupleMeta) (old : list byte) db : UndoLog :=
  mkUndoLog (is_deleted_ m) (if is_deleted_ m then [] else old) (ts_ m) (default no_link (GetUndoLink rid db)).

Inductive modified (tid oid : Z) (rid : RID) (t : Transaction) (m : TupleMeta) (old : list byte)
    (y : TupleMeta * list byte) db : result unit → Db P → Prop :=
  | mod_own db1 :
      ts_ m = txn_id_ t → row_put rid y db db1 →
      modified tid oid rid t m old y db (Ok tt) (with_txn tid (AppendWriteSet oid rid t) db1)
  | mod_own_full :
      ts_ m = txn_id_ t → modified tid oid rid t m old y db (Err update_too_large) db
  | mod_version link t1 db1 :
      ts_ m ≠ txn_id_ t → ts_ m ≤ read_ts_ t → AppendUndoLog (pre_image rid m old db) t = (link, t1) →
      row_put rid y (with_txn tid t1 db) db1 →
      modified tid oid rid t m old y db (Ok tt)
        (with_txn tid (AppendWriteSet oid rid t1) (UpdateUndoLink rid (Some link) None db1).2)
  | mod_version_full link t1 :
      ts_ m ≠ txn_id_ t → ts_ m ≤ read_ts_ t → AppendUndoLog (pre_image rid m old db) t = (link, t1) →
      modified tid oid rid t m old y db (Err update_too_large) (with_txn tid t1 db)
  | mod_conflict :
      ts_ m ≠ txn_id_ t → read_ts_ t < ts_ m →
      modified tid oid rid t m old y db (Err write_write_conflict) (with_txn tid (set_state TAINTED t) db).

Lemma ApplyMvccModify_row tid oid rid del new n db t m old r db' :
  db_wf db → in_table db oid rid → db_txns db !! tid = Some t → state_ t = RUNNING →
  db_row db rid = Some (m, old) → 0 ≤ n ≤ Z.of_nat (length new) → n < 2 ^ 16 →
  ApplyMvccModify tid oid rid del new n db = (r, db') → r ≠ Err EUndefined →
  modified tid oid rid t m old (mkTupleMeta (txn_id_ t) del, new_version del old new n) db r db'.
Proof.
  intros Hw Hin Ht Hrun Hrow Hn H16. unfold ApplyMvccModify. rewrite Ht, (get_row_spec _ _ _ Hw Hin), Hrow.
  unfold GetTransactionTempTs. case_bool_decide as Hown.
  - destruct (apply_base_put (txn_id_ t) rid del new n m old db Hw Hrow Hn H16)
      as [(db1 & -> & Hput)|(e & -> & He)]; intros [= <- <-] Hr; [by apply mod_own|].
    set_unfold in He. destruct He as [->|[-> |[]]]; [by apply mod_own_full|done].
  - case_bool_decide as Hrd.
    + destruct (AppendUndoLog _ t) as [link t1] eqn:HA.
      destruct (apply_base_put (txn_id_ t) rid del new n m old (with_txn tid t1 db)) as [(db1 & -> & Hput)|(e & -> & He)];
        [by destruct Hw|done|done|done|..]; intros [= <- <-] Hr; [by eapply mod_version|].
      set_unfold in He. destruct He as [->|[-> |[]]]; [by eapply mod_version_full|done].
    + unfold ThrowWriteWriteConflict, SetTainted. rewrite Hrun. rewrite bool_decide_false by naive_solver.
      intros [= <- <-] _. apply mod_conflict; [done|lia].
Qed.

Lemma MvccStampCommit_put rid c db m row :
  db_wf db → db_row db rid = Some (m, row) →
  ∃ db', MvccStampCommit rid c db = (Ok tt, db') ∧ row_put rid (mkTupleMeta c (is_deleted_ m), row) db db'.
Proof.
  intros Hw Hrow. unfold MvccStampCommit. rewrite (get_meta_row _ _ _ _ Hw Hrow).
  destruct (set_meta_put db rid m row (mkTupleMeta c (is_deleted_ m)) Hw Hrow) as (p' & E & ?).
  unfold mbind, result_bind. rewrite E. eauto.
Qed.

Lemma take_u16_short row : short row → take (Z.to_nat (u16 (Z.of_nat (length row)))) row = row.
Proof. intros H. unfold short in H. machine. rewrite Nat2Z.id. by apply take_ge. Qed.

Lemma MvccRollback_restore tid rid db t m row l log db' :
  db_wf db → db_row db rid = Some (m, row) → db_txns db !! tid = Some t →
  GetUndoLink rid db = Some l → IsValid l = true → prev_txn_ l = txn_id_ t →
  txn_GetUndoLog (prev_log_idx_ l) t = Some log → short (log_row_ log) →
  MvccRollback tid rid db = (Ok tt, db') →
  ∃ db1 row', row_put rid (mkTupleMeta (log_ts_ log) (log_is_deleted_ log), row') db db1 ∧
    (log_is_deleted_ log = false → row' = log_row_ log) ∧ (log_is_deleted_ log = true → row' = row) ∧
    db' = (UpdateUndoLink rid (if IsValid (prev_version_ log) then Some (prev_version_ log) else None) None db1).2.
Proof.
  intros Hw Hrow Ht Hl HV Hp Hlog Hs. unfold MvccRollback. rewrite Ht, Hl, HV. cbn [andb].
  rewrite bool_decide_true by done. rewrite Hlog. destruct (log_is_deleted_ log) eqn:Hd.
  - destruct (set_meta_put db rid m row (mkTupleMeta (log_ts_ log) true) Hw Hrow) as (p' & E & Hput).
    unfold mbind, result_bind. rewrite E. intros [= <-]. eexists _, row. split; [exact Hput|]. done.
  - assert (0 ≤ u16 (Z.of_nat (length (log_row_ log))) ≤ Z.of_nat (length (log_row_ log))) as Hn.
    { unfold short in Hs. machine. lia. }
    destruct (update_put db rid m row (mkTupleMeta (log_ts_ log) false) (log_row_ log) _ Hw Hrow Hn)
      as [(p' & E & Hput)|[E|E]]; [apply (wrap_u_range 16); lia| |rewrite E; done..].
    rewrite E. intros [= <-]. rewrite take_u16_short in Hput by done.
    eexists _, _. split; [exact Hput|]. done.
Qed.

Lemma MvccRollback_fresh tid rid db t m row :
  db_wf db → db_row db rid = Some (m, row) → db_txns db !! tid = Some t → GetUndoLink rid db = None →
  ∃ db', MvccRollback tid rid db = (Ok tt, db') ∧ row_put rid (mkTupleMeta 0 true, row) db db'.
Proof.
  intros Hw Hrow Ht Hl. unfold MvccRollback. rewrite Ht, Hl, (get_meta_row _ _ _ _ Hw Hrow).
  destruct (set_meta_put db rid m row (mkTupleMeta 0 true) Hw Hrow) as (p' & E & ?).
  unfold mbind, result_bind. rewrite E. eauto.
Qed.

(** A rollback restores the row or leaves everything as it was. *)
Lemma MvccRollback_outcome tid rid db t m row :
  db_wf db → db_row db rid = Some (m, row) → db_txns db !! tid = Some t →
  (∃ db', MvccRollback tid rid db = (Ok tt, db')) ∨
  MvccRollback tid rid db = (Err restore_failed, db) ∨ MvccRollback tid rid db = (Err EUndefined, db).
Proof.
  intros Hw Hrow Ht. unfold MvccRollback. rewrite Ht. destruct (match GetUndoLink rid db with Some _ => _ | None => _ end) as [l|].
  - destruct (txn_GetUndoLog (prev_log_idx_ l) t) as [log|]; [|by right; right].
    destruct (log_is_deleted_ log).
    + destruct (set_meta_put db rid m row (mkTupleMeta (log_ts_ log) true) Hw Hrow) as (p' & E & _).
      unfold mbind, result_bind. rewrite E. left. eauto.
    + destruct (update_put db rid m row (mkTupleMeta (log_ts_ log) false) (log_row_ log)
                  (u16 (Z.of_nat (length (log_row_ log)))) Hw Hrow) as [(p' & E & _)|[E|E]]; rewrite ?E; eauto.
      * split; [apply (wrap_u_range 16); lia|]. apply Z.mod_le; lia.
      * apply (wrap_u_range 16). lia.
  - rewrite (get_meta_row _ _ _ _ Hw Hrow).
    destruct (set_meta_put db rid m row (mkTupleMeta 0 true) Hw Hrow) as (p' & E & _).
    unfold mbind, result_bind. rewrite E. left. eauto.
Qed.
End rows.

(** ** Growing and creating tables *)

Section tables.
Context {P : Type} `{!RowPage P, !RowPageLaws P}.
Implicit Types (db : Db P).

Lemma heap_wf_frame (st st' : Store P) h :
  heap_wf st h → (∀ pid, pid ∈ page_directory_ h → page_at st' pid = page_at st pid ∧ allocated st' pid) →
  heap_wf st' h.
Proof.
  intros [? ? ? ? Hp Hc] Hf. split; auto.
  - intros pid Hin. by apply Hf.
  - intros pid Hin. destruct (Hf pid Hin) as [-> _]. auto.
  - intros i pid Hi. destruct (Hf pid) as [-> _]; [by eapply list_elem_of_lookup_2|]. auto.
Qed.

(** Table [oid] gets heap [h'], which extends the old one by pages nobody had. *)
Record grown db (oid : Z) (h' : TableHeap) (st' : Store P) : Prop := {
  gr_store : store_wf st';
  gr_heap : heap_wf st' h';
  gr_new : ∀ pid, pid ∈ page_directory_ h' →
    (∃ h, db_heaps db !! oid = Some h ∧ pid ∈ page_directory_ h) ∨ ¬ allocated (db_store db) pid;
  gr_old : ∀ h pid, db_heaps db !! oid = Some h → pid ∈ page_directory_ h → pid ∈ page_directory_ h';
  gr_alloc : ∀ pid, allocated (db_store db) pid → allocated st' pid;
  gr_frame : ∀ pid, pid ∉ page_directory_ h' → page_at st' pid = page_at (db_store db) pid
}.

Definition set_heap (oid : Z) (h : TableHeap) (st : Store P) db : Db P :=
  mkDb st (<[oid := h]> (db_heaps db)) (db_txns db) (db_mgr db).

Lemma owned_allocated db pid : db_wf db → owned db pid → allocated (db_store db) pid.
Proof. intros Hw (oid & h & Hh & Hin)%owned_spec. eapply hw_alloc; [by eapply dw_heap|done]. Qed.

Lemma grown_other db oid h' st' o h pid :
  db_wf db → grown db oid h' st' → o ≠ oid → db_heaps db !! o = Some h → pid ∈ page_directory_ h →
  pid ∉ page_directory_ h'.
Proof.
  intros Hw Hg Hne Ho Hin Hin'. destruct (gr_new _ _ _ _ Hg _ Hin') as [(h0 & H0 & Hin0)|Hna].
  - apply Hne. by eapply (dw_disj _ Hw).
  - apply Hna. eapply hw_alloc; [by eapply dw_heap|done].
Qed.

Lemma grown_wf db oid h' st' : db_wf db → grown db oid h' st' → db_wf (set_heap oid h' st' db).
Proof.
  intros Hw Hg. split; simpl; [apply Hg|..].
  - intros o h Ho. apply lookup_insert_Some in Ho as [[<- <-]|[Hne Ho]]; [apply Hg|].
    eapply heap_wf_frame; [by eapply dw_heap|]. intros pid Hin. split.
    + apply (gr_frame _ _ _ _ Hg). by eapply (grown_other db oid h' st' o).
    + apply (gr_alloc _ _ _ _ Hg). eapply hw_alloc; [by eapply dw_heap|done].
  - intros o1 o2 h1 h2 pid [[<- <-]|[Hn1 H1]]%lookup_insert_Some [[<- <-]|[Hn2 H2]]%lookup_insert_Some Hi1 Hi2;
      [done| | |by eapply (dw_disj _ Hw)].
    + exfalso. by eapply (grown_other db oid h' st' o2).
    + exfalso. by eapply (grown_other db oid h' st' o1).
Qed.

Lemma grown_in_table db oid h' st' o rid :
  grown db oid h' st' → in_table db o rid → in_table (set_heap oid h' st' db) o rid.
Proof.
  intros Hg (Hs & h & Ho & Hin). split; [done|]. simpl. destruct (decide (oid = o)) as [<-|Hne].
  - exists h'. rewrite lookup_insert_eq. split; [done|]. by eapply gr_old.
  - exists h. by rewrite lookup_insert_ne.
Qed.

Lemma grown_row db oid h' st' rid :
  db_wf db → grown db oid h' st' →
  db_row (set_heap oid h' st' db) rid =
    if decide (page_id_ rid ∈ page_directory_ h') then heap_row st' h' rid else db_row db rid.
Proof.
  intros Hw Hg. unfold db_row, heap_row.
  destruct (decide (page_id_ rid ∈ page_directory_ h')) as [Hin|Hni].
  - rewrite decide_True, bool_decide_true; [done|done|].
    apply owned_spec. exists oid, h'. simpl. by rewrite lookup_insert_eq.
  - rewrite (decide_ext (owned (set_heap oid h' st' db) (page_id_ rid)) (owned db (page_id_ rid))).
    + destruct (decide _); [|done]. apply row_at_ext. by apply (gr_frame _ _ _ _ Hg).
    + rewrite !owned_spec. split; intros (o & h & Ho & Hi).
      * simpl in Ho. apply lookup_insert_Some in Ho as [[<- <-]|[Hne Ho]]; [done|eauto].
      * destruct (decide (oid = o)) as [<-|Hne]; [exfalso; apply Hni; by eapply gr_old|].
        exists o, h. simpl. by rewrite lookup_insert_ne.
Qed.

(** Rows of a table before it grew: pages it did not have hold no row of the database. *)
Lemma grown_old_row db oid h' st' rid :
  db_wf db → grown db oid h' st' → page_id_ rid ∈ page_directory_ h' →
  db_row db rid = match db_heaps db !! oid with Some h => heap_row (db_store db) h rid | None => None end.
Proof.
  intros Hw Hg Hin. unfold db_row, heap_row. destruct (decide (owned db (page_id_ rid))) as [Ho|Hno].
  - destruct (gr_new _ _ _ _ Hg _ Hin) as [(h & -> & Hh)|Hna]; [by rewrite bool_decide_true|].
    exfalso. apply Hna. by apply owned_allocated.
  - destruct (db_heaps db !! oid) as [h|] eqn:Hh; [|done]. rewrite bool_decide_false; [done|].
    intros Hi. apply Hno, owned_spec. eauto.
Qed.

Lemma create_grown db oid h st' :
  db_wf db → db_heaps db !! oid = None → new_TableHeap (db_store db) = (h, st') →
  grown db oid h st' ∧ ∀ rid, db_row (set_heap oid h st' db) rid = db_row db rid.
Proof.
  intros Hw Ho HN. destruct (new_TableHeap_spec _ _ _ (dw_store _ Hw) HN) as (S1 & S2 & S3 & S4 & S5 & S6 & S7).
  assert (grown db oid h st') as Hg.
  { split; auto.
    - intros pid Hin. right. rewrite S4 in Hin. by apply list_elem_of_singleton in Hin as ->.
    - naive_solver.
    - intros pid Ha. apply S6. by right.
    - intros pid Hni. apply S7. rewrite S4 in Hni. set_solver. }
  split; [done|]. intros rid. rewrite (grown_row db oid h st') by done.
  destruct (decide _) as [Hin|]; [|done]. rewrite S3, (grown_old_row db oid h st') by done. by rewrite Ho.
Qed.

(** [MvccInsertRow] grows the table and adds one row, or throws and changes no row. *)
Inductive inserted (tid oid : Z) (t : Transaction) (row : list byte) db : result RID → Db P → Prop :=
  | ins_ok rid db1 :
      in_table db1 oid rid → db_row db rid = None →
      (∀ rid', db_row db1 rid' = if decide (rid = rid') then Some (mkTupleMeta (txn_id_ t) false, row)
                                 else db_row db rid') →
      db_txns db1 = db_txns db → db_mgr db1 = db_mgr db → db_wf db1 →
      (∀ o r, in_table db o r → in_table db1 o r) →
      inserted tid oid t row db (Ok rid) (with_txn tid (AppendWriteSet oid rid t) db1)
  | ins_err db1 :
      (∀ rid', db_row db1 rid' = db_row db rid') →
      db_txns db1 = db_txns db → db_mgr db1 = db_mgr db → db_wf db1 →
      (∀ o r, in_table db o r → in_table db1 o r) →
      inserted tid oid t row db (Err row_too_large) db1.

Lemma MvccInsertRow_row tid oid r db t res db' :
  db_wf db → db_txns db !! tid = Some t → u16 (sc_size r) ≤ Z.of_nat (length (sc_bytes r)) →
  MvccInsertRow tid oid r db = (res, db') → res ≠ Err EUndefined →
  inserted tid oid t (take (Z.to_nat (u16 (sc_size r))) (sc_bytes r)) db res db'.
Proof.
  intros Hw Ht Hn. unfold MvccInsertRow. rewrite Ht.
  destruct (db_heaps db !! oid) as [h|] eqn:Ho; [|intros [= <- <-]; done].
  destruct (AppendRowBytes_spec (mkTupleMeta (GetTransactionTempTs t) false) (sc_bytes r) (u16 (sc_size r)) h
              (db_store db) (dw_store _ Hw) (dw_heap _ Hw _ _ Ho)) as (r0 & h' & st' & E & Hap & Hres).
  { split; [|done]. apply (wrap_u_range 16). lia. }
  rewrite E. assert (grown db oid h' st') as Hg.
  { destruct Hap as [? ? (ext & D & X) A F]. split; auto.
    - intros pid. rewrite D. intros [?|?]%elem_of_app; [left; eauto|right; auto].
    - intros h0 pid Hh0 Hin. rewrite D. simplify_eq. set_solver.
    - intros pid Ha. apply A. by left. }
  pose proof (grown_wf _ _ _ _ Hw Hg) as Hw1.
  assert (∀ rid, page_id_ rid ∈ page_directory_ h' → db_row db rid = heap_row (db_store db) h rid) as Hold.
  { intros rid Hin. by rewrite (grown_old_row _ _ _ _ _ Hw Hg Hin), Ho. }
  destruct r0 as [rid|e]; intros [= <- <-] Hne.
  - destruct Hres as (Hin & Hs & Hnone & Hrows). apply (ins_ok _ _ _ _ _ rid (set_heap oid h' st' db)); auto.
    + split; [|exists h'; simpl; by rewrite lookup_insert_eq]. eapply db_row_bound; [exact Hw1|].
      by rewrite (grown_row db oid h' st'), decide_True, Hrows, decide_True by done.
    + by rewrite Hold.
    + intros rid'. rewrite (grown_row db oid h' st') by done.
      destruct (decide (page_id_ rid' ∈ page_directory_ h')).
      * by rewrite Hrows, Hold.
      * rewrite decide_False; [done|]. by intros <-.
    + intros o rr. by apply grown_in_table.
  - destruct Hres as (-> & Hrows). apply ins_err; auto.
    + intros rid'. change (db_row (set_heap oid h' st' db) rid' = db_row db rid').
      rewrite (grown_row db oid h' st') by done.
      destruct (decide _); [|done]. by rewrite Hrows, Hold.
    + intros o rr. by apply (grown_in_table db oid h' st').
Qed.
End tables.

(** * The invariant of the interleaved machine: transactions, commits, rollbacks, collection

    [GInv] relates the transaction objects, the manager's tables and the finalisations in progress to
    the abstract database of [SnapshotSpec.v].  The per-row part is [RowInvariant.v]; [Simulation.v]
    puts the two together. *)

(** The rows of a transaction's write set. *)
Definition writes (t : Transaction) (rid : RID) : Prop := ∃ oid rids, write_set_ t !! oid = Some rids ∧ rid ∈ rids.

Definition mgr_core (m : TransactionManager) : Z * Z * gset Z * Watermark :=
  (next_txn_id_ m, last_commit_ts_ m, txn_map_ m, running_txns_ m).

Definition read_of (txns : gmap Z Transaction) (tid : Z) : Z :=
  match txns !! tid with Some t => read_ts_ t | None => 0 end.
(** The multiset of snapshots of a list of transactions. *)
Definition reads (txns : gmap Z Transaction) (tids : list Z) : gmultiset Z :=
  list_to_set_disj (read_of txns <$> tids).

Lemma reads_perm txns l l' : l ≡ₚ l' → reads txns l = reads txns l'.
Proof. intros H. unfold reads. by rewrite H. Qed.
Lemma reads_cons txns T l : reads txns (T :: l) = {[+ read_of txns T +]} ⊎ reads txns l.
Proof. done. Qed.
Lemma reads_ext txns txns' l : (∀ T, T ∈ l → read_of txns' T = read_of txns T) → reads txns' l = reads txns l.
Proof.
  intros H. unfold reads. f_equal. apply list_fmap_ext. intros i T Hi. apply H. by eapply list_elem_of_lookup_2.
Qed.
Lemma reads_elem txns l T : T ∈ l → read_of txns T ∈ reads txns l.
Proof. intros H. unfold reads. apply elem_of_list_to_set_disj. apply list_elem_of_fmap. eauto. Qed.
Lemma reads_elem_inv txns l ts : ts ∈ reads txns l → ∃ T, T ∈ l ∧ ts = read_of txns T.
Proof. unfold reads. rewrite elem_of_list_to_set_disj, list_elem_of_fmap. naive_solver. Qed.

Section ginv.
Context {P : Type} `{!RowPage P, !RowPageLaws P}.
Implicit Types (db : Db P) (m : Machine P) (a : SI).

Definition mlast m : Z := last_commit_ts_ (db_mgr (mc_db m)).
Definition mtxns m : gmap Z Transaction := db_txns (mc_db m).

(** Transactions counted by the watermark. *)
Definition registered m (tid : Z) : Prop :=
  (∃ t, mtxns m !! tid = Some t ∧ is_open t = true) ∨ mc_commit m = Some (tid, None) ∨
  mc_undo m !! tid = Some None.

Definition wm_inv m : Prop :=
  ∃ regs, NoDup regs ∧ (∀ tid, tid ∈ regs ↔ registered m tid) ∧
    wm_wf (running_txns_ (db_mgr (mc_db m))) ∧
    live_reads (running_txns_ (db_mgr (mc_db m))) (reads (mtxns m) regs) ∧
    commit_ts_ (running_txns_ (db_mgr (mc_db m))) ≤ mlast m.

Record GInv m a : Prop := {
  g_last : 0 ≤ mlast m < TXN_START_ID ∧ si_last a = mlast m;
  g_next : TXN_START_ID ≤ next_txn_id_ (db_mgr (mc_db m));
  g_txn : ∀ tid t, mtxns m !! tid = Some t →
    txn_id_ t = tid ∧ TXN_START_ID ≤ tid < next_txn_id_ (db_mgr (mc_db m)) ∧ 0 ≤ read_ts_ t ≤ mlast m;
  g_open : ∀ tid r w, si_open a !! tid = Some (r, w) →
    ∃ t, mtxns m !! tid = Some t ∧ is_open t = true ∧ mc_undo m !! tid = None ∧ read_ts_ t = r ∧
         ∀ rid, writes t rid ↔ is_Some (w !! rid);
  g_open' : ∀ tid t, mtxns m !! tid = Some t → is_open t = true → mc_undo m !! tid = None →
    is_Some (si_open a !! tid);
  g_undo : ∀ tid rest, mc_undo m !! tid = Some (Some rest) →
    NoDup rest ∧ ∃ t, mtxns m !! tid = Some t ∧ is_open t = true;
  g_undone : ∀ tid, mc_undo m !! tid = Some None → ∃ t, mtxns m !! tid = Some t ∧ state_ t = ABORTED;
  g_commit : ∀ tid rest, mc_commit m = Some (tid, Some rest) →
    NoDup rest ∧ mlast m + 1 < TXN_START_ID ∧ ∃ r w, si_open a !! tid = Some (r, w) ∧ ∀ rid, rid ∈ rest → is_Some (w !! rid);
  g_published : ∀ tid, mc_commit m = Some (tid, None) → ∃ t, mtxns m !! tid = Some t ∧ state_ t = COMMITTED;
  g_committed : ∀ tid t, mtxns m !! tid = Some t → state_ t = COMMITTED →
    read_ts_ t < txn_commit_ts_ t ≤ mlast m ∧
    ∃ rows, si_done a !! tid = Some (read_ts_ t, txn_commit_ts_ t, rows) ∧ ∀ rid, rid ∈ rows ↔ writes t rid;
  g_done : ∀ tid, is_Some (si_done a !! tid) → ∃ t, mtxns m !! tid = Some t ∧ state_ t = COMMITTED;
  g_gone : ∀ tid t, mtxns m !! tid = Some t → tid ∉ txn_map_ (db_mgr (mc_db m)) →
    state_ t = ABORTED ∨
    (state_ t = COMMITTED ∧ ∀ tid' t', mtxns m !! tid' = Some t' → is_open t' = true → txn_commit_ts_ t ≤ read_ts_ t');
  g_gc : ∀ W, mc_gc m = Some W → W ≤ mlast m ∧ ∀ tid t, mtxns m !! tid = Some t → is_open t = true → W ≤ read_ts_ t;
  g_wm : wm_inv m
}.

Lemma open_not_done t : is_open t = true → state_ t ≠ COMMITTED ∧ state_ t ≠ ABORTED.
Proof. unfold is_open. by destruct (state_ t). Qed.
Lemma not_open t : is_open t = false → state_ t = COMMITTED ∨ state_ t = ABORTED.
Proof. unfold is_open. destruct (state_ t); naive_solver. Qed.

Lemma g_in_map m a tid t : GInv m a → mtxns m !! tid = Some t → is_open t = true → tid ∈ txn_map_ (db_mgr (mc_db m)).
Proof.
  intros Hg Ht Ho. destruct (decide (tid ∈ txn_map_ (db_mgr (mc_db m)))); [done|].
  destruct (open_not_done _ Ho). exfalso. destruct (g_gone _ _ Hg _ _ Ht) as [?|[??]]; done.
Qed.

Lemma g_after_snapshot m a : GInv m a → commits_after_snapshot (mtxns m).
Proof. intros Hg tid t Ht Hs. apply (g_committed _ _ Hg _ _ Ht Hs). Qed.

Lemma g_collected_before m a tid t :
  GInv m a → mtxns m !! tid = Some t → is_open t = true → collected_before (read_ts_ t) (mc_db m).
Proof.
  intros Hg Ht Ho tid' t' Ht' Hs Hn. destruct (g_gone _ _ Hg _ _ Ht' Hn) as [?|[_ H]]; [congruence|]. by eapply H.
Qed.

(** ** Claims *)

(** The stamp a claimed base tuple carries: rows the committer has stamped already carry the
    upcoming commit timestamp. *)
Definition stamp m (tid : Z) (rid : RID) : Z :=
  match mc_commit m with
  | Some (c, Some rest) => if decide (c = tid ∧ rid ∉ rest) then mlast m + 1 else tid
  | _ => tid
  end.

Inductive claimed m a (rid : RID) : Z → option (option (list byte)) → Z → Prop :=
  | cl_write tid r w v :
      si_open a !! tid = Some (r, w) → w !! rid = Some v → claimed m a rid tid (Some v) (stamp m tid rid)
  | cl_undo tid rest :
      mc_undo m !! tid = Some (Some rest) → rid ∈ rest → claimed m a rid tid None tid.

Lemma claimed_txn m a rid tid v s :
  GInv m a → claimed m a rid tid v s → ∃ t, mtxns m !! tid = Some t ∧ is_open t = true.
Proof.
  intros Hg. destruct 1 as [tid r w v Ho|tid rest Hu].
  - destruct (g_open _ _ Hg _ _ _ Ho) as (t & ? & ? & _). eauto.
  - destruct (g_undo _ _ Hg _ _ Hu) as (_ & t & ? & ?). eauto.
Qed.

Lemma claimed_functional m a rid tid v s v' s' :
  GInv m a → claimed m a rid tid v s → claimed m a rid tid v' s' → v = v' ∧ s = s'.
Proof.
  intros Hg H H'. inversion H; inversion H'; subst; try done; simplify_eq; auto.
  all: edestruct (g_open _ _ Hg) as (? & _ & _ & ? & _); eauto; congruence.
Qed.

Lemma claimed_stamp m a rid tid v s :
  GInv m a → claimed m a rid tid v s →
  mlast m < s ∧ (s = tid ∨ s = mlast m + 1 ∧ s < TXN_START_ID ∧ ∃ rest, mc_commit m = Some (tid, Some rest) ∧ rid ∉ rest).
Proof.
  intros Hg Hc. destruct (claimed_txn _ _ _ _ _ _ Hg Hc) as (t & Ht & _).
  destruct (g_txn _ _ Hg _ _ Ht) as (_ & ? & ?). pose proof (g_last _ _ Hg) as [? _].
  destruct Hc as [tid r w v Ho Hw|tid rest Hu Hr]; [|split; [lia|by left]].
  unfold stamp. destruct (mc_commit m) as [[c [rest|]]|] eqn:E; try (split; [lia|by left]).
  destruct (decide _) as [[-> Hn]|]; [|split; [lia|by left]].
  destruct (g_commit _ _ Hg _ _ E) as (_ & ? & _). split; [lia|right]. split; [done|]. split; [lia|]. eauto.
Qed.

(** ** Changing one transaction object *)

(** Same identity, snapshot and phase. *)
Definition similar (t t' : Transaction) : Prop :=
  txn_id_ t' = txn_id_ t ∧ read_ts_ t' = read_ts_ t ∧ txn_commit_ts_ t' = txn_commit_ts_ t ∧
  is_open t' = is_open t ∧ (state_ t' = COMMITTED ↔ state_ t = COMMITTED).

Lemma similar_aborted t t' : similar t t' → state_ t = ABORTED → state_ t' = ABORTED.
Proof. intros (_ & _ & _ & Ho & Hc). unfold is_open in Ho. destruct (state_ t), (state_ t'); naive_solver. Qed.

(** What the other end of a [mtxns] lookup after one insertion says about the objects before. *)
Lemma lookup_similar (txns : gmap Z Transaction) tid t t' tid' x :
  txns !! tid = Some t → similar t t' → <[tid := t']> txns !! tid' = Some x →
  ∃ x0, txns !! tid' = Some x0 ∧ similar x0 x ∧ (tid' ≠ tid → x0 = x) ∧ (tid' = tid → x0 = t ∧ x = t').
Proof.
  intros Ht Hs. destruct (decide (tid = tid')) as [<-|Hne].
  - rewrite lookup_insert_eq. intros [= <-]. exists t. naive_solver.
  - rewrite lookup_insert_ne by done. intros Hx. exists x. split; [done|]. split; [by unfold similar|]. split; [done|congruence].
Qed.
Lemma insert_similar (txns : gmap Z Transaction) tid t t' tid' x :
  txns !! tid = Some t → similar t t' → txns !! tid' = Some x →
  ∃ x', <[tid := t']> txns !! tid' = Some x' ∧ similar x x' ∧ (tid' ≠ tid → x' = x) ∧ (tid' = tid → x = t ∧ x' = t').
Proof.
  intros Ht Hs Hx. destruct (decide (tid = tid')) as [<-|Hne].
  - exists t'. rewrite lookup_insert_eq. naive_solver.
  - exists x. rewrite lookup_insert_ne by done. split; [done|]. split; [by unfold similar|]. split; [done|congruence].
Qed.

(** The abstract counterpart of touching transaction [tid]: nothing, or a larger write set. *)
Definition touched a a' (tid : Z) (t t' : Transaction) : Prop :=
  si_last a' = si_last a ∧ si_done a' = si_done a ∧
  (∀ T, T ≠ tid → si_open a' !! T = si_open a !! T) ∧
  ((si_open a' !! tid = si_open a !! tid ∧ ∀ rid, writes t' rid ↔ writes t rid) ∨
   (∃ r w w', si_open a !! tid = Some (r, w) ∧ si_open a' !! tid = Some (r, w') ∧
      (∀ rid, is_Some (w !! rid) → is_Some (w' !! rid)) ∧ ∀ rid, writes t' rid ↔ is_Some (w' !! rid))).

Lemma wm_inv_touch m db' tid t t' :
  mtxns m !! tid = Some t → similar t t' → db_txns db' = <[tid := t']> (mtxns m) →
  mgr_core (db_mgr db') = mgr_core (db_mgr (mc_db m)) → wm_inv m → wm_inv (with_db db' m).
Proof.
  intros Ht Hs Htx [= _ El _ Ew] (regs & Hnd & Hreg & Hwf & Hlive & Hc). exists regs.
  unfold wm_inv, registered, mlast, mtxns in *. simpl. rewrite Ew, El, Htx. split; [done|]. split.
  - intros tid'. rewrite Hreg. apply or_iff_compat_r. split; intros (x & Hx & Ho).
    + destruct (insert_similar _ _ _ _ _ _ Ht Hs Hx) as (x' & ? & (_ & _ & _ & E & _) & _). exists x'. by rewrite E.
    + destruct (lookup_similar _ _ _ _ _ _ Ht Hs Hx) as (x' & ? & (_ & _ & _ & E & _) & _). exists x'. by rewrite <- E.
  - split; [done|]. split; [|done]. rewrite (reads_ext (db_txns (mc_db m))); [done|].
    intros T _. unfold read_of. destruct (decide (tid = T)) as [<-|]; [|by rewrite lookup_insert_ne].
    rewrite lookup_insert_eq, Ht. apply Hs.
Qed.

Lemma touched_open a a' tid t t' T r w' :
  touched a a' tid t t' → si_open a' !! T = Some (r, w') →
  ∃ w, si_open a !! T = Some (r, w) ∧ (T ≠ tid → w' = w) ∧ (∀ rid, is_Some (w !! rid) → is_Some (w' !! rid)).
Proof.
  intros (_ & _ & Hne & Hcase) Ho. destruct (decide (T = tid)) as [->|].
  - destruct Hcase as [[E _]|(r0 & w & w0 & Ho' & E & Hsub & _)]; [rewrite E in Ho|]; simplify_eq; naive_solver.
  - rewrite Hne in Ho by done. naive_solver.
Qed.

Lemma touched_open_rev a a' tid t t' T r w :
  touched a a' tid t t' → si_open a !! T = Some (r, w) →
  ∃ w', si_open a' !! T = Some (r, w') ∧ (∀ rid, is_Some (w !! rid) → is_Some (w' !! rid)).
Proof.
  intros (_ & _ & Hne & Hcase) Ho. destruct (decide (T = tid)) as [->|].
  - destruct Hcase as [[E _]|(r0 & w0 & w' & Ho' & E & Hsub & _)]; [rewrite <- E in Ho|]; simplify_eq; naive_solver.
  - rewrite <- Hne in Ho by done. naive_solver.
Qed.

Lemma touched_writes m a a' tid t t' r w' :
  GInv m a → mtxns m !! tid = Some t → touched a a' tid t t' → si_open a' !! tid = Some (r, w') →
  ∀ rid, writes t' rid ↔ is_Some (w' !! rid).
Proof.
  intros Hg Ht (_ & _ & _ & Hcase) Ho. destruct Hcase as [[E Hw]|(r0 & w & w0 & _ & E & _ & Hw)]; [|by simplify_eq].
  rewrite E in Ho. destruct (g_open _ _ Hg _ _ _ Ho) as (t0 & Ht0 & _ & _ & _ & Hw0). simplify_eq.
  intros rid. by rewrite Hw, Hw0.
Qed.

Lemma GInv_touch m a tid t t' db' a' :
  GInv m a → mtxns m !! tid = Some t → similar t t' → db_txns db' = <[tid := t']> (mtxns m) →
  mgr_core (db_mgr db') = mgr_core (db_mgr (mc_db m)) → touched a a' tid t t' →
  GInv (with_db db' m) a'.
Proof.
  intros Hg Ht Hs Htx Hcore Htch.
  pose proof (wm_inv_touch m db' tid t t' Ht Hs Htx Hcore (g_wm _ _ Hg)) as Hwm.
  pose proof Htch as (Hla & Hdo & _). injection Hcore as Hnx Hl Hmap Hwt.
  pose proof (λ T x, lookup_similar (mtxns m) tid t t' T x Ht Hs) as Hbwd.
  pose proof (λ T x, insert_similar (mtxns m) tid t t' T x Ht Hs) as Hfwd.
  assert (mtxns (with_db db' m) = <[tid := t']> (mtxns m)) as Etx by done.
  assert (mlast (with_db db' m) = mlast m) as El by done.
  split; try rewrite Etx; try rewrite El; try rewrite Hnx; try rewrite Hmap; try rewrite Hdo; simpl;
    try rewrite Hnx; try rewrite Hmap.
  - rewrite Hla. apply Hg.
  - apply Hg.
  - intros T x (x0 & Hx0 & (E1 & E2 & _) & _)%Hbwd. rewrite E1, E2. by apply (g_txn _ _ Hg).
  - intros T r w' Ho. destruct (touched_open _ _ _ _ _ _ _ _ Htch Ho) as (w & Ho0 & Hw & _).
    destruct (g_open _ _ Hg _ _ _ Ho0) as (x & Hx & Hopen & Hund & Hr & Hwr).
    destruct (Hfwd _ _ Hx) as (x' & Hx' & (_ & E2 & _ & E4 & _) & Hd1 & Hd2).
    exists x'. rewrite E2, E4. split_and!; auto. destruct (decide (T = tid)) as [->|Hne].
    + destruct (Hd2 eq_refl) as [-> ->]. by eapply touched_writes.
    + rewrite Hd1, Hw by done. done.
  - intros T x (x0 & Hx0 & (_ & _ & _ & E4 & _) & _)%Hbwd Ho Hu. rewrite E4 in Ho.
    destruct (g_open' _ _ Hg _ _ Hx0 Ho Hu) as [[r w] Hw].
    destruct (touched_open_rev _ _ _ _ _ _ _ _ Htch Hw) as (w' & ? & _). eauto.
  - intros T rest Hu. destruct (g_undo _ _ Hg _ _ Hu) as (Hnd & x & Hx & Ho). split; [done|].
    destruct (Hfwd _ _ Hx) as (x' & Hx' & (_ & _ & _ & E4 & _) & _). exists x'. by rewrite E4.
  - intros T Hu. destruct (g_undone _ _ Hg _ Hu) as (x & Hx & Ha).
    destruct (Hfwd _ _ Hx) as (x' & Hx' & Hsx & _). exists x'. eauto using similar_aborted.
  - intros T rest Hc. destruct (g_commit _ _ Hg _ _ Hc) as (? & ? & r & w & Ho & Hr).
    destruct (touched_open_rev _ _ _ _ _ _ _ _ Htch Ho) as (w' & ? & ?). split_and!; auto. exists r, w'. auto.
  - intros T Hc. destruct (g_published _ _ Hg _ Hc) as (x & Hx & Ha).
    destruct (Hfwd _ _ Hx) as (x' & Hx' & (_ & _ & _ & _ & E5) & _). exists x'. by rewrite E5.
  - intros T x (x0 & Hx0 & (E1 & E2 & E3 & E4 & E5) & Hd1 & Hd2)%Hbwd Hst. apply E5 in Hst.
    destruct (g_committed _ _ Hg _ _ Hx0 Hst) as (? & rows & Hd & Hrows). rewrite E2, E3. split; [done|].
    exists rows. split; [done|]. destruct (decide (T = tid)) as [->|]; [|by rewrite <- Hd1].
    destruct (Hd2 eq_refl) as [-> ->]. destruct Htch as (_ & _ & _ & [[_ Hw]|(r & w & w' & Ho & _)]).
    + intros rid. by rewrite Hw.
    + exfalso. destruct (g_open _ _ Hg _ _ _ Ho) as (t0 & Ht0 & Hop & _). simplify_eq.
      by destruct (open_not_done _ Hop).
  - intros T (x & Hx & Hst)%(g_done _ _ Hg). destruct (Hfwd _ _ Hx) as (x' & Hx' & (_ & _ & _ & _ & E5) & _).
    exists x'. by rewrite E5.
  - intros T x (x0 & Hx0 & Hsx & _)%Hbwd Hn. pose proof Hsx as (_ & _ & E3 & _ & E5).
    destruct (g_gone _ _ Hg _ _ Hx0 Hn) as [Ha|[Hst Hle]]; [left; by eapply similar_aborted|right].
    rewrite E3. split; [by apply E5|]. intros T' x' (y & Hy & (_ & E2 & _ & E4 & _) & _)%Hbwd Ho.
    rewrite E2. rewrite E4 in Ho. eauto.
  - intros W HW. destruct (g_gc _ _ Hg _ HW) as [? Hle]. split; [done|].
    intros T x (y & Hy & (_ & E2 & _ & E4 & _) & _)%Hbwd Ho. rewrite E2. rewrite E4 in Ho. eauto.
  - done.
Qed.
End ginv.
