(* ===== verification/MachineSteps.v ===== *)
(** * The machine invariant is kept by every step

    One lemma per step that begins, commits, rolls back or collects a transaction, for the part of the
    invariant that is about transactions ([GInv]); the rows are treated in [Simulation.v]. *)

From stdpp Require Import gmultiset.
From S2P Require Import Prelude TablePage TableHeap Watermark Transaction Mvcc RowInvariant SnapshotSpec MachineInvariant.

Section steps.
Context {P : Type} `{!RowPage P, !RowPageLaws P}.
Implicit Types (db : Db P) (m : Machine P) (a : SI).

Lemma GInv_same_db m a db' :
  GInv m a → db_txns db' = mtxns m → mgr_core (db_mgr db') = mgr_core (db_mgr (mc_db m)) →
  GInv (with_db db' m) a.
Proof.
  intros [] Htx [= En El Em Ew].
  split; unfold wm_inv, registered, mlast, mtxns in *; simpl;
    rewrite ?Htx, ?En, ?El, ?Em, ?Ew; assumption.
Qed.

(** ** Begin *)

Definition si_begin (tid : Z) a : SI :=
  mkSI (si_last a) (si_snap a) (si_mod a) (<[tid := (si_last a, ∅)]> (si_open a)) (si_done a).

Lemma next_fresh m a : GInv m a → mtxns m !! next_txn_id_ (db_mgr (mc_db m)) = None.
Proof.
  intros Hg. destruct (mtxns m !! _) as [t|] eqn:E; [|done]. destruct (g_txn _ _ Hg _ _ E) as (_ & ? & _). lia.
Qed.

Lemma fresh_not_open m a tid : GInv m a → mtxns m !! tid = None → si_open a !! tid = None ∧ si_done a !! tid = None ∧
  mc_undo m !! tid = None ∧ ∀ ph, mc_commit m ≠ Some (tid, ph).
Proof.
  intros Hg Hf. split_and!.
  - destruct (si_open a !! tid) as [[r w]|] eqn:E; [|done]. destruct (g_open _ _ Hg _ _ _ E) as (? & ? & _). congruence.
  - destruct (si_done a !! tid) eqn:E; [|done]. destruct (g_done _ _ Hg tid) as (? & ? & _); [eauto|congruence].
  - destruct (mc_undo m !! tid) as [[rest|]|] eqn:E; [..|done].
    + destruct (g_undo _ _ Hg _ _ E) as (_ & ? & ? & _). congruence.
    + destruct (g_undone _ _ Hg _ E) as (? & ? & _). congruence.
  - intros [rest|] E.
    + destruct (g_commit _ _ Hg _ _ E) as (_ & _ & r & w & Ho & _).
      destruct (g_open _ _ Hg _ _ _ Ho) as (? & ? & _). congruence.
    + destruct (g_published _ _ Hg _ E) as (? & ? & _). congruence.
Qed.

Lemma BeginShared_inv m a iso now :
  GInv m a →
  ∃ w, let mg := db_mgr (mc_db m) in let tid := next_txn_id_ mg in
    BeginShared iso now (mc_db m) = (Ok tid,
      with_mgr (mkTxnMgr (txn_timeout_ mg) (tid + 1) (last_commit_ts_ mg) ({[tid]} ∪ txn_map_ mg) w (version_info_ mg))
        (with_txn tid (new_Transaction tid iso (last_commit_ts_ mg) now) (mc_db m))) ∧
    AddTxn (last_commit_ts_ mg) (running_txns_ mg) = Ok w.
Proof.
  intros Hg. destruct (g_wm _ _ Hg) as (regs & _ & _ & Hwf & Hl & Hc).
  destruct (AddTxn_spec _ _ (mlast m) Hwf Hl Hc) as (w & E & _). exists w.
  unfold BeginShared. simpl. unfold mlast in E. rewrite E. done.
Qed.

Lemma wm_inv_begin m a w t' db' (tid := next_txn_id_ (db_mgr (mc_db m))) :
  GInv m a → AddTxn (mlast m) (running_txns_ (db_mgr (mc_db m))) = Ok w →
  read_ts_ t' = mlast m → is_open t' = true →
  db_txns db' = <[tid := t']> (mtxns m) → running_txns_ (db_mgr db') = w →
  last_commit_ts_ (db_mgr db') = mlast m → wm_inv (with_db db' m).
Proof.
  intros Hg HA Hr Ho' Htx Hw Hl. pose proof (next_fresh _ _ Hg) as Hf. fold tid in Hf.
  destruct (fresh_not_open _ _ _ Hg Hf) as (Fo & Fd & Fu & Fc).
  destruct (g_wm _ _ Hg) as (regs & Hnd & Hreg & Hwf & Hlv & Hct).
  destruct (AddTxn_spec _ _ _ Hwf Hlv Hct) as (w' & E' & Hwf' & Hlv' & Hct'). rewrite HA in E'. injection E' as <-.
  assert (tid ∉ regs) as Hnr.
  { rewrite Hreg. intros [(x & Hx & _)|[Hc|Hu]]; [congruence|by eapply Fc|congruence]. }
  exists (tid :: regs). split; [by constructor|].
  unfold registered, mlast, mtxns in *; simpl. rewrite Hw, Hl, Htx.
  split_and!; [|done| |by rewrite Hct'].
  - intros T. rewrite elem_of_cons, Hreg. split.
    + intros [->|[(x & Hx & Ho)|?]]; [left; exists t'; by rewrite lookup_insert_eq| |by right].
      left. exists x. rewrite lookup_insert_ne by congruence. done.
    + intros [(x & [[<- <-]|[_ Hx]]%lookup_insert_Some & Ho)|?]; [by left|right; left; eauto|by right; right].
  - rewrite reads_cons. unfold read_of at 1. rewrite lookup_insert_eq, Hr.
    rewrite (reads_ext (db_txns (mc_db m))); [by rewrite comm_L by apply _|].
    intros T HT. unfold read_of. by rewrite lookup_insert_ne by congruence.
Qed.

Lemma GInv_begin m a iso now tid db' :
  GInv m a → BeginShared iso now (mc_db m) = (Ok tid, db') → GInv (with_db db' m) (si_begin tid a).
Proof.
  intros Hg HB. destruct (BeginShared_inv m a iso now Hg) as (w & E & HA). rewrite E in HB.
  injection HB as <- <-. set (tid := next_txn_id_ (db_mgr (mc_db m))) in *.
  set (t' := new_Transaction tid iso _ now). pose proof (next_fresh _ _ Hg) as Hf. fold tid in Hf.
  destruct (fresh_not_open _ _ _ Hg Hf) as (Fo & Fd & Fu & Fc).
  pose proof (g_last _ _ Hg) as [Hl Ha]. pose proof (g_next _ _ Hg) as Hn. fold tid in Hn.
  assert (∀ T x, <[tid := t']> (mtxns m) !! T = Some x → (T = tid ∧ x = t') ∨ mtxns m !! T = Some x) as Hb.
  { intros T x [[<- <-]|[_ ?]]%lookup_insert_Some; auto. }
  assert (∀ T x, mtxns m !! T = Some x → <[tid := t']> (mtxns m) !! T = Some x) as Hk.
  { intros T x Hx. rewrite lookup_insert_ne; [done|congruence]. }
  split; unfold mlast; simpl; change (mtxns (with_db _ m)) with (<[tid := t']> (mtxns m));
    change (last_commit_ts_ (db_mgr (mc_db m))) with (mlast m).
  - done.
  - lia.
  - intros T x [[-> ->]|Hx]%Hb; [simpl; unfold mlast in *; lia|].
    destruct (g_txn _ _ Hg _ _ Hx) as (? & ? & ?). unfold tid, mlast in *. lia.
  - intros T r w0. rewrite lookup_insert_Some. intros [[<- [= <- <-]]|[_ Ho]].
    + exists t'. rewrite lookup_insert_eq. split_and!; [done..|]. intros rid. split; [|intros [? ?]; set_solver].
      intros (oid & rids & Hw & _). simpl in Hw. set_solver.
    + destruct (g_open _ _ Hg _ _ _ Ho) as (x & Hx & ?). eauto.
  - intros T x [[-> ->]|Hx]%Hb Ho Hu; [rewrite lookup_insert_eq; eauto|].
    destruct (g_open' _ _ Hg _ _ Hx Ho Hu). rewrite lookup_insert_ne by congruence. eauto.
  - intros T rest Hu. destruct (g_undo _ _ Hg _ _ Hu) as (? & x & Hx & ?). eauto 6.
  - intros T Hu. destruct (g_undone _ _ Hg _ Hu) as (x & Hx & ?). eauto.
  - intros T rest Hc. destruct (g_commit _ _ Hg _ _ Hc) as (? & ? & r & w0 & Ho & ?).
    split_and!; [done..|]. exists r, w0. rewrite lookup_insert_ne by congruence. done.
  - intros T Hc. destruct (g_published _ _ Hg _ Hc) as (x & Hx & ?). eauto.
  - intros T x [[-> ->]|Hx]%Hb Hst; [done|]. by apply (g_committed _ _ Hg).
  - intros T HT. destruct (g_done _ _ Hg _ HT) as (x & Hx & ?). eauto.
  - intros T x [[-> ->]|Hx]%Hb Hni; [set_solver|]. destruct (g_gone _ _ Hg _ _ Hx) as [?|[Hst Hle]]; [set_solver|by left|].
    right. split; [done|]. intros T' x' [[-> ->]|Hx']%Hb Ho; [|eauto].
    destruct (g_committed _ _ Hg _ _ Hx Hst) as [? _]. simpl. unfold mlast in *. lia.
  - intros W HW. destruct (g_gc _ _ Hg _ HW) as [? Hle]. split; [done|].
    intros T' x' [[-> ->]|Hx']%Hb Ho; [done|eauto].
  - by apply (wm_inv_begin m a w t' _ Hg HA).
Qed.

(** ** The write list of a transaction *)

(** Write sets name rows of the tables they are filed under. *)
Definition writes_in_tables db (t : Transaction) : Prop :=
  ∀ oid rids rid, write_set_ t !! oid = Some rids → rid ∈ rids → in_table db oid rid.

Lemma elem_of_write_list db t oid rid :
  (oid, rid) ∈ write_list db t ↔
  ∃ rids, write_set_ t !! oid = Some rids ∧ rid ∈ rids ∧ is_Some (db_heaps db !! oid).
Proof.
  unfold write_list. rewrite list_elem_of_bind. split.
  - intros ([o rids] & Hin & Hel%elem_of_map_to_list). destruct (db_heaps db !! o) as [h|] eqn:E; [|set_solver].
    apply list_elem_of_fmap in Hin as (r & [= -> ->] & Hr%elem_of_elements). exists rids. rewrite E. eauto.
  - intros (rids & Hw & Hr & h & Hh). exists (oid, rids). rewrite Hh. split; [|by apply elem_of_map_to_list].
    apply list_elem_of_fmap. exists rid. split; [done|]. by apply elem_of_elements.
Qed.

Lemma write_list_writes db t rid : writes_in_tables db t → rid ∈ (write_list db t).*2 ↔ writes t rid.
Proof.
  intros Hw. rewrite list_elem_of_fmap. split.
  - intros ([o r] & -> & (rids & ? & ? & _)%elem_of_write_list). by exists o, rids.
  - intros (oid & rids & Ho & Hr). exists (oid, rid). split; [done|]. apply elem_of_write_list.
    exists rids. destruct (Hw _ _ _ Ho Hr) as (_ & h & Hh & _). eauto.
Qed.

Lemma write_list_NoDup db t : db_wf db → writes_in_tables db t → NoDup (write_list db t).*2.
Proof.
  intros Hd Hw. apply NoDup_fmap_2_strong.
  - intros [o1 r1] [o2 r2] (s1 & H1 & I1 & _)%elem_of_write_list (s2 & H2 & I2 & _)%elem_of_write_list Heq.
    simpl in Heq. subst r2. f_equal. destruct (Hw _ _ _ H1 I1) as (_ & h1 & Hh1 & Hp1).
    destruct (Hw _ _ _ H2 I2) as (_ & h2 & Hh2 & Hp2). by eapply (dw_disj _ Hd).
  - unfold write_list. apply NoDup_bind.
    + intros [o1 s1] [o2 s2] [o r] H1 H2 I1 I2. apply elem_of_map_to_list in H1, H2.
      assert (∀ o' (s' : gset RID), (o, r) ∈ match db_heaps db !! o' with Some _ => pair o' <$> elements s' | None => [] end → o = o') as Hk.
      { intros o' s'. destruct (db_heaps db !! o'); [|set_solver].
        intros (x & [= -> _] & _)%list_elem_of_fmap. done. }
      apply Hk in I1 as ->. apply Hk in I2 as ->. simplify_eq. done.
    + intros [o ss] _. destruct (db_heaps db !! o); [|constructor].
      apply NoDup_fmap_2; [intros ?? [= ?]; done|apply NoDup_elements].
    + apply NoDup_map_to_list.
Qed.

(** ** Commit *)

Lemma GInv_commit_start m a tid r w rest :
  GInv m a → mc_commit m = None → si_open a !! tid = Some (r, w) → NoDup rest → mlast m + 1 < TXN_START_ID →
  (∀ rid, rid ∈ rest → is_Some (w !! rid)) →
  GInv (mkMachine (mc_db m) (Some (tid, Some rest)) (mc_undo m) (mc_gc m)) a.
Proof.
  intros [] Hn Ho Hnd Hl Hsub. split; try assumption.
  - intros T rest' [= <- <-]. eauto 7.
  - done.
  - destruct g_wm as (regs & ? & Hreg & ?). exists regs. split; [done|]. split; [|done].
    intros T. rewrite Hreg. unfold registered. simpl. rewrite Hn. naive_solver.
Qed.

Lemma GInv_stamped m a tid rid rest db' :
  GInv m a → mc_commit m = Some (tid, Some (rid :: rest)) →
  db_txns db' = mtxns m → db_mgr db' = db_mgr (mc_db m) →
  GInv (mkMachine db' (Some (tid, Some rest)) (mc_undo m) (mc_gc m)) a.
Proof.
  intros [] Hc Htx Hm. split; unfold wm_inv, registered, mlast, mtxns in *; simpl; rewrite ?Htx, ?Hm; try assumption.
  - intros T rest' [= <- <-]. destruct (g_commit _ _ Hc) as ([_ ?]%NoDup_cons & ? & r & w & ? & Hs).
    split_and!; [done..|]. exists r, w. split; [done|]. intros. apply Hs. set_solver.
  - done.
  - destruct g_wm as (regs & ? & Hreg & ?). exists regs. split; [done|]. split; [|done].
    intros T. rewrite Hreg, Hc. naive_solver.
Qed.

Definition si_commit (tid r : Z) (w : gmap RID (option (list byte))) a : SI :=
  mkSI (si_last a + 1)
    (λ ts rid, if decide (ts = si_last a + 1)
               then match w !! rid with Some v => v | None => si_snap a (si_last a) rid end
               else si_snap a ts rid)
    (λ rid, match w !! rid with Some _ => si_last a + 1 | None => si_mod a rid end)
    (delete tid (si_open a)) (<[tid := (r, si_last a + 1, dom w)]> (si_done a)).

Lemma GInv_publish m a tid r w t :
  GInv m a → mc_commit m = Some (tid, Some []) → mtxns m !! tid = Some t → si_open a !! tid = Some (r, w) →
  GInv (mkMachine (publish_commit tid t (mlast m + 1) (mc_db m)) (Some (tid, None)) (mc_undo m) (mc_gc m))
       (si_commit tid r w a).
Proof.
  intros Hg Hc Ht Ho. pose proof (g_last _ _ Hg) as [Hl Ha].
  destruct (g_commit _ _ Hg _ _ Hc) as (_ & Hlt & _).
  destruct (g_open _ _ Hg _ _ _ Ho) as (t0 & Ht0 & Hopen & Hundo & Hr & Hw). simplify_eq.
  destruct (g_txn _ _ Hg _ _ Ht) as (Hid & Hrange & Hread).
  set (t' := set_state COMMITTED (set_commit_ts (mlast m + 1) t)).
  assert (∀ T x, <[tid := t']> (mtxns m) !! T = Some x → (T = tid ∧ x = t') ∨ T ≠ tid ∧ mtxns m !! T = Some x) as Hb.
  { intros T x [[<- <-]|[? ?]]%lookup_insert_Some; auto. }
  assert (∀ T x, T ≠ tid → mtxns m !! T = Some x → <[tid := t']> (mtxns m) !! T = Some x) as Hk.
  { intros T x Hne Hx. by rewrite lookup_insert_ne by congruence. }
  split; change (mtxns (mkMachine _ _ _ _)) with (<[tid := t']> (mtxns m));
    change (mlast (mkMachine _ _ _ _)) with (mlast m + 1); simpl.
  - lia.
  - apply Hg.
  - intros T x [[-> ->]|[Hne Hx]]%Hb; [simpl; lia|]. destruct (g_txn _ _ Hg _ _ Hx) as (? & ? & ?). lia.
  - intros T r0 w0 [Hne Hx]%lookup_delete_Some. destruct (g_open _ _ Hg _ _ _ Hx) as (x & Hx' & ?). eauto.
  - intros T x [[-> ->]|[Hne Hx]]%Hb Hop Hu; [done|]. rewrite lookup_delete_ne by congruence. by eapply (g_open' _ _ Hg).
  - intros T rest Hu. assert (T ≠ tid) by congruence. destruct (g_undo _ _ Hg _ _ Hu) as (? & x & ? & ?). eauto 6.
  - intros T Hu. assert (T ≠ tid) by congruence. destruct (g_undone _ _ Hg _ Hu) as (x & ? & ?). eauto 6.
  - done.
  - intros T [= <-]. exists t'. by rewrite lookup_insert_eq.
  - intros T x [[-> ->]|[Hne Hx]]%Hb Hst.
    + rewrite lookup_insert_eq. simpl. split; [lia|]. exists (dom w). rewrite Ha. split; [done|].
      intros rid. rewrite elem_of_dom, <- Hw. done.
    + destruct (g_committed _ _ Hg _ _ Hx Hst) as (? & Hd). rewrite lookup_insert_ne by congruence. split; [lia|done].
  - intros T. destruct (decide (T = tid)) as [->|Hne]; [intros _; exists t'; by rewrite lookup_insert_eq|].
    rewrite lookup_insert_ne by congruence. intros (x & Hx & ?)%(g_done _ _ Hg). eauto.
  - intros T x [[-> ->]|[Hne Hx]]%Hb Hni; [exfalso; apply Hni; by eapply g_in_map|].
    destruct (g_gone _ _ Hg _ _ Hx Hni) as [?|[Hst Hle]]; [by left|right]. split; [done|].
    intros T' x' [[-> ->]|[Hne' Hx']]%Hb Hop; [done|eauto].
  - intros W HW. destruct (g_gc _ _ Hg _ HW) as [? Hle]. split; [lia|].
    intros T' x' [[-> ->]|[Hne' Hx']]%Hb Hop; [done|eauto].
  - destruct (g_wm _ _ Hg) as (regs & Hnd & Hreg & Hwf & Hlv & Hct). exists regs. split; [done|].
    unfold registered; change (mtxns (mkMachine _ _ _ _)) with (<[tid := t']> (mtxns m));
      change (mlast (mkMachine _ _ _ _)) with (mlast m + 1); simpl. split_and!; [|done| |].
    + intros T. rewrite Hreg. unfold registered. rewrite Hc. split.
      * intros [(x & Hx & Hop)|[?|?]]; [|naive_solver..]. destruct (decide (T = tid)) as [->|]; [by right; left|left; eauto].
      * intros [(x & [[-> ->]|[Hne Hx]]%Hb & Hop)|[[= <-]|?]]; [done|left; eauto..|naive_solver].
    + rewrite (reads_ext (mtxns m)); [done|]. intros T _. unfold read_of.
      destruct (decide (T = tid)) as [->|]; [by rewrite lookup_insert_eq, Ht|by rewrite lookup_insert_ne].
    + lia.
Qed.

(** ** Deregistering from the watermark *)

(** The manager after [deregister]: only the watermark changed. *)
Definition only_watermark db db' : Prop :=
  db_store db' = db_store db ∧ db_heaps db' = db_heaps db ∧ db_txns db' = db_txns db ∧
  version_info_ (db_mgr db') = version_info_ (db_mgr db) ∧ next_txn_id_ (db_mgr db') = next_txn_id_ (db_mgr db) ∧
  last_commit_ts_ (db_mgr db') = last_commit_ts_ (db_mgr db) ∧ txn_map_ (db_mgr db') = txn_map_ (db_mgr db).

Lemma deregister_inv m tid t oc :
  wm_inv m → registered m tid → mtxns m !! tid = Some t → (∀ c, oc = Some c → c = mlast m) →
  ∃ db', deregister t oc (mc_db m) = (Ok tt, db') ∧ only_watermark (mc_db m) db' ∧
    ∀ m', mc_db m' = db' → (∀ T, registered m' T ↔ registered m T ∧ T ≠ tid) → wm_inv m'.
Proof.
  intros (regs & Hnd & Hreg & Hwf & Hlv & Hct) Hr Ht Hoc.
  set (w := running_txns_ (db_mgr (mc_db m))) in *.
  set (w1 := match oc with Some c => UpdateCommitTs c w | None => w end).
  assert (wm_wf w1 ∧ live_reads w1 (reads (mtxns m) regs) ∧ commit_ts_ w1 ≤ mlast m) as (Hwf1 & Hlv1 & Hct1).
  { subst w1. destruct oc as [c|]; [|done]. destruct (UpdateCommitTs_spec w _ c Hwf Hlv).
    rewrite (Hoc c eq_refl) in *. split_and!; [done..|]. simpl. lia. }
  apply Hreg in Hr as Hin. apply list_elem_of_split in Hin as (l1 & l2 & ->).
  assert (reads (mtxns m) (l1 ++ tid :: l2) = {[+ read_ts_ t +]} ⊎ reads (mtxns m) (l1 ++ l2)) as Er.
  { rewrite (reads_perm _ _ (tid :: l1 ++ l2)) by (symmetry; apply Permutation_middle).
    rewrite reads_cons. unfold read_of at 1. by rewrite Ht. }
  rewrite Er in Hlv1.
  destruct (RemoveTxn_spec w1 _ (read_ts_ t) Hwf1 Hlv1) as (w2 & E & Hwf2 & Hlv2 & Hct2); [multiset_solver|].
  unfold deregister. fold w. fold w1. rewrite E. eexists. split; [done|]. split; [done|].
  intros m' Hm' HregI. exists (l1 ++ l2).
  apply NoDup_app in Hnd as (N1 & N2 & [N3 N4]%NoDup_cons).
  unfold mtxns, mlast. rewrite Hm'. simpl. split_and!.
  - apply NoDup_app. split_and!; [done| |done]. set_solver.
  - intros T. rewrite HregI, <- Hreg. set_solver.
  - done.
  - replace ({[+ read_ts_ t +]} ⊎ reads (mtxns m) (l1 ++ l2)) with
      (reads (mtxns m) (l1 ++ l2) ⊎ {[+ read_ts_ t +]}) in Hlv2 by multiset_solver.
    replace (_ ∖ _) with (reads (mtxns m) (l1 ++ l2)) in Hlv2 by multiset_solver. done.
  - unfold mlast in *. lia.
Qed.

Lemma GInv_only_watermark m a db' com und :
  GInv m a → only_watermark (mc_db m) db' → 
  (com = mc_commit m ∨ com = None) →
  (∀ T, und !! T = mc_undo m !! T ∨ (mc_undo m !! T = Some None ∧ und !! T = None)) →
  wm_inv (mkMachine db' com und (mc_gc m)) → GInv (mkMachine db' com und (mc_gc m)) a.
Proof.
  intros [] (_ & _ & Htx & _ & Hn & Hl & Hm) Hcom Hund Hwm.
  assert (∀ T x, und !! T = Some x → mc_undo m !! T = Some x) as Hu1.
  { intros T x HT. destruct (Hund T) as [<-|[_ E]]; congruence. }
  assert (∀ x, com = Some x → mc_commit m = Some x) as Hc1 by (destruct Hcom; congruence).
  split; unfold registered, mlast, mtxns in *; simpl; rewrite ?Htx, ?Hn, ?Hl, ?Hm; try assumption.
  - intros T r w Ho. destruct (g_open T r w Ho) as (t & ? & Hop & Hun & ?). exists t. split_and!; [done..| |naive_solver|naive_solver].
    destruct (Hund T) as [->|[E _]]; [done|congruence].
  - intros T t Ht Hop Hu. destruct (Hund T) as [E|[E _]]; [rewrite E in Hu; eauto|].
    destruct (g_undone _ E) as (t' & Ht' & Ha). destruct (open_not_done _ Hop). congruence.
  - intros T rest HT. apply Hu1 in HT. eauto.
  - intros T HT. apply Hu1 in HT. eauto.
  - intros T rest HT. apply Hc1 in HT. eauto.
  - intros T HT. apply Hc1 in HT. eauto.
Qed.

Lemma GInv_commit_end m a tid t db' :
  GInv m a → mc_commit m = Some (tid, None) → mtxns m !! tid = Some t →
  deregister t (Some (mlast m)) (mc_db m) = (Ok tt, db') →
  only_watermark (mc_db m) db' ∧ GInv (mkMachine db' None (mc_undo m) (mc_gc m)) a.
Proof.
  intros Hg Hc Ht HD. destruct (g_published _ _ Hg _ Hc) as (t0 & Ht0 & Hst). simplify_eq.
  destruct (deregister_inv m tid t (Some (mlast m)) (g_wm _ _ Hg)) as (db1 & E & How & Hwm);
    [by right; left|done|naive_solver|].
  rewrite E in HD. injection HD as ->. split; [done|].
  apply GInv_only_watermark; [done|done|by right|by left|]. apply Hwm; [done|].
  pose proof How as (_ & _ & Htx & _). intros T. unfold registered, mtxns in *. simpl. rewrite Htx, Hc.
  split.
  - intros [(x & Hx & Hop)|[?|Hu]]; [|done|].
    + split; [by left; eauto|]. intros ->. simplify_eq. unfold is_open in Hop. by rewrite Hst in Hop.
    + split; [by auto|]. intros ->. destruct (g_undone _ _ Hg _ Hu) as (? & ? & ?). unfold mtxns in *. congruence.
  - naive_solver.
Qed.

Lemma GInv_abort_end m a tid t db' :
  GInv m a → mc_undo m !! tid = Some None → mtxns m !! tid = Some t →
  deregister t None (mc_db m) = (Ok tt, db') →
  only_watermark (mc_db m) db' ∧ GInv (mkMachine db' (mc_commit m) (delete tid (mc_undo m)) (mc_gc m)) a.
Proof.
  intros Hg Hu Ht HD. destruct (g_undone _ _ Hg _ Hu) as (t0 & Ht0 & Hst). simplify_eq.
  destruct (deregister_inv m tid t None (g_wm _ _ Hg)) as (db1 & E & How & Hwm);
    [by right; right|done|done|].
  rewrite E in HD. injection HD as ->. split; [done|].
  apply GInv_only_watermark; [done|done|by left| |].
  { intros T. destruct (decide (tid = T)) as [<-|]; [right; by rewrite lookup_delete_eq|left; by rewrite lookup_delete_ne]. }
  apply Hwm; [done|].
  pose proof How as (_ & _ & Htx & _). intros T. unfold registered, mtxns in *. simpl. rewrite Htx, lookup_delete_Some.
  split.
  - intros [(x & Hx & Hop)|[Hc|[Hne HT]]]; [| |by auto].
    + split; [by left; eauto|]. intros ->. simplify_eq. unfold is_open in Hop. by rewrite Hst in Hop.
    + split; [by auto|]. intros ->. destruct (g_published _ _ Hg _ Hc) as (? & ? & ?). unfold mtxns in *. congruence.
  - intros [[?|[?|?]] Hne]; auto.
Qed.

(** ** Abort *)

Definition si_abort (tid : Z) a : SI :=
  mkSI (si_last a) (si_snap a) (si_mod a) (delete tid (si_open a)) (si_done a).

Lemma GInv_abort_start m a tid t rest :
  GInv m a → mtxns m !! tid = Some t → is_open t = true → ¬ finalizing m tid → NoDup rest →
  GInv (mkMachine (mc_db m) (mc_commit m) (<[tid := Some rest]> (mc_undo m)) (mc_gc m)) (si_abort tid a).
Proof.
  intros Hg Ht Hop Hnf Hnd. pose proof Hg as []. split; try assumption; simpl.
  - intros T r w [Hne Ho]%lookup_delete_Some. destruct (g_open _ _ _ Ho) as (x & ? & ? & ? & ?).
    exists x. rewrite lookup_insert_ne by done. done.
  - intros T x Hx Hox. rewrite lookup_insert_None. intros [Hu Hne]. rewrite lookup_delete_ne by done. eauto.
  - intros T rest' [[<- [= <-]]|[Hne HT]]%lookup_insert_Some; eauto.
  - intros T [[<- [=]]|[Hne HT]]%lookup_insert_Some. eauto.
  - intros T rest' HT. destruct (g_commit _ _ HT) as (? & ? & r & w & ? & ?). split_and!; [done..|]. exists r, w.
    rewrite lookup_delete_ne; [done|]. intros ->. apply Hnf. left. eauto.
  - destruct g_wm as (regs & ? & Hreg & ?). exists regs. split; [done|]. split; [|done].
    intros T. rewrite Hreg. unfold registered. simpl. rewrite lookup_insert_Some.
    split; [|naive_solver]. intros [?|[?|Hu]]; [naive_solver..|]. right; right. right. split; [|done].
    intros ->. apply Hnf. right. eauto.
Qed.

Lemma GInv_rolled_back m a tid rid rest db' :
  GInv m a → mc_undo m !! tid = Some (Some (rid :: rest)) →
  db_txns db' = mtxns m → mgr_core (db_mgr db') = mgr_core (db_mgr (mc_db m)) →
  GInv (mkMachine db' (mc_commit m) (<[tid := Some rest]> (mc_undo m)) (mc_gc m)) a.
Proof.
  intros Hg Hu Htx Hm. injection Hm as En El Em Ew. pose proof Hg as [].
  destruct (g_undo _ _ Hu) as (Hnd & t & Ht & Hop).
  split; unfold wm_inv, registered, mlast, mtxns in *; simpl; rewrite ?Htx, ?En, ?El, ?Em, ?Ew; try assumption.
  - intros T r w Ho. destruct (g_open _ _ _ Ho) as (x & ? & ? & ? & ?). exists x.
    rewrite lookup_insert_ne by congruence. done.
  - intros T x Hx Hox [HT _]%lookup_insert_None. eauto.
  - intros T rest' [[<- [= <-]]|[Hne HT]]%lookup_insert_Some; [|eauto].
    apply NoDup_cons in Hnd as [_ ?]. eauto.
  - intros T [[<- [=]]|[Hne HT]]%lookup_insert_Some. eauto.
  - destruct g_wm as (regs & ? & Hreg & ?). exists regs. split; [done|]. split; [|done].
    intros T. rewrite Hreg, lookup_insert_Some. naive_solver.
Qed.

Lemma GInv_aborted m a tid t :
  GInv m a → mc_undo m !! tid = Some (Some []) → mtxns m !! tid = Some t →
  GInv (mkMachine (with_txn tid (set_state ABORTED t) (mc_db m)) (mc_commit m) (<[tid := None]> (mc_undo m)) (mc_gc m)) a.
Proof.
  intros Hg Hu Ht. destruct (g_undo _ _ Hg _ _ Hu) as (_ & t0 & Ht0 & Hop). simplify_eq.
  destruct (open_not_done _ Hop) as [Hnc Hna]. set (t' := set_state ABORTED t).
  assert (∀ T x, <[tid := t']> (mtxns m) !! T = Some x → (T = tid ∧ x = t') ∨ T ≠ tid ∧ mtxns m !! T = Some x) as Hb.
  { intros T x [[<- <-]|[? ?]]%lookup_insert_Some; auto. }
  assert (∀ T x, T ≠ tid → mtxns m !! T = Some x → <[tid := t']> (mtxns m) !! T = Some x) as Hk.
  { intros T x Hne Hx. by rewrite lookup_insert_ne by congruence. }
  assert (∀ T x, mtxns m !! T = Some x → state_ x = COMMITTED → T ≠ tid) as Hk' by (intros ? ? ? ? ->; congruence).
  split; change (mtxns (mkMachine _ _ _ _)) with (<[tid := t']> (mtxns m));
    change (mlast (mkMachine _ _ _ _)) with (mlast m); simpl.
  - apply Hg.
  - apply Hg.
  - intros T x [[-> ->]|[Hne Hx]]%Hb; [apply (g_txn _ _ Hg _ _ Ht)|by apply (g_txn _ _ Hg)].
  - intros T r w Ho. destruct (g_open _ _ Hg _ _ _ Ho) as (x & Hx & ? & ? & ?). assert (T ≠ tid) by congruence.
    exists x. rewrite !lookup_insert_ne by congruence. done.
  - intros T x [[-> ->]|[Hne Hx]]%Hb Ho [HT _]%lookup_insert_None; [done|]. by eapply (g_open' _ _ Hg).
  - intros T rest [[<- [=]]|[Hne HT]]%lookup_insert_Some. destruct (g_undo _ _ Hg _ _ HT) as (? & x & ? & ?). eauto.
  - intros T [[<- _]|[Hne HT]]%lookup_insert_Some; [exists t'; by rewrite lookup_insert_eq|].
    destruct (g_undone _ _ Hg _ HT) as (x & ? & ?). eauto.
  - apply Hg.
  - intros T HT. destruct (g_published _ _ Hg _ HT) as (x & Hx & ?). eauto.
  - intros T x [[-> ->]|[Hne Hx]]%Hb Hst; [done|]. by apply (g_committed _ _ Hg).
  - intros T HT. destruct (g_done _ _ Hg _ HT) as (x & ? & ?). eauto.
  - intros T x [[-> ->]|[Hne Hx]]%Hb Hni; [by left|].
    destruct (g_gone _ _ Hg _ _ Hx Hni) as [?|[Hst Hle]]; [by left|right]. split; [done|].
    intros T' x' [[-> ->]|[Hne' Hx']]%Hb Ho; [done|eauto].
  - intros W HW. destruct (g_gc _ _ Hg _ HW) as [? Hle]. split; [done|].
    intros T' x' [[-> ->]|[Hne' Hx']]%Hb Ho; [done|eauto].
  - destruct (g_wm _ _ Hg) as (regs & Hnd & Hreg & Hwf & Hlv & Hct). exists regs. split; [done|].
    unfold registered; change (mtxns (mkMachine _ _ _ _)) with (<[tid := t']> (mtxns m)); simpl. split_and!; [|done| |done].
    + intros T. rewrite Hreg. unfold registered. rewrite lookup_insert_Some. split.
      * intros [(x & Hx & Ho)|[?|HT]]; [|naive_solver|].
        -- destruct (decide (T = tid)) as [->|]; [by right; right; left|left; eauto].
        -- right; right; right. split; [congruence|done].
      * intros [(x & [[-> ->]|[Hne Hx]]%Hb & Ho)|[?|[[<- _]|[_ ?]]]]; [done|left; eauto|naive_solver|left; eauto|naive_solver].
    + rewrite (reads_ext (mtxns m)); [done|]. intros T _. unfold read_of.
      destruct (decide (T = tid)) as [->|]; [by rewrite lookup_insert_eq, Ht|by rewrite lookup_insert_ne].
Qed.

(** ** Garbage collection *)

Lemma GInv_watermark m a :
  GInv m a → GInv (mkMachine (mc_db m) (mc_commit m) (mc_undo m) (Some (mgr_GetWatermark (mc_db m)))) a.
Proof.
  intros Hg. pose proof Hg as []. split; try assumption. intros W [= <-]. unfold mgr_GetWatermark.
  destruct g_wm as (regs & Hnd & Hreg & Hwf & Hlv & Hct). pose proof (GetWatermark_spec _ _ Hwf Hlv) as HW.
  assert (∀ tid t, mtxns m !! tid = Some t → is_open t = true → read_ts_ t ∈ reads (mtxns m) regs) as Hin.
  { intros tid t Ht Ho. replace (read_ts_ t) with (read_of (mtxns m) tid) by (unfold read_of; by rewrite Ht).
    apply reads_elem, Hreg. left. eauto. }
  destruct (decide (reads (mtxns m) regs = ∅)) as [He|Hne].
  - rewrite HW. split; [done|]. intros tid t Ht Ho. specialize (Hin tid t Ht Ho). rewrite He in Hin. multiset_solver.
  - destruct HW as [HW1 HW2]. split; [|intros tid t Ht Ho; apply HW2; by eapply Hin].
    apply reads_elem_inv in HW1 as (T & _ & ->). unfold read_of.
    destruct (mtxns m !! T) as [t|] eqn:E; [|apply g_last].
    destruct (g_txn _ _ E) as (_ & _ & [_ ?]). done.
Qed.

Lemma GInv_reclaim m a W :
  GInv m a → mc_gc m = Some W → GInv (mkMachine (reclaim W (mc_db m)).2 (mc_commit m) (mc_undo m) None) a.
Proof.
  intros Hg HW. pose proof Hg as []. split; try assumption; [|done].
  simpl. intros tid t Ht Hni. unfold mtxns in *. simpl in Ht.
  destruct (decide (tid ∈ txn_map_ (db_mgr (mc_db m)))) as [Hin|Hout]; [|by eapply g_gone].
  assert (tid ∈ filter (λ T, txn_is (collectible W) (mc_db m) T = true) (txn_map_ (db_mgr (mc_db m)))) as Hd.
  { apply dec_stable. set_solver. }
  apply elem_of_filter in Hd as [Hd _]. unfold txn_is, collectible in Hd. rewrite Ht in Hd.
  destruct (g_gc _ HW) as [_ Hle]. destruct (state_ t); [done|done| |by left]. right. split; [done|].
  apply bool_decide_eq_true in Hd. intros T' t' Ht' Ho'. specialize (Hle _ _ Ht' Ho'). lia.
Qed.
End steps.
