(* ===== verification/Simulation.v ===== *)
(** * The engine implements snapshot isolation

    [Inv] couples the interleaved machine of [SnapshotSpec.v] with the abstract database: storage
    invariant, transaction invariant, and the versioning invariant of every row.  Every step of the
    machine keeps it while the abstract database does nothing or takes one of its own steps. *)

From S2P Require Import Prelude TablePage TableHeap Watermark Transaction Mvcc RowInvariant SnapshotSpec MachineInvariant MachineSteps.

Section sim.
Context {P : Type} `{!RowPage P, !RowPageLaws P}.
Implicit Types (db : Db P) (m : Machine P) (a : SI) (mt : TupleMeta).

Definition row_ok m a (rid : RID) : Prop :=
  row_inv (mtxns m) (mlast m) (claimed m a rid) (λ ts, si_snap a ts rid) (si_mod a rid)
    (db_row (mc_db m) rid) (GetUndoLink rid (mc_db m)).

Record Inv m a : Prop := {
  inv_db : db_wf (mc_db m);
  inv_g : GInv m a;
  inv_writes : ∀ tid t, mtxns m !! tid = Some t → writes_in_tables (mc_db m) t;
  inv_rows : ∀ rid, row_ok m a rid
}.

(** ** Claims *)

Definition written a (tid : Z) (rid : RID) (v : option (list byte)) : Prop :=
  ∃ r w, si_open a !! tid = Some (r, w) ∧ w !! rid = Some v.
Definition undoing m (tid : Z) (rid : RID) : Prop :=
  ∃ rest, mc_undo m !! tid = Some (Some rest) ∧ rid ∈ rest.

Lemma claimed_iff m a rid tid v s :
  claimed m a rid tid v s ↔
  (∃ x, v = Some x ∧ s = stamp m tid rid ∧ written a tid rid x) ∨ (v = None ∧ s = tid ∧ undoing m tid rid).
Proof.
  split.
  - destruct 1; [left|right]; unfold written, undoing; eauto 8.
  - intros [(x & -> & -> & r & w & ? & ?)|(-> & -> & rest & ? & ?)]; [by eapply cl_write|by eapply cl_undo].
Qed.

Lemma same_claims_congr m a m' a' rid :
  (∀ tid v, written a tid rid v ↔ written a' tid rid v) →
  (∀ tid v, written a tid rid v → stamp m' tid rid = stamp m tid rid) →
  (∀ tid, undoing m tid rid ↔ undoing m' tid rid) →
  same_claims (claimed m a rid) (claimed m' a' rid).
Proof.
  intros Hw Hs Hu tid v s. rewrite !claimed_iff. split.
  - intros [(x & -> & -> & H)|(-> & -> & H)]; [left|right; split_and!; [done..|by apply Hu]].
    exists x. rewrite (Hs _ _ H), <- Hw. done.
  - intros [(x & -> & -> & H%Hw)|(-> & -> & H%Hu)]; [left|by right].
    exists x. rewrite (Hs _ _ H). done.
Qed.

(** The database changes and nothing else of the machine. *)
Lemma stamp_with_db m db' tid rid :
  last_commit_ts_ (db_mgr db') = mlast m → stamp (with_db db' m) tid rid = stamp m tid rid.
Proof. intros E. unfold stamp, mlast. simpl. by rewrite E. Qed.
Lemma undoing_with_db m db' tid rid : undoing (with_db db' m) tid rid ↔ undoing m tid rid.
Proof. done. Qed.

Lemma stamp_not_committing m tid rid : (∀ ph, mc_commit m ≠ Some (tid, ph)) → stamp m tid rid = tid.
Proof.
  intros H. unfold stamp. destruct (mc_commit m) as [[c [rest|]]|]; [|done..].
  rewrite decide_False; [done|]. intros [-> _]. by eapply H.
Qed.

Lemma stamp_congr m m' tid rid : mc_commit m' = mc_commit m → mlast m' = mlast m → stamp m' tid rid = stamp m tid rid.
Proof. unfold stamp. by intros -> ->. Qed.

(** ** Steps that touch one transaction and leave rows and claims alone *)

Lemma row_ok_frame m a m' a' rid :
  txns_le (mtxns m) (mtxns m') → mlast m' = mlast m →
  same_claims (claimed m a rid) (claimed m' a' rid) → 
  (∀ ts, si_snap a' ts rid = si_snap a ts rid) → si_mod a' rid = si_mod a rid →
  db_row (mc_db m') rid = db_row (mc_db m) rid → GetUndoLink rid (mc_db m') = GetUndoLink rid (mc_db m) →
  row_ok m a rid → row_ok m' a' rid.
Proof.
  intros Htx Hl Hcl Hsn Hmd Hro Hlk H. unfold row_ok in *. rewrite Hl, Hmd, Hro, Hlk.
  apply (row_inv_frame _ _ _ _ _ _ _ _ _ Htx Hcl) in H.
  destruct H; [apply ri_none|eapply ri_committed|eapply ri_pending]; eauto; intros; rewrite Hsn; auto.
Qed.

Lemma lookup_writes_in_tables m a tid t' db' :
  Inv m a → (∀ o rid, in_table (mc_db m) o rid → in_table db' o rid) → writes_in_tables db' t' →
  ∀ T x, <[tid := t']> (mtxns m) !! T = Some x → writes_in_tables db' x.
Proof.
  intros HI Hm Ht' T x [[<- <-]|[_ Hx]]%lookup_insert_Some; [done|].
  intros oid rids rid Ho Hr. apply Hm. by eapply (inv_writes _ _ HI T x).
Qed.

Lemma touched_none a tid t t' : (∀ rid, writes t' rid ↔ writes t rid) → touched a a tid t t'.
Proof. intros H. split_and!; [done..|]. by left. Qed.

Lemma Inv_touch m a tid t t' db' :
  Inv m a → mtxns m !! tid = Some t → similar t t' → txn_le t t' → write_set_ t' = write_set_ t →
  db_txns db' = <[tid := t']> (mtxns m) → db_store db' = db_store (mc_db m) → db_heaps db' = db_heaps (mc_db m) →
  db_mgr db' = db_mgr (mc_db m) → Inv (with_db db' m) a.
Proof.
  intros HI Ht Hs Hle Hws Htx Hst Hh Hm.
  assert (∀ o rid, in_table (mc_db m) o rid → in_table db' o rid) as Hin by (unfold in_table; by rewrite Hh).
  split.
  - destruct (inv_db _ _ HI). split; simpl; rewrite ?Hst, ?Hh; done.
  - eapply GInv_touch; eauto; [apply HI|by rewrite Hm|]. apply touched_none. intros rid. unfold writes. by rewrite Hws.
  - unfold mtxns. simpl. rewrite Htx. eapply lookup_writes_in_tables; eauto.
    intros oid rids rid. rewrite Hws. intros. apply Hin. by eapply (inv_writes _ _ HI tid t).
  - intros rid. eapply row_ok_frame; [..|apply (inv_rows _ _ HI)]; try done.
    + unfold mtxns. simpl. rewrite Htx. by eapply txns_le_insert.
    + unfold mlast. simpl. by rewrite Hm.
    + apply same_claims_congr; [done| |done]. intros. apply stamp_congr; [done|]. unfold mlast. simpl. by rewrite Hm.
    + by apply db_row_ext.
    + unfold GetUndoLink. simpl. by rewrite Hm.
Qed.

(** ** Writing a row *)

Definition si_write (tid r : Z) (w : gmap RID (option (list byte))) (rid : RID) (v : option (list byte)) a : SI :=
  mkSI (si_last a) (si_snap a) (si_mod a) (<[tid := (r, <[rid := v]> w)]> (si_open a)) (si_done a).

Lemma written_write a tid r w rid v T rid' x :
  si_open a !! tid = Some (r, w) →
  written (si_write tid r w rid v a) T rid' x ↔
  (T = tid ∧ rid' = rid ∧ x = v) ∨ ((T ≠ tid ∨ rid' ≠ rid) ∧ written a T rid' x).
Proof.
  intros Ho. unfold written; simpl. split.
  - intros (r0 & w0 & [[<- [= <- <-]]|[Hne H0]]%lookup_insert_Some & Hw0); [|right; split; [by left|eauto]].
    apply lookup_insert_Some in Hw0 as [[<- <-]|[Hne Hw0]]; [by left|right; split; [by right|eauto]].
  - intros [(-> & -> & ->)|(Hne & r0 & w0 & H0 & Hw0)].
    + exists r, (<[rid := v]> w). by rewrite !lookup_insert_eq.
    + destruct (decide (tid = T)) as [<-|HT].
      * exists r, (<[rid := v]> w). rewrite lookup_insert_eq. simplify_eq. split; [done|].
        rewrite lookup_insert_ne; [done|]. naive_solver.
      * exists r0, w0. by rewrite lookup_insert_ne.
Qed.

Lemma claimed_by_write m a db' tid r w rid v :
  si_open a !! tid = Some (r, w) → mc_undo m !! tid = None → (∀ ph, mc_commit m ≠ Some (tid, ph)) →
  last_commit_ts_ (db_mgr db') = mlast m → (∀ T x s, claimed m a rid T x s → T = tid) →
  claimed_by (claimed (with_db db' m) (si_write tid r w rid v a) rid) tid (Some v) tid.
Proof.
  intros Ho Hu Hc Hl Huniq. split.
  - apply claimed_iff. left. exists v. rewrite stamp_not_committing by done. split_and!; [done..|].
    apply written_write; [done|by left].
  - intros T x s [(y & -> & -> & Hw)|(-> & -> & Hun)]%claimed_iff.
    + rewrite written_write in Hw by done. destruct Hw as [(-> & _ & ->)|([Hne|Hne] & Hw)]; [by rewrite stamp_not_committing| |done].
      exfalso. apply Hne. eapply Huniq. apply claimed_iff. left. eauto.
    + exfalso. assert (T = tid) as ->; [|destruct Hun as (? & ? & _); simpl in *; congruence].
      eapply Huniq. apply claimed_iff. right. eauto.
Qed.

Record write_ctx m a (tid : Z) (t : Transaction) (r : Z) (w : gmap RID (option (list byte))) : Prop := {
  wc_txn : mtxns m !! tid = Some t;
  wc_open : si_open a !! tid = Some (r, w);
  wc_is_open : is_open t = true;
  wc_undo : mc_undo m !! tid = None;
  wc_commit : ∀ ph, mc_commit m ≠ Some (tid, ph);
  wc_read : read_ts_ t = r;
  wc_writes : ∀ rid, writes t rid ↔ is_Some (w !! rid)
}.

Lemma active_ctx m a tid t : Inv m a → active m tid t → ∃ r w, write_ctx m a tid t r w.
Proof.
  intros HI (Ht & Hrun & Hnf). assert (is_open t = true) as Ho by (unfold is_open; by rewrite Hrun).
  assert (mc_undo m !! tid = None) as Hu.
  { destruct (mc_undo m !! tid) eqn:E; [|done]. exfalso. apply Hnf. right. eauto. }
  destruct (g_open' _ _ (inv_g _ _ HI) _ _ Ht Ho Hu) as [[r w] Hop]. exists r, w.
  destruct (g_open _ _ (inv_g _ _ HI) _ _ _ Hop) as (t0 & Ht0 & _ & _ & Hr & Hw).
  unfold mtxns in *. simplify_eq. split; try done. intros ph Hc. apply Hnf. left. eauto.
Qed.

(** Everything but the written row. *)
Lemma Inv_write m a tid t t' rid y db' r w :
  Inv m a → write_ctx m a tid t r w → similar t t' → txn_le t t' →
  (∀ rid', writes t' rid' ↔ rid' = rid ∨ writes t rid') → writes_in_tables db' t' →
  db_txns db' = <[tid := t']> (mtxns m) → mgr_core (db_mgr db') = mgr_core (db_mgr (mc_db m)) →
  db_wf db' → (∀ o rid, in_table (mc_db m) o rid → in_table db' o rid) →
  (∀ rid', db_row db' rid' = if decide (rid = rid') then Some y else db_row (mc_db m) rid') →
  (∀ rid', rid ≠ rid' → GetUndoLink rid' db' = GetUndoLink rid' (mc_db m)) →
  let a' := si_write tid r w rid (meta_val y.1 y.2) a in
  row_ok (with_db db' m) a' rid → Inv (with_db db' m) a'.
Proof.
  intros HI Hwc Hs Hle Hws Hwt Htx Hcore Hwf Hin Hrow Hlk a' Hrid.
  pose proof Hcore as [= _ El _ _]. split; [done| | |].
  - eapply GInv_touch; [apply HI|apply Hwc|..]; try done. split_and!; [done..| |].
    + intros T HT. simpl. by rewrite lookup_insert_ne by done.
    + right. exists r, w, (<[rid := meta_val y.1 y.2]> w). split_and!; [apply Hwc|simpl; by rewrite lookup_insert_eq|..].
      * intros rid' ?. destruct (decide (rid = rid')) as [<-|]; [rewrite lookup_insert_eq; eauto|by rewrite lookup_insert_ne].
      * intros rid'. rewrite Hws, (wc_writes _ _ _ _ _ _ Hwc), lookup_insert_is_Some. destruct (decide (rid = rid')); naive_solver.
  - unfold mtxns. simpl. rewrite Htx. by eapply lookup_writes_in_tables.
  - intros rid'. destruct (decide (rid = rid')) as [<-|Hne]; [done|].
    eapply row_ok_frame; [..|apply (inv_rows _ _ HI)]; try done.
    + unfold mtxns. simpl. rewrite Htx. eapply txns_le_insert; [apply Hwc|done].
    + apply same_claims_congr; [|intros; by apply stamp_with_db|done].
      intros T v. subst a'. rewrite written_write by apply Hwc. naive_solver.
    + simpl. rewrite Hrow. by rewrite decide_False.
    + by apply Hlk.
Qed.

Lemma si_write_step a tid r w rid v m :
  si_open a !! tid = Some (r, w) → (∀ T x s, claimed m a rid T x s → T = tid) → si_mod a rid ≤ r →
  si_step a (si_write tid r w rid v a).
Proof.
  intros Ho Hu Hm. apply SIWrite; [done| |done]. intros T r' w' HT Hne.
  destruct (w' !! rid) as [x|] eqn:E; [|done]. exfalso. apply Hne. eapply Hu. by eapply cl_write.
Qed.

(** A base tuple that carries the writer's own temporary timestamp is its own claim. *)
Lemma own_row m a tid t r w rid mt old :
  Inv m a → write_ctx m a tid t r w → db_row (mc_db m) rid = Some (mt, old) → ts_ mt = tid →
  (∃ v, claimed m a rid tid (Some v) tid) ∧ (∀ T x s, claimed m a rid T x s → T = tid) ∧ si_mod a rid ≤ r.
Proof.
  intros HI Hwc Hrow Hts. pose proof (inv_g _ _ HI) as Hg.
  destruct (g_txn _ _ Hg _ _ (wc_txn _ _ _ _ _ _ Hwc)) as (_ & ? & ?). pose proof (g_last _ _ Hg) as [? _].
  pose proof (inv_rows _ _ HI rid) as Hr. unfold row_ok in Hr. rewrite Hrow in Hr.
  inversion Hr as [|? ? ? ? _ _ Hm|? ? ? vs T v [Hc Hu] _ _ _ Hmd Hp]; subst; [lia|].
  assert (T = ts_ mt) as ->.
  { destruct (claimed_stamp _ _ _ _ _ _ Hg Hc) as [_ [?|(? & ? & _)]]; [done|lia]. }
  split_and!.
  - apply claimed_iff in Hc as Hc'. destruct Hc' as [(x & -> & _)|(_ & _ & rest & Hun & _)]; [eauto|].
    pose proof (wc_undo _ _ _ _ _ _ Hwc). congruence.
  - intros T x s HT. by destruct (Hu _ _ _ HT).
  - rewrite Hmd. eapply pending_chain_bound; [by eapply g_after_snapshot| |..|exact Hp].
    + intros t' Ht'. pose proof (wc_txn _ _ _ _ _ _ Hwc). pose proof (wc_read _ _ _ _ _ _ Hwc). simplify_eq. lia.
    + pose proof (wc_read _ _ _ _ _ _ Hwc). lia.
Qed.

(** A committed base no newer than the writer's snapshot is claimed by nobody. *)
Lemma free_row m a tid t r w rid mt old :
  Inv m a → write_ctx m a tid t r w → db_row (mc_db m) rid = Some (mt, old) → ts_ mt ≤ read_ts_ t →
  unclaimed (claimed m a rid) ∧ si_mod a rid ≤ r ∧ short old.
Proof.
  intros HI Hwc Hrow Hts. pose proof (inv_g _ _ HI) as Hg.
  destruct (g_txn _ _ Hg _ _ (wc_txn _ _ _ _ _ _ Hwc)) as (_ & _ & Hread).
  pose proof (inv_rows _ _ HI rid) as Hr. unfold row_ok in Hr. rewrite Hrow in Hr.
  inversion Hr as [|? ? ? ? Hu ? Hm ? Hmd|? ? ? vs T v [Hc Hu] _ _ _ Hmd Hp]; subst.
  - rewrite Hmd. pose proof (wc_read _ _ _ _ _ _ Hwc). split_and!; [done|lia|done].
  - destruct (claimed_stamp _ _ _ _ _ _ Hg Hc). lia.
Qed.

Lemma row_short m a rid mt old : Inv m a → db_row (mc_db m) rid = Some (mt, old) → short old.
Proof.
  intros HI Hrow. pose proof (inv_rows _ _ HI rid) as Hr. unfold row_ok in Hr. rewrite Hrow in Hr. by inversion Hr.
Qed.

Lemma writes_append oid rid t rid' : writes (AppendWriteSet oid rid t) rid' ↔ rid' = rid ∨ writes t rid'.
Proof.
  unfold writes, AppendWriteSet; simpl. split.
  - intros (o & rids & [[<- <-]|[Hne Ho]]%lookup_insert_Some & Hin); [|right; eauto].
    apply elem_of_union in Hin as [?%elem_of_singleton|Hin]; [by left|right].
    destruct (write_set_ t !! oid) as [s|] eqn:E; simpl in Hin; [eauto|set_solver].
  - intros [->|(o & rids & Ho & Hin)].
    + eexists oid, _. rewrite lookup_insert_eq. split; [done|set_solver].
    + destruct (decide (oid = o)) as [<-|Hne].
      * eexists oid, _. rewrite lookup_insert_eq, Ho. split; [done|set_solver].
      * exists o, rids. by rewrite lookup_insert_ne.
Qed.

Lemma writes_in_tables_append db db' oid rid t :
  writes_in_tables db t → (∀ o r, in_table db o r → in_table db' o r) → in_table db' oid rid →
  writes_in_tables db' (AppendWriteSet oid rid t).
Proof.
  intros Hw Hin Hrid o rids r. unfold AppendWriteSet; simpl.
  intros [[<- <-]|[Hne Ho]]%lookup_insert_Some Hr; [|eauto].
  apply elem_of_union in Hr as [->%elem_of_singleton|Hr]; [done|].
  destruct (write_set_ t !! oid) eqn:E; simpl in Hr; [eauto|set_solver].
Qed.

Lemma new_version_short del old new n : short old → n < 2 ^ 16 → 0 ≤ n → short (new_version del old new n).
Proof. unfold short, new_version. intros. destruct del; [done|]. rewrite length_take. lia. Qed.

Lemma similar_append_write oid rid t : similar t (AppendWriteSet oid rid t) ∧ txn_le t (AppendWriteSet oid rid t).
Proof. split; [done|]. split_and!; done. Qed.

Lemma AppendUndoLog_spec log t link t1 :
  AppendUndoLog log t = (link, t1) →
  similar t t1 ∧ txn_le t t1 ∧ write_set_ t1 = write_set_ t ∧ prev_txn_ link = txn_id_ t ∧
  txn_GetUndoLog (prev_log_idx_ link) t1 = Some log.
Proof.
  intros [= <- <-]. split; [done|]. split_and!; [|done|done|].
  { split; [done|]. split; [|done]. simpl. by apply prefix_app_r. }
  unfold txn_GetUndoLog; simpl. rewrite bool_decide_true by lia. rewrite Nat2Z.id.
  by rewrite lookup_app_r, Nat.sub_diag by done.
Qed.

Definition simulated m a m' : Prop := ∃ a', (a' = a ∨ si_step a a') ∧ Inv m' a'.

Lemma row_put_tables rid y db db' : row_put rid y db db' → (∀ o r, in_table db o r → in_table db' o r).
Proof. intros (st & -> & _) o r. done. Qed.

(** Branch 1 of [ApplyMvccModify]. *)
Lemma sim_own m a tid t r w oid rid mt old y db1 :
  Inv m a → write_ctx m a tid t r w → in_table (mc_db m) oid rid → db_row (mc_db m) rid = Some (mt, old) →
  ts_ mt = tid → row_put rid y (mc_db m) db1 → ts_ y.1 = tid → short y.2 →
  simulated m a (with_db (with_txn tid (AppendWriteSet oid rid t) db1) m).
Proof.
  intros HI Hwc Hin Hrow Hts Hput Hy Hs. pose proof Hput as (st & -> & Hwf & Hrows).
  destruct (own_row _ _ _ _ _ _ _ _ _ HI Hwc Hrow Hts) as ([v Hv] & Hu & Hmd).
  destruct (similar_append_write oid rid t) as [Hsim Hle].
  exists (si_write tid r w rid (meta_val y.1 y.2) a). split; [right; eapply si_write_step; eauto; apply Hwc|].
  eapply Inv_write; eauto.
  - apply writes_append.
  - eapply writes_in_tables_append; eauto. apply (inv_writes _ _ HI tid). apply Hwc.
  - by destruct Hwf.
  - pose proof (inv_rows _ _ HI rid) as Hr. unfold row_ok in *. simpl. rewrite Hrow in Hr.
    rewrite (db_row_ext (with_store st (mc_db m))), Hrows, decide_True by done. destruct y as [m1 row1].
    eapply row_inv_rewrite; [exact Hr|by rewrite Hts| | |done].
    + eapply txns_le_insert; [apply Hwc|done].
    + simpl in Hy. rewrite Hy. apply claimed_by_write; try done; apply Hwc.
Qed.

(** Branch 2 of [ApplyMvccModify]. *)
Lemma sim_version m a tid t r w oid rid mt old y link t1 db1 :
  Inv m a → write_ctx m a tid t r w → in_table (mc_db m) oid rid → db_row (mc_db m) rid = Some (mt, old) →
  ts_ mt ≤ read_ts_ t → AppendUndoLog (pre_image rid mt old (mc_db m)) t = (link, t1) →
  row_put rid y (with_txn tid t1 (mc_db m)) db1 → ts_ y.1 = tid → short y.2 →
  simulated m a (with_db (with_txn tid (AppendWriteSet oid rid t1) (UpdateUndoLink rid (Some link) None db1).2) m).
Proof.
  intros HI Hwc Hin Hrow Hts HA Hput Hy Hs. pose proof Hput as (st & -> & Hwf & Hrows).
  destruct (free_row _ _ _ _ _ _ _ _ _ HI Hwc Hrow Hts) as (Hu & Hmd & Hso).
  destruct (AppendUndoLog_spec _ _ _ _ HA) as (Hsim & Hle & Hws & Hpl & Hlog).
  destruct (g_txn _ _ (inv_g _ _ HI) _ _ (wc_txn _ _ _ _ _ _ Hwc)) as (Hid & Hlo & _).
  assert (∀ T x s, claimed m a rid T x s → T = tid) as Hu' by (intros T x s H; by destruct (Hu _ _ _ H)).
  exists (si_write tid r w rid (meta_val y.1 y.2) a). split; [right; eapply si_write_step; eauto; apply Hwc|].
  eapply Inv_write with (t' := AppendWriteSet oid rid t1); eauto.
  - intros rid'. rewrite writes_append. unfold writes. by rewrite Hws.
  - eapply (writes_in_tables_append (mc_db m)); [|done|done].
    unfold writes_in_tables. rewrite Hws. apply (inv_writes _ _ HI tid). apply Hwc.
  - simpl. by rewrite insert_insert_eq.
  - by destruct Hwf.
  - intros rid' Hne. change (GetUndoLink rid' (UpdateUndoLink rid (Some link) None (with_store st (with_txn tid t1 (mc_db m)))).2 = GetUndoLink rid' (mc_db m)).
    rewrite GetUndoLink_update. by rewrite decide_False.
  - pose proof (inv_rows _ _ HI rid) as Hr. unfold row_ok in *. rewrite Hrow in Hr.
    replace (GetUndoLink rid _) with (Some link) by (symmetry; etrans; [apply (GetUndoLink_update rid (Some link))|by rewrite decide_True]).
    rewrite (db_row_ext (with_store st (with_txn tid t1 (mc_db m)))), Hrows, decide_True by done. destruct y as [m1 row1].
    eapply (row_inv_version (mtxns m)) with (t := t) (t' := AppendWriteSet oid rid t1);
      [exact Hr|done|apply Hwc|..]; try done.
    + unfold mtxns. simpl. apply lookup_insert_eq.
    + unfold mtxns. simpl. rewrite insert_insert_eq. eapply txns_le_insert; [apply Hwc|done].
    + apply Hle.
    + unfold IsValid. apply bool_decide_eq_true. rewrite Hpl, Hid. unfold INVALID_TXN_ID. unfold TXN_START_ID in *. lia.
    + congruence.
    + simpl in Hy. rewrite Hy. apply claimed_by_write; try done; apply Hwc.
Qed.

Lemma sim_modify m a tid t oid rid del new n res db' :
  Inv m a → active m tid t → in_table (mc_db m) oid rid → 0 ≤ n ≤ Z.of_nat (length new) → n < 2 ^ 16 →
  ApplyMvccModify tid oid rid del new n (mc_db m) = (res, db') → res ≠ Err EUndefined →
  simulated m a (with_db db' m).
Proof.
  intros HI Hact Hin Hn H16 HM Hres. destruct (active_ctx _ _ _ _ HI Hact) as (r & w & Hwc).
  destruct Hact as (Ht & Hrun & _). destruct (g_txn _ _ (inv_g _ _ HI) _ _ Ht) as (Hid & _).
  destruct (db_row (mc_db m) rid) as [[mt old]|] eqn:Hrow.
  - pose proof (row_short _ _ _ _ _ HI Hrow) as Hso.
    pose proof (ApplyMvccModify_row _ _ _ _ _ _ _ _ _ _ _ _ (inv_db _ _ HI) Hin Ht Hrun Hrow Hn H16 HM Hres) as Hmod.
    rewrite Hid in Hmod. inversion Hmod as [db1 Hts Hput|Hts|link t1 db1 Hne Hts HA Hput|link t1 Hne Hts HA|Hne Hts]; subst db' res.
    + eapply sim_own; eauto; [by rewrite Hts|]. simpl. apply new_version_short; [done|done|lia].
    + exists a. split; [by left|]. by destruct m.
    + eapply sim_version; eauto. simpl. apply new_version_short; [done|done|lia].
    + destruct (AppendUndoLog_spec _ _ _ _ HA) as (Hsim & Hle & Hws & _). exists a. split; [by left|].
      by eapply Inv_touch.
    + exists a. split; [by left|]. apply (Inv_touch m a tid t (set_state TAINTED t)); try done.
      * unfold similar, is_open; simpl. by rewrite Hrun.
      * split; [done|]. split; [done|]. by rewrite Hrun.
  - unfold ApplyMvccModify in HM. rewrite Ht, (get_row_spec _ _ _ (inv_db _ _ HI) Hin), Hrow in HM.
    injection HM as <- <-. exists a. split; [by left|]. by destruct m.
Qed.

(** ** Insert, create, begin and local changes *)

Lemma sim_insert m a tid t oid row res db' :
  Inv m a → active m tid t → u16 (sc_size row) ≤ Z.of_nat (length (sc_bytes row)) →
  MvccInsertRow tid oid row (mc_db m) = (res, db') → res ≠ Err EUndefined → simulated m a (with_db db' m).
Proof.
  intros HI Hact Hn HM Hres. destruct (active_ctx _ _ _ _ HI Hact) as (r & w & Hwc).
  pose proof (wc_txn _ _ _ _ _ _ Hwc) as Ht. destruct (g_txn _ _ (inv_g _ _ HI) _ _ Ht) as (Hid & _ & Hread).
  pose proof (MvccInsertRow_row _ _ _ _ _ _ _ (inv_db _ _ HI) Ht Hn HM Hres) as Hins.
  set (row' := take _ _) in Hins. assert (short row') as Hs.
  { unfold short, row'. rewrite length_take. pose proof (wrap_u_range 16 (sc_size row)). unfold u16. lia. }
  inversion Hins as [rid db1 Hin Hnone Hrows Htx Hm Hwf Htab|db1 Hrows Htx Hm Hwf Htab]; subst res db'.
  - destruct (similar_append_write oid rid t) as [Hsim Hle].
    pose proof (inv_rows _ _ HI rid) as Hr. unfold row_ok in Hr. rewrite Hnone in Hr.
    assert (unclaimed (claimed m a rid) ∧ si_mod a rid = 0 ∧ GetUndoLink rid (mc_db m) = None) as (Hu & Hmd & Hlk)
      by (inversion Hr; done).
    assert (∀ T x s, claimed m a rid T x s → T = tid) as Hu' by (intros T x s H; by destruct (Hu _ _ _ H)).
    exists (si_write tid r w rid (Some row') a). split.
    { right. eapply si_write_step; [apply Hwc|exact Hu'|]. rewrite Hmd. pose proof (wc_read _ _ _ _ _ _ Hwc). lia. }
    apply (Inv_write m a tid t (AppendWriteSet oid rid t) rid (mkTupleMeta (txn_id_ t) false, row')); try done.
    + apply writes_append.
    + eapply writes_in_tables_append; [|exact Htab|done]. by apply (inv_writes _ _ HI tid).
    + simpl. by rewrite Htx.
    + simpl. by rewrite Hm.
    + by destruct Hwf.
    + intros rid' _. unfold GetUndoLink. simpl. by rewrite Hm.
    + unfold row_ok. simpl. rewrite (db_row_ext db1), Hrows, decide_True by done.
      replace (GetUndoLink rid _) with (@None UndoLink) by (rewrite <- Hlk; unfold GetUndoLink; simpl; by rewrite Hm).
      rewrite Hlk in Hr. unfold mlast. simpl. rewrite Hm.
      eapply row_inv_insert; [exact Hr| |done]. simpl. rewrite Hid.
      apply claimed_by_write; try apply Hwc; [|done]. simpl. by rewrite Hm.
  - exists a. split; [by left|]. split; simpl.
    + done.
    + apply GInv_same_db; [apply HI|done|by rewrite Hm].
    + unfold mtxns. simpl. rewrite Htx. intros T x Hx o rids rid Ho Hr. apply Htab. by eapply (inv_writes _ _ HI T x).
    + intros rid. eapply row_ok_frame; [..|apply (inv_rows _ _ HI)]; try done.
      * unfold mtxns. simpl. by rewrite Htx.
      * unfold mlast. simpl. by rewrite Hm.
      * apply same_claims_congr; [done| |done]. intros. apply stamp_with_db. by rewrite Hm.
      * unfold GetUndoLink. simpl. by rewrite Hm.
Qed.

Lemma sim_create m a oid h st' :
  Inv m a → db_heaps (mc_db m) !! oid = None → new_TableHeap (db_store (mc_db m)) = (h, st') →
  simulated m a (with_db (mkDb st' (<[oid := h]> (db_heaps (mc_db m))) (db_txns (mc_db m)) (db_mgr (mc_db m))) m).
Proof.
  intros HI Ho HN. destruct (create_grown _ _ _ _ (inv_db _ _ HI) Ho HN) as [Hgr Hrows].
  exists a. split; [by left|]. split.
  - by apply (grown_wf _ _ _ _ (inv_db _ _ HI)).
  - by apply GInv_same_db; [apply HI|..].
  - intros T x Hx o rids rid Hws Hr. apply (grown_in_table _ oid h st'); [done|]. by eapply (inv_writes _ _ HI T x).
  - intros rid. eapply row_ok_frame; [..|apply (inv_rows _ _ HI)]; try done.
    apply same_claims_congr; [done|intros; by apply stamp_with_db|done].
Qed.

Lemma sim_local m a tid t t' :
  Inv m a → mtxns m !! tid = Some t → local_change t t' → simulated m a (with_db (with_txn tid t' (mc_db m)) m).
Proof.
  intros HI Ht Hlc. exists a. split; [by left|].
  assert (similar t t' ∧ txn_le t t' ∧ write_set_ t' = write_set_ t) as (Hs & Hle & Hw).
  { destruct Hlc; unfold RequestCancellation, EnterStatement, LeaveStatement, AppendScanPredicate;
      repeat match goal with |- context [if ?b then _ else _] => destruct b end;
      (split; [|split]; [done| |done]); split; done. }
  by eapply Inv_touch.
Qed.

Lemma sim_begin m a iso now tid db' :
  Inv m a → BeginShared iso now (mc_db m) = (Ok tid, db') → simulated m a (with_db db' m).
Proof.
  intros HI HB. pose proof (inv_g _ _ HI) as Hg. pose proof (GInv_begin _ _ _ _ _ _ Hg HB) as Hg'.
  destruct (BeginShared_inv m a iso now Hg) as (w & E & _). rewrite E in HB. injection HB as <- <-.
  pose proof (next_fresh _ _ Hg) as Hf. destruct (fresh_not_open _ _ _ Hg Hf) as (Fo & Fd & _).
  exists (si_begin (next_txn_id_ (db_mgr (mc_db m))) a). split; [right; by apply SIBegin|]. split.
  - by destruct (inv_db _ _ HI).
  - done.
  - unfold mtxns. simpl. intros T x [[<- <-]|[_ Hx]]%lookup_insert_Some; [|by apply (inv_writes _ _ HI T)].
    intros oid rids rid. simpl. by rewrite lookup_empty.
  - intros rid. eapply row_ok_frame; [..|apply (inv_rows _ _ HI)]; try done; [by apply txns_le_fresh|].
    apply same_claims_congr; [|intros; by apply stamp_with_db|done].
    intros T v. unfold written; simpl. split.
    + intros (r0 & w0 & Ho & Hw). exists r0, w0. rewrite lookup_insert_ne by congruence. done.
    + intros (r0 & w0 & [[<- [= <- <-]]|[_ Ho]]%lookup_insert_Some & Hw); [set_solver|eauto].
Qed.

(** ** Commit *)

(** Steps that move a program counter: storage, rows and transaction objects stay. *)
Lemma Inv_control m a m' a' :
  Inv m a → GInv m' a' →
  db_store (mc_db m') = db_store (mc_db m) → db_heaps (mc_db m') = db_heaps (mc_db m) → mtxns m' = mtxns m →
  version_info_ (db_mgr (mc_db m')) = version_info_ (db_mgr (mc_db m)) → mlast m' = mlast m →
  (∀ rid, same_claims (claimed m a rid) (claimed m' a' rid)) →
  si_snap a' = si_snap a → si_mod a' = si_mod a → Inv m' a'.
Proof.
  intros HI Hg Hst Hh Htx Hv Hl Hcl Hsn Hmd. split; [|done| |].
  - destruct (inv_db _ _ HI). split; rewrite ?Hst, ?Hh; done.
  - rewrite Htx. intros T x Hx oid rids rid Ho Hr. unfold in_table. rewrite Hh. by eapply (inv_writes _ _ HI T x).
  - intros rid. eapply row_ok_frame; [..|apply (inv_rows _ _ HI)]; try done.
    + by rewrite Htx.
    + by rewrite Hsn.
    + by rewrite Hmd.
    + by apply db_row_ext.
    + unfold GetUndoLink. by rewrite Hv.
Qed.

Lemma sim_commit_start m a tid t :
  Inv m a → active m tid t → mc_commit m = None → mlast m + 1 < TXN_START_ID →
  simulated m a (mkMachine (mc_db m) (Some (tid, Some ((write_list (mc_db m) t).*2))) (mc_undo m) (mc_gc m)).
Proof.
  intros HI Hact Hc Hl. destruct (active_ctx _ _ _ _ HI Hact) as (r & w & Hwc). exists a. split; [by left|].
  pose proof (inv_writes _ _ HI _ _ (wc_txn _ _ _ _ _ _ Hwc)) as Hwt.
  assert (∀ rid, rid ∈ (write_list (mc_db m) t).*2 ↔ is_Some (w !! rid)) as Hel.
  { intros rid. rewrite write_list_writes by done. apply Hwc. }
  apply (Inv_control m a); try done.
  - eapply GInv_commit_start; [apply HI|done|apply Hwc|by apply write_list_NoDup; [apply HI|]|done|by intros; apply Hel].
  - intros rid. apply same_claims_congr; [done| |done]. intros T v (r0 & w0 & Ho & Hv).
    unfold stamp. rewrite Hc. simpl. rewrite decide_False; [done|]. intros [<- Hni]. apply Hni, Hel.
    pose proof (wc_open _ _ _ _ _ _ Hwc). simplify_eq. eauto.
Qed.

(** The row a program counter points at: claimed, so present. *)
Lemma claimed_row m a rid tid v s :
  Inv m a → claimed m a rid tid v s → ∃ mt row, db_row (mc_db m) rid = Some (mt, row) ∧ ts_ mt = s ∧
    claimed_by (claimed m a rid) tid v s.
Proof.
  intros HI Hc. pose proof (inv_rows _ _ HI rid) as Hr. unfold row_ok in Hr.
  inversion Hr as [Hu|? ? ? ? Hu|mt row ? vs T v0 Hcb]; subst; try (by destruct (Hu _ _ _ Hc)).
  pose proof Hcb as [_ Hu]. destruct (Hu _ _ _ Hc) as (-> & -> & ->). eauto 7.
Qed.

Lemma sim_stamp m a tid rid rest db' :
  Inv m a → mc_commit m = Some (tid, Some (rid :: rest)) →
  MvccStampCommit rid (mlast m + 1) (mc_db m) = (Ok tt, db') →
  simulated m a (mkMachine db' (Some (tid, Some rest)) (mc_undo m) (mc_gc m)).
Proof.
  intros HI Hc HM. pose proof (inv_g _ _ HI) as Hg.
  destruct (g_commit _ _ Hg _ _ Hc) as (Hnd & Hl & r & w & Ho & Hsub). apply NoDup_cons in Hnd as [Hni Hnd].
  destruct (Hsub rid) as [x Hx]; [set_solver|].
  assert (claimed m a rid tid (Some x) tid) as Hcl.
  { apply claimed_iff. left. exists x. split_and!; [done| |by exists r, w].
    unfold stamp. rewrite Hc, decide_False; [done|set_solver]. }
  destruct (claimed_row _ _ _ _ _ _ HI Hcl) as (mt & row & Hrow & Hts & [_ Huniq]).
  destruct (MvccStampCommit_put rid (mlast m + 1) _ _ _ (inv_db _ _ HI) Hrow) as (db1 & E & Hput).
  rewrite E in HM. injection HM as <-. destruct Hput as (st & -> & Hwf & Hrows).
  set (m' := mkMachine _ _ _ _).
  assert (∀ T rid' v, written a T rid' v → stamp m' T rid' = if decide (T = tid ∧ rid' = rid) then mlast m + 1 else stamp m T rid') as Hst.
  { intros T rid' v _. unfold stamp. rewrite Hc. simpl. destruct (decide (tid = T)) as [<-|HT].
    - destruct (decide (rid' = rid)) as [->|Hr]; [rewrite !decide_True by done; done|].
      rewrite (decide_False (P := tid = tid ∧ rid' = rid)) by naive_solver. apply decide_ext. set_solver.
    - rewrite !decide_False by naive_solver. done. }
  exists a. split; [by left|]. split; [done|by eapply GInv_stamped|apply (inv_writes _ _ HI)|].
  intros rid'. destruct (decide (rid = rid')) as [<-|Hne].
  - pose proof (inv_rows _ _ HI rid) as Hr. unfold row_ok in *. rewrite Hrow in Hr. simpl.
    rewrite Hrows, decide_True by done.
    eapply row_inv_stamp; [exact Hr|by rewrite Hts|]. split.
    + apply claimed_iff. left. exists x. split_and!; [done| |by exists r, w].
      rewrite (Hst _ _ x) by (by exists r, w). by rewrite decide_True.
    + intros T v s [(y & -> & -> & Hw)|(-> & -> & Hu)]%claimed_iff.
      * destruct (Huniq T (Some y) (stamp m T rid)) as (-> & [= ->] & _); [apply claimed_iff; left; eauto|].
        rewrite (Hst _ _ _ Hw), decide_True by done. done.
      * destruct (Huniq T None T) as (_ & [=] & _). apply claimed_iff. right. eauto.
  - eapply row_ok_frame; [..|apply (inv_rows _ _ HI)]; try done; [|simpl; by rewrite Hrows, decide_False].
    apply same_claims_congr; [done| |done]. intros T v Hw. rewrite (Hst _ _ _ Hw).
    by rewrite decide_False by naive_solver.
Qed.

Lemma written_commit a tid r w T rid v :
  written (si_commit tid r w a) T rid v ↔ T ≠ tid ∧ written a T rid v.
Proof.
  unfold written; simpl. split.
  - intros (r0 & w0 & [Hne Ho]%lookup_delete_Some & Hw). split; [done|eauto].
  - intros (Hne & r0 & w0 & Ho & Hw). exists r0, w0. by rewrite lookup_delete_ne.
Qed.

Lemma sim_publish m a tid t :
  Inv m a → mc_commit m = Some (tid, Some []) → mtxns m !! tid = Some t →
  simulated m a (mkMachine (publish_commit tid t (mlast m + 1) (mc_db m)) (Some (tid, None)) (mc_undo m) (mc_gc m)).
Proof.
  intros HI Hc Ht. pose proof (inv_g _ _ HI) as Hg. pose proof (g_last _ _ Hg) as [Hl Ha].
  destruct (g_commit _ _ Hg _ _ Hc) as (_ & _ & r & w & Ho & _).
  destruct (g_open _ _ Hg _ _ _ Ho) as (t0 & Ht0 & Hop & Hund & Hr & Hw). simplify_eq.
  destruct (g_txn _ _ Hg _ _ Ht) as (_ & _ & Hread).
  exists (si_commit tid (read_ts_ t) w a). split; [right; by apply SICommit|].
  set (m' := mkMachine _ _ _ _). set (t' := set_state COMMITTED (set_commit_ts (mlast m + 1) t)).
  assert (txn_le t t') as Hle.
  { split; [done|]. split; [done|]. intros Hst. by destruct (open_not_done _ Hop). }
  assert (txns_le (mtxns m) (mtxns m')) as Htle by (by eapply txns_le_insert).
  split.
  - by destruct (inv_db _ _ HI).
  - by apply GInv_publish.
  - eapply lookup_writes_in_tables; [done|done|]. by apply (inv_writes _ _ HI tid t).
  - intros rid. pose proof (inv_rows _ _ HI rid) as Hro. unfold row_ok in *.
    change (mlast m') with (mlast m + 1). change (GetUndoLink rid (mc_db m')) with (GetUndoLink rid (mc_db m)).
    rewrite (db_row_ext (mc_db m) (mc_db m')) by done.
    destruct (w !! rid) as [x|] eqn:Hx.
    + assert (claimed m a rid tid (Some x) (mlast m + 1)) as Hcl.
      { apply claimed_iff. left. exists x. split_and!; [done| |by eexists _, w].
        unfold stamp. rewrite Hc, decide_True; [done|]. split; [done|set_solver]. }
      destruct (claimed_row _ _ _ _ _ _ HI Hcl) as (mt & row & Hrow & _ & [_ Hu]). rewrite Hrow in Hro |- *.
      replace (si_mod (si_commit tid (read_ts_ t) w a) rid) with (mlast m + 1) by (simpl; by rewrite Hx, Ha).
      eapply (row_inv_publish (mtxns m)) with (t := t) (t' := t'); [exact Hro|exact Hcl|..]; try done; try lia.
      * intros T v s [(y & -> & -> & [Hne Hwr]%written_commit)|(-> & -> & Hun)]%claimed_iff.
        -- apply Hne. eapply (Hu T (Some y)). apply claimed_iff. left. eauto.
        -- destruct (Hu T None T) as (_ & [=] & _). apply claimed_iff. right. eauto.
      * apply lookup_insert_eq.
      * intros ts Hts. simpl. rewrite decide_False by lia. done.
      * simpl. by rewrite Ha, decide_True, Hx.
    + replace (si_mod (si_commit tid (read_ts_ t) w a) rid) with (si_mod a rid) by (simpl; by rewrite Hx).
      eapply (row_inv_bystander (mtxns m)); [exact Hro|..]; try done; try lia.
      * apply same_claims_congr; [| |done].
        -- intros T v. rewrite written_commit. split; [|by intros [_ ?]]. intros Hwr. split; [|done].
           intros ->. destruct Hwr as (? & ? & ? & ?). simplify_eq.
        -- intros T v Hwr. unfold stamp. rewrite Hc. simpl. rewrite decide_False; [done|]. intros [-> _].
           destruct Hwr as (? & ? & ? & ?). simplify_eq.
      * by eapply g_after_snapshot.
      * intros T x Hx'. by apply (g_txn _ _ Hg _ _ Hx').
      * intros ts Hts. simpl. rewrite decide_False by lia. done.
      * simpl. by rewrite Ha, decide_True, Hx.
Qed.

Lemma sim_commit_end m a tid t db' :
  Inv m a → mc_commit m = Some (tid, None) → mtxns m !! tid = Some t →
  deregister t (Some (mlast m)) (mc_db m) = (Ok tt, db') →
  simulated m a (mkMachine db' None (mc_undo m) (mc_gc m)).
Proof.
  intros HI Hc Ht HD. destruct (GInv_commit_end _ _ _ _ _ (inv_g _ _ HI) Hc Ht HD) as [(Hst & Hh & Htx & Hv & _ & Hl & _) Hg].
  exists a. split; [by left|]. apply (Inv_control m a); try done.
  intros rid. apply same_claims_congr; [done| |done]. intros T v _. unfold stamp. by rewrite Hc.
Qed.

(** ** Abort *)

Lemma sim_abort_start m a tid t :
  Inv m a → mtxns m !! tid = Some t → is_open t = true → ¬ finalizing m tid →
  simulated m a (mkMachine (mc_db m) (mc_commit m) (<[tid := Some ((write_list (mc_db m) t).*2)]> (mc_undo m)) (mc_gc m)).
Proof.
  intros HI Ht Hop Hnf. pose proof (inv_g _ _ HI) as Hg. pose proof (inv_writes _ _ HI _ _ Ht) as Hwt.
  assert (mc_undo m !! tid = None) as Hu.
  { destruct (mc_undo m !! tid) eqn:E; [|done]. exfalso. apply Hnf. right. eauto. }
  assert (∀ ph, mc_commit m ≠ Some (tid, ph)) as Hnc by (intros ph ?; apply Hnf; left; eauto).
  destruct (g_open' _ _ Hg _ _ Ht Hop Hu) as [[r w] Ho].
  destruct (g_open _ _ Hg _ _ _ Ho) as (t0 & Ht0 & _ & _ & _ & Hw). simplify_eq.
  set (rest := (write_list (mc_db m) t).*2).
  assert (∀ rid, rid ∈ rest ↔ is_Some (w !! rid)) as Hel.
  { intros rid. unfold rest. by rewrite write_list_writes. }
  exists (si_abort tid a). split; [right; apply SIAbort|]. set (m' := mkMachine _ _ _ _).
  assert (∀ T rid v, written (si_abort tid a) T rid v ↔ T ≠ tid ∧ written a T rid v) as Hwr by apply (written_commit a tid r w).
  assert (∀ T rid, undoing m' T rid ↔ (T = tid ∧ rid ∈ rest) ∨ undoing m T rid) as Hun.
  { intros T rid. unfold undoing; simpl. split.
    - intros (l & [[<- [= <-]]|[Hne Hl]]%lookup_insert_Some & Hin); [by left|right; eauto].
    - intros [[-> Hin]|(l & Hl & Hin)]; [exists rest; by rewrite lookup_insert_eq|].
      exists l. rewrite lookup_insert_ne by congruence. done. }
  assert (∀ T rid, stamp m' T rid = stamp m T rid) as Hst by (intros; by apply stamp_congr).
  split; [apply HI| |apply (inv_writes _ _ HI)|].
  - eapply GInv_abort_start; eauto. apply write_list_NoDup; [apply HI|done].
  - intros rid. destruct (w !! rid) as [x|] eqn:Hx.
    + assert (claimed m a rid tid (Some x) tid) as Hcl.
      { apply claimed_iff. left. exists x. rewrite stamp_not_committing by done. split_and!; [done..|by exists r, w]. }
      destruct (claimed_row _ _ _ _ _ _ HI Hcl) as (mt & row & _ & _ & [_ Huniq]).
      eapply row_inv_give_up; [apply (inv_rows _ _ HI rid)|exact Hcl|]. split.
      * apply claimed_iff. right. split_and!; [done..|]. apply Hun. left. split; [done|]. apply Hel. eauto.
      * intros T v s [(y & -> & -> & [Hne HT]%Hwr)|(-> & -> & [[-> _]|HT]%Hun)]%claimed_iff; [exfalso|done|exfalso].
        -- apply Hne. eapply (Huniq T (Some y) (stamp m T rid)). apply claimed_iff. left. by exists y.
        -- destruct (Huniq T None T) as (_ & [=] & _). apply claimed_iff. right. eauto.
    + eapply row_ok_frame; [..|apply (inv_rows _ _ HI)]; try done. apply same_claims_congr; [|done|].
      * intros T v. rewrite Hwr. split; [|by intros [_ ?]]. intros HT. split; [|done]. intros ->.
        destruct HT as (? & ? & ? & ?). simplify_eq.
      * intros T. rewrite Hun, Hel, Hx. split; [by right|]. intros [[_ [? ?]]|?]; done.
Qed.

(** What [MvccRollback] does to a row that is being rolled back. *)
Lemma rollback_row m a tid rid rest db' m' :
  Inv m a → mc_undo m !! tid = Some (Some (rid :: rest)) → MvccRollback tid rid (mc_db m) = (Ok tt, db') →
  mc_db m' = db' → unclaimed (claimed m' a rid) →
  db_wf db' ∧ db_txns db' = mtxns m ∧ mgr_core (db_mgr db') = mgr_core (db_mgr (mc_db m)) ∧
  db_heaps db' = db_heaps (mc_db m) ∧ is_Some (db_row db' rid) ∧
  (∀ rid', rid' ≠ rid → db_row db' rid' = db_row (mc_db m) rid' ∧ GetUndoLink rid' db' = GetUndoLink rid' (mc_db m)) ∧
  row_ok m' a rid.
Proof.
  intros HI Hu HM Hm' Hun. pose proof (inv_g _ _ HI) as Hg. pose proof (g_last _ _ Hg) as [Hl _].
  destruct (g_undo _ _ Hg _ _ Hu) as (_ & t & Ht & Hop). destruct (g_txn _ _ Hg _ _ Ht) as (Hid & Hlo & Hread).
  assert (claimed m a rid tid None tid) as Hcl by (eapply cl_undo; [done|set_solver]).
  destruct (claimed_row _ _ _ _ _ _ HI Hcl) as (mt & row & Hrow & Hts & [_ Huniq]).
  pose proof (inv_rows _ _ HI rid) as Hr. unfold row_ok in Hr. rewrite Hrow in Hr.
  pose proof (row_short _ _ _ _ _ HI Hrow) as Hsh.
  assert (∃ vs, pending_chain (mtxns m) tid (GetUndoLink rid (mc_db m)) vs) as [vs Hp].
  { inversion Hr as [|? ? ? ? Hu'|? ? ? vs T v [Hc' _] ? ? ? ? Hp]; subst; [by destruct (Hu' _ _ _ Hcl)|].
    destruct (Huniq _ _ _ Hc') as (-> & _). eauto. }
  assert (mtxns m' = mtxns m → mlast m' = mlast m → mc_db m' = db' → row_inv (mtxns m) (mlast m) (claimed m' a rid)
    (λ ts, si_snap a ts rid) (si_mod a rid) (db_row db' rid) (GetUndoLink rid db') → row_ok m' a rid) as Hfin.
  { unfold row_ok. by intros -> -> ->. }
  remember (GetUndoLink rid (mc_db m)) as lk eqn:HL. destruct Hp as [|l t0 log vs0 HV Hpl Ht0 Hlog Hlts Hls Hcc].
  - destruct (MvccRollback_fresh tid rid _ _ _ _ (inv_db _ _ HI) Hrow Ht (eq_sym HL)) as (db1 & E & (st & -> & Hwf & Hrows)).
    rewrite E in HM. injection HM as <-. split_and!; try done.
    + rewrite Hrows, decide_True by done. eauto.
    + intros rid' Hne. split; [|done]. by rewrite Hrows, decide_False.
    + apply Hfin; [unfold mtxns; by rewrite Hm'|unfold mlast; by rewrite Hm'|done|].
      rewrite Hrows, decide_True by done. change (GetUndoLink rid (with_store _ _)) with (GetUndoLink rid (mc_db m)).
      rewrite <- HL. eapply row_inv_unfresh; [exact Hr|exact Hcl|done|lia|done].
  - simplify_eq.
    destruct (MvccRollback_restore (txn_id_ t) rid _ _ _ _ _ _ _ (inv_db _ _ HI) Hrow Ht (eq_sym HL) HV Hpl Hlog Hls HM)
      as (db1 & row' & (st & -> & Hwf & Hrows) & Hr1 & Hr2 & E).
    assert (short row') as Hs'. { destruct (log_is_deleted_ log); [by rewrite Hr2|by rewrite Hr1]. }
    rewrite E. rewrite E in Hfin. split_and!; try done.
    + by destruct Hwf.
    + rewrite (db_row_ext (with_store st (mc_db m))), Hrows, decide_True by done. eauto.
    + intros rid' Hne. rewrite GetUndoLink_update, decide_False by done. split; [|done].
      etrans; [apply (db_row_ext (with_store st (mc_db m))); done|]. by rewrite Hrows, decide_False.
    + apply Hfin; [unfold mtxns; by rewrite E|unfold mlast; by rewrite E|done|].
      rewrite GetUndoLink_update, decide_True by done.
      rewrite (db_row_ext (with_store st (mc_db m))), Hrows, decide_True by done.
      eapply row_inv_restore; [exact Hr|exact Hcl|done|by eapply g_after_snapshot|exact Ht|lia|done|done|done].
Qed.

Lemma undoing_rolled_back m tid rid rest db' T rid' :
  mc_undo m !! tid = Some (Some (rid :: rest)) → NoDup (rid :: rest) →
  undoing (mkMachine db' (mc_commit m) (<[tid := Some rest]> (mc_undo m)) (mc_gc m)) T rid' ↔
  undoing m T rid' ∧ (T = tid → rid' ≠ rid).
Proof.
  intros Hu [Hni _]%NoDup_cons. unfold undoing; simpl. split.
  - intros (l & [[<- [= <-]]|[Hne Hl]]%lookup_insert_Some & Hin); [|split; [eauto|congruence]].
    split; [exists (rid :: rest); set_solver|]. intros _ ->. done.
  - intros [(l & Hl & Hin) Hne]. destruct (decide (tid = T)) as [<-|].
    + exists rest. rewrite lookup_insert_eq. simplify_eq. set_solver.
    + exists l. by rewrite lookup_insert_ne.
Qed.

Lemma rollback_unclaimed m a tid rid rest db' :
  Inv m a → mc_undo m !! tid = Some (Some (rid :: rest)) →
  unclaimed (claimed (mkMachine db' (mc_commit m) (<[tid := Some rest]> (mc_undo m)) (mc_gc m)) a rid).
Proof.
  intros HI Hu. destruct (g_undo _ _ (inv_g _ _ HI) _ _ Hu) as (Hnd & _).
  assert (claimed m a rid tid None tid) as Hcl by (eapply cl_undo; [done|set_solver]).
  destruct (claimed_row _ _ _ _ _ _ HI Hcl) as (mt & row & _ & _ & [_ Huniq]).
  intros T v s [(y & -> & -> & Hw)|(-> & -> & HT)]%claimed_iff.
  - destruct (Huniq T (Some y) (stamp m T rid)) as (_ & [=] & _). apply claimed_iff. left. by exists y.
  - rewrite (undoing_rolled_back m tid rid rest) in HT by done. destruct HT as [HT Hne].
    destruct (Huniq T None T) as (-> & _); [apply claimed_iff; by right|]. by apply Hne.
Qed.

Lemma sim_rollback m a tid rid rest db' :
  Inv m a → mc_undo m !! tid = Some (Some (rid :: rest)) → MvccRollback tid rid (mc_db m) = (Ok tt, db') →
  simulated m a (mkMachine db' (mc_commit m) (<[tid := Some rest]> (mc_undo m)) (mc_gc m)).
Proof.
  intros HI Hu HM. pose proof (inv_g _ _ HI) as Hg. destruct (g_undo _ _ Hg _ _ Hu) as (Hnd & _).
  set (m' := mkMachine _ _ _ _).
  destruct (rollback_row m a tid rid rest db' m' HI Hu HM eq_refl) as (Hwf & Htx & Hcore & Hheaps & _ & Hrows & Hrow');
    [by apply rollback_unclaimed|].
  pose proof Hcore as [= _ El _ _].
  exists a. split; [by left|]. split; [done|by eapply GInv_rolled_back| |].
  - unfold mtxns. simpl. rewrite Htx. intros T x Hx o rids r Ho Hr. unfold in_table. rewrite Hheaps.
    by eapply (inv_writes _ _ HI T x).
  - intros rid'. destruct (decide (rid' = rid)) as [->|Hne]; [done|]. destruct (Hrows _ Hne) as [Hr1 Hr2].
    eapply row_ok_frame; [..|apply (inv_rows _ _ HI)]; try done.
    + unfold mtxns. simpl. by rewrite Htx.
    + apply same_claims_congr; [done|intros; by apply stamp_congr|].
      intros T. subst m'. rewrite (undoing_rolled_back m tid rid rest) by done. naive_solver.
Qed.

Lemma sim_aborted m a tid t :
  Inv m a → mc_undo m !! tid = Some (Some []) → mtxns m !! tid = Some t →
  simulated m a (mkMachine (with_txn tid (set_state ABORTED t) (mc_db m)) (mc_commit m) (<[tid := None]> (mc_undo m)) (mc_gc m)).
Proof.
  intros HI Hu Ht. pose proof (inv_g _ _ HI) as Hg. destruct (g_undo _ _ Hg _ _ Hu) as (_ & t0 & Ht0 & Hop).
  simplify_eq. exists a. split; [by left|]. split.
  - by destruct (inv_db _ _ HI).
  - by apply GInv_aborted.
  - eapply lookup_writes_in_tables; [done|done|]. by apply (inv_writes _ _ HI tid t).
  - intros rid. eapply row_ok_frame; [..|apply (inv_rows _ _ HI)]; try done.
    + eapply txns_le_insert; [done|]. split; [done|]. split; [done|]. intros Hc. by destruct (open_not_done _ Hop).
    + apply same_claims_congr; [done|intros; by apply stamp_congr|].
      intros T. unfold undoing; simpl. split.
      * intros (l & Hl & Hin). exists l. rewrite lookup_insert_ne; [done|]. intros <-. simplify_eq. set_solver.
      * intros (l & [[_ [=]]|[_ Hl]]%lookup_insert_Some & Hin). eauto.
Qed.

Lemma sim_abort_end m a tid t db' :
  Inv m a → mc_undo m !! tid = Some None → mtxns m !! tid = Some t → deregister t None (mc_db m) = (Ok tt, db') →
  simulated m a (mkMachine db' (mc_commit m) (delete tid (mc_undo m)) (mc_gc m)).
Proof.
  intros HI Hu Ht HD. destruct (GInv_abort_end _ _ _ _ _ (inv_g _ _ HI) Hu Ht HD) as [(Hst & Hh & Htx & Hv & _ & Hl & _) Hg].
  exists a. split; [by left|]. apply (Inv_control m a); try done.
  intros rid. apply same_claims_congr; [done|intros; by apply stamp_congr|].
  intros T. unfold undoing; simpl. split.
  - intros (l & HT & Hin). exists l. rewrite lookup_delete_ne by congruence. done.
  - intros (l & [_ HT]%lookup_delete_Some & Hin). eauto.
Qed.

(** ** The simulation *)

Lemma Inv_init timeout : Inv (mc_init timeout) si_init.
Proof.
  split.
  - split; simpl; [|intros ??; by rewrite lookup_empty|intros ?????; by rewrite lookup_empty].
    split; simpl; [constructor|set_solver|lia|]. intros pid. unfold page_at. simpl. rewrite lookup_empty. apply rp_zero_frame.
  - split; unfold mlast, mtxns; simpl; try (intros *; rewrite lookup_empty; done); try done.
    exists []. split; [constructor|]. split.
    + intros tid. unfold registered; simpl. split; [set_solver|]. unfold mtxns; simpl.
        rewrite !lookup_empty. intros [(t & Ht & _)|[?|?]]; done.
    + destruct (new_Watermark_wf 0) as [? ?]. done.
  - intros tid t. unfold mtxns. simpl. by rewrite lookup_empty.
  - intros rid. unfold row_ok, db_row. rewrite decide_False.
    + apply ri_none; [|done|done]. intros tid v s [(x & _ & _ & r & w & Ho & _)|(_ & _ & l & Hl & _)]%claimed_iff;
        simpl in *; by rewrite lookup_empty in *.
    + intros (oid & h & Hh & _)%owned_spec. simpl in Hh. by rewrite lookup_empty in Hh.
Qed.

Lemma step_simulated m a m' : Inv m a → step m m' → simulated m a m'.
Proof.
  intros HI Hs. destruct Hs.
  - by eapply sim_begin.
  - by eapply sim_local.
  - by eapply sim_create.
  - by eapply sim_modify.
  - by eapply sim_insert.
  - by eapply sim_commit_start.
  - by eapply sim_stamp.
  - by eapply sim_publish.
  - by eapply sim_commit_end.
  - by eapply sim_abort_start.
  - by eapply sim_rollback.
  - by eapply sim_aborted.
  - by eapply sim_abort_end.
  - exists a. split; [by left|]. apply (Inv_control m a); try done; [apply GInv_watermark, HI|].
    intros rid. apply same_claims_congr; [done|intros; by apply stamp_congr|done].
  - exists a. split; [by left|]. apply (Inv_control m a); try done; [by apply GInv_reclaim; [apply HI|]|].
    intros rid. apply same_claims_congr; [done|intros; by apply stamp_congr|done].
Qed.
End sim.
