(* ===== verification/Isolation.v ===== *)
(** * Snapshot isolation, proved of the engine

    First the facts about the abstract database that make it snapshot isolation (immutable snapshots,
    exclusive writes, first committer wins); then, through the simulation, the corresponding facts
    about every reachable state of the interleaved engine: what a transaction reads, when a write
    conflicts, that commits of the same row never overlap, and that serializable validation is
    sound. *)

From S2P Require Import Prelude TablePage TableHeap Watermark Transaction Mvcc RowInvariant SnapshotSpec MachineInvariant MachineSteps Simulation.

(** ** The abstract database *)

Definition si_reachable (a : SI) : Prop := rtc si_step si_init a.

Record si_inv (a : SI) : Prop := {
  sv_last : 0 ≤ si_last a;
  sv_fresh : ∀ tid, is_Some (si_open a !! tid) → si_done a !! tid = None;
  sv_mod : ∀ rid, 0 ≤ si_mod a rid ≤ si_last a;
  (** the newest write of a row is some committed transaction's *)
  sv_mod_done : ∀ rid, 0 < si_mod a rid →
    ∃ tid r rows, si_done a !! tid = Some (r, si_mod a rid, rows) ∧ rid ∈ rows;
  sv_done : ∀ tid r c rows, si_done a !! tid = Some (r, c, rows) →
    0 ≤ r < c ∧ c ≤ si_last a ∧ ∀ rid, rid ∈ rows → c ≤ si_mod a rid;
  sv_open : ∀ tid r w, si_open a !! tid = Some (r, w) →
    0 ≤ r ≤ si_last a ∧ ∀ rid, is_Some (w !! rid) → si_mod a rid ≤ r;
  sv_excl : ∀ t1 t2 r1 r2 w1 w2 rid, si_open a !! t1 = Some (r1, w1) → si_open a !! t2 = Some (r2, w2) →
    is_Some (w1 !! rid) → is_Some (w2 !! rid) → t1 = t2;
  sv_apart : ∀ t1 t2 r1 r2 c1 c2 rows1 rows2 rid,
    si_done a !! t1 = Some (r1, c1, rows1) → si_done a !! t2 = Some (r2, c2, rows2) → t1 ≠ t2 →
    c1 ≠ c2 ∧ (rid ∈ rows1 → rid ∈ rows2 → c1 ≤ r2 ∨ c2 ≤ r1);
  (** a row does not change between its newest write and now *)
  sv_stable : ∀ rid ts, si_mod a rid ≤ ts ≤ si_last a → si_snap a ts rid = si_snap a (si_last a) rid
}.

Lemma si_inv_init : si_inv si_init.
Proof. split; simpl; try (intros *; rewrite lookup_empty; done); intros; try lia; done. Qed.

Lemma si_inv_begin a tid :
  si_inv a → si_open a !! tid = None → si_done a !! tid = None →
  si_inv (mkSI (si_last a) (si_snap a) (si_mod a) (<[tid := (si_last a, ∅)]> (si_open a)) (si_done a)).
Proof.
  intros [] Ho Hd. split; simpl; try assumption.
  - intros T. rewrite lookup_insert_is_Some'. intros [<-|?]; auto.
  - intros T r w [[<- [= <- <-]]|[_ HT]]%lookup_insert_Some; [|eauto].
    split; [lia|]. intros rid. rewrite lookup_empty. intros [? [=]].
  - intros t1 t2 r1 r2 w1 w2 rid [[<- [= <- <-]]|[_ H1]]%lookup_insert_Some
      [[<- [= <- <-]]|[_ H2]]%lookup_insert_Some Hw1 Hw2; [done|..|eauto];
      [rewrite lookup_empty in Hw1; by destruct Hw1|rewrite lookup_empty in Hw2; by destruct Hw2].
Qed.

Lemma si_inv_write a tid r w rid v :
  si_inv a → si_open a !! tid = Some (r, w) →
  (∀ tid' r' w', si_open a !! tid' = Some (r', w') → tid' ≠ tid → w' !! rid = None) → si_mod a rid ≤ r →
  si_inv (mkSI (si_last a) (si_snap a) (si_mod a) (<[tid := (r, <[rid := v]> w)]> (si_open a)) (si_done a)).
Proof.
  intros [] Ho Hex Hm. split; simpl; try assumption.
  - intros T. rewrite lookup_insert_is_Some'. intros [<-|?]; eauto.
  - intros T r0 w0 [[<- [= <- <-]]|[_ HT]]%lookup_insert_Some; [|eauto]. destruct (sv_open0 _ _ _ Ho) as [? Hold].
    split; [done|]. intros rid'. rewrite lookup_insert_is_Some'. intros [<-|?]; [done|eauto].
  - assert (∀ t2 r2 w2 rid', si_open a !! t2 = Some (r2, w2) → tid ≠ t2 → is_Some (<[rid := v]> w !! rid') →
              is_Some (w2 !! rid') → False) as Hx.
    { intros t2 r2 w2 rid' H2 Hne [<-|Hw]%lookup_insert_is_Some' Hw2.
      - rewrite (Hex _ _ _ H2) in Hw2 by done. by destruct Hw2.
      - apply Hne. eauto. }
    intros t1 t2 r1 r2 w1 w2 rid' [[<- [= <- <-]]|[Hn1 H1]]%lookup_insert_Some
      [[<- [= <- <-]]|[Hn2 H2]]%lookup_insert_Some Hw1 Hw2; [done|..|eauto]; exfalso; eauto.
Qed.

Lemma si_inv_commit a tid r w : si_inv a → si_open a !! tid = Some (r, w) → si_inv (si_commit tid r w a).
Proof.
  intros [] Ho. destruct (sv_open0 _ _ _ Ho) as [Hr Hw].
  assert (si_done a !! tid = None) as Hnd by eauto.
  assert (∀ rid, is_Some (w !! rid) ↔ rid ∈ dom w) as Hdom by (intros; by rewrite elem_of_dom).
  split; simpl.
  - lia.
  - intros T [x [Hne HT]%lookup_delete_Some]. rewrite lookup_insert_ne by done. eauto.
  - intros rid. destruct (w !! rid); [lia|]. specialize (sv_mod0 rid). lia.
  - intros rid. destruct (w !! rid) as [x|] eqn:E.
    + intros _. exists tid, r, (dom w). rewrite lookup_insert_eq. split; [done|]. apply Hdom. eauto.
    + intros (T & r0 & rows & HT & Hin)%sv_mod_done0. exists T, r0, rows.
      rewrite lookup_insert_ne by congruence. done.
  - intros T r0 c rows [[<- [= <- <- <-]]|[_ HT]]%lookup_insert_Some.
    + split_and!; [lia..|]. intros rid [x Hx]%Hdom. rewrite Hx. lia.
    + destruct (sv_done0 _ _ _ _ HT) as (? & ? & Hm). split_and!; [lia..|]. intros rid Hin. destruct (w !! rid); [lia|eauto].
  - intros T r0 w0 [Hne HT]%lookup_delete_Some. destruct (sv_open0 _ _ _ HT) as [? Hm]. split; [lia|].
    intros rid Hx. destruct (w !! rid) eqn:E; [|eauto]. exfalso. apply Hne. eapply (sv_excl0 tid T); eauto.
  - intros t1 t2 r1 r2 w1 w2 rid [_ H1]%lookup_delete_Some [_ H2]%lookup_delete_Some. eauto.
  - assert (∀ T r0 c0 rows0 rid, si_done a !! T = Some (r0, c0, rows0) →
              si_last a + 1 ≠ c0 ∧ (rid ∈ dom w → rid ∈ rows0 → c0 ≤ r)) as Hx.
    { intros T r0 c0 rows0 rid HT. destruct (sv_done0 _ _ _ _ HT) as (? & ? & Hm). split; [lia|].
      intros Hin1%Hdom Hin2. specialize (Hw _ Hin1). specialize (Hm _ Hin2). lia. }
    intros t1 t2 r1 r2 c1 c2 rows1 rows2 rid [[<- [= <- <- <-]]|[_ H1]]%lookup_insert_Some
      [[<- [= <- <- <-]]|[_ H2]]%lookup_insert_Some Hne; [done|..|eauto].
    + destruct (Hx _ _ _ _ rid H2). split; [done|]. auto.
    + destruct (Hx _ _ _ _ rid H1). split; [done|]. auto.
  - intros rid ts. destruct (w !! rid) eqn:E.
    + intros Hts. assert (ts = si_last a + 1) as -> by lia. done.
    + intros Hts. rewrite (decide_True (P := si_last a + 1 = si_last a + 1)) by done.
      case_decide; [done|]. apply sv_stable0. lia.
Qed.

Lemma si_inv_reachable a : si_reachable a → si_inv a.
Proof.
  unfold si_reachable. intros H. apply (rtc_ind_r (R := si_step) si_inv si_init); [apply si_inv_init| |done]. intros b c _ Hs HI.
  destruct Hs; [by apply si_inv_begin|by apply si_inv_write|by apply si_inv_commit|].
  destruct HI. split; simpl; try assumption.
  - intros T [x [_ ?]%lookup_delete_Some]. eauto.
  - intros T r w [_ ?]%lookup_delete_Some. eauto.
  - intros t1 t2 r1 r2 w1 w2 rid [_ ?]%lookup_delete_Some [_ ?]%lookup_delete_Some. eauto.
Qed.

(** Snapshots are immutable and snapshots of open transactions never move. *)
Lemma si_step_past a b :
  si_step a b → si_last a ≤ si_last b ∧ (∀ ts rid, ts ≤ si_last a → si_snap b ts rid = si_snap a ts rid).
Proof. destruct 1; simpl; split; try lia; try done. intros. by rewrite decide_False by lia. Qed.

Lemma si_steps_past a b :
  rtc si_step a b → si_last a ≤ si_last b ∧ (∀ ts rid, ts ≤ si_last a → si_snap b ts rid = si_snap a ts rid).
Proof.
  induction 1 as [a|a b c Hs _ [IH1 IH2]]; [done|]. destruct (si_step_past _ _ Hs) as [? Hp].
  split; [lia|]. intros. rewrite IH2, Hp by lia. done.
Qed.

(** ** Reachable states of the engine *)

Section engine.
Context {P : Type} `{!RowPage P, !RowPageLaws P}.
Implicit Types (m : Machine P) (a : SI).

Lemma steps_simulated m a m' : Inv m a → rtc step m m' → ∃ a', rtc si_step a a' ∧ Inv m' a'.
Proof.
  intros HI Hs. revert a HI. induction Hs as [m|m m1 m' Hs _ IH]; intros a HI; [by exists a|].
  destruct (step_simulated _ _ _ HI Hs) as (a1 & Ha & HI1). destruct (IH _ HI1) as (a' & ? & ?). exists a'.
  split; [|done]. destruct Ha as [->|Ha]; [done|by eapply rtc_l].
Qed.

Lemma reachable_rtc timeout m : reachable timeout m → rtc step (mc_init timeout) m.
Proof. induction 1; [done|by eapply rtc_r]. Qed.

Lemma reachable_inv timeout m : reachable timeout m → ∃ a, si_reachable a ∧ Inv m a.
Proof. intros H%reachable_rtc. by eapply steps_simulated; [apply Inv_init|]. Qed.

(** An open transaction whose commit or rollback has not started. *)
Definition reading m (tid : Z) (t : Transaction) : Prop :=
  db_txns (mc_db m) !! tid = Some t ∧ is_open t = true ∧ ¬ finalizing m tid.

Lemma reading_open m a tid t :
  Inv m a → reading m tid t →
  ∃ w, write_ctx m a tid t (read_ts_ t) w.
Proof.
  intros HI (Ht & Ho & Hnf). pose proof (inv_g _ _ HI) as Hg.
  assert (mc_undo m !! tid = None) as Hu.
  { destruct (mc_undo m !! tid) eqn:E; [|done]. exfalso. apply Hnf. right. eauto. }
  destruct (g_open' _ _ Hg _ _ Ht Ho Hu) as [[r w] Hop]. exists w.
  destruct (g_open _ _ Hg _ _ _ Hop) as (t0 & Ht0 & _ & _ & Hr & Hw). unfold mtxns in *. simplify_eq.
  split; try done. intros ph Hc. apply Hnf. left. eauto.
Qed.

(** The version walk returns what the abstract database says. *)
Lemma read_correct m a tid t oid rid :
  Inv m a → reading m tid t → in_table (mc_db m) oid rid →
  CollectVisibleVersion tid rid (mc_db m) =
    match db_row (mc_db m) rid with Some _ => Ok (si_read a tid rid) | None => Err slot_out_of_range end.
Proof.
  intros HI Hrd Hin. destruct (reading_open _ _ _ _ HI Hrd) as [w Hwc]. destruct Hrd as (Ht & Hop & Hnf).
  pose proof (inv_g _ _ HI) as Hg. pose proof (g_last _ _ Hg) as [Hl _].
  destruct (g_txn _ _ Hg _ _ Ht) as (Hid & Hlo & Hread). unfold CollectVisibleVersion. rewrite Ht.
  rewrite (get_row_spec _ _ _ (inv_db _ _ HI) Hin).
  pose proof (inv_rows _ _ HI rid) as Hr. unfold row_ok in Hr.
  destruct (db_row (mc_db m) rid) as [[mt row]|] eqn:Hrow; [|done]. cbn [mbind result_bind].
  unfold si_read. rewrite (wc_open _ _ _ _ _ _ Hwc). unfold ReconstructVisible, GetTransactionTempTs. rewrite Hid.
  pose proof (g_collected_before _ _ _ _ Hg Ht Hop) as Hcb.
  inversion Hr as [|? ? ? vs Hu _ Hm Hsn _ Hc|? ? ? vs T v [Hc Hu] _ Hv Hsn _ Hp]; subst.
  - assert (w !! rid = None) as ->.
    { destruct (w !! rid) eqn:E; [|done]. exfalso. eapply Hu. eapply cl_write; [apply Hwc|done]. }
    rewrite Hsn by lia. simpl. case_bool_decide as Hb.
    + rewrite decide_True by (destruct Hb; lia). done.
    + rewrite decide_False by naive_solver.
      rewrite (walk_committed _ _ _ (ts_ mt) vs); [done|done|done|lia|].
      apply committed_chain_length in Hc; [|by eapply g_after_snapshot|lia]. unfold walk_fuel. unfold mlast in *. lia.
  - destruct (claimed_stamp _ _ _ _ _ _ Hg Hc) as [Hgt Hst].
    destruct (claimed_txn _ _ _ _ _ _ Hg Hc) as (tT & HtT & HoT).
    destruct (decide (T = txn_id_ t)) as [->|Hne].
    + assert (ts_ mt = txn_id_ t) as Ets.
      { destruct Hst as [?|(_ & _ & rest & Hcm & _)]; [done|]. exfalso. by eapply (wc_commit _ _ _ _ _ _ Hwc). }
      rewrite Ets, bool_decide_true by (by left).
      apply claimed_iff in Hc as [(x & -> & _ & r0 & w0 & Ho0 & Hx)|(_ & _ & rest & Hun & _)].
      * pose proof (wc_open _ _ _ _ _ _ Hwc). simplify_eq. rewrite Hx, (Hv _ eq_refl). done.
      * pose proof (wc_undo _ _ _ _ _ _ Hwc). congruence.
    + rewrite bool_decide_false.
      2:{ intros [Heq|?]; [|lia]. destruct Hst as [E|(_ & ? & _)]; [congruence|lia]. }
      assert (w !! rid = None) as ->.
      { destruct (w !! rid) eqn:E; [|done]. exfalso. apply Hne. symmetry. eapply Hu. eapply cl_write; [apply Hwc|done]. }
      rewrite Hsn by lia. rewrite (walk_pending _ _ T _ vs); [done|done|by eapply g_in_map|done|].
      eapply pending_chain_bound in Hp as [_ Hlen]; [|by eapply g_after_snapshot| |].
      * unfold walk_fuel. unfold mlast in *. instantiate (1 := last_commit_ts_ (db_mgr (mc_db m))) in Hlen. lia.
      * intros t' Ht'. by apply (g_txn _ _ Hg _ _ Ht').
      * unfold mlast in *. lia.
Qed.

(** ** Growth: tables keep their pages, rows stay addressable, transaction objects only grow *)

Definition grows m m' : Prop :=
  (∀ oid rid, in_table (mc_db m) oid rid → in_table (mc_db m') oid rid) ∧
  (∀ rid, is_Some (db_row (mc_db m) rid) → is_Some (db_row (mc_db m') rid)) ∧
  txns_le (mtxns m) (mtxns m').

Lemma grows_same m m' :
  db_store (mc_db m') = db_store (mc_db m) → db_heaps (mc_db m') = db_heaps (mc_db m) →
  txns_le (mtxns m) (mtxns m') → grows m m'.
Proof.
  intros Hs Hh Htx. split; [|split; [|done]].
  - intros oid rid. unfold in_table. by rewrite Hh.
  - intros rid. by rewrite (db_row_ext (mc_db m) (mc_db m')).
Qed.

Lemma row_put_grows m m' rid y db :
  row_put rid y db (mc_db m') → db_store db = db_store (mc_db m) → db_heaps db = db_heaps (mc_db m) →
  txns_le (mtxns m) (mtxns m') → grows m m'.
Proof.
  intros (st & E & _ & Hrows) Hs Hh Htx. split; [|split; [|done]].
  - intros oid rid'. unfold in_table. rewrite E. simpl. by rewrite Hh.
  - intros rid'. rewrite Hrows, (db_row_ext (mc_db m) db) by done. destruct (decide _); [eauto|done].
Qed.

Lemma modify_grows m a tid t oid rid del row n r db' :
  Inv m a → active m tid t → in_table (mc_db m) oid rid → 0 ≤ n ≤ Z.of_nat (length row) → n < 2 ^ 16 →
  ApplyMvccModify tid oid rid del row n (mc_db m) = (r, db') → r ≠ Err EUndefined → grows m (with_db db' m).
Proof.
  intros HI (Ht & Hrun & _) Hin Hn H16 HM Hr.
  destruct (db_row (mc_db m) rid) as [[mt old]|] eqn:Hrow.
  2:{ unfold ApplyMvccModify in HM. rewrite Ht, (get_row_spec _ _ _ (inv_db _ _ HI) Hin), Hrow in HM.
      injection HM as <- <-. by apply grows_same. }
  destruct (ApplyMvccModify_row _ _ _ _ _ _ _ _ _ _ _ _ (inv_db _ _ HI) Hin Ht Hrun Hrow Hn H16 HM Hr)
    as [db1 _ Hput| |link t1 db1 _ _ HA Hput|link t1 _ _ HA|].
  - destruct (similar_append_write oid rid t) as [_ Hle]. pose proof Hput as (st & -> & _ & _).
    eapply (row_put_grows m (with_db (with_txn tid (AppendWriteSet oid rid t) (with_store st (mc_db m))) m) rid _
              (with_txn tid (AppendWriteSet oid rid t) (mc_db m))); try done.
    + destruct Hput as (st' & E & Hwf & Hrows). exists st. split; [done|]. split; [by destruct Hwf|exact Hrows].
    + by eapply txns_le_insert.
  - by apply grows_same.
  - destruct (AppendUndoLog_spec _ _ _ _ HA) as (_ & Hle & _). destruct Hput as (st & -> & Hwf & Hrows).
    split; [done|]. split.
    + intros rid'. simpl. intros Hs. rewrite (db_row_ext (with_store st (with_txn tid t1 (mc_db m)))), Hrows by done.
      destruct (decide _); [eauto|done].
    + unfold mtxns. simpl. rewrite insert_insert_eq. by eapply txns_le_insert.
  - destruct (AppendUndoLog_spec _ _ _ _ HA) as (_ & Hle & _). apply grows_same; [done..|]. by eapply txns_le_insert.
  - apply grows_same; [done..|]. eapply txns_le_insert; [done|]. split; [done|]. split; [done|]. by rewrite Hrun.
Qed.

Lemma step_grows m a m' : Inv m a → step m m' → grows m m'.
Proof.
  intros HI Hs. pose proof (inv_g _ _ HI) as Hg. destruct Hs as
    [m iso now tid db' HB|m tid t t' Ht Hlc|m oid h st' Ho HN|m tid t oid rid del row n r db' Hact Hin Hn H16 HM Hr
    |m tid t oid row r db' Hact Hn HM Hr| |m tid rid rest db' Hc HM|m tid t Hc Ht|m tid t db' Hc Ht HD
    | |m tid rid rest db' Hu HM|m tid t Hu Ht|m tid t db' Hu Ht HD| |].
  - destruct (BeginShared_inv m a iso now Hg) as (w & E & _). rewrite E in HB. injection HB as <- <-.
    apply grows_same; [done..|]. apply txns_le_fresh, (next_fresh _ _ Hg).
  - apply grows_same; [done..|]. eapply txns_le_insert; [done|].
    destruct Hlc; unfold RequestCancellation, EnterStatement; repeat case_match; by split.
  - destruct (create_grown _ _ _ _ (inv_db _ _ HI) Ho HN) as [Hgr Hrows]. split; [|split; [|done]].
    + intros o rid. by apply (grown_in_table _ oid h st').
    + intros rid Hs. change (is_Some (db_row (set_heap oid h st' (mc_db m)) rid)). by rewrite (Hrows rid).
  - by eapply modify_grows.
  - destruct Hact as (Ht & _). pose proof (MvccInsertRow_row _ _ _ _ _ _ _ (inv_db _ _ HI) Ht Hn HM Hr) as Hins.
    destruct Hins as [rid db1 _ _ Hrows Htx _ _ Htab|db1 Hrows Htx _ _ Htab]; (split; [done|split]); simpl.
    + intros rid' Hs. rewrite (db_row_ext db1), Hrows by done. destruct (decide _); [eauto|done].
    + unfold mtxns. simpl. rewrite Htx. eapply txns_le_insert; [done|]. by destruct (similar_append_write oid rid t).
    + intros rid'. by rewrite Hrows.
    + unfold mtxns. simpl. by rewrite Htx.
  - by apply grows_same.
  - destruct (g_commit _ _ Hg _ _ Hc) as (_ & _ & r & w & Ho & Hsub). destruct (Hsub rid) as [x Hx]; [set_solver|].
    destruct (claimed_row m a rid tid (Some x) (stamp m tid rid) HI) as (mt & row & Hrow & _); [by eapply cl_write|].
    destruct (MvccStampCommit_put rid (last_commit_ts_ (db_mgr (mc_db m)) + 1) _ _ _ (inv_db _ _ HI) Hrow) as (db1 & E & Hput).
    rewrite E in HM. injection HM as <-. eapply row_put_grows; [exact Hput|done|done|].
    destruct Hput as (st & -> & _). done.
  - apply grows_same; [done..|]. eapply txns_le_insert; [done|]. split; [done|]. split; [done|].
    destruct (g_commit _ _ Hg _ _ Hc) as (_ & _ & r & w & Ho & _).
    destruct (g_open _ _ Hg _ _ _ Ho) as (t0 & Ht0 & Hop & _). unfold mtxns in *. simplify_eq.
    intros Hst. by destruct (open_not_done _ Hop).
  - destruct (GInv_commit_end _ _ _ _ _ Hg Hc Ht HD) as [(Hst & Hh & Htx & _) _]. apply grows_same; [done..|].
    unfold mtxns. simpl. by rewrite Htx.
  - by apply grows_same.
  - set (m' := mkMachine db' (mc_commit m) (<[tid := Some rest]> (mc_undo m)) (mc_gc m)).
    destruct (rollback_row m a tid rid rest db' m' HI Hu HM eq_refl (rollback_unclaimed m a tid rid rest db' HI Hu))
      as (_ & Htx & _ & Hheaps & Hsome & Hrows & _). split; [|split]; simpl.
    + intros oid rid'. unfold in_table. by rewrite Hheaps.
    + intros rid'. destruct (decide (rid' = rid)) as [->|Hne]; [done|]. by destruct (Hrows _ Hne) as [-> _].
    + unfold mtxns. simpl. by rewrite Htx.
  - apply grows_same; [done..|]. eapply txns_le_insert; [done|]. split; [done|]. split; [done|].
    destruct (g_undo _ _ Hg _ _ Hu) as (_ & t0 & Ht0 & Hop). unfold mtxns in *. simplify_eq.
    intros Hst. by destruct (open_not_done _ Hop).
  - destruct (GInv_abort_end _ _ _ _ _ Hg Hu Ht HD) as [(Hst & Hh & Htx & _) _]. apply grows_same; [done..|].
    unfold mtxns. simpl. by rewrite Htx.
  - by apply grows_same.
  - by apply grows_same.
Qed.

Lemma steps_grow m a m' : Inv m a → rtc step m m' → grows m m'.
Proof.
  intros HI Hs. revert a HI. induction Hs as [m|m m1 m' Hs _ IH]; intros a HI; [by apply grows_same|].
  destruct (step_grows _ _ _ HI Hs) as (G1 & G2 & G3). destruct (step_simulated _ _ _ HI Hs) as (a1 & _ & HI1).
  destruct (IH _ HI1) as (K1 & K2 & K3). split; [eauto|]. split; [eauto|]. by etrans.
Qed.
End engine.

(** * Conflicts, validation and commit in reachable states

    Consequences of the simulation for the operations a transaction performs: when a write is
    refused, what serializable validation guarantees, and that a commit or rollback that has started
    runs to its end. *)

Section engine.
Context {P : Type} `{!RowPage P, !RowPageLaws P}.
Implicit Types (m : Machine P) (a : SI) (mt : TupleMeta).

(** ** Write-write conflicts *)

(** [T] has written [rid] and neither committed it nor rolled it back yet. *)
Definition holds m (T : Z) (rid : RID) : Prop :=
  (∃ u, db_txns (mc_db m) !! T = Some u ∧ is_open u = true ∧ mc_undo m !! T = None ∧ writes u rid) ∨
  (∃ rest, mc_undo m !! T = Some (Some rest) ∧ rid ∈ rest).
(** [T] committed a version of [rid] after timestamp [ts]. *)
Definition committed_after m (ts T : Z) (rid : RID) : Prop :=
  ∃ u, db_txns (mc_db m) !! T = Some u ∧ state_ u = COMMITTED ∧ ts < txn_commit_ts_ u ∧ writes u rid.

Lemma holds_claimed m a T rid : Inv m a → holds m T rid ↔ ∃ v s, claimed m a rid T v s.
Proof.
  intros HI. pose proof (inv_g _ _ HI) as Hg. split.
  - intros [(u & Hu & Ho & Hn & Hw)|(rest & Hr & Hin)]; [|exists None, T; by eapply cl_undo].
    destruct (g_open' _ _ Hg _ _ Hu Ho Hn) as [[r w] Hop].
    destruct (g_open _ _ Hg _ _ _ Hop) as (u0 & Hu0 & _ & _ & _ & Hw0). unfold mtxns in *. simplify_eq.
    apply Hw0 in Hw as [x Hx]. exists (Some x). eexists. by eapply cl_write.
  - intros (v & s & [(x & -> & -> & r & w & Hop & Hx)|(-> & -> & rest & Hr & Hin)]%claimed_iff); [left|right; eauto].
    destruct (g_open _ _ Hg _ _ _ Hop) as (u & Hu & Ho & Hn & _ & Hw). exists u. split_and!; [done..|]. apply Hw. eauto.
Qed.

Lemma committed_after_mod m a ts T rid : Inv m a → si_inv a → committed_after m ts T rid → ts < si_mod a rid.
Proof.
  intros HI Hs (u & Hu & Hst & Hts & Hw). destruct (g_committed _ _ (inv_g _ _ HI) _ _ Hu Hst) as (_ & rows & Hd & Hrows).
  destruct (sv_done _ Hs _ _ _ _ Hd) as (_ & _ & Hm). specialize (Hm rid). rewrite Hrows in Hm. specialize (Hm Hw). lia.
Qed.

Lemma mod_committed_after m a ts rid : Inv m a → si_inv a → 0 ≤ ts < si_mod a rid → ∃ T, committed_after m ts T rid.
Proof.
  intros HI Hs Hts. destruct (sv_mod_done _ Hs rid) as (T & r & rows & Hd & Hin); [lia|].
  destruct (g_done _ _ (inv_g _ _ HI) T) as (u & Hu & Hst); [eauto|]. exists T, u. split_and!; try done.
  - destruct (g_committed _ _ (inv_g _ _ HI) _ _ Hu Hst) as (_ & rows' & Hd' & _). rewrite Hd in Hd'. simplify_eq. lia.
  - destruct (g_committed _ _ (inv_g _ _ HI) _ _ Hu Hst) as (_ & rows' & Hd' & Hrows). rewrite Hd in Hd'. simplify_eq.
    by apply Hrows.
Qed.

(** The branch of [ApplyMvccModify] that refuses the write. *)
Lemma modify_conflict_branch tid oid rid del row n db t mt old :
  db_wf db → in_table db oid rid → db_txns db !! tid = Some t → state_ t = RUNNING →
  db_row db rid = Some (mt, old) → 0 ≤ n ≤ Z.of_nat (length row) → n < 2 ^ 16 →
  (ApplyMvccModify tid oid rid del row n db).1 = Err write_write_conflict ↔ ts_ mt ≠ txn_id_ t ∧ read_ts_ t < ts_ mt.
Proof.
  intros Hw Hin Ht Hrun Hrow Hn H16. unfold ApplyMvccModify. rewrite Ht, (get_row_spec _ _ _ Hw Hin), Hrow.
  unfold GetTransactionTempTs. case_bool_decide as Hown; [|case_bool_decide as Hrd].
  - destruct (apply_base_put (txn_id_ t) rid del row n mt old db Hw Hrow Hn H16) as [(db1 & -> & _)|(e & -> & He)]; simpl.
    + naive_solver.
    + set_unfold in He. unfold update_too_large in He. unfold write_write_conflict. naive_solver.
  - destruct (AppendUndoLog _ t) as [link t1] eqn:HA.
    destruct (apply_base_put (txn_id_ t) rid del row n mt old (with_txn tid t1 db)) as [(db1 & -> & _)|(e & -> & He)];
      [by destruct Hw|done..| |]; simpl.
    + split; [done|lia].
    + set_unfold in He. unfold update_too_large in He. unfold write_write_conflict. naive_solver lia.
  - unfold ThrowWriteWriteConflict, SetTainted. rewrite Hrun, bool_decide_false by naive_solver. simpl.
    split; [|done]. intros _. split; [done|lia].
Qed.

Lemma conflict_iff m a tid t oid rid del row n :
  Inv m a → si_inv a → active m tid t → in_table (mc_db m) oid rid → is_Some (db_row (mc_db m) rid) →
  0 ≤ n ≤ Z.of_nat (length row) → n < 2 ^ 16 →
  (ApplyMvccModify tid oid rid del row n (mc_db m)).1 = Err write_write_conflict ↔
  ∃ T, T ≠ tid ∧ (holds m T rid ∨ committed_after m (read_ts_ t) T rid).
Proof.
  intros HI Hs Hact Hin [[mt old] Hrow] Hn H16. destruct (active_ctx _ _ _ _ HI Hact) as (r & w & Hwc).
  destruct Hact as (Ht & Hrun & _). pose proof (inv_g _ _ HI) as Hg. destruct (g_txn _ _ Hg _ _ Ht) as (Hid & Hlo & Hread).
  rewrite (modify_conflict_branch _ _ _ _ _ _ _ _ _ _ (inv_db _ _ HI) Hin Ht Hrun Hrow Hn H16).
  pose proof (g_last _ _ Hg) as [Hl _].
  assert (∀ T, committed_after m (read_ts_ t) T rid → T ≠ tid) as Hca.
  { intros T (u & Hu & Hst & _) ->. unfold mtxns in *. simplify_eq. congruence. }
  pose proof (inv_rows _ _ HI rid) as Hr. unfold row_ok in Hr. rewrite Hrow in Hr.
  inversion Hr as [|? ? ? vs Hu _ Hm _ Hmd _|? ? ? vs T0 v [Hc Hu] _ _ _ Hmd Hp]; subst.
  - split.
    + intros [_ Hlt]. destruct (mod_committed_after m a (read_ts_ t) rid HI Hs) as [T HT]; [rewrite Hmd; lia|].
      exists T. split; [by apply Hca|by right].
    + intros (T & Hne & [Hh|Hcm]).
      * apply (holds_claimed _ a) in Hh as (v & s & Hc); [|done]. by destruct (Hu _ _ _ Hc).
      * pose proof (committed_after_mod _ _ _ _ _ HI Hs Hcm). rewrite Hmd in *. split; [lia|done].
  - destruct (claimed_stamp _ _ _ _ _ _ Hg Hc) as [Hgt Hst]. split.
    + intros [Hne _]. exists T0. assert (T0 ≠ txn_id_ t).
      { intros ->. destruct Hst as [?|(_ & _ & rest & Hcm & _)]; [done|]. by eapply (wc_commit _ _ _ _ _ _ Hwc). }
      split; [done|]. left. apply (holds_claimed _ a); eauto.
    + intros (T & Hne & HT). split; [|lia]. intros Hts.
      destruct (own_row _ _ _ _ _ _ _ _ _ HI Hwc Hrow Hts) as (_ & Hown & Hmod).
      rewrite <- (wc_read _ _ _ _ _ _ Hwc) in Hmod. destruct HT as [Hh|Hcm].
      * apply (holds_claimed _ a) in Hh as (v' & s & Hc'); [|done]. apply Hne. by eapply Hown.
      * pose proof (committed_after_mod _ _ _ _ _ HI Hs Hcm). lia.
Qed.

(** ** Serializable validation *)

(** Does a version satisfy one of the transaction's scan predicates on the table? *)
Definition read_by (t : Transaction) (oid : Z) (v : option (list byte)) : bool :=
  match v with Some row => IsScanTuple oid row t | None => false end.

(** The versions newer than a snapshot and the one it sees: does any satisfy a predicate? *)
Fixpoint scan_versions (t : Transaction) (oid : Z) (vs : list version) : bool :=
  match vs with
  | [] => false
  | (ts, v) :: vs => read_by t oid v || (if decide (ts ≤ read_ts_ t) then false else scan_versions t oid vs)
  end.

Lemma scan_versions_false t oid vs ts :
  scan_versions t oid vs = false → head_ts vs ≤ ts →
  read_by t oid (lookup_at (read_ts_ t) vs) = false ∧ read_by t oid (lookup_at ts vs) = false.
Proof.
  intros Hsc Hts. split.
  - clear Hts. induction vs as [|[x v] vs IH]; simpl in *; [done|]. apply orb_false_iff in Hsc as [? ?].
    destruct (decide (x ≤ read_ts_ t)); auto.
  - destruct vs as [|[x v] vs]; simpl in *; [done|]. rewrite decide_True by done. by apply orb_false_iff in Hsc as [? _].
Qed.

Lemma read_by_log t oid log : negb (log_is_deleted_ log) && IsScanTuple oid (log_row_ log) t = read_by t oid (log_val log).
Proof. unfold read_by, log_val. by destruct (log_is_deleted_ log). Qed.

Lemma conflict_walk_committed fuel t oid lk hi vs (db : Db P) :
  committed_chain (db_txns db) lk hi vs → collected_before (read_ts_ t) db → read_ts_ t < hi →
  (length vs ≤ fuel)%nat → conflict_walk fuel t oid lk db = Ok (scan_versions t oid vs).
Proof.
  intros Hc Hcb. revert fuel. induction Hc as [|l hi HV|l u log vs HV Ht Hs Hlog Hts Hsh Hc IH]; intros fuel Hlt Hf.
  - by destruct fuel.
  - destruct fuel; simpl; by rewrite HV.
  - destruct fuel as [|f]; [simpl in Hf; lia|]. cbn [conflict_walk scan_versions]. rewrite HV. cbn [negb].
    unfold GetUndoLogOptional. rewrite bool_decide_true.
    2:{ destruct (decide (prev_txn_ l ∈ txn_map_ (db_mgr db))) as [|Hni]; [done|].
        exfalso. specialize (Hcb _ _ Ht Hs Hni). lia. }
    rewrite Ht. cbn [mbind option_bind]. rewrite Hlog. cbn [mbind result_bind]. rewrite read_by_log. destruct (read_by t oid (log_val log)); [done|]. simpl.
    case_bool_decide; [by rewrite decide_True|]. rewrite decide_False by done. apply IH; [lia|simpl in Hf; lia].
Qed.

Lemma conflict_walk_pending fuel t oid tid lk vs (db : Db P) :
  pending_chain (db_txns db) tid lk vs → tid ∈ txn_map_ (db_mgr db) → collected_before (read_ts_ t) db →
  (length vs ≤ fuel)%nat → conflict_walk fuel t oid lk db = Ok (scan_versions t oid vs).
Proof.
  intros Hp Hin Hcb Hf. destruct Hp as [|l u log vs HV Hl Ht Hlog Hts Hsh Hc]; [by destruct fuel|].
  destruct fuel as [|f]; [simpl in Hf; lia|]. cbn [conflict_walk scan_versions]. rewrite HV. cbn [negb].
  unfold GetUndoLogOptional. subst tid. rewrite bool_decide_true by done.
  rewrite Ht. cbn [mbind option_bind]. rewrite Hlog. cbn [mbind result_bind]. rewrite read_by_log. destruct (read_by t oid (log_val log)); [done|]. simpl.
  case_bool_decide; [by rewrite decide_True|]. rewrite decide_False by done.
  eapply conflict_walk_committed; eauto; [lia|simpl in Hf; lia].
Qed.

(** Outside a commit, the check of one row scans exactly its committed versions. *)
Lemma rid_conflicts m a tid t oid rid :
  Inv m a → reading m tid t → mc_commit m = None → in_table (mc_db m) oid rid → is_Some (db_row (mc_db m) rid) →
  ∃ vs, RidConflictsWithReads (walk_fuel (mc_db m)) t oid rid (mc_db m) = Ok (scan_versions t oid vs) ∧
    0 ≤ head_ts vs ≤ mlast m ∧ ∀ ts, 0 ≤ ts ≤ mlast m → si_snap a ts rid = lookup_at ts vs.
Proof.
  intros HI (Ht & Hop & Hnf) Hcm Hin [[mt row] Hrow]. pose proof (inv_g _ _ HI) as Hg.
  pose proof (g_last _ _ Hg) as [Hl _]. pose proof (g_collected_before _ _ _ _ Hg Ht Hop) as Hcb.
  unfold RidConflictsWithReads. rewrite (get_row_spec _ _ _ (inv_db _ _ HI) Hin), Hrow. cbn [mbind result_bind].
  pose proof (inv_rows _ _ HI rid) as Hr. unfold row_ok in Hr. rewrite Hrow in Hr. unfold IsTempTs.
  inversion Hr as [|? ? ? vs Hu _ Hm Hsn _ Hc|? ? ? vs T v [Hc Hu] _ Hv Hsn _ Hp]; subst.
  - exists ((ts_ mt, meta_val mt row) :: vs). split; [|done]. rewrite bool_decide_false by lia. cbn [negb andb scan_versions].
    assert (negb (is_deleted_ mt) && IsScanTuple oid row t = read_by t oid (meta_val mt row)) as ->.
    { unfold read_by, meta_val. by destruct (is_deleted_ mt). }
    destruct (read_by t oid (meta_val mt row)); [done|]. simpl.
    case_bool_decide; [by rewrite decide_True|]. rewrite decide_False by done.
    rewrite (conflict_walk_committed _ _ _ _ (ts_ mt) vs); [done|done|done|lia|].
    apply committed_chain_length in Hc; [|by eapply g_after_snapshot|lia]. unfold walk_fuel, mlast in *. lia.
  - destruct (claimed_stamp _ _ _ _ _ _ Hg Hc) as [Hgt [->|(_ & _ & rest & ? & _)]]; [|congruence].
    destruct (claimed_txn _ _ _ _ _ _ Hg Hc) as (tT & HtT & HoT). destruct (g_txn _ _ Hg _ _ HtT) as (_ & HloT & _).
    eapply (pending_chain_bound _ _ _ _ (mlast m)) in Hp as Hb; [|by eapply g_after_snapshot| |lia].
    2:{ intros t' Ht'. by apply (g_txn _ _ Hg _ _ Ht'). }
    exists vs. split; [|split; [lia|done]]. rewrite bool_decide_true by lia. cbn [negb andb].
    rewrite (conflict_walk_pending _ _ _ T _ vs); [done|done|by eapply g_in_map|done|].
    unfold walk_fuel, mlast in *. lia.
Qed.

Lemma elem_of_suspects tid t (db : Db P) oid rid :
  (oid, rid) ∈ suspects tid t db ↔
  ∃ T u rids, T ∈ txn_map_ (db_mgr db) ∧ db_txns db !! T = Some u ∧ T ≠ tid ∧ state_ u = COMMITTED ∧
    read_ts_ t < txn_commit_ts_ u ∧ write_set_ u !! oid = Some rids ∧ rid ∈ rids.
Proof.
  unfold suspects. rewrite list_elem_of_bind. split.
  - intros (T & Hin & HT%elem_of_elements). destruct (db_txns db !! T) as [u|] eqn:E; [|set_solver].
    repeat case_bool_decide; try set_solver.
    apply list_elem_of_bind in Hin as ([o rids] & Hin & Ho%elem_of_map_to_list).
    apply list_elem_of_fmap in Hin as (r & [= -> ->] & Hr%elem_of_elements).
    exists T, u, rids. split_and!; try done; try lia; by apply dec_stable.
  - intros (T & u & rids & HT & Hu & Hne & Hst & Hlt & Hw & Hr). exists T. split; [|by apply elem_of_elements].
    rewrite Hu, bool_decide_false by done. rewrite bool_decide_false by naive_solver. rewrite bool_decide_false by lia.
    apply list_elem_of_bind. exists (oid, rids). split; [|by apply elem_of_map_to_list].
    apply list_elem_of_fmap. exists rid. split; [done|]. by apply elem_of_elements.
Qed.

(** A row somebody committed exists. *)
Lemma committed_row_exists m a T u rid :
  Inv m a → si_inv a → mtxns m !! T = Some u → state_ u = COMMITTED → writes u rid → is_Some (db_row (mc_db m) rid).
Proof.
  intros HI Hs Hu Hst Hw.
  assert (0 < si_mod a rid).
  { destruct (g_txn _ _ (inv_g _ _ HI) _ _ Hu) as (_ & _ & ?). destruct (g_committed _ _ (inv_g _ _ HI) _ _ Hu Hst) as [? _].
    eapply (committed_after_mod m a 0 T rid HI Hs). exists u. do 2 (split; [done|]). split; [lia|done]. }
  pose proof (inv_rows _ _ HI rid) as Hr. unfold row_ok in Hr. inversion Hr; eauto. lia.
Qed.

Lemma check_suspects_spec m a tid t l :
  Inv m a → reading m tid t → mc_commit m = None →
  (∀ oid rid, (oid, rid) ∈ l → in_table (mc_db m) oid rid ∧ is_Some (db_row (mc_db m) rid)) →
  ∃ b, check_suspects (walk_fuel (mc_db m)) t l (mc_db m) = Ok b ∧
    (b = true → ∀ oid rid, (oid, rid) ∈ l →
       RidConflictsWithReads (walk_fuel (mc_db m)) t oid rid (mc_db m) = Ok false).
Proof.
  intros HI Hrd Hcm. induction l as [|[oid rid] l IH]; intros Hl; [exists true; split; [done|set_solver]|].
  destruct (Hl oid rid) as [Hin Hrow]; [set_solver|]. simpl. destruct Hin as (? & h & Hh & ?). rewrite Hh.
  destruct (rid_conflicts m a tid t oid rid HI Hrd Hcm) as (vs & E & _); [by split; eauto|done|].
  rewrite E. cbn [mbind result_bind]. destruct (scan_versions t oid vs); [by exists false|].
  destruct IH as (b & Eb & Hb); [intros o r Ho; apply Hl, elem_of_cons; by right|]. exists b. split; [done|].
  intros Ht o r [[= -> ->]|Hin]%elem_of_cons; [done|by apply Hb].
Qed.

Lemma VerifyTxn_sound m a tid t :
  Inv m a → si_inv a → reading m tid t → mc_commit m = None → isolation_level_ t = SERIALIZABLE → write_set_ t ≠ ∅ →
  ∃ b, VerifyTxn tid (mc_db m) = Ok b ∧
    (b = true → ∀ oid rid, in_table (mc_db m) oid rid → si_snap a (read_ts_ t) rid ≠ si_snap a (mlast m) rid →
       read_by t oid (si_snap a (read_ts_ t) rid) = false ∧ read_by t oid (si_snap a (mlast m) rid) = false).
Proof.
  intros HI Hs Hrd Hcm Hiso Hws. pose proof (inv_g _ _ HI) as Hg. pose proof Hrd as (Ht & Hop & _).
  destruct (g_txn _ _ Hg _ _ Ht) as (_ & _ & Hread). pose proof (g_last _ _ Hg) as [_ Ha].
  unfold VerifyTxn. rewrite Ht, bool_decide_false by naive_solver. rewrite bool_decide_false by done.
  destruct (check_suspects_spec m a tid t (suspects tid t (mc_db m)) HI Hrd Hcm) as (b & E & Hb).
  { intros oid rid (T & u & rids & _ & Hu & _ & Hst & _ & Hw & Hr)%elem_of_suspects.
    split; [by eapply (inv_writes _ _ HI T u)|]. eapply committed_row_exists; eauto. by exists oid, rids. }
  exists b. split; [done|]. intros Hbt oid rid Hin Hdiff.
  assert (read_ts_ t < si_mod a rid) as Hmod.
  { destruct (decide (si_mod a rid ≤ read_ts_ t)); [|lia]. exfalso. apply Hdiff. rewrite <- Ha.
    apply (sv_stable _ Hs). lia. }
  destruct (mod_committed_after m a (read_ts_ t) rid HI Hs) as (T & u & Hu & Hst & Hlt & oid' & rids & Hw & Hr); [lia|].
  assert (in_table (mc_db m) oid' rid) as Hin' by (by eapply (inv_writes _ _ HI T u)).
  assert (oid' = oid) as ->.
  { destruct Hin as (_ & h & Hh & Hp), Hin' as (_ & h' & Hh' & Hp'). by eapply (dw_disj _ (inv_db _ _ HI)). }
  destruct (rid_conflicts m a tid t oid rid HI Hrd Hcm Hin) as (vs & Ev & Hh & Hsn).
  { eapply committed_row_exists; eauto. by exists oid, rids. }
  assert ((oid, rid) ∈ suspects tid t (mc_db m)) as Hsus.
  { apply elem_of_suspects. exists T, u, rids. split_and!; try done.
    - destruct (decide (T ∈ txn_map_ (db_mgr (mc_db m)))); [done|].
      pose proof (g_collected_before _ _ _ _ Hg Ht Hop _ _ Hu Hst). exfalso. assert (txn_commit_ts_ u ≤ read_ts_ t) by auto. lia.
    - intros ->. simplify_eq. by destruct (open_not_done _ Hop). }
  rewrite (Hb Hbt _ _ Hsus) in Ev. injection Ev as Ev. rewrite !Hsn by lia.
  apply scan_versions_false; [done|lia].
Qed.

(** ** Commits and rollbacks run to their end *)

Lemma stamp_all_steps rest m a tid :
  Inv m a → mc_commit m = Some (tid, Some rest) →
  ∃ db', stamp_all rest (mlast m + 1) (mc_db m) = (Ok tt, db') ∧
    db_txns db' = mtxns m ∧ db_mgr db' = db_mgr (mc_db m) ∧
    rtc step m (mkMachine db' (Some (tid, Some [])) (mc_undo m) (mc_gc m)).
Proof.
  revert m a. induction rest as [|rid rest IH]; intros m a HI Hc.
  { exists (mc_db m). split_and!; try done. replace (mkMachine _ _ _ _) with m; [done|]. destruct m; simpl in *; by subst. }
  destruct (g_commit _ _ (inv_g _ _ HI) _ _ Hc) as (_ & _ & r & w & Ho & Hsub). destruct (Hsub rid) as [x Hx]; [set_solver|].
  destruct (claimed_row m a rid tid (Some x) (stamp m tid rid) HI) as (mt & row & Hrow & _); [by eapply cl_write|].
  destruct (MvccStampCommit_put rid (mlast m + 1) _ _ _ (inv_db _ _ HI) Hrow) as (db1 & E & Hput).
  destruct Hput as (st & -> & _ & _). set (m1 := mkMachine (with_store st (mc_db m)) (Some (tid, Some rest)) (mc_undo m) (mc_gc m)).
  assert (step m m1) as Hs by (by eapply SStamp).
  destruct (sim_stamp _ _ _ _ _ _ HI Hc E) as (a1 & _ & HI1).
  destruct (IH m1 a1 HI1 eq_refl) as (db' & E' & Htx & Hm & Hrtc). exists db'. simpl. rewrite E.
  split_and!; try done. by eapply rtc_l.
Qed.

Lemma commit_steps m a tid t :
  Inv m a → active m tid t → mc_commit m = None → mlast m + 1 < TXN_START_ID →
  ∃ db', commit_validated tid t (mc_db m) = (Ok true, db') ∧
    rtc step m (mkMachine db' None (mc_undo m) (mc_gc m)) ∧
    last_commit_ts_ (db_mgr db') = mlast m + 1 ∧
    db_txns db' !! tid = Some (set_state COMMITTED (set_commit_ts (mlast m + 1) t)).
Proof.
  intros HI Hact Hc Hl. set (rest := (write_list (mc_db m) t).*2).
  set (m1 := mkMachine (mc_db m) (Some (tid, Some rest)) (mc_undo m) (mc_gc m)).
  assert (step m m1) as Hs1 by (by eapply SCommitStart).
  destruct (sim_commit_start _ _ _ _ HI Hact Hc Hl) as (a1 & _ & HI1). fold rest in HI1. fold m1 in HI1.
  destruct (stamp_all_steps rest m1 a1 tid HI1 eq_refl) as (db2 & E2 & Htx2 & Hm2 & Hr2).
  change (mtxns m1) with (mtxns m) in Htx2. change (mlast m1) with (mlast m) in E2.
  change (mc_db m1) with (mc_db m) in E2.
  destruct (steps_simulated _ _ _ HI1 Hr2) as (a2 & _ & HI2).
  set (m2 := mkMachine db2 (Some (tid, Some [])) (mc_undo m) (mc_gc m)) in *.
  change (Inv m2 a2) in HI2.
  assert (mtxns m2 !! tid = Some t) as Ht2 by (unfold mtxns; simpl; rewrite Htx2; apply Hact).
  assert (mlast m2 = mlast m) as El2 by (unfold mlast; simpl; by rewrite Hm2).
  set (db3 := publish_commit tid t (mlast m + 1) db2).
  set (m3 := mkMachine db3 (Some (tid, None)) (mc_undo m) (mc_gc m)).
  assert (step m2 m3) as Hs3.
  { subst m3 db3. rewrite <- El2. by apply (SPublish m2 tid t). }
  destruct (sim_publish m2 a2 tid t HI2 eq_refl Ht2) as (a3 & _ & HI3). rewrite El2 in HI3. fold db3 in HI3. fold m3 in HI3.
  set (t' := set_state COMMITTED (set_commit_ts (mlast m + 1) t)).
  assert (mtxns m3 !! tid = Some t') as Ht3 by (unfold mtxns; simpl; apply lookup_insert_eq).
  destruct (deregister_inv m3 tid t' (Some (mlast m3)) (g_wm _ _ (inv_g _ _ HI3))) as (db4 & E4 & How & _);
    [by right; left|done|naive_solver|].
  pose proof How as (_ & _ & Htx4 & _ & _ & Hl4 & _).
  assert (step m3 (mkMachine db4 None (mc_undo m) (mc_gc m))) as Hs4.
  { eapply (SCommitEnd m3 tid t'); done. }
  exists db4. split_and!.
  - unfold commit_validated. fold rest. change (last_commit_ts_ (db_mgr (mc_db m))) with (mlast m). rewrite E2.
    fold db3. replace (deregister t (Some (mlast m + 1)) db3) with (deregister t' (Some (mlast m3)) (mc_db m3)) by done.
    by rewrite E4.
  - eapply rtc_l; [done|]. etrans; [exact Hr2|]. eapply rtc_l; [done|]. by apply rtc_once.
  - rewrite Hl4. done.
  - rewrite Htx4. done.
Qed.

(** A rollback returns, or stops at a pre-image that does not fit its page any more. *)
Lemma rollback_all_steps rest m a tid :
  Inv m a → mc_undo m !! tid = Some (Some rest) →
  ∃ r db', rollback_all tid rest (mc_db m) = (r, db') ∧
    match r with
    | Ok _ => db_txns db' = mtxns m ∧
        rtc step m (mkMachine db' (mc_commit m) (<[tid := Some []]> (mc_undo m)) (mc_gc m))
    | Err e => e = restore_failed ∨ e = EUndefined
    end.
Proof.
  revert m a. induction rest as [|rid rest IH]; intros m a HI Hu.
  { exists (Ok tt), (mc_db m). split; [done|]. split; [done|]. replace (mkMachine _ _ _ _) with m; [done|].
    destruct m as [db c u g]; simpl in *. f_equal. symmetry. by apply insert_id. }
  simpl. destruct (MvccRollback tid rid (mc_db m)) as [[[]|e] db1] eqn:E.
  - set (m1 := mkMachine db1 (mc_commit m) (<[tid := Some rest]> (mc_undo m)) (mc_gc m)).
    assert (step m m1) as Hs by (by eapply SRollback).
    destruct (sim_rollback _ _ _ _ _ _ HI Hu E) as (a1 & _ & HI1).
    destruct (IH m1 a1 HI1) as (r & db' & E' & Hr); [apply lookup_insert_eq|]. exists r, db'. split; [done|].
    destruct r; [|done]. destruct Hr as [Htx Hrtc].
    destruct (rollback_row m a tid rid rest db1 m1 HI Hu E eq_refl (rollback_unclaimed m a tid rid rest db1 HI Hu)) as (_ & Htx1 & _).
    simpl in Hrtc. rewrite insert_insert_eq in Hrtc. split; [|by eapply rtc_l]. rewrite Htx. done.
  - exists (Err e), db1. split; [done|].
    destruct (g_undo _ _ (inv_g _ _ HI) _ _ Hu) as (_ & t & Ht & _).
    destruct (claimed_row m a rid tid None tid HI) as (mt & row & Hrow & _); [eapply cl_undo; [done|set_solver]|].
    destruct (MvccRollback_outcome tid rid _ _ _ _ (inv_db _ _ HI) Hrow Ht) as [[db' E']|[E'|E']];
      rewrite E' in E; naive_solver.
Qed.

Lemma abort_steps m a tid t :
  Inv m a → reading m tid t →
  ∃ r db', Abort tid (mc_db m) = (r, db') ∧
    match r with
    | Ok _ => rtc step m (mkMachine db' (mc_commit m) (mc_undo m) (mc_gc m)) ∧
              db_txns db' !! tid = Some (set_state ABORTED t)
    | Err e => e = restore_failed ∨ e = EUndefined
    end.
Proof.
  intros HI (Ht & Hop & Hnf). set (rest := (write_list (mc_db m) t).*2).
  assert (mc_undo m !! tid = None) as Hu.
  { destruct (mc_undo m !! tid) eqn:E; [|done]. exfalso. apply Hnf. right. eauto. }
  set (m1 := mkMachine (mc_db m) (mc_commit m) (<[tid := Some rest]> (mc_undo m)) (mc_gc m)).
  assert (step m m1) as Hs1 by (by eapply SAbortStart).
  destruct (sim_abort_start _ _ _ _ HI Ht Hop Hnf) as (a1 & _ & HI1). fold rest in HI1. fold m1 in HI1.
  destruct (rollback_all_steps rest m1 a1 tid HI1) as (r & db2 & E2 & Hr2); [apply lookup_insert_eq|].
  assert (Abort tid (mc_db m) = match rollback_all tid rest (mc_db m) with
            | (Err e, db) => (Err e, db)
            | (Ok _, db) => deregister t None (with_txn tid (set_state ABORTED t) db) end) as ->.
  { unfold Abort. rewrite Ht. unfold is_open in Hop. by destruct (state_ t). }
  change (mc_db m1) with (mc_db m) in E2. rewrite E2. destruct r as [[]|e]; [|eauto].
  destruct Hr2 as [Htx2 Hr2]. simpl in Hr2. rewrite insert_insert_eq in Hr2.
  destruct (steps_simulated _ _ _ HI1 Hr2) as (a2 & _ & HI2).
  set (m2 := mkMachine db2 (mc_commit m) (<[tid := Some []]> (mc_undo m)) (mc_gc m)) in *.
  assert (mtxns m2 !! tid = Some t) as Ht2 by (unfold mtxns; simpl; by rewrite Htx2).
  assert (mc_undo m2 !! tid = Some (Some [])) as Hu2 by apply lookup_insert_eq.
  set (db3 := with_txn tid (set_state ABORTED t) db2).
  set (m3 := mkMachine db3 (mc_commit m) (<[tid := None]> (mc_undo m)) (mc_gc m)).
  assert (step m2 m3) as Hs3.
  { subst m3. rewrite <- (insert_insert_eq (mc_undo m) tid None (Some [])). by eapply (SAborted m2). }
  destruct (sim_aborted _ _ _ _ HI2 Hu2 Ht2) as (a3 & _ & HI3). simpl in HI3. rewrite insert_insert_eq in HI3.
  fold db3 in HI3. fold m3 in HI3.
  assert (mtxns m3 !! tid = Some (set_state ABORTED t)) as Ht3 by (unfold mtxns; simpl; apply lookup_insert_eq).
  destruct (deregister_inv m3 tid (set_state ABORTED t) None (g_wm _ _ (inv_g _ _ HI3))) as (db4 & E4 & How & _);
    [right; right; apply lookup_insert_eq|done|done|].
  pose proof How as (_ & _ & Htx4 & _).
  exists (Ok tt), db4. change (deregister t None db3) with (deregister (set_state ABORTED t) None (mc_db m3)).
  split; [done|]. split; [|by rewrite Htx4].
  eapply rtc_l; [done|]. etrans; [exact Hr2|]. eapply rtc_l; [done|]. apply rtc_once.
  replace (mc_undo m) with (delete tid (mc_undo m3)) at 1.
  - eapply (SAbortEnd m3 tid (set_state ABORTED t)); try done. apply lookup_insert_eq.
  - simpl. rewrite delete_insert_eq. by apply delete_id.
Qed.
End engine.
