(* ===== verification/IsolationTheorems.v ===== *)
(** * The isolation guarantees of the engine

    The theorems of the transaction layer, stated for the machine over slotted pages: every reachable
    interleaving of the engine is an execution of the abstract snapshot-isolation database, and what
    this means for reads, writes, commits, rollbacks and serializable validation. *)

From S2P Require Import Prelude TablePage TableHeap Watermark Transaction Mvcc RowInvariant SnapshotSpec MachineInvariant MachineSteps Simulation Isolation.

Implicit Types (m : Machine TablePage) (a : SI).



(** ** Concrete schedules *)

Definition T1 : Z := TXN_START_ID.
Definition T2 : Z := TXN_START_ID + 1.
Definition T3 : Z := TXN_START_ID + 2.
Definition the_row : RID := mkRID 0 0.

(** [T1] inserts a row into table 7 and commits. *)
Definition setup : list Command :=
  [CCreate 7; CBegin SNAPSHOT_ISOLATION; CInsert T1 7 [x61; x62]; CCommitStart T1; CStamp; CPublish; CCommitEnd].
(** Two readers of the committed row; the first one updates it. *)
Definition two_readers : list Command :=
  setup ++ [CBegin SNAPSHOT_ISOLATION; CBegin SNAPSHOT_ISOLATION; CUpdate T2 7 the_row [x63]].
(** ... commits it, and the collector runs. *)
Definition after_commit : list Command :=
  two_readers ++ [CCommitStart T2; CStamp; CPublish; CCommitEnd; CWatermark; CReclaim].

Definition state_after (cs : list Command) : Machine TablePage := default (mc_init 100) (run cs (mc_init 100)).
Definition txn_of (m : Machine TablePage) (tid : Z) : Transaction :=
  default (new_Transaction 0 SNAPSHOT_ISOLATION 0 0) (db_txns (mc_db m) !! tid).

Lemma state_after_reachable cs : is_Some (run cs (mc_init (P := TablePage) 100)) → reachable 100 (state_after cs).
Proof. intros [m Hm]. unfold state_after. rewrite Hm. by eapply run_reachable. Qed.

Lemma run_app cs1 cs2 m : run (cs1 ++ cs2) m = run cs1 m ≫= run cs2.
Proof. revert m. induction cs1 as [|c cs1 IH]; intros m; simpl; [done|]. destruct (exec c m); simpl; [apply IH|done]. Qed.


Ltac scenario := vm_compute; first [reflexivity | by eexists].

Lemma reach_two_readers : reachable 100 (state_after two_readers).
Proof. apply state_after_reachable. scenario. Qed.
Lemma row_in_table_after : in_table (mc_db (state_after after_commit)) 7 the_row.
Proof. apply in_tableb_spec. scenario. Qed.

(** ** The theorems *)














(** ** Commit and rollback run to their end *)

Lemma reachable_steps timeout m m' : reachable timeout m → rtc step m m' → reachable timeout m'.
Proof. intros H. induction 1 as [|m m1 m' Hs _ IH]; [done|]. apply IH. by eapply reach_step. Qed.

Lemma Commit_validated m tid t :
  active m tid t → cancellation_requested_ t = false →
  (isolation_level_ t = SERIALIZABLE → VerifyTxn tid (mc_db m) = Ok true) →
  Commit tid (mc_db m) = commit_validated tid t (mc_db m).
Proof.
  intros (Ht & Hrun & _) Hc Hv. unfold Commit. rewrite Ht, Hc, Hrun. rewrite (bool_decide_false (RUNNING ≠ RUNNING)) by naive_solver.
  case_bool_decide as Hi; [|done]. by rewrite (Hv Hi).
Qed.

(** C6: committing succeeds: for a running transaction that was not cancelled and - if serializable -
    passes validation, [Commit] stamps every row of its write set, publishes the next commit
    timestamp and returns true; it never throws half-way, and the state it leaves is reachable by the
    atomic steps, so all guarantees continue to hold. *)
Theorem commit_completes (timeout tid : Z) (m : Machine TablePage) (t : Transaction) :
  reachable timeout m → active m tid t → mc_commit m = None →
  last_commit_ts_ (db_mgr (mc_db m)) + 1 < TXN_START_ID → cancellation_requested_ t = false →
  (isolation_level_ t = SERIALIZABLE → VerifyTxn tid (mc_db m) = Ok true) →
  ∃ db', Commit tid (mc_db m) = (Ok true, db') ∧
    reachable timeout (mkMachine db' None (mc_undo m) (mc_gc m)) ∧
    last_commit_ts_ (db_mgr db') = last_commit_ts_ (db_mgr (mc_db m)) + 1 ∧
    db_txns db' !! tid = Some (set_state COMMITTED (set_commit_ts (last_commit_ts_ (db_mgr (mc_db m)) + 1) t)).
Proof.
  intros Hre Hact Hc Hl Hnc Hv. destruct (reachable_inv _ _ Hre) as (a & _ & HI).
  destruct (commit_steps m a tid t HI Hact Hc Hl) as (db' & E & Hs & ? & ?). exists db'.
  rewrite (Commit_validated m tid t) by done. split_and!; [done|by eapply reachable_steps|done..].
Qed.

Lemma commit_completes_witness :
  ∃ db', Commit T2 (mc_db (state_after two_readers)) = (Ok true, db') ∧ last_commit_ts_ (db_mgr db') = 2.
Proof.
  destruct (commit_completes 100 T2 (state_after two_readers) (txn_of (state_after two_readers) T2) reach_two_readers)
    as (db' & E & _ & L & _).
  - apply activeb_spec. vm_compute. reflexivity.
  - vm_compute. reflexivity.
  - vm_compute. reflexivity.
  - vm_compute. reflexivity.
  - vm_compute. discriminate.
  - exists db'. split; [exact E|]. rewrite L. vm_compute. reflexivity.
Defined.



(** ** Behaviours the code does not intend *)

Definition bytes_of (n : Z) : list byte := replicate (Z.to_nat n) x61.

(** [T1] commits a row of [n] bytes, [T2] shrinks it to one byte, [T3] fills the page with a row of
    [k] bytes. *)
Definition shrunk (n k : Z) : list Command :=
  [CCreate 7; CBegin SNAPSHOT_ISOLATION; CInsert T1 7 (bytes_of n); CCommitStart T1; CStamp; CPublish; CCommitEnd;
   CBegin SNAPSHOT_ISOLATION; CBegin SNAPSHOT_ISOLATION; CUpdate T2 7 the_row [x62]; CInsert T3 7 (bytes_of k)].

(** rolling back a shrinking update can fail: after another transaction used the freed space, the
    pre-image does not fit. Depending on the sizes, [Abort] throws and leaves the transaction open,
    or the restore has undefined behaviour (a write outside the page). The comment in [MvccRollback]
    says restoring always fits. *)
Theorem rollback_of_shrunk_row_fails :
  reachable 100 (state_after (shrunk 4000 4150)) ∧ reachable 100 (state_after (shrunk 5000 5000)) ∧
  (Abort T2 (mc_db (state_after (shrunk 4000 4150)))).1 = Err restore_failed ∧
  is_open (txn_of (with_db (Abort T2 (mc_db (state_after (shrunk 4000 4150)))).2 (state_after (shrunk 4000 4150))) T2) = true ∧
  (Abort T2 (mc_db (state_after (shrunk 5000 5000)))).1 = Err EUndefined.
Proof.
  split; [apply state_after_reachable; vm_compute; by eexists|].
  split; [apply state_after_reachable; vm_compute; by eexists|]. split_and!; vm_compute; reflexivity.
Qed.

(** [T1] commits two rows, [T2] updates both (shrinking the first), [T3] fills the page. *)
Definition two_rows : list Command :=
  [CCreate 7; CBegin SNAPSHOT_ISOLATION; CInsert T1 7 (bytes_of 4000); CInsert T1 7 [x7a]; CCommitStart T1; CStamp; CStamp;
   CPublish; CCommitEnd; CBegin SNAPSHOT_ISOLATION; CBegin SNAPSHOT_ISOLATION;
   CUpdate T2 7 the_row [x62]; CUpdate T2 7 (mkRID 0 1) [x62]; CInsert T3 7 (bytes_of 4150)].

(** retrying a rollback that failed half-way destroys committed data: the first [Abort] restores
    the second row and throws at the first; the second [Abort] (as garbage collection or shutdown
    issues it) takes the restored row for a fresh insert and tombstones it, although a committed
    transaction wrote it. *)
Theorem abort_retry_deletes_committed_row :
  let db0 := mc_db (state_after two_rows) in
  let db1 := (Abort T2 db0).2 in
  let db2 := (Abort T2 db1).2 in
  reachable 100 (state_after two_rows) ∧
  CollectVisibleVersion T3 (mkRID 0 1) db0 = Ok (Some [x7a]) ∧
  (Abort T2 db0).1 = Err restore_failed ∧ CollectVisibleVersion T3 (mkRID 0 1) db1 = Ok (Some [x7a]) ∧
  (Abort T2 db1).1 = Err restore_failed ∧ CollectVisibleVersion T3 (mkRID 0 1) db2 = Ok None.
Proof.
  cbv zeta. split; [apply state_after_reachable; vm_compute; by eexists|]. split_and!; vm_compute; reflexivity.
Qed.

(** A row is inserted and committed by [T1], updated and committed by [T2]. *)
Definition updated : list Command :=
  setup ++ [CBegin SNAPSHOT_ISOLATION; CUpdate T2 7 the_row [x63]; CCommitStart T2; CStamp; CPublish; CCommitEnd].
(** Then a new table is created and [T4] inserts its first row while [T3] is open. *)
Definition T4 : Z := TXN_START_ID + 3.
Definition recreate : list Command :=
  [CCreate 8; CBegin SNAPSHOT_ISOLATION; CBegin SNAPSHOT_ISOLATION; CInsert T4 8 [x6e]].

(** dropping a table leaves its head undo links behind: when a new table reuses the page, a
    reader of the new table is served a version of the dropped table's row, although the new table
    holds no committed row at all. *)
Theorem dropped_rows_resurface :
  let m1 := state_after updated in
  let db2 := (DropTable 7 (mc_db m1)).2 in
  (DropTable 7 (mc_db m1)).1 = true ∧
  ∃ m3, run recreate (with_db db2 m1) = Some m3 ∧
    db_heaps (mc_db m3) !! 7 = None ∧ in_tableb (mc_db m3) 8 the_row = true ∧
    CollectVisibleVersion T3 the_row (mc_db m3) = Ok (Some [x61; x62]).
Proof.
  cbv zeta. split; [vm_compute; reflexivity|].
  exists (default (mc_init 100) (run recreate (with_db (DropTable 7 (mc_db (state_after updated))).2 (state_after updated)))).
  split_and!; vm_compute; reflexivity.
Qed.
