(* ===== verification/BTreePage.v ===== *)
(** * B+ tree pages ([storage/page/b_plus_tree_{page,leaf_page,internal_page}.*])

    A leaf page keeps sorted keys with record ids, an internal page keeps separators with child page
    ids.  Both are overlays on a page: a header (type, [size_], [max_size_], for a leaf the link to the
    next leaf) and two arrays with the same number of slots.  The arrays are modelled as one list of
    slots, slot [i] being the pair of [key_array_[i]] and [rid_array_[i]] (or [page_id_array_[i]]);
    the slots from [size_] on keep whatever earlier operations left there, as in the code.  An access
    outside the arrays is undefined behaviour, a failed [BUMBLEBEE_ASSERT] an [EAssert].

    Every operation is first the loop of the source, then a lemma says what it does to the live
    entries [live p], the first [size_] slots. *)

From S2P Require Import Prelude TablePage.

(** ** Keys and their comparator *)

(** [KeyComparator]: negative, zero or positive, as [operator()] returns. *)
Class KeyComparator (K : Type) := comparator : K → K → Z.

(** What the tree relies on: the comparator is a total preorder. *)
Class KeyOrder (K : Type) `{!KeyComparator K} : Prop := {
  comparator_refl : ∀ a : K, comparator a a = 0;
  comparator_flip : ∀ a b : K, comparator a b < 0 ↔ 0 < comparator b a;
  comparator_trans : ∀ a b c : K, comparator a b ≤ 0 → comparator b c ≤ 0 → comparator a c ≤ 0
}.

Definition key_le `{!KeyComparator K} (a b : K) : Prop := comparator a b ≤ 0.
Definition key_lt `{!KeyComparator K} (a b : K) : Prop := comparator a b < 0.

Section order.
Context {K : Type} `{!KeyComparator K, !KeyOrder K}.
Implicit Types a b c : K.

#[global] Instance key_le_dec a b : Decision (key_le a b).
Proof. unfold key_le. apply _. Defined.
#[global] Instance key_lt_dec a b : Decision (key_lt a b).
Proof. unfold key_lt. apply _. Defined.
#[global] Instance key_le_preorder : PreOrder (key_le (K:=K)).
Proof.
  split; [intros a; unfold key_le; rewrite comparator_refl; lia|].
  intros a b c. apply comparator_trans.
Qed.

Lemma key_lt_le a b : key_lt a b → key_le a b.
Proof. unfold key_lt, key_le. lia. Qed.
Lemma key_not_le a b : ¬ key_le a b ↔ key_lt b a.
Proof. unfold key_lt, key_le. rewrite comparator_flip. lia. Qed.
Lemma key_not_lt a b : ¬ key_lt a b ↔ key_le b a.
Proof. rewrite <-key_not_le. destruct (decide (key_le b a)); naive_solver. Qed.
Lemma key_le_lt_trans a b c : key_le a b → key_lt b c → key_lt a c.
Proof.
  intros Hab Hbc. apply key_not_le. intros Hca. apply key_not_le in Hbc. apply Hbc.
  by transitivity a.
Qed.
Lemma key_lt_le_trans a b c : key_lt a b → key_le b c → key_lt a c.
Proof.
  intros Hab Hbc. apply key_not_le. intros Hca. apply key_not_le in Hab. apply Hab.
  by transitivity c.
Qed.
Lemma key_lt_trans a b c : key_lt a b → key_lt b c → key_lt a c.
Proof. intros ? ?%key_lt_le. by eapply key_lt_le_trans. Qed.
Lemma key_lt_irrefl a : ¬ key_lt a a.
Proof. unfold key_lt. rewrite comparator_refl. lia. Qed.
(** [comparator(a, b) == 0] is "neither is smaller". *)
Lemma key_eq_iff a b : comparator a b = 0 ↔ key_le a b ∧ ¬ key_lt a b.
Proof. unfold key_le, key_lt. lia. Qed.
Lemma key_eq_flip a b : comparator a b = 0 → comparator b a = 0.
Proof.
  pose proof (comparator_flip a b). pose proof (comparator_flip b a). lia.
Qed.
End order.

(** ** Arrays and the loops over them *)

Section arrays.
Context {A : Type}.
Implicit Types a : list A.

Definition arr_get (a : list A) (i : Z) : result A :=
  match (if bool_decide (0 ≤ i) then a !! Z.to_nat i else None) with
  | Some x => Ok x
  | None => Err EUndefined
  end.

Definition arr_set (a : list A) (i : Z) (x : A) : result (list A) :=
  if bool_decide (0 ≤ i < Z.of_nat (length a)) then Ok (<[Z.to_nat i := x]> a) else Err EUndefined.

(** [for (i = idx + n; i > idx; --i) a[i] = a[i - 1];] *)
Fixpoint shift_right (a : list A) (idx : Z) (n : nat) : result (list A) :=
  match n with
  | O => Ok a
  | S n' =>
      x ← arr_get a (idx + Z.of_nat n - 1);
      a ← arr_set a (idx + Z.of_nat n) x;
      shift_right a idx n'
  end.

(** [for (j = i; j < i + n; ++j) a[j - 1] = a[j];] *)
Fixpoint shift_left (a : list A) (i : Z) (n : nat) : result (list A) :=
  match n with
  | O => Ok a
  | S n' =>
      x ← arr_get a i;
      a ← arr_set a (i - 1) x;
      shift_left a (i + 1) n'
  end.

(** [n] turns of [dst[idx++] = src[i++];] *)
Fixpoint copy_run (dst src : list A) (idx i : Z) (n : nat) : result (list A) :=
  match n with
  | O => Ok dst
  | S n' =>
      x ← arr_get src i;
      dst ← arr_set dst idx x;
      copy_run dst src (idx + 1) (i + 1) n'
  end.

Lemma arr_get_app l x r i : i = Z.of_nat (length l) → arr_get (l ++ x :: r) i = Ok x.
Proof.
  intros ->. unfold arr_get. rewrite bool_decide_true by lia. rewrite Nat2Z.id.
  by rewrite list_lookup_middle.
Qed.
Lemma arr_set_app l y x r i : i = Z.of_nat (length l) → arr_set (l ++ y :: r) i x = Ok (l ++ x :: r).
Proof.
  intros ->. unfold arr_set. rewrite bool_decide_true by (rewrite length_app; simpl; lia).
  rewrite Nat2Z.id. rewrite insert_app_r_alt by lia. by rewrite Nat.sub_diag.
Qed.

Lemma arr_get_0 x r : arr_get (x :: r) 0 = Ok x.
Proof. done. Qed.
Lemma arr_get_1 x y r : arr_get (x :: y :: r) 1 = Ok y.
Proof. done. Qed.
Lemma arr_set_0 x y r : arr_set (x :: r) 0 y = Ok (y :: r).
Proof. apply (arr_set_app []). done. Qed.
Lemma arr_set_1 x y z r : arr_set (x :: y :: r) 1 z = Ok (x :: z :: r).
Proof. apply (arr_set_app [x]). done. Qed.

Lemma shift_right_app l m y r idx :
  idx = Z.of_nat (length l) →
  ∃ z, shift_right (l ++ m ++ y :: r) idx (length m) = Ok (l ++ z :: m ++ r).
Proof.
  intros Hi. revert y r. induction m as [|x m IH] using rev_ind; intros y r.
  { exists y. done. }
  rewrite length_app. simpl. rewrite Nat.add_1_r. simpl.
  rewrite <-(app_assoc m), (app_assoc l m). change ([x] ++ y :: r) with (x :: y :: r).
  rewrite (arr_get_app (l ++ m)) by (rewrite length_app; lia). cbn [mbind result_bind].
  replace ((l ++ m) ++ x :: y :: r) with ((l ++ m ++ [x]) ++ y :: r) by (by rewrite <-!app_assoc).
  rewrite arr_set_app by (rewrite !length_app; simpl; lia). cbn [mbind result_bind].
  replace ((l ++ m ++ [x]) ++ x :: r) with (l ++ m ++ x :: (x :: r)) by (by rewrite <-!app_assoc).
  destruct (IH x (x :: r)) as [z ->]. exists z. by rewrite <-!app_assoc.
Qed.

Lemma shift_left_app l y m r i :
  i = Z.of_nat (length l) + 1 →
  ∃ z, shift_left (l ++ y :: m ++ r) i (length m) = Ok (l ++ m ++ z :: r).
Proof.
  revert l y i. induction m as [|x m IH]; intros l y i Hi; simpl.
  { exists y. done. }
  replace (l ++ y :: x :: m ++ r) with ((l ++ [y]) ++ x :: m ++ r) by (by rewrite <-app_assoc).
  rewrite arr_get_app by (rewrite length_app; simpl; lia). cbn [mbind result_bind].
  rewrite <-app_assoc. simpl. rewrite arr_set_app by lia. cbn [mbind result_bind].
  replace (l ++ x :: x :: m ++ r) with ((l ++ [x]) ++ x :: m ++ r) by (by rewrite <-app_assoc).
  destruct (IH (l ++ [x]) x (i + 1)) as [z ->]; [rewrite length_app; simpl; lia|].
  exists z. by rewrite <-app_assoc.
Qed.

Lemma copy_run_app d y r l m s idx i :
  idx = Z.of_nat (length d) → i = Z.of_nat (length l) → length y = length m →
  copy_run (d ++ y ++ r) (l ++ m ++ s) idx i (length m) = Ok (d ++ m ++ r).
Proof.
  revert d y l idx i. induction m as [|x m IH]; intros d y l idx i Hd Hl Hy; simpl.
  { destruct y; [done|discriminate]. }
  destruct y as [|y0 y]; [discriminate|]. simpl in *.
  rewrite arr_get_app by done. cbn [mbind result_bind].
  rewrite arr_set_app by done. cbn [mbind result_bind].
  replace (d ++ x :: y ++ r) with ((d ++ [x]) ++ y ++ r) by (by rewrite <-app_assoc).
  replace (l ++ x :: m ++ s) with ((l ++ [x]) ++ m ++ s) by (by rewrite <-app_assoc).
  rewrite (IH (d ++ [x]) y (l ++ [x])) by (rewrite ?length_app; simpl; lia).
  by rewrite <-app_assoc.
Qed.
End arrays.

(** ** The page header and the search *)

(** [BPlusTreePage] with its arrays; [page_type_] is the constructor of [IndexPage] below. *)
Record BPlusTreePage (K V : Type) := mkNode {
  size_ : Z;
  max_size_ : Z;
  slots_ : list (K * V)
}.
Arguments mkNode {K V} _ _ _.
Arguments size_ {K V} _.
Arguments max_size_ {K V} _.
Arguments slots_ {K V} _.

Section node.
Context {K V : Type} `{!KeyComparator K}.
Implicit Types p : BPlusTreePage K V.

Definition SetSize (n : Z) p : BPlusTreePage K V := mkNode n (max_size_ p) (slots_ p).
Definition ChangeSizeBy (amount : Z) p : BPlusTreePage K V := SetSize (size_ p + amount) p.
Definition set_slots (a : list (K * V)) p : BPlusTreePage K V := mkNode (size_ p) (max_size_ p) a.
Definition GetMinSize p : Z := Z.quot (max_size_ p) 2.

Definition KeyAt p (i : Z) : result K := x ← arr_get (slots_ p) i; Ok x.1.
Definition ValueAt p (i : Z) : result V := x ← arr_get (slots_ p) i; Ok x.2.
Definition SetKeyAt (i : Z) (k : K) p : result (BPlusTreePage K V) :=
  x ← arr_get (slots_ p) i; a ← arr_set (slots_ p) i (k, x.2); Ok (set_slots a p).
Definition SetValueAt (i : Z) (v : V) p : result (BPlusTreePage K V) :=
  x ← arr_get (slots_ p) i; a ← arr_set (slots_ p) i (x.1, v); Ok (set_slots a p).

(** The loop of [BisectRight]; [hi - lo] turns are always enough. *)
Fixpoint bisect_loop (fuel : nat) p (key : K) (lo hi : Z) : result Z :=
  if bool_decide (lo < hi) then
    match fuel with
    | O => Err EUndefined
    | S f =>
        let mid := Z.quot (lo + hi) 2 in
        k ← KeyAt p mid;
        if bool_decide (comparator k key ≤ 0) then bisect_loop f p key (mid + 1) hi
        else bisect_loop f p key lo mid
    end
  else Ok lo.
Definition BisectRight p (key : K) (offset : Z) : result Z :=
  bisect_loop (Z.to_nat (size_ p - offset)) p key offset (size_ p).

(** The body shared by the two [Insert(idx, ..)]. *)
Definition node_Insert (full : string) (idx : Z) (key : K) (value : V) p
    : result (BPlusTreePage K V) :=
  if bool_decide (size_ p < max_size_ p) then
    a ← shift_right (slots_ p) idx (Z.to_nat (size_ p - idx));
    a ← arr_set a idx (key, value);
    Ok (ChangeSizeBy 1 (set_slots a p))
  else Err (EAssert full).

(** The loop shared by [RemoveAt] and [Remove(key_idx)]. *)
Definition node_RemoveAt (idx : Z) p : result (BPlusTreePage K V) :=
  a ← shift_left (slots_ p) (idx + 1) (Z.to_nat (size_ p - (idx + 1)));
  Ok (ChangeSizeBy (-1) (set_slots a p)).

(** The copy shared by the two [Split]: [node] receives the upper half.  Returns both pages. *)
Definition node_Split (node p : BPlusTreePage K V)
    : result (BPlusTreePage K V * BPlusTreePage K V) :=
  let size := size_ p in
  if negb (bool_decide (size = max_size_ p)) then Err (EAssert "Split called on a non-full node") else
  if negb (bool_decide (size_ node = 0)) then Err (EAssert "Split target must be empty") else
  let mid := Z.quot size 2 in
  let n := size - mid in
  a ← copy_run (slots_ node) (slots_ p) 0 mid (Z.to_nat n);
  Ok (ChangeSizeBy (- n) p, ChangeSizeBy n (set_slots a node)).

(** ** What the node operations do to the live entries *)

(** [p] holds exactly the entries [es], in slots [0 .. size_), with the declared maximum [mx]. *)
Definition node_is (mx : Z) (es : list (K * V)) p : Prop :=
  size_ p = Z.of_nat (length es) ∧ max_size_ p = mx ∧ Z.of_nat (length es) ≤ mx ∧
  ∃ junk, slots_ p = es ++ junk ∧ mx ≤ Z.of_nat (length (es ++ junk)).

Lemma node_KeyAt mx es p l k v r i :
  node_is mx es p → es = l ++ (k, v) :: r → i = Z.of_nat (length l) → KeyAt p i = Ok k.
Proof.
  intros (_ & _ & _ & junk & Hs & _) -> Hi. unfold KeyAt.
  rewrite Hs, <-app_assoc. simpl. by rewrite arr_get_app.
Qed.
Lemma node_ValueAt mx es p l k v r i :
  node_is mx es p → es = l ++ (k, v) :: r → i = Z.of_nat (length l) → ValueAt p i = Ok v.
Proof.
  intros (_ & _ & _ & junk & Hs & _) -> Hi. unfold ValueAt.
  rewrite Hs, <-app_assoc. simpl. by rewrite arr_get_app.
Qed.

Lemma node_SetKeyAt mx es p l k v r i k' :
  node_is mx es p → es = l ++ (k, v) :: r → i = Z.of_nat (length l) →
  ∃ p', SetKeyAt i k' p = Ok p' ∧ node_is mx (l ++ (k', v) :: r) p'.
Proof.
  intros (Hn & Hm & Hle & junk & Hs & Hc) -> Hi. unfold SetKeyAt.
  rewrite Hs, <-app_assoc. simpl. rewrite arr_get_app by done. cbn [mbind result_bind].
  rewrite arr_set_app by done. cbn [mbind result_bind]. eexists. split; [done|].
  split_and!; simpl; rewrite ?length_app in *; simpl in *; [lia|done|lia|].
  exists junk. rewrite <-app_assoc. split; [done|]. rewrite !length_app in *. simpl in *. lia.
Qed.

Lemma node_Insert_ok full mx es p l r idx k v :
  node_is mx es p → es = l ++ r → idx = Z.of_nat (length l) → Z.of_nat (length es) < mx →
  ∃ p', node_Insert full idx k v p = Ok p' ∧ node_is mx (l ++ (k, v) :: r) p'.
Proof.
  intros (Hn & Hm & Hle & junk & Hs & Hc) -> Hi Hlt. unfold node_Insert.
  rewrite bool_decide_true by lia. rewrite length_app in *.
  destruct junk as [|y junk]; [rewrite !length_app in Hc; simpl in Hc; lia|].
  rewrite Hs, <-app_assoc.
  replace (Z.to_nat (size_ p - idx)) with (length r) by lia.
  destruct (shift_right_app l r y junk idx Hi) as [z ->]. cbn [mbind result_bind].
  rewrite arr_set_app by done. cbn [mbind result_bind]. eexists. split; [done|].
  split_and!; simpl; rewrite ?length_app in *; simpl in *; [lia|done|lia|].
  exists junk. rewrite <-app_assoc. split; [done|]. rewrite !length_app in *; simpl in *. lia.
Qed.

Lemma node_RemoveAt_ok mx es p l x r idx :
  node_is mx es p → es = l ++ x :: r → idx = Z.of_nat (length l) →
  ∃ p', node_RemoveAt idx p = Ok p' ∧ node_is mx (l ++ r) p'.
Proof.
  intros (Hn & Hm & Hle & junk & Hs & Hc) -> Hi. unfold node_RemoveAt.
  rewrite length_app in *. simpl in *.
  rewrite Hs, <-app_assoc. simpl.
  replace (Z.to_nat (size_ p - (idx + 1))) with (length r) by lia.
  destruct (shift_left_app l x r junk (idx + 1)) as [z ->]; [lia|]. cbn [mbind result_bind].
  eexists. split; [done|]. split_and!; simpl; rewrite ?length_app in *; simpl in *; [lia|done|lia|].
  exists (z :: junk). rewrite <-app_assoc. split; [done|]. rewrite !length_app in *; simpl in *. lia.
Qed.

Lemma node_Split_ok mx es p node mid :
  node_is mx es p → Z.of_nat (length es) = mx → node_is mx [] node →
  mid = Z.to_nat (Z.quot mx 2) →
  ∃ p' node', node_Split node p = Ok (p', node') ∧
    node_is mx (take mid es) p' ∧ node_is mx (drop mid es) node'.
Proof.
  intros (Hn & Hm & Hle & junk & Hs & Hc) Hfull (Hn0 & Hm0 & Hle0 & junk0 & Hs0 & Hc0) Hmid.
  unfold node_Split. rewrite !bool_decide_true by (rewrite ?Hn0; simpl; lia). simpl.
  rewrite Hn, Hfull.
  assert (0 ≤ Z.quot mx 2 ≤ mx) as Hq.
  { split; [apply Z.quot_pos; lia|]. pose proof (Z.quot_rem' mx 2).
    pose proof (Z.rem_nonneg mx 2). lia. }
  simpl in *.
  assert (length (drop mid es) = Z.to_nat (mx - Z.quot mx 2)) as Hd by (rewrite length_drop; lia).
  pose proof (copy_run_app [] (take (length (drop mid es)) junk0)
    (drop (length (drop mid es)) junk0) (take mid es) (drop mid es) junk 0 (Z.quot mx 2)) as E.
  simpl in E. rewrite take_drop, app_assoc, take_drop, Hd in E.
  rewrite Hs, Hs0, E; [|done|rewrite length_take; lia|rewrite length_take; lia].
  cbn [mbind result_bind]. do 2 eexists. split; [done|].
  split; split_and!; simpl; rewrite ?length_take, ?length_drop; [lia|done|lia| |lia|done|lia|].
  - exists (drop mid es ++ junk). rewrite app_assoc, take_drop. split; [done|]. done.
  - eexists. split; [done|]. rewrite length_app, !length_drop. lia.
Qed.

Lemma KeyAt_lookup mx es p k v i :
  node_is mx es p → 0 ≤ i → es !! Z.to_nat i = Some (k, v) → KeyAt p i = Ok k.
Proof.
  intros Hp Hi Hk. apply list_elem_of_split_length in Hk as (l & r & -> & Hl).
  eapply node_KeyAt; [done..|lia].
Qed.

Lemma bisect_loop_ok fuel mx es p key l r offset lo hi :
  node_is mx es p → es = l ++ r → 0 ≤ offset →
  Forall (λ e, key_le e.1 key) (drop (Z.to_nat offset) l) →
  Forall (λ e, comparator e.1 key > 0) r →
  offset ≤ lo ≤ Z.of_nat (length l) → Z.of_nat (length l) ≤ hi ≤ Z.of_nat (length es) →
  hi - lo ≤ Z.of_nat fuel →
  bisect_loop fuel p key lo hi = Ok (Z.of_nat (length l)).
Proof.
  intros Hp He Ho Hl Hr. revert lo hi. induction fuel as [|f IH]; intros lo hi Hlo Hhi Hf; simpl.
  { destruct (bool_decide_reflect (lo < hi)); [lia|]. f_equal. lia. }
  destruct (bool_decide_reflect (lo < hi)) as [Hlt|]; [|f_equal; lia].
  assert (lo ≤ Z.quot (lo + hi) 2 < hi) as Hmid.
  { pose proof (Z.quot_rem' (lo + hi) 2). pose proof (Z.rem_bound_pos (lo + hi) 2). lia. }
  destruct (lookup_lt_is_Some_2 es (Z.to_nat (Z.quot (lo + hi) 2))) as [[k v] Hk]; [lia|].
  rewrite (KeyAt_lookup _ _ _ _ _ _ Hp) by (done || lia). cbn [mbind result_bind].
  destruct (decide (Z.quot (lo + hi) 2 < Z.of_nat (length l))) as [Hin|Hout].
  - rewrite He, lookup_app_l in Hk by lia.
    assert (key_le k key) as Hle.
    { eapply (Forall_lookup_1 _ _ (Z.to_nat (Z.quot (lo + hi) 2) - Z.to_nat offset) (k, v)) in Hl.
      - exact Hl.
      - rewrite lookup_drop. rewrite <-Hk. f_equal. lia. }
    rewrite bool_decide_true by exact Hle. apply IH; lia.
  - rewrite He, lookup_app_r in Hk by lia.
    eapply Forall_lookup_1 in Hr; [|exact Hk]. simpl in Hr.
    rewrite bool_decide_false by lia. apply IH; lia.
Qed.

(** The upper bound: when the searched keys split into a part not above [key] and a part above it,
    [BisectRight] returns the split point. *)
Lemma BisectRight_ok mx es p key l r offset :
  node_is mx es p → es = l ++ r → 0 ≤ offset ≤ Z.of_nat (length l) →
  Forall (λ e, key_le e.1 key) (drop (Z.to_nat offset) l) →
  Forall (λ e, comparator e.1 key > 0) r →
  BisectRight p key offset = Ok (Z.of_nat (length l)).
Proof.
  intros Hp He Ho Hl Hr. unfold BisectRight. pose proof Hp as (-> & _).
  eapply (bisect_loop_ok _ mx es p key l r offset); try done; rewrite ?He, ?length_app; lia.
Qed.
End node.

(** ** Leaf pages *)

Record BPlusTreeLeafPage (K V : Type) := mkLeaf {
  leaf_node : BPlusTreePage K V;
  next_page_id_ : Z
}.
Arguments mkLeaf {K V} _ _.
Arguments leaf_node {K V} _.
Arguments next_page_id_ {K V} _.

Inductive KeyStatus := LIVE | ABSENT.

#[global] Instance KeyStatus_eq_dec : EqDecision KeyStatus.
Proof. solve_decision. Defined.

Section leaf.
Context {K V : Type} `{!KeyComparator K}.
Implicit Types p : BPlusTreeLeafPage K V.
#[local] Abbreviation LeafPage := (BPlusTreeLeafPage K V).

Definition with_node (n : BPlusTreePage K V) p : LeafPage := mkLeaf n (next_page_id_ p).
Definition leaf_GetNextPageId p : Z := next_page_id_ p.
Definition leaf_SetNextPageId (next : Z) p : LeafPage := mkLeaf (leaf_node p) next.

(** [Init] leaves the arrays as they are. *)
Definition leaf_Init (max_size : Z) p : LeafPage :=
  leaf_SetNextPageId INVALID_PAGE_ID (with_node (SetSize 0 (mkNode (size_ (leaf_node p)) max_size
    (slots_ (leaf_node p)))) p).

(** [ContainsKey]; [key_idx = -1] is the default argument. *)
Definition leaf_ContainsKey (key : K) (key_idx : Z) p : result KeyStatus :=
  idx ← (if bool_decide (key_idx = -1)
         then b ← BisectRight (leaf_node p) key 0; Ok (b - 1) else Ok key_idx);
  if bool_decide (0 ≤ idx) then
    k ← KeyAt (leaf_node p) idx;
    Ok (if bool_decide (comparator k key = 0) then LIVE else ABSENT)
  else Ok ABSENT.

Definition leaf_InsertAt (idx : Z) (key : K) (value : V) p : result LeafPage :=
  n ← node_Insert "leaf is full" idx key value (leaf_node p); Ok (with_node n p).
Definition leaf_Insert (key : K) (value : V) p : result LeafPage :=
  idx ← BisectRight (leaf_node p) key 0; leaf_InsertAt idx key value p.

(** [p.Split(node, page_id)]: returns the two pages. *)
Definition leaf_Split (node : LeafPage) (page_id : Z) p : result (LeafPage * LeafPage) :=
  '(n1, n2) ← node_Split (leaf_node node) (leaf_node p);
  Ok (mkLeaf n1 page_id, mkLeaf n2 (next_page_id_ p)).

Definition leaf_RemoveAt (idx : Z) p : result LeafPage :=
  n ← node_RemoveAt idx (leaf_node p); Ok (with_node n p).
Definition leaf_Remove (key : K) (key_idx : Z) p : result (bool * LeafPage) :=
  idx ← (if bool_decide (key_idx < 0)
         then b ← BisectRight (leaf_node p) key 0; Ok (b - 1) else Ok key_idx);
  if bool_decide (idx < 0) then Ok (false, p) else
  k ← KeyAt (leaf_node p) idx;
  if bool_decide (comparator k key ≠ 0) then Ok (false, p) else
  p ← leaf_RemoveAt idx p; Ok (true, p).

(** [p.StealValues(sib, sib_left, parent_sep, new_sep)]: [None] is [false]; otherwise the two pages
    and [new_sep]. *)
Definition leaf_StealValues (sib : LeafPage) (sib_left : bool) (parent_sep : K) p
    : result (option (LeafPage * LeafPage * K)) :=
  if bool_decide (GetMinSize (leaf_node p) ≤ size_ (leaf_node p)) then Ok None else
  if bool_decide (size_ (leaf_node sib) - 1 < GetMinSize (leaf_node sib)) then Ok None else
  if sib_left then
    let last := size_ (leaf_node sib) - 1 in
    k ← KeyAt (leaf_node sib) last;
    v ← ValueAt (leaf_node sib) last;
    p ← leaf_InsertAt 0 k v p;
    sib ← leaf_RemoveAt last sib;
    new_sep ← KeyAt (leaf_node p) 0;
    Ok (Some (p, sib, new_sep))
  else
    k ← KeyAt (leaf_node sib) 0;
    v ← ValueAt (leaf_node sib) 0;
    p ← leaf_InsertAt (size_ (leaf_node p)) k v p;
    sib ← leaf_RemoveAt 0 sib;
    new_sep ← KeyAt (leaf_node sib) 0;
    Ok (Some (p, sib, new_sep)).

Definition leaf_InsertAllValues (sib : LeafPage) (parent_sep : K) p : result LeafPage :=
  let n := leaf_node p in
  let s := leaf_node sib in
  if bool_decide (size_ n + size_ s ≤ max_size_ n) then
    a ← copy_run (slots_ n) (slots_ s) (size_ n) 0 (Z.to_nat (size_ s));
    Ok (leaf_SetNextPageId (next_page_id_ sib) (with_node (SetSize (size_ n + size_ s) (set_slots a n)) p))
  else Err (EAssert "InsertAllValues: merged size exceeds max").

Definition leaf_GetNextIdx (idx : Z) p : Z :=
  if bool_decide (idx + 1 < size_ (leaf_node p)) then idx + 1 else -1.

Definition leaf_is (mx : Z) (es : list (K * V)) (next : Z) p : Prop :=
  node_is mx es (leaf_node p) ∧ next_page_id_ p = next.

Lemma leaf_InsertAt_ok mx l r nx p idx k v :
  leaf_is mx (l ++ r) nx p → idx = Z.of_nat (length l) → Z.of_nat (length (l ++ r)) < mx →
  ∃ p', leaf_InsertAt idx k v p = Ok p' ∧ leaf_is mx (l ++ (k, v) :: r) nx p'.
Proof.
  intros [Hn Hx] Hi Hlt. unfold leaf_InsertAt.
  destruct (node_Insert_ok "leaf is full" mx (l ++ r) (leaf_node p) l r idx k v)
    as (n' & -> & Hn'); [done..|].
  eexists. split; [done|]. by split.
Qed.

Lemma leaf_RemoveAt_ok mx l x r nx p idx :
  leaf_is mx (l ++ x :: r) nx p → idx = Z.of_nat (length l) →
  ∃ p', leaf_RemoveAt idx p = Ok p' ∧ leaf_is mx (l ++ r) nx p'.
Proof.
  intros [Hn Hx] Hi. unfold leaf_RemoveAt.
  destruct (node_RemoveAt_ok mx (l ++ x :: r) (leaf_node p) l x r idx) as (n' & -> & Hn'); [done..|].
  eexists. split; [done|]. by split.
Qed.

Lemma leaf_Split_ok mx es nx p node nx' page_id mid :
  leaf_is mx es nx p → Z.of_nat (length es) = mx → leaf_is mx [] nx' node →
  mid = Z.to_nat (Z.quot mx 2) →
  ∃ p' node', leaf_Split node page_id p = Ok (p', node') ∧
    leaf_is mx (take mid es) page_id p' ∧ leaf_is mx (drop mid es) nx node'.
Proof.
  intros [Hn Hx] Hfull [Hn0 Hx0] Hmid. unfold leaf_Split.
  destruct (node_Split_ok mx es (leaf_node p) (leaf_node node) mid)
    as (n1 & n2 & -> & H1 & H2); [done..|].
  do 2 eexists. split; [done|]. by rewrite <-Hx.
Qed.

(** Borrowing succeeds exactly when the page is below its minimum and the sibling can spare one. *)
Lemma leaf_StealValues_none mx es nx p mx' es' nx' sib sib_left sep :
  leaf_is mx es nx p → leaf_is mx' es' nx' sib → Z.of_nat (length es') ≤ Z.quot mx' 2 →
  leaf_StealValues sib sib_left sep p = Ok None.
Proof.
  intros [(Hs & Hm & _) _] [(Hs' & Hm' & _) _] Hmin. unfold leaf_StealValues, GetMinSize.
  rewrite Hs, Hm, Hs', Hm'. destruct (bool_decide _); [done|].
  by rewrite bool_decide_true by lia.
Qed.

Lemma leaf_StealValues_left mx es nx p l k v nx' sib sep :
  leaf_is mx es nx p → leaf_is mx (l ++ [(k, v)]) nx' sib →
  Z.of_nat (length es) < Z.quot mx 2 → Z.quot mx 2 < Z.of_nat (length (l ++ [(k, v)])) →
  ∃ p' sib', leaf_StealValues sib true sep p = Ok (Some (p', sib', k)) ∧
    leaf_is mx ((k, v) :: es) nx p' ∧ leaf_is mx l nx' sib'.
Proof.
  intros Hp Hsib Hlt Hspare. unfold leaf_StealValues, GetMinSize.
  pose proof Hp as [(-> & -> & Hle & _) _].
  pose proof Hsib as [Hsn _]. pose proof Hsn as (-> & -> & Hle' & _).
  rewrite !bool_decide_false by lia. rewrite length_app in *. simpl in *.
  rewrite (node_KeyAt _ _ _ l k v [] _ Hsn) by (done || lia). cbn [mbind result_bind].
  rewrite (node_ValueAt _ _ _ l k v [] _ Hsn) by (done || lia). cbn [mbind result_bind].
  destruct (leaf_InsertAt_ok mx [] es nx p 0 k v) as (p' & -> & Hp'); [done..|simpl; lia|].
  cbn [mbind result_bind].
  destruct (leaf_RemoveAt_ok mx l (k, v) [] nx' sib (Z.of_nat (length l + 1) - 1)) as (sib' & -> & Hsib'); [done|lia|].
  cbn [mbind result_bind]. pose proof Hp' as [Hpn _].
  rewrite (node_KeyAt _ _ _ [] k v es _ Hpn) by done.
  rewrite app_nil_r in Hsib'. eauto 10.
Qed.

Lemma leaf_StealValues_right mx es nx p k v k2 v2 r nx' sib sep :
  leaf_is mx es nx p → leaf_is mx ((k, v) :: (k2, v2) :: r) nx' sib →
  Z.of_nat (length es) < Z.quot mx 2 → Z.quot mx 2 < Z.of_nat (length ((k, v) :: (k2, v2) :: r)) →
  ∃ p' sib', leaf_StealValues sib false sep p = Ok (Some (p', sib', k2)) ∧
    leaf_is mx (es ++ [(k, v)]) nx p' ∧ leaf_is mx ((k2, v2) :: r) nx' sib'.
Proof.
  intros Hp Hsib Hlt Hspare. unfold leaf_StealValues, GetMinSize.
  pose proof Hp as [(Hs & -> & Hle & _) _]. rewrite !Hs.
  pose proof Hsib as [Hsn _]. pose proof Hsn as (-> & -> & Hle' & _).
  rewrite !bool_decide_false by lia.
  rewrite (node_KeyAt _ _ _ [] k v ((k2, v2) :: r) _ Hsn) by done. cbn [mbind result_bind].
  rewrite (node_ValueAt _ _ _ [] k v ((k2, v2) :: r) _ Hsn) by done. cbn [mbind result_bind].
  destruct (leaf_InsertAt_ok mx es [] nx p (Z.of_nat (length es)) k v) as (p' & -> & Hp');
    [by rewrite app_nil_r|done|rewrite app_nil_r; simpl in *; lia|].
  cbn [mbind result_bind].
  destruct (leaf_RemoveAt_ok mx [] (k, v) ((k2, v2) :: r) nx' sib 0) as (sib' & -> & Hsib'); [done..|].
  cbn [mbind result_bind]. pose proof Hsib' as [Hpn _].
  rewrite (node_KeyAt _ _ _ [] k2 v2 r _ Hpn) by done. eauto 10.
Qed.

Lemma leaf_InsertAllValues_ok mx es nx p mx' es' nx' sib sep :
  leaf_is mx es nx p → leaf_is mx' es' nx' sib → Z.of_nat (length es + length es') ≤ mx →
  ∃ p', leaf_InsertAllValues sib sep p = Ok p' ∧ leaf_is mx (es ++ es') nx' p'.
Proof.
  intros [(Hs & Hm & Hle & junk & Hsl & Hc) Hx] [(Hs' & Hm' & Hle' & junk' & Hsl' & Hc') Hx'] Hfit.
  unfold leaf_InsertAllValues. rewrite Hs, Hs', Hm, Hsl, Hsl', bool_decide_true, Nat2Z.id by lia.
  rewrite length_app in Hc.
  pose proof (copy_run_app es (take (length es') junk) (drop (length es') junk) [] es' junk'
    (Z.of_nat (length es)) 0) as E. rewrite take_drop in E. simpl in E.
  rewrite E by (rewrite ?length_take; done || lia). cbn [mbind result_bind].
  eexists. split; [done|]. split; [|done].
  split_and!; simpl; rewrite ?length_app; [lia|done|lia|].
  exists (drop (length es') junk). rewrite <-app_assoc. split; [done|].
  rewrite !length_app, length_drop. lia.
Qed.
End leaf.

(** ** Internal pages *)

Abbreviation BPlusTreeInternalPage K := (BPlusTreePage K Z).

Section internal.
Context {K : Type} `{!KeyComparator K}.
Implicit Types p : BPlusTreeInternalPage K.

Definition internal_Init (max_size : Z) p : BPlusTreeInternalPage K :=
  SetSize 0 (mkNode (size_ p) max_size (slots_ p)).

(** [ValueIndex]: the first slot with this child, or -1. *)
Fixpoint value_index_loop (i : Z) (n : nat) (value : Z) p : result Z :=
  match n with
  | O => Ok (-1)
  | S n => v ← ValueAt p i; if bool_decide (v = value) then Ok i else value_index_loop (i + 1) n value p
  end.
Definition internal_ValueIndex (value : Z) p : result Z :=
  value_index_loop 0 (Z.to_nat (size_ p)) value p.

Definition internal_InsertAt (idx : Z) (key : K) (value : Z) p : result (BPlusTreeInternalPage K) :=
  node_Insert "internal page is full" idx key value p.
Definition internal_Insert (key : K) (value : Z) p : result (BPlusTreeInternalPage K) :=
  idx ← BisectRight p key 1; internal_InsertAt idx key value p.

Definition internal_Split (node p : BPlusTreeInternalPage K)
    : result (BPlusTreeInternalPage K * BPlusTreeInternalPage K) := node_Split node p.

Definition internal_RemoveAt (key_idx : Z) p : result (BPlusTreeInternalPage K) :=
  node_RemoveAt key_idx p.
Definition internal_Remove (key : K) (key_idx : Z) p : result (BPlusTreeInternalPage K) :=
  idx ← (if bool_decide (key_idx < 0) then b ← BisectRight p key 1; Ok (b - 1) else Ok key_idx);
  if bool_decide (idx < 0) then Ok p else
  k ← KeyAt p idx;
  if bool_decide (comparator k key ≠ 0) then Ok p else internal_RemoveAt idx p.

Definition internal_StealValues (sib : BPlusTreeInternalPage K) (sib_left : bool) (parent_sep : K) p
    : result (option (BPlusTreeInternalPage K * BPlusTreeInternalPage K * K)) :=
  if bool_decide (size_ sib - 1 < GetMinSize sib) then Ok None else
  if sib_left then
    let last := size_ sib - 1 in
    a ← shift_right (slots_ p) 0 (Z.to_nat (size_ p));
    v ← ValueAt sib last;
    p ← SetValueAt 0 v (set_slots a p);
    p ← SetKeyAt 1 parent_sep p;
    let p := ChangeSizeBy 1 p in
    new_sep ← KeyAt sib last;
    sib ← internal_RemoveAt last sib;
    Ok (Some (p, sib, new_sep))
  else
    v ← ValueAt sib 0;
    p ← internal_InsertAt (size_ p) parent_sep v p;
    new_sep ← KeyAt sib 1;
    sib ← internal_RemoveAt 0 sib;
    Ok (Some (p, sib, new_sep)).

Definition internal_InsertAllValues (sib : BPlusTreeInternalPage K) (parent_sep : K) p
    : result (BPlusTreeInternalPage K) :=
  if bool_decide (size_ p + size_ sib ≤ max_size_ p) then
    v ← ValueAt sib 0;
    a ← arr_set (slots_ p) (size_ p) (parent_sep, v);
    a ← copy_run a (slots_ sib) (size_ p + 1) 1 (Z.to_nat (size_ sib - 1));
    Ok (SetSize (size_ p + 1 + Z.max 0 (size_ sib - 1)) (set_slots a p))
  else Err (EAssert "InsertAllValues: merged size exceeds max").

Lemma internal_StealValues_none mx es p sib sib_left sep :
  node_is mx es sib → Z.of_nat (length es) ≤ Z.quot mx 2 →
  internal_StealValues sib sib_left sep p = Ok None.
Proof.
  intros (Hs & Hm & _) Hmin. unfold internal_StealValues, GetMinSize.
  rewrite Hs, Hm. by rewrite bool_decide_true by lia.
Qed.

Lemma internal_StealValues_left mx k0 c0 es p l k v sib sep :
  node_is mx ((k0, c0) :: es) p → node_is mx (l ++ [(k, v)]) sib →
  Z.of_nat (length ((k0, c0) :: es)) < mx → Z.quot mx 2 < Z.of_nat (length (l ++ [(k, v)])) →
  ∃ k0' p' sib', internal_StealValues sib true sep p = Ok (Some (p', sib', k)) ∧
    node_is mx ((k0', v) :: (sep, c0) :: es) p' ∧ node_is mx l sib'.
Proof.
  intros (Hs & Hm & Hle & junk & Hsl & Hc) Hsib Hlt Hspare. unfold internal_StealValues, GetMinSize.
  pose proof Hsib as (-> & -> & Hle' & _). rewrite bool_decide_false by lia.
  destruct junk as [|y junk]; [rewrite app_nil_r in Hc; lia|].
  rewrite Hs, Hsl, Nat2Z.id.
  destruct (shift_right_app [] ((k0, c0) :: es) y junk 0) as [[z1 z2] E]; [done|].
  simpl app in E. simpl app. rewrite E. cbn [mbind result_bind].
  rewrite length_app in *. simpl length in *.
  rewrite (node_ValueAt _ _ _ l k v [] _ Hsib) by (done || lia). cbn [mbind result_bind].
  unfold SetValueAt. cbn [set_slots slots_].
  rewrite arr_get_0. cbn [mbind result_bind fst].
  rewrite arr_set_0. cbn [mbind result_bind]. unfold SetKeyAt. cbn [set_slots slots_].
  rewrite arr_get_1. cbn [mbind result_bind snd]. rewrite arr_set_1. cbn [mbind result_bind].
  rewrite (node_KeyAt _ _ _ l k v [] _ Hsib) by (done || lia). cbn [mbind result_bind].
  unfold internal_RemoveAt.
  destruct (node_RemoveAt_ok mx (l ++ [(k, v)]) sib l (k, v) [] (Z.of_nat (length l))) as (sib' & E' & Hsib'); [done..|].
  replace (Z.of_nat (length l + 1) - 1) with (Z.of_nat (length l)) by lia.
  rewrite E'. cbn [mbind result_bind]. rewrite app_nil_r in Hsib'.
  exists z1. do 2 eexists. split; [done|]. split; [|done].
  split_and!; simpl; [lia|done|lia|]. exists junk. split; [done|].
  simpl in *. rewrite !length_app in *. simpl in *. lia.
Qed.

Lemma internal_StealValues_right mx es p k v k2 v2 r sib sep :
  node_is mx es p → node_is mx ((k, v) :: (k2, v2) :: r) sib →
  Z.of_nat (length es) < mx → Z.quot mx 2 < Z.of_nat (length ((k, v) :: (k2, v2) :: r)) →
  ∃ p' sib', internal_StealValues sib false sep p = Ok (Some (p', sib', k2)) ∧
    node_is mx (es ++ [(sep, v)]) p' ∧ node_is mx ((k2, v2) :: r) sib'.
Proof.
  intros Hp Hsib Hlt Hspare. unfold internal_StealValues, GetMinSize.
  pose proof Hp as (Hs & _). rewrite !Hs.
  pose proof Hsib as (-> & -> & Hle' & _). rewrite bool_decide_false by lia.
  rewrite (node_ValueAt _ _ _ [] k v ((k2, v2) :: r) _ Hsib) by done. cbn [mbind result_bind].
  unfold internal_InsertAt.
  destruct (node_Insert_ok "internal page is full" mx es p es [] (Z.of_nat (length es)) sep v)
    as (p' & -> & Hp'); [done|by rewrite app_nil_r|done|done|].
  cbn [mbind result_bind].
  rewrite (node_KeyAt _ _ _ [(k, v)] k2 v2 r _ Hsib) by done. cbn [mbind result_bind].
  unfold internal_RemoveAt.
  destruct (node_RemoveAt_ok mx ((k, v) :: (k2, v2) :: r) sib [] (k, v) ((k2, v2) :: r) 0) as (sib' & -> & Hsib'); [done..|].
  eauto 10.
Qed.

Lemma internal_InsertAllValues_ok mx es p mx' k0 c0 es' sib sep :
  node_is mx es p → node_is mx' ((k0, c0) :: es') sib →
  Z.of_nat (length es + length ((k0, c0) :: es')) ≤ mx →
  ∃ p', internal_InsertAllValues sib sep p = Ok p' ∧ node_is mx (es ++ (sep, c0) :: es') p'.
Proof.
  intros (Hs & Hm & Hle & junk & Hsl & Hc) Hsib Hfit.
  unfold internal_InsertAllValues. pose proof Hsib as (Hs' & _ & _ & junk' & Hsl' & _).
  rewrite Hs, Hs', Hm, bool_decide_true by lia.
  rewrite (node_ValueAt _ _ _ [] k0 c0 es' _ Hsib) by done. cbn [mbind result_bind].
  rewrite length_app in Hc. simpl in *.
  destruct junk as [|y junk]; [simpl in *; lia|].
  rewrite Hsl, arr_set_app by done. cbn [mbind result_bind]. rewrite Hsl'.
  replace (Z.to_nat (Z.of_nat (S (length es')) - 1)) with (length es') by lia.
  pose proof (copy_run_app (es ++ [(sep, c0)]) (take (length es') junk) (drop (length es') junk)
    [(k0, c0)] es' junk' (Z.of_nat (length es) + 1) 1) as E.
  rewrite take_drop, <-!app_assoc in E. simpl in *.
  rewrite E by (rewrite ?length_take, ?length_app; simpl; done || lia). cbn [mbind result_bind].
  eexists. split; [done|].
  split_and!; simpl; rewrite ?length_app; simpl; [lia|done|lia|].
  exists (drop (length es') junk). rewrite <-app_assoc. split; [done|].
  rewrite !length_app; simpl; rewrite length_drop. lia.
Qed.
End internal.
