(* ===== verification/BPlusTree.v ===== *)
(** * The B+ tree over the page store ([storage/index/{b_plus_tree,index_iterator}.*])

    One definition per function of [b_plus_tree.cpp], over the page store of [TableHeap.v] instantiated
    with index pages.  A guard is the id of the page it latches; [Context] keeps the write set (front
    to back) and the header guard, because the code branches on which guards are still held.  Every
    page access goes through the store, and an access through the wrong overlay is undefined
    behaviour.  [BTreeTheorems.v] shows none of the assertions below can fail on a well-formed tree. *)

From S2P Require Import Prelude TablePage TableHeap BTreePage.

(** ** Pages of an index *)

Inductive IndexPage (K V : Type) :=
  | HeaderPage (root_page_id : Z)
  | LeafNode (p : BPlusTreeLeafPage K V)
  | InternalNode (p : BPlusTreeInternalPage K).
Arguments HeaderPage {K V} _.
Arguments LeafNode {K V} _.
Arguments InternalNode {K V} _.

(** The members of a [BPlusTree] and the slot counts of its two page overlays. *)
Record BPlusTree := mkTree {
  header_page_id_ : Z;
  leaf_max_size_ : Z;
  internal_max_size_ : Z;
  leaf_slot_cnt : nat;
  internal_slot_cnt : nat
}.

(** [header_page_] is whether the header guard is held; the root id is remembered for comparisons. *)
Record Context := mkContext {
  header_page_ : bool;
  root_page_id_ : Z;
  write_set_ : list Z
}.
Definition set_write_set (w : list Z) (c : Context) : Context :=
  mkContext (header_page_ c) (root_page_id_ c) w.
Definition drop_header (c : Context) : Context := mkContext false (root_page_id_ c) (write_set_ c).
(** [while (write_set_.size() > 1) write_set_.pop_front();] *)
Definition keep_back (c : Context) : Context :=
  set_write_set (match last (write_set_ c) with Some x => [x] | None => [] end) c.
Definition pop_back (c : Context) : Context :=
  set_write_set (take (length (write_set_ c) - 1) (write_set_ c)) c.
Definition push_back (x : Z) (c : Context) : Context := set_write_set (write_set_ c ++ [x]) c.

Record InsertInternalResult (K : Type) := mkInsertResult {
  new_key_ : option K;
  new_page_id_ : option Z;
  inserted_ : bool
}.
Arguments mkInsertResult {K} _ _ _.
Arguments new_key_ {K} _.
Arguments new_page_id_ {K} _.
Arguments inserted_ {K} _.

Section tree.
Context {K V : Type} `{!KeyComparator K, !Inhabited K, !Inhabited V}.
#[local] Abbreviation LeafPage := (BPlusTreeLeafPage K V).
#[local] Abbreviation InternalPage := (BPlusTreeInternalPage K).
#[local] Abbreviation IdxStore := (Store (IndexPage K V)).
Implicit Types (t : BPlusTree) (ctx : Context) (key : K) (value : V).

(** ** Page access *)

Definition load (pid : Z) : ST IdxStore (IndexPage K V) := λ st,
  match st_pages st !! pid with Some p => (Ok p, st) | None => (Err EUndefined, st) end.
Definition store (pid : Z) (p : IndexPage K V) : ST IdxStore unit := λ st, (Ok tt, set_page pid p st).
Definition load_leaf (pid : Z) : ST IdxStore LeafPage :=
  p ← load pid; match p with LeafNode l => mret l | _ => st_throw EUndefined end.
Definition load_internal (pid : Z) : ST IdxStore InternalPage :=
  p ← load pid; match p with InternalNode n => mret n | _ => st_throw EUndefined end.
Definition load_header (pid : Z) : ST IdxStore Z :=
  p ← load pid; match p with HeaderPage r => mret r | _ => st_throw EUndefined end.
Definition IsLeafPage (pid : Z) : ST IdxStore bool :=
  p ← load pid;
  match p with LeafNode _ => mret true | InternalNode _ => mret false | _ => st_throw EUndefined end.
Definition GetSize (pid : Z) : ST IdxStore Z :=
  p ← load pid;
  match p with
  | LeafNode l => mret (size_ (leaf_node l))
  | InternalNode n => mret (size_ n)
  | _ => st_throw EUndefined
  end.

Definition new_page : ST IdxStore Z := λ st, let (id, st) := NewPage st in (Ok id, st).
Definition delete_page (pid : Z) : ST IdxStore unit := λ st, (Ok tt, DeletePage pid st).

(** The overlays of a zero-filled page. *)
Definition zero_leaf t : LeafPage := mkLeaf (mkNode 0 0 (replicate (leaf_slot_cnt t) inhabitant)) 0.
Definition zero_internal t : InternalPage := mkNode 0 0 (replicate (internal_slot_cnt t) inhabitant).

(** Enough turns for any walk from the root to a leaf: a tree is no deeper than it has pages. *)
Definition with_fuel {A} (f : nat → ST IdxStore A) : ST IdxStore A := λ st,
  f (S (size (st_pages st))) st.

(** ** Construction *)

(** [BPlusTree(name, header_page_id, ..)]: the header page starts with no root. *)
Definition new_BPlusTree t : ST IdxStore unit := store (header_page_id_ t) (HeaderPage INVALID_PAGE_ID).

Definition IsEmpty t : ST IdxStore bool :=
  root ← load_header (header_page_id_ t);
  if bool_decide (root = INVALID_PAGE_ID) then mret true else
  n ← GetSize root; mret (bool_decide (n = 0)).

Definition GetRootPageId t : ST IdxStore Z := load_header (header_page_id_ t).

(** ** Search *)

(** The descent of [GetValue], [Begin(key)] and the optimistic paths. *)
Fixpoint find_leaf (fuel : nat) key (pid : Z) : ST IdxStore (Z * LeafPage) :=
  match fuel with
  | O => st_throw EUndefined
  | S f =>
      p ← load pid;
      match p with
      | LeafNode leaf => mret (pid, leaf)
      | InternalNode internal =>
          b ← st_lift (BisectRight internal key 1);
          child ← st_lift (ValueAt internal (b - 1));
          find_leaf f key child
      | HeaderPage _ => st_throw EUndefined
      end
  end.

(** [GetValue]: the value pushed to [result], or [None] for [false]. *)
Definition GetValue t key : ST IdxStore (option V) :=
  page_id ← load_header (header_page_id_ t);
  if bool_decide (page_id = INVALID_PAGE_ID) then mret None else
  '(_, leaf) ← with_fuel (λ f, find_leaf f key page_id);
  b ← st_lift (BisectRight (leaf_node leaf) key 0);
  let idx := b - 1 in
  if bool_decide (idx < 0) then mret None else
  k ← st_lift (KeyAt (leaf_node leaf) idx);
  if bool_decide (comparator k key ≠ 0) then mret None else
  v ← st_lift (ValueAt (leaf_node leaf) idx);
  mret (Some v).

(** ** Insertion *)

Definition InitBPlusTree t key value : ST IdxStore Z :=
  leaf_page_id ← new_page;
  leaf ← st_lift (leaf_InsertAt 0 key value (leaf_Init (leaf_max_size_ t) (zero_leaf t)));
  _ ← store leaf_page_id (LeafNode leaf);
  mret leaf_page_id.

Definition InsertAfterSplit {P W : Type} (key_at_0 : P → result K) (insert : K → W → P → result P)
    (page1 page2 : P) key (value : W) : result (P * P) :=
  k ← key_at_0 page2;
  if bool_decide (comparator k key < 0)
  then page2 ← insert key value page2; Ok (page1, page2)
  else page1 ← insert key value page1; Ok (page1, page2).

Definition RecursiveInsertLeaf t ctx key value : ST IdxStore (InsertInternalResult K * Context) :=
  match last (write_set_ ctx) with
  | None => st_throw (EAssert "write set empty in RecursiveInsertLeaf")
  | Some pid =>
      leaf ← load_leaf pid;
      let room := bool_decide (size_ (leaf_node leaf) < max_size_ (leaf_node leaf)) in
      let ctx := if room then keep_back ctx else ctx in
      status ← st_lift (leaf_ContainsKey key (-1) leaf);
      if bool_decide (status = LIVE)
      then mret (mkInsertResult None None false, set_write_set [] ctx) else
      idx ← st_lift (BisectRight (leaf_node leaf) key 0);
      if room then
        leaf ← st_lift (leaf_InsertAt idx key value leaf);
        _ ← store pid (LeafNode leaf);
        mret (mkInsertResult None None true, set_write_set [] ctx)
      else
        new_id ← new_page;
        let new := leaf_Init (leaf_max_size_ t) (zero_leaf t) in
        '(leaf, new) ← st_lift (leaf_Split new new_id leaf);
        '(leaf, new) ← st_lift (InsertAfterSplit (λ p, KeyAt (leaf_node p) 0) leaf_Insert leaf new key value);
        _ ← store pid (LeafNode leaf);
        _ ← store new_id (LeafNode new);
        k ← st_lift (KeyAt (leaf_node new) 0);
        mret (mkInsertResult (Some k) (Some new_id) true, pop_back ctx)
  end.

Fixpoint RecursiveInsert (fuel : nat) t ctx key value
    : ST IdxStore (InsertInternalResult K * Context) :=
  match fuel, last (write_set_ ctx) with
  | S f, Some page_id =>
      is_leaf ← IsLeafPage page_id;
      if (is_leaf : bool) then RecursiveInsertLeaf t ctx key value else
      internal ← load_internal page_id;
      let ctx := if bool_decide (size_ internal < max_size_ internal) then keep_back ctx else ctx in
      b ← st_lift (BisectRight internal key 1);
      child ← st_lift (ValueAt internal (b - 1));
      '(res, ctx) ← RecursiveInsert f t (push_back child ctx) key value;
      match new_page_id_ res, new_key_ res with
      | Some internal_new_page, Some internal_new_key =>
          if negb (bool_decide (last (write_set_ ctx) = Some page_id))
          then st_throw (EAssert "guard chain corrupted during insert") else
          if negb (inserted_ res)
          then st_throw (EAssert "new page created but insert reported false") else
          internal ← load_internal page_id;
          if bool_decide (size_ internal < max_size_ internal) then
            internal ← st_lift (internal_Insert internal_new_key internal_new_page internal);
            _ ← store page_id (InternalNode internal);
            mret (mkInsertResult None None true, set_write_set [] ctx)
          else
            new_id ← new_page;
            let new := internal_Init (internal_max_size_ t) (zero_internal t) in
            '(internal, new) ← st_lift (internal_Split new internal);
            '(internal, new) ← st_lift (InsertAfterSplit (λ p, KeyAt p 0) internal_Insert internal new
                                          internal_new_key internal_new_page);
            _ ← store page_id (InternalNode internal);
            _ ← store new_id (InternalNode new);
            k ← st_lift (KeyAt new 0);
            mret (mkInsertResult (Some k) (Some new_id) true, pop_back ctx)
      | Some _, None => st_throw EUndefined
      | None, _ => mret (res, ctx)
      end
  | _, _ => st_throw EUndefined
  end.

(** [TryOptimisticInsert]: [None] is "unsafe, retry pessimistically". *)
Definition TryOptimisticInsert t key value : ST IdxStore (option bool) :=
  root_page_id ← load_header (header_page_id_ t);
  if bool_decide (root_page_id = INVALID_PAGE_ID) then mret None else
  '(leaf_id, leaf) ← with_fuel (λ f, find_leaf f key root_page_id);
  if bool_decide (max_size_ (leaf_node leaf) ≤ size_ (leaf_node leaf)) then mret None else
  '(res, _) ← RecursiveInsertLeaf t (mkContext false INVALID_PAGE_ID [leaf_id]) key value;
  mret (Some (inserted_ res)).

(** The pessimistic half of [Insert]. *)
Definition insert_pessimistic t key value : ST IdxStore bool :=
  root_page_id ← load_header (header_page_id_ t);
  if bool_decide (root_page_id = INVALID_PAGE_ID) then
    root ← InitBPlusTree t key value;
    _ ← store (header_page_id_ t) (HeaderPage root);
    mret true
  else
  let ctx := mkContext false root_page_id [header_page_id_ t; root_page_id] in
  '(res, ctx) ← with_fuel (λ f, RecursiveInsert f t ctx key value);
  if negb (inserted_ res) then mret false else
  match new_page_id_ res, new_key_ res with
  | None, _ => mret true
  | Some split_page, Some sep =>
      match write_set_ ctx with
      | [] => st_throw (EAssert "header guard lost during root split")
      | header :: _ =>
          new_id ← new_page;
          let new := internal_Init (internal_max_size_ t) (zero_internal t) in
          new ← st_lift (SetValueAt 0 root_page_id new);
          new ← st_lift (internal_InsertAt 1 sep split_page new);
          _ ← store new_id (InternalNode (ChangeSizeBy 1 new));
          _ ← store header (HeaderPage new_id);
          mret true
      end
  | Some _, None => st_throw EUndefined
  end.

Definition Insert t key value : ST IdxStore bool :=
  opt ← TryOptimisticInsert t key value;
  match opt with
  | Some opt_result => mret opt_result
  | None => insert_pessimistic t key value
  end.

(** ** Removal *)

(** [GetBestSiblingForMerge]: the index and the page of the sibling chosen. *)
Definition GetBestSiblingForMerge (parent_page : InternalPage) (pidx : Z) : ST IdxStore (Z * Z) :=
  if negb (bool_decide (1 < size_ parent_page))
  then st_throw (EAssert "GetBestSiblingForMerge needs >= 2 children") else
  if bool_decide (pidx = 0) then
    sib ← st_lift (ValueAt parent_page 1); mret (1, sib)
  else if bool_decide (size_ parent_page - 1 ≤ pidx) then
    sib ← st_lift (ValueAt parent_page (pidx - 1)); mret (pidx - 1, sib)
  else
    rsib ← st_lift (ValueAt parent_page (pidx + 1));
    lsib ← st_lift (ValueAt parent_page (pidx - 1));
    rsize ← GetSize rsib;
    lsize ← GetSize lsib;
    if bool_decide (lsize < rsize) then mret (pidx + 1, rsib) else mret (pidx - 1, lsib).

(** [StealOrMergeNodes]: the page that died (or [INVALID_PAGE_ID]) with the new [page], [parent] and
    [sib]. *)
Definition StealOrMergeNodes {P : Type} (StealValues : P → bool → K → P → result (option (P * P * K)))
    (InsertAllValues : P → K → P → result P) (page : P) (page_id : Z) (parent : InternalPage)
    (sib : P) (sib_id : Z) (pidx : Z) (sib_left : bool) : result (Z * P * InternalPage * P) :=
  let sep_idx := if sib_left then pidx else pidx + 1 in
  parent_sep ← KeyAt parent sep_idx;
  stolen ← StealValues sib sib_left parent_sep page;
  match stolen with
  | Some (page, sib, new_sep) =>
      parent ← SetKeyAt sep_idx new_sep parent;
      Ok (INVALID_PAGE_ID, page, parent, sib)
  | None =>
      if sib_left then
        sib ← InsertAllValues page parent_sep sib;
        parent ← internal_RemoveAt sep_idx parent;
        Ok (page_id, page, parent, sib)
      else
        page ← InsertAllValues sib parent_sep page;
        parent ← internal_RemoveAt sep_idx parent;
        Ok (sib_id, page, parent, sib)
  end.

(** The end of [RecursiveDeleteLeaf]: borrow from or merge with a sibling. *)
Definition leaf_underflow ctx (pid : Z) (leaf : LeafPage) (parent_id : Z) (parent : InternalPage) (pidx : Z)
    : ST IdxStore (bool * Context) :=
  '(sib_idx, sib_id) ← GetBestSiblingForMerge parent pidx;
  sib ← load_leaf sib_id;
  '(dead, leaf, parent, sib) ← st_lift
    (StealOrMergeNodes leaf_StealValues leaf_InsertAllValues leaf pid parent sib sib_id pidx
       (bool_decide (sib_idx < pidx)));
  _ ← store pid (LeafNode leaf);
  _ ← store parent_id (InternalNode parent);
  _ ← store sib_id (LeafNode sib);
  _ ← (if bool_decide (dead ≠ INVALID_PAGE_ID) then delete_page dead else mret tt);
  mret (true, ctx).

Definition RecursiveDeleteLeaf ctx key : ST IdxStore (bool * Context) :=
  match last (write_set_ ctx) with
  | None => st_throw (EAssert "write set empty in RecursiveDeleteLeaf")
  | Some pid =>
      let ctx := pop_back ctx in
      leaf ← load_leaf pid;
      b ← st_lift (BisectRight (leaf_node leaf) key 0);
      let kidx := b - 1 in
      status ← st_lift (leaf_ContainsKey key kidx leaf);
      if bool_decide (status ≠ LIVE) then mret (false, drop_header (set_write_set [] ctx)) else
      '(_, leaf) ← st_lift (leaf_Remove key kidx leaf);
      _ ← store pid (LeafNode leaf);
      if bool_decide (GetMinSize (leaf_node leaf) ≤ size_ (leaf_node leaf))
         || bool_decide (write_set_ ctx = []) || bool_decide (pid = root_page_id_ ctx) then
        let ctx := set_write_set [] ctx in
        mret (true, if bool_decide (pid ≠ root_page_id_ ctx) then drop_header ctx else ctx)
      else
      match last (write_set_ ctx) with
      | None => st_throw EUndefined
      | Some parent_id =>
          parent ← load_internal parent_id;
          b ← st_lift (BisectRight parent key 1);
          let pidx := b - 1 in
          if bool_decide (size_ parent ≤ 1) then
            if bool_decide (size_ (leaf_node leaf) = 0) then
              parent ← st_lift (internal_RemoveAt pidx parent);
              _ ← store parent_id (InternalNode parent);
              _ ← delete_page pid;
              mret (true, ctx)
            else mret (true, ctx)
          else leaf_underflow ctx pid leaf parent_id parent pidx
      end
  end.

(** The end of [RecursiveDelete], the same for an internal node. *)
Definition internal_underflow (res : bool) ctx (guard : Z) (internal : InternalPage) (parent_id : Z)
    (parent_page : InternalPage) (pidx : Z) : ST IdxStore (bool * Context) :=
  '(sib_idx, sib_id) ← GetBestSiblingForMerge parent_page pidx;
  sib ← load_internal sib_id;
  '(dead, internal, parent_page, sib) ← st_lift
    (StealOrMergeNodes internal_StealValues internal_InsertAllValues internal guard
       parent_page sib sib_id pidx (bool_decide (sib_idx < pidx)));
  _ ← store guard (InternalNode internal);
  _ ← store parent_id (InternalNode parent_page);
  _ ← store sib_id (InternalNode sib);
  _ ← (if bool_decide (dead ≠ INVALID_PAGE_ID) then delete_page dead else mret tt);
  mret (res, ctx).

Fixpoint RecursiveDelete (fuel : nat) ctx key : ST IdxStore (bool * Context) :=
  match fuel, last (write_set_ ctx) with
  | S f, Some page_id =>
      is_leaf ← IsLeafPage page_id;
      if (is_leaf : bool) then RecursiveDeleteLeaf ctx key else
      cur ← load_internal page_id;
      let ctx :=
        if bool_decide (GetMinSize cur < size_ cur) then
          let ctx := keep_back ctx in
          if bool_decide (page_id ≠ root_page_id_ ctx) then drop_header ctx else ctx
        else ctx in
      b ← st_lift (BisectRight cur key 1);
      child ← st_lift (ValueAt cur (b - 1));
      '(res, ctx) ← RecursiveDelete f (push_back child ctx) key;
      match last (write_set_ ctx) with
      | None => mret (res, ctx)
      | Some guard =>
          let ctx := pop_back ctx in
          internal ← load_internal guard;
          if bool_decide (GetMinSize internal ≤ size_ internal)
             || bool_decide (write_set_ ctx = []) || bool_decide (guard = root_page_id_ ctx) then
            let ctx := set_write_set [] ctx in
            mret (res, if bool_decide (guard ≠ root_page_id_ ctx) then drop_header ctx else ctx)
          else
          match last (write_set_ ctx) with
          | None => st_throw EUndefined
          | Some parent_id =>
              parent_page ← load_internal parent_id;
              b ← st_lift (BisectRight parent_page key 1);
              let pidx := b - 1 in
              if bool_decide (size_ internal = 0) then
                parent_page ← st_lift (internal_RemoveAt pidx parent_page);
                _ ← store parent_id (InternalNode parent_page);
                _ ← delete_page guard;
                mret (res, ctx)
              else if bool_decide (size_ parent_page ≤ 1) then mret (res, ctx)
              else internal_underflow res ctx guard internal parent_id parent_page pidx
          end
      end
  | _, _ => st_throw EUndefined
  end.

(** [TryOptimisticDelete]: [true] when the call is done. *)
Definition TryOptimisticDelete t key : ST IdxStore bool :=
  root_page_id ← load_header (header_page_id_ t);
  if bool_decide (root_page_id = INVALID_PAGE_ID) then mret true else
  '(leaf_id, leaf) ← with_fuel (λ f, find_leaf f key root_page_id);
  let n := leaf_node leaf in
  if (if bool_decide (leaf_id = root_page_id) then bool_decide (size_ n ≤ 1)
      else bool_decide (size_ n ≤ GetMinSize n)) then mret false else
  '(res, _) ← RecursiveDeleteLeaf (mkContext false INVALID_PAGE_ID [leaf_id]) key;
  mret res.

(** The root collapse at the end of [Remove]. *)
Fixpoint collapse_root (fuel : nat) t (rid : Z) : ST IdxStore unit :=
  if bool_decide (rid = INVALID_PAGE_ID) then mret tt else
  match fuel with
  | O => st_throw EUndefined
  | S f =>
      page ← load rid;
      match page with
      | InternalNode n =>
          if bool_decide (size_ n = 1) then
            child ← st_lift (ValueAt n 0);
            _ ← store (header_page_id_ t) (HeaderPage child);
            _ ← delete_page rid;
            collapse_root f t child
          else mret tt
      | LeafNode l =>
          if bool_decide (size_ (leaf_node l) = 0) then
            _ ← store (header_page_id_ t) (HeaderPage INVALID_PAGE_ID);
            _ ← delete_page rid;
            collapse_root f t INVALID_PAGE_ID
          else mret tt
      | HeaderPage _ => st_throw EUndefined
      end
  end.

Definition Remove t key : ST IdxStore unit :=
  done ← TryOptimisticDelete t key;
  if (done : bool) then mret tt else
  root_page_id ← load_header (header_page_id_ t);
  if bool_decide (root_page_id = INVALID_PAGE_ID) then mret tt else
  let ctx := mkContext true root_page_id [root_page_id] in
  '(_, ctx) ← with_fuel (λ f, RecursiveDelete f ctx key);
  if negb (header_page_ ctx) then mret tt else
  rid ← load_header (header_page_id_ t);
  with_fuel (λ f, collapse_root f t rid).

(** ** Iterators *)

(** An [IndexIterator]: the leaf its guard latches and [offset_]. *)
Record IndexIterator := mkIter { it_guard : option Z; offset_ : Z }.
Definition End_ : IndexIterator := mkIter None (-1).
Definition IsEnd (it : IndexIterator) : bool := bool_decide (offset_ it = -1).

(** [IndexIterator(bpm, guard)]: the first entry of the leaf, or the end if it has none. *)
Definition iter_of (pid : Z) : ST IdxStore IndexIterator :=
  leaf ← load_leaf pid;
  mret (mkIter (Some pid) (if bool_decide (0 < size_ (leaf_node leaf)) then 0 else -1)).

Definition iter_deref (it : IndexIterator) : ST IdxStore (K * V) :=
  match it_guard it with
  | None => st_throw EUndefined
  | Some pid =>
      leaf ← load_leaf pid;
      k ← st_lift (KeyAt (leaf_node leaf) (offset_ it));
      v ← st_lift (ValueAt (leaf_node leaf) (offset_ it));
      mret (k, v)
  end.

Definition iter_next (it : IndexIterator) : ST IdxStore IndexIterator :=
  match it_guard it with
  | None => st_throw EUndefined
  | Some pid =>
      leaf ← load_leaf pid;
      if bool_decide (offset_ it + 1 < size_ (leaf_node leaf))
      then mret (mkIter (Some pid) (offset_ it + 1)) else
      let next := leaf_GetNextPageId leaf in
      if bool_decide (next = INVALID_PAGE_ID) then mret End_ else iter_of next
  end.

(** The descent of [Begin()]. *)
Fixpoint leftmost_leaf (fuel : nat) (pid : Z) : ST IdxStore Z :=
  match fuel with
  | O => st_throw EUndefined
  | S f =>
      p ← load pid;
      match p with
      | LeafNode _ => mret pid
      | InternalNode internal => child ← st_lift (ValueAt internal 0); leftmost_leaf f child
      | HeaderPage _ => st_throw EUndefined
      end
  end.

Definition Begin t : ST IdxStore IndexIterator :=
  page_id ← load_header (header_page_id_ t);
  if bool_decide (page_id = INVALID_PAGE_ID) then mret End_ else
  leaf ← with_fuel (λ f, leftmost_leaf f page_id);
  iter_of leaf.

(** [while (!it.IsEnd() && comparator_(( *it).first, key) < 0) ++it;] *)
Fixpoint seek (fuel : nat) key (it : IndexIterator) : ST IdxStore IndexIterator :=
  if IsEnd it then mret it else
  match fuel with
  | O => st_throw EUndefined
  | S f =>
      e ← iter_deref it;
      if bool_decide (comparator e.1 key < 0) then it ← iter_next it; seek f key it else mret it
  end.

(** The leaf the descent reaches holds every key not above [key] that matters, so at most
    [size_ + 1] turns are made. *)
Definition BeginKey t key : ST IdxStore IndexIterator :=
  page_id ← load_header (header_page_id_ t);
  if bool_decide (page_id = INVALID_PAGE_ID) then mret End_ else
  '(leaf_id, leaf) ← with_fuel (λ f, find_leaf f key page_id);
  it ← iter_of leaf_id;
  seek (S (Z.to_nat (size_ (leaf_node leaf)))) key it.

(** ** Freeing the tree *)

Fixpoint child_ids (n : nat) (i : Z) (p : InternalPage) : result (list Z) :=
  match n with
  | O => Ok []
  | S n => c ← ValueAt p i; cs ← child_ids n (i + 1) p; Ok (c :: cs)
  end.

Definition for_each {A} (f : A → ST IdxStore unit) : list A → ST IdxStore unit :=
  fix go l := match l with [] => mret tt | x :: l => _ ← f x; go l end.

Fixpoint FreeSubtree (fuel : nat) (page_id : Z) : ST IdxStore unit :=
  match fuel with
  | O => st_throw EUndefined
  | S f =>
      p ← load page_id;
      children ← match p with
                 | InternalNode n => st_lift (child_ids (Z.to_nat (size_ n)) 0 n)
                 | LeafNode _ => mret []
                 | HeaderPage _ => st_throw EUndefined
                 end;
      _ ← for_each (FreeSubtree f) children;
      delete_page page_id
  end.

Definition tree_FreeAllPages t : ST IdxStore unit :=
  root_page_id ← load_header (header_page_id_ t);
  _ ← (if bool_decide (root_page_id ≠ INVALID_PAGE_ID)
       then with_fuel (λ f, FreeSubtree f root_page_id) else mret tt);
  delete_page (header_page_id_ t).
End tree.
