(* ===== verification/BTreeInvariant.v ===== *)
(** * Shape, order and footprint of a B+ tree

    [tree] is the tree a set of pages represents: every node with its page id, its keys and, for a
    leaf, its link.  [rep] ties it to the store, [bal] bounds the node sizes and makes all leaves
    equally deep, and the order of keys and separators is one statement: the in-order [trace] of
    entries and separators is strictly sorted.  Splits, borrowings and merges of internal nodes leave
    that trace as it is, which is why their proofs are about lists only. *)

From stdpp Require Import sorting.
From S2P Require Import Prelude TablePage TableHeap BTreePage BPlusTree.

(** ** Trees *)

Inductive tree (K V : Type) :=
  | TLeaf (pid next : Z) (es : list (K * V))
  | TNode (pid : Z) (kids : list (K * tree K V)).
Arguments TLeaf {K V} _ _ _.
Arguments TNode {K V} _ _.

(** One element of an in-order walk: an entry or a separator. *)
Inductive item (K : Type) := Ent (k : K) | Sep (k : K).
Arguments Ent {K} _.
Arguments Sep {K} _.

Definition item_lt `{!KeyComparator K} (x y : item K) : Prop :=
  match x, y with
  | Ent a, Ent b | Ent a, Sep b | Sep a, Sep b => key_lt a b
  | Sep a, Ent b => key_le a b
  end.

#[global] Instance item_lt_trans `{!KeyComparator K, !KeyOrder K} : Transitive (item_lt (K:=K)).
Proof.
  intros [a|a] [b|b] [c|c]; simpl; eauto using key_lt_trans, key_le_lt_trans, key_lt_le_trans, key_lt_le.
Qed.

Section tree_fns.
Context {K V : Type}.
#[local] Abbreviation Tree := (tree K V).
Implicit Types (t c : Tree) (kids : list (K * Tree)).

Definition tpid t : Z := match t with TLeaf pid _ _ => pid | TNode pid _ => pid end.

Fixpoint flat t : list (K * V) :=
  match t with
  | TLeaf _ _ es => es
  | TNode _ kids => concat (map (λ kc, flat kc.2) kids)
  end.
Fixpoint foot t : list Z :=
  match t with
  | TLeaf pid _ _ => [pid]
  | TNode pid kids => pid :: concat (map (λ kc, foot kc.2) kids)
  end.
Fixpoint links t : list (Z * Z) :=
  match t with
  | TLeaf pid next _ => [(pid, next)]
  | TNode _ kids => concat (map (λ kc, links kc.2) kids)
  end.
Fixpoint trace t : list (item K) :=
  match t with
  | TLeaf _ _ es => map (λ e, Ent e.1) es
  | TNode _ kids => tail (concat (map (λ kc, Sep kc.1 :: trace kc.2) kids))
  end.

(** The same for a list of children. *)
Definition kflat kids : list (K * V) := concat (map (λ kc, flat kc.2) kids).
Definition kfoot kids : list Z := concat (map (λ kc, foot kc.2) kids).
Definition klinks kids : list (Z * Z) := concat (map (λ kc, links kc.2) kids).
Definition ktrace kids : list (item K) := concat (map (λ kc, Sep kc.1 :: trace kc.2) kids).
(** The walk up to the child after [kl] with separator [k]; the first separator is no key. *)
Definition pre kids (k : K) : list (item K) := tail (ktrace kids ++ [Sep k]).
Definition slots_of kids : list (K * Z) := map (λ kc, (kc.1, tpid kc.2)) kids.

(** The leaves of a tree in order: page, link, entries. *)
Fixpoint leaves t : list (Z * Z * list (K * V)) :=
  match t with
  | TLeaf pid next es => [(pid, next, es)]
  | TNode _ kids => concat (map (λ kc, leaves kc.2) kids)
  end.
Definition kleaves kids : list (Z * Z * list (K * V)) := concat (map (λ kc, leaves kc.2) kids).

(** [chain ls e]: each leaf links to the next one, the last to [e]. *)
Definition first_leaf (ls : list (Z * Z)) (e : Z) : Z :=
  match ls with [] => e | (pid, _) :: _ => pid end.
Fixpoint chain (ls : list (Z * Z)) (e : Z) : Prop :=
  match ls with
  | [] => True
  | (_, next) :: ls => next = first_leaf ls e ∧ chain ls e
  end.

Lemma kflat_app k1 k2 : kflat (k1 ++ k2) = kflat k1 ++ kflat k2.
Proof. unfold kflat. by rewrite map_app, concat_app. Qed.
Lemma kfoot_app k1 k2 : kfoot (k1 ++ k2) = kfoot k1 ++ kfoot k2.
Proof. unfold kfoot. by rewrite map_app, concat_app. Qed.
Lemma klinks_app k1 k2 : klinks (k1 ++ k2) = klinks k1 ++ klinks k2.
Proof. unfold klinks. by rewrite map_app, concat_app. Qed.
Lemma ktrace_app k1 k2 : ktrace (k1 ++ k2) = ktrace k1 ++ ktrace k2.
Proof. unfold ktrace. by rewrite map_app, concat_app. Qed.
Lemma slots_of_app k1 k2 : slots_of (k1 ++ k2) = slots_of k1 ++ slots_of k2.
Proof. unfold slots_of. by rewrite map_app. Qed.
Lemma slots_of_length kids : length (slots_of kids) = length kids.
Proof. unfold slots_of. by rewrite length_map. Qed.

Lemma kflat_cons k c kids : kflat ((k, c) :: kids) = flat c ++ kflat kids.
Proof. done. Qed.
Lemma kfoot_cons k c kids : kfoot ((k, c) :: kids) = foot c ++ kfoot kids.
Proof. done. Qed.
Lemma klinks_cons k c kids : klinks ((k, c) :: kids) = links c ++ klinks kids.
Proof. done. Qed.
Lemma ktrace_cons k c kids : ktrace ((k, c) :: kids) = Sep k :: trace c ++ ktrace kids.
Proof. done. Qed.

Lemma trace_node pid kl k c kr :
  trace (TNode pid (kl ++ (k, c) :: kr)) = pre kl k ++ trace c ++ ktrace kr.
Proof.
  simpl. fold (ktrace (kl ++ (k, c) :: kr)). rewrite ktrace_app, ktrace_cons. unfold pre.
  destruct (ktrace kl) as [|x l]; simpl; [done|]. by rewrite <-app_assoc.
Qed.
Lemma foot_node pid kl k c kr :
  foot (TNode pid (kl ++ (k, c) :: kr)) = pid :: kfoot kl ++ foot c ++ kfoot kr.
Proof. simpl. fold (kfoot (kl ++ (k, c) :: kr)). by rewrite kfoot_app, kfoot_cons. Qed.
Lemma links_node pid kl k c kr :
  links (TNode pid (kl ++ (k, c) :: kr)) = klinks kl ++ links c ++ klinks kr.
Proof. simpl. fold (klinks (kl ++ (k, c) :: kr)). by rewrite klinks_app, klinks_cons. Qed.
Lemma flat_node pid kl k c kr :
  flat (TNode pid (kl ++ (k, c) :: kr)) = kflat kl ++ flat c ++ kflat kr.
Proof. simpl. fold (kflat (kl ++ (k, c) :: kr)). by rewrite kflat_app, kflat_cons. Qed.
(** Replacing the child by two with a separator between them. *)
Lemma trace_node2 pid kl k c1 k' c2 kr :
  trace (TNode pid (kl ++ (k, c1) :: (k', c2) :: kr)) =
  pre kl k ++ (trace c1 ++ Sep k' :: trace c2) ++ ktrace kr.
Proof. by rewrite trace_node, ktrace_cons, <-app_assoc. Qed.
(** Cutting a node in two: the first separator of the right part moves between them. *)
Lemma trace_split pid pid1 pid2 A k c B :
  A ≠ [] → trace (TNode pid (A ++ (k, c) :: B)) =
  trace (TNode pid1 A) ++ Sep k :: trace (TNode pid2 ((k, c) :: B)).
Proof.
  intros HA. simpl. fold (ktrace (A ++ (k, c) :: B)). fold (ktrace A).
  rewrite ktrace_app, ktrace_cons. destruct A as [|[k0 c0] A]; [congruence|].
  rewrite ktrace_cons. done.
Qed.
Lemma pre_cons k0 c0 kl k : pre ((k0, c0) :: kl) k = trace c0 ++ ktrace kl ++ [Sep k].
Proof. unfold pre. rewrite ktrace_cons. simpl. by rewrite <-app_assoc. Qed.

Lemma tpid_foot t : tpid t ∈ foot t.
Proof. destruct t; simpl; left. Qed.

Lemma elem_of_kfoot kids q : q ∈ kfoot kids ↔ ∃ k c, (k, c) ∈ kids ∧ q ∈ foot c.
Proof.
  induction kids as [|[k c] kids IH].
  - split; [inversion 1|]. intros (?&?&?%elem_of_nil&?). done.
  - rewrite kfoot_cons, elem_of_app, IH. set_solver.
Qed.

Lemma leaves_flat t : flat t = concat (map snd (leaves t)).
Proof.
  revert t. fix IH 1. intros [pid next es|pid kids]; simpl; [by rewrite app_nil_r|].
  induction kids as [|[k c] kids IHk]; [done|]. simpl. by rewrite map_app, concat_app, IH, IHk.
Qed.
Lemma leaves_links t : links t = map fst (leaves t).
Proof.
  revert t. fix IH 1. intros [pid next es|pid kids]; simpl; [done|].
  induction kids as [|[k c] kids IHk]; [done|]. simpl. by rewrite map_app, IH, IHk.
Qed.
Lemma kleaves_app k1 k2 : kleaves (k1 ++ k2) = kleaves k1 ++ kleaves k2.
Proof. unfold kleaves. by rewrite map_app, concat_app. Qed.
Lemma kleaves_flat kids : kflat kids = concat (map snd (kleaves kids)).
Proof. apply (leaves_flat (TNode 0 kids)). Qed.

Lemma first_leaf_app l1 l2 e : first_leaf (l1 ++ l2) e = first_leaf l1 (first_leaf l2 e).
Proof. by destruct l1. Qed.
Lemma chain_app l1 l2 e : chain (l1 ++ l2) e ↔ chain l1 (first_leaf l2 e) ∧ chain l2 e.
Proof.
  induction l1 as [|[p n] l1 IH]; simpl; [tauto|].
  rewrite IH, first_leaf_app. tauto.
Qed.
End tree_fns.

(** ** The pages that represent a tree *)

Section rep.
Context {K V : Type} `{!KeyComparator K, !Inhabited K, !Inhabited V} (T : BPlusTree).
#[local] Abbreviation Tree := (tree K V).
#[local] Abbreviation Pages := (gmap Z (IndexPage K V)).
Implicit Types (t c : Tree) (kids : list (K * Tree)) (m : Pages).

(** [rep d m t]: [t] is [d] internal levels high and its nodes are the pages of [m]. *)
Fixpoint rep (d : nat) (m : Pages) (t : Tree) {struct d} : Prop :=
  match d, t with
  | O, TLeaf pid next es => ∃ p, m !! pid = Some (LeafNode p) ∧ leaf_is (leaf_max_size_ T) es next p
  | S d, TNode pid kids =>
      (∃ p, m !! pid = Some (InternalNode p) ∧ node_is (internal_max_size_ T) (slots_of kids) p) ∧
      Forall (λ kc, rep d m kc.2) kids
  | _, _ => False
  end.

Definition min_leaf : Z := Z.quot (leaf_max_size_ T) 2.
Definition min_internal : Z := Z.quot (internal_max_size_ T) 2.

(** [bal lo li d t]: node sizes, with lower bounds [lo] and [li] for the top node only. *)
Fixpoint bal (lo li : Z) (d : nat) (t : Tree) {struct d} : Prop :=
  match d, t with
  | O, TLeaf _ _ es => lo ≤ Z.of_nat (length es) ≤ leaf_max_size_ T
  | S d, TNode _ kids =>
      li ≤ Z.of_nat (length kids) ≤ internal_max_size_ T ∧
      Forall (λ kc, bal min_leaf min_internal d kc.2) kids
  | _, _ => False
  end.

Lemma rep_frame d m m' t :
  rep d m t → (∀ pid, pid ∈ foot t → m' !! pid = m !! pid) → rep d m' t.
Proof.
  revert t. induction d as [|d IH]; intros [pid next es|pid kids]; simpl; try done.
  - intros (p & Hp & Hl) Hf. exists p. by rewrite Hf by left.
  - intros ((p & Hp & Hn) & Hk) Hf. split.
    { exists p. by rewrite Hf by left. }
    fold (kfoot kids) in Hf. clear Hn Hp.
    rewrite Forall_forall in *. intros [k c] Hin. apply IH; [by apply (Hk _ Hin)|].
    intros q Hq. apply Hf. right. apply list_elem_of_split in Hin as (k1 & k2 & ->).
    rewrite kfoot_app, kfoot_cons. set_solver.
Qed.

Lemma rep_dom d m t pid : rep d m t → pid ∈ foot t → is_Some (m !! pid).
Proof.
  revert t. induction d as [|d IH]; intros [p next es|p kids]; simpl; try done.
  - intros (q & Hq & _) ->%list_elem_of_singleton. eauto.
  - intros ((? & Hp & _) & Hk) Hin. apply elem_of_cons in Hin as [->|Hin]; [eauto|].
    rewrite Forall_forall in Hk. fold (kfoot kids) in Hin.
    apply elem_of_kfoot in Hin as (k & c & Hc & Hq). eapply IH; [by apply (Hk _ Hc)|done].
Qed.

Lemma bal_weaken lo li lo' li' d t : bal lo li d t → lo' ≤ lo → li' ≤ li → bal lo' li' d t.
Proof.
  destruct d, t; simpl; try done; [lia|]. intros [? ?] ? ?. split; [lia|done].
Qed.

Lemma Forall_kid {A} (P : A → Prop) (l : list A) x r : Forall P (l ++ x :: r) ↔ Forall P l ∧ P x ∧ Forall P r.
Proof. by rewrite Forall_app, Forall_cons. Qed.
End rep.

(** ** Order *)

Section order.
Context {K V : Type} `{!KeyComparator K, !KeyOrder K}.
#[local] Abbreviation Tree := (tree K V).
Implicit Types (t c : Tree) (kids : list (K * Tree)).

#[local] Abbreviation sorted := (StronglySorted (item_lt (K:=K))).

(** Everything in [l] is before the entry [key], everything in [r] after it. *)
Definition before (l : list (item K)) (key : K) : Prop := Forall (λ x, item_lt x (Ent key)) l.
Definition after (key : K) (r : list (item K)) : Prop := Forall (item_lt (Ent key)) r.

Lemma before_app l1 l2 key : before (l1 ++ l2) key ↔ before l1 key ∧ before l2 key.
Proof. apply Forall_app. Qed.
Lemma after_app l1 l2 key : after key (l1 ++ l2) ↔ after key l1 ∧ after key l2.
Proof. apply Forall_app. Qed.

Lemma sorted_mid l m r : sorted (l ++ m ++ r) → sorted m.
Proof. intros. by eapply StronglySorted_app_1_l, StronglySorted_app_1_r. Qed.

(** Where a search leaves the children of a node: the child to follow has the search key between
    the walk before it and the walk after it. *)
Lemma descend_kids kids key :
  kids ≠ [] → sorted (tail (ktrace kids)) →
  ∃ kl k c kr, kids = kl ++ (k, c) :: kr ∧ before (pre kl k) key ∧ after key (ktrace kr).
Proof.
  destruct kids as [|[k0 c0] rest]; [congruence|]. intros _. rewrite ktrace_cons. simpl tail.
  induction rest as [|[k c] rest IH] using rev_ind; intros Hs.
  { exists [], k0, c0, []. split_and!; [done|by constructor|by constructor]. }
  rewrite ktrace_app, ktrace_cons, app_assoc in Hs. rewrite app_nil_r in Hs.
  pose proof (StronglySorted_app_1_r _ _ _ Hs) as Hc.
  destruct (decide (key_le k key)) as [Hle|Hgt].
  - exists ((k0, c0) :: rest), k, c, []. split_and!; [done| |by constructor].
    rewrite pre_cons, app_assoc. apply before_app. split; [|by repeat constructor].
    apply Forall_forall. intros x Hx. transitivity (Sep k); [|done].
    eapply StronglySorted_app_1_elem_of; [done|done|left].
  - apply key_not_le in Hgt.
    destruct IH as (kl & k' & c' & kr & E & Hl & Hr); [by eapply StronglySorted_app_1_l|].
    exists kl, k', c', (kr ++ [(k, c)]). rewrite app_comm_cons, E, <-app_assoc.
    split_and!; [done|done|]. rewrite ktrace_app, ktrace_cons, app_nil_r. apply after_app.
    split; [done|]. constructor; [done|].
    apply StronglySorted_cons in Hc as [Hc _].
    eapply Forall_impl; [exact Hc|]. intros x Hx. by transitivity (Sep k).
Qed.

(** What holds of the walk holds of the separators in the slots; slot 0 has none. *)
Lemma pre_slots (P : item K → Prop) kl k (c : Tree) :
  Forall P (pre kl k) → Forall (λ e, P (Sep e.1)) (drop 1 (slots_of (kl ++ [(k, c)]))).
Proof.
  destruct kl as [|[k0 c0] kl]; [constructor|]. rewrite pre_cons. simpl. rewrite drop_0.
  intros H. apply Forall_app in H as [_ H]. revert H.
  induction kl as [|[k1 c1] kl IH]; intros H.
  { inversion_clear H. by repeat constructor. }
  rewrite ktrace_cons in H. simpl in *. inversion_clear H as [|?? H1 H2]. constructor; [exact H1|].
  apply IH. rewrite <-app_assoc in H2. by apply Forall_app in H2 as [_ H2].
Qed.
Lemma ktrace_slots (P : item K → Prop) (kr : list (K * Tree)) :
  Forall P (ktrace kr) → Forall (λ e, P (Sep e.1)) (slots_of kr).
Proof.
  induction kr as [|[k c] kr IH]; [constructor|]. rewrite ktrace_cons. intros H.
  inversion_clear H as [|?? H1 H2]. constructor; [exact H1|].
  apply IH. by apply Forall_app in H2 as [_ H2].
Qed.
Lemma before_slots kl k (c : Tree) key :
  before (pre kl k) key → Forall (λ e, key_le e.1 key) (drop 1 (slots_of (kl ++ [(k, c)]))).
Proof. apply (pre_slots (λ x, item_lt x (Ent key))). Qed.
Lemma after_slots (kr : list (K * Tree)) key :
  after key (ktrace kr) → Forall (λ e, key_lt key e.1) (slots_of kr).
Proof. apply (ktrace_slots (item_lt (Ent key))). Qed.

(** Entries occur in the walk. *)
Lemma flat_trace t k v : (k, v) ∈ flat t → Ent k ∈ trace t.
Proof.
  revert t. fix IH 1. intros [pid next es|pid kids]; simpl.
  - intros H. apply list_elem_of_fmap. by exists (k, v).
  - fold (kflat kids). fold (ktrace kids). destruct kids as [|[k0 c0] kids]; [inversion 1|].
    rewrite kflat_cons, ktrace_cons. simpl. intros [H|H]%elem_of_app; apply elem_of_app.
    { left. by apply IH. }
    right. clear k0 c0. induction kids as [|[k1 c1] kids IHk]; [inversion H|].
    rewrite kflat_cons in H. rewrite ktrace_cons. right. apply elem_of_app.
    apply elem_of_app in H as [H|H]; [left; by apply IH|right; by apply IHk].
Qed.
Lemma kflat_ktrace (kids : list (K * Tree)) e : e ∈ kflat kids → Ent e.1 ∈ ktrace kids.
Proof.
  destruct e as [k v]. induction kids as [|[k1 c1] kids IH]; [inversion 1|].
  rewrite kflat_cons, ktrace_cons. intros [H|H]%elem_of_app; right; apply elem_of_app.
  - left. by eapply flat_trace.
  - right. by apply IH.
Qed.
Lemma kflat_pre (kids : list (K * Tree)) k e : e ∈ kflat kids → Ent e.1 ∈ pre kids k.
Proof.
  destruct kids as [|[k0 c0] kids]; [inversion 1|]. rewrite kflat_cons, pre_cons.
  intros [H|H]%elem_of_app; apply elem_of_app.
  - left. destruct e. by eapply flat_trace.
  - right. apply elem_of_app. left. by apply kflat_ktrace.
Qed.

(** A new item goes into its place. *)
Lemma sorted_put x z y :
  sorted (x ++ y) → Forall (λ a, item_lt a z) x → Forall (item_lt z) y → sorted (x ++ z :: y).
Proof.
  intros (Hxy & Hx & Hy)%StronglySorted_app Hz Hz'. apply StronglySorted_app. split_and!.
  - intros a b Ha [->|Hb]%elem_of_cons; [|by apply Hxy]. by eapply Forall_forall in Hz.
  - done.
  - by apply StronglySorted_cons.
Qed.
Lemma sorted_drop x z y : sorted (x ++ z :: y) → sorted (x ++ y).
Proof.
  intros (Hxy & Hx & Hy)%StronglySorted_app. apply StronglySorted_cons in Hy as [_ Hy].
  apply StronglySorted_app. split_and!; [|done|done]. intros a b Ha Hb. apply Hxy; [done|by right].
Qed.
Lemma sorted_cut x z y :
  sorted (x ++ z :: y) → Forall (λ a, item_lt a z) x ∧ Forall (item_lt z) y.
Proof.
  intros (Hxy & _ & Hy)%StronglySorted_app. apply StronglySorted_cons in Hy as [Hy _].
  split; [|done]. apply Forall_forall. intros a Ha. apply Hxy; [done|by left].
Qed.

(** The entries of the walk are those of the leaves. *)
Definition item_key (x : item K) : option K := match x with Ent k => Some k | Sep _ => None end.
Lemma trace_entries t : omap item_key (trace t) = map fst (flat t).
Proof.
  revert t. fix IH 1. intros [pid next es|pid kids]; simpl.
  - induction es as [|[k v] es IHe]; simpl; [done|]. f_equal. exact IHe.
  - fold (kflat kids). fold (ktrace kids).
    assert (omap item_key (ktrace kids) = map fst (kflat kids)) as E.
    { induction kids as [|[k c] kids IHk]; [done|].
      rewrite ktrace_cons, kflat_cons. simpl. rewrite omap_app, map_app, IH. by f_equal. }
    rewrite <-E. destruct kids as [|[k c] kids]; [done|]. by rewrite ktrace_cons.
Qed.
Lemma sorted_entries_of tr : sorted tr → sorted (map Ent (omap item_key tr)).
Proof.
  induction tr as [|x tr IH]; intros Hs; [done|].
  apply StronglySorted_cons in Hs as [Hx Hs]. destruct x as [k|k]; simpl; [|auto].
  apply StronglySorted_cons. split; [|auto].
  apply Forall_forall. intros y Hy. apply list_elem_of_fmap in Hy as (k' & -> & Hk').
  apply list_elem_of_omap in Hk' as ([k0|k0] & Hin & [= <-]). by eapply Forall_forall in Hx.
Qed.
End order.

(** * Search in a B+ tree: the descent, [GetValue], and enough fuel

    The store discipline ([store_ok]), the index invariant ([index_at]) and the proofs that every
    descent from the root reaches the one leaf that can hold the key. *)

(** ** The page allocator *)

Section alloc.
Context {P : Type}.
Implicit Types st : Store P.

(** Reclaimed ids are distinct and hold no page; every page id was handed out. *)
Definition store_ok st : Prop :=
  NoDup (st_free_pages st) ∧
  (∀ q, q ∈ st_free_pages st → 0 ≤ q < st_next_page_id st ∧ st_pages st !! q = None) ∧
  (∀ q p, st_pages st !! q = Some p → 0 ≤ q < st_next_page_id st) ∧
  0 ≤ st_next_page_id st.

Lemma NewPage_ok st id st' :
  store_ok st → NewPage st = (id, st') →
  st_pages st' = st_pages st ∧ st_pages st !! id = None ∧ 0 ≤ id < st_next_page_id st' ∧
  (id ∉ st_free_pages st') ∧ store_ok st'.
Proof.
  intros (Hnd & Hfree & Hdom & Hnext). unfold NewPage.
  destruct (last (st_free_pages st)) as [x|] eqn:E; intros [= <- <-]; simpl.
  - apply last_Some in E as [l El]. rewrite El in *.
    rewrite length_app. simpl. rewrite Nat.add_sub, take_app_length.
    apply NoDup_app in Hnd as (Hnd & Hx & _).
    destruct (Hfree x) as [? ?]; [set_solver|].
    split_and!; [done|done|lia|lia| |split_and!; simpl; [done| |done|done]].
    + intros Hin. apply (Hx x Hin). by left.
    + intros q Hq. apply Hfree. set_solver.
  - apply last_None in E. rewrite E in *.
    split_and!; [done| |lia|lia|set_solver|split_and!; simpl; [done|set_solver| |lia]].
    + destruct (st_pages st !! st_next_page_id st) eqn:Hp; [|done]. apply Hdom in Hp. lia.
    + intros q p Hq. apply Hdom in Hq. lia.
Qed.

(** Writing a page the tree owns, or the page just allocated. *)
Lemma set_page_ok st id p :
  store_ok st → 0 ≤ id < st_next_page_id st → id ∉ st_free_pages st → store_ok (set_page id p st).
Proof.
  intros (Hnd & Hfree & Hdom & Hnext) Hid Hf. unfold set_page. split_and!; simpl; [done| | |done].
  - intros q Hq. rewrite lookup_insert_ne by set_solver. auto.
  - intros q p' Hq. destruct (decide (q = id)) as [->|]; [lia|].
    rewrite lookup_insert_ne in Hq by done. eauto.
Qed.
Lemma set_page_owned st id p p0 :
  store_ok st → st_pages st !! id = Some p0 → store_ok (set_page id p st).
Proof.
  intros Hok Hp. apply set_page_ok; [done|by eapply Hok|].
  intros Hf. destruct Hok as (_ & Hfree & _). apply Hfree in Hf as [_ ?]. congruence.
Qed.
Lemma DeletePage_ok st id p : store_ok st → st_pages st !! id = Some p → store_ok (DeletePage id st).
Proof.
  intros (Hnd & Hfree & Hdom & Hnext) Hp. unfold DeletePage.
  assert (id ∉ st_free_pages st) as Hid.
  { intros [_ ?]%Hfree. congruence. }
  split_and!; simpl; [| | |done].
  - apply NoDup_app. split_and!; [done|set_solver|apply NoDup_singleton].
  - intros q Hq. apply elem_of_app in Hq as [Hq| ->%list_elem_of_singleton].
    + rewrite lookup_delete_ne by set_solver. auto.
    + rewrite lookup_delete_eq. eauto.
  - intros q p' Hq. apply lookup_delete_Some in Hq as [_ Hq]. eauto.
Qed.
End alloc.

(** ** Descents *)

Section search.
Context {K V : Type} `{!KeyComparator K, !KeyOrder K, !Inhabited K, !Inhabited V} (T : BPlusTree).
#[local] Abbreviation Tree := (tree K V).
#[local] Abbreviation IdxStore := (Store (IndexPage K V)).
#[local] Abbreviation sorted := (StronglySorted (item_lt (K:=K))).
Implicit Types (t c : Tree) (kids : list (K * Tree)) (st : IdxStore).

Lemma load_ok st pid p : st_pages st !! pid = Some p → load pid st = (Ok p, st).
Proof. unfold load. by intros ->. Qed.
Lemma load_leaf_ok st pid p :
  st_pages st !! pid = Some (LeafNode p) → load_leaf pid st = (Ok p, st).
Proof. intros H. unfold load_leaf. by rewrite (ST_bind_ok _ _ _ _ _ (load_ok _ _ _ H)). Qed.
Lemma load_internal_ok st pid p :
  st_pages st !! pid = Some (InternalNode p) → load_internal pid st = (Ok p, st).
Proof. intros H. unfold load_internal. by rewrite (ST_bind_ok _ _ _ _ _ (load_ok _ _ _ H)). Qed.
Lemma load_header_ok st pid r :
  st_pages st !! pid = Some (HeaderPage r) → load_header pid st = (Ok r, st).
Proof. intros H. unfold load_header. by rewrite (ST_bind_ok _ _ _ _ _ (load_ok _ _ _ H)). Qed.

Lemma with_fuel_ok {A} (f : nat → ST IdxStore A) st r :
  f (S (size (st_pages st))) st = r → with_fuel f st = r.
Proof. done. Qed.

(** The step of a descent: which child a well-formed internal page sends [key] to. *)
Lemma descend_node mx kids p key kl k c kr :
  node_is mx (slots_of kids) p → kids = kl ++ (k, c) :: kr →
  before (pre kl k) key → after key (ktrace kr) →
  BisectRight p key 1 = Ok (Z.of_nat (length kl) + 1) ∧
  ValueAt p (Z.of_nat (length kl) + 1 - 1) = Ok (tpid c).
Proof.
  intros Hp -> Hl Hr.
  assert (slots_of (kl ++ (k, c) :: kr) = slots_of (kl ++ [(k, c)]) ++ slots_of kr) as E.
  { by rewrite <-slots_of_app, <-app_assoc. }
  split.
  - replace (Z.of_nat (length kl) + 1) with (Z.of_nat (length (slots_of (kl ++ [(k, c)])))).
    2:{ rewrite slots_of_length, length_app. simpl. lia. }
    eapply BisectRight_ok; [done|done| | |].
    + rewrite slots_of_length, length_app. simpl. lia.
    + by apply before_slots.
    + eapply Forall_impl; [by apply after_slots|]. intros e He. apply comparator_flip in He. lia.
  - eapply (node_ValueAt _ _ _ (slots_of kl) k (tpid c) (slots_of kr)); [done| |].
    + rewrite slots_of_app. done.
    + rewrite slots_of_length. lia.
Qed.

Lemma bal_kids_nonempty lo li d pid kids : bal T lo li (S d) (TNode pid kids) → 1 ≤ li → kids ≠ [].
Proof. intros [? _] ? ->. simpl in *. lia. Qed.

(** The leaf a descent reaches, with the entries of the tree before and after it. *)
Lemma find_leaf_ok d fuel key t lo li st :
  rep T d (st_pages st) t → bal T lo li d t → 1 ≤ li → 1 ≤ min_internal T → sorted (trace t) →
  (d < fuel)%nat →
  ∃ pid next es p la ra L1 L2,
    find_leaf fuel key (tpid t) st = (Ok (pid, p), st) ∧
    st_pages st !! pid = Some (LeafNode p) ∧ leaf_is (leaf_max_size_ T) es next p ∧
    trace t = la ++ map (λ e, Ent e.1) es ++ ra ∧ before la key ∧ after key ra ∧
    leaves t = L1 ++ (pid, next, es) :: L2 ∧
    (∀ e, e ∈ concat (map snd L1) → Ent e.1 ∈ la) ∧ (∀ e, e ∈ concat (map snd L2) → Ent e.1 ∈ ra).
Proof.
  revert d t lo li. induction fuel as [|f IH]; intros d t lo li Hrep Hbal Hli Hmi Hs Hf; [lia|].
  destruct d as [|d], t as [pid next es|pid kids]; try done.
  - destruct Hrep as (p & Hp & Hl). exists pid, next, es, p, [], [], [], []. simpl.
    run (load_ok _ _ _ Hp). split_and!; try done; try (by constructor); [by rewrite app_nil_r|set_solver..].
  - pose proof (bal_kids_nonempty _ _ _ _ _ Hbal Hli) as Hne.
    destruct Hrep as ((p & Hp & Hn) & Hk). destruct Hbal as [_ Hkb].
    destruct (descend_kids kids key Hne Hs) as (kl & k & c & kr & -> & Hl & Hr).
    destruct (descend_node _ _ _ _ _ _ _ _ Hn eq_refl Hl Hr) as [E1 E2].
    apply Forall_kid in Hk as (_ & Hc & _). apply Forall_kid in Hkb as (_ & Hcb & _).
    rewrite trace_node in Hs. simpl in *.
    destruct (IH d c _ _ Hc Hcb Hmi Hmi (sorted_mid _ _ _ Hs)) as
      (q & nx & es & lp & la & ra & L1 & L2 & Ef & Hq & Hlf & Et & Hla & Hra & El & Hfa & Hfb);
      [lia|].
    exists q, nx, es, lp, (pre kl k ++ la), (ra ++ ktrace kr), (kleaves kl ++ L1), (L2 ++ kleaves kr).
    run (load_ok _ _ _ Hp). run E1. run E2.
    split_and!; try done.
    + fold (ktrace (kl ++ (k, c) :: kr)). pose proof (trace_node pid kl k c kr) as Etr. simpl in Etr.
      unfold ktrace at 1. rewrite Etr, Et. by rewrite <-!app_assoc.
    + by apply before_app.
    + by apply after_app.
    + fold (kleaves (kl ++ (k, c) :: kr)). rewrite kleaves_app. unfold kleaves at 2. simpl.
      rewrite El. by rewrite <-!app_assoc.
    + intros e. rewrite map_app, concat_app, <-kleaves_flat.
      intros [He|He]%elem_of_app; apply elem_of_app; [left; by apply kflat_pre|right; auto].
    + intros e. rewrite map_app, concat_app, <-kleaves_flat.
      intros [He|He]%elem_of_app; apply elem_of_app; [left; auto|right; by apply kflat_ktrace].
Qed.

(** ** A key in a sorted run of entries *)

Definition is_key (key : K) (e : K * V) : Prop := comparator e.1 key = 0.
#[global] Instance is_key_dec key e : Decision (is_key key e).
Proof. unfold is_key. apply _. Defined.
(** The value bound to [key]; at most one entry has it when the keys are strictly sorted. *)
Definition lookup_key (key : K) (es : list (K * V)) : option V :=
  (λ ie, ie.2.2) <$> list_find (is_key key) es.

Definition lt_key (key : K) (e : K * V) : Prop := key_lt e.1 key.
Definition gt_key (key : K) (e : K * V) : Prop := key_lt key e.1.
(** [es] is strictly sorted by key. *)
Definition sorted_entries (es : list (K * V)) : Prop := sorted (map (λ e, Ent e.1) es).

(** Either an entry has the key, or there is a gap for it. *)
Inductive located (key : K) (es : list (K * V)) : Prop :=
  | found l k v r : es = l ++ (k, v) :: r → comparator k key = 0 →
      Forall (lt_key key) l → Forall (gt_key key) r → located key es
  | missing l r : es = l ++ r → Forall (lt_key key) l → Forall (gt_key key) r → located key es.

Lemma locate key es : sorted_entries es → located key es.
Proof.
  induction es as [|[k v] es IH]; intros Hs.
  { by apply (missing _ _ [] []). }
  unfold sorted_entries in Hs. simpl in Hs.
  apply StronglySorted_cons in Hs as [Hk Hs]. specialize (IH Hs).
  rewrite Forall_map in Hk. simpl in Hk.
  destruct (decide (key_lt k key)) as [Hlt|Hge].
  - destruct IH as [l k' v' r -> Hc Hl Hr|l r -> Hl Hr].
    + by apply (found _ _ ((k, v) :: l) k' v' r); [| |constructor|].
    + by apply (missing _ _ ((k, v) :: l) r); [|constructor|].
  - destruct (decide (comparator k key = 0)) as [Heq|Hne].
    + apply (found _ _ [] k v es); [done|done|constructor|].
      eapply Forall_impl; [exact Hk|]. intros e He. unfold gt_key.
      apply key_eq_flip in Heq. eapply key_le_lt_trans; [|exact He]. unfold key_le. lia.
    + apply (missing _ _ [] ((k, v) :: es)); [done|constructor|].
      assert (key_lt key k) as Hgt.
      { apply key_not_le. unfold key_le, key_lt in *. lia. }
      constructor; [done|]. eapply Forall_impl; [exact Hk|]. intros e He.
      unfold gt_key. by eapply key_lt_trans.
Qed.

Lemma lookup_key_app_lt key a es : Forall (lt_key key) a → lookup_key key (a ++ es) = lookup_key key es.
Proof.
  intros Ha. unfold lookup_key. induction Ha as [|[k v] a Hk Ha IH]; [done|]. simpl.
  rewrite decide_False by (unfold is_key, lt_key, key_lt in *; simpl in *; lia).
  rewrite <-IH. by destruct (list_find _ _).
Qed.
Lemma lookup_key_gt key r : Forall (gt_key key) r → lookup_key key r = None.
Proof.
  intros Hr. unfold lookup_key. induction Hr as [|[k v] r Hk Hr IH]; [done|]. simpl.
  rewrite decide_False; [by destruct (list_find _ _)|].
  intros Hc%key_eq_flip. unfold gt_key, key_lt in Hk. simpl in *. lia.
Qed.
Lemma lookup_key_found key l k v r :
  comparator k key = 0 → Forall (lt_key key) l → lookup_key key (l ++ (k, v) :: r) = Some v.
Proof.
  intros Hc Hl. rewrite lookup_key_app_lt by done. unfold lookup_key. simpl.
  by rewrite decide_True by done.
Qed.
Lemma lookup_key_missing key l r :
  Forall (lt_key key) l → Forall (gt_key key) r → lookup_key key (l ++ r) = None.
Proof. intros. rewrite lookup_key_app_lt by done. by apply lookup_key_gt. Qed.
Lemma lookup_key_app_gt key es b : Forall (gt_key key) b → lookup_key key (es ++ b) = lookup_key key es.
Proof.
  intros Hb. unfold lookup_key. induction es as [|[k v] es IH]; simpl; [by apply lookup_key_gt|].
  destruct (decide _); [done|]. revert IH. by do 2 destruct (list_find _ _).
Qed.

Lemma lt_key_le key l : Forall (lt_key key) l → Forall (λ e : K * V, key_le e.1 key) l.
Proof. intros H. eapply Forall_impl; [exact H|]. intros e He. by apply key_lt_le. Qed.
Lemma gt_key_pos key r : Forall (gt_key key) r → Forall (λ e : K * V, comparator e.1 key > 0) r.
Proof. intros H. eapply Forall_impl; [exact H|]. intros e He%comparator_flip. lia. Qed.
#[local] Hint Resolve lt_key_le gt_key_pos : core.

(** What the page searches return in the two cases. *)
Lemma leaf_search_found mx es next p key l k v r :
  leaf_is mx es next p → es = l ++ (k, v) :: r → comparator k key = 0 →
  Forall (lt_key key) l → Forall (gt_key key) r →
  BisectRight (leaf_node p) key 0 = Ok (Z.of_nat (length l) + 1) ∧
  leaf_ContainsKey key (-1) p = Ok LIVE ∧
  leaf_ContainsKey key (Z.of_nat (length l)) p = Ok LIVE.
Proof.
  intros [Hp _] -> Hc Hl Hr.
  assert (BisectRight (leaf_node p) key 0 = Ok (Z.of_nat (length l) + 1)) as E.
  { replace (Z.of_nat (length l) + 1) with (Z.of_nat (length (l ++ [(k, v)])))
      by (rewrite length_app; simpl; lia).
    eapply BisectRight_ok; [done|by rewrite <-app_assoc|lia| |eauto].
    apply Forall_app. split; [eauto|]. repeat constructor. unfold key_le. simpl. lia. }
  pose proof (node_KeyAt _ _ _ l k v r (Z.of_nat (length l)) Hp eq_refl eq_refl) as Ek.
  split; [done|]. unfold leaf_ContainsKey. rewrite E. split.
  - rewrite bool_decide_true by done. cbn [mbind result_bind].
    rewrite bool_decide_true by lia. rewrite Z.add_simpl_r, Ek. cbn [mbind result_bind].
    by rewrite bool_decide_true.
  - rewrite bool_decide_false by lia. cbn [mbind result_bind].
    rewrite bool_decide_true by lia. rewrite Ek. cbn [mbind result_bind].
    by rewrite bool_decide_true.
Qed.

Lemma leaf_search_missing mx es next p key l r :
  leaf_is mx es next p → es = l ++ r → Forall (lt_key key) l → Forall (gt_key key) r →
  BisectRight (leaf_node p) key 0 = Ok (Z.of_nat (length l)) ∧
  leaf_ContainsKey key (-1) p = Ok ABSENT ∧
  leaf_ContainsKey key (Z.of_nat (length l) - 1) p = Ok ABSENT ∧
  (l = [] ∨ ∃ k, KeyAt (leaf_node p) (Z.of_nat (length l) - 1) = Ok k ∧ comparator k key ≠ 0).
Proof.
  intros [Hp _] -> Hl Hr.
  assert (BisectRight (leaf_node p) key 0 = Ok (Z.of_nat (length l))) as E.
  { eapply BisectRight_ok; [done|done|lia| |eauto]. simpl. rewrite drop_0. eauto. }
  assert (leaf_ContainsKey key (-1) p = leaf_ContainsKey key (Z.of_nat (length l) - 1) p) as Eq.
  { unfold leaf_ContainsKey. rewrite E. rewrite (bool_decide_true (-1 = -1)) by done.
    cbn [mbind result_bind].
    destruct (bool_decide_reflect (Z.of_nat (length l) - 1 = -1)); done. }
  rewrite Eq. split; [done|].
  destruct l as [|[k v] l _] using rev_ind.
  { simpl. split_and!; [| |by left]; unfold leaf_ContainsKey; rewrite E; done. }
  rewrite length_app in *. simpl in *.
  assert (KeyAt (leaf_node p) (Z.of_nat (length l + 1) - 1) = Ok k) as Ek.
  { eapply (node_KeyAt _ _ _ l k v r); [done|by rewrite <-app_assoc|lia]. }
  apply Forall_app in Hl as [_ Hk]. inversion_clear Hk as [|?? Hk' _].
  unfold lt_key, key_lt in Hk'. simpl in Hk'.
  assert (leaf_ContainsKey key (Z.of_nat (length l + 1) - 1) p = Ok ABSENT) as EA.
  { unfold leaf_ContainsKey. rewrite bool_decide_false by lia. cbn [mbind result_bind].
    rewrite bool_decide_true by lia. rewrite Ek. cbn [mbind result_bind].
    rewrite bool_decide_false by lia. done. }
  split_and!; [done..|]. right. exists k. split; [done|lia].
Qed.

(** ** The index and its contents *)

(** The tree of an index ([None] when the header has no root): pages, sizes, order, leaf chain. *)
Record index_at st (o : option Tree) : Prop := mkIndexAt {
  ia_store : store_ok st;
  ia_header : st_pages st !! header_page_id_ T =
    Some (HeaderPage (match o with Some t => tpid t | None => INVALID_PAGE_ID end));
  ia_tree : ∀ t, o = Some t → ∃ d,
    rep T d (st_pages st) t ∧ bal T 1 2 d t ∧ sorted (trace t) ∧
    NoDup (foot t) ∧ (header_page_id_ T ∉ foot t) ∧ chain (links t) INVALID_PAGE_ID
}.
Definition contents (o : option Tree) : list (K * V) :=
  match o with Some t => flat t | None => [] end.
Definition index_foot (o : option Tree) : list Z :=
  header_page_id_ T :: match o with Some t => foot t | None => [] end.

(** Sizes for which the tree is balanced: [GetMinSize] leaves a page at least one entry, and an
    internal page at least two children. *)
Record good_sizes : Prop := mkGoodSizes {
  gs_leaf : 2 ≤ leaf_max_size_ T;
  gs_internal : 4 ≤ internal_max_size_ T;
  gs_leaf_slots : leaf_max_size_ T ≤ Z.of_nat (leaf_slot_cnt T);
  gs_internal_slots : internal_max_size_ T ≤ Z.of_nat (internal_slot_cnt T)
}.

Lemma min_leaf_pos : good_sizes → 1 ≤ min_leaf T ∧ 2 * min_leaf T ≤ leaf_max_size_ T < 2 * min_leaf T + 2.
Proof.
  intros [? _ _ _]. unfold min_leaf. pose proof (Z.quot_rem' (leaf_max_size_ T) 2).
  pose proof (Z.rem_bound_pos (leaf_max_size_ T) 2). lia.
Qed.
Lemma min_internal_pos :
  good_sizes → 2 ≤ min_internal T ∧ 2 * min_internal T ≤ internal_max_size_ T < 2 * min_internal T + 2.
Proof.
  intros [_ ? _ _]. unfold min_internal. pose proof (Z.quot_rem' (internal_max_size_ T) 2).
  pose proof (Z.rem_bound_pos (internal_max_size_ T) 2). lia.
Qed.

(** A tree is no deeper than it has pages, so [with_fuel] is enough. *)
Lemma foot_depth d t lo li : bal T lo li d t → 1 ≤ li → 1 ≤ min_internal T → (d < length (foot t))%nat.
Proof.
  revert t lo li. induction d as [|d IH]; intros [pid nx es|pid kids] lo li Hb Hli Hmi; try done.
  - simpl. lia.
  - pose proof (bal_kids_nonempty _ _ _ _ _ Hb Hli). destruct kids as [|[k c] kids]; [congruence|].
    destruct Hb as [_ Hb]. inversion_clear Hb as [|?? Hc _].
    specialize (IH c _ _ Hc Hmi Hmi). cbn [foot map concat]. simpl. rewrite length_app. lia.
Qed.
Lemma foot_size d t (m : gmap Z (IndexPage K V)) :
  rep T d m t → NoDup (foot t) → (length (foot t) ≤ size m)%nat.
Proof.
  intros Hr Hnd. rewrite <-(size_list_to_set (C:=gset Z) (foot t)) by done. rewrite <-size_dom.
  apply subseteq_size. intros q Hq%elem_of_list_to_set. apply elem_of_dom. by eapply rep_dom.
Qed.
Lemma enough_fuel d t lo li st :
  rep T d (st_pages st) t → bal T lo li d t → 1 ≤ li → 1 ≤ min_internal T → NoDup (foot t) →
  (d < S (size (st_pages st)))%nat.
Proof.
  intros Hr Hb Hli Hmi Hnd. pose proof (foot_depth _ _ _ _ Hb Hli Hmi).
  pose proof (foot_size _ _ _ Hr Hnd). lia.
Qed.

Lemma index_root_valid st t d : store_ok st → rep T d (st_pages st) t → tpid t ≠ INVALID_PAGE_ID.
Proof.
  intros (_ & _ & Hd & _) Hr E. destruct (rep_dom T d _ t (tpid t) Hr (tpid_foot t)) as [p Hp].
  apply Hd in Hp. rewrite E in Hp. unfold INVALID_PAGE_ID in Hp. lia.
Qed.

Lemma before_lt la key (fa : list (K * V)) :
  before la key → (∀ e, e ∈ fa → Ent e.1 ∈ la) → Forall (lt_key key) fa.
Proof. intros Hb Hin. apply Forall_forall. intros e He. by eapply Forall_forall in Hb; [|by apply Hin]. Qed.
Lemma after_gt ra key (fb : list (K * V)) :
  after key ra → (∀ e, e ∈ fb → Ent e.1 ∈ ra) → Forall (gt_key key) fb.
Proof. intros Hb Hin. apply Forall_forall. intros e He. by eapply Forall_forall in Hb; [|by apply Hin]. Qed.

Lemma GetValue_ok st o key :
  good_sizes → index_at st o → GetValue T key st = (Ok (lookup_key key (contents o)), st).
Proof.
  intros Hgs [Hst Hh Ht]. unfold GetValue. run (load_header_ok _ _ _ Hh).
  destruct o as [t|]; [|by rewrite bool_decide_true].
  destruct (Ht t eq_refl) as (d & Hr & Hb & Hs & Hnd & Hhd & Hch).
  rewrite bool_decide_false by (by eapply index_root_valid).
  destruct (min_internal_pos Hgs) as [? _].
  destruct (find_leaf_ok d (S (size (st_pages st))) key t 1 2 st) as
    (pid & nx & es & p & la & ra & L1 & L2 & Ef & Hp & Hl & Et & Hla & Hra & El & Hfa & Hfb);
    [done|done|lia|lia|done|apply (enough_fuel d t 1 2); (done || lia)|].
  run (with_fuel_ok (λ f, find_leaf f key (tpid t)) _ _ Ef). simpl contents. rewrite leaves_flat, El, map_app, concat_app. simpl.
  rewrite lookup_key_app_lt by (by eapply before_lt).
  rewrite lookup_key_app_gt by (by eapply after_gt).
  rewrite Et in Hs. destruct (locate key es (sorted_mid _ _ _ Hs)) as [l k v r -> Hc Hlt Hgt|l r -> Hlt Hgt].
  - destruct (leaf_search_found _ _ _ _ _ _ _ _ _ Hl eq_refl Hc Hlt Hgt) as (E & _ & _).
    run E. rewrite Z.add_simpl_r, bool_decide_false by lia.
    destruct Hl as [Hl _].
    run (node_KeyAt _ _ _ l k v r (Z.of_nat (length l)) Hl eq_refl eq_refl).
    rewrite bool_decide_false by naive_solver.
    run (node_ValueAt _ _ _ l k v r (Z.of_nat (length l)) Hl eq_refl eq_refl).
    by rewrite lookup_key_found.
  - destruct (leaf_search_missing _ _ _ _ _ _ _ Hl eq_refl Hlt Hgt) as (E & _ & _ & Hend).
    run E. rewrite lookup_key_missing by done. destruct Hend as [->|(k & Ek & Hne)].
    { by rewrite bool_decide_true. }
    destruct (bool_decide_reflect (Z.of_nat (length l) - 1 < 0)); [done|].
    run Ek. by rewrite bool_decide_true.
Qed.
End search.
