(* ===== verification/BTreeInsert.v ===== *)
(** * Insertion into a B+ tree

    [RecursiveInsert_ok]: on a well-formed subtree the recursion refuses a duplicate, or places the
    entry, or splits and hands the caller a separator and a new page; the write set it leaves is the
    one the caller's assertions expect.  [grew] is what the three share about order, leaf chain,
    footprint and the pages outside the subtree. *)

From stdpp Require Import sorting.
From S2P Require Import Prelude TablePage TableHeap BTreePage BPlusTree BTreeInvariant.

(** ** Inserting into a page and into a page that was just split *)

Section pages.
Context {K V : Type} `{!KeyComparator K, !KeyOrder K}.
Implicit Types (p : BPlusTreePage K V) (l r es : list (K * V)).

(** The body of both [Insert(comparator, key, value)]. *)
Definition node_SortedInsert (full : string) (off : Z) (key : K) (v : V) p : result (BPlusTreePage K V) :=
  idx ← BisectRight p key off; node_Insert full idx key v p.

Lemma node_SortedInsert_ok full off mx l r p key v :
  node_is mx (l ++ r) p → 0 ≤ off ≤ Z.of_nat (length l) →
  Forall (λ e, key_lt e.1 key) (drop (Z.to_nat off) l) → Forall (λ e, key_lt key e.1) r →
  Z.of_nat (length (l ++ r)) < mx →
  ∃ p', node_SortedInsert full off key v p = Ok p' ∧ node_is mx (l ++ (key, v) :: r) p'.
Proof.
  intros Hp Hoff Hl Hr Hlt. unfold node_SortedInsert.
  erewrite (BisectRight_ok mx (l ++ r) p key l r off); [|done|done|done| |].
  - cbn [mbind result_bind].
    by apply (node_Insert_ok full mx (l ++ r) p l r).
  - eapply Forall_impl; [exact Hl|]. intros e He. by apply key_lt_le.
  - eapply Forall_impl; [exact Hr|]. intros e He%comparator_flip. lia.
Qed.

Lemma split_insert_ok full off mx l r m p1 p2 key v :
  node_is mx (take m (l ++ r)) p1 → node_is mx (drop m (l ++ r)) p2 →
  Z.of_nat (length (l ++ r)) = mx → (1 ≤ m < length (l ++ r))%nat →
  0 ≤ off ≤ 1 → off ≤ Z.of_nat (length l) →
  Forall (λ e, key_lt e.1 key) (drop (Z.to_nat off) l) → Forall (λ e, key_lt key e.1) r →
  ∃ p1' p2' A k0 w B,
    InsertAfterSplit (λ p, KeyAt p 0) (node_SortedInsert full off) p1 p2 key v = Ok (p1', p2') ∧
    node_is mx A p1' ∧ node_is mx ((k0, w) :: B) p2' ∧ A ++ (k0, w) :: B = l ++ (key, v) :: r ∧
    (m ≤ length A)%nat ∧ (length (l ++ r) - m ≤ S (length B))%nat.
Proof.
  intros H1 H2 Hfull Hm Hoff Hl0 Hl Hr. rewrite length_app in *.
  unfold InsertAfterSplit. destruct (decide (m < length l)%nat) as [Hin|Hout].
  - (* the middle key is below [key]: the right page takes the entry *)
    assert (drop m (l ++ r) = drop m l ++ r) as Ed by (rewrite drop_app_le by lia; done).
    assert (take m (l ++ r) = take m l) as Et by (rewrite take_app_le by lia; done).
    rewrite Ed in H2. rewrite Et in H1.
    destruct (drop m l) as [|[k0 w] l2] eqn:El.
    { apply (f_equal length) in El. rewrite length_drop in El. simpl in El. lia. }
    assert (Forall (λ e, key_lt e.1 key) (drop m l)) as Hml.
    { replace m with (Z.to_nat off + (m - Z.to_nat off))%nat by lia.
      rewrite <-drop_drop. by apply Forall_drop. }
    rewrite El in Hml. inversion_clear Hml as [|?? Hk0 Hl2].
    rewrite (node_KeyAt _ _ _ [] k0 w (l2 ++ r) 0 H2) by done. cbn [mbind result_bind].
    rewrite bool_decide_true by exact Hk0.
    destruct (node_SortedInsert_ok full off mx ((k0, w) :: l2) r p2 key v) as (p2' & -> & H2');
      [done|simpl; lia|by apply Forall_drop; constructor|done| |].
    { apply (f_equal length) in El. rewrite length_drop in El. rewrite length_app. simpl in *. lia. }
    cbn [mbind result_bind]. exists p1, p2', (take m l), k0, w, (l2 ++ (key, v) :: r).
    apply (f_equal length) in El as Hlen. rewrite length_drop in Hlen. simpl in Hlen.
    split_and!; [done|done|done| |rewrite length_take; lia|rewrite length_app; simpl; lia].
    rewrite <-(take_drop m l) at 2. rewrite El, <-app_assoc. done.
  - (* it is above: the left page takes the entry *)
    assert (drop m (l ++ r) = drop (m - length l) r) as Ed by (rewrite drop_app_ge by lia; done).
    assert (take m (l ++ r) = l ++ take (m - length l) r) as Et by (rewrite take_app_ge by lia; done).
    rewrite Ed in H2. rewrite Et in H1.
    destruct (drop (m - length l) r) as [|[k0 w] r2] eqn:Er.
    { apply (f_equal length) in Er. rewrite length_drop in Er. simpl in Er. lia. }
    assert (Forall (λ e, key_lt key e.1) (drop (m - length l) r)) as Hk by (by apply Forall_drop).
    rewrite Er in Hk. inversion_clear Hk as [|?? Hk0 _]. simpl in Hk0.
    rewrite (node_KeyAt _ _ _ [] k0 w r2 0 H2) by done. cbn [mbind result_bind].
    rewrite bool_decide_false by (apply comparator_flip in Hk0; lia).
    destruct (node_SortedInsert_ok full off mx l (take (m - length l) r) p1 key v) as (p1' & -> & H1');
      [done|lia|done|by apply Forall_take|rewrite length_app, length_take; lia|].
    cbn [mbind result_bind].
    apply (f_equal length) in Er as Hlen. rewrite length_drop in Hlen. simpl in Hlen.
    exists p1', p2, (l ++ (key, v) :: take (m - length l) r), k0, w, r2.
    split_and!; [done|done|done| |rewrite length_app; simpl; rewrite length_take; lia|lia].
    rewrite <-app_assoc. simpl. by rewrite <-Er, take_drop.
Qed.

Lemma leaf_InsertAfterSplit (p1 p2 : BPlusTreeLeafPage K V) key v n1 n2 :
  InsertAfterSplit (λ p, KeyAt p 0) (node_SortedInsert "leaf is full" 0) (leaf_node p1) (leaf_node p2) key v
    = Ok (n1, n2) →
  InsertAfterSplit (λ q, KeyAt (leaf_node q) 0) leaf_Insert p1 p2 key v
    = Ok (with_node n1 p1, with_node n2 p2).
Proof.
  unfold InsertAfterSplit, leaf_Insert, leaf_InsertAt, node_SortedInsert.
  destruct p1 as [q1 nx1], p2 as [q2 nx2]; simpl.
  destruct (KeyAt q2 0) as [k|]; [|done]. cbn [mbind result_bind].
  destruct (bool_decide _).
  - destruct (BisectRight q2 key 0); [|done]. cbn [mbind result_bind].
    destruct (node_Insert _ _ _ _ q2); [|done]. cbn [mbind result_bind]. by intros [= <- <-].
  - destruct (BisectRight q1 key 0); [|done]. cbn [mbind result_bind].
    destruct (node_Insert _ _ _ _ q1); [|done]. cbn [mbind result_bind]. by intros [= <- <-].
Qed.
End pages.

(** ** What an insertion keeps *)

Section grew.
Context {K V : Type} `{!KeyComparator K, !KeyOrder K, !Inhabited K, !Inhabited V} (T : BPlusTree).
#[local] Abbreviation Tree := (tree K V).
#[local] Abbreviation IdxStore := (Store (IndexPage K V)).
#[local] Abbreviation sorted := (StronglySorted (item_lt (K:=K))).
Implicit Types (t c : Tree) (kids : list (K * Tree)) (st : IdxStore).

(** [t] in [st] became trees with walk [tr], entries [fl], pages [ft] and leaves [lk] in [st'];
    [l], [r] and [e] are the walk around [t] and the leaf after it. *)
Record grew (key : K) (value : V) (l r : list (item K)) (e : Z) t st st'
    (tr : list (item K)) (fl : list (K * V)) (ft : list Z) (lk : list (Z * Z)) : Prop := mkGrew {
  g_store : store_ok st';
  g_nodup : NoDup ft;
  g_foot : ∀ q, q ∈ ft → q ∈ foot t ∨ st_pages st !! q = None;
  g_keep : ∀ q, q ∈ foot t → q ∈ ft;
  g_live : ∀ q, q ∈ ft → is_Some (st_pages st' !! q);
  g_frame : ∀ q p, q ∉ foot t → st_pages st !! q = Some p → st_pages st' !! q = Some p;
  g_sorted : sorted (l ++ tr ++ r);
  g_flat : ∃ a b, flat t = a ++ b ∧ fl = a ++ (key, value) :: b;
  g_chain : chain lk e;
  g_first : ∀ e', first_leaf lk e' = first_leaf (links t) e'
}.

Lemma grew_perm key value l r e t st st' tr fl ft ft' lk :
  grew key value l r e t st st' tr fl ft lk → ft ≡ₚ ft' → grew key value l r e t st st' tr fl ft' lk.
Proof.
  intros [] Hp. split; try done.
  - by rewrite <-Hp.
  - intros q. rewrite <-Hp. auto.
  - intros q. rewrite <-Hp. auto.
  - intros q. rewrite <-Hp. auto.
Qed.

(** Overwriting one of the pages of the tree. *)
Lemma grew_set key value l r e t st st' tr fl ft lk q p :
  grew key value l r e t st st' tr fl ft lk → q ∈ foot t →
  grew key value l r e t st (set_page q p st') tr fl ft lk.
Proof.
  intros [] Hq. split; try done.
  - destruct (g_live0 q) as [p0 Hp0]; [auto|]. by eapply set_page_owned.
  - intros q' Hq'. simpl. apply lookup_insert_is_Some'. auto.
  - intros q' p' Hq' Hp'. simpl. rewrite lookup_insert_ne by set_solver. auto.
Qed.

(** Adding a page from the allocator. *)
Lemma grew_new key value l r e t st st' tr fl ft lk id st1 p :
  grew key value l r e t st st' tr fl ft lk → NewPage st' = (id, st1) →
  grew key value l r e t st (set_page id p st1) tr fl (id :: ft) lk.
Proof.
  intros [] Hnew. destruct (NewPage_ok _ _ _ g_store0 Hnew) as (Ep & Hid & Hr & Hf & Hok).
  assert (id ∉ ft) as Hnin by (intros [? ?]%g_live0; congruence).
  split; try done.
  - by apply set_page_ok.
  - by constructor.
  - intros q [->|Hq]%elem_of_cons; [|auto]. right.
    destruct (st_pages st !! id) as [p0|] eqn:Hp0; [|done].
    apply (g_frame0 id) in Hp0; [congruence|auto].
  - intros q Hq. right. auto.
  - intros q Hq. simpl. rewrite Ep. apply lookup_insert_is_Some'.
    apply elem_of_cons in Hq as [->|Hq]; auto.
  - intros q p' Hq Hp'. simpl. rewrite Ep.
    apply g_frame0 in Hp' as Hp''; [|done]. rewrite lookup_insert_ne by congruence. done.
Qed.

(** From a child to its node. *)
Lemma grew_lift key value l r e pid kl k c kr d st st' tr fl ft lk :
  NoDup (foot (TNode pid (kl ++ (k, c) :: kr))) →
  rep T (S d) (st_pages st) (TNode pid (kl ++ (k, c) :: kr)) →
  chain (links (TNode pid (kl ++ (k, c) :: kr))) e →
  grew key value (l ++ pre kl k) (ktrace kr ++ r) (first_leaf (klinks kr) e) c st st' tr fl ft lk →
  grew key value l r e (TNode pid (kl ++ (k, c) :: kr)) st st'
    (pre kl k ++ tr ++ ktrace kr) (kflat kl ++ fl ++ kflat kr)
    (pid :: kfoot kl ++ ft ++ kfoot kr) (klinks kl ++ lk ++ klinks kr).
Proof.
  intros Hnd Hrep Hch [].
  assert (∀ q, q ∈ foot (TNode pid (kl ++ (k, c) :: kr)) → is_Some (st_pages st !! q)) as Hdom
    by (intros q Hq; by eapply rep_dom).
  rewrite foot_node in Hnd, Hdom. rewrite links_node in Hch.
  apply NoDup_cons in Hnd as [Hpid Hnd]. apply NoDup_app in Hnd as (Hnl & Hdl & Hnd).
  apply NoDup_app in Hnd as (Hnc & Hdc & Hnr).
  setoid_rewrite elem_of_cons in Hdom. repeat setoid_rewrite elem_of_app in Hdom.
  rewrite !elem_of_app in Hpid. setoid_rewrite elem_of_app in Hdl.
  assert (∀ q, q ∈ ft → (q ∉ kfoot kl) ∧ (q ∉ kfoot kr) ∧ q ≠ pid) as Hsep.
  { intros q Hq. destruct (g_foot0 q Hq) as [Hc|Hnone].
    - split_and!; [intros Hx; apply (Hdl q Hx); auto|by apply Hdc|intros ->; auto].
    - split_and!; intros Hx; destruct (Hdom q) as [? ?]; auto; congruence. }
  split; rewrite ?foot_node, ?links_node, ?flat_node; try done.
  - apply NoDup_cons. rewrite !elem_of_app. split.
    { intros [?|[Hin|?]]; [by auto| |by auto]. by apply Hsep in Hin as (_ & _ & ?). }
    apply NoDup_app. split_and!; [done| |].
    { intros q Hq Hin. apply elem_of_app in Hin as [Hin|Hin]; [|by apply (Hdl q Hq); auto].
      by apply Hsep in Hin as [? _]. }
    apply NoDup_app. split_and!; [done| |done]. intros q Hq. by apply Hsep in Hq as (_ & ? & _).
  - intros q. rewrite !elem_of_cons, !elem_of_app. naive_solver.
  - intros q. rewrite !elem_of_cons, !elem_of_app. naive_solver.
  - intros q Hq. destruct (decide (q ∈ ft)) as [|Hout]; [by auto|].
    rewrite !elem_of_cons, !elem_of_app in Hq.
    destruct (Hdom q) as [p Hp]; [naive_solver|]. exists p. apply g_frame0; [|done]. intros Hc. auto.
  - intros q p Hq. apply g_frame0. intros Hc. apply Hq. rewrite !elem_of_cons, !elem_of_app. auto.
  - rewrite <-!app_assoc in g_sorted0. by rewrite <-!app_assoc.
  - destruct g_flat0 as (a & b & -> & ->). exists (kflat kl ++ a), (b ++ kflat kr).
    by rewrite <-!app_assoc.
  - apply chain_app in Hch as [Hch1 Hch2]. apply chain_app in Hch2 as [Hch2 Hch3].
    apply chain_app. split; [|by apply chain_app].
    rewrite first_leaf_app in *. by rewrite g_first0.
  - intros e'. by rewrite ?links_node, !first_leaf_app, g_first0.
Qed.

(** The siblings are still where they were. *)
Lemma grew_siblings key value l r e pid kl k c kr d st st' tr fl ft lk :
  NoDup (foot (TNode pid (kl ++ (k, c) :: kr))) →
  Forall (λ kc, rep T d (st_pages st) kc.2) (kl ++ (k, c) :: kr) →
  grew key value l r e c st st' tr fl ft lk →
  Forall (λ kc, rep T d (st_pages st') kc.2) kl ∧ Forall (λ kc, rep T d (st_pages st') kc.2) kr.
Proof.
  intros Hnd Hrep [].
  rewrite foot_node in Hnd.
  apply NoDup_cons in Hnd as [Hpid Hnd]. apply NoDup_app in Hnd as (Hnl & Hdl & Hnd).
  apply NoDup_app in Hnd as (Hnc & Hdc & Hnr).
  assert (∀ kids kc, kc ∈ kids → (∀ q, q ∈ kfoot kids → q ∉ foot c) → rep T d (st_pages st) kc.2 →
    rep T d (st_pages st') kc.2) as Hone.
  { intros kids [k1 c1] Hin Hdis Hr. eapply rep_frame; [done|]. intros q Hq. simpl in Hq.
    destruct (rep_dom _ _ _ _ _ Hr Hq) as [p Hp]. rewrite Hp. apply g_frame0; [|done].
    apply Hdis. apply elem_of_kfoot. eauto. }
  apply Forall_kid in Hrep as (Hl & _ & Hr).
  rewrite !Forall_forall in *. split; intros kc Hkc; eapply Hone; eauto.
  - intros q Hq Hc. apply (Hdl q Hq). apply elem_of_app. by left.
  - intros q Hq Hc. by apply (Hdc q Hc).
Qed.
End grew.

(** ** The recursion *)

Section insert.
Context {K V : Type} `{!KeyComparator K, !KeyOrder K, !Inhabited K, !Inhabited V} (T : BPlusTree).
#[local] Abbreviation Tree := (tree K V).
#[local] Abbreviation IdxStore := (Store (IndexPage K V)).
#[local] Abbreviation sorted := (StronglySorted (item_lt (K:=K))).
Implicit Types (t c : Tree) (kids : list (K * Tree)) (st : IdxStore).
Context (Hgs : good_sizes T).

Lemma new_leaf_is : leaf_is (leaf_max_size_ T) [] INVALID_PAGE_ID
  (leaf_Init (leaf_max_size_ T) (zero_leaf (K:=K) (V:=V) T)).
Proof.
  destruct Hgs. split; [|done]. split_and!; simpl; [done|done|lia|].
  eexists. split; [done|]. rewrite length_replicate. lia.
Qed.
Lemma new_internal_is : node_is (internal_max_size_ T) []
  (internal_Init (internal_max_size_ T) (zero_internal (K:=K) T)).
Proof.
  destruct Hgs. split_and!; simpl; [done|done|lia|].
  eexists. split; [done|]. rewrite length_replicate. lia.
Qed.

(** The three outcomes of [RecursiveInsert] on the subtree [t] whose page is at the back of the
    write set, [W] being the guards before it. *)
Inductive ins_outcome (d : nat) (lo li : Z) (key : K) (value : V) (l r : list (item K)) (e : Z)
    t (W : list Z) st : InsertInternalResult K → list Z → IdxStore → Prop :=
  | ins_duplicate v W' :
      lookup_key key (flat t) = Some v →
      ins_outcome d lo li key value l r e t W st (mkInsertResult None None false) W' st
  | ins_fits t' W' st' :
      lookup_key key (flat t) = None →
      tpid t' = tpid t → rep T d (st_pages st') t' → bal T lo li d t' →
      grew key value l r e t st st' (trace t') (flat t') (foot t') (links t') →
      ins_outcome d lo li key value l r e t W st (mkInsertResult None None true) W' st'
  | ins_splits t1 k t2 st' :
      lookup_key key (flat t) = None →
      tpid t1 = tpid t → rep T d (st_pages st') t1 → rep T d (st_pages st') t2 →
      bal T (min_leaf T) (min_internal T) d t1 → bal T (min_leaf T) (min_internal T) d t2 →
      grew key value l r e t st st' (trace t1 ++ Sep k :: trace t2) (flat t1 ++ flat t2)
        (foot t1 ++ foot t2) (links t1 ++ links t2) →
      ins_outcome d lo li key value l r e t W st
        (mkInsertResult (Some k) (Some (tpid t2)) true) W st'.

(** A gap in a leaf is a gap in the walk. *)
Lemma sorted_leaf_put (l r : list (item K)) (a b : list (K * V)) key value :
  sorted (l ++ map (λ e, Ent e.1) (a ++ b) ++ r) → before l key → after key r →
  Forall (lt_key key) a → Forall (gt_key key) b →
  sorted (l ++ map (λ e, Ent e.1) (a ++ (key, value) :: b) ++ r).
Proof.
  intros Hs Hl Hr Ha Hb. rewrite map_app in *. simpl.
  rewrite <-(app_assoc (map _ a)), (app_assoc l) in *. apply sorted_put; [done| |].
  - apply Forall_app. split; [done|]. by apply Forall_map.
  - apply Forall_app. split; [|done]. by apply Forall_map.
Qed.

(** The separator of a split leaf is the first key of its right half. *)
Lemma sorted_leaf_sep (l r : list (item K)) (a : K * V) (A : list (K * V)) k w B :
  sorted (l ++ map (λ e, Ent e.1) ((a :: A) ++ (k, w) :: B) ++ r) →
  sorted (l ++ (map (λ e, Ent e.1) (a :: A) ++ Sep k :: map (λ e, Ent e.1) ((k, w) :: B)) ++ r).
Proof.
  intros Hs. rewrite map_app, <-app_assoc, (app_assoc l) in Hs. simpl in Hs.
  rewrite <-app_assoc, app_assoc. apply sorted_put.
  - done.
  - apply sorted_cut in Hs as Hc. destruct Hc as [Hc _].
    apply Forall_app in Hc as [Hcl Hca]. apply Forall_app. split.
    + inversion_clear Hca as [|?? Hak _].
      apply StronglySorted_app_1_l, sorted_cut in Hs as [Hla _].
      eapply Forall_impl; [exact Hla|]. intros x Hx. by transitivity (Ent a.1).
    + apply Forall_forall. intros x Hx. pose proof Hx as Hx'.
      eapply Forall_forall in Hx; [|exact Hca].
      apply list_elem_of_fmap in Hx' as (e & -> & _). exact Hx.
  - apply sorted_cut in Hs as [_ Hc]. simpl. constructor; [simpl; reflexivity|].
    eapply Forall_impl; [exact Hc|]. intros x Hx. destruct x; simpl in *; [by apply key_lt_le|done].
Qed.

Lemma RecursiveInsertLeaf_ok lo li key value l r e t W ctx st :
  store_ok st → rep T 0 (st_pages st) t → bal T lo li 0 t →
  sorted (l ++ trace t ++ r) → before l key → after key r → chain (links t) e →
  write_set_ ctx = W ++ [tpid t] →
  ∃ res ctx' st', RecursiveInsertLeaf T ctx key value st = (Ok (res, ctx'), st') ∧
    ins_outcome 0 lo li key value l r e t W st res (write_set_ ctx') st'.
Proof.
  intros Hst Hrep Hbal Hs Hl Hr Hch Hw. destruct t as [pid next es|]; [|done].
  destruct Hrep as (p & Hp & Hleaf). simpl in Hs, Hw, Hbal.
  unfold RecursiveInsertLeaf. rewrite Hw, last_snoc. run (load_leaf_ok _ _ _ Hp).
  pose proof Hleaf as [(Hsz & Hmx & _) _]. rewrite Hsz, Hmx.
  destruct (locate key es (sorted_mid _ _ _ Hs)) as [a k v b -> Hc Ha Hb|a b -> Ha Hb].
  { destruct (leaf_search_found _ _ _ _ _ _ _ _ _ Hleaf eq_refl Hc Ha Hb) as (_ & E & _).
    run E. rewrite bool_decide_true by done. do 3 eexists. split; [done|].
    eapply ins_duplicate. by apply lookup_key_found. }
  destruct (leaf_search_missing _ _ _ _ _ _ _ Hleaf eq_refl Ha Hb) as (E & E' & _).
  run E'. rewrite (bool_decide_false (ABSENT = LIVE)) by done. run E.
  pose proof (sorted_leaf_put l r a b key value Hs Hl Hr Ha Hb) as Hs'.
  assert (lookup_key key (flat (TLeaf pid next (a ++ b))) = None) as Hnone
    by (by apply lookup_key_missing).
  destruct (bool_decide_reflect (Z.of_nat (length (a ++ b)) < leaf_max_size_ T)) as [Hroom|Hfull].
  - destruct (leaf_InsertAt_ok _ a b next p (Z.of_nat (length a)) key value Hleaf) as (p' & Ep & Hp');
      [done|done|]. run Ep. do 3 eexists. split; [done|].
    eapply (ins_fits _ _ _ _ _ _ _ _ _ _ _ (TLeaf pid next (a ++ (key, value) :: b))); simpl; try done.
    + exists p'. by rewrite lookup_insert_eq.
    + rewrite length_app in *. simpl. lia.
    + split; simpl; try done.
      * by eapply set_page_owned.
      * apply NoDup_singleton.
      * auto.
      * intros q ->%list_elem_of_singleton. rewrite lookup_insert_eq. eauto.
      * intros q p0 Hq Hp0. rewrite lookup_insert_ne by set_solver. done.
      * eauto.
  - assert (Z.of_nat (length (a ++ b)) = leaf_max_size_ T) as Hfl by lia.
    destruct (NewPage st) as [id st1] eqn:Hnew.
    destruct (NewPage_ok _ _ _ Hst Hnew) as (Epg & Hid & Hidr & Hidf & Hst1).
    assert (new_page st = (Ok id, st1)) as En by (unfold new_page; by rewrite Hnew). run En.
    destruct (leaf_Split_ok _ _ _ _ _ _ id _ Hleaf Hfl new_leaf_is eq_refl)
      as (p1 & p2 & Esp & [H1 Hn1] & [H2 Hn2]). run Esp.
    destruct (min_leaf_pos T Hgs) as [Hm1 Hm2]. unfold min_leaf in Hm1, Hm2.
    destruct (split_insert_ok "leaf is full" 0 (leaf_max_size_ T) a b
      (Z.to_nat (Z.quot (leaf_max_size_ T) 2)) (leaf_node p1) (leaf_node p2) key value)
      as (n1 & n2 & A & k0 & w & B & Eins & HA & HB & EAB & HlA & HlB);
      [done|done|done|lia|lia|lia|simpl; by rewrite drop_0|done|].
    run (leaf_InsertAfterSplit _ _ _ _ _ _ Eins).
    pose proof (node_KeyAt _ _ _ [] k0 w B 0 HB eq_refl eq_refl) as Ek.
    unfold store. cbn [mbind ST_bind]. unfold ST_bind at 1. cbv beta iota.
    unfold st_lift. simpl leaf_node. rewrite Ek. unfold mret, ST_ret.
    do 3 eexists. split; [done|].
    assert (W = write_set_ (pop_back ctx)) as ->.
    { unfold pop_back. simpl. rewrite Hw, length_app. simpl. by rewrite Nat.add_sub, take_app_length. }
    rewrite <-EAB in Hs'. destruct A as [|a0 A]; [simpl in HlA; lia|].
    assert (pid ≠ id) as Hne by congruence.
    pose proof HA as (_ & _ & HAle & _). pose proof HB as (_ & _ & HBle & _).
    eapply (ins_splits _ _ _ _ _ _ _ _ _ _ _ (TLeaf pid id (a0 :: A)) k0 (TLeaf id next ((k0, w) :: B)));
      try done.
    + simpl. exists (with_node n1 p1). rewrite lookup_insert_ne, lookup_insert_eq by done.
      split; [done|]. split; [done|]. by rewrite <-Hn1.
    + simpl. exists (with_node n2 p2). rewrite lookup_insert_eq. split; [done|]. by split.
    + unfold min_leaf. cbn [bal]. lia.
    + unfold min_leaf. cbn [bal]. rewrite length_app in *. simpl in *. lia.
    + split; simpl; try done.
      * eapply set_page_ok; [|done|done]. eapply (set_page_owned _ _ _ (LeafNode p)); [done|].
        by rewrite Epg.
      * apply NoDup_cons. split; [set_solver|apply NoDup_singleton].
      * intros q. rewrite elem_of_cons, list_elem_of_singleton. set_solver.
      * set_solver.
      * intros q Hq. rewrite !lookup_insert_is_Some', Epg. set_solver.
      * intros q p0 Hq Hp0. rewrite !lookup_insert_ne, Epg by (congruence || set_solver). done.
      * exact (sorted_leaf_sep l r a0 A k0 w B Hs').
      * exists a, b. split; [done|]. rewrite <-EAB. done.
Qed.

Lemma rep_is_leaf d t st :
  rep T d (st_pages st) t →
  IsLeafPage (tpid t) st = (Ok (match t with TLeaf _ _ _ => true | TNode _ _ => false end), st).
Proof.
  intros Hr. unfold IsLeafPage. destruct d, t; try done.
  - destruct Hr as (p & Hp & _). by run (load_ok _ _ _ Hp).
  - destruct Hr as ((p & Hp & _) & _). by run (load_ok _ _ _ Hp).
Qed.

Lemma lookup_key_node pid kl k c kr key :
  before (pre kl k) key → after key (ktrace kr) →
  lookup_key key (flat (TNode pid (kl ++ (k, c) :: kr))) = lookup_key key (flat c).
Proof.
  intros Hb Ha. rewrite flat_node.
  rewrite lookup_key_app_lt by (eapply before_lt; [exact Hb|]; intros; by apply kflat_pre).
  apply lookup_key_app_gt. eapply after_gt; [exact Ha|]. intros; by apply kflat_ktrace.
Qed.

(** Placing the page of a split child: the slots before it are below its key, those after above. *)
Lemma sep_position kl k c (kr : list (K * Tree)) l r c1 k' c2 :
  sorted (l ++ (pre kl k ++ (trace c1 ++ Sep k' :: trace c2) ++ ktrace kr) ++ r) →
  Forall (λ e, key_lt e.1 k') (drop (Z.to_nat 1) (slots_of (kl ++ [(k, c)]))) ∧
  Forall (λ e, key_lt k' e.1) (slots_of kr).
Proof.
  intros Hs. rewrite <-!app_assoc in Hs.
  replace (l ++ pre kl k ++ trace c1 ++ (Sep k' :: trace c2) ++ ktrace kr ++ r)
    with ((l ++ pre kl k ++ trace c1) ++ Sep k' :: (trace c2 ++ ktrace kr ++ r)) in Hs
    by (by rewrite <-!app_assoc).
  apply sorted_cut in Hs as [Hb Ha].
  apply Forall_app in Hb as [_ Hb]. apply Forall_app in Hb as [Hb _].
  apply Forall_app in Ha as [_ Ha]. apply Forall_app in Ha as [Ha _].
  split; [by apply (pre_slots (λ x, item_lt x (Sep k')))|by apply (ktrace_slots (item_lt (Sep k')))].
Qed.

(** *** A node whose child has split *)

Section child_split.
Context (d : nat) (lo li : Z) (key : K) (value : V) (l r : list (item K)) (e pid : Z).
Context (kl : list (K * Tree)) (k : K) (c : Tree) (kr : list (K * Tree)) (t1 : Tree) (k' : K) (t2 : Tree).
Context (st st' : IdxStore) (p : BPlusTreeInternalPage K).
#[local] Abbreviation node := (TNode pid (kl ++ (k, c) :: kr)).
Context (Hrep : rep T (S d) (st_pages st) node) (Hbal : bal T lo li (S d) node).
Context (Hnd : NoDup (foot node)) (Hch : chain (links node) e).
Context (Hnone : lookup_key key (flat node) = None).
Context (Hpid : tpid t1 = tpid c) (Hr1 : rep T d (st_pages st') t1) (Hr2 : rep T d (st_pages st') t2).
Context (Hb1 : bal T (min_leaf T) (min_internal T) d t1) (Hb2 : bal T (min_leaf T) (min_internal T) d t2).
Context (Hg : grew key value (l ++ pre kl k) (ktrace kr ++ r) (first_leaf (klinks kr) e) c st st'
  (trace t1 ++ Sep k' :: trace t2) (flat t1 ++ flat t2) (foot t1 ++ foot t2) (links t1 ++ links t2)).
Context (Hn : node_is (internal_max_size_ T) (slots_of (kl ++ (k, c) :: kr)) p).

(** The children the node should have now. *)
#[local] Abbreviation kids' := (kl ++ (k, t1) :: (k', t2) :: kr).

Lemma child_split_grew : grew key value l r e node st st'
  (pre kl k ++ (trace t1 ++ Sep k' :: trace t2) ++ ktrace kr) (kflat kids') (pid :: kfoot kids') (klinks kids').
Proof.
  pose proof (grew_lift T _ _ l r e pid kl k c kr d _ _ _ _ _ _ Hnd Hrep Hch Hg) as Hg'.
  rewrite kflat_app, !kflat_cons, klinks_app, !klinks_cons, kfoot_app, !kfoot_cons.
  by rewrite <-(app_assoc (flat t1)), <-(app_assoc (foot t1)), <-(app_assoc (links t1)) in Hg'.
Qed.

Lemma child_split_slots : slots_of (kl ++ (k, c) :: kr) = slots_of (kl ++ [(k, c)]) ++ slots_of kr ∧
  slots_of (kl ++ [(k, c)]) ++ (k', tpid t2) :: slots_of kr = slots_of kids'.
Proof.
  split; [by rewrite <-slots_of_app, <-app_assoc|].
  rewrite !slots_of_app, <-app_assoc. simpl. by rewrite Hpid.
Qed.

Lemma child_split_position :
  Forall (λ e, key_lt e.1 k') (drop (Z.to_nat 1) (slots_of (kl ++ [(k, c)]))) ∧
  Forall (λ e, key_lt k' e.1) (slots_of kr) ∧ 1 ≤ Z.of_nat (length (slots_of (kl ++ [(k, c)]))).
Proof.
  destruct (sep_position kl k c kr l r t1 k' t2 (g_sorted _ _ _ _ _ _ _ _ _ _ _ _ child_split_grew)).
  split_and!; [done|done|]. rewrite slots_of_length, length_app. simpl. lia.
Qed.

Lemma child_split_kids :
  Forall (λ kc, rep T d (st_pages st') kc.2) kids' ∧
  Forall (λ kc, bal T (min_leaf T) (min_internal T) d kc.2) kids' ∧ (pid ∉ kfoot kids').
Proof.
  destruct Hrep as [_ Hk]. destruct Hbal as [_ Hkb].
  destruct (grew_siblings T _ _ _ _ _ pid kl k c kr d _ _ _ _ _ _ Hnd Hk Hg) as [Hkl Hkr].
  apply Forall_kid in Hkb as (? & _ & ?).
  pose proof (g_nodup _ _ _ _ _ _ _ _ _ _ _ _ child_split_grew) as Hnd'.
  apply NoDup_cons in Hnd' as [Hpn _].
  split_and!; [apply Forall_kid; split_and!; by try constructor..|done].
Qed.

(** Pages the children do not use can be written. *)
Lemma kids_frame (m' : gmap Z (IndexPage K V)) (kids : list (K * Tree)) :
  Forall (λ kc, rep T d (st_pages st') kc.2) kids →
  (∀ q, q ∈ kfoot kids → m' !! q = st_pages st' !! q) → Forall (λ kc, rep T d m' kc.2) kids.
Proof.
  intros Hks Hq. rewrite Forall_forall in *. intros [k0 c0] Hin.
  eapply rep_frame; [by apply (Hks _ Hin)|]. intros q Hqf. apply Hq. apply elem_of_kfoot. eauto.
Qed.

(** There is room in the node. *)
Lemma node_absorbs W W' :
  Z.of_nat (length (kl ++ (k, c) :: kr)) < internal_max_size_ T →
  ∃ p', internal_Insert k' (tpid t2) p = Ok p' ∧
    ins_outcome (S d) lo li key value l r e node W st
      (mkInsertResult None None true) W' (set_page pid (InternalNode p') st').
Proof.
  intros Hroom. destruct child_split_position as (Hlt & Hgt & Hlen).
  destruct child_split_slots as [Es Es']. destruct child_split_kids as (Hkr & Hkb & Hpn).
  rewrite Es in Hn.
  destruct (node_SortedInsert_ok "internal page is full" 1 _ _ _ p k' (tpid t2) Hn) as (p' & Ep & Hp');
    [lia|done|done|by rewrite <-Es, slots_of_length|].
  rewrite Es' in Hp'. exists p'. split; [exact Ep|].
  apply (ins_fits _ _ _ _ _ _ _ _ _ _ _ (TNode pid kids')); [done|done| | |].
  - split; [exists p'; simpl; by rewrite lookup_insert_eq|]. apply kids_frame; [done|].
    intros q Hq. simpl. rewrite lookup_insert_ne; [done|]. by intros <-.
  - split; [|done]. destruct Hbal. rewrite length_app in *. simpl in *. lia.
  - apply grew_set; [|rewrite foot_node; left]. rewrite trace_node2. apply child_split_grew.
Qed.

(** The node is full: it splits too, and its middle separator moves up. *)
Lemma node_splits W id st1 :
  Z.of_nat (length (kl ++ (k, c) :: kr)) = internal_max_size_ T → NewPage st' = (id, st1) →
  ∃ q1 q2 p1 p2 k0,
    internal_Split (internal_Init (internal_max_size_ T) (zero_internal T)) p = Ok (q1, q2) ∧
    InsertAfterSplit (λ p, KeyAt p 0) internal_Insert q1 q2 k' (tpid t2) = Ok (p1, p2) ∧
    KeyAt p2 0 = Ok k0 ∧
    ins_outcome (S d) lo li key value l r e node W st (mkInsertResult (Some k0) (Some id) true) W
      (set_page id (InternalNode p2) (set_page pid (InternalNode p1) st1)).
Proof.
  intros Hfull Hnew. destruct child_split_position as (Hlt & Hgt & Hlen).
  destruct child_split_slots as [Es Es']. destruct child_split_kids as (Hkr & Hkb & Hpn).
  destruct (node_Split_ok _ _ _ _ _ Hn ltac:(by rewrite slots_of_length) new_internal_is eq_refl)
    as (q1 & q2 & Esp & H1 & H2).
  destruct (min_internal_pos T Hgs) as [Hm1 Hm2]. unfold min_internal in Hm1, Hm2.
  rewrite Es in H1, H2.
  destruct (split_insert_ok "internal page is full" 1 _ _ _ _ _ _ k' (tpid t2) H1 H2)
    as (p1 & p2 & A & k0 & w & B & Eins & HA & HB & EAB & HlA & HlB);
    [by rewrite <-Es, slots_of_length|rewrite <-Es, slots_of_length; lia|lia|lia|done|done|].
  rewrite <-Es, slots_of_length in HlB. rewrite Es' in EAB.
  symmetry in EAB. apply map_eq_app in EAB as (KA & KB' & EK & <- & EB).
  apply map_eq_cons in EB as ([k0' c0] & KB & -> & [= <- <-] & <-).
  rewrite length_map in HlA, HlB.
  exists q1, q2, p1, p2, k0'. split; [exact Esp|]. split; [exact Eins|].
  split; [by eapply (node_KeyAt _ _ _ [])|].
  pose proof HA as (_ & _ & HAle & _). pose proof HB as (_ & _ & HBle & _).
  rewrite length_map in HAle. simpl in HBle. rewrite length_map in HBle.
  rewrite EK in Hkr, Hkb, Hpn. pose proof child_split_grew as Hg'. rewrite EK in Hg'.
  destruct (NewPage_ok _ _ _ (g_store _ _ _ _ _ _ _ _ _ _ _ _ Hg') Hnew) as (Epg & Hid & _).
  pose proof (grew_new _ _ _ _ _ _ _ _ _ _ _ _ _ _ (InternalNode p2) Hg' Hnew) as Hg2.
  pose proof (g_nodup _ _ _ _ _ _ _ _ _ _ _ _ Hg2) as Hnd2. apply NoDup_cons in Hnd2 as [Hidn _].
  assert (id ≠ pid) as Hne by set_solver.
  assert (set_page id (InternalNode p2) (set_page pid (InternalNode p1) st1) =
    set_page pid (InternalNode p1) (set_page id (InternalNode p2) st1)) as ->.
  { unfold set_page. simpl. by rewrite insert_insert_ne. }
  assert (∀ kids, (∀ q, q ∈ kfoot kids → q ∈ kfoot (KA ++ (k0', c0) :: KB)) →
    ∀ q, q ∈ kfoot kids → st_pages (set_page pid (InternalNode p1) (set_page id (InternalNode p2) st1)) !! q
      = st_pages st' !! q) as Hfr.
  { intros kids Hin q Hq. simpl. rewrite !lookup_insert_ne, Epg; [done| |].
    - intros <-. apply Hidn. right. auto.
    - intros <-. apply Hpn. auto. }
  apply Forall_app in Hkr as [HrA HrB]. apply Forall_app in Hkb as [HbA HbB].
  apply (ins_splits _ _ _ _ _ _ _ _ _ _ _ (TNode pid KA) k0' (TNode id ((k0', c0) :: KB))); try done.
  - split; [exists p1; simpl; by rewrite lookup_insert_eq|]. apply kids_frame; [done|].
    apply Hfr. intros q. rewrite kfoot_app, elem_of_app. auto.
  - split; [exists p2; simpl; by rewrite lookup_insert_ne, lookup_insert_eq|].
    apply kids_frame; [done|]. apply Hfr. intros q. rewrite kfoot_app, elem_of_app. auto.
  - split; [|done]. unfold min_internal. lia.
  - split; [|done]. unfold min_internal. simpl. lia.
  - apply grew_set; [|rewrite foot_node; left].
    rewrite <-(trace_split pid pid id) by (intros ->; simpl in HlA; lia).
    rewrite <-EK, trace_node2.
    eapply grew_perm; [|apply (Permutation_middle (pid :: kfoot KA) (kfoot ((k0', c0) :: KB)) id)].
    change ((pid :: kfoot KA) ++ kfoot ((k0', c0) :: KB)) with (pid :: (kfoot KA ++ kfoot ((k0', c0) :: KB))).
    rewrite <-kfoot_app. change (flat (TNode pid KA)) with (kflat KA).
    change (flat (TNode id ((k0', c0) :: KB))) with (kflat ((k0', c0) :: KB)).
    change (links (TNode pid KA)) with (klinks KA).
    change (links (TNode id ((k0', c0) :: KB))) with (klinks ((k0', c0) :: KB)).
    rewrite <-kflat_app, <-klinks_app. exact Hg2.
Qed.
End child_split.

(** *** The recursion *)

Lemma ins_child_fits d lo li key value l r e pid kl k c kr t' st st' W W' :
  rep T (S d) (st_pages st) (TNode pid (kl ++ (k, c) :: kr)) →
  bal T lo li (S d) (TNode pid (kl ++ (k, c) :: kr)) →
  NoDup (foot (TNode pid (kl ++ (k, c) :: kr))) → chain (links (TNode pid (kl ++ (k, c) :: kr))) e →
  lookup_key key (flat (TNode pid (kl ++ (k, c) :: kr))) = None →
  tpid t' = tpid c → rep T d (st_pages st') t' → bal T (min_leaf T) (min_internal T) d t' →
  grew key value (l ++ pre kl k) (ktrace kr ++ r) (first_leaf (klinks kr) e) c st st'
    (trace t') (flat t') (foot t') (links t') →
  ins_outcome (S d) lo li key value l r e (TNode pid (kl ++ (k, c) :: kr)) W st
    (mkInsertResult None None true) W' st'.
Proof.
  intros Hrep [Hsz Hkb] Hnd Hch Hnone Hpid Hr Hb Hg.
  pose proof (grew_lift T _ _ l r e pid kl k c kr d _ _ _ _ _ _ Hnd Hrep Hch Hg) as Hg'.
  destruct Hrep as [(p & Hp & Hn) Hk].
  destruct (grew_siblings T _ _ _ _ _ pid kl k c kr d _ _ _ _ _ _ Hnd Hk Hg) as [Hkl Hkr].
  rewrite foot_node in Hnd. apply NoDup_cons in Hnd as [Hpn _]. rewrite !elem_of_app in Hpn.
  apply (ins_fits _ _ _ _ _ _ _ _ _ _ _ (TNode pid (kl ++ (k, t') :: kr))); [done|done| | |].
  - split; [|by apply Forall_kid]. exists p. split.
    + apply (g_frame _ _ _ _ _ _ _ _ _ _ _ _ Hg); [auto|done].
    + rewrite slots_of_app in *. simpl in *. by rewrite Hpid.
  - apply Forall_kid in Hkb as (? & _ & ?). split; [|by apply Forall_kid].
    rewrite length_app in *. simpl in *. lia.
  - by rewrite trace_node, flat_node, links_node, foot_node.
Qed.

(** The write set of a node whose child recursion reports a split. *)
Lemma last_snoc_eq (W : list Z) x : last (W ++ [x]) = Some x.
Proof. apply last_snoc. Qed.
Lemma pop_back_snoc ctx W x : write_set_ ctx = W ++ [x] → write_set_ (pop_back ctx) = W.
Proof.
  intros Hw. unfold pop_back. simpl. rewrite Hw, length_app. simpl.
  by rewrite Nat.add_sub, take_app_length.
Qed.

Lemma RecursiveInsert_ok d fuel lo li key value l r e t W ctx st :
  (d < fuel)%nat → 1 ≤ li → store_ok st → rep T d (st_pages st) t → bal T lo li d t →
  NoDup (foot t) → sorted (l ++ trace t ++ r) → before l key → after key r → chain (links t) e →
  write_set_ ctx = W ++ [tpid t] →
  ∃ res ctx' st', RecursiveInsert fuel T ctx key value st = (Ok (res, ctx'), st') ∧
    ins_outcome d lo li key value l r e t W st res (write_set_ ctx') st'.
Proof.
  revert d lo li l r e t W ctx st.
  induction fuel as [|f IH]; intros d lo li l r e t W ctx st Hf Hli Hst Hrep Hbal Hnd Hs Hl Hr Hch Hw; [lia|].
  cbn [RecursiveInsert]. rewrite Hw, last_snoc. run (rep_is_leaf _ _ _ Hrep).
  destruct d as [|d], t as [pid next es|pid kids]; try done.
  { by apply RecursiveInsertLeaf_ok. }
  pose proof (bal_kids_nonempty _ _ _ _ _ _ Hbal Hli) as Hne.
  pose proof Hrep as [(p & Hp & Hn) Hk]. run (load_internal_ok _ _ _ Hp).
  pose proof Hn as (Hsz & Hmx & _). rewrite slots_of_length in Hsz.
  destruct (descend_kids kids key Hne (sorted_mid _ _ _ Hs)) as (kl & k & c & kr & -> & Hpre & Hpost).
  destruct (descend_node _ _ _ _ _ _ _ _ Hn eq_refl Hpre Hpost) as [E1 E2]. run E1. run E2.
  set (ctx1 := if bool_decide (size_ p < max_size_ p) then keep_back ctx else ctx).
  assert (∃ W1, write_set_ ctx1 = W1 ++ [pid] ∧ (max_size_ p ≤ size_ p → W1 = W)) as (W1 & Hw1 & HW1).
  { unfold ctx1. destruct (bool_decide_reflect (size_ p < max_size_ p)).
    - exists []. unfold keep_back. simpl. rewrite Hw, last_snoc. split; [done|lia].
    - by exists W. }
  pose proof Hbal as [Hnum Hkb]. apply Forall_kid in Hkb as (_ & Hcb & _).
  apply Forall_kid in Hk as (_ & Hc & _).
  assert (NoDup (foot c)) as Hndc.
  { rewrite foot_node in Hnd. apply NoDup_cons in Hnd as [_ Hnd].
    apply NoDup_app in Hnd as (_ & _ & Hnd). by apply NoDup_app in Hnd as [? _]. }
  rewrite trace_node in Hs. rewrite <-!app_assoc, app_assoc in Hs.
  pose proof Hch as Hchc. rewrite links_node, !chain_app in Hchc. destruct Hchc as (_ & Hchc & _).
  destruct (min_internal_pos T Hgs) as [Hmi _].
  destruct (IH d (min_leaf T) (min_internal T) (l ++ pre kl k) (ktrace kr ++ r)
    (first_leaf (klinks kr) e) c (W1 ++ [pid]) (push_back (tpid c) ctx1) st)
    as (res & ctx' & st' & Erec & Hout); try done; [lia|lia|by apply before_app|by apply after_app| |].
  { unfold push_back. simpl. by rewrite Hw1. }
  run Erec. pose proof (lookup_key_node pid kl k c kr key Hpre Hpost) as Elook.
  clear Erec IH. remember (write_set_ ctx') as Wc eqn:EWc.
  destruct Hout as [v Wc Hv|t' Wc st' Hno Hpid Hr' Hb' Hg|t1 k0 t2 st' Hno Hpid Hr1 Hr2 Hb1 Hb2 Hg];
    rewrite <-Elook in *; simpl.
  - do 3 eexists. split; [done|]. by eapply ins_duplicate.
  - do 3 eexists. split; [done|]. by eapply (ins_child_fits d _ _ _ _ _ _ _ _ _ _ c).
  - rewrite last_snoc, bool_decide_true by done. simpl.
    assert (st_pages st' !! pid = Some (InternalNode p)) as Hp'.
    { apply (g_frame _ _ _ _ _ _ _ _ _ _ _ _ Hg); [|done]. rewrite foot_node in Hnd.
      apply NoDup_cons in Hnd as [Hpn _]. rewrite !elem_of_app in Hpn. auto. }
    run (load_internal_ok _ _ _ Hp'). rewrite Hsz, Hmx.
    destruct (bool_decide_reflect (Z.of_nat (length (kl ++ (k, c) :: kr)) < internal_max_size_ T)) as [Hroom|Hfull].
    + destruct (node_absorbs d lo li key value l r e pid kl k c kr t1 k0 t2 st st' p) with (W := W) (W' := @nil Z)
        as (p' & Ep & Hout'); try done.
      run Ep. do 3 eexists. split; [done|]. exact Hout'.
    + destruct (NewPage st') as [id st1] eqn:Hnew.
      destruct (node_splits d lo li key value l r e pid kl k c kr t1 k0 t2 st st' p) with (W := W) (id := id) (st1 := st1)
        as (q1 & q2 & p1 & p2 & k1 & Es1 & Es2 & Es3 & Hout'); try done; [lia|].
      assert (new_page st' = (Ok id, st1)) as En by (unfold new_page; by rewrite Hnew). run En.
      run Es1. run Es2. unfold store. cbn [mbind ST_bind]. unfold ST_bind at 1. cbv beta iota.
      unfold st_lift. rewrite Es3. do 3 eexists. split; [done|].
      rewrite (pop_back_snoc ctx' W1 pid) by done. rewrite HW1 by lia. exact Hout'.
Qed.

(** ** The whole operation *)

(** Sorted insertion; a key already present keeps its value. *)
Fixpoint insert_key (key : K) (value : V) (es : list (K * V)) : list (K * V) :=
  match es with
  | [] => [(key, value)]
  | (k, v) :: es' =>
      if decide (key_lt k key) then (k, v) :: insert_key key value es'
      else if decide (comparator k key = 0) then es else (key, value) :: es
  end.

Lemma insert_key_gap key value a b :
  Forall (lt_key key) a → Forall (gt_key key) b → insert_key key value (a ++ b) = a ++ (key, value) :: b.
Proof.
  intros Ha Hb. induction Ha as [|[k v] a Hk Ha IH]; simpl.
  - destruct Hb as [|[k v] b Hk Hb]; [done|]. unfold gt_key in Hk. simpl in *.
    apply comparator_flip in Hk. unfold key_lt. by rewrite !decide_False by lia.
  - rewrite decide_True by done. by rewrite IH.
Qed.
Lemma insert_key_dup key value a k v b :
  Forall (lt_key key) a → comparator k key = 0 → insert_key key value (a ++ (k, v) :: b) = a ++ (k, v) :: b.
Proof.
  intros Ha Hc. induction Ha as [|[k0 v0] a Hk Ha IH]; simpl.
  - unfold key_lt. rewrite decide_False by lia. by rewrite decide_True.
  - rewrite decide_True by done. by rewrite IH.
Qed.

Lemma flat_sorted t : sorted (trace t) → sorted_entries (flat t).
Proof.
  intros Hs%sorted_entries_of. rewrite trace_entries in Hs. unfold sorted_entries.
  by rewrite map_map in Hs.
Qed.
Lemma sorted_gap (a b : list (K * V)) key value :
  sorted_entries (a ++ (key, value) :: b) → Forall (lt_key key) a ∧ Forall (gt_key key) b.
Proof.
  unfold sorted_entries. rewrite map_app. simpl. intros [Ha Hb]%sorted_cut.
  by rewrite Forall_map in Ha, Hb.
Qed.
Lemma lookup_key_split key v (es : list (K * V)) :
  sorted_entries es → lookup_key key es = Some v →
  ∃ a k b, es = a ++ (k, v) :: b ∧ comparator k key = 0 ∧ Forall (lt_key key) a ∧ Forall (gt_key key) b.
Proof.
  intros Hs Hv. destruct (locate key es Hs) as [l k v' r -> Hc Hl Hr|l r -> Hl Hr].
  - rewrite lookup_key_found in Hv by done. injection Hv as ->. eauto 10.
  - by rewrite lookup_key_missing in Hv.
Qed.

(** What an operation leaves of the store outside the index. *)
Definition frame_ok st (o : option Tree) st' (o' : option Tree) : Prop :=
  (∀ q p, q ∉ index_foot T o → st_pages st !! q = Some p → st_pages st' !! q = Some p) ∧
  (∀ q, q ∈ index_foot T o' → q ∈ index_foot T o ∨ st_pages st !! q = None).

Lemma insert_root_fits d t t' key value st st' :
  index_at T st (Some t) → rep T d (st_pages st') t' → bal T 1 2 d t' → tpid t' = tpid t →
  grew key value [] [] INVALID_PAGE_ID t st st' (trace t') (flat t') (foot t') (links t') →
  index_at T st' (Some t') ∧ frame_ok st (Some t) st' (Some t').
Proof.
  intros [Hst Hh Ht] Hr Hb Hpid [].
  destruct (Ht t eq_refl) as (d0 & Hr0 & _ & _ & _ & Hhd & _).
  rewrite app_nil_r in g_sorted0. split.
  - split; [done|rewrite Hpid; by apply g_frame0|]. intros ? [= <-]. exists d. split_and!; try done.
    intros Hin%g_foot0. destruct Hin; [done|congruence].
  - split; unfold index_foot.
    + intros q p Hq. apply g_frame0. set_solver.
    + intros q [->|Hq]%elem_of_cons; [left; left|]. apply g_foot0 in Hq as [?|?]; [left; by right|by right].
Qed.

(** The new root of [Insert]: two children with the separator between them. *)
Lemma new_root_ok root sep right_id :
  ∃ k0 n1 n2, SetValueAt 0 root (internal_Init (internal_max_size_ T) (zero_internal (K:=K) T)) = Ok n1 ∧
    internal_InsertAt 1 sep right_id n1 = Ok n2 ∧
    node_is (internal_max_size_ T) [(k0, root); (sep, right_id)] (ChangeSizeBy 1 n2).
Proof.
  destruct Hgs. unfold internal_Init, zero_internal, SetSize. simpl.
  destruct (internal_slot_cnt T) as [|[|n]] eqn:En; [lia..|].
  unfold SetValueAt. cbn [slots_ replicate]. rewrite arr_get_0. cbn [mbind result_bind].
  rewrite arr_set_0. cbn [mbind result_bind]. do 3 eexists. split; [done|].
  unfold internal_InsertAt, node_Insert. cbn [size_ max_size_ slots_ set_slots].
  rewrite bool_decide_true by lia. change (Z.to_nat (0 - 1)) with 0%nat. cbn [shift_right].
  cbn [mbind result_bind]. rewrite arr_set_1. cbn [mbind result_bind]. split; [done|].
  split_and!; simpl; [done|done|lia|]. eexists. split; [reflexivity|].
  simpl. rewrite length_replicate. lia.
Qed.

(** The first entry of an empty index. *)
Lemma insert_empty_ok key value st :
  index_at T st None →
  ∃ st', insert_pessimistic T key value st = (Ok true, st') ∧ ∃ t',
    index_at T st' (Some t') ∧ flat t' = [(key, value)] ∧ frame_ok st None st' (Some t').
Proof.
  intros [Hst Hh _]. unfold insert_pessimistic. run (load_header_ok _ _ _ Hh).
  rewrite bool_decide_true by done. unfold InitBPlusTree.
  destruct (NewPage st) as [id st1] eqn:Hnew.
  destruct (NewPage_ok _ _ _ Hst Hnew) as (Epg & Hid & Hidr & Hidf & Hst1).
  destruct (leaf_InsertAt_ok _ [] [] _ _ 0 key value new_leaf_is) as (p & Ep & Hp);
    [done|destruct Hgs; simpl; lia|].
  unfold new_page, store, mbind, ST_bind. rewrite Hnew. unfold st_lift. rewrite Ep.
  eexists. split; [done|]. exists (TLeaf id INVALID_PAGE_ID [(key, value)]).
  assert (id ≠ header_page_id_ T) as Hne by congruence. split_and!; [|done|].
  - split; simpl.
    + eapply (set_page_owned _ _ _ (HeaderPage INVALID_PAGE_ID)); [by apply set_page_ok|].
      simpl. by rewrite lookup_insert_ne, Epg by done.
    + by rewrite lookup_insert_eq.
    + intros t [= <-]. exists 0%nat. split_and!.
      * exists p. simpl. rewrite lookup_insert_ne, lookup_insert_eq by done. done.
      * destruct Hgs. simpl. lia.
      * repeat constructor.
      * apply NoDup_singleton.
      * simpl. set_solver.
      * done.
  - split; simpl; unfold index_foot.
    + intros q p0 Hq Hp0. rewrite !lookup_insert_ne, Epg by (congruence || set_solver). done.
    + intros q. simpl. rewrite !elem_of_cons. naive_solver.
Qed.

(** The root split: [Insert] puts a new root over the two halves. *)
Lemma insert_root_splits d t t1 k t2 key value st st' id st1 p k0 :
  index_at T st (Some t) → tpid t1 = tpid t →
  rep T d (st_pages st') t1 → rep T d (st_pages st') t2 →
  bal T (min_leaf T) (min_internal T) d t1 → bal T (min_leaf T) (min_internal T) d t2 →
  grew key value [] [] INVALID_PAGE_ID t st st' (trace t1 ++ Sep k :: trace t2) (flat t1 ++ flat t2)
    (foot t1 ++ foot t2) (links t1 ++ links t2) →
  NewPage st' = (id, st1) →
  node_is (internal_max_size_ T) [(k0, tpid t); (k, tpid t2)] p →
  let st2 := set_page (header_page_id_ T) (HeaderPage id) (set_page id (InternalNode p) st1) in
  let t' := TNode id [(k0, t1); (k, t2)] in
  index_at T st2 (Some t') ∧ flat t' = flat t1 ++ flat t2 ∧ frame_ok st (Some t) st2 (Some t').
Proof.
  intros [Hst Hh Ht] Hpid Hr1 Hr2 Hb1 Hb2 Hg Hnew Hp st2 t'.
  destruct (Ht t eq_refl) as (d0 & Hr0 & _ & _ & _ & Hhd & _).
  pose proof (grew_new _ _ _ _ _ _ _ _ _ _ _ _ _ _ (InternalNode p) Hg Hnew) as [].
  pose proof (g_frame0 _ _ Hhd Hh) as Hh'. simpl in Hh'.
  assert (header_page_id_ T ∉ id :: foot t1 ++ foot t2) as Hhn.
  { intros Hin. apply g_foot0 in Hin as [?|?]; [done|congruence]. }
  destruct (NewPage_ok _ _ _ (g_store _ _ _ _ _ _ _ _ _ _ _ _ Hg) Hnew) as (Epg & Hid & _).
  assert (∀ q, q ∈ foot t1 ++ foot t2 → st_pages st2 !! q = st_pages st' !! q) as Hfr.
  { intros q Hq. simpl. rewrite !lookup_insert_ne, Epg; [done| |].
    - intros <-. apply NoDup_cons in g_nodup0 as [? _]. done.
    - intros <-. apply Hhn. by right. }
  setoid_rewrite elem_of_app in Hfr.
  split_and!.
  - split.
    + by eapply set_page_owned.
    + simpl. by rewrite lookup_insert_eq.
    + intros ? [= <-]. exists (S d). split_and!.
      * split.
        { exists p. simpl. rewrite lookup_insert_ne by set_solver. rewrite lookup_insert_eq, Hpid. done. }
        repeat constructor; simpl; (eapply rep_frame; [done|auto]).
      * destruct Hgs. split; [simpl; lia|]. by repeat constructor.
      * unfold t'. simpl. rewrite app_nil_r in *. done.
      * unfold t'. simpl. by rewrite app_nil_r.
      * unfold t'. simpl. by rewrite app_nil_r.
      * unfold t'. simpl. by rewrite app_nil_r.
  - unfold t'. simpl. by rewrite app_nil_r.
  - split; unfold index_foot.
    + intros q p0 Hq Hp0. rewrite elem_of_cons in Hq. simpl. rewrite lookup_insert_ne by naive_solver.
      apply g_frame0; naive_solver.
    + intros q [->|Hq]%elem_of_cons; [left; left|]. unfold t' in Hq. simpl in Hq. rewrite app_nil_r in Hq.
      apply g_foot0 in Hq as [?|?]; [left; by right|by right].
Qed.

Lemma grew_contents key value l r e t st st' tr fl ft lk :
  sorted_entries fl → grew key value l r e t st st' tr fl ft lk → fl = insert_key key value (flat t).
Proof.
  intros Hs [_ _ _ _ _ _ _ (a & b & -> & ->) _ _]. apply sorted_gap in Hs as [? ?].
  by rewrite insert_key_gap.
Qed.

Lemma insert_pessimistic_ok key value st o :
  index_at T st o →
  ∃ st' o', insert_pessimistic T key value st =
      (Ok (bool_decide (lookup_key key (contents o) = None)), st') ∧
    index_at T st' o' ∧ contents o' = insert_key key value (contents o) ∧ frame_ok st o st' o'.
Proof.
  intros Hia. destruct o as [t|].
  2:{ destruct (insert_empty_ok key value st Hia) as (st' & E & t' & ? & Hf & ?).
      exists st', (Some t'). simpl. by rewrite E, Hf. }
  pose proof Hia as [Hst Hh Ht]. destruct (Ht t eq_refl) as (d & Hr & Hb & Hs & Hnd & Hhd & Hch).
  destruct (min_internal_pos T Hgs) as [Hmi _].
  unfold insert_pessimistic. run (load_header_ok _ _ _ Hh).
  rewrite bool_decide_false by (by eapply index_root_valid).
  destruct (RecursiveInsert_ok d (S (size (st_pages st))) 1 2 key value [] [] INVALID_PAGE_ID t
    [header_page_id_ T] (mkContext false (tpid t) [header_page_id_ T; tpid t]) st)
    as (res & ctx' & st' & Erec & Hout); try done;
    [apply (enough_fuel T d t 1 2); (done || lia)|by rewrite app_nil_r|by constructor|by constructor|].
  run (with_fuel_ok (λ f, RecursiveInsert f T _ key value) _ _ Erec).
  pose proof (flat_sorted _ Hs) as Hfs.
  remember (write_set_ ctx') as Wc eqn:EWc.
  destruct Hout as [v Wc Hv|t' Wc st' Hno Hpid Hr' Hb' Hg|t1 k0 t2 st' Hno Hpid Hr1 Hr2 Hb1 Hb2 Hg]; simpl.
  - exists st, (Some t). simpl. rewrite Hv. split_and!; [done|done| |].
    + destruct (lookup_key_split _ _ _ Hfs Hv) as (a & k & b & -> & Hc & Ha & Hb'). by rewrite insert_key_dup.
    + split; [done|auto].
  - rewrite Hno. rewrite bool_decide_true by done.
    destruct (insert_root_fits d t t' key value st st' Hia Hr' Hb' Hpid Hg) as (Hia' & Hfr).
    exists st', (Some t'). split_and!; [done|done| |done].
    eapply grew_contents; [|exact Hg]. apply flat_sorted. destruct Hia' as [_ _ Ht'].
    by destruct (Ht' t' eq_refl) as (? & _ & _ & ? & _).
  - rewrite Hno, bool_decide_true by done. destruct (NewPage st') as [id st1] eqn:Hnew.
    destruct (new_root_ok (tpid t) k0 (tpid t2)) as (kk & n1 & n2 & En1 & En2 & Hn2).
    assert (new_page st' = (Ok id, st1)) as En by (unfold new_page; by rewrite Hnew). run En.
    run En1. run En2.
    destruct (insert_root_splits d t t1 k0 t2 key value st st' id st1 _ kk Hia Hpid Hr1 Hr2 Hb1 Hb2 Hg Hnew Hn2)
      as (Hia' & Hfl & Hfr).
    do 2 eexists. split; [done|]. split; [done|]. split; [|done]. etransitivity; [exact Hfl|].
    eapply grew_contents; [|exact Hg]. rewrite <-Hfl. apply flat_sorted. destruct Hia' as [_ _ Ht'].
    by destruct (Ht' _ eq_refl) as (? & _ & _ & ? & _).
Qed.

(** ** The optimistic path *)

(** A leaf with room: the outcome is that of the page, the write set only ends up empty. *)
Lemma insert_leaf_room_eq pid leaf st ctx key value :
  st_pages st !! pid = Some (LeafNode leaf) → size_ (leaf_node leaf) < max_size_ (leaf_node leaf) →
  last (write_set_ ctx) = Some pid →
  RecursiveInsertLeaf T ctx key value st =
    match leaf_ContainsKey key (-1) leaf with
    | Err e => (Err e, st)
    | Ok LIVE => (Ok (mkInsertResult None None false, set_write_set [] (keep_back ctx)), st)
    | Ok ABSENT =>
        match (idx ← BisectRight (leaf_node leaf) key 0; leaf_InsertAt idx key value leaf) with
        | Err e => (Err e, st)
        | Ok leaf' => (Ok (mkInsertResult None None true, set_write_set [] (keep_back ctx)),
                       set_page pid (LeafNode leaf') st)
        end
    end.
Proof.
  intros Hp Hroom Hw. unfold RecursiveInsertLeaf. rewrite Hw.
  run (load_leaf_ok _ _ _ Hp). rewrite bool_decide_true by done.
  unfold mbind, ST_bind, st_lift, store, mret, ST_ret, result_bind.
  destruct (leaf_ContainsKey key (-1) leaf) as [[]|]; [done| |done].
  rewrite bool_decide_false by done. destruct (BisectRight _ key 0); [|done].
  by destruct (leaf_InsertAt _ _ _ _).
Qed.
Lemma insert_leaf_room pid leaf st ctx ctx0 key value res cx st' :
  st_pages st !! pid = Some (LeafNode leaf) → size_ (leaf_node leaf) < max_size_ (leaf_node leaf) →
  last (write_set_ ctx) = Some pid → last (write_set_ ctx0) = Some pid →
  RecursiveInsertLeaf T ctx0 key value st = (Ok (res, cx), st') →
  (∃ ctx', RecursiveInsertLeaf T ctx key value st = (Ok (res, ctx'), st')) ∧ new_page_id_ res = None.
Proof.
  intros Hp Hroom Hw Hw0. rewrite !(insert_leaf_room_eq pid leaf) by done.
  destruct (leaf_ContainsKey key (-1) leaf) as [[]|]; [..|done]; [|destruct (_ ≫= _); [|done]];
    intros [= <- <- <-]; eauto.
Qed.

Lemma optimistic_agrees fuel key value pid lid leaf st ctx :
  find_leaf fuel key pid st = (Ok (lid, leaf), st) →
  size_ (leaf_node leaf) < max_size_ (leaf_node leaf) → last (write_set_ ctx) = Some pid →
  ∀ res cx st', RecursiveInsertLeaf T (mkContext false INVALID_PAGE_ID [lid]) key value st = (Ok (res, cx), st') →
  (∃ ctx', RecursiveInsert fuel T ctx key value st = (Ok (res, ctx'), st')) ∧ new_page_id_ res = None.
Proof.
  revert pid ctx. induction fuel as [|f IH]; intros pid ctx Hfind Hroom Hw res cx st' Hleaf; [done|].
  cbn [RecursiveInsert find_leaf] in *. rewrite Hw. unfold mbind at 1, ST_bind at 1 in Hfind.
  unfold load in Hfind. destruct (st_pages st !! pid) as [[r|p|n]|] eqn:Hp; try done.
  - assert (IsLeafPage pid st = (Ok true, st)) as El by (unfold IsLeafPage; by run (load_ok _ _ _ Hp)).
    run El. injection Hfind as <- <-.
    by apply (insert_leaf_room pid p st ctx (mkContext false INVALID_PAGE_ID [pid]) key value res cx st').
  - assert (IsLeafPage pid st = (Ok false, st)) as El by (unfold IsLeafPage; by run (load_ok _ _ _ Hp)).
    run El. run (load_internal_ok _ _ _ Hp).
    unfold mbind at 1, ST_bind at 1, st_lift at 1 in Hfind. unfold mbind at 1, ST_bind at 1, st_lift at 1.
    destruct (BisectRight n key 1) as [b|]; [|done].
    unfold mbind at 1, ST_bind at 1, st_lift at 1 in Hfind. unfold mbind at 1, ST_bind at 1, st_lift at 1.
    destruct (ValueAt n (b - 1)) as [child|]; [|done].
    destruct (IH child (push_back child (if bool_decide (size_ n < max_size_ n) then keep_back ctx else ctx))
      Hfind Hroom (last_snoc _ _) _ _ _ Hleaf) as [[ctx' Erec] Hnone].
    split; [|done]. exists ctx'. run Erec. by rewrite Hnone.
Qed.

(** On a well-formed index [Insert] does what its pessimistic half alone would do. *)
Lemma Insert_agrees key value st o :
  index_at T st o → Insert T key value st = insert_pessimistic T key value st.
Proof.
  intros Hia. pose proof Hia as [Hst Hh Ht]. unfold Insert.
  assert (TryOptimisticInsert T key value st = (Ok None, st) →
    (TryOptimisticInsert T key value ≫= λ opt, match opt with
      | Some b => mret b | None => insert_pessimistic T key value end) st = insert_pessimistic T key value st)
    as Hretry by (intros E; by run E).
  destruct o as [t|].
  2:{ apply Hretry. unfold TryOptimisticInsert. run (load_header_ok _ _ _ Hh). by rewrite bool_decide_true. }
  destruct (Ht t eq_refl) as (d & Hr & Hb & Hs & Hnd & Hhd & Hch).
  destruct (min_internal_pos T Hgs) as [Hmi _].
  pose proof (enough_fuel T d t 1 2 st Hr Hb ltac:(lia) ltac:(lia) Hnd) as Hfuel.
  destruct (find_leaf_ok T d (S (size (st_pages st))) key t 1 2 st) as
    (pid & nx & es & p & la & ra & lk & rk & Ef & Hp & Hl & Et & _); [done|done|lia|lia|done|done|].
  destruct (decide (max_size_ (leaf_node p) ≤ size_ (leaf_node p))) as [Hfull|Hroom].
  { apply Hretry. unfold TryOptimisticInsert. run (load_header_ok _ _ _ Hh).
    rewrite bool_decide_false by (by eapply index_root_valid).
    run (with_fuel_ok (λ f, find_leaf f key (tpid t)) _ _ Ef). by rewrite bool_decide_true. }
  clear Hretry.
  destruct (RecursiveInsertLeaf_ok 0 0 key value [] [] nx (TLeaf pid nx es) []
    (mkContext false INVALID_PAGE_ID [pid]) st) as (res & cx & st' & Eleaf & _); try done.
  { by exists p. }
  { destruct Hl as [(_ & Hm & Hle & _) _]. simpl. lia. }
  { simpl. rewrite app_nil_r. rewrite Et in Hs. by eapply sorted_mid. }
  { by constructor. }
  { by constructor. }
  destruct (optimistic_agrees (S (size (st_pages st))) key value (tpid t) pid p st
    (mkContext false (tpid t) [header_page_id_ T; tpid t]) Ef ltac:(lia) eq_refl _ _ _ Eleaf) as [[ctx' Erec] Hnone].
  assert (TryOptimisticInsert T key value st = (Ok (Some (inserted_ res)), st')) as Eopt.
  { unfold TryOptimisticInsert. run (load_header_ok _ _ _ Hh).
    rewrite bool_decide_false by (by eapply index_root_valid).
    run (with_fuel_ok (λ f, find_leaf f key (tpid t)) _ _ Ef). rewrite bool_decide_false by done.
    by run Eleaf. }
  run Eopt. unfold insert_pessimistic. run (load_header_ok _ _ _ Hh).
  rewrite bool_decide_false by (by eapply index_root_valid).
  run (with_fuel_ok (λ f, RecursiveInsert f T _ key value) _ _ Erec).
  rewrite Hnone. by destruct (inserted_ res).
Qed.

Lemma Insert_ok key value st o :
  index_at T st o →
  ∃ st' o', Insert T key value st = (Ok (bool_decide (lookup_key key (contents o) = None)), st') ∧
    index_at T st' o' ∧ contents o' = insert_key key value (contents o) ∧ frame_ok st o st' o'.
Proof. intros Hia. rewrite (Insert_agrees _ _ _ _ Hia). by apply insert_pessimistic_ok. Qed.
End insert.
