(* ===== verification/BTreeIterator.v ===== *)
(** * Iterating a B+ tree

    An iterator on a well-formed index stands for the entries from its position to the end
    ([yields]): [operator*] is the first of them, [operator++] drops it, [Begin()] yields the whole
    contents in key order and [Begin(key)] those not below [key]. *)

From stdpp Require Import sorting.
From S2P Require Import Prelude TablePage TableHeap BTreePage BPlusTree BTreeInvariant BTreeInsert.

Section iterator.
Context {K V : Type} `{!KeyComparator K, !KeyOrder K, !Inhabited K, !Inhabited V} (T : BPlusTree).
#[local] Abbreviation Tree := (tree K V).
#[local] Abbreviation IdxStore := (Store (IndexPage K V)).
#[local] Abbreviation sorted := (StronglySorted (item_lt (K:=K))).
Implicit Types (t c : Tree) (kids : list (K * Tree)) (st : IdxStore).

Lemma leaves_rep d m t lo li :
  rep T d m t → bal T lo li d t → 1 ≤ lo → 1 ≤ min_leaf T →
  Forall (λ lf, ∃ p, m !! lf.1.1 = Some (LeafNode p) ∧
    leaf_is (leaf_max_size_ T) lf.2 lf.1.2 p ∧ lf.2 ≠ []) (leaves t).
Proof.
  revert t lo li. induction d as [|d IH]; intros [pid next es|pid kids] lo li Hr Hb Hlo Hml; try done.
  - destruct Hr as (p & ? & ?). simpl in *. repeat constructor. exists p. simpl. split_and!; [done|done|].
    intros E. rewrite E in Hb. simpl in Hb. lia.
  - destruct Hr as [_ Hk]. destruct Hb as [_ Hkb]. simpl.
    induction kids as [|[k c] kids IHk]; [constructor|]. simpl.
    inversion_clear Hk as [|?? Hc Hk']. inversion_clear Hkb as [|?? Hcb Hkb'].
    apply Forall_app. split; [by eapply IH|by apply IHk].
Qed.

(** Facts about the leaf list shared by the lemmas below. *)
Section leaf_list.
Context (st : IdxStore) (L : list (Z * Z * list (K * V))).
Context (HL : Forall (λ lf, ∃ p, st_pages st !! lf.1.1 = Some (LeafNode p) ∧
  leaf_is (leaf_max_size_ T) lf.2 lf.1.2 p ∧ lf.2 ≠ []) L).
Context (Hchain : chain (map fst L) INVALID_PAGE_ID) (Hok : store_ok st).

(** [it] stands for the entries [es] of the leaves in [L]. *)
Inductive yields : IndexIterator → list (K * V) → Prop :=
  | yields_end g : yields (mkIter g (-1)) []
  | yields_at L1 pid next es1 e es2 L2 i :
      L = L1 ++ (pid, next, es1 ++ e :: es2) :: L2 → i = Z.of_nat (length es1) →
      yields (mkIter (Some pid) i) (e :: es2 ++ concat (map snd L2)).

Lemma leaf_in L1 pid next es L2 :
  L = L1 ++ (pid, next, es) :: L2 →
  ∃ p, st_pages st !! pid = Some (LeafNode p) ∧ leaf_is (leaf_max_size_ T) es next p ∧ es ≠ [] ∧ 0 ≤ pid.
Proof.
  intros ->. apply Forall_kid in HL as (_ & (p & Hp & Hl & Hne) & _). simpl in *.
  exists p. split_and!; try done. destruct Hok as (_ & _ & Hd & _). apply Hd in Hp. lia.
Qed.

Lemma iter_of_ok L1 pid next es L2 :
  L = L1 ++ (pid, next, es) :: L2 →
  ∃ it, iter_of pid st = (Ok it, st) ∧ yields it (es ++ concat (map snd L2)).
Proof.
  intros HL'. destruct (leaf_in _ _ _ _ _ HL') as (p & Hp & [(Hs & _) _] & Hne & _).
  unfold iter_of. run (load_leaf_ok _ _ _ Hp). destruct es as [|e es]; [done|].
  rewrite Hs, bool_decide_true by (simpl; lia). eexists. split; [done|].
  by apply (yields_at L1 pid next [] e es L2).
Qed.

Lemma iter_step it e es :
  yields it (e :: es) →
  IsEnd it = false ∧ iter_deref it st = (Ok e, st) ∧
  ∃ it', iter_next it st = (Ok it', st) ∧ yields it' es.
Proof.
  inversion 1 as [|L1 pid next es1 e' es2 L2 i HL' Hi E1]; subst.
  destruct (leaf_in _ _ _ _ _ HL') as (p & Hp & Hlf & Hne & _). pose proof Hlf as [Hn Hx].
  destruct e as [k v]. pose proof Hn as (Hs & _). split_and!.
  - unfold IsEnd. simpl. by rewrite bool_decide_false by lia.
  - unfold iter_deref. simpl. run (load_leaf_ok _ _ _ Hp).
    run (node_KeyAt _ _ _ es1 k v es2 _ Hn eq_refl eq_refl).
    by run (node_ValueAt _ _ _ es1 k v es2 _ Hn eq_refl eq_refl).
  - unfold iter_next. simpl. run (load_leaf_ok _ _ _ Hp). rewrite Hs, length_app. simpl.
    destruct es2 as [|e2 es2]; simpl.
    + rewrite bool_decide_false by lia. unfold leaf_GetNextPageId. rewrite Hx.
      pose proof Hchain as Hch. rewrite HL', map_app in Hch. simpl in Hch.
      apply chain_app in Hch as [_ [Hnx _]]. rewrite Hnx.
      destruct L2 as [|[[q nx] es3] L2]; simpl.
      { eexists. split; [done|]. constructor. }
      destruct (iter_of_ok (L1 ++ [(pid, next, es1 ++ [(k, v)])]) q nx es3 L2) as (it' & Ei & Hy).
      { by rewrite HL', <-app_assoc. }
      destruct (leaf_in (L1 ++ [(pid, next, es1 ++ [(k, v)])]) q nx es3 L2) as (_ & _ & _ & _ & Hq).
      { by rewrite HL', <-app_assoc. }
      rewrite bool_decide_false by (unfold INVALID_PAGE_ID; lia). eauto.
    + rewrite bool_decide_true by lia. eexists. split; [done|].
      apply (yields_at L1 pid next (es1 ++ [(k, v)]) e2 es2 L2).
      * by rewrite HL', <-app_assoc.
      * rewrite length_app. simpl. lia.
Qed.
Lemma yields_end_inv it : yields it [] → IsEnd it = true.
Proof. by inversion 1. Qed.
End leaf_list.

(** The loop a caller runs: collect what the iterator yields. *)
Fixpoint scan (fuel : nat) (it : IndexIterator) : ST IdxStore (list (K * V)) :=
  if IsEnd it then mret [] else
  match fuel with
  | O => st_throw EUndefined
  | S f =>
      e ← iter_deref it;
      it ← iter_next it;
      es ← scan f it;
      mret (e :: es)
  end.

Lemma index_leaves st t :
  good_sizes T → index_at T st (Some t) →
  Forall (λ lf, ∃ p, st_pages st !! lf.1.1 = Some (LeafNode p) ∧
    leaf_is (leaf_max_size_ T) lf.2 lf.1.2 p ∧ lf.2 ≠ []) (leaves t) ∧
  chain (map fst (leaves t)) INVALID_PAGE_ID.
Proof.
  intros Hgs [_ _ Ht]. destruct (Ht t eq_refl) as (d & Hr & Hb & _ & _ & _ & Hch).
  destruct (min_leaf_pos T Hgs) as [? _].
  split; [by eapply leaves_rep; [..|lia]|by rewrite <-leaves_links].
Qed.

(** [it] stands for the last part [es] of the index. *)
Definition index_yields (o : option Tree) (it : IndexIterator) (es : list (K * V)) : Prop :=
  match o with
  | Some t => yields (leaves t) it es
  | None => it = End_ ∧ es = []
  end.

Lemma scan_ok st o it es fuel :
  good_sizes T → index_at T st o → index_yields o it es → (length es ≤ fuel)%nat →
  scan fuel it st = (Ok es, st).
Proof.
  intros Hgs Hia. destruct o as [t|].
  2:{ intros [-> ->] _. by destruct fuel. }
  destruct (index_leaves st t Hgs Hia) as [HL Hch]. destruct Hia as [Hst _ _]. simpl.
  revert it es. induction fuel as [|f IH]; intros it es Hy Hlen.
  { destruct es; [|simpl in Hlen; lia]. simpl. by rewrite (yields_end_inv _ _ Hy). }
  destruct es as [|e es].
  { simpl. by rewrite (yields_end_inv _ _ Hy). }
  destruct (iter_step st _ HL Hch Hst _ _ _ Hy) as (Ee & Ed & it' & En & Hy').
  simpl. rewrite Ee. run Ed. run En. simpl in Hlen. run (IH it' es Hy' ltac:(lia)). done.
Qed.

(** [Begin()]. *)
Lemma leftmost_ok d fuel t lo li st :
  rep T d (st_pages st) t → bal T lo li d t → 1 ≤ li → 1 ≤ min_internal T → (d < fuel)%nat →
  ∃ pid next es L2, leftmost_leaf fuel (tpid t) st = (Ok pid, st) ∧ leaves t = (pid, next, es) :: L2.
Proof.
  revert d t lo li. induction fuel as [|f IH]; intros d t lo li Hrep Hbal Hli Hmi Hf; [lia|].
  destruct d as [|d], t as [pid next es|pid kids]; try done.
  - destruct Hrep as (p & Hp & Hl). exists pid, next, es, []. simpl. by run (load_ok _ _ _ Hp).
  - pose proof (bal_kids_nonempty _ _ _ _ _ _ Hbal Hli) as Hne.
    destruct kids as [|[k c] kids]; [done|].
    destruct Hrep as ((p & Hp & Hn) & Hk). destruct Hbal as [_ Hkb].
    inversion_clear Hk as [|?? Hc _]. inversion_clear Hkb as [|?? Hcb _].
    destruct (IH d c _ _ Hc Hcb Hmi Hmi ltac:(lia)) as (q & nx & es & L2 & Ef & El).
    exists q, nx, es, (L2 ++ kleaves kids). simpl. run (load_ok _ _ _ Hp).
    run (node_ValueAt _ _ _ [] k (tpid c) (slots_of kids) 0 Hn eq_refl eq_refl).
    split; [done|]. by rewrite El.
Qed.

Lemma Begin_ok st o :
  good_sizes T → index_at T st o →
  ∃ it, Begin T st = (Ok it, st) ∧ index_yields o it (contents o).
Proof.
  intros Hgs Hia. pose proof Hia as [Hst Hh Ht]. unfold Begin. run (load_header_ok _ _ _ Hh).
  destruct o as [t|]; [|exists End_; by rewrite bool_decide_true].
  destruct (Ht t eq_refl) as (d & Hr & Hb & Hs & Hnd & Hhd & _).
  rewrite bool_decide_false by (by eapply index_root_valid).
  destruct (min_internal_pos T Hgs) as [? _].
  destruct (leftmost_ok d (S (size (st_pages st))) t 1 2 st) as (pid & nx & es & L2 & Ef & El);
    [done|done|lia|lia|apply (enough_fuel T d t 1 2); (done || lia)|].
  run (with_fuel_ok (λ f, leftmost_leaf f (tpid t)) _ _ Ef).
  destruct (index_leaves st t Hgs Hia) as [HL Hch].
  destruct (iter_of_ok st _ HL Hch Hst [] pid nx es L2 El) as (it & Ei & Hy).
  exists it. split; [done|]. simpl.
  assert (flat t = es ++ concat (map snd L2)) as -> by (by rewrite leaves_flat, El). exact Hy.
Qed.

(** [Begin(key)]: the entries not below [key]. *)
Definition from_key (key : K) (es : list (K * V)) : list (K * V) :=
  filter (λ e, ¬ key_lt e.1 key) es.

Lemma seek_ok st L key it a b fuel :
  Forall (λ lf, ∃ p, st_pages st !! lf.1.1 = Some (LeafNode p) ∧
    leaf_is (leaf_max_size_ T) lf.2 lf.1.2 p ∧ lf.2 ≠ []) L →
  chain (map fst L) INVALID_PAGE_ID → store_ok st →
  yields L it (a ++ b) → Forall (λ e, key_lt e.1 key) a → Forall (λ e, ¬ key_lt e.1 key) b →
  (length a < fuel)%nat →
  ∃ it', seek fuel key it st = (Ok it', st) ∧ yields L it' b.
Proof.
  intros HL Hch Hst. revert it fuel. induction a as [|e a IH]; intros it fuel Hy Ha Hb Hf.
  - destruct fuel as [|f]; [simpl in Hf; lia|]. destruct b as [|e b].
    { exists it. split; [|done]. simpl. by rewrite (yields_end_inv _ _ Hy). }
    destruct (iter_step st _ HL Hch Hst _ _ _ Hy) as (Ee & Ed & _).
    exists it. simpl. rewrite Ee. run Ed. inversion_clear Hb as [|?? Hk _].
    split; [|done]. by rewrite bool_decide_false.
  - destruct fuel as [|f]; [lia|]. simpl in Hy.
    destruct (iter_step st _ HL Hch Hst _ _ _ Hy) as (Ee & Ed & it' & En & Hy').
    inversion_clear Ha as [|?? Hk Ha']. simpl in Hf.
    destruct (IH it' f Hy' Ha' Hb ltac:(lia)) as (it2 & E2 & Hy2). exists it2. split; [|done].
    simpl. rewrite Ee. run Ed. rewrite bool_decide_true by exact Hk. by run En.
Qed.

Lemma from_key_app key a b :
  Forall (λ e, key_lt e.1 key) a → Forall (λ e, ¬ key_lt e.1 key) b → from_key key (a ++ b) = b.
Proof.
  intros Ha Hb. unfold from_key. induction Ha as [|e a He Ha IH]; simpl.
  - induction Hb as [|e b He Hb IH]; [done|]. rewrite filter_cons_True by done. by f_equal.
  - by rewrite filter_cons_False by naive_solver.
Qed.

Lemma gt_key_not_lt key (b : list (K * V)) : Forall (gt_key key) b → Forall (λ e, ¬ key_lt e.1 key) b.
Proof. intros H. eapply Forall_impl; [exact H|]. intros e He. apply key_not_lt. by apply key_lt_le. Qed.

(** A sorted run of entries, cut where the entries stop being below [key]. *)
Lemma cut_at_key key (es : list (K * V)) :
  sorted_entries es → ∃ a b, es = a ++ b ∧ Forall (lt_key key) a ∧ Forall (λ e, ¬ key_lt e.1 key) b.
Proof.
  intros Hs. destruct (locate key es Hs) as [l k v r -> Hc Hl Hr|l r -> Hl Hr].
  - exists l, ((k, v) :: r). split_and!; [done|done|]. constructor; [|by apply gt_key_not_lt].
    simpl. unfold key_lt. lia.
  - exists l, r. split_and!; [done|done|by apply gt_key_not_lt].
Qed.

Lemma BeginKey_ok st o key :
  good_sizes T → index_at T st o →
  ∃ it, BeginKey T key st = (Ok it, st) ∧ index_yields o it (from_key key (contents o)).
Proof.
  intros Hgs Hia. pose proof Hia as [Hst Hh Ht]. unfold BeginKey. run (load_header_ok _ _ _ Hh).
  destruct o as [t|]; [|exists End_; by rewrite bool_decide_true].
  destruct (Ht t eq_refl) as (d & Hr & Hb & Hs & Hnd & Hhd & _).
  rewrite bool_decide_false by (by eapply index_root_valid).
  destruct (min_internal_pos T Hgs) as [? _].
  destruct (find_leaf_ok T d (S (size (st_pages st))) key t 1 2 st) as
    (pid & nx & es & p & la & ra & L1 & L2 & Ef & Hp & Hl & Et & Hla & Hra & El & Hfa & Hfb);
    [done|done|lia|lia|done|apply (enough_fuel T d t 1 2); (done || lia)|].
  run (with_fuel_ok (λ f, find_leaf f key (tpid t)) _ _ Ef).
  destruct (index_leaves st t Hgs Hia) as [HL Hch].
  destruct (iter_of_ok st _ HL Hch Hst L1 pid nx es L2 El) as (it & Ei & Hy). run Ei.
  rewrite Et in Hs. destruct (cut_at_key key es (sorted_mid _ _ _ Hs)) as (a & b & -> & Ha & Hb').
  rewrite <-app_assoc in Hy. destruct Hl as [(Hsz & _) _].
  destruct (seek_ok st (leaves t) key it a (b ++ concat (map snd L2))
    (S (Z.to_nat (size_ (leaf_node p))))) as (it' & Es & Hy'); try done.
  { apply Forall_app. split; [done|]. apply gt_key_not_lt. by eapply after_gt. }
  { rewrite Hsz, Nat2Z.id, length_app. lia. }
  exists it'. split; [done|]. simpl.
  assert (flat t = (concat (map snd L1) ++ a) ++ b ++ concat (map snd L2)) as ->.
  { rewrite leaves_flat, El, map_app, concat_app. simpl. by rewrite <-!app_assoc. }
  rewrite from_key_app; [done| |].
  - apply Forall_app. split; [by eapply before_lt|done].
  - apply Forall_app. split; [done|]. apply gt_key_not_lt. by eapply after_gt.
Qed.
End iterator.
