(* ===== verification/BTreeRebalance.v ===== *)
(** * Borrowing and merging of adjacent nodes

    [StealOrMergeNodes] works on two adjacent children [A] and [B] of a node and the separator between
    them.  [pair_ok] is what the outcome, two nodes with a new separator or one merged node, keeps:
    entries, order, footprint and leaf chain.  The page-level lemmas say what the code computes for
    leaves and for internal nodes, whichever of the two is the one that underflowed. *)

From stdpp Require Import sorting.
From S2P Require Import Prelude TablePage TableHeap BTreePage BPlusTree BTreeInvariant BTreeInsert.

Section rebalance.
Context {K V : Type} `{!KeyComparator K, !KeyOrder K, !Inhabited K, !Inhabited V} (T : BPlusTree).
#[local] Abbreviation Tree := (tree K V).
#[local] Abbreviation IdxStore := (Store (IndexPage K V)).
#[local] Abbreviation sorted := (StronglySorted (item_lt (K:=K))).
Implicit Types (t c A B : Tree) (kids : list (K * Tree)) (st : IdxStore).

(** The pair [A], [s], [B] became something with walk [tr], entries [fl], pages [ft], leaves [lk];
    the pages [dead] are free now. *)
Record pair_ok A (s : K) B (dead : list Z) (tr : list (item K)) (fl : list (K * V)) (ft : list Z) (lk : list (Z * Z)) : Prop := {
  po_foot : dead ++ ft ≡ₚ foot A ++ foot B;
  po_flat : fl = flat A ++ flat B;
  po_sorted : ∀ l r, sorted (l ++ (trace A ++ Sep s :: trace B) ++ r) → sorted (l ++ tr ++ r);
  po_chain : ∀ e, chain (links A ++ links B) e → chain lk e;
  po_first : ∀ e, first_leaf lk e = first_leaf (links A ++ links B) e
}.

(** The two ends of a walk around an entry that moves over its separator. *)
Lemma sorted_move_left (l r : list (item K)) (a : list (K * V)) (k s k2 : K) (b : list (item K)) :
  sorted (l ++ (map (λ e, Ent e.1) a ++ Sep s :: Ent k :: Ent k2 :: b) ++ r) →
  sorted (l ++ ((map (λ e, Ent e.1) a ++ [Ent k]) ++ Sep k2 :: Ent k2 :: b) ++ r).
Proof.
  intros Hs. rewrite <-!app_assoc in Hs. simpl in Hs.
  rewrite (app_assoc l) in Hs. apply sorted_drop in Hs.
  rewrite <-!app_assoc. simpl.
  replace (l ++ map (λ e, Ent e.1) a ++ Ent k :: Sep k2 :: Ent k2 :: b ++ r)
    with ((l ++ map (λ e, Ent e.1) a ++ [Ent k]) ++ Sep k2 :: Ent k2 :: b ++ r) by (by rewrite <-!app_assoc).
  replace ((l ++ map (λ e, Ent e.1) a) ++ Ent k :: Ent k2 :: b ++ r)
    with ((l ++ map (λ e, Ent e.1) a ++ [Ent k]) ++ Ent k2 :: b ++ r) in Hs by (by rewrite <-!app_assoc).
  apply sorted_put; [done| |].
  - apply sorted_cut in Hs as Hc. destruct Hc as [Hc _].
    rewrite app_assoc in Hs, Hc |- *. apply Forall_app in Hc as [_ Hk]. inversion_clear Hk as [|?? Hk' _].
    apply StronglySorted_app_1_l, sorted_cut in Hs as [Hb _].
    apply Forall_app. split; [|repeat constructor; exact Hk'].
    eapply Forall_impl; [exact Hb|]. intros x Hx. by transitivity (Ent k).
  - apply sorted_cut in Hs as [_ Hc]. constructor; [simpl; reflexivity|].
    eapply Forall_impl; [exact Hc|]. intros x Hx. destruct x; simpl in *; [by apply key_lt_le|done].
Qed.
Lemma sorted_move_right (l r : list (item K)) (a0 : K * V) (a : list (K * V)) (k s : K) (b : list (item K)) :
  sorted (l ++ (map (λ e, Ent e.1) ((a0 :: a)) ++ Ent k :: Sep s :: b) ++ r) →
  sorted (l ++ (map (λ e, Ent e.1) (a0 :: a) ++ Sep k :: Ent k :: b) ++ r).
Proof.
  intros Hs.
  replace (l ++ (map (λ e, Ent e.1) (a0 :: a) ++ Ent k :: Sep s :: b) ++ r)
    with ((l ++ map (λ e, Ent e.1) (a0 :: a) ++ [Ent k]) ++ Sep s :: b ++ r) in Hs by (by rewrite <-!app_assoc).
  apply sorted_drop in Hs.
  replace (l ++ (map (λ e, Ent e.1) (a0 :: a) ++ Sep k :: Ent k :: b) ++ r)
    with ((l ++ map (λ e, Ent e.1) (a0 :: a)) ++ Sep k :: Ent k :: b ++ r) by (by rewrite <-!app_assoc).
  replace ((l ++ map (λ e, Ent e.1) (a0 :: a) ++ [Ent k]) ++ b ++ r)
    with ((l ++ map (λ e, Ent e.1) (a0 :: a)) ++ Ent k :: b ++ r) in Hs by (by rewrite <-!app_assoc).
  apply sorted_put; [done| |].
  - apply sorted_cut in Hs as Hc. destruct Hc as [Hc _].
    apply Forall_app in Hc as [_ Hca]. pose proof Hca as Hca'. inversion_clear Hca as [|?? Hak _].
    simpl in Hs. rewrite <-app_assoc in Hs. simpl in Hs. apply sorted_cut in Hs as [Hla _].
    apply Forall_app. split.
    + eapply Forall_impl; [exact Hla|]. intros x Hx. by transitivity (Ent a0.1).
    + apply Forall_forall. intros x Hx. eapply Forall_forall in Hca'; [|exact Hx].
      apply list_elem_of_fmap in Hx as (e & -> & _). exact Hca'.
  - apply sorted_cut in Hs as [_ Hc]. constructor; [simpl; reflexivity|].
    eapply Forall_impl; [exact Hc|]. intros x Hx. destruct x; simpl in *; [by apply key_lt_le|done].
Qed.

(** ** Leaves *)

Lemma leaf_steal_right_pair pa na esA s pb nb k v k2 v2 esB :
  let A' := TLeaf pa na (esA ++ [(k, v)]) in
  let B' := TLeaf pb nb ((k2, v2) :: esB) in
  pair_ok (TLeaf pa na esA) s (TLeaf pb nb ((k, v) :: (k2, v2) :: esB)) []
    (trace A' ++ Sep k2 :: trace B') (flat A' ++ flat B') (foot A' ++ foot B') (links A' ++ links B').
Proof.
  split; simpl; try done.
  - by rewrite <-app_assoc.
  - intros l r Hs. rewrite map_app. simpl. exact (sorted_move_left l r esA k s k2 (map (λ e, Ent e.1) esB) Hs).
Qed.
Lemma leaf_steal_left_pair pa na a0 esA k v s pb nb esB :
  let A' := TLeaf pa na (a0 :: esA) in
  let B' := TLeaf pb nb ((k, v) :: esB) in
  pair_ok (TLeaf pa na ((a0 :: esA) ++ [(k, v)])) s (TLeaf pb nb esB) []
    (trace A' ++ Sep k :: trace B') (flat A' ++ flat B') (foot A' ++ foot B') (links A' ++ links B').
Proof.
  split; try done.
  - simpl. by rewrite <-app_assoc.
  - intros l r Hs. cbn [trace] in *. rewrite map_app in Hs.
    rewrite <-(app_assoc (map _ (a0 :: esA))) in Hs. exact (sorted_move_right l r a0 esA k s (map (λ e, Ent e.1) esB) Hs).
Qed.
Lemma leaf_merge_pair pa na esA s pb nb esB :
  let AB := TLeaf pa nb (esA ++ esB) in
  pair_ok (TLeaf pa na esA) s (TLeaf pb nb esB) [pb] (trace AB) (flat AB) (foot AB) (links AB).
Proof.
  split; simpl; try done.
  - apply Permutation_swap.
  - intros l r Hs. rewrite map_app. rewrite <-!app_assoc, (app_assoc l) in Hs |- *. by eapply sorted_drop.
  - by intros e (-> & -> & _).
Qed.

(** ** Internal nodes: the walk does not change at all *)

Lemma trace_head pid k c kids : trace (TNode pid ((k, c) :: kids)) = trace c ++ ktrace kids.
Proof. done. Qed.
Lemma foot_kids pid kids : foot (TNode pid kids) = pid :: kfoot kids.
Proof. done. Qed.
Lemma flat_kids pid kids : flat (TNode pid kids) = kflat kids.
Proof. done. Qed.
Lemma links_kids pid kids : links (TNode pid kids) = klinks kids.
Proof. done. Qed.

(** Moving children between two nodes, or to one, is a permutation of pages and nothing else. *)
Lemma pair_ok_exact A s B dead tr fl ft lk :
  trace A ++ Sep s :: trace B = tr → fl = flat A ++ flat B → links A ++ links B = lk →
  dead ++ ft ≡ₚ foot A ++ foot B → pair_ok A s B dead tr fl ft lk.
Proof. by intros <- -> <- Hp. Qed.

Lemma internal_steal_right_pair pa ka0 a0 kA s pb kb0 b0 kb1 b1 kB :
  let A' := TNode pa (((ka0, a0) :: kA) ++ [(s, b0)]) in
  let B' := TNode pb ((kb1, b1) :: kB) in
  pair_ok (TNode pa ((ka0, a0) :: kA)) s (TNode pb ((kb0, b0) :: (kb1, b1) :: kB)) []
    (trace A' ++ Sep kb1 :: trace B') (flat A' ++ flat B') (foot A' ++ foot B') (links A' ++ links B').
Proof.
  intros A' B'. unfold A', B'. apply pair_ok_exact.
  - rewrite <-app_comm_cons, !trace_head, ktrace_app, !ktrace_cons. simpl.
    rewrite app_nil_r, <-!app_assoc. done.
  - rewrite !flat_kids, kflat_app, !kflat_cons. simpl. rewrite app_nil_r, <-!app_assoc. done.
  - rewrite !links_kids, klinks_app, !klinks_cons. simpl. rewrite app_nil_r, <-!app_assoc. done.
  - rewrite !foot_kids, kfoot_app, !kfoot_cons. simpl. rewrite app_nil_r, <-!app_assoc.
    apply Permutation_skip. do 2 apply Permutation_app_head. symmetry. apply Permutation_middle.
Qed.
Lemma internal_steal_left_pair pa ka0 a0 kA kz z s pb kb0 kb0' b0 kB :
  let A' := TNode pa ((ka0, a0) :: kA) in
  let B' := TNode pb ((kb0', z) :: (s, b0) :: kB) in
  pair_ok (TNode pa (((ka0, a0) :: kA) ++ [(kz, z)])) s (TNode pb ((kb0, b0) :: kB)) []
    (trace A' ++ Sep kz :: trace B') (flat A' ++ flat B') (foot A' ++ foot B') (links A' ++ links B').
Proof.
  intros A' B'. unfold A', B'. apply pair_ok_exact.
  - rewrite <-app_comm_cons, !trace_head, ktrace_app, !ktrace_cons. simpl.
    rewrite app_nil_r, <-!app_assoc. done.
  - rewrite !flat_kids, kflat_app, !kflat_cons. simpl. rewrite app_nil_r, <-!app_assoc. done.
  - rewrite !links_kids, klinks_app, !klinks_cons. simpl. rewrite app_nil_r, <-!app_assoc. done.
  - rewrite !foot_kids, kfoot_app, !kfoot_cons. simpl. rewrite app_nil_r, <-!app_assoc.
    apply Permutation_skip. do 2 apply Permutation_app_head. apply Permutation_middle.
Qed.
Lemma internal_merge_pair pa ka0 a0 kA s pb kb0 b0 kB :
  let AB := TNode pa (((ka0, a0) :: kA) ++ (s, b0) :: kB) in
  pair_ok (TNode pa ((ka0, a0) :: kA)) s (TNode pb ((kb0, b0) :: kB)) [pb] (trace AB) (flat AB) (foot AB) (links AB).
Proof.
  intros AB. unfold AB. apply pair_ok_exact.
  - rewrite <-app_comm_cons, !trace_head, ktrace_app, !ktrace_cons. by rewrite <-!app_assoc.
  - rewrite !flat_kids, kflat_app, !kflat_cons. by rewrite <-!app_assoc.
  - rewrite !links_kids, klinks_app, !klinks_cons. by rewrite <-!app_assoc.
  - rewrite !foot_kids, kfoot_app, !kfoot_cons. simpl. rewrite <-!app_assoc.
    rewrite Permutation_swap. apply Permutation_skip.
    rewrite !app_assoc. rewrite <-(app_assoc _ (foot b0)). apply Permutation_middle.
Qed.

(** ** What the code computes *)

(** The parent's slots around the pair. *)
Section pair_pages.
Context (imx : Z) (kl : list (K * Tree)) (ka : K) (A : Tree) (s : K) (B : Tree) (kr : list (K * Tree)).
Context (pp : BPlusTreeInternalPage K).
Context (Hpp : node_is imx (slots_of (kl ++ (ka, A) :: (s, B) :: kr)) pp).

Lemma pair_slots : slots_of (kl ++ (ka, A) :: (s, B) :: kr) =
  (slots_of kl ++ [(ka, tpid A)]) ++ (s, tpid B) :: slots_of kr.
Proof. by rewrite slots_of_app, <-app_assoc. Qed.
Lemma pair_sep : KeyAt pp (Z.of_nat (length kl) + 1) = Ok s.
Proof.
  eapply node_KeyAt; [exact Hpp|exact pair_slots|]. rewrite length_app, slots_of_length. simpl. lia.
Qed.
Lemma pair_set s' A' B' : tpid A' = tpid A → tpid B' = tpid B →
  ∃ pp', SetKeyAt (Z.of_nat (length kl) + 1) s' pp = Ok pp' ∧
    node_is imx (slots_of (kl ++ (ka, A') :: (s', B') :: kr)) pp'.
Proof.
  intros EA EB.
  destruct (node_SetKeyAt _ _ _ _ _ _ _ (Z.of_nat (length kl) + 1) s' Hpp pair_slots) as (pp' & E & Hpp').
  { rewrite length_app, slots_of_length. simpl. lia. }
  exists pp'. split; [done|]. rewrite slots_of_app. simpl. rewrite EA, EB.
  rewrite <-app_assoc in Hpp'. exact Hpp'.
Qed.
Lemma pair_remove AB : tpid AB = tpid A →
  ∃ pp', internal_RemoveAt (Z.of_nat (length kl) + 1) pp = Ok pp' ∧
    node_is imx (slots_of (kl ++ (ka, AB) :: kr)) pp'.
Proof.
  intros EA. unfold internal_RemoveAt.
  destruct (node_RemoveAt_ok _ _ _ _ _ _ (Z.of_nat (length kl) + 1) Hpp pair_slots) as (pp' & E & Hpp').
  { rewrite length_app, slots_of_length. simpl. lia. }
  exists pp'. split; [done|]. rewrite slots_of_app. simpl. rewrite EA.
  rewrite <-app_assoc in Hpp'. exact Hpp'.
Qed.
End pair_pages.

(** [pg] is the page of the top node of [t]. *)
Definition top_is (d : nat) (pg : IndexPage K V) (t : Tree) : Prop :=
  match d, t with
  | O, TLeaf _ next es => ∃ p, pg = LeafNode p ∧ leaf_is (leaf_max_size_ T) es next p
  | S _, TNode _ kids => ∃ p, pg = InternalNode p ∧ node_is (internal_max_size_ T) (slots_of kids) p
  | _, _ => False
  end.
Definition kids_of (t : Tree) : list Tree :=
  match t with TLeaf _ _ _ => [] | TNode _ kids => map snd kids end.

#[local] Abbreviation well_sized := (bal T (min_leaf T) (min_internal T)).

(** The outcome of [StealOrMergeNodes] for the adjacent children [A], [B] of a node: the page that
    died, the new pages of [A], of the node and of [B], and the node's children. *)
Inductive som_out (d : nat) (kl : list (K * Tree)) (ka : K) A (s : K) B (kr : list (K * Tree))
    : Z → IndexPage K V → BPlusTreeInternalPage K → IndexPage K V → list (K * Tree) → Prop :=
  | som_steal A' s' B' pgA pp pgB :
      tpid A' = tpid A → tpid B' = tpid B →
      pair_ok A s B [] (trace A' ++ Sep s' :: trace B') (flat A' ++ flat B') (foot A' ++ foot B') (links A' ++ links B') →
      top_is d pgA A' → top_is d pgB B' →
      node_is (internal_max_size_ T) (slots_of (kl ++ (ka, A') :: (s', B') :: kr)) pp →
      (∀ x, x ∈ kids_of A' ++ kids_of B' → x ∈ kids_of A ++ kids_of B) →
      well_sized d A' → well_sized d B' →
      som_out d kl ka A s B kr INVALID_PAGE_ID pgA pp pgB (kl ++ (ka, A') :: (s', B') :: kr)
  | som_merge AB pgA pp pgB :
      tpid AB = tpid A → pair_ok A s B [tpid B] (trace AB) (flat AB) (foot AB) (links AB) →
      top_is d pgA AB →
      node_is (internal_max_size_ T) (slots_of (kl ++ (ka, AB) :: kr)) pp →
      (∀ x, x ∈ kids_of AB → x ∈ kids_of A ++ kids_of B) →
      well_sized d AB →
      som_out d kl ka A s B kr (tpid B) pgA pp pgB (kl ++ (ka, AB) :: kr).

Context (Hgs : good_sizes T).

(** *** Leaves *)

Section leaf_som.
Context (kl : list (K * Tree)) (ka : K) (pa na : Z) (esA : list (K * V)) (s : K) (pb nb : Z) (esB : list (K * V)).
Context (kr : list (K * Tree)) (pp : BPlusTreeInternalPage K) (pA pB : BPlusTreeLeafPage K V).
#[local] Abbreviation A := (TLeaf pa na esA).
#[local] Abbreviation B := (TLeaf pb nb esB).
Context (Hpp : node_is (internal_max_size_ T) (slots_of (kl ++ (ka, A) :: (s, B) :: kr)) pp).
Context (HA : leaf_is (leaf_max_size_ T) esA na pA) (HB : leaf_is (leaf_max_size_ T) esB nb pB).

Lemma leaf_merge_out pgA pp' pgB p' :
  pgA = LeafNode p' → leaf_is (leaf_max_size_ T) (esA ++ esB) nb p' →
  node_is (internal_max_size_ T) (slots_of (kl ++ (ka, TLeaf pa nb (esA ++ esB)) :: kr)) pp' →
  min_leaf T ≤ Z.of_nat (length (esA ++ esB)) →
  som_out 0 kl ka A s B kr pb pgA pp' pgB (kl ++ (ka, TLeaf pa nb (esA ++ esB)) :: kr).
Proof.
  intros -> Hp' Hpp' Hmin.
  apply (som_merge 0 kl ka A s B kr (TLeaf pa nb (esA ++ esB))); try done.
  - apply leaf_merge_pair.
  - by exists p'.
  - simpl. destruct Hp' as [(_ & _ & ? & _) _]. lia.
Qed.

(** The right node underflowed; its left sibling is [sib]. *)
Lemma leaf_som_left :
  Z.of_nat (length esB) + 1 = min_leaf T → min_leaf T ≤ Z.of_nat (length esA) →
  ∃ dead pA' pp' pB' kids',
    StealOrMergeNodes leaf_StealValues leaf_InsertAllValues pB pb pp pA pa (Z.of_nat (length kl) + 1) true
      = Ok (dead, pB', pp', pA') ∧
    som_out 0 kl ka A s B kr dead (LeafNode pA') pp' (LeafNode pB') kids'.
Proof.
  intros HlB HlA. destruct (min_leaf_pos T Hgs) as [Hm1 Hm2]. unfold StealOrMergeNodes.
  rewrite (pair_sep _ _ _ _ _ _ _ _ Hpp). cbn [mbind result_bind].
  destruct (decide (Z.of_nat (length esA) ≤ min_leaf T)) as [Hle|Hgt].
  - rewrite (leaf_StealValues_none _ _ _ _ _ _ _ _ _ _ HB HA Hle). cbn [mbind result_bind].
    destruct (leaf_InsertAllValues_ok _ _ _ _ _ _ _ _ s HA HB) as (pA' & -> & HA'); [lia|].
    cbn [mbind result_bind].
    destruct (pair_remove _ _ _ _ _ _ _ _ Hpp (TLeaf pa nb (esA ++ esB)) eq_refl) as (pp' & -> & Hpp').
    cbn [mbind result_bind]. do 5 eexists. split; [done|].
    eapply leaf_merge_out; [done|done|done|]. rewrite length_app. lia.
  - destruct (exists_last (l := esA)) as (l & [k v] & El); [intros ->; simpl in *; lia|].
    rewrite El in *. destruct l as [|a0 l]; [simpl in *; lia|]. rewrite length_app in HlA, Hgt. simpl in HlA, Hgt.
    destruct (leaf_StealValues_left _ _ _ _ (a0 :: l) k v _ _ s HB HA) as (pB' & pA' & -> & HB' & HA');
      [unfold min_leaf in *; lia|unfold min_leaf in *; rewrite length_app; simpl; lia|].
    cbn [mbind result_bind].
    destruct (pair_set _ _ _ _ _ _ _ _ Hpp k (TLeaf pa na (a0 :: l)) (TLeaf pb nb ((k, v) :: esB)) eq_refl eq_refl)
      as (pp' & -> & Hpp'). cbn [mbind result_bind]. do 5 eexists. split; [done|].
    apply (som_steal 0 kl ka _ s _ kr (TLeaf pa na (a0 :: l)) k (TLeaf pb nb ((k, v) :: esB))); try done.
    + apply (leaf_steal_left_pair pa na a0 l k v s pb nb esB).
    + by exists pA'.
    + by exists pB'.
    + destruct HA' as [(_ & _ & ? & _) _]. simpl in *. lia.
    + destruct HB' as [(_ & _ & ? & _) _]. simpl in *. lia.
Qed.

(** The left node underflowed; its right sibling is [sib]. *)
Lemma leaf_som_right :
  Z.of_nat (length esA) + 1 = min_leaf T → min_leaf T ≤ Z.of_nat (length esB) →
  ∃ dead pA' pp' pB' kids',
    StealOrMergeNodes leaf_StealValues leaf_InsertAllValues pA pa pp pB pb (Z.of_nat (length kl)) false
      = Ok (dead, pA', pp', pB') ∧
    som_out 0 kl ka A s B kr dead (LeafNode pA') pp' (LeafNode pB') kids'.
Proof.
  intros HlA HlB. destruct (min_leaf_pos T Hgs) as [Hm1 Hm2]. unfold StealOrMergeNodes.
  rewrite (pair_sep _ _ _ _ _ _ _ _ Hpp). cbn [mbind result_bind].
  destruct (decide (Z.of_nat (length esB) ≤ min_leaf T)) as [Hle|Hgt].
  - rewrite (leaf_StealValues_none _ _ _ _ _ _ _ _ _ _ HA HB Hle). cbn [mbind result_bind].
    destruct (leaf_InsertAllValues_ok _ _ _ _ _ _ _ _ s HA HB) as (pA' & -> & HA'); [lia|].
    cbn [mbind result_bind].
    destruct (pair_remove _ _ _ _ _ _ _ _ Hpp (TLeaf pa nb (esA ++ esB)) eq_refl) as (pp' & -> & Hpp').
    cbn [mbind result_bind]. do 5 eexists. split; [done|].
    eapply leaf_merge_out; [done|done|done|]. rewrite length_app. lia.
  - destruct esB as [|[k v] [|[k2 v2] l]]; [simpl in *; lia..|].
    destruct (leaf_StealValues_right _ _ _ _ k v k2 v2 l _ _ s HA HB) as (pA' & pB' & -> & HA' & HB');
      [unfold min_leaf in *; lia|unfold min_leaf in *; simpl in *; lia|].
    cbn [mbind result_bind].
    destruct (pair_set _ _ _ _ _ _ _ _ Hpp k2 (TLeaf pa na (esA ++ [(k, v)])) (TLeaf pb nb ((k2, v2) :: l)) eq_refl eq_refl)
      as (pp' & -> & Hpp'). cbn [mbind result_bind]. do 5 eexists. split; [done|].
    apply (som_steal 0 kl ka _ s _ kr (TLeaf pa na (esA ++ [(k, v)])) k2 (TLeaf pb nb ((k2, v2) :: l))); try done.
    + apply leaf_steal_right_pair.
    + by exists pA'.
    + by exists pB'.
    + destruct HA' as [(_ & _ & ? & _) _]. simpl in *. rewrite length_app in *. simpl in *. lia.
    + destruct HB' as [(_ & _ & ? & _) _]. simpl in *. lia.
Qed.
End leaf_som.

(** *** Internal nodes *)

Lemma internal_merge_out d kl ka pa kA s pb kB kr ka0 a0 kA' kb0 b0 kB' pgA pp' pgB p' :
  Forall (λ kc, well_sized d kc.2) kA → Forall (λ kc, well_sized d kc.2) kB →
  kA = (ka0, a0) :: kA' → kB = (kb0, b0) :: kB' →
  pgA = InternalNode p' → node_is (internal_max_size_ T) (slots_of (kA ++ (s, b0) :: kB')) p' →
  node_is (internal_max_size_ T) (slots_of (kl ++ (ka, TNode pa (kA ++ (s, b0) :: kB')) :: kr)) pp' →
  min_internal T ≤ Z.of_nat (length (kA ++ (s, b0) :: kB')) →
  som_out (S d) kl ka (TNode pa kA) s (TNode pb kB) kr pb pgA pp' pgB (kl ++ (ka, TNode pa (kA ++ (s, b0) :: kB')) :: kr).
Proof.
  intros HkA HkB EA EB -> Hp' Hpp' Hmin.
  apply (som_merge (S d) kl ka (TNode pa kA) s (TNode pb kB) kr (TNode pa (kA ++ (s, b0) :: kB'))); try done.
  - rewrite EA, EB. apply internal_merge_pair.
  - by exists p'.
  - intros x. simpl. rewrite EB, map_app. simpl. done.
  - split.
    { destruct Hp' as (_ & _ & ? & _). rewrite slots_of_length in *. lia. }
    rewrite EB in HkB. inversion_clear HkB as [|?? Hb0 HkB']. apply Forall_app. split; [done|]. by constructor.
Qed.

Section internal_som.
Context (d : nat) (kl : list (K * Tree)) (ka : K) (pa : Z) (kA : list (K * Tree)) (s : K) (pb : Z) (kB : list (K * Tree)).
Context (kr : list (K * Tree)) (pp pA pB : BPlusTreeInternalPage K).
#[local] Abbreviation A := (TNode pa kA).
#[local] Abbreviation B := (TNode pb kB).
Context (Hpp : node_is (internal_max_size_ T) (slots_of (kl ++ (ka, A) :: (s, B) :: kr)) pp).
Context (HA : node_is (internal_max_size_ T) (slots_of kA) pA) (HB : node_is (internal_max_size_ T) (slots_of kB) pB).
Context (HkA : Forall (λ kc, well_sized d kc.2) kA) (HkB : Forall (λ kc, well_sized d kc.2) kB).

Lemma internal_som_left :
  Z.of_nat (length kB) + 1 = min_internal T → min_internal T ≤ Z.of_nat (length kA) →
  ∃ dead pA' pp' pB' kids',
    StealOrMergeNodes internal_StealValues internal_InsertAllValues pB pb pp pA pa (Z.of_nat (length kl) + 1) true
      = Ok (dead, pB', pp', pA') ∧
    som_out (S d) kl ka A s B kr dead (InternalNode pA') pp' (InternalNode pB') kids'.
Proof.
  intros HlB HlA. destruct (min_internal_pos T Hgs) as [Hm1 Hm2]. unfold StealOrMergeNodes.
  rewrite (pair_sep _ _ _ _ _ _ _ _ Hpp). cbn [mbind result_bind].
  destruct kB as [|[kb0 b0] kB'] eqn:EkB; [simpl in *; lia|].
  destruct (decide (Z.of_nat (length kA) ≤ min_internal T)) as [Hle|Hgt].
  - rewrite (internal_StealValues_none _ _ _ _ _ _ HA) by (by rewrite slots_of_length). cbn [mbind result_bind].
    destruct (internal_InsertAllValues_ok _ _ _ _ kb0 (tpid b0) (slots_of kB') _ s HA HB) as (pA' & -> & HA').
    { simpl. rewrite !slots_of_length. simpl in HlB. lia. }
    cbn [mbind result_bind].
    destruct (pair_remove _ _ _ _ _ _ _ _ Hpp (TNode pa (kA ++ (s, b0) :: kB')) eq_refl) as (pp' & -> & Hpp').
    cbn [mbind result_bind]. do 5 eexists. split; [done|].
    destruct kA as [|[ka0 a0] kA'] eqn:EkA; [simpl in *; lia|]. rewrite <-EkA, <-EkB in *.
    eapply internal_merge_out; [done|done|done|done|done| |done|].
    + by rewrite slots_of_app.
    + rewrite length_app. simpl. lia.
  - destruct (exists_last (l := kA)) as (l & [kz z] & El); [intros ->; simpl in *; lia|].
    rewrite El in *. destruct l as [|[ka0 a0] l]; [simpl in *; lia|]. rewrite length_app in HlA, Hgt. simpl in HlA, Hgt.
    rewrite slots_of_app in HA.
    destruct (internal_StealValues_left _ kb0 (tpid b0) (slots_of kB') _ (slots_of ((ka0, a0) :: l)) kz (tpid z) _ s HB HA)
      as (kb0' & pB' & pA' & -> & HB' & HA').
    { simpl. rewrite slots_of_length. simpl in HlB. lia. }
    { unfold min_internal in *. rewrite length_app, slots_of_length. simpl. lia. }
    cbn [mbind result_bind].
    destruct (pair_set _ _ _ _ _ _ _ _ Hpp kz (TNode pa ((ka0, a0) :: l)) (TNode pb ((kb0', z) :: (s, b0) :: kB')) eq_refl eq_refl)
      as (pp' & -> & Hpp'). cbn [mbind result_bind]. do 5 eexists. split; [done|].
    apply Forall_app in HkA as [HkA1 HkA2]. apply Forall_cons in HkA2 as [Hz _]. apply Forall_cons in HkB as [Hb0 HkB'].
    apply (som_steal (S d) kl ka _ s _ kr (TNode pa ((ka0, a0) :: l)) kz (TNode pb ((kb0', z) :: (s, b0) :: kB'))); try done.
    + apply (internal_steal_left_pair pa ka0 a0 l kz z s pb kb0 kb0' b0 kB').
    + by exists pA'.
    + by exists pB'.
    + intros x. cbn [kids_of]. rewrite map_app. simpl. set_solver.
    + destruct HA' as (_ & _ & ? & _). rewrite slots_of_length in *. split; [simpl in *; lia|done].
    + destruct HB' as (_ & _ & Hsz & _). simpl in Hsz, HlB. rewrite slots_of_length in Hsz.
      split; [simpl; lia|]. by repeat constructor.
Qed.

Lemma internal_som_right :
  Z.of_nat (length kA) + 1 = min_internal T → min_internal T ≤ Z.of_nat (length kB) →
  ∃ dead pA' pp' pB' kids',
    StealOrMergeNodes internal_StealValues internal_InsertAllValues pA pa pp pB pb (Z.of_nat (length kl)) false
      = Ok (dead, pA', pp', pB') ∧
    som_out (S d) kl ka A s B kr dead (InternalNode pA') pp' (InternalNode pB') kids'.
Proof.
  intros HlA HlB. destruct (min_internal_pos T Hgs) as [Hm1 Hm2]. unfold StealOrMergeNodes.
  rewrite (pair_sep _ _ _ _ _ _ _ _ Hpp). cbn [mbind result_bind].
  destruct kA as [|[ka0 a0] kA'] eqn:EkA; [simpl in *; lia|].
  destruct kB as [|[kb0 b0] kB'] eqn:EkB; [simpl in *; lia|].
  destruct (decide (Z.of_nat (length kB) ≤ min_internal T)) as [Hle|Hgt]; rewrite EkB in *.
  - rewrite (internal_StealValues_none _ _ _ _ _ _ HB) by (by rewrite slots_of_length). cbn [mbind result_bind].
    destruct (internal_InsertAllValues_ok _ _ _ _ kb0 (tpid b0) (slots_of kB') _ s HA HB) as (pA' & -> & HA').
    { simpl in *. rewrite !slots_of_length. lia. }
    cbn [mbind result_bind].
    destruct (pair_remove _ _ _ _ _ _ _ _ Hpp (TNode pa (kA ++ (s, b0) :: kB'))) as (pp' & -> & Hpp'); [done|].
    cbn [mbind result_bind]. do 5 eexists. split; [done|]. rewrite <-EkA, <-EkB in *.
    eapply internal_merge_out; [done|done|done|done|done| |done|].
    + by rewrite slots_of_app.
    + rewrite length_app, EkA, EkB in *. simpl in *. lia.
  - destruct kB' as [|[kb1 b1] kB']; [simpl in *; lia|].
    destruct (internal_StealValues_right _ _ _ kb0 (tpid b0) kb1 (tpid b1) (slots_of kB') _ s HA HB)
      as (pA' & pB' & -> & HA' & HB').
    { rewrite slots_of_length. lia. }
    { unfold min_internal in *. simpl in *. rewrite slots_of_length. lia. }
    cbn [mbind result_bind].
    destruct (pair_set _ _ _ _ _ _ _ _ Hpp kb1 (TNode pa (((ka0, a0) :: kA') ++ [(s, b0)])) (TNode pb ((kb1, b1) :: kB')) eq_refl eq_refl)
      as (pp' & -> & Hpp'). cbn [mbind result_bind]. do 5 eexists. split; [done|].
    apply Forall_cons in HkB as [Hb0 HkB1].
    apply (som_steal (S d) kl ka _ s _ kr (TNode pa (((ka0, a0) :: kA') ++ [(s, b0)])) kb1 (TNode pb ((kb1, b1) :: kB'))); try done.
    + apply (internal_steal_right_pair pa ka0 a0 kA' s pb kb0 b0 kb1 b1 kB').
    + exists pA'. by rewrite slots_of_app.
    + by exists pB'.
    + intros x. cbn [kids_of]. rewrite map_app. simpl. set_solver.
    + destruct HA' as (_ & _ & Hsz & _). rewrite length_app, slots_of_length in Hsz. simpl in Hsz.
      split; [rewrite length_app; simpl in *; lia|]. apply Forall_app. split; [done|]. by repeat constructor.
    + destruct HB' as (_ & _ & Hsz & _). simpl in Hsz. rewrite slots_of_length in Hsz.
      split; [simpl in *; lia|done].
Qed.
End internal_som.
End rebalance.
