(* ===== verification/BTreeDelete.v ===== *)
(** * Removal from a B+ tree

    [RecursiveDelete_ok]: on a well-formed subtree the recursion reports an absent key, or removes the
    entry and is done, or has also rebalanced the parent at the back of the write set, in which case
    the caller looks at the parent next.  [changed] is what these share about order, footprint, freed
    pages, leaf chain and the pages outside the subtree. *)

From stdpp Require Import sorting.
From S2P Require Import Prelude TablePage TableHeap BTreePage BPlusTree BTreeInvariant BTreeInsert BTreeRebalance.

(** ** What a removal keeps *)

Section changed.
Context {K V : Type} `{!KeyComparator K, !KeyOrder K, !Inhabited K, !Inhabited V} (T : BPlusTree).
#[local] Abbreviation Tree := (tree K V).
#[local] Abbreviation IdxStore := (Store (IndexPage K V)).
#[local] Abbreviation sorted := (StronglySorted (item_lt (K:=K))).
#[local] Abbreviation well_sized := (bal T (min_leaf T) (min_internal T)).
Implicit Types (t c A B : Tree) (kids : list (K * Tree)) (st : IdxStore).

(** [R] relates the entries before and after. *)
Record changed (R : list (K * V) → list (K * V) → Prop) (l r : list (item K)) (e : Z) t st st'
    (tr : list (item K)) (fl : list (K * V)) (ft : list Z) (lk : list (Z * Z)) : Prop := mkChanged {
  c_store : store_ok st';
  c_nodup : NoDup ft;
  c_foot : ∀ q, q ∈ ft → q ∈ foot t;
  c_dead : ∀ q, q ∈ foot t → q ∉ ft → st_pages st' !! q = None;
  c_frame : ∀ q, q ∉ foot t → st_pages st' !! q = st_pages st !! q;
  c_sorted : sorted (l ++ tr ++ r);
  c_flat : R (flat t) fl;
  c_chain : chain lk e;
  c_first : ∀ e', first_leaf lk e' = first_leaf (links t) e'
}.

(** One entry with this key is gone. *)
Definition removes (key : K) (es es' : list (K * V)) : Prop :=
  ∃ a k v b, es = a ++ (k, v) :: b ∧ comparator k key = 0 ∧ es' = a ++ b.
Lemma removes_context key x es es' y : removes key es es' → removes key (x ++ es ++ y) (x ++ es' ++ y).
Proof.
  intros (a & k & v & b & -> & Hc & ->). exists (x ++ a), k, v, (b ++ y). by rewrite <-!app_assoc.
Qed.

Lemma changed_trans R l r e t st st1 t1 st2 tr fl ft lk :
  changed R l r e t st st1 (trace t1) (flat t1) (foot t1) (links t1) →
  changed eq l r e t1 st1 st2 tr fl ft lk → changed R l r e t st st2 tr fl ft lk.
Proof.
  intros [] []. split; try done.
  - auto.
  - intros q Hq Hn. destruct (decide (q ∈ foot t1)); [auto|]. rewrite c_frame1 by done. auto.
  - intros q Hq. rewrite c_frame1, c_frame0; [done|done|]. auto.
  - by subst.
  - intros e'. by rewrite c_first1, c_first0.
Qed.

(** From a child to its node. *)
Lemma changed_lift R l r e pid kl k c kr st st' tr fl ft lk :
  (∀ x es es' y, R es es' → R (x ++ es ++ y) (x ++ es' ++ y)) →
  NoDup (foot (TNode pid (kl ++ (k, c) :: kr))) → chain (links (TNode pid (kl ++ (k, c) :: kr))) e →
  changed R (l ++ pre kl k) (ktrace kr ++ r) (first_leaf (klinks kr) e) c st st' tr fl ft lk →
  changed R l r e (TNode pid (kl ++ (k, c) :: kr)) st st'
    (pre kl k ++ tr ++ ktrace kr) (kflat kl ++ fl ++ kflat kr)
    (pid :: kfoot kl ++ ft ++ kfoot kr) (klinks kl ++ lk ++ klinks kr).
Proof.
  intros HR Hnd Hch []. rewrite foot_node in Hnd. rewrite links_node in Hch.
  apply NoDup_cons in Hnd as [Hpid Hnd]. apply NoDup_app in Hnd as (Hnl & Hdl & Hnd).
  apply NoDup_app in Hnd as (Hnc & Hdc & Hnr). rewrite !elem_of_app in Hpid. setoid_rewrite elem_of_app in Hdl.
  split; rewrite ?foot_node, ?flat_node; try done.
  - apply NoDup_cons. rewrite !elem_of_app. split; [naive_solver|].
    apply NoDup_app. split_and!; [done| |apply NoDup_app; split_and!; [done|naive_solver|done]].
    intros q Hq. rewrite elem_of_app. naive_solver.
  - intros q. rewrite !elem_of_cons, !elem_of_app. naive_solver.
  - intros q. rewrite !elem_of_cons, !elem_of_app. intros Hq Hn. apply c_dead0; naive_solver.
  - intros q. rewrite !elem_of_cons, !elem_of_app. intros Hn. apply c_frame0. naive_solver.
  - rewrite <-!app_assoc in c_sorted0. by rewrite <-!app_assoc.
  - by apply HR.
  - apply chain_app in Hch as [Hch1 Hch2]. apply chain_app in Hch2 as [Hch2 Hch3].
    apply chain_app. split; [|by apply chain_app]. rewrite first_leaf_app in *. by rewrite c_first0.
  - intros e'. by rewrite links_node, !first_leaf_app, c_first0.
Qed.

(** The siblings are still where they were. *)
Lemma changed_siblings R l r e pid kl k c kr d st st' tr fl ft lk :
  NoDup (foot (TNode pid (kl ++ (k, c) :: kr))) →
  Forall (λ kc, rep T d (st_pages st) kc.2) (kl ++ (k, c) :: kr) →
  changed R l r e c st st' tr fl ft lk →
  Forall (λ kc, rep T d (st_pages st') kc.2) kl ∧ Forall (λ kc, rep T d (st_pages st') kc.2) kr.
Proof.
  intros Hnd Hrep [].
  rewrite foot_node in Hnd.
  apply NoDup_cons in Hnd as [_ Hnd]. apply NoDup_app in Hnd as (_ & Hdl & Hnd).
  apply NoDup_app in Hnd as (_ & Hdc & _). setoid_rewrite elem_of_app in Hdl.
  apply Forall_kid in Hrep as (Hl & _ & Hr).
  rewrite !Forall_forall in *.
  split; intros [k1 c1] Hkc; (eapply rep_frame; [by eauto|]); intros q Hq; apply c_frame0; intros Hc;
    assert (∀ kids, (k1, c1) ∈ kids → q ∈ kfoot kids) as Hk by (intros kids ?; apply elem_of_kfoot; eauto);
    naive_solver.
Qed.

(** ** The store after a pair was rebalanced *)

Lemma rep_top d m pg t :
  top_is T d pg t → m !! tpid t = Some pg → (∀ x, x ∈ kids_of t → rep T (pred d) m x) → rep T d m t.
Proof.
  destruct d, t; try done; simpl.
  - intros (p & -> & Hp) Hm _. by exists p.
  - intros (p & -> & Hp) Hm Hk. split; [by exists p|]. apply Forall_forall. intros kc Hkc.
    apply Hk. apply list_elem_of_fmap. eauto.
Qed.
Lemma rep_kids d m t x : rep T d m t → x ∈ kids_of t → rep T (pred d) m x ∧ ∀ q, q ∈ foot x → q ∈ tail (foot t).
Proof.
  destruct d, t as [|pid kids]; try done; simpl; intros Hr Hx.
  { by apply elem_of_nil in Hx. }
  apply list_elem_of_fmap in Hx as ([k c] & -> & Hin). destruct Hr as [_ Hk]. rewrite Forall_forall in Hk.
  split; [by apply (Hk _ Hin)|]. intros q Hq. fold (kfoot kids). apply elem_of_kfoot. eauto.
Qed.
Lemma foot_head t : foot t = tpid t :: tail (foot t).
Proof. by destruct t. Qed.

Section pair_store.
Context (d : nat) (l r : list (item K)) (e ppid : Z).
Context (kl : list (K * Tree)) (ka : K) (A : Tree) (s : K) (B : Tree) (kr : list (K * Tree)) (st1 st2 : IdxStore).
#[local] Abbreviation P1 := (TNode ppid (kl ++ (ka, A) :: (s, B) :: kr)).
Context (Hok1 : store_ok st1) (Hrep : rep T (S d) (st_pages st1) P1) (Hnd : NoDup (foot P1)).
Context (Hsorted : sorted (l ++ trace P1 ++ r)) (Hch : chain (links P1) e).
Context (pgA pgB : IndexPage K V) (pp : BPlusTreeInternalPage K) (dead : Z).
Context (Hok2 : store_ok st2).
Context (HpA : st_pages st2 !! tpid A = Some pgA) (Hpp : st_pages st2 !! ppid = Some (InternalNode pp)).
Context (HpB : st_pages st2 !! tpid B = if bool_decide (dead = INVALID_PAGE_ID) then Some pgB else None).
Context (Hframe : ∀ q, q ≠ tpid A → q ≠ tpid B → q ≠ ppid → st_pages st2 !! q = st_pages st1 !! q).

Lemma pair_distinct :
  NoDup (foot A ++ foot B) ∧ (ppid ∉ foot A ++ foot B) ∧
  (∀ q, q ∈ kfoot kl ∨ q ∈ kfoot kr → (q ∉ foot A) ∧ (q ∉ foot B) ∧ q ≠ ppid).
Proof.
  clear -Hnd. pose proof Hnd as Hnd'. rewrite foot_node, kfoot_cons in Hnd'.
  apply NoDup_cons in Hnd' as [Hp Hn]. apply NoDup_app in Hn as (Hnl & Hdl & Hn).
  rewrite app_assoc in Hn. apply NoDup_app in Hn as (Hab & Hdr & Hnr).
  rewrite !elem_of_app in Hp. repeat setoid_rewrite elem_of_app in Hdl. setoid_rewrite elem_of_app in Hdr.
  split_and!; [done|rewrite elem_of_app; naive_solver|].
  intros q Hq. split_and!; [naive_solver..|]. intros ->. naive_solver.
Qed.

(** A node made of children of [A] and [B], with its page in place. *)
Lemma pair_rep X pg :
  top_is T d pg X → st_pages st2 !! tpid X = Some pg →
  (∀ x, x ∈ kids_of X → x ∈ kids_of A ++ kids_of B) → rep T d (st_pages st2) X.
Proof.
  intros Ht Hp Hk. eapply rep_top; [done|done|]. intros x Hx. apply Hk in Hx.
  destruct Hrep as [_ Hkids]. apply Forall_kid in Hkids as (_ & HA & HB).
  apply Forall_cons in HB as [HB _]. simpl in HA, HB.
  destruct pair_distinct as (Hab & Hp' & _). apply NoDup_app in Hab as (HnA & Hdab & HnB).
  rewrite elem_of_app in Hp'. pose proof HnA as HnA'. pose proof HnB as HnB'.
  rewrite foot_head in HnA', HnB'. apply NoDup_cons in HnA' as [HA0 _]. apply NoDup_cons in HnB' as [HB0 _].
  assert (tpid A ∈ foot A) by apply tpid_foot. assert (tpid B ∈ foot B) by apply tpid_foot.
  apply elem_of_app in Hx as [Hx|Hx].
  - destruct (rep_kids _ _ _ _ HA Hx) as [Hr Hf]. eapply rep_frame; [exact Hr|]. intros q Hq.
    apply Hf in Hq. assert (q ∈ foot A) by (rewrite foot_head; by right).
    apply Hframe; intros ->; naive_solver.
  - destruct (rep_kids _ _ _ _ HB Hx) as [Hr Hf]. eapply rep_frame; [exact Hr|]. intros q Hq.
    apply Hf in Hq. assert (q ∈ foot B) by (rewrite foot_head; by right).
    apply Hframe; intros ->; naive_solver.
Qed.

Lemma pair_outer_kids :
  Forall (λ kc, rep T d (st_pages st2) kc.2) kl ∧ Forall (λ kc, rep T d (st_pages st2) kc.2) kr.
Proof.
  destruct Hrep as [_ Hkids]. apply Forall_kid in Hkids as (Hl & _ & Hr). apply Forall_cons in Hr as [_ Hr].
  destruct pair_distinct as (_ & _ & Hout).
  assert (tpid A ∈ foot A) by apply tpid_foot. assert (tpid B ∈ foot B) by apply tpid_foot.
  assert (∀ x, (∀ q, q ∈ foot x → q ∈ kfoot kl ∨ q ∈ kfoot kr) → rep T d (st_pages st1) x →
    rep T d (st_pages st2) x) as Hone.
  { intros x Hx Hrx. eapply rep_frame; [exact Hrx|]. intros q [? [? ?]]%Hx%Hout.
    apply Hframe; congruence. }
  split; apply Forall_forall; intros [k1 c1] Hkc; (apply Hone; [intros q Hq; rewrite !elem_of_kfoot; eauto|]).
  - by eapply Forall_forall in Hl; [|exact Hkc].
  - by eapply Forall_forall in Hr; [|exact Hkc].
Qed.

(** The parts of [changed] that do not depend on the shape of the outcome. *)
Lemma pair_changed deads tr fl ft lk :
  pair_ok A s B deads tr fl ft lk → (∀ q, q ∈ deads → st_pages st2 !! q = None) →
  changed eq l r e P1 st1 st2 (pre kl ka ++ tr ++ ktrace kr) (kflat kl ++ fl ++ kflat kr)
    (ppid :: kfoot kl ++ ft ++ kfoot kr) (klinks kl ++ lk ++ klinks kr).
Proof.
  intros [Hft Hfl Hso Hchn Hfst] Hdead. destruct pair_distinct as (Hab & Hp' & Hout).
  assert (tpid A ∈ foot A) by apply tpid_foot. assert (tpid B ∈ foot B) by apply tpid_foot.
  assert (∀ q, q ∈ foot A ∨ q ∈ foot B ↔ q ∈ deads ∨ q ∈ ft) as Hin.
  { intros q. by rewrite <-!elem_of_app, Hft. }
  pose proof Hnd as Hnd'. rewrite foot_node, kfoot_cons in Hnd'.
  split; rewrite ?foot_node, ?flat_node, ?kfoot_cons, ?kflat_cons; try done.
  - apply NoDup_cons in Hnd' as [Hp Hn]. apply NoDup_app in Hn as (Hnl & Hdl & Hn).
    rewrite app_assoc in Hn. apply NoDup_app in Hn as (Hn & Hdr & Hnr).
    rewrite <-Hft in Hn. apply NoDup_app in Hn as (_ & _ & Hn).
    apply NoDup_cons. rewrite !elem_of_app in *. split; [specialize (Hin ppid); clear -Hin Hp; tauto|].
    apply NoDup_app. split_and!; [done| |apply NoDup_app; split_and!; [done| |done]].
    + intros q Hq. rewrite elem_of_app. intros [Hq'|Hq'].
      * assert (q ∈ foot A ∨ q ∈ foot B) as Hab' by (apply Hin; by right).
        destruct (Hout q (or_introl Hq)) as (? & ? & _). tauto.
      * apply (Hdl q Hq). rewrite !elem_of_app. auto.
    + intros q Hq Hq'. apply (Hdr q); [|done]. rewrite elem_of_app. apply Hin. by right.
  - intros q. rewrite !elem_of_cons, !elem_of_app. specialize (Hin q). clear -Hin. tauto.
  - intros q. rewrite !elem_of_cons, !elem_of_app. intros Hq Hn. apply Hdead. specialize (Hin q).
    clear -Hin Hq Hn. tauto.
  - intros q. rewrite !elem_of_cons, !elem_of_app. intros Hn.
    apply Hframe; intros ->; tauto.
  - pose proof Hsorted as Hs. rewrite trace_node2 in Hs.
    assert (∀ x : list (item K), l ++ (pre kl ka ++ x ++ ktrace kr) ++ r = (l ++ pre kl ka) ++ x ++ (ktrace kr ++ r)) as Eq
      by (intros x; by rewrite <-!app_assoc).
    rewrite Eq in *. by apply Hso.
  - by rewrite Hfl, <-!app_assoc.
  - pose proof Hch as Hc. rewrite links_node, klinks_cons, app_assoc in Hc.
    rewrite <-app_assoc, (app_assoc (links A)) in Hc.
    apply chain_app in Hc as [Hc1 Hc2]. apply chain_app in Hc2 as [Hc2 Hc3].
    apply chain_app. split; [|apply chain_app; split; [by apply Hchn|done]].
    by rewrite first_leaf_app, Hfst, <-first_leaf_app.
  - intros e'. rewrite links_node, klinks_cons, (app_assoc (links A)). by rewrite !first_leaf_app, Hfst, !first_leaf_app.
Qed.

Lemma pair_rebalanced kids' :
  Forall (λ kc, well_sized d kc.2) kl → Forall (λ kc, well_sized d kc.2) kr →
  som_out T d kl ka A s B kr dead pgA pp pgB kids' →
  rep T (S d) (st_pages st2) (TNode ppid kids') ∧ Forall (λ kc, well_sized d kc.2) kids' ∧
  (length (kl ++ (ka, A) :: (s, B) :: kr) - 1 ≤ length kids' ≤ length (kl ++ (ka, A) :: (s, B) :: kr))%nat ∧
  changed eq l r e P1 st1 st2 (trace (TNode ppid kids')) (flat (TNode ppid kids'))
    (foot (TNode ppid kids')) (links (TNode ppid kids')).
Proof.
  intros Hwl Hwr Hout. destruct pair_outer_kids as [Hkl Hkr].
  destruct Hout as [A' s' B' pgA pp pgB EA EB Hpo HtA HtB Hn Hk HwA HwB|AB pgA pp pgB EA Hpo HtA Hn Hk HwA].
  - rewrite bool_decide_true in HpB by done. split_and!.
    + split; [by exists pp|]. apply Forall_kid. split_and!; [done| |constructor; [|done]].
      * apply (pair_rep A' pgA); [done|by rewrite EA|]. intros x Hx. apply Hk. apply elem_of_app. by left.
      * apply (pair_rep B' pgB); [done|by rewrite EB|]. intros x Hx. apply Hk. apply elem_of_app. by right.
    + apply Forall_kid. split_and!; [done|done|by constructor].
    + rewrite !length_app. simpl. lia.
    + rewrite !length_app. simpl. lia.
    + rewrite trace_node2, flat_node, kflat_cons, foot_node, kfoot_cons, links_node, klinks_cons.
      pose proof (pair_changed [] _ _ _ _ Hpo ltac:(intros q Hq; by apply elem_of_nil in Hq)) as Hc.
      by rewrite <-(app_assoc (flat A')), <-(app_assoc (foot A')), <-(app_assoc (links A')) in Hc.
  - assert (tpid B ≠ INVALID_PAGE_ID) as HB.
    { destruct Hrep as [_ Hkids]. apply Forall_kid in Hkids as (_ & _ & Hr). apply Forall_cons in Hr as [Hr _].
      eapply index_root_valid; [exact Hok1|exact Hr]. }
    rewrite bool_decide_false in HpB by done. split_and!.
    + split; [by exists pp|]. apply Forall_kid. split_and!; [done| |done].
      apply (pair_rep AB pgA); [done|by rewrite EA|done].
    + apply Forall_kid. by split_and!.
    + rewrite !length_app. simpl. lia.
    + rewrite !length_app. simpl. lia.
    + rewrite trace_node, flat_node, foot_node, links_node.
      apply (pair_changed [tpid B] _ _ _ _ Hpo). by intros q ->%list_elem_of_singleton.
Qed.
End pair_store.
End changed.

(** ** Fixing an underflow *)

Section underflow.
Context {K V : Type} `{!KeyComparator K, !KeyOrder K, !Inhabited K, !Inhabited V} (T : BPlusTree).
#[local] Abbreviation Tree := (tree K V).
#[local] Abbreviation IdxStore := (Store (IndexPage K V)).
#[local] Abbreviation sorted := (StronglySorted (item_lt (K:=K))).
#[local] Abbreviation well_sized := (bal T (min_leaf T) (min_internal T)).
Implicit Types (t c A B : Tree) (kids : list (K * Tree)) (st : IdxStore).
Context (Hgs : good_sizes T).

(** The three pages written, and the dead one deleted. *)
Definition after_pair (st : IdxStore) (x : Z) (px : IndexPage K V) (ppid : Z) (pp : IndexPage K V)
    (y : Z) (py : IndexPage K V) (dead : Z) : IdxStore :=
  let st := set_page y py (set_page ppid pp (set_page x px st)) in
  if bool_decide (dead ≠ INVALID_PAGE_ID) then DeletePage dead st else st.

Lemma after_pair_ok st x px ppid pp y py dead :
  store_ok st → is_Some (st_pages st !! x) → is_Some (st_pages st !! ppid) → is_Some (st_pages st !! y) →
  x ≠ ppid → x ≠ y → ppid ≠ y → dead ∈ [INVALID_PAGE_ID; x; y] →
  let st2 := after_pair st x px ppid pp y py dead in
  store_ok st2 ∧ st_pages st2 !! ppid = Some pp ∧
  st_pages st2 !! x = (if bool_decide (dead = x) then None else Some px) ∧
  st_pages st2 !! y = (if bool_decide (dead = y) then None else Some py) ∧
  (∀ q, q ≠ x → q ≠ y → q ≠ ppid → st_pages st2 !! q = st_pages st !! q).
Proof.
  intros Hst [p1 H1] [p2 H2] [p3 H3] Hn1 Hn2 Hn3 Hdead st2.
  assert (0 ≤ x ∧ 0 ≤ y ∧ 0 ≤ ppid) as (Hx & Hy & Hp).
  { destruct Hst as (_ & _ & Hd & _). apply Hd in H1, H2, H3. lia. }
  assert (store_ok (set_page y py (set_page ppid pp (set_page x px st)))) as Hok.
  { eapply set_page_owned; [eapply set_page_owned; [by eapply set_page_owned|]|]; simpl.
    - by rewrite lookup_insert_ne.
    - by rewrite !lookup_insert_ne by done. }
  unfold st2, after_pair. rewrite !elem_of_cons, elem_of_nil in Hdead. unfold INVALID_PAGE_ID in *.
  destruct Hdead as [->|[->|[->|[]]]]; rewrite ?(bool_decide_false (-1 = _)) by lia.
  - rewrite bool_decide_false by naive_solver. split_and!; [done|..]; simpl.
    + by rewrite lookup_insert_ne, lookup_insert_eq by done.
    + by rewrite !lookup_insert_ne, lookup_insert_eq by done.
    + by rewrite lookup_insert_eq.
    + intros q ???. by rewrite !lookup_insert_ne by done.
  - rewrite bool_decide_true, (bool_decide_true (x = x)), (bool_decide_false (x = y)) by lia. split_and!.
    + eapply DeletePage_ok; [done|]. simpl. by rewrite !lookup_insert_ne, lookup_insert_eq by done.
    + simpl. by rewrite lookup_delete_ne, lookup_insert_ne, lookup_insert_eq by done.
    + simpl. by rewrite lookup_delete_eq.
    + simpl. by rewrite lookup_delete_ne, lookup_insert_eq by done.
    + intros q ???. simpl. by rewrite lookup_delete_ne, !lookup_insert_ne by done.
  - rewrite bool_decide_true, (bool_decide_true (y = y)), (bool_decide_false (y = x)) by lia. split_and!.
    + eapply DeletePage_ok; [done|]. simpl. by rewrite lookup_insert_eq.
    + simpl. by rewrite lookup_delete_ne, lookup_insert_ne, lookup_insert_eq by done.
    + simpl. by rewrite lookup_delete_ne, !lookup_insert_ne, lookup_insert_eq by done.
    + simpl. by rewrite lookup_delete_eq.
    + intros q ???. simpl. by rewrite lookup_delete_ne, !lookup_insert_ne by done.
Qed.

Lemma GetSize_ok d t st : rep T d (st_pages st) t → ∃ n, GetSize (tpid t) st = (Ok n, st).
Proof.
  destruct d, t; try done; unfold GetSize; simpl.
  - intros (p & Hp & _). run (load_ok _ _ _ Hp). by eexists.
  - intros ((p & Hp & _) & _). run (load_ok _ _ _ Hp). by eexists.
Qed.

(** The sibling chosen is a neighbour. *)
Lemma best_sibling d mx kl k c kr p st :
  node_is mx (slots_of (kl ++ (k, c) :: kr)) p → Forall (λ kc, rep T d (st_pages st) kc.2) (kl ++ (k, c) :: kr) →
  kl ++ kr ≠ [] →
  ∃ sib_idx sib_id, GetBestSiblingForMerge p (Z.of_nat (length kl)) st = (Ok (sib_idx, sib_id), st) ∧
    ((∃ s B kr', kr = (s, B) :: kr' ∧ sib_idx = Z.of_nat (length kl) + 1 ∧ sib_id = tpid B) ∨
     (∃ kl' ka A, kl = kl' ++ [(ka, A)] ∧ sib_idx = Z.of_nat (length kl) - 1 ∧ sib_id = tpid A)).
Proof.
  intros Hn Hk Hne. unfold GetBestSiblingForMerge. pose proof Hn as (Hsz & _).
  rewrite slots_of_length, length_app in Hsz. simpl in Hsz.
  assert (1 < size_ p) as Hsz1.
  { rewrite Hsz. destruct kl, kr; simpl in *; [done|lia..]. }
  rewrite bool_decide_true by done. simpl.
  assert (∀ s B kr', kr = (s, B) :: kr' → ValueAt p (Z.of_nat (length kl) + 1) = Ok (tpid B)) as HR.
  { intros s B kr' ->. eapply (node_ValueAt _ _ _ (slots_of (kl ++ [(k, c)])) s (tpid B) (slots_of kr')); [done| |].
    - by rewrite !slots_of_app, <-app_assoc.
    - rewrite slots_of_length, length_app. simpl. lia. }
  assert (∀ kl' ka A, kl = kl' ++ [(ka, A)] → ValueAt p (Z.of_nat (length kl) - 1) = Ok (tpid A)) as HL.
  { intros kl' ka A ->. eapply (node_ValueAt _ _ _ (slots_of kl') ka (tpid A) (slots_of ((k, c) :: kr))); [done| |].
    - by rewrite !slots_of_app, <-app_assoc.
    - rewrite slots_of_length, length_app. simpl. lia. }
  destruct kl as [|[ka A] kl' _] using rev_ind.
  { destruct kr as [|[s B] kr']; [done|]. specialize (HR s B kr' eq_refl). simpl in HR |- *.
    run HR. do 2 eexists. split; [done|]. left. eauto 10. }
  specialize (HL kl' ka A eq_refl). rewrite length_app in *. simpl in *. rewrite bool_decide_false by lia.
  destruct kr as [|[s B] kr'].
  { rewrite bool_decide_true by (simpl in *; lia). run HL. do 2 eexists. split; [done|]. right. eauto 10. }
  rewrite bool_decide_false by (simpl in *; lia). specialize (HR s B kr' eq_refl). run HR. run HL.
  apply Forall_kid in Hk as (Hkl & _ & Hkr). apply Forall_app in Hkl as [_ HA]. apply Forall_cons in HA as [HA _].
  apply Forall_cons in Hkr as [HB _]. simpl in HA, HB.
  destruct (GetSize_ok d B st HB) as [nb Eb]. destruct (GetSize_ok d A st HA) as [na Ea]. run Eb. run Ea.
  destruct (bool_decide _); do 2 eexists; (split; [done|]); [left|right]; eauto 10.
Qed.

(** The node [ppid] with children [kids] in [st1] has become one with children [kids'] in [st2]. *)
Definition rebalanced (d : nat) (l r : list (item K)) (e ppid : Z) kids (st1 st2 : IdxStore) kids' : Prop :=
  rep T (S d) (st_pages st2) (TNode ppid kids') ∧ Forall (λ kc, well_sized d kc.2) kids' ∧
  (length kids - 1 ≤ length kids' ≤ length kids)%nat ∧
  changed eq l r e (TNode ppid kids) st1 st2 (trace (TNode ppid kids')) (flat (TNode ppid kids'))
    (foot (TNode ppid kids')) (links (TNode ppid kids')).

Lemma som_out_dead d kl ka A s B kr dead pgA pp pgB kids' :
  som_out T d kl ka A s B kr dead pgA pp pgB kids' → dead = INVALID_PAGE_ID ∨ dead = tpid B.
Proof. destruct 1; auto. Qed.

Section fix_node.
Context (d : nat) (l r : list (item K)) (e ppid : Z) (kids : list (K * Tree)) (st1 : IdxStore).
Context (Hok1 : store_ok st1) (Hrep : rep T (S d) (st_pages st1) (TNode ppid kids)).
Context (Hnd : NoDup (foot (TNode ppid kids))) (Hch : chain (links (TNode ppid kids)) e).
Context (Hsorted : sorted (l ++ trace (TNode ppid kids) ++ r)).

Lemma pair_stored kl ka A s B kr dead pgA pp pgB kids' st2 :
  kids = kl ++ (ka, A) :: (s, B) :: kr →
  Forall (λ kc, well_sized d kc.2) kl → Forall (λ kc, well_sized d kc.2) kr →
  som_out T d kl ka A s B kr dead pgA pp pgB kids' →
  st2 = after_pair st1 (tpid A) pgA ppid (InternalNode pp) (tpid B) pgB dead ∨
  st2 = after_pair st1 (tpid B) pgB ppid (InternalNode pp) (tpid A) pgA dead →
  rebalanced d l r e ppid kids st1 st2 kids'.
Proof.
  intros Ek Hwl Hwr Hout Hst2. revert Hrep Hnd Hch Hsorted. rewrite Ek. intros Hrep' Hnd' Hch' Hs'.
  destruct (pair_distinct ppid kl ka A s B kr Hnd') as (Hab & Hp & _). rewrite elem_of_app in Hp.
  apply NoDup_app in Hab as (_ & Hdab & _).
  pose proof (tpid_foot A) as HfA. pose proof (tpid_foot B) as HfB.
  assert (tpid A ≠ tpid B) as Hne by (intros E; apply (Hdab (tpid A) HfA); by rewrite E).
  assert (tpid A ≠ ppid ∧ tpid B ≠ ppid) as [HneA HneB] by (split; intros E; rewrite <-E in Hp; tauto).
  assert (∀ q, q ∈ foot (TNode ppid (kl ++ (ka, A) :: (s, B) :: kr)) → is_Some (st_pages st1 !! q)) as Hlive
    by (intros q; by eapply rep_dom).
  assert (is_Some (st_pages st1 !! tpid A) ∧ is_Some (st_pages st1 !! tpid B) ∧ is_Some (st_pages st1 !! ppid))
    as (LA & LB & LP).
  { split_and!; apply Hlive; rewrite foot_node, kfoot_cons, elem_of_cons, !elem_of_app; auto. }
  assert (∀ q p, st_pages st1 !! q = Some p → q ≠ INVALID_PAGE_ID) as Hinv.
  { intros q p Hq ->. destruct Hok1 as (_ & _ & Hd & _). apply Hd in Hq. unfold INVALID_PAGE_ID in Hq. lia. }
  destruct LA as [qa La]. destruct LB as [qb Lb]. destruct LP as [qp Lp].
  pose proof (som_out_dead _ _ _ _ _ _ _ _ _ _ _ _ Hout) as Hdead.
  assert (store_ok st2 ∧ st_pages st2 !! ppid = Some (InternalNode pp) ∧ st_pages st2 !! tpid A = Some pgA ∧
    st_pages st2 !! tpid B = (if bool_decide (dead = INVALID_PAGE_ID) then Some pgB else None) ∧
    (∀ q, q ≠ tpid A → q ≠ tpid B → q ≠ ppid → st_pages st2 !! q = st_pages st1 !! q)) as (? & ? & ? & ? & ?).
  { assert (bool_decide (dead = tpid A) = false) as EA.
    { apply bool_decide_false. destruct Hdead as [->| ->]; [|done]. intros E. by apply (Hinv _ _ La). }
    assert (bool_decide (dead = tpid B) = negb (bool_decide (dead = INVALID_PAGE_ID))) as EB.
    { destruct Hdead as [->| ->].
      - rewrite (bool_decide_true (INVALID_PAGE_ID = INVALID_PAGE_ID)) by done. apply bool_decide_false.
        intros E. by apply (Hinv _ _ Lb).
      - rewrite (bool_decide_true (tpid B = tpid B)) by done.
        rewrite bool_decide_false; [done|]. by eapply Hinv. }
    destruct Hst2 as [->| ->].
    - destruct (after_pair_ok st1 (tpid A) pgA ppid (InternalNode pp) (tpid B) pgB dead) as (? & ? & EA' & EB' & ?);
        eauto; [destruct Hdead; set_solver|].
      rewrite EA in EA'. rewrite EB in EB'. split_and!; try done. rewrite EB'. by destruct (bool_decide (dead = INVALID_PAGE_ID)).
    - destruct (after_pair_ok st1 (tpid B) pgB ppid (InternalNode pp) (tpid A) pgA dead) as (? & ? & EB' & EA' & ?);
        eauto; [destruct Hdead; set_solver|].
      rewrite EA in EA'. rewrite EB in EB'. split_and!; eauto. rewrite EB'. by destruct (bool_decide (dead = INVALID_PAGE_ID)). }
  by eapply (pair_rebalanced T d l r e ppid kl ka A s B kr st1 st2).
Qed.
End fix_node.

(** The writes of the two [.._underflow] tails. *)
Lemma run_pair_writes (A : Type) (a : A) st x px ppid pp y py dead :
  (_ ← store x px; _ ← store ppid pp; _ ← store y py;
   _ ← (if bool_decide (dead ≠ INVALID_PAGE_ID) then delete_page dead else mret tt); mret a) st =
  (Ok a, after_pair st x px ppid pp y py dead).
Proof. unfold after_pair, store, mbind, ST_bind. by destruct (bool_decide _). Qed.

Section underflow_ok.
Context (d : nat) (l r : list (item K)) (e ppid : Z) (kl : list (K * Tree)) (k : K) (c : Tree) (kr : list (K * Tree)).
Context (st1 : IdxStore) (pp : BPlusTreeInternalPage K).
#[local] Abbreviation kids := (kl ++ (k, c) :: kr).
Context (Hok1 : store_ok st1) (Hrep : rep T (S d) (st_pages st1) (TNode ppid kids)).
Context (Hnd : NoDup (foot (TNode ppid kids))) (Hch : chain (links (TNode ppid kids)) e).
Context (Hsorted : sorted (l ++ trace (TNode ppid kids) ++ r)).
Context (Hpp : st_pages st1 !! ppid = Some (InternalNode pp)) (Hne : kl ++ kr ≠ []).
Context (Hwl : Forall (λ kc, well_sized d kc.2) kl) (Hwr : Forall (λ kc, well_sized d kc.2) kr).

Lemma underflow_parent : node_is (internal_max_size_ T) (slots_of kids) pp.
Proof. destruct Hrep as [(p & Hp & Hn) _]. rewrite Hpp in Hp. by injection Hp as <-. Qed.

Lemma leaf_underflow_ok pid nx es p ctx :
  d = 0%nat → c = TLeaf pid nx es → st_pages st1 !! pid = Some (LeafNode p) →
  leaf_is (leaf_max_size_ T) es nx p → Z.of_nat (length es) + 1 = min_leaf T →
  ∃ st2 kids', leaf_underflow ctx pid p ppid pp (Z.of_nat (length kl)) st1 = (Ok (true, ctx), st2) ∧
    rebalanced d l r e ppid kids st1 st2 kids'.
Proof.
  intros Hd Hc Hp Hlf Hlen. pose proof underflow_parent as Hn. unfold leaf_underflow.
  pose proof Hrep as [_ Hks].
  destruct (best_sibling d _ kl k c kr pp st1 Hn Hks Hne) as (si & sid & Eb & Hsib). run Eb.
  apply Forall_kid in Hks as (Hkl & _ & Hkr).
  destruct Hsib as [(s & B & kr' & Ekr & -> & ->)|(kl' & ka & A & Ekl & -> & ->)].
  - rewrite Ekr in Hkr, Hwr. apply Forall_cons in Hkr as [HB _]. apply Forall_cons in Hwr as [HwB Hwr'].
    rewrite Hd in HB, HwB. destruct B as [pb nb esB|]; [|done]. simpl in HB, HwB. destruct HB as (pB & HpB & HlB).
    run (load_leaf_ok _ _ _ HpB). rewrite bool_decide_false by lia. rewrite Ekr, Hc in Hn.
    destruct (leaf_som_right T Hgs kl k pid nx es s pb nb esB kr' pp p pB Hn Hlf HlB Hlen)
      as (dead & pA' & pp' & pB' & kids' & Es & Hout); [lia|].
    cbn [tpid]. run Es. rewrite run_pair_writes. do 2 eexists. split; [done|].
    eapply (pair_stored d l r e ppid kids st1 Hok1 Hrep Hnd Hch Hsorted); [by rewrite Ekr|done|done| |].
    + rewrite Hd, Hc. exact Hout.
    + left. by rewrite Hc.
  - rewrite Ekl in Hkl, Hwl. apply Forall_app in Hkl as [_ HA]. apply Forall_cons in HA as [HA _].
    apply Forall_app in Hwl as [Hwl' HwA]. apply Forall_cons in HwA as [HwA _].
    rewrite Hd in HA, HwA. destruct A as [pa na esA|]; [|done]. simpl in HA, HwA. destruct HA as (pA & HpA & HlA).
    run (load_leaf_ok _ _ _ HpA). rewrite bool_decide_true by lia. rewrite Ekl, <-app_assoc, Hc in Hn.
    destruct (leaf_som_left T Hgs kl' ka pa na esA k pid nx es kr pp pA p Hn HlA Hlf Hlen)
      as (dead & pA' & pp' & pB' & kids' & Es & Hout); [lia|].
    assert (Z.of_nat (length kl) = Z.of_nat (length kl') + 1) as -> by (rewrite Ekl, length_app; simpl; lia).
    cbn [tpid]. run Es. rewrite run_pair_writes. do 2 eexists. split; [done|].
    eapply (pair_stored d l r e ppid kids st1 Hok1 Hrep Hnd Hch Hsorted);
      [by rewrite Ekl, <-app_assoc|done|done| |].
    + rewrite Hd, Hc. exact Hout.
    + right. by rewrite Hc.
Qed.

Lemma internal_underflow_ok d' pid kc p res ctx :
  d = S d' → c = TNode pid kc → st_pages st1 !! pid = Some (InternalNode p) →
  node_is (internal_max_size_ T) (slots_of kc) p → Forall (λ kc, well_sized d' kc.2) kc →
  Z.of_nat (length kc) + 1 = min_internal T →
  ∃ st2 kids', internal_underflow res ctx pid p ppid pp (Z.of_nat (length kl)) st1 = (Ok (res, ctx), st2) ∧
    rebalanced d l r e ppid kids st1 st2 kids'.
Proof.
  intros Hd Hc Hp Hlf Hwk Hlen. pose proof underflow_parent as Hn. unfold internal_underflow.
  pose proof Hrep as [_ Hks].
  destruct (best_sibling d _ kl k c kr pp st1 Hn Hks Hne) as (si & sid & Eb & Hsib). run Eb.
  apply Forall_kid in Hks as (Hkl & _ & Hkr).
  destruct Hsib as [(s & B & kr' & Ekr & -> & ->)|(kl' & ka & A & Ekl & -> & ->)].
  - rewrite Ekr in Hkr, Hwr. apply Forall_cons in Hkr as [HB _]. apply Forall_cons in Hwr as [HwB Hwr'].
    rewrite Hd in HB, HwB. destruct B as [|pb kB]; [done|]. destruct HB as ((pB & HpB & HlB) & _).
    destruct HwB as [HwB1 HwB2].
    run (load_internal_ok _ _ _ HpB). rewrite bool_decide_false by lia. rewrite Ekr, Hc in Hn.
    destruct (internal_som_right T Hgs d' kl k pid kc s pb kB kr' pp p pB Hn Hlf HlB Hwk HwB2 Hlen)
      as (dead & pA' & pp' & pB' & kids' & Es & Hout); [lia|].
    cbn [tpid]. run Es. rewrite run_pair_writes. do 2 eexists. split; [done|].
    eapply (pair_stored d l r e ppid kids st1 Hok1 Hrep Hnd Hch Hsorted); [by rewrite Ekr|done|done| |].
    + rewrite Hd, Hc. exact Hout.
    + left. by rewrite Hc.
  - rewrite Ekl in Hkl, Hwl. apply Forall_app in Hkl as [_ HA]. apply Forall_cons in HA as [HA _].
    apply Forall_app in Hwl as [Hwl' HwA]. apply Forall_cons in HwA as [HwA _].
    rewrite Hd in HA, HwA. destruct A as [|pa kA]; [done|]. destruct HA as ((pA & HpA & HlA) & _).
    destruct HwA as [HwA1 HwA2].
    run (load_internal_ok _ _ _ HpA). rewrite bool_decide_true by lia. rewrite Ekl, <-app_assoc, Hc in Hn.
    destruct (internal_som_left T Hgs d' kl' ka pa kA k pid kc kr pp pA p Hn HlA Hlf HwA2 Hwk Hlen)
      as (dead & pA' & pp' & pB' & kids' & Es & Hout); [lia|].
    assert (Z.of_nat (length kl) = Z.of_nat (length kl') + 1) as -> by (rewrite Ekl, length_app; simpl; lia).
    cbn [tpid]. run Es. rewrite run_pair_writes. do 2 eexists. split; [done|].
    eapply (pair_stored d l r e ppid kids st1 Hok1 Hrep Hnd Hch Hsorted);
      [by rewrite Ekl, <-app_assoc|done|done| |].
    + rewrite Hd, Hc. exact Hout.
    + right. by rewrite Hc.
Qed.
End underflow_ok.
End underflow.

(** ** The recursion *)

Section delete.
Context {K V : Type} `{!KeyComparator K, !KeyOrder K, !Inhabited K, !Inhabited V} (T : BPlusTree).
#[local] Abbreviation Tree := (tree K V).
#[local] Abbreviation IdxStore := (Store (IndexPage K V)).
#[local] Abbreviation sorted := (StronglySorted (item_lt (K:=K))).
#[local] Abbreviation well_sized := (bal T (min_leaf T) (min_internal T)).
Implicit Types (t c : Tree) (kids : list (K * Tree)) (st : IdxStore).
Context (Hgs : good_sizes T).

(** Where a subtree sits: at the top, or below the node [ppid] between [kl] and [kr]. *)
Inductive place :=
  | Top
  | Under (ppid : Z) (kl : list (K * Tree)) (k : K) (kr : list (K * Tree)).
Definition whole (up : place) t : Tree :=
  match up with Top => t | Under ppid kl k kr => TNode ppid (kl ++ (k, t) :: kr) end.
Definition left_of (up : place) (l : list (item K)) : list (item K) :=
  match up with Top => l | Under _ kl k _ => l ++ pre kl k end.
Definition right_of (up : place) (r : list (item K)) : list (item K) :=
  match up with Top => r | Under _ _ _ kr => ktrace kr ++ r end.
Definition next_of (up : place) (e : Z) : Z :=
  match up with Top => e | Under _ _ _ kr => first_leaf (klinks kr) e end.

(** What a call on [t] at [up] may assume; [W] is the write set before the guard of [t]. *)
Record del_pre (d : nat) (lo li : Z) (key : K) (l r : list (item K)) (e : Z) t (up : place) (W : list Z)
    (root : Z) st : Prop := mkDelPre {
  dp_store : store_ok st;
  dp_bal : bal T lo li d t;
  dp_two : 2 ≤ li;
  dp_before : before (left_of up l) key;
  dp_after : after key (right_of up r);
  dp_nodup : NoDup (foot (whole up t));
  dp_chain : chain (links (whole up t)) e;
  dp_sorted : sorted (l ++ trace (whole up t) ++ r);
  dp_place : match up with
    | Top => rep T d (st_pages st) t ∧ W = [] ∧ root = tpid t
    | Under ppid kl k kr =>
        rep T (S d) (st_pages st) (TNode ppid (kl ++ (k, t) :: kr)) ∧ (∃ W0, W = W0 ++ [ppid]) ∧
        kl ++ kr ≠ [] ∧ Forall (λ kc, well_sized d kc.2) kl ∧ Forall (λ kc, well_sized d kc.2) kr ∧
        lo = min_leaf T ∧ li = min_internal T ∧ root ∉ foot t
    end
}.

(** The outcomes: [hd] is whether the header guard was held. *)
Inductive del_outcome (d : nat) (lo li : Z) (key : K) (l r : list (item K)) (e : Z) t (up : place)
    (W : list Z) (hd : bool) (root : Z) st : bool → Context → IdxStore → Prop :=
  | del_absent ctx' :
      lookup_key key (flat t) = None → write_set_ ctx' = [] → header_page_ ctx' = false →
      del_outcome d lo li key l r e t up W hd root st false ctx' st
  | del_settled t' ctx' st' :
      write_set_ ctx' = [] → tpid t' = tpid t → rep T d (st_pages st') t' →
      (bal T lo li d t' ∨ up = Top ∧ header_page_ ctx' = hd ∧ bal T (lo - 1) (li - 1) d t') →
      changed (removes key) (left_of up l) (right_of up r) (next_of up e) t st st'
        (trace t') (flat t') (foot t') (links t') →
      del_outcome d lo li key l r e t up W hd root st true ctx' st'
  | del_fixed ppid kl k kr kids' ctx' st' :
      up = Under ppid kl k kr → write_set_ ctx' = W → header_page_ ctx' = hd → root_page_id_ ctx' = root →
      rep T (S d) (st_pages st') (TNode ppid kids') → Forall (λ kc, well_sized d kc.2) kids' →
      (length (kl ++ (k, t) :: kr) - 1 ≤ length kids' ≤ length (kl ++ (k, t) :: kr))%nat →
      changed (removes key) l r e (TNode ppid (kl ++ (k, t) :: kr)) st st'
        (trace (TNode ppid kids')) (flat (TNode ppid kids')) (foot (TNode ppid kids')) (links (TNode ppid kids')) →
      del_outcome d lo li key l r e t up W hd root st true ctx' st'.

Section facts.
Context {d : nat} {lo li : Z} {key : K} {l r : list (item K)} {e : Z} {t : Tree} {up : place} {W : list Z} {root : Z} {st : IdxStore}.
Context (Hpre : del_pre d lo li key l r e t up W root st).

Lemma del_pre_rep : rep T d (st_pages st) t.
Proof.
  destruct Hpre as [_ _ _ _ _ _ _ _ Hp]. destruct up; simpl in Hp; [tauto|].
  destruct Hp as ([_ Hk] & _). by apply Forall_kid in Hk as (_ & ? & _).
Qed.
Lemma del_pre_sorted : sorted (left_of up l ++ trace t ++ right_of up r).
Proof.
  destruct Hpre as [_ _ _ _ _ _ _ Hs _]. destruct up; cbn [whole left_of right_of] in *; [done|].
  rewrite trace_node, <-!app_assoc in Hs. rewrite <-!app_assoc. exact Hs.
Qed.
Lemma del_pre_nodup : NoDup (foot t).
Proof.
  destruct Hpre as [_ _ _ _ _ Hn _ _ _]. destruct up; cbn [whole] in *; [done|]. rewrite foot_node in Hn.
  apply NoDup_cons in Hn as [_ Hn]. apply NoDup_app in Hn as (_ & _ & Hn). by apply NoDup_app in Hn as [? _].
Qed.
Lemma del_pre_chain : chain (links t) (next_of up e).
Proof.
  destruct Hpre as [_ _ _ _ _ _ Hc _ _]. destruct up; cbn [whole next_of] in *; [done|]. rewrite links_node in Hc.
  apply chain_app in Hc as [_ Hc]. by apply chain_app in Hc as [? _].
Qed.

(** The node above once the subtree is [t1], still before it is rebalanced. *)
Section lifted.
Context {ppid : Z} {kl : list (K * Tree)} {k : K} {kr : list (K * Tree)} {t1 : Tree} {st1 : IdxStore}.
Context (Hup : up = Under ppid kl k kr) (Hpid : tpid t1 = tpid t) (Hr1 : rep T d (st_pages st1) t1).
Context (Hc : changed (removes key) (left_of up l) (right_of up r) (next_of up e) t st st1
  (trace t1) (flat t1) (foot t1) (links t1)).
#[local] Abbreviation P1 := (TNode ppid (kl ++ (k, t1) :: kr)).

Lemma lifted_changed : changed (removes key) l r e (TNode ppid (kl ++ (k, t) :: kr)) st st1
  (trace P1) (flat P1) (foot P1) (links P1).
Proof.
  pose proof Hpre as [_ _ _ _ _ Hn Hch Hs Hp]. pose proof Hc as Hc0.
  rewrite Hup in Hn, Hch, Hc0. cbn [whole left_of right_of next_of] in *.
  rewrite trace_node, flat_node, foot_node, links_node.
  exact (changed_lift _ l r e ppid kl k t kr st st1 _ _ _ _ (removes_context key) Hn Hch Hc0).
Qed.
Lemma lifted_rep : rep T (S d) (st_pages st1) P1.
Proof.
  pose proof Hpre as [_ _ _ _ _ Hn _ _ Hp]. rewrite Hup in Hn, Hp. cbn [whole] in Hn.
  destruct Hp as (([pp [Hpp Hnode]] & Hk) & _).
  destruct (changed_siblings T _ _ _ _ ppid kl k t kr d st st1 _ _ _ _ Hn Hk Hc) as [Hkl Hkr].
  split; [|by apply Forall_kid]. exists pp. split.
  - rewrite (c_frame _ _ _ _ _ _ _ _ _ _ _ Hc); [done|]. rewrite foot_node in Hn.
    apply NoDup_cons in Hn as [Hpn _]. rewrite !elem_of_app in Hpn. tauto.
  - rewrite slots_of_app in *. simpl in *. by rewrite Hpid.
Qed.

Lemma del_fix st2 kids' ctx' :
  rebalanced T d l r e ppid (kl ++ (k, t1) :: kr) st1 st2 kids' →
  write_set_ ctx' = W → root_page_id_ ctx' = root →
  del_outcome d lo li key l r e t up W (header_page_ ctx') root st true ctx' st2.
Proof.
  intros (Hrep2 & Hw2 & Hlen & Hc2) HW Hroot. rewrite !length_app in Hlen. simpl in Hlen.
  eapply (del_fixed d lo li key l r e t up W _ root st ppid kl k kr kids'); try done.
  - rewrite !length_app. simpl. lia.
  - eapply changed_trans; [exact lifted_changed|done].
Qed.
End lifted.
End facts.

Lemma leaf_Remove_ok mx (a : list (K * V)) k v b nx p key :
  leaf_is mx (a ++ (k, v) :: b) nx p → comparator k key = 0 →
  ∃ p', leaf_Remove key (Z.of_nat (length a)) p = Ok (true, p') ∧ leaf_is mx (a ++ b) nx p'.
Proof.
  intros Hl Hc. unfold leaf_Remove. rewrite bool_decide_false by lia. cbn [mbind result_bind].
  rewrite bool_decide_false by lia. pose proof Hl as [Hn _].
  rewrite (node_KeyAt _ _ _ a k v b _ Hn eq_refl eq_refl). cbn [mbind result_bind].
  rewrite bool_decide_false by naive_solver.
  destruct (leaf_RemoveAt_ok _ a (k, v) b nx p _ Hl eq_refl) as (p' & -> & Hp'). eauto.
Qed.

(** The entry leaves the leaf; nothing else changes yet. *)
Lemma leaf_removed pid nx a k v b key l r e st p' :
  store_ok st → is_Some (st_pages st !! pid) → comparator k key = 0 →
  sorted (l ++ trace (TLeaf pid nx (a ++ (k, v) :: b)) ++ r) → chain [(pid, nx)] e →
  changed (removes key) l r e (TLeaf pid nx (a ++ (k, v) :: b)) st (set_page pid (LeafNode p') st)
    (trace (TLeaf (K:=K) (V:=V) pid nx (a ++ b))) (a ++ b) [pid] [(pid, nx)].
Proof.
  intros Hst [p0 Hp0] Hc Hs Hch. split; try done.
  - by eapply set_page_owned.
  - apply NoDup_singleton.
  - intros q Hq. simpl in *. rewrite lookup_insert_ne; [done|]. set_solver.
  - cbn [trace] in *. rewrite map_app in Hs |- *. simpl in Hs.
    rewrite <-app_assoc, (app_assoc l) in Hs |- *. by eapply sorted_drop.
  - simpl. exists a, k, v, b. done.
Qed.

Lemma RecursiveDeleteLeaf_ok lo li key l r e t up W ctx st :
  del_pre 0 lo li key l r e t up W (root_page_id_ ctx) st → write_set_ ctx = W ++ [tpid t] →
  ∃ res ctx' st', RecursiveDeleteLeaf ctx key st = (Ok (res, ctx'), st') ∧
    del_outcome 0 lo li key l r e t up W (header_page_ ctx) (root_page_id_ ctx) st res ctx' st'.
Proof.
  intros Hpre Hw. pose proof (del_pre_rep Hpre) as Hrep. pose proof (del_pre_sorted Hpre) as Hs.
  destruct t as [pid nx es|]; [|done]. pose proof Hrep as (p & Hp & Hlf).
  assert (write_set_ (pop_back ctx) = W) as Hpop by (by eapply pop_back_snoc).
  unfold RecursiveDeleteLeaf. rewrite Hw, last_snoc. cbn [tpid]. run (load_leaf_ok _ _ _ Hp).
  destruct (locate key es (sorted_mid _ _ _ Hs)) as [a k v b Ees Hc Ha Hb|a b Ees Ha Hb].
  2:{ destruct (leaf_search_missing _ _ _ _ _ _ _ Hlf Ees Ha Hb) as (E & _ & E' & _). run E. run E'.
      rewrite bool_decide_true by done. do 3 eexists. split; [done|]. apply del_absent; [|done|done].
      simpl. rewrite Ees. by apply lookup_key_missing. }
  destruct (leaf_search_found _ _ _ _ _ _ _ _ _ Hlf Ees Hc Ha Hb) as (E & _ & E'). run E.
  rewrite Z.add_simpl_r. run E'. rewrite bool_decide_false by naive_solver.
  rewrite Ees in *. destruct (leaf_Remove_ok _ _ _ _ _ _ _ key Hlf Hc) as (p' & Er & Hp'). run Er.
  set (st1 := set_page pid (LeafNode p') st). set (t1 := TLeaf pid nx (a ++ b)).
  assert (store pid (LeafNode p') st = (Ok tt, st1)) as Est by done. run Est.
  pose proof Hp' as [(Hsz & Hmx & Hle & _) _]. unfold GetMinSize. rewrite Hsz, Hmx. fold (min_leaf T).
  assert (changed (removes key) (left_of up l) (right_of up r) (next_of up e) (TLeaf pid nx (a ++ (k, v) :: b)) st st1
    (trace t1) (flat t1) (foot t1) (links t1)) as Hch.
  { apply leaf_removed; [apply Hpre|by eexists|done|done|exact (del_pre_chain Hpre)]. }
  assert (rep T 0 (st_pages st1) t1) as Hrep1 by (exists p'; simpl; by rewrite lookup_insert_eq).
  pose proof (dp_bal _ _ _ _ _ _ _ _ _ _ _ _ Hpre) as Hbal. simpl in Hbal. rewrite length_app in Hbal, Hle. simpl in Hbal.
  rewrite Hpop. cbn [root_page_id_ pop_back set_write_set].
  destruct (bool_decide (min_leaf T ≤ Z.of_nat (length (a ++ b))) || bool_decide (W = []) || bool_decide (pid = root_page_id_ ctx)) eqn:Edone.
  - do 3 eexists. split; [done|]. apply (del_settled _ _ _ _ _ _ _ _ _ _ _ _ _ t1); try done.
    { by destruct (bool_decide (pid ≠ _)). }
    destruct up as [|ppid kl kk kr].
    + right. split_and!; [done| |simpl; rewrite length_app; lia].
      destruct (dp_place _ _ _ _ _ _ _ _ _ _ _ _ Hpre) as (_ & _ & Eroot). simpl in Eroot.
      rewrite bool_decide_false by naive_solver. done.
    + left. destruct (dp_place _ _ _ _ _ _ _ _ _ _ _ _ Hpre) as (_ & (W0 & ->) & _ & _ & _ & -> & _ & Hroot).
      simpl. rewrite length_app in *. rewrite !orb_true_iff, !bool_decide_eq_true in Edone.
      destruct Edone as [[?|E0]|E0]; [lia|by destruct W0|]. simpl in Hroot. set_solver.
  - rewrite !orb_false_iff, !bool_decide_eq_false in Edone. destruct Edone as [[Hlow HW] Hnr].
    destruct up as [|ppid kl kk kr]; [by destruct (dp_place _ _ _ _ _ _ _ _ _ _ _ _ Hpre) as (_ & ? & _)|].
    destruct (dp_place _ _ _ _ _ _ _ _ _ _ _ _ Hpre) as (Hrp & (W0 & EW) & Hne & Hwl & Hwr & Elo & _ & _).
    rewrite EW, last_snoc. destruct Hrp as [(pp & Hpp & Hnode) _].
    assert (st_pages st1 !! ppid = Some (InternalNode pp)) as Hpp1.
    { rewrite (c_frame _ _ _ _ _ _ _ _ _ _ _ Hch); [done|]. pose proof (dp_nodup _ _ _ _ _ _ _ _ _ _ _ _ Hpre) as Hn.
      cbn [whole] in Hn. rewrite foot_node in Hn. apply NoDup_cons in Hn as [Hpn _]. rewrite !elem_of_app in Hpn. tauto. }
    run (load_internal_ok _ _ _ Hpp1).
    pose proof (dp_before _ _ _ _ _ _ _ _ _ _ _ _ Hpre) as Hbf. pose proof (dp_after _ _ _ _ _ _ _ _ _ _ _ _ Hpre) as Haf.
    cbn [left_of right_of] in Hbf, Haf. apply before_app in Hbf as [_ Hbf]. apply after_app in Haf as [Haf _].
    destruct (descend_node _ _ _ _ _ _ _ _ Hnode eq_refl Hbf Haf) as [E1 _]. run E1. rewrite Z.add_simpl_r.
    pose proof Hnode as (Hsn & _). rewrite slots_of_length, length_app in Hsn. simpl in Hsn.
    rewrite bool_decide_false by (rewrite Hsn; destruct kl, kr; simpl in *; done || lia).
    pose proof (lifted_changed Hpre eq_refl Hch) as HcP.
    destruct (leaf_underflow_ok T Hgs 0 l r e ppid kl kk t1 kr st1 pp) with (pid := pid) (nx := nx) (es := a ++ b)
      (p := p') (ctx := pop_back ctx) as (st2 & kids' & Eu & Hreb); try done.
    { apply HcP. }
    { exact (lifted_rep (t1 := t1) Hpre eq_refl eq_refl Hrep1 Hch). }
    { apply HcP. }
    { apply HcP. }
    { apply HcP. }
    { simpl. by rewrite lookup_insert_eq. }
    { rewrite length_app in *. lia. }
    rewrite Eu. do 3 eexists. split; [done|]. rewrite <-EW.
    exact (del_fix Hpre eq_refl Hch st2 kids' (pop_back ctx) Hreb Hpop eq_refl).
Qed.

(** The precondition of the call on the child the key belongs to. *)
Lemma del_pre_child d lo li key l r e pid kl k c kr up W root st W1 :
  del_pre (S d) lo li key l r e (TNode pid (kl ++ (k, c) :: kr)) up W root st →
  before (pre kl k) key → after key (ktrace kr) →
  del_pre d (min_leaf T) (min_internal T) key (left_of up l) (right_of up r) (next_of up e) c
    (Under pid kl k kr) (W1 ++ [pid]) root st.
Proof.
  intros Hpre Hbf Haf. pose proof (del_pre_rep Hpre) as Hrep. pose proof (del_pre_nodup Hpre) as Hn.
  pose proof Hpre as [Hst [Hlen Hk] Htwo Hb Ha _ _ _ Hp].
  destruct (min_internal_pos T Hgs) as [Hmi _]. apply Forall_kid in Hk as (Hkl & Hc & Hkr).
  split; cbn [whole left_of right_of next_of]; try done.
  - by apply before_app.
  - by apply after_app.
  - exact (del_pre_chain Hpre).
  - exact (del_pre_sorted Hpre).
  - split_and!; try done; [by eexists| |].
    + intros E. apply app_eq_nil in E as [-> ->]. simpl in Hlen. lia.
    + rewrite foot_node in Hn. apply NoDup_cons in Hn as [Hpn _]. rewrite !elem_of_app in Hpn.
      destruct up; [destruct Hp as (_ & _ & ->); simpl; tauto|].
      destruct Hp as (_ & _ & _ & _ & _ & _ & _ & Hroot). rewrite foot_node in Hroot.
      rewrite elem_of_cons, !elem_of_app in Hroot. tauto.
Qed.

(** The child was settled: the node only changes below. *)
Lemma del_child_settled d lo li key l r e pid kl k c kr up W hd root st c' ctx' st' :
  del_pre (S d) lo li key l r e (TNode pid (kl ++ (k, c) :: kr)) up W root st →
  write_set_ ctx' = [] → tpid c' = tpid c → rep T d (st_pages st') c' → well_sized d c' →
  changed (removes key) (left_of up l ++ pre kl k) (ktrace kr ++ right_of up r)
    (first_leaf (klinks kr) (next_of up e)) c st st' (trace c') (flat c') (foot c') (links c') →
  del_outcome (S d) lo li key l r e (TNode pid (kl ++ (k, c) :: kr)) up W hd root st true ctx' st'.
Proof.
  intros Hpre Hw Hpid Hr Hb Hc. pose proof (del_pre_rep Hpre) as [(p & Hp & Hn) Hk].
  pose proof (del_pre_nodup Hpre) as Hnd. pose proof (dp_bal _ _ _ _ _ _ _ _ _ _ _ _ Hpre) as [Hlen Hkb].
  pose proof (changed_lift _ _ _ _ pid kl k c kr st st' _ _ _ _ (removes_context key) Hnd (del_pre_chain Hpre) Hc) as Hc'.
  destruct (changed_siblings T _ _ _ _ pid kl k c kr d st st' _ _ _ _ Hnd Hk Hc) as [Hkl Hkr].
  apply (del_settled _ _ _ _ _ _ _ _ _ _ _ _ _ (TNode pid (kl ++ (k, c') :: kr))); try done.
  - split; [|by apply Forall_kid]. exists p. split.
    + rewrite (c_frame _ _ _ _ _ _ _ _ _ _ _ Hc); [done|]. rewrite foot_node in Hnd.
      apply NoDup_cons in Hnd as [Hpn _]. rewrite !elem_of_app in Hpn. tauto.
    + rewrite slots_of_app in *. simpl in *. by rewrite Hpid.
  - left. apply Forall_kid in Hkb as (? & _ & ?). split; [|by apply Forall_kid].
    rewrite length_app in *. simpl in *. lia.
  - by rewrite trace_node, flat_node, foot_node, links_node.
Qed.

(** The node after its child was fixed, as the child's call left it. *)
Lemma del_node_changed d lo li key l r e pid kids up W root st st' kids' :
  del_pre (S d) lo li key l r e (TNode pid kids) up W root st →
  changed (removes key) (left_of up l) (right_of up r) (next_of up e) (TNode pid kids) st st'
    (trace (TNode pid kids')) (flat (TNode pid kids')) (foot (TNode pid kids')) (links (TNode pid kids')) →
  ∀ ppid kl k kr, up = Under ppid kl k kr →
  st_pages st' !! ppid = st_pages st !! ppid.
Proof.
  intros Hpre Hc ppid kl k kr ->. rewrite (c_frame _ _ _ _ _ _ _ _ _ _ _ Hc); [done|].
  pose proof (dp_nodup _ _ _ _ _ _ _ _ _ _ _ _ Hpre) as Hn. cbn [whole] in Hn. rewrite foot_node in Hn.
  apply NoDup_cons in Hn as [Hpn _]. rewrite !elem_of_app in Hpn. tauto.
Qed.

Lemma RecursiveDelete_ok d fuel lo li key l r e t up W ctx st :
  (d < fuel)%nat → del_pre d lo li key l r e t up W (root_page_id_ ctx) st → write_set_ ctx = W ++ [tpid t] →
  ∃ res ctx' st', RecursiveDelete fuel ctx key st = (Ok (res, ctx'), st') ∧
    del_outcome d lo li key l r e t up W (header_page_ ctx) (root_page_id_ ctx) st res ctx' st'.
Proof.
  revert d lo li l r e t up W ctx st.
  induction fuel as [|f IH]; intros d lo li l r e t up W ctx st Hf Hpre Hw; [lia|].
  pose proof (del_pre_rep Hpre) as Hrep.
  cbn [RecursiveDelete]. rewrite Hw, last_snoc. run (rep_is_leaf T _ _ _ Hrep).
  destruct d as [|d], t as [pid next es|pid kids]; try done.
  { by apply RecursiveDeleteLeaf_ok. }
  pose proof Hrep as [(p & Hp & Hn) Hk]. run (load_internal_ok _ _ _ Hp).
  pose proof (dp_bal _ _ _ _ _ _ _ _ _ _ _ _ Hpre) as Hbal. pose proof (dp_two _ _ _ _ _ _ _ _ _ _ _ _ Hpre) as Htwo.
  pose proof (bal_kids_nonempty _ _ _ _ _ _ Hbal ltac:(lia)) as Hne.
  pose proof Hn as (Hsz & Hmx & _). rewrite slots_of_length in Hsz.
  destruct (descend_kids kids key Hne (sorted_mid _ _ _ (del_pre_sorted Hpre))) as (kl & k & c & kr & -> & Hbf & Haf).
  destruct (descend_node _ _ _ _ _ _ _ _ Hn eq_refl Hbf Haf) as [E1 E2].
  cbn [tpid] in *.
  set (ctx1 := if bool_decide (GetMinSize p < size_ p) then _ else ctx). run E1. run E2.
  assert (∃ W1, write_set_ ctx1 = W1 ++ [pid] ∧ root_page_id_ ctx1 = root_page_id_ ctx ∧
    (pid = root_page_id_ ctx → header_page_ ctx1 = header_page_ ctx) ∧
    (W1 = [] ∧ min_internal T < size_ p ∨ W1 = W ∧ header_page_ ctx1 = header_page_ ctx)) as (W1 & Hw1 & Hr1 & Hh1 & HW1).
  { unfold ctx1, GetMinSize. rewrite Hmx. fold (min_internal T).
    destruct (bool_decide_reflect (min_internal T < size_ p)).
    - exists []. unfold keep_back. cbn [root_page_id_ set_write_set]. rewrite Hw, last_snoc.
      destruct (bool_decide_reflect (pid ≠ root_page_id_ ctx)); simpl; split_and!; auto; naive_solver.
    - exists W. split_and!; auto. }
  pose proof (del_pre_child d lo li key l r e pid kl k c kr up W _ st W1 Hpre Hbf Haf) as Hprec.
  destruct (IH d (min_leaf T) (min_internal T) (left_of up l) (right_of up r) (next_of up e) c (Under pid kl k kr)
    (W1 ++ [pid]) (push_back (tpid c) ctx1) st) as (res & ctx' & st' & Erec & Hout).
  { lia. }
  { unfold push_back, set_write_set. cbn [root_page_id_]. by rewrite Hr1. }
  { unfold push_back, set_write_set. cbn [write_set_]. by rewrite Hw1. }
  run Erec. clear Erec IH.
  unfold push_back, set_write_set in Hout. cbn [root_page_id_ header_page_] in Hout. rewrite Hr1 in Hout.
  destruct Hout as [ctx' Hnone Hws Hhd|c' ctx' st' Hws Hpid Hr' Hb' Hc'|pid0 kl0 k0 kr0 kids' ctx' st' Hup Hws Hhd Hroot Hr' Hw' Hlen Hc'].
  - rewrite Hws. simpl. do 3 eexists. split; [done|]. apply del_absent; [|done|done]. by rewrite lookup_key_node.
  - rewrite Hws. simpl. do 3 eexists. split; [done|].
    eapply (del_child_settled d _ _ _ _ _ _ pid kl k c kr); try done. by destruct Hb' as [?|[? _]].
  - injection Hup as <- <- <- <-. rewrite Hws, last_snoc.
    assert (write_set_ (pop_back ctx') = W1) as Hpop by (by eapply pop_back_snoc).
    pose proof Hr' as [(p2 & Hp2 & Hn2) _]. run (load_internal_ok _ _ _ Hp2).
    pose proof Hn2 as (Hsz2 & Hmx2 & Hle2 & _). rewrite slots_of_length in Hsz2, Hle2.
    unfold GetMinSize. rewrite Hmx2, Hsz2, Hpop. fold (min_internal T).
    cbn [root_page_id_ pop_back set_write_set]. rewrite Hroot.
    destruct Hbal as [Hnum Hkb].
    destruct (bool_decide (min_internal T ≤ Z.of_nat (length kids')) || bool_decide (W1 = []) || bool_decide (pid = root_page_id_ ctx)) eqn:Edone.
    + do 3 eexists. split; [done|]. apply (del_settled _ _ _ _ _ _ _ _ _ _ _ _ _ (TNode pid kids')); try done.
      { by destruct (bool_decide (pid ≠ _)). }
      destruct up as [|ppid kl' k' kr'].
      * right. destruct (dp_place _ _ _ _ _ _ _ _ _ _ _ _ Hpre) as (_ & _ & Eroot). cbn [tpid] in Eroot.
        split_and!; [done| |split; [lia|done]].
        rewrite bool_decide_false by naive_solver. simpl. rewrite ?Hhd. auto.
      * left. destruct (dp_place _ _ _ _ _ _ _ _ _ _ _ _ Hpre) as (_ & (W0 & EW) & _ & _ & _ & _ & -> & Hnr).
        split; [|done]. rewrite !orb_true_iff, !bool_decide_eq_true in Edone.
        destruct Edone as [[?|E0]|E0]; [lia| |].
        -- destruct HW1 as [[_ ?]|[-> _]]; [lia|]. rewrite EW in E0. by destruct W0.
        -- destruct Hnr. rewrite <-E0, foot_node. left.
    + rewrite !orb_false_iff, !bool_decide_eq_false in Edone. destruct Edone as [[Hlow HWne] Hnr].
      destruct HW1 as [[? _]|[-> Hh]]; [done|].
      destruct up as [|ppid kl' k' kr']; [by destruct (dp_place _ _ _ _ _ _ _ _ _ _ _ _ Hpre) as (_ & ? & _)|].
      destruct (dp_place _ _ _ _ _ _ _ _ _ _ _ _ Hpre) as (Hrp & (W0 & EW) & Hne' & Hwl & Hwr & _ & -> & _).
      pose proof (del_node_changed _ _ _ _ _ _ _ _ _ _ _ _ _ _ _ Hpre Hc' _ _ _ _ eq_refl) as Hpp1.
      destruct Hrp as [(pp & Hpp & Hnode) _]. rewrite Hpp in Hpp1.
      rewrite EW, last_snoc. run (load_internal_ok _ _ _ Hpp1).
      pose proof (dp_before _ _ _ _ _ _ _ _ _ _ _ _ Hpre) as Hbf'. pose proof (dp_after _ _ _ _ _ _ _ _ _ _ _ _ Hpre) as Haf'.
      cbn [left_of right_of] in Hbf', Haf'. apply before_app in Hbf' as [_ Hbf']. apply after_app in Haf' as [Haf' _].
      destruct (descend_node _ _ _ _ _ _ _ _ Hnode eq_refl Hbf' Haf') as [E3 _]. run E3. rewrite Z.add_simpl_r.
      pose proof Hnode as (Hsn & _). rewrite slots_of_length, length_app in Hsn. simpl in Hsn.
      destruct (min_internal_pos T Hgs) as [Hmi _].
      rewrite bool_decide_false by lia.
      rewrite bool_decide_false by (rewrite Hsn; destruct kl', kr'; simpl in *; done || lia).
      set (t1 := TNode pid kids').
      pose proof (lifted_changed (t1 := t1) Hpre eq_refl Hc') as HcP.
      destruct (internal_underflow_ok T Hgs (S d) l r e ppid kl' k' t1 kr' st' pp) with (d' := d) (pid := pid) (kc := kids')
        (p := p2) (res := true) (ctx := pop_back ctx') as (st2 & kids2 & Eu & Hreb); try done.
      { apply HcP. }
      { exact (lifted_rep (t1 := t1) Hpre eq_refl eq_refl Hr' Hc'). }
      { apply HcP. }
      { apply HcP. }
      { apply HcP. }
      { lia. }
      rewrite Eu. do 3 eexists. split; [done|]. rewrite <-EW.
      replace (header_page_ ctx) with (header_page_ (pop_back ctx')) by (simpl; congruence).
      exact (del_fix Hpre eq_refl Hc' st2 kids2 (pop_back ctx') Hreb Hpop Hroot).
Qed.
End delete.
