(* ===== verification/BTreeRemove.v ===== *)
(** * [Remove] and [FreeAllPages]

    The root collapse, the optimistic path, and the freeing of a whole tree, on top of the recursion of
    [BTreeDelete.v]. *)

From stdpp Require Import sorting.
From S2P Require Import Prelude TablePage TableHeap BTreePage BPlusTree BTreeInvariant BTreeInsert BTreeRebalance BTreeDelete.

Section remove.
Context {K V : Type} `{!KeyComparator K, !KeyOrder K, !Inhabited K, !Inhabited V} (T : BPlusTree).
#[local] Abbreviation Tree := (tree K V).
#[local] Abbreviation IdxStore := (Store (IndexPage K V)).
#[local] Abbreviation sorted := (StronglySorted (item_lt (K:=K))).
#[local] Abbreviation well_sized := (bal T (min_leaf T) (min_internal T)).
Implicit Types (t c : Tree) (kids : list (K * Tree)) (st : IdxStore).
Context (Hgs : good_sizes T).

(** The contents without a key. *)
Definition delete_key (key : K) (es : list (K * V)) : list (K * V) := filter (λ e, ¬ is_key key e) es.

Lemma delete_key_absent key es : Forall (λ e, ¬ is_key key e) es → delete_key key es = es.
Proof.
  intros H. unfold delete_key. induction H as [|e es He _ IH]; [done|].
  rewrite filter_cons_True by done. by f_equal.
Qed.
Lemma lt_not_key key es : Forall (lt_key key) es → Forall (λ e : K * V, ¬ is_key key e) es.
Proof. intros H. eapply Forall_impl; [exact H|]. intros e He Hk. unfold lt_key, key_lt, is_key in *. lia. Qed.
Lemma gt_not_key key es : Forall (gt_key key) es → Forall (λ e : K * V, ¬ is_key key e) es.
Proof.
  intros H. eapply Forall_impl; [exact H|]. intros e He Hk%key_eq_flip. unfold gt_key, key_lt in *. lia.
Qed.
Lemma delete_key_none key es : sorted_entries es → lookup_key key es = None → delete_key key es = es.
Proof.
  intros Hs Hn. destruct (locate key es Hs) as [l k v r -> Hc Hl Hr|l r -> Hl Hr].
  - by rewrite lookup_key_found in Hn.
  - apply delete_key_absent. apply Forall_app. auto using lt_not_key, gt_not_key.
Qed.
Lemma delete_key_removes key es es' : sorted_entries es → removes key es es' → es' = delete_key key es.
Proof.
  intros Hs (a & k & v & b & -> & Hc & ->).
  assert (Forall (lt_key k) a ∧ Forall (gt_key k) b) as [Ha Hb] by (by eapply sorted_gap).
  unfold delete_key. rewrite filter_app, filter_cons_False by naive_solver.
  f_equal; symmetry; apply delete_key_absent.
  - apply lt_not_key. eapply Forall_impl; [exact Ha|]. intros e He. unfold lt_key in *.
    eapply key_lt_le_trans; [exact He|]. unfold key_le. lia.
  - apply gt_not_key. eapply Forall_impl; [exact Hb|]. intros e He. unfold gt_key in *.
    eapply key_le_lt_trans; [|exact He]. apply key_eq_flip in Hc. unfold key_le. lia.
Qed.

(** The pages an operation frees and those it leaves alone. *)
Definition freed_ok st (o : option Tree) st' (o' : option Tree) : Prop :=
  (∀ q, q ∉ index_foot T o → st_pages st' !! q = st_pages st !! q) ∧
  (∀ q, q ∈ index_foot T o' → q ∈ index_foot T o) ∧
  (∀ q, q ∈ index_foot T o → q ∉ index_foot T o' → st_pages st' !! q = None).

(** The index between [RecursiveDelete] and the root collapse: the top node may be one short. *)
Definition top_low st t (d : nat) : Prop :=
  store_ok st ∧ st_pages st !! header_page_id_ T = Some (HeaderPage (tpid t)) ∧
  rep T d (st_pages st) t ∧ bal T 0 1 d t ∧ sorted (trace t) ∧ NoDup (foot t) ∧
  (header_page_id_ T ∉ foot t) ∧ chain (links t) INVALID_PAGE_ID.

Lemma header_kept st p :
  store_ok st → st_pages st !! header_page_id_ T = Some p →
  ∀ h, store_ok (set_page (header_page_id_ T) h st).
Proof. intros Hst Hp h. by eapply set_page_owned. Qed.

(** A top node that does not collapse. *)
Lemma top_low_index st t d :
  top_low st t d → bal T 1 2 d t → index_at T st (Some t).
Proof.
  intros (Hst & Hh & Hr & _ & Hs & Hn & Hhn & Hc) Hb. split; [done|done|].
  intros ? [= <-]. exists d. by split_and!.
Qed.

Lemma collapse_stays fuel st t d :
  top_low st t d → bal T 1 2 d t → collapse_root (S fuel) T (tpid t) st = (Ok tt, st).
Proof.
  intros (Hst & Hh & Hr & _) Hb. cbn [collapse_root].
  rewrite bool_decide_false by (by eapply index_root_valid).
  destruct d, t as [pid nx es|pid kids]; try done.
  - destruct Hr as (p & Hp & [(Hsz & _) _]). run (load_ok _ _ _ Hp). simpl in Hb.
    by rewrite Hsz, bool_decide_false by lia.
  - destruct Hr as [(p & Hp & Hn) _]. run (load_ok _ _ _ Hp). destruct Hb as [Hb _].
    destruct Hn as (Hsz & _). rewrite slots_of_length in Hsz. by rewrite Hsz, bool_decide_false by lia.
Qed.

Lemma one_kid pid k c :
  foot (TNode pid [(k, c)]) = pid :: foot c ∧ trace (TNode pid [(k, c)]) = trace c ∧
  flat (TNode pid [(k, c)]) = flat c ∧ links (TNode pid [(k, c)]) = links c.
Proof. simpl. by rewrite !app_nil_r. Qed.

(** The one leaf left is empty: the tree goes. *)
Lemma collapse_empty fuel st pid nx :
  top_low st (TLeaf pid nx []) 0 →
  ∃ st', collapse_root (S fuel) T pid st = (Ok tt, st') ∧ index_at T st' None ∧
    freed_ok st (Some (TLeaf pid nx [])) st' None.
Proof.
  intros Hlow. pose proof Hlow as (Hst & Hh & Hr & _ & _ & _ & Hhn & _).
  pose proof (index_root_valid T st _ _ Hst Hr) as Hinv. simpl in Hinv.
  destruct Hr as (p & Hp & [(Hsz & _) _]). simpl in Hhn.
  assert (header_page_id_ T ≠ pid) as Hne by set_solver.
  cbn [collapse_root]. rewrite bool_decide_false by done. run (load_ok _ _ _ Hp).
  rewrite Hsz, bool_decide_true by done.
  set (st' := DeletePage pid (set_page (header_page_id_ T) (HeaderPage INVALID_PAGE_ID) st)).
  exists st'. split; [by destruct fuel|]. split.
  - split; [|simpl; by rewrite lookup_delete_ne, lookup_insert_eq by done|done].
    eapply DeletePage_ok; [by eapply header_kept|]. simpl. by rewrite lookup_insert_ne by done.
  - unfold freed_ok, index_foot, st'. simpl. split_and!; intros q; rewrite ?elem_of_cons, ?elem_of_nil.
    + intros Hq. rewrite lookup_delete_ne, lookup_insert_ne by naive_solver. done.
    + tauto.
    + intros [->|[->|[]]] Hq; [tauto|]. by rewrite lookup_delete_eq.
Qed.

(** A top node with one child: the child becomes the root. *)
Lemma collapse_child fuel st pid k c d :
  top_low st (TNode pid [(k, c)]) (S d) →
  ∃ st', collapse_root (S (S fuel)) T pid st = (Ok tt, st') ∧ index_at T st' (Some c) ∧
    freed_ok st (Some (TNode pid [(k, c)])) st' (Some c).
Proof.
  intros Hlow. pose proof Hlow as (Hst & Hh & Hr & Hb & Hs & Hn & Hhn & Hc).
  pose proof (index_root_valid T st _ _ Hst Hr) as Hinv. simpl in Hinv.
  destruct Hr as [(p & Hp & Hnode) Hk]. apply Forall_cons in Hk as [Hrc _]. simpl in Hrc.
  destruct Hb as [_ Hkb]. apply Forall_cons in Hkb as [Hbc _]. simpl in Hbc.
  destruct (one_kid pid k c) as (Ef & Et & _ & El). rewrite Ef in Hn, Hhn. rewrite Et in Hs. rewrite El in Hc.
  apply NoDup_cons in Hn as [Hpc Hnc]. rewrite elem_of_cons in Hhn.
  set (st' := DeletePage pid (set_page (header_page_id_ T) (HeaderPage (tpid c)) st)).
  assert (∀ q, q ≠ pid → q ≠ header_page_id_ T → st_pages st' !! q = st_pages st !! q) as Hfr.
  { intros q ? ?. simpl. by rewrite lookup_delete_ne, lookup_insert_ne by done. }
  assert (top_low st' c d) as Hlow'.
  { split_and!.
    - eapply DeletePage_ok; [by eapply header_kept|]. simpl. by rewrite lookup_insert_ne by naive_solver.
    - simpl. rewrite lookup_delete_ne by naive_solver. by rewrite lookup_insert_eq.
    - eapply rep_frame; [exact Hrc|]. intros q Hq. apply Hfr; intros ->; naive_solver.
    - destruct (min_leaf_pos T Hgs) as [? _]. destruct (min_internal_pos T Hgs) as [? _].
      eapply bal_weaken; [exact Hbc|lia|lia].
    - done.
    - done.
    - naive_solver.
    - done. }
  assert (bal T 1 2 d c) as Hbc'.
  { destruct (min_leaf_pos T Hgs) as [? _]. destruct (min_internal_pos T Hgs) as [? _].
    eapply bal_weaken; [exact Hbc|lia|lia]. }
  exists st'. split.
  - cbn [collapse_root]. rewrite bool_decide_false by done. run (load_ok _ _ _ Hp).
    pose proof Hnode as (Hsz & _). rewrite Hsz, bool_decide_true by done.
    run (node_ValueAt _ _ _ [] k (tpid c) [] 0 Hnode eq_refl eq_refl).
    exact (collapse_stays fuel st' c d Hlow' Hbc').
  - split; [by eapply top_low_index|]. unfold index_foot, freed_ok, index_foot. rewrite Ef. split_and!.
    + intros q. rewrite !elem_of_cons. intros Hq. apply Hfr; naive_solver.
    + intros q. rewrite !elem_of_cons. naive_solver.
    + intros q. rewrite !elem_of_cons. intros Hq Hnq. assert (q = pid) as -> by naive_solver.
      simpl. by rewrite lookup_delete_eq.
Qed.

Lemma freed_refl st o : freed_ok st o st o.
Proof. by split_and!. Qed.

Lemma collapse_ok fuel st t d :
  top_low st t d →
  ∃ st' o', collapse_root (S (S fuel)) T (tpid t) st = (Ok tt, st') ∧ index_at T st' o' ∧
    contents o' = flat t ∧ freed_ok st (Some t) st' o'.
Proof.
  intros Hlow. pose proof Hlow as (_ & _ & Hr & Hb & _).
  assert (bal T 1 2 d t → ∃ st' o', collapse_root (S (S fuel)) T (tpid t) st = (Ok tt, st') ∧
    index_at T st' o' ∧ contents o' = flat t ∧ freed_ok st (Some t) st' o') as Hstay.
  { intros Hbal. exists st, (Some t). split_and!; [by eapply collapse_stays|by eapply top_low_index|done|apply freed_refl]. }
  destruct d, t as [pid nx es|pid kids]; try done.
  - destruct es as [|en es]; [|apply Hstay; simpl in *; lia].
    destruct (collapse_empty (S fuel) st pid nx Hlow) as (st' & E & ? & ?). exists st', None. by split_and!.
  - destruct Hb as [Hb Hkb]. destruct kids as [|[k c] [|kc kids]]; [simpl in Hb; lia| |].
    + destruct (collapse_child fuel st pid k c d Hlow) as (st' & E & ? & ?). exists st', (Some c).
      split_and!; try done. by destruct (one_kid pid k c) as (_ & _ & -> & _).
    + apply Hstay. split; [simpl in *; lia|done].
Qed.

(** ** The pessimistic half *)

Definition remove_pessimistic (key : K) : ST IdxStore unit :=
  root_page_id ← load_header (header_page_id_ T);
  if bool_decide (root_page_id = INVALID_PAGE_ID) then mret tt else
  let ctx := mkContext true root_page_id [root_page_id] in
  '(_, ctx) ← with_fuel (λ f, RecursiveDelete f ctx key);
  if negb (header_page_ ctx) then mret tt else
  rid ← load_header (header_page_id_ T);
  with_fuel (λ f, collapse_root f T rid).

Lemma index_del_pre st t key :
  index_at T st (Some t) →
  ∃ d, (d < S (size (st_pages st)))%nat ∧
    del_pre T d 1 2 key [] [] INVALID_PAGE_ID t Top [] (tpid t) st.
Proof.
  intros [Hst Hh Ht]. destruct (Ht t eq_refl) as (d & Hr & Hb & Hs & Hn & Hhn & Hc).
  destruct (min_internal_pos T Hgs) as [? _]. exists d.
  split; [apply (enough_fuel T d t 1 2); (done || lia)|].
  split; simpl; try done; [by constructor|by constructor|by rewrite app_nil_r].
Qed.

Lemma changed_top_low st t st' t' d key :
  index_at T st (Some t) → tpid t' = tpid t → rep T d (st_pages st') t' → bal T 0 1 d t' →
  changed (removes key) [] [] INVALID_PAGE_ID t st st' (trace t') (flat t') (foot t') (links t') →
  top_low st' t' d ∧ freed_ok st (Some t) st' (Some t') ∧ flat t' = delete_key key (flat t).
Proof.
  intros [Hst Hh Ht] Hpid Hr Hb [].
  destruct (Ht t eq_refl) as (d0 & _ & _ & Hs & _ & Hhn & _). rewrite app_nil_r in c_sorted. split_and!.
  - split_and!; try done.
    + rewrite c_frame by done. by rewrite Hh, Hpid.
    + intros Hin. by apply Hhn, c_foot.
  - unfold freed_ok, index_foot. split_and!; intros q; rewrite ?elem_of_cons.
    + intros Hq. apply c_frame. tauto.
    + intros [->|Hq]; [by left|right; auto].
    + intros [->|Hq] Hnq; [tauto|]. apply c_dead; tauto.
  - apply delete_key_removes; [|done]. by apply flat_sorted.
Qed.

Lemma freed_trans st o st1 o1 st2 o2 :
  freed_ok st o st1 o1 → freed_ok st1 o1 st2 o2 → freed_ok st o st2 o2.
Proof.
  intros (H1 & H2 & H3) (H4 & H5 & H6). split_and!.
  - intros q Hq. rewrite H4 by auto. auto.
  - auto.
  - intros q Hq Hn. destruct (decide (q ∈ index_foot T o1)); [auto|]. rewrite H4 by done. auto.
Qed.

Lemma remove_pessimistic_ok key st o :
  index_at T st o →
  ∃ st' o', remove_pessimistic key st = (Ok tt, st') ∧ index_at T st' o' ∧
    contents o' = delete_key key (contents o) ∧ freed_ok st o st' o'.
Proof.
  intros Hia. pose proof Hia as [Hst Hh Ht]. unfold remove_pessimistic. run (load_header_ok _ _ _ Hh).
  destruct o as [t|].
  2:{ exists st, None. rewrite bool_decide_true by done. split_and!; try done. }
  destruct (Ht t eq_refl) as (d0 & Hr0 & _ & Hs & _ & Hhn & _).
  rewrite bool_decide_false by (by eapply index_root_valid).
  destruct (index_del_pre st t key Hia) as (d & Hfuel & Hpre).
  destruct (RecursiveDelete_ok T Hgs d _ 1 2 key [] [] INVALID_PAGE_ID t Top [] (mkContext true (tpid t) [tpid t]) st Hfuel Hpre eq_refl)
    as (res & ctx' & st' & Erec & Hout).
  run (with_fuel_ok (λ f, RecursiveDelete f _ key) _ _ Erec). clear Erec. pose proof (flat_sorted _ Hs) as Hfs.
  destruct Hout as [ctx' Hnone Hws Hhd|t' ctx' st' Hws Hpid Hr' Hb' Hc'|? ? ? ? ? ? ? Hup]; [| |done].
  - rewrite Hhd. simpl. exists st, (Some t). split_and!; [done|done|by rewrite delete_key_none|apply freed_refl].
  - destruct (changed_top_low st t st' t' d key Hia Hpid Hr') as (Hlow & Hfr & Hfl); [|done|].
    { destruct Hb' as [Hb'|(_ & _ & Hb')]; [|exact Hb']. by eapply bal_weaken; [exact Hb'|lia|lia]. }
    destruct (header_page_ ctx') eqn:Ehd; simpl.
    + pose proof Hlow as (_ & Hh' & _). run (load_header_ok _ _ _ Hh').
      destruct (size (st_pages st')) as [|n] eqn:Esz.
      { apply map_size_empty_inv in Esz. rewrite Esz in Hh'. done. }
      destruct (collapse_ok n st' t' d Hlow) as (st2 & o2 & Eco & Hia2 & Hfl2 & Hfr2).
      exists st2, o2. unfold with_fuel. rewrite Esz. split_and!; [done|done|simpl; congruence|by eapply freed_trans].
    + exists st', (Some t'). split_and!; [done| |done|done]. eapply top_low_index; [done|].
      by destruct Hb' as [Hb'|(_ & ? & _)].
Qed.

(** ** The optimistic path *)

Lemma leaf_Remove_size key idx (p : BPlusTreeLeafPage K V) b p' :
  leaf_Remove key idx p = Ok (b, p') →
  max_size_ (leaf_node p') = max_size_ (leaf_node p) ∧ size_ (leaf_node p) - 1 ≤ size_ (leaf_node p').
Proof.
  unfold leaf_Remove. intros (i & _ & H)%result_bind_ok.
  destruct (bool_decide _); [injection H as <- <-; lia|].
  apply result_bind_ok in H as (k & _ & H). destruct (bool_decide _); [injection H as <- <-; lia|].
  apply result_bind_ok in H as (q & Hq & H). injection H as <- <-.
  unfold leaf_RemoveAt in Hq. apply result_bind_ok in Hq as (n & Hn & [= <-]).
  unfold node_RemoveAt in Hn. apply result_bind_ok in Hn as (a & _ & [= <-]). simpl. lia.
Qed.

(** A leaf that stays large enough, or is the root: what the call does does not depend on the write
    set. *)
Definition leaf_delete_result (key : K) (leaf : BPlusTreeLeafPage K V) : result (option (BPlusTreeLeafPage K V)) :=
  b ← BisectRight (leaf_node leaf) key 0;
  status ← leaf_ContainsKey key (b - 1) leaf;
  if bool_decide (status ≠ LIVE) then Ok None else
  '(_, leaf) ← leaf_Remove key (b - 1) leaf;
  Ok (Some leaf).

Lemma delete_leaf_eq pid leaf st ctx key :
  st_pages st !! pid = Some (LeafNode leaf) → last (write_set_ ctx) = Some pid →
  write_set_ (pop_back ctx) = [] ∨ pid = root_page_id_ ctx ∨ GetMinSize (leaf_node leaf) < size_ (leaf_node leaf) →
  RecursiveDeleteLeaf ctx key st =
    match leaf_delete_result key leaf with
    | Err er => (Err er, st)
    | Ok None => (Ok (false, drop_header (set_write_set [] (pop_back ctx))), st)
    | Ok (Some leaf') =>
        (Ok (true, let ctx := set_write_set [] (pop_back ctx) in
                   if bool_decide (pid ≠ root_page_id_ ctx) then drop_header ctx else ctx),
         set_page pid (LeafNode leaf') st)
    end.
Proof.
  intros Hp Hw Hsafe. unfold RecursiveDeleteLeaf, leaf_delete_result. rewrite Hw. run (load_leaf_ok _ _ _ Hp).
  unfold mbind, ST_bind, st_lift, result_bind.
  destruct (BisectRight (leaf_node leaf) key 0) as [b|]; [|done].
  destruct (leaf_ContainsKey key (b - 1) leaf) as [status|]; [|done].
  destruct (bool_decide (status ≠ LIVE)); [done|].
  destruct (leaf_Remove key (b - 1) leaf) as [[bb p']|] eqn:Er; [|done].
  destruct (leaf_Remove_size _ _ _ _ _ Er) as [Em Es]. unfold store.
  assert ((bool_decide (GetMinSize (leaf_node p') ≤ size_ (leaf_node p'))
     || bool_decide (write_set_ (pop_back ctx) = [])
     || bool_decide (pid = root_page_id_ (pop_back ctx))) = true) as ->; [|done].
  rewrite !orb_true_iff, !bool_decide_eq_true. unfold GetMinSize in *. rewrite Em.
  destruct Hsafe as [?|[?|?]]; [auto|auto|]. left. left. lia.
Qed.

Lemma optimistic_delete_agrees fuel key pid lid leaf st ctx :
  find_leaf fuel key pid st = (Ok (lid, leaf), st) → st_pages st !! lid = Some (LeafNode leaf) →
  last (write_set_ ctx) = Some pid →
  lid = root_page_id_ ctx ∨ GetMinSize (leaf_node leaf) < size_ (leaf_node leaf) →
  ∀ cx st', RecursiveDeleteLeaf (mkContext false INVALID_PAGE_ID [lid]) key st = (Ok (true, cx), st') →
  ∃ ctx', RecursiveDelete fuel ctx key st = (Ok (true, ctx'), st') ∧ write_set_ ctx' = [] ∧
    (lid ≠ root_page_id_ ctx → header_page_ ctx' = false).
Proof.
  revert pid ctx. induction fuel as [|f IH]; intros pid ctx Hfind Hlid Hw Hsafe cx st' Hleaf; [done|].
  cbn [RecursiveDelete find_leaf] in *. rewrite Hw. unfold mbind at 1, ST_bind at 1 in Hfind.
  unfold load in Hfind. destruct (st_pages st !! pid) as [[r|p|n]|] eqn:Hp; try done.
  - assert (IsLeafPage pid st = (Ok true, st)) as El by (unfold IsLeafPage; by run (load_ok _ _ _ Hp)).
    run El. injection Hfind as <- <-.
    rewrite (delete_leaf_eq pid p) in Hleaf by (done || by left).
    rewrite (delete_leaf_eq pid p) by (done || by right).
    destruct (leaf_delete_result key p) as [[p'|]|]; try done. injection Hleaf as _ <-.
    eexists. split; [done|]. cbn [root_page_id_ set_write_set pop_back].
    destruct (bool_decide_reflect (pid ≠ root_page_id_ ctx)); simpl; [done|]. split; [done|naive_solver].
  - assert (IsLeafPage pid st = (Ok false, st)) as El by (unfold IsLeafPage; by run (load_ok _ _ _ Hp)).
    run El. run (load_internal_ok _ _ _ Hp).
    set (ctx1 := if bool_decide (GetMinSize n < size_ n) then _ else ctx).
    assert (root_page_id_ ctx1 = root_page_id_ ctx) as Hroot.
    { unfold ctx1. destruct (bool_decide _); [|done]. by destruct (bool_decide _). }
    unfold mbind at 1, ST_bind at 1, st_lift at 1 in Hfind. unfold mbind at 1, ST_bind at 1, st_lift at 1.
    destruct (BisectRight n key 1) as [b|]; [|done].
    unfold mbind at 1, ST_bind at 1, st_lift at 1 in Hfind. unfold mbind at 1, ST_bind at 1, st_lift at 1.
    destruct (ValueAt n (b - 1)) as [child|]; [|done].
    destruct (IH child (push_back child ctx1) Hfind Hlid (last_snoc _ _)) with (cx := cx) (st' := st')
      as (ctx' & Erec & Hws & Hhd); [simpl; by rewrite Hroot|done|].
    exists ctx'. run Erec. rewrite Hws. split_and!; [done|done|]. simpl in Hhd. by rewrite Hroot in Hhd.
Qed.

Lemma leaf_delete_cases key es nx p :
  leaf_is (leaf_max_size_ T) es nx p → sorted_entries es →
  leaf_delete_result key p = Ok None ∨
  ∃ p', leaf_delete_result key p = Ok (Some p') ∧ size_ (leaf_node p) - 1 ≤ size_ (leaf_node p').
Proof.
  intros Hl Hs. unfold leaf_delete_result.
  destruct (locate key es Hs) as [a k v b -> Hc Ha Hb|a b -> Ha Hb].
  - right. destruct (leaf_search_found _ _ _ _ _ _ _ _ _ Hl eq_refl Hc Ha Hb) as (E & _ & E').
    rewrite E. cbn [mbind result_bind]. rewrite Z.add_simpl_r, E'. cbn [mbind result_bind].
    rewrite bool_decide_false by naive_solver.
    destruct (leaf_Remove_ok _ _ _ _ _ _ _ key Hl Hc) as (p' & Er & _). rewrite Er. cbn [mbind result_bind].
    exists p'. split; [done|]. by eapply leaf_Remove_size.
  - left. destruct (leaf_search_missing _ _ _ _ _ _ _ Hl eq_refl Ha Hb) as (E & _ & E' & _).
    rewrite E. cbn [mbind result_bind]. rewrite E'. cbn [mbind result_bind]. by rewrite bool_decide_true.
Qed.

Lemma Remove_agrees key st o : index_at T st o → Remove T key st = remove_pessimistic key st.
Proof.
  intros Hia. pose proof Hia as [Hst Hh Ht]. unfold Remove.
  assert (TryOptimisticDelete T key st = (Ok false, st) →
    (TryOptimisticDelete T key ≫= λ fin : bool, if fin then mret tt else remove_pessimistic key) st = remove_pessimistic key st)
    as Hretry by (intros E; by run E).
  fold (remove_pessimistic key).
  destruct o as [t|].
  2:{ assert (TryOptimisticDelete T key st = (Ok true, st)) as E.
      { unfold TryOptimisticDelete. run (load_header_ok _ _ _ Hh). by rewrite bool_decide_true. }
      run E. unfold remove_pessimistic. run (load_header_ok _ _ _ Hh). by rewrite bool_decide_true. }
  destruct (Ht t eq_refl) as (d & Hr & Hb & Hs & Hnd & Hhd & Hch).
  destruct (min_internal_pos T Hgs) as [Hmi _].
  pose proof (enough_fuel T d t 1 2 st Hr Hb ltac:(lia) ltac:(lia) Hnd) as Hfuel.
  destruct (find_leaf_ok T d (S (size (st_pages st))) key t 1 2 st) as
    (pid & nx & es & p & la & ra & L1 & L2 & Ef & Hp & Hl & Et & _); [done|done|lia|lia|done|done|].
  set (unsafe := if bool_decide (pid = tpid t) then bool_decide (size_ (leaf_node p) ≤ 1)
    else bool_decide (size_ (leaf_node p) ≤ GetMinSize (leaf_node p))).
  assert (unsafe = true → TryOptimisticDelete T key st = (Ok false, st)) as Hun.
  { intros E. unfold TryOptimisticDelete. run (load_header_ok _ _ _ Hh).
    rewrite bool_decide_false by (by eapply index_root_valid).
    run (with_fuel_ok (λ f, find_leaf f key (tpid t)) _ _ Ef). fold unsafe. by rewrite E. }
  destruct unsafe eqn:Eun; [by apply Hretry, Hun|]. unfold unsafe in Eun.
  assert (pid = tpid t ∨ GetMinSize (leaf_node p) < size_ (leaf_node p)) as Hsafe.
  { destruct (bool_decide_reflect (pid = tpid t)); [by left|right]. apply bool_decide_eq_false in Eun. lia. }
  pose proof (delete_leaf_eq pid p st (mkContext false INVALID_PAGE_ID [pid]) key Hp eq_refl (or_introl eq_refl)) as El.
  rewrite Et in Hs. destruct (leaf_delete_cases key es nx p Hl (sorted_mid _ _ _ Hs)) as [En|(p' & Es & Hsz)].
  { rewrite En in El. apply Hretry. unfold TryOptimisticDelete. run (load_header_ok _ _ _ Hh).
    rewrite bool_decide_false by (by eapply index_root_valid).
    run (with_fuel_ok (λ f, find_leaf f key (tpid t)) _ _ Ef). rewrite Eun. by run El. }
  rewrite Es in El. set (st1 := set_page pid (LeafNode p') st) in *.
  assert (TryOptimisticDelete T key st = (Ok true, st1)) as Etry.
  { unfold TryOptimisticDelete. run (load_header_ok _ _ _ Hh).
    rewrite bool_decide_false by (by eapply index_root_valid).
    run (with_fuel_ok (λ f, find_leaf f key (tpid t)) _ _ Ef). rewrite Eun. by run El. }
  run Etry. unfold remove_pessimistic. run (load_header_ok _ _ _ Hh).
  rewrite bool_decide_false by (by eapply index_root_valid).
  destruct (optimistic_delete_agrees _ key (tpid t) pid p st (mkContext true (tpid t) [tpid t]) Ef Hp eq_refl Hsafe _ _ El)
    as (ctx' & Erec & _ & Hhdr).
  run (with_fuel_ok (λ f, RecursiveDelete f _ key) _ _ Erec). simpl in Hhdr.
  destruct (decide (pid = tpid t)) as [Epid|Hne]; [|by rewrite Hhdr].
  destruct (header_page_ ctx'); [|done]. simpl.
  assert (header_page_id_ T ≠ pid) as Hhne by (intros E; apply Hhd; rewrite E, Epid; apply tpid_foot).
  assert (st_pages st1 !! header_page_id_ T = Some (HeaderPage (tpid t))) as Hh1
    by (simpl; by rewrite lookup_insert_ne).
  assert (st_pages st1 !! tpid t = Some (LeafNode p')) as Hp1 by (simpl; by rewrite Epid, lookup_insert_eq).
  run (load_header_ok _ _ _ Hh1). unfold with_fuel. cbn [collapse_root].
  rewrite bool_decide_false by (by eapply index_root_valid). run (load_ok _ _ _ Hp1).
  rewrite (bool_decide_true (pid = tpid t)), bool_decide_eq_false in Eun by done.
  by rewrite bool_decide_false by lia.
Qed.

Lemma Remove_ok key st o :
  index_at T st o →
  ∃ st' o', Remove T key st = (Ok tt, st') ∧ index_at T st' o' ∧
    contents o' = delete_key key (contents o) ∧ freed_ok st o st' o'.
Proof. intros Hia. rewrite (Remove_agrees _ _ _ Hia). by apply remove_pessimistic_ok. Qed.

(** ** [FreeAllPages] *)

Lemma child_ids_ok mx kids p n i :
  node_is mx (slots_of kids) p → 0 ≤ i → (Z.to_nat i + n = length kids)%nat →
  child_ids n i p = Ok (map (λ kc, tpid kc.2) (drop (Z.to_nat i) kids)).
Proof.
  intros Hn. revert i. induction n as [|n IH]; intros i Hi Hlen; simpl.
  - by rewrite drop_ge by lia.
  - destruct (lookup_lt_is_Some_2 kids (Z.to_nat i)) as [[k c] Hkc]; [lia|].
    apply list_elem_of_split_length in Hkc as Hsp. destruct Hsp as (k1 & k2 & -> & Hl).
    rewrite (node_ValueAt _ _ _ (slots_of k1) k (tpid c) (slots_of k2) i Hn).
    2:{ by rewrite slots_of_app. }
    2:{ rewrite slots_of_length. lia. }
    cbn [mbind result_bind]. rewrite IH by (rewrite ?length_app in *; simpl in *; lia). cbn [mbind result_bind].
    f_equal. rewrite Hl, drop_app_length. simpl. f_equal.
    replace (Z.to_nat (i + 1)) with (length (k1 ++ [(k, c)])) by (rewrite length_app; simpl; lia).
    replace (k1 ++ (k, c) :: k2) with ((k1 ++ [(k, c)]) ++ k2) by (by rewrite <-app_assoc).
    by rewrite drop_app_length.
Qed.

(** The pages of [ps] are gone and nothing else has changed. *)
Definition freed (ps : list Z) st st' : Prop :=
  store_ok st' ∧ (∀ q, q ∈ ps → st_pages st' !! q = None) ∧ (∀ q, q ∉ ps → st_pages st' !! q = st_pages st !! q).

Lemma free_page_ok pid p st : store_ok st → st_pages st !! pid = Some p →
  ∃ st', delete_page pid st = (Ok tt, st') ∧ freed [pid] st st'.
Proof.
  intros Hst Hp. eexists. split; [done|]. split_and!; [by eapply DeletePage_ok| |].
  - intros q ->%list_elem_of_singleton. simpl. by rewrite lookup_delete_eq.
  - intros q Hq. simpl. rewrite lookup_delete_ne; [done|]. set_solver.
Qed.
Lemma freed_app ps1 ps2 st st1 st2 :
  freed ps1 st st1 → freed ps2 st1 st2 → freed (ps1 ++ ps2) st st2.
Proof.
  intros (H1 & H2 & H3) (H4 & H5 & H6). split_and!; [done| |].
  - intros q Hq. destruct (decide (q ∈ ps2)); [auto|]. rewrite H6 by done. apply H2.
    apply elem_of_app in Hq. tauto.
  - intros q Hq. rewrite elem_of_app in Hq. rewrite H6, H3 by tauto. done.
Qed.

Lemma FreeSubtree_ok d fuel t st :
  (d < fuel)%nat → store_ok st → rep T d (st_pages st) t → NoDup (foot t) →
  ∃ st', FreeSubtree fuel (tpid t) st = (Ok tt, st') ∧ freed (tail (foot t) ++ [tpid t]) st st'.
Proof.
  revert d t st. induction fuel as [|f IH]; intros d t st Hf Hst Hr Hn; [lia|]. cbn [FreeSubtree].
  destruct d as [|d], t as [pid nx es|pid kids]; try done.
  - destruct Hr as (p & Hp & _). run (load_ok _ _ _ Hp). cbn [for_each]. simpl. by eapply free_page_ok.
  - destruct Hr as [(p & Hp & Hnode) Hk]. run (load_ok _ _ _ Hp). pose proof Hnode as (Hsz & _).
    rewrite slots_of_length in Hsz.
    pose proof (child_ids_ok _ kids p (Z.to_nat (size_ p)) 0 Hnode ltac:(lia) ltac:(rewrite Hsz; lia)) as Ec.
    run Ec. simpl drop. rewrite foot_kids in Hn. apply NoDup_cons in Hn as [Hpn Hn].
    assert (∃ st1, for_each (FreeSubtree f) (map (λ kc, tpid kc.2) kids) st = (Ok tt, st1) ∧
      freed (kfoot kids) st st1) as (st1 & Efor & Hfr).
    { clear Hp Hnode Ec Hsz Hpn. revert st Hst Hk. induction kids as [|[k c] kids IHk]; intros st Hst Hk.
      { exists st. split; [done|]. split_and!; [done|by intros ? ?%elem_of_nil|done]. }
      apply Forall_cons in Hk as [Hc Hk]. rewrite kfoot_cons in *. apply NoDup_app in Hn as (Hnc & Hdis & Hnk).
      destruct (IH d c st ltac:(lia) Hst Hc Hnc) as (sa & Ea & Hfa).
      assert (freed (foot c) st sa) as Hfa'.
      { rewrite (foot_head c). destruct Hfa as (? & Hx & Hy). split_and!; [done|..].
        - intros q Hq. apply Hx. rewrite elem_of_app, list_elem_of_singleton. rewrite elem_of_cons in Hq. tauto.
        - intros q Hq. apply Hy. rewrite elem_of_app, list_elem_of_singleton. rewrite elem_of_cons in Hq. tauto. }
      destruct (IHk Hnk sa) as (sb & Eb & Hfb).
      { apply Hfa'. }
      { apply Forall_forall. intros [k1 c1] Hin. pose proof Hk as Hk'. eapply Forall_forall in Hk'; [|exact Hin].
        eapply rep_frame; [exact Hk'|]. intros q Hq. destruct Hfa' as (_ & _ & Hy). apply Hy.
        intros Hqc. apply (Hdis q Hqc). apply elem_of_kfoot. eauto. }
      exists sb. split; [|by eapply freed_app]. simpl. run Ea. exact Eb. }
    run Efor. pose proof Hfr as (Hst1 & _ & Hkeep).
    destruct (free_page_ok pid (InternalNode p) st1 Hst1) as (st2 & E2 & Hf2).
    { rewrite Hkeep by done. done. }
    exists st2. split; [done|]. by eapply freed_app.
Qed.

Lemma FreeAllPages_ok st o :
  index_at T st o → ∃ st', tree_FreeAllPages T st = (Ok tt, st') ∧ freed (index_foot T o) st st'.
Proof.
  intros Hia. pose proof Hia as [Hst Hh Ht]. unfold tree_FreeAllPages. run (load_header_ok _ _ _ Hh).
  destruct o as [t|].
  - destruct (Ht t eq_refl) as (d & Hr & Hb & Hs & Hnd & Hhd & Hch).
    destruct (min_internal_pos T Hgs) as [Hmi _].
    rewrite bool_decide_true by (by eapply index_root_valid).
    destruct (FreeSubtree_ok d (S (size (st_pages st))) t st) as (st1 & E1 & Hf1); [|done|done|done|].
    { apply (enough_fuel T d t 1 2); (done || lia). }
    run (with_fuel_ok (λ f, FreeSubtree f (tpid t)) _ _ E1). pose proof Hf1 as (Hst1 & _ & Hkeep).
    rewrite foot_head in Hhd. rewrite elem_of_cons in Hhd.
    destruct (free_page_ok (header_page_id_ T) (HeaderPage (tpid t)) st1 Hst1) as (st2 & E2 & Hf2).
    { rewrite Hkeep; [done|]. rewrite elem_of_app, list_elem_of_singleton. tauto. }
    exists st2. split; [done|]. pose proof (freed_app _ _ _ _ _ Hf1 Hf2) as (? & Hx & Hy).
    unfold index_foot. rewrite (foot_head t).
    split_and!; [done|..]; intros q Hq; [apply Hx|apply Hy]; revert Hq;
      rewrite !elem_of_cons, !elem_of_app, !list_elem_of_singleton; tauto.
  - rewrite bool_decide_false by naive_solver. by eapply free_page_ok.
Qed.
End remove.
