(* ===== verification/GenericKey.v ===== *)
(** * Index keys ([storage/index/generic_key.h]) and the index on top of the tree
    ([storage/index/b_plus_tree_index.h])

    A key is [KeySize] raw bytes with the key columns at the schema's offsets; the comparator loads
    each column with its type, in schema order.  A load that leaves the array is undefined.  Over integer
    columns that lie inside the key it is a total preorder ([generic_key_order]), which is what the tree needs;
    over floating-point columns it is not, because no comparison with a NaN holds. *)

From Stdlib Require Import Floats.SpecFloat.
From S2P Require Import Prelude TablePage TableHeap BTreePage BPlusTree.

(** [PhysicalType] of [type/logical_type.h]. *)
Inductive PhysicalType :=
  | TINYINT | SMALLINT | INTEGER | BIGINT | UTINYINT | USMALLINT | UINTEGER | UBIGINT
  | FLOAT | DOUBLE | STRING | STRUCT | LIST | ARRAY | UNKNOWN.

#[global] Instance PhysicalType_eq_dec : EqDecision PhysicalType.
Proof. solve_decision. Defined.

(** ** Typed loads *)

(** Little-endian value of some bytes. *)
Fixpoint le_value (bs : list byte) : Z :=
  match bs with
  | [] => 0
  | b :: bs => Z.of_N (Byte.to_N b) + 256 * le_value bs
  end.
(** The bytes of an integer of [n] bytes. *)
Fixpoint le_bytes (n : nat) (z : Z) : list byte :=
  match n with
  | O => []
  | S n => default Byte.x00 (Byte.of_N (Z.to_N (z mod 256))) :: le_bytes n (z / 256)
  end.

(** [Load<uintN_t>] and [Load<intN_t>] at [ptr + offset]; undefined outside the array. *)
Definition load_u (n : Z) (data : list byte) (offset : Z) : result Z :=
  if bool_decide (0 ≤ offset ∧ offset + n ≤ Z.of_nat (length data)) then Ok (le_value (mem_read data offset n)) else Err EUndefined.
Definition load_s (n : Z) (data : list byte) (offset : Z) : result Z := x ← load_u n data offset; Ok (wrap_s (8 * n) x).

(** The IEEE 754 number of a bit pattern with [mbits] mantissa and [ebits] exponent bits. *)
Definition float_of_bits (mbits ebits : Z) (bits : Z) : spec_float :=
  let sign := Z.testbit bits (mbits + ebits) in
  let e := Z.land (Z.shiftr bits mbits) (2 ^ ebits - 1) in
  let m := Z.land bits (2 ^ mbits - 1) in
  let bias := 2 ^ (ebits - 1) - 1 + mbits in
  if bool_decide (e = 2 ^ ebits - 1) then (if bool_decide (m = 0) then S754_infinity sign else S754_nan)
  else if bool_decide (e = 0) then
    match m with Z.pos p => S754_finite sign p (1 - bias) | _ => S754_zero sign end
  else match m + 2 ^ mbits with Z.pos p => S754_finite sign p (e - bias) | _ => S754_nan end.

(** ** [CompareScalar] and [GenericComparator] *)

Definition CompareScalar {A : Type} (lt : A → A → bool) (lhs rhs : A) : Z :=
  if lt lhs rhs then -1 else if lt rhs lhs then 1 else 0.

Record KeyColumn := mkKeyColumn { kc_type : PhysicalType; kc_offset : Z }.

Definition compare_column (col : KeyColumn) (lhs rhs : list byte) : result Z :=
  let off := kc_offset col in
  let ints (load : list byte → Z → result Z) := l ← load lhs off; r ← load rhs off; Ok (CompareScalar Z.ltb l r) in
  let floats n mbits ebits :=
    l ← load_u n lhs off; r ← load_u n rhs off;
    Ok (CompareScalar SFltb (float_of_bits mbits ebits l) (float_of_bits mbits ebits r)) in
  match kc_type col with
  | TINYINT => ints (load_s 1)
  | SMALLINT => ints (load_s 2)
  | INTEGER => ints (load_s 4)
  | BIGINT => ints (load_s 8)
  | UTINYINT => ints (load_u 1)
  | USMALLINT => ints (load_u 2)
  | UINTEGER => ints (load_u 4)
  | UBIGINT => ints (load_u 8)
  | FLOAT => floats 4 23 8
  | DOUBLE => floats 8 52 11
  | _ => Err (EException NOT_IMPLEMENTED "GenericComparator: variable-length key columns are not supported")
  end.

Fixpoint GenericComparator (key_schema : list KeyColumn) (lhs rhs : list byte) : result Z :=
  match key_schema with
  | [] => Ok 0
  | col :: cols =>
      cmp ← compare_column col lhs rhs;
      if bool_decide (cmp ≠ 0) then Ok cmp else GenericComparator cols lhs rhs
  end.

(** ** [GenericKey<KeySize>] *)

(** [data_t data_[KeySize]], compared through one key schema. *)
Record GenericKey (key_schema : list KeyColumn) (KeySize : Z) := mkKey {
  data_ : list byte;
  data_size : bool_decide (length data_ = Z.to_nat KeySize) = true }.
Arguments mkKey {key_schema KeySize} _ _.
Arguments data_ {key_schema KeySize} _.
Arguments data_size {key_schema KeySize} _.

Lemma key_eq_data {s n} (a b : GenericKey s n) : data_ a = data_ b → a = b.
Proof. destruct a as [d H], b as [d' H']. simpl. intros ->. f_equal. apply proof_irrel. Qed.
Definition as_key {s n} (d : list byte) : result (GenericKey s n) :=
  match bool_dec (bool_decide (length d = Z.to_nat n)) true with left H => Ok (mkKey d H) | right _ => Err EUndefined end.
(** The bytes of a key, cut or padded with zeroes to its size. *)
Definition sized {s n} (d : list byte) : GenericKey s n :=
  mkKey (resize (Z.to_nat n) Byte.x00 d) (bool_decide_eq_true_2 _ (length_resize d (Z.to_nat n) Byte.x00)).
Lemma as_key_sized {s n} d : length d = Z.to_nat n → as_key (s:=s) (n:=n) d = Ok (sized d).
Proof.
  intros Hd. unfold as_key. destruct (bool_dec _ _) as [H|H]; [|by rewrite bool_decide_true in H]. f_equal. apply key_eq_data. simpl. by rewrite resize_all_alt.
Qed.
#[global] Instance GenericKey_inhabited s n : Inhabited (GenericKey s n) := populate (sized []).

Definition SetFromKey {s} (KeySize : Z) (data : list byte) (len : Z) : result (GenericKey s KeySize) :=
  if bool_decide (len ≤ KeySize) then
    d ← mem_write (replicate (Z.to_nat KeySize) Byte.x00) 0 data len; as_key d
  else Err (EAssert "GenericKey::SetFromKey: key longer than KeySize").
Definition SetFromInteger {s} (KeySize : Z) (key : Z) : result (GenericKey s KeySize) :=
  d ← mem_write (replicate (Z.to_nat KeySize) Byte.x00) 0 (le_bytes 8 key) 8; as_key d.
Definition GetAsInteger {s n} (k : GenericKey s n) : result Z := load_s 8 (data_ k) 0.

(** The comparator of the tree; the default is never used on columns inside the key ([comparator_lexicographic]). *)
#[global] Instance generic_comparator s n : KeyComparator (GenericKey s n) := λ a b,
  match GenericComparator s (data_ a) (data_ b) with Ok c => c | Err _ => 0 end.

(** ** Which schemas give an order *)

Definition integer_column (col : KeyColumn) : bool :=
  match kc_type col with
  | TINYINT | SMALLINT | INTEGER | BIGINT | UTINYINT | USMALLINT | UINTEGER | UBIGINT => true
  | _ => false
  end.
Definition key_width (col : KeyColumn) : Z :=
  match kc_type col with
  | TINYINT | UTINYINT => 1 | SMALLINT | USMALLINT => 2 | INTEGER | UINTEGER | FLOAT => 4 | BIGINT | UBIGINT | DOUBLE => 8 | _ => 0
  end.
(** [KeySize] holds the key schema's inlined width. *)
Definition column_fits (KeySize : Z) (col : KeyColumn) : bool := bool_decide (0 ≤ kc_offset col ∧ kc_offset col + key_width col ≤ KeySize).
Definition schema_fits (KeySize : Z) (s : list KeyColumn) : bool := forallb integer_column s && forallb (column_fits KeySize) s.

(** The integer in a column. *)
Definition column_value (col : KeyColumn) (data : list byte) : Z :=
  let bits := le_value (mem_read data (kc_offset col) (key_width col)) in
  match kc_type col with
  | TINYINT | SMALLINT | INTEGER | BIGINT => wrap_s (8 * key_width col) bits
  | _ => bits
  end.

(** Lexicographic comparison of the loaded columns. *)
Fixpoint lex (l r : list Z) : comparison :=
  match l, r with
  | x :: l, y :: r => match Z.compare x y with Eq => lex l r | c => c end
  | _, _ => Eq
  end.
Definition sign_of (c : comparison) : Z := match c with Lt => -1 | Eq => 0 | Gt => 1 end.

Lemma load_u_ok n data off : 0 ≤ off → off + n ≤ Z.of_nat (length data) → load_u n data off = Ok (le_value (mem_read data off n)).
Proof. intros ??. unfold load_u. by rewrite bool_decide_true. Qed.
Lemma compare_column_int KeySize col lhs rhs :
  integer_column col = true → column_fits KeySize col = true → KeySize ≤ Z.of_nat (length lhs) → KeySize ≤ Z.of_nat (length rhs) →
  compare_column col lhs rhs = Ok (sign_of (Z.compare (column_value col lhs) (column_value col rhs))).
Proof.
  intros Hi [Ho Hw]%bool_decide_eq_true Hl Hr. assert (∀ x y, CompareScalar Z.ltb x y = sign_of (Z.compare x y)) as E.
  { intros x y. unfold CompareScalar, Z.ltb. rewrite (Z.compare_antisym y x). by destruct (Z.compare y x). }
  unfold integer_column, compare_column, column_value, key_width, load_s in *.
  destruct (kc_type col); try done; rewrite !load_u_ok by lia; cbn [mbind result_bind]; by rewrite E.
Qed.

Lemma GenericComparator_lex KeySize s lhs rhs :
  schema_fits KeySize s = true → KeySize ≤ Z.of_nat (length lhs) → KeySize ≤ Z.of_nat (length rhs) →
  GenericComparator s lhs rhs =
    Ok (sign_of (lex (map (λ c, column_value c lhs) s) (map (λ c, column_value c rhs) s))).
Proof.
  intros [Hi Hf]%andb_true_iff Hl Hr. induction s as [|col s IH]; [done|]. simpl in *. apply andb_true_iff in Hi as [Hc Hs], Hf as [Hfc Hfs].
  rewrite (compare_column_int KeySize) by done. cbn [mbind result_bind].
  destruct (Z.compare _ _); simpl; by rewrite ?IH.
Qed.
Lemma key_length {s n} (k : GenericKey s n) : n ≤ Z.of_nat (length (data_ k)).
Proof. pose proof (data_size k) as ->%bool_decide_eq_true. lia. Qed.

Lemma lex_refl l : lex l l = Eq.
Proof. induction l as [|x l IH]; [done|]. simpl. by rewrite Z.compare_refl. Qed.
Lemma lex_antisym l r : lex r l = CompOpp (lex l r).
Proof.
  revert r. induction l as [|x l IH]; intros [|y r]; try done. simpl.
  rewrite (Z.compare_antisym x y). destruct (Z.compare x y); simpl; auto.
Qed.
Lemma lex_trans l m r :
  length l = length m → length m = length r → lex l m ≠ Gt → lex m r ≠ Gt → lex l r ≠ Gt.
Proof.
  revert m r. induction l as [|x l IH]; intros [|y m] [|z r] H1 H2; try done. simpl in *.
  destruct (Z.compare_spec x y), (Z.compare_spec y z), (Z.compare_spec x z); intros ??; try done; try lia.
  eapply IH; [| |done|done]; lia.
Qed.

#[global] Instance generic_key_order s n : schema_fits n s = true → KeyOrder (GenericKey s n).
Proof.
  intros Hs.
  assert (∀ a b : GenericKey s n, comparator a b =
    sign_of (lex (map (λ c, column_value c (data_ a)) s) (map (λ c, column_value c (data_ b)) s))) as E.
  { intros a b. unfold comparator, generic_comparator. by rewrite (GenericComparator_lex n) by (done || apply key_length). }
  split.
  - intros a. by rewrite E, lex_refl.
  - intros a b. rewrite !E, lex_antisym. destruct (lex _ _); simpl; lia.
  - intros a b c. rewrite !E. intros H1 H2.
    pose proof (lex_trans (map (λ c, column_value c (data_ a)) s) (map (λ c, column_value c (data_ b)) s)
      (map (λ x, column_value x (data_ c)) s)) as Ht. rewrite !length_map in Ht. specialize (Ht eq_refl eq_refl).
    destruct (lex (map _ s) (map (λ c, column_value c (data_ b)) s)), (lex (map (λ c, column_value c (data_ b)) s) _),
      (lex _ _); simpl in *; try lia; exfalso; by apply Ht.
Qed.

(** ** Key bytes *)

Lemma byte_round_trip z : Z.of_N (Byte.to_N (default Byte.x00 (Byte.of_N (Z.to_N (z mod 256))))) = z mod 256.
Proof.
  pose proof (Z.mod_pos_bound z 256 ltac:(lia)) as Hb.
  destruct (Byte.of_N (Z.to_N (z mod 256))) as [b|] eqn:E; simpl.
  - apply Byte.to_of_N in E. rewrite E. lia.
  - exfalso. apply Byte.of_N_None_iff in E. lia.
Qed.
Lemma le_bytes_length n z : length (le_bytes n z) = n.
Proof. revert z. induction n as [|n IH]; intros z; [done|]. simpl. by rewrite IH. Qed.
Lemma le_value_bytes n z : le_value (le_bytes n z) = z mod 256 ^ Z.of_nat n.
Proof.
  revert z. induction n as [|n IH]; intros z; [simpl; by rewrite Z.mod_1_r|].
  cbn [le_bytes le_value]. rewrite byte_round_trip, IH.
  replace (256 ^ Z.of_nat (S n)) with (256 * 256 ^ Z.of_nat n) by (rewrite Nat2Z.inj_succ, Z.pow_succ_r; lia).
  rewrite Z.rem_mul_r by lia. done.
Qed.

(** A short key is copied and padded with zeroes, a longer one refused. *)
Lemma SetFromKey_ok {s} KeySize (data : list byte) :
  Z.of_nat (length data) ≤ KeySize → SetFromKey (s:=s) KeySize data (Z.of_nat (length data)) = Ok (sized data).
Proof.
  intros H. unfold SetFromKey. rewrite bool_decide_true by done.
  rewrite mem_write_ok by (rewrite ?length_replicate; lia). cbn [mbind result_bind].
  rewrite Nat2Z.id, firstn_all, Z.add_0_l, Nat2Z.id, drop_replicate. simpl take. rewrite app_nil_l.
  rewrite as_key_sized by (rewrite length_app, length_replicate; lia). f_equal. apply key_eq_data. simpl.
  rewrite (resize_all_alt (data ++ _)) by (rewrite length_app, length_replicate; lia). by rewrite resize_ge by lia.
Qed.
Lemma integer_key_round_trip {s} KeySize key (k : GenericKey s KeySize) :
  8 ≤ KeySize → SetFromInteger KeySize key = Ok k → GetAsInteger k = Ok (i64 key).
Proof.
  intros HK. unfold SetFromInteger. rewrite mem_write_ok by (rewrite ?length_replicate, ?le_bytes_length; lia). cbn [mbind result_bind].
  rewrite as_key_sized by (rewrite ?length_app, ?length_drop, ?length_replicate; simpl; rewrite ?length_app, ?length_drop, ?length_replicate, ?length_take, ?le_bytes_length; lia).
  intros [= <-]. unfold GetAsInteger, load_s. rewrite load_u_ok by (try apply (Z.le_trans _ KeySize), key_length; lia). cbn [mbind result_bind].
  unfold mem_read. simpl data_.
  match goal with |- context [le_value ?l] => replace l with (le_bytes 8 key) end.
  2:{ rewrite resize_all_alt by (rewrite ?length_app, ?length_drop, ?length_replicate; simpl; rewrite ?length_app, ?length_drop, ?length_replicate, ?length_take, ?le_bytes_length; lia). done. }
  rewrite le_value_bytes.
  unfold i64, wrap_s. change (256 ^ Z.of_nat 8) with (2 ^ 64). change (8 * 8) with 64.
  by rewrite Zplus_mod_idemp_l.
Qed.
