(* ===== verification/BTreeTheorems.v ===== *)
(** * The index interface over the tree ([storage/index/b_plus_tree_index.h])

    [BPlusTreeIndex<KeySize>] turns key bytes into [GenericKey]s and calls the tree.  Its operations are
    compared with [spec_op], one step of a sorted association list, for any sequence of calls after
    construction ([index_run_ok]).  The schemas are the supported ones: on a variable-length column the
    comparator throws, and on a column that leaves the key its load is undefined, neither of which the tree's
    [comparator] shows. *)

From stdpp Require Import sorting.
From Stdlib Require Import Floats.SpecFloat.
From S2P Require Import Prelude TablePage TableHeap BTreePage BPlusTree BTreeInvariant BTreeInsert BTreeIterator BTreeRemove GenericKey.

#[global] Instance RID_inhabited : Inhabited RID := populate (mkRID INVALID_PAGE_ID 0).

(** [LEAF_PAGE_SLOT_CNT] and [INTERNAL_PAGE_SLOT_CNT] for the key size: a [RID] has 8 bytes, a page id 4. *)
Definition LEAF_PAGE_SLOT_CNT (KeySize : Z) : Z := Z.quot (PAGE_SIZE - 16) (KeySize + 8).
Definition INTERNAL_PAGE_SLOT_CNT (KeySize : Z) : Z := Z.quot (PAGE_SIZE - 12) (KeySize + 4).

Section index.
Context (s : list KeyColumn) (KeySize : Z).
#[local] Abbreviation Key := (GenericKey s KeySize).
#[local] Abbreviation IdxStore := (Store (IndexPage Key RID)).

(** The tree over a header page, with the default node sizes. *)
Definition index_tree (header_page_id : Z) : BPlusTree :=
  mkTree header_page_id (LEAF_PAGE_SLOT_CNT KeySize) (INTERNAL_PAGE_SLOT_CNT KeySize)
    (Z.to_nat (LEAF_PAGE_SLOT_CNT KeySize)) (Z.to_nat (INTERNAL_PAGE_SLOT_CNT KeySize)).

Definition new_BPlusTreeIndex : ST IdxStore BPlusTree :=
  header ← new_page;
  _ ← new_BPlusTree (index_tree header);
  mret (index_tree header).

Definition InsertEntry (t : BPlusTree) (key : list byte) (key_len : Z) (rid : RID) : ST IdxStore bool :=
  index_key ← st_lift (SetFromKey KeySize key key_len);
  Insert t (index_key : Key) rid.
Definition DeleteEntry (t : BPlusTree) (key : list byte) (key_len : Z) (rid : RID) : ST IdxStore unit :=
  index_key ← st_lift (SetFromKey KeySize key key_len);
  Remove t (index_key : Key).
(** [ScanKey] appends to [result]. *)
Definition ScanKey (t : BPlusTree) (key : list byte) (key_len : Z) (res : list RID) : ST IdxStore (list RID) :=
  index_key ← st_lift (SetFromKey KeySize key key_len);
  v ← GetValue t (index_key : Key);
  mret (res ++ option_list v).

(** ** One call, in the code and in the specification *)

Inductive index_call :=
  | CallInsert (key : list byte) (rid : RID)
  | CallDelete (key : list byte) (rid : RID)
  | CallScan (key : list byte).
Inductive index_reply :=
  | Inserted (fresh : bool)
  | Deleted
  | Found (rids : list RID).

Definition len (key : list byte) : Z := Z.of_nat (length key).
Definition index_op (t : BPlusTree) (c : index_call) : ST IdxStore index_reply :=
  match c with
  | CallInsert key rid => b ← InsertEntry t key (len key) rid; mret (Inserted b)
  | CallDelete key rid => _ ← DeleteEntry t key (len key) rid; mret Deleted
  | CallScan key => rids ← ScanKey t key (len key) []; mret (Found rids)
  end.
Fixpoint index_run (t : BPlusTree) (cs : list index_call) : ST IdxStore (list index_reply) :=
  match cs with
  | [] => mret []
  | c :: cs => r ← index_op t c; rs ← index_run t cs; mret (r :: rs)
  end.

(** The specification: entries sorted by the comparator, one per key. *)
Definition padded (key : list byte) : Key := sized key.
Definition spec_op (es : list (Key * RID)) (c : index_call) : index_reply * list (Key * RID) :=
  match c with
  | CallInsert key rid =>
      (Inserted (bool_decide (lookup_key (padded key) es = None)), insert_key (padded key) rid es)
  | CallDelete key _ => (Deleted, delete_key (padded key) es)
  | CallScan key => (Found (option_list (lookup_key (padded key) es)), es)
  end.
Fixpoint spec_run (es : list (Key * RID)) (cs : list index_call) : list index_reply * list (Key * RID) :=
  match cs with
  | [] => ([], es)
  | c :: cs => let '(r, es) := spec_op es c in let '(rs, es) := spec_run es cs in (r :: rs, es)
  end.

Definition call_key (c : index_call) : list byte :=
  match c with CallInsert k _ | CallDelete k _ | CallScan k => k end.
Definition key_fits (c : index_call) : Prop := len (call_key c) ≤ KeySize.

(** ** The index implements the specification *)

Context (Hsch : schema_fits KeySize s = true) (HKS : 1 ≤ KeySize ≤ 2000).
#[local] Instance key_order : KeyOrder Key := generic_key_order s KeySize Hsch.

Lemma index_sizes h : good_sizes (index_tree h).
Proof.
  unfold index_tree, LEAF_PAGE_SLOT_CNT, INTERNAL_PAGE_SLOT_CNT, PAGE_SIZE.
  split; simpl; rewrite ?Z2Nat.id; try done; try (apply Z.quot_pos; lia).
  - apply Z.quot_le_lower_bound; lia.
  - apply Z.quot_le_lower_bound; lia.
Qed.

(** A key that fits is the padded key of the tree. *)
Lemma SetFromKey_padded key : len key ≤ KeySize → SetFromKey (s:=s) KeySize key (len key) = Ok (padded key).
Proof. apply SetFromKey_ok. Qed.
Lemma InsertEntry_eq t key rid st :
  len key ≤ KeySize → InsertEntry t key (len key) rid st = Insert t (padded key) rid st.
Proof. intros Hk. unfold InsertEntry. by run (SetFromKey_padded _ Hk). Qed.
Lemma DeleteEntry_eq t key rid st :
  len key ≤ KeySize → DeleteEntry t key (len key) rid st = Remove t (padded key) st.
Proof. intros Hk. unfold DeleteEntry. by run (SetFromKey_padded _ Hk). Qed.

Lemma index_op_ok h st o c :
  index_at (index_tree h) st o → key_fits c →
  ∃ st' o', index_op (index_tree h) c st = (Ok (spec_op (contents o) c).1, st') ∧
    index_at (index_tree h) st' o' ∧ contents o' = (spec_op (contents o) c).2 ∧
    frame_ok (index_tree h) st o st' o'.
Proof.
  intros Hia Hk. pose proof (index_sizes h) as Hgs.
  destruct c as [key rid|key rid|key]; unfold index_op, key_fits in *; simpl in Hk.
  - destruct (Insert_ok (index_tree h) Hgs (padded key) rid st o Hia) as (st' & o' & E & H1 & H2 & H3).
    rewrite <-InsertEntry_eq in E by done. exists st', o'. by run E.
  - destruct (Remove_ok (index_tree h) Hgs (padded key) st o Hia) as (st' & o' & E & H1 & H2 & H3 & H4 & H5).
    rewrite <-(DeleteEntry_eq _ _ rid) in E by done. exists st', o'. run E. split_and!; try done. split.
    + intros q p Hq Hp. by rewrite H3.
    + auto.
  - assert (ScanKey (index_tree h) key (len key) [] st =
      (Ok (option_list (lookup_key (padded key) (contents o))), st)) as E.
    { unfold ScanKey. run (SetFromKey_padded _ Hk). by run (GetValue_ok (index_tree h) st o (padded key) Hgs Hia). }
    exists st, o. run E. split_and!; try done. split; tauto.
Qed.

Lemma frame_ok_trans T (st1 st2 st3 : IdxStore) o1 o2 o3 :
  frame_ok T st1 o1 st2 o2 → frame_ok T st2 o2 st3 o3 → frame_ok T st1 o1 st3 o3.
Proof.
  intros [H1 H2] [H3 H4]. split.
  - intros q p Hq Hp. apply H3; [|by apply H1]. intros Hq2. apply H2 in Hq2. naive_solver.
  - intros q Hq. destruct (H4 q Hq) as [Hq2|Hq2]; [auto|].
    destruct (decide (q ∈ index_foot T o1)) as [|Hn]; [by left|right].
    destruct (st_pages st1 !! q) as [p|] eqn:E; [|done]. by rewrite (H1 _ _ Hn E) in Hq2.
Qed.

Lemma index_run_ok h st o cs :
  index_at (index_tree h) st o → Forall key_fits cs →
  ∃ st' o', index_run (index_tree h) cs st = (Ok (spec_run (contents o) cs).1, st') ∧
    index_at (index_tree h) st' o' ∧ contents o' = (spec_run (contents o) cs).2 ∧
    frame_ok (index_tree h) st o st' o'.
Proof.
  intros Hia Hcs. revert st o Hia. induction Hcs as [|c cs Hc _ IH]; intros st o Hia.
  { exists st, o. split_and!; try done. split; tauto. }
  destruct (index_op_ok h st o c Hia Hc) as (st1 & o1 & E1 & Hia1 & C1 & F1).
  destruct (IH st1 o1 Hia1) as (st2 & o2 & E2 & Hia2 & C2 & F2).
  exists st2, o2. cbn [index_run spec_run]. run E1. run E2. rewrite C2, C1. destruct (spec_op (contents o) c) as [r es]. simpl.
  destruct (spec_run es cs) as [rs es']. split_and!; try done. by eapply frame_ok_trans.
Qed.

(** A new index takes one page and is empty. *)
Lemma new_index_ok st :
  store_ok st →
  ∃ h st', new_BPlusTreeIndex st = (Ok (index_tree h), st') ∧ index_at (index_tree h) st' None ∧
    st_pages st !! h = None ∧ (∀ q p, st_pages st !! q = Some p → st_pages st' !! q = Some p).
Proof.
  intros Hst. destruct (NewPage st) as [h st1] eqn:E.
  destruct (NewPage_ok st h st1 Hst E) as (Hp & Hn & Hr & Hf & Hst1).
  assert (new_page st = (Ok h, st1)) as E1 by (unfold new_page; by rewrite E).
  exists h, (set_page h (HeaderPage INVALID_PAGE_ID) st1). unfold new_BPlusTreeIndex. run E1.
  split_and!; [done| |done|].
  - split; [by apply set_page_ok|simpl; by rewrite lookup_insert_eq|done].
  - intros q p Hq. simpl. rewrite Hp, lookup_insert_ne; [done|]. congruence.
Qed.
End index.

(** * What the B+ tree index guarantees

    The claims about [b_plus_tree.cpp], [index_iterator.cpp], [generic_key.h] and
    [b_plus_tree_index.h], each next to an instance: a tree of four-entry leaves over integer keys
    ([demo]), and indexes over a BIGINT and a DOUBLE column. *)

(** ** A concrete tree *)

Module Demo.
#[global] Instance Z_comparator : KeyComparator Z := λ a b, a - b.
#[global] Instance Z_order : KeyOrder Z.
Proof. split; unfold comparator, Z_comparator; lia. Qed.

Definition T : BPlusTree := mkTree 0 2 4 4 4.
Definition empty_store : Store (IndexPage Z Z) := mkStore ∅ 1 [].
Definition inserts (ks : list Z) : Store (IndexPage Z Z) :=
  foldl (λ st k, (Insert T k (10 * k) st).2) (new_BPlusTree T empty_store).2 ks.

(** Five entries in three leaves below one root. *)
Definition demo : Store (IndexPage Z Z) := inserts [5; 3; 9; 1; 7].
Definition shape : tree Z Z :=
  TNode 3 [(1, TLeaf 1 2 [(1, 10); (3, 30)]); (5, TLeaf 2 4 [(5, 50); (7, 70)]); (9, TLeaf 4 (-1) [(9, 90)])].

Lemma sizes_ok : good_sizes T.
Proof. split; simpl; lia. Qed.
Lemma demo_at : index_at T demo (Some shape).
Proof.
  assert (∀ (es : list (Z * Z)) p, slots_ p = es ++ drop (length es) (slots_ p) → size_ p = Z.of_nat (length es) →
    Z.of_nat (length es) ≤ max_size_ p → max_size_ p ≤ Z.of_nat (length (slots_ p)) →
    node_is (max_size_ p) es p) as Hnode.
  { intros es p E1 E2 E3 E4. split_and!; [done..|]. eexists. split; [done|]. by rewrite <-E1. }
  split.
  - assert (map_Forall (λ q _, 0 ≤ q < st_next_page_id demo) (st_pages demo)) as Hdom.
    { apply map_Forall_to_list. vm_compute. repeat constructor; congruence. }
    split_and!; [constructor|intros q Hq; by apply elem_of_nil in Hq|exact Hdom|by vm_compute].
  - by vm_compute.
  - intros t [= <-]. exists 1%nat. split_and!.
    + split; [eexists; split; [by vm_compute|apply Hnode; (reflexivity || done)]|].
      repeat constructor; (eexists; split; [by vm_compute|split; [apply Hnode; (reflexivity || done)|done]]).
    + vm_compute. repeat constructor; vm_compute; congruence.
    + simpl. repeat (constructor; [|repeat (constructor; [simpl; unfold key_lt, key_le, comparator, Z_comparator; lia|]); by constructor]). constructor.
    + apply (bool_decide_unpack _). by vm_compute.
    + apply (bool_decide_unpack _). by vm_compute.
    + done.
Qed.
End Demo.
Import Demo.

(** ** Height *)

Section height.
Context {K V : Type} `{!KeyComparator K, !Inhabited K, !Inhabited V} (T : BPlusTree).

Lemma kids_count (m : Z) (kids : list (K * tree K V)) :
  Forall (λ kc, m ≤ Z.of_nat (length (flat kc.2))) kids →
  Z.of_nat (length kids) * m ≤ Z.of_nat (length (kflat kids)).
Proof.
  induction 1 as [|[k c] kids Hc _ IH]; [simpl; lia|]. rewrite kflat_cons, length_app. simpl in *. lia.
Qed.
(** The entries below a node of [d] levels with minimally filled nodes. *)
Lemma bal_count lo li d (t : tree K V) :
  good_sizes T → 0 ≤ lo → 0 ≤ li → bal T lo li d t →
  match d with O => lo | S d => li * (min_internal T ^ Z.of_nat d * min_leaf T) end ≤ Z.of_nat (length (flat t)).
Proof.
  intros Hgs. destruct (min_leaf_pos T Hgs) as [Hl _], (min_internal_pos T Hgs) as [Hi _].
  revert lo li t. induction d as [|d IH]; intros lo li [pid nx es|pid kids] Hlo Hli; simpl bal; try done.
  { simpl. lia. }
  intros [[Hn _] Hkids]. change (flat (TNode pid kids)) with (kflat kids).
  assert (0 ≤ min_internal T ^ Z.of_nat d * min_leaf T) as H0 by (apply Z.mul_nonneg_nonneg; lia).
  transitivity (Z.of_nat (length kids) * (min_internal T ^ Z.of_nat d * min_leaf T));
    [by apply Z.mul_le_mono_nonneg_r|].
  apply kids_count. eapply Forall_impl; [exact Hkids|]. intros [k c] Hc. simpl in *.
  specialize (IH (min_leaf T) (min_internal T) c ltac:(lia) ltac:(lia) Hc). destruct d as [|d]; [change (Z.of_nat 0) with 0; rewrite Z.pow_0_r; lia|].
  rewrite Nat2Z.inj_succ, Z.pow_succ_r by lia. lia.
Qed.
End height.

(** ** The index as a sorted map *)

(** C8: construct an index over integer key columns that lie inside the [KeySize] bytes of a key, and run any
    sequence of insertions, deletions and lookups whose keys fit: every comparison the tree makes is defined and
    is the lexicographic order of the columns, no assertion fails, no page outside the index changes, every reply is
    the one of a sorted association list with at most one entry per key, and a scan from the first
    leaf returns exactly that list. *)
Theorem index_refines_sorted_map (s : list KeyColumn) (KeySize : Z) (st : Store (IndexPage (GenericKey s KeySize) RID))
    (cs : list index_call) :
  forallb integer_column s = true → forallb (column_fits KeySize) s = true → 1 ≤ KeySize ≤ 2000 → store_ok st → Forall (key_fits KeySize) cs →
  (∀ a b : GenericKey s KeySize, GenericComparator s (data_ a) (data_ b) =
    Ok (sign_of (lex (map (λ c, column_value c (data_ a)) s) (map (λ c, column_value c (data_ b)) s)))) ∧
  let '(replies, es) := spec_run s KeySize [] cs in
  ∃ t st1 st2 it, new_BPlusTreeIndex s KeySize st = (Ok t, st1) ∧ index_run s KeySize t cs st1 = (Ok replies, st2) ∧
    (∀ q p, st_pages st !! q = Some p → st_pages st2 !! q = Some p) ∧
    Begin t st2 = (Ok it, st2) ∧ scan (length es) it st2 = (Ok es, st2).
Proof.
  intros Hi Hf' HK Hst Hcs. assert (schema_fits KeySize s = true) as Hs by (by apply andb_true_iff).
  split; [intros a b; apply (GenericComparator_lex KeySize); [done|apply key_length..]|]. pose proof (generic_key_order s KeySize Hs) as Hord.
  destruct (new_index_ok s KeySize st Hst) as (h & st1 & E1 & Hia & Hfresh & Hkeep).
  destruct (index_run_ok s KeySize Hs HK h st1 None cs Hia Hcs) as (st2 & o & E2 & Hia2 & Hc & Hf & _).
  change (contents None) with (@nil (GenericKey s KeySize * RID)) in *.
  pose proof (index_sizes KeySize HK h) as Hgs.
  destruct (Begin_ok _ st2 o Hgs Hia2) as (it & E3 & Hy).
  destruct (spec_run s KeySize [] cs) as [replies es]. simpl in *. subst es.
  exists (index_tree KeySize h), st1, st2, it. split_and!; try done.
  - intros q p Hq. apply Hf; [|by apply Hkeep]. intros Hin%list_elem_of_singleton. simpl in Hin. congruence.
  - by eapply scan_ok.
Qed.

Definition bigint_schema : list KeyColumn := [mkKeyColumn BIGINT 0].
Definition calls : list index_call :=
  [CallInsert (le_bytes 8 5) (mkRID 1 0); CallInsert (le_bytes 8 (-2)) (mkRID 1 1);
   CallInsert (le_bytes 8 5) (mkRID 1 2); CallDelete (le_bytes 8 5) (mkRID 1 0);
   CallScan (le_bytes 8 5); CallScan (le_bytes 8 (-2))].
Lemma index_refines_sorted_map_witness :
  (spec_run bigint_schema 8 [] calls).1 =
    [Inserted true; Inserted true; Inserted false; Deleted; Found []; Found [mkRID 1 1]] ∧
  let '(replies, es) := spec_run bigint_schema 8 [] calls in
  ∃ t st1 st2 it, new_BPlusTreeIndex bigint_schema 8 (mkStore ∅ 0 []) = (Ok t, st1) ∧
    index_run bigint_schema 8 t calls st1 = (Ok replies, st2) ∧
    (∀ q p, st_pages (mkStore ∅ 0 []) !! q = Some p → st_pages st2 !! q = Some p) ∧
    Begin t st2 = (Ok it, st2) ∧ scan (length es) it st2 = (Ok es, st2).
Proof.
  split; [by vm_compute|]. apply (index_refines_sorted_map bigint_schema 8 (mkStore ∅ 0 []) calls); [done|done|lia| |].
  - split_and!; simpl; [constructor|intros q Hq; by apply elem_of_nil in Hq| |lia].
    intros q p Hq. by rewrite lookup_empty in Hq.
  - repeat constructor; by vm_compute.
Defined.

(** ** The operations of the tree *)

(** C9: [Insert] on a well-formed tree never fails: it reports whether the key was absent, leaves a
    well-formed tree (balanced, sorted, leaves linked) whose entries are the old ones with the new
    one added if it was absent, keeps every page of others and takes only unused pages. *)
Theorem Insert_correct {K V : Type} `{!KeyComparator K, !KeyOrder K, !Inhabited K, !Inhabited V} (T : BPlusTree)
    (key : K) (value : V) (st : Store (IndexPage K V)) (o : option (tree K V)) :
  good_sizes T → index_at T st o →
  ∃ st' o', Insert T key value st = (Ok (bool_decide (lookup_key key (contents o) = None)), st') ∧
    index_at T st' o' ∧ contents o' = insert_key key value (contents o) ∧ frame_ok T st o st' o'.
Proof. intros Hgs Hia. by apply Insert_ok. Qed.

Lemma Insert_correct_witness :
  ∃ st' o', Insert T 6 60 demo = (Ok true, st') ∧ index_at T st' o' ∧
    contents o' = [(1, 10); (3, 30); (5, 50); (6, 60); (7, 70); (9, 90)] ∧ frame_ok T demo (Some shape) st' o'.
Proof. apply (Insert_correct T 6 60 demo (Some shape) sizes_ok demo_at). Defined.

(** C10: [Remove] on a well-formed tree never fails, whatever borrowing, merging and root collapse it
    needs: the tree stays well-formed, its entries are the old ones without the key, pages of others
    are untouched and exactly the pages the tree gave up are freed. *)
Theorem Remove_correct {K V : Type} `{!KeyComparator K, !KeyOrder K, !Inhabited K, !Inhabited V} (T : BPlusTree)
    (key : K) (st : Store (IndexPage K V)) (o : option (tree K V)) :
  good_sizes T → index_at T st o →
  ∃ st' o', Remove T key st = (Ok tt, st') ∧ index_at T st' o' ∧
    contents o' = delete_key key (contents o) ∧ freed_ok T st o st' o'.
Proof. intros Hgs Hia. by apply Remove_ok. Qed.

Lemma Remove_correct_witness :
  ∃ st' o', Remove T 9 demo = (Ok tt, st') ∧ index_at T st' o' ∧
    contents o' = [(1, 10); (3, 30); (5, 50); (7, 70)] ∧ freed_ok T demo (Some shape) st' o'.
Proof. apply (Remove_correct T 9 demo (Some shape) sizes_ok demo_at). Defined.

(** C11: the read-crabbed fast paths of [Insert] and [Remove] change nothing: each call leaves the
    same store and reply as the pessimistic descent alone. *)
Theorem fast_paths_agree {K V : Type} `{!KeyComparator K, !KeyOrder K, !Inhabited K, !Inhabited V} (T : BPlusTree)
    (key : K) (value : V) (st : Store (IndexPage K V)) (o : option (tree K V)) :
  good_sizes T → index_at T st o →
  Insert T key value st = insert_pessimistic T key value st ∧ Remove T key st = remove_pessimistic T key st.
Proof. intros Hgs Hia. split; [by eapply Insert_agrees|by eapply Remove_agrees]. Qed.

Lemma fast_paths_agree_witness :
  Insert T 4 40 demo = insert_pessimistic T 4 40 demo ∧ Remove T 3 demo = remove_pessimistic T 3 demo.
Proof.
  split; [apply (fast_paths_agree T 4 40 demo _ sizes_ok demo_at)|apply (fast_paths_agree T 3 40 demo _ sizes_ok demo_at)].
Defined.

(** [GetValue] terminates on every well-formed tree and returns the value stored under the key, or
    nothing, without touching a page. *)
Theorem GetValue_correct {K V : Type} `{!KeyComparator K, !KeyOrder K, !Inhabited K, !Inhabited V} (T : BPlusTree)
    (key : K) (st : Store (IndexPage K V)) (o : option (tree K V)) :
  good_sizes T → index_at T st o → GetValue T key st = (Ok (lookup_key key (contents o)), st).
Proof. apply GetValue_ok. Qed.

Lemma GetValue_correct_witness :
  GetValue T 7 demo = (Ok (Some 70), demo) ∧ GetValue T 6 demo = (Ok None, demo).
Proof.
  split; [apply (GetValue_correct T 7 demo _ sizes_ok demo_at)|apply (GetValue_correct T 6 demo _ sizes_ok demo_at)].
Defined.

(** C12: an iterator from [Begin(key)] yields, in increasing key order and across leaf links, exactly
    the entries whose key is not below [key], then reports its end. *)
Theorem range_scan_correct {K V : Type} `{!KeyComparator K, !KeyOrder K, !Inhabited K, !Inhabited V} (T : BPlusTree)
    (key : K) (st : Store (IndexPage K V)) (o : option (tree K V)) :
  good_sizes T → index_at T st o →
  ∃ it, BeginKey T key st = (Ok it, st) ∧
    scan (length (contents o)) it st = (Ok (filter (λ e, key_le key e.1) (contents o)), st) ∧
    sorted_entries (contents o).
Proof.
  intros Hgs Hia. destruct (BeginKey_ok T st o key Hgs Hia) as (it & E & Hy).
  assert (from_key key (contents o) = filter (λ e, key_le key e.1) (contents o)) as <-.
  { apply list_filter_iff. intros e. apply key_not_lt. }
  exists it. split_and!; [done| |].
  - eapply scan_ok; [done|done|done|]. apply length_filter.
  - destruct o as [t|]; [|constructor]. destruct Hia as [_ _ Ht].
    destruct (Ht t eq_refl) as (d & _ & _ & Hs & _). by apply flat_sorted.
Qed.

Lemma range_scan_correct_witness :
  ∃ it, BeginKey T 4 demo = (Ok it, demo) ∧ scan 5 it demo = (Ok [(5, 50); (7, 70); (9, 90)], demo) ∧
    sorted_entries (contents (Some shape)).
Proof. apply (range_scan_correct T 4 demo (Some shape) sizes_ok demo_at). Defined.

(** [FreeAllPages] frees every page of the tree and its header page, and no other page. *)
Theorem FreeAllPages_exact {K V : Type} `{!KeyComparator K, !KeyOrder K, !Inhabited K, !Inhabited V} (T : BPlusTree)
    (st : Store (IndexPage K V)) (o : option (tree K V)) :
  good_sizes T → index_at T st o →
  ∃ st', tree_FreeAllPages T st = (Ok tt, st') ∧ store_ok st' ∧
    ∀ q, st_pages st' !! q = if decide (q ∈ index_foot T o) then None else st_pages st !! q.
Proof.
  intros Hgs Hia. destruct (FreeAllPages_ok T Hgs st o Hia) as (st' & E & Hst & H1 & H2).
  exists st'. split_and!; [done|done|]. intros q. destruct (decide _); auto.
Qed.

Lemma FreeAllPages_exact_witness :
  ∃ st', tree_FreeAllPages T demo = (Ok tt, st') ∧ store_ok st' ∧
    ∀ q, st_pages st' !! q = if decide (q ∈ index_foot T (Some shape)) then None else st_pages demo !! q.
Proof. apply (FreeAllPages_exact T demo (Some shape) sizes_ok demo_at). Defined.

(** Lookups are logarithmic: every leaf of a well-formed tree is at the same depth [d], and a tree
    with [d > 0] internal levels holds at least [2 * m ^ (d - 1) * l] entries, where [m] and [l] are the
    minimum sizes [GetMinSize] of internal and leaf pages. *)
Theorem tree_height {K V : Type} `{!KeyComparator K, !KeyOrder K, !Inhabited K, !Inhabited V} (T : BPlusTree)
    (st : Store (IndexPage K V)) (t : tree K V) :
  good_sizes T → index_at T st (Some t) →
  ∃ d, rep T d (st_pages st) t ∧
    (d = O ∨ 2 * (min_internal T ^ (Z.of_nat d - 1) * min_leaf T) ≤ Z.of_nat (length (contents (Some t)))).
Proof.
  intros Hgs [_ _ Ht]. destruct (Ht t eq_refl) as (d & Hr & Hb & _). exists d. split; [done|].
  pose proof (bal_count T 1 2 d t Hgs ltac:(lia) ltac:(lia) Hb) as Hc. destruct d as [|d]; [by left|right].
  replace (Z.of_nat (S d) - 1) with (Z.of_nat d) by lia. done.
Qed.

Lemma tree_height_witness :
  ∃ d, rep T d (st_pages demo) shape ∧ (d = O ∨ 2 * (min_internal T ^ (Z.of_nat d - 1) * min_leaf T) ≤ 5).
Proof. apply (tree_height T demo shape sizes_ok demo_at). Defined.

(** ** Nodes and keys *)

(** The binary search of a node terminates inside the array and returns the first position at or
    after [offset] whose key is above the searched one. *)
Theorem BisectRight_upper_bound {K V : Type} `{!KeyComparator K, !KeyOrder K, !Inhabited K, !Inhabited V}
    (mx : Z) (es : list (K * V)) (p : BPlusTreePage K V) (key : K) (offset : Z) :
  node_is mx es p → 0 ≤ offset ≤ Z.of_nat (length es) → sorted_entries (drop (Z.to_nat offset) es) →
  ∃ b, BisectRight p key offset = Ok b ∧ offset ≤ b ≤ size_ p ∧
    ∀ i e, es !! i = Some e → offset ≤ Z.of_nat i → (Z.of_nat i < b ↔ key_le e.1 key).
Proof.
  intros Hn Ho Hs. set (tl := drop (Z.to_nat offset) es) in *.
  assert (∃ l r, tl = l ++ r ∧ Forall (λ e, key_le e.1 key) l ∧ Forall (λ e, comparator e.1 key > 0) r)
    as (l & r & Etl & Hl & Hr).
  { destruct (locate key tl Hs) as [l k v r -> Hc Hlt Hgt|l r -> Hlt Hgt].
    - exists (l ++ [(k, v)]), r. rewrite <-app_assoc. split_and!; [done| |].
      + apply Forall_app. split; [|by constructor; [unfold key_le; simpl; lia|]].
        eapply Forall_impl; [exact Hlt|]. intros e. apply key_lt_le.
      + eapply Forall_impl; [exact Hgt|]. intros e He. apply comparator_flip in He. lia.
    - exists l, r. split_and!; [done| |].
      + eapply Forall_impl; [exact Hlt|]. intros e. apply key_lt_le.
      + eapply Forall_impl; [exact Hgt|]. intros e He. apply comparator_flip in He. lia. }
  assert (es = (take (Z.to_nat offset) es ++ l) ++ r) as Ees by (by rewrite <-app_assoc, <-Etl; unfold tl; rewrite take_drop).
  assert (length (take (Z.to_nat offset) es) = Z.to_nat offset) as Hlen by (rewrite length_take; lia).
  set (a := take (Z.to_nat offset) es) in *.
  exists (Z.of_nat (length (a ++ l))). pose proof Hn as (Hsz & _). split_and!.
  - eapply (BisectRight_ok mx es); [done|exact Ees|rewrite length_app; lia| |done].
    rewrite drop_app_length' by lia. done.
  - rewrite length_app. lia.
  - rewrite Hsz, Ees, !length_app. lia.
  - intros i e Hi Hoi. rewrite Ees in Hi. destruct (decide (i < length (a ++ l))%nat) as [Hlt|Hge].
    + rewrite lookup_app_l, lookup_app_r in Hi by lia. apply list_elem_of_lookup_2 in Hi.
      rewrite Forall_forall in Hl. pose proof (Hl _ Hi). split; [done|lia].
    + rewrite lookup_app_r in Hi by lia. apply list_elem_of_lookup_2 in Hi.
      rewrite Forall_forall in Hr. pose proof (Hr _ Hi). unfold key_le. simpl in *. lia.
Qed.

Definition demo_node : BPlusTreePage Z Z := mkNode 3 4 [(1, 10); (3, 30); (5, 50); (0, 0)].
Lemma BisectRight_upper_bound_witness :
  ∃ b, BisectRight demo_node 3 0 = Ok b ∧ 0 ≤ b ≤ 3 ∧
    ∀ i e, [(1, 10); (3, 30); (5, 50)] !! i = Some e → 0 ≤ Z.of_nat i → (Z.of_nat i < b ↔ key_le e.1 3).
Proof.
  apply (BisectRight_upper_bound 4 [(1, 10); (3, 30); (5, 50)] demo_node 3 0); [|simpl; lia|].
  - split_and!; [done|done|simpl; lia|]. by exists [(0, 0)].
  - unfold sorted_entries. simpl. repeat (constructor; [|repeat (constructor; [unfold item_lt, key_lt, comparator, Z_comparator; lia|]); by constructor]). constructor.
Defined.

(** over integer columns the comparator is the lexicographic order of the loaded column values,
    in schema order: reflexive, antisymmetric in sign and transitive, as the tree requires. *)
Theorem comparator_lexicographic (s : list KeyColumn) (KeySize : Z) :
  schema_fits KeySize s = true →
  KeyOrder (GenericKey s KeySize) ∧
  ∀ a b : GenericKey s KeySize, GenericComparator s (data_ a) (data_ b) =
    Ok (sign_of (lex (map (λ c, column_value c (data_ a)) s) (map (λ c, column_value c (data_ b)) s))).
Proof. intros Hs. split; [by apply generic_key_order|]. intros a b. apply (GenericComparator_lex KeySize); [done|apply key_length..]. Qed.

Lemma comparator_lexicographic_witness :
  KeyOrder (GenericKey bigint_schema 8) ∧
  ∀ a b : GenericKey bigint_schema 8, GenericComparator bigint_schema (data_ a) (data_ b) =
    Ok (sign_of (lex (map (λ c, column_value c (data_ a)) bigint_schema) (map (λ c, column_value c (data_ b)) bigint_schema))).
Proof. apply (comparator_lexicographic bigint_schema 8 eq_refl). Defined.

(** ** NaN keys *)

Definition double_schema : list KeyColumn := [mkKeyColumn DOUBLE 0].
(** The bytes of 1.0, 2.0 and a quiet NaN. *)
Definition one : list byte := le_bytes 8 4607182418800017408.
Definition two : list byte := le_bytes 8 4611686018427387904.
Definition nan : list byte := le_bytes 8 9221120237041090560.

Lemma SFltb_nan x : SFltb x S754_nan = false ∧ SFltb S754_nan x = false.
Proof. by destruct x. Qed.
Lemma compare_column_nan off lhs rhs x y :
  load_u 8 lhs off = Ok x → load_u 8 rhs off = Ok y → float_of_bits 52 11 x = S754_nan ∨ float_of_bits 52 11 y = S754_nan →
  compare_column (mkKeyColumn DOUBLE off) lhs rhs = Ok 0.
Proof.
  intros Hx Hy H. unfold compare_column, CompareScalar. cbn [kc_type kc_offset]. rewrite Hx, Hy. cbn [mbind result_bind].
  destruct H as [-> | ->]; by rewrite (proj1 (SFltb_nan _)), (proj2 (SFltb_nan _)).
Qed.

(** Over a DOUBLE column a NaN compares equal to every key, so the comparator is no order: a unique
    index that holds 1.0 and 2.0, which differ, refuses to insert a NaN as a duplicate, and a lookup of
    NaN returns the row of 2.0. *)
Theorem nan_key_collides :
  (∀ off lhs rhs x y, load_u 8 lhs off = Ok x → load_u 8 rhs off = Ok y → float_of_bits 52 11 x = S754_nan → compare_column (mkKeyColumn DOUBLE off) lhs rhs = Ok 0) ∧
  (let '(r, st) := new_BPlusTreeIndex double_schema 8 (mkStore ∅ 0 []) in
   t ← r; (index_run double_schema 8 t
     [CallInsert one (mkRID 1 0); CallInsert two (mkRID 1 1); CallInsert nan (mkRID 1 2); CallScan nan] st).1) =
  Ok [Inserted true; Inserted true; Inserted false; Found [mkRID 1 1]].
Proof. split; [intros ????? Hx Hy H; exact (compare_column_nan _ _ _ _ _ Hx Hy (or_introl H))|]. vm_compute. reflexivity. Qed.
