(* ===== verification/ArcReplacer.v ===== *)
(** * The ARC replacement policy ([storage/buffer/arc_replacer.*])

    [Replacer] is what the buffer pool relies on: a set of alive frames, each with its page and
    whether it may be evicted.  [ArcReplacer] implements it with the four lists of the ARC paper; the
    list iterator of a [FrameStatus] is modelled by the identifier it points to, which occurs once in
    its list ([arc_inv]). *)

From S2P Require Import Prelude.

(** ** What the pool relies on *)

(** [rep_alive] maps an alive frame to its page and its evictable flag; [rep_inv c r] is the
    invariant of a replacer for frames [0 .. c). *)
Class Replacer (R : Type) := {
  rep_new : Z → R;
  rep_Evict : ST R (option Z);
  rep_RecordAccess : Z → Z → ST R unit;
  rep_SetEvictable : Z → bool → ST R unit;
  rep_Remove : Z → ST R unit;
  rep_Size : R → Z;
  rep_alive : R → gmap Z (Z * bool);
  rep_inv : Z → R → Prop
}.

(** A frame may be registered for a page that no other frame holds. *)
Definition may_record (m : gmap Z (Z * bool)) (c f p : Z) : Prop :=
  0 ≤ f < c ∧ (∀ e, m !! f = Some e → e.1 = p) ∧ (∀ f' e, m !! f' = Some (p, e) → f' = f).
(** An access keeps the flag of an alive frame; a new frame is not evictable. *)
Definition record_access (m : gmap Z (Z * bool)) (f p : Z) : gmap Z (Z * bool) :=
  <[f := (p, match m !! f with Some e => e.2 | None => false end)]> m.

Class ReplacerLaws (R : Type) `{!Replacer R} : Prop := {
  rep_new_ok c : 0 ≤ c → rep_inv c (rep_new c) ∧ rep_alive (rep_new c) = ∅;
  rep_Evict_none c r :
    rep_inv c r → (∀ f p, rep_alive r !! f ≠ Some (p, true)) → rep_Evict r = (Ok None, r);
  rep_Evict_some c r f p :
    rep_inv c r → rep_alive r !! f = Some (p, true) →
    ∃ f' p' r', rep_Evict r = (Ok (Some f'), r') ∧ rep_alive r !! f' = Some (p', true) ∧
      rep_alive r' = delete f' (rep_alive r) ∧ rep_inv c r';
  rep_RecordAccess_ok c r f p :
    rep_inv c r → may_record (rep_alive r) c f p →
    ∃ r', rep_RecordAccess f p r = (Ok tt, r') ∧ rep_inv c r' ∧
      rep_alive r' = record_access (rep_alive r) f p;
  rep_SetEvictable_ok c r f p e b :
    rep_inv c r → rep_alive r !! f = Some (p, e) →
    ∃ r', rep_SetEvictable f b r = (Ok tt, r') ∧ rep_inv c r' ∧ rep_alive r' = <[f := (p, b)]> (rep_alive r);
  rep_SetEvictable_missing r f b :
    rep_alive r !! f = None → rep_SetEvictable f b r = (Err (ERange "Frame ID not found"), r);
  rep_Remove_ok c r f p :
    rep_inv c r → rep_alive r !! f = Some (p, true) →
    ∃ r', rep_Remove f r = (Ok tt, r') ∧ rep_inv c r' ∧ rep_alive r' = delete f (rep_alive r);
  rep_Remove_pinned c r f p :
    rep_inv c r → rep_alive r !! f = Some (p, false) → rep_Remove f r = (Err (ERange "Frame ID not evictable"), r);
  rep_Size_ok c r : rep_inv c r → rep_Size r = Z.of_nat (size (filter (λ e, e.2.2 = true) (rep_alive r)))
}.

(** ** Data *)

Inductive ArcStatus := MRU | MFU | MRU_GHOST | MFU_GHOST.
#[global] Instance ArcStatus_eq_dec : EqDecision ArcStatus.
Proof. solve_decision. Defined.

Record FrameStatus := mkStatus {
  fs_page_id : Z;
  fs_frame_id : Z;
  evictable_ : bool;
  arc_status_ : ArcStatus
}.
Definition set_evictable (b : bool) (s : FrameStatus) : FrameStatus :=
  mkStatus (fs_page_id s) (fs_frame_id s) b (arc_status_ s).
Definition set_status (st : ArcStatus) (s : FrameStatus) : FrameStatus :=
  mkStatus (fs_page_id s) (fs_frame_id s) (evictable_ s) st.

Record ArcReplacer := mkArc {
  mru_ : list Z;
  mfu_ : list Z;
  mru_ghost_ : list Z;
  mfu_ghost_ : list Z;
  alive_map_ : gmap Z FrameStatus;
  ghost_map_ : gmap Z FrameStatus;
  curr_size_ : Z;
  mru_target_size_ : Z;
  replacer_size_ : Z
}.
Definition new_ArcReplacer (num_frames : Z) : ArcReplacer := mkArc [] [] [] [] ∅ ∅ 0 0 num_frames.

Definition set_lists (r f rg fg : list Z) (a : ArcReplacer) : ArcReplacer :=
  mkArc r f rg fg (alive_map_ a) (ghost_map_ a) (curr_size_ a) (mru_target_size_ a) (replacer_size_ a).
Definition set_alive (m : gmap Z FrameStatus) (a : ArcReplacer) : ArcReplacer :=
  mkArc (mru_ a) (mfu_ a) (mru_ghost_ a) (mfu_ghost_ a) m (ghost_map_ a) (curr_size_ a) (mru_target_size_ a) (replacer_size_ a).
Definition set_ghosts (m : gmap Z FrameStatus) (a : ArcReplacer) : ArcReplacer :=
  mkArc (mru_ a) (mfu_ a) (mru_ghost_ a) (mfu_ghost_ a) (alive_map_ a) m (curr_size_ a) (mru_target_size_ a) (replacer_size_ a).
Definition set_curr (n : Z) (a : ArcReplacer) : ArcReplacer :=
  mkArc (mru_ a) (mfu_ a) (mru_ghost_ a) (mfu_ghost_ a) (alive_map_ a) (ghost_map_ a) n (mru_target_size_ a) (replacer_size_ a).
Definition set_target (n : Z) (a : ArcReplacer) : ArcReplacer :=
  mkArc (mru_ a) (mfu_ a) (mru_ghost_ a) (mfu_ghost_ a) (alive_map_ a) (ghost_map_ a) (curr_size_ a) n (replacer_size_ a).

(** [std::list::erase] of the node that holds [x]. *)
Fixpoint list_erase (x : Z) (l : list Z) : list Z :=
  match l with
  | [] => []
  | y :: l => if decide (x = y) then l else y :: list_erase x l
  end.
Definition list_size (l : list Z) : Z := Z.of_nat (length l).

(** ** Eviction *)

(** The walk of [EvictFromList] from the least recently used end. *)
Fixpoint find_victim (alive : gmap Z FrameStatus) (l : list Z) : result (option (Z * FrameStatus)) :=
  match l with
  | [] => Ok None
  | frame_id :: l =>
      match alive !! frame_id with
      | None => Err (EAssert "Frame ID not present in status map")
      | Some status => if evictable_ status then Ok (Some (frame_id, status)) else find_victim alive l
      end
  end.

(** [EvictFromList(mfu_, mfu_ghost_)] for [frequent], [EvictFromList(mru_, mru_ghost_)] otherwise. *)
Definition EvictFromList (frequent : bool) : ST ArcReplacer (option Z) := λ a,
  match find_victim (alive_map_ a) (reverse (if frequent then mfu_ a else mru_ a)) with
  | Err e => (Err e, a)
  | Ok None => (Ok None, a)
  | Ok (Some (frame_id, status)) =>
      let page_id := fs_page_id status in
      let a := if frequent
               then set_lists (mru_ a) (list_erase frame_id (mfu_ a)) (mru_ghost_ a) (page_id :: mfu_ghost_ a) a
               else set_lists (list_erase frame_id (mru_ a)) (mfu_ a) (page_id :: mru_ghost_ a) (mfu_ghost_ a) a in
      match arc_status_ status with
      | MFU | MRU =>
          let ghost := if decide (arc_status_ status = MFU) then MFU_GHOST else MRU_GHOST in
          let a := set_ghosts (<[page_id := set_status ghost status]> (ghost_map_ a)) a in
          let a := set_alive (delete frame_id (alive_map_ a)) a in
          (Ok (Some frame_id), set_curr (curr_size_ a - 1) a)
      | _ => (Err (EAssert "Frame Status is not correct."), a)
      end
  end.

Definition or_evict (evicted : option Z) (frequent : bool) : ST ArcReplacer (option Z) :=
  match evicted with Some f => mret (Some f) | None => EvictFromList frequent end.

Definition UnsafeEvict : ST ArcReplacer (option Z) :=
  a ← st_get;
  if bool_decide (curr_size_ a = 0) then mret None else
  if bool_decide (list_size (mru_ a) < mru_target_size_ a) then
    evicted ← EvictFromList true; or_evict evicted false
  else
    evicted ← EvictFromList false; or_evict evicted true.
Definition Evict : ST ArcReplacer (option Z) := UnsafeEvict.

(** ** Accesses *)

Definition UpdateMruTargetSize (arc_status : ArcStatus) (mru_ghost_size mfu_ghost_size mru_target_size : Z) : Z :=
  if decide (arc_status = MRU_GHOST) then
    if bool_decide (mru_ghost_size >= mfu_ghost_size) then mru_target_size + 1
    else mru_target_size + (if bool_decide (mru_ghost_size > 0) then mfu_ghost_size / mru_ghost_size else 0)
  else if bool_decide (mfu_ghost_size >= mru_ghost_size) then
    (if bool_decide (mru_target_size > 0) then mru_target_size - 1 else 0)
  else
    let delta := if bool_decide (mfu_ghost_size > 0) then mru_ghost_size / mfu_ghost_size else 0 in
    if bool_decide (mru_target_size >= delta) then mru_target_size - delta else 0.

Definition AccessHits (frame_id : Z) (status : FrameStatus) : ST ArcReplacer unit := λ a,
  match arc_status_ status with
  | MRU =>
      let a := set_lists (list_erase frame_id (mru_ a)) (frame_id :: mfu_ a) (mru_ghost_ a) (mfu_ghost_ a) a in
      (Ok tt, set_alive (<[frame_id := set_status MFU status]> (alive_map_ a)) a)
  | MFU =>
      (Ok tt, set_lists (mru_ a) (frame_id :: list_erase frame_id (mfu_ a)) (mru_ghost_ a) (mfu_ghost_ a) a)
  | _ => (Err (EAssert "Frame Alive Status is not correct."), a)
  end.

(** [AccessGhostHits]: the resurrected status is returned to the caller, who moves it between maps. *)
Definition AccessGhostHits (frame_id page_id : Z) (status : FrameStatus) : ST ArcReplacer FrameStatus := λ a,
  match arc_status_ status with
  | MFU_GHOST | MRU_GHOST =>
      let target := UpdateMruTargetSize (arc_status_ status) (list_size (mru_ghost_ a)) (list_size (mfu_ghost_ a))
                      (mru_target_size_ a) in
      let a := set_target (Z.max (Z.min target (replacer_size_ a)) 0) a in
      let a := if decide (arc_status_ status = MRU_GHOST)
               then set_lists (mru_ a) (mfu_ a) (list_erase page_id (mru_ghost_ a)) (mfu_ghost_ a) a
               else set_lists (mru_ a) (mfu_ a) (mru_ghost_ a) (list_erase page_id (mfu_ghost_ a)) a in
      (Ok (mkStatus page_id frame_id false MFU),
       set_lists (mru_ a) (frame_id :: mfu_ a) (mru_ghost_ a) (mfu_ghost_ a) a)
  | _ => (Err (EAssert "Frame Ghost Status is not correct."), a)
  end.

Definition pop_back_ (l : list Z) : list Z := take (length l - 1) l.
Definition erase_back (l : list Z) (m : gmap Z FrameStatus) : gmap Z FrameStatus :=
  match last l with Some x => delete x m | None => m end.
(** The bound on the ghost lists at the end of [RecordAccess]. *)
Definition trim_ghosts (a : ArcReplacer) : ArcReplacer :=
  if bool_decide (list_size (mru_ a) + list_size (mru_ghost_ a) > replacer_size_ a ∧ mru_ghost_ a ≠ []) then
    set_lists (mru_ a) (mfu_ a) (pop_back_ (mru_ghost_ a)) (mfu_ghost_ a)
      (set_ghosts (erase_back (mru_ghost_ a) (ghost_map_ a)) a)
  else if bool_decide (list_size (mru_ a) + list_size (mru_ghost_ a) + list_size (mfu_ghost_ a) + list_size (mfu_ a)
                         > 2 * replacer_size_ a ∧ mfu_ghost_ a ≠ []) then
    set_lists (mru_ a) (mfu_ a) (mru_ghost_ a) (pop_back_ (mfu_ghost_ a))
      (set_ghosts (erase_back (mfu_ghost_ a) (ghost_map_ a)) a)
  else a.

Definition record_hit (frame_id page_id : Z) : ST ArcReplacer unit :=
  a ← st_get;
  match alive_map_ a !! frame_id with
  | Some status => AccessHits frame_id status
  | None =>
      match ghost_map_ a !! page_id with
      | Some status =>
          status ← AccessGhostHits frame_id page_id status;
          a ← st_get;
          st_put (set_alive (<[frame_id := status]> (alive_map_ a)) (set_ghosts (delete page_id (ghost_map_ a)) a))
      | None =>
          let a := set_lists (frame_id :: mru_ a) (mfu_ a) (mru_ghost_ a) (mfu_ghost_ a) a in
          st_put (set_alive (<[frame_id := mkStatus page_id frame_id false MRU]> (alive_map_ a)) a)
      end
  end.
Definition RecordAccess (frame_id page_id : Z) : ST ArcReplacer unit :=
  _ ← record_hit frame_id page_id;
  a ← st_get; st_put (trim_ghosts a).

Definition SetEvictable (frame_id : Z) (set_evictable_ : bool) : ST ArcReplacer unit := λ a,
  match alive_map_ a !! frame_id with
  | None => (Err (ERange "Frame ID not found"), a)
  | Some status =>
      if bool_decide (set_evictable_ = evictable_ status) then (Ok tt, a) else
      let a := set_alive (<[frame_id := set_evictable set_evictable_ status]> (alive_map_ a)) a in
      if set_evictable_ then (Ok tt, set_curr (curr_size_ a + 1) a)
      else if bool_decide (curr_size_ a > 0) then (Ok tt, set_curr (curr_size_ a - 1) a)
      else (Err (EAssert "curr_size_ underflow"), a)
  end.

Definition Remove (frame_id : Z) : ST ArcReplacer unit := λ a,
  match alive_map_ a !! frame_id with
  | None => (Ok tt, a)
  | Some status =>
      if negb (evictable_ status) then (Err (ERange "Frame ID not evictable"), a) else
      match arc_status_ status with
      | MFU | MRU =>
          let a := if decide (arc_status_ status = MFU)
                   then set_lists (mru_ a) (list_erase frame_id (mfu_ a)) (mru_ghost_ a) (mfu_ghost_ a) a
                   else set_lists (list_erase frame_id (mru_ a)) (mfu_ a) (mru_ghost_ a) (mfu_ghost_ a) a in
          let a := set_alive (delete frame_id (alive_map_ a)) a in
          (Ok tt, set_curr (curr_size_ a - 1) a)
      | _ => (Err (EAssert "Frame Status is not correct."), a)
      end
  end.

Definition Size (a : ArcReplacer) : Z := curr_size_ a.

(** ** Lists of identifiers and the maps that describe them *)

Lemma list_erase_perm x l : x ∈ l → l ≡ₚ x :: list_erase x l.
Proof.
  induction l as [|y l IH]; [by intros ?%elem_of_nil|]. simpl. intros [->|Hx]%elem_of_cons.
  - by rewrite decide_True.
  - case_decide; [by subst|]. rewrite (IH Hx) at 1. constructor.
Qed.
Lemma list_erase_NoDup x l : NoDup l → x ∈ l → NoDup (list_erase x l) ∧ ∀ y, y ∈ list_erase x l ↔ y ∈ l ∧ y ≠ x.
Proof.
  intros Hnd Hx. pose proof (list_erase_perm x l Hx) as Hp. rewrite Hp in Hnd.
  apply NoDup_cons in Hnd as [Hn Hnd]. split; [done|]. intros y.
  assert (y ∈ l ↔ y = x ∨ y ∈ list_erase x l) as -> by (rewrite <-elem_of_cons; by apply elem_of_Permutation_proper).
  split; [intros Hy; split; [by right|by intros ->]|naive_solver].
Qed.
Lemma list_erase_size x l : x ∈ l → list_size (list_erase x l) = list_size l - 1.
Proof. intros Hx. unfold list_size. pose proof (Permutation_length (list_erase_perm x l Hx)) as E. simpl in E. lia. Qed.

(** [l] lists, once each, the keys whose status is [st]. *)
Definition listed (l : list Z) (m : gmap Z FrameStatus) (st : ArcStatus) : Prop :=
  NoDup l ∧ ∀ x, x ∈ l ↔ ∃ s, m !! x = Some s ∧ arc_status_ s = st.

Section listed.
Context (l : list Z) (m : gmap Z FrameStatus) (st : ArcStatus) (Hl : listed l m st).
Implicit Types (x : Z) (s : FrameStatus).

Lemma listed_status x s : m !! x = Some s → x ∈ l ↔ arc_status_ s = st.
Proof. intros Hx. rewrite (proj2 Hl). naive_solver. Qed.
Lemma listed_enter x s : x ∉ l → arc_status_ s = st → listed (x :: l) (<[x := s]> m) st.
Proof.
  destruct Hl as [Hnd Hin]. intros Hx Hs. split; [by constructor|]. intros y. rewrite elem_of_cons, Hin.
  destruct (decide (y = x)) as [->|]; [rewrite lookup_insert_eq|rewrite lookup_insert_ne by done]; naive_solver.
Qed.
Lemma listed_leave x s : x ∈ l → arc_status_ s ≠ st → listed (list_erase x l) (<[x := s]> m) st.
Proof.
  destruct Hl as [Hnd Hin]. intros Hx Hs. destruct (list_erase_NoDup x l Hnd Hx) as [Hnd' Hin'].
  split; [done|]. intros y. rewrite Hin', Hin.
  destruct (decide (y = x)) as [->|]; [rewrite lookup_insert_eq|rewrite lookup_insert_ne by done]; naive_solver.
Qed.
Lemma listed_skip x s : x ∉ l → arc_status_ s ≠ st → listed l (<[x := s]> m) st.
Proof.
  destruct Hl as [Hnd Hin]. intros Hx Hs. split; [done|]. intros y.
  destruct (decide (y = x)) as [->|]; [rewrite lookup_insert_eq|rewrite lookup_insert_ne by done; apply Hin]; naive_solver.
Qed.
Lemma listed_update x s s0 : m !! x = Some s0 → arc_status_ s = arc_status_ s0 → listed l (<[x := s]> m) st.
Proof.
  destruct Hl as [Hnd Hin]. intros Hx Hs. split; [done|]. intros y. rewrite Hin.
  destruct (decide (y = x)) as [->|]; [rewrite lookup_insert_eq|rewrite lookup_insert_ne by done; done].
  rewrite Hx. naive_solver congruence.
Qed.
Lemma listed_refresh x : x ∈ l → listed (x :: list_erase x l) m st.
Proof.
  destruct Hl as [Hnd Hin]. intros Hx. destruct (list_erase_NoDup x l Hnd Hx) as [Hnd' Hin'].
  split; [constructor; [rewrite Hin'; naive_solver|done]|].
  intros y. rewrite elem_of_cons, Hin', <-Hin. destruct (decide (y = x)); naive_solver.
Qed.
Lemma listed_delete x : x ∈ l → listed (list_erase x l) (delete x m) st.
Proof.
  destruct Hl as [Hnd Hin]. intros Hx. destruct (list_erase_NoDup x l Hnd Hx) as [Hnd' Hin'].
  split; [done|]. intros y. rewrite Hin', Hin.
  destruct (decide (y = x)) as [->|]; [rewrite lookup_delete_eq|rewrite lookup_delete_ne by done]; naive_solver.
Qed.
Lemma listed_delete_other x : x ∉ l → listed l (delete x m) st.
Proof.
  destruct Hl as [Hnd Hin]. intros Hx. split; [done|]. intros y. rewrite Hin.
  destruct (decide (y = x)) as [->|]; [rewrite lookup_delete_eq|by rewrite lookup_delete_ne].
  rewrite Hin in Hx. naive_solver.
Qed.
(** Dropping the last element. *)
Lemma listed_pop_back x l0 : l = l0 ++ [x] → listed l0 (delete x m) st.
Proof.
  destruct Hl as [Hnd Hin]. intros ->. apply NoDup_app in Hnd as (Hnd & Hx & _).
  assert (x ∉ l0) as Hx0 by (intros H; apply (Hx x H); by left).
  split; [done|]. intros y. destruct (decide (y = x)) as [->|].
  - rewrite lookup_delete_eq. naive_solver.
  - rewrite lookup_delete_ne, <-Hin by done. rewrite elem_of_app, list_elem_of_singleton. naive_solver.
Qed.
End listed.

(** The number of evictable frames. *)
Definition evictables (m : gmap Z FrameStatus) : Z := Z.of_nat (size (filter (λ e, evictable_ e.2 = true) m)).

Lemma evictables_lookup m f s :
  m !! f = Some s → evictables m = evictables (delete f m) + Z.b2z (evictable_ s).
Proof.
  intros Hf. unfold evictables. rewrite map_filter_delete.
  destruct (evictable_ s) eqn:E; simpl.
  - rewrite map_size_delete_Some; [|exists s; by apply map_lookup_filter_Some].
    assert (filter (λ e : Z * FrameStatus, evictable_ e.2 = true) m !! f = Some s) as Hs by (by apply map_lookup_filter_Some).
    assert (size (filter (λ e : Z * FrameStatus, evictable_ e.2 = true) m) ≠ 0%nat) as Hn.
    { intros H0%map_size_empty_inv. by rewrite H0, lookup_empty in Hs. }
    lia.
  - rewrite map_size_delete_None; [lia|]. apply map_lookup_filter_None. right. intros s' Hs'. simpl. congruence.
Qed.
Lemma evictables_insert m f s :
  evictables (<[f := s]> m) = evictables (delete f m) + Z.b2z (evictable_ s).
Proof. rewrite (evictables_lookup _ f s (lookup_insert_eq _ _ _)). by rewrite delete_insert_eq. Qed.

(** ** The invariant *)

(** The part that [trim_ghosts] does not need to restore. *)
Record arc_base (c : Z) (a : ArcReplacer) : Prop := mkArcBase {
  ab_mru : listed (mru_ a) (alive_map_ a) MRU;
  ab_mfu : listed (mfu_ a) (alive_map_ a) MFU;
  ab_mru_ghost : listed (mru_ghost_ a) (ghost_map_ a) MRU_GHOST;
  ab_mfu_ghost : listed (mfu_ghost_ a) (ghost_map_ a) MFU_GHOST;
  ab_alive f s : alive_map_ a !! f = Some s →
    (arc_status_ s = MRU ∨ arc_status_ s = MFU) ∧ 0 ≤ f < c ∧ ghost_map_ a !! fs_page_id s = None;
  ab_ghost p s : ghost_map_ a !! p = Some s → arc_status_ s = MRU_GHOST ∨ arc_status_ s = MFU_GHOST;
  ab_pages f1 s1 f2 s2 : alive_map_ a !! f1 = Some s1 → alive_map_ a !! f2 = Some s2 →
    fs_page_id s1 = fs_page_id s2 → f1 = f2;
  ab_curr : curr_size_ a = evictables (alive_map_ a);
  ab_size : replacer_size_ a = c;
  ab_target : 0 ≤ mru_target_size_ a ≤ c
}.
(** The directory of the paper: recent pages and their ghosts number at most [c], all together at most
    [2 c]. *)
Definition recent (a : ArcReplacer) : Z := list_size (mru_ a) + list_size (mru_ghost_ a).
Definition total (a : ArcReplacer) : Z := recent a + list_size (mfu_ghost_ a) + list_size (mfu_ a).
Record arc_inv (c : Z) (a : ArcReplacer) : Prop := mkArcInv {
  ai_base : arc_base c a;
  ai_recent : recent a ≤ c;
  ai_total : total a ≤ 2 * c
}.

Definition arc_alive (a : ArcReplacer) : gmap Z (Z * bool) :=
  (λ s, (fs_page_id s, evictable_ s)) <$> alive_map_ a.

Lemma arc_alive_Some a f p e :
  arc_alive a !! f = Some (p, e) ↔ ∃ s, alive_map_ a !! f = Some s ∧ fs_page_id s = p ∧ evictable_ s = e.
Proof. unfold arc_alive. rewrite lookup_fmap, fmap_Some. naive_solver. Qed.

Section base.
Context (c : Z) (a : ArcReplacer) (Hb : arc_base c a).

(** An alive frame is in the list its status names, and in no other. *)
Lemma alive_mru f s : alive_map_ a !! f = Some s → f ∈ mru_ a ↔ arc_status_ s = MRU.
Proof. apply listed_status, (ab_mru _ _ Hb). Qed.
Lemma alive_mfu f s : alive_map_ a !! f = Some s → f ∈ mfu_ a ↔ arc_status_ s = MFU.
Proof. apply listed_status, (ab_mfu _ _ Hb). Qed.
Lemma dead_unlisted f : alive_map_ a !! f = None → (f ∉ mru_ a) ∧ (f ∉ mfu_ a).
Proof.
  intros Hf. split; intros Hin.
  - apply (ab_mru _ _ Hb) in Hin as (s & Hs & _). congruence.
  - apply (ab_mfu _ _ Hb) in Hin as (s & Hs & _). congruence.
Qed.
Lemma unghosted p : ghost_map_ a !! p = None → (p ∉ mru_ghost_ a) ∧ (p ∉ mfu_ghost_ a).
Proof.
  intros Hf. split; intros Hin.
  - apply (ab_mru_ghost _ _ Hb) in Hin as (s & Hs & _). congruence.
  - apply (ab_mfu_ghost _ _ Hb) in Hin as (s & Hs & _). congruence.
Qed.
(** There are at most [c] alive frames. *)
Lemma alive_bound : list_size (mru_ a) + list_size (mfu_ a) ≤ c.
Proof.
  destruct (ab_mru _ _ Hb) as [Hn1 Hi1], (ab_mfu _ _ Hb) as [Hn2 Hi2].
  assert (NoDup (mru_ a ++ mfu_ a)) as Hnd.
  { apply NoDup_app. split_and!; [done| |done]. intros f (s & Hs & E)%Hi1 (s' & Hs' & E')%Hi2. congruence. }
  assert (mru_ a ++ mfu_ a ⊆ seqZ 0 c) as Hsub.
  { intros f. rewrite elem_of_app, elem_of_seqZ. intros [(s & Hs & _)%Hi1|(s & Hs & _)%Hi2];
      destruct (ab_alive _ _ Hb f s Hs) as (_ & ? & _); lia. }
  pose proof (submseteq_length _ _ (NoDup_submseteq _ _ Hnd Hsub)) as Hlen.
  rewrite length_app, length_seqZ in Hlen. unfold list_size.
  pose proof (ab_target _ _ Hb). lia.
Qed.
(** Moving an evictable frame to a ghost list keeps the two maps consistent. *)
Lemma evict_fields f s g :
  alive_map_ a !! f = Some s → evictable_ s = true → g = MRU_GHOST ∨ g = MFU_GHOST →
  let alive := delete f (alive_map_ a) in
  let ghosts := <[fs_page_id s := set_status g s]> (ghost_map_ a) in
  (∀ f' s', alive !! f' = Some s' →
    (arc_status_ s' = MRU ∨ arc_status_ s' = MFU) ∧ 0 ≤ f' < c ∧ ghosts !! fs_page_id s' = None) ∧
  (∀ p s', ghosts !! p = Some s' → arc_status_ s' = MRU_GHOST ∨ arc_status_ s' = MFU_GHOST) ∧
  (∀ f1 s1 f2 s2, alive !! f1 = Some s1 → alive !! f2 = Some s2 → fs_page_id s1 = fs_page_id s2 → f1 = f2) ∧
  curr_size_ a - 1 = evictables alive.
Proof.
  intros Hs He Hg. simpl. split_and!.
  - intros g' s' [Hne Hgs]%lookup_delete_Some. destruct (ab_alive _ _ Hb g' s' Hgs) as (? & ? & ?).
    split_and!; try done; [lia..|]. rewrite lookup_insert_ne; [done|]. intros E. apply Hne. by eapply (ab_pages _ _ Hb).
  - intros p s' [[<- <-]|[_ Hp]]%lookup_insert_Some; [done|by eapply (ab_ghost _ _ Hb)].
  - intros f1 s1 f2 s2 [_ H1]%lookup_delete_Some [_ H2]%lookup_delete_Some. by apply (ab_pages _ _ Hb).
  - rewrite (ab_curr _ _ Hb), (evictables_lookup _ _ _ Hs), He. simpl. lia.
Qed.
End base.

(** ** Eviction *)

Lemma find_victim_spec alive l :
  (∀ f, f ∈ l → is_Some (alive !! f)) →
  match find_victim alive l with
  | Ok (Some (f, s)) => f ∈ l ∧ alive !! f = Some s ∧ evictable_ s = true
  | Ok None => ∀ f s, f ∈ l → alive !! f = Some s → evictable_ s = false
  | Err _ => False
  end.
Proof.
  induction l as [|f l IH]; simpl; intros Hl; [intros ?? ?%elem_of_nil; done|].
  destruct (Hl f) as [s Hs]; [by left|]. rewrite Hs. destruct (evictable_ s) eqn:E; [split; [by left|done]|].
  assert (∀ g, g ∈ l → is_Some (alive !! g)) as Hl' by (intros g Hg; apply Hl; by right). specialize (IH Hl').
  destruct (find_victim alive l) as [[[g s']|]|]; [| |done].
  - destruct IH as (? & ? & ?). split; [by right|done].
  - intros g s' [->|Hg]%elem_of_cons Hg'; [congruence|by eapply IH].
Qed.

Definition queue (frequent : bool) (a : ArcReplacer) : list Z := if frequent then mfu_ a else mru_ a.
Definition queue_status (frequent : bool) : ArcStatus := if frequent then MFU else MRU.

Lemma queue_listed c a frequent : arc_base c a → listed (queue frequent a) (alive_map_ a) (queue_status frequent).
Proof. intros Hb. destruct frequent; apply Hb. Qed.

Lemma evict_moves c a frequent f s :
  arc_inv c a → f ∈ queue frequent a → alive_map_ a !! f = Some s → evictable_ s = true →
  find_victim (alive_map_ a) (reverse (queue frequent a)) = Ok (Some (f, s)) →
  ∃ a', EvictFromList frequent a = (Ok (Some f), a') ∧ arc_inv c a' ∧ arc_alive a' = delete f (arc_alive a).
Proof.
  intros [Hb Hr Ht] Hf Hs He Hv. pose proof Hb as [Hmru Hmfu Hrg Hfg Hal Hgh Hpg Hcur Hsz Htg].
  destruct (Hal f s Hs) as (_ & _ & Hng). destruct (unghosted c a Hb _ Hng) as [Hn1 Hn2].
  pose proof (list_erase_size f (queue frequent a) Hf) as Hlen.
  assert (arc_status_ s = queue_status frequent) as Hst.
  { by apply (listed_status _ _ _ (queue_listed c a frequent Hb) f s Hs). }
  unfold EvictFromList. fold (queue frequent a). rewrite Hv. rewrite Hst.
  destruct frequent; simpl in *; (eexists; split; [done|]); (split; [|unfold arc_alive; simpl; by rewrite fmap_delete]).
  - assert (f ∉ mru_ a) as Hnr by (rewrite (alive_mru c a Hb f s Hs); congruence).
    destruct (evict_fields c a Hb f s MFU_GHOST Hs He) as (? & ? & ? & ?); [by right|].
    split; [split; simpl|unfold recent in *; simpl in *; lia|unfold total, recent, list_size in *; simpl in *; lia];
      auto using listed_delete_other, listed_delete, listed_skip, listed_enter.
  - assert (f ∉ mfu_ a) as Hnr by (rewrite (alive_mfu c a Hb f s Hs); congruence).
    destruct (evict_fields c a Hb f s MRU_GHOST Hs He) as (? & ? & ? & ?); [by left|].
    split; [split; simpl|unfold recent, list_size in *; simpl in *; lia|unfold total, recent, list_size in *; simpl in *; lia];
      auto using listed_delete_other, listed_delete, listed_skip, listed_enter.
Qed.

(** One list: nothing evictable in it, or its least recently used evictable frame goes. *)
Lemma EvictFromList_ok c a frequent :
  arc_inv c a →
  (EvictFromList frequent a = (Ok None, a) ∧
    ∀ f s, f ∈ queue frequent a → alive_map_ a !! f = Some s → evictable_ s = false) ∨
  ∃ f s a', EvictFromList frequent a = (Ok (Some f), a') ∧ alive_map_ a !! f = Some s ∧ evictable_ s = true ∧
    arc_inv c a' ∧ arc_alive a' = delete f (arc_alive a).
Proof.
  intros Hi. pose proof (find_victim_spec (alive_map_ a) (reverse (queue frequent a))) as Hv.
  destruct (find_victim _ _) as [[[f s]|]|] eqn:E.
  - destruct Hv as (Hf & Hs & He).
    { intros g Hg%elem_of_reverse%(queue_listed c a frequent (ai_base _ _ Hi)). naive_solver. }
    rewrite elem_of_reverse in Hf. right. destruct (evict_moves c a frequent f s Hi Hf Hs He E) as (a' & ? & ? & ?). by exists f, s, a'.
  - left. split; [unfold EvictFromList; fold (queue frequent a); by rewrite E|].
    intros f s Hf. apply Hv; [|by apply elem_of_reverse].
    intros g Hg%elem_of_reverse%(queue_listed c a frequent (ai_base _ _ Hi)). naive_solver.
  - destruct Hv. intros g Hg%elem_of_reverse%(queue_listed c a frequent (ai_base _ _ Hi)). naive_solver.
Qed.

(** Both lists, in either order. *)
Lemma evict_two c a b :
  arc_inv c a →
  let two := (evicted ← EvictFromList b; or_evict evicted (negb b)) a in
  (two = (Ok None, a) ∧ ∀ f s, alive_map_ a !! f = Some s → evictable_ s = false) ∨
  ∃ f s a', two = (Ok (Some f), a') ∧ alive_map_ a !! f = Some s ∧ evictable_ s = true ∧
    arc_inv c a' ∧ arc_alive a' = delete f (arc_alive a).
Proof.
  intros Hi. unfold mbind, ST_bind. simpl.
  destruct (EvictFromList_ok c a b Hi) as [[-> H1]|(f & s & a' & -> & H)]; [|right; by exists f, s, a'].
  simpl. destruct (EvictFromList_ok c a (negb b) Hi) as [[-> H2]|(f & s & a' & -> & H)]; [|right; by exists f, s, a'].
  left. split; [done|]. intros f s Hs. destruct (ab_alive _ _ (ai_base _ _ Hi) f s Hs) as (Hst & _).
  assert (f ∈ queue b a ∨ f ∈ queue (negb b) a) as [?|?]; [|by eapply H1|by eapply H2].
  rewrite !(listed_status _ _ _ (queue_listed c a _ (ai_base _ _ Hi)) f s Hs). destruct b; simpl; tauto.
Qed.

Lemma Evict_eq a :
  Evict a = if bool_decide (curr_size_ a = 0) then (Ok None, a)
            else if bool_decide (list_size (mru_ a) < mru_target_size_ a)
            then (evicted ← EvictFromList true; or_evict evicted false) a
            else (evicted ← EvictFromList false; or_evict evicted true) a.
Proof.
  unfold Evict, UnsafeEvict. unfold mbind at 1, ST_bind at 1, st_get. repeat case_bool_decide; done.
Qed.
Lemma Evict_ok c a :
  arc_inv c a →
  (Evict a = (Ok None, a) ∧ ∀ f s, alive_map_ a !! f = Some s → evictable_ s = false) ∨
  ∃ f s a', Evict a = (Ok (Some f), a') ∧ alive_map_ a !! f = Some s ∧ evictable_ s = true ∧
    arc_inv c a' ∧ arc_alive a' = delete f (arc_alive a).
Proof.
  intros Hi. rewrite Evict_eq. case_bool_decide as H0; [|case_bool_decide].
  - left. split; [done|]. intros f s Hs. destruct (evictable_ s) eqn:E; [|done]. exfalso.
    rewrite (ab_curr _ _ (ai_base _ _ Hi)), (evictables_lookup _ _ _ Hs), E in H0. simpl in H0. unfold evictables in H0. lia.
  - apply (evict_two c a true Hi).
  - apply (evict_two c a false Hi).
Qed.

(** ** Accesses *)

Lemma target_bounds st r f t c :
  0 ≤ t → 0 ≤ r → 0 ≤ f → 0 ≤ c → 0 ≤ Z.max (Z.min (UpdateMruTargetSize st r f t) c) 0 ≤ c.
Proof. lia. Qed.

(** The state between [record_hit] and [trim_ghosts]: at most one entry too many. *)
Definition over (c : Z) (a : ArcReplacer) : Prop :=
  recent a ≤ c + 1 ∧ total a ≤ 2 * c + 1.

Lemma trim_ok c a : arc_base c a → over c a → arc_inv c (trim_ghosts a) ∧ alive_map_ (trim_ghosts a) = alive_map_ a.
Proof.
  intros Hb (Hr & Ht). pose proof (alive_bound c a Hb) as Hal.
  pose proof Hb as [Hmru Hmfu Hrg Hfg Hav Hgh Hpg Hcur Hsz Htg].
  assert (∀ x, (∀ f s, alive_map_ a !! f = Some s → (arc_status_ s = MRU ∨ arc_status_ s = MFU) ∧ 0 ≤ f < c ∧
            delete x (ghost_map_ a) !! fs_page_id s = None) ∧
          ∀ p s, delete x (ghost_map_ a) !! p = Some s → arc_status_ s = MRU_GHOST ∨ arc_status_ s = MFU_GHOST) as Hdel.
  { intros x. split.
    - intros f s Hs. destruct (Hav f s Hs) as (? & ? & ?). split_and!; try done; [lia..|]. apply lookup_delete_None. by right.
    - intros p s [_ Hp]%lookup_delete_Some. by eapply Hgh. }
  assert (¬ (list_size (mru_ a) + list_size (mru_ghost_ a) > c ∧ mru_ghost_ a ≠ []) → recent a ≤ c) as Hrc.
  { intros H1. destruct (decide (mru_ghost_ a = [])) as [E|E].
    - unfold recent, list_size in *. rewrite E in *. simpl in *. lia.
    - destruct (decide (recent a ≤ c)); [done|exfalso; apply H1; unfold recent in *; split; [lia|done]]. }
  unfold trim_ghosts. rewrite Hsz. fold (recent a). fold (total a). case_bool_decide as H1; [|case_bool_decide as H2].
  - destruct H1 as [Hgt Hne]. destruct (exists_last Hne) as (l0 & x & El).
    unfold pop_back_, erase_back. rewrite El, last_snoc, length_app. simpl. rewrite Nat.add_sub, take_app_length.
    destruct (Hdel x) as [Hd1 Hd2]. split; [|done].
    apply (f_equal length) in El as Hlen. rewrite length_app in Hlen. simpl in Hlen.
    unfold recent, total, recent, list_size in *.
    split; [split; simpl; try done|unfold recent, list_size; simpl; lia|unfold total, recent, list_size; simpl; lia].
    + by eapply listed_pop_back.
    + apply listed_delete_other; [done|]. intros Hx%(proj2 Hfg).
      assert (x ∈ mru_ghost_ a) as Hx' by (rewrite El; set_solver). apply (proj2 Hrg) in Hx'. naive_solver congruence.
  - destruct H2 as [Hgt Hne]. destruct (exists_last Hne) as (l0 & x & El).
    unfold pop_back_, erase_back. rewrite El, last_snoc, length_app. simpl. rewrite Nat.add_sub, take_app_length.
    destruct (Hdel x) as [Hd1 Hd2]. split; [|done].
    specialize (Hrc H1).
    apply (f_equal length) in El as Hlen. rewrite length_app in Hlen. simpl in Hlen.
    unfold recent, total, recent, list_size in *.
    split; [split; simpl; try done|unfold recent, list_size; simpl; lia|unfold total, recent, list_size; simpl; lia].
    + apply listed_delete_other; [done|]. intros Hx%(proj2 Hrg).
      assert (x ∈ mfu_ghost_ a) as Hx' by (rewrite El; set_solver). apply (proj2 Hfg) in Hx'. naive_solver congruence.
    + by eapply listed_pop_back.
  - split; [|done].
    specialize (Hrc H1).
    split; [done|done|].
    destruct (decide (mfu_ghost_ a = [])) as [E|E]; [|destruct (decide (total a ≤ 2 * c)); [done|exfalso; apply H2; unfold total, recent in *; split; [lia|done]]].
    unfold total, list_size in *. rewrite E in *. simpl in *. lia.
Qed.

(** Binding a frame to a page keeps the two maps consistent. *)
Lemma bind_fields c a f s (ghosts : gmap Z FrameStatus) :
  arc_base c a → (∀ q, ghost_map_ a !! q = None → ghosts !! q = None) → ghosts !! fs_page_id s = None →
  0 ≤ f < c → arc_status_ s = MRU ∨ arc_status_ s = MFU →
  (∀ f' e, arc_alive a !! f' = Some (fs_page_id s, e) → f' = f) →
  (∀ f' s', <[f := s]> (alive_map_ a) !! f' = Some s' →
    (arc_status_ s' = MRU ∨ arc_status_ s' = MFU) ∧ 0 ≤ f' < c ∧ ghosts !! fs_page_id s' = None) ∧
  (∀ f1 s1 f2 s2, <[f := s]> (alive_map_ a) !! f1 = Some s1 → <[f := s]> (alive_map_ a) !! f2 = Some s2 →
    fs_page_id s1 = fs_page_id s2 → f1 = f2).
Proof.
  intros Hb Hgs Hp Hf Hst Honly. split.
  - intros f' s' [[<- <-]|[_ Hs']]%lookup_insert_Some; [done|]. destruct (ab_alive _ _ Hb f' s' Hs') as (? & ? & ?). auto.
  - assert (∀ f' s', alive_map_ a !! f' = Some s' → fs_page_id s' = fs_page_id s → f' = f) as Hu.
    { intros f' s' Hs' E. apply (Honly f' (evictable_ s')). apply arc_alive_Some. eauto. }
    intros f1 s1 f2 s2 [[<- <-]|[? H1]]%lookup_insert_Some [[<- <-]|[? H2]]%lookup_insert_Some E; try done.
    + symmetry. by eapply Hu.
    + by eapply Hu.
    + by eapply (ab_pages _ _ Hb).
Qed.

Lemma record_alive a f s :
  (∀ s0, alive_map_ a !! f = Some s0 → evictable_ s0 = evictable_ s) →
  (alive_map_ a !! f = None → evictable_ s = false) →
  (λ s, (fs_page_id s, evictable_ s)) <$> <[f := s]> (alive_map_ a) = record_access (arc_alive a) f (fs_page_id s).
Proof.
  intros H1 H2. unfold record_access, arc_alive. rewrite fmap_insert, lookup_fmap. f_equal. f_equal.
  destruct (alive_map_ a !! f) as [s0|]; simpl; [symmetry; by apply H1|by apply H2].
Qed.

Lemma hit_alive_ok c a f p s :
  arc_inv c a → may_record (arc_alive a) c f p → alive_map_ a !! f = Some s →
  ∃ a', AccessHits f s a = (Ok tt, a') ∧ arc_base c a' ∧ over c a' ∧ arc_alive a' = record_access (arc_alive a) f p.
Proof.
  intros [Hb Hr Ht] (Hf & Hpg & Honly) Hs. pose proof Hb as [Hmru Hmfu Hrg Hfg Hal Hgh Hup Hcur Hsz Htg].
  assert (fs_page_id s = p) as <-.
  { apply (Hpg (fs_page_id s, evictable_ s)). apply arc_alive_Some. eauto. }
  destruct (Hal f s Hs) as (Hst & _ & Hng).
  unfold AccessHits. destruct (arc_status_ s) eqn:Es; try (destruct Hst; discriminate).
  - eexists. split; [done|].
    assert (f ∈ mru_ a) as Hin by (by apply (alive_mru c a Hb f s)).
    assert (f ∉ mfu_ a) as Hnin by (rewrite (alive_mfu c a Hb f s Hs); congruence).
    destruct (bind_fields c a f (set_status MFU s) (ghost_map_ a)) as [Hf1 Hf2]; try done; [by right|].
    pose proof (list_erase_size f _ Hin) as Hlen. split_and!.
    + split; simpl; try done; [by apply listed_leave|by apply listed_enter|].
      by rewrite Hcur, evictables_insert, (evictables_lookup _ _ _ Hs).
    + unfold over, total, recent, list_size in *. simpl. lia.
    + apply (record_alive a f (set_status MFU s)); [by intros s0 [= <-]%(eq_trans (eq_sym Hs))|congruence].
  - eexists. split; [done|].
    assert (f ∈ mfu_ a) as Hin by (by apply (alive_mfu c a Hb f s)).
    pose proof (list_erase_size f _ Hin) as Hlen. split_and!.
    + split; simpl; try done. by apply listed_refresh.
    + unfold over, total, recent, list_size in *. simpl. lia.
    + unfold arc_alive, record_access. simpl. symmetry. apply insert_id. rewrite lookup_fmap, Hs. done.
Qed.

Lemma listed_ghost c a p s :
  arc_base c a → ghost_map_ a !! p = Some s →
  (p ∈ mru_ghost_ a ↔ arc_status_ s = MRU_GHOST) ∧ (p ∈ mfu_ghost_ a ↔ arc_status_ s = MFU_GHOST).
Proof.
  intros Hb Hp. split; [by apply (listed_status _ _ _ (ab_mru_ghost _ _ Hb))|by apply (listed_status _ _ _ (ab_mfu_ghost _ _ Hb))].
Qed.

(** A ghost hit: the page leaves its ghost list and its frame enters [mfu_]. *)
Lemma hit_ghost_ok c a f p s :
  arc_inv c a → may_record (arc_alive a) c f p → alive_map_ a !! f = None → ghost_map_ a !! p = Some s →
  ∃ a', record_hit f p a = (Ok tt, a') ∧ arc_base c a' ∧ over c a' ∧ arc_alive a' = record_access (arc_alive a) f p.
Proof.
  intros [Hb Hr Ht] (Hf & _ & Honly) Hnf Hp. pose proof Hb as [Hmru Hmfu Hrg Hfg Hal Hgh Hup Hcur Hsz Htg].
  destruct (listed_ghost c a p s Hb Hp) as [Hl1 Hl2]. destruct (dead_unlisted c a Hb f Hnf) as [Hn1 Hn2].
  set (s' := mkStatus p f false MFU).
  destruct (bind_fields c a f s' (delete p (ghost_map_ a))) as [Hf1 Hf2]; try done.
  { intros q Hq. apply lookup_delete_None. by right. }
  { apply lookup_delete_eq. }
  { by right. }
  assert (∀ q s0, delete p (ghost_map_ a) !! q = Some s0 → arc_status_ s0 = MRU_GHOST ∨ arc_status_ s0 = MFU_GHOST) as Hg'.
  { intros q s0 [_ Hq]%lookup_delete_Some. by eapply Hgh. }
  assert (curr_size_ a = evictables (<[f := s']> (alive_map_ a))) as Hc.
  { rewrite evictables_insert, delete_id by done. simpl. lia. }
  assert ((λ s, (fs_page_id s, evictable_ s)) <$> <[f := s']> (alive_map_ a) = record_access (arc_alive a) f p) as Ha.
  { apply (record_alive a f s'); [congruence|done]. }
  unfold record_hit, st_get. unfold mbind, ST_bind. simpl. rewrite Hnf, Hp.
  unfold AccessGhostHits. destruct (Hgh p s Hp) as [Es|Es]; rewrite Es; simpl; (eexists; split; [done|]);
    (split; [split; simpl; rewrite ?Hsz; try done; try lia|split; [|exact Ha]]).
  - by apply listed_skip.
  - by apply listed_enter.
  - apply listed_delete; [done|by apply Hl1].
  - apply listed_delete_other; [done|]. rewrite Hl2. congruence.
  - pose proof (list_erase_size p _ (proj2 Hl1 Es)). unfold over, total, recent, list_size in *. simpl. lia.
  - by apply listed_skip.
  - by apply listed_enter.
  - apply listed_delete_other; [done|]. rewrite Hl1. congruence.
  - apply listed_delete; [done|by apply Hl2].
  - pose proof (list_erase_size p _ (proj2 Hl2 Es)). unfold over, total, recent, list_size in *. simpl. lia.
Qed.

(** A new page: its frame enters [mru_]. *)
Lemma hit_new_ok c a f p :
  arc_inv c a → may_record (arc_alive a) c f p → alive_map_ a !! f = None → ghost_map_ a !! p = None →
  ∃ a', record_hit f p a = (Ok tt, a') ∧ arc_base c a' ∧ over c a' ∧ arc_alive a' = record_access (arc_alive a) f p.
Proof.
  intros [Hb Hr Ht] (Hf & _ & Honly) Hnf Hp. pose proof Hb as [Hmru Hmfu Hrg Hfg Hal Hgh Hup Hcur Hsz Htg].
  destruct (dead_unlisted c a Hb f Hnf) as [Hn1 Hn2]. set (s' := mkStatus p f false MRU).
  destruct (bind_fields c a f s' (ghost_map_ a)) as [Hf1 Hf2]; try done; [by left|].
  unfold record_hit, st_get. unfold mbind, ST_bind. simpl. rewrite Hnf, Hp. eexists. split; [done|]. split_and!.
  - split; simpl; try done; [by apply listed_enter|by apply listed_skip|].
    rewrite evictables_insert, delete_id by done. simpl. lia.
  - unfold over, total, recent, list_size in *. simpl. lia.
  - apply (record_alive a f s'); [congruence|done].
Qed.

Lemma RecordAccess_ok c a f p :
  arc_inv c a → may_record (arc_alive a) c f p →
  ∃ a', RecordAccess f p a = (Ok tt, a') ∧ arc_inv c a' ∧ arc_alive a' = record_access (arc_alive a) f p.
Proof.
  intros Hi Hm.
  assert (∃ a1, record_hit f p a = (Ok tt, a1) ∧ arc_base c a1 ∧ over c a1 ∧
    arc_alive a1 = record_access (arc_alive a) f p) as (a1 & E & Hb & Ho & Ha).
  { destruct (alive_map_ a !! f) as [s|] eqn:Es.
    - destruct (hit_alive_ok c a f p s Hi Hm Es) as (a1 & E & H). exists a1. split; [|done].
      unfold record_hit, st_get. unfold mbind, ST_bind. simpl. by rewrite Es.
    - destruct (ghost_map_ a !! p) as [s|] eqn:Eg; [by eapply hit_ghost_ok|by eapply hit_new_ok]. }
  destruct (trim_ok c a1 Hb Ho) as [Hi' Hal]. exists (trim_ghosts a1).
  unfold RecordAccess. unfold mbind, ST_bind. rewrite E. split_and!; [done|done|].
  unfold arc_alive at 1. by rewrite Hal.
Qed.

(** ** Flags and removal *)

Lemma SetEvictable_ok c a f p e b :
  arc_inv c a → arc_alive a !! f = Some (p, e) →
  ∃ a', SetEvictable f b a = (Ok tt, a') ∧ arc_inv c a' ∧ arc_alive a' = <[f := (p, b)]> (arc_alive a).
Proof.
  intros Hi (s & Hs & <- & <-)%arc_alive_Some. unfold SetEvictable. rewrite Hs.
  case_bool_decide as Hbe.
  { exists a. split_and!; [done|done|]. subst b. symmetry. apply insert_id. apply arc_alive_Some. eauto. }
  destruct Hi as [Hb Hr Ht]. pose proof Hb as [Hmru Hmfu Hrg Hfg Hal Hgh Hup Hcur Hsz Htg].
  set (s' := set_evictable b s). destruct (Hal f s Hs) as (Hst & Hf & Hng).
  assert (∀ n, n = evictables (<[f := s']> (alive_map_ a)) →
    arc_inv c (set_curr n (set_alive (<[f := s']> (alive_map_ a)) a)) ∧
    arc_alive (set_curr n (set_alive (<[f := s']> (alive_map_ a)) a)) = <[f := (fs_page_id s, b)]> (arc_alive a)) as Hfin.
  { intros n Hn. destruct (bind_fields c a f s' (ghost_map_ a)) as [Hf1 Hf2]; try done.
    { intros f' e' (s0 & Hs0 & E & _)%arc_alive_Some. by eapply Hup. }
    split; [split; [split; simpl; try done|done|done]|unfold arc_alive; simpl; by rewrite fmap_insert].
    - by eapply (listed_update _ _ _ Hmru f s' s).
    - by eapply (listed_update _ _ _ Hmfu f s' s). }
  pose proof (evictables_lookup _ _ _ Hs) as E1. pose proof (evictables_insert (alive_map_ a) f s') as E2.
  subst s'. simpl in E2. destruct b, (evictable_ s); simpl in *; try done.
  - eexists. split; [done|]. apply Hfin. lia.
  - rewrite bool_decide_true by (unfold evictables in *; lia). eexists. split; [done|]. apply Hfin. lia.
Qed.

Lemma arc_Remove_ok c a f p :
  arc_inv c a → arc_alive a !! f = Some (p, true) →
  ∃ a', Remove f a = (Ok tt, a') ∧ arc_inv c a' ∧ arc_alive a' = delete f (arc_alive a).
Proof.
  intros [Hb Hr Ht] (s & Hs & <- & He)%arc_alive_Some. pose proof Hb as [Hmru Hmfu Hrg Hfg Hal Hgh Hup Hcur Hsz Htg].
  unfold Remove. rewrite Hs, He. simpl.
  assert (∀ f' s', delete f (alive_map_ a) !! f' = Some s' → alive_map_ a !! f' = Some s') as Hsub.
  { intros f' s' [_ H]%lookup_delete_Some. done. }
  pose proof (evictables_lookup _ _ _ Hs) as Hev. rewrite He in Hev. simpl in Hev.
  destruct (Hal f s Hs) as ([Es|Es] & _ & _); rewrite Es; simpl; (eexists; split; [done|]);
    (split; [|unfold arc_alive; simpl; by rewrite fmap_delete]).
  - assert (f ∈ mru_ a) as Hin by (by apply (alive_mru c a Hb f s)).
    assert (f ∉ mfu_ a) as Hn by (rewrite (alive_mfu c a Hb f s Hs); congruence).
    pose proof (list_erase_size f _ Hin). unfold recent, total, recent, list_size in *.
    split; [split; simpl; try done; eauto using listed_delete, listed_delete_other|..];
      unfold recent, total, recent, list_size; simpl; lia.
  - assert (f ∈ mfu_ a) as Hin by (by apply (alive_mfu c a Hb f s)).
    assert (f ∉ mru_ a) as Hn by (rewrite (alive_mru c a Hb f s Hs); congruence).
    pose proof (list_erase_size f _ Hin). unfold recent, total, recent, list_size in *.
    split; [split; simpl; try done; eauto using listed_delete, listed_delete_other|..];
      unfold recent, total, recent, list_size; simpl; lia.
Qed.

(** ** The instance *)

#[global] Instance arc_replacer : Replacer ArcReplacer := {
  rep_new := new_ArcReplacer;
  rep_Evict := Evict;
  rep_RecordAccess := RecordAccess;
  rep_SetEvictable := SetEvictable;
  rep_Remove := Remove;
  rep_Size := Size;
  rep_alive := arc_alive;
  rep_inv := arc_inv
}.

Lemma new_arc_ok c : 0 ≤ c → arc_inv c (new_ArcReplacer c).
Proof.
  intros Hc.
  assert (∀ st, listed [] ∅ st) as Hnil.
  { intros st. split; [constructor|]. intros x. split; [by intros ?%elem_of_nil|]. intros (s & Hs & _). by rewrite lookup_empty in Hs. }
  split; [|unfold recent, list_size; simpl; lia|unfold total, recent, list_size; simpl; lia].
  split; simpl; try done; intros *; rewrite ?lookup_empty; done.
Qed.

#[global] Instance arc_replacer_laws : ReplacerLaws ArcReplacer.
Proof.
  split; simpl.
  - intros c Hc. split; [by apply new_arc_ok|]. unfold arc_alive. simpl. apply fmap_empty.
  - intros c r Hi Hn. destruct (Evict_ok c r Hi) as [[E _]|(f & s & r' & _ & Hs & He & _)]; [done|].
    exfalso. apply (Hn f (fs_page_id s)). apply arc_alive_Some. eauto.
  - intros c r f p Hi (s & Hs & _ & He)%arc_alive_Some.
    destruct (Evict_ok c r Hi) as [[_ Hn]|(f' & s' & r' & E & Hs' & He' & Hi' & Ha')].
    { rewrite (Hn f s Hs) in He. done. }
    exists f', (fs_page_id s'), r'. split_and!; try done. apply arc_alive_Some. eauto.
  - intros c r f p. apply RecordAccess_ok.
  - intros c r f p e b. apply SetEvictable_ok.
  - intros r f b Hf. unfold SetEvictable, arc_alive in *. rewrite lookup_fmap, fmap_None in Hf. by rewrite Hf.
  - intros c r f p. apply arc_Remove_ok.
  - intros c r f p Hi (s & Hs & _ & He)%arc_alive_Some. unfold Remove. by rewrite Hs, He.
  - intros c r [Hb _ _]. unfold Size. rewrite (ab_curr _ _ Hb). unfold evictables, arc_alive. f_equal.
    rewrite map_filter_fmap. by rewrite map_size_fmap.
Qed.
