(* ===== verification/DiskManager.v ===== *)
(** * Disk managers ([storage/disk/{disk_manager.h,single_file_disk_manager.*}])

    [DiskManager] is the abstract backend of the buffer pool.  Each call takes the outcome the operating
    system gives it ([io]): success, a failing [stat], or a stream error.  [SingleFileDiskManager] keeps
    page [N] at byte [N * PAGE_SIZE] of one file, modelled with its bytes, and meets the contract
    [DiskLaws] for every page id. *)

From S2P Require Import Prelude TablePage.

(** ** Pages *)

(** A buffer of exactly [PAGE_SIZE] bytes. *)
Record Page := mkPage {
  page_data : list byte;
  page_full : bool_decide (Z.of_nat (length page_data) = PAGE_SIZE) = true
}.
Lemma page_eq (p q : Page) : page_data p = page_data q → p = q.
Proof.
  destruct p as [d Hd], q as [d' Hd']. simpl. intros ->. f_equal. apply proof_irrel.
Qed.
#[global] Instance page_eq_dec : EqDecision Page.
Proof.
  intros p q. destruct (decide (page_data p = page_data q)) as [H|H]; [left; by apply page_eq|right; by intros ->].
Defined.
Lemma page_length p : Z.of_nat (length (page_data p)) = PAGE_SIZE.
Proof. pose proof (page_full p) as H. by apply bool_decide_eq_true in H. Qed.

(** The first [PAGE_SIZE] bytes, zero-filled. *)
Definition fill (bs : list byte) : list byte :=
  take (Z.to_nat PAGE_SIZE) bs ++ replicate (Z.to_nat PAGE_SIZE - length bs) Byte.x00.
Lemma fill_length bs : bool_decide (Z.of_nat (length (fill bs)) = PAGE_SIZE) = true.
Proof.
  apply bool_decide_eq_true. unfold fill. rewrite length_app, length_take, length_replicate. unfold PAGE_SIZE. lia.
Qed.
Definition page_of (bs : list byte) : Page := mkPage (fill bs) (fill_length bs).
Definition zero_page : Page := page_of [].

Lemma fill_full bs : Z.of_nat (length bs) = PAGE_SIZE → fill bs = bs.
Proof.
  intros H. unfold fill. rewrite take_ge by lia. replace (Z.to_nat PAGE_SIZE - length bs)%nat with 0%nat by lia.
  apply app_nil_r.
Qed.
Lemma page_of_data p : page_of (page_data p) = p.
Proof. apply page_eq, fill_full, page_length. Qed.

(** ** The interface *)

Inductive io := IoOk | IoNoStat | IoBad.
#[global] Instance io_eq_dec : EqDecision io.
Proof. solve_decision. Defined.

Class DiskManager (D P : Type) := {
  dm_WritePage : io → Z → P → D → bool * D;
  dm_ReadPage : io → Z → P → D → bool * P;      (** the buffer before, the flag and the buffer after *)
  dm_DeletePage : io → Z → D → D;
  dm_page : D → Z → P;
  dm_zero : P;
  dm_inv : D → Prop
}.

(** What the pool relies on, as [disk_manager.h] documents it. *)
Class DiskLaws (D P : Type) `{!DiskManager D P} : Prop := {
  dm_read_ok d pid buf : dm_inv d → 0 ≤ pid → dm_ReadPage IoOk pid buf d = (true, dm_page d pid);
  dm_write_ok d pid p : dm_inv d → 0 ≤ pid →
    ∃ d', dm_WritePage IoOk pid p d = (true, d') ∧ dm_inv d' ∧
      ∀ q, 0 ≤ q → dm_page d' q = if decide (q = pid) then p else dm_page d q;
  dm_write_bad d pid p : dm_inv d → 0 ≤ pid →
    ∃ d', dm_WritePage IoBad pid p d = (false, d') ∧ dm_inv d' ∧ ∀ q, 0 ≤ q → dm_page d' q = dm_page d q;
  dm_delete_ok d pid : dm_inv d → 0 ≤ pid →
    dm_inv (dm_DeletePage IoOk pid d) ∧
    ∀ q, 0 ≤ q → dm_page (dm_DeletePage IoOk pid d) q = if decide (q = pid) then dm_zero else dm_page d q
}.

(** ** One file *)

Definition DEFAULT_DB_IO_SIZE : Z := 16.

Record SingleFileDiskManager := mkDisk {
  db_file : list byte;
  page_capacity_ : Z;
  num_writes_ : Z;
  num_deletes_ : Z
}.
Definition set_file (f : list byte) (d : SingleFileDiskManager) : SingleFileDiskManager :=
  mkDisk f (page_capacity_ d) (num_writes_ d) (num_deletes_ d).

(** [std::filesystem::resize_file] to a larger or smaller size: cut, or extended with zeroes. *)
Definition resize_file (f : list byte) (n : Z) : list byte :=
  take (Z.to_nat n) f ++ replicate (Z.to_nat n - length f) Byte.x00.
(** [GetFileSize]: -1 when the file cannot be stat'd. *)
Definition GetFileSize (o : io) (f : list byte) : Z :=
  match o with IoNoStat => -1 | _ => Z.of_nat (length f) end.

(** The constructor, over the bytes an existing file has ([[]] for a new one). *)
Definition new_SingleFileDiskManager (o : io) (f : list byte) : SingleFileDiskManager :=
  let file_size := GetFileSize o f in
  let existing_pages := if bool_decide (file_size > 0) then file_size / PAGE_SIZE else 0 in
  let cap := Z.max DEFAULT_DB_IO_SIZE existing_pages in
  let f := if bool_decide (file_size < 0 ∨ file_size < cap * PAGE_SIZE) then resize_file f (cap * PAGE_SIZE) else f in
  mkDisk f cap 0 0.

(** [while (page_capacity_ < needed) page_capacity_ *= 2;] *)
Fixpoint grow_capacity (fuel : nat) (cap needed : Z) : Z :=
  if bool_decide (cap < needed) then
    match fuel with O => cap | S f => grow_capacity f (cap * 2) needed end
  else cap.
(** The capacity is positive, so it passes [needed] after at most [needed] doublings. *)
Definition EnsureCapacity (page_id : Z) (d : SingleFileDiskManager) : SingleFileDiskManager :=
  let needed := page_id + 1 in
  if bool_decide (needed ≤ page_capacity_ d) then d else
  let cap := grow_capacity (Z.to_nat needed) (page_capacity_ d) needed in
  mkDisk (resize_file (db_file d) (cap * PAGE_SIZE)) cap (num_writes_ d) (num_deletes_ d).

(** [seekp(offset); write(data, PAGE_SIZE); flush()]. *)
Definition write_at (offset : Z) (data : list byte) (f : list byte) : list byte :=
  match mem_write f offset data PAGE_SIZE with Ok f => f | Err _ => f end.

Definition sf_WritePage (o : io) (page_id : Z) (p : Page) (d : SingleFileDiskManager) : bool * SingleFileDiskManager :=
  if bool_decide (page_id < 0) then (false, d) else
  let d := EnsureCapacity page_id d in
  let offset := page_id * PAGE_SIZE in
  match o with
  | IoBad => (false, d)
  | _ => (true, mkDisk (write_at offset (page_data p) (db_file d)) (page_capacity_ d) (num_writes_ d + 1) (num_deletes_ d))
  end.

(** The buffer is untouched when [stat] fails; a short read is zero-filled. *)
Definition sf_ReadPage (o : io) (page_id : Z) (buf : Page) (d : SingleFileDiskManager) : bool * Page :=
  if bool_decide (page_id < 0) then (false, zero_page) else
  let offset := page_id * PAGE_SIZE in
  let file_size := GetFileSize o (db_file d) in
  if bool_decide (file_size < 0) then (false, buf) else
  if bool_decide (offset + PAGE_SIZE > file_size) then (true, zero_page) else
  match o with
  | IoBad => (false, buf)
  | _ => (true, page_of (mem_read (db_file d) offset PAGE_SIZE))
  end.

Definition sf_DeletePage (o : io) (page_id : Z) (d : SingleFileDiskManager) : SingleFileDiskManager :=
  let d := mkDisk (db_file d) (page_capacity_ d) (num_writes_ d) (num_deletes_ d + 1) in
  if bool_decide (page_id < 0) then d else
  let offset := page_id * PAGE_SIZE in
  let file_size := GetFileSize o (db_file d) in
  if bool_decide (file_size < 0 ∨ offset + PAGE_SIZE > file_size) then d else
  match o with
  | IoBad => d
  | _ => set_file (write_at offset (page_data zero_page) (db_file d)) d
  end.

(** What page [pid] of the file holds. *)
Definition sf_page (d : SingleFileDiskManager) (pid : Z) : Page :=
  if bool_decide (pid * PAGE_SIZE + PAGE_SIZE > Z.of_nat (length (db_file d))) then zero_page
  else page_of (mem_read (db_file d) (pid * PAGE_SIZE) PAGE_SIZE).
(** The file is exactly as long as its capacity says. *)
Definition sf_inv (d : SingleFileDiskManager) : Prop :=
  0 < page_capacity_ d ∧ Z.of_nat (length (db_file d)) = page_capacity_ d * PAGE_SIZE.

#[global] Instance single_file : DiskManager SingleFileDiskManager Page := {
  dm_WritePage := sf_WritePage;
  dm_ReadPage := sf_ReadPage;
  dm_DeletePage := sf_DeletePage;
  dm_page := sf_page;
  dm_zero := zero_page;
  dm_inv := sf_inv
}.

(** ** The file meets the contract *)

Lemma grow_capacity_ok fuel cap needed :
  0 < cap → needed - cap ≤ Z.of_nat fuel → needed ≤ grow_capacity fuel cap needed ∧ cap ≤ grow_capacity fuel cap needed.
Proof.
  revert cap. induction fuel as [|f IH]; intros cap Hc Hf; simpl; case_bool_decide; try lia.
  destruct (IH (cap * 2)); lia.
Qed.
Lemma resize_file_length f n : 0 ≤ n → Z.of_nat (length (resize_file f n)) = n.
Proof. intros Hn. unfold resize_file. rewrite length_app, length_take, length_replicate. lia. Qed.
Lemma EnsureCapacity_ok pid d :
  sf_inv d → 0 ≤ pid →
  sf_inv (EnsureCapacity pid d) ∧ pid < page_capacity_ (EnsureCapacity pid d) ∧
  (∃ n, db_file (EnsureCapacity pid d) = db_file d ++ replicate n Byte.x00).
Proof.
  intros [Hc Hlen] Hp. unfold EnsureCapacity. case_bool_decide as Hn.
  { split_and!; [done|lia|]. exists 0%nat. by rewrite app_nil_r. }
  destruct (grow_capacity_ok (Z.to_nat (pid + 1)) (page_capacity_ d) (pid + 1)) as [H1 H2]; [done|lia|].
  set (cap := grow_capacity _ _ _) in *. unfold PAGE_SIZE in *. split_and!.
  - split; simpl; [lia|]. unfold PAGE_SIZE. rewrite resize_file_length; lia.
  - simpl. lia.
  - simpl. unfold resize_file. rewrite take_ge by lia. eauto.
Qed.

(** Bytes added at the end read as the zeroes they were before. *)
Lemma mem_read_zeros (f : list byte) n off len :
  Z.of_nat (length f) ≤ off → 0 ≤ len → off + len ≤ Z.of_nat (length f + n) →
  mem_read (f ++ replicate n Byte.x00) off len = replicate (Z.to_nat len) Byte.x00.
Proof.
  intros H1 H2 H3. unfold mem_read. rewrite drop_app_ge, drop_replicate, take_replicate by lia. f_equal. lia.
Qed.
Lemma fill_zeros : fill (replicate (Z.to_nat PAGE_SIZE) Byte.x00) = fill [].
Proof.
  rewrite fill_full by (rewrite length_replicate, Z2Nat.id; [done|unfold PAGE_SIZE; lia]).
  unfold fill. by rewrite take_nil, app_nil_l, length_nil, Nat.sub_0_r.
Qed.
Lemma page_multiple q c : q * PAGE_SIZE + PAGE_SIZE > c * PAGE_SIZE → c * PAGE_SIZE ≤ q * PAGE_SIZE.
Proof. unfold PAGE_SIZE. lia. Qed.
Lemma sf_page_extend d d' n q :
  sf_inv d → sf_inv d' → 0 ≤ q → db_file d' = db_file d ++ replicate n Byte.x00 → sf_page d' q = sf_page d q.
Proof.
  intros [_ Hl] [_ Hl'] Hq E. unfold sf_page. rewrite E in *. rewrite length_app, length_replicate in *.
  assert (0 < PAGE_SIZE) by (unfold PAGE_SIZE; lia). assert (0 ≤ q * PAGE_SIZE) by (by apply Z.mul_nonneg_nonneg; lia).
  case_bool_decide as H1; case_bool_decide as H2; [reflexivity|lia| |].
  - apply page_eq, (eq_trans (y := fill (replicate (Z.to_nat PAGE_SIZE) Byte.x00))); [|apply fill_zeros].
    rewrite Hl in H2. apply page_multiple in H2. unfold page_of. cbn [page_data]. rewrite mem_read_zeros by lia. done.
  - apply (f_equal page_of), mem_read_ext. intros i Hi. rewrite lookup_app_l by lia. done.
Qed.

(** Writing one page. *)
Lemma write_at_ok d pid p q :
  sf_inv d → 0 ≤ pid < page_capacity_ d → 0 ≤ q →
  let d' := set_file (write_at (pid * PAGE_SIZE) (page_data p) (db_file d)) d in
  sf_inv d' ∧ sf_page d' q = if decide (q = pid) then p else sf_page d q.
Proof.
  intros [Hc Hlen] Hp Hq. pose proof (page_length p) as Hpl.
  destruct (mem_write (db_file d) (pid * PAGE_SIZE) (page_data p) PAGE_SIZE) as [f|] eqn:E.
  2:{ rewrite mem_write_ok in E; try discriminate; unfold PAGE_SIZE in *; lia. }
  unfold write_at. rewrite E. pose proof (mem_write_length _ _ _ _ _ E) as Hl. simpl. split.
  { split; simpl; [done|]. by rewrite Hl. }
  unfold sf_page. simpl. rewrite Hl. case_decide as Hqp.
  - subst q. rewrite bool_decide_false by (unfold PAGE_SIZE in *; lia). rewrite (mem_read_write_same _ _ _ _ _ E).
    rewrite take_ge by lia. apply page_of_data.
  - case_bool_decide; [done|]. apply (f_equal page_of). eapply mem_read_write_other; [exact E|unfold PAGE_SIZE; lia|unfold PAGE_SIZE; lia].
Qed.

#[global] Instance single_file_laws : DiskLaws SingleFileDiskManager Page.
Proof.
  split; simpl.
  - intros d pid buf [_ Hl] Hp. unfold sf_ReadPage, sf_page. simpl.
    rewrite bool_decide_false by lia. rewrite bool_decide_false by lia. by case_bool_decide.
  - intros d pid p Hi Hp. destruct (EnsureCapacity_ok pid d Hi Hp) as (Hi' & Hcap & n & En).
    unfold sf_WritePage. rewrite bool_decide_false by lia. eexists. split; [done|]. split.
    + apply (write_at_ok _ pid p pid Hi'); lia.
    + intros q Hq. destruct (write_at_ok (EnsureCapacity pid d) pid p q Hi') as [_ E]; [lia|done|].
      etransitivity; [exact E|]. case_decide; [done|]. by eapply sf_page_extend.
  - intros d pid p Hi Hp. destruct (EnsureCapacity_ok pid d Hi Hp) as (Hi' & Hcap & n & En).
    unfold sf_WritePage. rewrite bool_decide_false by lia. eexists. split; [done|]. split; [done|].
    intros q Hq. by eapply sf_page_extend.
  - intros d pid Hi Hp. unfold sf_DeletePage. simpl. rewrite bool_decide_false by lia.
    pose proof Hi as [Hc Hl]. case_bool_decide as Hb.
    + split; [done|]. intros q Hq. case_decide; [subst q|done]. unfold sf_page. simpl.
      rewrite bool_decide_true by lia. done.
    + set (d1 := mkDisk (db_file d) (page_capacity_ d) (num_writes_ d) (num_deletes_ d + 1)).
      assert (sf_inv d1) as Hi1 by done.
      assert (pid < page_capacity_ d1) as Hcap by (simpl; unfold PAGE_SIZE in *; lia).
      split; [apply (write_at_ok d1 pid zero_page pid); [done|lia|done]|]. intros q Hq.
      apply (write_at_ok d1 pid zero_page q); [done|lia|done].
Qed.

(** Opening a file whose length is a whole number of pages keeps every page. *)
Lemma new_disk_ok f n :
  Z.of_nat (length f) = n * PAGE_SIZE →
  sf_inv (new_SingleFileDiskManager IoOk f) ∧
  ∀ q, 0 ≤ q < n → sf_page (new_SingleFileDiskManager IoOk f) q = page_of (mem_read f (q * PAGE_SIZE) PAGE_SIZE).
Proof.
  intros Hf. unfold new_SingleFileDiskManager, GetFileSize, DEFAULT_DB_IO_SIZE. rewrite Hf.
  set (ex := if bool_decide (n * PAGE_SIZE > 0) then n * PAGE_SIZE / PAGE_SIZE else 0).
  assert (0 ≤ n) as Hn by (unfold PAGE_SIZE in *; lia).
  assert (ex = n) as ->.
  { unfold ex. case_bool_decide; [apply Z.div_mul; unfold PAGE_SIZE; lia|unfold PAGE_SIZE in *; lia]. }
  case_bool_decide as Hsmall.
  - split.
    + split; simpl; [lia|]. apply resize_file_length. unfold PAGE_SIZE. lia.
    + intros q Hq. unfold sf_page. simpl. rewrite resize_file_length by (unfold PAGE_SIZE; lia).
      rewrite bool_decide_false by (unfold PAGE_SIZE in *; lia). apply (f_equal page_of), mem_read_ext. intros i Hi.
      unfold resize_file, PAGE_SIZE in *. rewrite take_ge by lia. by rewrite lookup_app_l by lia.
  - assert (n = Z.max 16 n) as E by (unfold PAGE_SIZE in *; lia). split.
    + split; simpl; [lia|]. by rewrite <-E.
    + intros q Hq. unfold sf_page. simpl. rewrite bool_decide_false by (unfold PAGE_SIZE in *; lia). done.
Qed.

(** Opening the file again finds the same pages. *)
Lemma reopen_ok d :
  sf_inv d → let d' := new_SingleFileDiskManager IoOk (db_file d) in
  sf_inv d' ∧ ∀ q, 0 ≤ q → sf_page d' q = sf_page d q.
Proof.
  intros Hi. pose proof Hi as [Hc Hl]. destruct (new_disk_ok _ _ Hl) as [Hi' _]. split; [done|].
  intros q Hq. assert (∃ n, db_file (new_SingleFileDiskManager IoOk (db_file d)) = db_file d ++ replicate n Byte.x00) as [n En].
  { unfold new_SingleFileDiskManager. cbn [GetFileSize db_file]. case_bool_decide as Hs.
    - unfold resize_file. rewrite take_ge; [eauto|]. unfold PAGE_SIZE in *. lia.
    - exists 0%nat. by rewrite app_nil_r. }
  by apply (sf_page_extend d _ n).
Qed.
