(* ===== verification/BufferPool.v ===== *)
(** * The buffer pool and page guards ([storage/buffer/buffer_pool_manager.*, storage/page/page_guard.*])

    Frames, page table, free list and in-flight sets of the pool, over any replacer and disk manager.
    A method that releases the pool latch is written as its critical sections ([fetch_locked],
    [evict_start], [write_back], [evict_finish], [load_page], ...) and then, whole, as their sequential
    composition ([EvictOneLocked], [CheckedPage], [FlushPage], [DeletePage]).  [PoolMachine.v]
    interleaves the sections of many threads.

    The reader/writer latch of a frame is not a field: who holds it is which guards exist, and the
    machine enables a guard accordingly. *)

From S2P Require Import Prelude TablePage ArcReplacer DiskManager.

(** ** State *)

(** [FrameHeader]; its [frame_id_] is its position in [frames_], [frame_data] is null until [EnsureData]. *)
Record FrameHeader (P : Type) := mkFrame {
  pin_count_ : Z;
  is_dirty_ : bool;
  frame_data : option P;
  frame_page : option Z
}.
Arguments mkFrame {P} _ _ _ _.
Arguments pin_count_ {P} _.
Arguments is_dirty_ {P} _.
Arguments frame_data {P} _.
Arguments frame_page {P} _.

Record BufferPool (D P R : Type) := mkPool {
  frames_ : list (FrameHeader P);
  page_table_ : gmap Z Z;
  free_frames_ : list Z;
  replacer_ : R;
  loading_ : gset Z;
  flushing_ : gset Z;
  free_pages_ : list Z;
  next_page_id_ : Z;
  disk_ : D
}.
Arguments mkPool {D P R} _ _ _ _ _ _ _ _ _.
Arguments frames_ {D P R} _.
Arguments page_table_ {D P R} _.
Arguments free_frames_ {D P R} _.
Arguments replacer_ {D P R} _.
Arguments loading_ {D P R} _.
Arguments flushing_ {D P R} _.
Arguments free_pages_ {D P R} _.
Arguments next_page_id_ {D P R} _.
Arguments disk_ {D P R} _.

Section pool.
Context {D P R : Type} `{!DiskManager D P, !Replacer R}.
#[local] Abbreviation Pool := (BufferPool D P R).
#[local] Abbreviation Frame := (FrameHeader P).
Implicit Types (b : Pool) (fr : Frame) (pid fid : Z).

Definition with_frames (x : list Frame) b : Pool :=
  mkPool x (page_table_ b) (free_frames_ b) (replacer_ b) (loading_ b) (flushing_ b) (free_pages_ b) (next_page_id_ b) (disk_ b).
Definition with_table (x : gmap Z Z) b : Pool :=
  mkPool (frames_ b) x (free_frames_ b) (replacer_ b) (loading_ b) (flushing_ b) (free_pages_ b) (next_page_id_ b) (disk_ b).
Definition with_free (x : list Z) b : Pool :=
  mkPool (frames_ b) (page_table_ b) x (replacer_ b) (loading_ b) (flushing_ b) (free_pages_ b) (next_page_id_ b) (disk_ b).
Definition with_replacer (x : R) b : Pool :=
  mkPool (frames_ b) (page_table_ b) (free_frames_ b) x (loading_ b) (flushing_ b) (free_pages_ b) (next_page_id_ b) (disk_ b).
Definition with_loading (x : gset Z) b : Pool :=
  mkPool (frames_ b) (page_table_ b) (free_frames_ b) (replacer_ b) x (flushing_ b) (free_pages_ b) (next_page_id_ b) (disk_ b).
Definition with_flushing (x : gset Z) b : Pool :=
  mkPool (frames_ b) (page_table_ b) (free_frames_ b) (replacer_ b) (loading_ b) x (free_pages_ b) (next_page_id_ b) (disk_ b).
Definition with_alloc (x : list Z) (n : Z) b : Pool :=
  mkPool (frames_ b) (page_table_ b) (free_frames_ b) (replacer_ b) (loading_ b) (flushing_ b) x n (disk_ b).
Definition with_disk (x : D) b : Pool :=
  mkPool (frames_ b) (page_table_ b) (free_frames_ b) (replacer_ b) (loading_ b) (flushing_ b) (free_pages_ b) (next_page_id_ b) x.

Definition modify (f : Pool → Pool) : ST Pool unit := λ b, (Ok tt, f b).
(** Run an operation of the replacer. *)
Definition on_replacer {A} (m : ST R A) : ST Pool A := λ b,
  let '(r, x) := m (replacer_ b) in (r, with_replacer x b).

(** [frames_[fid]], read and written; undefined outside the vector. *)
Definition frame_at (fid : Z) : ST Pool Frame := λ b,
  match (if bool_decide (0 ≤ fid) then frames_ b !! Z.to_nat fid else None) with
  | Some fr => (Ok fr, b)
  | None => (Err EUndefined, b)
  end.
(** The same behind [BUMBLEBEE_ASSERT(frame_id < frames_.size(), ..)]. *)
Definition checked_frame (fid : Z) : ST Pool Frame :=
  b ← st_get;
  if bool_decide (fid < Z.of_nat (length (frames_ b))) then frame_at fid
  else st_throw (EAssert "Frame out of index").
Definition put_frame (fid : Z) (fr : Frame) : ST Pool unit :=
  modify (λ b, with_frames (<[Z.to_nat fid := fr]> (frames_ b)) b).

(** ** Frames *)

Definition EnsureData fr : Frame :=
  mkFrame (pin_count_ fr) (is_dirty_ fr) (Some (default dm_zero (frame_data fr))) (frame_page fr).
Definition frame_Reset fr : Frame := mkFrame 0 false (frame_data fr) None.
Definition set_pin (n : Z) fr : Frame := mkFrame n (is_dirty_ fr) (frame_data fr) (frame_page fr).
Definition set_page_id (pid : Z) fr : Frame := mkFrame (pin_count_ fr) (is_dirty_ fr) (frame_data fr) (Some pid).
Definition set_data (p : P) (dirty : bool) fr : Frame := mkFrame (pin_count_ fr) dirty (Some p) (frame_page fr).

(** [BufferPoolManager(num_frames, disk_manager, initial_next_page_id)]. *)
Definition new_BufferPoolManager (num_frames : nat) (d : D) (initial_next_page_id : Z) : Pool :=
  mkPool (replicate num_frames (mkFrame 0 false None None)) ∅ (seqZ 0 (Z.of_nat num_frames))
    (rep_new (Z.of_nat num_frames)) ∅ ∅ [] initial_next_page_id d.
Definition pool_Size b : Z := Z.of_nat (length (frames_ b)).

(** ** Allocation *)

Definition pool_NewPage : ST Pool Z := λ b,
  match last (free_pages_ b) with
  | Some id => (Ok id, with_alloc (take (length (free_pages_ b) - 1) (free_pages_ b)) (next_page_id_ b) b)
  | None => (Ok (next_page_id_ b), with_alloc (free_pages_ b) (next_page_id_ b + 1) b)
  end.
Definition GetFreePages b : list Z := free_pages_ b.
Definition SetFreePages (ps : list Z) : ST Pool unit := modify (λ b, with_alloc ps (next_page_id_ b) b).
Definition AllocateRawPageId : ST Pool Z := λ b,
  (Ok (next_page_id_ b), with_alloc (free_pages_ b) (next_page_id_ b + 1) b).

(** ** Disk requests *)

(** Schedule a write of the frame's buffer and wait for its result. *)
Definition disk_write (o : io) (pid : Z) fr : ST Pool bool := λ b,
  match frame_data fr with
  | None => (Err EUndefined, b)
  | Some p => let '(ok, d) := dm_WritePage o pid p (disk_ b) in (Ok ok, with_disk d b)
  end.
(** Schedule a read into the frame's buffer and wait; the result is not looked at. *)
Definition disk_read (o : io) (pid : Z) fr : ST Pool P := λ b,
  match frame_data fr with
  | None => (Err EUndefined, b)
  | Some p => (Ok (dm_ReadPage o pid p (disk_ b)).2, b)
  end.

(** ** Eviction *)

Inductive victim := VNone | VFreed | VFlush (fid pid : Z).

Definition recycle (fid : Z) fr : ST Pool unit :=
  _ ← put_frame fid (frame_Reset fr);
  modify (λ b, with_free (free_frames_ b ++ [fid]) b).

(** [EvictOneLocked] up to the point where the pool latch is released. *)
Definition evict_start : ST Pool victim :=
  frame_evicted ← on_replacer rep_Evict;
  match frame_evicted with
  | None => mret VNone
  | Some fid =>
      fr ← checked_frame fid;
      match frame_page fr with
      | None => st_throw (EAssert "page id is null of evicted frame")
      | Some pid =>
          _ ← modify (λ b, with_table (delete pid (page_table_ b)) b);
          if is_dirty_ fr then
            _ ← modify (λ b, with_flushing ({[pid]} ∪ flushing_ b) b);
            mret (VFlush fid pid)
          else
            _ ← recycle fid fr; mret VFreed
      end
  end.

(** The write-back outside the latch. *)
Definition write_back (o : io) (fid pid : Z) : ST Pool bool :=
  fr ← frame_at fid; disk_write o pid fr.

(** [EvictOneLocked] after the pool latch is taken again. *)
Definition evict_finish (fid pid : Z) (ok : bool) : ST Pool bool :=
  _ ← modify (λ b, with_flushing (flushing_ b ∖ {[pid]}) b);
  if negb ok then
    _ ← modify (λ b, with_table (<[pid := fid]> (page_table_ b)) b);
    _ ← on_replacer (rep_RecordAccess fid pid);
    _ ← on_replacer (rep_SetEvictable fid true);
    mret false
  else
    fr ← frame_at fid; _ ← recycle fid fr; mret true.

Definition evict_io (o : io) (fid pid : Z) : ST Pool bool :=
  ok ← write_back o fid pid; evict_finish fid pid ok.
Definition EvictOneLocked (o : io) : ST Pool bool :=
  v ← evict_start;
  match v with
  | VNone => mret false
  | VFreed => mret true
  | VFlush fid pid => evict_io o fid pid
  end.

(** ** Fetching a page *)

(** What the critical section of [CheckedPage] found, once nothing is in flight for the page. *)
Inductive fetched := FHit (fid : Z) | FLoad (fid : Z) | FNoFrame.

Definition waits pid b : bool := bool_decide (pid ∈ loading_ b ∨ pid ∈ flushing_ b).

Definition pin_frame (fid pid : Z) : ST Pool unit :=
  fr ← frame_at fid;
  _ ← put_frame fid (set_pin (pin_count_ fr + 1) fr);
  _ ← on_replacer (rep_RecordAccess fid pid);
  on_replacer (rep_SetEvictable fid false).

Definition fetch_locked (pid : Z) : ST Pool fetched :=
  b ← st_get;
  match page_table_ b !! pid with
  | Some fid => _ ← pin_frame fid pid; mret (FHit fid)
  | None =>
      match last (free_frames_ b) with
      | None => mret FNoFrame
      | Some fid =>
          _ ← modify (with_free (take (length (free_frames_ b) - 1) (free_frames_ b)));
          fr ← frame_at fid;
          _ ← put_frame fid (set_page_id pid (EnsureData fr));
          _ ← modify (λ b, with_table (<[pid := fid]> (page_table_ b)) b);
          _ ← modify (λ b, with_loading ({[pid]} ∪ loading_ b) b);
          _ ← pin_frame fid pid;
          mret (FLoad fid)
      end
  end.

(** The read outside the latch, and its end. *)
Definition load_page (o : io) (fid pid : Z) : ST Pool unit :=
  fr ← frame_at fid;
  p ← disk_read o pid fr;
  _ ← put_frame fid (set_data p (is_dirty_ fr) fr);
  modify (λ b, with_loading (loading_ b ∖ {[pid]}) b).

(** [CheckedPage] of a thread that runs alone: a wait is [EBlocked].  [os] and [ol] are the outcomes of
    the write-back and of the read. *)
Fixpoint CheckedPage (fuel : nat) (os ol : io) (pid : Z) : ST Pool (option Z) :=
  match fuel with
  | O => st_throw EUndefined
  | S fuel =>
      b ← st_get;
      if waits pid b then st_throw EBlocked else
      r ← fetch_locked pid;
      match r with
      | FHit fid => mret (Some fid)
      | FLoad fid => _ ← load_page ol fid pid; mret (Some fid)
      | FNoFrame =>
          freed ← EvictOneLocked os;
          if (freed : bool) then CheckedPage fuel os ol pid else mret None
      end
  end.

(** ** Guards *)

Inductive guard_kind := Read | Write.
#[global] Instance guard_kind_eq_dec : EqDecision guard_kind.
Proof. solve_decision. Defined.

(** A page guard: [frame_], [page_id_] and [is_valid_]. *)
Record PageGuard := mkGuard { g_kind : guard_kind; g_page_id : Z; g_frame : Z; g_valid : bool }.

(** [BUMBLEBEE_ENSURE(is_valid_, ..)] terminates the process. *)
Definition invalid_guard {A} : ST Pool A := st_throw EAbort.
Definition guard_GetPageId (g : PageGuard) : ST Pool Z :=
  if g_valid g then mret (g_page_id g) else invalid_guard.
Definition guard_GetData (g : PageGuard) : ST Pool P :=
  if g_valid g then
    fr ← frame_at (g_frame g); match frame_data fr with Some p => mret p | None => st_throw EUndefined end
  else invalid_guard.
Definition guard_IsDirty (g : PageGuard) : ST Pool bool :=
  if g_valid g then fr ← frame_at (g_frame g); mret (is_dirty_ fr) else invalid_guard.
(** [GetDataMut] and a change [f] of the bytes through the pointer it returns. *)
Definition guard_update (g : PageGuard) (f : P → P) : ST Pool unit :=
  if g_valid g then
    fr ← frame_at (g_frame g);
    match frame_data fr with
    | Some p => put_frame (g_frame g) (set_data (f p) true fr)
    | None => st_throw EUndefined
    end
  else invalid_guard.
Definition clear_dirty fr : Frame := mkFrame (pin_count_ fr) false (frame_data fr) (frame_page fr).
(** [WritePageGuard::Flush]: the result of the write is not looked at. *)
Definition guard_Flush (o : io) (g : PageGuard) : ST Pool unit :=
  if g_valid g then
    fr ← frame_at (g_frame g);
    match frame_page fr with
    | None => st_throw (EAssert "page id is null")
    | Some pid =>
        if negb (is_dirty_ fr) then mret tt else
        _ ← disk_write o pid fr; put_frame (g_frame g) (clear_dirty fr)
    end
  else invalid_guard.

(** [pin_count_.fetch_sub(1)], then [SetEvictable] if it was the last pin, under the pool latch. *)
Definition unpin (fid : Z) : ST Pool unit :=
  fr ← frame_at fid;
  if bool_decide (pin_count_ fr > 0) then
    _ ← put_frame fid (set_pin (pin_count_ fr - 1) fr);
    if bool_decide (pin_count_ fr = 1) then on_replacer (rep_SetEvictable fid true) else mret tt
  else st_throw (EAssert "Pin underflow").
Definition guard_Drop (g : PageGuard) : ST Pool PageGuard :=
  if negb (g_valid g) then mret g else
  _ ← unpin (g_frame g); mret (mkGuard (g_kind g) (g_page_id g) (g_frame g) false).

(** Move construction: the new guard and the emptied source. *)
Definition guard_move (that : PageGuard) : PageGuard * PageGuard :=
  (that, mkGuard (g_kind that) (g_page_id that) (g_frame that) false).
(** Move assignment drops the target first. *)
Definition guard_assign (this that : PageGuard) : ST Pool (PageGuard * PageGuard) :=
  _ ← guard_Drop this; mret (guard_move that).

(** [CheckedReadPage] and [CheckedWritePage], then [ReadPage] and [WritePage], which abort. *)
Definition Checked (k : guard_kind) (fuel : nat) (os ol : io) (pid : Z) : ST Pool (option PageGuard) :=
  frame ← CheckedPage fuel os ol pid;
  mret (match frame with None => None | Some fid => Some (mkGuard k pid fid true) end).
Definition Access (k : guard_kind) (fuel : nat) (os ol : io) (pid : Z) : ST Pool PageGuard :=
  guard_opt ← Checked k fuel os ol pid;
  match guard_opt with None => st_throw EAbort | Some g => mret g end.
(** [TryWritePage]; [busy] is whether another guard holds the page's latch. *)
Definition TryWritePage (busy : bool) (fuel : nat) (os ol : io) (pid : Z) : ST Pool (option PageGuard) :=
  frame ← CheckedPage fuel os ol pid;
  match frame with
  | None => st_throw EAbort
  | Some fid => if busy then _ ← unpin fid; mret None else mret (Some (mkGuard Write pid fid true))
  end.

(** ** Flushing *)

(** First critical section: the frame, pinned, or [None] when the page is not resident. *)
Definition flush_start (pid : Z) : ST Pool (option Z) :=
  b ← st_get;
  match page_table_ b !! pid with
  | None => mret None
  | Some fid =>
      fr ← checked_frame fid;
      _ ← put_frame fid (set_pin (pin_count_ fr + 1) fr);
      _ ← on_replacer (rep_SetEvictable fid false);
      mret (Some fid)
  end.
(** The write under the frame latch and the release of the pin; [true] when it was the last one. *)
Definition flush_io (o : io) (fid : Z) : ST Pool bool :=
  fr ← frame_at fid;
  _ ← (if is_dirty_ fr then
         match frame_page fr with
         | None => st_throw EUndefined
         | Some pid => _ ← disk_write o pid fr; put_frame fid (clear_dirty fr)
         end
       else mret tt);
  fr ← frame_at fid;
  if bool_decide (pin_count_ fr > 0) then
    _ ← put_frame fid (set_pin (pin_count_ fr - 1) fr); mret (bool_decide (pin_count_ fr = 1))
  else st_throw (EAssert "Pin underflow").
(** Last critical section. *)
Definition flush_end (fid : Z) : ST Pool unit :=
  fr ← frame_at fid;
  if bool_decide (pin_count_ fr = 0) then on_replacer (rep_SetEvictable fid true) else mret tt.

Definition FlushPage (o : io) (pid : Z) : ST Pool bool :=
  b ← st_get;
  if bool_decide (pid ∈ loading_ b) then st_throw EBlocked else
  f ← flush_start pid;
  match f with
  | None => mret false
  | Some fid =>
      last_pin ← flush_io o fid;
      _ ← (if (last_pin : bool) then flush_end fid else mret tt);
      mret true
  end.
Definition GetAllPages b : list Z := (map_to_list (page_table_ b)).*1.
Fixpoint flush_each (o : io) (pids : list Z) : ST Pool unit :=
  match pids with
  | [] => mret tt
  | pid :: pids => _ ← FlushPage o pid; flush_each o pids
  end.
Definition FlushAllPages (o : io) : ST Pool unit :=
  b ← st_get; flush_each o (GetAllPages b).

(** ** Deletion and queries *)

(** The section of [DeletePage] under the pool latch; [false] when the page is pinned. *)
Definition delete_locked (pid : Z) : ST Pool bool :=
  b ← st_get;
  match page_table_ b !! pid with
  | None => mret true
  | Some fid =>
      fr ← checked_frame fid;
      if bool_decide (pin_count_ fr > 0) then mret false else
      _ ← modify (λ b, with_table (delete pid (page_table_ b)) b);
      _ ← recycle fid fr;
      _ ← on_replacer (rep_Remove fid);
      mret true
  end.
(** [disk_scheduler_->DeallocatePage], with no latch held. *)
Definition pool_DeallocatePage (o : io) (pid : Z) : ST Pool unit :=
  modify (λ b, with_disk (dm_DeletePage o pid (disk_ b)) b).
(** The identifier goes back to the allocator, under [alloc_latch_]. *)
Definition reclaim_id (pid : Z) : ST Pool unit :=
  modify (λ b, with_alloc (free_pages_ b ++ [pid]) (next_page_id_ b) b).
(** [DeletePage] of a thread that runs alone. *)
Definition pool_DeletePage (o : io) (pid : Z) : ST Pool bool :=
  gone ← delete_locked pid;
  if negb gone then mret false else
  _ ← pool_DeallocatePage o pid;
  _ ← reclaim_id pid;
  mret true.

Definition GetPinCount (pid : Z) : ST Pool (option Z) :=
  b ← st_get;
  match page_table_ b !! pid with
  | None => mret None
  | Some fid => fr ← checked_frame fid; mret (Some (pin_count_ fr))
  end.
End pool.
