(* ===== verification/PoolMachine.v ===== *)
(** * The buffer pool under concurrency

    A machine state is a pool and the activities in progress: accesses at each of their stages
    (entering [CheckedPage], writing back a victim, reading a page, waiting for the frame latch, holding
    a guard), flushes and deletions.  One step runs one critical section or one disk request of one activity;
    between two steps any other activity may run.  A frame's latch is held by the guards on it.

    [PInv] is the invariant that ties frames, page table, replacer, in-flight sets and pins together,
    and [contents] the page store the machine stands for. *)

From S2P Require Import Prelude TablePage ArcReplacer DiskManager BufferPool.

(** ** Activities *)

Inductive task :=
  | TFetch (k : guard_kind) (w : Z)            (** at the top of the loop of [CheckedPage(w)] *)
  | TEvict (k : guard_kind) (w f p : Z)        (** writing back page [p] of frame [f] *)
  | TLoad (k : guard_kind) (w f : Z)           (** reading page [w] into frame [f] *)
  | TLatch (k : guard_kind) (w f : Z)          (** pinned, waiting for the latch of [f] *)
  | TGuard (k : guard_kind) (w f : Z)          (** holding a guard *)
  | TFlush (p f : Z)                           (** [FlushPage], pinned *)
  | TUnpin (p f : Z)                           (** [FlushPage], pin released, before its last section *)
  | TDealloc (p : Z)                           (** [DeletePage], page out of the pool, not yet of the disk *)
  | TReclaim (p : Z).                          (** [DeletePage], before the identifier is given back *)
#[global] Instance task_eq_dec : EqDecision task.
Proof. solve_decision. Defined.

(** The frame an activity pins, and the pages it has in flight. *)
Definition pins (t : task) : option Z :=
  match t with TLoad _ _ f | TLatch _ _ f | TGuard _ _ f | TFlush _ f => Some f | _ => None end.
Definition loads (t : task) : option Z := match t with TLoad _ w _ => Some w | _ => None end.
Definition evicts (t : task) : option Z := match t with TEvict _ _ _ p => Some p | _ => None end.
Definition unpins (f : Z) (t : task) : Prop := ∃ p, t = TUnpin p f.
#[global] Instance unpins_dec f t : Decision (unpins f t).
Proof.
  refine (match t with TUnpin p f' => cast_if (decide (f' = f)) | _ => right _ end);
    try (by intros [? ?]); [subst; by eexists|]. intros [? ?]. by simplify_eq.
Defined.
(** The page an access has still to find in the pool. *)
Definition wants (t : task) : option Z := match t with TFetch _ w | TEvict _ w _ _ => Some w | _ => None end.

Fixpoint npins (f : Z) (ts : list task) : Z :=
  match ts with
  | [] => 0
  | t :: ts => (if decide (pins t = Some f) then 1 else 0) + npins f ts
  end.

(** A read guard needs that no write guard holds the frame, a write guard or a flush that none does. *)
Definition latch_free (k : guard_kind) (f : Z) (ts : list task) : bool :=
  forallb (λ t, match t with
    | TGuard k' _ f' => bool_decide (f' ≠ f ∨ (k = Read ∧ k' = Read))
    | _ => true
    end) ts.

Section machine.
Context {D P R : Type} `{!DiskManager D P, !Replacer R}.
#[local] Abbreviation Pool := (BufferPool D P R).
#[local] Abbreviation Frame := (FrameHeader P).
Implicit Types (b : Pool) (fr : Frame) (t : task) (ts : list task) (p q w f : Z).

Record PoolMachine := mkMachine { m_pool : Pool; m_tasks : list task }.

(** ** Steps *)

(** What happens, with the outcome of its disk request. *)
Inductive label :=
  | LCall (k : guard_kind) (w : Z)
  | LSection
  | LEvictIo (o : io)
  | LLoad (o : io)
  | LLatch
  | LTryFail
  | LRead (w : Z) (v : P)
  | LUpdate (w : Z) (g : P → P)
  | LGuardFlush (o : io)
  | LDrop
  | LFlushCall (p : Z)
  | LFlushIo (o : io)
  | LFlushEnd
  | LDelete (p : Z) (gone : bool)
  | LDealloc (o : io)
  | LReclaim
  | LNew (p : Z).

(** One section of an access: fetch, or free a frame. *)
Definition access_section (k : guard_kind) (w : Z) : ST Pool (list task) :=
  r ← fetch_locked w;
  match r with
  | FHit f => mret [TLatch k w f]
  | FLoad f => mret [TLoad k w f]
  | FNoFrame =>
      v ← evict_start;
      match v with
      | VNone => mret []
      | VFreed => mret [TFetch k w]
      | VFlush f p => mret [TEvict k w f p]
      end
  end.

(** The activities that replace [t] after the step; [None] when the step is not one of [t]'s. *)
Definition task_run (l : label) t : option (ST Pool (list task)) :=
  match l, t with
  | LSection, TFetch k w => Some (access_section k w)
  | LEvictIo o, TEvict k w f p =>
      Some (ok ← evict_io o f p; mret (if (ok : bool) then [TFetch k w] else []))
  | LLoad o, TLoad k w f => Some (_ ← load_page o f w; mret [TLatch k w f])
  | LLatch, TLatch k w f => Some (mret [TGuard k w f])
  | LTryFail, TLatch Write w f => Some (_ ← unpin f; mret [])
  | LUpdate w g, TGuard Write w' f =>
      if decide (w = w') then Some (_ ← guard_update (mkGuard Write w f true) g; mret [t]) else None
  | LGuardFlush o, TGuard Write w f => Some (_ ← guard_Flush o (mkGuard Write w f true); mret [t])
  | LDrop, TGuard k w f => Some (_ ← guard_Drop (mkGuard k w f true); mret [])
  | LFlushIo o, TFlush p f => Some (l ← flush_io o f; mret (if (l : bool) then [TUnpin p f] else []))
  | LFlushEnd, TUnpin p f => Some (_ ← flush_end f; mret [])
  | LDealloc o, TDealloc p => Some (_ ← pool_DeallocatePage o p; mret [TReclaim p])
  | LReclaim, TReclaim p => Some (_ ← reclaim_id p; mret [])
  | _, _ => None
  end.

Definition enabled (l : label) t b ts : bool :=
  match l, t with
  | LSection, TFetch k w => negb (waits w b)
  | LLatch, TLatch k w f => latch_free k f ts
  | LTryFail, TLatch Write w f => negb (latch_free Write f ts)
  | LFlushIo o, TFlush p f => latch_free Write f ts
  | _, _ => true
  end.

(** An exception ends its activity; what the section did before it stays. *)
Definition tasks_after (r : result (list task)) : list task := match r with Ok ts => ts | Err _ => [] end.

Inductive step : PoolMachine → label → option error → PoolMachine → Prop :=
  | step_call b ts k w : 0 ≤ w → step (mkMachine b ts) (LCall k w) None (mkMachine b (ts ++ [TFetch k w]))
  | step_task b b' l1 t l2 l m r :
      task_run l t = Some m → enabled l t b (l1 ++ l2) = true → m b = (r, b') →
      step (mkMachine b (l1 ++ t :: l2)) l (match r with Ok _ => None | Err e => Some e end)
        (mkMachine b' (l1 ++ tasks_after r ++ l2))
  | step_read b l1 k w f l2 v :
      guard_GetData (mkGuard k w f true) b = (Ok v, b) →
      step (mkMachine b (l1 ++ TGuard k w f :: l2)) (LRead w v) None (mkMachine b (l1 ++ TGuard k w f :: l2))
  | step_flush b b' ts p r :
      p ∉ loading_ b → flush_start p b = (r, b') →
      step (mkMachine b ts) (LFlushCall p) (match r with Ok _ => None | Err e => Some e end)
        (mkMachine b' (ts ++ match r with Ok (Some f) => [TFlush p f] | _ => [] end))
  | step_delete b b' ts p r :
      delete_locked p b = (r, b') →
      step (mkMachine b ts) (LDelete p (bool_decide (r = Ok true)))
        (match r with Ok _ => None | Err e => Some e end)
        (mkMachine b' (ts ++ match r with Ok true => [TDealloc p] | _ => [] end))
  | step_new b b' ts p : pool_NewPage b = (Ok p, b') → step (mkMachine b ts) (LNew p) None (mkMachine b' ts).

(** ** The page store the pool stands for *)

Definition fget b (i : Z) : option Frame := if decide (0 ≤ i) then frames_ b !! Z.to_nat i else None.

(** A page is in the frame that holds it, unless it is still being read; otherwise it is on disk. *)
Definition view b (q : Z) : P :=
  match list_find (λ fr, frame_page fr = Some q) (frames_ b) with
  | Some (_, fr) => if decide (q ∈ loading_ b) then dm_page (disk_ b) q else default dm_zero (frame_data fr)
  | None => dm_page (disk_ b) q
  end.

(** A page whose deletion has begun is gone, though its bytes stay on disk for a while. *)
Definition contents (m : PoolMachine) (q : Z) : P :=
  if decide (TDealloc q ∈ m_tasks m) then dm_zero else view (m_pool m) q.

(** What a step does to the store. *)
Definition effect (l : label) (s : Z → P) (q : Z) : P :=
  match l with
  | LUpdate w g => if decide (q = w) then g (s q) else s q
  | LDelete p true => if decide (q = p) then dm_zero else s q
  | _ => s q
  end.

(** ** The invariant *)

Definition evictable_flag b ts i q : Prop :=
  ∃ e, rep_alive (replacer_ b) !! i = Some (q, e) ∧ (e = true → npins i ts = 0) ∧
    (e = false → npins i ts = 0 → Exists (unpins i) ts).

(** A frame is free, mapped, or detached while its page is written back. *)
Definition free_frame b ts i fr : Prop :=
  i ∈ free_frames_ b ∧ npins i ts = 0 ∧ is_dirty_ fr = false ∧ rep_alive (replacer_ b) !! i = None.
Definition mapped_frame b ts i q (v : P) fr : Prop :=
  page_table_ b !! q = Some i ∧ (q ∉ flushing_ b) ∧ evictable_flag b ts i q ∧
  (is_dirty_ fr = false → q ∉ loading_ b → v = dm_page (disk_ b) q) ∧ (q ∈ loading_ b → is_dirty_ fr = false).
Definition detached_frame b ts i q fr : Prop :=
  page_table_ b !! q = None ∧ q ∈ flushing_ b ∧ (q ∉ loading_ b) ∧ npins i ts = 0 ∧ is_dirty_ fr = true ∧
  rep_alive (replacer_ b) !! i = None.
Definition frame_ok b ts i fr : Prop :=
  pin_count_ fr = npins i ts ∧
  match frame_page fr with
  | None => free_frame b ts i fr
  | Some q => 0 ≤ q ∧ (i ∉ free_frames_ b) ∧
      ∃ v, frame_data fr = Some v ∧ (mapped_frame b ts i q v fr ∨ detached_frame b ts i q fr)
  end.

Definition holds b i q : Prop := ∃ fr, fget b i = Some fr ∧ frame_page fr = Some q.

Definition task_ok b t : Prop :=
  match t with
  | TFetch _ w => 0 ≤ w
  | TEvict _ w f p => 0 ≤ w ∧ holds b f p ∧ p ∈ flushing_ b
  | TLoad _ w f => page_table_ b !! w = Some f ∧ w ∈ loading_ b
  | TLatch _ w f | TGuard _ w f | TFlush w f => page_table_ b !! w = Some f ∧ w ∉ loading_ b
  | TUnpin _ f => is_Some (fget b f)
  | TDealloc _ | TReclaim _ => True
  end.

Record PInv b ts : Prop := mkPInv {
  pi_rep : rep_inv (Z.of_nat (length (frames_ b))) (replacer_ b);
  pi_disk : dm_inv (disk_ b);
  pi_frames i fr : fget b i = Some fr → frame_ok b ts i fr;
  pi_unique i j q : holds b i q → holds b j q → i = j;
  pi_free : NoDup (free_frames_ b);
  pi_free_in i : i ∈ free_frames_ b → ∃ fr, fget b i = Some fr ∧ frame_page fr = None;
  pi_table q i : page_table_ b !! q = Some i → holds b i q;
  pi_alive i : is_Some (rep_alive (replacer_ b) !! i) → is_Some (fget b i);
  pi_loads : NoDup (omap loads ts) ∧ ∀ q, q ∈ loading_ b ↔ q ∈ omap loads ts;
  pi_evicts : NoDup (omap evicts ts) ∧ ∀ q, q ∈ flushing_ b ↔ q ∈ omap evicts ts;
  pi_tasks : Forall (task_ok b) ts
}.

(** A page being deleted is not mapped, and no access is looking for it or writing it back. *)
Definition aside p t : Prop := wants t ≠ Some p ∧ evicts t ≠ Some p.
Definition DInv b ts : Prop :=
  ∀ p, TDealloc p ∈ ts → 0 ≤ p ∧ page_table_ b !! p = None ∧ Forall (aside p) ts.

(** The use the pool expects.  Reads, flushes and deallocations succeed.  A page is deleted only when no
    write-back of it is in flight, no flush is about to release its frame and no access is looking for it;
    and no access of it starts before its bytes are off the disk. *)
Definition quiet b ts p : Prop :=
  (p ∉ flushing_ b) ∧ (∀ f, page_table_ b !! p = Some f → ¬ Exists (unpins f) ts) ∧ Forall (λ t, wants t ≠ Some p) ts.
Definition disciplined (m : PoolMachine) (l : label) : Prop :=
  match l with
  | LCall _ w => TDealloc w ∉ m_tasks m
  | LLoad o | LGuardFlush o | LFlushIo o | LDealloc o => o = IoOk
  | LEvictIo o => o ≠ IoNoStat
  | LDelete p _ => 0 ≤ p ∧ quiet (m_pool m) (m_tasks m) p
  | _ => True
  end.
#[global] Instance quiet_dec b ts p : Decision (quiet b ts p).
Proof.
  unfold quiet. apply and_dec; [apply _|]. apply and_dec; [|apply _].
  destruct (page_table_ b !! p) as [f|]; [|left; done].
  destruct (decide (Exists (unpins f) ts)) as [He|Hn]; [right; intros H; by apply (H f)|left; by intros f' [= <-]].
Defined.
#[global] Instance disciplined_dec m l : Decision (disciplined m l).
Proof. destruct l; simpl; apply _. Defined.
End machine.
Arguments PoolMachine D P R : clear implicits.
Arguments label P : clear implicits.

(** * How the pool's invariant is carried through a step

    Every step of the pool touches one frame and one page.  [PInv_update] states once what has to be
    checked about them, and [view_other] that the rest of the page store is as it was. *)

Section invariant.
Context {D P R : Type} `{!DiskManager D P, !Replacer R}.
#[local] Abbreviation Pool := (BufferPool D P R).
#[local] Abbreviation Frame := (FrameHeader P).
Implicit Types (b : Pool) (fr : Frame) (t : task) (ts : list task) (p q w f i : Z).
#[local] Abbreviation alive b := (rep_alive (replacer_ b)).

(** ** Pins *)

Lemma npins_app f l1 l2 : npins f (l1 ++ l2) = npins f l1 + npins f l2.
Proof. induction l1 as [|t l1 IH]; [done|]. simpl. rewrite IH. lia. Qed.
Lemma npins_nonneg f ts : 0 ≤ npins f ts.
Proof. induction ts as [|t ts IH]; simpl; [lia|]. case_decide; lia. Qed.
Lemma npins_perm f ts ts' : ts ≡ₚ ts' → npins f ts = npins f ts'.
Proof. induction 1; simpl; lia. Qed.
Lemma npins_pos f t ts : t ∈ ts → pins t = Some f → 0 < npins f ts.
Proof.
  intros Ht Hp. apply list_elem_of_split in Ht as (l1 & l2 & ->). rewrite npins_app. simpl.
  rewrite decide_True by done. pose proof (npins_nonneg f l1). pose proof (npins_nonneg f l2). lia.
Qed.

Lemma npins_task f ts : 0 < npins f ts → ∃ t, t ∈ ts ∧ pins t = Some f.
Proof.
  induction ts as [|t ts IH]; simpl; [lia|]. case_decide as Ht; [exists t; by split; [left|]|].
  intros Hp. destruct IH as (t' & ? & ?); [lia|]. exists t'. by split; [right|].
Qed.

(** ** Frames by index *)

Lemma fget_lt b i fr : fget b i = Some fr → 0 ≤ i < Z.of_nat (length (frames_ b)).
Proof. unfold fget. case_decide; [|done]. intros Hi%lookup_lt_Some. lia. Qed.
Lemma fget_put b i fr fr' j :
  fget b i = Some fr →
  fget (with_frames (<[Z.to_nat i := fr']> (frames_ b)) b) j = if decide (j = i) then Some fr' else fget b j.
Proof.
  intros Hi. pose proof (fget_lt _ _ _ Hi). unfold fget. simpl. case_decide as Hj.
  - destruct (decide (j = i)) as [->|Hne]; [apply list_lookup_insert_eq; lia|apply list_lookup_insert_ne; lia].
  - rewrite decide_False by lia. done.
Qed.
Lemma frame_at_ok b i fr : fget b i = Some fr → frame_at i b = (Ok fr, b).
Proof.
  unfold fget, frame_at. case_decide; [|done]. intros Hi. by rewrite bool_decide_true, Hi.
Qed.
Lemma checked_frame_ok b i fr : fget b i = Some fr → checked_frame i b = (Ok fr, b).
Proof.
  intros Hi. pose proof (fget_lt _ _ _ Hi). unfold checked_frame, st_get. unfold mbind, ST_bind.
  rewrite bool_decide_true by lia. by apply frame_at_ok.
Qed.
Lemma on_replacer_ok {A} (m : ST R A) b a r :
  m (replacer_ b) = (Ok a, r) → on_replacer m b = (Ok a, with_replacer r b).
Proof. intros E. unfold on_replacer. by rewrite E. Qed.
Lemma modify_ok (g : Pool → Pool) b : modify g b = (Ok tt, g b).
Proof. done. Qed.
Lemma put_frame_ok i fr b : put_frame i fr b = (Ok tt, with_frames (<[Z.to_nat i := fr]> (frames_ b)) b).
Proof. done. Qed.
Lemma st_get_ok {S} (s : S) : st_get s = (Ok s, s).
Proof. done. Qed.

(** ** The page store *)

Definition unique b : Prop := ∀ i j q, holds b i q → holds b j q → i = j.

Lemma fget_nat b (n : nat) : fget b (Z.of_nat n) = frames_ b !! n.
Proof. unfold fget. by rewrite decide_True, Nat2Z.id by lia. Qed.
Lemma view_held b i fr q :
  unique b → fget b i = Some fr → frame_page fr = Some q →
  view b q = if decide (q ∈ loading_ b) then dm_page (disk_ b) q else default dm_zero (frame_data fr).
Proof.
  intros Hu Hi Hq. unfold view. destruct (list_find _ _) as [[n fr']|] eqn:E.
  - apply list_find_Some in E as (Hn & Hq' & _).
    assert (Z.of_nat n = i) as <-.
    { apply (Hu _ _ q); [exists fr'; by rewrite fget_nat|by exists fr]. }
    rewrite fget_nat in Hi. by simplify_eq.
  - exfalso. unfold fget in Hi. case_decide; [|done]. apply list_elem_of_lookup_2 in Hi.
    rewrite list_find_None, Forall_forall in E. by apply (E fr Hi).
Qed.
Lemma view_disk b q : (∀ i, ¬ holds b i q) → view b q = dm_page (disk_ b) q.
Proof.
  intros Hn. unfold view. destruct (list_find _ _) as [[n fr]|] eqn:E; [|done].
  apply list_find_Some in E as (Hf & Hq & _). destruct (Hn (Z.of_nat n)). exists fr. by rewrite fget_nat.
Qed.
Lemma holder_dec b q : {fr | ∃ i, fget b i = Some fr ∧ frame_page fr = Some q} + {∀ i, ¬ holds b i q}.
Proof.
  destruct (list_find (λ fr, frame_page fr = Some q) (frames_ b)) as [[n fr]|] eqn:E.
  - left. exists fr. apply list_find_Some in E as (Hf & Hq & _). exists (Z.of_nat n). by rewrite fget_nat.
  - right. intros i (fr & Hi & Hq). unfold fget in Hi. case_decide; [|done]. apply list_elem_of_lookup_2 in Hi.
    rewrite list_find_None, Forall_forall in E. by apply (E fr Hi).
Qed.

(** ** One frame, one page *)

(** [b'] differs from [b] at most in frame [f] and page [q], and [f] holds [q] or nothing. *)
Record local_change b b' f q : Prop := mkLocal {
  lc_length : length (frames_ b') = length (frames_ b);
  lc_frames i : i ≠ f → fget b' i = fget b i;
  lc_old fr : fget b f = Some fr → frame_page fr = None ∨ frame_page fr = Some q;
  lc_new fr : fget b' f = Some fr → frame_page fr = None ∨ frame_page fr = Some q;
  lc_alone i : i ≠ f → ¬ holds b i q;
  lc_table q' : q' ≠ q → page_table_ b' !! q' = page_table_ b !! q';
  lc_loading q' : q' ≠ q → q' ∈ loading_ b' ↔ q' ∈ loading_ b;
  lc_flushing q' : q' ≠ q → q' ∈ flushing_ b' ↔ q' ∈ flushing_ b;
  lc_disk q' : q' ≠ q → 0 ≤ q' → dm_page (disk_ b') q' = dm_page (disk_ b) q'
}.

Section change.
Context (b b' : Pool) (f q : Z) (Hlc : local_change b b' f q) (Hu : unique b).

Lemma change_holds i q' : holds b' i q' → (i = f ∧ q' = q) ∨ (i ≠ f ∧ holds b i q').
Proof.
  intros (fr & Hi & Hq). destruct (decide (i = f)) as [->|Hne].
  - left. split; [done|]. destruct (lc_new _ _ _ _ Hlc fr Hi); congruence.
  - right. split; [done|]. rewrite (lc_frames _ _ _ _ Hlc i Hne) in Hi. by exists fr.
Qed.
Lemma change_unique : unique b'.
Proof.
  intros i j q' [[? ?]|[Hi Hhi]]%change_holds [[? ?]|[Hj Hhj]]%change_holds; subst; try done.
  - exfalso. by eapply (lc_alone _ _ _ _ Hlc j).
  - exfalso. by eapply (lc_alone _ _ _ _ Hlc i).
  - by eapply Hu.
Qed.
Lemma view_other q' : q' ≠ q → 0 ≤ q' → view b' q' = view b q'.
Proof.
  intros Hne H0. destruct (holder_dec b q') as [(fr & i & Hi & Hq)|Hn].
  - assert (i ≠ f) as Hif.
    { intros ->. destruct (lc_old _ _ _ _ Hlc fr Hi); congruence. }
    rewrite (view_held b i fr q' Hu Hi Hq).
    rewrite (view_held b' i fr q' change_unique) by (by rewrite ?(lc_frames _ _ _ _ Hlc)).
    pose proof (lc_loading _ _ _ _ Hlc q' Hne). rewrite (lc_disk _ _ _ _ Hlc q') by done.
    do 2 case_decide; tauto.
  - rewrite (view_disk b q' Hn), view_disk; [by apply (lc_disk _ _ _ _ Hlc)|].
    intros i [[_ ->]|[_ Hi]]%change_holds; [done|by apply (Hn i)].
Qed.

(** The other frames are as good as before. *)
Lemma frame_ok_other ts ts' i fr :
  i ≠ f → fget b i = Some fr → frame_ok b ts i fr →
  npins i ts' = npins i ts → (Exists (unpins i) ts → Exists (unpins i) ts') →
  (i ∈ free_frames_ b' ↔ i ∈ free_frames_ b) → alive b' !! i = alive b !! i →
  frame_ok b' ts' i fr.
Proof.
  intros Hif Hi [Hp Hok] Hpin Hun Hfr Hal. split; [by rewrite Hpin|].
  destruct (frame_page fr) as [q'|] eqn:Eq.
  - destruct Hok as (H0 & Hnf & v & Hv & Hok). split_and!; [done|by rewrite Hfr|]. exists v. split; [done|].
    assert (q' ≠ q) as Hne.
    { intros ->. apply (lc_alone _ _ _ _ Hlc i Hif). by exists fr. }
    unfold mapped_frame, detached_frame, evictable_flag in *.
    rewrite (lc_table _ _ _ _ Hlc), (lc_loading _ _ _ _ Hlc), (lc_flushing _ _ _ _ Hlc), (lc_disk _ _ _ _ Hlc) by done.
    rewrite Hal, Hpin. destruct Hok as [(? & ? & (e & ? & ? & ?) & ? & ?)|?]; [left|by right].
    split_and!; try done. exists e. split_and!; try done. auto.
  - unfold free_frame in *. rewrite Hfr, Hpin, Hal. done.
Qed.

Lemma PInv_update ts ts' fr' :
  PInv b ts → fget b' f = Some fr' → frame_ok b' ts' f fr' →
  rep_inv (Z.of_nat (length (frames_ b'))) (replacer_ b') → dm_inv (disk_ b') →
  (∀ i, i ≠ f → npins i ts' = npins i ts ∧ (Exists (unpins i) ts → Exists (unpins i) ts') ∧
    (i ∈ free_frames_ b' ↔ i ∈ free_frames_ b) ∧ alive b' !! i = alive b !! i) →
  NoDup (free_frames_ b') → (f ∈ free_frames_ b' → frame_page fr' = None) →
  (∀ i, page_table_ b' !! q = Some i → i = f ∧ frame_page fr' = Some q) →
  (NoDup (omap loads ts') ∧ ∀ q', q' ∈ loading_ b' ↔ q' ∈ omap loads ts') →
  (NoDup (omap evicts ts') ∧ ∀ q', q' ∈ flushing_ b' ↔ q' ∈ omap evicts ts') →
  Forall (task_ok b') ts' →
  PInv b' ts'.
Proof.
  intros Hinv Hf Hfok Hrep Hdisk Hother Hnd Hfree Htab Hloads Hevicts Htasks.
  split; try done.
  - intros i fr Hi. destruct (decide (i = f)) as [->|Hne]; [by simplify_eq|].
    rewrite (lc_frames _ _ _ _ Hlc i Hne) in Hi. destruct (Hother i Hne) as (? & ? & ? & ?).
    eapply frame_ok_other; eauto. by apply (pi_frames _ _ Hinv).
  - apply change_unique.
  - intros i Hi. destruct (decide (i = f)) as [->|Hne]; [by eauto|].
    destruct (Hother i Hne) as (_ & _ & Hfr & _). rewrite (lc_frames _ _ _ _ Hlc i Hne).
    apply (pi_free_in _ _ Hinv). by apply Hfr.
  - intros q' i Hq'. destruct (decide (q' = q)) as [->|Hne].
    + destruct (Htab i Hq') as [-> Hfq]. by exists fr'.
    + rewrite (lc_table _ _ _ _ Hlc q' Hne) in Hq'. destruct (pi_table _ _ Hinv q' i Hq') as (fr & Hi & Hq).
      destruct (decide (i = f)) as [->|Hif].
      * exfalso. destruct (lc_old _ _ _ _ Hlc fr Hi); congruence.
      * exists fr. by rewrite (lc_frames _ _ _ _ Hlc i Hif).
  - intros i Hi. destruct (decide (i = f)) as [->|Hne]; [by rewrite Hf|].
    rewrite (lc_frames _ _ _ _ Hlc i Hne). destruct (Hother i Hne) as (_ & _ & _ & Hal). rewrite Hal in Hi.
    by apply (pi_alive _ _ Hinv).
Qed.
End change.

(** ** Tasks *)

(** A frame minds only how often it is pinned and whether a flush is about to release it. *)
Lemma frame_ok_tasks b ts ts' i fr :
  npins i ts' = npins i ts → (Exists (unpins i) ts → Exists (unpins i) ts') → frame_ok b ts i fr → frame_ok b ts' i fr.
Proof.
  unfold frame_ok, free_frame, mapped_frame, detached_frame, evictable_flag. intros -> HE [? H]. split; [done|].
  destruct (frame_page fr); [|done]. destruct H as (? & ? & v & ? & [Hm|?]); [|naive_solver].
  split_and!; [done|done|]. exists v. split; [done|]. left. destruct Hm as (? & ? & (e & ? & ? & ?) & ? & ?).
  split_and!; try done. exists e. split_and!; auto.
Qed.
Lemma PInv_perm b ts ts' : ts ≡ₚ ts' → PInv b ts → PInv b ts'.
Proof.
  intros Hp Hinv. assert (∀ i fr, frame_ok b ts i fr → frame_ok b ts' i fr) as Hok.
  { intros i fr. apply frame_ok_tasks; [symmetry; by apply npins_perm|].
    rewrite !Exists_exists. intros (t & Ht & Hu). exists t. by rewrite <-Hp. }
  destruct Hinv as [? ? ? ? ? ? ? ? Hl He Ht]. split; try done; [eauto|..].
  - split; [by rewrite <-Hp; apply Hl|]. intros q. rewrite <-Hp. apply Hl.
  - split; [by rewrite <-Hp; apply He|]. intros q. rewrite <-Hp. apply He.
  - by rewrite <-Hp.
Qed.

(** A task stays fine when the page table keeps its page and the in-flight sets keep it. *)
Lemma tasks_keep b b' ts :
  Forall (task_ok b) ts →
  (∀ t w f, t ∈ ts → page_table_ b !! w = Some f → pins t = Some f →
    page_table_ b' !! w = Some f ∧ (w ∉ loading_ b → w ∉ loading_ b')) →
  (∀ k w f, TLoad k w f ∈ ts → w ∈ loading_ b → w ∈ loading_ b') →
  (∀ f, is_Some (fget b f) → is_Some (fget b' f)) →
  (∀ k w f p, TEvict k w f p ∈ ts → holds b f p → p ∈ flushing_ b → holds b' f p ∧ p ∈ flushing_ b') →
  Forall (task_ok b') ts.
Proof.
  intros Hts H1 H4 H3 H2. rewrite Forall_forall in *. intros t Ht. specialize (Hts t Ht).
  destruct t as [k w|k w f p|k w f|k w f|k w f|w f|w f|p|p]; simpl in *; try done; try (destruct Hts as [Hw Hl]).
  - destruct Hl as (? & ?). split; [done|]. by eapply H2.
  - destruct (H1 _ w f Ht Hw eq_refl) as [? _]. split; [done|]. by eapply H4.
  - destruct (H1 _ w f Ht Hw eq_refl) as [? H]. auto.
  - destruct (H1 _ w f Ht Hw eq_refl) as [? H]. auto.
  - destruct (H1 _ w f Ht Hw eq_refl) as [? H]. auto.
  - by apply H3.
Qed.

(** ** What the invariant says about a page, a frame, a task *)

Section facts.
Context (b : Pool) (ts : list task) (Hinv : PInv b ts).

Lemma mapped_inv w f :
  page_table_ b !! w = Some f →
  ∃ fr v, fget b f = Some fr ∧ frame_page fr = Some w ∧ frame_data fr = Some v ∧ pin_count_ fr = npins f ts ∧
    (f ∉ free_frames_ b) ∧ 0 ≤ w ∧ mapped_frame b ts f w v fr.
Proof.
  intros Hw. destruct (pi_table _ _ Hinv w f Hw) as (fr & Hf & Hq).
  destruct (pi_frames _ _ Hinv f fr Hf) as [Hp Hok]. rewrite Hq in Hok.
  destruct Hok as (? & ? & v & Hv & [Hm|Hd]); [by exists fr, v|]. destruct Hd as (Hn & _). congruence.
Qed.
Lemma alive_inv i q e : alive b !! i = Some (q, e) → page_table_ b !! q = Some i.
Proof.
  intros Hi. destruct (pi_alive _ _ Hinv i) as [fr Hf]; [by eauto|].
  destruct (pi_frames _ _ Hinv i fr Hf) as [_ Hok]. destruct (frame_page fr) as [q'|].
  - destruct Hok as (_ & _ & v & _ & [(Ht & _ & (e' & Ha & _) & _)|(_ & _ & _ & _ & _ & Ha)]); [|congruence].
    rewrite Ha in Hi. by injection Hi as -> _.
  - destruct Hok as (_ & _ & _ & Ha). congruence.
Qed.
Lemma unheld w i : page_table_ b !! w = None → w ∉ flushing_ b → ¬ holds b i w.
Proof.
  intros Ht Hf (fr & Hi & Hq). destruct (pi_frames _ _ Hinv i fr Hi) as [_ Hok]. rewrite Hq in Hok.
  destruct Hok as (_ & _ & v & _ & [(? & _)|(_ & ? & _)]); [congruence|done].
Qed.
Lemma pinned_task t f : t ∈ ts → pins t = Some f → ∃ w, page_table_ b !! w = Some f.
Proof.
  intros Ht Hp. pose proof (pi_tasks _ _ Hinv) as Hts. rewrite Forall_forall in Hts. specialize (Hts t Ht).
  destruct t; simplify_eq/=; naive_solver.
Qed.
(** A page with no pin is not being read. *)
Lemma unpinned_not_loading w f : page_table_ b !! w = Some f → npins f ts = 0 → w ∉ loading_ b.
Proof.
  intros Hw Hn Hl. apply (pi_loads _ _ Hinv) in Hl. apply list_elem_of_omap in Hl as (t & Ht & Hlt).
  pose proof (pi_tasks _ _ Hinv) as Hts. rewrite Forall_forall in Hts. specialize (Hts t Ht).
  destruct t; simplify_eq/=. destruct Hts as [Hf _]. simplify_eq.
  pose proof (npins_pos f _ ts Ht eq_refl). lia.
Qed.
End facts.

(** Replacing a task by one with the same pins and pages in flight. *)
Lemma PInv_retask b t t' l :
  PInv b (t :: l) → pins t' = pins t → loads t' = loads t → evicts t' = evicts t → (∀ f, ¬ unpins f t) →
  task_ok b t' → PInv b (t' :: l).
Proof.
  intros Hinv Hp Hl He Hu Hok.
  destruct Hinv as [Hr Hd Hf ? ? ? ? ? Hlo Hev Hts]. split; try done.
  - intros i fr Hi. apply (frame_ok_tasks b (t :: l)); [simpl; by rewrite Hp| |by apply Hf].
    intros [Hx|Hx]%Exists_cons; [by destruct (Hu i)|by right].
  - simpl in *. by rewrite Hl.
  - simpl in *. by rewrite He.
  - apply Forall_cons in Hts as [_ Hts]. by constructor.
Qed.
End invariant.
