(* ===== verification/PoolSteps.v ===== *)
(** * The steps of the pool keep its invariant and its page store

    One lemma per critical section or disk request: it does not fail, [PInv] holds again with the
    activity moved on, and [view] is unchanged (or changed at the one page written or deleted). *)

From S2P Require Import Prelude TablePage ArcReplacer DiskManager BufferPool PoolMachine.

Section steps.
Context {D P R : Type} `{!DiskManager D P, !Replacer R, !DiskLaws D P, !ReplacerLaws R}.
#[local] Abbreviation Pool := (BufferPool D P R).
#[local] Abbreviation Frame := (FrameHeader P).
Implicit Types (b : Pool) (fr : Frame) (t : task) (l ts : list task) (p q w f i : Z).
#[local] Abbreviation alive b := (rep_alive (replacer_ b)).
#[local] Abbreviation size b := (Z.of_nat (length (frames_ b))).

(** An activity that pins nothing and has nothing in flight comes and goes freely. *)
Definition inert t : Prop :=
  match t with TFetch _ w => 0 ≤ w | TDealloc _ | TReclaim _ => True | _ => False end.
Lemma PInv_idle b t l : inert t → PInv b (t :: l) ↔ PInv b l.
Proof.
  intros Ht. assert (pins t = None ∧ loads t = None ∧ evicts t = None ∧ (∀ f, ¬ unpins f t) ∧ task_ok b t)
    as (Hp & Hl & He & Hu & Hok) by (by destruct t; split_and!; try done; intros ? [? ?]).
  split; intros Hinv; destruct Hinv as [Hr Hd Hf ? ? ? ? ? Hlo Hev Hts]; split; try done; simpl in *;
    rewrite ?Hl, ?He in *; try done.
  - intros i fr Hi. apply (frame_ok_tasks b (t :: l)); [simpl; by rewrite Hp| |by apply Hf].
    intros [Hx|Hx]%Exists_cons; [by destruct (Hu i)|done].
  - by apply Forall_cons in Hts as [_ Hts].
  - intros i fr Hi. apply (frame_ok_tasks b l); [simpl; by rewrite Hp|by right|by apply Hf].
  - by constructor.
Qed.
Lemma PInv_inert b k w l : 0 ≤ w → PInv b (TFetch k w :: l) ↔ PInv b l.
Proof. intros Hw. by apply PInv_idle. Qed.

(** A change of frame [f] that leaves its page, the tables, the sets and the disk alone. *)
Lemma same_page_change b f fr fr' r :
  fget b f = Some fr → frame_page fr' = frame_page fr → unique b →
  ∀ q, frame_page fr = Some q →
  local_change b (with_replacer r (with_frames (<[Z.to_nat f := fr']> (frames_ b)) b)) f q.
Proof.
  intros Hf Hpg Hu q Hq. split; try done.
  - simpl. apply length_insert.
  - intros i Hi. change (fget (with_frames (<[Z.to_nat f:=fr']> (frames_ b)) b) i = fget b i).
    by rewrite (fget_put _ _ _ _ _ Hf), decide_False.
  - intros fr0 Hf0. simplify_eq. by right.
  - intros fr0 Hf0. change (fget (with_frames (<[Z.to_nat f:=fr']> (frames_ b)) b) f = Some fr0) in Hf0.
    rewrite (fget_put _ _ _ _ _ Hf), decide_True in Hf0 by done. simplify_eq. right. congruence.
  - intros i Hi Hh. apply Hi. eapply Hu; [done|]. by exists fr.
Qed.

(** ** Pinning *)

(** [b'] is [b] with frame [f] of page [w] pinned once more. *)
Definition pinned b b' f w : Prop :=
  ∃ fr r, fget b f = Some fr ∧ rep_inv (size b) r ∧ rep_alive r = <[f := (w, false)]> (alive b) ∧
    b' = with_replacer r (with_frames (<[Z.to_nat f := set_pin (pin_count_ fr + 1) fr]> (frames_ b)) b).

Lemma pinned_PInv b b' l t f w :
  PInv b l → page_table_ b !! w = Some f → pinned b b' f w →
  pins t = Some f → loads t = None → evicts t = None → task_ok b t →
  PInv b' (t :: l) ∧ ∀ q, 0 ≤ q → view b' q = view b q.
Proof.
  intros Hinv Hw (fr & r & Hf & Hr & Ha & ->) Hp Hl He Hok.
  destruct (mapped_inv b l Hinv w f Hw) as (fr0 & v & Hf0 & Hq & Hv & Hpin & Hnf & Hw0 & Hm). simplify_eq.
  pose proof (same_page_change b f fr (set_pin (pin_count_ fr + 1) fr) r Hf eq_refl (pi_unique _ _ Hinv) w Hq) as Hlc.
  set (b' := with_replacer _ _) in *.
  assert (fget b' f = Some (set_pin (pin_count_ fr + 1) fr)) as Hf'.
  { change (fget (with_frames (<[Z.to_nat f:=set_pin (pin_count_ fr + 1) fr]> (frames_ b)) b) f = Some (set_pin (pin_count_ fr + 1) fr)).
    by rewrite (fget_put _ _ _ _ _ Hf), decide_True. }
  split.
  - eapply (PInv_update b b' f w Hlc (pi_unique _ _ Hinv) l); try done.
    + split; simpl; [rewrite Hp, decide_True by done; lia|]. rewrite Hq. split_and!; try done. exists v. split; [done|].
      left. destruct Hm as (Ht & Hfl & _ & Hcl & Hld). split_and!; try done.
      exists false. simpl. rewrite Ha, lookup_insert_eq. split_and!; try done.
      intros _ Hn. rewrite Hp, decide_True in Hn by done. pose proof (npins_nonneg f l). lia.
    + rewrite (lc_length _ _ _ _ Hlc). done.
    + apply (pi_disk _ _ Hinv).
    + intros i Hi. simpl. rewrite Hp, decide_False by congruence. split_and!; [lia|by right|done|].
      by rewrite Ha, lookup_insert_ne.
    + apply (pi_free _ _ Hinv).
    + simpl. rewrite Hw. intros i [= <-]. done.
    + simpl. rewrite Hl. apply (pi_loads _ _ Hinv).
    + simpl. rewrite He. apply (pi_evicts _ _ Hinv).
    + constructor; [by destruct t|].
      eapply tasks_keep; [apply (pi_tasks _ _ Hinv)|done|done| |].
      * intros i [fr0 Hi]. destruct (decide (i = f)) as [->|Hne]; [by eauto|]. rewrite (lc_frames _ _ _ _ Hlc i Hne). eauto.
      * intros k w' f' p' _ (fr0 & Hf0 & Hq0) Hp'. split; [|done]. destruct (decide (f' = f)) as [->|Hne].
        -- assert (fr0 = fr) as -> by congruence. eexists. split; [exact Hf'|exact Hq0].
        -- exists fr0. by rewrite (lc_frames _ _ _ _ Hlc f' Hne).
  - intros q H0. destruct (decide (q = w)) as [->|Hne].
    + rewrite (view_held b' f _ w (change_unique b b' f w Hlc (pi_unique _ _ Hinv)) Hf') by done.
      by rewrite (view_held b f fr w (pi_unique _ _ Hinv) Hf Hq).
    + by apply (view_other b b' f w Hlc (pi_unique _ _ Hinv)).
Qed.

(** [pin_frame] on a frame that may be registered for the page. *)
Lemma pin_frame_raw b f fr w :
  fget b f = Some fr → rep_inv (size b) (replacer_ b) → may_record (alive b) (size b) f w →
  ∃ b', pin_frame f w b = (Ok tt, b') ∧ pinned b b' f w.
Proof.
  intros Hf Hr Hm. unfold pin_frame. run (frame_at_ok b f fr Hf). run (put_frame_ok f (set_pin (pin_count_ fr + 1) fr) b).
  set (b1 := with_frames _ b).
  destruct (rep_RecordAccess_ok (size b) (replacer_ b) f w Hr Hm) as (r1 & E1 & Hr1 & Ha1).
  run (on_replacer_ok (rep_RecordAccess f w) b1 tt r1 E1).
  destruct (rep_SetEvictable_ok (size b) r1 f w (match alive b !! f with Some e => e.2 | None => false end) false Hr1)
    as (r2 & E2 & Hr2 & Ha2).
  { rewrite Ha1. unfold record_access. by rewrite lookup_insert_eq. }
  rewrite (on_replacer_ok (rep_SetEvictable f false) (with_replacer r1 b1) tt r2 E2).
  eexists. split; [done|]. exists fr, r2. split_and!; try done.
  rewrite Ha2, Ha1. unfold record_access. by rewrite insert_insert_eq.
Qed.
Lemma pin_frame_ok b l f w :
  PInv b l → page_table_ b !! w = Some f → ∃ b', pin_frame f w b = (Ok tt, b') ∧ pinned b b' f w.
Proof.
  intros Hinv Hw. destruct (mapped_inv b l Hinv w f Hw) as (fr & v & Hf & Hq & _ & _ & _ & _ & Hm).
  destruct Hm as (_ & _ & (e & Ha & _) & _). apply (pin_frame_raw b f fr); [done|apply (pi_rep _ _ Hinv)|].
  split_and!; [apply (fget_lt _ _ _ Hf)..| |].
  - intros e' He'. by simplify_eq.
  - intros f' e' He'. pose proof (alive_inv b l Hinv f' w e' He'). congruence.
Qed.

(** [CheckedPage] finds the page resident. *)
Lemma fetch_hit_ok b k w f l :
  PInv b l → page_table_ b !! w = Some f → w ∉ loading_ b →
  ∃ b', fetch_locked w b = (Ok (FHit f), b') ∧ PInv b' (TLatch k w f :: l) ∧ ∀ q, 0 ≤ q → view b' q = view b q.
Proof.
  intros Hinv Hw Hl. destruct (pin_frame_ok b l f w Hinv Hw) as (b' & E & Hp).
  exists b'. unfold fetch_locked. run (st_get_ok b). rewrite Hw. run E. split; [done|].
  by eapply pinned_PInv.
Qed.
(** [FlushPage] pins a resident page. *)
Lemma flush_start_ok b p l :
  PInv b l → p ∉ loading_ b →
  ∃ r b', flush_start p b = (Ok r, b') ∧
    PInv b' (match r with Some f => [TFlush p f] | None => [] end ++ l) ∧ ∀ q, 0 ≤ q → view b' q = view b q.
Proof.
  intros Hinv Hl. unfold flush_start. run (st_get_ok b).
  destruct (page_table_ b !! p) as [f|] eqn:Hp; [|by exists None, b].
  destruct (mapped_inv b l Hinv p f Hp) as (fr & v & Hf & Hq & _ & _ & _ & _ & Hm). destruct Hm as (_ & _ & (e & Ha & _) & _).
  run (checked_frame_ok b f fr Hf). run (put_frame_ok f (set_pin (pin_count_ fr + 1) fr) b). set (b1 := with_frames _ b).
  destruct (rep_SetEvictable_ok (size b) (replacer_ b) f p e false (pi_rep _ _ Hinv) Ha) as (r & E & Hr & Ha2).
  run (on_replacer_ok (rep_SetEvictable f false) b1 tt r E).
  exists (Some f), (with_replacer r b1). split; [done|]. eapply (pinned_PInv b); try done. by exists fr, r.
Qed.

(** ** Loading *)

Lemma list_last_split {A} (l : list A) x : last l = Some x → take (length l - 1) l ++ [x] = l.
Proof.
  intros [l' ->]%last_Some. rewrite length_app. simpl. by rewrite Nat.add_sub, take_app_length.
Qed.

(** The pool with a free frame reserved for page [w]. *)
Definition reserved b f fr w : Pool :=
  with_loading ({[w]} ∪ loading_ b) (with_table (<[w := f]> (page_table_ b))
    (with_frames (<[Z.to_nat f := set_page_id w (EnsureData fr)]> (frames_ b))
      (with_free (take (length (free_frames_ b) - 1) (free_frames_ b)) b))).

Lemma reserved_PInv b b' k w f fr l :
  PInv b l → page_table_ b !! w = None → w ∉ loading_ b → w ∉ flushing_ b → 0 ≤ w →
  last (free_frames_ b) = Some f → fget b f = Some fr → pinned (reserved b f fr w) b' f w →
  PInv b' (TLoad k w f :: l) ∧ ∀ q, 0 ≤ q → view b' q = view b q.
Proof.
  intros Hinv Hw Hl Hfl Hw0 Hfree Hf (fr3 & r & Hf3 & Hr & Ha & ->). pose proof (list_last_split _ _ Hfree) as Efree.
  unfold reserved in *. set (rest := take (length (free_frames_ b) - 1) (free_frames_ b)) in *.
  pose proof (pi_free _ _ Hinv) as Hnd. rewrite <-Efree in Hnd. apply NoDup_app in Hnd as (Hnd & Hx & _).
  assert (f ∉ rest) as Hfr by (intros Hin; apply (Hx f Hin); by left).
  destruct (pi_free_in _ _ Hinv f) as (fr0 & Hf0 & Hnp); [rewrite <-Efree; set_solver|]. simplify_eq.
  destruct (pi_frames _ _ Hinv f fr Hf) as [Hpin Hok]. rewrite Hnp in Hok. destruct Hok as (_ & Hn0 & Hcl & Hal).
  assert (∀ i, ¬ holds b i w) as Hun by (intros i; by apply (unheld b l Hinv)).
  set (fr1 := set_page_id w (EnsureData fr)) in *.
  assert (fr3 = fr1) as ->.
  { change (fget (with_frames (<[Z.to_nat f:=fr1]> (frames_ b)) b) f = Some fr3) in Hf3.
    rewrite (fget_put _ _ _ _ _ Hf), decide_True in Hf3 by done. congruence. }
  set (fr2 := set_pin (pin_count_ fr1 + 1) fr1). set (b' := with_replacer _ _).
  assert (∀ j, fget b' j = if decide (j = f) then Some fr2 else fget b j) as Hget.
  { intros j. change (fget (with_frames (<[Z.to_nat f:=fr2]> (<[Z.to_nat f:=fr1]> (frames_ b))) b) j = if decide (j = f) then Some fr2 else fget b j).
    rewrite list_insert_insert_eq. by apply (fget_put b f fr). }
  assert (local_change b b' f w) as Hlc.
  { split; try done; simpl.
    - by rewrite !length_insert.
    - intros i Hi. by rewrite Hget, decide_False.
    - intros fr0 Hf0'. left. congruence.
    - intros fr0. rewrite Hget, decide_True by done. intros [= <-]. by right.
    - intros q' Hq'. by rewrite lookup_insert_ne.
    - intros q' Hq'. set_solver. }
  assert (fget b' f = Some fr2) as Hf2 by (by rewrite Hget, decide_True).
  split.
  - eapply (PInv_update b b' f w Hlc (pi_unique _ _ Hinv) l); try done.
    + split; simpl; [rewrite decide_True by done; lia|]. split_and!; try done. eexists. split; [done|].
      left. split_and!; simpl; [by rewrite lookup_insert_eq|done| |set_solver|done].
      exists false. simpl. rewrite Ha, lookup_insert_eq, decide_True by done. split_and!; try done. lia.
    + rewrite (lc_length _ _ _ _ Hlc). simpl in Hr. by rewrite length_insert in Hr.
    + apply (pi_disk _ _ Hinv).
    + intros i Hi. simpl. rewrite decide_False by congruence. split_and!; [lia|by right| |].
      * rewrite <-Efree. set_solver.
      * by rewrite Ha, lookup_insert_ne.
    + simpl. rewrite lookup_insert_eq. intros i [= <-]. done.
    + simpl. destruct (pi_loads _ _ Hinv) as [Hnl Hil]. split.
      * constructor; [|done]. by rewrite <-Hil.
      * intros q'. rewrite elem_of_cons, <-Hil. set_solver.
    + apply (pi_evicts _ _ Hinv).
    + constructor; [split; simpl; [by rewrite lookup_insert_eq|set_solver]|].
      eapply tasks_keep; [apply (pi_tasks _ _ Hinv)| | | |].
      * intros t w' f' _ Hw' _. assert (w' ≠ w) by congruence. simpl. rewrite lookup_insert_ne by done. split; [done|set_solver].
      * intros k' w' f' _ Hin. simpl. set_solver.
      * intros i. rewrite Hget. case_decide; [by eauto|done].
      * intros k' w' f' p' _ (fr0 & Hf0 & Hq0) Hp'. split; [|done]. exists fr0. rewrite Hget. case_decide; [congruence|done].
  - intros q H0. destruct (decide (q = w)) as [->|Hne].
    + rewrite (view_held b' f _ w (change_unique b b' f w Hlc (pi_unique _ _ Hinv)) Hf2) by done.
      rewrite decide_True by (simpl; set_solver). by rewrite (view_disk b w Hun).
    + by apply (view_other b b' f w Hlc (pi_unique _ _ Hinv)).
Qed.

(** The page is not resident and a frame is free: the frame is reserved and hidden behind [loading_]. *)
Lemma fetch_load_ok b k w f l :
  PInv b l → page_table_ b !! w = None → w ∉ loading_ b → w ∉ flushing_ b → 0 ≤ w → last (free_frames_ b) = Some f →
  ∃ b', fetch_locked w b = (Ok (FLoad f), b') ∧ PInv b' (TLoad k w f :: l) ∧ ∀ q, 0 ≤ q → view b' q = view b q.
Proof.
  intros Hinv Hw Hl Hfl Hw0 Hfree. pose proof (list_last_split _ _ Hfree) as Efree.
  destruct (pi_free_in _ _ Hinv f) as (fr & Hf & Hnp); [rewrite <-Efree; set_solver|].
  destruct (pi_frames _ _ Hinv f fr Hf) as [_ Hok]. rewrite Hnp in Hok. destruct Hok as (_ & _ & _ & Hal).
  destruct (pin_frame_raw (reserved b f fr w) f (set_page_id w (EnsureData fr)) w) as (b' & E & Hp).
  { change (fget (with_frames (<[Z.to_nat f:=set_page_id w (EnsureData fr)]> (frames_ b)) b) f = Some (set_page_id w (EnsureData fr))).
    by rewrite (fget_put _ _ _ _ _ Hf), decide_True. }
  { simpl. rewrite length_insert. apply (pi_rep _ _ Hinv). }
  { simpl. rewrite length_insert. split_and!; [apply (fget_lt _ _ _ Hf)..| |].
    - intros e He. congruence.
    - intros f' e He. pose proof (alive_inv b l Hinv f' w e He). congruence. }
  exists b'. split; [|by eapply reserved_PInv]. unfold fetch_locked. run (st_get_ok b). rewrite Hw, Hfree.
  run (modify_ok (with_free (take (length (free_frames_ b) - 1) (free_frames_ b))) b).
  assert (fget (with_free (take (length (free_frames_ b) - 1) (free_frames_ b)) b) f = Some fr) as Hf1 by done.
  run (frame_at_ok _ f fr Hf1).
  change ((_ ← pin_frame f w; mret (FLoad f)) (reserved b f fr w) = (Ok (FLoad f), b')). by run E.
Qed.

(** The read of the page has finished. *)
Lemma load_page_ok b k w f l :
  PInv b (TLoad k w f :: l) →
  ∃ b', load_page IoOk f w b = (Ok tt, b') ∧ PInv b' (TLatch k w f :: l) ∧ ∀ q, 0 ≤ q → view b' q = view b q.
Proof.
  intros Hinv. pose proof (pi_tasks _ _ Hinv) as Hts. apply Forall_cons in Hts as [[Hw Hl] Hts].
  destruct (mapped_inv b _ Hinv w f Hw) as (fr & v & Hf & Hq & Hv & Hpin & Hnf & Hw0 & Hm).
  unfold load_page. run (frame_at_ok b f fr Hf).
  assert (disk_read IoOk w fr b = (Ok (dm_page (disk_ b) w), b)) as Er.
  { unfold disk_read. rewrite Hv. by rewrite (dm_read_ok _ w v (pi_disk _ _ Hinv) Hw0). }
  run Er. set (fr' := set_data (dm_page (disk_ b) w) (is_dirty_ fr) fr). run (put_frame_ok f fr' b).
  rewrite modify_ok. set (b' := with_loading _ _). exists b'. split; [done|].
  assert (∀ j, fget b' j = if decide (j = f) then Some fr' else fget b j) as Hget by (intros j; exact (fget_put b f fr fr' j Hf)).
  destruct (pi_loads _ _ Hinv) as [Hnl Hil]. simpl in Hnl, Hil. apply NoDup_cons in Hnl as [Hnw Hnl].
  assert (local_change b b' f w) as Hlc.
  { split; try done; simpl.
    - by rewrite length_insert.
    - intros i Hi. by rewrite Hget, decide_False.
    - intros fr0 Hf0. right. congruence.
    - intros fr0. rewrite Hget, decide_True by done. intros [= <-]. by right.
    - intros i Hi Hh. apply Hi. eapply (pi_unique _ _ Hinv); [done|]. by exists fr.
    - set_solver. }
  assert (fget b' f = Some fr') as Hf' by (by rewrite Hget, decide_True).
  split.
  - eapply (PInv_update b b' f w Hlc (pi_unique _ _ Hinv) (TLoad k w f :: l)); try done.
    + split; [done|]. unfold fr' at 1. simpl. rewrite Hq. split_and!; try done. eexists. split; [done|].
      left. destruct Hm as (Ht & Hfl & (e & Ha & He1 & He2) & Hcl & Hld). split_and!; simpl; try done; [|set_solver].
      exists e. split_and!; try done. intros He Hn. exfalso. simpl in Hn. rewrite decide_True in Hn by done.
      pose proof (npins_nonneg f l). lia.
    + rewrite (lc_length _ _ _ _ Hlc). apply (pi_rep _ _ Hinv).
    + apply (pi_disk _ _ Hinv).
    + intros i Hi. simpl. rewrite !decide_False by congruence. split_and!; [done| |done|done].
      intros [[? ?]|?]%Exists_cons; [done|by right].
    + apply (pi_free _ _ Hinv).
    + simpl. rewrite Hw. intros i [= <-]. done.
    + simpl. split; [done|]. intros q'. rewrite elem_of_difference, Hil, elem_of_cons, elem_of_singleton.
      split; [naive_solver|]. intros Hin. split; [by right|]. intros ->. done.
    + apply (pi_evicts _ _ Hinv).
    + constructor; [split; simpl; [done|set_solver]|].
      eapply tasks_keep; [done| | | |].
      * intros t w' f' _ Hw' _. split; [done|]. simpl. set_solver.
      * intros k' w' f' Ht Hin. simpl. apply elem_of_difference. split; [done|]. intros ->%elem_of_singleton.
        apply Hnw, list_elem_of_omap. eauto.
      * intros i. rewrite Hget. case_decide; [by eauto|done].
      * intros k' w' f' p' _ (fr0 & Hf0 & Hq0) Hp'. split; [|done]. destruct (decide (f' = f)) as [->|].
        -- assert (fr0 = fr) as -> by congruence. by exists fr'.
        -- exists fr0. by rewrite Hget, decide_False.
  - intros q H0. destruct (decide (q = w)) as [->|Hne].
    + rewrite (view_held b' f _ w (change_unique b b' f w Hlc (pi_unique _ _ Hinv)) Hf') by done.
      rewrite decide_False by (simpl; set_solver).
      rewrite (view_held b f fr w (pi_unique _ _ Hinv) Hf Hq). by rewrite decide_True.
    + by apply (view_other b b' f w Hlc (pi_unique _ _ Hinv)).
Qed.

(** ** Eviction *)

(** A page no one pins: what is known about its frame. *)
Lemma evictable_inv b l f q :
  PInv b l → alive b !! f = Some (q, true) →
  ∃ fr v, fget b f = Some fr ∧ frame_page fr = Some q ∧ frame_data fr = Some v ∧ pin_count_ fr = 0 ∧ npins f l = 0 ∧
    (f ∉ free_frames_ b) ∧ 0 ≤ q ∧ page_table_ b !! q = Some f ∧ (q ∉ loading_ b) ∧ (q ∉ flushing_ b) ∧
    (is_dirty_ fr = false → v = dm_page (disk_ b) q).
Proof.
  intros Hinv Ha. pose proof (alive_inv b l Hinv f q true Ha) as Ht.
  destruct (mapped_inv b l Hinv q f Ht) as (fr & v & Hf & Hq & Hv & Hpin & Hnf & H0 & Hm).
  destruct Hm as (_ & Hfl & (e & Ha' & He & _) & Hcl & _). assert (e = true) as -> by congruence.
  pose proof (He eq_refl) as Hn. pose proof (unpinned_not_loading b l Hinv q f Ht Hn) as Hl.
  exists fr, v. split_and!; try done; [lia|]. auto.
Qed.

(** Tasks that do not pin [f] are not about the page [f] holds. *)
Lemma other_tasks b b' l f q :
  PInv b l → npins f l = 0 → page_table_ b !! q = Some f → (q ∉ flushing_ b) →
  (∀ q', q' ≠ q → page_table_ b' !! q' = page_table_ b !! q') → loading_ b' = loading_ b →
  (∀ i, is_Some (fget b i) → is_Some (fget b' i)) → (∀ i, i ≠ f → fget b' i = fget b i) →
  (∀ q', q' ∈ flushing_ b → q' ∈ flushing_ b') → Forall (task_ok b') l.
Proof.
  intros Hinv Hn Hq Hnfl Ht Hl Hsome Hget Hfl. eapply tasks_keep; [apply (pi_tasks _ _ Hinv)| | |done|].
  - intros t w f' Hin Hw Hp. rewrite Hl. split; [|done]. rewrite Ht; [done|]. intros ->. assert (f' = f) as -> by congruence.
    pose proof (npins_pos f t l Hin Hp). lia.
  - intros k w f' _. by rewrite Hl.
  - intros k w f' p Hin Hh Hp. split; [|auto]. destruct Hh as (fr & Hf & Hfp). exists fr. rewrite Hget; [done|].
    intros ->. destruct (pi_table _ _ Hinv q f Hq) as (fr0 & Hf0 & Hq0). congruence.
Qed.

(** An unpinned frame is recycled: its page is left as the disk has it. *)
Definition recycled b f q fr r : Pool :=
  with_free (free_frames_ b ++ [f]) (with_frames (<[Z.to_nat f := frame_Reset fr]> (frames_ b))
    (with_table (delete q (page_table_ b)) (with_replacer r b))).

Lemma recycle_PInv b l f q fr r :
  PInv b l → alive b !! f = Some (q, true) → fget b f = Some fr →
  rep_inv (size b) r → rep_alive r = delete f (alive b) →
  PInv (recycled b f q fr r) l ∧ (∀ i, ¬ holds (recycled b f q fr r) i q) ∧
  ∀ q', 0 ≤ q' → q' ≠ q → view (recycled b f q fr r) q' = view b q'.
Proof.
  intros Hinv Ha Hf Hr Har. set (b' := recycled b f q fr r).
  destruct (evictable_inv b l f q Hinv Ha) as (fr0 & v0 & Hf0 & Hq & Hv0 & Hpin & Hn & Hnf & H0 & Ht & Hl & Hfl & _).
  assert (fr0 = fr) as -> by congruence.
  assert (∀ j, fget b' j = if decide (j = f) then Some (frame_Reset fr) else fget b j) as Hget
    by (intros j; exact (fget_put b f fr (frame_Reset fr) j Hf)).
  assert (local_change b b' f q) as Hlc.
  { split; try done; simpl.
    - by rewrite length_insert.
    - intros i Hi. by rewrite Hget, decide_False.
    - intros fr1 Hf1. right. congruence.
    - intros fr1. rewrite Hget, decide_True by done. intros [= <-]. by left.
    - intros i Hi Hh. apply Hi. eapply (pi_unique _ _ Hinv); [done|]. by exists fr.
    - intros q' Hq'. by rewrite lookup_delete_ne. }
  assert (fget b' f = Some (frame_Reset fr)) as Hf' by (by rewrite Hget, decide_True).
  split_and!.
  - eapply (PInv_update b b' f q Hlc (pi_unique _ _ Hinv) l); try done.
    + split; simpl; [lia|]. split_and!; try done; [set_solver|]. simpl. by rewrite Har, lookup_delete_eq.
    + by rewrite (lc_length _ _ _ _ Hlc).
    + apply (pi_disk _ _ Hinv).
    + intros i Hi. simpl. split_and!; [done|done|set_solver|]. by rewrite Har, lookup_delete_ne.
    + simpl. apply NoDup_app. split_and!; [apply (pi_free _ _ Hinv)| |apply NoDup_singleton].
      intros i Hi ->%list_elem_of_singleton. done.
    + simpl. by rewrite lookup_delete_eq.
    + apply (pi_loads _ _ Hinv).
    + apply (pi_evicts _ _ Hinv).
    + apply (other_tasks b b' l f q); try done.
      * intros q' Hq'. simpl. by rewrite lookup_delete_ne.
      * intros i. rewrite Hget. case_decide; [by eauto|done].
      * intros i Hi. by rewrite Hget, decide_False.
  - intros i Hh. destruct (change_holds b b' f q Hlc i q Hh) as [[-> _]|[Hi Hh']].
    + destruct Hh as (fr1 & Hf1 & Hq1). rewrite Hf' in Hf1. by simplify_eq.
    + by apply (lc_alone _ _ _ _ Hlc i Hi).
  - intros q' H0' Hne. by apply (view_other b b' f q Hlc (pi_unique _ _ Hinv)).
Qed.

(** A clean victim is recycled under the latch. *)
Lemma recycle_clean b l f q fr r :
  PInv b l → alive b !! f = Some (q, true) → fget b f = Some fr → is_dirty_ fr = false →
  rep_inv (size b) r → rep_alive r = delete f (alive b) →
  PInv (recycled b f q fr r) l ∧ ∀ q', 0 ≤ q' → view (recycled b f q fr r) q' = view b q'.
Proof.
  intros Hinv Ha Hf Hd Hr Har. destruct (recycle_PInv b l f q fr r Hinv Ha Hf Hr Har) as (HI & Hun & HV).
  destruct (evictable_inv b l f q Hinv Ha) as (fr0 & v & Hf0 & Hq & Hv & _ & _ & _ & _ & _ & Hl & _ & Hcl).
  assert (fr0 = fr) as -> by congruence. specialize (Hcl Hd). split; [done|].
  intros q' H0'. destruct (decide (q' = q)) as [->|Hne]; [|by apply HV].
  rewrite (view_held b f fr q (pi_unique _ _ Hinv) Hf Hq), decide_False, Hv by done. simpl.
  rewrite Hcl. by apply (view_disk (recycled b f q fr r)).
Qed.

(** A dirty victim is detached and its page marked as being written back. *)
Lemma detach_dirty b l k w f q fr r :
  PInv b l → 0 ≤ w → alive b !! f = Some (q, true) → fget b f = Some fr → is_dirty_ fr = true →
  rep_inv (size b) r → rep_alive r = delete f (alive b) → frame_page fr = Some q →
  let b' := with_flushing ({[q]} ∪ flushing_ b) (with_table (delete q (page_table_ b)) (with_replacer r b)) in
  PInv b' (TEvict k w f q :: l) ∧ ∀ q', 0 ≤ q' → view b' q' = view b q'.
Proof.
  intros Hinv Hw0 Ha Hf Hd Hr Har Hq b'.
  destruct (evictable_inv b l f q Hinv Ha) as (fr0 & v & Hf0 & _ & Hv & Hpin & Hn & Hnf & H0 & Ht & Hl & Hfl & _).
  assert (fr0 = fr) as -> by congruence.
  assert (local_change b b' f q) as Hlc.
  { split; try done; simpl.
    - intros fr1 Hf1. right. congruence.
    - intros fr1 Hf1. change (fget b f = Some fr1) in Hf1. right. congruence.
    - intros i Hi Hh. apply Hi. eapply (pi_unique _ _ Hinv); [done|]. by exists fr.
    - intros q' Hq'. by rewrite lookup_delete_ne.
    - intros q' Hq'. set_solver. }
  assert (fget b' f = Some fr) as Hf' by done.
  split.
  - eapply (PInv_update b b' f q Hlc (pi_unique _ _ Hinv) l); try done.
    + split; simpl; [lia|]. rewrite Hq. split_and!; try done. exists v. split; [done|]. right.
      split_and!; simpl; try done; [by rewrite lookup_delete_eq|set_solver|]. by rewrite Har, lookup_delete_eq.
    + apply (pi_disk _ _ Hinv).
    + intros i Hi. simpl. split_and!; [lia|by right|done|]. by rewrite Har, lookup_delete_ne.
    + apply (pi_free _ _ Hinv).
    + simpl. by rewrite lookup_delete_eq.
    + apply (pi_loads _ _ Hinv).
    + simpl. destruct (pi_evicts _ _ Hinv) as [Hne Hie]. split.
      * constructor; [|done]. by rewrite <-Hie.
      * intros q'. rewrite elem_of_cons, <-Hie. set_solver.
    + constructor; [split_and!; simpl; [done|by exists fr|set_solver]|].
      apply (other_tasks b b' l f q); try done.
      * intros q' Hq'. simpl. by rewrite lookup_delete_ne.
      * simpl. set_solver.
  - intros q' H0'. destruct (decide (q' = q)) as [->|Hne].
    + rewrite (view_held b' f fr q (change_unique b b' f q Hlc (pi_unique _ _ Hinv)) Hf' Hq).
      by rewrite (view_held b f fr q (pi_unique _ _ Hinv) Hf Hq).
    + by apply (view_other b b' f q Hlc (pi_unique _ _ Hinv)).
Qed.

(** The whole first part of [EvictOneLocked]. *)
Definition victim_tasks (k : guard_kind) w (v : victim) : list task :=
  match v with VNone => [] | VFreed => [TFetch k w] | VFlush f p => [TEvict k w f p] end.

Lemma evict_start_ok b k w l :
  PInv b l → 0 ≤ w →
  ∃ v b', evict_start b = (Ok v, b') ∧ PInv b' (victim_tasks k w v ++ l) ∧ (∀ q, 0 ≤ q → view b' q = view b q) ∧
    (v = VNone → ∀ f q, alive b !! f ≠ Some (q, true)) ∧ (v = VFreed → free_frames_ b' ≠ []) ∧
    loading_ b' = loading_ b ∧ (∀ q, page_table_ b !! q = None → page_table_ b' !! q = None) ∧
    (∀ f q, v = VFlush f q → page_table_ b !! q = Some f).
Proof.
  intros Hinv Hw0. unfold evict_start.
  destruct (decide (map_Exists (λ _ e, e.2 = true) (alive b))) as [(f0 & [q0 e0] & Hf0 & He0)|Hno].
  2:{ assert (∀ f q, alive b !! f ≠ Some (q, true)) as Hn.
      { intros f q Hf. apply Hno. by exists f, (q, true). }
      pose proof (rep_Evict_none _ _ (pi_rep _ _ Hinv) Hn) as E.
      run (on_replacer_ok rep_Evict b None (replacer_ b) E). exists VNone, b. split; [by destruct b|].
      by split_and!. }
  simpl in He0. subst e0.
  destruct (rep_Evict_some _ _ f0 q0 (pi_rep _ _ Hinv) Hf0) as (f & q & r & E & Ha & Har & Hr).
  run (on_replacer_ok rep_Evict b (Some f) r E).
  destruct (evictable_inv b l f q Hinv Ha) as (fr & v & Hf & Hq & Hv & Hpin & Hn & Hnf & H0 & Ht & Hl & Hfl & Hcl).
  assert (fget (with_replacer r b) f = Some fr) as Hf1 by done. run (checked_frame_ok _ f fr Hf1). rewrite Hq.
  run (modify_ok (λ b, with_table (delete q (page_table_ b)) b) (with_replacer r b)).
  assert (∀ q', page_table_ b !! q' = None → delete q (page_table_ b) !! q' = None) as Htn.
  { intros q' Hq'. apply lookup_delete_None. by right. }
  destruct (is_dirty_ fr) eqn:Hd.
  - destruct (detach_dirty b l k w f q fr r Hinv Hw0 Ha Hf Hd Hr Har Hq) as [HI HV].
    exists (VFlush f q). eexists. split; [done|]. split_and!; try done. intros f' q' [= <- <-]. done.
  - destruct (recycle_clean b l f q fr r Hinv Ha Hf Hd Hr Har) as (HI & HV).
    exists VFreed, (recycled b f q fr r). split; [done|]. split_and!; try done.
    + by apply PInv_inert.
    + simpl. by destruct (free_frames_ b).
Qed.

(** ** The end of a write-back *)

(** What is known while page [p] of frame [f] is being written back. *)
Lemma detached_inv b k w f p l :
  PInv b (TEvict k w f p :: l) →
  ∃ fr v, fget b f = Some fr ∧ frame_page fr = Some p ∧ frame_data fr = Some v ∧ pin_count_ fr = 0 ∧ npins f l = 0 ∧
    (f ∉ free_frames_ b) ∧ 0 ≤ p ∧ page_table_ b !! p = None ∧ (p ∉ loading_ b) ∧ alive b !! f = None ∧ 0 ≤ w ∧
    (p ∉ omap evicts l) ∧ NoDup (omap evicts l) ∧ ∀ q, q ∈ flushing_ b ∖ {[p]} ↔ q ∈ omap evicts l.
Proof.
  intros Hinv. pose proof (pi_tasks _ _ Hinv) as Hts. apply Forall_cons in Hts as [(Hw & (fr & Hf & Hq) & Hp) _].
  destruct (pi_frames _ _ Hinv f fr Hf) as [Hpin Hok]. rewrite Hq in Hok. simpl in Hpin.
  destruct Hok as (H0 & Hnf & v & Hv & [(_ & Hn & _)|(Ht & _ & Hl & Hn & _ & Ha)]); [done|]. simpl in Hn.
  destruct (pi_evicts _ _ Hinv) as [Hne Hie]. simpl in Hne, Hie. apply NoDup_cons in Hne as [Hnp Hne].
  exists fr, v. split_and!; try done; [lia..|]. intros q. rewrite elem_of_difference, Hie, elem_of_cons, elem_of_singleton.
  split; [naive_solver|]. intros Hin. split; [by right|]. by intros ->.
Qed.

(** Tasks other than the write-back of [p] do not mind how it ends. *)
Lemma tasks_after_evict b b' k w f p l :
  PInv b (TEvict k w f p :: l) →
  (∀ q, q ≠ p → page_table_ b' !! q = page_table_ b !! q) → loading_ b' = loading_ b →
  (∀ i, is_Some (fget b i) → is_Some (fget b' i)) → (∀ i, i ≠ f → fget b' i = fget b i) →
  flushing_ b' = flushing_ b ∖ {[p]} → Forall (task_ok b') l.
Proof.
  intros Hinv Ht Hl Hsome Hget Hfl.
  destruct (detached_inv b k w f p l Hinv) as (fr & v & Hf & Hq & _ & _ & Hn & _ & _ & Htp & _ & _ & _ & Hnp & _).
  pose proof (pi_tasks _ _ Hinv) as Hts. apply Forall_cons in Hts as [_ Hts].
  eapply tasks_keep; [done| | |done|].
  - intros t w' f' Hin Hw' Hp. rewrite Hl. split; [|done]. rewrite Ht; [done|]. congruence.
  - intros k' w' f' _. by rewrite Hl.
  - intros k' w' f' p' Hin (fr' & Hf' & Hq') Hp'. assert (p' ≠ p) as Hne.
    { intros ->. apply Hnp, list_elem_of_omap. eauto. }
    split; [|rewrite Hfl; set_solver]. exists fr'. rewrite Hget; [done|]. intros ->. congruence.
Qed.

Lemma evict_ok_PInv b k w f p fr v l d :
  PInv b (TEvict k w f p :: l) → fget b f = Some fr → frame_data fr = Some v → dm_inv d →
  (∀ q, 0 ≤ q → dm_page d q = if decide (q = p) then v else dm_page (disk_ b) q) →
  let b' := with_free (free_frames_ b ++ [f]) (with_frames (<[Z.to_nat f := frame_Reset fr]> (frames_ b))
              (with_flushing (flushing_ b ∖ {[p]}) (with_disk d b))) in
  PInv b' l ∧ ∀ q, 0 ≤ q → view b' q = view b q.
Proof.
  intros Hinv Hf Hv Hdi Hd b'.
  destruct (detached_inv b k w f p l Hinv) as (fr0 & v0 & Hf0 & Hq & Hv0 & Hpin & Hn & Hnf & H0 & Htp & Hl & Ha & Hw & Hnp & Hne & Hie).
  assert (fr0 = fr) as -> by congruence. assert (v0 = v) as -> by congruence.
  assert (∀ j, fget b' j = if decide (j = f) then Some (frame_Reset fr) else fget b j) as Hget
    by (intros j; exact (fget_put b f fr (frame_Reset fr) j Hf)).
  assert (local_change b b' f p) as Hlc.
  { split; try done; simpl.
    - by rewrite length_insert.
    - intros i Hi. by rewrite Hget, decide_False.
    - intros fr1 Hf1. right. congruence.
    - intros fr1. rewrite Hget, decide_True by done. intros [= <-]. by left.
    - intros i Hi Hh. apply Hi. eapply (pi_unique _ _ Hinv); [done|]. by exists fr.
    - intros q' Hq'. set_solver.
    - intros q' Hq' H0'. by rewrite Hd, decide_False. }
  assert (fget b' f = Some (frame_Reset fr)) as Hf' by (by rewrite Hget, decide_True).
  split.
  - eapply (PInv_update b b' f p Hlc (pi_unique _ _ Hinv) (TEvict k w f p :: l)); try done.
    + split; simpl; [lia|]. split_and!; try done; set_solver.
    + rewrite (lc_length _ _ _ _ Hlc). apply (pi_rep _ _ Hinv).
    + intros i Hi. simpl. split_and!; [lia| |set_solver|done]. intros [[? ?]|?]%Exists_cons; done.
    + simpl. apply NoDup_app. split_and!; [apply (pi_free _ _ Hinv)| |apply NoDup_singleton].
      intros i Hi ->%list_elem_of_singleton. done.
    + simpl. by rewrite Htp.
    + apply (pi_loads _ _ Hinv).
    + apply (tasks_after_evict b b' k w f p l Hinv); try done.
      * intros i. rewrite Hget. case_decide; [by eauto|done].
      * intros i Hi. by rewrite Hget, decide_False.
  - intros q' H0'. destruct (decide (q' = p)) as [->|Hqp].
    + rewrite (view_held b f fr p (pi_unique _ _ Hinv) Hf Hq), decide_False, Hv by done. simpl.
      transitivity (dm_page (disk_ b') p); [|simpl; by rewrite Hd, decide_True].
      apply (view_disk b'). intros i Hh. destruct (change_holds b b' f p Hlc i p Hh) as [[-> _]|[Hi Hh']].
      * destruct Hh as (fr1 & Hf1 & Hq1). rewrite Hf' in Hf1. by simplify_eq.
      * by apply (lc_alone _ _ _ _ Hlc i Hi).
    + by apply (view_other b b' f p Hlc (pi_unique _ _ Hinv)).
Qed.

Lemma evict_fail_PInv b k w f p fr v l d r :
  PInv b (TEvict k w f p :: l) → fget b f = Some fr → frame_data fr = Some v → dm_inv d →
  (∀ q, 0 ≤ q → dm_page d q = dm_page (disk_ b) q) →
  rep_inv (size b) r → rep_alive r = <[f := (p, true)]> (alive b) →
  let b' := with_replacer r (with_table (<[p := f]> (page_table_ b))
              (with_flushing (flushing_ b ∖ {[p]}) (with_disk d b))) in
  PInv b' l ∧ ∀ q, 0 ≤ q → view b' q = view b q.
Proof.
  intros Hinv Hf Hv Hdi Hd Hr Har b'.
  destruct (detached_inv b k w f p l Hinv) as (fr0 & v0 & Hf0 & Hq & Hv0 & Hpin & Hn & Hnf & H0 & Htp & Hl & Ha & Hw & Hnp & Hne & Hie).
  assert (fr0 = fr) as -> by congruence. assert (v0 = v) as -> by congruence.
  pose proof (pi_frames _ _ Hinv f fr Hf) as [_ Hok]. rewrite Hq in Hok.
  destruct Hok as (_ & _ & _ & _ & [(? & _)|(_ & _ & _ & _ & Hdirty & _)]); [congruence|].
  assert (local_change b b' f p) as Hlc.
  { split; try done; simpl.
    - intros fr1 Hf1. right. congruence.
    - intros fr1 Hf1. change (fget b f = Some fr1) in Hf1. right. congruence.
    - intros i Hi Hh. apply Hi. eapply (pi_unique _ _ Hinv); [done|]. by exists fr.
    - intros q' Hq'. by rewrite lookup_insert_ne.
    - intros q' Hq'. set_solver.
    - intros q' Hq' H0'. by apply Hd. }
  assert (fget b' f = Some fr) as Hf' by done.
  split.
  - eapply (PInv_update b b' f p Hlc (pi_unique _ _ Hinv) (TEvict k w f p :: l)); try done.
    + split; simpl; [lia|]. rewrite Hq. split_and!; try done. exists v. split; [done|]. left.
      split_and!; simpl; [by rewrite lookup_insert_eq|set_solver| |by rewrite Hdirty|done].
      exists true. simpl. rewrite Har, lookup_insert_eq. by split_and!.
    + intros i Hi. simpl. split_and!; [lia| |done|by rewrite Har, lookup_insert_ne].
      intros [[? ?]|?]%Exists_cons; done.
    + apply (pi_free _ _ Hinv).
    + simpl. rewrite lookup_insert_eq. intros i [= <-]. done.
    + apply (pi_loads _ _ Hinv).
    + apply (tasks_after_evict b b' k w f p l Hinv); try done.
      intros q' Hq'. simpl. by rewrite lookup_insert_ne.
  - intros q' H0'. destruct (decide (q' = p)) as [->|Hqp].
    + rewrite (view_held b' f fr p (change_unique b b' f p Hlc (pi_unique _ _ Hinv)) Hf' Hq).
      rewrite (view_held b f fr p (pi_unique _ _ Hinv) Hf Hq). by rewrite !decide_False.
    + by apply (view_other b b' f p Hlc (pi_unique _ _ Hinv)).
Qed.

(** The write-back and its critical section. *)
Lemma evict_io_ok b o k w f p l :
  PInv b (TEvict k w f p :: l) → o ≠ IoNoStat →
  ∃ ok b', evict_io o f p b = (Ok ok, b') ∧
    PInv b' ((if (ok : bool) then [TFetch k w] else []) ++ l) ∧ (∀ q, 0 ≤ q → view b' q = view b q) ∧
    (o = IoOk → ok = true) ∧ (ok = true → free_frames_ b' ≠ []) ∧ loading_ b' = loading_ b ∧
    (ok = true → page_table_ b' = page_table_ b).
Proof.
  intros Hinv Ho.
  destruct (detached_inv b k w f p l Hinv) as (fr & v & Hf & Hq & Hv & Hpin & Hn & Hnf & H0 & Htp & Hl & Ha & Hw & Hnp & Hne & Hie).
  unfold evict_io, write_back.
  assert (∃ ok d, (fr ← frame_at f; disk_write o p fr) b = (Ok ok, with_disk d b) ∧ dm_inv d ∧
    (ok = true → ∀ q, 0 ≤ q → dm_page d q = if decide (q = p) then v else dm_page (disk_ b) q) ∧
    (ok = false → o = IoBad ∧ ∀ q, 0 ≤ q → dm_page d q = dm_page (disk_ b) q)) as (ok & d & E & Hdi & Hd1 & Hd2).
  { destruct o; [|done|].
    - destruct (dm_write_ok _ p v (pi_disk _ _ Hinv) H0) as (d & E & Hdi & Hd). exists true, d.
      run (frame_at_ok b f fr Hf). unfold disk_write. rewrite Hv, E. by split_and!.
    - destruct (dm_write_bad _ p v (pi_disk _ _ Hinv) H0) as (d & E & Hdi & Hd). exists false, d.
      run (frame_at_ok b f fr Hf). unfold disk_write. rewrite Hv, E. by split_and!. }
  run E. unfold evict_finish. run (modify_ok (λ b, with_flushing (flushing_ b ∖ {[p]}) b) (with_disk d b)).
  set (b1 := with_flushing _ _). assert (fget b1 f = Some fr) as Hf1 by done. destruct ok; simpl.
  - run (frame_at_ok b1 f fr Hf1). specialize (Hd1 eq_refl).
    destruct (evict_ok_PInv b k w f p fr v l d Hinv Hf Hv Hdi Hd1) as [HI HV].
    exists true. eexists. split; [done|]. split_and!; try done.
    + by apply PInv_inert.
    + simpl. by destruct (free_frames_ b).
  - destruct (Hd2 eq_refl) as [-> Hd].
    run (modify_ok (λ b, with_table (<[p := f]> (page_table_ b)) b) b1). set (b2 := with_table _ _).
    destruct (rep_RecordAccess_ok (size b) (replacer_ b) f p (pi_rep _ _ Hinv)) as (r1 & E1 & Hr1 & Ha1).
    { split_and!; [apply (fget_lt _ _ _ Hf)..| |].
      - intros e He. congruence.
      - intros f' e He. pose proof (alive_inv b _ Hinv f' p e He). congruence. }
    run (on_replacer_ok (rep_RecordAccess f p) b2 tt r1 E1).
    destruct (rep_SetEvictable_ok (size b) r1 f p false true Hr1) as (r2 & E2 & Hr2 & Ha2).
    { rewrite Ha1. unfold record_access. by rewrite lookup_insert_eq, Ha. }
    run (on_replacer_ok (rep_SetEvictable f true) (with_replacer r1 b2) tt r2 E2).
    destruct (evict_fail_PInv b k w f p fr v l d r2 Hinv Hf Hv Hdi Hd Hr2) as [HI HV].
    { rewrite Ha2, Ha1. unfold record_access. by rewrite insert_insert_eq. }
    exists false. eexists. split; [done|]. by split_and!.
Qed.
End steps.
