(* ===== verification/PoolRefinement.v ===== *)
(** * Guards, flushes and deletion keep the invariant and the page store *)

From S2P Require Import Prelude TablePage ArcReplacer DiskManager BufferPool PoolMachine PoolSteps.

Section guards.
Context {D P R : Type} `{!DiskManager D P, !Replacer R, !DiskLaws D P, !ReplacerLaws R}.
#[local] Abbreviation Pool := (BufferPool D P R).
#[local] Abbreviation Frame := (FrameHeader P).
Implicit Types (b : Pool) (fr : Frame) (t : task) (l ts n : list task) (p q w f i : Z).
#[local] Abbreviation alive b := (rep_alive (replacer_ b)).
#[local] Abbreviation size b := (Z.of_nat (length (frames_ b))).

(** ** A pinned page changed in place *)

(** What an activity that pins a readable page knows about its frame. *)
Lemma pinned_inv b t l w f :
  PInv b (t :: l) → page_table_ b !! w = Some f → pins t = Some f →
  ∃ fr v e, fget b f = Some fr ∧ frame_page fr = Some w ∧ frame_data fr = Some v ∧ pin_count_ fr = 1 + npins f l ∧
    0 ≤ w ∧ alive b !! f = Some (w, e) ∧ (is_dirty_ fr = false → w ∉ loading_ b → v = dm_page (disk_ b) w).
Proof.
  intros Hinv Hw Hp. destruct (mapped_inv b _ Hinv w f Hw) as (fr & v & Hf & Hq & Hv & Hpin & _ & H0 & Hm).
  destruct Hm as (_ & _ & (e & Ha & _) & Hcl & _). simpl in Hpin. rewrite Hp, decide_True in Hpin by done.
  by exists fr, v, e.
Qed.

(** The frame of a pinned page is not evictable. *)
Lemma pinned_flag b t l w f e :
  PInv b (t :: l) → page_table_ b !! w = Some f → pins t = Some f → alive b !! f = Some (w, e) → e = false.
Proof.
  intros Hinv Hw Hp Ha. destruct (mapped_inv b _ Hinv w f Hw) as (fr & v & _ & _ & _ & _ & _ & _ & Hm).
  destruct Hm as (_ & _ & (e0 & Ha0 & He0 & _) & _). rewrite Ha in Ha0. injection Ha0 as <-. destruct e; [|done].
  specialize (He0 eq_refl). simpl in He0. rewrite Hp, decide_True in He0 by done. pose proof (npins_nonneg f l). lia.
Qed.

(** The activity [t] pins frame [f] of page [w]; it changes the frame, the page on disk and its flag in
    the replacer, and goes on as [n]. *)
Lemma inplace_PInv b t n l f w fr fr' v' e' r d :
  PInv b (t :: l) → page_table_ b !! w = Some f → (w ∉ loading_ b) → fget b f = Some fr →
  pins t = Some f → loads t = None → evicts t = None → (∀ g, ¬ unpins g t) →
  frame_page fr' = Some w → frame_data fr' = Some v' → pin_count_ fr' = npins f (n ++ l) →
  Forall (λ t', t' = t ∨ ∃ p, t' = TUnpin p f) n →
  rep_inv (size b) r → rep_alive r = <[f := (w, e')]> (alive b) →
  (e' = true → npins f (n ++ l) = 0) → (e' = false → npins f (n ++ l) = 0 → Exists (unpins f) (n ++ l)) →
  dm_inv d → (∀ q, 0 ≤ q → q ≠ w → dm_page d q = dm_page (disk_ b) q) →
  (is_dirty_ fr' = false → v' = dm_page d w) →
  let b' := with_replacer r (with_frames (<[Z.to_nat f := fr']> (frames_ b)) (with_disk d b)) in
  PInv b' (n ++ l) ∧ view b' w = v' ∧ ∀ q, 0 ≤ q → q ≠ w → view b' q = view b q.
Proof.
  intros Hinv Hw Hl Hf Hpt Hlt Het Hut Hq' Hv' Hpin' Hn Hr Har He1 He2 Hdi Hd Hcl b'.
  destruct (mapped_inv b _ Hinv w f Hw) as (fr0 & v & Hf0 & Hq & Hv & Hpin & Hnf & H0 & Hm).
  assert (fr0 = fr) as -> by congruence.
  assert (∀ j, fget b' j = if decide (j = f) then Some fr' else fget b j) as Hget
    by (intros j; exact (fget_put b f fr fr' j Hf)).
  assert (local_change b b' f w) as Hlc.
  { split; try done; simpl.
    - by rewrite length_insert.
    - intros i Hi. by rewrite Hget, decide_False.
    - intros fr1 Hf1. right. congruence.
    - intros fr1. rewrite Hget, decide_True by done. intros [= <-]. by right.
    - intros i Hi Hh. apply Hi. eapply (pi_unique _ _ Hinv); [done|]. by exists fr.
    - intros q Hqw Hq0. by apply Hd. }
  assert (fget b' f = Some fr') as Hf' by (by rewrite Hget, decide_True).
  assert (∀ i, i ≠ f → npins i n = 0) as Hni.
  { intros i Hi. clear -Hn Hi Hpt. induction Hn as [|t' n [->|[p ->]] _ IH]; simpl; [done| |done].
    rewrite Hpt, decide_False by congruence. done. }
  assert (omap loads n = [] ∧ omap evicts n = []) as [Hln Hen].
  { clear -Hn Hlt Het. induction Hn as [|t' n [->|[p ->]] _ [IH1 IH2]]; simpl; [done| |done].
    rewrite Hlt, Het. done. }
  assert (Forall (task_ok b') (t :: l)) as Hts.
  { eapply tasks_keep; [apply (pi_tasks _ _ Hinv)|done|done| |].
    - intros i. rewrite Hget. case_decide; [by eauto|done].
    - intros k w' f' p' _ (fr1 & Hf1 & Hq1) Hp'. split; [|done]. destruct (decide (f' = f)) as [->|].
      + exists fr'. split; [done|]. congruence.
      + exists fr1. by rewrite Hget, decide_False. }
  apply Forall_cons in Hts as [Ht Hts].
  destruct (pi_loads _ _ Hinv) as [Hnl Hil], (pi_evicts _ _ Hinv) as [Hne Hie]. simpl in *. rewrite Hlt in *. rewrite Het in *.
  split_and!.
  - eapply (PInv_update b b' f w Hlc (pi_unique _ _ Hinv) (t :: l)); try done.
    + split; [done|]. rewrite Hq'. split_and!; try done. exists v'. split; [done|]. left.
      destruct Hm as (_ & Hfl & _ & _ & _). split_and!; try done; [|auto].
      exists e'. simpl. rewrite Har, lookup_insert_eq. by split_and!.
    + by rewrite (lc_length _ _ _ _ Hlc).
    + intros i Hi. rewrite npins_app, Hni by done. simpl. rewrite Hpt, decide_False by congruence.
      split_and!; [lia| |done|by rewrite Har, lookup_insert_ne].
      intros [?|?]%Exists_cons; [by destruct (Hut i)|]. apply Exists_app. by right.
    + apply (pi_free _ _ Hinv).
    + simpl. rewrite Hw. intros i [= <-]. done.
    + rewrite omap_app, Hln. done.
    + rewrite omap_app, Hen. done.
    + apply Forall_app. split; [|done]. eapply Forall_impl; [exact Hn|]. intros t' [->|[p ->]]; [done|]. simpl. eauto.
  - rewrite (view_held b' f fr' w (change_unique b b' f w Hlc (pi_unique _ _ Hinv)) Hf' Hq').
    by rewrite decide_False, Hv'.
  - intros q Hq0 Hqw. by apply (view_other b b' f w Hlc (pi_unique _ _ Hinv)).
Qed.

(** The page as it was. *)
Lemma view_pinned b ts w f fr v :
  PInv b ts → fget b f = Some fr → frame_page fr = Some w → frame_data fr = Some v → (w ∉ loading_ b) → view b w = v.
Proof.
  intros Hinv Hf Hq Hv Hl. rewrite (view_held b f fr w (pi_unique _ _ Hinv) Hf Hq).
  by rewrite decide_False, Hv.
Qed.
Lemma same_replacer b f w e :
  alive b !! f = Some (w, e) → rep_alive (replacer_ b) = <[f := (w, e)]> (alive b).
Proof. intros Ha. symmetry. by apply insert_id. Qed.

(** ** Releasing a pin *)

Lemma unpin_ok b t l w f :
  PInv b (t :: l) → page_table_ b !! w = Some f → (w ∉ loading_ b) →
  pins t = Some f → loads t = None → evicts t = None → (∀ g, ¬ unpins g t) →
  ∃ b', unpin f b = (Ok tt, b') ∧ PInv b' l ∧ ∀ q, 0 ≤ q → view b' q = view b q.
Proof.
  intros Hinv Hw Hl Hpt Hlt Het Hut.
  destruct (pinned_inv b t l w f Hinv Hw Hpt) as (fr & v & e & Hf & Hq & Hv & Hpin & H0 & Ha & Hcl).
  pose proof (npins_nonneg f l) as Hnn. unfold unpin. run (frame_at_ok b f fr Hf).
  rewrite bool_decide_true by lia. set (fr' := set_pin (pin_count_ fr - 1) fr). run (put_frame_ok f fr' b).
  set (b1 := with_frames _ b).
  assert (∃ r e', (if bool_decide (pin_count_ fr = 1) then on_replacer (rep_SetEvictable f true) else mret tt) b1 =
      (Ok tt, with_replacer r b1) ∧ rep_inv (size b) r ∧ rep_alive r = <[f := (w, e')]> (alive b) ∧
      (e' = true → npins f l = 0) ∧ (e' = false → npins f l = 0 → Exists (unpins f) l)) as (r & e' & E & Hr & Har & He1 & He2).
  { case_bool_decide as H1.
    - destruct (rep_SetEvictable_ok (size b) (replacer_ b) f w e true (pi_rep _ _ Hinv) Ha) as (r & E & Hr & Har).
      exists r, true. split_and!; try done; [by apply on_replacer_ok|lia].
    - exists (replacer_ b), false. split_and!; try done; [apply (pi_rep _ _ Hinv)| |lia].
      rewrite <-(pinned_flag b t l w f e Hinv Hw Hpt Ha). by apply same_replacer. }
  rewrite E. eexists. split; [done|].
  destruct (inplace_PInv b t [] l f w fr fr' v e' r (disk_ b)) as (HI & Hvw & Hvo); try done.
  { simpl. lia. }
  { apply (pi_disk _ _ Hinv). }
  { simpl. auto. }
  split.
  - by destruct b.
  - intros q Hq0. destruct (decide (q = w)) as [->|Hne]; [|by apply Hvo].
    rewrite (view_pinned b _ w f fr v Hinv Hf Hq Hv Hl). exact Hvw.
Qed.

Lemma guard_Drop_ok b k w f l :
  PInv b (TGuard k w f :: l) →
  ∃ g b', guard_Drop (mkGuard k w f true) b = (Ok g, b') ∧ PInv b' l ∧ ∀ q, 0 ≤ q → view b' q = view b q.
Proof.
  intros Hinv. pose proof (pi_tasks _ _ Hinv) as Hts. apply Forall_cons in Hts as [[Hw Hl] _].
  destruct (unpin_ok b (TGuard k w f) l w f) as (b' & E & HI & HV); try done; [by intros g [p ?]|].
  eexists _, b'. unfold guard_Drop. simpl. run E. done.
Qed.

(** ** Reading and writing through a guard *)

Lemma guard_GetData_ok b k w f l :
  PInv b (TGuard k w f :: l) → guard_GetData (mkGuard k w f true) b = (Ok (view b w), b).
Proof.
  intros Hinv. pose proof (pi_tasks _ _ Hinv) as Hts. apply Forall_cons in Hts as [[Hw Hl] _].
  destruct (pinned_inv b _ l w f Hinv Hw eq_refl) as (fr & v & e & Hf & Hq & Hv & _).
  unfold guard_GetData. simpl. run (frame_at_ok b f fr Hf). rewrite Hv.
  by rewrite (view_pinned b _ w f fr v Hinv Hf Hq Hv Hl).
Qed.

Lemma guard_update_ok b w f g l :
  PInv b (TGuard Write w f :: l) →
  ∃ b', guard_update (mkGuard Write w f true) g b = (Ok tt, b') ∧ PInv b' (TGuard Write w f :: l) ∧
    ∀ q, 0 ≤ q → view b' q = if decide (q = w) then g (view b q) else view b q.
Proof.
  intros Hinv. pose proof (pi_tasks _ _ Hinv) as Hts. apply Forall_cons in Hts as [[Hw Hl] _].
  destruct (pinned_inv b _ l w f Hinv Hw eq_refl) as (fr & v & e & Hf & Hq & Hv & Hpin & H0 & Ha & _).
  unfold guard_update. simpl. run (frame_at_ok b f fr Hf). rewrite Hv, put_frame_ok. eexists. split; [done|].
  destruct (inplace_PInv b (TGuard Write w f) [TGuard Write w f] l f w fr (set_data (g v) true fr) (g v) e (replacer_ b) (disk_ b))
    as (HI & Hvw & Hvo); try done.
  { by intros u [p ?]. }
  { simpl. rewrite decide_True by done. lia. }
  { constructor; [by left|done]. }
  { apply (pi_rep _ _ Hinv). }
  { by apply same_replacer. }
  { by rewrite (pinned_flag b _ l w f e Hinv Hw eq_refl Ha). }
  { intros _ Hn. exfalso. simpl in Hn. rewrite decide_True in Hn by done. pose proof (npins_nonneg f l). lia. }
  { apply (pi_disk _ _ Hinv). }
  split; [by destruct b|]. intros q Hq0. case_decide as Hqw; [|by apply Hvo].
  subst q. rewrite (view_pinned b _ w f fr v Hinv Hf Hq Hv Hl). exact Hvw.
Qed.

(** ** Flushing *)

(** Writing a page back in place, when the write succeeds. *)
Lemma disk_write_ok b w fr v :
  dm_inv (disk_ b) → 0 ≤ w → frame_data fr = Some v →
  ∃ d, disk_write IoOk w fr b = (Ok true, with_disk d b) ∧ dm_inv d ∧ dm_page d w = v ∧
    ∀ q, 0 ≤ q → q ≠ w → dm_page d q = dm_page (disk_ b) q.
Proof.
  intros Hdi H0 Hv. destruct (dm_write_ok _ w v Hdi H0) as (d & E & Hdi' & Hd). exists d.
  unfold disk_write. rewrite Hv, E. split_and!; try done.
  - by rewrite Hd, decide_True.
  - intros q Hq Hne. by rewrite Hd, decide_False.
Qed.

Lemma guard_Flush_ok b w f l :
  PInv b (TGuard Write w f :: l) →
  ∃ b', guard_Flush IoOk (mkGuard Write w f true) b = (Ok tt, b') ∧ PInv b' (TGuard Write w f :: l) ∧
    ∀ q, 0 ≤ q → view b' q = view b q.
Proof.
  intros Hinv. pose proof (pi_tasks _ _ Hinv) as Hts. apply Forall_cons in Hts as [[Hw Hl] _].
  destruct (pinned_inv b _ l w f Hinv Hw eq_refl) as (fr & v & e & Hf & Hq & Hv & Hpin & H0 & Ha & _).
  unfold guard_Flush. simpl. run (frame_at_ok b f fr Hf). rewrite Hq.
  destruct (is_dirty_ fr) eqn:Hd; simpl; [|by exists b].
  destruct (disk_write_ok b w fr v (pi_disk _ _ Hinv) H0 Hv) as (d & E & Hdi & Hdw & Hdo). run E. rewrite put_frame_ok.
  eexists. split; [done|].
  destruct (inplace_PInv b (TGuard Write w f) [TGuard Write w f] l f w fr (clear_dirty fr) v e (replacer_ b) d)
    as (HI & Hvw & Hvo); try done.
  { by intros u [p ?]. }
  { simpl. rewrite decide_True by done. lia. }
  { constructor; [by left|done]. }
  { apply (pi_rep _ _ Hinv). }
  { by apply same_replacer. }
  { by rewrite (pinned_flag b _ l w f e Hinv Hw eq_refl Ha). }
  { intros _ Hn. exfalso. simpl in Hn. rewrite decide_True in Hn by done. pose proof (npins_nonneg f l). lia. }
  split; [by destruct b|]. intros q Hq0. destruct (decide (q = w)) as [->|Hqw]; [|by apply Hvo].
  rewrite (view_pinned b _ w f fr v Hinv Hf Hq Hv Hl). exact Hvw.
Qed.

(** The write of [FlushPage] and the release of its pin. *)
Lemma flush_io_ok b p f l :
  PInv b (TFlush p f :: l) →
  ∃ last_pin b', flush_io IoOk f b = (Ok last_pin, b') ∧
    PInv b' ((if (last_pin : bool) then [TUnpin p f] else []) ++ l) ∧ ∀ q, 0 ≤ q → view b' q = view b q.
Proof.
  intros Hinv. pose proof (pi_tasks _ _ Hinv) as Hts. apply Forall_cons in Hts as [[Hw Hl] _].
  destruct (pinned_inv b _ l p f Hinv Hw eq_refl) as (fr & v & e & Hf & Hq & Hv & Hpin & H0 & Ha & Hcl).
  pose proof (pinned_flag b _ l p f e Hinv Hw eq_refl Ha) as ->.
  pose proof (npins_nonneg f l) as Hnn. unfold flush_io. run (frame_at_ok b f fr Hf).
  set (fr1 := clear_dirty fr). set (fr2 := set_pin (pin_count_ fr - 1) fr1).
  assert (∃ d, (if is_dirty_ fr then match frame_page fr with
                | None => st_throw EUndefined
                | Some pid => _ ← disk_write IoOk pid fr; put_frame f (clear_dirty fr) end else mret tt) b =
      (Ok tt, with_frames (<[Z.to_nat f := fr1]> (frames_ b)) (with_disk d b)) ∧ dm_inv d ∧ dm_page d p = v ∧
      ∀ q, 0 ≤ q → q ≠ p → dm_page d q = dm_page (disk_ b) q) as (d & E & Hdi & Hdw & Hdo).
  { destruct (is_dirty_ fr) eqn:Hd.
    - destruct (disk_write_ok b p fr v (pi_disk _ _ Hinv) H0 Hv) as (d & E & ? & ? & ?). exists d. rewrite Hq. run E. done.
    - exists (disk_ b). split_and!; try done; [|apply (pi_disk _ _ Hinv)|symmetry; auto].
      assert (fr1 = fr) as ->. { unfold fr1, clear_dirty. rewrite <-Hd. by destruct fr. }
      rewrite list_insert_id; [by destruct b|]. unfold fget in Hf. by case_decide. }
  run E. set (b1 := with_frames _ _).
  assert (fget b1 f = Some fr1) as Hf1.
  { change (fget (with_frames (<[Z.to_nat f:=fr1]> (frames_ b)) b) f = Some fr1). by rewrite (fget_put _ _ _ _ _ Hf), decide_True. }
  run (frame_at_ok b1 f fr1 Hf1). simpl. rewrite bool_decide_true by lia. run (put_frame_ok f fr2 b1).
  eexists (bool_decide (pin_count_ fr = 1)), _. split; [done|].
  destruct (inplace_PInv b (TFlush p f) (if bool_decide (pin_count_ fr = 1) then [TUnpin p f] else []) l f p fr fr2 v false (replacer_ b) d)
    as (HI & Hvw & Hvo); try done.
  { by intros u [p' ?]. }
  { simpl. case_bool_decide; simpl; lia. }
  { case_bool_decide; [|done]. constructor; [right; by exists p|done]. }
  { apply (pi_rep _ _ Hinv). }
  { by apply same_replacer. }
  { intros _ Hn. case_bool_decide; [left; by exists p|]. simpl in Hn. lia. }
  assert (with_frames (<[Z.to_nat f:=fr2]> (frames_ b1)) b1 =
    with_replacer (replacer_ b) (with_frames (<[Z.to_nat f := fr2]> (frames_ b)) (with_disk d b))) as ->.
  { unfold b1, with_frames, with_replacer, with_disk. simpl. by rewrite list_insert_insert_eq. }
  split; [done|]. intros q Hq0. destruct (decide (q = p)) as [->|Hqw]; [|by apply Hvo].
  rewrite (view_pinned b _ p f fr v Hinv Hf Hq Hv Hl). exact Hvw.
Qed.

(** A [FlushPage] leaves: the flag of its frame has to be settled. *)
Lemma PInv_settle b p f l r :
  PInv b (TUnpin p f :: l) → rep_inv (size b) r → (∀ i, i ≠ f → rep_alive r !! i = alive b !! i) →
  (∀ q e, rep_alive r !! f = Some (q, e) → ∃ e0, alive b !! f = Some (q, e0) ∧ (e = true → npins f l = 0) ∧
    (e = false → npins f l = 0 → False)) →
  (rep_alive r !! f = None → alive b !! f = None) →
  PInv (with_replacer r b) l.
Proof.
  intros Hinv Hr Hother Hflag Hnone.
  assert (alive b !! f = None → rep_alive r !! f = None) as Hdead.
  { intros Ha. destruct (rep_alive r !! f) as [[q e]|] eqn:E; [|done]. destruct (Hflag q e eq_refl) as (e0 & ? & _). congruence. }
  pose proof (pi_tasks _ _ Hinv) as Hts. apply Forall_cons in Hts as [_ Hts].
  assert (∀ i fr, fget b i = Some fr → frame_ok (with_replacer r b) l i fr) as Hfr.
  { intros i fr Hi. destruct (pi_frames _ _ Hinv i fr Hi) as [Hpi Hok]. simpl in Hpi. split; [lia|].
    destruct (frame_page fr) as [q|].
    - destruct Hok as (? & ? & v & ? & Hok). split_and!; [done|done|]. exists v. split; [done|].
      unfold mapped_frame, detached_frame, evictable_flag in *. simpl in *.
      destruct Hok as [(? & ? & (e & Ha & ? & Hex) & ? & ?)|(? & ? & ? & ? & ? & Ha)]; [left|right].
      + split_and!; try done. destruct (decide (i = f)) as [->|Hne].
        * destruct (rep_alive r !! f) as [[q' e']|] eqn:E; [|by rewrite Hnone in Ha].
          destruct (Hflag q' e' eq_refl) as (e0 & Ha' & ? & Hx). assert (q' = q) as -> by congruence.
          exists e'. split_and!; try done. intros He Hn. by destruct (Hx He Hn).
        * rewrite (Hother i Hne). exists e. split_and!; try done. intros He Hn.
          apply Exists_cons in Hex as [[p' [= _ <-]]|]; done.
      + split_and!; try done. destruct (decide (i = f)) as [->|Hne]; [auto|by rewrite Hother].
    - destruct Hok as (? & ? & ? & Ha). split_and!; simpl in *; try done.
      destruct (decide (i = f)) as [->|Hne]; [auto|by rewrite Hother]. }
  destruct Hinv as [? ? ? ? ? ? ? Hal Hlo Hev _]. split; try done. intros i Hi. simpl in Hi.
  apply Hal. destruct (decide (i = f)) as [->|Hne]; [|by rewrite <-Hother].
  destruct Hi as [[q e] Hi]. destruct (Hflag q e Hi) as (e0 & -> & _). eauto.
Qed.

(** The last section of [FlushPage] either runs or throws without a change, because the frame was
    recycled in between. *)
Lemma flush_end_ok b p f l :
  PInv b (TUnpin p f :: l) →
  ∃ r b', flush_end f b = (r, b') ∧ PInv b' l ∧ (∀ q, 0 ≤ q → view b' q = view b q) ∧
    (r = Ok tt ∨ (r = Err (ERange "Frame ID not found") ∧ alive b !! f = None)).
Proof.
  intros Hinv. pose proof (pi_tasks _ _ Hinv) as Hts. apply Forall_cons in Hts as [[fr Hf] Hts].
  destruct (pi_frames _ _ Hinv f fr Hf) as [Hpin _]. simpl in Hpin.
  pose proof (λ r, PInv_settle b p f l r Hinv) as Hdone.
  unfold flush_end. run (frame_at_ok b f fr Hf). case_bool_decide as Hz.
  - destruct (alive b !! f) as [[q e]|] eqn:Ha.
    + destruct (rep_SetEvictable_ok (size b) (replacer_ b) f q e true (pi_rep _ _ Hinv) Ha) as (r & E & Hr & Har).
      rewrite (on_replacer_ok _ _ _ _ E). exists (Ok tt), (with_replacer r b). split_and!; [done| |done|by left].
      apply Hdone; [done| | |].
      * intros i Hi. by rewrite Har, lookup_insert_ne.
      * intros q' e'. rewrite Har, lookup_insert_eq. intros [= <- <-]. exists e. split_and!; [done|lia|done].
      * rewrite Har, lookup_insert_eq. done.
    + pose proof (rep_SetEvictable_missing (replacer_ b) f true Ha) as E.
      exists (Err (ERange "Frame ID not found")), b. unfold on_replacer. rewrite E.
      split_and!; [by destruct b| |done|by right].
      replace b with (with_replacer (replacer_ b) b) at 1 by (by destruct b).
      apply Hdone; [apply (pi_rep _ _ Hinv)|done| |done]. intros q e. congruence.
  - exists (Ok tt), b. split_and!; [done| |done|by left].
    replace b with (with_replacer (replacer_ b) b) at 1 by (by destruct b).
    apply Hdone; [apply (pi_rep _ _ Hinv)|done| |done]. intros q e Ha. exists e. split_and!; [done| |lia].
    intros ->. pose proof (alive_inv b _ Hinv f q true Ha) as Ht.
    destruct (evictable_inv b _ f q Hinv Ha) as (fr' & v & Hf' & _ & _ & Hp0 & _). congruence.
Qed.

(** ** Deletion *)

(** Changing what the disk holds for a page no frame holds. *)
Lemma PInv_disk b ts p d fp np :
  PInv b ts → (∀ i, ¬ holds b i p) → dm_inv d →
  (∀ q, 0 ≤ q → q ≠ p → dm_page d q = dm_page (disk_ b) q) →
  let b' := with_alloc fp np (with_disk d b) in
  PInv b' ts ∧ view b' p = dm_page d p ∧ ∀ q, 0 ≤ q → q ≠ p → view b' q = view b q.
Proof.
  intros Hinv Hun Hdi Hd b'. split_and!.
  - destruct Hinv as [? ? Hfr ? ? ? ? ? ? ? ?]. split; try done. intros i fr Hi. destruct (Hfr i fr Hi) as [? Hok].
    split; [done|]. destruct (frame_page fr) as [q|] eqn:Hq; [|done].
    destruct Hok as (? & ? & v & ? & [(? & ? & ? & Hcl & ?)|Hdet]); split_and!; try done; exists v; (split; [done|]).
    + left. split_and!; try done. simpl. rewrite Hd; [done|done|]. intros ->. apply (Hun i). by exists fr.
    + by right.
  - by apply (view_disk b').
  - intros q H0 Hne. unfold view. simpl. by rewrite Hd.
Qed.

(** The first section of [DeletePage]: the page is in no frame any more, or it is pinned and stays. *)
Lemma delete_ok b ts p :
  PInv b ts → quiet b ts p →
  ∃ gone b', delete_locked p b = (Ok gone, b') ∧ PInv b' ts ∧ (∀ q, 0 ≤ q → q ≠ p → view b' q = view b q) ∧
    (gone = true → page_table_ b' !! p = None) ∧ (gone = false → b' = b).
Proof.
  intros Hinv (Hfl & Hqt & _). unfold delete_locked. run (st_get_ok b).
  destruct (page_table_ b !! p) as [f|] eqn:Hp; [|by exists true, b].
  destruct (mapped_inv b ts Hinv p f Hp) as (fr & v & Hf & Hq & _ & Hpin & _ & _ & Hm).
  destruct Hm as (_ & _ & (e & Ha & He1 & He2) & _). run (checked_frame_ok b f fr Hf). case_bool_decide as Hpos.
  { by exists false, b. }
  pose proof (npins_nonneg f ts). assert (npins f ts = 0) as Hn by lia.
  assert (e = true) as ->.
  { destruct e; [done|]. exfalso. apply (Hqt f eq_refl). auto. }
  destruct (rep_Remove_ok (size b) (replacer_ b) f p (pi_rep _ _ Hinv) Ha) as (r & E & Hr & Har).
  destruct (recycle_PInv b ts f p fr r Hinv Ha Hf Hr Har) as (HI & Hun & HV).
  exists true, (recycled b f p fr r). split_and!; try done.
  - unfold recycle, mbind, ST_bind, put_frame, modify, on_replacer. simpl. by rewrite E.
  - intros _. simpl. apply lookup_delete_eq.
Qed.
(** The deallocation of a page no frame holds. *)
Lemma dealloc_ok b ts p :
  PInv b ts → 0 ≤ p → (∀ i, ¬ holds b i p) →
  ∃ b', pool_DeallocatePage IoOk p b = (Ok tt, b') ∧ PInv b' ts ∧
    ∀ q, 0 ≤ q → view b' q = if decide (q = p) then dm_zero else view b q.
Proof.
  intros Hinv H0 Hun. destruct (dm_delete_ok (disk_ b) p (pi_disk _ _ Hinv) H0) as [Hdi Hd].
  destruct (PInv_disk b ts p (dm_DeletePage IoOk p (disk_ b)) (free_pages_ b) (next_page_id_ b) Hinv Hun Hdi) as (HI & Hv1 & Hv2).
  { intros q Hq Hne. by rewrite Hd, decide_False. }
  eexists. split; [done|]. split; [done|]. intros q Hq. case_decide as Hqp; [subst q|by apply Hv2].
  etransitivity; [exact Hv1|]. by rewrite Hd, decide_True.
Qed.
(** The allocator's fields are nothing to the invariant. *)
Lemma PInv_alloc b ts fp np :
  PInv b ts → PInv (with_alloc fp np b) ts ∧ ∀ q, view (with_alloc fp np b) q = view b q.
Proof. intros []. done. Qed.
End guards.

(** * The buffer pool implements a page store

    [step_ok]: under any interleaving every disciplined step keeps [PInv] and changes the page store
    exactly as its label says.  [exec] runs of the machine therefore refine [store_trace], runs of a
    plain map from page ids to pages ([exec_ok]); a thread alone gets its page in at most two turns
    of the loop of [CheckedPage] ([CheckedPage_ok]). *)

Section refinement.
Context {D P R : Type} `{!DiskManager D P, !Replacer R, !DiskLaws D P, !ReplacerLaws R}.
#[local] Abbreviation Pool := (BufferPool D P R).
#[local] Abbreviation Machine := (PoolMachine D P R).
Implicit Types (b : Pool) (m : Machine) (t : task) (l ts : list task) (p q w f i : Z) (s : Z → P).

(** ** The section of an access *)

Lemma waits_false w b : waits w b = false → (w ∉ loading_ b) ∧ (w ∉ flushing_ b).
Proof. unfold waits. intros H%bool_decide_eq_false. tauto. Qed.

Lemma access_section_ok b k w l :
  PInv b l → 0 ≤ w → waits w b = false →
  ∃ ts b', access_section k w b = (Ok ts, b') ∧ PInv b' (ts ++ l) ∧ (∀ q, 0 ≤ q → view b' q = view b q) ∧
    ∀ q, w ≠ q → page_table_ b !! q = None → Forall (aside q) ts.
Proof.
  intros Hinv H0 [Hl Hfl]%waits_false. unfold access_section, aside.
  destruct (page_table_ b !! w) as [f|] eqn:Hw.
  { destruct (fetch_hit_ok b k w f l Hinv Hw Hl) as (b' & E & HI & HV). run E. exists [TLatch k w f], b'.
    split_and!; try done. intros. by repeat constructor. }
  destruct (last (free_frames_ b)) as [f|] eqn:Hf.
  { destruct (fetch_load_ok b k w f l Hinv Hw Hl Hfl H0 Hf) as (b' & E & HI & HV). run E. exists [TLoad k w f], b'.
    split_and!; try done. intros. by repeat constructor. }
  assert (fetch_locked w b = (Ok FNoFrame, b)) as E by (unfold fetch_locked; run (st_get_ok b); by rewrite Hw, Hf).
  run E. destruct (evict_start_ok b k w l Hinv H0) as (v & b' & E' & HI & HV & _ & _ & _ & _ & Hv). run E'.
  exists (victim_tasks k w v), b'. split_and!; [by destruct v|done|done|].
  intros q Hne Hq. destruct v as [| |f p]; repeat constructor; simpl; try congruence.
  intros [= ->]. specialize (Hv f q eq_refl). congruence.
Qed.

Ltac finish_step := unfold mret, ST_ret in *; simplify_eq/=; split_and!; [done|done|left; eauto].

(** ** Pages being deleted *)

(** [m] does not bring page [q] into the page table. *)
Definition keeps_out {A} (q : Z) (m : ST Pool A) : Prop :=
  ∀ b r b', m b = (r, b') → page_table_ b !! q = None → page_table_ b' !! q = None.

Lemma keeps_bind {A B} q (m : ST Pool A) (k : A → ST Pool B) :
  keeps_out q m → (∀ a, keeps_out q (k a)) → keeps_out q (m ≫= k).
Proof.
  intros Hm Hk b r b'. unfold mbind, ST_bind. destruct (m b) as [[a|e] b1] eqn:E; intros Hr Hq.
  - eapply Hk; [exact Hr|]. by eapply Hm.
  - simplify_eq. by eapply Hm.
Qed.
Lemma keeps_ret {A} q (a : A) : keeps_out q (mret a).
Proof. by intros b r b' [= <- <-]. Qed.
Lemma keeps_throw {A} q e : keeps_out (A:=A) q (st_throw e).
Proof. by intros b r b' [= <- <-]. Qed.
Lemma keeps_get q : keeps_out q st_get.
Proof. by intros b r b' [= <- <-]. Qed.
Lemma keeps_modify q (g : Pool → Pool) :
  (∀ b, page_table_ b !! q = None → page_table_ (g b) !! q = None) → keeps_out q (modify g).
Proof. intros Hg b r b' [= <- <-]. apply Hg. Qed.
Lemma keeps_put q f fr : keeps_out q (put_frame f fr).
Proof. by apply keeps_modify. Qed.
Lemma keeps_replacer {A} q (m : ST R A) : keeps_out q (on_replacer m).
Proof. intros b r b'. unfold on_replacer. destruct (m _). by intros [= <- <-]. Qed.
Lemma keeps_frame_at q f : keeps_out q (frame_at f).
Proof. intros b r b'. unfold frame_at. destruct (if bool_decide _ then _ else _); by intros [= <- <-]. Qed.
Lemma keeps_write q o p fr : keeps_out q (disk_write o p fr).
Proof. intros b r b'. unfold disk_write. destruct (frame_data fr); [destruct (dm_WritePage _ _ _ _)|]; by intros [= <- <-]. Qed.
Lemma keeps_read q o p fr : keeps_out q (disk_read o p fr).
Proof. intros b r b'. unfold disk_read. destruct (frame_data fr); by intros [= <- <-]. Qed.

Ltac keeps_table :=
  match goal with
  | H : _ ≠ _ |- <[_ := _]> _ !! _ = None => by rewrite lookup_insert_ne by congruence
  | |- delete _ _ !! _ = None => apply lookup_delete_None; by right
  | _ => done
  end.
Ltac keeps_out :=
  repeat match goal with
  | |- keeps_out _ (modify _) => apply keeps_modify; intros ? ?; simpl; keeps_table
  | |- keeps_out _ (mret _) => apply keeps_ret
  | |- keeps_out _ (st_throw _) => apply keeps_throw
  | |- keeps_out _ invalid_guard => apply keeps_throw
  | |- keeps_out _ st_get => apply keeps_get
  | |- keeps_out _ (put_frame _ _) => apply keeps_put
  | |- keeps_out _ (on_replacer _) => apply keeps_replacer
  | |- keeps_out _ (frame_at _) => apply keeps_frame_at
  | |- keeps_out _ (disk_write _ _ _) => apply keeps_write
  | |- keeps_out _ (disk_read _ _ _) => apply keeps_read
  | |- keeps_out _ (_ ≫= _) => apply keeps_bind; [|intros ?]
  | |- keeps_out _ (match ?x with _ => _ end) => destruct x
  end.

Lemma keeps_fetch q w : w ≠ q → keeps_out q (fetch_locked w).
Proof. intros Hne. unfold fetch_locked, pin_frame. keeps_out. Qed.
Lemma keeps_evict_start q : keeps_out q evict_start.
Proof. unfold evict_start, checked_frame, recycle. keeps_out. Qed.
Lemma keeps_evict_io q o f p : p ≠ q → keeps_out q (evict_io o f p).
Proof. intros Hne. unfold evict_io, write_back, evict_finish, recycle. keeps_out. Qed.
Lemma keeps_delete q p : keeps_out q (delete_locked p).
Proof. unfold delete_locked, checked_frame, recycle. keeps_out. Qed.
Lemma keeps_flush_start q p : keeps_out q (flush_start p).
Proof. unfold flush_start, checked_frame. keeps_out. Qed.
Lemma keeps_access q k w : w ≠ q → keeps_out q (access_section k w).
Proof.
  intros Hne. unfold access_section. apply keeps_bind; [by apply keeps_fetch|]. intros r. keeps_out; apply keeps_evict_start.
Qed.

Lemma task_run_keeps q lb t mm :
  task_run lb t = Some mm → wants t ≠ Some q → evicts t ≠ Some q → keeps_out q mm.
Proof.
  intros Hrun Hw He. destruct lb, t; simplify_eq/=; repeat case_match; simplify_eq/=;
    unfold load_page, unpin, guard_update, guard_Flush, guard_Drop, flush_io, flush_end, unpin, pool_DeallocatePage, reclaim_id; simpl.
  all: try by keeps_out.
  - apply keeps_access. congruence.
  - apply keeps_bind; [|intros; apply keeps_ret]. apply keeps_evict_io. congruence.
Qed.

(** The activities a step leads to look for no page the activity did not, and write back only pages that
    were mapped; none is a deletion at its start. *)
Lemma task_run_new b t l lb mm ts b' rest q :
  PInv b (t :: l) → task_run lb t = Some mm → enabled lb t b rest = true → mm b = (Ok ts, b') →
  page_table_ b !! q = None → aside q t → Forall (aside q) ts.
Proof.
  intros Hinv Hrun Hen Hmm Hq [Hw He].
  assert (lb = LSection ∨ ∀ t', t' ∈ ts → t' = t ∨ (wants t' = wants t ∨ wants t' = None) ∧ evicts t' = None) as [->|Ht].
  { destruct lb, t; simplify_eq/=; auto; right; repeat case_match; simplify_eq/=; unfold mbind, ST_bind, mret, ST_ret in Hmm;
      repeat case_match; simplify_eq/=; intros t' Hin; set_solver. }
  - destruct t; simplify_eq/=. apply negb_true_iff in Hen. pose proof (pi_tasks _ _ Hinv) as Hts.
    apply Forall_cons in Hts as [H0 _]. simpl in H0. apply PInv_inert in Hinv; [|done].
    destruct (access_section_ok b k w l Hinv H0 Hen) as (ts' & b1 & E & _ & _ & Hnew). rewrite E in Hmm. simplify_eq.
    apply Hnew; [congruence|done].
  - apply Forall_forall. intros t' [->|[[E1|E1] E2]]%Ht; [done|unfold aside; by rewrite E1, E2..].
Qed.
Lemma task_run_no_dealloc b t lb mm ts b' q : task_run lb t = Some mm → mm b = (Ok ts, b') → TDealloc q ∉ ts.
Proof.
  intros Hrun Hmm. destruct lb, t; simplify_eq/=; repeat case_match; simplify_eq/=;
    unfold access_section, mbind, ST_bind, mret, ST_ret in Hmm; repeat case_match; simplify_eq/=; set_solver.
Qed.

Lemma DInv_task b t l lb mm r b' rest :
  PInv b (t :: l) → DInv b (t :: l) → task_run lb t = Some mm → enabled lb t b rest = true → mm b = (r, b') →
  DInv b' (tasks_after r ++ l).
Proof.
  intros Hinv HD Hrun Hen Hmm p Hp.
  assert (TDealloc p ∈ l) as Hl.
  { apply elem_of_app in Hp as [Hp|]; [|done]. destruct r as [ts|]; [|by apply elem_of_nil in Hp].
    by destruct (task_run_no_dealloc b t lb mm ts b' p Hrun Hmm). }
  destruct (HD p) as (H0 & Ht & [[Hw He] Hall]%Forall_cons); [by right|]. split_and!; [done| |].
  - by eapply task_run_keeps.
  - apply Forall_app. split; [|done]. destruct r as [ts|]; [|constructor]. by eapply task_run_new.
Qed.
Lemma DInv_unheld b ts p : PInv b ts → DInv b ts → TDealloc p ∈ ts → ∀ i, ¬ holds b i p.
Proof.
  intros Hinv HD Hp i. destruct (HD p Hp) as (_ & Ht & Hall). apply (unheld b ts Hinv); [done|].
  intros (t & Hin & He)%(proj2 (pi_evicts _ _ Hinv))%list_elem_of_omap. rewrite Forall_forall in Hall.
  by apply (Hall t Hin).
Qed.
Lemma DInv_perm b ts ts' : ts ≡ₚ ts' → DInv b ts → DInv b ts'.
Proof. intros Hp HD p Hin. destruct (HD p) as (? & ? & ?); [by rewrite Hp|]. split_and!; [done..|]. by rewrite <-Hp. Qed.
Lemma DInv_cons b t ts :
  DInv b ts → (∀ p, t ≠ TDealloc p) → (∀ p, TDealloc p ∈ ts → aside p t) → DInv b (t :: ts).
Proof.
  intros HD Hn Ha p [Hp|Hp]%elem_of_cons; [by destruct (Hn p)|]. destruct (HD p Hp) as (? & ? & ?). split_and!; try done.
  constructor; auto.
Qed.

(** ** One step *)

(** Every step of an activity, with the activity at the head of the list. *)
Lemma task_run_ok b t l lb mm r b' rest :
  PInv b (t :: l) → DInv b (t :: l) → task_run lb t = Some mm → enabled lb t b rest = true → mm b = (r, b') →
  disciplined (mkMachine b (t :: l)) lb →
  PInv b' (tasks_after r ++ l) ∧
  (∀ q, 0 ≤ q → view b' q = if decide (t = TDealloc q) then dm_zero else effect lb (view b) q) ∧
  ((∃ ts, r = Ok ts) ∨ (lb = LFlushEnd ∧ r = Err (ERange "Frame ID not found"))).
Proof.
  intros Hinv HD Hrun Hen Hmm Hdis. destruct lb, t; simplify_eq/=.
  - apply negb_true_iff in Hen. pose proof (pi_tasks _ _ Hinv) as Hts. apply Forall_cons in Hts as [H0 _]. simpl in H0.
    apply PInv_inert in Hinv; [|done]. destruct (access_section_ok b k w l Hinv H0 Hen) as (ts & b1 & E & HI & HV & _).
    rewrite E in Hmm. finish_step.
  - destruct (evict_io_ok b o k w f p l Hinv Hdis) as (ok & b1 & E & HI & HV & _).
    rewrite (ST_bind_ok _ _ _ _ _ E) in Hmm. finish_step.
  - destruct (load_page_ok b k w f l Hinv) as (b1 & E & HI & HV).
    rewrite (ST_bind_ok _ _ _ _ _ E) in Hmm. finish_step.
  - unfold mret, ST_ret in Hmm. simplify_eq/=. split_and!; [|done|left; eauto]. eapply PInv_retask; [exact Hinv|done..| |].
    + by intros g [? ?].
    + pose proof (pi_tasks _ _ Hinv) as Hts. by apply Forall_cons in Hts as [? _].
  - destruct k; [done|]. simplify_eq. pose proof (pi_tasks _ _ Hinv) as Hts. apply Forall_cons in Hts as [[Hw Hl] _].
    destruct (unpin_ok b (TLatch Write w f) l w f) as (b1 & E & HI & HV); try done; [by intros g [? ?]|].
    rewrite (ST_bind_ok _ _ _ _ _ E) in Hmm. finish_step.
  - destruct k; [done|]. case_decide; [|done]. simplify_eq.
    destruct (guard_update_ok b w0 f g l Hinv) as (b1 & E & HI & HV).
    rewrite (ST_bind_ok _ _ _ _ _ E) in Hmm. finish_step.
  - destruct k; [done|]. simplify_eq. destruct (guard_Flush_ok b w f l Hinv) as (b1 & E & HI & HV).
    rewrite (ST_bind_ok _ _ _ _ _ E) in Hmm. finish_step.
  - destruct (guard_Drop_ok b k w f l Hinv) as (g & b1 & E & HI & HV).
    rewrite (ST_bind_ok _ _ _ _ _ E) in Hmm. finish_step.
  - destruct (flush_io_ok b p f l Hinv) as (lp & b1 & E & HI & HV).
    rewrite (ST_bind_ok _ _ _ _ _ E) in Hmm. finish_step.
  - destruct (flush_end_ok b p f l Hinv) as (r0 & b1 & E & HI & HV & [->|[-> _]]).
    + rewrite (ST_bind_ok _ _ _ _ _ E) in Hmm. finish_step.
    + unfold mbind, ST_bind in Hmm. rewrite E in Hmm. simplify_eq/=. split_and!; [done|done|by right].
  - assert (TDealloc p ∈ TDealloc p :: l) as Hin by left.
    destruct (dealloc_ok b _ p Hinv) as (b1 & E & HI & HV); [by apply (HD p)|by eapply DInv_unheld|].
    rewrite (ST_bind_ok _ _ _ _ _ E) in Hmm. unfold mret, ST_ret in Hmm. simplify_eq/=. split_and!; [|..|left; eauto].
    + apply PInv_idle; [done|]. by apply (PInv_idle _ (TDealloc p)).
    + intros q Hq. rewrite HV by done. destruct (decide (q = p)) as [->|Hne]; [by rewrite decide_True|].
      rewrite decide_False by congruence. done.
  - unfold reclaim_id, mbind, ST_bind, modify, mret, ST_ret in Hmm. simplify_eq/=.
    apply PInv_idle in Hinv; [|done]. destruct (PInv_alloc b l (free_pages_ b ++ [p]) (next_page_id_ b) Hinv).
    split_and!; [done|done|left; eauto].
Qed.

Definition outcome_ok (lb : label P) (e : option error) : Prop :=
  e = None ∨ (lb = LFlushEnd ∧ e = Some (ERange "Frame ID not found")).

Lemma effect_at lb s s' q : s q = s' q → effect lb s q = effect lb s' q.
Proof. intros E. destruct lb; simpl; try done; repeat case_match; congruence. Qed.

(** A step of an activity, on the page store of the machine. *)
Lemma task_contents b t l lb mm r b' q :
  PInv b (t :: l) → DInv b (t :: l) → task_run lb t = Some mm → mm b = (r, b') →
  view b' q = (if decide (t = TDealloc q) then dm_zero else effect lb (view b) q) →
  contents (mkMachine b' (tasks_after r ++ l)) q = effect lb (contents (mkMachine b (t :: l))) q.
Proof.
  intros Hinv HD Hrun Hmm HV.
  assert (TDealloc q ∉ tasks_after r) as Hno.
  { destruct r; [by eapply task_run_no_dealloc|apply not_elem_of_nil]. }
  assert (TDealloc q ∈ t :: l → effect lb (λ _, dm_zero) q = dm_zero) as Heff.
  { clear HV Hmm. intros Hin. destruct lb; try done; simpl. destruct (decide (q = w)) as [<-|]; [|done].
    destruct t as [| | | |[] w' f| | | |]; simplify_eq/=. case_decide; [subst w'|done].
    destruct (HD q Hin) as (_ & Ht & _). pose proof (pi_tasks _ _ Hinv) as Hts. apply Forall_cons in Hts as [[Hm _] _]. congruence. }
  unfold contents at 1. simpl. destruct (decide (TDealloc q ∈ tasks_after r ++ l)) as [Hin|Hout].
  - assert (TDealloc q ∈ t :: l) as Hl by set_solver. rewrite <-(Heff Hl) at 1. apply effect_at.
    unfold contents. simpl. by rewrite decide_True.
  - rewrite HV. case_decide as Ht.
    + rewrite <-(Heff ltac:(set_solver)) at 1. apply effect_at. unfold contents. simpl. rewrite decide_True; [done|set_solver].
    + apply effect_at. unfold contents. simpl. rewrite decide_False; [done|set_solver].
Qed.
Lemma contents_perm b ts ts' q : ts ≡ₚ ts' → contents (mkMachine b ts) q = contents (mkMachine b ts') q.
Proof. intros Hp. unfold contents. simpl. by rewrite (decide_ext _ (TDealloc q ∈ ts')) by (by rewrite Hp). Qed.
(** A new activity that is no deletion, and a step that leaves every page as it is. *)
Lemma contents_same b b' ts ts' q :
  view b' q = view b q → (TDealloc q ∈ ts' ↔ TDealloc q ∈ ts) → contents (mkMachine b' ts') q = contents (mkMachine b ts) q.
Proof. intros HV Hts. unfold contents. simpl. by rewrite (decide_ext _ _ _ _ Hts), HV. Qed.

(** The start of a deletion. *)
Lemma step_delete_ok b b' ts p r :
  PInv b ts → DInv b ts → 0 ≤ p → quiet b ts p → delete_locked p b = (r, b') →
  let ts' := ts ++ match r with Ok true => [TDealloc p] | _ => [] end in
  PInv b' ts' ∧ DInv b' ts' ∧ (∃ gone, r = Ok gone) ∧
  ∀ q, 0 ≤ q → contents (mkMachine b' ts') q = effect (LDelete p (bool_decide (r = Ok true))) (contents (mkMachine b ts)) q.
Proof.
  intros Hinv HD H0 Hq Hd. destruct (delete_ok b ts p Hinv Hq) as (gone & b1 & E & HI & HV & Hgone & Hstay).
  rewrite E in Hd. injection Hd as <- <-. destruct gone; simpl.
  2:{ rewrite (Hstay eq_refl), app_nil_r. split_and!; eauto. }
  specialize (Hgone eq_refl). split_and!; [| |by eauto|].
  - apply (PInv_perm b1 (TDealloc p :: ts)); [by rewrite Permutation_app_comm|]. by apply PInv_idle.
  - apply (DInv_perm b1 (TDealloc p :: ts)); [by rewrite Permutation_app_comm|].
    destruct Hq as (Hfl & _ & Hw). intros p' Hp'. destruct (decide (p' = p)) as [->|Hne].
    + split_and!; [done..|]. constructor; [done|]. rewrite Forall_forall in Hw |- *. intros t Ht. split; [by apply Hw|].
      intros He. apply Hfl, (pi_evicts _ _ Hinv), list_elem_of_omap. eauto.
    + destruct (HD p') as (? & ? & ?); [set_solver|]. split_and!; [done| |by constructor]. by eapply keeps_delete.
  - intros q Hq0. unfold contents at 1. simpl. destruct (decide (q = p)) as [->|Hne].
    + rewrite decide_True; [done|set_solver].
    + rewrite <-(contents_same b b1 ts (ts ++ [TDealloc p]) q); [done|by apply HV|set_solver].
Qed.

Lemma step_ok m lb e m' :
  PInv (m_pool m) (m_tasks m) → DInv (m_pool m) (m_tasks m) → step m lb e m' → disciplined m lb →
  PInv (m_pool m') (m_tasks m') ∧ DInv (m_pool m') (m_tasks m') ∧
  (∀ q, 0 ≤ q → contents m' q = effect lb (contents m) q) ∧ outcome_ok lb e ∧
  ∀ w v, lb = LRead w v → 0 ≤ w ∧ v = contents m w.
Proof.
  intros Hinv HD Hstep Hdis. destruct Hstep as [b ts k w H0|b b' l1 t l2 lb mm r Hrun Hen Hmm|b l1 k w f l2 v Hg
    |b b' ts p r Hl Hf|b b' ts p r Hd|b b' ts p Hn]; simpl in *.
  - assert (TFetch k w :: ts ≡ₚ ts ++ [TFetch k w]) as Hp by (by rewrite Permutation_app_comm). split_and!; [..|by left|done].
    + apply (PInv_perm b _ _ Hp). by apply PInv_inert.
    + apply (DInv_perm b _ _ Hp), DInv_cons; [done|done|]. intros p Hin. split; [|done]. simpl. congruence.
    + intros q _. apply contents_same; [done|set_solver].
  - assert (l1 ++ t :: l2 ≡ₚ t :: l1 ++ l2) as Hp by (by rewrite Permutation_middle).
    assert (tasks_after r ++ l1 ++ l2 ≡ₚ l1 ++ tasks_after r ++ l2) as Hp' by (by rewrite !app_assoc, (Permutation_app_comm l1)).
    apply (PInv_perm _ _ _ Hp) in Hinv. apply (DInv_perm _ _ _ Hp) in HD.
    assert (disciplined (mkMachine b (t :: l1 ++ l2)) lb) as Hdis' by (by destruct lb, t).
    destruct (task_run_ok b t (l1 ++ l2) lb mm r b' (l1 ++ l2) Hinv HD Hrun Hen Hmm Hdis') as (HI & HV & Hr).
    split_and!.
    + by eapply PInv_perm.
    + eapply DInv_perm; [exact Hp'|]. by eapply DInv_task.
    + intros q Hq. rewrite <-(contents_perm b' _ _ q Hp'), (task_contents b t (l1 ++ l2) lb mm r b' q) by auto.
      apply effect_at. symmetry. by apply contents_perm.
    + destruct Hr as [[ts ->]|[-> ->]]; [by left|by right].
    + intros w v ->. by destruct t.
  - split_and!; [done|done|done|by left|]. intros w' v' [= <- <-].
    apply (PInv_perm _ _ (TGuard k w f :: l1 ++ l2)) in Hinv; [|by rewrite Permutation_middle].
    rewrite (guard_GetData_ok b k w f _ Hinv) in Hg. injection Hg as <-.
    pose proof (pi_tasks _ _ Hinv) as Hts. apply Forall_cons in Hts as [[Hw _] _].
    split; [by destruct (mapped_inv b _ Hinv w f Hw) as (_ & _ & _ & _ & _ & _ & _ & ? & _)|].
    unfold contents. simpl. rewrite decide_False; [done|]. intros Hin. destruct (HD w Hin) as (_ & ? & _). congruence.
  - destruct (flush_start_ok b p ts Hinv Hl) as (f & b1 & E & HI & HV). rewrite E in Hf. injection Hf as <- <-.
    assert (∀ t, t ∈ ts → t ∈ ts ++ match f with Some f => [TFlush p f] | None => [] end) as Hsub by set_solver.
    assert (match f with Some f => [TFlush p f] | None => [] end ++ ts ≡ₚ ts ++ match f with Some f => [TFlush p f] | None => [] end)
      as Hp by (by rewrite Permutation_app_comm).
    assert (∀ q, TDealloc q ∈ ts ++ match f with Some f => [TFlush p f] | None => [] end ↔ TDealloc q ∈ ts) as Hin
      by (intros q; destruct f; set_solver).
    split_and!; [by eapply PInv_perm| | |by left|done].
    + apply (DInv_perm b1 _ _ Hp). assert (DInv b1 ts) as HD1.
      { intros q Hq. destruct (HD q Hq) as (? & ? & ?). split_and!; try done. by eapply keeps_flush_start. }
      destruct f; [|done]. by apply DInv_cons.
    + intros q Hq. apply contents_same; [by apply HV|apply Hin].
  - destruct Hdis as [H0 Hq]. destruct (step_delete_ok b b' ts p r Hinv HD H0 Hq Hd) as (HI & HD' & [gone ->] & HV).
    split_and!; try done. by left.
  - unfold pool_NewPage in Hn. destruct (last (free_pages_ b)); injection Hn as <- <-;
      destruct (PInv_alloc b ts (free_pages_ b) (next_page_id_ b + 1) Hinv); (split_and!; [|done|done|by left|done]); by destruct Hinv.
Qed.

(** ** Runs *)

Inductive exec : Machine → list (label P * option error) → Machine → Prop :=
  | exec_nil m : exec m [] m
  | exec_cons m1 m2 m3 lb e ls :
      disciplined m1 lb → step m1 lb e m2 → exec m2 ls m3 → exec m1 ((lb, e) :: ls) m3.

(** The same run on a plain map from page ids to pages. *)
Inductive store_trace : (Z → P) → list (label P) → (Z → P) → Prop :=
  | store_nil s s' : (∀ q, 0 ≤ q → s' q = s q) → store_trace s [] s'
  | store_cons s lb ls s' :
      (∀ w v, lb = LRead w v → v = s w) → store_trace (effect lb s) ls s' → store_trace s (lb :: ls) s'.

Lemma store_trace_ext s1 s2 ls s' :
  (∀ q, 0 ≤ q → s1 q = s2 q) → Forall (λ lb, ∀ w v, lb = LRead w v → 0 ≤ w) ls →
  store_trace s1 ls s' → store_trace s2 ls s'.
Proof.
  intros Heq Hls Ht. revert s2 Heq. induction Ht as [s s' Hs|s lb ls s' Hr Ht IH]; intros s2 Heq.
  - constructor. intros q Hq. rewrite Hs by done. by apply Heq.
  - apply Forall_cons in Hls as [Hlb Hls]. constructor.
    + intros w v Hw. rewrite (Hr w v Hw). apply Heq. by eapply Hlb.
    + apply IH; [done|]. intros q Hq. apply effect_at. by apply Heq.
Qed.

Lemma exec_ok m ls m' :
  PInv (m_pool m) (m_tasks m) → DInv (m_pool m) (m_tasks m) → exec m ls m' →
  PInv (m_pool m') (m_tasks m') ∧ DInv (m_pool m') (m_tasks m') ∧ store_trace (contents m) ls.*1 (contents m') ∧
  Forall (λ le, outcome_ok le.1 le.2) ls ∧ Forall (λ lb, ∀ w v, lb = LRead w v → 0 ≤ w) ls.*1.
Proof.
  intros Hinv HD Hex. induction Hex as [m|m1 m2 m3 lb e ls Hdis Hst Hex IH]; simpl.
  { split_and!; try done. by constructor. }
  destruct (step_ok m1 lb e m2 Hinv HD Hst Hdis) as (HI & HD2 & HV & Ho & Hr).
  destruct (IH HI HD2) as (HI3 & HD3 & Ht & Ho3 & Hw).
  split_and!; [done|done| |by constructor|constructor; [|done]].
  - constructor; [intros w v Hlb; by apply Hr|]. eapply store_trace_ext; [|done|exact Ht]. exact HV.
  - intros w v Hlb. by apply (Hr w v).
Qed.

(** ** The start *)

Lemma new_pool_ok (n : nat) (d : D) (next : Z) :
  dm_inv d → PInv (new_BufferPoolManager n d next) [] ∧
  ∀ q, view (new_BufferPoolManager n d next) q = dm_page d q.
Proof.
  intros Hd. set (b := new_BufferPoolManager n d next). destruct (rep_new_ok (Z.of_nat n)) as [Hr Ha]; [lia|].
  assert (∀ i fr, fget b i = Some fr → fr = mkFrame 0 false None None ∧ 0 ≤ i < Z.of_nat n) as Hget.
  { intros i fr Hi. pose proof (fget_lt _ _ _ Hi) as Hlt. simpl in Hlt. rewrite length_replicate in Hlt.
    unfold fget in Hi. case_decide; [|done]. simpl in Hi. apply lookup_replicate in Hi as [-> ?]. done. }
  assert (∀ i q, ¬ holds b i q) as Hun by (intros i q (fr & [-> _]%Hget & Hq); done).
  split; [|intros q; by apply (view_disk b)].
  split; simpl; try done.
  - by rewrite length_replicate.
  - intros i fr [-> Hlt]%Hget. split; [done|]. split_and!; simpl; try done.
    + apply elem_of_seqZ. lia.
    + by rewrite Ha.
  - intros i j q Hi. by destruct (Hun i q).
  - apply NoDup_seqZ.
  - intros i Hi%elem_of_seqZ. exists (mkFrame 0 false None None). split; [|done]. unfold fget. rewrite decide_True by lia.
    simpl. apply lookup_replicate. split; [done|lia].
  - intros i. rewrite Ha, lookup_empty. by intros [].
  - split; [constructor|]. intros q. split; [set_solver|by intros ?%elem_of_nil].
  - split; [constructor|]. intros q. split; [set_solver|by intros ?%elem_of_nil].
Qed.

(** Every run from a new pool. *)
Lemma run_ok (n : nat) (d : D) (next : Z) ls m :
  dm_inv d → exec (mkMachine (new_BufferPoolManager n d next) []) ls m →
  PInv (m_pool m) (m_tasks m) ∧ DInv (m_pool m) (m_tasks m) ∧ store_trace (dm_page d) ls.*1 (contents m) ∧
  Forall (λ le, outcome_ok le.1 le.2) ls.
Proof.
  intros Hd Hex. destruct (new_pool_ok n d next Hd) as [HI HV].
  destruct (exec_ok (mkMachine (new_BufferPoolManager n d next) []) ls m HI) as (HI' & HD' & Ht & Ho & Hw); [|done|].
  { by intros p []%elem_of_nil. }
  split_and!; try done. eapply store_trace_ext; [|exact Hw|exact Ht]. intros q _. unfold contents. simpl. apply HV.
Qed.

(** ** A thread alone *)

Lemma CheckedPage_S fuel os ol w b :
  waits w b = false →
  CheckedPage (S fuel) os ol w b = (r ← fetch_locked w;
    match r with
    | FHit fid => mret (Some fid)
    | FLoad fid => _ ← load_page ol fid w; mret (Some fid)
    | FNoFrame => freed ← EvictOneLocked os; if (freed : bool) then CheckedPage fuel os ol w else mret None
    end) b.
Proof. intros Hw. simpl. run (st_get_ok b). by rewrite Hw. Qed.

(** With a free frame the page is brought in at once. *)
Lemma CheckedPage_free b k w f ts fuel :
  PInv b ts → 0 ≤ w → page_table_ b !! w = None → waits w b = false → last (free_frames_ b) = Some f →
  ∃ b', CheckedPage (S fuel) IoOk IoOk w b = (Ok (Some f), b') ∧ PInv b' (TLatch k w f :: ts) ∧
    ∀ q, 0 ≤ q → view b' q = view b q.
Proof.
  intros Hinv H0 Hw Hwt Hf. pose proof (waits_false _ _ Hwt) as [Hl Hfl].
  destruct (fetch_load_ok b k w f ts Hinv Hw Hl Hfl H0 Hf) as (b1 & E & HI & HV).
  destruct (load_page_ok b1 k w f ts HI) as (b2 & E2 & HI2 & HV2).
  exists b2. rewrite CheckedPage_S by done. run E. run E2. split_and!; [done|done|].
  intros q Hq. rewrite HV2, HV by done. done.
Qed.

Lemma CheckedPage_ok b k w ts fuel :
  PInv b ts → 0 ≤ w → waits w b = false →
  ∃ r b', CheckedPage (S (S fuel)) IoOk IoOk w b = (Ok r, b') ∧ (∀ q, 0 ≤ q → view b' q = view b q) ∧
    PInv b' (match r with Some f => [TLatch k w f] | None => [] end ++ ts) ∧
    (∀ f, page_table_ b !! w = Some f → r = Some f) ∧
    (r = None → free_frames_ b = [] ∧ page_table_ b !! w = None ∧ ∀ f q, rep_alive (replacer_ b) !! f ≠ Some (q, true)).
Proof.
  intros Hinv H0 Hwt. pose proof (waits_false _ _ Hwt) as [Hl Hfl].
  destruct (page_table_ b !! w) as [f|] eqn:Hw.
  { destruct (fetch_hit_ok b k w f ts Hinv Hw Hl) as (b' & E & HI & HV).
    exists (Some f), b'. rewrite CheckedPage_S by done. run E. split_and!; try done. }
  destruct (last (free_frames_ b)) as [f|] eqn:Hf.
  { destruct (CheckedPage_free b k w f ts (S fuel) Hinv H0 Hw Hwt Hf) as (b' & E & HI & HV). by exists (Some f), b'. }
  assert (fetch_locked w b = (Ok FNoFrame, b)) as E by (unfold fetch_locked; run (st_get_ok b); by rewrite Hw, Hf).
  destruct (evict_start_ok b k w ts Hinv H0) as (v & b1 & E1 & HI1 & HV1 & Hnone & Hfree & Hld & Htab & Hvf).
  assert (∃ ok b2, EvictOneLocked IoOk b = (Ok ok, b2) ∧ (ok = false → v = VNone ∧ b2 = b1) ∧
    (ok = true → PInv b2 ts ∧ (∀ q, 0 ≤ q → view b2 q = view b q) ∧ free_frames_ b2 ≠ [] ∧
      page_table_ b2 !! w = None ∧ loading_ b2 = loading_ b)) as (ok & b2 & E2 & Hko & Hok).
  { unfold EvictOneLocked. run E1. destruct v as [| |f q].
    - exists false, b1. done.
    - exists true, b1. split_and!; try done. intros _. apply (PInv_inert b1 k w ts H0) in HI1. split_and!; auto.
    - destruct (evict_io_ok b1 IoOk k w f q ts HI1) as (ok & b2 & E2 & HI2 & HV2 & Ho & Hfr & Hl2 & Ht2); [done|].
      specialize (Ho eq_refl). subst ok. exists true, b2. split_and!; try done. intros _.
      apply (PInv_inert b2 k w ts H0) in HI2. split_and!; [done| |auto| |congruence].
      + intros q' Hq'. rewrite HV2, HV1 by done. done.
      + rewrite Ht2 by done. auto. }
  rewrite CheckedPage_S by done. run E. run E2. destruct ok.
  - destruct (Hok eq_refl) as (HI & HV & Hne & Ht & Hl2).
    destruct (exists_last Hne) as (l0 & f & El).
    assert (waits w b2 = false) as Hw2.
    { unfold waits. apply bool_decide_eq_false. rewrite Hl2. intros [?|Hin]; [done|]. apply Hfl.
      apply (pi_evicts _ _ Hinv). by apply (pi_evicts _ _ HI). }
    destruct (CheckedPage_free b2 k w f ts fuel HI H0 Ht Hw2) as (b' & E' & HI' & HV'); [by rewrite El, last_snoc|].
    rewrite E'. exists (Some f), b'. split_and!; try done. intros q Hq. rewrite HV', HV by done. done.
  - destruct (Hko eq_refl) as [-> ->]. exists None, b1. split_and!; try done.
    intros _. split_and!; [by apply last_None|done|auto].
Qed.

(** The page has one pin more than before; a page that was not in the pool had none. *)
Lemma GetPinCount_mapped b ts w f :
  PInv b ts → page_table_ b !! w = Some f → GetPinCount w b = (Ok (Some (npins f ts)), b).
Proof.
  intros Hinv Hw. destruct (mapped_inv b ts Hinv w f Hw) as (fr & v & Hf & _ & _ & Hpin & _).
  unfold GetPinCount. run (st_get_ok b). rewrite Hw. run (checked_frame_ok b f fr Hf). by rewrite Hpin.
Qed.
Lemma CheckedPage_pins b b' k w f ts :
  PInv b ts → PInv b' (TLatch k w f :: ts) → (∀ f0, page_table_ b !! w = Some f0 → f0 = f) →
  ∃ c, GetPinCount w b = (Ok c, b) ∧ GetPinCount w b' = (Ok (Some (default 0 c + 1)), b').
Proof.
  intros Hinv Hinv' Hf. pose proof (pi_tasks _ _ Hinv') as Hts. apply Forall_cons in Hts as [[Hw' _] Hts].
  pose proof (GetPinCount_mapped b' _ w f Hinv' Hw') as E'. simpl in E'. rewrite decide_True in E' by done.
  destruct (page_table_ b !! w) as [f0|] eqn:Hw.
  - rewrite (Hf f0 eq_refl) in Hw. exists (Some (npins f ts)). split; [by eapply GetPinCount_mapped|].
    simpl. by rewrite Z.add_comm.
  - exists None. split; [unfold GetPinCount; run (st_get_ok b); by rewrite Hw|]. simpl.
    assert (npins f ts = 0) as Hz; [|by rewrite Hz in E'].
    destruct (decide (0 < npins f ts)) as [Hp|]; [|pose proof (npins_nonneg f ts); lia].
    destruct (npins_task f ts Hp) as (t & Ht & Hpt).
    pose proof (pi_tasks _ _ Hinv) as Hts0. rewrite Forall_forall in Hts, Hts0. specialize (Hts t Ht). specialize (Hts0 t Ht).
    assert (∃ w', page_table_ b' !! w' = Some f ∧ page_table_ b !! w' = Some f) as (w' & H1 & H2)
      by (destruct t; simplify_eq/=; naive_solver).
    destruct (pi_table _ _ Hinv' w f Hw') as (fr & Hfr & Hq), (pi_table _ _ Hinv' w' f H1) as (fr' & Hfr' & Hq'). congruence.
Qed.

(** ** Flushing a quiet pool *)

Definition dirty_page b q : Prop := ∃ i fr, fget b i = Some fr ∧ frame_page fr = Some q ∧ is_dirty_ fr = true.

(** Frame [f] replaced by [fr'], nothing else of the frames or the table changed. *)
Definition reframed b b' f fr' : Prop :=
  page_table_ b' = page_table_ b ∧ ∀ j, fget b' j = if decide (j = f) then Some fr' else fget b j.

Lemma put_reframed b f fr fr' :
  fget b f = Some fr → reframed b (with_frames (<[Z.to_nat f := fr']> (frames_ b)) b) f fr'.
Proof. intros Hf. split; [done|]. intros j. by rewrite (fget_put _ _ _ _ _ Hf). Qed.
Lemma fget_same b b' j : frames_ b' = frames_ b → fget b' j = fget b j.
Proof. unfold fget. by intros ->. Qed.

Lemma flush_start_frames b p f fr b' :
  page_table_ b !! p = Some f → fget b f = Some fr → flush_start p b = (Ok (Some f), b') →
  reframed b b' f (set_pin (pin_count_ fr + 1) fr).
Proof.
  intros Hp Hf. unfold flush_start. run (st_get_ok b). rewrite Hp. run (checked_frame_ok b f fr Hf).
  run (put_frame_ok f (set_pin (pin_count_ fr + 1) fr) b). unfold mbind, ST_bind, on_replacer.
  unfold mret, ST_ret. destruct (rep_SetEvictable _ _ _) as [[[]|] r]; intros E; simplify_eq/=.
  exact (put_reframed b f fr _ Hf).
Qed.
Lemma disk_write_frames o p fr b ok b' :
  disk_write o p fr b = (Ok ok, b') → frames_ b' = frames_ b ∧ page_table_ b' = page_table_ b.
Proof.
  unfold disk_write. destruct (frame_data fr); [|done]. destruct (dm_WritePage _ _ _ _). by intros [= _ <-].
Qed.
Lemma flush_io_frames o b f fr lp b' :
  fget b f = Some fr → flush_io o f b = (Ok lp, b') → ∃ fr', reframed b b' f fr' ∧ is_dirty_ fr' = false ∧ frame_page fr' = frame_page fr.
Proof.
  intros Hf. unfold flush_io. run (frame_at_ok b f fr Hf).
  set (m := if is_dirty_ fr then _ else _).
  assert (∀ b1, m b = (Ok tt, b1) → reframed b b1 f (clear_dirty fr)) as Hm.
  { unfold m. destruct (is_dirty_ fr) eqn:Hd.
    - destruct (frame_page fr) as [pid|]; [|done]. intros b1. unfold mbind, ST_bind.
      destruct (disk_write o pid fr b) as [[ok|] b0] eqn:E; [|done]. apply disk_write_frames in E as [Ef Et].
      rewrite put_frame_ok. intros [= <-]. pose proof (fget_same b b0 f Ef) as Hf0. rewrite Hf in Hf0.
      destruct (put_reframed b0 f fr (clear_dirty fr) Hf0) as [Ht Hj]. split; [by rewrite Ht|].
      intros j. rewrite Hj. by rewrite (fget_same b b0 j Ef).
    - intros b1 [= <-]. split; [done|]. intros j. case_decide; [subst j|done]. rewrite Hf.
      unfold clear_dirty. rewrite <-Hd. by destruct fr. }
  unfold mbind at 1, ST_bind at 1. destruct (m b) as [[[]|] b1]; [|done]. destruct (Hm b1 eq_refl) as [Ht Hj].
  assert (fget b1 f = Some (clear_dirty fr)) as Hf1 by (by rewrite Hj, decide_True).
  run (frame_at_ok b1 f _ Hf1). destruct (bool_decide (pin_count_ (clear_dirty fr) > 0)); [|done]. run (put_frame_ok f (set_pin (pin_count_ (clear_dirty fr) - 1) (clear_dirty fr)) b1).
  intros [= _ <-]. exists (set_pin (pin_count_ (clear_dirty fr) - 1) (clear_dirty fr)). split; [|done].
  destruct (put_reframed b1 f _ (set_pin (pin_count_ (clear_dirty fr) - 1) (clear_dirty fr)) Hf1) as [Ht' Hj'].
  split; [exact (eq_trans Ht' Ht)|]. intros j. refine (eq_trans (Hj' j) _). case_decide; [done|]. rewrite Hj. by rewrite decide_False.
Qed.
Lemma flush_end_frames b f b' :
  flush_end f b = (Ok tt, b') → frames_ b' = frames_ b ∧ page_table_ b' = page_table_ b.
Proof.
  unfold flush_end, mbind, ST_bind, frame_at. destruct (if bool_decide _ then _ else _) as [fr|]; [|done].
  destruct (bool_decide (pin_count_ fr = 0)); [|by intros [= <-]]. unfold on_replacer. destruct (rep_SetEvictable _ _ _) as [[[]|] r]; by intros [= <-].
Qed.

(** With nothing else in progress, a flush writes the page and leaves the rest as it was. *)
Lemma FlushPage_ok b p :
  PInv b [] →
  ∃ r b', FlushPage IoOk p b = (Ok r, b') ∧ PInv b' [] ∧ (∀ q, 0 ≤ q → view b' q = view b q) ∧
    page_table_ b' = page_table_ b ∧ (page_table_ b !! p ≠ None → r = true) ∧ ∀ q, dirty_page b' q → dirty_page b q ∧ q ≠ p.
Proof.
  intros Hinv. assert (p ∉ loading_ b) as Hl by (intros []%(proj2 (pi_loads _ _ Hinv))%elem_of_nil).
  unfold FlushPage. run (st_get_ok b). rewrite bool_decide_false by done.
  destruct (flush_start_ok b p [] Hinv Hl) as (fo & b1 & E1 & HI1 & HV1). run E1.
  destruct (page_table_ b !! p) as [f|] eqn:Hp.
  2:{ unfold flush_start in E1. rewrite (ST_bind_ok _ _ _ _ _ (st_get_ok b)), Hp in E1. injection E1 as <- <-.
      exists false, b. split_and!; try done. intros q Hd. split; [done|]. intros ->. destruct Hd as (i & fr & Hi & Hq & _).
      apply (unheld b [] Hinv p i Hp); [by intros []%(proj2 (pi_evicts _ _ Hinv))%elem_of_nil|]. by exists fr. }
  destruct (mapped_inv b [] Hinv p f Hp) as (fr & v & Hf & Hq & _).
  assert (fo = Some f) as ->.
  { unfold flush_start in E1. rewrite (ST_bind_ok _ _ _ _ _ (st_get_ok b)), Hp in E1.
    rewrite (ST_bind_ok _ _ _ _ _ (checked_frame_ok b f fr Hf)), (ST_bind_ok _ _ _ _ _ (put_frame_ok f _ b)) in E1.
    unfold mbind, ST_bind, mret, ST_ret in E1. destruct (on_replacer _ _) as [[] ?]; congruence. }
  destruct (flush_start_frames b p f fr b1 Hp Hf E1) as [Ht1 Hj1].
  destruct (flush_io_ok b1 p f [] HI1) as (lp & b2 & E2 & HI2 & HV2). run E2.
  destruct (flush_io_frames IoOk b1 f _ lp b2 (eq_trans (Hj1 f) (decide_True _ _ eq_refl)) E2) as (fr' & [Ht2 Hj2] & Hd2 & _).
  assert (∃ b3, (if lp then flush_end f else mret tt) b2 = (Ok tt, b3) ∧ PInv b3 [] ∧ (∀ q, 0 ≤ q → view b3 q = view b2 q) ∧
    frames_ b3 = frames_ b2 ∧ page_table_ b3 = page_table_ b2) as (b3 & E3 & HI3 & HV3 & Hf3 & Ht3).
  { destruct lp; [|by exists b2]. destruct (flush_end_ok b2 p f [] HI2) as (r3 & b3 & E3 & HI3 & HV3 & [->|[_ Ha]]).
    - exists b3. destruct (flush_end_frames b2 f b3 E3). by split_and!.
    - exfalso. destruct (mapped_inv b2 _ HI2 p f) as (? & ? & _ & _ & _ & _ & _ & _ & _ & _ & (e & Ha' & _) & _); [by rewrite Ht2, Ht1|].
      congruence. }
  run E3. exists true, b3. split_and!; try done.
  - intros q Hq0. by rewrite HV3, HV2, HV1.
  - by rewrite Ht3, Ht2, Ht1.
  - intros q (i & fr3 & Hi & Hq3 & Hd3). rewrite (fget_same b2 b3 i Hf3), Hj2 in Hi. case_decide as Hif; [congruence|].
    rewrite Hj1, decide_False in Hi by done. split; [by exists i, fr3|]. intros ->. apply Hif.
    apply (pi_unique _ _ Hinv i f p); [by exists fr3|by exists fr].
Qed.
Lemma flush_each_ok b ps :
  PInv b [] →
  ∃ b', flush_each IoOk ps b = (Ok tt, b') ∧ PInv b' [] ∧ (∀ q, 0 ≤ q → view b' q = view b q) ∧
    page_table_ b' = page_table_ b ∧ ∀ q, dirty_page b' q → dirty_page b q ∧ q ∉ ps.
Proof.
  revert b. induction ps as [|p ps IH]; intros b Hinv; simpl.
  { exists b. split_and!; try done. intros q Hq. split; [done|apply not_elem_of_nil]. }
  destruct (FlushPage_ok b p Hinv) as (r & b1 & E1 & HI1 & HV1 & Ht1 & _ & Hd1). run E1.
  destruct (IH b1 HI1) as (b2 & E2 & HI2 & HV2 & Ht2 & Hd2). exists b2. split_and!; try done.
  - intros q Hq. by rewrite HV2, HV1.
  - by rewrite Ht2.
  - intros q [[? ?]%Hd1 Hps]%Hd2. split; [done|]. by apply not_elem_of_cons.
Qed.
Lemma FlushAllPages_ok b :
  PInv b [] →
  ∃ b', FlushAllPages IoOk b = (Ok tt, b') ∧ PInv b' [] ∧ (∀ q, 0 ≤ q → view b' q = view b q) ∧
    ∀ q, 0 ≤ q → dm_page (disk_ b') q = view b q.
Proof.
  intros Hinv. unfold FlushAllPages. run (st_get_ok b).
  destruct (flush_each_ok b (GetAllPages b) Hinv) as (b' & E & HI & HV & Ht & Hd). exists b'. split_and!; try done.
  intros q Hq0. rewrite <-HV by done. destruct (holder_dec b' q) as [(fr & i & Hi & Hq)|Hn]; [|by rewrite view_disk].
  assert (q ∉ loading_ b') as Hl by (intros []%(proj2 (pi_loads _ _ HI))%elem_of_nil).
  rewrite (view_held b' i fr q (pi_unique _ _ HI) Hi Hq), decide_False by done.
  destruct (pi_frames _ _ HI i fr Hi) as [_ Hok]. rewrite Hq in Hok.
  destruct Hok as (_ & _ & v & Hv & [(Hpt & _ & _ & Hcl & _)|(_ & []%(proj2 (pi_evicts _ _ HI))%elem_of_nil & _)]).
  rewrite Hv. simpl. symmetry. apply Hcl; [|done]. destruct (is_dirty_ fr) eqn:Hdf; [|done].
  destruct (Hd q) as [_ []]; [by exists i, fr|]. apply list_elem_of_fmap. exists (q, i). split; [done|].
  apply elem_of_map_to_list. by rewrite <-Ht.
Qed.
End refinement.
