(* ===== verification/PoolTheorems.v ===== *)
(** * What the buffer pool guarantees

    The claims about [arc_replacer.cpp], [single_file_disk_manager.cpp], [buffer_pool_manager.cpp] and
    [page_guard.cpp], with instances on a pool of one or two frames over a disk whose pages are
    integers ([Demo]). *)

From S2P Require Import Prelude TablePage ArcReplacer DiskManager BufferPool PoolMachine PoolSteps PoolRefinement.

(** ** Running the machine *)

Section run.
Context {D P R : Type} `{!DiskManager D P, !Replacer R, !EqDecision P}.
#[local] Abbreviation Machine := (PoolMachine D P R).

Definition error_of {A} (r : result A) : option error := match r with Ok _ => None | Err e => Some e end.

(** One step of activity number [n], or of the pool itself. *)
Definition do_step (n : nat) (lb : label P) (m : Machine) : option (option error * Machine) :=
  let b := m_pool m in let ts := m_tasks m in
  match lb with
  | LCall k w => if decide (0 ≤ w) then Some (None, mkMachine b (ts ++ [TFetch k w])) else None
  | LRead w v =>
      match ts !! n with
      | Some (TGuard k w' f) =>
          if decide (w = w') then
            match guard_GetData (mkGuard k w f true) b with
            | (Ok v', _) => if decide (v = v') then Some (None, m) else None
            | _ => None
            end
          else None
      | _ => None
      end
  | LFlushCall p =>
      if decide (p ∈ loading_ b) then None else
      let '(r, b') := flush_start p b in
      Some (error_of r, mkMachine b' (ts ++ match r with Ok (Some f) => [TFlush p f] | _ => [] end))
  | LDelete p gone =>
      let '(r, b') := delete_locked p b in
      if decide (gone = bool_decide (r = Ok true)) then
        Some (error_of r, mkMachine b' (ts ++ match r with Ok true => [TDealloc p] | _ => [] end))
      else None
  | LNew p =>
      match pool_NewPage b with (Ok p', b') => if decide (p = p') then Some (None, mkMachine b' ts) else None | _ => None end
  | _ =>
      match ts !! n with
      | None => None
      | Some t =>
          let others := take n ts ++ drop (S n) ts in
          match task_run lb t with
          | None => None
          | Some act =>
              if enabled lb t b others then
                let '(r, b') := act b in
                Some (error_of r, mkMachine b' (take n ts ++ tasks_after r ++ drop (S n) ts))
              else None
          end
      end
  end.

Lemma do_task_sound n lb m t act e m' :
  m_tasks m !! n = Some t → task_run lb t = Some act →
  (if enabled lb t (m_pool m) (take n (m_tasks m) ++ drop (S n) (m_tasks m)) then
     let '(r, b') := act (m_pool m) in
     Some (error_of r, mkMachine b' (take n (m_tasks m) ++ tasks_after r ++ drop (S n) (m_tasks m)))
   else None) = Some (e, m') → step m lb e m'.
Proof.
  intros Hn Hrun Hdo. destruct m as [b ts]. simpl in *. destruct (enabled _ _ _ _) eqn:Hen; [|done].
  destruct (act b) as [r b'] eqn:Ha. simplify_eq. rewrite <-(take_drop_middle ts n t Hn) at 1.
  by eapply (step_task b b' (take n ts) t (drop (S n) ts) lb act r).
Qed.
Lemma read_back b k w f (v : P) :
  (guard_GetData (mkGuard k w f true) b).1 = Ok v → guard_GetData (D:=D) (R:=R) (mkGuard k w f true) b = (Ok v, b).
Proof.
  unfold guard_GetData. simpl. unfold mbind, ST_bind, frame_at.
  destruct (if bool_decide (0 ≤ f) then _ else _) as [fr|]; [|done]. destruct (frame_data fr); [|done]. unfold mret, ST_ret. simpl. by intros [= ->].
Qed.
Lemma do_step_sound n lb m e m' : do_step n lb m = Some (e, m') → step m lb e m'.
Proof.
  destruct m as [b ts]. unfold do_step. simpl.
  destruct lb; intros Hdo;
    try (destruct (ts !! n) as [t|] eqn:Ht; [|done]; destruct (task_run _ t) as [act|] eqn:Hrun; [|done];
         by eapply (do_task_sound n _ (mkMachine b ts))).
  - case_decide; simplify_eq. by constructor.
  - destruct (ts !! n) as [[]|] eqn:Ht; try done. case_decide; [subst w0|done].
    destruct (guard_GetData _ b) as [[v'|] b1] eqn:Hg; [|done]. case_decide; [subst v'|done]. simplify_eq.
    rewrite <-(take_drop_middle ts n _ Ht). constructor. apply read_back. by rewrite Hg.
  - case_decide; [done|]. destruct (flush_start p b) as [r b'] eqn:Hf. simplify_eq. by econstructor.
  - destruct (delete_locked p b) as [r b'] eqn:Hd. case_decide; [|done]. simplify_eq. by econstructor.
  - destruct (pool_NewPage b) as [[p'|] b'] eqn:Hn; [|done]. case_decide; [subst p'|done]. simplify_eq. by econstructor.
Qed.

(** A script of steps, and whether all of them are within the discipline. *)
Fixpoint do_run (script : list (nat * label P)) (m : Machine) : option (list (option error) * Machine) :=
  match script with
  | [] => Some ([], m)
  | (n, lb) :: script =>
      '(e, m1) ← do_step n lb m; '(es, m2) ← do_run script m1; Some (e :: es, m2)
  end.
Fixpoint calm (script : list (nat * label P)) (m : Machine) : bool :=
  match script with
  | [] => true
  | (n, lb) :: script =>
      bool_decide (disciplined m lb) && match do_step n lb m with Some (_, m1) => calm script m1 | None => false end
  end.
Lemma do_run_sound script m es m' :
  calm script m = true → do_run script m = Some (es, m') → exec m (zip script.*2 es) m'.
Proof.
  revert m es. induction script as [|[n lb] script IH]; simpl; intros m es Hc Hr; [simplify_eq; constructor|].
  apply andb_true_iff in Hc as [Hc%bool_decide_eq_true Hcs].
  destruct (do_step n lb m) as [[e m1]|] eqn:E1; [|done]. simpl in Hr.
  destruct (do_run script m1) as [[es1 m2]|] eqn:E2; [|done]. simplify_eq/=.
  econstructor; [done|by eapply do_step_sound|by apply IH].
Qed.

(** The outcomes and the end of a script. *)
Definition run_script (m : Machine) (script : list (nat * label P)) : list (option error) * Machine :=
  default ([], m) (do_run script m).
Lemma calm_runs script m : calm script m = true → is_Some (do_run script m).
Proof.
  revert m. induction script as [|[n lb] script IH]; simpl; intros m Hc; [by eauto|].
  apply andb_true_iff in Hc as [_ Hc]. destruct (do_step n lb m) as [[e m1]|]; [|done]. simpl.
  destruct (IH m1 Hc) as [[es m2] ->]. simpl. eauto.
Qed.
Lemma run_script_exec m script :
  calm script m = true → exec m (zip script.*2 (run_script m script).1) (run_script m script).2.
Proof. intros Hc. destruct (calm_runs script m Hc) as [[es m'] E]. unfold run_script. rewrite E. by apply do_run_sound. Qed.

(** Runs outside the discipline too. *)
Inductive steps : Machine → list (label P * option error) → Machine → Prop :=
  | steps_nil m : steps m [] m
  | steps_cons m1 m2 m3 lb e ls : step m1 lb e m2 → steps m2 ls m3 → steps m1 ((lb, e) :: ls) m3.
Lemma do_run_steps script m es m' : do_run script m = Some (es, m') → steps m (zip script.*2 es) m'.
Proof.
  revert m es. induction script as [|[n lb] script IH]; simpl; intros m es Hr; [simplify_eq; constructor|].
  destruct (do_step n lb m) as [[e m1]|] eqn:E1; [|done]. simpl in Hr.
  destruct (do_run script m1) as [[es1 m2]|] eqn:E2; [|done]. simplify_eq/=.
  econstructor; [by eapply do_step_sound|by apply IH].
Qed.
End run.

(** ** A small instance *)

Module Demo.
(** A disk whose pages are integers; a failed read leaves the buffer, a failed write the disk. *)
#[global] Instance demo_disk : DiskManager (gmap Z Z) Z := {
  dm_WritePage o pid p d := match o with IoBad => (false, d) | _ => (true, <[pid := p]> d) end;
  dm_ReadPage o pid buf d := match o with IoOk => (true, default 0 (d !! pid)) | _ => (false, buf) end;
  dm_DeletePage o pid d := match o with IoOk => delete pid d | _ => d end;
  dm_page d pid := default 0 (d !! pid);
  dm_zero := 0;
  dm_inv _ := True
}.
#[global] Instance demo_disk_laws : DiskLaws (gmap Z Z) Z.
Proof.
  split; simpl; try done.
  - intros d pid p _ _. eexists. split_and!; [done|done|]. intros q _. case_decide as Hq.
    + subst q. by rewrite lookup_insert_eq.
    + by rewrite lookup_insert_ne.
  - intros d pid p _ _. eauto.
  - intros d pid _ _. split; [done|]. intros q _. case_decide as Hq.
    + subst q. by rewrite lookup_delete_eq.
    + by rewrite lookup_delete_ne.
Qed.

Definition DemoMachine := PoolMachine (gmap Z Z) Z ArcReplacer.
Definition start (frames : nat) : DemoMachine := mkMachine (new_BufferPoolManager frames ∅ 10) [].

(** An access of page [w] up to its guard, alone: [n] other activities are in progress. *)
Definition acquire {P} (n : nat) (k : guard_kind) (w : Z) : list (nat * label P) :=
  [(n, LCall k w); (n, LSection); (n, LLoad IoOk); (n, LLatch)].
(** One frame: page 3 is written, written back when page 4 needs the frame, and read again.  It is then
    deleted, and page 4 is written while that deletion is between its sections; page 3 is allocated again. *)
Definition evicted : list (nat * label Z) :=
  acquire 0 Write 3 ++ [(0%nat, LUpdate 3 (λ _, 7)); (0%nat, LDrop)] ++
  [(0%nat, LCall Read 4); (0%nat, LSection); (0%nat, LEvictIo IoOk); (0%nat, LSection); (0%nat, LLoad IoOk); (0%nat, LLatch); (0%nat, LRead 4 0); (0%nat, LDrop)] ++
  [(0%nat, LCall Read 3); (0%nat, LSection); (0%nat, LSection); (0%nat, LLoad IoOk); (0%nat, LLatch); (0%nat, LRead 3 7); (0%nat, LDrop)].
Definition script : list (nat * label Z) :=
  evicted ++ [(0%nat, LDelete 3 true); (1%nat, LCall Write 4); (1%nat, LSection); (1%nat, LLoad IoOk); (0%nat, LDealloc IoOk);
    (1%nat, LLatch); (1%nat, LUpdate 4 (λ _, 8)); (0%nat, LReclaim); (0%nat, LDrop); (0%nat, LNew 3);
    (0%nat, LCall Read 3); (0%nat, LSection); (0%nat, LEvictIo IoOk); (0%nat, LSection); (0%nat, LLoad IoOk); (0%nat, LLatch); (0%nat, LRead 3 0)].
Definition after (frames : nat) (sc : list (nat * label Z)) : DemoMachine := (run_script (start frames) sc).2.
Definition outcomes (frames : nat) (sc : list (nat * label Z)) : list (option error) := (run_script (start frames) sc).1.
Lemma after_exec frames sc :
  calm sc (start frames) = true → exec (start frames) (zip sc.*2 (outcomes frames sc)) (after frames sc).
Proof. apply run_script_exec. Qed.
Lemma after_steps frames sc :
  is_Some (do_run sc (start frames)) → steps (start frames) (zip sc.*2 (outcomes frames sc)) (after frames sc).
Proof. intros [[es m] E]. unfold outcomes, after, run_script. rewrite E. by apply do_run_steps. Qed.

(** One frame; page 3 has been written and its guard dropped. *)
Definition wrote : list (nat * label Z) := acquire 0 Write 3 ++ [(0%nat, LUpdate 3 (λ _, 7)); (0%nat, LDrop)].
(** A flush of page 3 that has released its pin. *)
Definition flushed : list (nat * label Z) := wrote ++ [(0%nat, LFlushCall 3); (0%nat, LFlushIo IoOk)].
(** Meanwhile another thread reads page 3, and its frame is then recycled for page 4. *)
Definition recycled : list (nat * label Z) :=
  flushed ++ [(1%nat, LCall Read 3); (1%nat, LSection); (1%nat, LLatch); (1%nat, LDrop); (1%nat, LCall Read 4); (1%nat, LSection)].
(** Page 3 is deleted while its write-back is in flight, and its identifier allocated again. *)
Definition resurrected : list (nat * label Z) :=
  wrote ++ [(0%nat, LCall Read 4); (0%nat, LSection); (0%nat, LDelete 3 true); (1%nat, LDealloc IoOk); (1%nat, LReclaim);
    (0%nat, LEvictIo IoOk); (0%nat, LNew 3); (0%nat, LSection); (0%nat, LLoad IoOk); (0%nat, LLatch); (0%nat, LDrop);
    (0%nat, LCall Read 3); (0%nat, LSection); (0%nat, LSection); (0%nat, LLoad IoOk); (0%nat, LLatch); (0%nat, LRead 3 7)].
(** Page 3 is read between the first section of its deletion and its deallocation. *)
Definition cached : list (nat * label Z) :=
  flushed ++ [(0%nat, LFlushEnd); (0%nat, LDelete 3 true)] ++ acquire 1 Read 3 ++
  [(1%nat, LDrop); (0%nat, LDealloc IoOk); (0%nat, LReclaim); (0%nat, LNew 3);
   (0%nat, LCall Read 3); (0%nat, LSection); (0%nat, LLatch); (0%nat, LRead 3 7)].

(** One frame over a new file. *)
Definition small_pool : BufferPool SingleFileDiskManager Page ArcReplacer :=
  new_BufferPoolManager 1 (new_SingleFileDiskManager IoOk []) 10.
(** A byte written through a guard that is then dropped. *)
Definition dirtied : list (nat * label Page) :=
  acquire 0 Write 3 ++ [(0%nat, LUpdate 3 (λ _, page_of [Byte.x07])); (0%nat, LDrop)].
Definition dirty_file : PoolMachine SingleFileDiskManager Page ArcReplacer := (run_script (mkMachine small_pool []) dirtied).2.
Definition write_byte (pid : Z) (x : byte) : ST (BufferPool SingleFileDiskManager Page ArcReplacer) PageGuard :=
  g ← Access Write 2 IoOk IoOk pid; _ ← guard_update g (λ _, page_of [x]); mret g.
Definition read_byte (o : io) (pid : Z) : ST (BufferPool SingleFileDiskManager Page ArcReplacer) (option byte) :=
  g ← Access Read 2 IoOk o pid; p ← guard_GetData g; _ ← guard_Drop g; mret (page_data p !! 0%nat).
(** Page 3 is written and flushed with a failing write; page 4 is read in its frame, then page 3 again. *)
Definition failed_FlushPage : ST (BufferPool SingleFileDiskManager Page ArcReplacer) (bool * option byte) :=
  g ← write_byte 3 Byte.x07; _ ← guard_Drop g; ok ← FlushPage IoBad 3;
  _ ← read_byte IoOk 4; v ← read_byte IoOk 3; mret (ok, v).
Definition failed_guard_Flush : ST (BufferPool SingleFileDiskManager Page ArcReplacer) (option byte) :=
  g ← write_byte 3 Byte.x07; _ ← guard_Flush IoBad g; _ ← guard_Drop g;
  _ ← read_byte IoOk 4; read_byte IoOk 3.
(** Page 4 is read with a failing read after page 3 used the frame. *)
Definition failed_read : ST (BufferPool SingleFileDiskManager Page ArcReplacer) (option byte) :=
  g ← write_byte 3 Byte.x07; _ ← guard_Drop g; read_byte IoNoStat 4.
End Demo.
Import Demo.

(** ** The replacer as a set of evictable frames *)

Inductive arc_op := OpEvict | OpAccess (f p : Z) | OpSetEvictable (f : Z) (b : bool) | OpRemove (f : Z).
Definition arc_run_op (o : arc_op) : ST ArcReplacer (option Z) :=
  match o with
  | OpEvict => Evict
  | OpAccess f p => _ ← RecordAccess f p; mret None
  | OpSetEvictable f b => _ ← SetEvictable f b; mret None
  | OpRemove f => _ ← Remove f; mret None
  end.

(** The contract, on the map from alive frames to their page and flag: an operation, its outcome, the
    map after it. *)
Inductive arc_spec (m : gmap Z (Z * bool)) : arc_op → result (option Z) → gmap Z (Z * bool) → Prop :=
  | spec_no_victim : (∀ f p, m !! f ≠ Some (p, true)) → arc_spec m OpEvict (Ok None) m
  | spec_victim f p : m !! f = Some (p, true) → arc_spec m OpEvict (Ok (Some f)) (delete f m)
  | spec_access f p : arc_spec m (OpAccess f p) (Ok None) (record_access m f p)
  | spec_set f p e b : m !! f = Some (p, e) → arc_spec m (OpSetEvictable f b) (Ok None) (<[f := (p, b)]> m)
  | spec_set_missing f b : m !! f = None → arc_spec m (OpSetEvictable f b) (Err (ERange "Frame ID not found")) m
  | spec_remove f p : m !! f = Some (p, true) → arc_spec m (OpRemove f) (Ok None) (delete f m)
  | spec_remove_pinned f p : m !! f = Some (p, false) → arc_spec m (OpRemove f) (Err (ERange "Frame ID not evictable")) m
  | spec_remove_missing f : m !! f = None → arc_spec m (OpRemove f) (Ok None) m.

(** Runs in which an access registers a frame of the pool for a page no other frame holds. *)
Inductive arc_exec (c : Z) : ArcReplacer → list (arc_op * result (option Z)) → ArcReplacer → Prop :=
  | arc_exec_nil a : arc_exec c a [] a
  | arc_exec_cons a o r a1 ls a' :
      match o with OpAccess f p => may_record (arc_alive a) c f p | _ => True end →
      arc_run_op o a = (r, a1) → arc_exec c a1 ls a' → arc_exec c a ((o, r) :: ls) a'.
Inductive arc_trace : gmap Z (Z * bool) → list (arc_op * result (option Z)) → gmap Z (Z * bool) → Prop :=
  | arc_trace_nil m : arc_trace m [] m
  | arc_trace_cons m o r m1 ls m' : arc_spec m o r m1 → arc_trace m1 ls m' → arc_trace m ((o, r) :: ls) m'.

Lemma arc_op_ok c a o r a' :
  arc_inv c a → match o with OpAccess f p => may_record (arc_alive a) c f p | _ => True end →
  arc_run_op o a = (r, a') → arc_inv c a' ∧ arc_spec (arc_alive a) o r (arc_alive a').
Proof.
  intros Hi Hm. destruct o as [|f p|f b|f]; simpl.
  - destruct (Evict_ok c a Hi) as [[E Hn]|(f & s & a1 & E & Hs & He & Hi1 & Ha)]; rewrite E; intros [= <- <-].
    + split; [done|]. constructor. intros f p (s & Hs & _ & He)%arc_alive_Some. rewrite (Hn f s Hs) in He. done.
    + split; [done|]. rewrite Ha. apply (spec_victim _ f (fs_page_id s)). apply arc_alive_Some. eauto.
  - destruct (RecordAccess_ok c a f p Hi Hm) as (a1 & E & Hi1 & Ha). run E. intros [= <- <-].
    split; [done|]. rewrite Ha. constructor.
  - destruct (arc_alive a !! f) as [[p e]|] eqn:Ef.
    + destruct (SetEvictable_ok c a f p e b Hi Ef) as (a1 & E & Hi1 & Ha). run E. intros [= <- <-].
      split; [done|]. rewrite Ha. by econstructor.
    + assert (SetEvictable f b a = (Err (ERange "Frame ID not found"), a)) as E by exact (@rep_SetEvictable_missing _ arc_replacer _ a f b Ef).
      unfold mbind, ST_bind. rewrite E. intros [= <- <-].
      split; [done|]. by constructor.
  - destruct (arc_alive a !! f) as [[p [|]]|] eqn:Ef.
    + destruct (arc_Remove_ok c a f p Hi Ef) as (a1 & E & Hi1 & Ha). run E. intros [= <- <-].
      split; [done|]. rewrite Ha. by econstructor.
    + assert (Remove f a = (Err (ERange "Frame ID not evictable"), a)) as E by exact (@rep_Remove_pinned _ arc_replacer _ c a f p Hi Ef).
      unfold mbind, ST_bind. rewrite E. intros [= <- <-].
      split; [done|]. by econstructor.
    + pose proof Ef as Em. unfold arc_alive in Em. rewrite lookup_fmap, fmap_None in Em.
      unfold mbind, ST_bind, Remove. rewrite Em. intros [= <- <-]. split; [done|]. by constructor.
Qed.
Lemma arc_exec_ok c a ls a' : arc_inv c a → arc_exec c a ls a' → arc_inv c a' ∧ arc_trace (arc_alive a) ls (arc_alive a').
Proof.
  intros Hi Hex. induction Hex as [a|a o r a1 ls a' Hm Hr Hex IH]; [split; [done|constructor]|].
  destruct (arc_op_ok c a o r a1 Hi Hm Hr) as [Hi1 Hsp]. destruct (IH Hi1). split; [done|]. by econstructor.
Qed.

(** ** Claims *)

(** C33: Over any disk and replacer that keep their contracts, and under any interleaving of the critical
    sections and disk requests of accesses, guards, evictions, flushes, allocations and deletions within the
    discipline of [disciplined], the buffer pool behaves as a plain map from page ids to pages that starts as
    the disk's contents: every read through a guard returns what the last writes of that page left, whatever
    was evicted, written back, reloaded and deleted in between, and a page is zero from the first section of
    its deletion on.  No step fails, except that the last section of [FlushPage] may throw "Frame ID not
    found".  The discipline: disk reads, flushes and deallocations succeed (the write-back of an eviction may
    fail); a page's deletion starts when no write-back or unfinished flush of it is in progress and no access
    is looking for it, and no access of the page starts before its deallocation is done.  [pool_races] shows
    what happens otherwise. *)
Theorem pool_refines_page_store {D P R : Type} `{!DiskManager D P, !Replacer R, !DiskLaws D P, !ReplacerLaws R}
    (n : nat) (d : D) (next : Z) (ls : list (label P * option error)) (m' : PoolMachine D P R) :
  dm_inv d → exec (mkMachine (new_BufferPoolManager n d next) []) ls m' →
  store_trace (dm_page d) ls.*1 (contents m') ∧ Forall (λ le, outcome_ok le.1 le.2) ls.
Proof. intros Hd Hex. by destruct (run_ok n d next ls m' Hd Hex) as (_ & _ & ? & ?). Qed.
Lemma pool_refines_page_store_witness :
  store_trace (λ q, default 0 ((∅ : gmap Z Z) !! q)) (zip script.*2 (outcomes 1 script)).*1 (contents (after 1 script)) ∧
  Forall (λ le, outcome_ok le.1 le.2) (zip script.*2 (outcomes 1 script)).
Proof. refine (pool_refines_page_store 1 ∅ 10 _ (after 1 script) I _). apply after_exec. vm_compute. reflexivity. Defined.

(** C34: After any such run, a thread that asks for a page whose bytes are not being read or written back and
    whose deletion is not in progress, and runs on from there alone, returns from the loop of [CheckedPage]
    in at most two turns: with the page's frame, holding the page, pinned once more than [GetPinCount]
    counted before (once, if it was not in the pool), and no page changed; or with no frame, and then no
    frame is free and every frame in the replacer is still pinned or about to be released. *)
Theorem CheckedPage_terminates {D P R : Type} `{!DiskManager D P, !Replacer R, !DiskLaws D P, !ReplacerLaws R}
    (n : nat) (d : D) (next : Z) (ls : list (label P * option error)) (m : PoolMachine D P R) (k : guard_kind) (w : Z) (fuel : nat) :
  dm_inv d → exec (mkMachine (new_BufferPoolManager n d next) []) ls m →
  0 ≤ w → waits w (m_pool m) = false → TDealloc w ∉ m_tasks m → (2 ≤ fuel)%nat →
  ∃ r b', CheckedPage fuel IoOk IoOk w (m_pool m) = (Ok r, b') ∧ (∀ q, 0 ≤ q → view b' q = view (m_pool m) q) ∧
    match r with
    | Some f => page_table_ b' !! w = Some f ∧
        (∃ c, GetPinCount w (m_pool m) = (Ok c, m_pool m) ∧ GetPinCount w b' = (Ok (Some (default 0 c + 1)), b')) ∧
        guard_GetData (mkGuard k w f true) b' = (Ok (contents m w), b')
    | None => free_frames_ (m_pool m) = [] ∧ page_table_ (m_pool m) !! w = None ∧
        ∀ f q, rep_alive (replacer_ (m_pool m)) !! f ≠ Some (q, true)
    end.
Proof.
  intros Hd Hex H0 Hw Hnd Hfuel. destruct (run_ok n d next ls m Hd Hex) as (HI & _). destruct fuel as [|[|fuel]]; [lia|lia|].
  destruct (CheckedPage_ok (m_pool m) k w (m_tasks m) fuel HI H0 Hw) as (r & b' & E & HV & HI2 & Hsame & Hn).
  exists r, b'. split_and!; [done|done|]. destruct r as [f|]; [|by apply Hn]. simpl in HI2.
  pose proof (pi_tasks _ _ HI2) as Hts. apply Forall_cons in Hts as [[Ht Hl] _]. split_and!; [done| |].
  - apply (CheckedPage_pins (m_pool m) b' k w f (m_tasks m) HI HI2). intros f0 Hf0. specialize (Hsame f0 Hf0). congruence.
  - unfold contents. rewrite decide_False, <-HV by done. apply (guard_GetData_ok b' k w f (m_tasks m)).
    eapply PInv_retask; [exact HI2|done..| |by split]. by intros g [? ?].
Qed.
Lemma CheckedPage_terminates_witness :
  ∃ b', CheckedPage 2 IoOk IoOk 4 (m_pool (after 1 wrote)) = (Ok (Some 0), b') ∧ (GetPinCount 4 b').1 = Ok (Some 1).
Proof.
  destruct (CheckedPage_terminates 1 ∅ 10 (zip wrote.*2 (outcomes 1 wrote)) (after 1 wrote) Read 4 2) as (r & b' & E & _ & H).
  - exact I.
  - apply after_exec. vm_compute. reflexivity.
  - lia.
  - vm_compute. reflexivity.
  - vm_compute. intros H. inversion H.
  - lia.
  - assert (r = Some 0) as -> by (vm_compute in E; congruence). exists b'. split; [exact E|].
    destruct H as (_ & (c & Hc & Hp) & _). rewrite Hp. vm_compute in Hc. injection Hc as <-. reflexivity.
Defined.

(** C35: With the single-file disk manager, once no access, flush or deletion is in progress,
    [FlushAllPages] makes the file durable: a buffer pool of any size over the reopened file stands for
    exactly the pages the old one did. *)
Theorem pool_durable (n n' : nat) (d : SingleFileDiskManager) (next next' : Z) (ls : list (label Page * option error))
    (m : PoolMachine SingleFileDiskManager Page ArcReplacer) :
  sf_inv d → exec (mkMachine (new_BufferPoolManager n d next) []) ls m → m_tasks m = [] →
  ∃ b', FlushAllPages IoOk (m_pool m) = (Ok tt, b') ∧
    ∀ q, 0 ≤ q → view (new_BufferPoolManager (R:=ArcReplacer) n' (new_SingleFileDiskManager IoOk (db_file (disk_ b'))) next') q =
      contents m q.
Proof.
  intros Hd Hex Hq. change (dm_inv (P:=Page) d) in Hd. destruct (run_ok n d next ls m Hd Hex) as (HI & _). rewrite Hq in HI.
  destruct (FlushAllPages_ok (m_pool m) HI) as (b' & E & HI2 & _ & Hdisk). exists b'. split; [done|].
  intros q Hq0. destruct (reopen_ok (disk_ b') (pi_disk _ _ HI2)) as [Hi2 Hp].
  change (dm_inv (P:=Page) (new_SingleFileDiskManager IoOk (db_file (disk_ b')))) in Hi2.
  destruct (new_pool_ok (P:=Page) (R:=ArcReplacer) n' _ next' Hi2) as [_ HV]. rewrite HV. unfold contents.
  rewrite Hq, decide_False, <-Hdisk by (done || apply not_elem_of_nil). by apply Hp.
Qed.
Lemma pool_durable_witness :
  dm_page (P:=Page) (disk_ (m_pool dirty_file)) 3 ≠ page_of [Byte.x07] ∧
  ∃ b', FlushAllPages IoOk (m_pool dirty_file) = (Ok tt, b') ∧
    view (new_BufferPoolManager (R:=ArcReplacer) 2 (new_SingleFileDiskManager IoOk (db_file (disk_ b'))) 10) 3 = page_of [Byte.x07].
Proof.
  split; [intros E; apply (f_equal (λ p, page_data p !! 0%nat)) in E; vm_compute in E; congruence|].
  destruct (pool_durable 1 2 (new_SingleFileDiskManager IoOk []) 10 10 (zip dirtied.*2 (run_script (mkMachine small_pool []) dirtied).1) dirty_file)
    as (b' & E & HV).
  - apply (new_disk_ok [] 0). reflexivity.
  - apply run_script_exec. vm_compute. reflexivity.
  - vm_compute. reflexivity.
  - exists b'. split; [exact E|]. rewrite HV by lia. vm_compute. reflexivity.
Defined.

(** C36: Any sequence of calls of the ARC replacer, in which an access registers a frame of the pool for a page
    that no other frame holds, behaves as the set of alive frames with their flags: [Evict] returns an
    evictable frame whenever there is one and never a pinned one, [SetEvictable] and [Remove] fail exactly on
    frames that are not registered, respectively pinned; and the bookkeeping stays within the bounds of the
    ARC paper: recent pages and their ghosts number at most the pool size, all four lists together at most
    twice of it, the target lies between 0 and the pool size, and [Size] counts the evictable frames. *)
Theorem arc_refines_evictable_set (c : Z) (ls : list (arc_op * result (option Z))) (a : ArcReplacer) :
  0 ≤ c → arc_exec c (new_ArcReplacer c) ls a →
  arc_trace ∅ ls (arc_alive a) ∧ recent a ≤ c ∧ total a ≤ 2 * c ∧ 0 ≤ mru_target_size_ a ≤ c ∧
  Size a = Z.of_nat (size (filter (λ e, e.2.2 = true) (arc_alive a))).
Proof.
  intros Hc Hex. destruct (arc_exec_ok c _ ls a (new_arc_ok c Hc) Hex) as [Hi Ht].
  assert (arc_alive (new_ArcReplacer c) = ∅) as E0 by apply fmap_empty. rewrite E0 in Ht.
  split_and!; [done|apply (ai_recent _ _ Hi)|apply (ai_total _ _ Hi)|apply (ab_target _ _ (ai_base _ _ Hi))..|].
  exact (@rep_Size_ok _ arc_replacer _ c a Hi).
Qed.
Lemma arc_refines_evictable_set_witness :
  let a := (arc_run_op OpEvict (arc_run_op (OpSetEvictable 0 true) (arc_run_op (OpAccess 0 5) (new_ArcReplacer 1)).2).2).2 in
  arc_trace ∅ [(OpAccess 0 5, Ok None); (OpSetEvictable 0 true, Ok None); (OpEvict, Ok (Some 0))] (arc_alive a).
Proof.
  refine (proj1 (arc_refines_evictable_set 1 _ _ _ _)); [lia|].
  econstructor; [|reflexivity|].
  { split_and!; [lia|lia|..]; intros *; unfold arc_alive; simpl; rewrite fmap_empty, lookup_empty; done. }
  econstructor; [exact I|reflexivity|]. econstructor; [exact I|reflexivity|]. apply arc_exec_nil.
Defined.

(** Failed disk requests go unnoticed, on one frame over a new file.  A [FlushPage] whose write fails
    returns true and marks the page clean, as [WritePageGuard::Flush] does, so the page's last bytes are gone
    once its frame is reused; a read that fails leaves the bytes of the page that was in the frame before,
    and they are served as the page asked for. *)
Theorem io_errors_lose_pages :
  (failed_FlushPage small_pool).1 = Ok (true, Some Byte.x00) ∧
  (failed_guard_Flush small_pool).1 = Ok (Some Byte.x00) ∧
  (failed_read small_pool).1 = Ok (Some Byte.x07).
Proof. vm_compute. done. Qed.

(** Four interleavings on a pool of one frame.  The last section of [FlushPage] throws "Frame ID not
    found" when the frame was unpinned and recycled after the flush released its pin; [DeletePage] in that
    same window throws "Frame ID not evictable" with the frame already on the free list and still registered
    for the page in the replacer; a page deleted while its write-back is in flight comes back: its
    identifier is allocated again and reads as the old bytes, not as zeroes; and so does a page that is read
    again after [DeletePage] released the pool latch and before it deallocated the page. *)
Theorem pool_races :
  (∃ m m', steps (start 1) (zip recycled.*2 (outcomes 1 recycled)) m ∧ Forall (eq None) (outcomes 1 recycled) ∧
     step m LFlushEnd (Some (ERange "Frame ID not found")) m') ∧
  (∃ m m', steps (start 1) (zip flushed.*2 (outcomes 1 flushed)) m ∧
     step m (LDelete 3 false) (Some (ERange "Frame ID not evictable")) m' ∧
     free_frames_ (m_pool m') = [0] ∧ arc_alive (replacer_ (m_pool m')) !! 0 = Some (3, false)) ∧
  (∃ m, steps (start 1) (zip resurrected.*2 (outcomes 1 resurrected)) m ∧ length (outcomes 1 resurrected) = length resurrected ∧
     last resurrected = Some (0%nat, LRead 3 7) ∧ view (m_pool m) 3 = 7) ∧
  (∃ m, steps (start 1) (zip cached.*2 (outcomes 1 cached)) m ∧ length (outcomes 1 cached) = length cached ∧
     last cached = Some (0%nat, LRead 3 7) ∧ view (m_pool m) 3 = 7).
Proof.
  split_and!.
  - exists (after 1 recycled). eexists. split_and!.
    + apply after_steps. vm_compute. eauto.
    + vm_compute. repeat constructor.
    + apply (do_step_sound 0). vm_compute. reflexivity.
  - exists (after 1 flushed). eexists. split_and!.
    + apply after_steps. vm_compute. eauto.
    + apply (do_step_sound 0). vm_compute. reflexivity.
    + reflexivity.
    + reflexivity.
  - exists (after 1 resurrected). split_and!; [apply after_steps; vm_compute; eauto|reflexivity..].
  - exists (after 1 cached). split_and!; [apply after_steps; vm_compute; eauto|reflexivity..].
Qed.
