(* ===== verification/NumericText.v ===== *)
(** * Numbers and text ([common/numeric_utils.*, type/vector/operator/cast_operators.h])

    Digits of integers, written backwards into a caller's buffer ([FormatUnsigned], [FormatSigned],
    [FormatDecimal]), the checked casts between integer types ([NumericTryCast]) and from text
    ([TryIntegerCast]).  A character is its code; a buffer is the list of its characters, and a write
    outside it is undefined.  Floating point is not modelled: the exponent handler of the integer parser
    is the template argument it is in the code. *)

From S2P Require Import Prelude.

(** ** Characters *)

Definition code (a : Ascii.ascii) : Z := Z.of_nat (Ascii.nat_of_ascii a).
Definition text (s : string) : list Z := code <$> String.list_ascii_of_string s.

Definition CharacterIsDigit (c : Z) : bool := bool_decide (48 ≤ c ≤ 57).
Definition CharacterIsSpace (c : Z) : bool := bool_decide (c = 32 ∨ c = 9 ∨ c = 10 ∨ c = 11 ∨ c = 12 ∨ c = 13).
Definition CharacterToLower (c : Z) : Z := if bool_decide (65 ≤ c ≤ 90) then c - (65 - 97) else c.

(** ** Buffers *)

(** [buf[i] = c]. *)
Definition poke (buf : list Z) (i c : Z) : result (list Z) :=
  if bool_decide (0 ≤ i < Z.of_nat (length buf)) then Ok (<[Z.to_nat i := c]> buf) else Err EUndefined.
(** [StringVector::EmptyString]: [len] bytes and a terminator, with whatever they held. *)
Definition EmptyString (junk len : Z) : list Z := replicate (Z.to_nat (len + 1)) junk.
(** The string of [len] bytes over a buffer. *)
Definition string_of (len : Z) (buf : list Z) : list Z := take (Z.to_nat len) buf.

(** [while (ptr > lo) { *--ptr = '0'; }] *)
Fixpoint pad_loop (n : nat) (ptr : Z) (buf : list Z) : result (list Z) :=
  match n with
  | O => Ok buf
  | S n => buf ← poke buf (ptr - 1) 48; pad_loop n (ptr - 1) buf
  end.
Definition pad_zeros (lo ptr : Z) (buf : list Z) : result (list Z) := pad_loop (Z.to_nat (ptr - lo)) ptr buf.

(** ** Digits *)

Definition DIGITS : list Z :=
  text "0001020304050607080910111213141516171819" ++ text "2021222324252627282930313233343536373839" ++
  text "4041424344454647484950515253545556575859" ++ text "6061626364656667686970717273747576777879" ++
  text "8081828384858687888990919293949596979899".
Definition digit_at (i : Z) : result Z :=
  match (if bool_decide (0 ≤ i) then DIGITS !! Z.to_nat i else None) with Some c => Ok c | None => Err EUndefined end.
Definition POWERS_OF_TEN : list Z := (λ n : nat, 10 ^ Z.of_nat n) <$> seq 0 19.

(** Two digits at [ptr - 2], from the table. *)
Definition poke_pair (buf : list Z) (ptr index : Z) : result (list Z) :=
  c1 ← digit_at (index + 1); buf ← poke buf (ptr - 1) c1;
  c0 ← digit_at index; poke buf (ptr - 2) c0.

(** [FormatUnsigned]: the position of the first digit, and the buffer.  Eleven turns are enough for any
    64-bit value. *)
Fixpoint FormatUnsigned_loop (fuel : nat) (value ptr : Z) (buf : list Z) : result (Z * list Z) :=
  if bool_decide (value >= 100) then
    match fuel with
    | O => Err EUndefined
    | S fuel =>
        buf ← poke_pair buf ptr (value mod 100 * 2);
        FormatUnsigned_loop fuel (value / 100) (ptr - 2) buf
    end
  else if bool_decide (value < 10) then
    buf ← poke buf (ptr - 1) (48 + value); Ok (ptr - 1, buf)
  else buf ← poke_pair buf ptr (value * 2); Ok (ptr - 2, buf).
Definition FormatUnsigned : Z → Z → list Z → result (Z * list Z) := FormatUnsigned_loop 11.

Definition at_least (value n : Z) : Z := Z.b2z (bool_decide (value >= n)).
Definition UnsignedLength8 (value : Z) : Z := 1 + at_least value 10 + at_least value 100.
Definition UnsignedLength16 (value : Z) : Z :=
  1 + at_least value 10 + at_least value 100 + at_least value 1000 + at_least value 10000.
Definition UnsignedLength32 (value : Z) : Z :=
  if bool_decide (value >= 10000) then
    5 + at_least value 100000 + at_least value 1000000 + at_least value 10000000 + at_least value 100000000 +
      at_least value 1000000000
  else 1 + at_least value 10 + at_least value 100 + at_least value 1000.
Definition UnsignedLength64 (value : Z) : Z :=
  if bool_decide (value >= 10000000000) then
    if bool_decide (value >= 1000000000000000) then
      16 + at_least value 10000000000000000 + at_least value 100000000000000000 +
        at_least value 1000000000000000000 + at_least value 10000000000000000000
    else 11 + at_least value 100000000000 + at_least value 1000000000000 + at_least value 10000000000000 +
      at_least value 100000000000000
  else if bool_decide (value >= 100000) then
    6 + at_least value 1000000 + at_least value 10000000 + at_least value 100000000 + at_least value 1000000000
  else 1 + at_least value 10 + at_least value 100 + at_least value 1000 + at_least value 10000.

(** ** The integer types *)

Inductive int_type := I8 | I16 | I32 | I64 | U8 | U16 | U32 | U64.
#[global] Instance int_type_eq_dec : EqDecision int_type.
Proof. solve_decision. Defined.
Definition width (t : int_type) : Z := match t with I8 | U8 => 8 | I16 | U16 => 16 | I32 | U32 => 32 | I64 | U64 => 64 end.
Definition IsSigned (t : int_type) : bool := match t with I8 | I16 | I32 | I64 => true | _ => false end.
Definition Minimum (t : int_type) : Z := if IsSigned t then - 2 ^ (width t - 1) else 0.
Definition Maximum (t : int_type) : Z := if IsSigned t then 2 ^ (width t - 1) - 1 else 2 ^ width t - 1.
Definition Digits (t : int_type) : Z :=
  match t with I8 | U8 => 3 | I16 | U16 => 5 | I32 | U32 => 10 | I64 => 19 | U64 => 20 end.
(** [static_cast<T>]. *)
Definition narrow (t : int_type) (z : Z) : Z := if IsSigned t then wrap_s (width t) z else wrap_u (width t) z.
Definition in_range (t : int_type) (z : Z) : Prop := Minimum t ≤ z ≤ Maximum t.
#[global] Instance in_range_dec t z : Decision (in_range t z).
Proof. unfold in_range. apply _. Defined.

Definition UnsignedLength (t : int_type) (value : Z) : Z :=
  match t with
  | I8 | U8 => UnsignedLength8 value
  | I16 | U16 => UnsignedLength16 value
  | I32 | U32 => UnsignedLength32 value
  | I64 | U64 => UnsignedLength64 value
  end.

(** [int sign = -(value < 0)] and the absolute value through [value ^ sign]. *)
Definition sign_of (value : Z) : Z := - Z.b2z (bool_decide (value < 0)).
Definition unsigned_value (t : int_type) (value : Z) : Z :=
  wrap_u (width t) (wrap_u (width t) (Z.lxor value (sign_of value)) - sign_of value).
Definition SignedLength (t : int_type) (value : Z) : Z :=
  UnsignedLength t (unsigned_value t value) - sign_of value.
(** [junk] is what the heap held. *)
Definition FormatSigned (t : int_type) (junk value : Z) : result (list Z) :=
  let len := UnsignedLength t (unsigned_value t value) - sign_of value in
  let buf := EmptyString junk len in
  '(endptr, buf) ← FormatUnsigned (unsigned_value t value) len buf;
  buf ← (if bool_decide (sign_of value ≠ 0) then poke buf (endptr - 1) 45 else Ok buf);
  buf ← poke buf len 0;
  Ok (string_of len buf).

(** ** Decimals *)

Definition DecimalLength (t : int_type) (value scale : Z) : Z :=
  if bool_decide (scale = 0) then SignedLength t value
  else Z.max (scale + 2 + Z.b2z (bool_decide (value < 0))) (SignedLength t value + 1).
(** [value = -value]: types narrower than [int] wrap at the minimum, the others overflow. *)
Definition negate (t : int_type) (value : Z) : result Z :=
  if bool_decide (width t < 32) then Ok (narrow t (- value))
  else if bool_decide (- value ≤ Maximum t) then Ok (- value) else Err EUndefined.
Definition power_of_ten (scale : Z) : result Z :=
  match (if bool_decide (0 ≤ scale) then POWERS_OF_TEN !! Z.to_nat scale else None) with Some p => Ok p | None => Err EUndefined end.
Definition FormatDecimal (t : int_type) (value scale len : Z) (dst : list Z) : result (list Z) :=
  '(value, dst) ← (if bool_decide (value < 0)
                   then v ← negate t value; dst ← poke dst 0 45; Ok (v, dst) else Ok (value, dst));
  if bool_decide (scale = 0) then
    '(_, dst) ← FormatUnsigned (wrap_u (width t) value) len dst; Ok dst
  else
    p ← power_of_ten scale;
    let minor := wrap_u (width t) (Z.rem value (wrap_u (width t) p)) in
    let major := wrap_u (width t) (Z.quot value (wrap_u (width t) p)) in
    '(ptr, dst) ← FormatUnsigned minor len dst;
    dst ← pad_zeros (len - scale) ptr dst;
    let ptr := Z.min ptr (len - scale) in
    dst ← poke dst (ptr - 1) 46;
    '(_, dst) ← FormatUnsigned major (ptr - 1) dst;
    Ok dst.
Definition DecimalToString (t : int_type) (junk value scale : Z) : result (list Z) :=
  let len := DecimalLength t value scale in
  dst ← FormatDecimal t value scale len (EmptyString junk len);
  Ok (string_of len dst).

(** [StringCast] of the integer types, and [StringCastFromDecimal] of the types that back a DECIMAL. *)
Definition StringCast (t : int_type) (junk value : Z) : result (list Z) := FormatSigned t junk value.
Definition StringCastFromDecimal (t : int_type) (junk input scale : Z) : result (list Z) :=
  match t with
  | I16 | I32 | I64 => DecimalToString t junk input scale
  | _ => Err (EException NOT_IMPLEMENTED "StringCastFromDecimal: unsupported backing type")
  end.

(** ** Casts between integer types *)

Definition NumericTryCast (src dst : int_type) (value : Z) : option Z :=
  if bool_decide (IsSigned src ≠ IsSigned dst) then
    if IsSigned src then
      if bool_decide (Digits src > Digits dst) then
        if bool_decide (value < 0 ∨ value > narrow src (Maximum dst)) then None else Some (narrow dst value)
      else if bool_decide (value < 0) then None else Some (narrow dst value)
    else if bool_decide (Digits src >= Digits dst) then
      if bool_decide (value ≤ narrow src (Maximum dst)) then Some (narrow dst value) else None
    else Some (narrow dst value)
  else if bool_decide (Digits dst >= Digits src) then Some (narrow dst value)
  else if bool_decide (value < narrow src (Minimum dst) ∨ value > narrow src (Maximum dst)) then None
  else Some (narrow dst value).

(** ** Integers from text *)

(** [IntegerCastOperation::HandleDigit]; the division truncates towards zero. *)
Definition HandleDigit (t : int_type) (negative : bool) (result digit : Z) : option Z :=
  if negative then
    if bool_decide (result < Z.quot (Minimum t + digit) 10) then None else Some (narrow t (result * 10 - digit))
  else
    if bool_decide (result > Z.quot (Maximum t - digit) 10) then None else Some (narrow t (result * 10 + digit)).

(** The loop of [IntegerCastLoop] from position [pos] on: [any] is [pos > start_pos], [expo] what follows
    an exponent sign, when exponents are allowed. *)
Fixpoint cast_loop (t : int_type) (negative : bool) (expo : option (list Z → Z → option Z)) (any : bool) (result : Z)
    (buf : list Z) : option Z :=
  match buf with
  | [] => if any then Some result else None
  | c :: rest =>
      if negb (CharacterIsDigit c) then
        if bool_decide (c = 46) then None
        else if CharacterIsSpace c then
          if forallb CharacterIsSpace rest then Some result else None
        else match expo with
             | None => None
             | Some h => if bool_decide (c = 101 ∨ c = 69) then if any then h rest result else None else None
             end
      else
        match HandleDigit t negative result (wrap_u 8 (c - 48)) with
        | None => None
        | Some result => cast_loop t negative expo true result rest
        end
  end.
(** [start_pos]: the sign of a negative number was seen by the caller, a plus is skipped here. *)
Definition skip_sign (negative : bool) (buf : list Z) : list Z :=
  match buf with c :: rest => if negative || bool_decide (c = 43) then rest else buf | [] => [] end.
(** The loop for the exponent itself, an [int64_t] without an exponent of its own. *)
Definition cast_exponent (buf : list Z) : option Z :=
  match buf with
  | [] => None
  | c :: _ => let negative := bool_decide (c = 45) in cast_loop I64 negative None false 0 (skip_sign negative buf)
  end.

Section integer_cast.
(** [OP::HandleExponent]: the result scaled by a power of ten, through [double]. *)
Context (HandleExponent : int_type → Z → Z → option Z).

Definition IntegerCastLoop (t : int_type) (negative allow_exponent : bool) (buf : list Z) : option Z :=
  let expo := λ rest result, match cast_exponent rest with Some e => HandleExponent t result e | None => None end in
  cast_loop t negative (if allow_exponent then Some expo else None) false 0 (skip_sign negative buf).

Fixpoint skip_spaces (buf : list Z) : list Z :=
  match buf with c :: rest => if CharacterIsSpace c then skip_spaces rest else buf | [] => [] end.

(** [TryIntegerCast::Operation]; the result is cleared first. *)
Definition TryIntegerCast (t : int_type) (allow_exponent : bool) (buf : list Z) : option Z :=
  match skip_spaces buf with
  | [] => None
  | c :: rest =>
      if negb (bool_decide (c = 45)) then IntegerCastLoop t false allow_exponent (c :: rest)
      else if negb (IsSigned t) && negb (forallb (λ d, bool_decide (d = 48)) rest) then None
      else IntegerCastLoop t true allow_exponent (c :: rest)
  end.
End integer_cast.

(** ** Decimal notation *)

(** The last [n] digits of [v]. *)
Fixpoint decimal (n : nat) (v : Z) : list Z :=
  match n with O => [] | S n => decimal n (v / 10) ++ [48 + v mod 10] end.
(** The number a list of digits stands for. *)
Definition value_of (ds : list Z) : Z := foldl (λ a c, a * 10 + (c - 48)) 0 ds.
(** [v] has exactly [k] digits. *)
Definition has_digits (v : Z) (k : nat) : Prop :=
  0 ≤ v < 10 ^ Z.of_nat k ∧ (1 ≤ k)%nat ∧ (k = 1%nat ∨ 10 ^ (Z.of_nat k - 1) ≤ v).

Lemma decimal_length n v : length (decimal n v) = n.
Proof. revert v. induction n as [|n IH]; intros v; [done|]. simpl. rewrite length_app, IH. simpl. lia. Qed.
Lemma pow10_S n : 10 ^ Z.of_nat (S n) = 10 * 10 ^ Z.of_nat n.
Proof. rewrite Nat2Z.inj_succ. apply Z.pow_succ_r. lia. Qed.
Lemma pow10_pos n : 0 < 10 ^ Z.of_nat n.
Proof. apply Z.pow_pos_nonneg; lia. Qed.
Lemma decimal_2 n v : decimal (S (S n)) v = decimal n (v / 100) ++ [48 + v / 10 mod 10; 48 + v mod 10].
Proof. simpl. rewrite <-app_assoc. rewrite Z.div_div by lia. done. Qed.
(** Leading zeros. *)
Lemma decimal_pad n k v : (k ≤ n)%nat → 0 ≤ v < 10 ^ Z.of_nat k → decimal n v = replicate (n - k) 48 ++ decimal k v.
Proof.
  revert k v. induction n as [|n IH]; intros k v Hk Hv; [by replace k with 0%nat by lia|].
  destruct k as [|k].
  - change (10 ^ Z.of_nat 0) with 1 in Hv. assert (v = 0) as -> by lia. cbn [decimal]. change (0 / 10) with 0. rewrite (IH 0%nat 0) by (simpl; lia). cbn [decimal].
    rewrite !app_nil_r, !Nat.sub_0_r. change (48 + 0 mod 10) with 48. by rewrite <-replicate_cons_app.
  - rewrite pow10_S in Hv. simpl. rewrite (IH k (v / 10)); [by rewrite app_assoc|lia|].
    split; [apply Z.div_pos; lia|apply Z.div_lt_upper_bound; lia].
Qed.
Lemma value_snoc ds c : value_of (ds ++ [c]) = value_of ds * 10 + (c - 48).
Proof. unfold value_of. by rewrite foldl_app. Qed.
Lemma value_decimal n v : 0 ≤ v < 10 ^ Z.of_nat n → value_of (decimal n v) = v.
Proof.
  revert v. induction n as [|n IH]; intros v Hv; [change (10 ^ Z.of_nat 0) with 1 in Hv; change (0 = v); lia|].
  rewrite pow10_S in Hv. simpl. rewrite value_snoc, IH.
  - pose proof (Z.div_mod v 10). lia.
  - split; [apply Z.div_pos; lia|apply Z.div_lt_upper_bound; lia].
Qed.
Lemma decimal_digits n v : 0 ≤ v → Forall (λ c, CharacterIsDigit c = true) (decimal n v).
Proof.
  revert v. induction n as [|n IH]; intros v Hv; simpl; [constructor|]. apply Forall_app. split.
  - apply IH, Z.div_pos; lia.
  - constructor; [|constructor]. unfold CharacterIsDigit. apply bool_decide_eq_true. pose proof (Z.mod_pos_bound v 10). lia.
Qed.
Lemma has_digits_unique v k : has_digits v k → (2 ≤ k)%nat → 10 ≤ v.
Proof.
  intros (_ & _ & [->|Hk]) H2; [lia|]. pose proof (Z.pow_le_mono_r 10 1 (Z.of_nat k - 1)). lia.
Qed.

(** ** Writing into a buffer *)

Lemma bind_ok {A B} (a : A) (f : A → result B) : (Ok a ≫= f) = f a.
Proof. done. Qed.
Lemma poke_app (a b : list Z) x c i : i = Z.of_nat (length a) → poke (a ++ x :: b) i c = Ok (a ++ c :: b).
Proof.
  intros ->. unfold poke. rewrite bool_decide_true by (rewrite length_app; simpl; lia). rewrite Nat2Z.id.
  by rewrite insert_app_r_alt, Nat.sub_diag by lia.
Qed.
Lemma poke_hd (b : list Z) x c i : i = 0 → poke (x :: b) i c = Ok (c :: b).
Proof. intros ->. by apply (poke_app []). Qed.
Lemma digit_at_ok i : 0 ≤ i < 100 → digit_at (i * 2) = Ok (48 + i / 10) ∧ digit_at (i * 2 + 1) = Ok (48 + i mod 10).
Proof.
  intros Hi. assert (Forall (λ n : nat, digit_at (Z.of_nat n * 2) = Ok (48 + Z.of_nat n / 10) ∧
    digit_at (Z.of_nat n * 2 + 1) = Ok (48 + Z.of_nat n mod 10)) (seq 0 100)) as Hall.
  { apply Forall_seq. intros j Hj. do 100 (destruct j as [|j]; [done|]). lia. }
  rewrite Forall_seq in Hall. specialize (Hall (Z.to_nat i)). rewrite Z2Nat.id in Hall by lia. apply Hall. lia.
Qed.
Lemma poke_pair_ok (a b : list Z) x y ptr i :
  ptr = Z.of_nat (length a) + 2 → 0 ≤ i < 100 →
  poke_pair (a ++ x :: y :: b) ptr (i * 2) = Ok (a ++ 48 + i / 10 :: 48 + i mod 10 :: b).
Proof.
  intros -> Hi. destruct (digit_at_ok i Hi) as [E0 E1]. unfold poke_pair. rewrite E1. simpl.
  replace (a ++ x :: y :: b) with ((a ++ [x]) ++ y :: b) by (by rewrite <-app_assoc).
  rewrite poke_app by (rewrite length_app; simpl; lia). simpl. rewrite E0. simpl.
  rewrite <-app_assoc. simpl. apply poke_app. lia.
Qed.

Lemma has_digits_ge v k n : has_digits v k → (1 ≤ n)%nat → 10 ^ Z.of_nat n ≤ v ↔ (n < k)%nat.
Proof.
  intros (Hr & Hk1 & Hlow) Hn. split.
  - intros Hv. destruct (decide (n < k)%nat) as [|Hk]; [done|]. pose proof (Z.pow_le_mono_r 10 (Z.of_nat k) (Z.of_nat n)). lia.
  - intros Hk. destruct Hlow as [->|Hlow]; [lia|]. pose proof (Z.pow_le_mono_r 10 (Z.of_nat n) (Z.of_nat k - 1)). lia.
Qed.
Lemma has_digits_100 v k : has_digits v k → (2 < k)%nat → has_digits (v / 100) (k - 2).
Proof.
  intros Hv Hk. pose proof Hv as (Hr & _ & Hlow). split; [|split].
  - split; [apply Z.div_pos; lia|]. apply Z.div_lt_upper_bound; [lia|].
    replace (Z.of_nat k) with (2 + Z.of_nat (k - 2)) in Hr by lia. rewrite Z.pow_add_r in Hr by lia. lia.
  - lia.
  - destruct (decide (k = 3)%nat) as [->|Hk3]; [by left|right]. destruct Hlow as [->|Hlow]; [lia|].
    apply Z.div_le_lower_bound; [lia|]. replace (Z.of_nat k - 1) with (2 + (Z.of_nat (k - 2) - 1)) in Hlow by lia.
    rewrite Z.pow_add_r in Hlow by lia. lia.
Qed.
Lemma div_mod_100 v : 0 ≤ v → v mod 100 / 10 = v / 10 mod 10 ∧ v mod 100 mod 10 = v mod 10.
Proof.
  intros Hv. pose proof (Z.div_mod v 100). pose proof (Z.mod_pos_bound v 100).
  pose proof (Z.div_mod (v mod 100) 10). pose proof (Z.mod_pos_bound (v mod 100) 10).
  assert (v / 10 = v / 100 * 10 + v mod 100 / 10) as E by (symmetry; apply (Z.div_unique v 10 _ (v mod 100 mod 10)); lia).
  split.
  - rewrite E. apply (Z.mod_unique _ 10 (v / 100)); [|lia]. left. split; [apply Z.div_pos; lia|apply Z.div_lt_upper_bound; lia].
  - apply (Z.mod_unique v 10 (v / 10)); lia.
Qed.
Lemma gap_pair (gap : list Z) n : length gap = S (S n) → ∃ g x y, gap = g ++ [x; y] ∧ length g = n.
Proof.
  intros Hg. destruct gap as [|y gap _] using rev_ind; [done|]. rewrite length_app in Hg. simpl in Hg.
  destruct gap as [|x gap _] using rev_ind; [simpl in Hg; lia|]. rewrite length_app in Hg. simpl in Hg.
  exists gap, x, y. rewrite <-app_assoc. split; [done|lia].
Qed.

(** The last one or two digits. *)
Lemma small_digits_ok k v (pre gap post : list Z) ptr :
  has_digits v k → ¬ (v >= 100) → length gap = k → ptr = Z.of_nat (length pre + k) →
  (if bool_decide (v < 10) then buf ← poke (pre ++ gap ++ post) (ptr - 1) (48 + v); Ok (ptr - 1, buf)
   else buf ← poke_pair (pre ++ gap ++ post) ptr (v * 2); Ok (ptr - 2, buf)) =
  Ok (Z.of_nat (length pre), pre ++ decimal k v ++ post).
Proof.
  intros Hv Hs Hg Hp. pose proof Hv as (Hr & Hk1 & _).
  pose proof (has_digits_ge v k 1 Hv) as H10. change (10 ^ Z.of_nat 1) with 10 in H10.
  pose proof (has_digits_ge v k 2 Hv) as H100. change (10 ^ Z.of_nat 2) with 100 in H100.
  case_bool_decide.
  - destruct gap as [|x [|y gap]]; simpl in *; [lia| |lia]. subst k. rewrite poke_app by lia. simpl.
    rewrite Z.mod_small by lia. f_equal. f_equal. lia.
  - destruct gap as [|x [|y [|z gap]]]; simpl in *; [lia|lia| |lia]. subst k.
    rewrite poke_pair_ok by lia. simpl. rewrite (Z.mod_small (v / 10)).
    + f_equal. f_equal. lia.
    + split; [apply Z.div_pos; lia|apply Z.div_lt_upper_bound; lia].
Qed.

(** The digits land right-aligned at [ptr], and nothing else is touched. *)
Lemma FormatUnsigned_loop_ok fuel k v (pre gap post : list Z) ptr :
  has_digits v k → length gap = k → ptr = Z.of_nat (length pre + k) → (k ≤ 2 * fuel + 2)%nat →
  FormatUnsigned_loop fuel v ptr (pre ++ gap ++ post) = Ok (Z.of_nat (length pre), pre ++ decimal k v ++ post).
Proof.
  revert k v gap post ptr. induction fuel as [|fuel IH]; intros k v gap post ptr Hv Hg Hp Hf; cbn [FormatUnsigned_loop].
  all: pose proof Hv as (Hr & Hk1 & Hlow).
  all: pose proof (has_digits_ge v k 2 Hv) as H100; change (10 ^ Z.of_nat 2) with 100 in H100.
  - rewrite bool_decide_false by lia. apply small_digits_ok; [done|lia|done|done].
  - case_bool_decide as Hbig; [|by apply small_digits_ok].
    destruct (gap_pair gap (k - 2)) as (g & x & y & -> & Hlg); [lia|].
    rewrite <-app_assoc, (app_assoc pre). simpl.
    rewrite poke_pair_ok by (rewrite ?length_app; lia || (apply Z.mod_pos_bound; lia)). simpl.
    destruct (div_mod_100 v) as [-> ->]; [lia|]. rewrite <-app_assoc.
    rewrite (IH (k - 2)%nat (v / 100) g); [|apply has_digits_100; [done|lia]|done|lia|lia].
    replace k with (S (S (k - 2))) at 2 by lia. by rewrite decimal_2, <-!app_assoc.
Qed.
Lemma FormatUnsigned_ok k v (pre gap post : list Z) ptr :
  has_digits v k → length gap = k → ptr = Z.of_nat (length pre + k) → (k ≤ 24)%nat →
  FormatUnsigned v ptr (pre ++ gap ++ post) = Ok (Z.of_nat (length pre), pre ++ decimal k v ++ post).
Proof. intros. by apply FormatUnsigned_loop_ok. Qed.
Lemma digits_exist n v : (1 ≤ n)%nat → 0 ≤ v < 10 ^ Z.of_nat n → ∃ k, (k ≤ n)%nat ∧ has_digits v k.
Proof.
  induction n as [|n IH]; [lia|]. intros _ Hv. destruct (decide (n = 0)%nat) as [->|Hn].
  { exists 1%nat. split; [done|]. split_and!; [lia|exact (proj2 Hv)|lia|by left]. }
  destruct (decide (v < 10 ^ Z.of_nat n)) as [Hlt|Hge].
  - destruct IH as (k & ? & ?); [lia|lia|]. exists k. split; [lia|done].
  - exists (S n). split; [done|]. split; [done|]. split; [lia|]. right. replace (Z.of_nat (S n) - 1) with (Z.of_nat n) by lia. lia.
Qed.
Lemma pad_zeros_ok (pre gap post : list Z) lo ptr :
  lo = Z.of_nat (length pre) → ptr = lo + Z.of_nat (length gap) →
  pad_zeros lo ptr (pre ++ gap ++ post) = Ok (pre ++ replicate (length gap) 48 ++ post).
Proof.
  intros -> ->. unfold pad_zeros. replace (Z.to_nat _) with (length gap) by lia. revert post.
  induction gap as [|x gap IH] using rev_ind; intros post; [done|]. rewrite length_app. simpl. rewrite Nat.add_1_r. simpl.
  rewrite <-app_assoc, app_assoc. simpl. rewrite poke_app by (rewrite length_app; lia). simpl.
  rewrite <-app_assoc. replace (_ - 1) with (Z.of_nat (length pre) + Z.of_nat (length gap)) by lia.
  rewrite IH, (app_comm_cons _ post). by rewrite replicate_cons_app, <-app_assoc.
Qed.
(** A number right-aligned in a field, zero-filled on the left. *)
Lemma format_padded n v (pre gap post : list Z) lo ptr :
  (1 ≤ n ≤ 24)%nat → 0 ≤ v < 10 ^ Z.of_nat n → length gap = n → lo = Z.of_nat (length pre) → ptr = Z.of_nat (length pre + n) →
  ∃ p buf, FormatUnsigned v ptr (pre ++ gap ++ post) = Ok (p, buf) ∧ lo ≤ p ∧ pad_zeros lo p buf = Ok (pre ++ decimal n v ++ post).
Proof.
  intros Hn Hv Hg -> ->. destruct (digits_exist n v) as (k & Hk & Hd); [lia|done|].
  assert (pre ++ gap ++ post = (pre ++ take (n - k) gap) ++ drop (n - k) gap ++ post) as ->.
  { rewrite <-app_assoc, (app_assoc (take _ gap)). by rewrite take_drop. }
  rewrite (FormatUnsigned_ok k); [|done|rewrite length_drop; lia|rewrite length_app, length_take; lia|lia].
  eexists _, _. split; [done|]. split; [rewrite length_app; lia|].
  rewrite <-app_assoc. rewrite pad_zeros_ok; [|done|rewrite length_app; lia].
  rewrite length_take. replace (Nat.min (n - k) (length gap)) with (n - k)%nat by lia.
  rewrite (decimal_pad n k) by (lia || apply Hd). by rewrite <-!app_assoc.
Qed.

(** ** Lengths *)

Lemma has_digits_intro v (n lo hi : Z) :
  1 ≤ n → 10 ^ n = hi → 10 ^ (n - 1) = lo → (n = 1 ∨ lo ≤ v) → 0 ≤ v < hi → has_digits v (Z.to_nat n).
Proof.
  intros Hn <- <- Hlow Hv. unfold has_digits. rewrite !Z2Nat.id by lia. split; [done|]. split; [lia|].
  destruct Hlow as [->|?]; [by left|by right].
Qed.
Ltac length_case :=
  first [exfalso; lia|split; [eapply has_digits_intro; [|vm_compute; reflexivity|vm_compute; reflexivity|..]; lia|lia]].
Ltac length_cases := unfold at_least; repeat (case_bool_decide; try (exfalso; lia)); simpl Z.b2z; length_case.
Lemma UnsignedLength_ok t v : 0 ≤ v < 2 ^ width t → has_digits v (Z.to_nat (UnsignedLength t v)) ∧ 1 ≤ UnsignedLength t v ≤ 20.
Proof.
  intros Hv. destruct t; simpl in Hv; unfold UnsignedLength.
  - unfold UnsignedLength8. length_cases.
  - unfold UnsignedLength16. length_cases.
  - unfold UnsignedLength32. length_cases.
  - unfold UnsignedLength64. length_cases.
  - unfold UnsignedLength8. length_cases.
  - unfold UnsignedLength16. length_cases.
  - unfold UnsignedLength32. length_cases.
  - unfold UnsignedLength64. length_cases.
Qed.

(** ** Signed integers *)

Definition digits_of (v : Z) (ds : list Z) : Prop := ∃ k, has_digits v k ∧ (k ≤ 20)%nat ∧ ds = decimal k v.

Lemma unsigned_value_ok t v : in_range t v → unsigned_value t v = Z.abs v ∧ 0 ≤ Z.abs v < 2 ^ width t.
Proof.
  intros Hr. assert (0 ≤ Z.abs v < 2 ^ width t) as Hb.
  { unfold in_range, Minimum, Maximum in Hr. destruct t; simpl in *; lia. }
  split; [|done]. unfold unsigned_value, sign_of. case_bool_decide; simpl.
  - rewrite Z.lxor_m1_r. unfold Z.lnot. rewrite (wrap_u_small (width t) (Z.pred (- v))) by lia.
    rewrite wrap_u_small; lia.
  - rewrite Z.lxor_0_r, Z.sub_0_r, !wrap_u_small by (rewrite ?wrap_u_small; lia). lia.
Qed.
Lemma replicate_split {A} (x : A) n m : replicate (n + m) x = replicate n x ++ replicate m x.
Proof. apply replicate_add. Qed.

(** The text of [v], written inside its buffer whatever that held. *)
Lemma FormatSigned_ok t junk v :
  in_range t v → ∃ ds, digits_of (Z.abs v) ds ∧
    FormatSigned t junk v = Ok ((if bool_decide (v < 0) then [45] else []) ++ ds) ∧
    Z.of_nat (length ds) - sign_of v = SignedLength t v.
Proof.
  intros Hr. destruct (unsigned_value_ok t v Hr) as [Ev Hb]. destruct (UnsignedLength_ok t _ Hb) as [Hk Hlen].
  unfold FormatSigned, SignedLength. rewrite Ev. set (n := UnsignedLength t (Z.abs v)) in *. set (k := Z.to_nat n) in *.
  exists (decimal k (Z.abs v)). split; [exists k; split_and!; [exact Hk..|lia|done]|].
  rewrite decimal_length. split; [|lia]. unfold sign_of, EmptyString. case_bool_decide as Hneg; simpl Z.b2z; [change (- (1)) with (-1)|change (- (0)) with 0].
  - replace (Z.to_nat (n - -1 + 1)) with (1 + (k + 1))%nat by lia. rewrite !replicate_split. simpl (replicate 1 junk).
    pose proof (FormatUnsigned_ok k (Z.abs v) [junk] (replicate k junk) [junk] (n - -1) Hk) as E.
    rewrite E; [|apply length_replicate|simpl; lia|lia]. simpl.
    rewrite (app_comm_cons _ [junk]), poke_app by (simpl; rewrite decimal_length; lia). simpl. f_equal.
    unfold string_of. replace (Z.to_nat (n - -1)) with (S k) by lia. simpl. f_equal.
    by rewrite take_app_length' by (by rewrite decimal_length).
  - rewrite Z.sub_0_r. replace (Z.to_nat (n + 1)) with (k + 1)%nat by lia. rewrite !replicate_split. simpl (replicate 1 junk).
    pose proof (FormatUnsigned_ok k (Z.abs v) [] (replicate k junk) [junk] n Hk) as E.
    rewrite app_nil_l in E. rewrite E; [|apply length_replicate|simpl; lia|lia]. simpl.
    rewrite poke_app by (rewrite decimal_length; lia). simpl. f_equal.
    unfold string_of. by rewrite take_app_length' by (by rewrite decimal_length).
Qed.

(** ** Casts between integer types *)

Lemma narrow_in t z : in_range t z → narrow t z = z.
Proof.
  unfold in_range, Minimum, Maximum, narrow. destruct t; simpl; intros ?; (apply wrap_s_small || apply wrap_u_small); simpl; lia.
Qed.
(** Replace the bounds of concrete types by their values. *)
Ltac bounds_in H := unfold in_range in H;
  repeat match type of H with
  | context [Minimum ?t] => let r := eval vm_compute in (Minimum t) in change (Minimum t) with r in H
  | context [Maximum ?t] => let r := eval vm_compute in (Maximum t) in change (Maximum t) with r in H
  end.
Lemma narrow_bounds src dst :
  (IsSigned src = true → IsSigned dst = false → Digits src > Digits dst → narrow src (Maximum dst) = Maximum dst) ∧
  (IsSigned src = false → IsSigned dst = true → Digits src >= Digits dst → narrow src (Maximum dst) = Maximum dst) ∧
  (IsSigned src = IsSigned dst → Digits dst < Digits src → narrow src (Maximum dst) = Maximum dst ∧ narrow src (Minimum dst) = Minimum dst).
Proof. destruct src, dst; split_and!; intros; vm_compute in *; done. Qed.
(** Where the code does not compare with a bound, the type holds every value of the source. *)
Lemma digits_bounds src dst :
  (IsSigned src = true → IsSigned dst = false → ¬ (Digits src > Digits dst) → Minimum dst = 0 ∧ Maximum src ≤ Maximum dst) ∧
  (IsSigned src = true → IsSigned dst = false → Minimum dst = 0) ∧
  (IsSigned src = false → IsSigned dst = true → Minimum dst ≤ 0 ∧ Minimum src = 0) ∧
  (IsSigned src = false → IsSigned dst = true → ¬ (Digits src >= Digits dst) → Maximum src ≤ Maximum dst) ∧
  (IsSigned src = IsSigned dst → Digits dst >= Digits src → Minimum dst ≤ Minimum src ∧ Maximum src ≤ Maximum dst).
Proof. destruct src, dst; split_and!; intros; vm_compute in *; first [done|discriminate|split; first [done|discriminate]|exfalso; match goal with H : _ → False |- _ => apply H; first [done|discriminate] end]. Qed.
Lemma NumericTryCast_ok src dst v :
  in_range src v → NumericTryCast src dst v = if decide (in_range dst v) then Some v else None.
Proof.
  intros Hs. pose proof (narrow_in dst v) as Hn.
  destruct (narrow_bounds src dst) as (N1 & N2 & N3), (digits_bounds src dst) as (D1 & D2 & D3 & D4 & D5).
  unfold NumericTryCast, in_range in *.
  case_bool_decide as Hsg.
  - destruct (IsSigned src), (IsSigned dst); try done; case_bool_decide as Hd.
    + rewrite (N1 eq_refl eq_refl Hd). pose proof (D2 eq_refl eq_refl). case_bool_decide; case_decide; rewrite ?Hn by lia; done || lia.
    + destruct (D1 eq_refl eq_refl Hd). case_bool_decide; case_decide; rewrite ?Hn by lia; done || lia.
    + rewrite (N2 eq_refl eq_refl Hd). destruct (D3 eq_refl eq_refl). case_bool_decide; case_decide; rewrite ?Hn by lia; done || lia.
    + destruct (D3 eq_refl eq_refl). pose proof (D4 eq_refl eq_refl Hd). case_decide; rewrite ?Hn by lia; done || lia.
  - case_bool_decide as Hd.
    + destruct (D5 Hsg Hd). case_decide; rewrite ?Hn by lia; done || lia.
    + destruct (N3 Hsg) as [-> ->]; [lia|]. case_bool_decide; case_decide; rewrite ?Hn by lia; done || lia.
Qed.

(** ** Integers from text *)

Definition signed_by (negative : bool) (m : Z) : Z := if negative then - m else m.
(** The largest magnitude of that sign. *)
Definition limit (t : int_type) (negative : bool) : Z := if negative then - Minimum t else Maximum t.
Definition extend (m : Z) (ds : list Z) : Z := foldl (λ a c, a * 10 + (c - 48)) m ds.
Definition all_digits (ds : list Z) : Prop := Forall (λ c, CharacterIsDigit c = true) ds.

Lemma in_range_signed t negative m :
  0 ≤ m → (negative = true → IsSigned t = true) → in_range t (signed_by negative m) ↔ m ≤ limit t negative.
Proof.
  intros Hm Hs. unfold in_range, signed_by, limit. destruct negative.
  - assert (0 ≤ Maximum t) by (by destruct t). lia.
  - assert (Minimum t ≤ 0) by (by destruct t). lia.
Qed.
Lemma HandleDigit_ok t negative m d :
  (negative = true → IsSigned t = true) → 0 ≤ m ≤ limit t negative → 0 ≤ d ≤ 9 →
  HandleDigit t negative (signed_by negative m) d =
    if decide (m * 10 + d ≤ limit t negative) then Some (signed_by negative (m * 10 + d)) else None.
Proof.
  intros Hs Hm Hd. pose proof (λ H, narrow_in t _ (proj2 (in_range_signed t negative (m * 10 + d) ltac:(lia) Hs) H)) as Hn.
  assert (9 ≤ limit t negative) as Hl.
  { clear -Hs. unfold limit, Minimum, Maximum. destruct negative; [rewrite (Hs eq_refl)|]; destruct t; simpl; lia. }
  unfold HandleDigit, signed_by, limit in *. destruct negative.
  - replace (Minimum t + d) with (- (- Minimum t - d)) by lia. rewrite Z.quot_opp_l, Z.quot_div_nonneg by lia.
    pose proof (Z.mul_div_le (- Minimum t - d) 10). pose proof (Z.mul_succ_div_gt (- Minimum t - d) 10).
    replace (- m * 10 - d) with (- (m * 10 + d)) by lia. case_bool_decide; case_decide; try done; try lia. by rewrite Hn.
  - rewrite Z.quot_div_nonneg by lia.
    pose proof (Z.mul_div_le (Maximum t - d) 10). pose proof (Z.mul_succ_div_gt (Maximum t - d) 10).
    case_bool_decide; case_decide; try done; try lia. by rewrite Hn.
Qed.
Lemma digit_code c : CharacterIsDigit c = true → 0 ≤ c - 48 ≤ 9 ∧ wrap_u 8 (c - 48) = c - 48.
Proof. unfold CharacterIsDigit. intros H%bool_decide_eq_true. split; [lia|]. apply wrap_u_small. simpl. lia. Qed.
Lemma extend_ge m ds : 0 ≤ m → all_digits ds → m ≤ extend m ds.
Proof.
  intros Hm Hds. revert m Hm. induction Hds as [|c ds Hc Hds IH]; intros m Hm; simpl; [lia|].
  destruct (digit_code c Hc) as [? _]. etransitivity; [|apply IH]; lia.
Qed.
Lemma space_not_digit c : CharacterIsSpace c = true → CharacterIsDigit c = false ∧ c ≠ 46 ∧ c ≠ 43 ∧ c ≠ 45.
Proof.
  unfold CharacterIsSpace, CharacterIsDigit. intros H%bool_decide_eq_true. rewrite bool_decide_eq_false. lia.
Qed.
Lemma digit_not_space c : CharacterIsDigit c = true → CharacterIsSpace c = false ∧ c ≠ 43 ∧ c ≠ 45.
Proof. unfold CharacterIsSpace, CharacterIsDigit. intros H%bool_decide_eq_true. rewrite bool_decide_eq_false. lia. Qed.

(** The loop on digits and trailing blanks: the value, unless it leaves the type. *)
Lemma cast_loop_ok t negative expo any m ds sp :
  (negative = true → IsSigned t = true) → 0 ≤ m ≤ limit t negative → all_digits ds → forallb CharacterIsSpace sp = true →
  cast_loop t negative expo any (signed_by negative m) (ds ++ sp) =
    if decide (extend m ds ≤ limit t negative ∧ (any = true ∨ ds ++ sp ≠ [])) then Some (signed_by negative (extend m ds)) else None.
Proof.
  intros Hs Hm Hds Hsp. revert any m Hm. induction Hds as [|c ds Hc Hds IH]; intros any m Hm.
  - change (extend m []) with m. destruct sp as [|c sp]; cbn [app cast_loop].
    + destruct any; [rewrite decide_True by (split; [lia|by left])|rewrite decide_False by naive_solver]; done.
    + cbn [forallb] in Hsp. apply andb_true_iff in Hsp as [Hc Hsp]. destruct (space_not_digit c Hc) as (-> & H46 & _). cbn [negb].
      rewrite bool_decide_false, Hc, Hsp by done. by rewrite decide_True by (split; [lia|by right]).
  - simpl. rewrite Hc. simpl. destruct (digit_code c Hc) as [Hd ->]. rewrite HandleDigit_ok by done.
    case_decide as Hfit.
    + rewrite IH by lia. change (extend m (c :: ds)) with (extend (m * 10 + (c - 48)) ds).
      destruct (decide (extend (m * 10 + (c - 48)) ds ≤ limit t negative)) as [Hin|Hout].
      * rewrite !decide_True; [done|..]; split; auto.
      * rewrite !decide_False by tauto. done.
    + rewrite decide_False; [done|]. intros [Hin _]. apply Hfit. etransitivity; [|exact Hin].
      apply (extend_ge (m * 10 + (c - 48)) ds); [lia|done].
Qed.
Lemma skip_spaces_app sp buf : forallb CharacterIsSpace sp = true → skip_spaces (sp ++ buf) = skip_spaces buf.
Proof. induction sp as [|c sp IH]; simpl; [done|]. intros [-> H]%andb_true_iff. auto. Qed.

Inductive int_sign := NoSign | Plus | Minus.
Definition sign_text (s : int_sign) : list Z := match s with NoSign => [] | Plus => [43] | Minus => [45] end.
Definition is_minus (s : int_sign) : bool := match s with Minus => true | _ => false end.

(** Blanks, a sign, digits, blanks: accepted exactly when the value fits. *)
Lemma TryIntegerCast_ok h t allow sp1 s ds sp2 :
  (is_minus s = true → IsSigned t = true) → all_digits ds → ds ≠ [] →
  forallb CharacterIsSpace sp1 = true → forallb CharacterIsSpace sp2 = true →
  let v := signed_by (is_minus s) (value_of ds) in
  TryIntegerCast h t allow (sp1 ++ sign_text s ++ ds ++ sp2) = if decide (in_range t v) then Some v else None.
Proof.
  intros Hs Hds Hne H1 H2 v. unfold TryIntegerCast. rewrite skip_spaces_app by done.
  assert (0 ≤ value_of ds) as H0 by (by apply (extend_ge 0 ds)).
  assert (0 ≤ limit t (is_minus s)) as Hl by (by destruct s, t).
  assert (∀ neg : bool, neg = is_minus s → ∀ expo, cast_loop t neg expo false 0 (ds ++ sp2) = if decide (in_range t v) then Some v else None) as Hloop.
  { intros neg -> expo. pose proof (cast_loop_ok t (is_minus s) expo false 0 ds sp2 Hs ltac:(lia) Hds H2) as E.
    assert (signed_by (is_minus s) 0 = 0) as E0 by (by destruct s). rewrite E0 in E. rewrite E.
    apply decide_ext. unfold v. rewrite (in_range_signed t (is_minus s) (value_of ds)) by done. change (extend 0 ds) with (value_of ds).
    split; [tauto|]. intros ?. split; [done|]. right. by destruct ds. }
  destruct ds as [|c ds]; [done|]. apply Forall_cons in Hds as [Hc Hds]. destruct (digit_not_space c Hc) as (Hsp & H43 & H45).
  unfold IntegerCastLoop. destruct s; cbn [sign_text app skip_spaces].
  - rewrite Hsp, bool_decide_false by done. cbn [negb skip_sign orb]. rewrite bool_decide_false by done. by apply Hloop.
  - by apply Hloop.
  - cbn. rewrite (Hs eq_refl). by apply Hloop.
Qed.

(** ** Decimals *)

(** The digits before the point. *)
Lemma major_digits v k (s : nat) : has_digits v k → has_digits (v / 10 ^ Z.of_nat s) (Nat.max 1 (k - s)).
Proof.
  intros (Hr & Hk1 & Hlow). pose proof (pow10_pos s) as Hp. destruct (decide (k ≤ s)%nat) as [Hks|Hks].
  - replace (Nat.max 1 (k - s)) with 1%nat by lia. pose proof (Z.pow_le_mono_r 10 (Z.of_nat k) (Z.of_nat s)).
    rewrite Z.div_small by lia. split; [lia|]. split; [lia|by left].
  - replace (Nat.max 1 (k - s)) with (k - s)%nat by lia.
    assert (10 ^ Z.of_nat k = 10 ^ Z.of_nat s * 10 ^ Z.of_nat (k - s)) as E by (rewrite <-Z.pow_add_r by lia; f_equal; lia).
    split; [split; [apply Z.div_pos; lia|apply Z.div_lt_upper_bound; lia]|]. split; [lia|].
    destruct (decide (k - s = 1)%nat) as [->|Hne]; [by left|right]. destruct Hlow as [->|Hlow]; [lia|].
    apply Z.div_le_lower_bound; [lia|]. rewrite <-Z.pow_add_r by lia. by replace (_ + _) with (Z.of_nat k - 1) by lia.
Qed.
Lemma power_of_ten_ok (s : nat) : (s ≤ 18)%nat → power_of_ten (Z.of_nat s) = Ok (10 ^ Z.of_nat s).
Proof.
  intros Hs. unfold power_of_ten. rewrite bool_decide_true, Nat2Z.id by lia. unfold POWERS_OF_TEN.
  rewrite list_lookup_fmap, lookup_seq_lt by lia. done.
Qed.
Definition sign_chars (v : Z) : list Z := if bool_decide (v < 0) then [45] else [].

(** The sign step of [FormatDecimal]. *)
Lemma decimal_sign t v junk (rest : list Z) :
  in_range t v → - v ≤ Maximum t →
  (if bool_decide (v < 0)
   then x ← negate t v; dst ← poke ((if bool_decide (v < 0) then [junk] else []) ++ rest) 0 45; Ok (x, dst)
   else Ok (v, (if bool_decide (v < 0) then [junk] else []) ++ rest)) = Ok (Z.abs v, sign_chars v ++ rest).
Proof.
  intros Hr Hm. unfold sign_chars. case_bool_decide as Hneg; [|simpl; f_equal; f_equal; lia].
  assert (negate t v = Ok (Z.abs v)) as ->.
  { unfold negate. rewrite (bool_decide_true (- v ≤ Maximum t)) by done. rewrite narrow_in.
    - rewrite Z.abs_neq by lia. by case_bool_decide.
    - unfold in_range in *. assert (Minimum t ≤ 0) by (by destruct t). lia. }
  done.
Qed.

Lemma DecimalToString_ok t junk v (s : nat) :
  in_range t v → - v ≤ Maximum t → (s ≤ 18)%nat → 10 ^ Z.of_nat s < 2 ^ width t →
  ∃ ds, digits_of (Z.abs v / 10 ^ Z.of_nat s) ds ∧
    DecimalToString t junk v (Z.of_nat s) =
      Ok (sign_chars v ++ ds ++ match s with O => [] | _ => 46 :: decimal s (Z.abs v mod 10 ^ Z.of_nat s) end).
Proof.
  intros Hr Hm Hs Hw. destruct (unsigned_value_ok t v Hr) as [Ev Hb]. destruct (UnsignedLength_ok t _ Hb) as [Hk Hlen].
  set (n := UnsignedLength t (Z.abs v)) in *. set (k := Z.to_nat n) in *. set (kk := Nat.max 1 (k - s)).
  pose proof (major_digits _ _ s Hk) as Hmaj. fold kk in Hmaj. pose proof (pow10_pos s) as Hp.
  exists (decimal kk (Z.abs v / 10 ^ Z.of_nat s)). split; [exists kk; split_and!; [exact Hmaj..|lia|done]|].
  set (neg := if bool_decide (v < 0) then [junk] else [] : list Z).
  assert (Z.of_nat (length neg) = - sign_of v ∧ length (sign_chars v) = length neg) as [Hneg Hsc].
  { unfold neg, sign_of, sign_chars. by case_bool_decide. }
  unfold DecimalToString, DecimalLength, SignedLength. rewrite Ev. fold n.
  assert (- sign_of v = Z.b2z (bool_decide (v < 0))) as Esg by (unfold sign_of; lia).
  destruct s as [|s].
  - rewrite bool_decide_true by done. unfold FormatDecimal.
    assert (EmptyString junk (n - sign_of v) = neg ++ replicate k junk ++ [junk]) as ->.
    { unfold EmptyString. replace (Z.to_nat _) with (length neg + (k + 1))%nat by lia. rewrite !replicate_split. f_equal.
      unfold neg. by case_bool_decide. }
    unfold neg at 1 2. rewrite decimal_sign by done. rewrite bind_ok, bool_decide_true, wrap_u_small by done.
    rewrite (FormatUnsigned_ok k); [|done|apply length_replicate|lia|lia]. rewrite !bind_ok.
    assert (kk = k) as -> by lia. rewrite Z.div_1_r, app_nil_r. f_equal. unfold string_of.
    rewrite app_assoc. apply take_app_length'. rewrite length_app, decimal_length. lia.
  - rewrite bool_decide_false by lia. set (len := Z.max _ _). assert (len = Z.of_nat (length neg + kk + 1 + S s)) as El by lia.
    unfold FormatDecimal.
    assert (EmptyString junk len = neg ++ (replicate kk junk ++ [junk]) ++ replicate (S s) junk ++ [junk]) as ->.
    { unfold EmptyString. replace (Z.to_nat _) with (length neg + (kk + 1 + (S s + 1)))%nat by lia. rewrite !replicate_split. f_equal.
      unfold neg. by case_bool_decide. }
    unfold neg at 1 2. rewrite decimal_sign by done. rewrite bind_ok, bool_decide_false, power_of_ten_ok, bind_ok by lia.
    cbv zeta. rewrite (wrap_u_small _ (10 ^ Z.of_nat (S s))), Z.rem_mod_nonneg, Z.quot_div_nonneg by lia.
    pose proof (Z.mod_pos_bound (Z.abs v) (10 ^ Z.of_nat (S s)) Hp) as Hmin.
    rewrite (wrap_u_small _ (_ mod _)) by lia.
    rewrite (wrap_u_small _ (_ / _)) by (split; [apply Z.div_pos; lia|apply (Z.le_lt_trans _ (Z.abs v)); [apply Z.div_le_upper_bound; nia|lia]]).
    rewrite app_assoc.
    destruct (format_padded (S s) (Z.abs v mod 10 ^ Z.of_nat (S s)) (sign_chars v ++ replicate kk junk ++ [junk]) (replicate (S s) junk) [junk]
      (len - Z.of_nat (S s)) len) as (p & buf & E1 & Hlo & E2);
      [lia|done|apply length_replicate|rewrite !length_app, length_replicate, Hsc; simpl; lia..|].
    rewrite E1, bind_ok, E2, bind_ok. clear E1 E2.
    pose proof (decimal_length (S s) (Z.abs v mod 10 ^ Z.of_nat (S s))) as HD. set (D := decimal (S s) _) in *. clearbody D. replace (Z.min p (len - Z.of_nat (S s))) with (len - Z.of_nat (S s)) by lia.
    rewrite <-!app_assoc. rewrite (app_assoc (sign_chars v)). simpl ([junk] ++ _).
    rewrite poke_app by (rewrite length_app, length_replicate, Hsc; lia). rewrite bind_ok, <-app_assoc.
    rewrite (FormatUnsigned_ok kk); [|done|apply length_replicate|lia|lia]. rewrite !bind_ok. f_equal. unfold string_of.
    rewrite !app_comm_cons, !app_assoc. apply take_app_length'. rewrite !length_app. simpl.
    rewrite decimal_length, HD, Hsc. lia.
Qed.
