(* ===== verification/DateTime.v ===== *)
(** * The calendar tables of [type/date.cpp]

    Days per month and before each month, the month of each day of the year, and the days before each of
    the 400 years from 1970, after which the leap years repeat. *)

From S2P Require Import Prelude NumericText.

Definition NORMAL_DAYS : list Z :=
  [0; 31; 28; 31; 30; 31; 30; 31; 31; 30; 31; 30; 31].

Definition CUMULATIVE_DAYS : list Z :=
  [0; 31; 59; 90; 120; 151; 181; 212; 243; 273; 304; 334; 365].

Definition LEAP_DAYS : list Z :=
  [0; 31; 29; 31; 30; 31; 30; 31; 31; 30; 31; 30; 31].

Definition CUMULATIVE_LEAP_DAYS : list Z :=
  [0; 31; 60; 91; 121; 152; 182; 213; 244; 274; 305; 335; 366].

Definition MONTH_PER_DAY_OF_YEAR : list Z :=
  [1; 1; 1; 1; 1; 1; 1; 1; 1; 1; 1; 1; 1; 1; 1; 1; 1; 1; 1; 1; 1; 1; 1; 1; 1; 1; 1; 1; 1; 1; 1; 2; 2; 2; 2; 2; 2; 2;
   2; 2; 2; 2; 2; 2; 2; 2; 2; 2; 2; 2; 2; 2; 2; 2; 2; 2; 2; 2; 2; 3; 3; 3; 3; 3; 3; 3; 3; 3; 3; 3; 3; 3; 3; 3; 3; 3;
   3; 3; 3; 3; 3; 3; 3; 3; 3; 3; 3; 3; 3; 3; 4; 4; 4; 4; 4; 4; 4; 4; 4; 4; 4; 4; 4; 4; 4; 4; 4; 4; 4; 4; 4; 4; 4; 4;
   4; 4; 4; 4; 4; 4; 5; 5; 5; 5; 5; 5; 5; 5; 5; 5; 5; 5; 5; 5; 5; 5; 5; 5; 5; 5; 5; 5; 5; 5; 5; 5; 5; 5; 5; 5; 5; 6;
   6; 6; 6; 6; 6; 6; 6; 6; 6; 6; 6; 6; 6; 6; 6; 6; 6; 6; 6; 6; 6; 6; 6; 6; 6; 6; 6; 6; 6; 7; 7; 7; 7; 7; 7; 7; 7; 7;
   7; 7; 7; 7; 7; 7; 7; 7; 7; 7; 7; 7; 7; 7; 7; 7; 7; 7; 7; 7; 7; 7; 8; 8; 8; 8; 8; 8; 8; 8; 8; 8; 8; 8; 8; 8; 8; 8;
   8; 8; 8; 8; 8; 8; 8; 8; 8; 8; 8; 8; 8; 8; 8; 9; 9; 9; 9; 9; 9; 9; 9; 9; 9; 9; 9; 9; 9; 9; 9; 9; 9; 9; 9; 9; 9; 9;
   9; 9; 9; 9; 9; 9; 9; 10; 10; 10; 10; 10; 10; 10; 10; 10; 10; 10; 10; 10; 10; 10; 10; 10; 10; 10; 10; 10; 10; 10;
   10; 10; 10; 10; 10; 10; 10; 10; 11; 11; 11; 11; 11; 11; 11; 11; 11; 11; 11; 11; 11; 11; 11; 11; 11; 11; 11; 11;
   11; 11; 11; 11; 11; 11; 11; 11; 11; 11; 12; 12; 12; 12; 12; 12; 12; 12; 12; 12; 12; 12; 12; 12; 12; 12; 12; 12;
   12; 12; 12; 12; 12; 12; 12; 12; 12; 12; 12; 12; 12].

Definition LEAP_MONTH_PER_DAY_OF_YEAR : list Z :=
  [1; 1; 1; 1; 1; 1; 1; 1; 1; 1; 1; 1; 1; 1; 1; 1; 1; 1; 1; 1; 1; 1; 1; 1; 1; 1; 1; 1; 1; 1; 1; 2; 2; 2; 2; 2; 2; 2;
   2; 2; 2; 2; 2; 2; 2; 2; 2; 2; 2; 2; 2; 2; 2; 2; 2; 2; 2; 2; 2; 2; 3; 3; 3; 3; 3; 3; 3; 3; 3; 3; 3; 3; 3; 3; 3; 3;
   3; 3; 3; 3; 3; 3; 3; 3; 3; 3; 3; 3; 3; 3; 3; 4; 4; 4; 4; 4; 4; 4; 4; 4; 4; 4; 4; 4; 4; 4; 4; 4; 4; 4; 4; 4; 4; 4;
   4; 4; 4; 4; 4; 4; 4; 5; 5; 5; 5; 5; 5; 5; 5; 5; 5; 5; 5; 5; 5; 5; 5; 5; 5; 5; 5; 5; 5; 5; 5; 5; 5; 5; 5; 5; 5; 5;
   6; 6; 6; 6; 6; 6; 6; 6; 6; 6; 6; 6; 6; 6; 6; 6; 6; 6; 6; 6; 6; 6; 6; 6; 6; 6; 6; 6; 6; 6; 7; 7; 7; 7; 7; 7; 7; 7;
   7; 7; 7; 7; 7; 7; 7; 7; 7; 7; 7; 7; 7; 7; 7; 7; 7; 7; 7; 7; 7; 7; 7; 8; 8; 8; 8; 8; 8; 8; 8; 8; 8; 8; 8; 8; 8; 8;
   8; 8; 8; 8; 8; 8; 8; 8; 8; 8; 8; 8; 8; 8; 8; 8; 9; 9; 9; 9; 9; 9; 9; 9; 9; 9; 9; 9; 9; 9; 9; 9; 9; 9; 9; 9; 9; 9;
   9; 9; 9; 9; 9; 9; 9; 9; 10; 10; 10; 10; 10; 10; 10; 10; 10; 10; 10; 10; 10; 10; 10; 10; 10; 10; 10; 10; 10; 10;
   10; 10; 10; 10; 10; 10; 10; 10; 10; 11; 11; 11; 11; 11; 11; 11; 11; 11; 11; 11; 11; 11; 11; 11; 11; 11; 11; 11;
   11; 11; 11; 11; 11; 11; 11; 11; 11; 11; 11; 12; 12; 12; 12; 12; 12; 12; 12; 12; 12; 12; 12; 12; 12; 12; 12; 12;
   12; 12; 12; 12; 12; 12; 12; 12; 12; 12; 12; 12; 12; 12].

Definition CUMULATIVE_YEAR_DAYS : list Z :=
  [0; 365; 730; 1096; 1461; 1826; 2191; 2557; 2922; 3287; 3652; 4018; 4383; 4748; 5113; 5479; 5844; 6209; 6574; 6940;
   7305; 7670; 8035; 8401; 8766; 9131; 9496; 9862; 10227; 10592; 10957; 11323; 11688; 12053; 12418; 12784; 13149;
   13514; 13879; 14245; 14610; 14975; 15340; 15706; 16071; 16436; 16801; 17167; 17532; 17897; 18262; 18628; 18993;
   19358; 19723; 20089; 20454; 20819; 21184; 21550; 21915; 22280; 22645; 23011; 23376; 23741; 24106; 24472; 24837;
   25202; 25567; 25933; 26298; 26663; 27028; 27394; 27759; 28124; 28489; 28855; 29220; 29585; 29950; 30316; 30681;
   31046; 31411; 31777; 32142; 32507; 32872; 33238; 33603; 33968; 34333; 34699; 35064; 35429; 35794; 36160; 36525;
   36890; 37255; 37621; 37986; 38351; 38716; 39082; 39447; 39812; 40177; 40543; 40908; 41273; 41638; 42004; 42369;
   42734; 43099; 43465; 43830; 44195; 44560; 44926; 45291; 45656; 46021; 46387; 46752; 47117; 47482; 47847; 48212;
   48577; 48942; 49308; 49673; 50038; 50403; 50769; 51134; 51499; 51864; 52230; 52595; 52960; 53325; 53691; 54056;
   54421; 54786; 55152; 55517; 55882; 56247; 56613; 56978; 57343; 57708; 58074; 58439; 58804; 59169; 59535; 59900;
   60265; 60630; 60996; 61361; 61726; 62091; 62457; 62822; 63187; 63552; 63918; 64283; 64648; 65013; 65379; 65744;
   66109; 66474; 66840; 67205; 67570; 67935; 68301; 68666; 69031; 69396; 69762; 70127; 70492; 70857; 71223; 71588;
   71953; 72318; 72684; 73049; 73414; 73779; 74145; 74510; 74875; 75240; 75606; 75971; 76336; 76701; 77067; 77432;
   77797; 78162; 78528; 78893; 79258; 79623; 79989; 80354; 80719; 81084; 81450; 81815; 82180; 82545; 82911; 83276;
   83641; 84006; 84371; 84736; 85101; 85466; 85832; 86197; 86562; 86927; 87293; 87658; 88023; 88388; 88754; 89119;
   89484; 89849; 90215; 90580; 90945; 91310; 91676; 92041; 92406; 92771; 93137; 93502; 93867; 94232; 94598; 94963;
   95328; 95693; 96059; 96424; 96789; 97154; 97520; 97885; 98250; 98615; 98981; 99346; 99711; 100076; 100442; 100807;
   101172; 101537; 101903; 102268; 102633; 102998; 103364; 103729; 104094; 104459; 104825; 105190; 105555; 105920;
   106286; 106651; 107016; 107381; 107747; 108112; 108477; 108842; 109208; 109573; 109938; 110303; 110669; 111034;
   111399; 111764; 112130; 112495; 112860; 113225; 113591; 113956; 114321; 114686; 115052; 115417; 115782; 116147;
   116513; 116878; 117243; 117608; 117974; 118339; 118704; 119069; 119435; 119800; 120165; 120530; 120895; 121260;
   121625; 121990; 122356; 122721; 123086; 123451; 123817; 124182; 124547; 124912; 125278; 125643; 126008; 126373;
   126739; 127104; 127469; 127834; 128200; 128565; 128930; 129295; 129661; 130026; 130391; 130756; 131122; 131487;
   131852; 132217; 132583; 132948; 133313; 133678; 134044; 134409; 134774; 135139; 135505; 135870; 136235; 136600;
   136966; 137331; 137696; 138061; 138427; 138792; 139157; 139522; 139888; 140253; 140618; 140983; 141349; 141714;
   142079; 142444; 142810; 143175; 143540; 143905; 144271; 144636; 145001; 145366; 145732; 146097].

Definition DATE_MIN_YEAR : Z := -5877641.
Definition DATE_MIN_MONTH : Z := 6.
Definition DATE_MIN_DAY : Z := 23.
Definition DATE_MAX_YEAR : Z := 5881580.
Definition DATE_MAX_MONTH : Z := 7.
Definition DATE_MAX_DAY : Z := 11.
Definition EPOCH_YEAR : Z := 1970.
Definition YEAR_INTERVAL : Z := 400.
Definition DAYS_PER_YEAR_INTERVAL : Z := 146097.

Definition MSECS_PER_SEC : Z := 1000.
Definition SECS_PER_MINUTE : Z := 60.
Definition MINS_PER_HOUR : Z := 60.
Definition HOURS_PER_DAY : Z := 24.
Definition SECS_PER_HOUR : Z := SECS_PER_MINUTE * MINS_PER_HOUR.
Definition SECS_PER_DAY : Z := SECS_PER_HOUR * HOURS_PER_DAY.
Definition MICROS_PER_MSEC : Z := 1000.
Definition MICROS_PER_SEC : Z := MICROS_PER_MSEC * MSECS_PER_SEC.
Definition MICROS_PER_MINUTE : Z := MICROS_PER_SEC * SECS_PER_MINUTE.
Definition MICROS_PER_HOUR : Z := MICROS_PER_MINUTE * MINS_PER_HOUR.
Definition MICROS_PER_DAY : Z := MICROS_PER_HOUR * HOURS_PER_DAY.

(** * Dates and timestamps ([type/date.*, type/timestamp.*])

    Conversion between a day count and a calendar date through the tables, between a timestamp and its
    date and time of day, their text (with [StringCastFromDate] and [StringCastFromTimestamp] of
    [cast_operators.h]) and the parsers.  Positions in a text are its remaining characters.  Signed
    arithmetic that leaves its type is undefined ([s32], [s64]). *)

Definition s32 (z : Z) : result Z := if bool_decide (- 2 ^ 31 ≤ z < 2 ^ 31) then Ok z else Err EUndefined.
Definition s64 (z : Z) : result Z := if bool_decide (- 2 ^ 63 ≤ z < 2 ^ 63) then Ok z else Err EUndefined.
Definition at_ (l : list Z) (i : Z) : result Z :=
  match (if bool_decide (0 ≤ i) then l !! Z.to_nat i else None) with Some x => Ok x | None => Err EUndefined end.
(** [BUMBLEBEE_ASSERT]. *)
Definition ensure (P : Prop) `{!Decision P} (msg : string) : result unit :=
  if decide P then Ok tt else Err (EAssert msg).

(** ** Days to calendar dates *)

(** The loops that bring [n] into one interval of 400 years; an [int32_t] needs at most 14700 turns. *)
Fixpoint norm_up (fuel : nat) (n year : Z) : result (Z * Z) :=
  if bool_decide (n < 0) then
    match fuel with
    | O => Err EUndefined
    | S fuel => n ← s32 (n + DAYS_PER_YEAR_INTERVAL); year ← s32 (year - YEAR_INTERVAL); norm_up fuel n year
    end
  else Ok (n, year).
Fixpoint norm_down (fuel : nat) (n year : Z) : result (Z * Z) :=
  if bool_decide (n >= DAYS_PER_YEAR_INTERVAL) then
    match fuel with
    | O => Err EUndefined
    | S fuel => n ← s32 (n - DAYS_PER_YEAR_INTERVAL); year ← s32 (year + YEAR_INTERVAL); norm_down fuel n year
    end
  else Ok (n, year).
(** The loop that walks the bound on the year back. *)
Fixpoint walk_back (fuel : nat) (n year_offset : Z) : result Z :=
  c ← at_ CUMULATIVE_YEAR_DAYS year_offset;
  if bool_decide (n < c) then
    match fuel with
    | O => Err EUndefined
    | S fuel =>
        _ ← ensure (year_offset - 1 >= 0) "Date::ExtractYearOffset: the year offset went negative";
        walk_back fuel n (year_offset - 1)
    end
  else Ok year_offset.
(** [ExtractYearOffset]: the day in the interval, the year and its offset. *)
Definition ExtractYearOffset (n : Z) : result (Z * Z * Z) :=
  '(n, year) ← norm_up (Z.to_nat 14700) n EPOCH_YEAR;
  '(n, year) ← norm_down (Z.to_nat 14700) n year;
  year_offset ← walk_back 400 n (n / 365);
  year ← s32 (year + year_offset);
  c ← at_ CUMULATIVE_YEAR_DAYS year_offset;
  _ ← ensure (n >= c) "Date::ExtractYearOffset: the year offset is wrong";
  Ok (n, year, year_offset).
Definition Date_Convert (d : Z) : result (Z * Z * Z) :=
  '(d, year, year_offset) ← ExtractYearOffset d;
  c ← at_ CUMULATIVE_YEAR_DAYS year_offset;
  let day := d - c in
  _ ← ensure (day >= 0 ∧ day ≤ 365) "Date::Convert: the day of the year is out of range";
  c' ← at_ CUMULATIVE_YEAR_DAYS (year_offset + 1);
  let is_leap_year := bool_decide (c' - c = 366) in
  month ← at_ (if is_leap_year then LEAP_MONTH_PER_DAY_OF_YEAR else MONTH_PER_DAY_OF_YEAR) day;
  before ← at_ (if is_leap_year then CUMULATIVE_LEAP_DAYS else CUMULATIVE_DAYS) (month - 1);
  let day := day - before + 1 in
  days ← at_ (if is_leap_year then LEAP_DAYS else NORMAL_DAYS) month;
  _ ← ensure (day > 0 ∧ day ≤ days) "Date::Convert: the day of the month is out of range";
  _ ← ensure (month > 0 ∧ month ≤ 12) "Date::Convert: the month is out of range";
  Ok (year, month, day).

(** ** Calendar dates to days *)

Definition IsLeapYear (year : Z) : bool :=
  bool_decide (Z.rem year 4 = 0 ∧ (Z.rem year 100 ≠ 0 ∨ Z.rem year 400 = 0)).
Definition Date_IsValid (year month day : Z) : result bool :=
  if bool_decide (month < 1 ∨ month > 12) then Ok false else
  if bool_decide (day < 1) then Ok false else
  if bool_decide (year ≤ DATE_MIN_YEAR ∧
       (year < DATE_MIN_YEAR ∨ month < DATE_MIN_MONTH ∨ month = DATE_MIN_MONTH ∧ day < DATE_MIN_DAY)) then Ok false else
  if bool_decide (year >= DATE_MAX_YEAR ∧
       (year > DATE_MAX_YEAR ∨ month > DATE_MAX_MONTH ∨ month = DATE_MAX_MONTH ∧ day > DATE_MAX_DAY)) then Ok false else
  days ← at_ (if IsLeapYear year then LEAP_DAYS else NORMAL_DAYS) month;
  Ok (bool_decide (day ≤ days)).
Definition TryFromDate (year month day : Z) : result (option Z) :=
  valid ← Date_IsValid year month day;
  if negb valid then Ok None else
  before ← at_ (if IsLeapYear year then CUMULATIVE_LEAP_DAYS else CUMULATIVE_DAYS) (month - 1);
  n ← s32 (before + (day - 1));
  n ← (if bool_decide (year < 1970) then
         let diff_from_base := 1970 - year in
         c ← at_ CUMULATIVE_YEAR_DAYS (400 - Z.rem diff_from_base 400);
         n ← s32 (n + c);
         n ← s32 (n - DAYS_PER_YEAR_INTERVAL);
         k ← s32 (Z.quot diff_from_base 400 * DAYS_PER_YEAR_INTERVAL);
         s32 (n - k)
       else if bool_decide (year >= 2370) then
         let diff_from_base := year - 2370 in
         c ← at_ CUMULATIVE_YEAR_DAYS (Z.rem diff_from_base 400);
         n ← s32 (n + c);
         n ← s32 (n + DAYS_PER_YEAR_INTERVAL);
         k ← s32 (Z.quot diff_from_base 400 * DAYS_PER_YEAR_INTERVAL);
         s32 (n + k)
       else
         c ← at_ CUMULATIVE_YEAR_DAYS (year - 1970);
         s32 (n + c));
  Ok (Some n).

Definition Date_Epoch (date : Z) : result Z := s64 (date * SECS_PER_DAY).
Definition Date_EpochNanoseconds (date : Z) : result Z := s64 (date * (MICROS_PER_DAY * 1000)).

(** ** Dates as text *)

(** [Date::Length]: the length, the year as it is written, its digits and whether it is before Christ. *)
Definition Date_Length (year : Z) : Z * Z * Z * bool :=
  let add_bc := bool_decide (year ≤ 0) in
  let length := if add_bc then 6 + 5 else 6 in
  let year := if add_bc then - year + 1 else year in
  let year_length := 4 + at_least year 10000 + at_least year 100000 + at_least year 1000000 + at_least year 10000000 in
  (length + year_length, year, year_length, add_bc).
(** [value] as two digits at [ptr]. *)
Definition two_digits (data : list Z) (ptr value : Z) : result (list Z) :=
  if bool_decide (value < 10) then
    data ← poke data ptr 48; poke data (ptr + 1) (48 + value)
  else
    c0 ← digit_at (value * 2); data ← poke data ptr c0;
    c1 ← digit_at (value * 2 + 1); poke data (ptr + 1) c1.
(** ["-MM"] or ["-DD"] at [ptr]. *)
Definition date_field (data : list Z) (ptr value : Z) : result (list Z) :=
  data ← poke data ptr 45; two_digits data (ptr + 1) value.
(** [memcpy(data + ptr, src, ..)]. *)
Fixpoint copy_at (data : list Z) (ptr : Z) (src : list Z) : result (list Z) :=
  match src with
  | [] => Ok data
  | c :: src => data ← poke data ptr c; copy_at data (ptr + 1) src
  end.
Definition Date_Format (data : list Z) (year month day year_length : Z) (add_bc : bool) : result (list Z) :=
  '(endptr, data) ← FormatUnsigned year year_length data;
  data ← pad_zeros 0 endptr data;
  data ← date_field data year_length month;
  data ← date_field data (year_length + 3) day;
  if add_bc then copy_at data (year_length + 6) (text " (BC)") else Ok data.
(** [StringCastFromDate::Operation(date_t)]. *)
Definition StringCastFromDate (junk input : Z) : result (list Z) :=
  '(year, month, day) ← Date_Convert input;
  let '(length, year, year_length, add_bc) := Date_Length year in
  data ← Date_Format (EmptyString junk length) year month day year_length add_bc;
  Ok (string_of length data).

(** ** Dates from text *)

Definition ParseDoubleDigit (buf : list Z) : option (Z * list Z) :=
  match buf with
  | c :: rest =>
      if CharacterIsDigit c then
        match rest with
        | c' :: rest' => if CharacterIsDigit c' then Some ((c' - 48) + (c - 48) * 10, rest') else Some (c - 48, rest)
        | [] => Some (c - 48, rest)
        end
      else None
  | [] => None
  end.
Fixpoint parse_year (year : Z) (buf : list Z) : option (Z * list Z) :=
  match buf with
  | c :: rest =>
      if CharacterIsDigit c then
        if bool_decide (year >= 100000000) then None else parse_year ((c - 48) + year * 10) rest
      else Some (year, buf)
  | [] => Some (year, buf)
  end.
(** The optional [" (BC)"]: the rest after it, or [None] when it is not there. *)
Definition parse_bc (buf : list Z) : option (list Z) :=
  match buf with
  | s :: p :: b :: c :: q :: rest =>
      if CharacterIsSpace s && bool_decide (p = 40) && bool_decide (CharacterToLower b = 98) &&
         bool_decide (CharacterToLower c = 99) && bool_decide (q = 41) then Some rest else None
  | _ => None
  end.
(** The date's fields and what follows them. *)
Definition parse_fields (buf : list Z) : option (Z * Z * Z * list Z) :=
  match skip_spaces buf with
  | [] => None
  | c :: rest =>
      let yearneg := bool_decide (c = 45) in
      let buf := if yearneg then rest else c :: rest in
      match buf with
      | [] => None
      | c :: _ =>
          if negb (CharacterIsDigit c) then None else
          match parse_year 0 buf with
          | None | Some (_, []) => None
          | Some (year, sep :: buf) =>
              let year := if yearneg then - year else year in
              if bool_decide (sep ≠ 32 ∧ sep ≠ 45 ∧ sep ≠ 47 ∧ sep ≠ 92) then None else
              match ParseDoubleDigit buf with
              | None | Some (_, []) => None
              | Some (month, sep' :: buf) =>
                  if bool_decide (sep' ≠ sep) then None else
                  match buf with
                  | [] => None
                  | _ =>
                      match ParseDoubleDigit buf with
                      | None => None
                      | Some (day, buf) =>
                          match parse_bc buf with
                          | None => Some (year, month, day, buf)
                          | Some rest =>
                              if yearneg || bool_decide (year = 0) then None else Some (- year + 1, month, day, rest)
                          end
                      end
                  end
              end
          end
      end
  end.
(** [Date::TryConvertDate]: the date and the rest of the text. *)
Definition TryConvertDate (buf : list Z) (strict : bool) : result (option (Z * list Z)) :=
  match parse_fields buf with
  | None => Ok None
  | Some (year, month, day, rest) =>
      let rest := if strict then skip_spaces rest else rest in
      if (if strict then bool_decide (rest ≠ []) else match rest with c :: _ => CharacterIsDigit c | [] => false end)
      then Ok None
      else r ← TryFromDate year month day;
           Ok (match r with Some date => Some (date, rest) | None => None end)
  end.

(** ** Timestamps *)

Definition FromEpochMs (ms : Z) : result Z := s64 (ms * MICROS_PER_MSEC).
Definition FromEpochNano (ns : Z) : Z := Z.quot ns 1000.
Definition FromEpochMicroSeconds (micros : Z) : Z := micros.
Definition GetDate (timestamp : Z) : Z :=
  let neg := Z.b2z (bool_decide (timestamp < 0)) in
  i32 (Z.quot (timestamp + neg) MICROS_PER_DAY - neg).
Definition FromDatetime (date : Z) : result Z := s64 (date * MICROS_PER_DAY).
Definition GetTime (timestamp : Z) : result Z :=
  midnight ← s64 (GetDate timestamp * MICROS_PER_DAY); s64 (timestamp - midnight).
Definition GetEpochNanoSeconds (timestamp : Z) : result Z := s64 (timestamp * 1000).
(** [Convert(int64_t, ..)]: hour, minute, second, microsecond. *)
Definition Time_Convert (dtime : Z) : Z * Z * Z * Z :=
  let hour := i32 (Z.quot dtime MICROS_PER_HOUR) in
  let time := dtime - hour * MICROS_PER_HOUR in
  let min := i32 (Z.quot time MICROS_PER_MINUTE) in
  let time := time - min * MICROS_PER_MINUTE in
  let sec := i32 (Z.quot time MICROS_PER_SEC) in
  let time := time - sec * MICROS_PER_SEC in
  (hour, min, sec, i32 time).
(** [Convert(timestamp_t, ..)]: the day and the time in it. *)
Definition Timestamp_Convert (timestamp : Z) : result (Z * Z) :=
  let date := GetDate timestamp in
  midnight ← s64 (date * MICROS_PER_DAY); time ← s64 (timestamp - midnight); Ok (date, time).

(** [for (i = 5; i > 0; i--)]: the zeros at the end of the fraction, its first digit apart. *)
Fixpoint trailing_zeros (ds : list Z) : Z :=
  match ds with c :: ds => if bool_decide (c ≠ 48) then 0 else 1 + trailing_zeros ds | [] => 0 end.
Definition FormatMicros (junk microseconds : Z) : result (Z * list Z) :=
  '(endptr, buffer) ← FormatUnsigned microseconds 6 (replicate 6 junk);
  buffer ← pad_zeros 0 endptr buffer;
  Ok (trailing_zeros (reverse (drop 1 buffer)), buffer).
Definition Time_Length (junk micros : Z) : result (Z * list Z) :=
  if bool_decide (micros = 0) then Ok (8, replicate 6 junk)
  else '(zeros, buffer) ← FormatMicros junk micros; Ok (15 - zeros, buffer).
Definition FormatTwoDigits (data : list Z) (ptr value : Z) : result (list Z) :=
  _ ← ensure (value >= 0 ∧ value ≤ 99) "Timestamp::FormatTwoDigits: the value must fit in two digits";
  two_digits data ptr value.
Definition Time_Format (data : list Z) (ptr length : Z) (time : Z * Z * Z * Z) (micro_buffer : list Z) : result (list Z) :=
  let '(hour, min, sec, _) := time in
  data ← poke data (ptr + 2) 58;
  data ← poke data (ptr + 5) 58;
  data ← FormatTwoDigits data ptr hour;
  data ← FormatTwoDigits data (ptr + 3) min;
  data ← FormatTwoDigits data (ptr + 6) sec;
  if bool_decide (length > 8) then
    data ← poke data (ptr + 8) 46;
    copy_at data (ptr + 9) (take (Z.to_nat (length - 9)) micro_buffer)
  else Ok data.
(** [StringCastFromTimestamp::Operation(timestamp_t)]. *)
Definition StringCastFromTimestamp (junk input : Z) : result (list Z) :=
  '(date, time) ← Timestamp_Convert input;
  '(year, month, day) ← Date_Convert date;
  let fields := Time_Convert time in
  let '(date_length, year, year_length, add_bc) := Date_Length year in
  '(time_length, micro_buffer) ← Time_Length junk fields.2;
  let length := date_length + time_length + 1 in
  data ← Date_Format (EmptyString junk length) year month day year_length add_bc;
  data ← poke data date_length 32;
  data ← Time_Format data (date_length + 1) time_length fields micro_buffer;
  Ok (string_of length data).

(** [parse_two_digits]. *)
Definition parse_two_digits (max : Z) (buf : list Z) : option (Z * list Z) :=
  match buf with
  | c :: c' :: rest =>
      if CharacterIsDigit c && CharacterIsDigit c' then
        let out := (c - 48) * 10 + (c' - 48) in
        if bool_decide (out ≤ max) then Some (out, rest) else None
      else None
  | _ => None
  end.
(** The fraction: six digits count, the rest are skipped. *)
Fixpoint parse_fraction (micros scale : Z) (buf : list Z) : Z * list Z :=
  match buf with
  | c :: rest =>
      if CharacterIsDigit c then
        if bool_decide (scale > 0) then parse_fraction (micros + (c - 48) * scale) (scale / 10) rest
        else parse_fraction micros scale rest
      else (micros, buf)
  | [] => (micros, buf)
  end.
(** Hour, minute, second and microsecond, up to the end of the text. *)
Definition parse_time (buf : list Z) : option (Z * Z * Z * Z) :=
  let finish := λ fields rest, match skip_spaces rest with [] => Some fields | _ => None end in
  match parse_two_digits 23 buf with
  | Some (hour, c :: buf) =>
      if negb (bool_decide (c = 58)) then None else
      match parse_two_digits 59 buf with
      | None => None
      | Some (minute, c :: buf) =>
          if negb (bool_decide (c = 58)) then finish (hour, minute, 0, 0) (c :: buf) else
          match parse_two_digits 59 buf with
          | None => None
          | Some (second, c :: buf) =>
              if negb (bool_decide (c = 46)) then finish (hour, minute, second, 0) (c :: buf) else
              match buf with
              | d :: _ =>
                  if CharacterIsDigit d then
                    let '(micros, rest) := parse_fraction 0 100000 buf in finish (hour, minute, second, micros) rest
                  else None
              | [] => None
              end
          | Some (second, []) => Some (hour, minute, second, 0)
          end
      | Some (minute, []) => Some (hour, minute, 0, 0)
      end
  | _ => None
  end.
Definition TryConvertTimestamp (buf : list Z) : result (option Z) :=
  r ← TryConvertDate buf false;
  match r with
  | None => Ok None
  | Some (date, rest) =>
      midnight ← FromDatetime date;
      match skip_spaces rest with
      | [] => Ok (Some midnight)
      | c :: rest =>
          let buf := if bool_decide (c = 84 ∨ c = 116) then rest else c :: rest in
          match parse_time buf with
          | None => Ok None
          | Some (hour, minute, second, micros) =>
              t ← s64 (midnight + hour * MICROS_PER_HOUR);
              t ← s64 (t + minute * MICROS_PER_MINUTE);
              t ← s64 (t + second * MICROS_PER_SEC);
              t ← s64 (t + micros);
              Ok (Some t)
          end
      end
  end.
