(* ===== verification/TextTheorems.v ===== *)
(** * The date conversions and the Gregorian calendar

    [epoch_days] is the proleptic Gregorian calendar by arithmetic, without tables.  [TryFromDate] computes
    it on exactly the dates whose day count fits an [int32_t] ([TryFromDate_ok]) and [Date_Convert] inverts
    it on every [int32_t] ([Date_Convert_ok]). *)

From S2P Require Import Prelude NumericText DateTime.

(** ** The calendar *)

Definition leap (y : Z) : Prop := y mod 4 = 0 ∧ (y mod 100 ≠ 0 ∨ y mod 400 = 0).
#[global] Instance leap_dec y : Decision (leap y).
Proof. unfold leap. apply _. Defined.
(** Leap years before [y], up to a constant. *)
Definition leaps_before (y : Z) : Z := (y - 1) / 4 - (y - 1) / 100 + (y - 1) / 400.
(** Days from the epoch to the first of January of [y]. *)
Definition year_start (y : Z) : Z := 365 * (y - 1970) + (leaps_before y - leaps_before 1970).
Definition month_length (lp : bool) (m : Z) : Z :=
  if decide (m = 2) then (if lp then 29 else 28)
  else if decide (m = 4 ∨ m = 6 ∨ m = 9 ∨ m = 11) then 30 else 31.
(** Days of a year before month [S m]. *)
Fixpoint days_before (lp : bool) (m : nat) : Z :=
  match m with O => 0 | S m => days_before lp m + month_length lp (Z.of_nat (S m)) end.
Definition real_date (y m d : Z) : Prop := 1 ≤ m ≤ 12 ∧ 1 ≤ d ≤ month_length (bool_decide (leap y)) m.
Definition day_of_year (lp : bool) (m d : Z) : Z := days_before lp (Z.to_nat (m - 1)) + (d - 1).
Definition epoch_days (y m d : Z) : Z := year_start y + day_of_year (bool_decide (leap y)) m d.
Definition year_length (lp : bool) : Z := if lp then 366 else 365.

Lemma year_start_next y : year_start (y + 1) = year_start y + year_length (bool_decide (leap y)).
Proof.
  unfold year_start, leaps_before, leap, year_length. case_bool_decide as H; replace (y + 1 - 1) with y by lia.
  all: Z.to_euclidean_division_equations; lia.
Qed.
Lemma year_start_400 y k : year_start (y + 400 * k) = year_start y + 146097 * k.
Proof. unfold year_start, leaps_before. Z.to_euclidean_division_equations; lia. Qed.
Lemma year_start_mono y z : y ≤ z → year_start y + 365 * (z - y) ≤ year_start z.
Proof.
  intros H. unfold year_start, leaps_before. Z.to_euclidean_division_equations; lia.
Qed.
Lemma IsLeapYear_ok y : IsLeapYear y = bool_decide (leap y).
Proof.
  unfold IsLeapYear. apply bool_decide_ext. unfold leap. Z.to_euclidean_division_equations; lia.
Qed.

(** ** The tables *)

Lemma at_lookup l i (n : nat) x : i = Z.of_nat n → l !! n = Some x → at_ l i = Ok x.
Proof. intros -> Hn. unfold at_. by rewrite bool_decide_true, Nat2Z.id, Hn by lia. Qed.
Lemma cumulative_ok i : 0 ≤ i ≤ 400 → at_ CUMULATIVE_YEAR_DAYS i = Ok (year_start (1970 + i)).
Proof.
  intros Hi. assert (CUMULATIVE_YEAR_DAYS = (λ n, year_start (1970 + Z.of_nat n)) <$> seq 0 401) as -> by (vm_compute; reflexivity).
  apply (at_lookup _ _ (Z.to_nat i)); [lia|]. rewrite list_lookup_fmap, lookup_seq_lt by lia. simpl. by rewrite Z2Nat.id by lia.
Qed.

Definition month_table (lp : bool) : list Z := if lp then LEAP_MONTH_PER_DAY_OF_YEAR else MONTH_PER_DAY_OF_YEAR.
Definition before_table (lp : bool) : list Z := if lp then CUMULATIVE_LEAP_DAYS else CUMULATIVE_DAYS.
Definition length_table (lp : bool) : list Z := if lp then LEAP_DAYS else NORMAL_DAYS.

(** A decidable fact about every element of an interval, by evaluation. *)
Lemma forall_interval (f : Z → bool) a n i : forallb f (seqZ a n) = true → a ≤ i < a + n → f i = true.
Proof. intros H Hi. rewrite forallb_forall in H. apply H, list_elem_of_In, elem_of_seqZ. lia. Qed.
Definition is_ok (r : result Z) (x : Z) : bool := match r with Ok y => bool_decide (y = x) | Err _ => false end.
Lemma is_ok_true r x : is_ok r x = true → r = Ok x.
Proof. destruct r; simpl; [|done]. by intros ->%bool_decide_eq_true. Qed.

Lemma month_tables_ok lp m :
  1 ≤ m ≤ 12 → at_ (before_table lp) (m - 1) = Ok (days_before lp (Z.to_nat (m - 1))) ∧
    at_ (length_table lp) m = Ok (month_length lp m) ∧
    0 ≤ days_before lp (Z.to_nat (m - 1)) ∧ days_before lp (Z.to_nat (m - 1)) + month_length lp m ≤ year_length lp.
Proof.
  intros Hm. pose proof (forall_interval (λ m, is_ok (at_ (before_table lp) (m - 1)) (days_before lp (Z.to_nat (m - 1))) &&
    (is_ok (at_ (length_table lp) m) (month_length lp m) &&
    bool_decide (0 ≤ days_before lp (Z.to_nat (m - 1)) ∧ days_before lp (Z.to_nat (m - 1)) + month_length lp m ≤ year_length lp))) 1 12 m) as H.
  apply andb_true_iff in H as [H1 [H2 H3]%andb_true_iff]; [|by destruct lp; vm_compute|lia].
  apply bool_decide_eq_true in H3. split_and!; [by apply is_ok_true|by apply is_ok_true|apply H3..].
Qed.
(** Every day of the year is in the month the table names. *)
Lemma month_of_day lp doy :
  0 ≤ doy < year_length lp →
  ∃ m, at_ (month_table lp) doy = Ok m ∧ 1 ≤ m ≤ 12 ∧ 0 ≤ doy - days_before lp (Z.to_nat (m - 1)) < month_length lp m.
Proof.
  intros Hd. pose proof (forall_interval (λ doy, match at_ (month_table lp) doy with
    | Ok m => bool_decide (1 ≤ m ≤ 12 ∧ 0 ≤ doy - days_before lp (Z.to_nat (m - 1)) < month_length lp m)
    | Err _ => false end) 0 (year_length lp) doy ltac:(by destruct lp; vm_compute) ltac:(lia)) as H. cbv beta in H.
  destruct (at_ _ doy) as [m|]; [|done]. apply bool_decide_eq_true in H. by exists m.
Qed.
(** The table finds the month of a date. *)
Lemma day_of_month lp m d :
  1 ≤ m ≤ 12 → 1 ≤ d ≤ month_length lp m → at_ (month_table lp) (day_of_year lp m d) = Ok m.
Proof.
  intros Hm Hd. pose proof (forall_interval (λ m, forallb (λ d, is_ok (at_ (month_table lp) (day_of_year lp m d)) m)
    (seqZ 1 (month_length lp m))) 1 12 m) as H. cbv beta in H.
  apply is_ok_true, (forall_interval (λ d, is_ok (at_ (month_table lp) (day_of_year lp m d)) m) 1 (month_length lp m) d); [|lia].
  apply H; [by destruct lp; vm_compute|lia].
Qed.

(** ** Calendar dates to days *)

Definition int32 (n : Z) : Prop := - 2 ^ 31 ≤ n < 2 ^ 31.
#[global] Instance int32_dec n : Decision (int32 n).
Proof. unfold int32. apply _. Defined.
Lemma s32_ok z : - 2 ^ 31 ≤ z < 2 ^ 31 → s32 z = Ok z.
Proof. intros. unfold s32. by rewrite bool_decide_true. Qed.

Lemma ensure_ok (P : Prop) `{!Decision P} msg : P → ensure P msg = Ok tt.
Proof. intros. unfold ensure. by rewrite decide_True. Qed.

Lemma day_of_year_bounds lp m d : 1 ≤ m ≤ 12 → 1 ≤ d ≤ month_length lp m → 0 ≤ day_of_year lp m d < year_length lp.
Proof. intros Hm Hd. destruct (month_tables_ok lp m Hm) as (_ & _ & ? & ?). unfold day_of_year. lia. Qed.
Lemma epoch_days_bounds y m d : real_date y m d → year_start y ≤ epoch_days y m d < year_start (y + 1).
Proof.
  intros [Hm Hd]. rewrite year_start_next. pose proof (day_of_year_bounds _ m d Hm Hd). unfold epoch_days. lia.
Qed.
Ltac each_month m := assert (m = 1 ∨ m = 2 ∨ m = 3 ∨ m = 4 ∨ m = 5 ∨ m = 6 ∨ m = 7 ∨ m = 8 ∨ m = 9 ∨ m = 10 ∨ m = 11 ∨ m = 12)
  as Hcases by lia; destruct_or! Hcases; subst m.
Ltac calendar_numbers := unfold day_of_year; repeat match goal with
  | |- context [month_length ?a ?b] => let r := eval vm_compute in (month_length a b) in change (month_length a b) with r
  | |- context [days_before ?a ?b] => let r := eval vm_compute in (days_before a b) in change (days_before a b) with r
  end.
Definition too_early (y m d : Z) : Prop :=
  y ≤ DATE_MIN_YEAR ∧ (y < DATE_MIN_YEAR ∨ m < DATE_MIN_MONTH ∨ m = DATE_MIN_MONTH ∧ d < DATE_MIN_DAY).
Definition too_late (y m d : Z) : Prop :=
  y >= DATE_MAX_YEAR ∧ (y > DATE_MAX_YEAR ∨ m > DATE_MAX_MONTH ∨ m = DATE_MAX_MONTH ∧ d > DATE_MAX_DAY).
Lemma day_of_year_june23 m d : 1 ≤ m ≤ 12 → 1 ≤ d ≤ month_length false m → day_of_year false m d < 173 ↔ m < 6 ∨ m = 6 ∧ d < 23.
Proof. intros Hm. each_month m; calendar_numbers; lia. Qed.
Lemma day_of_year_july11 m d : 1 ≤ m ≤ 12 → 1 ≤ d ≤ month_length true m → 192 < day_of_year true m d ↔ m > 7 ∨ m = 7 ∧ d > 11.
Proof. intros Hm. each_month m; calendar_numbers; lia. Qed.
(** The first and last date are the first and last [int32_t]. *)
Lemma too_early_ok y m d : real_date y m d → too_early y m d ↔ epoch_days y m d < - 2 ^ 31.
Proof.
  intros Hr. pose proof (epoch_days_bounds y m d Hr) as Hb. unfold too_early, DATE_MIN_YEAR, DATE_MIN_MONTH, DATE_MIN_DAY.
  assert (year_start (-5877641) = -2147483821) as E by (vm_compute; reflexivity).
  assert (year_start (-5877640) = -2147483456) as E' by (vm_compute; reflexivity).
  destruct (Z.lt_total y (-5877641)) as [Hlt|[->|Hgt]].
  - pose proof (year_start_mono (y + 1) (-5877641)). lia.
  - destruct Hr as [Hm Hd]. change (bool_decide (leap (-5877641))) with false in Hd.
    pose proof (day_of_year_june23 m d Hm Hd). unfold epoch_days. change (bool_decide (leap (-5877641))) with false. lia.
  - pose proof (year_start_mono (-5877640) y). lia.
Qed.
Lemma too_late_ok y m d : real_date y m d → too_late y m d ↔ 2 ^ 31 ≤ epoch_days y m d.
Proof.
  intros Hr. pose proof (epoch_days_bounds y m d Hr) as Hb. unfold too_late, DATE_MAX_YEAR, DATE_MAX_MONTH, DATE_MAX_DAY.
  assert (year_start 5881580 = 2147483455) as E by (vm_compute; reflexivity).
  assert (year_start 5881581 = 2147483821) as E' by (vm_compute; reflexivity).
  destruct (Z.lt_total y 5881580) as [Hlt|[->|Hgt]].
  - pose proof (year_start_mono (y + 1) 5881580). lia.
  - destruct Hr as [Hm Hd]. change (bool_decide (leap 5881580)) with true in Hd.
    pose proof (day_of_year_july11 m d Hm Hd). unfold epoch_days. change (bool_decide (leap 5881580)) with true. lia.
  - pose proof (year_start_mono 5881581 y). lia.
Qed.

Lemma Date_IsValid_ok y m d : Date_IsValid y m d = Ok (bool_decide (real_date y m d ∧ int32 (epoch_days y m d))).
Proof.
  unfold Date_IsValid. case_bool_decide as Hm.
  { rewrite bool_decide_false; [done|]. intros [[? _] _]. lia. }
  destruct (month_tables_ok (IsLeapYear y) m) as (_ & El & _ & _); [lia|].
  case_bool_decide as Hd.
  { rewrite bool_decide_false; [done|]. intros [[_ ?] _]. lia. }
  fold (too_early y m d). fold (too_late y m d).
  case_bool_decide as He.
  { rewrite bool_decide_false; [done|]. intros [Hr Hi]. apply (too_early_ok y m d Hr) in He. unfold int32 in Hi. lia. }
  case_bool_decide as Hl.
  { rewrite bool_decide_false; [done|]. intros [Hr Hi]. apply (too_late_ok y m d Hr) in Hl. unfold int32 in Hi. lia. }
  unfold length_table in El. rewrite El, bind_ok. f_equal. apply bool_decide_ext. rewrite IsLeapYear_ok. unfold real_date.
  split; [|lia]. intros Hd2. assert (real_date y m d) as Hr by (split; lia). split; [done|].
  rewrite (too_early_ok y m d Hr) in He. rewrite (too_late_ok y m d Hr) in Hl. unfold int32. lia.
Qed.
Lemma TryFromDate_ok y m d :
  TryFromDate y m d = Ok (if decide (real_date y m d ∧ int32 (epoch_days y m d)) then Some (epoch_days y m d) else None).
Proof.
  unfold TryFromDate. rewrite Date_IsValid_ok, bind_ok. case_bool_decide as Hv; [|by rewrite decide_False].
  rewrite decide_True by done. destruct Hv as [Hr Hi]. pose proof Hr as [Hm Hd]. cbn [negb]. unfold int32 in Hi.
  assert (DATE_MIN_YEAR ≤ y ≤ DATE_MAX_YEAR) as Hy.
  { pose proof (too_early_ok y m d Hr). pose proof (too_late_ok y m d Hr). unfold too_early, too_late in *. lia. }
  destruct (month_tables_ok (IsLeapYear y) m Hm) as (Eb & _ & _ & _). unfold before_table in Eb. rewrite Eb, bind_ok.
  rewrite IsLeapYear_ok in *. change (days_before _ (Z.to_nat (m - 1)) + (d - 1)) with (day_of_year (bool_decide (leap y)) m d).
  pose proof (day_of_year_bounds _ m d Hm Hd) as Hdoy. set (doy := day_of_year _ m d) in *.
  assert (epoch_days y m d = year_start y + doy) as Ee by done. rewrite Ee in *.
  assert (year_length (bool_decide (leap y)) ≤ 366) as Hyl by (by case_bool_decide).
  unfold DATE_MIN_YEAR, DATE_MAX_YEAR, DAYS_PER_YEAR_INTERVAL in *. rewrite (s32_ok doy), bind_ok by lia.
  assert (∀ i, 0 ≤ i ≤ 400 → 0 ≤ year_start (1970 + i) ≤ 146097) as Hc.
  { intros i Hx. pose proof (year_start_mono 1970 (1970 + i)). pose proof (year_start_mono (1970 + i) 2370).
    change (year_start 1970) with 0 in *. change (year_start 2370) with 146097 in *. lia. }
  destruct (decide (y < 1970)) as [H1|H1]; [rewrite (bool_decide_true (y < 1970)) by done|rewrite (bool_decide_false (y < 1970)) by done;
    destruct (decide (y >= 2370)) as [H2|H2]; [rewrite bool_decide_true by done|rewrite bool_decide_false by done]].
  - pose proof (Z.quot_rem (1970 - y) 400 ltac:(lia)) as Eq. pose proof (Z.rem_bound_pos (1970 - y) 400 ltac:(lia) ltac:(lia)) as Hrem. cbv zeta.
    set (q := Z.quot (1970 - y) 400) in *. set (r := Z.rem (1970 - y) 400) in *. specialize (Hc (400 - r)).
    rewrite cumulative_ok, bind_ok by lia. rewrite (s32_ok (doy + _)), bind_ok by lia. rewrite (s32_ok (_ - 146097)), bind_ok by lia.
    rewrite (s32_ok (q * 146097)), bind_ok by lia.
    pose proof (year_start_400 (1970 + (400 - r)) (- (q + 1))) as E4.
    replace (1970 + (400 - r) + 400 * - (q + 1)) with y in E4 by lia. rewrite s32_ok, bind_ok by lia. f_equal. f_equal. lia.
  - pose proof (Z.quot_rem (y - 2370) 400 ltac:(lia)) as Eq. pose proof (Z.rem_bound_pos (y - 2370) 400 ltac:(lia) ltac:(lia)) as Hrem. cbv zeta.
    set (q := Z.quot (y - 2370) 400) in *. set (r := Z.rem (y - 2370) 400) in *. specialize (Hc r).
    rewrite cumulative_ok, bind_ok by lia. rewrite (s32_ok (doy + _)), bind_ok by lia. rewrite (s32_ok (_ + 146097)), bind_ok by lia.
    rewrite (s32_ok (q * 146097)), bind_ok by lia.
    pose proof (year_start_400 (1970 + r) (q + 1)) as E4.
    replace (1970 + r + 400 * (q + 1)) with y in E4 by lia. rewrite s32_ok, bind_ok by lia. f_equal. f_equal. lia.
  - rewrite cumulative_ok, bind_ok by lia. replace (1970 + (y - 1970)) with y by lia.
    rewrite s32_ok, bind_ok by lia. f_equal. f_equal. lia.
Qed.

(** ** Days to calendar dates *)

Lemma norm_up_ok fuel n year :
  - 146097 * Z.of_nat fuel ≤ n < 2 ^ 31 - 146097 → - 2 ^ 31 ≤ n → - 2 ^ 31 + 400 * Z.of_nat fuel ≤ year < 2 ^ 31 →
  ∃ k, norm_up fuel n year = Ok (n + 146097 * k, year - 400 * k) ∧ 0 ≤ k ≤ Z.of_nat fuel ∧ 0 ≤ n + 146097 * k ∧
    (k = 0 ∨ n + 146097 * k < 146097).
Proof.
  revert n year. induction fuel as [|fuel IH]; intros n year Hn Hn2 Hy; cbn [norm_up]; case_bool_decide as Hneg.
  - lia.
  - exists 0. split_and!; [f_equal; f_equal; lia|lia..].
  - unfold DAYS_PER_YEAR_INTERVAL, YEAR_INTERVAL. rewrite (s32_ok (n + _)), bind_ok, (s32_ok (year - _)), bind_ok by lia.
    destruct (IH (n + 146097) (year - 400)) as (k & E & Hk & H0 & Hs); [lia..|]. exists (k + 1).
    rewrite E. split_and!; [f_equal; f_equal; lia|lia..].
  - exists 0. split_and!; [f_equal; f_equal; lia|lia..].
Qed.
Lemma norm_down_ok fuel n year :
  0 ≤ n < 146097 * (Z.of_nat fuel + 1) → n < 2 ^ 31 → - 2 ^ 31 ≤ year < 2 ^ 31 - 400 * Z.of_nat fuel →
  ∃ k, norm_down fuel n year = Ok (n - 146097 * k, year + 400 * k) ∧ 0 ≤ k ≤ Z.of_nat fuel ∧ 0 ≤ n - 146097 * k < 146097.
Proof.
  revert n year. induction fuel as [|fuel IH]; intros n year Hn Hn2 Hy; cbn [norm_down]; unfold DAYS_PER_YEAR_INTERVAL, YEAR_INTERVAL;
    case_bool_decide as Hbig.
  - lia.
  - exists 0. split_and!; [f_equal; f_equal; lia|lia..].
  - rewrite (s32_ok (n - _)), bind_ok, (s32_ok (year + _)), bind_ok by lia.
    destruct (IH (n - 146097) (year + 400)) as (k & E & Hk & H0); [lia..|]. exists (k + 1).
    rewrite E. split_and!; [f_equal; f_equal; lia|lia..].
  - exists 0. split_and!; [f_equal; f_equal; lia|lia..].
Qed.
(** Walking back stops at the year that holds day [n]. *)
Lemma walk_back_ok fuel n i :
  0 ≤ n → 0 ≤ i ≤ 400 → i ≤ Z.of_nat fuel → n < year_start (1970 + i + 1) →
  ∃ j, walk_back fuel n i = Ok j ∧ 0 ≤ j ≤ i ∧ year_start (1970 + j) ≤ n < year_start (1970 + j + 1).
Proof.
  revert i. induction fuel as [|fuel IH]; intros i Hn Hi Hf Hub; cbn [walk_back]; rewrite cumulative_ok, bind_ok by lia;
    case_bool_decide as Hlt.
  - assert (i = 0) as -> by lia. change (year_start (1970 + 0)) with 0 in Hlt. lia.
  - exists i. split_and!; [done|lia..].
  - assert (i ≠ 0) as Hne. { intros ->. change (year_start (1970 + 0)) with 0 in Hlt. lia. }
    rewrite ensure_ok, bind_ok by lia.
    destruct (IH (i - 1)) as (j & E & Hj & Hb); [lia..|by replace (1970 + (i - 1) + 1) with (1970 + i) by lia|].
    exists j. split_and!; [done|lia..].
  - exists i. split_and!; [done|lia..].
Qed.
(** The year of a day. *)
Lemma ExtractYearOffset_ok n :
  int32 n → ∃ n' y j k, ExtractYearOffset n = Ok (n', y, j) ∧ n = n' + 146097 * k ∧ y = 1970 + j + 400 * k ∧ 0 ≤ j < 400 ∧
    year_start (1970 + j) ≤ n' < year_start (1970 + j + 1).
Proof.
  unfold int32. intros Hn. unfold ExtractYearOffset, EPOCH_YEAR.
  assert (∃ k, (norm_up (Z.to_nat 14700) n 1970) = Ok (n + 146097 * k, 1970 - 400 * k) ∧ 0 ≤ k ≤ 14700 ∧ 0 ≤ n + 146097 * k < 2 ^ 31)
    as (k1 & E1 & Hk1 & Hn1).
  { destruct (decide (n < 0)) as [Hneg|Hpos].
    - destruct (norm_up_ok (Z.to_nat 14700) n 1970) as (k & E & ? & ? & ?); [lia..|]. exists k. split_and!; [done|lia..].
    - exists 0. split_and!; [|lia..]. change (Z.to_nat 14700) with (S (Z.to_nat 14699)). cbn [norm_up].
      rewrite bool_decide_false by lia. f_equal. f_equal; lia. }
  rewrite E1, bind_ok. destruct (norm_down_ok (Z.to_nat 14700) (n + 146097 * k1) (1970 - 400 * k1)) as (k2 & E2 & Hk2 & Hn2); [lia..|].
  rewrite E2, bind_ok. set (n' := n + 146097 * k1 - 146097 * k2) in *.
  pose proof (Z.div_mod n' 365). pose proof (Z.mod_pos_bound n' 365).
  destruct (walk_back_ok 400 n' (n' / 365)) as (j & E3 & Hj & Hb).
  { lia. } { split; [apply Z.div_pos; lia|apply Z.lt_succ_r, Z.div_lt_upper_bound; lia]. } { apply Z.lt_succ_r, Z.div_lt_upper_bound; lia. }
  { pose proof (year_start_mono 1970 (1970 + n' / 365 + 1)). change (year_start 1970) with 0 in *. pose proof (Z.div_pos n' 365). lia. }
  assert (n' / 365 ≤ 400) as Hq by (apply Z.lt_succ_r, Z.div_lt_upper_bound; lia).
  rewrite E3, bind_ok, s32_ok, bind_ok, cumulative_ok, bind_ok by lia. rewrite ensure_ok, bind_ok by lia.
  exists n', (1970 - 400 * k1 + 400 * k2 + j), j, (k2 - k1). split_and!; [done|unfold n'; lia|lia|lia| |lia..].
  destruct (decide (j = 400)) as [->|]; [|lia]. change (year_start (1970 + 400)) with 146097 in Hb. lia.
Qed.

Lemma year_start_shift j k : year_start (1970 + j + 400 * k) = year_start (1970 + j) + 146097 * k.
Proof. apply year_start_400. Qed.
Lemma leap_shift y k : leap (y + 400 * k) ↔ leap y.
Proof. unfold leap. Z.to_euclidean_division_equations; lia. Qed.

Lemma Date_Convert_ok n :
  int32 n → ∃ y m d, Date_Convert n = Ok (y, m, d) ∧ real_date y m d ∧ epoch_days y m d = n.
Proof.
  intros Hn. destruct (ExtractYearOffset_ok n Hn) as (n' & y & j & k & E & -> & -> & Hj & Hb).
  unfold Date_Convert. rewrite E, bind_ok. rewrite !cumulative_ok by lia. rewrite !bind_ok.
  rewrite (Z.add_assoc 1970 j 1), year_start_next in *. set (lp := bool_decide (leap (1970 + j))) in *.
  assert (year_length lp ≤ 366) as Hyl by (by destruct lp).
  rewrite ensure_ok, !bind_ok by lia. cbv zeta.
  assert (bool_decide (year_start (1970 + j) + year_length lp - year_start (1970 + j) = 366) = lp) as ->.
  { destruct lp; [apply bool_decide_true|apply bool_decide_false]; unfold year_length; lia. }
  destruct (month_of_day lp (n' - year_start (1970 + j))) as (m & Em & Hm & Hd); [lia|].
  unfold month_table in Em. rewrite Em, bind_ok. destruct (month_tables_ok lp m Hm) as (Eb & El & _ & _).
  unfold before_table, length_table in Eb, El. rewrite Eb, bind_ok, El, bind_ok. rewrite !ensure_ok, !bind_ok by lia.
  assert (bool_decide (leap (1970 + j + 400 * k)) = lp) as Elp by (apply bool_decide_ext, leap_shift).
  eexists _, _, _. split; [done|]. unfold real_date, epoch_days, day_of_year. rewrite Elp, year_start_shift. split; [split; lia|lia].
Qed.

(** Two dates with the same day count are the same. *)
Lemma epoch_days_inj y m d y' m' d' :
  real_date y m d → real_date y' m' d' → epoch_days y m d = epoch_days y' m' d' → (y, m, d) = (y', m', d').
Proof.
  intros Hr Hr' E. pose proof (epoch_days_bounds _ _ _ Hr). pose proof (epoch_days_bounds _ _ _ Hr').
  assert (y = y') as <-.
  { destruct (Z.lt_total y y') as [Hlt|[->|Hgt]]; [|done|].
    - pose proof (year_start_mono (y + 1) y'). lia.
    - pose proof (year_start_mono (y' + 1) y). lia. }
  destruct Hr as [Hm Hd], Hr' as [Hm' Hd']. unfold epoch_days in E.
  pose proof (day_of_month _ m d Hm Hd) as E1. pose proof (day_of_month _ m' d' Hm' Hd') as E2.
  assert (day_of_year (bool_decide (leap y)) m d = day_of_year (bool_decide (leap y)) m' d') as E3 by lia.
  rewrite E3, E2 in E1. injection E1 as ->. unfold day_of_year in E3. f_equal. lia.
Qed.

(** * Dates and timestamps as text

    The renderings of [StringCastFromDate] and [StringCastFromTimestamp] written out ([date_text],
    [time_text]) and read back by the parsers. *)

(** ** Writing *)

Lemma app_cons_assoc (a : list Z) x (b : list Z) : a ++ x :: b = (a ++ [x]) ++ b.
Proof. by rewrite <-app_assoc. Qed.

Lemma decimal_two v : 0 ≤ v ≤ 99 → decimal 2 v = [48 + v / 10; 48 + v mod 10].
Proof.
  intros Hv. simpl. rewrite (Z.mod_small (v / 10)); [done|]. split; [apply Z.div_pos; lia|apply Z.div_lt_upper_bound; lia].
Qed.
Lemma two_digits_ok (a b : list Z) x y ptr v :
  ptr = Z.of_nat (length a) → 0 ≤ v ≤ 99 → two_digits (a ++ x :: y :: b) ptr v = Ok (a ++ decimal 2 v ++ b).
Proof.
  intros -> Hv. rewrite decimal_two by done. unfold two_digits. destruct (digit_at_ok v) as [E0 E1]; [lia|]. case_bool_decide.
  - rewrite poke_app, bind_ok by done. rewrite (app_cons_assoc a 48), poke_app by (rewrite length_app; simpl; lia).
    rewrite <-app_assoc, Z.div_small, Z.mod_small by lia. done.
  - rewrite E0, bind_ok, poke_app, bind_ok, E1, bind_ok by done. rewrite (app_cons_assoc a (48 + _)), poke_app by (rewrite length_app; simpl; lia).
    by rewrite <-app_assoc.
Qed.
Lemma date_field_ok (a b : list Z) w x y ptr v :
  ptr = Z.of_nat (length a) → 0 ≤ v ≤ 99 → date_field (a ++ w :: x :: y :: b) ptr v = Ok (a ++ 45 :: decimal 2 v ++ b).
Proof.
  intros -> Hv. unfold date_field. rewrite poke_app, bind_ok by done.
  rewrite (app_cons_assoc a 45), two_digits_ok by (rewrite ?length_app; simpl; lia). by rewrite <-app_assoc.
Qed.
Lemma copy_at_ok (a gap b src : list Z) ptr :
  ptr = Z.of_nat (length a) → length gap = length src → copy_at (a ++ gap ++ b) ptr src = Ok (a ++ src ++ b).
Proof.
  revert a gap ptr. induction src as [|c src IH]; intros a gap ptr -> Hg; destruct gap as [|x gap]; simpl in Hg; try done; simpl.
  rewrite poke_app by done. simpl. rewrite (app_cons_assoc a c), IH by (rewrite ?length_app; simpl; lia). by rewrite <-app_assoc.
Qed.

(** ** A date *)

Definition date_text (y m d : Z) : list Z :=
  let '(_, year, year_length, add_bc) := Date_Length y in
  decimal (Z.to_nat year_length) year ++ 45 :: decimal 2 m ++ 45 :: decimal 2 d ++ (if add_bc then text " (BC)" else []).

Lemma Date_Length_ok y :
  -5877641 ≤ y ≤ 5881580 →
  ∃ year_length, Date_Length y =
      (6 + (if bool_decide (y ≤ 0) then 5 else 0) + year_length, if bool_decide (y ≤ 0) then - y + 1 else y, year_length, bool_decide (y ≤ 0)) ∧
    4 ≤ year_length ≤ 8 ∧ 0 < (if bool_decide (y ≤ 0) then - y + 1 else y) < 10 ^ year_length ∧
    (if bool_decide (y ≤ 0) then - y + 1 else y) < 100000000.
Proof.
  intros Hy. unfold Date_Length. set (yy := if bool_decide (y ≤ 0) then - y + 1 else y).
  assert (0 < yy < 100000000) as Hyy by (unfold yy; case_bool_decide; lia).
  eexists. split; [by case_bool_decide|]. unfold at_least. repeat (case_bool_decide; try (exfalso; lia)); simpl; lia.
Qed.
Lemma date_text_length y m d :
  -5877641 ≤ y ≤ 5881580 → Z.of_nat (length (date_text y m d)) = (Date_Length y).1.1.1.
Proof.
  intros Hy. destruct (Date_Length_ok y Hy) as (yl & E & Hl & _). unfold date_text. rewrite E. simpl.
  rewrite !length_app, decimal_length. simpl. case_bool_decide; simpl; lia.
Qed.
Lemma Date_Format_ok junk (post : list Z) y m d len :
  -5877641 ≤ y ≤ 5881580 → 0 ≤ m ≤ 99 → 0 ≤ d ≤ 99 → len = (Date_Length y).1.1.1 →
  let '(_, year, year_length, add_bc) := Date_Length y in
  Date_Format (replicate (Z.to_nat len) junk ++ post) year m d year_length add_bc = Ok (date_text y m d ++ post).
Proof.
  intros Hy Hm Hd ->. destruct (Date_Length_ok y Hy) as (yl & E & Hl & Hyy & _). unfold date_text. rewrite E.
  set (yy := if bool_decide (y ≤ 0) then - y + 1 else y) in *. set (bc := bool_decide (y ≤ 0)) in *. simpl fst.
  set (tail := (if bc then 5 else 0)%nat).
  replace (Z.to_nat _) with (Z.to_nat yl + (6 + tail))%nat by (unfold tail; destruct bc; lia). rewrite !replicate_split.
  change (replicate 6 junk) with [junk; junk; junk; junk; junk; junk]. rewrite <-!app_assoc. unfold Date_Format.
  destruct (format_padded (Z.to_nat yl) yy [] (replicate (Z.to_nat yl) junk)
    ([junk; junk; junk; junk; junk; junk] ++ replicate tail junk ++ post) 0 yl) as (p & buf & E1 & _ & E2);
    [lia|rewrite Z2Nat.id; lia|apply length_replicate|done|simpl; lia|].
  rewrite app_nil_l in E1. rewrite E1, bind_ok, E2, bind_ok. cbn [app].
  rewrite date_field_ok, bind_ok by (rewrite ?decimal_length; lia).
  rewrite app_comm_cons, (app_assoc (decimal (Z.to_nat yl) yy)), date_field_ok, bind_ok by (rewrite ?length_app, ?decimal_length; simpl; rewrite ?decimal_length; lia).
  unfold tail. destruct bc; [|by rewrite <-!app_assoc]. rewrite app_comm_cons, (app_assoc (_ ++ _)), copy_at_ok.
  - by rewrite <-!app_assoc.
  - rewrite !length_app. simpl. rewrite !decimal_length. lia.
  - done.
Qed.

(** The date an [int32_t] stands for. *)
Lemma real_year y m d : real_date y m d → int32 (epoch_days y m d) → -5877641 ≤ y ≤ 5881580.
Proof.
  intros Hr Hi. pose proof (too_early_ok y m d Hr) as He. pose proof (too_late_ok y m d Hr) as Hl.
  unfold too_early, too_late, int32, DATE_MIN_YEAR, DATE_MAX_YEAR in *. lia.
Qed.
Lemma month_length_le lp m : month_length lp m ≤ 31.
Proof. unfold month_length. repeat case_decide; destruct lp; lia. Qed.
Lemma StringCastFromDate_ok junk n :
  int32 n → ∃ y m d, Date_Convert n = Ok (y, m, d) ∧ real_date y m d ∧ epoch_days y m d = n ∧
    StringCastFromDate junk n = Ok (date_text y m d).
Proof.
  intros Hn. destruct (Date_Convert_ok n Hn) as (y & m & d & E & Hr & Ee). exists y, m, d. split_and!; try done.
  assert (-5877641 ≤ y ≤ 5881580) as Hy by (apply (real_year y m d); [done|by rewrite Ee]).
  pose proof Hr as [Hm Hd]. pose proof (month_length_le (bool_decide (leap y)) m).
  unfold StringCastFromDate. rewrite E, bind_ok.
  pose proof (Date_Format_ok junk [junk] y m d _ Hy ltac:(lia) ltac:(lia) eq_refl) as Ef.
  pose proof (date_text_length y m d Hy) as El. destruct (Date_Length y) as [[[len yy] yl] bc] eqn:EL. simpl in El, Ef.
  unfold EmptyString. rewrite Z2Nat.inj_add, replicate_split by lia. change (replicate (Z.to_nat 1) junk) with [junk].
  rewrite Ef, bind_ok. f_equal. unfold string_of. apply take_app_length'. lia.
Qed.

(** ** Reading a date *)

Lemma digit_bounds c : 48 ≤ c ≤ 57 → CharacterIsDigit c = true.
Proof. intros. unfold CharacterIsDigit. by apply bool_decide_true. Qed.
Lemma ParseDoubleDigit_ok v rest : 0 ≤ v ≤ 99 → ParseDoubleDigit (decimal 2 v ++ rest) = Some (v, rest).
Proof.
  intros Hv. rewrite decimal_two by done. pose proof (Z.div_mod v 10). pose proof (Z.mod_pos_bound v 10). cbn [app ParseDoubleDigit].
  rewrite !digit_bounds by lia. f_equal. f_equal. lia.
Qed.
Lemma parse_year_ok a ds c rest :
  all_digits ds → CharacterIsDigit c = false → 0 ≤ a → extend a ds < 100000000 →
  parse_year a (ds ++ c :: rest) = Some (extend a ds, c :: rest).
Proof.
  intros Hds Hc. revert a. induction Hds as [|x ds Hx Hds IH]; intros a Ha Hlt.
  - cbn [app parse_year]. by rewrite Hc.
  - change (extend a (x :: ds)) with (extend (a * 10 + (x - 48)) ds) in *. destruct (digit_code x Hx) as [? _].
    pose proof (extend_ge (a * 10 + (x - 48)) ds ltac:(lia) Hds). cbn [app parse_year]. rewrite Hx, bool_decide_false by lia.
    replace (x - 48 + a * 10) with (a * 10 + (x - 48)) by lia. apply IH; lia.
Qed.
Lemma parse_bc_text rest : parse_bc (text " (BC)" ++ rest) = Some rest.
Proof. done. Qed.
(** The fields of a rendered date, and what follows it. *)
Lemma parse_fields_ok y m d rest :
  -5877641 ≤ y ≤ 5881580 → 0 ≤ m ≤ 99 → 0 ≤ d ≤ 99 → parse_bc rest = None →
  parse_fields (date_text y m d ++ rest) = Some (y, m, d, rest).
Proof.
  intros Hy Hm Hd Hbc. destruct (Date_Length_ok y Hy) as (yl & E & Hl & Hyy & Hlt). unfold date_text. rewrite E. clear E.
  set (yy := if bool_decide (y ≤ 0) then - y + 1 else y) in *.
  pose proof (decimal_digits (Z.to_nat yl) yy ltac:(lia)) as Hds. pose proof (decimal_length (Z.to_nat yl) yy) as Hlen.
  pose proof (value_decimal (Z.to_nat yl) yy) as Hv. rewrite Z2Nat.id in Hv by lia. specialize (Hv ltac:(lia)).
  set (ds := decimal (Z.to_nat yl) yy) in *. clearbody ds. rewrite <-app_assoc. cbn [app]. rewrite <-app_assoc. cbn [app]. rewrite <-app_assoc.
  pose proof (parse_year_ok 0 ds 45 (decimal 2 m ++ 45 :: decimal 2 d ++ (if bool_decide (y ≤ 0) then text " (BC)" else []) ++ rest)
    Hds eq_refl ltac:(lia)) as Ey. change (extend 0 ds) with (value_of ds) in Ey. rewrite Hv in Ey. specialize (Ey Hlt).
  destruct ds as [|c ds]; [simpl in Hlen; lia|]. pose proof Hds as Hc%Forall_inv. simpl in Hc.
  destruct (digit_not_space c Hc) as (Hsp & _ & H45). unfold parse_fields. cbn [app skip_spaces]. rewrite Hsp.
  rewrite (bool_decide_false (c = 45)) by done. rewrite Hc. cbn [negb]. cbn [app] in Ey. rewrite Ey.
  rewrite (bool_decide_false (45 ≠ 32 ∧ 45 ≠ 45 ∧ 45 ≠ 47 ∧ 45 ≠ 92)) by tauto. rewrite ParseDoubleDigit_ok by done.
  rewrite (bool_decide_false (45 ≠ 45)) by tauto. rewrite ParseDoubleDigit_ok by done.
  assert (∀ (A : Type) (a b : A), match decimal 2 d ++ (if bool_decide (y ≤ 0) then text " (BC)" else []) ++ rest with [] => a | _ => b end = b) as Hne.
  { intros A a b. by rewrite decimal_two. }
  rewrite Hne. unfold yy. case_bool_decide as Hneg.
  - rewrite parse_bc_text. rewrite bool_decide_false by lia. cbn [orb]. f_equal. f_equal. f_equal. f_equal. lia.
  - rewrite app_nil_l, Hbc. done.
Qed.
Lemma TryFromDate_real y m d : real_date y m d → int32 (epoch_days y m d) → TryFromDate y m d = Ok (Some (epoch_days y m d)).
Proof. intros Hr Hi. by rewrite TryFromDate_ok, decide_True. Qed.
Lemma TryConvertDate_ok y m d rest (strict : bool) :
  real_date y m d → int32 (epoch_days y m d) → parse_bc rest = None →
  (if strict then rest = [] else ∀ c l, rest = c :: l → CharacterIsDigit c = false) →
  TryConvertDate (date_text y m d ++ rest) strict = Ok (Some (epoch_days y m d, rest)).
Proof.
  intros Hr Hi Hbc Hrest. pose proof (real_year y m d Hr Hi) as Hy. pose proof Hr as [Hm Hd].
  pose proof (month_length_le (bool_decide (leap y)) m). unfold TryConvertDate. rewrite parse_fields_ok by (done || lia).
  destruct strict.
  - subst rest. simpl skip_spaces. rewrite bool_decide_false by naive_solver. rewrite TryFromDate_real by done. done.
  - assert (match rest with c :: _ => CharacterIsDigit c | [] => false end = false) as -> by (destruct rest as [|c l]; [done|by eapply Hrest]).
    rewrite TryFromDate_real by done. done.
Qed.

(** ** A time of day *)

Definition time_text (h m s us : Z) : list Z :=
  decimal 2 h ++ 58 :: decimal 2 m ++ 58 :: decimal 2 s ++
  (if bool_decide (us = 0) then [] else 46 :: take (Z.to_nat (6 - trailing_zeros (reverse (drop 1 (decimal 6 us))))) (decimal 6 us)).
Lemma trailing_zeros_bounds ds : 0 ≤ trailing_zeros ds ≤ Z.of_nat (length ds).
Proof. induction ds as [|c ds IH]; simpl; [lia|]. case_bool_decide; lia. Qed.
Lemma FormatMicros_ok junk us :
  0 ≤ us < 1000000 → FormatMicros junk us = Ok (trailing_zeros (reverse (drop 1 (decimal 6 us))), decimal 6 us).
Proof.
  intros Hus. unfold FormatMicros. destruct (format_padded 6 us [] (replicate 6 junk) [] 0 6) as (p & buf & E1 & _ & E2); try done; [lia..|].
  rewrite app_nil_l, app_nil_r in E1. rewrite E1, bind_ok, E2, bind_ok. by rewrite app_nil_l, app_nil_r.
Qed.
Lemma Time_Length_ok junk us :
  0 ≤ us < 1000000 → ∃ buf, Time_Length junk us = Ok (8 + (if bool_decide (us = 0) then 0 else 7 - trailing_zeros (reverse (drop 1 (decimal 6 us)))), buf) ∧
    (us ≠ 0 → buf = decimal 6 us).
Proof.
  intros Hus. unfold Time_Length. case_bool_decide; [by eexists|]. rewrite FormatMicros_ok by done. rewrite bind_ok.
  eexists. split; [f_equal; f_equal; lia|done].
Qed.
Lemma time_text_length h m s us :
  Z.of_nat (length (time_text h m s us)) = 8 + (if bool_decide (us = 0) then 0 else 7 - trailing_zeros (reverse (drop 1 (decimal 6 us)))).
Proof.
  unfold time_text. rewrite !length_app, !decimal_length. cbn [length]. rewrite !length_app, !decimal_length. cbn [length].
  rewrite !length_app, !decimal_length. pose proof (trailing_zeros_bounds (reverse (drop 1 (decimal 6 us)))) as Hz.
  rewrite length_reverse, length_drop, decimal_length in Hz. case_bool_decide; [simpl; lia|]. cbn [length].
  rewrite length_take, decimal_length. lia.
Qed.
(** Writing at an offset after [a]. *)
Lemma poke_off (k : nat) (a l : list Z) i c :
  i = Z.of_nat (length a + k) → (k < length l)%nat → poke (a ++ l) i c = Ok (a ++ <[k := c]> l).
Proof.
  intros -> Hk. unfold poke. rewrite bool_decide_true by (rewrite length_app; lia). rewrite Nat2Z.id, insert_app_r. done.
Qed.
Lemma two_digits_off (k : nat) (a l : list Z) i v :
  i = Z.of_nat (length a + k) → (S k < length l)%nat → 0 ≤ v ≤ 99 →
  FormatTwoDigits (a ++ l) i v = Ok (a ++ <[S k := 48 + v mod 10]> (<[k := 48 + v / 10]> l)).
Proof.
  intros -> Hk Hv. unfold FormatTwoDigits. rewrite ensure_ok, bind_ok by lia. unfold two_digits. destruct (digit_at_ok v) as [E0 E1]; [lia|].
  case_bool_decide.
  - rewrite (poke_off k), bind_ok, (poke_off (S k)) by (rewrite ?length_insert; lia). rewrite Z.div_small, Z.mod_small by lia. done.
  - rewrite E0, bind_ok, (poke_off k), bind_ok, E1, bind_ok, (poke_off (S k)) by (rewrite ?length_insert; lia). done.
Qed.
Lemma Time_Format_ok junk (a b : list Z) ptr len h m s us buf :
  ptr = Z.of_nat (length a) → 0 ≤ h ≤ 99 → 0 ≤ m ≤ 99 → 0 ≤ s ≤ 99 → 0 ≤ us < 1000000 →
  len = Z.of_nat (length (time_text h m s us)) → (us ≠ 0 → buf = decimal 6 us) →
  Time_Format (a ++ replicate (Z.to_nat len) junk ++ b) ptr len (h, m, s, us) buf = Ok (a ++ time_text h m s us ++ b).
Proof.
  intros -> Hh Hm Hs Hus -> Hbuf. rewrite time_text_length.
  set (frac := if bool_decide (us = 0) then [] else 46 :: take (Z.to_nat (6 - trailing_zeros (reverse (drop 1 (decimal 6 us))))) (decimal 6 us)).
  pose proof (trailing_zeros_bounds (reverse (drop 1 (decimal 6 us)))) as Hz.
  rewrite length_reverse, length_drop, decimal_length in Hz. set (z := trailing_zeros _) in *.
  assert (Z.of_nat (length frac) = if bool_decide (us = 0) then 0 else 7 - z) as Hfrac.
  { unfold frac. case_bool_decide; [done|]. cbn [length]. rewrite length_take, decimal_length. lia. }
  assert (time_text h m s us = decimal 2 h ++ 58 :: decimal 2 m ++ 58 :: decimal 2 s ++ frac) as -> by done.
  rewrite <-Hfrac. replace (Z.to_nat (8 + Z.of_nat (length frac))) with (8 + length frac)%nat by lia.
  rewrite replicate_split, <-app_assoc. change (replicate 8 junk) with [junk; junk; junk; junk; junk; junk; junk; junk]. cbn [app].
  unfold Time_Format.
  rewrite (poke_off 2), bind_ok by (simpl; lia). cbn [insert list_insert]. rewrite (poke_off 5), bind_ok by (simpl; lia). cbn [insert list_insert].
  rewrite (two_digits_off 0), bind_ok by (simpl; lia). cbn [insert list_insert].
  rewrite (two_digits_off 3), bind_ok by (simpl; lia). cbn [insert list_insert].
  rewrite (two_digits_off 6), bind_ok by (simpl; lia). cbn [insert list_insert].
  rewrite !decimal_two by done. cbn [app]. unfold frac in *. destruct (decide (us = 0)) as [E0|Hne].
  - rewrite (bool_decide_true (us = 0)) in * by done. by rewrite bool_decide_false by (simpl; lia).
  - rewrite (bool_decide_false (us = 0)) in * by done. rewrite bool_decide_true by lia.
    rewrite (length_cons 46). cbn [replicate app]. rewrite (poke_off 8), bind_ok by (simpl; lia). cbn [insert list_insert]. rewrite (Hbuf Hne).
    replace (8 + Z.of_nat (S (length (take (Z.to_nat (6 - z)) (decimal 6 us)))) - 9) with (6 - z)
      by (rewrite length_take, decimal_length; lia).
    pose proof (copy_at_ok (a ++ [48 + h / 10; 48 + h mod 10; 58; 48 + m / 10; 48 + m mod 10; 58; 48 + s / 10; 48 + s mod 10; 46])
      (replicate (length (take (Z.to_nat (6 - z)) (decimal 6 us))) junk) b (take (Z.to_nat (6 - z)) (decimal 6 us))
      (Z.of_nat (length a) + 9)) as Ec. rewrite <-!app_assoc in Ec. apply Ec; [rewrite length_app; simpl; lia|apply length_replicate].
Qed.

(** ** Reading a time *)

Lemma parse_two_digits_ok max v rest : 0 ≤ v ≤ max → max ≤ 99 → parse_two_digits max (decimal 2 v ++ rest) = Some (v, rest).
Proof.
  intros Hv Hmax. rewrite decimal_two by lia. pose proof (Z.div_mod v 10). pose proof (Z.mod_pos_bound v 10).
  cbn [app parse_two_digits]. rewrite !digit_bounds by lia. cbn [andb].
  replace ((48 + v / 10 - 48) * 10 + (48 + v mod 10 - 48)) with v by lia. by rewrite bool_decide_true by lia.
Qed.
Lemma parse_fraction_cons micros scale d rest :
  0 ≤ d ≤ 9 → scale > 0 → parse_fraction micros scale (48 + d :: rest) = parse_fraction (micros + d * scale) (scale / 10) rest.
Proof.
  intros Hd Hs. cbn [parse_fraction]. rewrite digit_bounds, bool_decide_true by lia. by replace (48 + d - 48) with d by lia.
Qed.
Lemma decimal_six us : 0 ≤ us < 1000000 → ∃ a b c d e f,
  decimal 6 us = [48 + a; 48 + b; 48 + c; 48 + d; 48 + e; 48 + f] ∧ us = a * 100000 + b * 10000 + c * 1000 + d * 100 + e * 10 + f ∧
  (0 ≤ a ≤ 9) ∧ (0 ≤ b ≤ 9) ∧ (0 ≤ c ≤ 9) ∧ (0 ≤ d ≤ 9) ∧ (0 ≤ e ≤ 9) ∧ (0 ≤ f ≤ 9).
Proof.
  intros Hus. simpl. do 6 eexists. split; [reflexivity|]. Z.to_euclidean_division_equations; lia.
Qed.
(** The trimmed fraction reads back as the microseconds. *)
Lemma parse_fraction_ok us :
  0 ≤ us < 1000000 → us ≠ 0 →
  ∃ d l, take (Z.to_nat (6 - trailing_zeros (reverse (drop 1 (decimal 6 us))))) (decimal 6 us) = 48 + d :: l ∧ 0 ≤ d ≤ 9 ∧
    parse_fraction 0 100000 (48 + d :: l) = (us, []).
Proof.
  intros Hus Hne. destruct (decimal_six us Hus) as (a & b & c & d & e & f & E & Ev & Ha & Hb & Hc & Hd & He & Hf). rewrite E. clear E.
  change (reverse (drop 1 [48 + a; 48 + b; 48 + c; 48 + d; 48 + e; 48 + f])) with [48 + f; 48 + e; 48 + d; 48 + c; 48 + b].
  cbn [trailing_zeros]. repeat case_bool_decide.
  all: match goal with |- context [take (Z.to_nat (6 - ?z)) _] => let n := eval vm_compute in (Z.to_nat (6 - z)) in change (Z.to_nat (6 - z)) with n end.
  all: cbn [take]; do 2 eexists; split; [reflexivity|]; split; [done|].
  all: repeat (rewrite parse_fraction_cons by (done || lia); match goal with |- context [parse_fraction _ (?x / 10) _] =>
         let r := eval vm_compute in (x / 10) in change (x / 10) with r end).
  all: cbn [parse_fraction]; f_equal; lia.
Qed.
Lemma skip_spaces_digit c l : CharacterIsDigit c = true → skip_spaces (c :: l) = c :: l.
Proof. intros Hc. destruct (digit_not_space c Hc) as [Hs _]. cbn [skip_spaces]. by rewrite Hs. Qed.
Lemma parse_time_ok h m s us :
  0 ≤ h ≤ 23 → 0 ≤ m ≤ 59 → 0 ≤ s ≤ 59 → 0 ≤ us < 1000000 → parse_time (time_text h m s us) = Some (h, m, s, us).
Proof.
  intros Hh Hm Hs Hus. unfold parse_time, time_text. rewrite parse_two_digits_ok by lia. rewrite bool_decide_true by done. cbn [negb].
  rewrite parse_two_digits_ok by lia. rewrite bool_decide_true by done. cbn [negb]. rewrite parse_two_digits_ok by lia.
  destruct (decide (us = 0)) as [->|Hne].
  - by rewrite bool_decide_true.
  - rewrite (bool_decide_false (us = 0)) by done. rewrite bool_decide_true by done. cbn [negb].
    destruct (parse_fraction_ok us Hus Hne) as (d & l & -> & Hd & E). rewrite digit_bounds by lia. by rewrite E.
Qed.

(** ** Timestamps *)

Definition int64 (n : Z) : Prop := - 2 ^ 63 ≤ n < 2 ^ 63.
(** The days whose midnight fits; a timestamp before the first of them has none. *)
Definition first_midnight : Z := - 106751991 * MICROS_PER_DAY.

Lemma s64_ok z : - 2 ^ 63 ≤ z < 2 ^ 63 → s64 z = Ok z.
Proof. intros. unfold s64. by rewrite bool_decide_true. Qed.
Lemma micros_per_day : MICROS_PER_DAY = 86400000000.
Proof. done. Qed.
Lemma GetDate_ok ts : int64 ts → GetDate ts = ts / MICROS_PER_DAY ∧ - 106751992 ≤ ts / MICROS_PER_DAY ≤ 106751991.
Proof.
  unfold int64. intros Hts. assert (- 106751992 ≤ ts / MICROS_PER_DAY ≤ 106751991) as Hb.
  { rewrite micros_per_day. Z.to_euclidean_division_equations; lia. }
  split; [|done]. unfold GetDate. rewrite micros_per_day in *.
  assert (Z.quot (ts + Z.b2z (bool_decide (ts < 0))) 86400000000 - Z.b2z (bool_decide (ts < 0)) = ts / 86400000000) as ->.
  { case_bool_decide; simpl; Z.to_euclidean_division_equations; lia. }
  unfold i32. apply wrap_s_small; lia.
Qed.
Lemma Timestamp_Convert_ok ts :
  int64 ts → first_midnight ≤ ts → Timestamp_Convert ts = Ok (ts / MICROS_PER_DAY, ts mod MICROS_PER_DAY).
Proof.
  unfold first_midnight. intros Hi Hf. destruct (GetDate_ok ts Hi) as [E Hb]. unfold Timestamp_Convert. rewrite E.
  pose proof (Z.div_mod ts MICROS_PER_DAY). pose proof (Z.mod_pos_bound ts MICROS_PER_DAY). rewrite micros_per_day in *. unfold int64 in Hi.
  assert (-106751991 ≤ ts / 86400000000) by (apply Z.div_le_lower_bound; lia).
  rewrite (s64_ok (_ * _)), bind_ok, s64_ok, bind_ok by lia. f_equal. f_equal. lia.
Qed.
Lemma Time_Convert_ok t :
  0 ≤ t < MICROS_PER_DAY → ∃ h m s us, Time_Convert t = (h, m, s, us) ∧ (0 ≤ h ≤ 23) ∧ (0 ≤ m ≤ 59) ∧ (0 ≤ s ≤ 59) ∧ (0 ≤ us < 1000000) ∧
    t = h * MICROS_PER_HOUR + m * MICROS_PER_MINUTE + s * MICROS_PER_SEC + us.
Proof.
  intros Ht. unfold Time_Convert. change MICROS_PER_HOUR with 3600000000. change MICROS_PER_MINUTE with 60000000.
  change MICROS_PER_SEC with 1000000. change MICROS_PER_DAY with 86400000000 in Ht.
  assert (∀ z, 0 ≤ z < 1000000 → i32 z = z) as Hi by (intros z Hz; unfold i32; apply wrap_s_small; lia).
  assert (0 ≤ Z.quot t 3600000000 ≤ 23) as Hh by (Z.to_euclidean_division_equations; lia). rewrite (Hi (Z.quot t _)) by lia.
  set (h := Z.quot t 3600000000) in *. assert (0 ≤ t - h * 3600000000 < 3600000000) as Ht1 by (unfold h; Z.to_euclidean_division_equations; lia).
  set (t1 := t - h * 3600000000) in *. assert (0 ≤ Z.quot t1 60000000 ≤ 59) as Hm by (Z.to_euclidean_division_equations; lia).
  rewrite (Hi (Z.quot t1 _)) by lia. set (m := Z.quot t1 60000000) in *.
  assert (0 ≤ t1 - m * 60000000 < 60000000) as Ht2 by (unfold m; Z.to_euclidean_division_equations; lia). set (t2 := t1 - m * 60000000) in *.
  assert (0 ≤ Z.quot t2 1000000 ≤ 59) as Hs by (Z.to_euclidean_division_equations; lia). rewrite (Hi (Z.quot t2 _)) by lia.
  set (s := Z.quot t2 1000000) in *. assert (0 ≤ t2 - s * 1000000 < 1000000) as Ht3 by (unfold s; Z.to_euclidean_division_equations; lia).
  rewrite (Hi (t2 - _)) by lia. exists h, m, s, (t2 - s * 1000000). split_and!; [done|lia..].
Qed.
Lemma StringCastFromTimestamp_ok junk ts :
  int64 ts → first_midnight ≤ ts → ∃ y m d h mi s us,
    StringCastFromTimestamp junk ts = Ok (date_text y m d ++ 32 :: time_text h mi s us) ∧
    real_date y m d ∧ int32 (epoch_days y m d) ∧ (0 ≤ h ≤ 23) ∧ (0 ≤ mi ≤ 59) ∧ (0 ≤ s ≤ 59) ∧ (0 ≤ us < 1000000) ∧
    ts = epoch_days y m d * MICROS_PER_DAY + h * MICROS_PER_HOUR + mi * MICROS_PER_MINUTE + s * MICROS_PER_SEC + us.
Proof.
  intros Hi Hf. destruct (GetDate_ok ts Hi) as [_ Hb]. pose proof (Z.mod_pos_bound ts MICROS_PER_DAY eq_refl) as Ht.
  destruct (Date_Convert_ok (ts / MICROS_PER_DAY)) as (y & m & d & Ed & Hr & Ee); [unfold int32; lia|].
  assert (int32 (epoch_days y m d)) as Hi32 by (rewrite Ee; unfold int32; lia).
  destruct (Time_Convert_ok _ Ht) as (h & mi & s & us & Et & Hh & Hmi & Hs & Hus & Esum). exists y, m, d, h, mi, s, us.
  split; [|refine (conj Hr (conj Hi32 (conj Hh (conj Hmi (conj Hs (conj Hus _)))))); rewrite Ee; pose proof (Z.div_mod ts MICROS_PER_DAY ltac:(done)); lia].
  pose proof (real_year y m d Hr Hi32) as Hy. pose proof Hr as [Hm Hd]. pose proof (month_length_le (bool_decide (leap y)) m) as Hml.
  unfold StringCastFromTimestamp. rewrite Timestamp_Convert_ok, bind_ok, Ed, bind_ok, Et by done. cbn [snd].
  destruct (Time_Length_ok junk us Hus) as (buf & El & Hbuf). rewrite <-(time_text_length h mi s us) in El.
  pose proof (λ post, Date_Format_ok junk post y m d _ Hy ltac:(lia) ltac:(lia) eq_refl) as Ef.
  pose proof (date_text_length y m d Hy) as Eld. destruct (Date_Length y) as [[[len yy] yl] bc]. cbn [fst] in *.
  rewrite El, bind_ok. set (tl := length (time_text h mi s us)) in *.
  assert (EmptyString junk (len + Z.of_nat tl + 1) = replicate (Z.to_nat len) junk ++ junk :: replicate tl junk ++ [junk]) as ->.
  { unfold EmptyString. replace (Z.to_nat _) with (Z.to_nat len + S (tl + 1))%nat by lia. rewrite replicate_split. cbn [replicate].
    by rewrite replicate_split. }
  rewrite Ef, bind_ok, poke_app, bind_ok by done. rewrite app_cons_assoc.
  pose proof (Time_Format_ok junk (date_text y m d ++ [32]) [junk] (len + 1) (Z.of_nat tl) h mi s us buf) as Etf.
  rewrite Nat2Z.id in Etf. rewrite Etf by (done || lia || (rewrite length_app; simpl; lia)). rewrite bind_ok. f_equal. unfold string_of.
  rewrite <-app_assoc. cbn [app]. rewrite app_comm_cons, app_assoc. apply take_app_length'. rewrite length_app. cbn [length]. fold tl. lia.
Qed.
Lemma time_text_head h m s us : 0 ≤ h ≤ 99 → ∃ c l, time_text h m s us = c :: l ∧ CharacterIsDigit c = true.
Proof.
  intros Hh. unfold time_text. rewrite (decimal_two h) by done. do 2 eexists. split; [reflexivity|]. apply digit_bounds.
  Z.to_euclidean_division_equations; lia.
Qed.
Lemma parse_bc_digit c l : CharacterIsDigit c = true → parse_bc (32 :: c :: l) = None.
Proof.
  intros Hc. assert (c ≠ 40) as Hne by (intros ->; done). destruct l as [|b [|c' [|q rest]]]; try done. cbn [parse_bc].
  rewrite (bool_decide_false (c = 40)) by done. by rewrite andb_false_r.
Qed.
Lemma TryConvertTimestamp_ok y m d h mi s us :
  real_date y m d → int32 (epoch_days y m d) → 0 ≤ h ≤ 23 → 0 ≤ mi ≤ 59 → 0 ≤ s ≤ 59 → 0 ≤ us < 1000000 →
  let ts := epoch_days y m d * MICROS_PER_DAY + h * MICROS_PER_HOUR + mi * MICROS_PER_MINUTE + s * MICROS_PER_SEC + us in
  int64 (epoch_days y m d * MICROS_PER_DAY) → int64 ts →
  TryConvertTimestamp (date_text y m d ++ 32 :: time_text h mi s us) = Ok (Some ts).
Proof.
  intros Hr Hi Hh Hmi Hs Hus ts H0 Hts. destruct (time_text_head h mi s us) as (c & l & Et & Hc); [lia|].
  unfold TryConvertTimestamp. rewrite TryConvertDate_ok; [|done|done|rewrite Et; by apply parse_bc_digit|by intros ? ? [= <- _]].
  rewrite bind_ok. unfold FromDatetime. rewrite s64_ok, bind_ok by done. cbn [skip_spaces]. change (CharacterIsSpace 32) with true. cbv iota.
  rewrite Et, skip_spaces_digit by done. cbv iota zeta.
  assert ((if bool_decide (c = 84 ∨ c = 116) then l else c :: l) = time_text h mi s us) as ->.
  { rewrite bool_decide_false; [done|]. intros [-> | ->]; discriminate Hc. }
  rewrite parse_time_ok by done. unfold ts, int64 in *.
  change MICROS_PER_HOUR with 3600000000 in *. change MICROS_PER_MINUTE with 60000000 in *. change MICROS_PER_SEC with 1000000 in *.
  rewrite (s64_ok (_ + h * _)), bind_ok by lia. rewrite (s64_ok (_ + mi * _)), bind_ok by lia.
  rewrite (s64_ok (_ + s * _)), bind_ok, s64_ok, bind_ok by lia. done.
Qed.

(** * What the text and calendar conversions guarantee

    The claims about [numeric_utils], [cast_operators.h], [date.cpp] and [timestamp.cpp]. *)

(** C37: Day counts and calendar dates correspond one to one.  [Date::Convert] returns a date for every
    [int32_t] (no assertion, no table index out of range, no overflow), [TryFromDate] maps exactly that date
    back to it, and [TryFromDate] accepts exactly the dates of the proleptic Gregorian calendar whose day
    count fits an [int32_t], computing the count the calendar gives by arithmetic. *)
Theorem date_calendar_bijection (n y m d : Z) :
  int32 n →
  (∃ date, Date_Convert n = Ok date) ∧
  (Date_Convert n = Ok (y, m, d) ↔ TryFromDate y m d = Ok (Some n)) ∧
  TryFromDate y m d = Ok (if decide (real_date y m d ∧ int32 (epoch_days y m d)) then Some (epoch_days y m d) else None).
Proof.
  intros Hn. destruct (Date_Convert_ok n Hn) as (y' & m' & d' & E & Hr & Ee). split_and!; [by eexists| |apply TryFromDate_ok].
  rewrite E, TryFromDate_ok. split.
  - intros [= <- <- <-]. rewrite Ee, decide_True by done. done.
  - case_decide as Hv; [|done]. intros [= En]. f_equal. apply epoch_days_inj; [done|apply Hv|congruence].
Qed.
Lemma date_calendar_bijection_witness :
  Date_Convert 18321 = Ok (2020, 2, 29) ↔ TryFromDate 2020 2 29 = Ok (Some 18321).
Proof. refine (proj1 (proj2 (date_calendar_bijection 18321 2020 2 29 _))). by vm_compute. Defined.

(** C38: Casting any date to text and the text back to a date (strictly, as the cast does) returns it: every
    write stays inside the text's buffer, and years before Christ and beyond four digits included. *)
Theorem date_text_roundtrip (junk n : Z) :
  int32 n → ∃ txt, StringCastFromDate junk n = Ok txt ∧ TryConvertDate txt true = Ok (Some (n, [])).
Proof.
  intros Hn. destruct (StringCastFromDate_ok junk n Hn) as (y & m & d & _ & Hr & Ee & E). exists (date_text y m d). split; [done|].
  rewrite <-(app_nil_r (date_text y m d)), <-Ee. apply TryConvertDate_ok; try done. by rewrite Ee.
Qed.
Lemma date_text_roundtrip_witness :
  ∃ txt, StringCastFromDate 63 (-719529) = Ok txt ∧ TryConvertDate txt true = Ok (Some (-719529, [])).
Proof. apply date_text_roundtrip. by vm_compute. Defined.

(** C39: Casting a timestamp to text and back returns it to the microsecond, for every [int64_t] from the first
    midnight that is one; every write stays inside the text's buffer. *)
Theorem timestamp_text_roundtrip (junk ts : Z) :
  int64 ts → first_midnight ≤ ts →
  ∃ txt, StringCastFromTimestamp junk ts = Ok txt ∧ TryConvertTimestamp txt = Ok (Some ts).
Proof.
  intros Hi Hf. destruct (StringCastFromTimestamp_ok junk ts Hi Hf) as (y & m & d & h & mi & s & us & E & Hr & Hd & Hh & Hmi & Hs & Hus & Ets).
  eexists. split; [exact E|]. pose proof (TryConvertTimestamp_ok y m d h mi s us Hr Hd Hh Hmi Hs Hus) as Ep. cbv zeta in Ep.
  rewrite <-Ets in Ep. apply Ep; [|done]. unfold int64, first_midnight in *.
  change MICROS_PER_DAY with 86400000000 in *. change MICROS_PER_HOUR with 3600000000 in *.
  change MICROS_PER_MINUTE with 60000000 in *. change MICROS_PER_SEC with 1000000 in *. lia.
Qed.
Lemma timestamp_text_roundtrip_witness :
  ∃ txt, StringCastFromTimestamp 63 (-62198755200000001) = Ok txt ∧ TryConvertTimestamp txt = Ok (Some (-62198755200000001)).
Proof. apply timestamp_text_roundtrip; by vm_compute. Defined.

(** Outside that range the conversions run into signed overflow instead of reporting a failure: splitting
    or rendering a timestamp before the first midnight, and parsing the text of a date whose midnight is not
    an [int64_t] of microseconds (a year from about 294247 or before about 290309 BC), although the date
    itself is valid. *)
Theorem timestamp_overflow (junk ts y m d : Z) :
  - 2 ^ 63 ≤ ts < first_midnight → real_date y m d → int32 (epoch_days y m d) → ¬ int64 (epoch_days y m d * MICROS_PER_DAY) →
  GetTime ts = Err EUndefined ∧ StringCastFromTimestamp junk ts = Err EUndefined ∧
  TryConvertDate (date_text y m d) true = Ok (Some (epoch_days y m d, [])) ∧
  TryConvertTimestamp (date_text y m d) = Err EUndefined.
Proof.
  intros Hts Hr Hi Hbig. assert (int64 ts) as Hi64 by (unfold int64, first_midnight in *; rewrite micros_per_day in *; lia).
  destruct (GetDate_ok ts Hi64) as [Eg Hb]. assert (s64 (ts / MICROS_PER_DAY * MICROS_PER_DAY) = Err EUndefined) as Es.
  { unfold s64. rewrite bool_decide_false; [done|]. unfold first_midnight in Hts. rewrite micros_per_day in *.
    assert (ts / 86400000000 < -106751991) by (apply Z.div_lt_upper_bound; lia). lia. }
  assert (∀ strict : bool, TryConvertDate (date_text y m d) strict = Ok (Some (epoch_days y m d, []))) as Ed.
  { intros strict. rewrite <-(app_nil_r (date_text y m d)). apply TryConvertDate_ok; try done. by destruct strict. }
  split_and!; [| |apply Ed|].
  - unfold GetTime. by rewrite Eg, Es.
  - unfold StringCastFromTimestamp, Timestamp_Convert. by rewrite Eg, Es.
  - unfold TryConvertTimestamp. rewrite Ed, bind_ok. unfold FromDatetime, s64. by rewrite bool_decide_false.
Qed.
Lemma timestamp_overflow_witness :
  GetTime (- 2 ^ 63) = Err EUndefined ∧ TryConvertTimestamp (date_text 300000 1 1) = Err EUndefined.
Proof.
  destruct (timestamp_overflow 63 (- 2 ^ 63) 300000 1 1) as (H1 & _ & _ & H4).
  - by vm_compute.
  - by vm_compute.
  - by vm_compute.
  - intros [_ H]. vm_compute in H. discriminate H.
  - exact (conj H1 H4).
Defined.

(** The casts into an integer type accept exactly what fits.  A cast between integer types returns the
    value when the target holds it and fails otherwise, for all 64 pairs of types.  A text of blanks, an
    optional sign, digits and blanks is parsed as its value when the type holds it and refused otherwise,
    however many digits it has (a minus sign for signed types). *)
Theorem integer_casts_exact (src dst : int_type) (v : Z) h (allow : bool) (sp1 sp2 ds : list Z) (s : int_sign) :
  in_range src v → (is_minus s = true → IsSigned dst = true) → all_digits ds → ds ≠ [] →
  forallb CharacterIsSpace sp1 = true → forallb CharacterIsSpace sp2 = true →
  NumericTryCast src dst v = (if decide (in_range dst v) then Some v else None) ∧
  let w := signed_by (is_minus s) (value_of ds) in
  TryIntegerCast h dst allow (sp1 ++ sign_text s ++ ds ++ sp2) = if decide (in_range dst w) then Some w else None.
Proof. intros. split; [by apply NumericTryCast_ok|by apply TryIntegerCast_ok]. Qed.
Lemma integer_casts_exact_witness :
  NumericTryCast I32 U16 (-1) = None ∧ TryIntegerCast (λ _ _ _, None) I16 true (text " -32768 ") = Some (-32768).
Proof.
  destruct (integer_casts_exact I32 U16 (-1) (λ _ _ _, None) true [] [] (text "1") NoSign) as [H1 _];
    [by vm_compute|done|by repeat constructor|done|done|done|].
  destruct (integer_casts_exact I32 I16 0 (λ _ _ _, None) true (text " ") (text " ") (text "32768") Minus) as [_ H2];
    [by vm_compute|done|by repeat constructor|done|done|done|].
  split; [exact H1|exact H2].
Defined.

(** C40: Rendering an integer of any of the eight types writes its sign and decimal digits inside a buffer of
    the length computed beforehand, and parsing the text returns the integer.  Rendering a decimal (other than the
    minimum of its type) writes the sign, the integer part without leading zeros, a point and exactly [scale] digits of fraction. *)
Theorem number_text (t : int_type) (junk v : Z) (scale : nat) h (allow : bool) :
  in_range t v → (scale ≤ 18)%nat → 10 ^ Z.of_nat scale < 2 ^ width t →
  (∃ txt, StringCast t junk v = Ok txt ∧ TryIntegerCast h t allow txt = Some v ∧ Z.of_nat (length txt) = SignedLength t v) ∧
  (- v ≤ Maximum t → ∃ major, digits_of (Z.abs v / 10 ^ Z.of_nat scale) major ∧
    DecimalToString t junk v (Z.of_nat scale) =
      Ok (sign_chars v ++ major ++ match scale with O => [] | _ => 46 :: decimal scale (Z.abs v mod 10 ^ Z.of_nat scale) end)).
Proof.
  intros Hr Hs Hw. split; [|intros; by apply DecimalToString_ok]. destruct (FormatSigned_ok t junk v Hr) as (ds & (k & Hk & _ & ->) & E & Hlen).
  eexists. split; [exact E|]. pose proof Hk as (Hv & Hk1 & _). pose proof (decimal_length k (Z.abs v)) as Hl. split.
  - pose proof (TryIntegerCast_ok h t allow [] (if bool_decide (v < 0) then Minus else NoSign) (decimal k (Z.abs v)) []) as Ep.
    cbv zeta in Ep. rewrite value_decimal, app_nil_r in Ep by done. case_bool_decide as Hneg; simpl in Ep |- *; rewrite Ep.
    all: try done; try (by apply decimal_digits; lia); try (intros E0; rewrite E0 in Hl; simpl in Hl; lia).
    + rewrite decide_True by (by replace (- Z.abs v) with v by lia). f_equal. lia.
    + intros _. unfold in_range, Minimum in Hr. destruct (IsSigned t); [done|lia].
    + rewrite decide_True by (by replace (Z.abs v) with v by lia). f_equal. lia.
  - rewrite <-Hlen, length_app. unfold sign_of. case_bool_decide; simpl; lia.
Qed.
Lemma number_text_witness :
  ∃ major, digits_of (Z.abs (-7) / 10 ^ Z.of_nat 2) major ∧ DecimalToString I32 63 (-7) 2 = Ok ([45] ++ major ++ [46; 48; 55]).
Proof. refine (proj2 (number_text I32 63 (-7) 2 (λ _ _ _, None) true _ _ _) _); [by vm_compute|lia|by vm_compute|by vm_compute]. Defined.

(** A sign followed only by blanks is parsed as zero. *)
Lemma blank_sign_is_zero t h allow : IsSigned t = true → TryIntegerCast h t allow (text "- ") = Some 0 ∧ TryIntegerCast h t allow (text "+ ") = Some 0.
Proof. by destruct t. Qed.
