(* ===== verification/StringHeap.v ===== *)
(** * String values ([type/bumble_string.h]) and the heap that owns their bytes ([type/string_heap.cpp])

    A [string_t] keeps up to 11 bytes inside the object; a longer string is a pointer into a chunk of a
    bump allocator.  The theorem [AddBlob_ok] says that a stored string reads back and leaves every
    string handed out before unchanged; a string of exactly the documented maximum does not fit. *)

From S2P Require Import Prelude.

Definition PREFIX_LENGTH : Z := 11.
Definition MINIMUM_HEAP_SIZE : Z := 4096 * 2.

(** ** Comparison of bytes *)

Definition byte_val (b : byte) : Z := Z.of_N (Byte.to_N b).

(** [memcmp] of two buffers of one length. *)
Fixpoint memcmp (a b : list byte) : Z :=
  match a, b with
  | x :: a, y :: b => if bool_decide (x = y) then memcmp a b else byte_val x - byte_val y
  | _, _ => 0
  end.

(** [operator<], [operator>] and [operator==] of [BumbleString], on the bytes of the operands. *)
Definition string_lt (l r : list byte) : bool :=
  let min_length := Nat.min (length l) (length r) in
  let memcmp_res := memcmp (take min_length l) (take min_length r) in
  bool_decide (memcmp_res < 0) || (bool_decide (memcmp_res = 0) && bool_decide (length l < length r)%nat).
Definition string_gt (l r : list byte) : bool :=
  let min_length := Nat.min (length l) (length r) in
  let memcmp_res := memcmp (take min_length l) (take min_length r) in
  bool_decide (memcmp_res > 0) || (bool_decide (memcmp_res = 0) && bool_decide (length r < length l)%nat).
Definition string_eq (l r : list byte) : bool :=
  bool_decide (length l = length r) && (bool_decide (length l = 0%nat) || bool_decide (memcmp l r = 0)).

(** Lexicographic comparison, the specification of the three. *)
Fixpoint bcmp (a b : list byte) : comparison :=
  match a, b with
  | [], [] => Eq
  | [], _ :: _ => Lt
  | _ :: _, [] => Gt
  | x :: a, y :: b => match byte_val x ?= byte_val y with Eq => bcmp a b | c => c end
  end.

Lemma byte_val_range b : 0 ≤ byte_val b < 256.
Proof. unfold byte_val. pose proof (Byte.to_N_bounded b). lia. Qed.
Lemma byte_val_inj a b : byte_val a = byte_val b → a = b.
Proof.
  unfold byte_val. intros H%N2Z.inj. apply (f_equal Byte.of_N) in H. rewrite !Byte.of_to_N in H. by injection H.
Qed.

Lemma bcmp_refl a : bcmp a a = Eq.
Proof. induction a; simpl; [done|]. by rewrite Z.compare_refl. Qed.
Lemma bcmp_eq a b : bcmp a b = Eq ↔ a = b.
Proof.
  split; [|intros ->; apply bcmp_refl].
  revert b. induction a as [|x a IH]; intros [|y b]; simpl; try done.
  destruct (Z.compare_spec (byte_val x) (byte_val y)) as [E|E|E]; try done. intros ->%IH. f_equal. by apply byte_val_inj.
Qed.
Lemma bcmp_antisym a b : bcmp b a = CompOpp (bcmp a b).
Proof.
  revert b. induction a as [|x a IH]; intros [|y b]; simpl; try done.
  rewrite (Z.compare_antisym (byte_val x)). destruct (byte_val x ?= byte_val y); simpl; auto.
Qed.
Lemma bcmp_lt_trans a b c : bcmp a b = Lt → bcmp b c = Lt → bcmp a c = Lt.
Proof.
  revert b c. induction a as [|x a IH]; intros [|y b] [|z c]; simpl; try done.
  destruct (Z.compare_spec (byte_val x) (byte_val y)), (Z.compare_spec (byte_val y) (byte_val z));
    intros; try done; destruct (Z.compare_spec (byte_val x) (byte_val z)); try lia; try done. eauto.
Qed.

(** The three operators are the lexicographic order on bytes. *)
Lemma operators_spec a b :
  string_lt a b = bool_decide (bcmp a b = Lt) ∧ string_gt a b = bool_decide (bcmp a b = Gt) ∧
  string_eq a b = bool_decide (bcmp a b = Eq).
Proof.
  assert (∀ m, m = memcmp (take (Nat.min (length a) (length b)) a) (take (Nat.min (length a) (length b)) b) →
    match bcmp a b with
    | Lt => m < 0 ∨ m = 0 ∧ (length a < length b)%nat | Eq => m = 0 ∧ length a = length b
    | Gt => m > 0 ∨ m = 0 ∧ (length b < length a)%nat
    end ∧ (length a = length b → m = memcmp a b)) as H.
  { intros m ->. revert b. induction a as [|x a IH]; intros [|y b]; simpl; try (split; [lia|done]).
    case_bool_decide as Hxy.
    - subst y. rewrite Z.compare_refl. specialize (IH b). destruct IH as [IH1 IH2]. split; [|intros; apply IH2; lia].
      destruct (bcmp a b); lia.
    - destruct (Z.compare_spec (byte_val x) (byte_val y)) as [E|E|E]; [by apply byte_val_inj in E|split; [left; lia|done]..]. }
  destruct (H _ eq_refl) as [Hc Hm]. unfold string_lt, string_gt, string_eq. cbv zeta.
  set (m := memcmp (take _ _) (take _ _)) in *. rewrite <- !bool_decide_and, <- !bool_decide_or, <- !bool_decide_and.
  split_and!; apply bool_decide_ext.
  - destruct (bcmp a b); split; intros; done || lia.
  - destruct (bcmp a b); split; intros; done || lia.
  - destruct (decide (length a = length b)) as [E|E]; [rewrite <- (Hm E)|].
    + destruct a as [|x a], b as [|y b]; [by split; auto|done..|].
      destruct (bcmp (x :: a) (y :: b)); split; intros; simpl in *; done || lia.
    + destruct (bcmp a b); split; intros; done || lia.
Qed.
Lemma string_lt_spec a b : string_lt a b = true ↔ bcmp a b = Lt.
Proof. rewrite (proj1 (operators_spec a b)). apply bool_decide_eq_true. Qed.

(** ** The object *)

(** [value_]: the prefix buffer of [PREFIX_LENGTH + 1] bytes, the length, and the pointer: a chunk of the
    heap (counted from the oldest) and an offset in it. *)
Record string_t := mkString { s_prefix : list byte; s_length : Z; s_ptr : option (nat * Z) }.

Definition IsInlined (len : Z) : bool := bool_decide (len ≤ PREFIX_LENGTH).
Definition zero_prefix : list byte := replicate (Z.to_nat PREFIX_LENGTH + 1) Byte.x00.
(** [BumbleString(uint32_t)]. *)
Definition new_string_len (len : Z) : string_t := mkString zero_prefix len None.
(** [BumbleString(const char *, uint32_t)]: [data] are the bytes from the pointer [ptr] on. *)
Definition new_string (data : list byte) (ptr : nat * Z) (len : Z) : result string_t :=
  let n := if IsInlined len then len else PREFIX_LENGTH in
  p ← mem_write zero_prefix 0 data n;
  p ← mem_write p n [Byte.x00] 1;
  Ok (mkString p len (if IsInlined len then None else Some ptr)).

(** ** The heap *)

Record StringChunk := mkChunk { chunk_data : list byte; current_position_ : Z }.
(** The chunks in the order of their creation; the last one is [chunk_]. *)
Abbreviation StringHeap := (list StringChunk).

(** The bytes of a string, and a write through [GetDataWriteable()]. *)
Definition str_bytes (h : StringHeap) (s : string_t) : list byte :=
  if IsInlined (s_length s) then mem_read (s_prefix s) 0 (s_length s) else
  match s_ptr s with
  | Some (c, o) => match h !! c with Some ck => mem_read (chunk_data ck) o (s_length s) | None => [] end
  | None => []
  end.
Definition write_chunk (c : nat) (o : Z) (src : list byte) (h : StringHeap) : result StringHeap :=
  match h !! c with
  | Some ck =>
      data ← mem_write (chunk_data ck) o src (Z.of_nat (length src));
      Ok (<[c := mkChunk data (current_position_ ck)]> h)
  | None => Err EUndefined
  end.
Definition write_string (s : string_t) (off : Z) (src : list byte) (h : StringHeap) : result (string_t * StringHeap) :=
  if IsInlined (s_length s) then
    p ← mem_write (s_prefix s) off src (Z.of_nat (length src)); Ok (mkString p (s_length s) (s_ptr s), h)
  else
    match s_ptr s with
    | Some (c, o) => h ← write_chunk c (o + off) src h; Ok (s, h)
    | None => Err EUndefined
    end.

Section heap.
(** What fresh memory holds. *)
Context (junk : byte).
Implicit Types h : StringHeap.

Definition new_chunk : StringChunk := mkChunk (replicate (Z.to_nat MINIMUM_HEAP_SIZE) junk) 0.

(** The chunk that has room for [len] bytes and a terminator, or a new one. *)
Definition with_room (len : Z) h : StringHeap :=
  match last h with
  | Some ck => if bool_decide (current_position_ ck + len + 1 >= MINIMUM_HEAP_SIZE) then h ++ [new_chunk] else h
  | None => [new_chunk]
  end.

Definition AddEmptyString (len : Z) h : result (string_t * StringHeap) :=
  if bool_decide (MINIMUM_HEAP_SIZE < len) then Err (EAssert "String too large for chunk") else
  let h := with_room len h in
  let c := (length h - 1)%nat in
  match h !! c with
  | None => Err EUndefined
  | Some ck =>
      let o := current_position_ ck in
      data ← mem_write (chunk_data ck) o [Byte.x00] 1;
      s ← new_string (drop (Z.to_nat o) data) (c, o) len;
      Ok (s, <[c := mkChunk data (o + len + 1)]> h)
  end.

(** [AddBlob], which every [AddString] calls. *)
Definition AddBlob (data : list byte) (len : Z) h : result (string_t * StringHeap) :=
  if bool_decide (MINIMUM_HEAP_SIZE < len) then Err (EAssert "String too large for chunk") else
  '(s, h) ← AddEmptyString len h;
  '(s, h) ← write_string s 0 (take (Z.to_nat len) data) h;
  write_string s len [Byte.x00] h.

(** ** Well-formed heaps and the regions they handed out *)

Definition heap_wf h : Prop :=
  Forall (λ ck, length (chunk_data ck) = Z.to_nat MINIMUM_HEAP_SIZE ∧ 0 ≤ current_position_ ck) h.

(** [n] bytes at offset [o] of chunk [c] lie below what the allocator will hand out next. *)
Definition region h (c : nat) (o n : Z) : Prop :=
  ∃ ck, h !! c = Some ck ∧ 0 ≤ o ∧ 0 ≤ n ∧ o + n ≤ MINIMUM_HEAP_SIZE ∧ o + n < current_position_ ck.
Definition allocated h (s : string_t) : Prop :=
  0 ≤ s_length s ∧ length (s_prefix s) = 12%nat ∧
  (IsInlined (s_length s) = false → ∃ c o, s_ptr s = Some (c, o) ∧ region h c o (s_length s)).

(** [h'] keeps the regions of [h] and the bytes in them. *)
Definition heap_extends h h' : Prop :=
  ∀ c o n, region h c o n → region h' c o n ∧
    ∀ ck ck', h !! c = Some ck → h' !! c = Some ck' → mem_read (chunk_data ck') o n = mem_read (chunk_data ck) o n.

Lemma heap_extends_string h h' s :
  heap_extends h h' → allocated h s → allocated h' s ∧ str_bytes h' s = str_bytes h s.
Proof.
  intros He (Hl & Hp & Hr). unfold allocated, str_bytes. destruct (IsInlined (s_length s)) eqn:E; [done|].
  destruct (Hr eq_refl) as (c & o & Hs & Hreg). destruct (He _ _ _ Hreg) as [Hreg' Hb].
  split; [naive_solver|]. rewrite Hs. destruct Hreg as (ck & Hc & _), Hreg' as (ck' & Hc' & _).
  rewrite Hc, Hc'. eauto.
Qed.
#[global] Instance heap_extends_preorder : PreOrder heap_extends.
Proof.
  split.
  - intros h c o n Hr. split; [done|]. intros ck ck' H1 H2. by simplify_eq.
  - intros h1 h2 h3 H12 H23 c o n Hr. destruct (H12 _ _ _ Hr) as [Hr2 E2]. destruct (H23 _ _ _ Hr2) as [Hr3 E3].
    split; [done|]. intros ck ck' Hc Hc'. destruct Hr2 as (ck2 & Hc2 & _). rewrite (E3 _ _ Hc2 Hc'). eauto.
Qed.

Lemma with_room_wf len h : heap_wf h → heap_wf (with_room len h).
Proof.
  intros Hwf. assert (heap_wf [new_chunk]) as Hn.
  { apply Forall_singleton. unfold new_chunk. cbn [chunk_data current_position_]. by rewrite length_replicate. }
  unfold with_room. destruct (last h); [|done]. case_bool_decide; [|done]. by apply Forall_app.
Qed.
(** The chunk that is written next is there, and has room unless the string is of the maximal size. *)
Lemma with_room_spec len h :
  heap_wf h → 0 ≤ len ≤ MINIMUM_HEAP_SIZE →
  ∃ ck, with_room len h !! (length (with_room len h) - 1)%nat = Some ck ∧ 0 ≤ current_position_ ck ∧
        current_position_ ck + len ≤ MINIMUM_HEAP_SIZE ∧ current_position_ ck < MINIMUM_HEAP_SIZE ∧
        (len < MINIMUM_HEAP_SIZE → current_position_ ck + len < MINIMUM_HEAP_SIZE) ∧
        length (chunk_data ck) = Z.to_nat MINIMUM_HEAP_SIZE ∧ heap_extends h (with_room len h).
Proof.
  intros Hwf Hl.
  assert (∀ l, (l ++ [new_chunk]) !! (length (l ++ [new_chunk]) - 1)%nat = Some new_chunk) as Hlast.
  { intros l. rewrite length_app, lookup_app_r by (simpl; lia). simpl.
    replace (length l + 1 - 1 - length l)%nat with 0%nat by lia. done. }
  assert (∃ ck, (h ++ [new_chunk]) !! (length (h ++ [new_chunk]) - 1)%nat = Some ck ∧ 0 ≤ current_position_ ck ∧
        current_position_ ck + len ≤ MINIMUM_HEAP_SIZE ∧ current_position_ ck < MINIMUM_HEAP_SIZE ∧
        (len < MINIMUM_HEAP_SIZE → current_position_ ck + len < MINIMUM_HEAP_SIZE) ∧
        length (chunk_data ck) = Z.to_nat MINIMUM_HEAP_SIZE ∧ heap_extends h (h ++ [new_chunk])) as Hnew.
  { exists new_chunk. rewrite Hlast. unfold new_chunk. cbn [chunk_data current_position_]. rewrite length_replicate. unfold MINIMUM_HEAP_SIZE in *.
    split_and!; try done; try lia. intros c o n (ck & Hc & Hr). split.
    - exists ck. split; [by apply lookup_app_l_Some|done].
    - intros ck1 ck2 H1 H2. rewrite (lookup_app_l_Some _ _ _ _ H1) in H2. by simplify_eq. }
  unfold with_room. destruct (last h) as [ck|] eqn:Hck.
  - case_bool_decide; [done|]. exists ck. rewrite last_lookup in Hck. replace (length h - 1)%nat with (pred (length h)) by lia.
    pose proof (Forall_lookup_1 _ _ _ _ Hwf Hck) as [??].
    split_and!; try done; lia.
  - apply last_None in Hck. subst h. exact Hnew.
Qed.

(** A write at or above the allocator's position leaves the regions alone. *)
Lemma bump_extends h c ck data pos :
  h !! c = Some ck → current_position_ ck ≤ pos →
  (∀ o n, 0 ≤ o → 0 ≤ n → o + n < current_position_ ck → mem_read data o n = mem_read (chunk_data ck) o n) →
  heap_extends h (<[c := mkChunk data pos]> h).
Proof.
  intros Hc Hp Hd c' o n (ck' & Hc' & Hr). pose proof (lookup_lt_Some _ _ _ Hc) as Hlt. split.
  - destruct (decide (c' = c)) as [->|Hne].
    + exists (mkChunk data pos). rewrite list_lookup_insert_eq by done. simplify_eq. simpl. split; [done|lia].
    + exists ck'. rewrite list_lookup_insert_ne by done. done.
  - intros ck1 ck2 H1 H2. destruct (decide (c' = c)) as [->|Hne].
    + rewrite list_lookup_insert_eq in H2 by done. simplify_eq. simpl. apply Hd; lia.
    + rewrite list_lookup_insert_ne in H2 by done. by simplify_eq.
Qed.

Lemma new_string_ok data ptr len :
  0 ≤ len → (if IsInlined len then len else PREFIX_LENGTH) ≤ Z.of_nat (length data) →
  ∃ s, new_string data ptr len = Ok s ∧ s_length s = len ∧ length (s_prefix s) = 12%nat ∧
       (IsInlined len = false → s_ptr s = Some ptr).
Proof.
  intros Hl Hd. unfold new_string, IsInlined in *. unfold PREFIX_LENGTH in *.
  set (n := if bool_decide (len ≤ 11) then len else 11) in *.
  assert (0 ≤ n ≤ 11) as Hn by (unfold n; case_bool_decide; lia).
  destruct (mem_write zero_prefix 0 data n) as [p|] eqn:E1;
    [|rewrite mem_write_ok in E1; [done|lia|lia|vm_compute length; lia|lia]].
  assert (length p = 12%nat) as Hp by (by rewrite (mem_write_length _ _ _ _ _ E1)).
  destruct (mem_write p n [Byte.x00] 1) as [q|] eqn:E2; [|rewrite mem_write_ok in E2; [done|lia|lia|lia|simpl; lia]].
  exists (mkString q len (if bool_decide (len ≤ 11) then None else Some ptr)). unfold mbind. simpl. rewrite E2. simpl.
  rewrite (mem_write_length _ _ _ _ _ E2). split_and!; try done. by intros ->.
Qed.

(** The result of an allocation: a region that no earlier string meets. *)
Lemma AddEmptyString_ok len h :
  heap_wf h → 0 ≤ len ≤ MINIMUM_HEAP_SIZE →
  ∃ s h', AddEmptyString len h = Ok (s, h') ∧ heap_wf h' ∧ heap_extends h h' ∧ s_length s = len ∧ allocated h' s ∧
    (IsInlined len = false → ∃ c o, s_ptr s = Some (c, o) ∧ (len < MINIMUM_HEAP_SIZE → o + len < MINIMUM_HEAP_SIZE) ∧
       (∀ c' o' n, region h c' o' n → c' = c → o' + n < o)).
Proof.
  intros Hwf Hl. destruct (with_room_spec len h Hwf Hl) as (ck & Hc & Hp & Hroom & Hpos & Hroom' & Hlen & Hext).
  unfold AddEmptyString. rewrite bool_decide_false by lia. cbv zeta. rewrite Hc.
  destruct (mem_write (chunk_data ck) (current_position_ ck) [Byte.x00] 1) as [data|] eqn:E;
    [|rewrite mem_write_ok in E; [done|lia|lia|unfold MINIMUM_HEAP_SIZE in *; lia|simpl; lia]].
  pose proof (mem_write_length _ _ _ _ _ E) as Hd. unfold mbind at 1. simpl.
  destruct (new_string_ok (drop (Z.to_nat (current_position_ ck)) data) ((length (with_room len h) - 1)%nat, current_position_ ck) len)
    as (s & Es & Hsl & Hsp & Hptr); [lia| |].
  { rewrite length_drop. unfold IsInlined, PREFIX_LENGTH, MINIMUM_HEAP_SIZE in *. case_bool_decide; lia. }
  rewrite Es. simpl. eexists _, _. split; [done|]. pose proof (lookup_lt_Some _ _ _ Hc) as Hlt.
  split_and!.
  - apply Forall_insert; [by apply with_room_wf|]. simpl. split; [congruence|lia].
  - etrans; [exact Hext|]. apply (bump_extends _ _ ck); [done|simpl; lia|].
    intros o n ? ? ?. by rewrite (mem_read_write_other _ _ _ _ _ _ _ E) by lia.
  - done.
  - split_and!; [lia|done|]. rewrite Hsl. intros Hi. eexists _, _. split; [by apply Hptr|].
    exists (mkChunk data (current_position_ ck + len + 1)). rewrite list_lookup_insert_eq by done. simpl. split; [done|lia].
  - intros Hi. eexists _, _. split_and!; [by apply Hptr|done|].
    intros c' o' n Hr ->. destruct (Hext _ _ _ Hr) as [(ck' & Hc' & Hr') _]. simplify_eq. lia.
Qed.

(** A write of bytes into a chunk: what it changes, and that it keeps the allocator's positions. *)
Lemma write_chunk_ok h c ck o src :
  heap_wf h → h !! c = Some ck → 0 ≤ o → o + Z.of_nat (length src) ≤ MINIMUM_HEAP_SIZE →
  ∃ data, write_chunk c o src h = Ok (<[c := mkChunk data (current_position_ ck)]> h) ∧
    heap_wf (<[c := mkChunk data (current_position_ ck)]> h) ∧
    mem_write (chunk_data ck) o src (Z.of_nat (length src)) = Ok data.
Proof.
  intros Hwf Hc Ho Hn. pose proof (Forall_lookup_1 _ _ _ _ Hwf Hc) as [Hl Hp]. unfold write_chunk. rewrite Hc.
  destruct (mem_write (chunk_data ck) o src (Z.of_nat (length src))) as [data|] eqn:E;
    [|rewrite mem_write_ok in E; [done|lia|lia|unfold MINIMUM_HEAP_SIZE in *; lia|lia]].
  exists data. split_and!; [done| |done]. apply Forall_insert; [done|]. simpl.
  by rewrite (mem_write_length _ _ _ _ _ E).
Qed.
Lemma write_chunk_read h c ck o src data pos :
  h !! c = Some ck → mem_write (chunk_data ck) o src (Z.of_nat (length src)) = Ok data →
  let h' := <[c := mkChunk data pos]> h in
  (∀ ck', h' !! c = Some ck' → mem_read (chunk_data ck') o (Z.of_nat (length src)) = src) ∧
  (∀ c' o' n ck' ck'', 0 ≤ o' → (c' ≠ c ∨ o' + n ≤ o ∨ o + Z.of_nat (length src) ≤ o') →
     h !! c' = Some ck' → h' !! c' = Some ck'' → mem_read (chunk_data ck'') o' n = mem_read (chunk_data ck') o' n).
Proof.
  intros Hc E h'. pose proof (lookup_lt_Some _ _ _ Hc) as Hlt. unfold h'. split.
  - intros ck'. rewrite list_lookup_insert_eq by done. intros [= <-]. simpl.
    rewrite (mem_read_write_same _ _ _ _ _ E). apply take_ge. lia.
  - intros c' o' n ck' ck'' Ho Hd H1 H2. destruct (decide (c' = c)) as [->|Hne].
    + rewrite list_lookup_insert_eq in H2 by done. simplify_eq. simpl. apply (mem_read_write_other _ _ _ _ _ _ _ E); lia.
    + rewrite list_lookup_insert_ne in H2 by done. by simplify_eq.
Qed.

Lemma mem_read_prefix (l : list byte) n m : (0 ≤ m ≤ n)%Z → mem_read (mem_read l 0 n) 0 m = mem_read l 0 m.
Proof. intros. unfold mem_read. rewrite !drop_0, take_take. f_equal. lia. Qed.

(** A blob written over a fresh string. *)
Lemma write_blob_ok h0 h s data :
  heap_wf h → heap_extends h0 h → allocated h s → s_length s = Z.of_nat (length data) →
  (IsInlined (s_length s) = false → ∃ c o, s_ptr s = Some (c, o) ∧ o + s_length s < MINIMUM_HEAP_SIZE ∧
     (∀ c' o' n, region h0 c' o' n → c' = c → o' + n < o)) →
  ∃ s' h', ('(s, h) ← write_string s 0 data h; write_string s (Z.of_nat (length data)) [Byte.x00] h) = Ok (s', h') ∧
    heap_wf h' ∧ heap_extends h0 h' ∧ allocated h' s' ∧ str_bytes h' s' = data.
Proof.
  intros Hwf Hext (Hl & Hpl & Hreg) Hn Hfresh. rewrite <- Hn. unfold write_string. destruct (IsInlined (s_length s)) eqn:Hi.
  - assert (s_length s ≤ 11) as H11 by (unfold IsInlined, PREFIX_LENGTH in Hi; by apply bool_decide_eq_true in Hi).
    destruct (mem_write (s_prefix s) 0 data (Z.of_nat (length data))) as [p|] eqn:E1;
      [|rewrite mem_write_ok in E1; [done|lia|lia|lia|lia]].
    pose proof (mem_write_length _ _ _ _ _ E1) as Hp1. 
    destruct (mem_write p (s_length s) [Byte.x00] 1) as [q|] eqn:E2;
      [|rewrite mem_write_ok in E2; [done|lia|lia|lia|simpl; lia]].
    simpl. rewrite Hi. simpl. change (Z.of_nat 1) with 1. rewrite E2. simpl. eexists _, _. split; [done|]. unfold allocated, str_bytes. cbn [s_length s_prefix s_ptr].
    rewrite Hi. split_and!; try done; [by rewrite (mem_write_length _ _ _ _ _ E2), Hp1|].
    rewrite (mem_read_write_other _ _ _ _ _ 0 (s_length s) E2) by lia. rewrite Hn, (mem_read_write_same _ _ _ _ _ E1).
    apply take_ge. lia.
  - destruct (Hreg eq_refl) as (c & o & Hs & ck & Hc & Ho & _ & _ & Hpos).
    destruct (Hfresh eq_refl) as (c' & o' & Hs' & Hroom & Hdis). rewrite Hs in Hs'. injection Hs' as <- <-. rewrite Hs, Z.add_0_r.
    destruct (write_chunk_ok h c ck o data) as (d1 & E1 & Hwf1 & Hw1); [done..|unfold MINIMUM_HEAP_SIZE in *; lia|].
    destruct (write_chunk_read h c ck o data d1 (current_position_ ck) Hc Hw1) as [Hsame1 Hoth1].
    rewrite E1. simpl. rewrite Hi, Hs.
    assert (<[c:=mkChunk d1 (current_position_ ck)]> h !! c = Some (mkChunk d1 (current_position_ ck))) as Hc1
      by (apply list_lookup_insert_eq; by eapply lookup_lt_Some).
    destruct (write_chunk_ok _ c _ (o + s_length s) [Byte.x00] Hwf1 Hc1) as (d2 & E2 & Hwf2 & Hw2); [lia|simpl; lia|].
    destruct (write_chunk_read _ c _ (o + s_length s) [Byte.x00] d2 (current_position_ ck) Hc1 Hw2) as [_ Hoth2].
    rewrite E2. simpl. eexists _, _. split; [done|]. rewrite list_insert_insert_eq in *.
    assert (<[c:=mkChunk d2 (current_position_ ck)]> h !! c = Some (mkChunk d2 (current_position_ ck))) as Hc2
      by (apply list_lookup_insert_eq; by eapply lookup_lt_Some).
    split_and!; [done| | |].
    + intros c0 o0 n0 Hr0. destruct (Hext _ _ _ Hr0) as [(ck1 & Hck1 & Hr1) E]. split.
      * destruct (decide (c0 = c)) as [->|]; [|exists ck1; by rewrite list_lookup_insert_ne].
        simplify_eq. eexists. split; [exact Hc2|done].
      * intros cka ckb Ha Hb. rewrite <- (E cka ck1) by done.
        assert (∃ ckm, <[c:=mkChunk d1 (current_position_ ck)]> h !! c0 = Some ckm) as [ckm Hm].
        { apply lookup_lt_is_Some. rewrite length_insert. by eapply lookup_lt_Some. }
        assert (c0 ≠ c ∨ o0 + n0 < o) as Hd by (destruct (decide (c0 = c)); [right; eauto|by left]).
        rewrite (Hoth2 c0 o0 n0 ckm ckb); [|lia|lia|done|done]. apply (Hoth1 c0 o0 n0); [lia|lia|done|done].
    + split_and!; [done|done|]. intros _. exists c, o. split; [done|]. eexists. split; [exact Hc2|]. simpl. lia.
    + unfold str_bytes. rewrite Hi, Hs, Hc2. rewrite (Hoth2 c o (s_length s) _ _) by (done || lia || (right; lia)).
      rewrite Hn. apply Hsame1. done.
Qed.

(** A stored string reads back, and nothing that was handed out before changes. *)
Lemma AddBlob_ok data h :
  heap_wf h → Z.of_nat (length data) < MINIMUM_HEAP_SIZE →
  ∃ s h', AddBlob data (Z.of_nat (length data)) h = Ok (s, h') ∧ heap_wf h' ∧ allocated h' s ∧ str_bytes h' s = data ∧
    ∀ s0, allocated h s0 → allocated h' s0 ∧ str_bytes h' s0 = str_bytes h s0.
Proof.
  intros Hwf Hl. unfold AddBlob. rewrite bool_decide_false by lia.
  destruct (AddEmptyString_ok (Z.of_nat (length data)) h Hwf ltac:(lia)) as (s & h1 & -> & Hwf1 & Hext & Hsl & Hal & Hfresh).
  simpl. rewrite Nat2Z.id, firstn_all. destruct (write_blob_ok h h1 s data) as (s' & h' & E & ? & ? & ? & ?); [done..| |].
  - rewrite Hsl. intros Hi. destruct (Hfresh Hi) as (c & o & ? & ? & ?). exists c, o. split_and!; [done|lia|done].
  - exists s', h'. split; [exact E|]. split_and!; try done. intros s0. by apply heap_extends_string.
Qed.
End heap.
