(* ===== verification/ValidityMask.v ===== *)
(** * Validity masks ([type/vector/validity_mask.cpp])

    One bit per row, set when the row is not NULL, in a buffer of 64-bit words that copies of a mask
    share; a mask without a buffer has no NULL.  The buffers are a store of their own, so that a write
    through one mask is seen through the masks that share its buffer and through no other. *)

From S2P Require Import Prelude.

Definition BITS_PER_WORD : Z := 64.
Definition STANDARD_VECTOR_SIZE : Z := 1024.
Definition ones : Z := 2 ^ 64 - 1.

(** The buffers by the order of their allocation; a mask points to one of them. *)
Abbreviation Buffers := (list (list Z)).
Record ValidityMask := mkMask { mask_ : option nat; capacity_words_ : Z }.

Definition no_mask : ValidityMask := mkMask None 0.
Definition AllValid (m : ValidityMask) : bool := bool_decide (mask_ m = None).
Definition WordCount (capacity : Z) : Z := (capacity + BITS_PER_WORD - 1) / BITS_PER_WORD.
Definition bit_of (idx : Z) : Z := Z.shiftl 1 (idx mod BITS_PER_WORD).
Definition word_of (idx : Z) : Z := idx / BITS_PER_WORD.

(** [mask_[i]] read and written. *)
Definition get_word (b : nat) (i : Z) : ST Buffers Z := λ st,
  match st !! b ≫= (.!! Z.to_nat i) with Some w => (Ok w, st) | None => (Err EUndefined, st) end.
Definition set_word (b : nat) (i : Z) (w : Z) : ST Buffers unit := λ st,
  match st !! b with
  | Some ws => if bool_decide (Z.to_nat i < length ws)%nat then (Ok tt, <[b := <[Z.to_nat i := w]> ws]> st)
               else (Err EUndefined, st)
  | None => (Err EUndefined, st)
  end.

(** [memset] and [memcpy] of a whole buffer. *)
Definition get_words (b : nat) : ST Buffers (list Z) := λ st,
  match st !! b with Some ws => (Ok ws, st) | None => (Err EUndefined, st) end.
Definition put_words (b : nat) (ws : list Z) : ST Buffers unit := λ st,
  match st !! b with
  | Some old => if bool_decide (length ws ≤ length old)%nat then (Ok tt, <[b := ws ++ drop (length ws) old]> st)
                else (Err EUndefined, st)
  | None => (Err EUndefined, st)
  end.

Definition RowIsValid (m : ValidityMask) (idx : Z) : ST Buffers bool :=
  match mask_ m with
  | None => mret true
  | Some b =>
      if bool_decide (word_of idx >= capacity_words_ m) then mret true else
      w ← get_word b (word_of idx);
      mret (bool_decide (Z.land w (bit_of idx) ≠ 0))
  end.

Definition SetValid (idx : Z) (m : ValidityMask) : ST Buffers ValidityMask :=
  match mask_ m with
  | None => mret m
  | Some b =>
      if bool_decide (word_of idx >= capacity_words_ m) then mret m else
      w ← get_word b (word_of idx);
      _ ← set_word b (word_of idx) (Z.lor w (bit_of idx));
      mret m
  end.

Definition EnsureWritable (capacity : Z) (m : ValidityMask) : ST Buffers ValidityMask := λ st,
  let capacity := if bool_decide (capacity < STANDARD_VECTOR_SIZE) then STANDARD_VECTOR_SIZE else capacity in
  let words := WordCount capacity in
  let enlarged (old : list Z) :=
    (Ok (mkMask (Some (length st)) words), st ++ [old ++ replicate (Z.to_nat words - length old) ones]) in
  match mask_ m with
  | None => enlarged []
  | Some b =>
      if bool_decide (capacity_words_ m >= words) then (Ok m, st) else
      match st !! b with Some ws => enlarged ws | None => (Err EUndefined, st) end
  end.

Definition SetInvalid (idx : Z) (m : ValidityMask) : ST Buffers ValidityMask :=
  m ← EnsureWritable (idx + 1) m;
  match mask_ m with
  | None => st_throw (EAssert "validity buffer too small")
  | Some b =>
      if negb (bool_decide (word_of idx < capacity_words_ m)) then st_throw (EAssert "validity buffer too small") else
      w ← get_word b (word_of idx);
      _ ← set_word b (word_of idx) (Z.land w (Z.lnot (bit_of idx)));
      mret m
  end.

Definition Set_ (idx : Z) (valid : bool) (m : ValidityMask) : ST Buffers ValidityMask :=
  if valid then SetValid idx m else SetInvalid idx m.

(** The write accessors of loops that called [EnsureWritable] first. *)
Definition set_unsafe (idx : Z) (f : Z → Z) (m : ValidityMask) : ST Buffers ValidityMask :=
  match mask_ m with
  | None => st_throw (EAssert "validity buffer too small")
  | Some b =>
      if negb (bool_decide (word_of idx < capacity_words_ m)) then st_throw (EAssert "validity buffer too small") else
      w ← get_word b (word_of idx);
      _ ← set_word b (word_of idx) (f w);
      mret m
  end.
Definition SetValidUnsafe (idx : Z) : ValidityMask → ST Buffers ValidityMask := set_unsafe idx (λ w, Z.lor w (bit_of idx)).
Definition SetInvalidUnsafe (idx : Z) : ValidityMask → ST Buffers ValidityMask :=
  set_unsafe idx (λ w, Z.land w (Z.lnot (bit_of idx))).

Definition SetAllInvalid (count : Z) (m : ValidityMask) : ST Buffers ValidityMask :=
  m ← EnsureWritable count m;
  match mask_ m with
  | None => st_throw EUndefined
  | Some b => _ ← put_words b (replicate (Z.to_nat (capacity_words_ m)) 0); mret m
  end.

(** [for (i = 0; i < n; i++) m = body(i, m)]. *)
Fixpoint for_rows (i : Z) (n : nat) (body : Z → ValidityMask → ST Buffers ValidityMask) (m : ValidityMask)
    : ST Buffers ValidityMask :=
  match n with
  | O => mret m
  | S n => m ← body i m; for_rows (i + 1) n body m
  end.

Fixpoint check_rows (i : Z) (n : nat) (m : ValidityMask) : ST Buffers bool :=
  match n with
  | O => mret true
  | S n => v ← RowIsValid m i; if (v : bool) then check_rows (i + 1) n m else mret false
  end.
Definition CheckAllValid (count : Z) (m : ValidityMask) : ST Buffers bool :=
  if AllValid m then mret true else check_rows 0 (Z.to_nat count) m.

Definition Copy (m : ValidityMask) : ST Buffers ValidityMask :=
  match mask_ m with
  | None => mret no_mask
  | Some b =>
      c ← EnsureWritable (capacity_words_ m * BITS_PER_WORD) no_mask;
      match mask_ c with
      | None => st_throw EUndefined
      | Some b' => ws ← get_words b; _ ← put_words b' (take (Z.to_nat (capacity_words_ m)) ws); mret c
      end
  end.

(** [Slice], [GatherFrom] and [Combine]; the first two start from a mask without a buffer. *)
Definition Slice (other : ValidityMask) (offset count : Z) : ST Buffers ValidityMask :=
  if AllValid other then mret no_mask else
  m ← EnsureWritable count no_mask;
  let src_bits := capacity_words_ other * BITS_PER_WORD in
  let limit := if bool_decide (offset < src_bits) then Z.min count (src_bits - offset) else 0 in
  for_rows 0 (Z.to_nat limit) (λ i m, v ← RowIsValid other (offset + i); Set_ i v m) m.
Definition GatherFrom (other : ValidityMask) (sel : Z → Z) (count : Z) : ST Buffers ValidityMask :=
  if AllValid other then mret no_mask else
  m ← EnsureWritable count no_mask;
  for_rows 0 (Z.to_nat count) (λ i m, v ← RowIsValid other (sel i); Set_ i v m) m.
Definition Combine (other : ValidityMask) (count : Z) (m : ValidityMask) : ST Buffers ValidityMask :=
  if AllValid other then mret m else
  m ← EnsureWritable count m;
  for_rows 0 (Z.to_nat count) (λ i m, v ← RowIsValid other i; if (v : bool) then mret m else SetInvalid i m) m.

(** ** What a mask means *)

(** The rows a buffer of words marks valid; rows past the buffer are valid. *)
Definition words_valid (ws : list Z) (i : Z) : bool :=
  match ws !! Z.to_nat (word_of i) with Some w => Z.testbit w (i mod BITS_PER_WORD) | None => true end.
Definition valid (st : Buffers) (m : ValidityMask) (i : Z) : bool :=
  match mask_ m ≫= (st !!.) with Some ws => words_valid ws i | None => true end.

Definition mask_wf (st : Buffers) (m : ValidityMask) : Prop :=
  match mask_ m with
  | None => capacity_words_ m = 0
  | Some b => ∃ ws, st !! b = Some ws ∧ capacity_words_ m = Z.of_nat (length ws)
  end.

(** [m'] came from [m] by writes to [m]'s own buffer or to a fresh one: every other mask is untouched. *)
Record frame (st : Buffers) (m : ValidityMask) (st' : Buffers) (m' : ValidityMask) : Prop := {
  frame_wf : mask_wf st' m';
  frame_own : mask_ m' = mask_ m ∨ ∃ b, mask_ m' = Some b ∧ (length st ≤ b)%nat;
  frame_other : ∀ b ws, st !! b = Some ws → ∃ ws', st' !! b = Some ws' ∧ length ws' = length ws ∧
                  (mask_ m ≠ Some b → ws' = ws) }.

Lemma frame_refl st m : mask_wf st m → frame st m st m.
Proof. intros Hwf. split; [done|by left|]. intros b ws Hb. exists ws. done. Qed.
Lemma frame_trans st1 m1 st2 m2 st3 m3 : frame st1 m1 st2 m2 → frame st2 m2 st3 m3 → frame st1 m1 st3 m3.
Proof.
  intros [Hw1 Ho1 Hf1] [Hw2 Ho2 Hf2].
  assert (length st1 ≤ length st2)%nat as Hlen.
  { destruct (decide (length st1 = 0%nat)) as [E|E]; [lia|].
    destruct (lookup_lt_is_Some_2 st1 (length st1 - 1)%nat) as [ws Hb]; [lia|].
    destruct (Hf1 _ _ Hb) as (ws' & Hb' & _). apply lookup_lt_Some in Hb'. lia. }
  split; [done| |].
  - destruct Ho2 as [->|(b & ? & ?)]; [done|right; exists b; split; [done|lia]].
  - intros b ws Hb. destruct (Hf1 _ _ Hb) as (ws2 & Hb2 & Hl2 & E2). destruct (Hf2 _ _ Hb2) as (ws3 & Hb3 & Hl3 & E3).
    exists ws3. split_and!; [done|congruence|]. intros Hne. rewrite E3, E2; [done|done|].
    destruct Ho1 as [->|(b' & -> & Hge)]; [done|]. intros [= ->]. apply lookup_lt_Some in Hb. lia.
Qed.
(** A mask on another buffer keeps its rows. *)
Lemma frame_mask st m st' m' m0 :
  frame st m st' m' → mask_wf st m0 → mask_ m0 = None ∨ mask_ m0 ≠ mask_ m →
  mask_wf st' m0 ∧ ∀ i, valid st' m0 i = valid st m0 i.
Proof.
  intros [_ _ Hf] Hwf Hne. unfold mask_wf, valid in *. destruct (mask_ m0) as [b|] eqn:Em; [|done].
  destruct Hwf as (ws & Hb & Hc). destruct (Hf _ _ Hb) as (ws' & Hb' & Hl & E).
  rewrite E in Hb' by (intros Heq; destruct Hne as [|Hne]; [done|by apply Hne]). simpl. rewrite Hb, Hb'. naive_solver.
Qed.

(** ** Words *)

Lemma word_bit idx : 0 ≤ idx → 0 ≤ idx mod BITS_PER_WORD < 64 ∧ 0 ≤ word_of idx ∧ idx = 64 * word_of idx + idx mod BITS_PER_WORD.
Proof. intros H. unfold word_of, BITS_PER_WORD. pose proof (Z.mod_pos_bound idx 64). pose proof (Z.div_mod idx 64). lia. Qed.
Lemma land_bit w idx : 0 ≤ idx → bool_decide (Z.land w (bit_of idx) ≠ 0) = Z.testbit w (idx mod BITS_PER_WORD).
Proof.
  intros H. destruct (word_bit idx H) as (Hb & _). unfold bit_of. rewrite Z.shiftl_1_l.
  destruct (Z.testbit w (idx mod BITS_PER_WORD)) eqn:E.
  - apply bool_decide_eq_true. intros H0. apply (f_equal (λ z, Z.testbit z (idx mod BITS_PER_WORD))) in H0.
    rewrite Z.land_spec, E, Z.pow2_bits_true, Z.bits_0 in H0 by lia. done.
  - apply bool_decide_eq_false. intros H0. apply H0. apply Z.bits_inj'. intros n Hn. rewrite Z.land_spec, Z.bits_0.
    destruct (decide (n = idx mod BITS_PER_WORD)) as [->|]; [by rewrite E|].
    rewrite Z.pow2_bits_false by lia. apply andb_false_r.
Qed.
(** One bit of one word set or cleared. *)
Lemma words_valid_insert ws idx i w' v :
  0 ≤ idx → 0 ≤ i → (Z.to_nat (word_of idx) < length ws)%nat →
  (∀ n, 0 ≤ n < 64 → Z.testbit w' n = if decide (n = idx mod BITS_PER_WORD) then v
                                       else Z.testbit (ws !!! Z.to_nat (word_of idx)) n) →
  words_valid (<[Z.to_nat (word_of idx) := w']> ws) i = if decide (i = idx) then v else words_valid ws i.
Proof.
  intros H Hi Hlt Hw. destruct (word_bit idx H) as (Hb & Hq & E), (word_bit i Hi) as (Hb' & Hq' & E').
  unfold words_valid. destruct (decide (word_of i = word_of idx)) as [Eq|Ne].
  - rewrite Eq, list_lookup_insert_eq by done. rewrite Hw by done. rewrite list_lookup_lookup_total_lt by done.
    destruct (decide (i = idx)) as [->|]; [by rewrite decide_True|]. rewrite decide_False; [done|lia].
  - rewrite list_lookup_insert_ne by lia. rewrite decide_False; [done|]. by intros ->.
Qed.

(** ** The operations *)

Lemma mask_buffer st m b : mask_wf st m → mask_ m = Some b → ∃ ws, st !! b = Some ws ∧ capacity_words_ m = Z.of_nat (length ws).
Proof. unfold mask_wf. intros H E. by rewrite E in H. Qed.
Lemma valid_words st m b ws i : mask_ m = Some b → st !! b = Some ws → valid st m i = words_valid ws i.
Proof. unfold valid. intros -> E. simpl. by rewrite E. Qed.
Lemma valid_past st m i : mask_wf st m → word_of i >= capacity_words_ m → valid st m i = true.
Proof.
  unfold valid, mask_wf. destruct (mask_ m) as [b|]; [|done]. intros (ws & Hb & Hc) Hi. simpl. rewrite Hb. unfold words_valid.
  rewrite lookup_ge_None_2; [done|]. lia.
Qed.

Lemma RowIsValid_ok st m idx : mask_wf st m → 0 ≤ idx → RowIsValid m idx st = (Ok (valid st m idx), st).
Proof.
  intros Hwf Hi. unfold RowIsValid. destruct (mask_ m) as [b|] eqn:Em; [|unfold valid; by rewrite Em].
  destruct (mask_buffer _ _ _ Hwf Em) as (ws & Hb & Hc). destruct (word_bit idx Hi) as (_ & Hq & _).
  case_bool_decide as Hcap; [by rewrite valid_past|]. rewrite (valid_words _ _ _ _ _ Em Hb).
  destruct (lookup_lt_is_Some_2 ws (Z.to_nat (word_of idx))) as [w Hw]; [lia|].
  unfold get_word, mbind at 1, ST_bind. rewrite Hb. simpl. rewrite Hw. unfold words_valid. rewrite Hw. unfold mret, ST_ret. by rewrite land_bit.
Qed.

(** A bit written in a mask's own buffer, and what the masks on other buffers see. *)
Lemma set_bit_ok st m b idx w' v :
  mask_wf st m → mask_ m = Some b → 0 ≤ idx → word_of idx < capacity_words_ m →
  (∀ ws n, st !! b = Some ws → 0 ≤ n < 64 →
     Z.testbit w' n = if decide (n = idx mod BITS_PER_WORD) then v else Z.testbit (ws !!! Z.to_nat (word_of idx)) n) →
  ∃ st', set_word b (word_of idx) w' st = (Ok tt, st') ∧ frame st m st' m ∧
    (∀ m0 i, mask_ m0 = Some b → 0 ≤ i → valid st' m0 i = if decide (i = idx) then v else valid st m0 i).
Proof.
  intros Hwf Em Hi Hlt Hw. destruct (mask_buffer _ _ _ Hwf Em) as (ws & Hb & Hc). destruct (word_bit idx Hi) as (_ & Hq & _).
  pose proof (lookup_lt_Some _ _ _ Hb) as Hbl. unfold set_word. rewrite Hb, bool_decide_true by lia. eexists. split; [done|]. split; [split|].
  - unfold mask_wf. rewrite Em. eexists. rewrite list_lookup_insert_eq by done. split; [done|]. by rewrite length_insert.
  - by left.
  - intros b' ws' Hb'. destruct (decide (b' = b)) as [->|Hne].
    + eexists. rewrite list_lookup_insert_eq by done. simplify_eq. rewrite length_insert. split_and!; done.
    + exists ws'. rewrite list_lookup_insert_ne by done. done.
  - intros m0 i E0 H0. rewrite (valid_words _ m0 b (<[Z.to_nat (word_of idx) := w']> ws)), (valid_words st m0 b ws) by (done || by apply list_lookup_insert_eq).
    apply words_valid_insert; [done|done|lia|]. intros n Hn. by apply (Hw ws n).
Qed.

Lemma get_word_ok st m b idx :
  mask_wf st m → mask_ m = Some b → 0 ≤ idx → word_of idx < capacity_words_ m →
  ∃ w, get_word b (word_of idx) st = (Ok w, st) ∧ ∀ ws, st !! b = Some ws → ws !!! Z.to_nat (word_of idx) = w.
Proof.
  intros Hwf Em Hi Hlt. destruct (mask_buffer _ _ _ Hwf Em) as (ws & Hb & Hc). destruct (word_bit idx Hi) as (_ & Hq & _).
  destruct (lookup_lt_is_Some_2 ws (Z.to_nat (word_of idx))) as [w Hw]; [lia|].
  exists w. unfold get_word. rewrite Hb. simpl. rewrite Hw. split; [done|]. intros ws' Hb'. simplify_eq. by apply list_lookup_total_correct.
Qed.

(** The word with one bit set or cleared. *)
Lemma testbit_set w idx n :
  0 ≤ idx → 0 ≤ n < 64 →
  Z.testbit (Z.lor w (bit_of idx)) n = (if decide (n = idx mod BITS_PER_WORD) then true else Z.testbit w n) ∧
  Z.testbit (Z.land w (Z.lnot (bit_of idx))) n = (if decide (n = idx mod BITS_PER_WORD) then false else Z.testbit w n).
Proof.
  intros Hi Hn. destruct (word_bit idx Hi) as (? & _). rewrite Z.lor_spec, Z.land_spec, Z.lnot_spec by lia. unfold bit_of. rewrite Z.shiftl_1_l.
  case_decide as E.
  - rewrite E, Z.pow2_bits_true by lia. by rewrite orb_true_r, andb_false_r.
  - rewrite Z.pow2_bits_false by lia. by rewrite orb_false_r, andb_true_r.
Qed.

Lemma set_unsafe_ok st m idx (v : bool) :
  mask_wf st m → 0 ≤ idx → word_of idx < capacity_words_ m → mask_ m ≠ None →
  ∃ st', (if v then SetValidUnsafe idx m else SetInvalidUnsafe idx m) st = (Ok m, st') ∧ frame st m st' m ∧
    ∀ i, 0 ≤ i → valid st' m i = if decide (i = idx) then v else valid st m i.
Proof.
  intros Hwf Hi Hcap Hne. destruct (mask_ m) as [b|] eqn:Em; [|done].
  destruct (get_word_ok st m b idx Hwf Em Hi Hcap) as (w & Ew & Hw).
  destruct (set_bit_ok st m b idx (if v then Z.lor w (bit_of idx) else Z.land w (Z.lnot (bit_of idx))) v) as (st' & E & Hf & Hv); [done..| |].
  { intros ws n Hb Hn. rewrite (Hw ws Hb). destruct (testbit_set w idx n Hi Hn). by destruct v. }
  exists st'. split; [|split; [done|intros; by apply Hv]].
  destruct v; unfold SetValidUnsafe, SetInvalidUnsafe, set_unsafe; rewrite Em, bool_decide_true by done; cbn [negb]; run Ew; by run E.
Qed.

Lemma SetValid_ok st m idx :
  mask_wf st m → 0 ≤ idx →
  ∃ st', SetValid idx m st = (Ok m, st') ∧ frame st m st' m ∧
    ∀ i, 0 ≤ i → valid st' m i = if decide (i = idx) then true else valid st m i.
Proof.
  intros Hwf Hi. unfold SetValid. destruct (mask_ m) as [b|] eqn:Em.
  - case_bool_decide as Hcap.
    + exists st. split_and!; [done|by apply frame_refl|]. intros i _. case_decide; [subst i; by rewrite valid_past|done].
    + destruct (get_word_ok st m b idx Hwf Em Hi ltac:(lia)) as (w & Ew & Hw). run Ew.
      destruct (set_bit_ok st m b idx (Z.lor w (bit_of idx)) true) as (st' & E & Hf & Hv); [done..|lia| |].
      { intros ws n Hb Hn. rewrite (Hw ws Hb). by apply testbit_set. }
      run E. exists st'. split_and!; [done..|]. intros i H0. by apply Hv.
  - exists st. split_and!; [done|by apply frame_refl|]. intros i _. unfold valid. rewrite Em. by case_decide.
Qed.

Lemma words_valid_grow ws k i : 0 ≤ i → words_valid (ws ++ replicate k ones) i = words_valid ws i.
Proof.
  intros Hi. destruct (word_bit i Hi) as (Hb & Hq & _). unfold words_valid.
  destruct (ws !! Z.to_nat (word_of i)) as [w|] eqn:E; [by rewrite (lookup_app_l_Some _ _ _ _ E)|].
  rewrite lookup_app_r by (by apply lookup_ge_None). destruct (replicate k ones !! _) as [w|] eqn:E'; [|done].
  apply lookup_replicate in E' as [-> _]. change ones with (Z.ones 64). apply Z.ones_spec_low. lia.
Qed.
Lemma WordCount_covers idx cap : 0 ≤ idx < cap → word_of idx < WordCount cap.
Proof. intros H. unfold word_of, WordCount, BITS_PER_WORD. apply Z.div_lt_upper_bound; [lia|]. pose proof (Z.mul_succ_div_gt (cap + 64 - 1) 64). lia. Qed.

Lemma EnsureWritable_ok st m cap :
  mask_wf st m →
  ∃ m' st', EnsureWritable cap m st = (Ok m', st') ∧ frame st m st' m' ∧ (∃ b, mask_ m' = Some b) ∧
    (∀ idx, 0 ≤ idx < Z.max cap STANDARD_VECTOR_SIZE → word_of idx < capacity_words_ m') ∧
    (mask_ m' = mask_ m → st' = st) ∧ (∀ i, 0 ≤ i → valid st' m' i = valid st m i) ∧
    (∀ m0, mask_wf st m0 → mask_wf st' m0 ∧ ∀ i, valid st' m0 i = valid st m0 i).
Proof.
  intros Hwf. unfold EnsureWritable.
  set (c := if bool_decide (cap < STANDARD_VECTOR_SIZE) then STANDARD_VECTOR_SIZE else cap).
  assert (c = Z.max cap STANDARD_VECTOR_SIZE) as Hc by (unfold c; case_bool_decide; lia).
  assert (0 ≤ WordCount c) as Hc0 by (apply Z.div_pos; unfold STANDARD_VECTOR_SIZE, BITS_PER_WORD in *; lia).
  assert (∀ old, Z.of_nat (length old) ≤ WordCount c → (∀ i, 0 ≤ i → words_valid old i = valid st m i) → (∀ b, mask_ m = Some b → b < length st)%nat →
    let m' := mkMask (Some (length st)) (WordCount c) in
    let st' := st ++ [old ++ replicate (Z.to_nat (WordCount c) - length old) ones] in
    frame st m st' m' ∧ (∃ b, mask_ m' = Some b) ∧
    (∀ idx, 0 ≤ idx < Z.max cap STANDARD_VECTOR_SIZE → word_of idx < capacity_words_ m') ∧
    (mask_ m' = mask_ m → st' = st) ∧ (∀ i, 0 ≤ i → valid st' m' i = valid st m i) ∧
    (∀ m0, mask_wf st m0 → mask_wf st' m0 ∧ ∀ i, valid st' m0 i = valid st m0 i)) as Hgrow.
  { intros old Hl Hold Hb m' st'.
    assert (st' !! length st = Some (old ++ replicate (Z.to_nat (WordCount c) - length old) ones)) as Hnew
      by (unfold st'; rewrite lookup_app_r, Nat.sub_diag by lia; done).
    split_and!.
    - split; [|right; eexists; split; [done|lia]|].
      + eexists. split; [exact Hnew|]. simpl. rewrite length_app, length_replicate. lia.
      + intros b ws H. exists ws. split_and!; [by apply lookup_app_l_Some|done..].
    - by eexists.
    - intros idx Hidx. rewrite <- Hc in Hidx. by apply WordCount_covers.
    - simpl. intros H. symmetry in H. apply Hb in H. lia.
    - intros i Hi. rewrite (valid_words st' m' (length st) _ i eq_refl Hnew), words_valid_grow by done. auto.
    - intros m0 H0. unfold mask_wf, valid in *. destruct (mask_ m0) as [b|]; [|done]. destruct H0 as (ws & Hws & ?). simpl.
      unfold st'. rewrite (lookup_app_l_Some _ _ _ _ Hws), Hws. naive_solver. }
  destruct (mask_ m) as [b|] eqn:Em.
  - destruct (mask_buffer _ _ _ Hwf Em) as (ws & Hb & Hcap). case_bool_decide as Hw.
    + exists m, st. split_and!; [done|by apply frame_refl|by exists b| |done..]. intros idx Hidx. rewrite <- Hc in Hidx.
      pose proof (WordCount_covers idx c Hidx). lia.
    + rewrite Hb. eexists _, _. split; [done|]. apply Hgrow; [lia| |].
      * intros i _. symmetry. by apply (valid_words _ _ b).
      * intros b' [= <-]. by eapply lookup_lt_Some.
  - eexists _, _. split; [done|]. apply (Hgrow []); [simpl; lia| |done]. intros i _. unfold valid. by rewrite Em.
Qed.

(** The last conjunct is about the masks that existed before: only one that shares the buffer, which
    was large enough, sees the new NULL. *)
Lemma SetInvalid_ok st m idx :
  mask_wf st m → 0 ≤ idx →
  ∃ m' st', SetInvalid idx m st = (Ok m', st') ∧ frame st m st' m' ∧
    (∀ i, 0 ≤ i → valid st' m' i = if decide (i = idx) then false else valid st m i) ∧
    (∀ m0 i, mask_wf st m0 → 0 ≤ i →
       valid st' m0 i = if decide (i = idx ∧ mask_ m0 = mask_ m') then false else valid st m0 i).
Proof.
  intros Hwf Hi. unfold SetInvalid.
  destruct (EnsureWritable_ok st m (idx + 1) Hwf) as (m' & st1 & E1 & Hf1 & [b Eb] & Hcap & Hsame & Hv1 & Ho1). run E1.
  rewrite Eb. specialize (Hcap idx ltac:(unfold STANDARD_VECTOR_SIZE; lia)). rewrite bool_decide_true by done. simpl.
  pose proof (frame_wf _ _ _ _ Hf1) as Hwf1.
  destruct (get_word_ok st1 m' b idx Hwf1 Eb Hi Hcap) as (w & Ew & Hw). run Ew.
  destruct (set_bit_ok st1 m' b idx (Z.land w (Z.lnot (bit_of idx))) false) as (st2 & E2 & Hf2 & Hv2); [done..| |].
  { intros ws n Hb Hn. rewrite (Hw ws Hb). by apply testbit_set. }
  run E2. exists m', st2. split_and!; [done|by eapply frame_trans| |].
  - intros i H0. rewrite Hv2 by done. case_decide; [done|]. by apply Hv1.
  - intros m0 i Hm0 H0. destruct (Ho1 m0 Hm0) as [Hm01 Hv01]. destruct (decide (mask_ m0 = mask_ m')) as [Es|Ens].
    + rewrite Hv2 by (done || congruence). rewrite Hv01. repeat case_decide; naive_solver.
    + rewrite decide_False by naive_solver. rewrite <- Hv01. by apply (frame_mask st1 m' st2 m' m0); [done..|right].
Qed.

Lemma Set_ok st m idx v :
  mask_wf st m → 0 ≤ idx →
  ∃ m' st', Set_ idx v m st = (Ok m', st') ∧ frame st m st' m' ∧
    ∀ i, 0 ≤ i → valid st' m' i = if decide (i = idx) then v else valid st m i.
Proof.
  intros Hwf Hi. destruct v; simpl.
  - destruct (SetValid_ok st m idx Hwf Hi) as (st' & ? & ? & ?). by exists m, st'.
  - destruct (SetInvalid_ok st m idx Hwf Hi) as (m' & st' & ? & ? & ? & _). by exists m', st'.
Qed.

(** A loop keeps an invariant that its body carries from one row to the next. *)
Lemma for_rows_ok (Q : Z → ValidityMask → Buffers → Prop) body n i m st :
  (∀ j m st, i ≤ j → Q j m st → ∃ m' st', body j m st = (Ok m', st') ∧ Q (j + 1) m' st') → Q i m st →
  ∃ m' st', for_rows i n body m st = (Ok m', st') ∧ Q (i + Z.of_nat n) m' st'.
Proof.
  revert i m st. induction n as [|n IH]; intros i m st Hb HQ; simpl.
  - exists m, st. by rewrite Z.add_0_r.
  - destruct (Hb i m st ltac:(lia) HQ) as (m1 & st1 & E & HQ1). run E.
    destruct (IH (i + 1) m1 st1) as (m' & st' & E' & HQ'); [intros j ? ? ?; apply Hb; lia|done|].
    exists m', st'. split; [done|]. by replace (i + Z.of_nat (S n)) with (i + 1 + Z.of_nat n) by lia.
Qed.

(** Rows gathered from another mask into a fresh buffer. *)
Lemma gather_ok st other (f : Z → Z) count n :
  mask_wf st other → mask_ other ≠ None → (∀ i, 0 ≤ i → 0 ≤ f i) →
  ∃ m' st', (m ← EnsureWritable count no_mask;
             for_rows 0 n (λ i m, v ← RowIsValid other (f i); Set_ i v m) m) st = (Ok m', st') ∧
    frame st no_mask st' m' ∧
    ∀ i, 0 ≤ i → valid st' m' i = if decide (i < Z.of_nat n) then valid st other (f i) else true.
Proof.
  intros Hwf Hne Hf. destruct (EnsureWritable_ok st no_mask count eq_refl) as (m1 & st1 & E1 & Hf1 & _ & _ & _ & Hv1 & _). run E1.
  destruct (for_rows_ok (λ k m' st', frame st no_mask st' m' ∧ ∀ i, 0 ≤ i → valid st' m' i = if decide (i < k) then valid st other (f i) else true)
    (λ i m, v ← RowIsValid other (f i); Set_ i v m) n 0 m1 st1) as (m' & st' & E' & Hf' & Hv').
  - intros j m2 st2 Hj [Hf2 Hv2]. destruct (frame_mask _ _ _ _ other Hf2 Hwf) as [Hwf2 Hvo]; [by right|].
    run (RowIsValid_ok st2 other (f j) Hwf2 (Hf j Hj)).
    destruct (Set_ok st2 m2 j (valid st2 other (f j)) (frame_wf _ _ _ _ Hf2) Hj) as (m3 & st3 & E3 & Hf3 & Hv3).
    exists m3, st3. split; [done|]. split; [by eapply frame_trans|]. intros i Hi. rewrite Hv3, Hv2 by done.
    destruct (decide (i = j)) as [->|]; [rewrite decide_True by lia; apply Hvo|]. repeat case_decide; done || lia.
  - split; [done|]. intros i Hi. rewrite Hv1, decide_False by lia. done.
  - by exists m', st'.
Qed.

Lemma Slice_ok st other offset count :
  mask_wf st other → 0 ≤ offset → 0 ≤ count →
  ∃ m' st', Slice other offset count st = (Ok m', st') ∧ frame st no_mask st' m' ∧
    ∀ i, 0 ≤ i → valid st' m' i = if decide (i < count) then valid st other (offset + i) else true.
Proof.
  intros Hwf Ho Hc. unfold Slice, AllValid. case_bool_decide as Hn.
  - exists no_mask, st. split_and!; [done|by apply frame_refl|]. intros i _. unfold valid. rewrite Hn. by case_decide.
  - set (bits := capacity_words_ other * BITS_PER_WORD).
    set (limit := if bool_decide (offset < bits) then Z.min count (bits - offset) else 0).
    destruct (gather_ok st other (λ i, offset + i) count (Z.to_nat limit)) as (m' & st' & E & Hf & Hv); [done..|lia|].
    exists m', st'. split_and!; [done..|]. intros i Hi. rewrite Hv by done.
    assert (bits ≤ offset + i → valid st other (offset + i) = true) as Hpast.
    { intros H. apply valid_past; [done|]. unfold word_of, bits, BITS_PER_WORD in *.
      apply Z.le_ge, Z.div_le_lower_bound; lia. }
    unfold limit in *. repeat case_decide; repeat case_bool_decide; try done; try lia; rewrite Hpast; done || lia.
Qed.

Lemma GatherFrom_ok st other sel count :
  mask_wf st other → 0 ≤ count → (∀ i, 0 ≤ i → 0 ≤ sel i) →
  ∃ m' st', GatherFrom other sel count st = (Ok m', st') ∧ frame st no_mask st' m' ∧
    ∀ i, 0 ≤ i → valid st' m' i = if decide (i < count) then valid st other (sel i) else true.
Proof.
  intros Hwf Hc Hs. unfold GatherFrom, AllValid. case_bool_decide as Hn.
  - exists no_mask, st. split_and!; [done|by apply frame_refl|]. intros i _. unfold valid. rewrite Hn. by case_decide.
  - destruct (gather_ok st other sel count (Z.to_nat count)) as (m' & st' & E & Hf & Hv); [done..|].
    exists m', st'. split_and!; [done..|]. intros i Hi. rewrite Hv by done. repeat case_decide; done || lia.
Qed.

(** [Combine] also holds for a mask that shares the buffer of [other]. *)
Lemma Combine_ok st other count m :
  mask_wf st other → mask_wf st m → 0 ≤ count →
  ∃ m' st', Combine other count m st = (Ok m', st') ∧ frame st m st' m' ∧
    ∀ i, 0 ≤ i → valid st' m' i = if decide (i < count) then valid st m i && valid st other i else valid st m i.
Proof.
  intros Hwo Hwf Hc. unfold Combine, AllValid. case_bool_decide as Hn.
  - exists m, st. split_and!; [done|by apply frame_refl|]. intros i _.
    assert (valid st other i = true) as -> by (unfold valid; by rewrite Hn). rewrite andb_true_r. by case_decide.
  - destruct (EnsureWritable_ok st m count Hwf) as (m1 & st1 & E1 & Hf1 & _ & _ & _ & Hv1 & Ho1). run E1.
    destruct (for_rows_ok (λ k m' st', frame st m st' m' ∧ mask_wf st' other ∧ (∀ i, 0 ≤ i → valid st' other i = valid st other i) ∧
        ∀ i, 0 ≤ i → valid st' m' i = if decide (i < k) then valid st m i && valid st other i else valid st m i)
      (λ i m, v ← RowIsValid other i; if (v : bool) then mret m else SetInvalid i m) (Z.to_nat count) 0 m1 st1) as (m' & st' & E' & Hf' & _ & _ & Hv').
    + intros j m2 st2 Hj (Hf2 & Hwo2 & Hvo2 & Hv2). run (RowIsValid_ok st2 other j Hwo2 Hj). rewrite Hvo2 by done.
      destruct (valid st other j) eqn:Ej.
      * exists m2, st2. split_and!; [done..|]. intros i Hi. rewrite Hv2 by done.
        destruct (decide (i = j)) as [->|]; [|repeat case_decide; done || lia].
        rewrite decide_False, decide_True, Ej, andb_true_r by lia. done.
      * destruct (SetInvalid_ok st2 m2 j (frame_wf _ _ _ _ Hf2) Hj) as (m3 & st3 & E3 & Hf3 & Hv3 & Hall).
        exists m3, st3. split_and!; [done|by eapply frame_trans| | |].
        -- unfold mask_wf in *. destruct (mask_ other) as [b|]; [|done]. destruct Hwo2 as (ws & Hb & ?).
           destruct (frame_other _ _ _ _ Hf3 _ _ Hb) as (ws' & Hb' & Hl & _). exists ws'. split; [done|congruence].
        -- intros i Hi. rewrite Hall by done. case_decide as Hd; [destruct Hd as [-> _]; done|by apply Hvo2].
        -- intros i Hi. rewrite Hv3, Hv2 by done. destruct (decide (i = j)) as [->|]; [|repeat case_decide; done || lia].
           rewrite decide_True, Ej, andb_false_r by lia. done.
    + destruct (Ho1 other Hwo) as [? ?]. split_and!; [done..|]. intros i Hi. rewrite Hv1 by done. by rewrite decide_False by lia.
    + exists m', st'. split_and!; [done..|]. intros i Hi. rewrite Hv' by done. repeat case_decide; done || lia.
Qed.

Lemma CheckAllValid_ok st m count :
  mask_wf st m → ∃ v, CheckAllValid count m st = (Ok v, st) ∧ (v = true ↔ ∀ i, 0 ≤ i < count → valid st m i = true).
Proof.
  intros Hwf. unfold CheckAllValid, AllValid. case_bool_decide as Hn.
  - exists true. split; [done|]. split; [|done]. intros _ i _. unfold valid. by rewrite Hn.
  - assert (∀ n k, 0 ≤ k → ∃ v, check_rows k n m st = (Ok v, st) ∧ (v = true ↔ ∀ i, k ≤ i < k + Z.of_nat n → valid st m i = true)) as H.
    { induction n as [|n IH]; intros k Hk; simpl; [exists true; split; [done|split; [intros; lia|done]]|].
      run (RowIsValid_ok st m k Hwf Hk). destruct (valid st m k) eqn:Ek.
      - destruct (IH (k + 1) ltac:(lia)) as (v & -> & Hv). exists v. split; [done|]. rewrite Hv. split; intros H i Hi; [|apply H; lia].
        destruct (decide (i = k)) as [->|]; [done|]. apply H. lia.
      - exists false. split; [done|]. split; [done|]. intros H. rewrite H in Ek by lia. done. }
    destruct (H (Z.to_nat count) 0 ltac:(lia)) as (v & -> & Hv). exists v. split; [done|]. rewrite Hv. split; intros H' i Hi; apply H'; lia.
Qed.

(** Words copied over the front of a buffer. *)
Lemma words_valid_over ws old i :
  words_valid (ws ++ drop (length ws) old) i =
    if decide (Z.to_nat (word_of i) < length ws)%nat then words_valid ws i else words_valid old i.
Proof.
  unfold words_valid. case_decide as H.
  - by rewrite lookup_app_l.
  - rewrite lookup_app_r, lookup_drop by lia. by replace (length ws + (_ - length ws))%nat with (Z.to_nat (word_of i)) by lia.
Qed.
Lemma put_words_ok st m b ws :
  mask_wf st m → mask_ m = Some b → Z.of_nat (length ws) ≤ capacity_words_ m →
  ∃ st', put_words b ws st = (Ok tt, st') ∧ frame st m st' m ∧
    ∀ i, valid st' m i = if decide (Z.to_nat (word_of i) < length ws)%nat then words_valid ws i else valid st m i.
Proof.
  intros Hwf Em Hl. destruct (mask_buffer _ _ _ Hwf Em) as (old & Hb & Hc). pose proof (lookup_lt_Some _ _ _ Hb) as Hbl.
  assert (length (ws ++ drop (length ws) old) = length old) as Hlen by (rewrite length_app, length_drop; lia).
  unfold put_words. rewrite Hb, bool_decide_true by lia. eexists. split; [done|]. split; [split|].
  - unfold mask_wf. rewrite Em. eexists. rewrite list_lookup_insert_eq by done. split; [done|]. congruence.
  - by left.
  - intros b' ws' Hb'. destruct (decide (b' = b)) as [->|Hne].
    + eexists. rewrite list_lookup_insert_eq by done. simplify_eq. split_and!; done.
    + exists ws'. rewrite list_lookup_insert_ne by done. done.
  - intros i. rewrite (valid_words _ m b (ws ++ drop (length ws) old)), (valid_words st m b old) by (done || by apply list_lookup_insert_eq).
    apply words_valid_over.
Qed.

(** A deep copy has the rows of its source, on a buffer of its own. *)
Lemma Copy_ok st m :
  mask_wf st m →
  ∃ m' st', Copy m st = (Ok m', st') ∧ frame st no_mask st' m' ∧ ∀ i, 0 ≤ i → valid st' m' i = valid st m i.
Proof.
  intros Hwf. unfold Copy. destruct (mask_ m) as [b|] eqn:Em.
  - destruct (mask_buffer _ _ _ Hwf Em) as (ws & Hb & Hc).
    destruct (EnsureWritable_ok st no_mask (capacity_words_ m * BITS_PER_WORD) eq_refl) as (m1 & st1 & E1 & Hf1 & [b' Eb'] & Hcap & _ & Hv1 & Ho1).
    run E1. rewrite Eb'. destruct (Ho1 m Hwf) as [Hwf1 Hvm]. destruct (frame_other _ _ _ _ Hf1 _ _ Hb) as (ws1 & Hb1 & _ & E). rewrite E in Hb1 by done.
    assert (get_words b st1 = (Ok ws, st1)) as Eg by (unfold get_words; by rewrite Hb1). run Eg. rewrite take_ge by lia.
    assert (Z.of_nat (length ws) ≤ capacity_words_ m1) as Hl.
    { destruct (decide (ws = [])) as [->|Hne]; [pose proof (Hcap 0 ltac:(unfold STANDARD_VECTOR_SIZE; lia)); change (word_of 0) with 0 in *; simpl; lia|].
      assert (0 < Z.of_nat (length ws)) by (destruct ws; simpl; [done|lia]).
      specialize (Hcap (capacity_words_ m * BITS_PER_WORD - 1)). unfold word_of in Hcap. rewrite Hc in Hcap. unfold BITS_PER_WORD, STANDARD_VECTOR_SIZE in *.
      replace (Z.of_nat (length ws) * 64 - 1) with ((Z.of_nat (length ws) - 1) * 64 + 63) in Hcap by lia.
      rewrite Z.div_add_l in Hcap by lia. change (63 / 64) with 0 in Hcap. lia. }
    destruct (put_words_ok st1 m1 b' ws (frame_wf _ _ _ _ Hf1) Eb' Hl) as (st2 & E2 & Hf2 & Hv2). run E2.
    exists m1, st2. split_and!; [done|by eapply frame_trans|]. intros i Hi. rewrite Hv2, (valid_words st m b ws) by done.
    case_decide as Hd; [done|]. rewrite Hv1 by done. unfold words_valid. by rewrite lookup_ge_None_2 by lia.
  - exists no_mask, st. split_and!; [done|by apply frame_refl|]. intros i _. unfold valid. by rewrite Em.
Qed.

(** Every row of the buffer becomes NULL: the rows asked for, and the rest of the buffer with them. *)
Lemma SetAllInvalid_ok st m count :
  mask_wf st m → 
  ∃ m' st', SetAllInvalid count m st = (Ok m', st') ∧ frame st m st' m' ∧
    ∀ i, 0 ≤ i → valid st' m' i = negb (bool_decide (word_of i < capacity_words_ m')) ∧ (i < count → valid st' m' i = false).
Proof.
  intros Hwf. unfold SetAllInvalid.
  destruct (EnsureWritable_ok st m count Hwf) as (m1 & st1 & E1 & Hf1 & [b Eb] & Hcap & _ & _ & _). run E1. rewrite Eb.
  pose proof (frame_wf _ _ _ _ Hf1) as Hwf1. destruct (mask_buffer _ _ _ Hwf1 Eb) as (ws & Hb & Hc).
  destruct (put_words_ok st1 m1 b (replicate (Z.to_nat (capacity_words_ m1)) 0) Hwf1 Eb) as (st2 & E2 & Hf2 & Hv2); [rewrite length_replicate; lia|].
  run E2. exists m1, st2. split_and!; [done|by eapply frame_trans|]. intros i Hi. destruct (word_bit i Hi) as (_ & Hq & _).
  assert (valid st2 m1 i = negb (bool_decide (word_of i < capacity_words_ m1))) as E.
  { rewrite Hv2, length_replicate. case_decide as Hd.
    - rewrite bool_decide_true by lia. unfold words_valid. rewrite lookup_replicate_2 by lia. apply Z.bits_0.
    - rewrite bool_decide_false by lia. apply valid_past; [done|lia]. }
  split; [done|]. intros Hlt. rewrite E, bool_decide_true; [done|]. apply Hcap. lia.
Qed.
