(* ===== verification/SortKey.v ===== *)
(** * Sort keys ([common/sort_key_encoding.h], [common/bswap.h], [type/vector/operations/create_sort_key.cpp])

    The ORDER BY columns of a chunk become one byte string per row whose byte order is the order of the
    rows.  The columns keep their encodings (flat, constant, dictionary), and the keys are written where
    the code puts them: inside the [string_t] of the row, or into the chunks of the result's heap, which
    for keys of one width are carved into equal slots. *)

From Stdlib Require Import Floats.SpecFloat.
From S2P Require Import Prelude TablePage TableHeap BTreePage BPlusTree GenericKey StringHeap ValidityMask.

(** ** Byte order *)

Definition byte_of (z : Z) : byte := default Byte.x00 (Byte.of_N (Z.to_N (z mod 256))).

Definition BSWAP16 (x : Z) : Z := u16 (Z.lor (Z.shiftr (Z.land x 0xff00) 8) (Z.shiftl (Z.land x 0x00ff) 8)).
Definition BSWAP32 (x : Z) : Z :=
  u32 (Z.lor (Z.lor (Z.lor (Z.shiftr (Z.land x 0xff000000) 24) (Z.shiftr (Z.land x 0x00ff0000) 8))
                    (Z.shiftl (Z.land x 0x0000ff00) 8)) (Z.shiftl (Z.land x 0x000000ff) 24)).
Definition BSWAP64 (x : Z) : Z :=
  u64 (Z.lor (Z.lor (Z.lor (Z.lor (Z.lor (Z.lor (Z.lor
    (Z.shiftr (Z.land x 0xff00000000000000) 56) (Z.shiftr (Z.land x 0x00ff000000000000) 40))
    (Z.shiftr (Z.land x 0x0000ff0000000000) 24)) (Z.shiftr (Z.land x 0x000000ff00000000) 8))
    (Z.shiftl (Z.land x 0x00000000ff000000) 8)) (Z.shiftl (Z.land x 0x0000000000ff0000) 24))
    (Z.shiftl (Z.land x 0x000000000000ff00) 40)) (Z.shiftl (Z.land x 0x00000000000000ff) 56)).
(** [BSwap] of an [n]-byte value. *)
Definition BSwap (n : nat) (x : Z) : Z :=
  match n with 2%nat => BSWAP16 x | 4%nat => BSWAP32 x | 8%nat => BSWAP64 x | _ => x end.

(** ** [SortKeyEncoding] *)

Definition FlipSign (key_byte : byte) : byte := byte_of (Z.lxor (byte_val key_byte) 128).

Definition float32 : Z → spec_float := float_of_bits 23 8.
Definition float64 : Z → spec_float := float_of_bits 52 11.
Definition FLT_MAX : spec_float := float32 0x7f7fffff.
Definition DBL_MAX : spec_float := float64 0x7fefffffffffffff.

(** [x] is the bit pattern of the number. *)
Definition EncodeFloat (x : Z) : Z :=
  if SFeqb (float32 x) (S754_zero false) then Z.lor 0 (Z.shiftl 1 31)
  else if SFltb FLT_MAX (float32 x) then 2 ^ 32 - 1 - 1
  else if SFltb (float32 x) (SFopp FLT_MAX) then 0
  else if bool_decide (Z.land x (Z.shiftl 1 31) = 0) then Z.lor x (Z.shiftl 1 31)
  else u32 (Z.lnot x).
Definition EncodeDouble (x : Z) : Z :=
  if SFeqb (float64 x) (S754_zero false) then 0 + 2 ^ 63
  else if SFltb DBL_MAX (float64 x) then 2 ^ 64 - 1 - 1
  else if SFltb (float64 x) (SFopp DBL_MAX) then 0
  else if bool_decide (x < 2 ^ 63) then u64 (x + 2 ^ 63)
  else u64 (Z.lnot x).

(** [Store<T>]: the bytes of an [n]-byte value; [EncodeSigned] flips the first byte it stored. *)
Definition Store_swapped (n : nat) (x : Z) : list byte := le_bytes n (BSwap n x).
Definition EncodeSigned (n : nat) (value : Z) : list byte :=
  match Store_swapped n (wrap_u (8 * Z.of_nat n) value) with b :: bs => FlipSign b :: bs | [] => [] end.

(** [LogicalType::SizeOf] and [IsConstantSize], of [type/logical_type.cpp]; a string's inline size is that
    of its handle. *)
Definition SizeOf (ty : PhysicalType) : result Z :=
  match ty with
  | TINYINT | UTINYINT => Ok 1
  | SMALLINT | USMALLINT => Ok 2
  | INTEGER | UINTEGER | FLOAT => Ok 4
  | BIGINT | UBIGINT | DOUBLE => Ok 8
  | STRING => Ok 24 | LIST => Ok 16 | ARRAY => Ok 0 | UNKNOWN => Ok 1
  | STRUCT => Err (EException NOT_IMPLEMENTED "STRUCT has no inline size")
  end.
Definition IsConstantSize (ty : PhysicalType) : bool :=
  match ty with STRING | STRUCT | LIST | ARRAY => false | _ => true end.

(** An element of a column: a number (for FLOAT and DOUBLE its bit pattern), or the bytes of a string. *)
Inductive cell := CNum (z : Z) | CStr (s : list byte).
#[global] Instance cell_inhabited : Inhabited cell := populate (CNum 0).

Definition EncodeData (ty : PhysicalType) (z : Z) : result (list byte) :=
  match ty with
  | TINYINT => Ok (EncodeSigned 1 z) | SMALLINT => Ok (EncodeSigned 2 z)
  | INTEGER => Ok (EncodeSigned 4 z) | BIGINT => Ok (EncodeSigned 8 z)
  | UTINYINT => Ok (le_bytes 1 z) | USMALLINT => Ok (Store_swapped 2 z)
  | UINTEGER => Ok (Store_swapped 4 z) | UBIGINT => Ok (Store_swapped 8 z)
  | FLOAT => Ok (Store_swapped 4 (EncodeFloat z)) | DOUBLE => Ok (Store_swapped 8 (EncodeDouble z))
  | _ => Err (EException NOT_IMPLEMENTED "SortKeyEncoding: cannot build a sort key from this type")
  end.

(** ** The encoders of one value *)

Definition NON_NULL_PREFIX : Z := 1.
Definition STRING_DELIMITER : byte := Byte.x00.

(** [OP::Encode] and [OP::EncodeNull] for the operator [ConstructSortKey] picks by the column's type. *)
Definition unsupported {A} : result A := Err (EException NOT_IMPLEMENTED "create_sort_key: unsupported type").
Definition op_Encode (ty : PhysicalType) (c : cell) : result (list byte) :=
  match ty, c with
  | STRING, CStr s => Ok (byte_of NON_NULL_PREFIX :: ((λ b, byte_of (byte_val b + 1)) <$> s) ++ [STRING_DELIMITER])
  | (STRUCT | LIST | ARRAY | UNKNOWN), _ => unsupported
  | _, CNum z => EncodeData ty z
  | _, CStr _ => Err EUndefined
  end.
Definition op_EncodeNull (ty : PhysicalType) : result (list byte) :=
  match ty with
  | STRING => Ok [byte_of (NON_NULL_PREFIX + 1)]
  | STRUCT | LIST | ARRAY | UNKNOWN => unsupported
  | _ => n ← SizeOf ty; Ok (replicate (Z.to_nat n) Byte.xff)
  end.

Inductive OrderType := INVALID_ORDER | ASCENDING | DESCENDING.
#[global] Instance OrderType_eq_dec : EqDecision OrderType.
Proof. solve_decision. Defined.

(** The bytes [EncodeOneRow] leaves in the key, flipped in place for a descending column. *)
Definition complement (b : byte) : byte := byte_of (Z.lnot (byte_val b)).
Definition EncodeOneRow (ty : PhysicalType) (flip : bool) (value : cell) (is_null : bool) : result (list byte) :=
  bytes ← (if is_null then op_EncodeNull ty else op_Encode ty value);
  Ok (if flip then map complement bytes else bytes).

(** ** Columns *)

(** The words of a mask's buffer; [None] is a mask without one. *)
Definition mask_valid (validity : option (list Z)) (i : Z) : bool :=
  match validity with Some ws => words_valid ws i | None => true end.

(** The encodings of [VectorType] that the engine builds. *)
Inductive Vector :=
  | FLAT_VECTOR (data : list cell) (validity : option (list Z))
  | CONSTANT_VECTOR (data : cell) (validity : option (list Z))
  | DICTIONARY_VECTOR (sel : list Z) (child : Vector).

Fixpoint Vector_RowIsValid (v : Vector) (idx : Z) : result bool :=
  match v with
  | FLAT_VECTOR _ validity => Ok (mask_valid validity idx)
  | CONSTANT_VECTOR _ validity => Ok (mask_valid validity 0)
  | DICTIONARY_VECTOR sel child =>
      match sel !! Z.to_nat idx with Some real_idx => Vector_RowIsValid child real_idx | None => Err EUndefined end
  end.

(** [VectorData]: the selection ([None] is the identity), the data and the validity. *)
Record VectorData := mkVectorData { vd_sel : option (list Z); vd_data : list cell; vd_validity : option (list Z) }.
Definition GetIndex (sel : option (list Z)) (i : Z) : result Z :=
  match sel with
  | None => Ok i
  | Some s => match s !! Z.to_nat i with Some x => Ok x | None => Err EUndefined end
  end.
(** A dictionary over anything but a flat child is materialised by [Normalify(sel, count)], which supports
    generated sequences only; slicing never builds such a dictionary. *)
Definition Orrify (count : Z) (v : Vector) : result VectorData :=
  match v with
  | DICTIONARY_VECTOR sel (FLAT_VECTOR data validity) => Ok (mkVectorData (Some sel) data validity)
  | DICTIONARY_VECTOR _ _ => Err (EException NOT_IMPLEMENTED "Vector::Normalify(sel): unsupported vector type")
  | CONSTANT_VECTOR data validity =>
      Ok (mkVectorData (Some (replicate (Z.to_nat (Z.max count STANDARD_VECTOR_SIZE)) 0)) [data] validity)
  | FLAT_VECTOR data validity => Ok (mkVectorData None data validity)
  end.
Definition data_at (data : list cell) (i : Z) : result cell :=
  match data !! Z.to_nat i with Some c => Ok c | None => Err EUndefined end.

(** Row [r] of a column as the three [TemplatedConstructSortKey...] loops read it: the element and whether
    the row is NULL.  An all-valid mask is not looked at. *)
Definition is_null_at (validity : option (list Z)) (i : Z) : bool :=
  match validity with None => false | Some _ => negb (mask_valid validity i) end.
Definition read_row (v : Vector) (size r : Z) : result (cell * bool) :=
  match v with
  | CONSTANT_VECTOR data _ => valid ← Vector_RowIsValid v 0; Ok (data, negb valid)
  | FLAT_VECTOR data validity => c ← data_at data r; Ok (c, is_null_at validity r)
  | DICTIONARY_VECTOR _ _ =>
      vd ← Orrify size v;
      idx ← GetIndex (vd_sel vd) r;
      c ← data_at (vd_data vd) idx;
      Ok (c, is_null_at (vd_validity vd) idx)
  end.

Record SortColumn := mkColumn { sc_type : PhysicalType; sc_vector : Vector; sc_order : OrderType }.
Definition flip_bytes_ (col : SortColumn) : bool := bool_decide (sc_order col = DESCENDING).

(** ** Measuring *)

Definition StringRowEncodeLength (c : cell) (is_null : bool) : result Z :=
  match c with
  | CStr s => Ok (if is_null then 1 else Z.of_nat (length s) + 2)
  | CNum _ => Err EUndefined
  end.
Fixpoint add_lengths (v : Vector) (size r : Z) (variable : list Z) : result (list Z) :=
  match variable with
  | [] => Ok []
  | n :: ns =>
      '(c, is_null) ← read_row v size r;
      k ← StringRowEncodeLength c is_null;
      ns ← add_lengths v size (r + 1) ns;
      Ok (n + k :: ns)
  end.
(** [constant_] and [variable_] after one column. *)
Definition GetSortKeyLength (col : SortColumn) (size : Z) (lengths : Z * list Z) : result (Z * list Z) :=
  if IsConstantSize (sc_type col) then
    n ← SizeOf (sc_type col); Ok (lengths.1 + n, lengths.2)
  else if bool_decide (sc_type col ≠ STRING) then unsupported
  else variable ← add_lengths (sc_vector col) size 0 lengths.2; Ok (lengths.1, variable).
Fixpoint measure (cols : list SortColumn) (size : Z) (lengths : Z * list Z) : result (Z * list Z) :=
  match cols with
  | [] => Ok lengths
  | col :: cols => lengths ← GetSortKeyLength col size lengths; measure cols size lengths
  end.

(** ** Reserving *)

(** Where a row's key is written: inside its [string_t], or in a chunk of the heap. *)
Inductive data_ptr := InRow (r : nat) | InChunk (c : nat) (o : Z).
(** The result vector: its [string_t]s and its string heap. *)
Record KeyVector := mkKeys { kv_rows : list string_t; kv_heap : StringHeap }.

Definition set_row (r : nat) (s : string_t) (kv : KeyVector) : result KeyVector :=
  if bool_decide (r < length (kv_rows kv))%nat then Ok (mkKeys (<[r := s]> (kv_rows kv)) (kv_heap kv)) else Err EUndefined.
Definition write_key (p : data_ptr) (off : Z) (bytes : list byte) (kv : KeyVector) : result KeyVector :=
  match p with
  | InRow r =>
      match kv_rows kv !! r with
      | Some s => pre ← mem_write (s_prefix s) off bytes (Z.of_nat (length bytes));
                  set_row r (mkString pre (s_length s) (s_ptr s)) kv
      | None => Err EUndefined
      end
  | InChunk c o => h ← write_chunk c (o + off) bytes (kv_heap kv); Ok (mkKeys (kv_rows kv) h)
  end.

Section create.
Context (junk : byte).

(** [StringVector::EmptyString]. *)
Definition EmptyString (len : Z) (h : StringHeap) : result (string_t * StringHeap) :=
  if IsInlined len then Ok (new_string_len len, h) else AddEmptyString junk len h.

(** One slot of the fast path: the terminator, the row's [string_t] and its pointer. *)
Definition carve (c : nat) (o blob_size : Z) (r : nat) (kv : KeyVector) : result KeyVector :=
  h ← write_chunk c (o + blob_size) [Byte.x00] (kv_heap kv);
  match h !! c with
  | None => Err EUndefined
  | Some ck =>
      s ← new_string (drop (Z.to_nat o) (chunk_data ck)) (c, o) blob_size;
      set_row r s (mkKeys (kv_rows kv) h)
  end.
Fixpoint carve_batch (batch : nat) (c : nat) (o stride blob_size : Z) (r : nat) (kv : KeyVector) (ptrs : list data_ptr)
    : result (KeyVector * list data_ptr) :=
  match batch with
  | O => Ok (kv, ptrs)
  | S batch =>
      kv ← carve c o blob_size r kv;
      carve_batch batch c (o + stride) stride blob_size (S r) kv (ptrs ++ [InChunk c o])
  end.
Fixpoint prepare_fixed (fuel : nat) (size : nat) (blob_size : Z) (r : nat) (kv : KeyVector) (ptrs : list data_ptr)
    : result (KeyVector * list data_ptr) :=
  if bool_decide (size ≤ r)%nat then Ok (kv, ptrs) else
  match fuel with
  | O => Err EUndefined
  | S fuel =>
      let stride := blob_size + 1 in
      let per_buf := Z.max 1 ((MINIMUM_HEAP_SIZE - 1) / stride) in
      let batch := Z.min per_buf (Z.of_nat (size - r)) in
      '(s, h) ← EmptyString (batch * stride) (kv_heap kv);
      match s_ptr s with
      | None => Err EUndefined
      | Some (c, o) =>
          '(kv, ptrs) ← carve_batch (Z.to_nat batch) c o stride blob_size r (mkKeys (kv_rows kv) h) ptrs;
          prepare_fixed fuel size blob_size (r + Z.to_nat batch) kv ptrs
      end
  end.
(** The general path: one reservation per row. *)
Fixpoint prepare_rows (lengths : list Z) (r : nat) (kv : KeyVector) (ptrs : list data_ptr) : result (KeyVector * list data_ptr) :=
  match lengths with
  | [] => Ok (kv, ptrs)
  | bs :: lengths =>
      '(s, h) ← EmptyString bs (kv_heap kv);
      kv ← set_row r s (mkKeys (kv_rows kv) h);
      let p := match s_ptr s with Some (c, o) => InChunk c o | None => InRow r end in
      prepare_rows lengths (S r) kv (ptrs ++ [p])
  end.
Definition PrepareSortData (size : nat) (lengths : Z * list Z) (kv : KeyVector) : result (KeyVector * list data_ptr) :=
  let '(constant, variable) := lengths in
  if forallb (λ n, bool_decide (n = 0)) variable && bool_decide (PREFIX_LENGTH < constant)
  then prepare_fixed (size + 1) size constant 0 kv []
  else prepare_rows ((λ n, n + constant) <$> variable) 0 kv [].

(** ** Filling *)

(** One column appended to every row's key; [offsets] says how far each key is written. *)
Fixpoint fill_rows (col : SortColumn) (size : Z) (r : Z) (ptrs : list data_ptr) (offsets : list Z) (kv : KeyVector)
    : result (list Z * KeyVector) :=
  match ptrs, offsets with
  | p :: ptrs, off :: offsets =>
      '(c, is_null) ← read_row (sc_vector col) size r;
      bytes ← EncodeOneRow (sc_type col) (flip_bytes_ col) c is_null;
      kv ← write_key p off bytes kv;
      '(offsets, kv) ← fill_rows col size (r + 1) ptrs offsets kv;
      Ok (off + Z.of_nat (length bytes) :: offsets, kv)
  | _, _ => Ok ([], kv)
  end.
Definition ConstructSortKey (col : SortColumn) (size : Z) (ptrs : list data_ptr) (offsets : list Z) (kv : KeyVector)
    : result (list Z * KeyVector) :=
  match sc_type col with
  | STRUCT | LIST | ARRAY | UNKNOWN => unsupported
  | _ => fill_rows col size 0 ptrs offsets kv
  end.
Fixpoint fill (cols : list SortColumn) (size : Z) (ptrs : list data_ptr) (offsets : list Z) (kv : KeyVector) : result KeyVector :=
  match cols with
  | [] => Ok kv
  | col :: cols =>
      '(offsets, kv) ← ConstructSortKey col size ptrs offsets kv;
      fill cols size ptrs offsets kv
  end.

(** [CreateSortKey::Create] into a fresh STRING vector. *)
Definition new_keys : KeyVector := mkKeys (replicate (Z.to_nat STANDARD_VECTOR_SIZE) (new_string_len 0)) [].
Definition CreateSortKey (cols : list SortColumn) (row_count : nat) : result KeyVector :=
  let size := Z.of_nat row_count in
  lengths ← measure cols size (0, replicate row_count 0);
  '(kv, ptrs) ← PrepareSortData row_count lengths new_keys;
  fill cols size ptrs (replicate row_count 0) kv.
Definition key_bytes (kv : KeyVector) (r : nat) : list byte :=
  match kv_rows kv !! r with Some s => str_bytes (kv_heap kv) s | None => [] end.
End create.
