(* ===== verification/VectorOps.v ===== *)
(** * Columns copied, sliced and flattened ([type/vector/vector.cpp], [vector_copy.cpp], [selection_vector.cpp])

    A column keeps one of three encodings; slicing composes selections and flattening copies the rows into
    a fresh buffer.  The lemmas say that a row reads the same before and after, whatever the encoding. *)

From S2P Require Import Prelude TablePage TableHeap BTreePage BPlusTree GenericKey StringHeap ValidityMask SortKey.

(** ** Selections *)

(** [SelectionVector::Slice]: [this] read at the first [count] indices of [sel]. *)
Fixpoint sel_Slice (this sel : option (list Z)) (i : Z) (count : nat) : result (list Z) :=
  match count with
  | O => Ok []
  | S count => idx ← GetIndex sel i; x ← GetIndex this idx; rest ← sel_Slice this sel (i + 1) count; Ok (x :: rest)
  end.
Fixpoint read_indices (sel : option (list Z)) (i : Z) (n : nat) : result (list Z) :=
  match n with O => Ok [] | S n => x ← GetIndex sel i; rest ← read_indices sel (i + 1) n; Ok (x :: rest) end.

(** [Vector::Slice(sel, count)]. *)
Definition Vector_Slice (sel : list Z) (count : nat) (v : Vector) : result Vector :=
  match v with
  | CONSTANT_VECTOR _ _ => Ok v
  | FLAT_VECTOR _ _ => Ok (DICTIONARY_VECTOR sel v)
  | DICTIONARY_VECTOR current_sel child =>
      new_sel ← sel_Slice (Some current_sel) (Some sel) 0 count; Ok (DICTIONARY_VECTOR new_sel child)
  end.

(** ** Copies *)

(** A mask that one vector owns, taken through the operations of [ValidityMask]. *)
Definition with_mask (op : ValidityMask → ST Buffers ValidityMask) (validity : option (list Z)) : result (option (list Z)) :=
  let '(m, st) := match validity with
                  | None => (no_mask, [])
                  | Some ws => (mkMask (Some 0%nat) (Z.of_nat (length ws)), [ws])
                  end in
  match op m st with
  | (Ok m, st) =>
      match mask_ m with
      | None => Ok None
      | Some b => match st !! b with Some ws => Ok (Some ws) | None => Err EUndefined end
      end
  | (Err e, _) => Err e
  end.
Fixpoint copy_mask (source : option (list Z)) (idxs : list Z) (t : Z) (m : ValidityMask) : ST Buffers ValidityMask :=
  match idxs with
  | [] => mret m
  | idx :: idxs =>
      m ← (if mask_valid source idx then SetValidUnsafe t m else SetInvalidUnsafe t m);
      copy_mask source idxs (t + 1) m
  end.

Section copy.
(** What fresh memory holds, as a byte of a string heap and as an element of a buffer. *)
Context (junk : byte) (junk_cell : cell).

(** [StringVector::AddString]: a long string goes to the vector's heap; the bytes it reads back do not
    depend on what the heap held before. *)
Definition add_string (s : list byte) : result (list byte) :=
  let len := Z.of_nat (length s) in
  if IsInlined len then Ok s else '(x, h) ← AddBlob junk s len []; Ok (str_bytes h x).

(** One element as the loop of its type copies it.  LIST and ARRAY columns have no element here. *)
Definition copied_cell (ty : PhysicalType) (data : list cell) (validity : option (list Z)) (idx : Z) : result cell :=
  match ty with
  | STRING =>
      if mask_valid validity idx then
        c ← data_at data idx;
        match c with CStr s => s ← add_string s; Ok (CStr s) | CNum _ => Err EUndefined end
      else Ok (CStr [])
  | LIST | ARRAY => Err EUndefined
  | STRUCT => Err (EException NOT_IMPLEMENTED "VectorOperations::Copy: unsupported type")
  | _ => data_at data idx
  end.
Fixpoint copy_cells (ty : PhysicalType) (data : list cell) (validity : option (list Z)) (idxs : list Z) (t : Z)
    (target : list cell) : result (list cell) :=
  match idxs with
  | [] => Ok target
  | idx :: idxs =>
      c ← copied_cell ty data validity idx;
      if bool_decide (t < Z.of_nat (length target)) then copy_cells ty data validity idxs (t + 1) (<[Z.to_nat t := c]> target)
      else Err EUndefined
  end.

(** The recursion into dictionaries: the composed selection, the data and the validity it reaches. *)
Fixpoint resolve (source : Vector) (sel : option (list Z)) (source_count : nat)
    : result (option (list Z) * list cell * option (list Z)) :=
  match source with
  | DICTIONARY_VECTOR dict_sel child => merged ← sel_Slice (Some dict_sel) sel 0 source_count; resolve child (Some merged) source_count
  | CONSTANT_VECTOR data validity => Ok (sel, [data], validity)
  | FLAT_VECTOR data validity => Ok (sel, data, validity)
  end.
(** [VectorOperations::Copy] into a flat target. *)
Definition Vector_Copy (ty : PhysicalType) (source : Vector) (target : list cell * option (list Z))
    (source_count source_offset target_offset : Z) : result (list cell * option (list Z)) :=
  if negb (bool_decide (source_offset ≤ source_count))
  then Err (EAssert "VectorOperations::Copy: the source offset is past the source") else
  '(sel, data, validity) ← match source with
                           | DICTIONARY_VECTOR dict_sel child => resolve child (Some dict_sel) (Z.to_nat source_count)
                           | CONSTANT_VECTOR data validity =>
                               Ok (Some (replicate (Z.to_nat (Z.max source_count STANDARD_VECTOR_SIZE)) 0), [data], validity)
                           | FLAT_VECTOR data validity => Ok (None, data, validity)
                           end;
  let copy_count := source_count - source_offset in
  if bool_decide (copy_count = 0) then Ok target else
  idxs ← read_indices sel source_offset (Z.to_nat copy_count);
  cells ← copy_cells ty data validity idxs target_offset target.1;
  match validity, target.2 with
  | None, None => Ok (cells, None)
  | _, _ =>
      mask ← with_mask (λ m, m ← EnsureWritable (target_offset + copy_count) m; copy_mask validity idxs target_offset m) target.2;
      Ok (cells, mask)
  end.

(** [Vector::Normalify(count)]: a flattened constant gets a buffer of the standard size. *)
Definition flattens (ty : PhysicalType) : result unit :=
  match ty with
  | LIST | ARRAY => Err EUndefined
  | STRUCT => Err (EException NOT_IMPLEMENTED "Vector::Normalify: unsupported type")
  | _ => Ok tt
  end.
Definition Normalify (ty : PhysicalType) (count : nat) (v : Vector) : result Vector :=
  match v with
  | FLAT_VECTOR _ _ => Ok v
  | DICTIONARY_VECTOR _ _ =>
      let new_size := Z.to_nat (Z.max (Z.of_nat count) STANDARD_VECTOR_SIZE) in
      '(data, mask) ← Vector_Copy ty v (replicate new_size junk_cell, None) (Z.of_nat count) 0 0;
      Ok (FLAT_VECTOR data mask)
  | CONSTANT_VECTOR constant validity =>
      _ ← flattens ty;
      if bool_decide (STANDARD_VECTOR_SIZE < Z.of_nat count) then Err EUndefined else
      let data := replicate count constant ++ replicate (Z.to_nat STANDARD_VECTOR_SIZE - count) junk_cell in
      if mask_valid validity 0 then Ok (FLAT_VECTOR data None) else
      mask ← with_mask (SetAllInvalid (Z.of_nat count)) None;
      Ok (FLAT_VECTOR data mask)
  end.

(** ** Key columns of a chunk *)

Fixpoint slice_columns (sel : list Z) (count : nat) (cols : list SortColumn) : result (list SortColumn) :=
  match cols with
  | [] => Ok []
  | col :: cols =>
      v ← Vector_Slice sel count (sc_vector col);
      cols ← slice_columns sel count cols;
      Ok (mkColumn (sc_type col) v (sc_order col) :: cols)
  end.
Definition normalify_column (count : nat) (col : SortColumn) : result SortColumn :=
  v ← Normalify (sc_type col) count (sc_vector col); Ok (mkColumn (sc_type col) v (sc_order col)).
Fixpoint normalify_columns (count : nat) (cols : list SortColumn) : result (list SortColumn) :=
  match cols with
  | [] => Ok []
  | col :: cols => col ← normalify_column count col; cols ← normalify_columns count cols; Ok (col :: cols)
  end.
End copy.

(** ** Rows are kept *)

(** Row [r] of one column and row [r'] of another hold the same value; under a NULL the element may differ,
    but not its kind. *)
Definition same_kind (c c' : cell) : Prop := match c, c' with CNum _, CNum _ | CStr _, CStr _ => True | _, _ => False end.
Definition same_row (v : Vector) (r : Z) (v' : Vector) (r' : Z) : Prop :=
  ∀ n, ∃ c c' b, read_row v n r = Ok (c, b) ∧ read_row v' n r' = Ok (c', b) ∧ (b = false → c' = c) ∧ same_kind c c'.

Lemma same_kind_refl c : same_kind c c.
Proof. by destruct c. Qed.
Lemma read_row_size v n n' r : read_row v n r = read_row v n' r.
Proof. by destruct v as [| |sel []]. Qed.
Lemma same_row_refl v r n x : read_row v n r = Ok x → same_row v r v r.
Proof.
  intros E n'. rewrite (read_row_size v n' n), E. destruct x as [c b]. exists c, c, b. split_and!; [done..|]. apply same_kind_refl.
Qed.
Lemma same_row_trans v1 r1 v2 r2 v3 r3 : same_row v1 r1 v2 r2 → same_row v2 r2 v3 r3 → same_row v1 r1 v3 r3.
Proof.
  intros H12 H23 n. destruct (H12 n) as (c1 & c2 & b & E1 & E2 & Hc & Hk), (H23 n) as (c2' & c3 & b' & E2' & E3 & Hc' & Hk').
  rewrite E2 in E2'. injection E2' as <- <-. exists c1, c3, b. split_and!; try done.
  - intros Hb. by rewrite Hc', Hc.
  - by destruct c1, c2, c3.
Qed.

(** The mask a vector owns, after an operation described on buffers. *)
Lemma with_mask_ok op validity (Q : Z → bool → Prop) :
  (∀ m st, mask_wf st m → (∀ i, 0 ≤ i → valid st m i = mask_valid validity i) →
     ∃ m' st', op m st = (Ok m', st') ∧ mask_wf st' m' ∧ ∀ i, 0 ≤ i → Q i (valid st' m' i)) →
  ∃ validity', with_mask op validity = Ok validity' ∧ ∀ i, 0 ≤ i → Q i (mask_valid validity' i).
Proof.
  intros Hop. unfold with_mask.
  assert (∀ m st, mask_wf st m → (∀ i, 0 ≤ i → valid st m i = mask_valid validity i) →
    ∃ validity', match op m st with
      | (Ok m, st) => match mask_ m with None => Ok None | Some b => match st !! b with Some ws => Ok (Some ws) | None => Err EUndefined end end
      | (Err e, _) => Err e end = Ok validity' ∧ ∀ i, 0 ≤ i → Q i (mask_valid validity' i)) as H.
  { intros m st Hwf Hm. destruct (Hop m st Hwf Hm) as (m' & st' & E & Hwf' & Hv). rewrite E. unfold mask_wf, valid in *.
    destruct (mask_ m') as [b|]; [|by exists None]. destruct Hwf' as (ws' & Hb & _). rewrite Hb. exists (Some ws'). split; [done|].
    intros i Hi. specialize (Hv i Hi). cbn [mbind option_bind] in Hv. by rewrite Hb in Hv. }
  destruct validity as [ws|]; apply H; done || by exists ws.
Qed.

Lemma copy_mask_ok source idxs : ∀ t m st,
  mask_wf st m → mask_ m ≠ None → 0 ≤ t → (∀ i, 0 ≤ i < t + Z.of_nat (length idxs) → word_of i < capacity_words_ m) →
  ∃ st', copy_mask source idxs t m st = (Ok m, st') ∧ mask_wf st' m ∧
    ∀ i, 0 ≤ i → valid st' m i = match idxs !! Z.to_nat (i - t) with Some idx => if decide (t ≤ i) then mask_valid source idx else valid st m i | None => valid st m i end.
Proof.
  induction idxs as [|idx idxs IH]; intros t m st Hwf Hne Ht Hcap; simpl.
  - exists st. split_and!; [done..|]. intros i _. done.
  - destruct (set_unsafe_ok st m t (mask_valid source idx) Hwf Ht) as (st1 & E & Hf & Hv); [apply Hcap; simpl; lia|done|].
    run E. destruct (IH (t + 1) m st1 (frame_wf _ _ _ _ Hf) Hne ltac:(lia)) as (st' & E' & Hwf' & Hv').
    { intros i Hi. apply Hcap. simpl. lia. }
    exists st'. split_and!; [done..|]. intros i Hi. rewrite Hv', Hv by done. destruct (decide (t ≤ i)) as [Hd|Hd].
    + destruct (decide (i = t)) as [->|].
      * rewrite Z.sub_diag. replace (Z.to_nat (t - (t + 1))) with 0%nat by lia. cbn [lookup list_lookup]. destruct idxs; simpl; by rewrite ?decide_False by lia.
      * replace (Z.to_nat (i - t)) with (S (Z.to_nat (i - (t + 1)))) by lia. cbn [lookup list_lookup]. destruct (idxs !! _); [|done]. by rewrite decide_True by lia.
    + rewrite decide_False by lia. destruct (idxs !! _); rewrite ?(decide_False (P := t + 1 ≤ i)) by lia; destruct ((idx :: idxs) !! _); done.
Qed.

Lemma GetIndex_Some s i x : GetIndex (Some s) (Z.of_nat i) = Ok x ↔ s !! i = Some x.
Proof. simpl. rewrite Nat2Z.id. destruct (s !! i); naive_solver. Qed.
Lemma read_indices_ok sel n : ∀ i,
  (∀ j, (j < n)%nat → ∃ x, GetIndex sel (i + Z.of_nat j) = Ok x) →
  ∃ xs, read_indices sel i n = Ok xs ∧ length xs = n ∧ ∀ j x, xs !! j = Some x → GetIndex sel (i + Z.of_nat j) = Ok x.
Proof.
  induction n as [|n IH]; intros i H; simpl; [by exists []|].
  destruct (H 0%nat ltac:(lia)) as [x E]. rewrite Z.add_0_r in E. rewrite E. simpl.
  destruct (IH (i + 1)) as (xs & Exs & Hl & Hx). { intros j Hj. replace (i + 1 + Z.of_nat j) with (i + Z.of_nat (S j)) by lia. apply H. lia. }
  rewrite Exs. simpl. eexists. split; [done|]. simpl. split; [lia|]. intros [|j] y Hj; simpl in Hj.
  - injection Hj as <-. by rewrite Z.add_0_r.
  - replace (i + Z.of_nat (S j)) with (i + 1 + Z.of_nat j) by lia. by apply Hx.
Qed.
Lemma sel_Slice_ok this sel n : ∀ i,
  (∀ j, (j < n)%nat → ∃ x y, GetIndex sel (i + Z.of_nat j) = Ok x ∧ GetIndex this x = Ok y) →
  ∃ ys, sel_Slice this sel i n = Ok ys ∧ length ys = n ∧
    ∀ j y, ys !! j = Some y → ∃ x, GetIndex sel (i + Z.of_nat j) = Ok x ∧ GetIndex this x = Ok y.
Proof.
  induction n as [|n IH]; intros i H; simpl; [by exists []|].
  destruct (H 0%nat ltac:(lia)) as (x & y & E & E'). rewrite Z.add_0_r in E. rewrite E. simpl. rewrite E'. simpl.
  destruct (IH (i + 1)) as (ys & Eys & Hl & Hy). { intros j Hj. replace (i + 1 + Z.of_nat j) with (i + Z.of_nat (S j)) by lia. apply H. lia. }
  rewrite Eys. simpl. eexists. split; [done|]. simpl. split; [lia|]. intros [|j] z Hj; simpl in Hj.
  - injection Hj as <-. rewrite Z.add_0_r. eauto.
  - replace (i + Z.of_nat (S j)) with (i + 1 + Z.of_nat j) by lia. by apply Hy.
Qed.

Section copy_lemmas.
Context (junk : byte) (junk_cell : cell).

(** An element that a copy can store. *)
Definition storable (ty : PhysicalType) (c : cell) (is_null : bool) : Prop :=
  match ty with
  | STRING => ∃ s, c = CStr s ∧ (is_null = false → Z.of_nat (length s) < MINIMUM_HEAP_SIZE)
  | LIST | ARRAY | STRUCT => False
  | _ => True
  end.

Lemma add_string_ok s : Z.of_nat (length s) < MINIMUM_HEAP_SIZE → add_string junk s = Ok s.
Proof.
  intros Hl. unfold add_string. destruct (IsInlined _); [done|].
  destruct (AddBlob_ok junk s [] ltac:(by apply Forall_nil) Hl) as (x & h & E & _ & _ & Hb & _). rewrite E. simpl. by rewrite Hb.
Qed.
Lemma copied_cell_ok ty data validity idx c :
  data_at data idx = Ok c → storable ty c (negb (mask_valid validity idx)) →
  ∃ c', copied_cell junk ty data validity idx = Ok c' ∧ (mask_valid validity idx = true → c' = c) ∧ same_kind c c'.
Proof.
  intros E Hs. pose proof (same_kind_refl c).
  destruct ty; try done; unfold copied_cell; try (rewrite E; by exists c).
  destruct Hs as (s & -> & Hl). destruct (mask_valid validity idx); simpl in *; [|by exists (CStr [])].
  rewrite E. simpl. rewrite add_string_ok by auto. by exists (CStr s).
Qed.

Lemma copy_cells_ok ty data validity idxs : ∀ t target,
  0 ≤ t → t + Z.of_nat (length idxs) ≤ Z.of_nat (length target) →
  (∀ j idx, idxs !! j = Some idx → ∃ c, data_at data idx = Ok c ∧ storable ty c (negb (mask_valid validity idx))) →
  ∃ target', copy_cells junk ty data validity idxs t target = Ok target' ∧ length target' = length target ∧
    (∀ i, Z.of_nat i < t ∨ t + Z.of_nat (length idxs) ≤ Z.of_nat i → target' !! i = target !! i) ∧
    (∀ j idx, idxs !! j = Some idx → ∃ c c', data_at data idx = Ok c ∧ target' !! Z.to_nat (t + Z.of_nat j) = Some c' ∧
       (mask_valid validity idx = true → c' = c) ∧ same_kind c c').
Proof.
  induction idxs as [|idx idxs IH]; intros t target Ht Hfit Hsrc; simpl in *; [by exists target|].
  destruct (Hsrc 0%nat idx eq_refl) as (c & Ec & Hst). destruct (copied_cell_ok ty data validity idx c Ec Hst) as (c' & Ec' & Hv & Hk).
  rewrite Ec'. cbn [mbind result_bind]. rewrite bool_decide_true by lia.
  destruct (IH (t + 1) (<[Z.to_nat t := c']> target)) as (target' & E & Hl & Hout & Hin); [lia|rewrite length_insert; lia|intros j; apply (Hsrc (S j))|].
  exists target'. rewrite length_insert in Hl. split_and!; [done|done| |].
  - intros i Hi. rewrite Hout by lia. apply list_lookup_insert_ne. lia.
  - intros [|j] idx' Hj; simpl in Hj.
    + injection Hj as <-. exists c, c'. rewrite Hout by lia. rewrite Z.add_0_r, list_lookup_insert_eq by lia. done.
    + replace (t + Z.of_nat (S j)) with (t + 1 + Z.of_nat j) by lia. by apply Hin.
Qed.

(** What a source gives: a selection, data and validity through which its rows read. *)
Definition source_of (source : Vector) (count : Z) : result (option (list Z) * list cell * option (list Z)) :=
  match source with
  | DICTIONARY_VECTOR dict_sel child => resolve child (Some dict_sel) (Z.to_nat count)
  | CONSTANT_VECTOR data validity => Ok (Some (replicate (Z.to_nat (Z.max count STANDARD_VECTOR_SIZE)) 0), [data], validity)
  | FLAT_VECTOR data validity => Ok (None, data, validity)
  end.
Lemma source_of_ok v count :
  (0 < count)%nat → (∀ r, (r < count)%nat → ∃ x, read_row v (Z.of_nat count) (Z.of_nat r) = Ok x) →
  ∃ sel data validity, source_of v (Z.of_nat count) = Ok (sel, data, validity) ∧
    ∀ r, (r < count)%nat → ∃ idx c, GetIndex sel (Z.of_nat r) = Ok idx ∧ data_at data idx = Ok c ∧
      read_row v (Z.of_nat count) (Z.of_nat r) = Ok (c, negb (mask_valid validity idx)).
Proof.
  intros H0 Hr. assert (∀ validity i, is_null_at validity i = negb (mask_valid validity i)) as Hnull by (by intros [] ?).
  destruct v as [data validity|data validity|sel child]; simpl.
  - eexists _, _, _. split; [done|]. intros r Hlt. destruct (Hr r Hlt) as [x E]. simpl in E.
    destruct (data_at data (Z.of_nat r)) as [c|] eqn:Ed; simpl in E; [|done]. exists (Z.of_nat r), c. simpl. by rewrite Ed, Hnull.
  - eexists _, _, _. split; [done|]. intros r Hlt. exists 0, data. unfold GetIndex. rewrite Nat2Z.id, lookup_replicate_2 by (unfold STANDARD_VECTOR_SIZE; lia). done.
  - destruct child as [data validity|data validity|sel' child']; try (by destruct (Hr 0%nat H0) as [x E]). simpl.
    eexists _, _, _. split; [done|]. intros r Hlt. destruct (Hr r Hlt) as [x E]. simpl in E |- *. rewrite Nat2Z.id in *.
    destruct (sel !! r) as [idx|]; simpl in *; [|done]. destruct (data_at data idx) as [c|] eqn:Ed; simpl in *; [|done].
    exists idx, c. by rewrite Hnull.
Qed.

Lemma Vector_Copy_source ty v target count source_offset target_offset :
  Vector_Copy junk ty v target count source_offset target_offset =
  (if negb (bool_decide (source_offset ≤ count))
   then Err (EAssert "VectorOperations::Copy: the source offset is past the source") else
   '(sel, data, validity) ← source_of v count;
   let copy_count := count - source_offset in
   if bool_decide (copy_count = 0) then Ok target else
   idxs ← read_indices sel source_offset (Z.to_nat copy_count);
   cells ← copy_cells junk ty data validity idxs target_offset target.1;
   match validity, target.2 with
   | None, None => Ok (cells, None)
   | _, _ =>
       mask ← with_mask (λ m, m ← EnsureWritable (target_offset + copy_count) m; copy_mask validity idxs target_offset m) target.2;
       Ok (cells, mask)
   end).
Proof. by destruct v. Qed.

Lemma read_flat data validity n r c :
  data !! r = Some c → read_row (FLAT_VECTOR data validity) n (Z.of_nat r) = Ok (c, negb (mask_valid validity (Z.of_nat r))).
Proof. intros E. simpl. unfold data_at. rewrite Nat2Z.id, E. simpl. by destruct validity. Qed.

(** The validity of the copied rows. *)
Lemma copy_validity_ok validity mask idxs (t n : nat) :
  length idxs = n →
  ∃ mask', match validity, mask with
    | None, None => Ok None
    | _, _ => with_mask (λ m, m ← EnsureWritable (Z.of_nat t + Z.of_nat n) m; copy_mask validity idxs (Z.of_nat t) m) mask
    end = Ok mask' ∧ ∀ i, 0 ≤ i → mask_valid mask' i = match idxs !! Z.to_nat (i - Z.of_nat t) with
      Some idx => if decide (Z.of_nat t ≤ i) then mask_valid validity idx else mask_valid mask i | None => mask_valid mask i end.
Proof.
  intros Hl.
  assert (∃ mask', with_mask (λ m, m ← EnsureWritable (Z.of_nat t + Z.of_nat n) m; copy_mask validity idxs (Z.of_nat t) m) mask = Ok mask' ∧
    ∀ i, 0 ≤ i → mask_valid mask' i = match idxs !! Z.to_nat (i - Z.of_nat t) with
      Some idx => if decide (Z.of_nat t ≤ i) then mask_valid validity idx else mask_valid mask i | None => mask_valid mask i end) as (mask' & Em & Hm).
  { apply (with_mask_ok _ mask (λ i b, b = match idxs !! Z.to_nat (i - Z.of_nat t) with
        Some idx => if decide (Z.of_nat t ≤ i) then mask_valid validity idx else mask_valid mask i | None => mask_valid mask i end)). intros m st Hwf Hv.
    destruct (EnsureWritable_ok st m (Z.of_nat t + Z.of_nat n) Hwf) as (m1 & st1 & E1 & Hf1 & [b Eb] & Hcap & _ & Hv1 & _). run E1.
    destruct (copy_mask_ok validity idxs (Z.of_nat t) m1 st1 (frame_wf _ _ _ _ Hf1) ltac:(by rewrite Eb) ltac:(lia)) as (st2 & E2 & Hwf2 & Hv2).
    { intros i Hi. apply Hcap. lia. }
    exists m1, st2. split_and!; [done..|]. intros i Hi. rewrite Hv2 by done. by rewrite Hv1, Hv. }
  destruct validity as [ws|], mask as [ws'|]; try (exists mask'; rewrite Em; done).
  exists None. split; [done|]. intros i _. destruct (idxs !! _); [|done]. by case_decide.
Qed.

(** Rows [source_offset ..] of the source land at [target_offset] on, and no other row of the target changes. *)
Lemma Vector_Copy_ok ty v data mask (count off t : nat) :
  (off < count)%nat → (t + (count - off) ≤ length data)%nat →
  (∀ r, (r < count)%nat → ∃ c b, read_row v (Z.of_nat count) (Z.of_nat r) = Ok (c, b) ∧ storable ty c b) →
  ∃ data' mask', Vector_Copy junk ty v (data, mask) (Z.of_nat count) (Z.of_nat off) (Z.of_nat t) = Ok (data', mask') ∧
    length data' = length data ∧
    (∀ r, (off ≤ r < count)%nat → same_row v (Z.of_nat r) (FLAT_VECTOR data' mask') (Z.of_nat (t + (r - off)))) ∧
    (∀ i, (i < t ∨ t + (count - off) ≤ i)%nat → data' !! i = data !! i ∧ mask_valid mask' (Z.of_nat i) = mask_valid mask (Z.of_nat i)).
Proof.
  intros H0 Hfit Hr. rewrite Vector_Copy_source. rewrite bool_decide_true by lia. cbn [negb].
  destruct (source_of_ok v count ltac:(lia)) as (sel & sdata & validity & Es & Hsrc); [intros r Hlt; destruct (Hr r Hlt) as (c & b & E & _); by exists (c, b)|].
  rewrite Es. cbn [mbind result_bind]. cbv zeta. rewrite bool_decide_false by lia.
  destruct (read_indices_ok sel (Z.to_nat (Z.of_nat count - Z.of_nat off)) (Z.of_nat off)) as (idxs & Ei & Hl & Hx).
  { intros j Hj. rewrite <- Nat2Z.inj_add. destruct (Hsrc (off + j)%nat ltac:(lia)) as (idx & c & E & _). by exists idx. }
  rewrite Ei. cbn [mbind result_bind].
  assert (∀ j idx, idxs !! j = Some idx → ∃ c, data_at sdata idx = Ok c ∧ storable ty c (negb (mask_valid validity idx)) ∧
    read_row v (Z.of_nat count) (Z.of_nat (off + j)) = Ok (c, negb (mask_valid validity idx))) as Hidx.
  { intros j idx Hj. pose proof (Hx j idx Hj) as Hg. rewrite <- Nat2Z.inj_add in Hg. apply lookup_lt_Some in Hj.
    destruct (Hsrc (off + j)%nat ltac:(lia)) as (idx' & c & E & Ed & Er). rewrite E in Hg. injection Hg as ->.
    destruct (Hr (off + j)%nat ltac:(lia)) as (c' & b & E' & Hst). rewrite Er in E'. injection E' as <- <-. by exists c. }
  destruct (copy_cells_ok ty sdata validity idxs (Z.of_nat t) data) as (data' & Ec & Hld & Hout & Hin); [lia|lia|naive_solver|].
  cbn [fst snd]. rewrite Ec. cbn [mbind result_bind].
  destruct (copy_validity_ok validity mask idxs t (count - off)) as (mask' & Em & Hm); [lia|].
  assert (match validity, mask with
    | None, None => Ok (data', None)
    | _, _ => mask ← with_mask (λ m, m ← EnsureWritable (Z.of_nat t + (Z.of_nat count - Z.of_nat off)) m; copy_mask validity idxs (Z.of_nat t) m) mask; Ok (data', mask)
    end = Ok (data', mask')) as ->.
  { rewrite <- Nat2Z.inj_sub by lia. destruct validity, mask; by rewrite ?Em || (by injection Em as <-). }
  exists data', mask'. split_and!; [done|done| |].
  - intros r Hrr n. destruct (lookup_lt_is_Some_2 idxs (r - off)) as [idx Hj]; [lia|].
    destruct (Hidx _ _ Hj) as (c & Ed & _ & Er), (Hin _ _ Hj) as (c0 & c' & Ed' & Ht & Hval & Hk). rewrite Ed in Ed'. injection Ed' as <-.
    replace (off + (r - off))%nat with r in Er by lia. replace (Z.to_nat (Z.of_nat t + Z.of_nat (r - off))) with (t + (r - off))%nat in Ht by lia.
    exists c, c', (negb (mask_valid validity idx)). rewrite (read_row_size v n (Z.of_nat count)), Er, (read_flat _ _ _ _ _ Ht), Hm by lia.
    replace (Z.to_nat (Z.of_nat (t + (r - off)) - Z.of_nat t)) with (r - off)%nat by lia. rewrite Hj, decide_True by lia.
    split_and!; [done|done| |done]. intros Hb. apply Hval. by destruct (mask_valid validity idx).
  - intros i Hi. split; [apply Hout; lia|]. rewrite Hm by lia. destruct (idxs !! _) as [idx|] eqn:E; [|done].
    apply lookup_lt_Some in E. case_decide; [|done]. lia.
Qed.

(** Flattening keeps every row, for at most a vector's worth of rows. *)
Lemma Normalify_ok ty v n :
  (0 < n)%nat → Z.of_nat n ≤ STANDARD_VECTOR_SIZE →
  (∀ r, (r < n)%nat → ∃ c b, read_row v (Z.of_nat n) (Z.of_nat r) = Ok (c, b) ∧ storable ty c b) →
  ∃ data mask, Normalify junk junk_cell ty n v = Ok (FLAT_VECTOR data mask) ∧
    ∀ r, (r < n)%nat → same_row v (Z.of_nat r) (FLAT_VECTOR data mask) (Z.of_nat r).
Proof.
  intros H0 Hmax Hr. destruct v as [data mask|c validity|sel child]; unfold Normalify.
  - exists data, mask. split; [done|]. intros r Hlt. destruct (Hr r Hlt) as (c & b & E & _). by eapply same_row_refl.
  - destruct (Hr 0%nat H0) as (c0 & b & E & Hst). simpl in E. injection E as <- <-.
    assert (flattens ty = Ok tt) as -> by (by destruct ty). cbn [mbind result_bind]. rewrite bool_decide_false by lia.
    assert (∀ r, (r < n)%nat → (replicate n c ++ replicate (Z.to_nat STANDARD_VECTOR_SIZE - n) junk_cell) !! r = Some c) as Hd.
    { intros r Hlt. rewrite lookup_app_l by (rewrite length_replicate; done). by apply lookup_replicate_2. }
    pose proof (same_kind_refl c). destruct (mask_valid validity 0) eqn:Ev.
    + eexists _, None. split; [done|]. intros r Hlt k. exists c, c, false. rewrite (read_flat _ _ _ _ _ (Hd r Hlt)). simpl. by rewrite Ev.
    + destruct (with_mask_ok (SetAllInvalid (Z.of_nat n)) None (λ i b, i < Z.of_nat n → b = false)) as (mask & Em & Hm).
      { intros m st Hwf _. destruct (SetAllInvalid_ok st m (Z.of_nat n) Hwf) as (m' & st' & E & Hf & Hv). exists m', st'.
        split_and!; [done|by eapply frame_wf|]. intros i Hi. by apply Hv. }
      rewrite Em. eexists _, mask. split; [done|]. intros r Hlt k. exists c, c, true.
      rewrite (read_flat _ _ _ _ _ (Hd r Hlt)), Hm by lia. simpl. by rewrite Ev.
  - destruct (Vector_Copy_ok ty (DICTIONARY_VECTOR sel child) (replicate (Z.to_nat (Z.max (Z.of_nat n) STANDARD_VECTOR_SIZE)) junk_cell) None n 0 0)
      as (data & mask & E & _ & Hrow & _); [done|rewrite length_replicate; lia|done|].
    cbv zeta. change (Z.of_nat 0) with 0 in E. rewrite E. exists data, mask. split; [done|]. intros r Hlt.
    specialize (Hrow r ltac:(lia)). by replace (0 + (r - 0))%nat with r in Hrow by lia.
Qed.

Lemma Vector_Slice_ok v n sel :
  (∀ i, i ∈ sel → ∃ x, read_row v n (Z.of_nat i) = Ok x) →
  ∃ v', Vector_Slice (Z.of_nat <$> sel) (length sel) v = Ok v' ∧ ∀ j i, sel !! j = Some i → same_row v (Z.of_nat i) v' (Z.of_nat j).
Proof.
  intros Hsel.
  assert (∀ v', (∀ j i, sel !! j = Some i → read_row v' n (Z.of_nat j) = read_row v n (Z.of_nat i)) →
    ∀ j i, sel !! j = Some i → same_row v (Z.of_nat i) v' (Z.of_nat j)) as Hsame.
  { intros v' H j i Hj k. destruct (Hsel i) as [[c b] E]; [by eapply list_elem_of_lookup_2|]. exists c, c, b.
    rewrite (read_row_size v k n), (read_row_size v' k n), (H j i Hj), E. split_and!; [done..|apply same_kind_refl]. }
  destruct v as [data validity|data validity|s child]; unfold Vector_Slice.
  - eexists. split; [done|]. apply Hsame. intros j i Hj. simpl. by rewrite Nat2Z.id, list_lookup_fmap, Hj.
  - eexists. split; [done|]. by apply Hsame.
  - assert (∀ i, i ∈ sel → ∃ x, s !! i = Some x) as Hs.
    { intros i Hi. destruct (Hsel i Hi) as [x E]. destruct child; simpl in E; try done. rewrite Nat2Z.id in E. destruct (s !! i); [eauto|done]. }
    destruct (sel_Slice_ok (Some s) (Some (Z.of_nat <$> sel)) (length sel) 0) as (ys & E & Hl & Hy).
    { intros j Hj. destruct (lookup_lt_is_Some_2 sel j Hj) as [i Hi]. destruct (Hs i) as [x Hx]; [by eapply list_elem_of_lookup_2|].
      exists (Z.of_nat i), x. rewrite Z.add_0_l, !GetIndex_Some, list_lookup_fmap, Hi. done. }
    rewrite E. eexists. split; [done|]. apply Hsame. intros j i Hj. destruct (lookup_lt_is_Some_2 ys j) as [y Hyj]; [rewrite Hl; by eapply lookup_lt_Some|].
    destruct (Hy j y Hyj) as (x & Hx & Hxy). rewrite Z.add_0_l, GetIndex_Some, list_lookup_fmap, Hj in Hx. injection Hx as <-.
    apply GetIndex_Some in Hxy. simpl. destruct child; simpl; try done. by rewrite !Nat2Z.id, Hyj, Hxy.
Qed.
End copy_lemmas.
