(* ===== verification/SortKeyOrder.v ===== *)
(** * The order of sort keys

    The byte order of the encodings of [SortKey.v] is the order of the encoded values: big-endian
    integers with the sign bit flipped, floating-point numbers through their magnitudes, strings with a
    delimiter that no byte reaches, NULLs above everything, and a descending column reversed. *)

From Stdlib Require Import Floats.SpecFloat.
From S2P Require Import Prelude TablePage TableHeap BTreePage BPlusTree GenericKey StringHeap ValidityMask SortKey.

(** ** Bytes *)

Lemma byte_of_val z : byte_val (byte_of z) = z mod 256.
Proof.
  unfold byte_val, byte_of. pose proof (Z.mod_pos_bound z 256 ltac:(lia)).
  destruct (Byte.of_N (Z.to_N (z mod 256))) as [b|] eqn:E; simpl.
  - apply Byte.to_of_N in E. lia.
  - apply Byte.of_N_None_iff in E. lia.
Qed.
Lemma byte_of_mod z z' : z mod 256 = z' mod 256 → byte_of z = byte_of z'.
Proof. unfold byte_of. by intros ->. Qed.
Lemma byte_of_byte b : byte_of (byte_val b) = b.
Proof. apply byte_val_inj. rewrite byte_of_val. apply Z.mod_small, byte_val_range. Qed.

(** The bytes of a number, most significant first. *)
Fixpoint be_bytes (n : nat) (x : Z) : list byte :=
  match n with O => [] | S n => be_bytes n (x / 256) ++ [byte_of x] end.

Lemma length_be n x : length (be_bytes n x) = n.
Proof. revert x. induction n as [|n IH]; intros x; simpl; [done|]. rewrite length_app, IH. simpl. lia. Qed.
Lemma reverse_le n x : reverse (le_bytes n x) = be_bytes n x.
Proof. revert x. induction n as [|n IH]; intros x; simpl; [done|]. by rewrite reverse_cons, IH. Qed.
Lemma be_mod n x k : be_bytes n (x + k * 256 ^ Z.of_nat n) = be_bytes n x.
Proof.
  revert x. induction n as [|n IH]; intros x; [done|]. simpl be_bytes.
  replace (256 ^ Z.of_nat (S n)) with (256 ^ Z.of_nat n * 256) by (rewrite Nat2Z.inj_succ, Z.pow_succ_r; lia).
  rewrite Z.mul_assoc, Z.div_add, IH by lia. f_equal. f_equal. apply byte_of_mod. by rewrite Z.mod_add.
Qed.
Lemma be_cons n x : be_bytes (S n) x = byte_of (x / 256 ^ Z.of_nat n) :: be_bytes n x.
Proof.
  revert x. induction n as [|n IH]; intros x.
  - simpl. by rewrite Z.div_1_r.
  - change (be_bytes (S (S n)) x) with (be_bytes (S n) (x / 256) ++ [byte_of x]). rewrite IH. simpl. f_equal.
    rewrite Nat2Z.inj_succ, Z.pow_succ_r by lia. rewrite Z.div_div by lia. done.
Qed.

Lemma bcmp_snoc a b x y :
  length a = length b → bcmp (a ++ [x]) (b ++ [y]) = match bcmp a b with Eq => byte_val x ?= byte_val y | c => c end.
Proof.
  revert b. induction a as [|z a IH]; intros [|z' b] Hl; simpl in *; try done; [by destruct (byte_val x ?= byte_val y)|].
  destruct (byte_val z ?= byte_val z'); [apply IH; lia|done..].
Qed.
(** Big-endian bytes compare as the numbers do. *)
Lemma bcmp_be n x y :
  0 ≤ x < 256 ^ Z.of_nat n → 0 ≤ y < 256 ^ Z.of_nat n → bcmp (be_bytes n x) (be_bytes n y) = (x ?= y).
Proof.
  revert x y. induction n as [|n IH]; intros x y Hx Hy; simpl.
  - symmetry. apply Z.compare_eq_iff. simpl in *. lia.
  - rewrite Nat2Z.inj_succ, Z.pow_succ_r in Hx, Hy by lia. rewrite bcmp_snoc by by rewrite !length_be.
    rewrite IH by (split; [apply Z.div_pos; lia|apply Z.div_lt_upper_bound; lia]). rewrite !byte_of_val.
    pose proof (Z.div_mod x 256). pose proof (Z.div_mod y 256). pose proof (Z.mod_pos_bound x 256). pose proof (Z.mod_pos_bound y 256).
    destruct (Z.compare_spec (x / 256) (y / 256)), (Z.compare_spec (x mod 256) (y mod 256)), (Z.compare_spec x y); done || lia.
Qed.

(** ** [BSwap] reverses the bytes *)

Lemma lor_add a b k : 0 ≤ k → 0 ≤ a < 2 ^ k → Z.lor a (b * 2 ^ k) = a + b * 2 ^ k.
Proof.
  intros Hk Ha. assert (Z.land a (b * 2 ^ k) = 0) as H.
  { apply Z.bits_inj'. intros n Hn. rewrite Z.land_spec, Z.bits_0. destruct (decide (n < k)).
    - rewrite Z.mul_pow2_bits_low by lia. apply andb_false_r.
    - destruct (decide (a = 0)) as [->|]; [by rewrite Z.bits_0|].
      rewrite (Z.bits_above_log2 a n); [done|lia|]. apply Z.log2_lt_pow2; [lia|]. apply Z.lt_le_trans with (2 ^ k); [lia|].
      apply Z.pow_le_mono_r; lia. }
  by rewrite Z.add_nocarry_lxor, Z.lxor_lor.
Qed.
Lemma land_byte x j : 0 ≤ j → Z.land x (Z.shiftl 255 j) = (x / 2 ^ j) mod 256 * 2 ^ j.
Proof.
  intros Hj. change 256 with (2 ^ 8). rewrite <- Z.shiftr_div_pow2, <- Z.land_ones, <- Z.shiftl_mul_pow2 by lia.
  apply Z.bits_inj'. intros n Hn. rewrite Z.land_spec, !Z.shiftl_spec by lia. destruct (decide (n < j)).
  - rewrite !(Z.testbit_neg_r _ (n - j)) by lia. apply andb_false_r.
  - rewrite Z.land_spec, Z.shiftr_spec by lia. by replace (n - j + j) with n by lia.
Qed.
Lemma move_right b j k : 0 ≤ k ≤ j → Z.shiftr (b * 2 ^ j) k = b * 2 ^ (j - k).
Proof.
  intros H. rewrite Z.shiftr_div_pow2 by lia. replace j with ((j - k) + k) at 1 by lia.
  by rewrite Z.pow_add_r, Z.mul_assoc, Z.div_mul by lia.
Qed.
Lemma move_left b j k : 0 ≤ j → 0 ≤ k → Z.shiftl (b * 2 ^ j) k = b * 2 ^ (j + k).
Proof. intros. by rewrite Z.shiftl_mul_pow2, <- Z.mul_assoc, <- Z.pow_add_r by lia. Qed.
Lemma le_bytes_cons n b z : 0 ≤ b < 256 → le_bytes (S n) (b + z * 256) = byte_of b :: le_bytes n z.
Proof.
  intros Hb. simpl. rewrite Z.mod_add, Z.div_add, (Z.div_small b) by lia. done.
Qed.

(** The bytes of [x] by their bit positions. *)
Definition byte_at (x j : Z) : Z := (x / 2 ^ j) mod 256.
Lemma byte_at_range x j : 0 ≤ byte_at x j < 256.
Proof. apply Z.mod_pos_bound. lia. Qed.
Lemma BSWAP_value x :
  BSWAP16 x = byte_at x 8 + byte_at x 0 * 256 ∧
  BSWAP32 x = byte_at x 24 + (byte_at x 16 + (byte_at x 8 + byte_at x 0 * 256) * 256) * 256 ∧
  BSWAP64 x = byte_at x 56 + (byte_at x 48 + (byte_at x 40 + (byte_at x 32 + (byte_at x 24 + (byte_at x 16 + (byte_at x 8 +
                byte_at x 0 * 256) * 256) * 256) * 256) * 256) * 256) * 256.
Proof.
  pose proof (byte_at_range x) as Hb. unfold BSWAP16, BSWAP32, BSWAP64, u16, u32, u64.
  change 0xff00000000000000 with (Z.shiftl 255 56). change 0x00ff000000000000 with (Z.shiftl 255 48).
  change 0x0000ff0000000000 with (Z.shiftl 255 40). change 0x000000ff00000000 with (Z.shiftl 255 32).
  change 0xff000000 with (Z.shiftl 255 24). change 0x00ff0000 with (Z.shiftl 255 16).
  change 0x0000ff00 with (Z.shiftl 255 8). change 0x000000ff with (Z.shiftl 255 0).
  rewrite !land_byte by lia. fold (byte_at x 56) (byte_at x 48) (byte_at x 40) (byte_at x 32) (byte_at x 24) (byte_at x 16) (byte_at x 8) (byte_at x 0).
  rewrite !move_right, !move_left by lia. cbn [Z.sub Z.add Z.opp Pos.add Z.pos_sub Pos.succ Pos.pred_double Z.double Z.succ_double Z.pred_double].
  pose proof (Hb 56). pose proof (Hb 48). pose proof (Hb 40). pose proof (Hb 32). pose proof (Hb 24). pose proof (Hb 16). pose proof (Hb 8). pose proof (Hb 0).
  rewrite Z.pow_0_r, !Z.mul_1_r.
  repeat match goal with |- context [Z.lor ?a (?b * 2 ^ ?k)] =>
    lazymatch a with context [Z.lor] => fail | _ => rewrite (lor_add a b k) by (simpl Z.pow; lia) end end.
  rewrite !wrap_u_small by (simpl Z.pow; lia). simpl Z.pow. lia.
Qed.
Lemma BSwap_reverses n x : n ∈ [1; 2; 4; 8]%nat → le_bytes n (BSwap n x) = be_bytes n x.
Proof.
  intros Hn. pose proof (byte_at_range x) as Hb. destruct (BSWAP_value x) as (E16 & E32 & E64).
  assert (∀ k, 0 ≤ k → byte_of (x / 256 ^ k) = byte_of (byte_at x (8 * k))) as Hbyte.
  { intros k Hk. apply byte_of_mod. unfold byte_at. rewrite Z.mod_mod by lia. rewrite Z.pow_mul_r by lia. done. }
  rewrite !elem_of_cons, elem_of_nil in Hn. destruct Hn as [->|[->|[->|[->|[]]]]].
  - done.
  - simpl BSwap. rewrite E16, !be_cons, !Hbyte by lia. rewrite !le_bytes_cons by done. reflexivity.
  - simpl BSwap. rewrite E32, !be_cons, !Hbyte by lia. rewrite !le_bytes_cons by done. reflexivity.
  - simpl BSwap. rewrite E64, !be_cons, !Hbyte by lia. rewrite !le_bytes_cons by done. reflexivity.
Qed.

(** ** Integers *)

Lemma FlipSign_add b : FlipSign b = byte_of (byte_val b + 128).
Proof. by destruct b. Qed.
Lemma EncodeSigned_be n z : n ∈ [1; 2; 4; 8]%nat → EncodeSigned n z = be_bytes n (z + 2 ^ (8 * Z.of_nat n - 1)).
Proof.
  intros Hn. unfold EncodeSigned, Store_swapped. rewrite BSwap_reverses by done.
  destruct (wrap_u_congr (8 * Z.of_nat n) z) as [k ->]; [lia|]. rewrite Z.pow_mul_r by lia. change (2 ^ 8) with 256. rewrite be_mod.
  destruct n as [|m]; [set_solver|].
  replace (2 ^ (8 * Z.of_nat (S m) - 1)) with (128 * 256 ^ Z.of_nat m).
  2:{ replace (8 * Z.of_nat (S m) - 1) with (7 + 8 * Z.of_nat m) by lia. by rewrite Z.pow_add_r, Z.pow_mul_r by lia. }
  rewrite !be_cons, be_mod, Z.div_add by lia. f_equal. rewrite FlipSign_add, byte_of_val. apply byte_of_mod.
  by rewrite Z.add_mod_idemp_l.
Qed.

(** ** Floating point *)

Section floats.
Context (mb eb : Z) (Hmb : 0 < mb) (Heb : 1 < eb).

(** A bit pattern as a signed magnitude. *)
Definition magnitude (x : Z) : Z := x mod 2 ^ (mb + eb).
Definition negative (x : Z) : bool := Z.testbit x (mb + eb).
Definition signed_magnitude (x : Z) : Z := if negative x then - magnitude x else magnitude x.
Definition inf_magnitude : Z := (2 ^ eb - 1) * 2 ^ mb.

Lemma split_magnitude x :
  let e := Z.land (Z.shiftr x mb) (2 ^ eb - 1) in let m := Z.land x (2 ^ mb - 1) in
  0 ≤ e < 2 ^ eb ∧ 0 ≤ m < 2 ^ mb ∧ magnitude x = e * 2 ^ mb + m.
Proof.
  cbv zeta.
  replace (2 ^ eb - 1) with (Z.ones eb) by (rewrite Z.ones_equiv; lia). replace (2 ^ mb - 1) with (Z.ones mb) by (rewrite Z.ones_equiv; lia).
  rewrite !Z.land_ones, Z.shiftr_div_pow2 by lia. unfold magnitude.
  pose proof (Z.mod_pos_bound (x / 2 ^ mb) (2 ^ eb) ltac:(lia)). pose proof (Z.mod_pos_bound x (2 ^ mb) ltac:(lia)).
  split_and!; try lia. rewrite Z.pow_add_r, Z.rem_mul_r by lia. lia.
Qed.

(** The number of a pattern that is not a NaN. *)
Lemma float_of_bits_cases x :
  let f := float_of_bits mb eb x in
  (magnitude x = 0 ∧ f = S754_zero (negative x)) ∨
  (0 < magnitude x < inf_magnitude ∧ ∃ p e, f = S754_finite (negative x) p e ∧ 
      (Z.pos p < 2 ^ (mb + 1)) ∧ 1 - (2 ^ (eb - 1) - 1 + mb) ≤ e ∧
      (e ≠ 1 - (2 ^ (eb - 1) - 1 + mb) → 2 ^ mb ≤ Z.pos p) ∧
      magnitude x = (e - (1 - (2 ^ (eb - 1) - 1 + mb))) * 2 ^ mb + Z.pos p) ∨
  (magnitude x = inf_magnitude ∧ f = S754_infinity (negative x)) ∨
  (inf_magnitude < magnitude x ∧ f = S754_nan).
Proof.
  destruct (split_magnitude x) as (He & Hm & HM). cbv zeta in *. unfold float_of_bits. fold (negative x).
  set (e := Z.land (Z.shiftr x mb) (2 ^ eb - 1)) in *. set (m := Z.land x (2 ^ mb - 1)) in *. unfold inf_magnitude.
  assert (0 < 2 ^ mb) by lia. assert (4 ≤ 2 ^ eb) by (change 4 with (2 ^ 2); apply Z.pow_le_mono_r; lia).
  assert (2 ^ (mb + 1) = 2 * 2 ^ mb) as E1 by (rewrite Z.pow_add_r; lia).
  case_bool_decide as H1; [case_bool_decide|].
  - right. right. left. split; [nia|done].
  - right. right. right. split; [nia|done].
  - case_bool_decide as H2.
    + destruct m as [|p|p] eqn:Em; [left; split; [nia|done]| |lia]. right. left. split; [nia|].
      exists p, (1 - (2 ^ (eb - 1) - 1 + mb)). split_and!; [done|lia|lia|lia|nia].
    + destruct (m + 2 ^ mb) as [|p|p] eqn:Em; [lia| |lia]. right. left. split; [nia|].
      exists p, (e - (2 ^ (eb - 1) - 1 + mb)). split_and!; [done|lia|lia|lia|nia].
Qed.

(** Numbers compare as their signed magnitudes. *)
Lemma SFcompare_magnitude x y :
  magnitude x ≤ inf_magnitude → magnitude y ≤ inf_magnitude →
  SFcompare (float_of_bits mb eb x) (float_of_bits mb eb y) = Some (signed_magnitude x ?= signed_magnitude y).
Proof.
  intros Hx Hy. unfold signed_magnitude.
  assert (0 < inf_magnitude) as Hinf.
  { unfold inf_magnitude. assert (4 ≤ 2 ^ eb) by (change 4 with (2 ^ 2); apply Z.pow_le_mono_r; lia). assert (0 < 2 ^ mb) by lia. nia. }
  destruct (float_of_bits_cases x) as [[Mx ->]|[(Mx & p & e & -> & Hp & He & Hn & Ex)|[[Mx ->]|[? _]]]]; [| | |lia];
  (destruct (float_of_bits_cases y) as [[My ->]|[(My & p' & e' & -> & Hp' & He' & Hn' & Ey)|[[My ->]|[? _]]]]; [| | |lia]);
  destruct (negative x), (negative y); cbn [SFcompare]; f_equal;
  try (symmetry; first [apply Z.compare_eq_iff; lia | apply Z.compare_lt_iff; lia | apply Z.compare_gt_iff; lia]).
  all: rewrite Z.pow_add_r in Hp, Hp' by lia; set (bias := 1 - _) in *; change (2 ^ 1) with 2 in *.
  all: assert (e < e' → magnitude x < magnitude y) by (intros; specialize (Hn' ltac:(lia)); nia).
  all: assert (e' < e → magnitude y < magnitude x) by (intros; specialize (Hn ltac:(lia)); nia).
  all: destruct (Z.compare_spec e e') as [->|?|?].
  all: try (symmetry; first [apply Z.compare_lt_iff; lia | apply Z.compare_gt_iff; lia]).
  all: change (Pos.compare_cont Eq p p') with (p ?= p')%positive; destruct (Pos.compare_spec p p') as [->|?|?]; simpl;
    symmetry; first [apply Z.compare_eq_iff; lia | apply Z.compare_lt_iff; lia | apply Z.compare_gt_iff; lia].
Qed.

Lemma bits_split x : 0 ≤ x < 2 ^ (mb + eb + 1) → x = magnitude x + (if negative x then 2 ^ (mb + eb) else 0).
Proof.
  intros Hx. unfold magnitude, negative. rewrite Z.testbit_eqb by lia. rewrite Z.pow_add_r in Hx by lia. change (2 ^ 1) with 2 in Hx.
  pose proof (Z.div_mod x (2 ^ (mb + eb)) ltac:(lia)) as E. 
  assert (0 ≤ x / 2 ^ (mb + eb) < 2) as Hq by (split; [apply Z.div_pos; lia|apply Z.div_lt_upper_bound; lia]).
  destruct (Z.eqb_spec (x / 2 ^ (mb + eb) mod 2) 1) as [E1|E1]; rewrite Z.mod_small in E1 by lia.
  - lia.
  - assert (x / 2 ^ (mb + eb) = 0) as E0 by lia. rewrite E0 in E. lia.
Qed.

(** The code both encoders compute. *)
Definition float_code (x : Z) : Z :=
  if bool_decide (magnitude x = 0) then 2 ^ (mb + eb)
  else if bool_decide (magnitude x = inf_magnitude) then (if negative x then 0 else 2 ^ (mb + eb + 1) - 2)
  else if negative x then 2 ^ (mb + eb) - 1 - magnitude x else 2 ^ (mb + eb) + magnitude x.

Lemma inf_magnitude_bounds : 0 < inf_magnitude ≤ 2 ^ (mb + eb) - 2.
Proof.
  unfold inf_magnitude. rewrite Z.pow_add_r by lia. assert (4 ≤ 2 ^ eb) by (change 4 with (2 ^ 2); apply Z.pow_le_mono_r; lia).
  assert (2 ≤ 2 ^ mb) by (change 2 with (2 ^ 1) at 1; apply Z.pow_le_mono_r; lia). nia.
Qed.
Lemma magnitude_nonneg x : 0 ≤ magnitude x.
Proof. apply Z.mod_pos_bound. lia. Qed.
Lemma float_code_order x y :
  magnitude x ≤ inf_magnitude → magnitude y ≤ inf_magnitude →
  (float_code x ?= float_code y) = (signed_magnitude x ?= signed_magnitude y).
Proof.
  intros Hx Hy. pose proof inf_magnitude_bounds as Hi. pose proof (magnitude_nonneg x). pose proof (magnitude_nonneg y).
  assert (2 ^ (mb + eb + 1) = 2 * 2 ^ (mb + eb)) as E by (rewrite (Z.pow_add_r 2 (mb + eb) 1); lia).
  unfold float_code, signed_magnitude. rewrite E. clear E.
  destruct (negative x), (negative y); repeat case_bool_decide;
    match goal with |- (?a ?= ?b) = (?c ?= ?d) => destruct (Z.compare_spec a b), (Z.compare_spec c d) end; done || lia.
Qed.
Lemma float_code_range x : magnitude x ≤ inf_magnitude → 0 ≤ float_code x < 2 ^ (mb + eb + 1) - 1.
Proof.
  intros Hx. pose proof inf_magnitude_bounds as Hi. pose proof (magnitude_nonneg x).
  assert (2 ^ (mb + eb + 1) = 2 * 2 ^ (mb + eb)) as E by (rewrite (Z.pow_add_r 2 (mb + eb) 1); lia).
  unfold float_code. rewrite E. clear E. destruct (negative x); repeat case_bool_decide; lia.
Qed.
Lemma SFltb_magnitude x y :
  magnitude x ≤ inf_magnitude → magnitude y ≤ inf_magnitude →
  SFltb (float_of_bits mb eb x) (float_of_bits mb eb y) = bool_decide (signed_magnitude x < signed_magnitude y) ∧
  SFeqb (float_of_bits mb eb x) (float_of_bits mb eb y) = bool_decide (signed_magnitude x = signed_magnitude y).
Proof.
  intros Hx Hy. unfold SFltb, SFeqb. rewrite SFcompare_magnitude by done.
  destruct (Z.compare_spec (signed_magnitude x) (signed_magnitude y)); repeat case_bool_decide; done || lia.
Qed.
End floats.

(** The flag tests of the encoders, on a pattern [x]. *)
Lemma EncodeFloat_code x :
  0 ≤ x < 2 ^ 32 → magnitude 23 8 x ≤ inf_magnitude 23 8 → EncodeFloat x = float_code 23 8 x.
Proof.
  intros Hx HM. pose proof (bits_split 23 8 ltac:(lia) ltac:(lia) x Hx) as E. pose proof (magnitude_nonneg 23 8 ltac:(lia) ltac:(lia) x) as H0.
  destruct (SFltb_magnitude 23 8 ltac:(lia) ltac:(lia) x 0) as [_ Ez]; [done|done|].
  destruct (SFltb_magnitude 23 8 ltac:(lia) ltac:(lia) 0x7f7fffff x) as [Ep _]; [done|done|].
  destruct (SFltb_magnitude 23 8 ltac:(lia) ltac:(lia) x 0xff7fffff) as [En _]; [done|done|].
  unfold EncodeFloat, float_code, FLT_MAX. change (SFopp (float32 0x7f7fffff)) with (float32 0xff7fffff).
  change (S754_zero false) with (float32 0). unfold float32. rewrite Ez, Ep, En. clear Ez Ep En.
  change (signed_magnitude 23 8 0) with 0. change (signed_magnitude 23 8 0x7f7fffff) with 0x7f7fffff.
  change (signed_magnitude 23 8 0xff7fffff) with (- 0x7f7fffff). change (inf_magnitude 23 8) with 0x7f800000 in *.
  unfold signed_magnitude. change (23 + 8) with 31 in *. change (Z.lor 0 (Z.shiftl 1 31)) with (2 ^ 31).
  assert (Z.land x (Z.shiftl 1 31) = 0 ↔ negative 23 8 x = false) as Hneg.
  { unfold negative. change (23 + 8) with 31. rewrite Z.shiftl_1_l. split.
    - intros H. apply (f_equal (λ z, Z.testbit z 31)) in H. rewrite Z.land_spec, Z.pow2_bits_true, Z.bits_0, andb_true_r in H by lia. done.
    - intros H. apply Z.bits_inj'. intros n Hn. rewrite Z.land_spec, Z.bits_0. destruct (decide (n = 31)) as [->|]; [by rewrite H|].
      rewrite Z.pow2_bits_false by lia. apply andb_false_r. }
  rewrite (bool_decide_ext _ _ Hneg). unfold u32, wrap_u.
  destruct (negative 23 8 x) eqn:Es; repeat (case_bool_decide; try lia).
  - unfold Z.lnot. rewrite <- (Z.mod_add _ 1) by lia. rewrite Z.mod_small; simpl Z.pow in *; lia.
  - pose proof (lor_add x 1 31 ltac:(lia) ltac:(lia)) as Hl. change (1 * 2 ^ 31) with (Z.shiftl 1 31) in Hl.
    rewrite Hl. change (Z.shiftl 1 31) with (2 ^ 31). lia.
Qed.
Lemma EncodeDouble_code x :
  0 ≤ x < 2 ^ 64 → magnitude 52 11 x ≤ inf_magnitude 52 11 → EncodeDouble x = float_code 52 11 x.
Proof.
  intros Hx HM. pose proof (bits_split 52 11 ltac:(lia) ltac:(lia) x Hx) as E. pose proof (magnitude_nonneg 52 11 ltac:(lia) ltac:(lia) x) as H0.
  destruct (SFltb_magnitude 52 11 ltac:(lia) ltac:(lia) x 0) as [_ Ez]; [done|done|].
  destruct (SFltb_magnitude 52 11 ltac:(lia) ltac:(lia) 0x7fefffffffffffff x) as [Ep _]; [done|done|].
  destruct (SFltb_magnitude 52 11 ltac:(lia) ltac:(lia) x 0xffefffffffffffff) as [En _]; [done|done|].
  unfold EncodeDouble, float_code, DBL_MAX. change (SFopp (float64 0x7fefffffffffffff)) with (float64 0xffefffffffffffff).
  change (S754_zero false) with (float64 0). unfold float64. rewrite Ez, Ep, En. clear Ez Ep En.
  change (signed_magnitude 52 11 0) with 0. change (signed_magnitude 52 11 0x7fefffffffffffff) with 0x7fefffffffffffff.
  change (signed_magnitude 52 11 0xffefffffffffffff) with (- 0x7fefffffffffffff). change (inf_magnitude 52 11) with 0x7ff0000000000000 in *.
  unfold signed_magnitude. change (52 + 11) with 63 in *. unfold u64, wrap_u. simpl Z.pow in *.
  destruct (negative 52 11 x) eqn:Es; repeat (case_bool_decide; try lia).
  - unfold Z.lnot. rewrite <- (Z.mod_add _ 1) by lia. rewrite Z.mod_small; lia.
  - rewrite Z.mod_small; lia.
Qed.

(** ** What ORDER BY means *)

(** Signedness and width of the integer types. *)
Definition int_kind (ty : PhysicalType) : option (bool * nat) :=
  match ty with
  | TINYINT => Some (true, 1%nat) | SMALLINT => Some (true, 2%nat) | INTEGER => Some (true, 4%nat) | BIGINT => Some (true, 8%nat)
  | UTINYINT => Some (false, 1%nat) | USMALLINT => Some (false, 2%nat) | UINTEGER => Some (false, 4%nat) | UBIGINT => Some (false, 8%nat)
  | _ => None
  end.
Definition int_max (k : bool * nat) : Z := if k.1 then 2 ^ (8 * Z.of_nat k.2 - 1) - 1 else 2 ^ (8 * Z.of_nat k.2) - 1.
Definition int_min (k : bool * nat) : Z := if k.1 then - 2 ^ (8 * Z.of_nat k.2 - 1) else 0.

(** The elements of a column of this type that can be ordered: numbers in range that are not NaN, strings
    without the byte [0xff]. *)
Definition orderable (ty : PhysicalType) (c : cell) : Prop :=
  match ty, c with
  | FLOAT, CNum x => 0 ≤ x < 2 ^ 32 ∧ float32 x ≠ S754_nan
  | DOUBLE, CNum x => 0 ≤ x < 2 ^ 64 ∧ float64 x ≠ S754_nan
  | STRING, CStr s => Byte.xff ∉ s
  | _, CNum z => ∃ k, int_kind ty = Some k ∧ int_min k ≤ z ≤ int_max k
  | _, _ => False
  end.
Definition cell_cmp (ty : PhysicalType) (a b : cell) : comparison :=
  match a, b with
  | CNum x, CNum y =>
      match ty with
      | FLOAT => default Eq (SFcompare (float32 x) (float32 y))
      | DOUBLE => default Eq (SFcompare (float64 x) (float64 y))
      | _ => x ?= y
      end
  | CStr s, CStr t => bcmp s t
  | _, _ => Eq
  end.
(** NULLs last in ascending order and first in descending order. *)
Definition value_cmp (ty : PhysicalType) (o : OrderType) (a b : option cell) : comparison :=
  let c := match a, b with
           | None, None => Eq | None, Some _ => Gt | Some _, None => Lt
           | Some x, Some y => cell_cmp ty x y
           end in
  if bool_decide (o = DESCENDING) then CompOpp c else c.
Fixpoint order_by (schema : list (PhysicalType * OrderType)) (a b : list (option cell)) : comparison :=
  match schema, a, b with
  | (ty, o) :: schema, x :: a, y :: b => match value_cmp ty o x y with Eq => order_by schema a b | c => c end
  | _, _, _ => Eq
  end.

(** The key of a row. *)
Definition encode_value (ty : PhysicalType) (o : OrderType) (x : option cell) : result (list byte) :=
  EncodeOneRow ty (bool_decide (o = DESCENDING)) (default inhabitant x) (bool_decide (x = None)).
Fixpoint encode_row (schema : list (PhysicalType * OrderType)) (row : list (option cell)) : result (list byte) :=
  match schema, row with
  | (ty, o) :: schema, x :: row => k ← encode_value ty o x; ks ← encode_row schema row; Ok (k ++ ks)
  | _, _ => Ok []
  end.

(** The one value of an integer type whose key is that of NULL. *)
Definition collides_with_null (ty : PhysicalType) (c : cell) : Prop :=
  ∃ k, int_kind ty = Some k ∧ c = CNum (int_max k).
#[global] Instance collides_with_null_dec ty c : Decision (collides_with_null ty c).
Proof.
  unfold collides_with_null. destruct (int_kind ty) as [k|]; [|right; naive_solver].
  destruct c as [z|]; [|right; naive_solver]. destruct (decide (z = int_max k)) as [->|]; [left; eauto|right; naive_solver].
Defined.
(** A row with the greatest integers of its columns read as NULL. *)
Definition null_max (schema : list (PhysicalType * OrderType)) (row : list (option cell)) : list (option cell) :=
  zip_with (λ tyo x, x ≫= λ c, if decide (collides_with_null tyo.1 c) then None else Some c) schema row.
Definition comparable (ty : PhysicalType) (x y : option cell) : Prop :=
  match x, y with
  | None, Some c | Some c, None => ¬ collides_with_null ty c
  | _, _ => True
  end.

(** ** Keys that decide an order whatever follows them *)

Definition diverge (c : comparison) (a b : list byte) : Prop :=
  ∃ p x y a' b', a = p ++ x :: a' ∧ b = p ++ y :: b' ∧ x ≠ y ∧ (byte_val x ?= byte_val y) = c.
Definition decides (c : comparison) (a b : list byte) : Prop := match c with Eq => a = b | _ => diverge c a b end.

Lemma diverge_cons c z a b : diverge c a b → diverge c (z :: a) (z :: b).
Proof. intros (p & x & y & a' & b' & -> & -> & ?). by exists (z :: p), x, y, a', b'. Qed.
Lemma decides_cons c z a b : decides c a b → decides c (z :: a) (z :: b).
Proof. destruct c; simpl; [by intros ->|apply diverge_cons..]. Qed.
Lemma diverge_head x y a b : x ≠ y → diverge (byte_val x ?= byte_val y) (x :: a) (y :: b).
Proof. intros H. by exists [], x, y, a, b. Qed.
Lemma decides_app c a b r r' : decides c a b → bcmp (a ++ r) (b ++ r') = match c with Eq => bcmp r r' | _ => c end.
Proof.
  assert (∀ p l l', bcmp (p ++ l) (p ++ l') = bcmp l l') as Hpre.
  { intros p l l'. induction p as [|w p IH]; simpl; [done|]. by rewrite Z.compare_refl. }
  destruct c; simpl; [intros ->; apply Hpre| |].
  all: intros (p & x & y & a' & b' & -> & -> & _ & E); rewrite <- !(assoc_L (++)), Hpre; simpl; by rewrite E.
Qed.
Lemma decides_same_length a b : length a = length b → decides (bcmp a b) a b.
Proof.
  revert b. induction a as [|x a IH]; intros [|y b] Hl; try done. simpl.
  destruct (Z.compare_spec (byte_val x) (byte_val y)) as [E|E|E].
  - apply byte_val_inj in E as ->. apply decides_cons, IH. simpl in Hl. lia.
  - pose proof (diverge_head x y a b) as H. apply Z.compare_lt_iff in E. rewrite E in H. apply H. intros ->. by rewrite Z.compare_refl in E.
  - pose proof (diverge_head x y a b) as H. apply Z.compare_gt_iff in E. rewrite E in H. apply H. intros ->. by rewrite Z.compare_refl in E.
Qed.
(** Complementing every byte reverses the order. *)
Lemma complement_val b : byte_val (complement b) = 255 - byte_val b.
Proof. by destruct b. Qed.
Lemma decides_complement c a b : decides c a b → decides (CompOpp c) (map complement a) (map complement b).
Proof.
  assert (∀ c, diverge c a b → diverge (CompOpp c) (map complement a) (map complement b)) as H.
  { intros d (p & x & y & a' & b' & -> & -> & Hne & <-). rewrite !map_app. simpl. exists (map complement p). eexists _, _, _, _. split_and!; [done..| |].
    - intros E%(f_equal byte_val). rewrite !complement_val in E. apply Hne, byte_val_inj. lia.
    - rewrite !complement_val. destruct (Z.compare_spec (byte_val x) (byte_val y)), (Z.compare_spec (255 - byte_val x) (255 - byte_val y)); done || lia. }
  destruct c; simpl; [by intros ->|apply H..].
Qed.

(** ** The encoding of one value *)

(** Numbers are a code of fixed width. *)
Definition number_width (ty : PhysicalType) : nat :=
  match ty with
  | TINYINT | UTINYINT => 1 | SMALLINT | USMALLINT => 2 | INTEGER | UINTEGER | FLOAT => 4 | BIGINT | UBIGINT | DOUBLE => 8 | _ => 0
  end.
Definition number_code (ty : PhysicalType) (z : Z) : Z :=
  match ty with
  | FLOAT => EncodeFloat z | DOUBLE => EncodeDouble z
  | _ => match int_kind ty with Some (true, n) => z + 2 ^ (8 * Z.of_nat n - 1) | _ => z end
  end.

Lemma finite_magnitude mb eb x :
  0 < mb → 1 < eb → float_of_bits mb eb x ≠ S754_nan → magnitude mb eb x ≤ inf_magnitude mb eb.
Proof. intros ?? Hn. pose proof (inf_magnitude_bounds mb eb). destruct (float_of_bits_cases mb eb ltac:(lia) ltac:(lia) x) as [[? _]|[[? _]|[[? _]|[_ ?]]]]; done || lia. Qed.

(** The code of a number: how it is stored, its range, its order, and that only the greatest integer has
    all bits set. *)
Record coded (ty : PhysicalType) (z z' : Z) : Prop := {
  coded_store : op_Encode ty (CNum z) = Ok (be_bytes (number_width ty) (number_code ty z));
  coded_null : op_EncodeNull ty = Ok (replicate (number_width ty) Byte.xff);
  coded_range : 0 ≤ number_code ty z < 256 ^ Z.of_nat (number_width ty);
  coded_order : (number_code ty z ?= number_code ty z') = cell_cmp ty (CNum z) (CNum z');
  coded_top : ¬ collides_with_null ty (CNum z) → number_code ty z < 256 ^ Z.of_nat (number_width ty) - 1 }.

Lemma int_coded ty s n z z' :
  n ∈ [1; 2; 4; 8]%nat → int_kind ty = Some (s, n) → int_min (s, n) ≤ z ≤ int_max (s, n) → coded ty z z'.
Proof.
  intros Hn Hk Hr.
  assert (op_Encode ty (CNum z) = Ok (if s then EncodeSigned n z else Store_swapped n z) ∧ op_EncodeNull ty = Ok (replicate n Byte.xff) ∧
    number_width ty = n ∧ (∀ z, number_code ty z = if s then z + 2 ^ (8 * Z.of_nat n - 1) else z) ∧
    cell_cmp ty (CNum z) (CNum z') = (z ?= z')) as (E1 & E2 & E3 & E4 & E5).
  { destruct ty; try done; injection Hk as <- <-; done. }
  unfold int_min, int_max in Hr. cbn [fst snd] in Hr.
  assert (256 ^ Z.of_nat n = 2 ^ (8 * Z.of_nat n)) as E8 by (by rewrite Z.pow_mul_r by lia).
  assert (0 < Z.of_nat n) as Hpos by (rewrite !elem_of_cons, elem_of_nil in Hn; lia).
  assert (2 ^ (8 * Z.of_nat n) = 2 * 2 ^ (8 * Z.of_nat n - 1)) as Ed by (rewrite <- (Z.pow_succ_r 2) by lia; f_equal; lia).
  split; rewrite ?E1, ?E2, ?E3, ?E4, ?E5, ?E8.
  - f_equal. destruct s; [by apply EncodeSigned_be|]. by apply BSwap_reverses.
  - done.
  - destruct s; lia.
  - destruct s; [|done]. rewrite !(Z.add_comm _ (2 ^ _)). apply Z.add_compare_mono_l.
  - intros Hc. assert (z ≠ int_max (s, n)) as Hne by (intros ->; apply Hc; by exists (s, n)).
    unfold int_max in Hne. cbn [fst snd] in Hne. destruct s; lia.
Qed.
Lemma number_coded ty z z' : orderable ty (CNum z) → orderable ty (CNum z') → coded ty z z'.
Proof.
  destruct ty; intros Hz Hz'; simpl in Hz, Hz'; try (by destruct Hz as (? & ? & _)); try done.
  1-8: destruct Hz as ([s n] & Hk & Hr); eapply int_coded; [|done|done]; injection Hk as <- <-; set_solver.
  all: destruct Hz as [Hr Hn], Hz' as [Hr' Hn']; apply finite_magnitude in Hn; [|lia..]; apply finite_magnitude in Hn'; [|lia..].
  - pose proof (float_code_range 23 8 ltac:(lia) ltac:(lia) z Hn) as Hc.
    assert (number_code FLOAT z = float_code 23 8 z ∧ number_code FLOAT z' = float_code 23 8 z') as [E E'] by (split; by apply EncodeFloat_code).
    split; rewrite ?E, ?E'.
    + cbn [op_Encode EncodeData number_width]. rewrite <- EncodeFloat_code by done. unfold Store_swapped. rewrite BSwap_reverses by set_solver. reflexivity.
    + reflexivity.
    + change (256 ^ Z.of_nat (number_width FLOAT)) with (2 ^ (23 + 8 + 1)). lia.
    + cbn [cell_cmp]. unfold float32. rewrite SFcompare_magnitude by (done || lia). apply float_code_order; done || lia.
    + intros _. change (256 ^ Z.of_nat (number_width FLOAT)) with (2 ^ (23 + 8 + 1)). lia.
  - pose proof (float_code_range 52 11 ltac:(lia) ltac:(lia) z Hn) as Hc.
    assert (number_code DOUBLE z = float_code 52 11 z ∧ number_code DOUBLE z' = float_code 52 11 z') as [E E'] by (split; by apply EncodeDouble_code).
    split; rewrite ?E, ?E'.
    + cbn [op_Encode EncodeData number_width]. rewrite <- EncodeDouble_code by done. unfold Store_swapped. rewrite BSwap_reverses by set_solver. reflexivity.
    + reflexivity.
    + change (256 ^ Z.of_nat (number_width DOUBLE)) with (2 ^ (52 + 11 + 1)). lia.
    + cbn [cell_cmp]. unfold float64. rewrite SFcompare_magnitude by (done || lia). apply float_code_order; done || lia.
    + intros _. change (256 ^ Z.of_nat (number_width DOUBLE)) with (2 ^ (52 + 11 + 1)). lia.
Qed.

Lemma be_ones n : replicate n Byte.xff = be_bytes n (256 ^ Z.of_nat n - 1).
Proof.
  induction n as [|n IH]; [done|]. rewrite be_cons. cbn [replicate]. rewrite Nat2Z.inj_succ, Z.pow_succ_r by lia.
  replace (256 * 256 ^ Z.of_nat n - 1) with (256 ^ Z.of_nat n - 1 + 255 * 256 ^ Z.of_nat n) by lia.
  rewrite be_mod, Z.div_add, Z.div_small, <- IH by lia. done.
Qed.
Lemma decides_be n x y :
  0 ≤ x < 256 ^ Z.of_nat n → 0 ≤ y < 256 ^ Z.of_nat n → decides (x ?= y) (be_bytes n x) (be_bytes n y).
Proof. intros. rewrite <- (bcmp_be n) by done. apply decides_same_length. by rewrite !length_be. Qed.

Definition string_key (s : list byte) : list byte := ((λ b, byte_of (byte_val b + 1)) <$> s) ++ [STRING_DELIMITER].
Lemma string_key_decides s t : Byte.xff ∉ s → Byte.xff ∉ t → decides (bcmp s t) (string_key s) (string_key t).
Proof.
  assert (∀ b, Byte.xff ≠ b → byte_val (byte_of (byte_val b + 1)) = byte_val b + 1) as Hb.
  { intros b Hb. rewrite byte_of_val. pose proof (byte_val_range b). apply Z.mod_small.
    assert (byte_val b ≠ 255) by (intros E; apply Hb; by apply byte_val_inj). lia. }
  assert (byte_val STRING_DELIMITER = 0) as H0 by done.
  revert t. induction s as [|x s IH]; intros [|y t] Hs Ht; rewrite ?not_elem_of_cons in *; unfold string_key; simpl.
  - done.
  - destruct Ht as [Hy _]. pose proof (Hb y Hy). pose proof (byte_val_range y).
    assert (diverge Lt [STRING_DELIMITER] (byte_of (byte_val y + 1) :: ((λ b, byte_of (byte_val b + 1)) <$> t) ++ [STRING_DELIMITER])); [|done].
    replace Lt with (byte_val STRING_DELIMITER ?= byte_val (byte_of (byte_val y + 1))) by (apply Z.compare_lt_iff; lia).
    apply diverge_head. intros E%(f_equal byte_val). lia.
  - destruct Hs as [Hx _]. pose proof (Hb x Hx). pose proof (byte_val_range x).
    assert (diverge Gt (byte_of (byte_val x + 1) :: ((λ b, byte_of (byte_val b + 1)) <$> s) ++ [STRING_DELIMITER]) [STRING_DELIMITER]); [|done].
    replace Gt with (byte_val (byte_of (byte_val x + 1)) ?= byte_val STRING_DELIMITER) by (apply Z.compare_gt_iff; lia).
    apply diverge_head. intros E%(f_equal byte_val). lia.
  - destruct Hs as [Hx Hs], Ht as [Hy Ht]. pose proof (Hb x Hx) as Ex. pose proof (Hb y Hy) as Ey.
    assert (∀ c, c ≠ Eq → (byte_val x ?= byte_val y) = c →
      diverge c (byte_of (byte_val x + 1) :: string_key s) (byte_of (byte_val y + 1) :: string_key t)) as Hd.
    { intros c Hc E. replace c with (byte_val (byte_of (byte_val x + 1)) ?= byte_val (byte_of (byte_val y + 1))).
      - apply diverge_head. intros E'%(f_equal byte_val). apply Hc. rewrite <- E. apply Z.compare_eq_iff. lia.
      - rewrite Ex, Ey, <- E, !(Z.add_comm _ 1). apply Z.add_compare_mono_l. }
    destruct (byte_val x ?= byte_val y) eqn:E; [|by apply Hd..].
    apply Z.compare_eq_iff, byte_val_inj in E as ->. apply decides_cons. by apply IH.
Qed.

(** The types a sort key can be built from. *)
Definition sortable (ty : PhysicalType) : bool := match ty with STRUCT | LIST | ARRAY | UNKNOWN => false | _ => true end.
Definition value_ok (ty : PhysicalType) (x : option cell) : Prop := match x with Some c => orderable ty c | None => True end.

Lemma ascending_decides ty x y :
  sortable ty = true → value_ok ty x → value_ok ty y → comparable ty x y →
  ∃ kx ky, encode_value ty ASCENDING x = Ok kx ∧ encode_value ty ASCENDING y = Ok ky ∧ decides (value_cmp ty ASCENDING x y) kx ky.
Proof.
  intros Hty Hx Hy Hc. unfold encode_value, EncodeOneRow, value_cmp. rewrite (bool_decide_false (ASCENDING = DESCENDING)) by done.
  assert (∀ z, orderable ty (CNum z) → ¬ collides_with_null ty (CNum z) →
    ∃ k, op_Encode ty (CNum z) = Ok k ∧ op_EncodeNull ty = Ok (replicate (number_width ty) Byte.xff) ∧
      diverge Lt k (replicate (number_width ty) Byte.xff) ∧ diverge Gt (replicate (number_width ty) Byte.xff) k) as Hnull.
  { intros z Hz Hn. destruct (number_coded ty z z Hz Hz) as [E1 E2 Hr _ Ht]. specialize (Ht Hn). eexists. split_and!; [done..| |]; rewrite be_ones.
    - pose proof (decides_be (number_width ty) (number_code ty z) (256 ^ Z.of_nat (number_width ty) - 1) ltac:(lia) ltac:(lia)) as H.
      by rewrite (proj2 (Z.compare_lt_iff _ _) Ht) in H.
    - pose proof (decides_be (number_width ty) (256 ^ Z.of_nat (number_width ty) - 1) (number_code ty z) ltac:(lia) ltac:(lia)) as H.
      by rewrite (proj2 (Z.compare_gt_iff _ _) Ht) in H. }
  assert (∀ s, orderable ty (CStr s) → ty = STRING ∧ Byte.xff ∉ s) as Hstr by (intros s Hs; destruct ty; done).
  destruct x as [[z|s]|], y as [[z'|t]|]; cbn [value_ok comparable] in Hx, Hy, Hc; cbn [from_option id];
    rewrite ?(bool_decide_false (Some _ = None)) by done; rewrite ?(bool_decide_true (None = None)) by done.
  - destruct (number_coded ty z z' Hx Hy) as [E1 _ Hr Ho _], (number_coded ty z' z Hy Hx) as [E1' _ Hr' _ _].
    rewrite E1, E1'. eexists _, _. split_and!; [done..|].
    rewrite <- Ho. by apply decides_be.
  - destruct (Hstr t Hy) as [-> _]. by destruct Hx as (? & ? & _).
  - destruct (Hnull z Hx Hc) as (k & -> & -> & H & _). by exists k, (replicate (number_width ty) Byte.xff).
  - destruct (Hstr s Hx) as [-> _]. by destruct Hy as (? & ? & _).
  - destruct (Hstr s Hx) as [-> Hs], (Hstr t Hy) as [_ Ht]. eexists _, _. split_and!; [done..|]. by apply decides_cons, string_key_decides.
  - destruct (Hstr s Hx) as [-> Hs]. eexists _, _. split_and!; [done..|]. apply (diverge_head (byte_of 1) (byte_of 2)). done.
  - destruct (Hnull z' Hy Hc) as (k & -> & -> & _ & H). by exists (replicate (number_width ty) Byte.xff), k.
  - destruct (Hstr t Hy) as [-> Ht]. eexists _, _. split_and!; [done..|]. apply (diverge_head (byte_of 2) (byte_of 1)). done.
  - destruct (op_EncodeNull ty) as [k|e] eqn:E; [by exists k, k|]. by destruct ty.
Qed.

(** A descending column complements the ascending key. *)
Lemma encode_value_flip ty o x k :
  encode_value ty ASCENDING x = Ok k →
  encode_value ty o x = Ok (if bool_decide (o = DESCENDING) then map complement k else k).
Proof.
  unfold encode_value, EncodeOneRow. rewrite (bool_decide_false (ASCENDING = DESCENDING)) by done.
  destruct (if bool_decide (x = None) then _ else _); simpl; [|done]. by intros [= ->].
Qed.
Lemma value_decides ty o x y :
  sortable ty = true → value_ok ty x → value_ok ty y → comparable ty x y →
  ∃ kx ky, encode_value ty o x = Ok kx ∧ encode_value ty o y = Ok ky ∧ decides (value_cmp ty o x y) kx ky.
Proof.
  intros Hty Hx Hy Hc. destruct (ascending_decides ty x y Hty Hx Hy Hc) as (kx & ky & Ex & Ey & Hd).
  rewrite (encode_value_flip ty o x kx Ex), (encode_value_flip ty o y ky Ey). eexists _, _. split_and!; [done..|].
  unfold value_cmp in *. rewrite (bool_decide_false (ASCENDING = DESCENDING)) in Hd by done.
  case_bool_decide; [by apply decides_complement|done].
Qed.

(** ** Rows *)

(** The elements a column of this type can hold. *)
Definition cell_typed (ty : PhysicalType) (c : cell) : Prop :=
  match ty, c with
  | FLOAT, CNum x => 0 ≤ x < 2 ^ 32
  | DOUBLE, CNum x => 0 ≤ x < 2 ^ 64
  | STRING, CStr _ => True
  | _, CNum z => ∃ k, int_kind ty = Some k ∧ int_min k ≤ z ≤ int_max k
  | _, _ => False
  end.
Definition row_typed : list (PhysicalType * OrderType) → list (option cell) → Prop :=
  Forall2 (λ tyo x, sortable tyo.1 = true ∧ from_option (cell_typed tyo.1) True x).
(** No value of the row is NaN or has the byte [0xff]. *)
Definition row_orderable : list (PhysicalType * OrderType) → list (option cell) → Prop :=
  Forall2 (λ tyo x, sortable tyo.1 = true ∧ value_ok tyo.1 x).

(** The greatest integer has the key of NULL. *)
Lemma collides_same_key ty o c : collides_with_null ty c → encode_value ty o (Some c) = encode_value ty o None.
Proof. intros (k & Hk & ->). destruct ty; try discriminate Hk; injection Hk as <-; by destruct o. Qed.
Lemma null_max_key schema row : encode_row schema (null_max schema row) = encode_row schema row.
Proof.
  unfold null_max. revert row. induction schema as [|[ty o] schema IH]; intros [|x row]; try done. cbn [zip_with encode_row fst]. rewrite IH.
  destruct x as [c|]; simpl; [|done]. case_decide as E; [|done]. by rewrite (collides_same_key ty o c E).
Qed.
(** Without the greatest integers every two values of a column compare. *)
Lemma null_max_comparable ty x y :
  let f := λ x, x ≫= λ c, if decide (collides_with_null ty c) then None else Some c in comparable ty (f x) (f y).
Proof. destruct x, y; simpl; repeat case_decide; done. Qed.
Lemma null_max_ok ty x : value_ok ty x → value_ok ty (x ≫= λ c, if decide (collides_with_null ty c) then None else Some c).
Proof. destruct x; simpl; [case_decide; done|done]. Qed.

Lemma value_encodes ty o x : sortable ty = true → from_option (cell_typed ty) True x → ∃ k, encode_value ty o x = Ok k.
Proof.
  intros Hty Hx. assert (∃ k, encode_value ty ASCENDING x = Ok k) as [k E]; [|eexists; by apply (encode_value_flip ty o x k E)].
  unfold encode_value, EncodeOneRow. rewrite (bool_decide_false (ASCENDING = DESCENDING)) by done.
  destruct x as [c|]; cbn [from_option] in *; [rewrite bool_decide_false by done|rewrite bool_decide_true by done; destruct ty; try done; eexists; reflexivity].
  destruct ty, c; try done; try (by destruct Hx as (? & ? & _)); eexists; reflexivity.
Qed.
Lemma row_encodes schema row : row_typed schema row → ∃ k, encode_row schema row = Ok k.
Proof.
  induction 1 as [|[ty o] x schema row [Hty Hx] _ (k & E)]; [by exists []|].
  destruct (value_encodes ty o x Hty Hx) as (kx & Ex). simpl. rewrite Ex. simpl. rewrite E. by eexists.
Qed.

(** The byte order of the keys is the order of the rows. *)
Lemma encode_row_order schema a b :
  row_orderable schema a → row_orderable schema b →
  ∃ ka kb, encode_row schema a = Ok ka ∧ encode_row schema b = Ok kb ∧ bcmp ka kb = order_by schema (null_max schema a) (null_max schema b).
Proof.
  intros Ha Hb. rewrite <- (null_max_key schema a), <- (null_max_key schema b). revert b Hb.
  induction Ha as [|[ty o] x schema a [Hty Hx] _ IH]; intros b Hb; inversion Hb as [|? y ? b' [_ Hy] Hb']; subst; [by exists [], []|].
  destruct (IH b' Hb') as (ka & kb & Ea & Eb & E).
  destruct (value_decides ty o _ _ Hty (null_max_ok ty x Hx) (null_max_ok ty y Hy) (null_max_comparable ty x y)) as (kx & ky & Ex & Ey & Hd).
  unfold null_max in *. cbn [zip_with encode_row fst order_by]. rewrite Ex, Ey. cbn [mbind result_bind]. rewrite Ea, Eb. cbn [mbind result_bind].
  eexists _, _. split_and!; [done..|]. rewrite (decides_app _ _ _ _ _ Hd), E. by destruct (value_cmp ty o _ _).
Qed.

(** The byte [0xff] wraps around to the delimiter: a string that starts with it comes first. *)
Lemma string_ff_first s b t schema a a' ka kb :
  b ≠ Byte.xff →
  encode_row ((STRING, ASCENDING) :: schema) (Some (CStr (Byte.xff :: s)) :: a) = Ok ka →
  encode_row ((STRING, ASCENDING) :: schema) (Some (CStr (b :: t)) :: a') = Ok kb → bcmp ka kb = Lt.
Proof.
  intros Hb. cbn [encode_row]. destruct (encode_row schema a) as [ra|], (encode_row schema a') as [rb|]; try done.
  cbn. intros [= <-] [= <-]. cbn. rewrite (byte_of_val (byte_val b + 1)). pose proof (byte_val_range b).
  assert (byte_val b ≠ 255) by (intros E; apply Hb; by apply byte_val_inj). rewrite (Z.mod_small (byte_val b + 1)) by lia.
  replace (byte_val (byte_of 256)) with 0 by done. by rewrite (proj2 (Z.compare_lt_iff 0 _)) by lia.
Qed.
