(* ===== verification/SortKeyWrite.v ===== *)
(** * Where sort keys are written

    Every write of [CreateSortKey] stays inside the bytes reserved for its row, whichever path reserved
    them, and the key of a row ends up as the concatenation of its columns' encodings. *)

From Stdlib Require Import Floats.SpecFloat.
From S2P Require Import Prelude TablePage TableHeap BTreePage BPlusTree GenericKey StringHeap ValidityMask SortKey.

(** ** Windows of a buffer *)

(** A write inside a window replaces that part of what the window reads. *)
Lemma mem_read_splice buf o src buf' w n :
  mem_write buf o src (Z.of_nat (length src)) = Ok buf' → 0 ≤ w → w ≤ o → o + Z.of_nat (length src) ≤ w + n →
  w + n ≤ Z.of_nat (length buf) →
  mem_read buf' w n =
    take (Z.to_nat (o - w)) (mem_read buf w n) ++ src ++ drop (Z.to_nat (o - w) + length src) (mem_read buf w n).
Proof.
  intros Hw H0 Ho Hn Hb. pose proof (mem_write_length _ _ _ _ _ Hw) as Hl. apply list_eq. intros i.
  destruct (decide (i < Z.to_nat n)%nat) as [Hi|Hi].
  2:{ unfold mem_read at 1. rewrite lookup_take_ge by lia. symmetry. apply lookup_ge_None.
      rewrite !length_app, length_take, length_drop. pose proof (mem_read_length buf w n ltac:(lia) ltac:(lia) Hb). lia. }
  rewrite mem_read_lookup, (mem_write_lookup _ _ _ _ _ _ Hw) by done.
  pose proof (mem_read_length buf w n ltac:(lia) ltac:(lia) Hb) as Hr.
  case_decide as Hd.
  - rewrite lookup_app_r; rewrite length_take; [|lia]. rewrite lookup_app_l by lia. f_equal. lia.
  - destruct (decide (i < Z.to_nat (o - w))%nat).
    + rewrite lookup_app_l by (rewrite length_take; lia). by rewrite lookup_take_lt, mem_read_lookup by lia.
    + rewrite lookup_app_r; rewrite length_take; [|lia]. rewrite lookup_app_r by lia. rewrite lookup_drop.
      rewrite mem_read_lookup by lia. f_equal. lia.
Qed.

(** ** The layout of the reserved keys *)

(** Row [r] owns [len] bytes at [p]. *)
Definition slot (kv : KeyVector) (r : nat) (p : data_ptr) (len : Z) : Prop :=
  ∃ s, kv_rows kv !! r = Some s ∧ s_length s = len ∧ 0 ≤ len ∧ length (s_prefix s) = 12%nat ∧
  match p with
  | InRow r' => r' = r ∧ IsInlined len = true ∧ s_ptr s = None
  | InChunk c o => IsInlined len = false ∧ s_ptr s = Some (c, o) ∧ region (kv_heap kv) c o len
  end.
Record layout (lens : list Z) (ptrs : list data_ptr) (kv : KeyVector) : Prop := {
  ly_heap : heap_wf (kv_heap kv);
  ly_rows : length (kv_rows kv) = Z.to_nat STANDARD_VECTOR_SIZE;
  ly_length : length ptrs = length lens;
  ly_slot : ∀ r p len, ptrs !! r = Some p → lens !! r = Some len → slot kv r p len;
  ly_disjoint : ∀ r r' c o o' len, (r < r')%nat → ptrs !! r = Some (InChunk c o) → ptrs !! r' = Some (InChunk c o') →
                  lens !! r = Some len → o + len < o' }.

Lemma length_key_bytes kv r p len : heap_wf (kv_heap kv) → slot kv r p len → length (key_bytes kv r) = Z.to_nat len.
Proof.
  intros Hwf (s & Hs & Hl & H0 & Hp & Hc). unfold key_bytes, str_bytes. rewrite Hs, Hl.
  destruct p as [r'|c o].
  - destruct Hc as (_ & Hi & _). rewrite Hi. unfold IsInlined, PREFIX_LENGTH in Hi. apply bool_decide_eq_true in Hi.
    pose proof (mem_read_length (s_prefix s) 0 len). lia.
  - destruct Hc as (Hi & Hptr & ck & Hck & Ho & _ & Hr & _). rewrite Hi, Hptr, Hck.
    pose proof (Forall_lookup_1 _ _ _ _ Hwf Hck) as [Hd _]. pose proof (mem_read_length (chunk_data ck) o len). unfold MINIMUM_HEAP_SIZE in *. lia.
Qed.

(** A write of a row's key changes that part of the key and no other key. *)
Lemma write_key_ok lens ptrs kv r p len off bytes :
  layout lens ptrs kv → ptrs !! r = Some p → lens !! r = Some len → 0 ≤ off → off + Z.of_nat (length bytes) ≤ len →
  ∃ kv', write_key p off bytes kv = Ok kv' ∧ layout lens ptrs kv' ∧
    key_bytes kv' r = take (Z.to_nat off) (key_bytes kv r) ++ bytes ++ drop (Z.to_nat off + length bytes) (key_bytes kv r) ∧
    ∀ r', r' ≠ r → (r' < length ptrs)%nat → key_bytes kv' r' = key_bytes kv r'.
Proof.
  intros [Hwf Hrows Hlen Hslot Hdis] Hp Hl Ho Hn. destruct (Hslot _ _ _ Hp Hl) as (s & Hs & Hsl & H0 & Hpre & Hc).
  pose proof (lookup_lt_Some _ _ _ Hs) as Hr. destruct p as [r0|c o]; simpl.
  - destruct Hc as (-> & Hi & Hptr). rewrite Hs. pose proof Hi as Hi'. unfold IsInlined, PREFIX_LENGTH in Hi'. apply bool_decide_eq_true in Hi'.
    destruct (mem_write (s_prefix s) off bytes (Z.of_nat (length bytes))) as [q|] eqn:E; [|rewrite mem_write_ok in E; [done|lia..]].
    pose proof (mem_write_length _ _ _ _ _ E) as Hq. simpl. unfold set_row. rewrite bool_decide_true by done. eexists. split; [done|].
    split_and!; [split; simpl; try done| |].
    + by rewrite length_insert.
    + intros r' p' len' Hp' Hl'. destruct (decide (r' = r)) as [->|Hne].
      * simplify_eq. eexists. simpl. rewrite list_lookup_insert_eq by done. split_and!; try done. simpl. congruence.
      * destruct (Hslot _ _ _ Hp' Hl') as (s' & ? & ?). exists s'. simpl. by rewrite list_lookup_insert_ne.
    + unfold key_bytes, str_bytes. simpl. rewrite list_lookup_insert_eq, Hs by done. simpl. rewrite Hsl, Hi.
      rewrite (mem_read_splice _ _ _ _ 0 len E) by lia. by rewrite Z.sub_0_r.
    + intros r' Hne _. unfold key_bytes. simpl. by rewrite list_lookup_insert_ne.
  - destruct Hc as (Hi & Hptr & Hreg). pose proof Hreg as (ck & Hck & Hco & _ & Hcr & Hpos).
    pose proof (Forall_lookup_1 _ _ _ _ Hwf Hck) as [Hd _].
    destruct (write_chunk_ok (kv_heap kv) c ck (o + off) bytes) as (data & E & Hwf' & Hw); [done|done|lia|lia|].
    rewrite E. simpl. eexists. split; [done|].
    destruct (write_chunk_read (kv_heap kv) c ck (o + off) bytes data (current_position_ ck) Hck Hw) as [_ Hoth].
    assert (∀ c' o' n, region (kv_heap kv) c' o' n → region (<[c := mkChunk data (current_position_ ck)]> (kv_heap kv)) c' o' n) as Hregs.
    { intros c' o' n (ck' & Hck' & Hrest). destruct (decide (c' = c)) as [->|Hne].
      - simplify_eq. eexists. rewrite list_lookup_insert_eq by (by eapply lookup_lt_Some). by split.
      - exists ck'. by rewrite list_lookup_insert_ne. }
    split_and!; [split; simpl; try done| |].
    + intros r' p' len' Hp' Hl'. destruct (Hslot _ _ _ Hp' Hl') as (s' & ? & ? & ? & ? & Hc'). exists s'. split_and!; try done.
      destruct p'; [done|]. naive_solver.
    + unfold key_bytes, str_bytes. simpl. rewrite Hs, Hsl, Hi, Hptr, Hck. rewrite list_lookup_insert_eq by (by eapply lookup_lt_Some). simpl.
      rewrite (mem_read_splice _ _ _ _ o len Hw) by (unfold MINIMUM_HEAP_SIZE in *; lia). by replace (o + off - o) with off by lia.
    + intros r' Hne Hr'. destruct (lookup_lt_is_Some_2 ptrs r' Hr') as [p' Hp'].
      destruct (lookup_lt_is_Some_2 lens r') as [len' Hl']; [lia|].
      destruct (Hslot _ _ _ Hp' Hl') as (s' & Hs' & Hsl' & H0' & _ & Hc'). unfold key_bytes, str_bytes. simpl. rewrite Hs', Hsl'.
      destruct p' as [r0|c' o']; [by destruct Hc' as (_ & -> & _)|]. destruct Hc' as (Hi2 & Hptr' & Hreg2). rewrite Hi2, Hptr'.
      destruct (Hregs _ _ _ Hreg2) as (ck2 & Hck2 & _). destruct Hreg2 as (ck1 & Hck1 & ? & _). rewrite Hck2, Hck1.
      apply (Hoth c' o' len'); [lia| |done|done]. destruct (decide (c' = c)) as [->|]; [right|by left].
      destruct (decide (r' < r)%nat); [left; pose proof (Hdis r' r c o' o len' ltac:(lia) Hp' Hp Hl'); lia|
        right; pose proof (Hdis r r' c o o' len ltac:(lia) Hp Hp' Hl); lia].
Qed.

(** ** Filling *)

(** The key of row [r], column by column. *)
Definition cell_key (col : SortColumn) (n r : Z) : result (list byte) :=
  '(c, is_null) ← read_row (sc_vector col) n r; EncodeOneRow (sc_type col) (flip_bytes_ col) c is_null.
Fixpoint row_key (cols : list SortColumn) (n r : Z) : result (list byte) :=
  match cols with
  | [] => Ok []
  | col :: cols => k ← cell_key col n r; ks ← row_key cols n r; Ok (k ++ ks)
  end.

Lemma fill_rows_ok col n lens ptrs suf : ∀ pre offs keys kv,
  ptrs = pre ++ suf → layout lens ptrs kv → length offs = length suf → length keys = length suf →
  (∀ i k off, keys !! i = Some k → offs !! i = Some off →
     cell_key col n (Z.of_nat (length pre + i)) = Ok k ∧ 0 ≤ off ∧
     ∃ len, lens !! (length pre + i)%nat = Some len ∧ off + Z.of_nat (length k) ≤ len) →
  ∃ kv', fill_rows col n (Z.of_nat (length pre)) suf offs kv =
           Ok (zip_with (λ off k, off + Z.of_nat (length k)) offs keys, kv') ∧ layout lens ptrs kv' ∧
    (∀ i, (i < length pre)%nat → key_bytes kv' i = key_bytes kv i) ∧
    (∀ i k off, keys !! i = Some k → offs !! i = Some off →
       take (Z.to_nat off + length k) (key_bytes kv' (length pre + i)) = take (Z.to_nat off) (key_bytes kv (length pre + i)) ++ k).
Proof.
  induction suf as [|p suf IH]; intros pre offs keys kv Hptrs Hly Hlo Hlk Hk;
    (destruct offs as [|off offs], keys as [|k keys]; simpl in *; try done).
  - exists kv. split_and!; try done.
  - destruct (Hk 0%nat k off eq_refl eq_refl) as (Hkey & H0 & len & Hlen & Hfit). rewrite Nat.add_0_r in Hkey, Hlen.
    assert (ptrs !! length pre = Some p) as Hp by (subst ptrs; rewrite lookup_app_r, Nat.sub_diag by lia; done).
    unfold cell_key in Hkey. destruct (read_row (sc_vector col) n (Z.of_nat (length pre))) as [[c is_null]|]; simpl in *; [|done]. rewrite Hkey. simpl.
    destruct (write_key_ok lens ptrs kv (length pre) p len off k Hly Hp Hlen H0 Hfit) as (kv1 & E1 & Hly1 & Hkb & Hother). rewrite E1. simpl.
    pose proof (length_key_bytes kv (length pre) p len (ly_heap _ _ _ Hly) (ly_slot _ _ _ Hly _ _ _ Hp Hlen)) as Hlb.
    assert (length (pre ++ [p]) = S (length pre)) as Hpl by (rewrite length_app; simpl; lia).
    destruct (IH (pre ++ [p]) offs keys kv1) as (kv' & E' & Hly' & Hpre & Hsuf); [by rewrite <- (assoc_L (++))|done|lia|lia| |].
    { intros i k' off' Hi Ho. rewrite Hpl. replace (S (length pre) + i)%nat with (length pre + S i)%nat by lia. by apply (Hk (S i)). }
    rewrite Hpl in *. replace (Z.of_nat (length pre) + 1) with (Z.of_nat (S (length pre))) by lia. rewrite E'. simpl.
    exists kv'. split_and!; [done|done| |].
    + intros i Hi. rewrite Hpre by lia. apply Hother; [lia|]. subst ptrs. rewrite length_app. simpl. lia.
    + intros i k' off' Hi Ho. destruct i as [|i]; simpl in Hi, Ho.
      * simplify_eq. rewrite Nat.add_0_r, Hpre, Hkb by lia. rewrite take_app, take_take, length_take. f_equal; [f_equal; lia|].
        rewrite take_app_le by lia. apply take_ge. lia.
      * replace (length pre + S i)%nat with (S (length pre) + i)%nat by lia. rewrite (Hsuf i k' off' Hi Ho). f_equal. f_equal. apply Hother; [lia|].
        subst ptrs. rewrite length_app. simpl. pose proof (lookup_lt_Some _ _ _ Hi). lia.
Qed.

Lemma row_key_cons col cols n r k :
  row_key (col :: cols) n r = Ok k → ∃ k1 k2, cell_key col n r = Ok k1 ∧ row_key cols n r = Ok k2 ∧ k = k1 ++ k2.
Proof.
  simpl. destruct (cell_key col n r) as [k1|]; simpl; [|done]. destruct (row_key cols n r) as [k2|]; simpl; [|done].
  intros [= <-]. by exists k1, k2.
Qed.
Lemma ConstructSortKey_fill col n ptrs offs kv k r :
  cell_key col n r = Ok k → ConstructSortKey col n ptrs offs kv = fill_rows col n 0 ptrs offs kv.
Proof.
  unfold ConstructSortKey, cell_key, EncodeOneRow. destruct (read_row _ _ _) as [[c []]|]; simpl; [| |done];
    destruct (sc_type col); try done; by destruct c.
Qed.

(** The parts of the keys of some columns, over all rows. *)
Lemma collect_keys {A} (f : nat → result A) n :
  (∀ r, (r < n)%nat → ∃ k, f r = Ok k) → ∃ ks, length ks = n ∧ ∀ r k, ks !! r = Some k → f r = Ok k.
Proof.
  induction n as [|n IH]; intros H; [by exists []|]. destruct IH as (ks & Hl & Hks); [intros; apply H; lia|].
  destruct (H n ltac:(lia)) as [k Hk]. exists (ks ++ [k]). split; [rewrite length_app; simpl; lia|].
  intros r k' Hr. apply lookup_app_Some in Hr as [Hr|[Hge Hr]]; [auto|]. apply list_lookup_singleton_Some in Hr as [Hr <-].
  by replace r with n by lia.
Qed.

Lemma fill_ok cols : ∀ lens ptrs kv parts n,
  layout lens ptrs kv → length parts = n → length ptrs = n → (0 < n)%nat →
  (∀ r part, parts !! r = Some part → take (length part) (key_bytes kv r) = part) →
  (∀ r part, parts !! r = Some part → ∃ k, row_key cols (Z.of_nat n) (Z.of_nat r) = Ok k ∧
     lens !! r = Some (Z.of_nat (length (part ++ k)))) →
  ∃ kv', fill cols (Z.of_nat n) ptrs ((λ part, Z.of_nat (length part)) <$> parts) kv = Ok kv' ∧
    ∀ r part k, parts !! r = Some part → row_key cols (Z.of_nat n) (Z.of_nat r) = Ok k → key_bytes kv' r = part ++ k.
Proof.
  induction cols as [|col cols IH]; intros lens ptrs kv parts n Hly Hlp Hlq Hn Hparts Hkeys; simpl.
  - exists kv. split; [done|]. intros r part k Hr [= <-]. rewrite app_nil_r.
    destruct (Hkeys r part Hr) as (k & [= <-] & Hlen). rewrite app_nil_r in Hlen.
    destruct (lookup_lt_is_Some_2 ptrs r) as [p Hp]; [apply lookup_lt_Some in Hr; lia|].
    pose proof (length_key_bytes kv r p _ (ly_heap _ _ _ Hly) (ly_slot _ _ _ Hly _ _ _ Hp Hlen)) as Hl.
    pose proof (Hparts r part Hr) as Hpart. rewrite take_ge in Hpart; [done|lia].
  - assert (∀ r, (r < n)%nat → ∃ k, cell_key col (Z.of_nat n) (Z.of_nat r) = Ok k) as Hcell.
    { intros r Hr. destruct (lookup_lt_is_Some_2 parts r) as [part Hpart]; [lia|].
      destruct (Hkeys r part Hpart) as (k & (k1 & k2 & ? & _)%row_key_cons & _). by exists k1. }
    destruct (collect_keys _ n Hcell) as (keys & Hlk & Hks). cbv beta in Hks. destruct (Hcell 0%nat Hn) as [k0 Hk0].
    rewrite (ConstructSortKey_fill _ _ _ _ _ _ _ Hk0).
    destruct (fill_rows_ok col (Z.of_nat n) lens ptrs ptrs [] ((λ part, Z.of_nat (length part)) <$> parts) keys kv) as (kv1 & E1 & Hly1 & _ & Hkb);
      [done|done|rewrite length_fmap; lia|lia| |].
    { intros i k off Hi Ho. apply list_lookup_fmap_Some in Ho as (part & -> & Hpart). simpl. split_and!; [by apply Hks|lia|].
      destruct (Hkeys i part Hpart) as (k' & (k1 & k2 & Hk1 & _ & ->)%row_key_cons & Hlen). eexists. split; [done|].
      assert (k = k1) as -> by (pose proof (Hks i k Hi); congruence). rewrite !length_app. lia. }
    cbn [length] in E1. change (Z.of_nat 0) with 0 in E1. rewrite E1. simpl.
    destruct (IH lens ptrs kv1 (zip_with app parts keys) n) as (kv' & E' & Hkv'); [done|rewrite length_zip_with; lia|done|done| | |].
    { intros r part Hr. apply lookup_zip_with_Some in Hr as (p0 & k & -> & Hp0 & Hk).
      specialize (Hkb r k (Z.of_nat (length p0)) Hk). rewrite list_lookup_fmap, Hp0 in Hkb. specialize (Hkb eq_refl). simpl in Hkb.
      rewrite Nat2Z.id, Hparts in Hkb by done. by rewrite length_app. }
    { intros r part Hr. apply lookup_zip_with_Some in Hr as (p0 & k & -> & Hp0 & Hk).
      destruct (Hkeys r p0 Hp0) as (k' & (k1 & k2 & Hk1 & Hk2 & ->)%row_key_cons & Hlen). assert (k = k1) as -> by (pose proof (Hks r k Hk); congruence).
      exists k2. split; [done|]. by rewrite <- (assoc_L (++)). }
    exists kv'. split.
    + rewrite <- E'. f_equal. apply list_eq. intros i. rewrite lookup_zip_with, !list_lookup_fmap, lookup_zip_with.
      destruct (parts !! i), (keys !! i); simpl; try done. f_equal. rewrite length_app. lia.
    + intros r part k Hr (k1 & k2 & Hk1 & Hk2 & ->)%row_key_cons. destruct (lookup_lt_is_Some_2 keys r) as [k Hk]; [apply lookup_lt_Some in Hr; lia|].
      assert (k = k1) as -> by (pose proof (Hks r k Hk); congruence). rewrite (Hkv' r (part ++ k1) k2); [by rewrite (assoc_L (++))| |done].
      apply lookup_zip_with_Some. by exists part, k1.
Qed.

(** ** Measuring *)

Lemma length_le_bytes n z : length (le_bytes n z) = n.
Proof. revert z. induction n as [|n IH]; intros z; simpl; [done|]. by rewrite IH. Qed.
Lemma length_EncodeSigned n z : length (EncodeSigned n z) = n.
Proof.
  unfold EncodeSigned, Store_swapped. pose proof (length_le_bytes n (BSwap n (wrap_u (8 * Z.of_nat n) z))) as H.
  by destruct (le_bytes n _).
Qed.
(** A value takes the bytes that were counted for it. *)
Lemma EncodeOneRow_length ty flip c is_null k :
  EncodeOneRow ty flip c is_null = Ok k →
  if IsConstantSize ty then SizeOf ty = Ok (Z.of_nat (length k))
  else ty = STRING ∧ (∀ s, c = CStr s → StringRowEncodeLength c is_null = Ok (Z.of_nat (length k))) ∧ (is_null = false → ∃ s, c = CStr s).
Proof.
  unfold EncodeOneRow. intros (b & Hb & [= <-])%result_bind_ok.
  assert (length (if flip then map complement b else b) = length b) as -> by (destruct flip; [apply length_map|done]).
  destruct is_null.
  - destruct ty; try done; simpl in Hb; injection Hb as <-; simpl; try done. split_and!; [done| |done]. by intros s ->.
  - destruct ty, c as [z|s]; try done; simpl in Hb; injection Hb as <-; rewrite ?length_EncodeSigned, ?length_le_bytes; try done.
    simpl. split_and!; [done| |by eauto]. intros s' [= <-]. rewrite length_app, length_fmap. simpl. f_equal. lia.
Qed.

(** A string column holds strings, also under its NULLs. *)
Definition string_cells (col : SortColumn) (n : nat) : Prop :=
  sc_type col = STRING → ∀ r, (r < n)%nat → ∃ s b, read_row (sc_vector col) (Z.of_nat n) (Z.of_nat r) = Ok (CStr s, b).

Lemma add_lengths_ok col n suf : ∀ r,
  sc_type col = STRING → string_cells col n → (r + length suf = n)%nat →
  (∀ i, (i < n)%nat → ∃ k, cell_key col (Z.of_nat n) (Z.of_nat i) = Ok k) →
  ∃ suf', add_lengths (sc_vector col) (Z.of_nat n) (Z.of_nat r) suf = Ok suf' ∧ length suf' = length suf ∧
    ∀ i v k, suf !! i = Some v → cell_key col (Z.of_nat n) (Z.of_nat (r + i)) = Ok k → suf' !! i = Some (v + Z.of_nat (length k)).
Proof.
  induction suf as [|v suf IH]; intros r Hty Hs Hl Hk; simpl; [by exists []|]. simpl in Hl.
  destruct (Hs Hty r ltac:(lia)) as (s & b & Er). rewrite Er. simpl.
  destruct (Hk r ltac:(lia)) as [k Ek]. pose proof Ek as Ek'. unfold cell_key in Ek. rewrite Er in Ek. simpl in Ek.
  apply EncodeOneRow_length in Ek. rewrite Hty in Ek. simpl in Ek. destruct Ek as (_ & Ek & _). specialize (Ek s eq_refl). injection Ek as Ek.
  destruct (IH (S r) Hty Hs ltac:(lia) Hk) as (suf' & E & Hl' & Hi). replace (Z.of_nat r + 1) with (Z.of_nat (S r)) by lia. rewrite E. simpl.
  eexists. split; [done|]. simpl. split; [by rewrite Hl'|]. intros [|i] v' k' Hv' Hk'; simpl in *.
  - simplify_eq. rewrite Nat.add_0_r in Hk'. assert (k' = k) as -> by congruence. by rewrite <- Ek.
  - apply Hi; [done|]. by replace (S (r + i))%nat with (r + S i)%nat by lia.
Qed.

Lemma measure_ok cols : ∀ C V n,
  (0 < n)%nat → length V = n → (∀ col, col ∈ cols → string_cells col n) →
  (∀ r, (r < n)%nat → ∃ k, row_key cols (Z.of_nat n) (Z.of_nat r) = Ok k) →
  ∃ C' V', measure cols (Z.of_nat n) (C, V) = Ok (C', V') ∧ length V' = n ∧ C ≤ C' ∧
    ∀ r v k, V !! r = Some v → row_key cols (Z.of_nat n) (Z.of_nat r) = Ok k →
      ∃ v', V' !! r = Some v' ∧ v ≤ v' ∧ C' + v' = C + v + Z.of_nat (length k).
Proof.
  induction cols as [|col cols IH]; intros C V n Hn HV Hs Hk; simpl.
  - exists C, V. split_and!; [done..|lia|]. intros r v k Hv [= <-]. exists v. simpl. split_and!; [done|lia|lia].
  - assert (∀ r, (r < n)%nat → ∃ k1 k2, cell_key col (Z.of_nat n) (Z.of_nat r) = Ok k1 ∧ row_key cols (Z.of_nat n) (Z.of_nat r) = Ok k2) as Hc.
    { intros r Hr. destruct (Hk r Hr) as (k & (k1 & k2 & ? & ? & _)%row_key_cons). by exists k1, k2. }
    assert (∃ C1 V1, GetSortKeyLength col (Z.of_nat n) (C, V) = Ok (C1, V1) ∧ length V1 = n ∧ C ≤ C1 ∧
      ∀ r v k, V !! r = Some v → cell_key col (Z.of_nat n) (Z.of_nat r) = Ok k →
        ∃ v', V1 !! r = Some v' ∧ v ≤ v' ∧ C1 + v' = C + v + Z.of_nat (length k)) as (C1 & V1 & E1 & HV1 & HC1 & Hrow).
    { destruct (Hc 0%nat Hn) as (k0 & _ & Hk0 & _). unfold GetSortKeyLength.
      assert (∀ r k, cell_key col (Z.of_nat n) (Z.of_nat r) = Ok k → ∃ c b, EncodeOneRow (sc_type col) (flip_bytes_ col) c b = Ok k) as Henc.
      { intros r k. unfold cell_key. destruct (read_row _ _ _) as [[c b]|]; simpl; [|done]. by exists c, b. }
      destruct (Henc _ _ Hk0) as (c0 & b0 & E0%EncodeOneRow_length). destruct (IsConstantSize (sc_type col)) eqn:Ec.
      - rewrite E0. simpl. eexists _, _. split; [done|]. split_and!; [done|lia|]. intros r v k Hv Hkr. exists v. split_and!; [done|lia|].
        destruct (Henc _ _ Hkr) as (c & b & E%EncodeOneRow_length). rewrite Ec, E0 in E. injection E as E. lia.
      - destruct E0 as (Hty & _). rewrite bool_decide_false by (by intros []).
        destruct (add_lengths_ok col n V 0 Hty) as (V1 & E & HlV & Hi); [apply Hs; set_solver|lia|intros r Hr; destruct (Hc r Hr) as (k1 & _ & ? & _); by exists k1|].
        change (Z.of_nat 0) with 0 in E. cbn [fst snd]. rewrite E. simpl. eexists _, _. split; [done|]. split_and!; [lia|lia|].
        intros r v k Hv Hkr. eexists. split; [by apply Hi|]. lia. }
    rewrite E1. simpl. destruct (IH C1 V1 n Hn HV1) as (C' & V' & E' & HV' & HC' & Hrow'); [set_solver| |].
    { intros r Hr. destruct (Hc r Hr) as (_ & k2 & _ & ?). by exists k2. }
    exists C', V'. split_and!; [done|done|lia|]. intros r v k Hv (k1 & k2 & Hk1 & Hk2 & ->)%row_key_cons.
    destruct (Hrow r v k1 Hv Hk1) as (v1 & Hv1 & ? & ?). destruct (Hrow' r v1 k2 Hv1 Hk2) as (v' & Hv' & ? & ?).
    exists v'. rewrite length_app. split_and!; [done|lia|lia].
Qed.

(** ** Reserving *)

(** One more row reserved, above the rows of its chunk. *)
Lemma layout_snoc lens ptrs kv kv' p len :
  layout lens ptrs kv → heap_wf (kv_heap kv') → (∀ c o n, region (kv_heap kv) c o n → region (kv_heap kv') c o n) →
  length (kv_rows kv') = Z.to_nat STANDARD_VECTOR_SIZE →
  (∀ r, (r < length ptrs)%nat → kv_rows kv' !! r = kv_rows kv !! r) → slot kv' (length ptrs) p len →
  (∀ c o r o' len', p = InChunk c o → ptrs !! r = Some (InChunk c o') → lens !! r = Some len' → o' + len' < o) →
  layout (lens ++ [len]) (ptrs ++ [p]) kv'.
Proof.
  intros [Hwf Hrows Hlen Hslot Hdis] Hwf' Hreg Hl' Hr' Hnew Habove. split; [done|done|rewrite !length_app; simpl; lia| |].
  - intros r q l Hq Hl. apply lookup_app_Some in Hq as [Hq|[Hge Hq]].
    + pose proof (lookup_lt_Some _ _ _ Hq). rewrite lookup_app_l in Hl by lia.
      destruct (Hslot _ _ _ Hq Hl) as (s & Hs & ? & ? & ? & Hc). exists s. rewrite Hr' by done. split_and!; try done.
      destruct q; [done|]. naive_solver.
    + apply list_lookup_singleton_Some in Hq as [Hr <-]. rewrite lookup_app_r in Hl by lia.
      apply list_lookup_singleton_Some in Hl as [_ <-]. by replace r with (length ptrs) by lia.
  - intros r r' c o o' l Hlt Hq Hq' Hl. apply lookup_app_Some in Hq as [Hq|[Hge Hq]].
    + pose proof (lookup_lt_Some _ _ _ Hq). rewrite lookup_app_l in Hl by lia. apply lookup_app_Some in Hq' as [Hq'|[Hge' Hq']]; [exact (Hdis r r' c o o' l Hlt Hq Hq' Hl)|].
      apply list_lookup_singleton_Some in Hq' as [_ ->]. exact (Habove c o' r o l eq_refl Hq Hl).
    + apply list_lookup_singleton_Some in Hq as [Hr _]. apply lookup_lt_Some in Hq'. rewrite length_app in Hq'. simpl in Hq'. lia.
Qed.
(** The slots of a layout are regions of its heap. *)
Lemma layout_region lens ptrs kv r c o len :
  layout lens ptrs kv → ptrs !! r = Some (InChunk c o) → lens !! r = Some len → region (kv_heap kv) c o len.
Proof. intros Hly Hp Hl. destruct (ly_slot _ _ _ Hly _ _ _ Hp Hl) as (s & _ & _ & _ & _ & _ & _ & ?). done. Qed.

Section prepare.
Context (junk : byte).

Lemma prepare_rows_ok ls : ∀ r kv ptrs lens,
  layout lens ptrs kv → r = length ptrs → Z.of_nat (r + length ls) ≤ STANDARD_VECTOR_SIZE →
  Forall (λ l, 0 ≤ l ≤ MINIMUM_HEAP_SIZE) ls →
  ∃ kv' ptrs', prepare_rows junk ls r kv ptrs = Ok (kv', ptrs') ∧ layout (lens ++ ls) ptrs' kv'.
Proof.
  induction ls as [|l ls IH]; intros r kv ptrs lens Hly -> Hn Hls; simpl.
  - exists kv, ptrs. by rewrite app_nil_r.
  - apply Forall_cons in Hls as [Hl Hls]. pose proof (ly_rows _ _ _ Hly) as Hrows. simpl in Hn.
    assert (∃ s h, EmptyString junk l (kv_heap kv) = Ok (s, h) ∧
      layout (lens ++ [l]) (ptrs ++ [match s_ptr s with Some (c, o) => InChunk c o | None => InRow (length ptrs) end]) (mkKeys (<[length ptrs := s]> (kv_rows kv)) h))
      as (s & h & E & Hly').
    { unfold EmptyString. destruct (IsInlined l) eqn:Hi.
      - eexists _, _. split; [done|]. apply (layout_snoc _ _ kv); simpl; try done; [apply (ly_heap _ _ _ Hly)|by rewrite length_insert| |].
        + intros r Hr. by rewrite list_lookup_insert_ne by lia.
        + exists (new_string_len l). simpl. rewrite list_lookup_insert_eq by (unfold STANDARD_VECTOR_SIZE in *; lia). split_and!; try done. lia.
      - destruct (AddEmptyString_ok junk l (kv_heap kv) (ly_heap _ _ _ Hly) Hl) as (s & h & E & Hwf & Hext & Hsl & (_ & Hpre & Hreg) & Hfresh).
        rewrite Hsl in Hreg. destruct (Hreg Hi) as (c & o & Hptr & Hr). destruct (Hfresh Hi) as (c' & o' & Hptr' & _ & Hab).
        rewrite Hptr in Hptr'. injection Hptr' as <- <-. exists s, h. split; [done|]. rewrite Hptr.
        apply (layout_snoc _ _ kv); simpl; [done|done| |by rewrite length_insert| | |].
        + intros c0 o0 n0 H0. by apply Hext.
        + intros r Hr'. by rewrite list_lookup_insert_ne by lia.
        + exists s. simpl. rewrite list_lookup_insert_eq by (unfold STANDARD_VECTOR_SIZE in *; lia). split_and!; try done. lia.
        + intros c0 o0 r o1 l1 [= <- <-] Hp Hl1. eapply Hab; [by eapply layout_region|done]. }
    rewrite E. simpl. unfold set_row. simpl. rewrite bool_decide_true by (unfold STANDARD_VECTOR_SIZE in *; lia). simpl.
    destruct (IH (S (length ptrs)) _ _ _ Hly') as (kv' & ptrs' & E' & Hly''); [rewrite length_app; simpl; lia|lia|done|].
    exists kv', ptrs'. split; [done|]. by rewrite <- (assoc_L (++)) in Hly''.
Qed.

(** The slots of one buffer, cut at equal strides. *)
Lemma carve_batch_ok blob batch : ∀ c o r kv ptrs lens,
  layout lens ptrs kv → r = length ptrs → Z.of_nat (r + batch) ≤ STANDARD_VECTOR_SIZE → IsInlined blob = false →
  region (kv_heap kv) c o (Z.of_nat batch * (blob + 1)) →
  (∀ r o' len', ptrs !! r = Some (InChunk c o') → lens !! r = Some len' → o' + len' < o) →
  ∃ kv' ptrs', carve_batch batch c o (blob + 1) blob r kv ptrs = Ok (kv', ptrs') ∧ layout (lens ++ replicate batch blob) ptrs' kv'.
Proof.
  induction batch as [|batch IH]; intros c o r kv ptrs lens Hly -> Hn Hi Hreg Habove; cbn [carve_batch].
  - exists kv, ptrs. simpl. by rewrite app_nil_r.
  - pose proof Hi as Hb. unfold IsInlined, PREFIX_LENGTH in Hb. apply bool_decide_eq_false in Hb. pose proof (ly_rows _ _ _ Hly) as Hrows.
    pose proof Hreg as (ck & Hck & Ho & _ & Hcap & Hpos). pose proof (Forall_lookup_1 _ _ _ _ (ly_heap _ _ _ Hly) Hck) as [Hd _].
    assert (o + blob + 1 ≤ o + Z.of_nat (S batch) * (blob + 1)) as Hfit by nia.
    destruct (write_chunk_ok (kv_heap kv) c ck (o + blob) [Byte.x00]) as (data & E & Hwf & Hw); [apply (ly_heap _ _ _ Hly)|done|lia|simpl; lia|].
    pose proof (mem_write_length _ _ _ _ _ Hw) as Hdl. pose proof (lookup_lt_Some _ _ _ Hck) as Hlt.
    set (h := <[c := mkChunk data (current_position_ ck)]> (kv_heap kv)) in *.
    assert (h !! c = Some (mkChunk data (current_position_ ck))) as Hhc by (by apply list_lookup_insert_eq).
    destruct (new_string_ok (drop (Z.to_nat o) data) (c, o) blob) as (s & Es & Hsl & Hsp & Hptr);
      [lia|rewrite Hi, length_drop; unfold PREFIX_LENGTH, MINIMUM_HEAP_SIZE in *; lia|].
    assert (∀ c' o' n, region (kv_heap kv) c' o' n → region h c' o' n) as Hregs.
    { intros c' o' n (ck' & Hck' & Hrest). destruct (decide (c' = c)) as [->|Hne].
      - simplify_eq. eexists. split; [exact Hhc|done].
      - exists ck'. unfold h. by rewrite list_lookup_insert_ne. }
    unfold carve. rewrite E. cbn [mbind result_bind]. rewrite Hhc. cbn [chunk_data]. rewrite Es. cbn [mbind result_bind]. unfold set_row. cbn [kv_rows kv_heap].
    rewrite bool_decide_true by (unfold STANDARD_VECTOR_SIZE in *; lia). cbn [mbind result_bind].
    assert (region h c o blob) as Hslot.
    { eexists. split; [exact Hhc|]. simpl. lia. }
    destruct (IH c (o + (blob + 1)) (S (length ptrs)) (mkKeys (<[length ptrs := s]> (kv_rows kv)) h) (ptrs ++ [InChunk c o]) (lens ++ [blob]))
      as (kv' & ptrs' & E' & Hly'); [|rewrite length_app; simpl; lia|lia|done| | |].
    + apply (layout_snoc _ _ kv); simpl; [done|done|done|by rewrite length_insert| | |].
      * intros r Hr. by rewrite list_lookup_insert_ne by lia.
      * exists s. simpl. rewrite list_lookup_insert_eq by (unfold STANDARD_VECTOR_SIZE in *; lia). split_and!; try done; [lia|by apply Hptr].
      * intros c0 o0 r o1 l1 [= <- <-] Hp Hl. by eapply Habove.
    + eexists. simpl. split; [exact Hhc|]. simpl. nia.
    + intros r o' len' Hp Hl. apply lookup_app_Some in Hp as [Hp|[Hge Hp]].
      * pose proof (lookup_lt_Some _ _ _ Hp). rewrite lookup_app_l in Hl by (rewrite <- (ly_length _ _ _ Hly); done).
        pose proof (Habove r o' len' Hp Hl). lia.
      * apply list_lookup_singleton_Some in Hp as [Hr [= <-]]. rewrite lookup_app_r in Hl by (rewrite <- (ly_length _ _ _ Hly); lia).
        apply list_lookup_singleton_Some in Hl as [_ <-]. lia.
    + exists kv', ptrs'. split; [done|]. by rewrite <- (assoc_L (++)) in Hly'.
Qed.

Lemma prepare_fixed_ok blob n fuel : ∀ r kv ptrs,
  layout (replicate r blob) ptrs kv → (r ≤ n)%nat → (n ≤ r + fuel)%nat → Z.of_nat n ≤ STANDARD_VECTOR_SIZE →
  IsInlined blob = false → blob < MINIMUM_HEAP_SIZE →
  ∃ kv' ptrs', prepare_fixed junk fuel n blob r kv ptrs = Ok (kv', ptrs') ∧ layout (replicate n blob) ptrs' kv'.
Proof.
  induction fuel as [|fuel IH]; intros r kv ptrs Hly Hrn Hfuel Hn Hi Hb; cbn [prepare_fixed].
  - rewrite bool_decide_true by lia. exists kv, ptrs. by replace n with r by lia.
  - case_bool_decide as Hd; [exists kv, ptrs; by replace n with r by lia|].
    pose proof Hi as Hbl. unfold IsInlined, PREFIX_LENGTH in Hbl. apply bool_decide_eq_false in Hbl. cbv zeta.
    set (per := Z.max 1 ((MINIMUM_HEAP_SIZE - 1) / (blob + 1))). set (batch := Z.min per (Z.of_nat (n - r))).
    assert (1 ≤ batch ≤ Z.of_nat (n - r)) as Hbatch by (unfold batch, per; lia).
    assert (batch * (blob + 1) ≤ MINIMUM_HEAP_SIZE) as Hsize.
    { pose proof (Z.mul_div_le (MINIMUM_HEAP_SIZE - 1) (blob + 1) ltac:(lia)).
      destruct (decide ((MINIMUM_HEAP_SIZE - 1) / (blob + 1) < 1)); [assert (batch = 1) as -> by (unfold batch, per; lia); lia|].
      assert (batch ≤ (MINIMUM_HEAP_SIZE - 1) / (blob + 1)) by (unfold batch, per; lia). nia. }
    assert (IsInlined (batch * (blob + 1)) = false) as Hi' by (apply bool_decide_eq_false; unfold PREFIX_LENGTH; nia).
    pose proof (ly_length _ _ _ Hly) as Hlen. rewrite length_replicate in Hlen.
    unfold EmptyString. rewrite Hi'.
    destruct (AddEmptyString_ok junk (batch * (blob + 1)) (kv_heap kv) (ly_heap _ _ _ Hly) ltac:(nia)) as (s & h & E & Hwf & Hext & Hsl & (_ & Hpre & Hreg) & Hfresh).
    rewrite Hsl in Hreg. destruct (Hreg Hi') as (c & o & Hptr & Hr). destruct (Hfresh Hi') as (c' & o' & Hptr' & _ & Hab).
    rewrite Hptr in Hptr'. injection Hptr' as <- <-. rewrite E. cbn [mbind result_bind]. rewrite Hptr.
    destruct (carve_batch_ok blob (Z.to_nat batch) c o r (mkKeys (kv_rows kv) h) ptrs (replicate r blob)) as (kv1 & ptrs1 & E1 & Hly1).
    + destruct Hly as [? ? ? Hslot ?]. split; simpl; try done. intros r' p' l' Hp' Hl'. destruct (Hslot _ _ _ Hp' Hl') as (s' & ? & ? & ? & ? & Hc').
      exists s'. split_and!; try done. destruct p' as [|c0 o0]; [done|]. destruct Hc' as (? & ? & ?). split_and!; [done|done|]. by apply Hext.
    + done.
    + lia.
    + done.
    + simpl. by rewrite Z2Nat.id by lia.
    + intros r' o1 l1 Hp Hl. eapply Hab; [by eapply layout_region|done].
    + rewrite E1. cbn [mbind result_bind]. rewrite <- replicate_add in Hly1. apply IH; [done|lia|lia|done..].
Qed.

Lemma layout_nil : layout [] [] new_keys.
Proof. split; [by apply Forall_nil|apply length_replicate|done|done|done]. Qed.

(** Both paths reserve the measured bytes for every row. *)
Lemma PrepareSortData_ok n C V :
  length V = n → Z.of_nat n ≤ STANDARD_VECTOR_SIZE → 0 ≤ C → Forall (λ v, 0 ≤ v ∧ C + v < MINIMUM_HEAP_SIZE) V → (0 < n)%nat →
  ∃ kv ptrs, PrepareSortData junk n (C, V) new_keys = Ok (kv, ptrs) ∧ layout ((λ v, v + C) <$> V) ptrs kv.
Proof.
  intros HV Hn HC Hlens Hpos. unfold PrepareSortData. destruct (forallb _ V) eqn:Ez; simpl.
  - assert (V = replicate n 0) as ->.
    { rewrite forallb_forall in Ez. apply list_eq. intros i. destruct (V !! i) as [v|] eqn:Ev.
      - rewrite lookup_replicate_2 by (apply lookup_lt_Some in Ev; lia). f_equal. apply list_elem_of_lookup_2, list_elem_of_In in Ev.
        apply Ez in Ev. by apply bool_decide_eq_true in Ev.
      - symmetry. apply lookup_ge_None. rewrite length_replicate. apply lookup_ge_None in Ev. lia. }
    rewrite fmap_replicate, Z.add_0_l. case_bool_decide as Hc.
    + apply (prepare_fixed_ok C n (n + 1) 0 new_keys []); [apply layout_nil|lia|lia|done|by apply bool_decide_eq_false; lia|].
      destruct n; [lia|]. simpl in Hlens. apply Forall_cons in Hlens as [? _]. lia.
    + apply (prepare_rows_ok _ 0 new_keys [] []); [apply layout_nil|done|rewrite length_replicate; lia|].
      apply Forall_replicate. destruct n; [lia|]. simpl in Hlens. apply Forall_cons in Hlens as [? _]. lia.
  - apply (prepare_rows_ok _ 0 new_keys [] []); [apply layout_nil|done|rewrite length_fmap; lia|].
    apply Forall_fmap. eapply Forall_impl; [exact Hlens|]. simpl. intros v ?. lia.
Qed.

(** The keys that come out: one per row, the concatenation of the encodings of its columns. *)
Theorem CreateSortKey_keys cols n :
  (0 < n)%nat → Z.of_nat n ≤ STANDARD_VECTOR_SIZE → (∀ col, col ∈ cols → string_cells col n) →
  (∀ r, (r < n)%nat → ∃ k, row_key cols (Z.of_nat n) (Z.of_nat r) = Ok k ∧ Z.of_nat (length k) < MINIMUM_HEAP_SIZE) →
  ∃ kv, CreateSortKey junk cols n = Ok kv ∧
    ∀ r, (r < n)%nat → row_key cols (Z.of_nat n) (Z.of_nat r) = Ok (key_bytes kv r).
Proof.
  intros Hn Hmax Hs Hk. unfold CreateSortKey. cbv zeta.
  destruct (measure_ok cols 0 (replicate n 0) n) as (C & V & E & HV & HC & Hrow); [done|apply length_replicate|done|naive_solver|].
  rewrite E. cbn [mbind result_bind].
  assert (∀ r v, V !! r = Some v → ∃ k, row_key cols (Z.of_nat n) (Z.of_nat r) = Ok k ∧ 0 ≤ v ∧ C + v = Z.of_nat (length k) ∧ Z.of_nat (length k) < MINIMUM_HEAP_SIZE) as HVk.
  { intros r v Hv. pose proof (lookup_lt_Some _ _ _ Hv). destruct (Hk r ltac:(lia)) as (k & Ek & Hlk).
    destruct (Hrow r 0 k) as (v' & Hv' & ? & ?); [apply lookup_replicate_2; lia|done|]. exists k. simplify_eq. split_and!; [done|lia|lia|lia]. }
  destruct (PrepareSortData_ok n C V HV Hmax HC) as (kv & ptrs & Ep & Hly); [|done|].
  { apply Forall_lookup_2. intros r v Hv. destruct (HVk r v Hv) as (k & _ & ? & ? & ?). lia. }
  rewrite Ep. cbn [mbind result_bind]. pose proof (ly_length _ _ _ Hly) as Hlp. rewrite length_fmap in Hlp.
  destruct (fill_ok cols _ ptrs kv (replicate n []) n Hly) as (kv' & Ef & Hkv'); [apply length_replicate|lia|done| | |].
  { intros r part [-> _]%lookup_replicate. done. }
  { intros r part [-> Hr]%lookup_replicate. destruct (lookup_lt_is_Some_2 V r) as [v Hv]; [lia|]. destruct (HVk r v Hv) as (k & Ek & _ & Hlen & _).
    exists k. split; [done|]. rewrite list_lookup_fmap, Hv. simpl. f_equal. lia. }
  rewrite fmap_replicate in Ef. exists kv'. split; [exact Ef|]. intros r Hr. destruct (Hk r Hr) as (k & Ek & _).
  rewrite (Hkv' r [] k); [done|by apply lookup_replicate_2|done].
Qed.
End prepare.
