(* ===== verification/TopN.v ===== *)
(** * Top-N ([execution/sort/top_n_heap.cpp])

    The n-bounded heap behind ORDER BY ... LIMIT n: entries with their encoded key and the index of their
    row in a growing payload, a prefilter on the first integer key, the merge of the workers' heaps and
    the compaction of the payload.  The standard library's heap and sort algorithms are an interface: what
    the standard promises of them and no more, so that the choice among equal keys stays open. *)

From Stdlib Require Import Floats.SpecFloat.
From stdpp Require Import sorting.
From S2P Require Import Prelude TablePage TableHeap BTreePage BPlusTree GenericKey StringHeap ValidityMask SortKey VectorOps SortKeyOrder SortKeyWrite.

(** ** [std::push_heap], [std::pop_heap] and [std::sort] over a strict weak order *)

Class HeapAlgorithms {E : Type} (lt : E → E → bool) := {
  is_heap : list E → Prop;
  push_heap : list E → list E;       (** the last element joins the heap before it *)
  pop_heap : list E → list E;        (** the front moves to the back, the rest is a heap *)
  sort_ : list E → list E;
  is_heap_nil : is_heap [];
  is_heap_front x l : is_heap (x :: l) → Forall (λ y, lt x y = false) l;
  push_heap_spec l x : is_heap l → is_heap (push_heap (l ++ [x])) ∧ push_heap (l ++ [x]) ≡ₚ x :: l;
  pop_heap_spec x l : is_heap (x :: l) → ∃ l', pop_heap (x :: l) = l' ++ [x] ∧ is_heap l' ∧ l' ≡ₚ l;
  is_heap_ext l l' : Forall2 (λ a b, ∀ x, lt a x = lt b x ∧ lt x a = lt x b) l l' → is_heap l → is_heap l';
  sort_spec l : sort_ l ≡ₚ l ∧ StronglySorted (λ a b, lt b a = false) (sort_ l) }.

Record TopNEntry := mkEntry { key_ : list byte; index_ : nat; first_code_ : Z; first_valid_ : bool }.
Definition entry_lt (a b : TopNEntry) : bool := string_lt (key_ a) (key_ b).

Section topn.
Context {A : Type} `{!HeapAlgorithms entry_lt} (junk : byte) (junk_cell : cell).

(** The heap object; [payload_] holds the rows, [schema_] the types and directions of the key columns. *)
Record TopNHeap := mkTopN {
  heap_ : list TopNEntry;
  limit_ : nat;
  payload_ : list A;
  key_heap_ : StringHeap;
  prefilter_enabled_ : bool;
  first_desc_ : bool;
  first_type_ : PhysicalType;
  finalized_ : bool }.
Implicit Types h : TopNHeap.

Definition set_heap (es : list TopNEntry) h : TopNHeap :=
  mkTopN es (limit_ h) (payload_ h) (key_heap_ h) (prefilter_enabled_ h) (first_desc_ h) (first_type_ h) (finalized_ h).
Definition set_payload (p : list A) h : TopNHeap :=
  mkTopN (heap_ h) (limit_ h) p (key_heap_ h) (prefilter_enabled_ h) (first_desc_ h) (first_type_ h) (finalized_ h).
Definition set_key_heap (k : StringHeap) h : TopNHeap :=
  mkTopN (heap_ h) (limit_ h) (payload_ h) k (prefilter_enabled_ h) (first_desc_ h) (first_type_ h) (finalized_ h).
Definition set_finalized h : TopNHeap :=
  mkTopN (heap_ h) (limit_ h) (payload_ h) (key_heap_ h) (prefilter_enabled_ h) (first_desc_ h) (first_type_ h) true.

Definition new_TopNHeap (schema : list (PhysicalType * OrderType)) (limit : nat) : TopNHeap :=
  match schema with
  | [] => mkTopN [] limit [] [] false false STRING false
  | (ty, o) :: _ =>
      mkTopN [] limit [] [] (match int_kind ty with Some _ => true | None => false end) (bool_decide (o = DESCENDING)) ty false
  end.

Definition SIGN : Z := 0x8000000000000000.
(** [OrderCodeAt] and the codes of [PrefilterCodes]. *)
Definition OrderCode (ty : PhysicalType) (desc : bool) (z : Z) : Z :=
  let code := match int_kind ty with Some (true, _) => Z.lxor (u64 z) SIGN | Some (false, _) => u64 z | None => 0 end in
  if desc then u64 (Z.lnot code) else code.

(** The numbers and NULL flags of the flattened first key column. *)
Fixpoint read_column (v : Vector) (size : Z) (r : Z) (n : nat) : result (list (Z * bool)) :=
  match n with
  | O => Ok []
  | S n =>
      '(c, is_null) ← read_row v size r;
      match c with
      | CNum z => rest ← read_column v size (r + 1) n; Ok ((z, is_null) :: rest)
      | CStr _ => Err EUndefined
      end
  end.

Definition entry_front h : result TopNEntry := match heap_ h with e :: _ => Ok e | [] => Err EUndefined end.
Definition ShouldAdd (key : list byte) h : result bool :=
  if bool_decide (length (heap_ h) < limit_ h)%nat then Ok true else
  front ← entry_front h; Ok (string_lt key (key_ front)).
Definition Push (e : TopNEntry) h : TopNHeap :=
  let es := if bool_decide (limit_ h ≤ length (heap_ h))%nat
            then take (length (heap_ h) - 1) (pop_heap (heap_ h)) else heap_ h in
  set_heap (push_heap (es ++ [e])) h.

(** [key_heap_.AddString(key)]: the key as the heap holds it. *)
Definition add_key (key : list byte) h : result (list byte * TopNHeap) :=
  '(s, kh) ← AddBlob junk key (Z.of_nat (length key)) (key_heap_ h);
  Ok (str_bytes kh s, set_key_heap kh h).

(** The rows of a chunk at some indices. *)
Fixpoint gather (rows : list A) (sel : list nat) : result (list A) :=
  match sel with
  | [] => Ok []
  | i :: sel => match rows !! i with Some a => rest ← gather rows sel; Ok (a :: rest) | None => Err EUndefined end
  end.

Fixpoint add_keys (es : list TopNEntry) (kh : StringHeap) : result (list TopNEntry * StringHeap) :=
  match es with
  | [] => Ok ([], kh)
  | e :: es =>
      '(s, kh) ← AddBlob junk (key_ e) (Z.of_nat (length (key_ e))) kh;
      let e := mkEntry (str_bytes kh s) (index_ e) (first_code_ e) (first_valid_ e) in
      '(es, kh) ← add_keys es kh;
      Ok (e :: es, kh)
  end.
Definition Reduce (force : bool) h : result TopNHeap :=
  if negb force && bool_decide (Z.of_nat (length (payload_ h)) < Z.max (2 * STANDARD_VECTOR_SIZE) (2 * Z.of_nat (limit_ h))) then Ok h else
  if bool_decide (length (payload_ h) = length (heap_ h)) then Ok h else
  rows ← gather (payload_ h) (index_ <$> heap_ h);
  let es := imap (λ i e, mkEntry (key_ e) i (first_code_ e) (first_valid_ e)) (heap_ h) in
  '(es, kh) ← add_keys es [];
  Ok (set_key_heap kh (set_payload rows (set_heap es h))).

(** [append_sel_] has room for a vector or for [limit] rows. *)
Definition append_capacity h : Z := Z.max STANDARD_VECTOR_SIZE (Z.of_nat (limit_ h)).

(** The entry of key row [i], with the order code of its first column when the prefilter is on; and the
    input row it stands for. *)
Definition make_entry (first : option (list (Z * bool))) (i : nat) (key : list byte) (row : nat) h : result TopNEntry :=
  match first with
  | None => Ok (mkEntry key row 0 false)
  | Some col =>
      match (col : list (Z * bool)) !! i with
      | Some (z, is_null) =>
          Ok (mkEntry key row (if is_null : bool then 0 else OrderCode (first_type_ h) (first_desc_ h) z) (negb is_null))
      | None => Err EUndefined
      end
  end.
Definition source_row (sel : option (list nat)) (i : nat) : result nat :=
  match sel with
  | None => Ok i
  | Some s => match (s : list nat) !! i with Some j => Ok j | None => Err EUndefined end
  end.

(** The row loop of [SinkRows]: [added] are the input rows that entered the heap, [first] the flattened
    first key column when the prefilter is on, [sel] maps a key row to its input row. *)
Fixpoint sink_loop (keys : list (list byte)) (first : option (list (Z * bool))) (sel : option (list nat)) (i row : nat)
    (added : list nat) h : result (list nat * TopNHeap) :=
  match keys with
  | [] => Ok (added, h)
  | key :: keys =>
      should ← ShouldAdd key h;
      if negb should then sink_loop keys first sel (S i) row added h else
      '(k, h) ← add_key key h;
      entry ← make_entry first i k row h;
      j ← source_row sel i;
      if bool_decide (append_capacity h ≤ Z.of_nat (length added)) then Err EUndefined else
      sink_loop keys first sel (S i) (S row) (added ++ [j]) (Push entry h)
  end.
Definition SinkRows (input : list A) (cols : list SortColumn) (sel : option (list nat)) (count : nat) h : result TopNHeap :=
  kv ← CreateSortKey junk cols count;
  first ← match prefilter_enabled_ h, cols with
          | true, col :: _ => f ← read_column (sc_vector col) (Z.of_nat count) 0 count; Ok (Some f)
          | true, [] => Err EUndefined
          | false, _ => Ok None
          end;
  '(added, h) ← sink_loop (key_bytes kv <$> seq 0 count) first sel 0 (length (payload_ h)) [] h;
  match added with
  | [] => Ok h
  | _ => rows ← gather input added; Reduce false (set_payload (payload_ h ++ rows) h)
  end.

(** [PrefilterCodes]: the rows that may still qualify. *)
Fixpoint prefilter (ty : PhysicalType) (desc : bool) (threshold : Z) (i : nat) (col : list (Z * bool)) : list nat :=
  match col with
  | [] => []
  | (z, is_null) :: col =>
      if is_null || bool_decide (OrderCode ty desc z ≤ threshold) then i :: prefilter ty desc threshold (S i) col
      else prefilter ty desc threshold (S i) col
  end.

(** [keys.data_[0].Normalify(count)]. *)
Definition flatten_first (count : nat) (cols : list SortColumn) : result (list SortColumn) :=
  match cols with
  | [] => Err EUndefined
  | col :: cols => col ← normalify_column junk junk_cell count col; Ok (col :: cols)
  end.

Definition Sink (input : list A) (cols : list SortColumn) h : result TopNHeap :=
  let count := length input in
  if bool_decide (limit_ h = 0%nat) || bool_decide (count = 0%nat) then Ok h else
  cols ← (if prefilter_enabled_ h then flatten_first count cols else Ok cols);
  if prefilter_enabled_ h && bool_decide (limit_ h ≤ length (heap_ h))%nat then
    front ← entry_front h;
    if first_valid_ front then
      match cols with
      | [] => Err EUndefined
      | col :: _ =>
          first ← read_column (sc_vector col) (Z.of_nat count) 0 count;
          if bool_decide (STANDARD_VECTOR_SIZE < Z.of_nat count) then Err EUndefined else
          let cand := prefilter (first_type_ h) (first_desc_ h) (first_code_ front) 0 first in
          if bool_decide (cand = []) then Ok h
          else if bool_decide (length cand < count)%nat then
            cand_keys ← slice_columns (Z.of_nat <$> cand) (length cand) cols;
            cand_keys ← normalify_columns junk junk_cell (length cand) cand_keys;
            SinkRows input cand_keys (Some cand) (length cand) h
          else SinkRows input cols None count h
      end
    else SinkRows input cols None count h
  else SinkRows input cols None count h.

Definition TopN_Finalize h : result TopNHeap :=
  if finalized_ h then Ok h else
  h ← Reduce true (set_heap (sort_ (heap_ h)) h);
  Ok (set_finalized h).

(** The loop of [Combine] over the other heap's entries, best first. *)
Fixpoint combine_loop (es : list TopNEntry) (row : nat) (added : list nat) h : result (list nat * TopNHeap) :=
  match es with
  | [] => Ok (added, h)
  | e :: es =>
      should ← ShouldAdd (key_ e) h;
      if negb should then Ok (added, h) else
      if bool_decide (append_capacity h ≤ Z.of_nat (length added)) then Err EUndefined else
      '(k, h) ← add_key (key_ e) h;
      combine_loop es (S row) (added ++ [index_ e]) (Push (mkEntry k row (first_code_ e) (first_valid_ e)) h)
  end.
Definition TopN_Combine (other : TopNHeap) h : result TopNHeap :=
  if bool_decide (limit_ h = 0%nat) || bool_decide (heap_ other = []) then Ok h else
  other ← TopN_Finalize other;
  '(added, h) ← combine_loop (heap_ other) (length (payload_ h)) [] h;
  match added with
  | [] => Ok h
  | _ => rows ← gather (payload_ other) added; Reduce false (set_payload (payload_ h ++ rows) h)
  end.

(** The rows of one output page. *)
Definition TopN_GetData (pos : nat) h : result (list A) :=
  if negb (finalized_ h) then Err (EAssert "TopNHeap::GetData before Finalize") else
  let count := Nat.min (Z.to_nat STANDARD_VECTOR_SIZE) (length (heap_ h) - pos) in
  gather (payload_ h) (index_ <$> take count (drop pos (heap_ h))).
End topn.
Arguments TopNHeap : clear implicits.

(** * What a top-N heap keeps

    The rows offered so far are those the heap holds plus the dropped ones, and no dropped row sorts
    before a held one; the prefilter only skips rows that would be dropped. *)

(** ** The order of keys *)

Definition skey_le (a b : list byte) : Prop := string_lt b a = false.
Lemma skey_le_bcmp a b : skey_le a b ↔ bcmp a b ≠ Gt.
Proof.
  unfold skey_le. rewrite (proj1 (operators_spec b a)), (bcmp_antisym a b). rewrite bool_decide_eq_false. by destruct (bcmp a b).
Qed.
#[global] Instance skey_le_preorder : PreOrder skey_le.
Proof.
  split.
  - intros a. apply skey_le_bcmp. by rewrite bcmp_refl.
  - intros a b c. rewrite !skey_le_bcmp. intros H1 H2.
    destruct (bcmp a b) eqn:E1; [apply bcmp_eq in E1 as ->; done| |done].
    destruct (bcmp b c) eqn:E2; [apply bcmp_eq in E2 as <-; by rewrite E1| |done]. by rewrite (bcmp_lt_trans _ _ _ E1 E2).
Qed.
Lemma string_lt_le a b : string_lt a b = true → skey_le a b.
Proof. intros H%string_lt_spec. apply skey_le_bcmp. by rewrite H. Qed.

Section invariant.
Context {A : Type} `{!HeapAlgorithms entry_lt} (junk : byte).
Implicit Types (h : TopNHeap A) (pl : list A).

(** A key with its row, held (the row at the entry's index) or offered. *)
Definition held pl (e : TopNEntry) : list byte * option A := (key_ e, pl !! index_ e).
Definition tag (p : list byte * A) : list byte * option A := (p.1, Some p.2).

Definition order_of (desc : bool) : OrderType := if desc then DESCENDING else ASCENDING.
(** A cached order code is that of the number the key starts with. *)
Definition code_ok (enabled : bool) (ty : PhysicalType) (desc : bool) (e : TopNEntry) : Prop :=
  enabled = true → first_valid_ e = true →
  ∃ z k rest, orderable ty (CNum z) ∧ first_code_ e = OrderCode ty desc z ∧
    encode_value ty (order_of desc) (Some (CNum z)) = Ok k ∧ key_ e = k ++ rest.
Definition entries_ok h : Prop :=
  Forall (λ e, Z.of_nat (length (key_ e)) < MINIMUM_HEAP_SIZE ∧ code_ok (prefilter_enabled_ h) (first_type_ h) (first_desc_ h) e) (heap_ h).

Record topn_inv pl (offered : list (list byte * A)) h : Prop := {
  ti_len : (length (heap_ h) ≤ limit_ h)%nat;
  ti_wf : heap_wf (key_heap_ h);
  ti_entries : entries_ok h;
  ti_rows : ∃ dropped, tag <$> offered ≡ₚ (held pl <$> heap_ h) ++ dropped ∧
      (∀ e d, e ∈ heap_ h → d ∈ dropped → skey_le (key_ e) d.1) ∧
      (dropped ≠ [] → length (heap_ h) = limit_ h) }.

(** What no operation changes. *)
Definition same_config h h' : Prop :=
  limit_ h' = limit_ h ∧ prefilter_enabled_ h' = prefilter_enabled_ h ∧ first_desc_ h' = first_desc_ h ∧ first_type_ h' = first_type_ h.

Lemma same_config_refl h : same_config h h.
Proof. by split_and!. Qed.
Lemma same_config_trans h1 h2 h3 : same_config h1 h2 → same_config h2 h3 → same_config h1 h3.
Proof. intros (?&?&?&?) (?&?&?&?). split_and!; congruence. Qed.

Lemma held_in pl offered h e : topn_inv pl offered h → e ∈ heap_ h → ∃ a, pl !! index_ e = Some a.
Proof.
  intros [_ _ _ (dropped & Hp & _)] He. assert (held pl e ∈ tag <$> offered) as Hin.
  { rewrite Hp. apply elem_of_app. left. by apply list_elem_of_fmap_2. }
  apply list_elem_of_fmap_1 in Hin as (p & E & _). injection E as _ E. by exists p.2.
Qed.
(** Rows added to the payload change nothing for the entries held. *)
Lemma held_grow pl pl' offered h : topn_inv pl offered h → held (pl ++ pl') <$> heap_ h = held pl <$> heap_ h.
Proof.
  intros Hinv. apply list_fmap_ext. intros i e He%list_elem_of_lookup_2. unfold held. f_equal.
  destruct (held_in _ _ _ _ Hinv He) as [a Ha]. by rewrite Ha, (lookup_app_l_Some _ _ _ _ Ha).
Qed.

(** The front of the heap is its greatest key. *)
Lemma front_greatest x l e : is_heap (x :: l) → e ∈ x :: l → skey_le (key_ e) (key_ x).
Proof.
  intros Hh [->|He]%elem_of_cons; [done|]. pose proof (is_heap_front x l Hh) as Hf. rewrite Forall_forall in Hf. by apply Hf.
Qed.

Lemma add_key_ok key h :
  heap_wf (key_heap_ h) → Z.of_nat (length key) < MINIMUM_HEAP_SIZE →
  ∃ kh, add_key junk key h = Ok (key, set_key_heap kh h) ∧ heap_wf kh.
Proof.
  intros Hwf Hl. destruct (AddBlob_ok junk key (key_heap_ h) Hwf Hl) as (s & kh & E & Hwf' & _ & Hb & _).
  exists kh. unfold add_key. rewrite E. simpl. by rewrite Hb.
Qed.

(** A row that does not qualify is dropped: the heap is full of keys at most as great. *)
Lemma drop_ok pl offered h key a :
  topn_inv pl offered h → (limit_ h ≤ length (heap_ h))%nat → (∀ e, e ∈ heap_ h → skey_le (key_ e) key) →
  topn_inv pl (offered ++ [(key, a)]) h.
Proof.
  intros [Hl Hwf He (dropped & Hp & Hb & Hf)] Hfull Hge. split; [done..|]. exists (dropped ++ [(key, Some a)]). split_and!.
  - rewrite fmap_app, Hp. simpl. by rewrite <- (assoc_L (++)).
  - intros e d Hin [Hd| ->%list_elem_of_singleton]%elem_of_app; [by apply Hb|by apply Hge].
  - intros _. lia.
Qed.

(** A row that qualifies replaces the front, or joins a heap that is not full. *)
Lemma push_ok pl offered h e a :
  topn_inv pl offered h → is_heap (heap_ h) → (0 < limit_ h)%nat → ShouldAdd (key_ e) h = Ok true → index_ e = length pl →
  Z.of_nat (length (key_ e)) < MINIMUM_HEAP_SIZE → code_ok (prefilter_enabled_ h) (first_type_ h) (first_desc_ h) e →
  topn_inv (pl ++ [a]) (offered ++ [(key_ e, a)]) (Push e h) ∧ is_heap (heap_ (Push e h)).
Proof.
  intros Hinv Hh H0 Hadd Hidx Hkl Hcode. pose proof (held_grow pl [a] offered h Hinv) as Hgrow.
  destruct Hinv as [Hl Hwf He (dropped & Hp & Hb & Hf)]. unfold ShouldAdd in Hadd. unfold Push.
  assert (held (pl ++ [a]) e = tag (key_ e, a)) as Hnew.
  { unfold held, tag. by rewrite Hidx, lookup_app_r, Nat.sub_diag by lia. }
  case_bool_decide as Hroom.
  - rewrite bool_decide_false by lia. destruct (push_heap_spec (heap_ h) e Hh) as [Hh' Hp']. split; [|done]. split.
    + simpl. rewrite Hp'. simpl. lia.
    + done.
    + unfold entries_ok. cbn [heap_ set_heap prefilter_enabled_ first_type_ first_desc_]. rewrite Hp'. by constructor.
    + assert (dropped = []) as -> by (destruct dropped; [done|]; specialize (Hf ltac:(done)); lia).
      exists []. cbn [heap_ set_heap limit_]. rewrite app_nil_r in *. split_and!; [|set_solver|done].
      rewrite Hp', fmap_app, Hp, !fmap_cons, Hnew, Hgrow. simpl. by rewrite (comm (++)).
  - destruct (heap_ h) as [|x l] eqn:Eh; [simpl in *; lia|]. rewrite bool_decide_true by lia.
    unfold entry_front in Hadd. rewrite Eh in Hadd. cbn [mbind result_bind] in Hadd. injection Hadd as Hadd.
    pose proof (string_lt_le _ _ Hadd) as Hlt. destruct (pop_heap_spec x l Hh) as (l' & -> & Hl' & Hpl').
    cbn [length] in *. replace (S (length l) - 1)%nat with (length l') by (rewrite Hpl'; lia). rewrite take_app_length.
    destruct (push_heap_spec l' e Hl') as [Hh' Hp'']. assert (push_heap (l' ++ [e]) ≡ₚ e :: l) as Hp' by (etrans; [exact Hp''|by constructor]).
    split; [|done]. unfold entries_ok in He. rewrite Eh in He. apply Forall_cons in He as [Hx He].
    split.
    + simpl. rewrite Hp'. simpl. lia.
    + done.
    + unfold entries_ok. cbn [heap_ set_heap prefilter_enabled_ first_type_ first_desc_]. rewrite Hp'. by constructor.
    + rewrite fmap_cons in Hp, Hgrow. injection Hgrow as Hgx Hgl. exists (held pl x :: dropped). cbn [heap_ set_heap limit_]. split_and!.
      * rewrite Hp', fmap_app, Hp, !fmap_cons, Hnew, Hgl. simpl. solve_Permutation.
      * intros e' d. rewrite Hp'. intros [->|He']%elem_of_cons [->|Hd]%elem_of_cons; simpl.
        -- done.
        -- etrans; [exact Hlt|]. apply Hb; set_solver.
        -- apply (front_greatest x l); set_solver.
        -- apply Hb; set_solver.
      * intros _. rewrite Hp'. simpl. lia.
Qed.

(** ** Compaction *)

Lemma gather_rows_ok (rows : list A) sel out : Forall2 (λ i a, rows !! i = Some a) sel out → gather rows sel = Ok out.
Proof. induction 1 as [|i a sel out E _ IH]; simpl; [done|]. by rewrite E, IH. Qed.

Lemma gather_app (rows : list A) l1 l2 r1 r2 :
  gather rows l1 = Ok r1 → gather rows l2 = Ok r2 → gather rows (l1 ++ l2) = Ok (r1 ++ r2).
Proof.
  revert r1. induction l1 as [|x l1 IH]; intros r1 E1 E2; simpl in *; [by injection E1 as <-|]. destruct (rows !! x); [|done].
  destruct (gather rows l1) as [r|]; simpl in E1; [|done]. injection E1 as <-. by rewrite (IH r eq_refl E2).
Qed.

Lemma add_keys_ok es : ∀ kh,
  heap_wf kh → Forall (λ e, Z.of_nat (length (key_ e)) < MINIMUM_HEAP_SIZE) es →
  ∃ kh', add_keys junk es kh = Ok (es, kh') ∧ heap_wf kh'.
Proof.
  induction es as [|e es IH]; intros kh Hwf Hes; simpl; [by exists kh|]. apply Forall_cons in Hes as [He Hes].
  destruct (AddBlob_ok junk (key_ e) kh Hwf He) as (s & kh1 & E & Hwf1 & _ & Hb & _). rewrite E. simpl. rewrite Hb.
  destruct (IH kh1 Hwf1 Hes) as (kh' & E' & Hwf'). rewrite E'. simpl. exists kh'. split; [|done]. by destruct e.
Qed.

Lemma Forall2_same_order es es' :
  Forall2 (λ a b, key_ a = key_ b) es es' → Forall2 (λ a b, ∀ x, entry_lt a x = entry_lt b x ∧ entry_lt x a = entry_lt x b) es es'.
Proof. intros H. eapply Forall2_impl; [exact H|]. intros a b E x. unfold entry_lt. by rewrite E. Qed.

Lemma Reduce_ok force offered h :
  topn_inv (payload_ h) offered h →
  ∃ h', Reduce junk force h = Ok h' ∧ topn_inv (payload_ h') offered h' ∧ same_config h h' ∧ finalized_ h' = finalized_ h ∧
    held (payload_ h') <$> heap_ h' = held (payload_ h) <$> heap_ h.
Proof.
  intros Hinv. unfold Reduce. pose proof (same_config_refl h). destruct (negb force && _); [by exists h|].
  destruct (bool_decide (length (payload_ h) = length (heap_ h))); [by exists h|].
  assert (∃ rows, Forall2 (λ e a, payload_ h !! index_ e = Some a) (heap_ h) rows) as [rows Hrows].
  { pose proof (λ e, held_in _ _ _ e Hinv) as Hin. induction (heap_ h) as [|e es IH]; [by exists []|].
    destruct IH as [rows Hr]; [intros; apply Hin; set_solver|]. destruct (Hin e) as [a Ha]; [set_solver|]. exists (a :: rows). by constructor. }
  rewrite (gather_rows_ok _ _ rows) by (by apply Forall2_fmap_l). cbn [mbind result_bind].
  set (es := imap (λ i e, mkEntry (key_ e) i (first_code_ e) (first_valid_ e)) (heap_ h)).
  destruct Hinv as [Hl Hwf He (dropped & Hp & Hb & Hf)].
  assert (∀ P : TopNEntry → Prop, (∀ e i, P e → P (mkEntry (key_ e) i (first_code_ e) (first_valid_ e))) → Forall P (heap_ h) → Forall P es) as Hes.
  { intros P HP HF. apply Forall_lookup_2. intros i e' Hi. unfold es in Hi. rewrite list_lookup_imap in Hi.
    destruct (heap_ h !! i) as [e|] eqn:Ee; simpl in Hi; [|done]. injection Hi as <-. apply HP. by apply (Forall_lookup_1 _ _ _ _ HF Ee). }
  destruct (add_keys_ok es []) as (kh & E & Hwf'); [by apply Forall_nil| |].
  { apply Hes; [done|]. eapply Forall_impl; [exact He|]. naive_solver. }
  rewrite E. cbn [mbind result_bind]. eexists. split; [done|]. cbn [payload_ heap_ set_key_heap set_payload set_heap finalized_].
  assert (held rows <$> es = held (payload_ h) <$> heap_ h) as Hheld.
  { apply list_eq. intros i. unfold es. rewrite !list_lookup_fmap, list_lookup_imap. destruct (heap_ h !! i) as [e|] eqn:Ee; simpl; [|done].
    destruct (Forall2_lookup_l _ _ _ _ _ Hrows Ee) as (a & Ha & Hpa). unfold held. simpl. by rewrite Ha, Hpa. }
  split; [|by split_and!]. split; cbn [payload_ heap_ set_key_heap set_payload set_heap limit_ key_heap_].
  - unfold es. by rewrite length_imap.
  - done.
  - apply Hes; [|exact He]. intros e i [? Hc]. split; [done|]. exact Hc.
  - exists dropped. rewrite Hheld. split_and!; [done| |unfold es; by rewrite length_imap]. intros e d He' Hd.
    apply list_elem_of_lookup_1 in He' as [i Hi]. unfold es in Hi. rewrite list_lookup_imap in Hi.
    destruct (heap_ h !! i) as [e0|] eqn:Ee; simpl in Hi; [|done]. injection Hi as <-. simpl. apply Hb; [by eapply list_elem_of_lookup_2|done].
Qed.
(** Entries with the same keys in the same order are a heap or a sorted list together. *)
Lemma held_keys pl pl' es es' : held pl' <$> es' = held pl <$> es → Forall2 (λ a b, key_ a = key_ b) es es'.
Proof.
  revert es'. induction es as [|e es IH]; intros [|e' es'] E; simpl in E; try done. injection E as Ek _ E. constructor; [done|]. by apply IH.
Qed.
Lemma held_is_heap pl pl' es es' : held pl' <$> es' = held pl <$> es → is_heap es → is_heap es'.
Proof. intros E. apply is_heap_ext. by eapply Forall2_same_order, held_keys. Qed.

(** ** Offering rows *)

(** [ShouldAdd] on a heap with a positive limit. *)
Lemma ShouldAdd_ok offered pl key h :
  topn_inv pl offered h → is_heap (heap_ h) → (0 < limit_ h)%nat →
  ∃ b, ShouldAdd key h = Ok b ∧ (b = false → (limit_ h ≤ length (heap_ h))%nat ∧ ∀ e, e ∈ heap_ h → skey_le (key_ e) key).
Proof.
  intros Hinv Hh H0. unfold ShouldAdd, entry_front. case_bool_decide; [by exists true|].
  destruct (heap_ h) as [|x l] eqn:Eh; [simpl in *; lia|]. cbn [mbind result_bind]. eexists. split; [done|]. intros Hb. split; [lia|].
  intros e He. etrans; [by apply (front_greatest x l)|done].
Qed.

(** One iteration over a key and its row. *)
Lemma offer_ok pl offered h key a :
  topn_inv pl offered h → is_heap (heap_ h) → (0 < limit_ h)%nat → Z.of_nat (length key) < MINIMUM_HEAP_SIZE →
  (ShouldAdd key h = Ok false ∧ topn_inv pl (offered ++ [(key, a)]) h) ∨
  (ShouldAdd key h = Ok true ∧ ∃ kh, add_key junk key h = Ok (key, set_key_heap kh h) ∧
     ∀ code valid, code_ok (prefilter_enabled_ h) (first_type_ h) (first_desc_ h) (mkEntry key (length pl) code valid) →
       topn_inv (pl ++ [a]) (offered ++ [(key, a)]) (Push (mkEntry key (length pl) code valid) (set_key_heap kh h)) ∧
       is_heap (heap_ (Push (mkEntry key (length pl) code valid) (set_key_heap kh h)))).
Proof.
  intros Hinv Hh H0 Hl. destruct (ShouldAdd_ok offered pl key h Hinv Hh H0) as ([] & E & Hb).
  - right. split; [done|]. destruct (add_key_ok key h (ti_wf _ _ _ Hinv) Hl) as (kh & Ek & Hwf). exists kh. split; [done|].
    intros code valid Hc. apply (push_ok pl offered (set_key_heap kh h) (mkEntry key (length pl) code valid) a); try done.
    destruct Hinv as [? ? ? ?]. by split.
  - left. split; [done|]. destruct (Hb eq_refl). by apply drop_ok.
Qed.

(** The row loop, over the keys from row [i] on and the input rows they stand for. *)
Lemma sink_loop_ok first sel input rem : ∀ i added rows pl offered h,
  topn_inv (pl ++ rows) offered h → is_heap (heap_ h) → (0 < limit_ h)%nat → gather input added = Ok rows → length added = length rows →
  (length added + length rem ≤ Z.to_nat STANDARD_VECTOR_SIZE)%nat →
  (∀ j key a, rem !! j = Some (key, a) → Z.of_nat (length key) < MINIMUM_HEAP_SIZE ∧
     (∃ s, source_row sel (i + j) = Ok s ∧ input !! s = Some a) ∧
     ∀ n h', same_config h h' → ∃ code valid, make_entry first (i + j) key n h' = Ok (mkEntry key n code valid) ∧
       code_ok (prefilter_enabled_ h) (first_type_ h) (first_desc_ h) (mkEntry key n code valid)) →
  ∃ added' rows' h', sink_loop junk rem.*1 first sel i (length (pl ++ rows)) added h = Ok (added', h') ∧
    gather input added' = Ok rows' ∧ topn_inv (pl ++ rows') (offered ++ rem) h' ∧ is_heap (heap_ h') ∧ same_config h h' ∧
    payload_ h' = payload_ h ∧ finalized_ h' = finalized_ h ∧ (added' = [] → rows' = []).
Proof.
  induction rem as [|[key a] rem IH]; intros i added rows pl offered h Hinv Hh H0 Hg Hlg Hcap Hrem; cbn [sink_loop fmap list_fmap fst].
  - exists added, rows, h. rewrite app_nil_r. split_and!; try done. intros ->. by injection Hg.
  - destruct (Hrem 0%nat key a eq_refl) as (Hkl & (s & Hs & Ha) & Hmake). rewrite Nat.add_0_r in *. cbn [length] in Hcap.
    assert (∀ j k b, rem !! j = Some (k, b) → Z.of_nat (length k) < MINIMUM_HEAP_SIZE ∧ (∃ s, source_row sel (S i + j) = Ok s ∧ input !! s = Some b) ∧
      ∀ n h', same_config h h' → ∃ code valid, make_entry first (S i + j) k n h' = Ok (mkEntry k n code valid) ∧
        code_ok (prefilter_enabled_ h) (first_type_ h) (first_desc_ h) (mkEntry k n code valid)) as Hrem'.
    { intros j k b Hj. replace (S i + j)%nat with (i + S j)%nat by lia. by apply (Hrem (S j)). }
    destruct (offer_ok (pl ++ rows) offered h key a Hinv Hh H0 Hkl) as [[E Hinv']|(E & kh & Ek & Hpush)]; rewrite E; cbn [mbind result_bind negb].
    + destruct (IH (S i) added rows pl (offered ++ [(key, a)]) h Hinv' Hh H0 Hg Hlg ltac:(lia) Hrem') as (added' & rows' & h' & ? & ? & Hi & ?).
      exists added', rows', h'. rewrite <- (assoc_L (++)) in Hi. done.
    + rewrite Ek. cbn [mbind result_bind]. destruct (Hmake (length (pl ++ rows)) (set_key_heap kh h)) as (code & valid & Em & Hc); [done|].
      rewrite Em. cbn [mbind result_bind]. rewrite Hs. cbn [mbind result_bind].
      rewrite bool_decide_false by (unfold append_capacity, STANDARD_VECTOR_SIZE in *; lia).
      destruct (Hpush code valid Hc) as [Hinv' Hh']. rewrite <- (assoc_L (++)) in Hinv'.
      replace (S (length (pl ++ rows))) with (length (pl ++ rows ++ [a])) by (rewrite !length_app; simpl; lia).
      destruct (IH (S i) (added ++ [s]) (rows ++ [a]) pl (offered ++ [(key, a)]) _ Hinv' Hh') as (added' & rows' & h' & E' & Hg' & Hi & Hh2 & Hc2 & Hpl & Hfin & He).
      * done.
      * apply gather_app; [done|]. simpl. by rewrite Ha.
      * rewrite !length_app. simpl. lia.
      * rewrite length_app. simpl. lia.
      * exact Hrem'.
      * exists added', rows', h'. rewrite <- (assoc_L (++)) in Hi. split_and!; try done.
Qed.
End invariant.
