(* ===== verification/TopNSteps.v ===== *)
(** * Chunks offered to a top-N heap: the prefilter, [Sink], [Combine], [Finalize] and [GetData] *)

From Stdlib Require Import Floats.SpecFloat.
From stdpp Require Import sorting.
From S2P Require Import Prelude TablePage TableHeap BTreePage BPlusTree GenericKey StringHeap ValidityMask SortKey VectorOps SortKeyOrder SortKeyWrite TopN.

(** ** Order codes *)

Lemma lxor_sign a : 0 ≤ a < 2 ^ 63 → Z.lxor a SIGN = a + 2 ^ 63 ∧ Z.lxor (a + 2 ^ 63) SIGN = a.
Proof.
  intros Ha. assert (Z.lxor a SIGN = a + 2 ^ 63) as E.
  { change SIGN with (1 * 2 ^ 63). pose proof (lor_add a 1 63 ltac:(lia) Ha) as El. rewrite <- El at 1.
    rewrite Z.lxor_lor; [by rewrite El|]. apply Z.bits_inj'. intros n Hn. rewrite Z.land_spec, Z.bits_0, Z.mul_1_l.
    destruct (decide (n = 63)) as [->|]; [|rewrite Z.pow2_bits_false by lia; apply andb_false_r].
    destruct (decide (a = 0)) as [->|]; [by rewrite Z.bits_0|]. rewrite (Z.bits_above_log2 a 63); [done|lia|]. apply Z.log2_lt_pow2; lia. }
  split; [done|]. rewrite <- E, Z.lxor_assoc, Z.lxor_nilpotent. apply Z.lxor_0_r.
Qed.

(** On the numbers of an integer column the codes are ordered as the column is. *)
Lemma OrderCode_order ty desc z z' :
  orderable ty (CNum z) → orderable ty (CNum z') → int_kind ty ≠ None →
  (OrderCode ty desc z ?= OrderCode ty desc z') = value_cmp ty (order_of desc) (Some (CNum z)) (Some (CNum z')).
Proof.
  intros Hz Hz' Hk. destruct (int_kind ty) as [[s n]|] eqn:Ek; [|done].
  assert (cell_cmp ty (CNum z) (CNum z') = (z ?= z')) as Hc by (by destruct ty).
  assert (int_min (s, n) ≤ z ≤ int_max (s, n) ∧ int_min (s, n) ≤ z' ≤ int_max (s, n)) as [Hr Hr'].
  { assert (∀ z, orderable ty (CNum z) → int_min (s, n) ≤ z ≤ int_max (s, n)) as H; [|split; by apply H].
    intros x. destruct ty; try done; intros (k & Hk' & ?); rewrite Ek in Hk'; by injection Hk' as <-. }
  assert (∀ x, int_min (s, n) ≤ x ≤ int_max (s, n) → if s then - 2 ^ 63 ≤ x < 2 ^ 63 else 0 ≤ x < 2 ^ 64) as H64.
  { intros x. unfold int_min, int_max. destruct ty; try done; injection Ek as <- <-; simpl Z.pow; cbn [fst snd]; simpl Z.of_nat; simpl Z.mul; simpl Z.sub; simpl Z.pow; lia. }
  assert (∀ x, int_min (s, n) ≤ x ≤ int_max (s, n) →
    match int_kind ty with Some (true, _) => Z.lxor (u64 x) SIGN | Some (false, _) => u64 x | None => 0 end = if s then x + 2 ^ 63 else x) as Hcode.
  { intros x Hx%H64. rewrite Ek. unfold u64, wrap_u. destruct s; [|by apply Z.mod_small].
    destruct (decide (0 ≤ x)).
    - rewrite Z.mod_small by lia. exact (proj1 (lxor_sign x ltac:(lia))).
    - rewrite <- (Z.mod_add _ 1) by lia. rewrite Z.mod_small by lia.
      replace (x + 1 * 2 ^ 64) with (x + 2 ^ 63 + 2 ^ 63) by lia. exact (proj2 (lxor_sign (x + 2 ^ 63) ltac:(lia))). }
  unfold OrderCode, value_cmp. cbv zeta. rewrite !Hcode, Hc by done. pose proof (H64 z Hr). pose proof (H64 z' Hr').
  destruct desc; cbn [order_of]; [rewrite bool_decide_true by done|rewrite bool_decide_false by done].
  - assert (∀ c, 0 ≤ c < 2 ^ 64 → u64 (Z.lnot c) = 2 ^ 64 - 1 - c) as Hn.
    { intros c Hcc. unfold u64, wrap_u, Z.lnot. rewrite <- (Z.mod_add _ 1) by lia. rewrite Z.mod_small; lia. }
    rewrite !Hn by (destruct s; lia).
    destruct s; destruct (Z.compare_spec z z'); cbv iota; cbn [CompOpp]; first [apply Z.compare_eq_iff; lia|apply Z.compare_lt_iff; lia|apply Z.compare_gt_iff; lia].
  - destruct s; destruct (Z.compare_spec z z'); cbv iota; first [done|apply Z.compare_eq_iff; lia|apply Z.compare_lt_iff; lia|apply Z.compare_gt_iff; lia].
Qed.

(** ** Columns read and sliced *)

Lemma row_key_size cols n n' r : row_key cols n r = row_key cols n' r.
Proof. induction cols as [|col cols IH]; simpl; [done|]. unfold cell_key. by rewrite (read_row_size _ n n'), IH. Qed.

Lemma read_column_ok v size n : ∀ r,
  (∀ j, (j < n)%nat → ∃ z b, read_row v size (r + Z.of_nat j) = Ok (CNum z, b)) →
  ∃ l, read_column v size r n = Ok l ∧ length l = n ∧ ∀ j z b, l !! j = Some (z, b) → read_row v size (r + Z.of_nat j) = Ok (CNum z, b).
Proof.
  induction n as [|n IH]; intros r H; simpl; [by exists []|].
  destruct (H 0%nat ltac:(lia)) as (z & b & E). rewrite Z.add_0_r in E. rewrite E. simpl.
  destruct (IH (r + 1)) as (l & El & Hl & Hr). { intros j Hj. replace (r + 1 + Z.of_nat j) with (r + Z.of_nat (S j)) by lia. apply H. lia. }
  rewrite El. simpl. eexists. split; [done|]. simpl. split; [lia|]. intros [|j] z' b' Hj; simpl in Hj.
  - injection Hj as <- <-. by rewrite Z.add_0_r.
  - replace (r + Z.of_nat (S j)) with (r + 1 + Z.of_nat j) by lia. by apply Hr.
Qed.


(** The columns [cols'] hold at row [j] what [cols] hold at row [sel !! j]. *)
Definition same_columns (sel : list nat) : list SortColumn → list SortColumn → Prop :=
  Forall2 (λ col col', sc_type col' = sc_type col ∧ sc_order col' = sc_order col ∧
    ∀ j i, sel !! j = Some i → same_row (sc_vector col) (Z.of_nat i) (sc_vector col') (Z.of_nat j)).

Lemma EncodeOneRow_null ty flip c c' b : (b = false → c' = c) → EncodeOneRow ty flip c' b = EncodeOneRow ty flip c b.
Proof. intros H. unfold EncodeOneRow. destruct b; [done|]. by rewrite H. Qed.
Lemma same_columns_key sel cols cols' n n' j i :
  same_columns sel cols cols' → sel !! j = Some i → row_key cols' n' (Z.of_nat j) = row_key cols n (Z.of_nat i).
Proof.
  intros HF Hj. induction HF as [|col col' cols cols' (Ht & Ho & Hr) _ IH]; simpl; [done|].
  rewrite IH. unfold cell_key, flip_bytes_. rewrite Ht, Ho. destruct (Hr j i Hj n) as (c & c' & b & E & E' & Hc & _).
  rewrite E, (read_row_size _ n' n), E'. simpl. by rewrite (EncodeOneRow_null _ _ c c').
Qed.
Lemma same_columns_refl cols n :
  (∀ col r, col ∈ cols → (r < n)%nat → ∃ x, read_row (sc_vector col) (Z.of_nat n) (Z.of_nat r) = Ok x) →
  same_columns (seq 0 n) cols cols.
Proof.
  induction cols as [|col cols IH]; intros H; [by constructor|]. constructor; [|apply IH; set_solver]. split_and!; [done..|].
  intros j i [-> Hj]%lookup_seq. destruct (H col j) as [x E]; [set_solver|done|]. by eapply same_row_refl.
Qed.
Lemma same_columns_trans sel sel' sel'' cols cols' cols'' :
  same_columns sel cols cols' → same_columns sel' cols' cols'' → (∀ j i, sel'' !! j = Some i → ∃ k, sel' !! j = Some k ∧ sel !! k = Some i) →
  same_columns sel'' cols cols''.
Proof.
  intros H1. revert cols''. induction H1 as [|col col' cols cols' (Ht & Ho & Hr) _ IH]; intros cols'' H2 Hs; inversion H2 as [|? col'' ? ? (Ht' & Ho' & Hr') H2']; subst.
  - constructor.
  - constructor; [|by apply IH]. split_and!; [congruence..|]. intros j i Hj. destruct (Hs j i Hj) as (k & Hk & Hi).
    eapply same_row_trans; [by apply Hr|by apply Hr'].
Qed.

Section chunks.
Context {A : Type} `{!HeapAlgorithms entry_lt} (junk : byte) (junk_cell : cell).
Implicit Types (h : TopNHeap A) (input : list A).

(** A chunk of key columns that can be sunk: rows read, elements copy, keys are short enough for the string
    heap, and the first column of a prefiltered heap holds numbers of its type. *)
Record chunk_ok (enabled : bool) (ty : PhysicalType) (desc : bool) (cols : list SortColumn) (n : nat) : Prop := {
  ck_count : (0 < n)%nat ∧ Z.of_nat n ≤ STANDARD_VECTOR_SIZE;
  ck_cells : ∀ col r, col ∈ cols → (r < n)%nat →
    ∃ c b, read_row (sc_vector col) (Z.of_nat n) (Z.of_nat r) = Ok (c, b) ∧ storable (sc_type col) c b;
  ck_keys : ∀ r, (r < n)%nat → ∃ k, row_key cols (Z.of_nat n) (Z.of_nat r) = Ok k ∧ Z.of_nat (length k) < MINIMUM_HEAP_SIZE;
  ck_first : enabled = true → int_kind ty ≠ None ∧ ∃ col rest, cols = col :: rest ∧ sc_type col = ty ∧ flip_bytes_ col = desc ∧
    ∀ r, (r < n)%nat → ∃ z b, read_row (sc_vector col) (Z.of_nat n) (Z.of_nat r) = Ok (CNum z, b) ∧ (b = false → orderable ty (CNum z)) }.

Lemma chunk_ok_same enabled ty desc cols cols' n sel :
  chunk_ok enabled ty desc cols n → same_columns sel cols cols' → sel ≠ [] → Z.of_nat (length sel) ≤ STANDARD_VECTOR_SIZE →
  (∀ i, i ∈ sel → (i < n)%nat) → chunk_ok enabled ty desc cols' (length sel).
Proof.
  intros [Hn Hc Hk Hf] Hs Hne Hmax Hin.
  assert (∀ j, (j < length sel)%nat → ∃ i, sel !! j = Some i ∧ (i < n)%nat) as Hsel.
  { intros j Hj. destruct (lookup_lt_is_Some_2 sel j Hj) as [i Hi]. exists i. split; [done|]. by eapply Hin, list_elem_of_lookup_2. }
  split.
  - split; [|done]. destruct sel; simpl; [done|lia].
  - intros col' r Hcol Hr. apply list_elem_of_lookup_1 in Hcol as [p Hp]. destruct (Forall2_lookup_r _ _ _ _ _ Hs Hp) as (col & Hcol & Ht & _ & Hrow).
    destruct (Hsel r Hr) as (i & Hi & Hlt). destruct (Hrow r i Hi (Z.of_nat (length sel))) as (c & c' & b & E & E' & Hcc & Hkind).
    destruct (Hc col i ltac:(by eapply list_elem_of_lookup_2) Hlt) as (c0 & b0 & E0 & Hst). rewrite (read_row_size _ _ (Z.of_nat n)), E0 in E. injection E as <- <-.
    exists c', b0. split; [done|]. rewrite Ht. destruct b0; [|by rewrite Hcc].
    destruct (sc_type col); try done. simpl in Hst |- *. destruct Hst as (s & -> & _). destruct c' as [|s']; [done|]. by exists s'.
  - intros r Hr. destruct (Hsel r Hr) as (i & Hi & Hlt). rewrite (same_columns_key sel cols cols' (Z.of_nat n) _ r i Hs Hi). by apply Hk.
  - intros He. destruct (Hf He) as (Hki & col & rest & -> & Hty & Hd & Hrow). split; [done|].
    inversion Hs as [|? col' ? rest' (Ht & Ho & Hr) _]; subst. exists col', rest'. split_and!; [done|congruence|unfold flip_bytes_; by rewrite Ho|].
    intros r Hlt. destruct (Hsel r Hlt) as (i & Hi & Hin'). destruct (Hr r i Hi (Z.of_nat (length sel))) as (c & c' & b & E & E' & Hcc & Hkind).
    destruct (Hrow i Hin') as (z & b0 & E0 & Hz). rewrite (read_row_size _ _ (Z.of_nat n)), E0 in E. injection E as <- <-.
    destruct c' as [z'|]; [|done]. exists z', b0. split; [done|]. intros Hb. specialize (Hcc Hb). injection Hcc as ->. auto.
Qed.

(** ** Flattened and sliced chunks *)

Lemma normalify_column_ok col n :
  (0 < n)%nat → Z.of_nat n ≤ STANDARD_VECTOR_SIZE →
  (∀ r, (r < n)%nat → ∃ c b, read_row (sc_vector col) (Z.of_nat n) (Z.of_nat r) = Ok (c, b) ∧ storable (sc_type col) c b) →
  ∃ col', normalify_column junk junk_cell n col = Ok col' ∧ same_columns (seq 0 n) [col] [col'].
Proof.
  intros H0 Hmax Hr. destruct (Normalify_ok junk junk_cell (sc_type col) (sc_vector col) n H0 Hmax Hr) as (data & mask & E & Hs).
  unfold normalify_column. rewrite E. eexists. split; [done|]. constructor; [|done]. split_and!; [done..|]. intros j i [-> Hj]%lookup_seq. by apply Hs.
Qed.
Lemma same_columns_cons sel col col' cols cols' :
  same_columns sel [col] [col'] → same_columns sel cols cols' → same_columns sel (col :: cols) (col' :: cols').
Proof. intros H. inversion H. by constructor. Qed.
Lemma normalify_columns_ok cols n :
  (0 < n)%nat → Z.of_nat n ≤ STANDARD_VECTOR_SIZE →
  (∀ col r, col ∈ cols → (r < n)%nat → ∃ c b, read_row (sc_vector col) (Z.of_nat n) (Z.of_nat r) = Ok (c, b) ∧ storable (sc_type col) c b) →
  ∃ cols', normalify_columns junk junk_cell n cols = Ok cols' ∧ same_columns (seq 0 n) cols cols'.
Proof.
  intros H0 Hmax. induction cols as [|col cols IH]; intros Hr; simpl; [exists []; split; [done|constructor]|].
  destruct (normalify_column_ok col n H0 Hmax) as (col' & -> & Hs); [intros; apply Hr; set_solver|]. simpl.
  destruct IH as (cols' & -> & Hs'); [intros; apply Hr; set_solver|]. simpl. eexists. split; [done|]. by apply same_columns_cons.
Qed.
Lemma slice_columns_ok cols n sel :
  (∀ col i, col ∈ cols → i ∈ sel → ∃ x, read_row (sc_vector col) n (Z.of_nat i) = Ok x) →
  ∃ cols', slice_columns (Z.of_nat <$> sel) (length sel) cols = Ok cols' ∧ same_columns sel cols cols'.
Proof.
  induction cols as [|col cols IH]; intros H; simpl; [exists []; split; [done|constructor]|].
  destruct (Vector_Slice_ok (sc_vector col) n sel) as (v' & E & Hv'); [intros; apply (H col); set_solver|]. rewrite E. simpl.
  destruct IH as (cols' & E' & HF); [intros; apply H; set_solver|]. rewrite E'. simpl. eexists. split; [done|]. by constructor.
Qed.

(** The first column flattened when the prefilter reads it. *)
Lemma flatten_first_ok enabled ty desc cols n :
  chunk_ok enabled ty desc cols n →
  ∃ cols', (if enabled then flatten_first junk junk_cell n cols else Ok cols) = Ok cols' ∧ same_columns (seq 0 n) cols cols'.
Proof.
  intros [[H0 Hmax] Hc _ Hf]. pose proof (same_columns_refl cols n) as Hrefl.
  assert (same_columns (seq 0 n) cols cols) as Hsame by (apply Hrefl; intros col r Hcol Hr; destruct (Hc col r Hcol Hr) as (c & b & E & _); by exists (c, b)).
  destruct enabled; [|by exists cols]. destruct (Hf eq_refl) as (_ & col & rest & -> & _). unfold flatten_first.
  destruct (normalify_column_ok col n H0 Hmax) as (col' & -> & Hs); [intros; apply Hc; set_solver|]. simpl. eexists. split; [done|].
  apply same_columns_cons; [done|]. by inversion Hsame.
Qed.

(** ** Rows offered *)

Definition key_at (cols : list SortColumn) (r : nat) : list byte := match row_key cols 0 (Z.of_nat r) with Ok k => k | Err _ => [] end.
(** The keys and rows of a chunk at some indices. *)
Definition rows_at (cols : list SortColumn) input (sel : list nat) : list (list byte * A) :=
  omap (λ r, pair (key_at cols r) <$> input !! r) sel.
Definition chunk_rows (cols : list SortColumn) input : list (list byte * A) := rows_at cols input (seq 0 (length input)).

Lemma rows_at_lookup cols input sel :
  (∀ i, i ∈ sel → (i < length input)%nat) →
  length (rows_at cols input sel) = length sel ∧
  ∀ j i, sel !! j = Some i → ∃ a, input !! i = Some a ∧ rows_at cols input sel !! j = Some (key_at cols i, a).
Proof.
  induction sel as [|i sel IH]; intros Hin; [done|]. destruct (lookup_lt_is_Some_2 input i) as [a Ha]; [apply Hin; set_solver|].
  destruct IH as [Hl Hlk]; [set_solver|]. unfold rows_at in *. cbn [omap list_omap]. rewrite Ha. simpl. split; [by rewrite Hl|].
  intros [|j] i' Hj; simpl in Hj |- *; [injection Hj as <-; eauto|by apply Hlk].
Qed.
Lemma rows_at_same cols cols' input sel :
  same_columns (seq 0 (length input)) cols cols' → (∀ i, i ∈ sel → (i < length input)%nat) → rows_at cols' input sel = rows_at cols input sel.
Proof.
  intros Hs Hin. unfold rows_at. induction sel as [|i sel IH]; [done|]. cbn [omap list_omap]. rewrite IH by set_solver.
  assert (key_at cols' i = key_at cols i) as ->; [|done]. unfold key_at.
  rewrite (same_columns_key _ cols cols' 0 0 i i Hs); [done|]. apply lookup_seq. split; [done|]. apply Hin. set_solver.
Qed.

Lemma topn_inv_perm pl (offered offered' : list (list byte * A)) h : offered ≡ₚ offered' → topn_inv pl offered h → topn_inv pl offered' h.
Proof. intros Hp [H1 H2 H3 (dropped & Hd & ?)]. split; [done..|]. exists dropped. by rewrite <- Hp. Qed.
Lemma drop_all_ok pl rows : ∀ offered h,
  topn_inv pl offered h → (limit_ h ≤ length (heap_ h))%nat → (∀ p e, p ∈ rows → e ∈ heap_ h → skey_le (key_ e) p.1) →
  topn_inv pl (offered ++ rows) h.
Proof.
  induction rows as [|[key a] rows IH]; intros offered h Hinv Hfull Hge; [by rewrite app_nil_r|].
  rewrite (cons_middle (key, a)), (assoc_L (++)). apply IH; [|done|set_solver]. apply drop_ok; [done..|]. intros e He. apply (Hge (key, a)); set_solver.
Qed.

(** The prefilter splits the rows into those it keeps and those whose number is past the threshold. *)
Lemma prefilter_split ty desc threshold col : ∀ k,
  ∃ skipped, seq k (length col) ≡ₚ prefilter ty desc threshold k col ++ skipped ∧
    ∀ i, i ∈ skipped → ∃ z, (k ≤ i)%nat ∧ col !! (i - k)%nat = Some (z, false) ∧ threshold < OrderCode ty desc z.
Proof.
  induction col as [|[z b] col IH]; intros k; simpl; [exists []; split; [done|set_solver]|].
  destruct (IH (S k)) as (skipped & Hp & Hs).
  assert (∀ i, i ∈ skipped → ∃ z', (k ≤ i)%nat ∧ ((z, b) :: col) !! (i - k)%nat = Some (z', false) ∧ threshold < OrderCode ty desc z') as Hs'.
  { intros i Hi. destruct (Hs i Hi) as (z' & Hk & Hl & Ht). exists z'. split_and!; [lia| |done]. by replace (i - k)%nat with (S (i - S k)) by lia. }
  destruct (b || bool_decide (OrderCode ty desc z ≤ threshold)) eqn:E.
  - exists skipped. split; [|done]. by rewrite Hp.
  - apply orb_false_iff in E as [-> Hc%bool_decide_eq_false]. exists (k :: skipped). split; [rewrite Hp; by rewrite Permutation_middle|].
    intros i [->|Hi]%elem_of_cons; [|by apply Hs']. exists z. rewrite Nat.sub_diag. split_and!; [done|done|lia].
Qed.

(** A row whose number is past that of the front sorts after every entry. *)
Lemma skipped_after ty desc (front : TopNEntry) z k rest :
  int_kind ty ≠ None → code_ok true ty desc front → first_valid_ front = true → orderable ty (CNum z) → first_code_ front < OrderCode ty desc z →
  encode_value ty (order_of desc) (Some (CNum z)) = Ok k → skey_le (key_ front) (k ++ rest).
Proof.
  intros Hk Hc Hv Hz Hlt Ek. destruct (Hc eq_refl Hv) as (z0 & k0 & rest0 & Hz0 & Hcode & Ek0 & Hkey). rewrite Hkey.
  assert (sortable ty = true) as Hs by (by destruct ty).
  destruct (value_decides ty (order_of desc) (Some (CNum z0)) (Some (CNum z)) Hs Hz0 Hz I) as (kx & ky & Ex & Ey & Hd).
  rewrite Ek0 in Ex. rewrite Ek in Ey. injection Ex as <-. injection Ey as <-.
  rewrite <- OrderCode_order in Hd by done. rewrite Hcode in Hlt. rewrite (proj2 (Z.compare_lt_iff _ _) Hlt) in Hd.
  apply skey_le_bcmp. by rewrite (decides_app _ _ _ _ _ Hd).
Qed.

(** ** [SinkRows] and [Sink] *)

(** The first cell of a row starts its key. *)
Lemma row_key_first col rest n r z k :
  row_key (col :: rest) n r = Ok k → read_row (sc_vector col) n r = Ok (CNum z, false) →
  ∃ k1 k2, encode_value (sc_type col) (order_of (flip_bytes_ col)) (Some (CNum z)) = Ok k1 ∧ k = k1 ++ k2.
Proof.
  simpl. unfold cell_key, encode_value. intros Hk E. rewrite E in Hk. simpl in Hk.
  rewrite (bool_decide_false (Some (CNum z) = None)) by done. cbn [from_option id].
  assert (bool_decide (order_of (flip_bytes_ col) = DESCENDING) = flip_bytes_ col) as -> by (by destruct (flip_bytes_ col)).
  destruct (EncodeOneRow _ _ _ _) as [k1|]; simpl in Hk; [|done]. destruct (row_key rest n r) as [k2|]; simpl in Hk; [|done].
  injection Hk as <-. by exists k1, k2.
Qed.

(** The first column as [SinkRows] reads it, and the codes it gives the entries. *)
Lemma first_column_ok h cols n :
  chunk_ok (prefilter_enabled_ h) (first_type_ h) (first_desc_ h) cols n →
  ∃ first, match prefilter_enabled_ h, cols with
      | true, col :: _ => f ← read_column (sc_vector col) (Z.of_nat n) 0 n; Ok (Some f)
      | true, [] => Err EUndefined
      | false, _ => Ok None
      end = Ok first ∧
    ∀ r m h', (r < n)%nat → same_config h h' → ∃ code valid, make_entry first r (key_at cols r) m h' = Ok (mkEntry (key_at cols r) m code valid) ∧
      code_ok (prefilter_enabled_ h) (first_type_ h) (first_desc_ h) (mkEntry (key_at cols r) m code valid).
Proof.
  intros [_ _ Hk Hf]. destruct (prefilter_enabled_ h) eqn:Ep.
  - destruct (Hf eq_refl) as (_ & col & rest & -> & Hty & Hd & Hrow).
    destruct (read_column_ok (sc_vector col) (Z.of_nat n) n 0) as (l & El & Hl & Hlk).
    { intros j Hj. destruct (Hrow j Hj) as (z & b & E & _). by exists z, b. }
    rewrite El. simpl. eexists. split; [done|]. intros r m h' Hr (_ & _ & Hd' & Ht'). simpl.
    destruct (lookup_lt_is_Some_2 l r) as [[z b] Hz]; [lia|]. rewrite Hz. eexists _, _. split; [done|].
    intros _ Hv. simpl in Hv. destruct b; [done|]. pose proof (Hlk r z false Hz) as Hread. rewrite Z.add_0_l in Hread.
    destruct (Hrow r Hr) as (z' & b' & E & Ho). rewrite E in Hread. injection Hread as -> ->.
    destruct (Hk r Hr) as (k & Ek & _). destruct (row_key_first _ _ _ _ _ _ Ek E) as (k1 & k2 & E1 & ->).
    rewrite (row_key_size _ _ 0) in Ek. exists z, k1, k2. cbn [key_ first_code_]. rewrite Hd', Ht'. unfold key_at. rewrite Ek, <- Hty, <- Hd. split_and!; [|done..]. rewrite Hty. auto.
  - exists None. split; [done|]. intros r m h' _ _. eexists _, _. split; [done|]. done.
Qed.

Lemma SinkRows_ok offered h cols input sel n rem :
  topn_inv (payload_ h) offered h → is_heap (heap_ h) → (0 < limit_ h)%nat →
  chunk_ok (prefilter_enabled_ h) (first_type_ h) (first_desc_ h) cols n → length rem = n →
  (∀ j p, rem !! j = Some p → p.1 = key_at cols j ∧ ∃ s, source_row sel j = Ok s ∧ input !! s = Some p.2) →
  ∃ h', SinkRows junk input cols sel n h = Ok h' ∧ topn_inv (payload_ h') (offered ++ rem) h' ∧ is_heap (heap_ h') ∧
    same_config h h' ∧ finalized_ h' = finalized_ h.
Proof.
  intros Hinv Hh H0 Hck Hrl Hrem. pose proof Hck as [[Hn Hmax] Hcells Hkeys _]. unfold SinkRows.
  assert (∀ r, (r < n)%nat → row_key cols (Z.of_nat n) (Z.of_nat r) = Ok (key_at cols r)) as Hka.
  { intros r Hr. destruct (Hkeys r Hr) as (k & E & _). unfold key_at. by rewrite (row_key_size _ 0 (Z.of_nat n)), E. }
  destruct (CreateSortKey_keys junk cols n Hn Hmax) as (kv & E & Hkv).
  { intros col Hcol Hs r Hr. destruct (Hcells col r Hcol Hr) as (c & b & Er & Hst). rewrite Hs in Hst. destruct Hst as (s & -> & _). by exists s, b. }
  { done. }
  rewrite E. cbn [mbind result_bind]. destruct (first_column_ok h cols n Hck) as (first & Ef & Hfirst).
  assert (key_bytes kv <$> seq 0 n = rem.*1) as ->.
  { apply list_eq. intros r. rewrite !list_lookup_fmap. destruct (rem !! r) as [p|] eqn:Er; simpl.
    - pose proof (lookup_lt_Some _ _ _ Er). rewrite lookup_seq_lt by lia. simpl. destruct (Hrem r p Er) as [-> _]. f_equal.
      pose proof (Hkv r ltac:(lia)) as Hx. rewrite Hka in Hx by lia. by injection Hx.
    - apply lookup_ge_None in Er. rewrite lookup_seq_ge by lia. done. }
  destruct (sink_loop_ok junk first sel input rem 0 [] [] (payload_ h) offered h) as (added & rows & h1 & El & Hg & Hinv1 & Hh1 & Hc1 & Hp1 & Hf1 & Hnil).
  1: by rewrite app_nil_r. 1-4: done. 1: simpl; unfold STANDARD_VECTOR_SIZE in *; lia.
  { intros j key a Hj. destruct (Hrem j _ Hj) as [Hk Hs]. simpl in Hk, Hs. subst key. pose proof (lookup_lt_Some _ _ _ Hj).
    destruct (Hkeys j ltac:(lia)) as (k & Ek & Hkl). rewrite Hka in Ek by lia. injection Ek as <-. split_and!; [done|done|].
    intros m h' Hc. apply Hfirst; [lia|done]. }
  rewrite app_nil_r in El. rewrite Ef. cbn [mbind result_bind]. rewrite El. cbn [mbind result_bind]. destruct added as [|i added].
  - exists h1. rewrite (Hnil eq_refl), app_nil_r in Hinv1. rewrite Hp1. done.
  - rewrite Hg. cbn [mbind result_bind].
    destruct (Reduce_ok junk false (offered ++ rem) (set_payload (payload_ h1 ++ rows) h1)) as (h' & Er & Hinv' & Hc' & Hf' & Hheld).
    { rewrite Hp1. destruct Hinv1 as [? ? ? ?]. by split. }
    exists h'. split_and!; [done|done| |by eapply same_config_trans|by rewrite Hf']. by eapply held_is_heap.
Qed.

(** The rows a full heap's prefilter skips can be dropped. *)
Lemma skipped_rows_ok offered h cols input front l skipped :
  topn_inv (payload_ h) offered h → is_heap (heap_ h) → head (heap_ h) = Some front → prefilter_enabled_ h = true → first_valid_ front = true →
  (limit_ h ≤ length (heap_ h))%nat → chunk_ok true (first_type_ h) (first_desc_ h) cols (length input) →
  (∀ col rest, cols = col :: rest → ∀ j z b, l !! j = Some (z, b) → read_row (sc_vector col) (Z.of_nat (length input)) (Z.of_nat j) = Ok (CNum z, b)) →
  length l = length input →
  (∀ i, i ∈ skipped → ∃ z, l !! i = Some (z, false) ∧ first_code_ front < OrderCode (first_type_ h) (first_desc_ h) z) →
  topn_inv (payload_ h) (offered ++ rows_at cols input skipped) h.
Proof.
  intros Hinv Hh Hfr Hp Hv Hfull [_ _ Hk Hf] Hl Hll Hs. apply drop_all_ok; [done..|]. intros p e Hin He.
  apply list_elem_of_omap in Hin as (i & Hi & E). destruct (Hs i Hi) as (z & Hz & Hlt). destruct (input !! i); [|done]. injection E as <-. simpl.
  destruct (heap_ h) as [|x es] eqn:Eh; [done|]. injection Hfr as ->. etrans; [by apply (front_greatest front es)|].
  destruct (Hf eq_refl) as (Hki & col & rest & -> & Hty & Hd & Hrow). pose proof (Hl col rest eq_refl i z false Hz) as Hread.
  pose proof (lookup_lt_Some _ _ _ Hz) as Hilt. rewrite Hll in Hilt. destruct (Hrow i Hilt) as (z' & b' & E & Ho). rewrite E in Hread. injection Hread as -> ->.
  destruct (Hk i Hilt) as (k & Ek & _). destruct (row_key_first _ _ _ _ _ _ Ek E) as (k1 & k2 & E1 & ->).
  unfold key_at. rewrite (row_key_size _ 0 (Z.of_nat (length input))), Ek. rewrite Hty, Hd in E1.
  pose proof (ti_entries _ _ _ Hinv) as Hen. unfold entries_ok in Hen. rewrite Eh, Forall_cons in Hen. destruct Hen as [[_ Hc] _]. rewrite Hp in Hc.
  eapply skipped_after; eauto.
Qed.

Lemma whole_chunk_ok offered h cols input :
  topn_inv (payload_ h) offered h → is_heap (heap_ h) → (0 < limit_ h)%nat →
  chunk_ok (prefilter_enabled_ h) (first_type_ h) (first_desc_ h) cols (length input) →
  ∃ h', SinkRows junk input cols None (length input) h = Ok h' ∧ topn_inv (payload_ h') (offered ++ chunk_rows cols input) h' ∧
    is_heap (heap_ h') ∧ same_config h h' ∧ finalized_ h' = finalized_ h.
Proof.
  intros Hinv Hh H0 Hck. destruct (rows_at_lookup cols input (seq 0 (length input))) as [Hlen Hlk]; [intros i; rewrite elem_of_seq; lia|].
  rewrite length_seq in Hlen. apply SinkRows_ok; [done..|]. intros j p Hj. pose proof (lookup_lt_Some _ _ _ Hj) as Hlt. unfold chunk_rows in Hlt. rewrite Hlen in Hlt.
  destruct (Hlk j j) as (a & Ha & Hr); [by apply lookup_seq|]. unfold chunk_rows in Hj. rewrite Hr in Hj. injection Hj as <-. split; [done|]. by exists j.
Qed.

(** A full heap with a threshold: the candidates are sliced, flattened and sunk, the others dropped. *)
Lemma filtered_chunk_ok offered h cols input front l :
  topn_inv (payload_ h) offered h → is_heap (heap_ h) → head (heap_ h) = Some front → prefilter_enabled_ h = true → first_valid_ front = true →
  (0 < limit_ h ≤ length (heap_ h))%nat → chunk_ok true (first_type_ h) (first_desc_ h) cols (length input) →
  (∀ col rest, cols = col :: rest → ∀ j z b, l !! j = Some (z, b) → read_row (sc_vector col) (Z.of_nat (length input)) (Z.of_nat j) = Ok (CNum z, b)) →
  length l = length input →
  let cand := prefilter (first_type_ h) (first_desc_ h) (first_code_ front) 0 l in
  ∃ h', (if bool_decide (cand = []) then Ok h
         else if bool_decide (length cand < length input)%nat then
           cand_keys ← slice_columns (Z.of_nat <$> cand) (length cand) cols;
           cand_keys ← normalify_columns junk junk_cell (length cand) cand_keys;
           SinkRows junk input cand_keys (Some cand) (length cand) h
         else SinkRows junk input cols None (length input) h) = Ok h' ∧
    topn_inv (payload_ h') (offered ++ chunk_rows cols input) h' ∧ is_heap (heap_ h') ∧ same_config h h' ∧ finalized_ h' = finalized_ h.
Proof.
  intros Hinv Hh Hfr Hp Hv [H0 Hfull] Hck Hl Hll cand. pose proof (ck_count _ _ _ _ _ Hck) as [Hn Hmax].
  destruct (prefilter_split (first_type_ h) (first_desc_ h) (first_code_ front) l 0) as (skipped & Hperm & Hskip). fold cand in Hperm. rewrite Hll in Hperm.
  assert (topn_inv (payload_ h) (offered ++ rows_at cols input skipped) h) as Hinv'.
  { eapply skipped_rows_ok; [done..|]. intros i Hi. destruct (Hskip i Hi) as (z & _ & Hz & ?). rewrite Nat.sub_0_r in Hz. by exists z. }
  assert (chunk_rows cols input ≡ₚ rows_at cols input skipped ++ rows_at cols input cand) as Hrows.
  { unfold chunk_rows, rows_at. rewrite <- omap_app. rewrite (comm (++) skipped). by rewrite Hperm. }
  assert (∀ i, i ∈ cand → (i < length input)%nat) as Hin.
  { intros i Hi. assert (i ∈ seq 0 (length input)) as Hs by (rewrite Hperm; set_solver). apply elem_of_seq in Hs. lia. }
  case_bool_decide as Hnil; [|case_bool_decide as Hlt].
  - exists h. split_and!; [done| |done|apply same_config_refl|done]. eapply topn_inv_perm; [|exact Hinv']. rewrite Hrows, Hnil. simpl. by rewrite app_nil_r.
  - pose proof (ck_cells _ _ _ _ _ Hck) as Hcells.
    destruct (slice_columns_ok cols (Z.of_nat (length input)) cand) as (cols1 & E1 & Hs1).
    { intros col i Hcol Hi. destruct (Hcells col i Hcol (Hin i Hi)) as (c & b & E & _). by exists (c, b). }
    rewrite E1. cbn [mbind result_bind]. assert (Z.of_nat (length cand) ≤ STANDARD_VECTOR_SIZE) as Hcmax by lia.
    assert (chunk_ok true (first_type_ h) (first_desc_ h) cols1 (length cand)) as Hck1 by (by eapply chunk_ok_same).
    destruct (normalify_columns_ok cols1 (length cand)) as (cols2 & E2 & Hs2); [apply Hck1|done|apply Hck1|]. rewrite E2. cbn [mbind result_bind].
    assert (same_columns cand cols cols2) as Hs.
    { eapply same_columns_trans; [exact Hs1|exact Hs2|]. intros j i Hj. exists j. split; [|done]. apply lookup_seq. split; [done|]. by eapply lookup_lt_Some. }
    destruct (rows_at_lookup cols input cand Hin) as [Hrl Hrlk].
    destruct (SinkRows_ok (offered ++ rows_at cols input skipped) h cols2 input (Some cand) (length cand) (rows_at cols input cand)) as (h' & E & Hi & ?); [done..| |done| |].
    + rewrite Hp. by eapply (chunk_ok_same _ _ _ cols).
    + intros j p Hj. pose proof (lookup_lt_Some _ _ _ Hj) as Hjl. rewrite Hrl in Hjl. destruct (lookup_lt_is_Some_2 cand j Hjl) as [i Hi].
      destruct (Hrlk j i Hi) as (a & Ha & Hr). rewrite Hr in Hj. injection Hj as <-. split; [|exists i; simpl; by rewrite Hi].
      simpl. unfold key_at. by rewrite (same_columns_key cand cols cols2 0 0 j i Hs Hi).
    + exists h'. split_and!; [done| |naive_solver..]. eapply topn_inv_perm; [|exact Hi]. by rewrite <- (assoc_L (++)), Hrows.
  - rewrite <- Hp in Hck. by apply whole_chunk_ok.
Qed.

(** A chunk is sunk: its rows are offered, whether or not the prefilter spares their keys. *)
Lemma Sink_ok offered h cols input :
  topn_inv (payload_ h) offered h → is_heap (heap_ h) →
  (input ≠ [] → chunk_ok (prefilter_enabled_ h) (first_type_ h) (first_desc_ h) cols (length input)) →
  ∃ h', Sink junk junk_cell input cols h = Ok h' ∧ topn_inv (payload_ h') (offered ++ chunk_rows cols input) h' ∧
    is_heap (heap_ h') ∧ same_config h h' ∧ finalized_ h' = finalized_ h.
Proof.
  intros Hinv Hh Hck. unfold Sink. cbv zeta. pose proof (same_config_refl h).
  case_bool_decide as Hl0; [|case_bool_decide as Hc0]; cbn [orb].
  - exists h. split_and!; [done| |done..]. apply drop_all_ok; [done|lia|]. intros p e _ He. pose proof (ti_len _ _ _ Hinv).
    destruct (heap_ h); [set_solver|simpl in *; lia].
  - exists h. split_and!; [done| |done..]. destruct input; [|done]. unfold chunk_rows, rows_at. simpl. by rewrite app_nil_r.
  - specialize (Hck ltac:(by intros ->)). destruct (flatten_first_ok _ _ _ _ _ Hck) as (cols1 & E1 & Hs1). rewrite E1. cbn [mbind result_bind].
    pose proof (ck_count _ _ _ _ _ Hck) as [Hn Hmax].
    assert (chunk_ok (prefilter_enabled_ h) (first_type_ h) (first_desc_ h) cols1 (length input)) as Hck1.
    { rewrite <- (length_seq (length input) 0). eapply chunk_ok_same; [done|done| |rewrite length_seq; done|intros i; rewrite elem_of_seq; lia].
      destruct (length input); [lia|done]. }
    assert (chunk_rows cols1 input = chunk_rows cols input) as <- by (apply rows_at_same; [done|intros i; rewrite elem_of_seq; lia]).
    destruct (prefilter_enabled_ h) eqn:Ep; cbn [andb]; [|rewrite <- Ep in Hck1; apply whole_chunk_ok; done || lia].
    rewrite <- Ep in Hck1. case_bool_decide as Hfull; [|apply whole_chunk_ok; done || lia].
    unfold entry_front. destruct (heap_ h) as [|front es] eqn:Eh; [simpl in Hfull; lia|]. cbn [mbind result_bind]. rewrite <- Eh in Hh.
    destruct (first_valid_ front) eqn:Ev; [|apply whole_chunk_ok; done || lia].
    pose proof Hck1 as Hck2. rewrite Ep in Hck2. destruct (ck_first _ _ _ _ _ Hck2 eq_refl) as (Hki & col & rest & Ecols & Hty & Hd & Hrow). rewrite Ecols.
    destruct (read_column_ok (sc_vector col) (Z.of_nat (length input)) (length input) 0) as (l & El & Hll & Hlk).
    { intros j Hj. destruct (Hrow j Hj) as (z & b & E & _). by exists z, b. }
    rewrite El. cbn [mbind result_bind]. rewrite bool_decide_false by lia. rewrite <- Ecols.
    apply filtered_chunk_ok; try done; [by rewrite Eh|rewrite Eh; lia|].
    rewrite Ecols. intros ? ? [= <- <-] j z b Hj. by apply Hlk.
Qed.
End chunks.
