(* ===== verification/StreamOperator.v ===== *)
(** * Streaming operators ([execution/physical_operator.h])

    What an operator answers, and the calls a pipeline makes until an operator has given all the output it owes
    for one input chunk. *)

From S2P Require Import Prelude.

(** A source's [GetData], a sink's [Sink] and its [Finalize], an operator's [Execute]. *)
Inductive SourceResultType := SOURCE_HAVE_MORE_OUTPUT | SOURCE_FINISHED.
Inductive SinkResultType := SINK_NEED_MORE_INPUT | SINK_FINISHED.
Inductive SinkFinalizeType := READY | NO_OUTPUT_POSSIBLE.
Inductive OperatorResultType := NEED_MORE_INPUT | HAVE_MORE_OUTPUT | FINISHED.
#[global] Instance OperatorResultType_eq_dec : EqDecision OperatorResultType.
Proof. solve_decision. Defined.
#[global] Instance SourceResultType_eq_dec : EqDecision SourceResultType.
Proof. solve_decision. Defined.
#[global] Instance SinkResultType_eq_dec : EqDecision SinkResultType.
Proof. solve_decision. Defined.

Section drain.
Context {S C : Type} (exec : S → result (C * OperatorResultType * S)).
(** The output chunks for one input, the operator's last answer and its state. *)
Fixpoint drain (fuel : nat) (s : S) : result (list C * OperatorResultType * S) :=
  match fuel with
  | O => Err EBlocked
  | Datatypes.S fuel =>
      '(out, res, s) ← exec s;
      match res with
      | HAVE_MORE_OUTPUT => '(outs, res, s) ← drain fuel s; Ok (out :: outs, res, s)
      | _ => Ok ([out], res, s)
      end
  end.
Lemma drain_step fuel s out res s' : exec s = Ok (out, res, s') → res ≠ HAVE_MORE_OUTPUT → drain (Datatypes.S fuel) s = Ok ([out], res, s').
Proof. intros E Hr. cbn [drain]. rewrite E. by destruct res. Qed.
Lemma drain_more fuel s out s' outs res s'' : exec s = Ok (out, HAVE_MORE_OUTPUT, s') → drain fuel s' = Ok (outs, res, s'') → drain (Datatypes.S fuel) s = Ok (out :: outs, res, s'').
Proof. intros E E'. cbn [drain]. rewrite E. cbn [mbind result_bind]. by rewrite E'. Qed.
(** More fuel changes nothing. *)
Lemma drain_mono fuel fuel' s x : (fuel ≤ fuel')%nat → drain fuel s = Ok x → drain fuel' s = Ok x.
Proof.
  revert fuel' s x. induction fuel as [|fuel IH]; intros fuel' s x Hf E; [done|]. destruct fuel' as [|fuel']; [lia|]. cbn [drain] in *. destruct (exec s) as [[[out res] s']|]; [|done]. cbn [mbind result_bind] in *.
  destruct res; try done. destruct (drain fuel s') as [[[outs res] s'']|] eqn:E'; [|done]. by rewrite (IH fuel' s' _ ltac:(lia) E').
Qed.
End drain.
