(* ===== verification/OrderTheorems.v ===== *)
(** * Top-N heaps merged, sorted and read: [Combine], [Finalize] and [GetData] *)

From stdpp Require Import sorting.
From Stdlib Require Import Floats.SpecFloat.
From S2P Require Import Prelude TablePage TableHeap BTreePage BPlusTree GenericKey StringHeap ValidityMask SortKey VectorOps SortKeyOrder SortKeyWrite TopN TopNSteps StreamOperator.

Lemma filter_all {T} (P : T → Prop) `{!∀ x, Decision (P x)} (l : list T) : (∀ x, x ∈ l → P x) → filter P l = l.
Proof. induction l as [|x l IH]; intros Hin; [done|]. rewrite filter_cons_True by (apply Hin; set_solver). f_equal. apply IH. set_solver. Qed.
Lemma filter_none {T} (P : T → Prop) `{!∀ x, Decision (P x)} (l : list T) : (∀ x, x ∈ l → ¬ P x) → filter P l = [].
Proof. induction l as [|x l IH]; intros Hin; [done|]. rewrite filter_cons_False by (apply Hin; set_solver). apply IH. set_solver. Qed.

Section merge.
Context {A : Type} `{!HeapAlgorithms entry_lt} (junk : byte) (junk_cell : cell).
Implicit Types (h other : TopNHeap A) (E D offered : list (list byte * A)).

(** Entries and the keyed rows they stand for. *)
Definition stands_for (pl : list A) : list TopNEntry → list (list byte * A) → Prop :=
  Forall2 (λ e p, key_ e = p.1 ∧ pl !! index_ e = Some p.2).
Definition keys_sorted (es : list TopNEntry) : Prop := StronglySorted (λ a b, skey_le (key_ a) (key_ b)) es.

(** The rows offered split into those of the entries and the dropped ones. *)
Lemma topn_inv_split pl offered h :
  topn_inv pl offered h →
  ∃ E D, offered ≡ₚ E ++ D ∧ stands_for pl (heap_ h) E ∧ (∀ p d, p ∈ E → d ∈ D → skey_le p.1 d.1) ∧ (D ≠ [] → length (heap_ h) = limit_ h).
Proof.
  intros [_ _ _ (dropped & Hp & Hb & Hf)]. symmetry in Hp. apply Permutation_map_inv in Hp as (l & El & Hl).
  symmetry in El. apply map_eq_app in El as (E & D & -> & HE & HD). exists E, D.
  assert (stands_for pl (heap_ h) E) as HS.
  { clear -HE. revert E HE. induction (heap_ h) as [|e es IH]; intros [|p E] HE; simpl in HE; try done; [constructor|].
    injection HE as Hk Hi HE. constructor; [done|]. by apply IH. }
  split_and!; [done|done| |].
  - intros p d Hp Hd. apply list_elem_of_lookup_1 in Hp as [i Hi]. destruct (Forall2_lookup_r _ _ _ _ _ HS Hi) as (e & He & <- & _).
    apply (Hb e (tag d)); [by eapply list_elem_of_lookup_2|]. rewrite <- HD. by apply list_elem_of_fmap_2.
  - intros Hne. apply Hf. rewrite <- HD. by destruct D.
Qed.

(** Entries in another order are the same heap contents. *)
Lemma topn_inv_reorder pl offered h es : es ≡ₚ heap_ h → topn_inv pl offered h → topn_inv pl offered (set_heap es h).
Proof.
  intros Hp [Hl Hwf He (dropped & Hd & Hb & Hf)]. split; cbn [heap_ set_heap limit_].
  - by rewrite Hp.
  - done.
  - unfold entries_ok. cbn [heap_ set_heap prefilter_enabled_ first_type_ first_desc_]. by rewrite Hp.
  - exists dropped. rewrite Hp. split_and!; [done| |done]. intros e d. rewrite Hp. apply Hb.
Qed.

(** As many rows as the heap keeps were offered, so rows that sort after all of them are dropped. *)
Lemma topn_inv_merge pl offered E D h :
  topn_inv pl (offered ++ E) h → length E = limit_ h → (∀ p d, p ∈ E → d ∈ D → skey_le p.1 d.1) →
  topn_inv pl (offered ++ E ++ D) h.
Proof.
  intros Hinv HE HD. rewrite (assoc_L (++)). destruct (topn_inv_split _ _ _ Hinv) as (K & R & Hp & HS & Hle & Hfull).
  pose proof (ti_len _ _ _ Hinv) as Hlen. pose proof (Forall2_length _ _ _ HS) as HKl.
  apply drop_all_ok; [done| |].
  - destruct R as [|r R]; [|specialize (Hfull ltac:(done)); lia].
    apply Permutation_length in Hp. rewrite app_nil_r, length_app in Hp. lia.
  - intros d e Hd He. apply list_elem_of_lookup_1 in He as [i Hi]. destruct (Forall2_lookup_l _ _ _ _ _ HS Hi) as (q & Hq & Hk & _).
    destruct (decide (Exists (λ p, string_lt p.1 (key_ e) = false) E)) as [(p & HpE & Hlt)%Exists_exists|Hno]; [etrans; [exact Hlt|by apply HD]|]. exfalso.
    rewrite Exists_exists in Hno.
    set (P := λ p : list byte * A, string_lt p.1 (key_ e) = true).
    assert (filter P E = E) as HfE.
    { apply filter_all. intros p Hin. unfold P. destruct (string_lt p.1 (key_ e)) eqn:Elt; [done|]. exfalso. apply Hno. by exists p. }
    assert (filter P R = []) as HfR.
    { apply filter_none. intros p Hin HP. apply list_elem_of_lookup_2 in Hq. specialize (Hle q p Hq Hin). rewrite <- Hk in Hle. unfold skey_le in Hle. unfold P in HP. congruence. }
    assert (length (filter P K) < length K)%nat as HfK.
    { apply (length_filter_lt P K q); [by eapply list_elem_of_lookup_2|]. unfold P. rewrite <- Hk. pose proof (reflexivity (R := skey_le) (key_ e)) as Hr. unfold skey_le in Hr. by rewrite Hr. }
    apply (filter_Permutation P) in Hp. rewrite !filter_app, HfE, HfR, app_nil_r in Hp. apply Permutation_length in Hp. rewrite length_app in Hp. lia.
Qed.

(** ** [Combine] *)

Lemma combine_loop_ok src es : ∀ E added rows pl offered h,
  topn_inv (pl ++ rows) offered h → is_heap (heap_ h) → (0 < limit_ h)%nat → gather src added = Ok rows → length added = length rows →
  Z.of_nat (length added + length es) ≤ append_capacity h →
  Forall (λ e, Z.of_nat (length (key_ e)) < MINIMUM_HEAP_SIZE ∧ code_ok (prefilter_enabled_ h) (first_type_ h) (first_desc_ h) e) es →
  keys_sorted es → stands_for src es E →
  ∃ added' rows' h', combine_loop junk es (length (pl ++ rows)) added h = Ok (added', h') ∧ gather src added' = Ok rows' ∧
    topn_inv (pl ++ rows') (offered ++ E) h' ∧ is_heap (heap_ h') ∧ same_config h h' ∧ payload_ h' = payload_ h ∧ finalized_ h' = finalized_ h ∧
    (added' = [] → rows' = []).
Proof.
  induction es as [|e es IH]; intros E added rows pl offered h Hinv Hh H0 Hg Hlg Hcap Hes Hsort HE; inversion HE as [|? [key a] ? E' [Hk Ha] HE']; subst; cbn [combine_loop].
  - exists added, rows, h. rewrite app_nil_r. split_and!; try done. intros ->. by injection Hg.
  - simpl in Hk, Ha. subst key. apply Forall_cons in Hes as [[Hkl Hcode] Hes]. apply StronglySorted_inv in Hsort as [Hsort Hhead]. cbn [length] in Hcap.
    destruct (offer_ok junk (pl ++ rows) offered h (key_ e) a Hinv Hh H0 Hkl) as [[Es Hinv']|(Es & kh & Ek & Hpush)]; rewrite Es; cbn [mbind result_bind negb].
    + exists added, rows, h. destruct (ShouldAdd_ok offered (pl ++ rows) (key_ e) h Hinv Hh H0) as (b & Eb & Hb). rewrite Es in Eb. injection Eb as <-.
      destruct (Hb eq_refl) as [Hfull Hge]. split_and!; try done; [|intros ->; by injection Hg]. apply drop_all_ok; [done..|].
      intros p x Hp Hx. etrans; [by apply Hge|]. apply elem_of_cons in Hp as [->|Hp]; [done|].
      apply list_elem_of_lookup_1 in Hp as [i Hi]. destruct (Forall2_lookup_r _ _ _ _ _ HE' Hi) as (e' & He' & <- & _).
      rewrite Forall_forall in Hhead. apply Hhead. by eapply list_elem_of_lookup_2.
    + rewrite bool_decide_false by lia. rewrite Ek. cbn [mbind result_bind].
      destruct (Hpush (first_code_ e) (first_valid_ e)) as [Hinv' Hh']; [exact Hcode|]. rewrite <- (assoc_L (++)) in Hinv'.
      replace (S (length (pl ++ rows))) with (length (pl ++ rows ++ [a])) by (rewrite !length_app; simpl; lia).
      destruct (IH E' (added ++ [index_ e]) (rows ++ [a]) pl (offered ++ [(key_ e, a)]) _ Hinv' Hh') as (added' & rows' & h' & E1 & Hg' & Hi & Hrest).
      * done.
      * apply gather_app; [done|]. simpl. by rewrite Ha.
      * rewrite !length_app. simpl. lia.
      * rewrite length_app. simpl. unfold append_capacity in *. simpl. lia.
      * done.
      * done.
      * done.
      * exists added', rows', h'. rewrite <- (assoc_L (++)) in Hi. done.
Qed.

(** ** [Finalize] *)

Lemma keys_sorted_held (pl pl' : list A) es es' : held pl' <$> es' = held pl <$> es → keys_sorted es → keys_sorted es'.
Proof.
  intros Hk%(held_keys pl pl'). unfold keys_sorted. induction Hk as [|e e' es es' He Hk IH]; [done|]. intros [Hs Hh]%StronglySorted_inv.
  constructor; [by apply IH|]. rewrite Forall_forall in *. intros x Hx. apply list_elem_of_lookup_1 in Hx as [i Hi].
  destruct (Forall2_lookup_r _ _ _ _ _ Hk Hi) as (y & Hy & <-). rewrite <- He. apply Hh. by eapply list_elem_of_lookup_2.
Qed.
Lemma stands_for_sorted pl es (E : list (list byte * A)) : stands_for pl es E → keys_sorted es → StronglySorted (λ p q, skey_le p.1 q.1) E.
Proof.
  induction 1 as [|e p es E [Hk _] HS IH]; [constructor|]. intros [Hs Hh]%StronglySorted_inv. constructor; [by apply IH|].
  apply Forall_forall. intros q Hq. apply list_elem_of_lookup_1 in Hq as [i Hi]. destruct (Forall2_lookup_r _ _ _ _ _ HS Hi) as (e' & He' & Hk' & _).
  rewrite <- Hk, <- Hk'. rewrite Forall_forall in Hh. apply Hh. by eapply list_elem_of_lookup_2.
Qed.
Lemma Finalize_ok offered h :
  topn_inv (payload_ h) offered h → finalized_ h = false →
  ∃ h', TopN_Finalize junk h = Ok h' ∧ topn_inv (payload_ h') offered h' ∧ keys_sorted (heap_ h') ∧ same_config h h' ∧ finalized_ h' = true ∧
    length (heap_ h') = length (heap_ h).
Proof.
  intros Hinv Hf. unfold TopN_Finalize. rewrite Hf. destruct (sort_spec (heap_ h)) as [Hp Hs].
  destruct (Reduce_ok junk true offered (set_heap (sort_ (heap_ h)) h)) as (h1 & E & Hinv1 & Hc & _ & Hheld); [by apply topn_inv_reorder|].
  rewrite E. eexists. split; [done|]. cbn [set_finalized finalized_ heap_ payload_]. split_and!.
  - destruct Hinv1 as [? ? ? ?]. by split.
  - by eapply keys_sorted_held.
  - exact Hc.
  - done.
  - apply (f_equal length) in Hheld. rewrite !length_fmap in Hheld. cbn [heap_ set_heap] in Hheld. by rewrite Hheld, Hp.
Qed.

(** Two heaps of one operator merge into one that was offered the rows of both. *)
Lemma Combine_heaps_ok offered offered' h other :
  topn_inv (payload_ h) offered h → is_heap (heap_ h) → topn_inv (payload_ other) offered' other → finalized_ other = false → same_config h other →
  ∃ h', TopN_Combine junk other h = Ok h' ∧ topn_inv (payload_ h') (offered ++ offered') h' ∧ is_heap (heap_ h') ∧ same_config h h' ∧
    finalized_ h' = finalized_ h.
Proof.
  intros Hinv Hh Hinvo Hfo (Hlim & Hen & Hde & Hty). unfold TopN_Combine. pose proof (ti_len _ _ _ Hinv) as Hlen. pose proof (same_config_refl h).
  case_bool_decide as Hl0; [|case_bool_decide as Hc0]; cbn [orb].
  - exists h. split_and!; [done| |done..]. apply drop_all_ok; [done|lia|]. intros p e _ He. destruct (heap_ h); [set_solver|simpl in *; lia].
  - exists h. split_and!; [done| |done..]. destruct (topn_inv_split _ _ _ Hinvo) as (E & D & Hp & HS & _ & Hfull). rewrite Hc0 in HS, Hfull. inversion HS; subst E.
    destruct D; [|specialize (Hfull ltac:(done)); simpl in Hfull; lia]. simpl in Hp. apply Permutation_nil_r in Hp as ->. by rewrite app_nil_r.
  - destruct (Finalize_ok offered' other Hinvo Hfo) as (o & Eo & Hinv1 & Hsort & (Hlim1 & Hen1 & Hde1 & Hty1) & _ & _). rewrite Eo. cbn [mbind result_bind].
    destruct (topn_inv_split _ _ _ Hinv1) as (E & D & Hp & HS & Hle & Hfull). pose proof (ti_len _ _ _ Hinv1) as Hol.
    destruct (combine_loop_ok (payload_ o) (heap_ o) E [] [] (payload_ h) offered h) as (added & rows & h1 & El & Hg & Hinv2 & Hh1 & Hc1 & Hp1 & Hf1 & Hnil).
    1: by rewrite app_nil_r. 1: done. 1: lia. 1-2: done. 1: unfold append_capacity; simpl; lia. 2-3: done.
    { pose proof (ti_entries _ _ _ Hinv1) as He. unfold entries_ok in He. by rewrite Hen1, Hde1, Hty1, Hen, Hde, Hty in He. }
    assert (topn_inv (payload_ h ++ rows) (offered ++ offered') h1) as Hinv3.
    { destruct D as [|d D].
      - eapply topn_inv_perm; [|exact Hinv2]. by rewrite Hp, app_nil_r.
      - eapply topn_inv_perm; [|apply (topn_inv_merge _ _ _ (d :: D) _ Hinv2)]; [by rewrite Hp| |done].
        rewrite <- (Forall2_length _ _ _ HS), (Hfull ltac:(done)), Hlim1, Hlim. by destruct Hc1. }
    rewrite app_nil_r in El. rewrite El. cbn [mbind result_bind]. destruct added as [|i added].
    + exists h1. rewrite (Hnil eq_refl), app_nil_r in Hinv3. by rewrite Hp1.
    + rewrite Hg. cbn [mbind result_bind].
      destruct (Reduce_ok junk false (offered ++ offered') (set_payload (payload_ h1 ++ rows) h1)) as (h' & Er & Hinv' & Hc' & Hf' & Hheld).
      { rewrite Hp1. destruct Hinv3 as [? ? ? ?]. by split. }
      exists h'. split_and!; [done|done| |by eapply same_config_trans|by rewrite Hf']. by eapply held_is_heap.
Qed.
End merge.

(** * ORDER BY ... LIMIT ([execution/operator/order/physical_top_n.cpp])

    Every worker sinks its chunks into a heap of its own, the heaps are combined under a lock in some
    order, and the result is read page by page.  The expression executor is outside this model: a chunk
    comes with the key columns it evaluated. *)

Section operator.
Context {A : Type} `{!HeapAlgorithms entry_lt} (junk : byte) (junk_cell : cell).
Implicit Types h : TopNHeap A.
(** The rows of a chunk and its key columns. *)
Abbreviation chunk := (list A * list SortColumn)%type.

(** [Sink] over the chunks a worker receives, [Combine] over the workers in the order they take the lock. *)
Fixpoint sink_chunks (chunks : list chunk) h : result (TopNHeap A) :=
  match chunks with
  | [] => Ok h
  | (input, cols) :: chunks => h ← Sink junk junk_cell input cols h; sink_chunks chunks h
  end.
Fixpoint combine_workers (workers : list (TopNHeap A)) (gs : TopNHeap A) : result (TopNHeap A) :=
  match workers with
  | [] => Ok gs
  | ls :: workers => gs ← TopN_Combine junk ls gs; combine_workers workers gs
  end.
Fixpoint sink_workers (make : TopNHeap A) (work : list (list chunk)) : result (list (TopNHeap A)) :=
  match work with
  | [] => Ok []
  | chunks :: work => ls ← sink_chunks chunks make; rest ← sink_workers make work; Ok (ls :: rest)
  end.

(** [GetData]: the page at the cursor, and whether more follow. *)
Definition PhysicalTopN_GetData (start : nat) h : result (list A * SourceResultType) :=
  rows ← TopN_GetData start h;
  let count := length rows in
  if bool_decide (count = 0%nat) then Ok (rows, SOURCE_FINISHED)
  else Ok (rows, if bool_decide (length (heap_ h) ≤ start + count)%nat then SOURCE_FINISHED else SOURCE_HAVE_MORE_OUTPUT).
(** The pages until the source is exhausted; every page but the last is a full vector. *)
Fixpoint read_pages (fuel : nat) (cursor : nat) h : result (list A) :=
  match fuel with
  | O => Err EUndefined
  | S fuel =>
      '(rows, res) ← PhysicalTopN_GetData cursor h;
      match res with
      | SOURCE_FINISHED => Ok rows
      | SOURCE_HAVE_MORE_OUTPUT => rest ← read_pages fuel (cursor + Z.to_nat STANDARD_VECTOR_SIZE) h; Ok (rows ++ rest)
      end
  end.

(** The whole operator over the chunks of each worker. *)
Definition run_topn (schema : list (PhysicalType * OrderType)) (n : nat) (work : list (list chunk)) : result (list A) :=
  workers ← sink_workers (new_TopNHeap schema n) work;
  gs ← combine_workers workers (new_TopNHeap schema n);
  gs ← TopN_Finalize junk gs;
  read_pages (length (heap_ gs) + 1) 0 gs.

(** ** Correctness *)

Definition fresh_ok (make : TopNHeap A) : Prop :=
  topn_inv (payload_ make) [] make ∧ is_heap (heap_ make) ∧ finalized_ make = false.
Lemma new_TopNHeap_ok schema n : fresh_ok (new_TopNHeap schema n).
Proof.
  unfold fresh_ok, new_TopNHeap. destruct schema as [|[ty o] schema]; simpl; (split_and!; [|apply is_heap_nil|done]); split; simpl; try lia; try apply Forall_nil; try done;
    exists []; (split_and!; [done|set_solver|done]).
Qed.

Definition offered_by (work : list chunk) : list (list byte * A) := concat ((λ c, chunk_rows c.2 c.1) <$> work).
Definition chunks_ok (h : TopNHeap A) (chunks : list chunk) : Prop :=
  Forall (λ c, c.1 ≠ [] → chunk_ok (prefilter_enabled_ h) (first_type_ h) (first_desc_ h) c.2 (length c.1)) chunks.
Lemma chunks_ok_config h h' chunks : same_config h h' → chunks_ok h chunks → chunks_ok h' chunks.
Proof. intros (_ & E1 & E2 & E3). unfold chunks_ok. by rewrite E1, E2, E3. Qed.

Lemma sink_chunks_ok chunks : ∀ offered h,
  topn_inv (payload_ h) offered h → is_heap (heap_ h) → chunks_ok h chunks →
  ∃ h', sink_chunks chunks h = Ok h' ∧ topn_inv (payload_ h') (offered ++ offered_by chunks) h' ∧ is_heap (heap_ h') ∧ same_config h h' ∧
    finalized_ h' = finalized_ h.
Proof.
  induction chunks as [|[input cols] chunks IH]; intros offered h Hinv Hh Hck; simpl.
  - exists h. unfold offered_by. simpl. rewrite app_nil_r. split_and!; try done; apply same_config_refl.
  - apply Forall_cons in Hck as [Hc Hck]. destruct (Sink_ok junk junk_cell offered h cols input Hinv Hh Hc) as (h1 & E1 & Hinv1 & Hh1 & Hc1 & Hf1).
    rewrite E1. simpl. destruct (IH _ h1 Hinv1 Hh1) as (h' & E' & Hinv' & Hh' & Hc' & Hf'); [by eapply chunks_ok_config|].
    exists h'. rewrite <- (assoc_L (++)) in Hinv'. split_and!; [done|exact Hinv'|done|by eapply same_config_trans|congruence].
Qed.

Lemma sink_workers_ok make work :
  fresh_ok make → Forall (chunks_ok make) work →
  ∃ workers, sink_workers make work = Ok workers ∧
    Forall2 (λ h chunks, topn_inv (payload_ h) (offered_by chunks) h ∧ finalized_ h = false ∧ same_config make h) workers work.
Proof.
  intros (Hinv & Hh & Hf). induction work as [|chunks work IH]; intros Hw; simpl; [by exists []|]. apply Forall_cons in Hw as [Hc Hw].
  destruct (sink_chunks_ok chunks [] make Hinv Hh Hc) as (ls & E & Hi & _ & Hs & Hff). rewrite E. simpl.
  destruct (IH Hw) as (workers & E' & HF). rewrite E'. simpl. eexists. split; [done|]. constructor; [|done]. split_and!; [done|congruence|done].
Qed.

Lemma combine_workers_ok make workers work : ∀ offered gs,
  Forall2 (λ h chunks, topn_inv (payload_ h) (offered_by chunks) h ∧ finalized_ h = false ∧ same_config make h) workers work →
  topn_inv (payload_ gs) offered gs → is_heap (heap_ gs) → same_config make gs →
  ∃ gs', combine_workers workers gs = Ok gs' ∧ topn_inv (payload_ gs') (offered ++ concat (offered_by <$> work)) gs' ∧ is_heap (heap_ gs') ∧
    same_config make gs' ∧ finalized_ gs' = finalized_ gs.
Proof.
  intros offered gs HF. revert offered gs. induction HF as [|ls chunks workers work (Hi & Hf & Hc) _ IH]; intros offered gs Hinv Hh Hg; simpl.
  - exists gs. by rewrite app_nil_r.
  - destruct Hc as (c1 & c2 & c3 & c4), Hg as (g1 & g2 & g3 & g4).
    destruct (Combine_heaps_ok junk offered (offered_by chunks) gs ls Hinv Hh Hi Hf) as (gs1 & E & Hinv1 & Hh1 & (s1 & s2 & s3 & s4) & Hf1); [split_and!; congruence|].
    rewrite E. simpl. destruct (IH _ gs1 Hinv1 Hh1) as (gs' & E' & Hinv' & ? & ? & ?); [split_and!; congruence|].
    exists gs'. rewrite <- (assoc_L (++)) in Hinv'. split_and!; try done. congruence.
Qed.

(** The pages are the rows of the entries, in their order. *)
Lemma stands_for_gather (pl : list A) es E : stands_for pl es E → gather pl (index_ <$> es) = Ok (E.*2).
Proof. intros HS. apply gather_rows_ok. rewrite Forall2_fmap. eapply Forall2_impl; [exact HS|]. by intros e p [_ ?]. Qed.
Lemma read_pages_ok h E fuel : ∀ cursor,
  finalized_ h = true → stands_for (payload_ h) (heap_ h) E → (cursor ≤ length E)%nat → (length E < cursor + fuel)%nat →
  read_pages fuel cursor h = Ok (drop cursor E).*2.
Proof.
  induction fuel as [|fuel IH]; intros cursor Hf HS Hle Hfuel; [lia|]. cbn [read_pages]. unfold PhysicalTopN_GetData, TopN_GetData. rewrite Hf. cbn [negb].
  pose proof (Forall2_length _ _ _ HS) as Hlen. set (count := Nat.min (Z.to_nat STANDARD_VECTOR_SIZE) (length (heap_ h) - cursor)).
  assert (stands_for (payload_ h) (take count (drop cursor (heap_ h))) (take count (drop cursor E))) as HS' by (by apply Forall2_take, Forall2_drop).
  rewrite (stands_for_gather _ _ _ HS'). cbn [mbind result_bind]. assert (length (take count (drop cursor E)).*2 = count) as Hcnt.
  { rewrite length_fmap, length_take, length_drop. unfold count. lia. }
  rewrite Hcnt. assert (Z.to_nat STANDARD_VECTOR_SIZE = 1024%nat) as Hstd by done. rewrite Hstd in *.
  case_bool_decide as H0; [|case_bool_decide as Hend]; cbn [mbind result_bind].
  - assert (length E = cursor) as <- by lia. by rewrite drop_all, take_nil.
  - f_equal. f_equal. apply take_ge. rewrite length_drop. lia.
  - assert (count = 1024)%nat as -> by lia. rewrite IH by (done || lia). cbn [mbind result_bind]. f_equal. rewrite <- fmap_app. f_equal.
    rewrite <- drop_drop. apply take_drop.
Qed.
End operator.

(** * ORDER BY: the theorems

    Sort keys, the top-N operator, the columns and the strings under them. *)

(** ** A standard library *)

(** Descending lists are heaps: the algorithms the theorems rely on exist. *)
Definition ascending (a b : TopNEntry) : Prop := skey_le (key_ a) (key_ b).
Definition descending (a b : TopNEntry) : Prop := skey_le (key_ b) (key_ a).
#[global] Instance ascending_dec a b : Decision (ascending a b).
Proof. unfold ascending, skey_le. apply _. Defined.
#[global] Instance descending_dec a b : Decision (descending a b).
Proof. unfold descending, skey_le. apply _. Defined.
Lemma skey_le_total a b : skey_le a b ∨ skey_le b a.
Proof. rewrite !skey_le_bcmp, (bcmp_antisym a b). destruct (bcmp a b); simpl; auto. Qed.
#[global] Instance ascending_order : PreOrder ascending.
Proof. split; [by intros a; unfold ascending|]. intros a b c. unfold ascending. by etrans. Qed.
#[global] Instance descending_order : PreOrder descending.
Proof. split; [by intros a; unfold descending|]. intros a b c. unfold descending. intros. by etrans. Qed.
#[global] Instance ascending_total : Total ascending.
Proof. intros a b. apply skey_le_total. Qed.
#[global] Instance descending_total : Total descending.
Proof. intros a b. apply skey_le_total. Qed.

#[global, refine] Instance sorted_lists : HeapAlgorithms entry_lt := {|
  is_heap := StronglySorted descending;
  push_heap := merge_sort descending;
  pop_heap l := match l with x :: l => l ++ [x] | [] => [] end;
  sort_ := merge_sort ascending |}.
Proof.
  - constructor.
  - intros x l [_ H]%StronglySorted_inv. exact H.
  - intros l x _. split; [apply StronglySorted_merge_sort; apply _|]. rewrite merge_sort_Permutation. by rewrite (comm (++)).
  - intros x l [H _]%StronglySorted_inv. by exists l.
  - intros l l' H. induction H as [|a b l l' Hab HF IH]; [done|]. intros [Hs Hh]%StronglySorted_inv. constructor; [by apply IH|].
    rewrite Forall_forall in *. intros y Hy. apply list_elem_of_lookup_1 in Hy as [i Hi]. destruct (Forall2_lookup_r _ _ _ _ _ HF Hi) as (x & Hx & Hxy).
    specialize (Hh x ltac:(by eapply list_elem_of_lookup_2)). unfold descending, skey_le in *. fold (entry_lt a x) in Hh. fold (entry_lt b y).
    rewrite <- (proj1 (Hab y)), <- (proj2 (Hxy a)). exact Hh.
  - intros l. split; [apply merge_sort_Permutation|]. apply StronglySorted_merge_sort; apply _.
Defined.

(** ** Sort keys *)

(** The values of a row, [None] for NULL. *)
Fixpoint row_values (cols : list SortColumn) (n r : Z) : result (list (option cell)) :=
  match cols with
  | [] => Ok []
  | col :: cols => '(c, is_null) ← read_row (sc_vector col) n r; vs ← row_values cols n r; Ok ((if is_null : bool then None else Some c) :: vs)
  end.
Definition schema_of (cols : list SortColumn) : list (PhysicalType * OrderType) := (λ col, (sc_type col, sc_order col)) <$> cols.

Lemma row_key_values cols n r a : row_values cols n r = Ok a → row_key cols n r = encode_row (schema_of cols) a.
Proof.
  revert a. induction cols as [|col cols IH]; intros a E; simpl in *; [by injection E as <-|].
  unfold cell_key, encode_value. destruct (read_row (sc_vector col) n r) as [[c b]|]; simpl in *; [|done].
  destruct (row_values cols n r) as [vs|]; simpl in E; [|done]. injection E as <-. rewrite (IH vs eq_refl). unfold flip_bytes_.
  destruct b; [by rewrite (bool_decide_true (None = None))|by rewrite (bool_decide_false (Some c = None))].
Qed.

(** C26: [CreateSortKey] succeeds on every chunk of typed rows whose keys fit a heap chunk, along both of its
    reservation paths.  Comparing the keys of two rows, the way [string_t] does with memcmp, is the ORDER BY order
    of the rows, column by column with each direction, numbers by value, strings by bytes, NULLs last in an
    ascending column: for all rows without NaN and without the byte [0xff] in a string, the greatest integer of a
    column's type being the one value that ties with NULL.  The byte [0xff] is left out because the keys are wrong
    there: it wraps around to the delimiter, and a string that starts with it sorts before every other. *)
Theorem sort_keys_order_rows junk cols n (rows : nat → list (option cell)) :
  (0 < n)%nat → Z.of_nat n ≤ STANDARD_VECTOR_SIZE → (∀ col, col ∈ cols → string_cells col n) →
  (∀ r, (r < n)%nat → row_values cols (Z.of_nat n) (Z.of_nat r) = Ok (rows r)) →
  (∀ r, (r < n)%nat → row_typed (schema_of cols) (rows r)) →
  (∀ r k, (r < n)%nat → encode_row (schema_of cols) (rows r) = Ok k → Z.of_nat (length k) < MINIMUM_HEAP_SIZE) →
  ∃ kv, CreateSortKey junk cols n = Ok kv ∧
    (∀ r r', (r < n)%nat → (r' < n)%nat → row_orderable (schema_of cols) (rows r) → row_orderable (schema_of cols) (rows r') →
      let order := order_by (schema_of cols) (null_max (schema_of cols) (rows r)) (null_max (schema_of cols) (rows r')) in
      string_lt (key_bytes kv r) (key_bytes kv r') = bool_decide (order = Lt) ∧
      string_eq (key_bytes kv r) (key_bytes kv r') = bool_decide (order = Eq)) ∧
    (∀ r r' rest s b t a a', (r < n)%nat → (r' < n)%nat → schema_of cols = (STRING, ASCENDING) :: rest → b ≠ Byte.xff →
      rows r = Some (CStr (Byte.xff :: s)) :: a → rows r' = Some (CStr (b :: t)) :: a' →
      string_lt (key_bytes kv r) (key_bytes kv r') = true).
Proof.
  intros Hn Hmax Hs Hv Hty Hlen.
  destruct (CreateSortKey_keys junk cols n Hn Hmax Hs) as (kv & E & Hkv).
  { intros r Hr. destruct (row_encodes _ _ (Hty r Hr)) as (k & Ek). exists k. rewrite (row_key_values _ _ _ _ (Hv r Hr)). split; [done|]. by apply (Hlen r). }
  assert (∀ r, (r < n)%nat → encode_row (schema_of cols) (rows r) = Ok (key_bytes kv r)) as Hkey.
  { intros r Hr. by rewrite <- (row_key_values _ _ _ _ (Hv r Hr)), (Hkv r Hr). }
  exists kv. split_and!; [done| |].
  - intros r r' Hr Hr' Ho Ho'. destruct (encode_row_order _ _ _ Ho Ho') as (ka & kb & Ea & Eb & Hc).
    rewrite (Hkey r Hr) in Ea. rewrite (Hkey r' Hr') in Eb.
    injection Ea as <-. injection Eb as <-. destruct (operators_spec (key_bytes kv r) (key_bytes kv r')) as (Hlt & _ & Heq). cbv zeta. by rewrite Hlt, Heq, Hc.
  - intros r r' rest s b t a a' Hr Hr' Hsch Hb Er Er'. pose proof (Hkey r Hr) as Ea. pose proof (Hkey r' Hr') as Eb. rewrite Hsch, Er in Ea. rewrite Hsch, Er' in Eb.
    destruct (operators_spec (key_bytes kv r) (key_bytes kv r')) as (Hlt & _ & _). by rewrite Hlt, (string_ff_first _ _ _ _ _ _ _ _ Hb Ea Eb).
Qed.

(** Three rows: ('b', 5), (NULL, the greatest integer) and (0xff 'a', NULL), the second column descending and
    behind a selection. *)
Definition sample_columns : list SortColumn :=
  [mkColumn STRING (FLAT_VECTOR [CStr [Byte.x62]; CStr []; CStr [Byte.xff; Byte.x61]] (Some [5])) ASCENDING;
   mkColumn INTEGER (DICTIONARY_VECTOR [2; 0; 1] (FLAT_VECTOR [CNum 2147483647; CNum 9; CNum 5] (Some [5]))) DESCENDING].
Definition sample_rows (r : nat) : list (option cell) :=
  match r with
  | 0%nat => [Some (CStr [Byte.x62]); Some (CNum 5)]
  | 1%nat => [None; Some (CNum 2147483647)]
  | _ => [Some (CStr [Byte.xff; Byte.x61]); None]
  end.

Lemma sort_keys_order_rows_witness :
  ∃ kv, CreateSortKey Byte.x00 sample_columns 3 = Ok kv ∧
    string_lt (key_bytes kv 0) (key_bytes kv 1) = true ∧ string_lt (key_bytes kv 2) (key_bytes kv 0) = true.
Proof.
  destruct (sort_keys_order_rows Byte.x00 sample_columns 3 sample_rows) as (kv & E & Ho & Hff).
  - lia.
  - done.
  - intros col Hcol. unfold sample_columns in Hcol. rewrite !elem_of_cons, elem_of_nil in Hcol. destruct Hcol as [->|[->|[]]]; [|done].
    intros _ [|[|[|r]]] Hr; [by eexists _, _|by eexists _, _|by eexists _, _|lia].
  - intros [|[|[|r]]] Hr; done || lia.
  - intros [|[|[|r]]] Hr; try lia; repeat constructor; simpl; try done; by eexists; split; [reflexivity|done].
  - intros [|[|[|r]]] k Hr E; try lia; vm_compute in E; injection E as <-; done.
  - exists kv. split_and!; [done| |].
    + destruct (Ho 0%nat 1%nat) as [-> _]; [lia|lia| | |done].
      all: repeat constructor; simpl; try done; try (by eexists; split; [reflexivity|done]); by rewrite not_elem_of_cons; split; [|apply not_elem_of_nil].
    + by apply (Hff 2%nat 0%nat [(INTEGER, DESCENDING)] [Byte.x61] Byte.x62 [] [None] [Some (CNum 5)]); [lia|lia| | | |].
Defined.

(** ** Top-N *)

(** C27: the top-N operator over any split of the input among workers, each with any chunks, and any order of
    their [Combine]s, returns the rows in key order, as many as the limit asks for, and no row it left out
    sorts before one it returned: together they are the rows of the input. *)
Theorem topn_correct {A : Type} `{!HeapAlgorithms entry_lt} junk junk_cell schema n (work : list (list (list A * list SortColumn))) :
  Forall (chunks_ok (new_TopNHeap schema n)) work →
  ∃ kept dropped, run_topn junk junk_cell schema n work = Ok kept.*2 ∧
    concat (offered_by <$> work) ≡ₚ kept ++ dropped ∧
    StronglySorted (λ p q, skey_le p.1 q.1) kept ∧
    (∀ p d, p ∈ kept → d ∈ dropped → skey_le p.1 d.1) ∧
    length kept = Nat.min n (length (concat (offered_by <$> work))).
Proof.
  intros Hw. pose proof (new_TopNHeap_ok (A := A) schema n) as Hfresh. unfold run_topn.
  destruct (sink_workers_ok junk junk_cell _ work Hfresh Hw) as (workers & E1 & HF). rewrite E1. cbn [mbind result_bind].
  destruct Hfresh as (Hinv & Hh & Hfin).
  destruct (combine_workers_ok junk _ workers work [] _ HF Hinv Hh (same_config_refl _)) as (gs & E2 & Hinv2 & _ & (Hlim & _) & Hfin2).
  rewrite E2. cbn [mbind result_bind]. rewrite Hfin in Hfin2.
  destruct (Finalize_ok junk _ gs Hinv2 Hfin2) as (gs' & E3 & Hinv3 & Hsort & (Hlim' & _) & Hfin3 & _). rewrite E3. cbn [mbind result_bind].
  destruct (topn_inv_split _ _ _ Hinv3) as (E & D & Hp & HS & Hle & Hfull). pose proof (Forall2_length _ _ _ HS) as Hl. exists E, D. split_and!.
  - rewrite (read_pages_ok gs' E _ 0 Hfin3 HS); [done|lia|lia].
  - exact Hp.
  - by eapply stands_for_sorted.
  - exact Hle.
  - assert (limit_ gs' = n) as Hn by (rewrite Hlim', Hlim; unfold new_TopNHeap; by destruct schema as [|[]]).
    pose proof (ti_len _ _ _ Hinv3) as Hle'. apply Permutation_length in Hp. rewrite !length_app in Hp. simpl in Hp. rewrite Hp.
    destruct D as [|d D]; simpl; [lia|]. specialize (Hfull ltac:(done)). lia.
Qed.

(** One worker with two rows, another with one behind a selection; the greatest number first, limit 2. *)
Definition sample_work : list (list (list Z * list SortColumn)) :=
  [[([10; 20], [mkColumn INTEGER (FLAT_VECTOR [CNum 10; CNum 20] None) DESCENDING])];
   [([30], [mkColumn INTEGER (DICTIONARY_VECTOR [1] (FLAT_VECTOR [CNum 7; CNum 30] None)) DESCENDING])]].
Lemma sample_chunk_ok cols n v :
  cols = [mkColumn INTEGER v DESCENDING] → (0 < n)%nat → Z.of_nat n ≤ STANDARD_VECTOR_SIZE →
  (∀ r, (r < n)%nat → ∃ z, read_row v (Z.of_nat n) (Z.of_nat r) = Ok (CNum z, false) ∧ - 2 ^ 31 ≤ z ≤ 2 ^ 31 - 1) →
  chunk_ok true INTEGER true cols n.
Proof.
  intros -> Hn Hmax Hr.
  assert (∀ z, - 2 ^ 31 ≤ z ≤ 2 ^ 31 - 1 → orderable INTEGER (CNum z)) as Ho by (intros z Hz; exists (true, 4%nat); split; [done|exact Hz]).
  split.
  - done.
  - intros col r ->%list_elem_of_singleton Hlt. destruct (Hr r Hlt) as (z & E & _). by exists (CNum z), false.
  - intros r Hlt. destruct (Hr r Hlt) as (z & E & Hz). destruct (number_coded INTEGER z z (Ho z Hz) (Ho z Hz)) as [Ec _ _ _ _].
    assert (∃ k, EncodeOneRow INTEGER true (CNum z) false = Ok k) as [k Ek] by (unfold EncodeOneRow; rewrite Ec; eauto).
    exists (k ++ []). cbn [row_key]. unfold cell_key, flip_bytes_. cbn [sc_vector sc_type sc_order]. rewrite E. cbn [mbind result_bind].
    rewrite bool_decide_true by done. rewrite Ek. split; [done|]. apply EncodeOneRow_length in Ek. cbn [IsConstantSize SizeOf] in Ek. injection Ek as Ek.
    rewrite app_nil_r, <- Ek. done.
  - intros _. split; [done|]. eexists _, []. split_and!; [done..|]. intros r Hlt. destruct (Hr r Hlt) as (z & E & Hz). exists z, false. split; [done|]. intros _. by apply Ho.
Qed.
Lemma topn_correct_witness :
  run_topn Byte.x00 (CNum 0) [(INTEGER, DESCENDING)] 2 sample_work = Ok [30; 20] ∧
  ∃ kept dropped, run_topn Byte.x00 (CNum 0) [(INTEGER, DESCENDING)] 2 sample_work = Ok kept.*2 ∧
    concat (offered_by <$> sample_work) ≡ₚ kept ++ dropped ∧
    StronglySorted (λ p q, skey_le p.1 q.1) kept ∧
    (∀ p d, p ∈ kept → d ∈ dropped → skey_le p.1 d.1) ∧
    length kept = Nat.min 2 (length (concat (offered_by <$> sample_work))).
Proof.
  split; [vm_compute; reflexivity|]. apply (topn_correct Byte.x00 (CNum 0) [(INTEGER, DESCENDING)] 2 sample_work).
  apply Forall_cons. split; [|apply Forall_singleton]; (apply Forall_singleton; intros _; eapply sample_chunk_ok; [reflexivity|simpl; lia|done|]).
  - intros [|[|r]] Hr; [by exists 10|by exists 20|simpl in Hr; lia].
  - intros [|r] Hr; [by exists 30|simpl in Hr; lia].
Defined.

(** what the order of keys does not tell apart.  NULL and the greatest value of an integer type have one
    key, in either direction; a byte 255 of a string wraps to the terminator, so that the string compares as
    its prefix does, before every longer string of the same prefix. *)
Theorem sort_key_collisions ty k o :
  int_kind ty = Some k →
  encode_value ty o None = encode_value ty o (Some (CNum (int_max k))) ∧
  ∀ s t, encode_value STRING ASCENDING (Some (CStr (s ++ Byte.xff :: t))) =
    Ok (byte_of NON_NULL_PREFIX :: ((λ b, byte_of (byte_val b + 1)) <$> s) ++ STRING_DELIMITER :: ((λ b, byte_of (byte_val b + 1)) <$> t) ++ [STRING_DELIMITER]).
Proof.
  intros Hk. split.
  - destruct ty; try done; injection Hk as <-; destruct o; vm_compute; reflexivity.
  - intros s t. unfold encode_value, EncodeOneRow. rewrite (bool_decide_false (Some _ = None)) by done. rewrite (bool_decide_false (ASCENDING = DESCENDING)) by done.
    cbn [from_option id op_Encode mbind result_bind]. rewrite fmap_app, fmap_cons, <- (assoc_L (++)). reflexivity.
Qed.
Lemma sort_key_collisions_witness :
  encode_value BIGINT ASCENDING None = encode_value BIGINT ASCENDING (Some (CNum 9223372036854775807)) ∧
  ∀ s t, encode_value STRING ASCENDING (Some (CStr (s ++ Byte.xff :: t))) =
    Ok (byte_of NON_NULL_PREFIX :: ((λ b, byte_of (byte_val b + 1)) <$> s) ++ STRING_DELIMITER :: ((λ b, byte_of (byte_val b + 1)) <$> t) ++ [STRING_DELIMITER]).
Proof. apply (sort_key_collisions BIGINT (true, 8%nat) ASCENDING). reflexivity. Defined.
