(* ===== verification/TaskMachine.v ===== *)
(** * The query executor ([parallel/executor.cpp], [task.cpp], [task_scheduler.cpp], [pipeline.cpp])

    A query is a graph of pipelines.  Worker threads take tasks from a queue behind a mutex and a condition
    variable; the last task of a pipeline finalizes its sink and releases the pipelines that waited for it,
    by counters that are decremented atomically.  The machine interleaves the threads at every access to
    shared state: a step is one critical section or one atomic operation.  What an operator does inside a
    task is outside the model: a drain ends well or throws. *)

From S2P Require Import Prelude.

(** ** Pipelines *)

(** What [Pipeline::MaxThreads] asks of the operators, and the edges of the graph.  A source may answer differently
    when the demand of the query is computed and when the tasks of its pipeline are created: a grace hash join
    counts the partitions its sinks have filled by then. *)
Record PipelineInfo := mkPipeline {
  source_max_threads : Z;                  (** [source_gstate_->MaxThreads()], in [PeakTaskDemand] *)
  source_max_threads_created : Z;          (** the same, in [CreateTasks] *)
  source_provides_batch_index : bool;
  source_order_preserving : bool;
  operators_ : list (bool * bool);         (** [ParallelOperator], [OperatorOrderDependent] *)
  sink_parallel : bool;
  sink_order_dependent : bool;
  dependencies_ : list nat;
  dependents_ : list nat }.

Definition set_edges (deps outs : list nat) (p : PipelineInfo) : PipelineInfo :=
  mkPipeline (source_max_threads p) (source_max_threads_created p) (source_provides_batch_index p) (source_order_preserving p) (operators_ p)
    (sink_parallel p) (sink_order_dependent p) deps outs.

(** [std::clamp(n, 1, max)] is undefined when the bounds are out of order. *)
Definition clamp (n lo hi : Z) : result Z := if bool_decide (hi < lo) then Err EUndefined else Ok (Z.max lo (Z.min n hi)).
Definition MaxThreads (executor_max source : Z) (p : PipelineInfo) : result Z :=
  let n := source in
  let n := if sink_parallel p then n else 1 in
  let n := if forallb fst (operators_ p) then n else 1 in
  let n := if sink_order_dependent p then
             let n := if source_provides_batch_index p then n else 1 in
             if existsb snd (operators_ p) then 1 else n
           else n in
  let n := if source_order_preserving p then 1 else n in
  clamp n 1 executor_max.

(** [PipelineBuilder]: pipelines by index; both ends of an edge are recorded. *)
Definition CreateRootPipeline (fresh : PipelineInfo) (ps : list PipelineInfo) : list PipelineInfo * nat :=
  (ps ++ [set_edges [] [] fresh], length ps).
Definition add_edge (dependent dependency : nat) (ps : list PipelineInfo) : list PipelineInfo :=
  let ps := alter (λ p, set_edges (dependencies_ p ++ [dependency]) (dependents_ p) p) dependent ps in
  alter (λ p, set_edges (dependencies_ p) (dependents_ p ++ [dependent]) p) dependency ps.
Definition CreateChildPipeline (parent : nat) (fresh : PipelineInfo) (ps : list PipelineInfo) : list PipelineInfo * nat :=
  let '(ps, child) := CreateRootPipeline fresh ps in
  (add_edge parent child ps, child).
Definition AddDependency (dependent dependency : nat) (ps : list PipelineInfo) : list PipelineInfo :=
  add_edge dependent dependency ps.

(** ** The state of a running query *)

(** The counters of a pipeline. *)
Record Counters := mkCounters { dependencies_remaining_ : Z; tasks_remaining_ : Z; dead_ : bool }.

(** Where a thread is.  [WorkUntil]: about to lock, holding the lock, about to sleep on the condition
    variable with the lock still held, asleep, returned.  [PipelineTask::Execute]: a task of pipeline [p]
    before and in its drain, before the decrement of [tasks_remaining_], before the error check of the last
    task, in [Finalize], in [ReleaseDependents] with the dependents still to do and the tasks created so far,
    in [EnqueueAll] before the push and before [notify_all], in [MergeThreadProfiler], before the decrement
    of [active_tasks_]; the last one sets [query_done_] and wakes the others under the lock. *)
Inductive pc :=
  | Idle | Locked | AboutToSleep | Sleeping | Exited
  | Running (p : nat) | Draining (p : nat) | Drained (p : nat) | LastTask (p : nat) | Finalizing (p : nat)
  | Releasing (p : nat) (ds : list nat) (no_output : bool) (ready : list nat)
  | Creating (p d : nat) (ds : list nat) (no_output : bool) (ready : list nat)
  | Enqueueing (ready : list nat) | Notifying | Merging | Finishing
  | Completing | Waking | WakingLocked.
#[global] Instance pc_eq_dec : EqDecision pc.
Proof. solve_decision. Defined.

(** [closed] is a history variable: the pipelines whose last task is through, and whether their sink was
    finalized and their dependents released. *)
Record Exec := mkExec {
  counters : list Counters;
  queue_ : list nat;              (** the tasks, by pipeline *)
  active_tasks_ : Z;
  query_done_ : bool;
  has_error_ : bool;
  mutex_ : option nat;            (** the thread that holds the scheduler's mutex *)
  threads : list pc;
  closed : list (nat * bool) }.

Definition set_thread (i : nat) (c : pc) (e : Exec) : Exec :=
  mkExec (counters e) (queue_ e) (active_tasks_ e) (query_done_ e) (has_error_ e) (mutex_ e) (<[i := c]> (threads e)) (closed e).
Definition set_mutex (m : option nat) (e : Exec) : Exec :=
  mkExec (counters e) (queue_ e) (active_tasks_ e) (query_done_ e) (has_error_ e) m (threads e) (closed e).
Definition set_queue (q : list nat) (e : Exec) : Exec :=
  mkExec (counters e) q (active_tasks_ e) (query_done_ e) (has_error_ e) (mutex_ e) (threads e) (closed e).
Definition set_active (n : Z) (e : Exec) : Exec :=
  mkExec (counters e) (queue_ e) n (query_done_ e) (has_error_ e) (mutex_ e) (threads e) (closed e).
Definition set_done (e : Exec) : Exec :=
  mkExec (counters e) (queue_ e) (active_tasks_ e) true (has_error_ e) (mutex_ e) (threads e) (closed e).
Definition PushError (e : Exec) : Exec :=
  mkExec (counters e) (queue_ e) (active_tasks_ e) (query_done_ e) true (mutex_ e) (threads e) (closed e).
Definition set_counters (d : nat) (c : Counters) (e : Exec) : Exec :=
  mkExec (<[d := c]> (counters e)) (queue_ e) (active_tasks_ e) (query_done_ e) (has_error_ e) (mutex_ e) (threads e) (closed e).
Definition close (p : nat) (ok : bool) (e : Exec) : Exec :=
  mkExec (counters e) (queue_ e) (active_tasks_ e) (query_done_ e) (has_error_ e) (mutex_ e) (threads e) (closed e ++ [(p, ok)]).
(** [cv_.notify_all()]: every sleeping thread goes back to take the lock and test again. *)
Definition wake (c : pc) : pc := match c with Sleeping => Idle | c => c end.
Definition notify_all (e : Exec) : Exec :=
  mkExec (counters e) (queue_ e) (active_tasks_ e) (query_done_ e) (has_error_ e) (mutex_ e) (wake <$> threads e) (closed e).

(** ** Steps *)

(** How the code outside the model ends: a drain or a [Finalize] that returns, the latter with the verdict
    [NO_OUTPUT_POSSIBLE] or not, or an exception. *)
Inductive outcome := Returns (no_output : bool) | Throws.

Section machine.
(** The graph, and the task count of each of its pipelines. *)
Context (graph : list PipelineInfo) (task_count : nat → nat).

Definition dependencies_of (d : nat) : list nat := match graph !! d with Some info => dependencies_ info | None => [] end.
Definition dependents_of (p : nat) : list nat := match graph !! p with Some info => dependents_ info | None => [] end.

(** [TaskScheduler::WorkUntil]: take the lock; take a task, return, or wait; go to sleep and release the lock. *)
Definition WorkUntil_lock (i : nat) (e : Exec) : option Exec :=
  match mutex_ e with Some _ => None | None => Some (set_mutex (Some i) (set_thread i Locked e)) end.
Definition WorkUntil_test (i : nat) (e : Exec) : option Exec :=
  match queue_ e with
  | p :: queue => Some (set_mutex None (set_queue queue (set_thread i (Running p) e)))
  | [] => if query_done_ e then Some (set_mutex None (set_thread i Exited e)) else Some (set_thread i AboutToSleep e)
  end.
Definition WorkUntil_sleep (i : nat) (e : Exec) : option Exec := Some (set_mutex None (set_thread i Sleeping e)).

(** [PipelineTask::Execute]: the error check, the drain, [tasks_remaining_.fetch_sub(1)], and the second
    error check of the last task. *)
Definition Execute_start (i p : nat) (e : Exec) : option Exec := Some (set_thread i (if has_error_ e then Drained p else Draining p) e).
Definition Execute_drain (i p : nat) (o : outcome) (e : Exec) : option Exec :=
  match o with
  | Returns _ => Some (set_thread i (Drained p) e)
  | Throws => Some (PushError (set_thread i (Drained p) e))
  end.
Definition Execute_drained (i p : nat) (e : Exec) : option Exec :=
  match counters e !! p with
  | None => None
  | Some c =>
      let e := set_counters p (mkCounters (dependencies_remaining_ c) (u64 (tasks_remaining_ c - 1)) (dead_ c)) e in
      Some (set_thread i (if bool_decide (tasks_remaining_ c = 1) then LastTask p else Merging) e)
  end.
Definition Execute_last (i p : nat) (e : Exec) : option Exec :=
  if has_error_ e then Some (close p false (set_thread i Merging e)) else Some (set_thread i (Finalizing p) e).

(** [Executor::RunFinalize]. *)
Definition RunFinalize (i p : nat) (o : outcome) (e : Exec) : option Exec :=
  match o with
  | Returns no_output => Some (close p true (set_thread i (Releasing p (dependents_of p) no_output []) e))
  | Throws => Some (close p false (PushError (set_thread i Merging e)))
  end.
(** [Executor::ReleaseDependents]: one turn of its loop. *)
Definition ReleaseDependents (i p : nat) (ds : list nat) (no_output : bool) (ready : list nat) (e : Exec) : option Exec :=
  match ds with
  | [] => Some (set_thread i (Enqueueing ready) e)
  | d :: ds =>
      match counters e !! d with
      | None => None
      | Some c =>
          let e := set_counters d (mkCounters (u64 (dependencies_remaining_ c - 1)) (tasks_remaining_ c) (dead_ c || no_output)) e in
          Some (set_thread i (if bool_decide (dependencies_remaining_ c = 1) then Creating p d ds no_output ready
                              else Releasing p ds no_output ready) e)
      end
  end.
(** [Executor::CreateTasks]: nobody sees the new tasks before they are enqueued. *)
Definition CreateTasks (i p d : nat) (ds : list nat) (no_output : bool) (ready : list nat) (e : Exec) : option Exec :=
  match counters e !! d with
  | None => None
  | Some c =>
      let n := task_count d in
      let e := set_counters d (mkCounters (dependencies_remaining_ c) (Z.of_nat n) (dead_ c)) e in
      Some (set_thread i (Releasing p ds no_output (ready ++ replicate n d)) (set_active (u64 (active_tasks_ e + Z.of_nat n)) e))
  end.
(** [TaskScheduler::EnqueueAll]: the push under the lock; [notify_all] comes after it. *)
Definition EnqueueAll (i : nat) (ready : list nat) (e : Exec) : option Exec :=
  match ready with
  | [] => Some (set_thread i Merging e)
  | _ => match mutex_ e with Some _ => None | None => Some (set_queue (queue_ e ++ ready) (set_thread i Notifying e)) end
  end.
(** [Executor::TaskFinished], and the store of [query_done_] by the task that ends the query. *)
Definition TaskFinished (i : nat) (e : Exec) : option Exec :=
  let e' := set_active (u64 (active_tasks_ e - 1)) e in
  Some (set_thread i (if bool_decide (active_tasks_ e = 1) then Completing else Idle) e').
(** [TaskScheduler::NotifyAll]: the lock, and the wake-up under it. *)
Definition NotifyAll_lock (i : nat) (e : Exec) : option Exec :=
  match mutex_ e with Some _ => None | None => Some (set_mutex (Some i) (set_thread i WakingLocked e)) end.
Definition NotifyAll (i : nat) (e : Exec) : option Exec := Some (set_mutex None (notify_all (set_thread i Idle e))).

Definition step_thread (i : nat) (o : outcome) (e : Exec) : option Exec :=
  match threads e !! i with
  | None | Some Exited | Some Sleeping => None
  | Some Idle => WorkUntil_lock i e
  | Some Locked => WorkUntil_test i e
  | Some AboutToSleep => WorkUntil_sleep i e
  | Some (Running p) => Execute_start i p e
  | Some (Draining p) => Execute_drain i p o e
  | Some (Drained p) => Execute_drained i p e
  | Some (LastTask p) => Execute_last i p e
  | Some (Finalizing p) => RunFinalize i p o e
  | Some (Releasing p ds no_output ready) => ReleaseDependents i p ds no_output ready e
  | Some (Creating p d ds no_output ready) => CreateTasks i p d ds no_output ready e
  | Some (Enqueueing ready) => EnqueueAll i ready e
  | Some Notifying => Some (notify_all (set_thread i Merging e))
  | Some Merging => Some (set_thread i Finishing e)
  | Some Finishing => TaskFinished i e
  | Some Completing => Some (set_done (set_thread i Waking e))
  | Some Waking => NotifyAll_lock i e
  | Some WakingLocked => NotifyAll i e
  end.

(** A condition variable may wake without a notification. *)
Definition spurious (i : nat) (e : Exec) : option Exec :=
  match threads e !! i with Some Sleeping => Some (set_thread i Idle e) | _ => None end.

Inductive exec_step (e e' : Exec) : Prop := exec_step_intro i o : step_thread i o e = Some e' → exec_step e e'.
Inductive any_step (e e' : Exec) : Prop :=
  | any_exec : exec_step e e' → any_step e e'
  | any_spurious i : spurious i e = Some e' → any_step e e'.

(** ** [Executor::ExecuteQuery] *)

(** [Initialize] arms the dependency counters; the pipelines that wait for nothing are ready at once. *)
Definition seed (d : nat) (info : PipelineInfo) : list nat :=
  if bool_decide (dependencies_ info = []) then replicate (task_count d) d else [].
Definition initial_counters (d : nat) (info : PipelineInfo) : Counters :=
  mkCounters (Z.of_nat (length (dependencies_ info))) (Z.of_nat (length (seed d info))) false.
Definition start_query (nthreads : nat) : Exec :=
  let ready := concat (imap seed graph) in
  mkExec (imap initial_counters graph) ready (Z.of_nat (length ready)) false false None (replicate nthreads Idle) [].
End machine.

(** The step of a thread, open. *)
Ltac open_step Hs :=
  unfold step_thread, WorkUntil_lock, WorkUntil_test, WorkUntil_sleep, Execute_start, Execute_drain, Execute_drained, Execute_last,
    RunFinalize, ReleaseDependents, CreateTasks, EnqueueAll, TaskFinished, NotifyAll_lock, NotifyAll in Hs.

(** The tasks [CreateTasks] makes for a pipeline. *)
Definition tasks_of (executor_max : Z) (graph : list PipelineInfo) (d : nat) : nat :=
  match graph !! d with
  | Some info => match MaxThreads executor_max (source_max_threads_created info) info with Ok n => Z.to_nat (Z.max 1 n) | Err _ => 1 end
  | None => 1
  end.
