(* ===== verification/TaskInvariant.v ===== *)
(** * What the counters of the executor count

    Every quantity the protocol relies on is a sum over the queue and the threads: tasks of a pipeline not
    yet drained, tasks not yet finished, dependency edges not yet released. *)

From S2P Require Import Prelude TaskMachine.

(** ** Sums *)

Definition occ (d : nat) (l : list nat) : nat := length (filter (eq d) l).
Lemma occ_app d l k : occ d (l ++ k) = (occ d l + occ d k)%nat.
Proof. unfold occ. by rewrite filter_app, length_app. Qed.
Lemma occ_cons d x l : occ d (x :: l) = ((if decide (d = x) then 1 else 0) + occ d l)%nat.
Proof. unfold occ. rewrite filter_cons. by case_decide. Qed.
Lemma occ_nil d : occ d [] = 0%nat.
Proof. done. Qed.
Lemma occ_replicate d x n : occ d (replicate n x) = if decide (d = x) then n else 0%nat.
Proof. induction n as [|n IH]; simpl; [by case_decide|]. rewrite occ_cons, IH. by case_decide. Qed.
Lemma occ_pos d l : (0 < occ d l)%nat ↔ d ∈ l.
Proof.
  unfold occ. split.
  - intros H. destruct (filter (eq d) l) as [|x k] eqn:E; [simpl in H; lia|].
    assert (x ∈ filter (eq d) l) as Hx by (rewrite E; set_solver). by apply list_elem_of_filter in Hx as [<- ?].
  - intros H. assert (d ∈ filter (eq d) l) as Hx by (by apply list_elem_of_filter). destruct (filter (eq d) l); [set_solver|simpl; lia].
Qed.

Definition sum_of {A} (f : A → nat) (l : list A) : nat := sum_list_with f l.
Lemma sum_of_insert {A} (f : A → nat) l i x y : l !! i = Some x → (sum_of f (<[i := y]> l) + f x = sum_of f l + f y)%nat.
Proof.
  revert i. induction l as [|z l IH]; intros [|i] H; simpl in *; try done; [injection H as ->; lia|]. specialize (IH i H). lia.
Qed.
Lemma sum_of_cons {A} (f : A → nat) x l : sum_of f (x :: l) = (f x + sum_of f l)%nat.
Proof. done. Qed.
Lemma sum_of_app {A} (f : A → nat) l k : sum_of f (l ++ k) = (sum_of f l + sum_of f k)%nat.
Proof. induction l; simpl; lia. Qed.
Lemma sum_of_elem {A} (f : A → nat) l i x : l !! i = Some x → (f x ≤ sum_of f l)%nat.
Proof. revert i. induction l as [|z l IH]; intros [|i] H; simpl in *; try done; [injection H as ->; lia|]. specialize (IH i H). lia. Qed.
Lemma sum_of_zero {A} (f : A → nat) l : sum_of f l = 0%nat ↔ Forall (λ x, f x = 0%nat) l.
Proof. induction l as [|x l IH]; simpl; [by split|]. rewrite Forall_cons, <- IH. lia. Qed.
Lemma sum_of_ext {A} (f g : A → nat) l : (∀ x, x ∈ l → f x = g x) → sum_of f l = sum_of g l.
Proof. induction l as [|x l IH]; intros H; simpl; [done|]. rewrite H, IH by set_solver. done. Qed.
Lemma sum_of_fmap {A B} (f : B → nat) (g : A → B) l : sum_of f (g <$> l) = sum_of (λ x, f (g x)) l.
Proof. unfold sum_of. induction l as [|x l IH]; simpl; [done|]. by rewrite <- IH. Qed.

(** ** What a thread holds *)

(** Tasks of pipeline [d] not yet drained. *)
Definition undrained (d : nat) (c : pc) : nat :=
  match c with
  | Running p | Draining p | Drained p => if decide (d = p) then 1%nat else 0%nat
  | Releasing _ _ _ ready | Creating _ _ _ _ ready | Enqueueing ready => occ d ready
  | _ => 0%nat
  end.
(** Tasks not yet finished: the thread's own and those it is about to enqueue. *)
Definition unfinished (c : pc) : nat :=
  match c with
  | Running _ | Draining _ | Drained _ | LastTask _ | Finalizing _ | Notifying | Merging | Finishing => 1%nat
  | Releasing _ _ _ ready | Creating _ _ _ _ ready | Enqueueing ready => (1 + length ready)%nat
  | _ => 0%nat
  end.
(** Released edges into [d] that are still to be counted down. *)
Definition pending (d : nat) (c : pc) : nat :=
  match c with Releasing _ ds _ _ | Creating _ _ ds _ _ => occ d ds | _ => 0%nat end.
Definition creating (d : nat) (c : pc) : nat := match c with Creating _ d' _ _ _ => if decide (d = d') then 1%nat else 0%nat | _ => 0%nat end.
Definition closing (d : nat) (c : pc) : nat := match c with LastTask p | Finalizing p => if decide (d = p) then 1%nat else 0%nat | _ => 0%nat end.

(** The counters of a pipeline; those of an unknown one are zero. *)
Definition ctr (e : Exec) (d : nat) : Counters := default (mkCounters 0 0 false) (counters e !! d).

Section invariant.
Context (graph : list PipelineInfo) (task_count : nat → nat).
Implicit Types e : Exec.

Definition finalized e : list nat := (filter (λ p : nat * bool, p.2 = true) (closed e)).*1.
(** Edges into [d] from pipelines that are not finalized. *)
Definition unreleased e (d : nat) : nat :=
  sum_of (λ q, if decide (q ∈ finalized e) then 0%nat else occ d (dependents_of graph q)) (seq 0 (length graph)).
Definition remaining e (d : nat) : nat := (occ d (queue_ e) + sum_of (undrained d) (threads e))%nat.

(** The places a pipeline can be in: its tasks about to be created, some of them not drained, its last task
    at work, closed. *)
Definition places e (d : nat) : nat :=
  (sum_of (creating d) (threads e) + Nat.min 1 (remaining e d) + sum_of (closing d) (threads e) + occ d (closed e).*1)%nat.

(** The tasks that exist and those that may still be created. *)
Definition to_create (c : pc) : nat := match c with Creating _ d _ _ _ => task_count d | _ => 0%nat end.
Definition unstarted e (d : nat) : nat := if decide (dependencies_remaining_ (ctr e d) = 0) then 0%nat else task_count d.
Definition budget e : nat :=
  (length (queue_ e) + sum_of unfinished (threads e) + sum_of to_create (threads e) + sum_of (unstarted e) (seq 0 (length graph)))%nat.
Definition all_tasks : nat := sum_of task_count (seq 0 (length graph)).

(** Edges are recorded at both ends, a pipeline has a task, and the counters do not wrap. *)
Record graph_ok : Prop := {
  go_edges : ∀ d q, occ q (dependencies_of graph d) = occ d (dependents_of graph q);
  go_tasks : ∀ d, (0 < task_count d)%nat;
  go_bound : Z.of_nat all_tasks < 2 ^ 64;
  go_edge_bound : ∀ d, Z.of_nat (length (dependencies_of graph d)) < 2 ^ 64 }.

(** What is counted.  A pipeline that waits for nothing is in exactly one place. *)
Record count_inv e : Prop := {
  ci_length : length (counters e) = length graph;
  ci_tasks : ∀ d, tasks_remaining_ (ctr e d) = Z.of_nat (remaining e d);
  ci_active : active_tasks_ e = Z.of_nat (length (queue_ e) + sum_of unfinished (threads e));
  ci_deps : ∀ d, dependencies_remaining_ (ctr e d) = Z.of_nat (unreleased e d + sum_of (pending d) (threads e));
  ci_places : ∀ d, places e d = if decide (d < length graph)%nat then (1 - Z.to_nat (dependencies_remaining_ (ctr e d)))%nat else 0%nat;
  ci_edges : ∀ d, (unreleased e d + sum_of (pending d) (threads e) ≤ length (dependencies_of graph d))%nat;
  ci_budget : (budget e ≤ all_tasks)%nat;
  ci_error : ∀ d, (d, false) ∈ closed e → has_error_ e = true }.

(** One thread moves from [x] to [y], and the sleepers may be woken. *)
Definition moves (i : nat) (x y : pc) e e' : Prop :=
  threads e !! i = Some x ∧ (threads e' = <[i := y]> (threads e) ∨ threads e' = wake <$> <[i := y]> (threads e)).
Lemma moves_sum i x y e e' f :
  moves i x y e e' → f Sleeping = f Idle → (sum_of f (threads e') + f x = sum_of f (threads e) + f y)%nat.
Proof.
  intros [Hx [->| ->]] Hf; [by apply sum_of_insert|]. rewrite sum_of_fmap.
  rewrite (sum_of_ext _ f); [by apply sum_of_insert|]. by intros [] _.
Qed.

(** The sums of a step, for a pipeline [d]. *)
Definition deltas (x y : pc) e e' (d : nat) : Prop :=
  (remaining e' d + (occ d (queue_ e) + undrained d x) = remaining e d + (occ d (queue_ e') + undrained d y) ∧
   undrained d x ≤ remaining e d ∧
   sum_of (pending d) (threads e') + pending d x = sum_of (pending d) (threads e) + pending d y ∧
   pending d x ≤ sum_of (pending d) (threads e) ∧
   sum_of (creating d) (threads e') + creating d x = sum_of (creating d) (threads e) + creating d y ∧
   creating d x ≤ sum_of (creating d) (threads e) ∧
   sum_of (closing d) (threads e') + closing d x = sum_of (closing d) (threads e) + closing d y ∧
   closing d x ≤ sum_of (closing d) (threads e) ∧
   sum_of unfinished (threads e') + unfinished x = sum_of unfinished (threads e) + unfinished y ∧
   unfinished x ≤ sum_of unfinished (threads e) ∧
   sum_of to_create (threads e') + to_create x = sum_of to_create (threads e) + to_create y)%nat.
Lemma moves_deltas i x y e e' d : moves i x y e e' → deltas x y e e' d.
Proof.
  intros Hm. unfold deltas, remaining. pose proof Hm as [Hx _].
  pose proof (moves_sum _ _ _ _ _ (undrained d) Hm eq_refl). pose proof (sum_of_elem (undrained d) _ _ _ Hx).
  pose proof (moves_sum _ _ _ _ _ (pending d) Hm eq_refl). pose proof (sum_of_elem (pending d) _ _ _ Hx).
  pose proof (moves_sum _ _ _ _ _ (creating d) Hm eq_refl). pose proof (sum_of_elem (creating d) _ _ _ Hx).
  pose proof (moves_sum _ _ _ _ _ (closing d) Hm eq_refl). pose proof (sum_of_elem (closing d) _ _ _ Hx).
  pose proof (moves_sum _ _ _ _ _ unfinished Hm eq_refl). pose proof (sum_of_elem unfinished _ _ _ Hx).
  pose proof (moves_sum _ _ _ _ _ to_create Hm eq_refl). lia.
Qed.

(** A sum over the pipelines when one of them changes. *)
Lemma sum_of_point (f g : nat → nat) n d :
  (∀ x, x ≠ d → f x = g x) → (d < n)%nat → (sum_of f (seq 0 n) + g d = sum_of g (seq 0 n) + f d)%nat.
Proof.
  intros H. induction n as [|n IH]; [lia|]. intros Hd. rewrite seq_S, !sum_of_app. simpl.
  destruct (decide (d = n)) as [->|Hne]; [|rewrite (H n) by done; specialize (IH ltac:(lia)); lia].
  rewrite (sum_of_ext f g); [lia|]. intros x Hx. apply H. apply elem_of_seq in Hx. lia.
Qed.

(** ** The preservation lemmas *)

(** A move that changes no count. *)
Lemma count_inv_move i x y e e' :
  count_inv e → moves i x y e e' → counters e' = counters e → closed e' = closed e → active_tasks_ e' = active_tasks_ e →
  (has_error_ e = true → has_error_ e' = true) →
  (∀ d, occ d (queue_ e') + undrained d y = occ d (queue_ e) + undrained d x)%nat →
  (length (queue_ e') + unfinished y = length (queue_ e) + unfinished x)%nat →
  (∀ d, pending d y = pending d x) → (∀ d, creating d y = creating d x) → (∀ d, closing d y = closing d x) → to_create y = to_create x →
  count_inv e'.
Proof.
  intros [H1 H2 H4 H5 H6 H9 H7 H8] Hm Hc Hcl Ha He Hq Hl Hp Hcr Hclo Htc.
  pose proof (moves_deltas _ _ _ _ _ 0 Hm) as D0.
  split; try (intros d; pose proof (moves_deltas _ _ _ _ _ d Hm) as D; specialize (Hq d); specialize (Hp d); specialize (Hcr d); specialize (Hclo d);
    specialize (H2 d); specialize (H5 d); specialize (H6 d); specialize (H9 d)); unfold deltas, places, budget, unstarted, unreleased, finalized, ctr in *;
    rewrite ?Hc, ?Hcl in *; try done; try lia.
  intros Hd. apply He. by eapply H8.
Qed.
End invariant.

(** * Every step of the executor keeps the counts *)

Lemma ctr_set p c e d : (p < length (counters e))%nat → ctr (set_counters p c e) d = if decide (d = p) then c else ctr e d.
Proof.
  intros Hp. unfold ctr. simpl. case_decide as Hd; [subst; by rewrite list_lookup_insert_eq|]. by rewrite list_lookup_insert_ne by done.
Qed.
Lemma ctr_lookup e d c : counters e !! d = Some c → ctr e d = c ∧ (d < length (counters e))%nat.
Proof. intros H. unfold ctr. rewrite H. split; [done|by eapply lookup_lt_Some]. Qed.
Lemma u64_pred n : 0 < n < 2 ^ 64 → u64 (n - 1) = n - 1.
Proof. intros H. unfold u64. apply Z.mod_small. lia. Qed.

Lemma closed_snoc (l : list (nat * bool)) p b : (l ++ [(p, b)]).*1 = l.*1 ++ [p].
Proof. by rewrite fmap_app. Qed.
Lemma close_true p e : finalized (close p true e) = finalized e ++ [p].
Proof. unfold finalized. simpl. by rewrite filter_app, fmap_app. Qed.
Lemma close_false p e : finalized (close p false e) = finalized e.
Proof. unfold finalized. simpl. by rewrite filter_app, app_nil_r. Qed.
Lemma finalized_closed e p : p ∈ finalized e → (0 < occ p (closed e).*1)%nat.
Proof.
  unfold finalized. rewrite occ_pos. intros [[q b] [-> H]]%list_elem_of_fmap. apply list_elem_of_filter in H as [_ H].
  apply list_elem_of_fmap. by exists (q, b).
Qed.

(** A thread that moved. *)
Ltac moved := split; [done|by left].
(** Sums of a step: decide which pipeline is meant, evaluate, count. *)
Ltac count := cbn [undrained unfinished pending creating closing to_create tasks_remaining_ dependencies_remaining_] in *; rewrite ?occ_app, ?occ_cons, ?occ_nil, ?occ_replicate, ?length_app, ?length_replicate in *; repeat (case_decide; try done); try lia.

Section steps.
Context (graph : list PipelineInfo) (task_count : nat → nat).
Context (G : graph_ok graph task_count).
Implicit Types e : Exec.
Abbreviation count_inv := (count_inv graph task_count).
Abbreviation unreleased := (unreleased graph).
Abbreviation unstarted := (unstarted task_count).
Abbreviation all_tasks := (all_tasks graph task_count).
Abbreviation deltas := (deltas task_count).

(** What the sums say of pipeline [d]. *)
Lemma tasks_bound e d : count_inv e → tasks_remaining_ (ctr e d) ≤ active_tasks_ e < 2 ^ 64.
Proof.
  intros I. rewrite (ci_active _ _ _ I), (ci_tasks _ _ _ I). split.
  - unfold remaining. assert (∀ l, occ d l ≤ length l)%nat as Hocc by (intros l; unfold occ; apply length_filter).
    assert (sum_of (undrained d) (threads e) ≤ sum_of unfinished (threads e))%nat as Hs; [|specialize (Hocc (queue_ e)); lia].
    induction (threads e) as [|c l IH]; simpl; [lia|].
    assert (undrained d c ≤ unfinished c)%nat; [|lia].
    destruct c; simpl; repeat case_decide; try lia; match goal with |- context [occ _ ?l] => specialize (Hocc l); lia end.
  - pose proof (ci_budget _ _ _ I). pose proof (go_bound _ _ G). unfold budget in *. lia.
Qed.
Lemma deps_bound e d : count_inv e → dependencies_remaining_ (ctr e d) < 2 ^ 64.
Proof. intros I. rewrite (ci_deps _ _ _ I). pose proof (ci_edges _ _ _ I d). pose proof (go_edge_bound _ _ G d). lia. Qed.

(** A step that changes some counts by the same amount on both sides. *)
Lemma count_inv_step i x y e e' :
  count_inv e → moves i x y e e' → length (counters e') = length (counters e) →
  (∀ d, tasks_remaining_ (ctr e' d) + Z.of_nat (occ d (queue_ e) + undrained d x)
      = tasks_remaining_ (ctr e d) + Z.of_nat (occ d (queue_ e') + undrained d y)) →
  active_tasks_ e' + Z.of_nat (length (queue_ e) + unfinished x) = active_tasks_ e + Z.of_nat (length (queue_ e') + unfinished y) →
  (∀ d, dependencies_remaining_ (ctr e' d) + Z.of_nat (unreleased e d + pending d x)
      = dependencies_remaining_ (ctr e d) + Z.of_nat (unreleased e' d + pending d y)) →
  (∀ d, dependencies_remaining_ (ctr e' d) ≤ dependencies_remaining_ (ctr e d)) →
  (∀ d, places e' d + Nat.min 1 (Z.to_nat (dependencies_remaining_ (ctr e' d)))
      = places e d + Nat.min 1 (Z.to_nat (dependencies_remaining_ (ctr e d))))%nat →
  (length (queue_ e') + unfinished y + to_create task_count y + sum_of (unstarted e') (seq 0 (length graph))
     ≤ length (queue_ e) + unfinished x + to_create task_count x + sum_of (unstarted e) (seq 0 (length graph)))%nat →
  (∀ d, (d, false) ∈ closed e' → has_error_ e' = true) →
  count_inv e'.
Proof.
  intros [H1 H2 H4 H5 H6 H9 H7 H8] Hm Hlen Ht Ha Hd Hle Hp Hb He. pose proof (moves_deltas task_count _ _ _ _ _ 0 Hm) as D0.
  split; try (intros d; pose proof (moves_deltas task_count _ _ _ _ _ d Hm) as D; specialize (Ht d); specialize (Hd d); specialize (Hle d); specialize (Hp d);
    specialize (H2 d); specialize (H5 d); specialize (H6 d); specialize (H9 d)); unfold TaskInvariant.deltas, budget in *; try done; try lia.
  - case_decide; [lia|]. assert (dependencies_remaining_ (ctr e d) = 0) as H0; [|lia].
    unfold ctr. by rewrite lookup_ge_None_2 by lia.
  - by apply He.
Qed.

(** A pipeline in one place is in no other. *)
Lemma one_place e d : count_inv e → (places e d ≤ 1)%nat ∧ ((0 < places e d)%nat → dependencies_remaining_ (ctr e d) = 0 ∧ (d < length graph)%nat).
Proof. intros I. rewrite (ci_places _ _ _ I). pose proof (ci_deps _ _ _ I d). case_decide; lia. Qed.

(** [tasks_remaining_.fetch_sub(1)]. *)
Lemma count_inv_drained i p c e :
  count_inv e → threads e !! i = Some (Drained p) → counters e !! p = Some c →
  count_inv (set_thread i (if bool_decide (tasks_remaining_ c = 1) then LastTask p else Merging)
    (set_counters p (mkCounters (dependencies_remaining_ c) (u64 (tasks_remaining_ c - 1)) (dead_ c)) e)).
Proof.
  intros I Hi Hc. destruct (ctr_lookup _ _ _ Hc) as [Hctr Hlt]. pose proof (tasks_bound e p I) as Hb.
  set (y := if bool_decide _ then _ else _). set (e' := set_thread _ _ _). assert (moves i (Drained p) y e e') as Hm by moved.
  assert (∀ d, deltas (Drained p) y e e' d) as D by (intros d; by apply (moves_deltas _ i)). unfold TaskInvariant.deltas in D.
  assert (1 ≤ remaining e p)%nat as Hr by (specialize (D p); count).
  pose proof (ci_tasks _ _ _ I p) as Htp. rewrite Hctr in Htp, Hb.
  assert (∀ d, ctr e' d = if decide (d = p) then mkCounters (dependencies_remaining_ c) (tasks_remaining_ c - 1) (dead_ c) else ctr e d) as Hct.
  { intros d. rewrite <- (u64_pred (tasks_remaining_ c)) by lia. by apply ctr_set. }
  assert (∀ d, dependencies_remaining_ (ctr e' d) = dependencies_remaining_ (ctr e d)) as Hdep
    by (intros d; rewrite Hct; case_decide; subst; by rewrite ?Hctr).
  assert (∀ d, pending d y = 0 ∧ undrained d y = 0)%nat as Hy by (intros d; subst y; by case_bool_decide).
  assert (unfinished y = 1 ∧ to_create task_count y = 0)%nat as Hy' by (subst y; by case_bool_decide).
  apply (count_inv_step i (Drained p) y e); try done; change (queue_ e') with (queue_ e) in *; change (active_tasks_ e') with (active_tasks_ e).
  - simpl. by rewrite length_insert.
  - intros d. rewrite Hct. destruct (Hy d) as [_ ->]. destruct (decide (d = p)) as [->|]; count. rewrite Hctr. lia.
  - count.
  - intros d. rewrite Hdep. destruct (Hy d) as [-> _]. done.
  - intros d. by rewrite Hdep.
  - intros d. rewrite Hdep. f_equal. specialize (D d). unfold places. change (closed e') with (closed e).
    destruct (one_place e p I) as [Hp _]. unfold places in Hp. subst y. destruct (decide (d = p)) as [->|]; case_bool_decide; count.
  - apply Nat.eq_le_incl. rewrite (sum_of_ext (unstarted e') (unstarted e)); [count|].
    intros d _. unfold TaskInvariant.unstarted. by rewrite Hdep.
  - apply (ci_error _ _ _ I).
Qed.

(** The last task of a pipeline fails it. *)
Lemma count_inv_fail i p x e e' :
  count_inv e → moves i x Merging e e' → x = LastTask p ∨ x = Finalizing p →
  counters e' = counters e → queue_ e' = queue_ e → active_tasks_ e' = active_tasks_ e → closed e' = closed e ++ [(p, false)] → has_error_ e' = true →
  count_inv e'.
Proof.
  intros I Hm Hx Hc Hq Ha Hcl He.
  assert (∀ d, deltas x Merging e e' d) as D by (intros d; by apply (moves_deltas _ i)). unfold TaskInvariant.deltas in D. rewrite Hq in D.
  assert (∀ d, ctr e' d = ctr e d) as Hct by (intros d; unfold ctr; by rewrite Hc).
  apply (count_inv_step i x Merging e); try done; rewrite ?Hq, ?Ha, ?Hc; try done.
  - intros d. rewrite Hct. destruct Hx as [-> | ->]; count.
  - destruct Hx as [-> | ->]; count.
  - intros d. rewrite Hct. replace (unreleased e' d) with (unreleased e d); [destruct Hx as [-> | ->]; count|].
    unfold TaskInvariant.unreleased, finalized. rewrite Hcl, filter_app, fmap_app. simpl. by rewrite app_nil_r.
  - intros d. by rewrite Hct.
  - intros d. rewrite Hct. f_equal. specialize (D d). unfold places. rewrite Hcl, closed_snoc. destruct Hx as [-> | ->]; count.
  - rewrite (sum_of_ext (unstarted e') (unstarted e)); [destruct Hx as [-> | ->]; count|]. intros d _. unfold TaskInvariant.unstarted. by rewrite Hct.
Qed.

(** A sum over the pipelines that are not in [l], when one joins. *)
Lemma unreleased_close e e' p d :
  finalized e' = finalized e ++ [p] → p ∉ finalized e → (p < length graph)%nat →
  unreleased e d = (unreleased e' d + occ d (dependents_of graph p))%nat.
Proof.
  intros Hf Hn Hp. unfold TaskInvariant.unreleased.
  pose proof (sum_of_point (λ q, if decide (q ∈ finalized e) then 0%nat else occ d (dependents_of graph q))
    (λ q, if decide (q ∈ finalized e') then 0%nat else occ d (dependents_of graph q)) (length graph) p) as H. simpl in H.
  rewrite (decide_True (P := p ∈ finalized e')), (decide_False (P := p ∈ finalized e)) in H by (rewrite ?Hf; set_solver).
  rewrite <- H by (try done; intros q Hq; apply decide_ext; rewrite Hf; set_solver). lia.
Qed.
(** [Finalize] returns: the edges out of the pipeline are now to be counted down. *)
Lemma count_inv_finalize i p b e :
  count_inv e → threads e !! i = Some (Finalizing p) →
  count_inv (close p true (set_thread i (Releasing p (dependents_of graph p) b []) e)).
Proof.
  intros I Hi. set (y := Releasing _ _ _ _). set (e' := close _ _ _). assert (moves i (Finalizing p) y e e') as Hm by moved.
  assert (∀ d, deltas (Finalizing p) y e e' d) as D by (intros d; by apply (moves_deltas _ i)). unfold TaskInvariant.deltas in D.
  change (queue_ e') with (queue_ e) in D.
  destruct (one_place e p I) as [Hp1 Hp2].
  assert (1 ≤ sum_of (closing p) (threads e))%nat as Hcp by (specialize (D p); count).
  assert (p ∉ finalized e) as Hn by (intros H%finalized_closed; unfold places in Hp1; lia).
  destruct Hp2 as [_ Hlt]; [unfold places; lia|].
  apply (count_inv_step i (Finalizing p) y e); try done; change (queue_ e') with (queue_ e) in *; unfold y in *.
  - intros d. change (ctr e' d) with (ctr e d). rewrite (unreleased_close e e' p d); [|by apply (close_true p (set_thread i y e))|done|done]. count.
  - intros d. change (ctr e' d) with (ctr e d). f_equal. specialize (D d). unfold places.
    change (closed e') with (closed e ++ [(p, true)]). rewrite closed_snoc. count.
  - simpl. intros d [H|H%list_elem_of_singleton]%elem_of_app; [|done]. by apply (ci_error _ _ _ I d).
Qed.

(** [dependencies_remaining_.fetch_sub(1)]: the counter does not wrap, and its pipeline leaves the unstarted
    ones when it reaches zero. *)
Lemma release_counters i p d0 ds b ready c e e' :
  count_inv e → threads e !! i = Some (Releasing p (d0 :: ds) b ready) → counters e !! d0 = Some c →
  counters e' = <[d0 := mkCounters (u64 (dependencies_remaining_ c - 1)) (tasks_remaining_ c) (dead_ c || b)]> (counters e) →
  0 < dependencies_remaining_ c ∧
  (∀ d, ctr e' d = if decide (d = d0) then mkCounters (dependencies_remaining_ c - 1) (tasks_remaining_ c) (dead_ c || b) else ctr e d) ∧
  (sum_of (unstarted e') (seq 0 (length graph)) + (if decide (dependencies_remaining_ c = 1%Z) then task_count d0 else 0)
   = sum_of (unstarted e) (seq 0 (length graph)))%nat.
Proof.
  intros I Hi Hc He. destruct (ctr_lookup _ _ _ Hc) as [Hctr Hlt]. pose proof (deps_bound e d0 I) as Hb.
  pose proof (ci_deps _ _ _ I d0) as Hd. rewrite Hctr in Hd, Hb.
  pose proof (sum_of_elem (pending d0) _ _ _ Hi) as Hp. cbn [pending] in Hp. rewrite occ_cons, decide_True in Hp by done.
  split; [lia|].
  assert (∀ d, ctr e' d = if decide (d = d0) then mkCounters (dependencies_remaining_ c - 1) (tasks_remaining_ c) (dead_ c || b) else ctr e d) as Hct.
  { intros d. rewrite <- (u64_pred (dependencies_remaining_ c)) by lia. unfold ctr. rewrite He. by apply ctr_set. }
  split; [done|].
  pose proof (sum_of_point (unstarted e') (unstarted e) (length graph) d0) as Hs. rewrite (ci_length _ _ _ I) in Hlt.
  specialize (Hs ltac:(intros d Hne; unfold TaskInvariant.unstarted; rewrite Hct; by rewrite (decide_False (P := d = d0)) by done) Hlt).
  assert (unstarted e d0 = task_count d0) as H1 by (unfold TaskInvariant.unstarted; rewrite decide_False by (rewrite Hctr; lia); done).
  assert (unstarted e' d0 = if decide (dependencies_remaining_ c - 1 = 0) then 0%nat else task_count d0) as H2.
  { unfold TaskInvariant.unstarted. by rewrite Hct, (decide_True (P := d0 = d0)) by done. }
  rewrite H1, H2 in Hs. repeat case_decide; lia.
Qed.
(** The thread that gets 1 back creates the tasks. *)
Lemma count_inv_release i p d0 ds b ready c e :
  count_inv e → threads e !! i = Some (Releasing p (d0 :: ds) b ready) → counters e !! d0 = Some c →
  count_inv (set_thread i (if bool_decide (dependencies_remaining_ c = 1) then Creating p d0 ds b ready else Releasing p ds b ready)
    (set_counters d0 (mkCounters (u64 (dependencies_remaining_ c - 1)) (tasks_remaining_ c) (dead_ c || b)) e)).
Proof.
  intros I Hi Hc. destruct (ctr_lookup _ _ _ Hc) as [Hctr Hlt].
  set (y := if bool_decide _ then _ else _). set (e' := set_thread _ _ _).
  destruct (release_counters i p d0 ds b ready c e e' I Hi Hc eq_refl) as (Hpos & Hct & _).
  set (x := Releasing _ _ _ _) in Hi. assert (moves i x y e e') as Hm by moved.
  assert (∀ d, deltas x y e e' d) as D by (intros d; by apply (moves_deltas _ i)). unfold TaskInvariant.deltas in D.
  change (queue_ e') with (queue_ e) in D.
  pose proof (ci_deps _ _ _ I d0) as Htp. rewrite Hctr in Htp.
  assert (∀ d, pending d y = occ d ds ∧ undrained d y = occ d ready ∧ closing d y = 0%nat) as Hy by (intros d; subst y; by case_bool_decide).
  assert (unfinished y = 1 + length ready)%nat as Hy' by (subst y; by case_bool_decide).
  apply (count_inv_step i x y e); try done; change (queue_ e') with (queue_ e) in *.
  - simpl. by rewrite length_insert.
  - intros d. rewrite Hct. destruct (Hy d) as (_ & -> & _). unfold x. destruct (decide (d = d0)) as [->|]; count; by rewrite Hctr.
  - change (active_tasks_ e') with (active_tasks_ e). rewrite Hy'. unfold x. count.
  - intros d. rewrite Hct. change (unreleased e' d) with (unreleased e d). destruct (Hy d) as (-> & _ & _). unfold x.
    destruct (decide (d = d0)) as [->|]; count; rewrite Hctr; lia.
  - intros d. rewrite Hct. case_decide; subst; rewrite ?Hctr; simpl; lia.
  - intros d. specialize (D d). unfold places. change (closed e') with (closed e). rewrite Hct. unfold x in D. subst y.
    destruct (decide (d = d0)) as [->|]; rewrite ?Hctr; case_bool_decide; count.
  - destruct (release_counters i p d0 ds b ready c e e' I Hi Hc eq_refl) as (_ & _ & Hun). unfold x. subst y. case_bool_decide; count.
  - apply (ci_error _ _ _ I).
Qed.

(** [CreateTasks]: the counters are armed before a task can be seen. *)
Lemma count_inv_create i p d0 ds b ready c e :
  count_inv e → threads e !! i = Some (Creating p d0 ds b ready) → counters e !! d0 = Some c →
  count_inv (set_thread i (Releasing p ds b (ready ++ replicate (task_count d0) d0))
    (set_active (u64 (active_tasks_ e + Z.of_nat (task_count d0)))
      (set_counters d0 (mkCounters (dependencies_remaining_ c) (Z.of_nat (task_count d0)) (dead_ c)) e))).
Proof.
  intros I Hi Hc. destruct (ctr_lookup _ _ _ Hc) as [Hctr Hlt].
  set (x := Creating _ _ _ _ _) in Hi. set (y := Releasing _ _ _ _). set (e' := set_thread _ _ _).
  assert (moves i x y e e') as Hm by moved.
  assert (∀ d, deltas x y e e' d) as D by (intros d; by apply (moves_deltas _ i)). unfold TaskInvariant.deltas in D.
  change (queue_ e') with (queue_ e) in D.
  assert (1 ≤ sum_of (creating d0) (threads e))%nat as Hr by (specialize (D d0); unfold x in D; count).
  destruct (one_place e d0 I) as [Hp1 Hp2]. unfold places in Hp1, Hp2. destruct Hp2 as [Hd0 _]; [lia|].
  pose proof (ci_tasks _ _ _ I d0) as Ht. rewrite Hctr in Ht, Hd0. pose proof (go_tasks _ _ G d0) as Hpos.
  assert (active_tasks_ e' = active_tasks_ e + Z.of_nat (task_count d0)) as Ha.
  { simpl. unfold u64. apply Z.mod_small. pose proof (ci_budget _ _ _ I) as Hbu. pose proof (go_bound _ _ G). pose proof (ci_active _ _ _ I) as Hac.
    unfold budget in Hbu. specialize (D 0%nat). unfold x, y in D. count. }
  assert (∀ d, ctr e' d = if decide (d = d0) then mkCounters (dependencies_remaining_ c) (Z.of_nat (task_count d0)) (dead_ c) else ctr e d) as Hct
    by (intros d; by apply ctr_set).
  assert (∀ d, dependencies_remaining_ (ctr e' d) = dependencies_remaining_ (ctr e d)) as Hdep
    by (intros d; rewrite Hct; case_decide; subst; by rewrite ?Hctr).
  apply (count_inv_step i x y e); try done; change (queue_ e') with (queue_ e) in *; rewrite ?Ha; unfold x, y in *.
  - simpl. by rewrite length_insert.
  - intros d. rewrite Hct. destruct (decide (d = d0)) as [->|]; count. rewrite Hctr. lia.
  - count.
  - intros d. rewrite Hdep. done.
  - intros d. by rewrite Hdep.
  - intros d. rewrite Hdep. f_equal. specialize (D d). unfold places. change (closed e') with (closed e).
    destruct (decide (d = d0)) as [->|]; count.
  - rewrite (sum_of_ext (unstarted e') (unstarted e)); [count|]. intros d _. unfold TaskInvariant.unstarted. by rewrite Hdep.
  - apply (ci_error _ _ _ I).
Qed.

(** [TaskFinished]. *)
Lemma count_inv_finish i y e :
  count_inv e → threads e !! i = Some Finishing → y = Completing ∨ y = Idle →
  count_inv (set_thread i y (set_active (u64 (active_tasks_ e - 1)) e)).
Proof.
  intros I Hi Hy. set (e' := set_thread _ _ _). assert (moves i Finishing y e e') as Hm by moved.
  assert (∀ d, deltas Finishing y e e' d) as D by (intros d; by apply (moves_deltas _ i)). unfold TaskInvariant.deltas in D.
  change (queue_ e') with (queue_ e) in D.
  assert (1 ≤ sum_of unfinished (threads e))%nat as Hr by (specialize (D 0%nat); count).
  pose proof (ci_active _ _ _ I) as Ha. pose proof (tasks_bound e 0 I) as Hb.
  assert (active_tasks_ e' = active_tasks_ e - 1) as Ha' by (simpl; apply u64_pred; lia).
  apply (count_inv_step i Finishing y e); try done; change (queue_ e') with (queue_ e) in *; rewrite ?Ha'.
  - intros d. change (ctr e' d) with (ctr e d). destruct Hy as [-> | ->]; count.
  - destruct Hy as [-> | ->]; count.
  - intros d. change (ctr e' d) with (ctr e d). change (unreleased e' d) with (unreleased e d). destruct Hy as [-> | ->]; count.
  - intros d. change (ctr e' d) with (ctr e d). f_equal. specialize (D d). unfold places. change (closed e') with (closed e).
    destruct Hy as [-> | ->]; count.
  - change (unstarted e') with (unstarted e). destruct Hy as [-> | ->]; count.
  - apply (ci_error _ _ _ I).
Qed.
End steps.
