(* ===== verification/TaskTermination.v ===== *)
(** * The scheduling invariant of the executor

    The mutex, the condition variable and the completion flag: what makes sure that a thread which sleeps is
    woken when there is work or when the query is over. *)

From S2P Require Import Prelude TaskMachine TaskInvariant.

Definition num (f : pc → bool) (e : Exec) : nat := sum_of (λ c, Nat.b2n (f c)) (threads e).
Definition locking (c : pc) : bool := match c with Locked | WakingLocked => true | _ => false end.
Definition dozing (c : pc) : bool := match c with AboutToSleep => true | _ => false end.
Definition sleeping (c : pc) : bool := match c with Sleeping => true | _ => false end.
Definition awake (c : pc) : bool := match c with Sleeping | Exited | AboutToSleep => false | _ => true end.
Definition completing (c : pc) : bool := match c with Completing => true | _ => false end.
Definition waking (c : pc) : bool := match c with Waking | WakingLocked => true | _ => false end.
Definition exited (c : pc) : bool := match c with Exited => true | _ => false end.

Lemma num_pos f e : (0 < num f e)%nat → ∃ i c, threads e !! i = Some c ∧ f c = true.
Proof.
  unfold num. induction (threads e) as [|c l IH]; simpl; [lia|]. destruct (f c) eqn:Hc; simpl.
  - intros _. by exists 0%nat, c.
  - intros H. destruct (IH H) as (i & c' & ? & ?). by exists (S i), c'.
Qed.
Lemma num_elem f e i c : threads e !! i = Some c → f c = true → (0 < num f e)%nat.
Proof. intros Hi Hc. pose proof (sum_of_elem (λ c, Nat.b2n (f c)) _ _ _ Hi) as H. simpl in H. rewrite Hc in H. simpl in H. unfold num. lia. Qed.

Record sched_inv (e : Exec) : Prop := {
  si_mutex : (num locking e + num dozing e = if mutex_ e is Some _ then 1 else 0)%nat;
  si_doze : (0 < num dozing e)%nat → length (queue_ e) = 0%nat;
  si_queue : (0 < length (queue_ e))%nat → (0 < num awake e)%nat;
  si_done : query_done_ e = true → active_tasks_ e = 0;
  si_zero : active_tasks_ e = 0 → query_done_ e = true ∨ (0 < num completing e)%nat;
  si_completing : (0 < num completing e)%nat → active_tasks_ e = 0;
  si_wake : query_done_ e = true → (0 < num sleeping e + num dozing e)%nat → (0 < num waking e)%nat;
  si_exit : (0 < num exited e)%nat → query_done_ e = true }.

(** The numbers of a step, without a wake-up and with one. *)
Definition num_delta (f : pc → bool) (x y : pc) (e e' : Exec) : Prop :=
  (num f e' + Nat.b2n (f x) = num f e + Nat.b2n (f y) ∧ Nat.b2n (f x) ≤ num f e)%nat.
Lemma num_insert f i x y (e e' : Exec) : threads e !! i = Some x → threads e' = <[i := y]> (threads e) → num_delta f x y e e'.
Proof.
  intros Hi He. unfold num_delta, num. rewrite He. split.
  - apply (sum_of_insert (λ c, Nat.b2n (f c))). done.
  - by apply (sum_of_elem (λ c, Nat.b2n (f c)) _ i).
Qed.
Lemma num_insert_wake f i x y (e e' : Exec) :
  f Sleeping = f Idle → threads e !! i = Some x → threads e' = wake <$> <[i := y]> (threads e) → num_delta f x y e e'.
Proof.
  intros Hf Hi He. assert (num f e' = num f (set_thread i y e)) as H.
  { unfold num. rewrite He, sum_of_fmap. apply sum_of_ext. intros [] _; simpl; congruence. }
  unfold num_delta. rewrite H. by apply (num_insert f i).
Qed.
Lemma sleeping_wake (e' : Exec) l : threads e' = wake <$> l → num sleeping e' = 0%nat.
Proof. intros H. unfold num. rewrite H, sum_of_fmap. apply sum_of_zero, Forall_forall. by intros []. Qed.
Lemma awake_wake i x y (e e' : Exec) :
  threads e !! i = Some x → threads e' = wake <$> <[i := y]> (threads e) → awake y = true → (0 < num awake e')%nat.
Proof.
  intros Hi He Hy. apply (num_elem _ _ i (wake y)); [|by destruct y].
  rewrite He, list_lookup_fmap, list_lookup_insert_eq by (by eapply lookup_lt_Some). done.
Qed.

Ltac numbers Hi :=
  lazymatch type of Hi with threads ?e !! ?i = Some ?x =>
    lazymatch goal with |- sched_inv ?e' =>
      let T := eval cbn in (threads e') in
      first [
        pose proof (num_insert locking i x _ e e' Hi eq_refl); pose proof (num_insert dozing i x _ e e' Hi eq_refl);
        pose proof (num_insert awake i x _ e e' Hi eq_refl); pose proof (num_insert completing i x _ e e' Hi eq_refl);
        pose proof (num_insert waking i x _ e e' Hi eq_refl); pose proof (num_insert exited i x _ e e' Hi eq_refl);
        pose proof (num_insert sleeping i x _ e e' Hi eq_refl)
      | pose proof (num_insert_wake locking i x _ e e' eq_refl Hi eq_refl); pose proof (num_insert_wake dozing i x _ e e' eq_refl Hi eq_refl);
        pose proof (num_insert_wake completing i x _ e e' eq_refl Hi eq_refl); pose proof (num_insert_wake waking i x _ e e' eq_refl Hi eq_refl);
        pose proof (num_insert_wake exited i x _ e e' eq_refl Hi eq_refl); pose proof (awake_wake i x _ e e' Hi eq_refl eq_refl);
        pose proof (sleeping_wake e' _ eq_refl) ]
    end
  end; unfold num_delta in *; cbn [Nat.b2n locking dozing awake completing waking exited sleeping] in *.

(** The fields of the new state, and arithmetic. *)
Ltac sched Hi S :=
  numbers Hi; destruct S as [S1 S2 S3 S4 S5 S6 S7 S8];
  try match type of S1 with context [mutex_ ?e] => destruct (mutex_ e) eqn:? end;
  split; cbn [mutex_ queue_ active_tasks_ query_done_ set_mutex set_thread set_queue set_active set_done set_counters notify_all PushError close];
  intros;
  repeat match goal with
         | H : mutex_ ?e = _, S : context [mutex_ ?e] |- _ => rewrite H in S
         | H : queue_ ?e = _, S : context [queue_ ?e] |- _ => rewrite H in S
         | H : query_done_ ?e = _, S : context [query_done_ ?e] |- _ => rewrite H in S
         | H : mutex_ ?e = _ |- context [mutex_ ?e] => rewrite H
         | H : queue_ ?e = _ |- context [queue_ ?e] => rewrite H
         | H : query_done_ ?e = _ |- context [query_done_ ?e] => rewrite H
         end;
  rewrite ?length_app in *; simpl length in *; try done; try lia; try (by (apply S8; lia)); try (by (destruct S5; [lia|left|right; lia])); try (intuition lia).

Section schedule.
Context (graph : list PipelineInfo) (task_count : nat → nat).
Context (G : graph_ok graph task_count).
Implicit Types e : Exec.
Abbreviation count_inv := (count_inv graph task_count).

(** A move that changes no count. *)
Ltac plain I :=
  match goal with Hi : threads ?e !! ?i = Some ?x |- _ =>
    eapply (count_inv_move graph task_count i x _ e); [exact I|split; [exact Hi|first [left; reflexivity|right; reflexivity]]|try done..];
    cbn [undrained unfinished pending creating closing to_create queue_ set_thread set_queue set_mutex set_done notify_all PushError];
    intros; rewrite ?occ_app, ?length_app, ?occ_cons, ?occ_nil; simpl; try lia
  end.

(** Every step of a thread keeps the counts. *)
Lemma step_thread_count i o e e' : count_inv e → step_thread graph task_count i o e = Some e' → count_inv e'.
Proof.
  intros I Hs. open_step Hs. destruct (threads e !! i) as [c|] eqn:Hi; [|done].
  destruct c as [| | | | |p|p|p|p|p|p [|d ds] b ready|p d ds b ready|[|d ds]| | | | | |]; try done.
  - destruct (mutex_ e); [done|]. injection Hs as <-. plain I.
  - destruct (queue_ e) as [|p q] eqn:Hq.
    + destruct (query_done_ e); injection Hs as <-; plain I.
    + injection Hs as <-. plain I; rewrite Hq, ?occ_cons; simpl; lia.
  - injection Hs as <-. plain I.
  - injection Hs as <-. destruct (has_error_ e); plain I.
  - destruct o; injection Hs as <-; plain I.
  - destruct (counters e !! p) as [k|] eqn:Hk; [|done]. injection Hs as <-. by apply count_inv_drained.
  - destruct (has_error_ e) eqn:He; injection Hs as <-; [|plain I].
    eapply (count_inv_fail _ _ i p (LastTask p) e); try done; [split; [done|by left]|by left].
  - destruct o as [b|]; injection Hs as <-; [by apply count_inv_finalize|].
    eapply (count_inv_fail _ _ i p (Finalizing p) e); try done; [split; [done|by left]|by right].
  - injection Hs as <-. plain I.
  - destruct (counters e !! d) as [k|] eqn:Hk; [|done]. injection Hs as <-. by apply count_inv_release.
  - destruct (counters e !! d) as [k|] eqn:Hk; [|done]. injection Hs as <-. by apply count_inv_create.
  - injection Hs as <-. plain I.
  - destruct (mutex_ e); [done|]. injection Hs as <-. plain I.
  - injection Hs as <-. plain I.
  - injection Hs as <-. plain I.
  - injection Hs as <-. apply (count_inv_finish graph task_count G); [done..|]. case_bool_decide; auto.
  - injection Hs as <-. plain I.
  - destruct (mutex_ e); [done|]. injection Hs as <-. plain I.
  - injection Hs as <-. plain I.
Qed.

(** Every step of a thread keeps the scheduling invariant. *)
Lemma step_thread_sched i o e e' :
  count_inv e → sched_inv e → step_thread graph task_count i o e = Some e' → sched_inv e'.
Proof.
  intros I S Hs. pose proof (ci_active _ _ _ I) as Ha.
  pose proof (ci_active _ _ _ (step_thread_count i o e e' I Hs)) as Ha'.
  open_step Hs. destruct (threads e !! i) as [c|] eqn:Hi; [|done].
  pose proof (sum_of_elem unfinished _ _ _ Hi) as Hu.
  destruct c as [| | | | |p|p|p|p|p|p [|d ds] b ready|p d ds b ready|[|d ds]| | | | | |]; try done.
  - destruct (mutex_ e) eqn:Hm; [done|]. injection Hs as <-. sched Hi S.
  - destruct (queue_ e) as [|p q] eqn:Hq.
    + destruct (query_done_ e) eqn:Hd; injection Hs as <-; sched Hi S.
    + injection Hs as <-. sched Hi S.
  - injection Hs as <-. sched Hi S.
  - injection Hs as <-. destruct (has_error_ e); sched Hi S.
  - destruct o; injection Hs as <-; sched Hi S.
  - destruct (counters e !! p) as [k|] eqn:Hk; [|done]. injection Hs as <-. case_bool_decide; sched Hi S.
  - destruct (has_error_ e) eqn:He; injection Hs as <-; sched Hi S.
  - destruct o as [b|]; injection Hs as <-; sched Hi S.
  - injection Hs as <-. sched Hi S.
  - destruct (counters e !! d) as [k|] eqn:Hk; [|done]. injection Hs as <-. case_bool_decide; sched Hi S.
  - destruct (counters e !! d) as [k|] eqn:Hk; [|done]. injection Hs as <-.
    pose proof (sum_of_insert unfinished _ _ _ (Releasing p ds b (ready ++ replicate (task_count d) d)) Hi) as Hu'.
    cbn [unfinished threads queue_ active_tasks_ set_thread set_active set_counters] in Hu, Hu', Ha'. sched Hi S.
  - injection Hs as <-. sched Hi S.
  - destruct (mutex_ e) eqn:Hm; [done|]. injection Hs as <-. sched Hi S.
  - injection Hs as <-. sched Hi S.
  - injection Hs as <-. sched Hi S.
  - injection Hs as <-.
    pose proof (sum_of_insert unfinished _ _ _ (if bool_decide (active_tasks_ e = 1) then Completing else Idle) Hi) as Hu'.
    case_bool_decide; cbn [unfinished threads queue_ active_tasks_ set_thread set_active set_counters] in Hu, Hu', Ha'; sched Hi S.
  - injection Hs as <-. sched Hi S.
  - destruct (mutex_ e) eqn:Hm; [done|]. injection Hs as <-. sched Hi S.
  - injection Hs as <-. sched Hi S.
Qed.
End schedule.

(** * Runs of the executor

    The invariants hold when a query starts and after every step, also after a wake-up without a reason. *)

(** ** The first state *)

Lemma sum_of_replicate_zero {A} (f : A → nat) n x : f x = 0%nat → sum_of f (replicate n x) = 0%nat.
Proof. intros H. induction n; simpl; lia. Qed.
Lemma num_replicate (f : pc → bool) n x : sum_of (λ c, Nat.b2n (f c)) (replicate n x) = (n * Nat.b2n (f x))%nat.
Proof. induction n; simpl; lia. Qed.

(** Counting a list by its elements. *)
Lemma sum_of_add {A} (f g : A → nat) l : sum_of (λ x, f x + g x)%nat l = (sum_of f l + sum_of g l)%nat.
Proof. induction l; simpl; lia. Qed.
Lemma sum_of_one n x : (x < n)%nat → sum_of (λ q, if decide (q = x) then 1%nat else 0%nat) (seq 0 n) = 1%nat.
Proof.
  intros Hx. pose proof (sum_of_point (λ q, if decide (q = x) then 1%nat else 0%nat) (λ _, 0%nat) n x) as H. simpl in H.
  rewrite (decide_True (P := x = x)) in H by done.
  assert (sum_of (λ _ : nat, 0%nat) (seq 0 n) = 0%nat) by (by apply sum_of_zero, Forall_forall).
  specialize (H ltac:(intros q Hq; by rewrite decide_False by done) Hx). lia.
Qed.
Lemma sum_occ n l : Forall (λ x, (x < n)%nat) l → sum_of (λ q, occ q l) (seq 0 n) = length l.
Proof.
  induction 1 as [|x l Hx Hl IH]; [by apply sum_of_zero, Forall_forall|].
  rewrite (sum_of_ext _ (λ q, (if decide (q = x) then 1 else 0) + occ q l)%nat) by (intros q _; apply occ_cons).
  by rewrite sum_of_add, sum_of_one, IH.
Qed.

Section start.
Context (graph : list PipelineInfo) (task_count : nat → nat).
Context (G : graph_ok graph task_count).

Lemma occ_seed d k info : occ d (seed task_count k info) = if decide (d = k) then length (seed task_count k info) else 0%nat.
Proof. unfold seed. case_bool_decide; [|by case_decide]. by rewrite occ_replicate, length_replicate. Qed.
(** The seeded tasks, pipeline by pipeline. *)
Lemma occ_seeds d :
  occ d (concat (imap (seed task_count) graph)) = match graph !! d with Some info => length (seed task_count d info) | None => 0%nat end.
Proof.
  clear G. induction graph as [|info l IH] using rev_ind; [done|].
  rewrite imap_app, concat_app, occ_app, IH. simpl. rewrite app_nil_r, Nat.add_0_r, occ_seed.
  destruct (decide (d < length l)%nat) as [Hd|Hd].
  - rewrite lookup_app_l by done. rewrite decide_False by lia. lia.
  - rewrite (lookup_ge_None_2 l) by lia. case_decide as E; [subst d; by rewrite list_lookup_middle|].
    by rewrite lookup_ge_None_2 by (rewrite length_app; simpl; lia).
Qed.
Lemma length_seeds :
  length (concat (imap (seed task_count) graph))
  = sum_of (λ d, match graph !! d with Some info => length (seed task_count d info) | None => 0%nat end) (seq 0 (length graph)).
Proof.
  rewrite <- (sum_of_ext (λ q, occ q (concat (imap (seed task_count) graph)))) by (intros d _; apply occ_seeds).
  symmetry. apply sum_occ, Forall_forall. intros x Hx. apply occ_pos in Hx. rewrite occ_seeds in Hx.
  destruct (graph !! x) eqn:E; [by eapply lookup_lt_Some|lia].
Qed.

Lemma ctr_start n d : ctr (start_query graph task_count n) d = match graph !! d with Some info => initial_counters task_count d info | None => mkCounters 0 0 false end.
Proof. unfold ctr. simpl. rewrite list_lookup_imap. by destruct (graph !! d). Qed.
(** Every edge into a pipeline is still to be released. *)
Lemma unreleased_start n d : unreleased graph (start_query graph task_count n) d = length (dependencies_of graph d).
Proof.
  unfold unreleased. rewrite (sum_of_ext _ (λ q, occ q (dependencies_of graph d))) by (intros q _; symmetry; apply (go_edges _ _ G)).
  apply sum_occ, Forall_forall. intros q Hq. apply occ_pos in Hq. rewrite (go_edges _ _ G) in Hq. unfold dependents_of in Hq.
  destruct (graph !! q) eqn:E; [by eapply lookup_lt_Some|]. unfold occ in Hq. simpl in Hq. lia.
Qed.
Lemma deps_start n d : dependencies_remaining_ (ctr (start_query graph task_count n) d) = Z.of_nat (length (dependencies_of graph d)).
Proof. rewrite ctr_start. unfold dependencies_of. by destruct (graph !! d). Qed.

Lemma count_inv_start n : count_inv graph task_count (start_query graph task_count n).
Proof.
  assert (∀ f, f Idle = 0%nat → sum_of f (threads (start_query graph task_count n)) = 0%nat) as Hz by (intros; by apply sum_of_replicate_zero).
  split.
  - simpl. apply length_imap.
  - intros d. rewrite ctr_start. unfold remaining. rewrite Hz by done. simpl. rewrite occ_seeds, Nat.add_0_r. by destruct (graph !! d).
  - rewrite Hz by done. simpl. lia.
  - intros d. rewrite deps_start, unreleased_start, Hz by done. lia.
  - intros d. rewrite deps_start. unfold places, remaining. rewrite !Hz by done. simpl closed. simpl queue_. rewrite occ_seeds, occ_nil.
    unfold dependencies_of. case_decide as Hd; [|rewrite lookup_ge_None_2 by lia; simpl; lia].
    apply lookup_lt_is_Some in Hd as [info ->]. unfold seed. pose proof (go_tasks _ _ G d). case_bool_decide as E.
    + rewrite E, length_replicate. simpl length. lia.
    + destruct (dependencies_ info); [done|]. simpl length. lia.
  - intros d. rewrite unreleased_start, Hz by done. lia.
  - unfold budget. rewrite !Hz by done. simpl queue_. rewrite length_seeds, !Nat.add_0_r, <- sum_of_add. unfold all_tasks.
    apply Nat.eq_le_incl, sum_of_ext. intros d Hd. unfold unstarted. rewrite deps_start. unfold dependencies_of.
    apply elem_of_seq in Hd. destruct (lookup_lt_is_Some_2 graph d) as [info ->]; [lia|]. unfold seed.
    case_bool_decide as E; [rewrite E, length_replicate; simpl; lia|]. destruct (dependencies_ info); [done|]. simpl. lia.
  - simpl. set_solver.
Qed.

(** The client enters [WorkUntil] only when there is something to run. *)
Lemma sched_inv_start n : (0 < n)%nat → 0 < active_tasks_ (start_query graph task_count n) → sched_inv (start_query graph task_count n).
Proof.
  intros Hn Ha. assert (∀ f, num f (start_query graph task_count n) = n * Nat.b2n (f Idle))%nat as Hnum by (intros f; apply num_replicate).
  split; rewrite ?Hnum; cbn [Nat.b2n locking dozing sleeping awake completing waking exited mutex_ query_done_ start_query]; try done; lia.
Qed.
End start.

(** ** Reachable states *)

Section reachable.
Context (graph : list PipelineInfo) (task_count : nat → nat) (nthreads : nat).
Context (G : graph_ok graph task_count).

Definition inv (e : Exec) : Prop := count_inv graph task_count e ∧ sched_inv e ∧ length (threads e) = nthreads.
Definition reachable (e : Exec) : Prop := rtc (any_step graph task_count) (start_query graph task_count nthreads) e.

Lemma threads_length i o e e' : step_thread graph task_count i o e = Some e' → length (threads e') = length (threads e).
Proof.
  intros Hs. open_step Hs. destruct (threads e !! i) as [c|]; [|done].
  repeat case_match; simplify_eq; simpl; by rewrite ?length_fmap, ?length_insert.
Qed.
Lemma inv_step e e' : inv e → any_step graph task_count e e' → inv e'.
Proof.
  intros (I & S & L) [[i o Hs]|i Hs].
  - split; [by eapply step_thread_count|]. split; [by eapply step_thread_sched|]. rewrite <- L. by eapply threads_length.
  - unfold spurious in Hs. destruct (threads e !! i) as [[]|] eqn:Hi; simplify_eq. split; [|split; [|by rewrite <- L; simpl; rewrite length_insert]].
    + eapply (count_inv_move graph task_count i Sleeping Idle e); try done. split; [done|by left].
    + sched Hi S.
Qed.
(** Every state of a query that has something to run satisfies the invariants. *)
Lemma query_inv e :
  (0 < nthreads)%nat → 0 < active_tasks_ (start_query graph task_count nthreads) → reachable e → inv e.
Proof.
  intros Hn Ha H. unfold reachable in H. apply (rtc_ind_r inv (start_query graph task_count nthreads)) in H; [done| |].
  - split; [by apply count_inv_start|]. split; [by apply sched_inv_start|]. simpl. apply length_replicate.
  - intros y z _ Hyz HI. by eapply inv_step.
Qed.
End reachable.

(** * The executor makes progress, terminates and completes *)

Section progress.
Context (graph : list PipelineInfo) (task_count : nat → nat) (nthreads : nat).
Context (G : graph_ok graph task_count).
Implicit Types e : Exec.
Abbreviation inv := (inv graph task_count nthreads).
Abbreviation count_inv := (count_inv graph task_count).
Abbreviation exec_step := (exec_step graph task_count).

(** ** Order *)

(** A pipeline that is in some place has all its dependencies finalized. *)
Lemma place_dependencies e d q :
  count_inv e → (0 < places e d)%nat → q ∈ dependencies_of graph d → q ∈ finalized e ∧ sum_of (pending d) (threads e) = 0%nat.
Proof.
  intros I Hp Hq. destruct (one_place graph task_count e d I) as [_ H]. destruct (H Hp) as [Hd _]. clear H.
  rewrite (ci_deps _ _ _ I) in Hd. assert (unreleased graph e d = 0%nat) as Hu by lia. split; [|lia].
  unfold unreleased in Hu. apply sum_of_zero in Hu. rewrite Forall_forall in Hu.
  apply occ_pos in Hq. rewrite (go_edges _ _ G) in Hq.
  assert (q < length graph)%nat as Hlt.
  { unfold dependents_of in Hq. destruct (graph !! q) eqn:E; [by eapply lookup_lt_Some|]. rewrite occ_nil in Hq. lia. }
  specialize (Hu q ltac:(apply elem_of_seq; lia)). simpl in Hu. case_decide; [done|lia].
Qed.
(** A thread at work on pipeline [d]. *)
Definition works_on (d : nat) (c : pc) : Prop :=
  match c with Running p | Draining p | Drained p | LastTask p | Finalizing p => p = d | _ => False end.
Lemma works_on_place e i c d : threads e !! i = Some c → works_on d c → (0 < places e d)%nat.
Proof.
  intros Hi Hw. unfold places, remaining. pose proof (sum_of_elem (undrained d) _ _ _ Hi). pose proof (sum_of_elem (closing d) _ _ _ Hi).
  destruct c; simpl in Hw; try done; subst; cbn [undrained closing] in *; rewrite decide_True in * by done; lia.
Qed.
(** No pipeline is closed twice. *)
Lemma occ_NoDup l : (∀ d, occ d l ≤ 1)%nat → NoDup l.
Proof.
  induction l as [|x l IH]; intros H; constructor.
  - intros Hx. apply occ_pos in Hx. specialize (H x). rewrite occ_cons, decide_True in H by done. lia.
  - apply IH. intros d. specialize (H d). rewrite occ_cons in H. lia.
Qed.
Lemma closed_once e : count_inv e → NoDup (closed e).*1.
Proof. intros I. apply occ_NoDup. intros d. destruct (one_place graph task_count e d I) as [H _]. unfold places in H. lia. Qed.

(** The history of closed pipelines is in dependency order. *)
Definition in_order e : Prop :=
  ∀ pre p b post, closed e = pre ++ (p, b) :: post → ∀ q, q ∈ dependencies_of graph p → (q, true) ∈ pre.
Lemma finalized_elem e q : q ∈ finalized e ↔ (q, true) ∈ closed e.
Proof.
  unfold finalized. rewrite list_elem_of_fmap. split.
  - intros [[q' b] [-> H]]. apply list_elem_of_filter in H as [Hb H]. simpl in *. by subst.
  - intros H. exists (q, true). split; [done|]. by apply list_elem_of_filter.
Qed.
Lemma in_order_snoc e e' p b :
  in_order e → closed e' = closed e ++ [(p, b)] → (∀ q, q ∈ dependencies_of graph p → q ∈ finalized e) → in_order e'.
Proof.
  intros H Hc Hp pre p' b' post He q Hq. rewrite Hc in He.
  destruct post as [|x post] using rev_ind.
  - apply app_inj_tail in He as [<- [= -> ->]]. apply finalized_elem. by apply Hp.
  - clear IHpost. change (pre ++ (p', b') :: post ++ [x]) with (pre ++ ((p', b') :: post) ++ [x]) in He. rewrite app_assoc in He.
    apply app_inj_tail in He as [He _]. by eapply H.
Qed.
Lemma step_in_order i o e e' : inv e → in_order e → step_thread graph task_count i o e = Some e' → in_order e'.
Proof.
  intros (I & _ & _) H Hs. open_step Hs. destruct (threads e !! i) as [c|] eqn:Hi; [|done].
  assert (∀ p, works_on p c → ∀ q, q ∈ dependencies_of graph p → q ∈ finalized e) as Hd.
  { intros p Hw q Hq. apply (place_dependencies e p q I); [|done]. by eapply works_on_place. }
  destruct c; repeat case_match; simplify_eq; try exact H; (eapply in_order_snoc; [exact H|done|by apply Hd]).
Qed.
Lemma any_in_order e e' : inv e → in_order e → any_step graph task_count e e' → in_order e'.
Proof.
  intros I H [[i o Hs]|i Hs]; [by eapply step_in_order|]. unfold spurious in Hs. repeat case_match; by simplify_eq.
Qed.
Lemma reachable_in_order e :
  (0 < nthreads)%nat → 0 < active_tasks_ (start_query graph task_count nthreads) → reachable graph task_count nthreads e → in_order e.
Proof.
  intros Hn Ha H. assert (inv e ∧ in_order e) as [_ ?]; [|done]. unfold reachable in H.
  apply (rtc_ind_r (λ e, inv e ∧ in_order e) (start_query graph task_count nthreads)) in H; [done| |].
  - split; [apply query_inv; try done; apply rtc_refl|]. intros pre p b post He. simpl in He. by destruct pre.
  - intros y z _ Hyz [HI HO]. split; [by eapply inv_step|by eapply any_in_order].
Qed.

(** ** No deadlock *)

Lemma counters_known e d : count_inv e → dependencies_remaining_ (ctr e d) ≠ 0 ∨ (0 < places e d)%nat → ∃ c, counters e !! d = Some c.
Proof.
  intros I H. destruct (counters e !! d) as [c|] eqn:E; [by exists c|]. exfalso. destruct H as [H|H].
  - apply H. unfold ctr. by rewrite E.
  - destruct (one_place graph task_count e d I) as [_ H']. destruct (H' H) as [_ Hd]. apply lookup_ge_None in E. rewrite (ci_length _ _ _ I) in E. lia.
Qed.
(** A thread that is neither asleep nor gone moves, unless another holds the mutex. *)
Lemma can_step e i c :
  count_inv e → threads e !! i = Some c → c ≠ Sleeping → c ≠ Exited → mutex_ e = None ∨ locking c = true ∨ dozing c = true →
  ∃ e', exec_step e e'.
Proof.
  intros I Hi H1 H2 Hm.
  assert (∃ e', step_thread graph task_count i (Returns false) e = Some e') as [e' He]; [|by exists e'; exists i (Returns false)].
  unfold step_thread. rewrite Hi.
  unfold WorkUntil_lock, WorkUntil_test, Execute_drained, Execute_last, ReleaseDependents, CreateTasks, EnqueueAll, NotifyAll_lock.
  destruct c as [| | | | |p|p|p|p|p|p [|d ds] b ready|p d ds b ready|[|d ds]| | | | | |]; try done; try (by eexists).
  all: try (destruct Hm as [-> |[|]]; [by eexists|done|done]).
  - destruct (queue_ e); [destruct (query_done_ e)|]; by eexists.
  - destruct (counters_known e p I) as [k ->]; [right; by eapply works_on_place|]. by eexists.
  - destruct (has_error_ e); by eexists.
  - destruct (counters_known e d I) as [k ->]; [|by eexists]. left. rewrite (ci_deps _ _ _ I).
    pose proof (sum_of_elem (pending d) _ _ _ Hi) as Hp. cbn [pending] in Hp. rewrite occ_cons, decide_True in Hp by done. lia.
  - destruct (counters_known e d I) as [k ->]; [|by eexists]. right. unfold places.
    pose proof (sum_of_elem (creating d) _ _ _ Hi) as Hp. cbn [creating] in Hp. rewrite decide_True in Hp by done. lia.
Qed.
Lemma nobody_awake e : num awake e = 0%nat → sum_of unfinished (threads e) = 0%nat ∧ num completing e = 0%nat ∧ num waking e = 0%nat.
Proof.
  unfold num. rewrite !sum_of_zero, !Forall_forall. intros H. repeat split; intros c Hc; specialize (H c Hc); by destruct c.
Qed.
(** While some thread has not returned, some thread can move: no wake-up is lost. *)
Lemma no_deadlock e i c : inv e → threads e !! i = Some c → c ≠ Exited → ∃ e', exec_step e e'.
Proof.
  intros (I & S & _) Hi Hc. destruct (mutex_ e) as [m|] eqn:Hm.
  - assert (0 < num locking e ∨ 0 < num dozing e)%nat as [H|H] by (pose proof (si_mutex _ S) as H; rewrite Hm in H; lia);
      apply num_pos in H as (j & k & Hj & Hk); (eapply (can_step e j k I Hj); [by intros ->|by intros ->|by auto]).
  - destruct (num awake e) eqn:Ha.
    + exfalso. destruct (nobody_awake e Ha) as (Hu & Hco & Hw). pose proof (si_queue _ S). pose proof (si_mutex _ S) as Hmu. rewrite Hm in Hmu.
      pose proof (ci_active _ _ _ I) as Hac. destruct (si_zero _ S) as [Hd|Hd]; [lia| |lia].
      pose proof (si_wake _ S Hd) as Hwk. assert (0 < num sleeping e + num dozing e)%nat; [|lia].
      assert (awake c = false) as Hac' by (destruct (awake c) eqn:E; [pose proof (num_elem awake e i c Hi E); lia|done]).
      destruct c; try done; [pose proof (num_elem dozing e i _ Hi eq_refl)|pose proof (num_elem sleeping e i _ Hi eq_refl)]; lia.
    + assert (0 < num awake e)%nat as H by lia. apply num_pos in H as (j & k & Hj & Hk).
      eapply (can_step e j k I Hj); [by intros ->|by intros ->|by auto].
Qed.
End progress.

(** * The executor terminates

    A work_left that every step of a thread lowers.  A wake-up puts sleeping threads back to the test of
    the queue, so it is paid for in advance by the thread that notifies; a task is paid for by the pipeline
    that is still waiting to create it. *)

Section termination.
Context (graph : list PipelineInfo) (task_count : nat → nat) (nthreads : nat).
Context (G : graph_ok graph task_count).
Implicit Types e : Exec.
Abbreviation inv := (inv graph task_count nthreads).
Abbreviation count_inv := (count_inv graph task_count).

Definition edges : nat := sum_of (λ q, length (dependents_of graph q)) (seq 0 (length graph)).
(** Waking every thread; a task that has been drained; a task in the queue. *)
Definition wake_cost : nat := (3 * nthreads)%nat.
Definition end_cost : nat := (2 * wake_cost + 13)%nat.
Definition task_cost : nat := (end_cost + 2 * edges + 4)%nat.
Definition weight (c : pc) : nat :=
  match c with
  | Exited => 0 | Sleeping => 1 | AboutToSleep => 2 | Locked => 3 | Idle => 4
  | WakingLocked => wake_cost + 5 | Waking => wake_cost + 6 | Completing => wake_cost + 7
  | Finishing => wake_cost + 8 | Merging => wake_cost + 9 | Notifying => 2 * wake_cost + 10
  | Enqueueing ready => 2 * wake_cost + 11 + task_cost * length ready
  | Releasing _ ds _ ready => 2 * wake_cost + 12 + 2 * length ds + task_cost * length ready
  | Creating _ d ds _ ready => 2 * wake_cost + 13 + 2 * length ds + task_cost * (length ready + task_count d)
  | Finalizing _ => end_cost + 2 * edges
  | LastTask _ => end_cost + 2 * edges + 1
  | Drained _ => end_cost + 2 * edges + 2
  | Draining _ => end_cost + 2 * edges + 3
  | Running _ => task_cost
  end%nat.
Definition work_left e : nat :=
  (sum_of weight (threads e) + task_cost * length (queue_ e) + task_cost * sum_of (unstarted task_count e) (seq 0 (length graph)))%nat.

Lemma weight_wake l : (sum_of weight (wake <$> l) ≤ sum_of weight l + 3 * length l)%nat.
Proof.
  rewrite sum_of_fmap. induction l as [|c l IH]; [simpl; lia|]. cbn [sum_of sum_list_with length].
  assert (weight (wake c) ≤ weight c + 3)%nat by (destruct c; simpl; lia). unfold sum_of in *. simpl in *. lia.
Qed.
Lemma dependents_edges p : (length (dependents_of graph p) ≤ edges)%nat.
Proof.
  destruct (decide (p < length graph)%nat) as [Hp|Hp].
  - unfold edges. apply (sum_of_elem (λ q, length (dependents_of graph q)) _ p). apply lookup_seq. lia.
  - unfold dependents_of. rewrite lookup_ge_None_2 by lia. simpl. lia.
Qed.
Lemma unstarted_counters e e' : (∀ d, dependencies_remaining_ (ctr e' d) = dependencies_remaining_ (ctr e d)) →
  sum_of (unstarted task_count e') (seq 0 (length graph)) = sum_of (unstarted task_count e) (seq 0 (length graph)).
Proof. intros H. apply sum_of_ext. intros d _. unfold unstarted. by rewrite H. Qed.

Lemma same_deps p c t b e e' d :
  counters e !! p = Some c → counters e' = <[p := mkCounters (dependencies_remaining_ c) t b]> (counters e) →
  dependencies_remaining_ (ctr e' d) = dependencies_remaining_ (ctr e d).
Proof.
  intros Hk He. destruct (ctr_lookup _ _ _ Hk) as [Hctr Hlt]. unfold ctr at 1. rewrite He.
  destruct (decide (d = p)) as [->|Hd]; [by rewrite list_lookup_insert_eq, Hctr by done|by rewrite list_lookup_insert_ne by done].
Qed.

(** A move that releases nothing. *)
Lemma work_move i x y e e' :
  threads e !! i = Some x → threads e' = <[i := y]> (threads e) →
  (∀ d, dependencies_remaining_ (ctr e' d) = dependencies_remaining_ (ctr e d)) →
  (weight y + task_cost * length (queue_ e') < weight x + task_cost * length (queue_ e))%nat → (work_left e' < work_left e)%nat.
Proof.
  intros Hi Ht Hd Hw. unfold work_left. rewrite Ht, (unstarted_counters e e' Hd). pose proof (sum_of_insert weight _ _ _ y Hi). lia.
Qed.
(** A move with [notify_all]. *)
Lemma work_wake i x y e e' :
  length (threads e) = nthreads → threads e !! i = Some x → threads e' = wake <$> <[i := y]> (threads e) →
  (∀ d, dependencies_remaining_ (ctr e' d) = dependencies_remaining_ (ctr e d)) → queue_ e' = queue_ e →
  (weight y + wake_cost < weight x)%nat → (work_left e' < work_left e)%nat.
Proof.
  intros HL Hi Ht Hd Hq Hw. unfold work_left. rewrite Ht, Hq, (unstarted_counters e e' Hd). pose proof (sum_of_insert weight _ _ _ y Hi).
  pose proof (weight_wake (<[i := y]> (threads e))) as H2. rewrite length_insert, HL in H2. unfold wake_cost in *. lia.
Qed.
(** The thread that releases the last edge takes over the tasks to create. *)
Lemma work_release i p d0 ds b ready c e :
  count_inv e → threads e !! i = Some (Releasing p (d0 :: ds) b ready) → counters e !! d0 = Some c →
  (work_left (set_thread i (if bool_decide (dependencies_remaining_ c = 1%Z) then Creating p d0 ds b ready else Releasing p ds b ready)
    (set_counters d0 (mkCounters (u64 (dependencies_remaining_ c - 1)%Z) (tasks_remaining_ c) (dead_ c || b)) e)) < work_left e)%nat.
Proof.
  intros I Hi Hc. set (e' := set_thread _ _ _).
  destruct (release_counters graph task_count G i p d0 ds b ready c e e' I Hi Hc eq_refl) as (Hpos & _ & Hun).
  unfold work_left. rewrite <- Hun. change (queue_ e') with (queue_ e). unfold e' at 1. cbn [threads set_thread set_counters].
  pose proof (sum_of_insert weight _ _ _ (if bool_decide (dependencies_remaining_ c = 1) then Creating p d0 ds b ready else Releasing p ds b ready) Hi) as Hw.
  case_bool_decide; case_decide; try lia; cbn [weight length] in Hw; nia.
Qed.

Ltac lower Hi :=
  match type of Hi with threads ?e !! ?i = Some ?x => eapply (work_move i x _ e); [exact Hi|reflexivity|done|] end;
  cbn [queue_ set_thread set_queue set_mutex set_done set_active PushError close length weight]; rewrite ?length_app; cbn [length]; unfold task_cost, end_cost; try nia.
(** Every step of a thread lowers the work_left. *)
Lemma step_work i o e e' : inv e → step_thread graph task_count i o e = Some e' → (work_left e' < work_left e)%nat.
Proof.
  intros (I & _ & L) Hs. open_step Hs. destruct (threads e !! i) as [c|] eqn:Hi; [|done].
  destruct c as [| | | | |p|p|p|p|p|p [|d ds] b ready|p d ds b ready|[|d ds]| | | | | |]; try done.
  - destruct (mutex_ e); [done|]. injection Hs as <-. lower Hi.
  - destruct (queue_ e) as [|p q] eqn:Hq; [destruct (query_done_ e)|]; injection Hs as <-; lower Hi. rewrite Hq. simpl length. nia.
  - injection Hs as <-. lower Hi.
  - injection Hs as <-. destruct (has_error_ e); lower Hi.
  - destruct o; injection Hs as <-; lower Hi.
  - destruct (counters e !! p) as [k|] eqn:Hk; [|done]. injection Hs as <-.
    eapply (work_move i (Drained p) _ e); [exact Hi|reflexivity| |].
    + intros d; by eapply (same_deps p k).
    + cbn [queue_ set_thread set_counters]. case_bool_decide; cbn [weight]; unfold end_cost; lia.
  - destruct (has_error_ e) eqn:He; injection Hs as <-; lower Hi.
  - destruct o as [b|]; injection Hs as <-; lower Hi. pose proof (dependents_edges p). lia.
  - injection Hs as <-. lower Hi.
  - destruct (counters e !! d) as [k|] eqn:Hk; [|done]. injection Hs as <-. by apply work_release.
  - destruct (counters e !! d) as [k|] eqn:Hk; [|done]. injection Hs as <-.
    eapply (work_move i (Creating p d ds b ready) _ e); [exact Hi|reflexivity| |].
    + intros d1; by eapply (same_deps d k).
    + cbn [queue_ set_thread set_active set_counters weight]. rewrite length_app, length_replicate. nia.
  - injection Hs as <-. lower Hi.
  - destruct (mutex_ e); [done|]. injection Hs as <-. lower Hi.
  - injection Hs as <-. eapply (work_wake i Notifying Merging e); try done. cbn [weight]. lia.
  - injection Hs as <-. lower Hi.
  - injection Hs as <-. case_bool_decide; lower Hi.
  - injection Hs as <-. lower Hi.
  - destruct (mutex_ e); [done|]. injection Hs as <-. lower Hi.
  - injection Hs as <-. eapply (work_wake i WakingLocked Idle e); try done. cbn [weight]. lia.
Qed.

(** A wake-up without a reason costs three steps at most. *)
Lemma spurious_work i e e' : spurious i e = Some e' → (work_left e' ≤ work_left e + 3)%nat.
Proof.
  unfold spurious. destruct (threads e !! i) as [[]|] eqn:Hi; intros; simplify_eq.
  pose proof (sum_of_insert weight _ _ _ Idle Hi) as H. unfold work_left. change (unstarted task_count (set_thread i Idle e)) with (unstarted task_count e).
  cbn [threads queue_ set_thread weight] in *. lia.
Qed.

(** A run: the steps of the threads and the wake-ups without a reason. *)
Inductive task_run : nat → nat → Exec → Exec → Prop :=
  | run_nil e : task_run 0 0 e e
  | run_exec s k e e1 e' : exec_step graph task_count e e1 → task_run s k e1 e' → task_run (S s) k e e'
  | run_spurious s k i e e1 e' : spurious i e = Some e1 → task_run s k e1 e' → task_run s (S k) e e'.
Lemma run_work s k e e' : inv e → task_run s k e e' → (s + work_left e' ≤ work_left e + 3 * k)%nat.
Proof.
  intros HI R. revert HI. induction R as [|s k e e1 e' H R IH|s k i e e1 e' H R IH]; intros HI; [lia| |].
  - assert (inv e1) as HI1 by (eapply inv_step; [done| |by left]; done). specialize (IH HI1). destruct H as [i o Hs].
    pose proof (step_work i o e e1 HI Hs). lia.
  - assert (inv e1) as HI1 by (eapply inv_step; [done| |by eapply any_spurious]; done). specialize (IH HI1).
    pose proof (spurious_work i e e1 H). lia.
Qed.
(** The threads always can, and sooner or later must, return. *)
Lemma all_exit e : inv e → ∃ e', rtc (exec_step graph task_count) e e' ∧ Forall (eq Exited) (threads e').
Proof.
  intros HI. remember (work_left e) as n eqn:Hn. assert (work_left e ≤ n)%nat as Hle by lia. clear Hn. revert e HI Hle.
  induction n as [n IH] using lt_wf_ind. intros e HI Hle.
  destruct (decide (Forall (eq Exited) (threads e))) as [Hall|Hnot]; [by exists e; split; [apply rtc_refl|]|].
  apply not_Forall_Exists in Hnot; [|apply _]. apply Exists_exists in Hnot as (c & Hc & Hne). apply list_elem_of_lookup in Hc as [j Hj].
  destruct (no_deadlock graph task_count nthreads e j c HI Hj) as [e1 [i o Hs]]; [intros ->; by apply Hne|].
  pose proof (step_work i o e e1 HI Hs) as Hm.
  assert (inv e1) as HI1 by (eapply inv_step; [done|exact HI|left; by exists i o]).
  destruct (IH (work_left e1) ltac:(lia) e1 HI1 ltac:(lia)) as (e' & Hr & Hx). exists e'. split; [|done].
  eapply rtc_l; [by exists i o|done].
Qed.

(** ** What is left when every thread has returned *)

Lemma exited_state e :
  (0 < nthreads)%nat → inv e → Forall (eq Exited) (threads e) →
  query_done_ e = true ∧ active_tasks_ e = 0 ∧ queue_ e = [] ∧ mutex_ e = None ∧
  (∀ f, f Exited = 0%nat → sum_of f (threads e) = 0%nat).
Proof.
  intros Hn (I & S & L) Hall.
  assert (∀ f, f Exited = 0%nat → sum_of f (threads e) = 0%nat) as Hz.
  { intros f Hf. apply sum_of_zero. eapply Forall_impl; [exact Hall|]. by intros c <-. }
  assert (query_done_ e = true) as Hd.
  { apply (si_exit _ S). destruct (threads e) as [|c l] eqn:E; [simpl in L; lia|].
    apply (num_elem exited e 0 c); [by rewrite E|]. by apply Forall_cons in Hall as [<- _]. }
  pose proof (si_done _ S Hd) as Ha. pose proof (ci_active _ _ _ I) as Hac. rewrite Hz in Hac by done. pose proof (si_mutex _ S) as Hm.
  unfold num in Hm. rewrite !Hz in Hm by done. repeat split; [done|done| |by destruct (mutex_ e)|done].
  destruct (queue_ e); [done|]. simpl in Hac. lia.
Qed.
(** Without an error every pipeline of an acyclic graph has been finalized. *)
Lemma all_finalized e (rank : nat → nat) :
  (∀ d q, q ∈ dependencies_of graph d → (rank q < rank d)%nat) →
  (0 < nthreads)%nat → inv e → Forall (eq Exited) (threads e) → has_error_ e = false → ∀ d, (d < length graph)%nat → d ∈ finalized e.
Proof.
  intros Hrank Hn HI Hall Herr d. destruct (exited_state e Hn HI Hall) as (_ & _ & Hq & _ & Hz). destruct HI as (I & _ & _).
  remember (rank d) as r eqn:Hr. revert d Hr. induction r as [r IH] using lt_wf_ind. intros d Hr Hd.
  assert (unreleased graph e d = 0%nat) as Hu.
  { apply sum_of_zero, Forall_forall. intros q Hqq. case_decide as Hf; [done|].
    destruct (occ d (dependents_of graph q)) eqn:E; [done|]. exfalso. apply Hf. apply elem_of_seq in Hqq.
    assert (q ∈ dependencies_of graph d) as Hdep by (apply occ_pos; rewrite (go_edges _ _ G); lia).
    apply (IH (rank q)); [|done|lia]. subst r. by apply Hrank. }
  pose proof (ci_places _ _ _ I d) as Hp. rewrite decide_True, (ci_deps _ _ _ I), Hu in Hp by done. unfold places, remaining in Hp.
  rewrite Hq, !Hz in Hp by done. rewrite occ_nil in Hp. simpl in Hp.
  assert (d ∈ (closed e).*1) as Hc by (apply occ_pos; lia).
  apply list_elem_of_fmap in Hc as [[d' b] [-> Hc]]. simpl. destruct b; [by apply finalized_elem|].
  apply (ci_error _ _ _ I) in Hc. by rewrite Herr in Hc.
Qed.
End termination.
