(* ===== verification/TaskTheorems.v ===== *)
(** * How many threads a query is given ([Executor::PeakTaskDemand]), and the theorems about the executor

    The heaviest set of pipelines that may run together bounds the tasks there can be at once. *)

From S2P Require Import Prelude TaskMachine TaskInvariant TaskTermination.

Section demand.
Context (graph : list PipelineInfo).

(** ** The computation *)

(** [done] and [reaches]. *)
Definition reach_state : Type := list bool * list (list bool).
Definition reaches (r : list (list bool)) (i j : nat) : bool := match r !! i with Some row => default false (row !! j) | None => false end.
(** [reaches[i][d] = 1], then row [d] is added to row [i]. *)
Definition add_dep (i d : nat) (r : list (list bool)) : list (list bool) :=
  let r := alter (λ row, <[d := true]> row) i r in
  match r !! d with Some row_d => alter (λ row, zip_with orb row row_d) i r | None => r end.
(** The recursive lambda [close]; the fuel bounds the depth of the recursion. *)
Fixpoint close_deps (fuel i : nat) (st : reach_state) : option reach_state :=
  match fuel with
  | O => None
  | S fuel =>
      if default true (st.1 !! i) then Some st
      else
        (fix each (ds : list nat) (st : reach_state) : option reach_state :=
           match ds with
           | [] => Some st
           | d :: ds => match close_deps fuel d st with Some st => each ds (st.1, add_dep i d st.2) | None => None end
           end) (dependencies_of graph i) (<[i := true]> st.1, st.2)
  end.
Fixpoint close_all (fuel : nat) (ids : list nat) (st : reach_state) : option reach_state :=
  match ids with
  | [] => Some st
  | i :: ids => match close_deps fuel i st with Some st => close_all fuel ids st | None => None end
  end.
Definition reach_matrix : option (list (list bool)) :=
  let n := length graph in
  snd <$> close_all (S n) (seq 0 n) (replicate n false, replicate n (replicate n false)).

Definition weights (executor_max : Z) : result (list Z) := mapM (λ p, MaxThreads executor_max (source_max_threads p) p) graph.
Definition concurrent (w : list Z) (r : list (list bool)) (i : nat) : Z :=
  fold_left (λ acc j, if bool_decide (j ≠ i) && negb (reaches r i j) && negb (reaches r j i) then u64 (acc + default 0 (w !! j)) else acc)
    (seq 0 (length graph)) (default 0 (w !! i)).
Definition PeakTaskDemand (executor_max : Z) : result Z :=
  match graph with
  | [] => Ok 0
  | [p] => MaxThreads executor_max (source_max_threads p) p
  | _ =>
      match reach_matrix with
      | None => Err EBlocked
      | Some r =>
          w ← weights executor_max;
          Ok (fold_left (λ peak i, Z.max peak (concurrent w r i)) (seq 0 (length graph)) 0)
      end
  end.

(** [ExecuteQuery]: the number of threads, and whether there is anything to run. *)
Definition MAX_THREADS : Z := 128.
Definition nthreads (max_threads : Z) : result Z :=
  peak ← PeakTaskDemand max_threads; clamp (Z.min max_threads peak) 1 MAX_THREADS.
Definition ExecuteQuery_start (max_threads : Z) : result (option Exec) :=
  let start n := start_query graph (tasks_of max_threads graph) n in
  if bool_decide (active_tasks_ (start 0%nat) = 0) then Ok None
  else n ← nthreads max_threads; Ok (Some (start (Z.to_nat n))).

(** ** What the matrix says *)

Definition depends (i j : nat) : Prop := j ∈ dependencies_of graph i.
Definition sound (r : list (list bool)) : Prop := ∀ i j, reaches r i j = true → tc depends i j.

Lemma reaches_alter r f i k j :
  reaches (alter f i r) k j = if decide (k = i) then (match r !! i with Some row => default false (f row !! j) | None => false end) else reaches r k j.
Proof.
  unfold reaches. case_decide as E; [subst; rewrite list_lookup_alter_eq; by destruct (r !! i)|by rewrite list_lookup_alter_ne by done].
Qed.
Lemma add_dep_sound i d r : sound r → depends i d → sound (add_dep i d r).
Proof.
  intros Hr Hd. unfold add_dep. set (r1 := alter _ _ _).
  assert (sound r1) as H1.
  { intros k j. unfold r1. rewrite reaches_alter. case_decide as E; [subst k|by apply Hr].
    destruct (r !! i) as [row|] eqn:Ei; [|done]. destruct (decide (j = d)) as [->|Hj]; [intros _; by apply tc_once|].
    rewrite list_lookup_insert_ne by done. intros H. apply Hr. unfold reaches. by rewrite Ei. }
  destruct (r1 !! d) as [row_d|] eqn:E1; [|done]. intros k j. rewrite reaches_alter. case_decide as E; [subst k|by apply H1].
  destruct (r1 !! i) as [row|] eqn:Ei; [|done]. rewrite lookup_zip_with. destruct (row !! j) as [x|] eqn:Ex; [|done]. simpl.
  destruct (row_d !! j) as [y|] eqn:Ey; [|done]. simpl. intros [->| ->]%orb_true_iff.
  - apply H1. unfold reaches. by rewrite Ei, Ex.
  - eapply tc_l; [exact Hd|]. apply H1. unfold reaches. by rewrite E1, Ey.
Qed.

(** The recursion as a relation between states: sound, and closing more. *)
Definition undone (st : reach_state) : nat := length (filter (eq false) st.1).
Lemma undone_mark i l : l !! i = Some false → (S (length (filter (eq false) (<[i := true]> l))) = length (filter (eq false) l))%nat.
Proof.
  revert i. induction l as [|b l IH]; intros [|i] H; simplify_eq/=; [done|].
  rewrite !filter_cons. specialize (IH i H). case_decide; simpl; lia.
Qed.
Lemma close_deps_ok fuel i st :
  (undone st < fuel)%nat → sound st.2 → ∃ st', close_deps fuel i st = Some st' ∧ sound st'.2 ∧ (undone st' ≤ undone st)%nat.
Proof.
  revert i st. induction fuel as [|fuel IH]; intros i st Hu Hs; [lia|]. cbn [close_deps].
  destruct (st.1 !! i) as [[]|] eqn:Hi; simpl; [by exists st|..]; [|by exists st].
  assert (∀ ds st1, (∀ d, d ∈ ds → depends i d) → (undone st1 < fuel)%nat → sound st1.2 → ∃ st',
    (fix each ds st := match ds with [] => Some st | d :: ds => match close_deps fuel d st with Some st => each ds (st.1, add_dep i d st.2) | None => None end end) ds st1
      = Some st' ∧ sound st'.2 ∧ (undone st' ≤ undone st1)%nat) as Heach.
  { induction ds as [|d ds IHds]; intros st1 Hds Hu1 Hs1; [by exists st1|].
    destruct (IH d st1 Hu1 Hs1) as (st2 & -> & Hs2 & Hu2).
    destruct (IHds (st2.1, add_dep i d st2.2)) as (st3 & -> & Hs3 & Hu3); [set_solver|unfold undone in *; simpl; lia|apply add_dep_sound; set_solver|].
    exists st3. unfold undone in *. simpl in *. split; [done|]. split; [done|lia]. }
  pose proof (undone_mark i st.1 Hi) as Hm.
  destruct (Heach (dependencies_of graph i) (<[i := true]> st.1, st.2)) as (st' & -> & Hs' & Hu'); [by intros|unfold undone in *; simpl; lia|done|].
  exists st'. unfold undone in *. simpl in *. split; [done|]. split; [done|lia].
Qed.
Lemma close_all_ok fuel ids st :
  (undone st < fuel)%nat → sound st.2 → ∃ st', close_all fuel ids st = Some st' ∧ sound st'.2.
Proof.
  revert st. induction ids as [|i ids IH]; intros st Hu Hs; [by exists st|]. cbn [close_all].
  destruct (close_deps_ok fuel i st Hu Hs) as (st1 & -> & Hs1 & Hu1). apply IH; [lia|done].
Qed.
(** The recursion ends, and relates only pipelines that wait for each other. *)
Lemma reach_matrix_ok : ∃ r, reach_matrix = Some r ∧ sound r.
Proof.
  unfold reach_matrix. destruct (close_all_ok (S (length graph)) (seq 0 (length graph))
    (replicate (length graph) false, replicate (length graph) (replicate (length graph) false))) as (st & -> & Hs).
  - unfold undone. simpl. pose proof (length_filter (eq false) (replicate (length graph) false)) as H. rewrite length_replicate in H. lia.
  - intros i j. unfold reaches. simpl. destruct (replicate _ (replicate _ false) !! i) as [row|] eqn:E; [|done].
    apply lookup_replicate in E as [-> _]. destruct (replicate _ false !! j) as [b|] eqn:E; [|done]. apply lookup_replicate in E as [-> _]. done.
  - exists st.2. done.
Qed.
End demand.

(** ** Tasks at once *)

Section at_once.
Context (graph : list PipelineInfo) (task_count : nat → nat) (nthr : nat).
Context (G : graph_ok graph task_count).
Abbreviation count_inv := (count_inv graph task_count).

(** A pipeline that another one in some place waits for is finalized. *)
Lemma waits_finalized e i j : count_inv e → tc (depends graph) i j → (0 < places e i)%nat → (0 < occ j (closed e).*1)%nat.
Proof.
  intros I H. induction H as [i j H|i j k H _ IH]; intros Hp.
  - apply finalized_closed. by apply (place_dependencies graph task_count G e i j I Hp).
  - apply IH. destruct (place_dependencies graph task_count G e i j I Hp H) as [Hf%finalized_closed _]. unfold places. lia.
Qed.
Lemma waits_apart e i j : count_inv e → tc (depends graph) i j → (0 < remaining e i)%nat → remaining e j = 0%nat.
Proof.
  intros I H Hr. assert (0 < occ j (closed e).*1)%nat as Hc by (apply (waits_finalized e i j I H); unfold places; lia).
  destruct (one_place graph task_count e j I) as [Hp _]. unfold places in Hp. lia.
Qed.

(** A pipeline has no more tasks than were created. *)
Definition few_tasks (e : Exec) : Prop := ∀ d, tasks_remaining_ (ctr e d) ≤ Z.of_nat (task_count d).
Lemma few_tasks_same e e' : few_tasks e → counters e' = counters e → few_tasks e'.
Proof. intros H Hc d. unfold ctr. rewrite Hc. apply H. Qed.
Lemma few_tasks_set e e' p c :
  few_tasks e → (p < length (counters e))%nat → counters e' = <[p := c]> (counters e) → tasks_remaining_ c ≤ Z.of_nat (task_count p) → few_tasks e'.
Proof.
  intros H Hp Hc Ht d. unfold ctr. rewrite Hc. destruct (decide (d = p)) as [->|Hd]; [by rewrite list_lookup_insert_eq|].
  rewrite list_lookup_insert_ne by done. apply H.
Qed.
Lemma step_few_tasks i o e e' : count_inv e → few_tasks e → step_thread graph task_count i o e = Some e' → few_tasks e'.
Proof.
  intros I H Hs. open_step Hs. destruct (threads e !! i) as [c|] eqn:Hi; [|done].
  destruct c as [| | | | |p|p|p|p|p|p [|d ds] b ready|p d ds b ready|[|d ds]| | | | | |]; try done.
  all: try (repeat case_match; simplify_eq; by apply (few_tasks_same e)).
  - destruct (counters e !! p) as [k|] eqn:Hk; [|done]. injection Hs as <-. destruct (ctr_lookup _ _ _ Hk) as [Hctr Hlt].
    pose proof (tasks_bound graph task_count G e p I) as Hb. pose proof (H p) as Hp. rewrite Hctr in Hb, Hp.
    assert (1 ≤ tasks_remaining_ k) as H1.
    { rewrite <- Hctr, (ci_tasks _ _ _ I). unfold remaining. pose proof (sum_of_elem (undrained p) _ _ _ Hi) as Hu. cbn [undrained] in Hu.
      rewrite decide_True in Hu by done. lia. }
    eapply (few_tasks_set e _ p); [done|done|reflexivity|]. simpl. rewrite u64_pred by lia. lia.
  - destruct (counters e !! d) as [k|] eqn:Hk; [|done]. injection Hs as <-. destruct (ctr_lookup _ _ _ Hk) as [Hctr Hlt].
    eapply (few_tasks_set e _ d); [done|done|reflexivity|]. simpl. rewrite <- Hctr. apply H.
  - destruct (counters e !! d) as [k|] eqn:Hk; [|done]. injection Hs as <-. destruct (ctr_lookup _ _ _ Hk) as [Hctr Hlt].
    eapply (few_tasks_set e _ d); [done|done|reflexivity|]. simpl. lia.
Qed.
Lemma reachable_few_tasks e :
  (0 < nthr)%nat → 0 < active_tasks_ (start_query graph task_count nthr) → reachable graph task_count nthr e → few_tasks e.
Proof.
  intros Hn Ha H. assert (inv graph task_count nthr e ∧ few_tasks e) as [_ ?]; [|done]. unfold reachable in H.
  apply (rtc_ind_r (λ e, inv graph task_count nthr e ∧ few_tasks e) (start_query graph task_count nthr)) in H; [done| |].
  - split; [apply query_inv; try done; apply rtc_refl|]. intros d. rewrite ctr_start. destruct (graph !! d) as [info|]; [|simpl; lia].
    simpl. unfold seed. case_bool_decide; [rewrite length_replicate; lia|simpl; lia].
  - intros y z _ Hyz [HI HO]. split; [by eapply inv_step|]. destruct Hyz as [[i o Hs]|i Hs].
    + eapply step_few_tasks; [apply HI|done|done].
    + unfold spurious in Hs. repeat case_match; simplify_eq. by apply (few_tasks_same y).
Qed.
End at_once.

(** ** The bound *)

Section bound.
Context (graph : list PipelineInfo) (executor_max : Z).
Context (Hmax : 1 ≤ executor_max).
Abbreviation tasks := (tasks_of executor_max graph).
(** The tasks a pipeline asks for when the demand is computed. *)
Definition demand_of (d : nat) : nat :=
  match graph !! d with
  | Some info => match MaxThreads executor_max (source_max_threads info) info with Ok n => Z.to_nat (Z.max 1 n) | Err _ => 1 end
  | None => 1
  end.
Abbreviation demand := demand_of.

Lemma MaxThreads_ok n p : ∃ m, MaxThreads executor_max n p = Ok m ∧ 1 ≤ m ≤ executor_max.
Proof.
  unfold MaxThreads, clamp. rewrite bool_decide_false by lia. eexists. split; [done|]. lia.
Qed.
(** A source that does not ask for more later: no more tasks are created than were counted. *)
Lemma MaxThreads_mono n n' p m m' : n ≤ n' → MaxThreads executor_max n p = Ok m → MaxThreads executor_max n' p = Ok m' → m ≤ m'.
Proof.
  intros Hn. unfold MaxThreads, clamp. rewrite !bool_decide_false by lia.
  destruct (sink_parallel p), (forallb fst (operators_ p)), (sink_order_dependent p), (source_provides_batch_index p), (existsb snd (operators_ p)), (source_order_preserving p);
    intros [= <-] [= <-]; lia.
Qed.
Lemma tasks_demand d : Forall (λ p, source_max_threads_created p ≤ source_max_threads p) graph → (tasks d ≤ demand d)%nat.
Proof.
  intros HF. unfold tasks_of, demand_of. destruct (graph !! d) as [p|] eqn:Hp; [|lia]. pose proof (Forall_lookup_1 _ _ _ _ HF Hp) as Hle.
  destruct (MaxThreads_ok (source_max_threads_created p) p) as (m & E & _), (MaxThreads_ok (source_max_threads p) p) as (m' & E' & _).
  pose proof (MaxThreads_mono _ _ _ _ _ Hle E E'). rewrite E, E'. lia.
Qed.
Lemma weights_ok : ∃ w, weights graph executor_max = Ok w ∧ ∀ d, default 0 (w !! d) = if decide (d < length graph)%nat then Z.of_nat (demand d) else 0.
Proof.
  unfold weights. assert (∃ w, mapM (λ p, MaxThreads executor_max (source_max_threads p) p) graph = Ok w ∧ Forall2 (λ p n, MaxThreads executor_max (source_max_threads p) p = Ok n) graph w) as (w & -> & HF).
  { induction graph as [|p l (w & IH & HF)]; [by exists []|]. destruct (MaxThreads_ok (source_max_threads p) p) as (n & Hn & _).
    exists (n :: w). split; [|by constructor]. simpl. rewrite Hn. simpl. rewrite IH. done. }
  exists w. split; [done|]. intros d. pose proof (Forall2_length _ _ _ HF) as HL.
  case_decide as Hd; [|by rewrite lookup_ge_None_2 by lia].
  destruct (lookup_lt_is_Some_2 w d) as [n Hn]; [lia|]. rewrite Hn. destruct (lookup_lt_is_Some_2 graph d Hd) as [p Hp].
  pose proof (Forall2_lookup_lr _ _ _ _ _ _ HF Hp Hn) as Hmt. unfold demand_of. simpl in Hmt. rewrite Hp, Hmt. simpl.
  destruct (MaxThreads_ok (source_max_threads p) p) as (n' & Hn' & Hb). rewrite Hmt in Hn'. injection Hn' as <-. lia.
Qed.

(** The sum of a pipeline and those it can run with. *)
Definition together (r : list (list bool)) (i j : nat) : bool := bool_decide (j ≠ i) && negb (reaches r i j) && negb (reaches r j i).
Lemma fold_sum (f : nat → bool) (w : nat → nat) l acc :
  0 ≤ acc → acc + Z.of_nat (sum_of (λ j, if f j then w j else 0%nat) l) < 2 ^ 64 →
  fold_left (λ acc j, if f j then u64 (acc + Z.of_nat (w j)) else acc) l acc = acc + Z.of_nat (sum_of (λ j, if f j then w j else 0%nat) l).
Proof.
  revert acc. induction l as [|j l IH]; intros acc H0 H; [simpl; lia|].
  rewrite sum_of_cons in *. cbn [fold_left]. destruct (f j); [|apply IH; lia].
  assert (u64 (acc + Z.of_nat (w j)) = acc + Z.of_nat (w j)) as -> by (unfold u64; apply Z.mod_small; lia). rewrite IH; lia.
Qed.
Lemma fold_left_same {A} (f g : A → nat → A) l acc : (∀ a j, j ∈ l → f a j = g a j) → fold_left f l acc = fold_left g l acc.
Proof. revert acc. induction l as [|j l IH]; intros acc H; simpl; [done|]. rewrite H by set_solver. apply IH. set_solver. Qed.
Lemma fold_max_ge (f : nat → Z) l acc i : i ∈ l ∨ f i ≤ acc → f i ≤ fold_left (λ m j, Z.max m (f j)) l acc.
Proof.
  revert acc. induction l as [|j l IH]; intros acc [H|H]; simpl; try set_solver; try lia.
  - apply elem_of_cons in H as [->|H]; apply IH; [right; lia|by left].
  - apply IH. right. lia.
Qed.
Lemma fold_max_base (f : nat → Z) l acc : acc ≤ fold_left (λ m j, Z.max m (f j)) l acc.
Proof. revert acc. induction l as [|j l IH]; intros acc; simpl; [lia|]. etrans; [|apply IH]. lia. Qed.

Lemma together_sum r i :
  (i < length graph)%nat →
  (demand i + sum_of (λ j, if together r i j then demand j else 0) (seq 0 (length graph)) ≤ all_tasks graph demand)%nat.
Proof.
  intros Hi. unfold all_tasks.
  pose proof (sum_of_point (λ j, if decide (j = i) then 0 else demand j)%nat demand (length graph) i) as H. simpl in H.
  rewrite decide_True in H by done. specialize (H ltac:(intros x Hx; by rewrite decide_False by done) Hi).
  assert (sum_of (λ j, if together r i j then demand j else 0) (seq 0 (length graph))
    ≤ sum_of (λ j, if decide (j = i) then 0 else demand j) (seq 0 (length graph)))%nat as Hle; [|lia].
  clear H. induction (seq 0 (length graph)) as [|j l IH]; [simpl; lia|]. rewrite !sum_of_cons.
  assert ((if together r i j then demand j else 0) ≤ (if decide (j = i) then 0 else demand j))%nat; [|lia].
  unfold together. case_decide; [rewrite bool_decide_false by tauto; simpl; lia|]. destruct (_ && _ && _); lia.
Qed.
Lemma concurrent_sum w r i :
  Z.of_nat (all_tasks graph demand) < 2 ^ 64 → (∀ d, default 0 (w !! d) = if decide (d < length graph)%nat then Z.of_nat (demand d) else 0) →
  (i < length graph)%nat →
  concurrent graph w r i = Z.of_nat (demand i + sum_of (λ j, if together r i j then demand j else 0%nat) (seq 0 (length graph))).
Proof.
  intros Hb Hw Hi. pose proof (together_sum r i Hi) as Hle. unfold concurrent. rewrite Hw, decide_True by done.
  rewrite Nat2Z.inj_add. rewrite <- fold_sum by lia. apply fold_left_same. intros acc j Hj. apply elem_of_seq in Hj.
  unfold together. by rewrite Hw, decide_True by lia.
Qed.

(** The tasks that are not drained, of all pipelines. *)
Definition tasks_at_once (e : Exec) : nat := sum_of (remaining e) (seq 0 (length graph)).
Lemma at_once_together e r i :
  graph_ok graph tasks → count_inv graph tasks e → few_tasks tasks e → sound graph r → (0 < remaining e i)%nat → (i < length graph)%nat →
  (tasks_at_once e ≤ tasks i + sum_of (λ j, if together r i j then tasks j else 0) (seq 0 (length graph)))%nat.
Proof.
  intros G I F Hr Hpos Hi.
  assert (∀ d, remaining e d ≤ (if decide (d = i) then tasks i else 0) + (if together r i d then tasks d else 0))%nat as Hd.
  { intros d. pose proof (F d) as Hf. rewrite (ci_tasks _ _ _ I) in Hf. case_decide as E; [subst d; lia|].
    unfold together. rewrite bool_decide_true by done. simpl. destruct (remaining e d) eqn:Hrem; [lia|].
    destruct (reaches r i d) eqn:R1; [apply Hr in R1; pose proof (waits_apart graph tasks G e i d I R1 Hpos); lia|].
    destruct (reaches r d i) eqn:R2; [apply Hr in R2; pose proof (waits_apart graph tasks G e d i I R2 ltac:(lia)); lia|]. simpl. lia. }
  assert (sum_of (λ d, if decide (d = i) then tasks i else 0%nat) (seq 0 (length graph)) = tasks i) as Hone.
  { pose proof (sum_of_point (λ d, if decide (d = i) then tasks i else 0%nat) (λ _, 0%nat) (length graph) i) as H. simpl in H.
    rewrite decide_True in H by done. specialize (H ltac:(intros x Hx; by rewrite decide_False by done) Hi).
    assert (sum_of (λ _ : nat, 0%nat) (seq 0 (length graph)) = 0%nat) by (by apply sum_of_zero, Forall_forall). lia. }
  rewrite <- Hone, <- sum_of_add. unfold tasks_at_once. clear Hone. induction (seq 0 (length graph)) as [|d l IH]; [simpl; lia|].
  rewrite !sum_of_cons. specialize (Hd d). lia.
Qed.
Lemma at_once_none e : count_inv graph tasks e → (∀ d, (d < length graph)%nat → remaining e d = 0%nat) → tasks_at_once e = 0%nat.
Proof. intros I H. apply sum_of_zero, Forall_forall. intros d Hd%elem_of_seq. apply H. lia. Qed.

Lemma peak_cases :
  (graph = [] ∧ PeakTaskDemand graph executor_max = Ok 0) ∨ (∃ p, graph = [p] ∧ PeakTaskDemand graph executor_max = MaxThreads executor_max (source_max_threads p) p) ∨
  PeakTaskDemand graph executor_max =
    match reach_matrix graph with
    | None => Err EBlocked
    | Some r => w ← weights graph executor_max; Ok (fold_left (λ peak i, Z.max peak (concurrent graph w r i)) (seq 0 (length graph)) 0)
    end.
Proof. unfold PeakTaskDemand. destruct graph as [|p [|p' l]]; [by left|right; left; by exists p|by right; right]. Qed.
Lemma peak_exists : ∃ peak, PeakTaskDemand graph executor_max = Ok peak.
Proof.
  destruct (reach_matrix_ok graph) as (r & Hr & _). destruct weights_ok as (w & Hw & _).
  destruct peak_cases as [[E ->]|[(p & E & ->)| ->]]; [by eexists|destruct (MaxThreads_ok (source_max_threads p) p) as (n & Hn & _); by exists n|].
  rewrite Hr, Hw. by eexists.
Qed.
(** The computed peak is never exceeded when no source asks for more later. *)
Lemma peak_bound e :
  graph_ok graph tasks → count_inv graph tasks e → few_tasks tasks e →
  Forall (λ p, source_max_threads_created p ≤ source_max_threads p) graph → Z.of_nat (all_tasks graph demand) < 2 ^ 64 →
  ∃ peak, PeakTaskDemand graph executor_max = Ok peak ∧ Z.of_nat (tasks_at_once e) ≤ peak.
Proof.
  intros G I F Hsteady Hsum. destruct (reach_matrix_ok graph) as (r & Hr & Hs). destruct weights_ok as (w & Hw & Hlook).
  destruct peak_cases as [[E HP]|[(p & E & HP)|HP]]; rewrite HP.
  - exists 0. split; [done|]. unfold tasks_at_once. by rewrite E.
  - destruct (MaxThreads_ok (source_max_threads p) p) as (n & Hn & Hb). exists n. split; [done|]. unfold tasks_at_once. rewrite E. simpl.
    pose proof (F 0%nat) as Hf. rewrite (ci_tasks _ _ _ I) in Hf. pose proof (tasks_demand 0 Hsteady) as Ht. unfold demand_of in Ht. rewrite E in Ht. simpl in Ht. rewrite Hn in Ht.
    rewrite E in Hf. lia.
  - rewrite Hr, Hw. simpl. eexists. split; [done|].
    destruct (decide (Forall (λ d, remaining e d = 0%nat) (seq 0 (length graph)))) as [Hz|Hnz].
    + rewrite at_once_none; [apply fold_max_base|done|]. intros d Hd. rewrite Forall_forall in Hz. apply Hz. apply elem_of_seq. lia.
    + apply not_Forall_Exists in Hnz; [|apply _]. apply Exists_exists in Hnz as (i & Hi & Hpos). apply elem_of_seq in Hi.
      etrans; [|apply (fold_max_ge _ _ _ i); left; apply elem_of_seq; lia].
      rewrite concurrent_sum by (done || lia). apply Nat2Z.inj_le. etrans; [apply (at_once_together e r i); try done; [simpl in Hpos; lia|lia]|].
      apply Nat.add_le_mono; [by apply tasks_demand|]. clear -Hsteady Hmax. induction (seq 0 (length graph)) as [|j l IH]; [simpl; lia|].
      rewrite !sum_of_cons. pose proof (tasks_demand j Hsteady). destruct (together r i j); lia.
Qed.
End bound.

(** * The theorems about the query executor

    For a graph made by [PipelineBuilder] and any interleaving of the threads: pipelines run in dependency
    order, no wake-up is lost, the query ends, and it ends with every sink finalized unless it failed. *)

(** ** Graphs of the builder *)

Inductive built : list PipelineInfo → Prop :=
  | built_root fresh : built (CreateRootPipeline fresh []).1
  | built_child ps parent fresh : built ps → (parent < length ps)%nat → built (CreateChildPipeline parent fresh ps).1
  | built_dependency ps a b : built ps → (a < length ps)%nat → (b < length ps)%nat → built (AddDependency a b ps).

Definition edge_at (x y : nat) (z : nat) : list nat := if decide (x = y) then [z] else [].
Lemma edges_alter g b ps d :
  ((∀ p, dependencies_ (g p) = dependencies_ p) → dependencies_of (alter g b ps) d = dependencies_of ps d) ∧
  ((∀ p, dependents_ (g p) = dependents_ p) → dependents_of (alter g b ps) d = dependents_of ps d).
Proof.
  unfold dependencies_of, dependents_of. destruct (decide (d = b)) as [->|H]; [|by rewrite list_lookup_alter_ne by done].
  rewrite list_lookup_alter_eq. split; intros Hg; by destruct (ps !! b); simpl.
Qed.
Lemma add_edge_dependencies a b ps d :
  (a < length ps)%nat → dependencies_of (add_edge a b ps) d = dependencies_of ps d ++ edge_at d a b.
Proof.
  intros Ha. unfold add_edge, edge_at. rewrite (proj1 (edges_alter _ _ _ _)) by done. unfold dependencies_of.
  case_decide as E; [subst; rewrite list_lookup_alter_eq|by rewrite list_lookup_alter_ne, app_nil_r by done].
  by destruct (lookup_lt_is_Some_2 ps a Ha) as [p ->].
Qed.
Lemma add_edge_dependents a b ps q :
  (b < length ps)%nat → dependents_of (add_edge a b ps) q = dependents_of ps q ++ edge_at q b a.
Proof.
  intros Hb. unfold add_edge. set (ps1 := alter _ a ps).
  assert (dependents_of ps1 q = dependents_of ps q) as <- by (by apply (proj2 (edges_alter _ _ _ _))).
  assert (b < length ps1)%nat as Hb1 by (unfold ps1; by rewrite length_alter). unfold dependents_of, edge_at.
  case_decide as E; [subst q; rewrite list_lookup_alter_eq|by rewrite list_lookup_alter_ne, app_nil_r by done].
  by destruct (lookup_lt_is_Some_2 ps1 b Hb1) as [p ->].
Qed.
Lemma add_edge_matched a b ps :
  (a < length ps)%nat → (b < length ps)%nat → (∀ d q, occ q (dependencies_of ps d) = occ d (dependents_of ps q)) →
  ∀ d q, occ q (dependencies_of (add_edge a b ps) d) = occ d (dependents_of (add_edge a b ps) q).
Proof.
  intros Ha Hb H d q. rewrite add_edge_dependencies, add_edge_dependents, !occ_app, H by done. f_equal. unfold edge_at.
  repeat case_decide; rewrite ?occ_cons, ?occ_nil; repeat case_decide; congruence || done.
Qed.
Lemma fresh_matched fresh ps d q :
  (∀ d q, occ q (dependencies_of ps d) = occ d (dependents_of ps q)) →
  occ q (dependencies_of (ps ++ [set_edges [] [] fresh]) d) = occ d (dependents_of (ps ++ [set_edges [] [] fresh]) q).
Proof.
  intros H. specialize (H d q). unfold dependencies_of, dependents_of in *.
  assert (∀ k, (ps ++ [set_edges [] [] fresh]) !! k = if decide (k < length ps)%nat then ps !! k else if decide (k = length ps) then Some (set_edges [] [] fresh) else None) as Hl.
  { intros k. case_decide; [by rewrite lookup_app_l by done|]. rewrite lookup_app_r by lia. case_decide; [subst; by rewrite Nat.sub_diag|].
    rewrite lookup_ge_None_2; [done|simpl; lia]. }
  rewrite !Hl. destruct (decide (d < length ps)%nat) as [Hd|Hd]; [|rewrite (lookup_ge_None_2 ps d) in H by lia];
    (destruct (decide (q < length ps)%nat) as [Hq|Hq]; [|rewrite (lookup_ge_None_2 ps q) in H by lia]);
    repeat case_decide; rewrite ?occ_nil in *; simpl; rewrite ?occ_nil; done.
Qed.
Lemma built_matched ps : built ps → ∀ d q, occ q (dependencies_of ps d) = occ d (dependents_of ps q).
Proof.
  induction 1 as [fresh|ps parent fresh H IH Hp|ps a b H IH Ha Hb]; intros d q.
  - apply (fresh_matched fresh []). intros d' q'. done.
  - simpl. apply add_edge_matched; [rewrite length_app; simpl; lia..|]. intros. by apply fresh_matched.
  - by apply add_edge_matched.
Qed.

(** ** Queries *)

(** A graph of the builder, a thread limit of at least one (the configuration is clamped so), and counters
    that fit in 64 bits. *)
Record query_ok (graph : list PipelineInfo) (max_threads : Z) : Prop := {
  qo_built : built graph;
  qo_max : 1 ≤ max_threads;
  qo_tasks : Z.of_nat (all_tasks graph (tasks_of max_threads graph)) < 2 ^ 64;
  qo_edges : ∀ d, Z.of_nat (length (dependencies_of graph d)) < 2 ^ 64 }.

(** The states of a query that [ExecuteQuery] has started. *)
Definition query_state (graph : list PipelineInfo) (max_threads : Z) (e : Exec) : Prop :=
  ∃ e0, ExecuteQuery_start graph max_threads = Ok (Some e0) ∧ rtc (any_step graph (tasks_of max_threads graph)) e0 e.
Definition returned (e : Exec) : Prop := Forall (eq Exited) (threads e).

Lemma tasks_of_pos max_threads graph d : (0 < tasks_of max_threads graph d)%nat.
Proof. unfold tasks_of. destruct (graph !! d) as [p|]; [|lia]. destruct (MaxThreads max_threads _ p); lia. Qed.
Lemma query_graph graph max_threads : query_ok graph max_threads → graph_ok graph (tasks_of max_threads graph).
Proof. intros [H1 H2 H3 H4]. split; [by apply built_matched|apply tasks_of_pos|done|done]. Qed.
(** The peak demand exists, and the thread count is between 1 and 128. *)
Lemma nthreads_ok graph max_threads :
  query_ok graph max_threads → ∃ n, nthreads graph max_threads = Ok n ∧ 1 ≤ n ≤ MAX_THREADS.
Proof.
  intros Q. destruct (peak_exists graph max_threads (qo_max _ _ Q)) as (peak & Hp).
  unfold nthreads. rewrite Hp. simpl. unfold clamp, MAX_THREADS. rewrite bool_decide_false by lia. eexists. split; [done|]. lia.
Qed.
Lemma query_state_inv graph max_threads e :
  query_ok graph max_threads → query_state graph max_threads e →
  ∃ n, (0 < n)%nat ∧ 0 < active_tasks_ (start_query graph (tasks_of max_threads graph) n) ∧ reachable graph (tasks_of max_threads graph) n e
    ∧ inv graph (tasks_of max_threads graph) n e.
Proof.
  intros Q (e0 & He0 & Hr). pose proof (query_graph _ _ Q) as G. unfold ExecuteQuery_start in He0. case_bool_decide as Ha; [done|].
  destruct (nthreads_ok _ _ Q) as (n & Hn & Hb). rewrite Hn in He0. simpl in He0. injection He0 as <-.
  assert (0 < active_tasks_ (start_query graph (tasks_of max_threads graph) (Z.to_nat n))) as Hact by (simpl in *; lia).
  exists (Z.to_nat n). split; [lia|]. split; [done|]. split; [done|]. apply query_inv; [done|lia|done|done].
Qed.

(** Runs by a fixed scheduler: the first thread that can move does. *)
Definition first_step (graph : list PipelineInfo) (task_count : nat → nat) (o : outcome) (e : Exec) : option Exec :=
  foldr (λ i acc, match step_thread graph task_count i o e with Some e' => Some e' | None => acc end) None (seq 0 (length (threads e))).
Fixpoint schedule (graph : list PipelineInfo) (task_count : nat → nat) (o : outcome) (fuel : nat) (e : Exec) : Exec :=
  match fuel with
  | O => e
  | S fuel => match first_step graph task_count o e with Some e' => schedule graph task_count o fuel e' | None => e end
  end.
Lemma schedule_reachable graph task_count o fuel e : rtc (any_step graph task_count) e (schedule graph task_count o fuel e).
Proof.
  revert e. induction fuel as [|fuel IH]; intros e; simpl; [apply rtc_refl|].
  destruct (first_step graph task_count o e) as [e'|] eqn:E; [|apply rtc_refl]. eapply rtc_l; [|apply IH]. left.
  unfold first_step in E. induction (seq 0 (length (threads e))) as [|i l IHl]; simpl in E; [done|].
  destruct (step_thread graph task_count i o e) eqn:Es; simplify_eq; [by exists i o|by apply IHl].
Qed.

(** ** The claims *)

Section claims.
Context (graph : list PipelineInfo) (max_threads : Z).
Abbreviation tasks := (tasks_of max_threads graph).

(** C28: In every state of a query a thread works on a pipeline (drains a task, or finalizes the sink) only
    when every pipeline it depends on has been finalized; the pipelines are closed in dependency order, and
    none twice, whatever the interleaving. *)
Theorem executor_in_order e :
  query_ok graph max_threads → query_state graph max_threads e →
  (∀ i c d q, threads e !! i = Some c → works_on d c → q ∈ dependencies_of graph d → q ∈ finalized e) ∧
  NoDup (closed e).*1 ∧
  (∀ pre p b post, closed e = pre ++ (p, b) :: post → ∀ q, q ∈ dependencies_of graph p → (q, true) ∈ pre).
Proof.
  intros Q Hs. destruct (query_state_inv _ _ _ Q Hs) as (n & Hn & Ha & Hr & I & _). pose proof (query_graph _ _ Q) as G.
  split; [|split].
  - intros i c d q Hi Hw Hq. apply (place_dependencies graph tasks G e d q I); [|done]. by eapply works_on_place.
  - by eapply closed_once.
  - by eapply reachable_in_order.
Qed.

(** C29: No wake-up is lost and the query ends: while a thread has not returned some thread can take a step,
    and a run of [s] steps with [k] wake-ups without a reason has at most [work_left + 3k] of them, so the
    threads return in a bounded number of steps. *)
Theorem executor_terminates e :
  query_ok graph max_threads → query_state graph max_threads e →
  (∀ i c, threads e !! i = Some c → c ≠ Exited → ∃ e', exec_step graph tasks e e') ∧
  (∀ s k e', task_run graph tasks s k e e' → (s + work_left graph tasks (length (threads e)) e' ≤ work_left graph tasks (length (threads e)) e + 3 * k)%nat) ∧
  (∃ e', rtc (exec_step graph tasks) e e' ∧ returned e').
Proof.
  intros Q Hs. destruct (query_state_inv _ _ _ Q Hs) as (n & Hn & Ha & Hr & HI). pose proof (query_graph _ _ Q) as G.
  destruct HI as (I & S & L). rewrite L. split; [|split].
  - intros i c Hi Hc. by eapply (no_deadlock graph tasks n).
  - intros s k e' R. by eapply run_work.
  - by eapply (all_exit graph tasks n).
Qed.

(** C30: When every thread has returned, the query is marked done, no task is left in the queue or counted
    as active, and the mutex is free.  If no error was latched, every pipeline of an acyclic graph has been
    finalized exactly once; a pipeline that was closed without being finalized has latched an error. *)
Theorem executor_completes e (rank : nat → nat) :
  query_ok graph max_threads → query_state graph max_threads e → returned e →
  (∀ d q, q ∈ dependencies_of graph d → (rank q < rank d)%nat) →
  query_done_ e = true ∧ queue_ e = [] ∧ active_tasks_ e = 0 ∧ mutex_ e = None ∧
  (has_error_ e = false → finalized e ≡ₚ seq 0 (length graph)) ∧
  (∀ d, (d, false) ∈ closed e → has_error_ e = true).
Proof.
  intros Q Hs Hx Hrank. destruct (query_state_inv _ _ _ Q Hs) as (n & Hn & Ha & Hr & HI). pose proof (query_graph _ _ Q) as G.
  destruct (exited_state graph tasks n e Hn HI Hx) as (H1 & H2 & H3 & H4 & _). repeat split; try done; [|by destruct HI as (I & _); apply (ci_error _ _ _ I)].
  intros Herr. apply NoDup_Permutation.
  - destruct HI as (I & _). pose proof (closed_once graph tasks e I) as Hnd. unfold finalized. revert Hnd.
    induction (closed e) as [|[p b] l IH]; [done|]. intros [Hp Hl]%NoDup_cons. rewrite filter_cons. case_decide; simpl; [|by apply IH].
    apply NoDup_cons. split; [|by apply IH]. intros Hin. apply Hp. apply list_elem_of_fmap in Hin as (x & -> & Hin). apply list_elem_of_filter in Hin as [_ Hin].
    apply list_elem_of_fmap. by exists x.
  - apply NoDup_seq.
  - intros d. rewrite elem_of_seq. split; [|intros [_ Hd]; by eapply (all_finalized graph tasks n G e rank)].
    intros Hd%finalized_closed. destruct HI as (I & _). destruct (one_place graph tasks e d I) as [_ H]. destruct H as [_ H]; [unfold places; lia|]. lia.
Qed.

(** C31: [PeakTaskDemand] is an upper bound: the recursion that computes it ends, and in no state of a query
    whose sources do not ask for more threads when their tasks are created than when the demand was computed
    (the grace hash join may: [grace_join_exceeds]) are there more tasks waiting or being drained than the
    peak, so a thread beyond that number would never find work. *)
Theorem peak_demand_sound e :
  query_ok graph max_threads → query_state graph max_threads e →
  Z.of_nat (all_tasks graph (demand_of graph max_threads)) < 2 ^ 64 →
  ∃ peak, PeakTaskDemand graph max_threads = Ok peak ∧
    (Forall (λ p, source_max_threads_created p ≤ source_max_threads p) graph → Z.of_nat (tasks_at_once graph e) ≤ peak).
Proof.
  intros Q Hs Hsum. destruct (query_state_inv _ _ _ Q Hs) as (n & Hn & Ha & Hr & I & _). pose proof (query_graph _ _ Q) as G.
  destruct (peak_exists graph max_threads (qo_max _ _ Q)) as (peak & Hp). exists peak. split; [done|]. intros Hst.
  destruct (peak_bound graph max_threads (qo_max _ _ Q) e G I) as (peak' & Hp' & Hle); [by eapply (reachable_few_tasks graph tasks n)|done|done|]. rewrite Hp in Hp'. by injection Hp' as <-.
Qed.
End claims.

(** ** A query *)

(** A join that partitions both sides: the root pipeline waits for the two passes, and the probe pass waits
    for the build pass.  Two threads. *)
Definition wide : PipelineInfo := mkPipeline 4 3 true false [(true, false)] true false [] [].
Definition join_graph : list PipelineInfo :=
  let '(ps, root) := CreateRootPipeline wide [] in
  let '(ps, build) := CreateChildPipeline root wide ps in
  let '(ps, probe) := CreateChildPipeline root wide ps in
  AddDependency probe build ps.
Definition join_rank (d : nat) : nat := match d with 0 => 2 | 1 => 0 | _ => 1 end%nat.
Definition join_start : Exec := start_query join_graph (tasks_of 2 join_graph) 2.
Definition join_state (o : outcome) (n : nat) : Exec := schedule join_graph (tasks_of 2 join_graph) o n join_start.

Lemma join_ok : query_ok join_graph 2.
Proof.
  split; [|lia|vm_compute; done|intros [|[|[|d]]]; vm_compute; done].
  apply (built_dependency (CreateChildPipeline 0 wide (CreateChildPipeline 0 wide (CreateRootPipeline wide []).1).1).1 2 1);
    [|simpl; lia..]. apply built_child; [|simpl; lia]. apply built_child; [|simpl; lia]. apply built_root.
Qed.
Lemma join_reached o n : query_state join_graph 2 (join_state o n).
Proof. exists join_start. split; [vm_compute; reflexivity|]. apply schedule_reachable. Qed.
Lemma join_acyclic d q : q ∈ dependencies_of join_graph d → (join_rank q < join_rank d)%nat.
Proof.
  destruct d as [|[|[|d]]]; cbn; intros H; repeat (apply elem_of_cons in H as [->|H]); simpl; try lia; by apply not_elem_of_nil in H.
Qed.

(** The probe pass drains: the build pass has been finalized. *)
Lemma executor_in_order_witness :
  threads (join_state (Returns false) 25) !! 0%nat = Some (Draining 2) ∧ 1%nat ∈ finalized (join_state (Returns false) 25).
Proof.
  split; [vm_compute; reflexivity|].
  apply (proj1 (executor_in_order join_graph 2 (join_state (Returns false) 25) join_ok (join_reached _ _)) 0%nat (Draining 2) 2%nat 1%nat);
    [vm_compute; reflexivity|reflexivity|cbn; set_solver].
Defined.
(** Wherever the query stands, its threads return. *)
Lemma executor_terminates_witness :
  ∃ e', rtc (exec_step join_graph (tasks_of 2 join_graph)) (join_state (Returns false) 10) e' ∧ returned e'.
Proof. apply (executor_terminates join_graph 2 (join_state (Returns false) 10) join_ok (join_reached _ _)). Defined.
(** The three sinks of a query without errors are finalized; a query whose drains throw returns as well. *)
Lemma executor_completes_witness :
  finalized (join_state (Returns false) 100) ≡ₚ [0; 1; 2]%nat ∧
  queue_ (join_state Throws 100) = [] ∧ has_error_ (join_state Throws 100) = true ∧ finalized (join_state Throws 100) = [].
Proof.
  split.
  - apply (executor_completes join_graph 2 (join_state (Returns false) 100) join_rank join_ok (join_reached _ _));
      [vm_compute; repeat constructor|apply join_acyclic|vm_compute; reflexivity].
  - repeat split; vm_compute; reflexivity.
Defined.
(** At most two tasks at once, and two are there at the start. *)
Lemma peak_demand_sound_witness :
  PeakTaskDemand join_graph 2 = Ok 2 ∧ tasks_at_once join_graph join_start = 2%nat ∧
  ∃ peak, PeakTaskDemand join_graph 2 = Ok peak ∧ Z.of_nat (tasks_at_once join_graph (join_state (Returns false) 18)) ≤ peak.
Proof.
  split; [vm_compute; reflexivity|]. split; [vm_compute; reflexivity|].
  destruct (peak_demand_sound join_graph 2 (join_state (Returns false) 18) join_ok (join_reached _ _)) as (peak & E & H); [vm_compute; reflexivity|].
  exists peak. split; [exact E|]. apply H. vm_compute. repeat constructor; discriminate.
Defined.

(** The source of a grace hash join asks for one thread before its sinks have run, and for one per filled partition
    afterwards: of the three tasks of its root pipeline only one was counted, and one thread is started. *)
Definition grace_graph : list PipelineInfo :=
  let one := mkPipeline 1 1 true false [(true, false)] true false [] [] in
  let '(ps, root) := CreateRootPipeline (mkPipeline 1 3 true false [] true false [] []) [] in
  let '(ps, build) := CreateChildPipeline root one ps in
  let '(ps, probe) := CreateChildPipeline root one ps in
  AddDependency probe build ps.
Lemma grace_join_exceeds : PeakTaskDemand grace_graph 8 = Ok 1 ∧
  ∃ e, query_state grace_graph 8 e ∧ tasks_at_once grace_graph e = 3%nat.
Proof.
  split; [vm_compute; reflexivity|]. pose (start := start_query grace_graph (tasks_of 8 grace_graph) 1).
  exists (schedule grace_graph (tasks_of 8 grace_graph) (Returns false) 30 start). split; [|vm_compute; reflexivity].
  exists start. split; [vm_compute; reflexivity|]. apply schedule_reachable.
Qed.
