(* ===== verification/RowFormat.v ===== *)
(** * Rows as bytes ([storage/row/row_layout.cpp], [row_operations.cpp])

    A row is a validity prefix, its fixed columns and the payloads of its strings, which handles in the
    fixed region refer to.  The kernels move columns of a chunk into rows and back and compare them, column
    by column over many rows; the rows are addressed by pointers into blocks of memory. *)

From Stdlib Require Import Floats.SpecFloat.
From S2P Require Import Prelude TablePage TableHeap BTreePage BPlusTree GenericKey StringHeap ValidityMask SortKey VectorOps.

(** ** Memory *)

(** The blocks by the order of their allocation; a row pointer is a block and an offset. *)
Abbreviation Blocks := (list (list byte)).
Abbreviation row_ptr := (nat * Z)%type.

Definition row_store (p : row_ptr) (off : Z) (bs : list byte) (mem : Blocks) : result Blocks :=
  match mem !! p.1 with
  | None => Err EUndefined
  | Some blk => blk ← mem_write blk (p.2 + off) bs (Z.of_nat (length bs)); Ok (<[p.1 := blk]> mem)
  end.
Definition row_load (p : row_ptr) (off n : Z) (mem : Blocks) : result (list byte) :=
  match mem !! p.1 with
  | None => Err EUndefined
  | Some blk =>
      if bool_decide (0 ≤ p.2 + off ∧ 0 ≤ n ∧ p.2 + off + n ≤ Z.of_nat (length blk)) then Ok (mem_read blk (p.2 + off) n) else Err EUndefined
  end.

(** ** [RowLayout] *)

Record RowLayout := mkLayout {
  rl_types : list PhysicalType;
  rl_offsets : list Z;
  rl_flag_width : Z;
  rl_fixed_width : Z;
  rl_all_constant : bool }.
Definition AlignValue (n : Z) : Z := Z.land (n + 7) (Z.lnot 7).
Definition HANDLE_SIZE : Z := 8.
Definition column_width (ty : PhysicalType) : result Z := if IsConstantSize ty then SizeOf ty else Ok HANDLE_SIZE.
Fixpoint layout_offsets (types : list PhysicalType) (row_width : Z) : result (list Z * Z) :=
  match types with
  | [] => Ok ([], row_width)
  | ty :: types =>
      n ← column_width ty;
      '(offsets, w) ← layout_offsets types (row_width + n);
      Ok (row_width :: offsets, w)
  end.
Definition Layout_Initialize (types : list PhysicalType) : result RowLayout :=
  let flag_width := if bool_decide (types = []) then 0 else (Z.of_nat (length types) + 7) / 8 in
  '(offsets, row_width) ← layout_offsets types flag_width;
  Ok (mkLayout types offsets flag_width (AlignValue row_width) (forallb IsConstantSize types)).

(** ** The validity prefix *)

Definition RowSetAllValid (p : row_ptr) (flag_width : Z) (mem : Blocks) : result Blocks :=
  if bool_decide (flag_width = 0) then Ok mem else row_store p 0 (replicate (Z.to_nat flag_width) Byte.xff) mem.
Definition flag_bit (col_no : Z) : Z := Z.shiftl 1 (Z.land col_no 7).
Definition flag_byte (col_no : Z) : Z := Z.shiftr col_no 3.
Definition RowSetInvalid (p : row_ptr) (col_no : Z) (mem : Blocks) : result Blocks :=
  bs ← row_load p (flag_byte col_no) 1 mem;
  row_store p (flag_byte col_no) (map (λ b, byte_of (Z.land (byte_val b) (Z.lnot (flag_bit col_no)))) bs) mem.
Definition Row_RowIsValid (p : row_ptr) (col_no : Z) (mem : Blocks) : result bool :=
  bs ← row_load p (flag_byte col_no) 1 mem;
  Ok (forallb (λ b, bool_decide (Z.land (byte_val b) (flag_bit col_no) ≠ 0)) bs).

(** ** Typed cells *)

(** The types [DispatchNumericPhysicalType] dispatches on. *)
Definition is_numeric (ty : PhysicalType) : bool :=
  match ty with
  | TINYINT | SMALLINT | INTEGER | BIGINT | UTINYINT | USMALLINT | UINTEGER | UBIGINT | FLOAT | DOUBLE => true
  | _ => false
  end.
Definition width (ty : PhysicalType) : nat :=
  match ty with
  | TINYINT | UTINYINT => 1 | SMALLINT | USMALLINT => 2 | INTEGER | UINTEGER | FLOAT => 4 | BIGINT | UBIGINT | DOUBLE => 8
  | _ => 0
  end%nat.
(** [Store<T>] and [Load<T>] of a number. *)
Definition num_bytes (ty : PhysicalType) (c : cell) : result (list byte) :=
  match c with CNum z => Ok (le_bytes (width ty) z) | CStr _ => Err EUndefined end.
Definition load_num (ty : PhysicalType) (bs : list byte) : cell :=
  CNum (match ty with
        | TINYINT | SMALLINT | INTEGER | BIGINT => wrap_s (8 * Z.of_nat (width ty)) (le_value bs)
        | _ => le_value bs
        end).
(** [operator==] of the element type. *)
Definition num_eq (ty : PhysicalType) (a b : cell) : result bool :=
  match a, b with
  | CNum x, CNum y =>
      Ok (match ty with
          | FLOAT => SFeqb (float32 x) (float32 y)
          | DOUBLE => SFeqb (float64 x) (float64 y)
          | _ => bool_decide (x = y)
          end)
  | _, _ => Err EUndefined
  end.
(** [StringHandle]: the offset of the payload from the row, and its length. *)
Definition handle_bytes (off len : Z) : list byte := le_bytes 4 off ++ le_bytes 4 len.
Definition load_handle (p : row_ptr) (off : Z) (mem : Blocks) : result (Z * Z) :=
  bs ← row_load p off HANDLE_SIZE mem; Ok (le_value (take 4 bs), le_value (drop 4 bs)).

(** ** Columns of a chunk *)

(** [DataChunk::Orrify]. *)
Fixpoint chunk_Orrify (count : Z) (cols : list Vector) : result (list VectorData) :=
  match cols with
  | [] => Ok []
  | v :: cols => vd ← Orrify count v; vds ← chunk_Orrify count cols; Ok (vd :: vds)
  end.
Definition ptr_at (ptrs : list (option row_ptr)) (i : Z) : result row_ptr :=
  match ptrs !! Z.to_nat i with Some (Some p) => Ok p | _ => Err EUndefined end.
Definition col_at (cols : list VectorData) (c : nat) : result VectorData :=
  match cols !! c with Some vd => Ok vd | None => Err EUndefined end.
(** The element a row of the column refers to, and whether it is valid. *)
Definition col_cell (col : VectorData) (idx : Z) : result cell := col_idx ← GetIndex (vd_sel col) idx; data_at (vd_data col) col_idx.
Definition col_valid (col : VectorData) (idx : Z) : result bool := col_idx ← GetIndex (vd_sel col) idx; Ok (mask_valid (vd_validity col) col_idx).

(** ** Scatter *)

(** A loop over the selected rows, and one that also moves a cursor per selected row. *)
Fixpoint over_rows (f : Z → Blocks → result Blocks) (idxs : list Z) (mem : Blocks) : result Blocks :=
  match idxs with
  | [] => Ok mem
  | idx :: idxs => mem ← f idx mem; over_rows f idxs mem
  end.
Fixpoint over_rows_cursor (f : Z → Z → Blocks → result (Blocks * Z)) (idxs cursor : list Z) (mem : Blocks) : result (Blocks * list Z) :=
  match idxs, cursor with
  | [], _ => Ok (mem, cursor)
  | _ :: _, [] => Err EUndefined
  | idx :: idxs, off :: cursor =>
      '(mem, off) ← f idx off mem;
      '(mem, cursor) ← over_rows_cursor f idxs cursor mem;
      Ok (mem, off :: cursor)
  end.

(** The bodies of the loops of [TemplatedScatter] and [ScatterStrings]. *)
Definition scatter_number (ty : PhysicalType) (col : VectorData) (ptrs : list (option row_ptr)) (col_offset : Z) (idx : Z) (mem : Blocks) : result Blocks :=
  c ← col_cell col idx;
  bs ← num_bytes ty c;
  p ← ptr_at ptrs idx;
  row_store p col_offset bs mem.
Definition TemplatedScatter (ty : PhysicalType) (col : VectorData) (ptrs : list (option row_ptr)) (col_offset : Z) : list Z → Blocks → result Blocks :=
  over_rows (scatter_number ty col ptrs col_offset).
Definition scatter_string (col : VectorData) (ptrs : list (option row_ptr)) (col_offset : Z) (idx off : Z) (mem : Blocks) : result (Blocks * Z) :=
  p ← ptr_at ptrs idx;
  is_valid ← col_valid col idx;
  if (is_valid : bool) then
    c ← col_cell col idx;
    match c with
    | CNum _ => Err EUndefined
    | CStr s =>
        let len := u32 (Z.of_nat (length s)) in
        mem ← row_store p off (take (Z.to_nat len) s) mem;
        mem ← row_store p col_offset (handle_bytes off len) mem;
        Ok (mem, u32 (off + len))
    end
  else mem ← row_store p col_offset (handle_bytes off 0) mem; Ok (mem, off).
Definition ScatterStrings (col : VectorData) (ptrs : list (option row_ptr)) (col_offset : Z) : list Z → list Z → Blocks → result (Blocks * list Z) :=
  over_rows_cursor (scatter_string col ptrs col_offset).
Definition set_all_valid (ptrs : list (option row_ptr)) (flag_width : Z) : list Z → Blocks → result Blocks :=
  over_rows (λ idx mem, p ← ptr_at ptrs idx; RowSetAllValid p flag_width mem).
Definition clear_column (col : VectorData) (col_no : Z) (ptrs : list (option row_ptr)) : list Z → Blocks → result Blocks :=
  over_rows (λ idx mem, valid ← col_valid col idx; if (valid : bool) then Ok mem else p ← ptr_at ptrs idx; RowSetInvalid p col_no mem).
Fixpoint clear_columns (cols : list VectorData) (col_no : Z) (ptrs : list (option row_ptr)) (idxs : list Z) (mem : Blocks) : result Blocks :=
  match cols with
  | [] => Ok mem
  | col :: cols =>
      mem ← match vd_validity col with None => Ok mem | Some _ => clear_column col col_no ptrs idxs mem end;
      clear_columns cols (col_no + 1) ptrs idxs mem
  end.
Fixpoint scatter_columns (types : list PhysicalType) (offsets : list Z) (cols : list VectorData) (ptrs : list (option row_ptr)) (idxs cursor : list Z) (mem : Blocks) : result Blocks :=
  match types, offsets, cols with
  | ty :: types, off :: offsets, col :: cols =>
      if is_numeric ty then
        mem ← TemplatedScatter ty col ptrs off idxs mem;
        scatter_columns types offsets cols ptrs idxs cursor mem
      else if bool_decide (ty = STRING) then
        '(mem, cursor) ← ScatterStrings col ptrs off idxs cursor mem;
        scatter_columns types offsets cols ptrs idxs cursor mem
      else Err (EException NOT_IMPLEMENTED "RowOperations::Scatter: unsupported physical type")
  | [], _, _ => Ok mem
  | _, _, _ => Err EUndefined
  end.
(** [RowOperations::Scatter] of the rows [idxs] of an orrified chunk with as many columns as the layout. *)
Definition Scatter (cols : list VectorData) (layout : RowLayout) (ptrs : list (option row_ptr)) (idxs : list Z) (mem : Blocks) : result Blocks :=
  if bool_decide (idxs = []) then Ok mem else
  mem ← (if bool_decide (rl_flag_width layout = 0) then Ok mem
         else mem ← set_all_valid ptrs (rl_flag_width layout) idxs mem; clear_columns (take (length (rl_types layout)) cols) 0 ptrs idxs mem);
  let cursor := if rl_all_constant layout then [] else replicate (length idxs) (u32 (rl_fixed_width layout)) in
  scatter_columns (rl_types layout) (rl_offsets layout) cols ptrs idxs cursor mem.

(** ** Gather *)

(** One element of a column out of a row; a string refers to the bytes of the row. *)
Definition gather_cell (ty : PhysicalType) (p : row_ptr) (col_offset : Z) (mem : Blocks) : result cell :=
  if is_numeric ty then bs ← row_load p col_offset (Z.of_nat (width ty)) mem; Ok (load_num ty bs)
  else if bool_decide (ty = STRING) then
    '(off, len) ← load_handle p col_offset mem;
    s ← row_load p off len mem; Ok (CStr s)
  else Err (EException NOT_IMPLEMENTED "RowOperations: unsupported physical type").
Section gather.
(** What fresh memory of a string heap holds. *)
Context (junk : byte).
Definition copied (copy_strings : bool) (c : cell) : result cell :=
  match c with CStr s => if copy_strings then s ← add_string junk s; Ok (CStr s) else Ok c | CNum _ => Ok c end.

Fixpoint full_scan (ty : PhysicalType) (col_offset : Z) (copy_strings : bool) (ptrs : list row_ptr) (mem : Blocks) : result (list cell) :=
  match ptrs with
  | [] => Ok []
  | p :: ptrs => c ← gather_cell ty p col_offset mem; c ← copied copy_strings c; cs ← full_scan ty col_offset copy_strings ptrs mem; Ok (c :: cs)
  end.
Fixpoint scan_validity (col_no : Z) (ptrs : list row_ptr) (mem : Blocks) : result (list bool) :=
  match ptrs with
  | [] => Ok []
  | p :: ptrs => v ← Row_RowIsValid p col_no mem; vs ← scan_validity col_no ptrs mem; Ok (v :: vs)
  end.
(** The mask gets a buffer at the first NULL. *)
Fixpoint propagate (vs : list bool) (i count : Z) (m : ValidityMask) (allocated : bool) : ST Buffers ValidityMask :=
  match vs with
  | [] => mret m
  | true :: vs => propagate vs (i + 1) count m allocated
  | false :: vs =>
      m ← (if allocated then mret m else EnsureWritable count m);
      m ← SetInvalidUnsafe i m;
      propagate vs (i + 1) count m true
  end.
(** [RowOperations::FullScanColumn] into a fresh flat column. *)
Definition FullScanColumn (layout : RowLayout) (ptrs : list row_ptr) (col_no : nat) (copy_strings : bool) (mem : Blocks) : result Vector :=
  match rl_types layout !! col_no, rl_offsets layout !! col_no with
  | Some ty, Some off =>
      cells ← full_scan ty off copy_strings ptrs mem;
      vs ← scan_validity (Z.of_nat col_no) ptrs mem;
      mask ← with_mask (λ m, propagate vs 0 (Z.of_nat (length ptrs)) m false) None;
      Ok (FLAT_VECTOR cells mask)
  | _, _ => Err EUndefined
  end.

(** A row slot: a row, or the null pointer of an outer join's padding. *)
Definition row_slot (rows : list (option row_ptr)) (i : Z) : result (option row_ptr) :=
  match rows !! Z.to_nat i with Some r => Ok r | None => Err EUndefined end.
Definition put_cell (data : list cell) (i : Z) (c : cell) : result (list cell) :=
  if bool_decide (0 ≤ i < Z.of_nat (length data)) then Ok (<[Z.to_nat i := c]> data) else Err EUndefined.
(** The values of the rows that are there. *)
Fixpoint gather_data (ty : PhysicalType) (col_offset : Z) (copy_strings : bool) (rows : list (option row_ptr)) (row_sel col_sel : option (list Z)) (i : Z) (count : nat)
    (data : list cell) (mem : Blocks) : result (list cell) :=
  match count with
  | O => Ok data
  | S count =>
      r ← GetIndex row_sel i;
      row ← row_slot rows r;
      data ← match row with
             | None => Ok data
             | Some p => c ← gather_cell ty p col_offset mem; c ← copied copy_strings c; k ← GetIndex col_sel i; put_cell data k c
             end;
      gather_data ty col_offset copy_strings rows row_sel col_sel (i + 1) count data mem
  end.
(** The places to mark NULL. *)
Fixpoint null_slots (col_no : Z) (rows : list (option row_ptr)) (row_sel col_sel : option (list Z)) (i : Z) (count : nat) (mem : Blocks) : result (list Z) :=
  match count with
  | O => Ok []
  | S count =>
      r ← GetIndex row_sel i;
      row ← row_slot rows r;
      valid ← match row with None => Ok false | Some p => Row_RowIsValid p col_no mem end;
      slots ← (if (valid : bool) then Ok [] else k ← GetIndex col_sel i; Ok [k]);
      rest ← null_slots col_no rows row_sel col_sel (i + 1) count mem;
      Ok (slots ++ rest)
  end.
Fixpoint invalidate (slots : list Z) (m : ValidityMask) (allocated : bool) : ST Buffers ValidityMask :=
  match slots with
  | [] => mret m
  | k :: slots => m ← (if allocated then mret m else EnsureWritable STANDARD_VECTOR_SIZE m); m ← SetInvalidUnsafe k m; invalidate slots m true
  end.
(** [RowOperations::Gather] into a flat column. *)
Definition Gather (layout : RowLayout) (rows : list (option row_ptr)) (row_sel col_sel : option (list Z)) (count : nat) (col_no : nat) (copy_strings : bool)
    (col : list cell * option (list Z)) (mem : Blocks) : result (list cell * option (list Z)) :=
  if bool_decide (count = 0%nat) then Ok col else
  match rl_types layout !! col_no, rl_offsets layout !! col_no with
  | Some ty, Some off =>
      data ← gather_data ty off copy_strings rows row_sel col_sel 0 count col.1 mem;
      slots ← null_slots (Z.of_nat col_no) rows row_sel col_sel 0 count mem;
      mask ← with_mask (λ m, invalidate slots m false) col.2;
      Ok (data, mask)
  | _, _ => Err EUndefined
  end.
End gather.

(** [RowOperations::ScatterKeys]: number columns packed side by side, [key_stride] bytes per row. *)
Fixpoint scatter_keys (cols : list VectorData) (src_cols : list nat) (dst_offsets : list Z) (key_types : list PhysicalType) (ptrs : list (option row_ptr)) (idxs : list Z)
    (mem : Blocks) : result Blocks :=
  match src_cols, dst_offsets, key_types with
  | src :: src_cols, off :: dst_offsets, ty :: key_types =>
      col ← col_at cols src;
      if is_numeric ty then
        mem ← TemplatedScatter ty col ptrs off idxs mem;
        scatter_keys cols src_cols dst_offsets key_types ptrs idxs mem
      else Err (EException NOT_IMPLEMENTED "RowOperations::ScatterKeys: variable-length key columns are not supported")
  | [], _, _ => Ok mem
  | _, _, _ => Err EUndefined
  end.
Definition ScatterKeys (cols : list VectorData) (src_cols : list nat) (dst_offsets : list Z) (key_types : list PhysicalType) (out : row_ptr) (key_stride : Z) (count : nat)
    (mem : Blocks) : result Blocks :=
  if bool_decide (count = 0%nat) then Ok mem else
  let ptrs := (λ i, Some (out.1, out.2 + Z.of_nat i * key_stride)) <$> seq 0 count in
  scatter_keys cols src_cols dst_offsets key_types ptrs (Z.of_nat <$> seq 0 count) mem.

(** ** Match *)

(** One key column of one candidate. *)
Definition match_cell (ty : PhysicalType) (null_equal : bool) (col : VectorData) (col_row : Z) (p : row_ptr) (col_offset col_no : Z) (mem : Blocks) : result bool :=
  is_valid ← col_valid col col_row;
  row_valid ← Row_RowIsValid p col_no mem;
  if is_valid && row_valid then
    c ← col_cell col col_row;
    if is_numeric ty then
      bs ← row_load p col_offset (Z.of_nat (width ty)) mem; num_eq ty c (load_num ty bs)
    else
      match c with
      | CNum _ => Err EUndefined
      | CStr s =>
          '(off, len) ← load_handle p col_offset mem;
          if bool_decide (len = Z.of_nat (length s)) then t ← row_load p off len mem; Ok (bool_decide (memcmp t s = 0)) else Ok false
      end
  else Ok (null_equal && negb is_valid && negb row_valid).
(** Candidates are (position, row pointer slot, column row); the failures of a column are appended. *)
Fixpoint MatchColumn (ty : PhysicalType) (null_equal : bool) (col : VectorData) (rows : list (option row_ptr)) (row_sel col_sel : list Z)
    (col_offset col_no : Z) (cur : list Z) (mem : Blocks) : result (list Z * list Z) :=
  match cur with
  | [] => Ok ([], [])
  | cand :: cur =>
      r ← GetIndex (Some row_sel) cand;
      p ← ptr_at rows r;
      k ← GetIndex (Some col_sel) cand;
      equal ← match_cell ty null_equal col k p col_offset col_no mem;
      '(next, no_match) ← MatchColumn ty null_equal col rows row_sel col_sel col_offset col_no cur mem;
      Ok (if (equal : bool) then (cand :: next, no_match) else (next, cand :: no_match))
  end.
Fixpoint match_columns (types : list PhysicalType) (offsets : list Z) (null_equal : bool) (cols : list VectorData) (col_no : Z) (key_count : nat)
    (rows : list (option row_ptr)) (row_sel col_sel : list Z) (cur no_match : list Z) (mem : Blocks) {struct key_count} : result (list Z * list Z) :=
  match key_count with
  | O => Ok (cur, no_match)
  | S key_count =>
      if bool_decide (cur = []) then Ok (cur, no_match) else
      match types, offsets, cols with
      | ty :: types, off :: offsets, col :: cols =>
          if is_numeric ty || bool_decide (ty = STRING) then
            '(next, failed) ← MatchColumn ty null_equal col rows row_sel col_sel off col_no cur mem;
            match_columns types offsets null_equal cols (col_no + 1) key_count rows row_sel col_sel next (no_match ++ failed) mem
          else Err (EException NOT_IMPLEMENTED "RowOperations::Match: unsupported physical type")
      | _, _, _ => Err EUndefined
      end
  end.
(** [RowOperations::Match]: the candidates that match, in order, and those that do not. *)
Definition Match (cols : list VectorData) (layout : RowLayout) (key_count : nat) (rows : list (option row_ptr)) (row_sel col_sel : list Z)
    (count : nat) (null_equal : bool) (mem : Blocks) : result (list Z * list Z) :=
  if bool_decide (count = 0%nat) then Ok ([], []) else
  if negb (bool_decide (key_count ≤ length (rl_types layout) ∧ key_count ≤ length cols)%nat)
  then Err (EAssert "RowOperations::Match: the key prefix exceeds the layout") else
  match_columns (rl_types layout) (rl_offsets layout) null_equal cols 0 key_count rows row_sel col_sel (Z.of_nat <$> seq 0 count) [] mem.

(** * What a scattered row holds

    [Scatter] leaves in the memory of each row the values of its columns, touches no byte outside the rows,
    and [FullScanColumn] and [Match] read those values back. *)

(** ** Bytes of memory *)

Definition byte_at (mem : Blocks) (b : nat) (a : Z) : option byte :=
  if bool_decide (0 ≤ a) then match mem !! b with Some blk => blk !! Z.to_nat a | None => None end else None.
(** The [n] bytes from [p] on are in a block. *)
Definition in_mem (p : row_ptr) (n : Z) (mem : Blocks) : Prop :=
  ∃ blk, mem !! p.1 = Some blk ∧ 0 ≤ p.2 ∧ 0 ≤ n ∧ p.2 + n ≤ Z.of_nat (length blk).
Definition same_shape (mem mem' : Blocks) : Prop := length <$> mem' = length <$> mem.

Lemma in_mem_shape p n mem mem' : same_shape mem mem' → in_mem p n mem → in_mem p n mem'.
Proof.
  intros Hs (blk & Hb & H). assert ((length <$> mem) !! p.1 = Some (length blk)) as Hl by (by rewrite list_lookup_fmap, Hb).
  rewrite <- Hs, list_lookup_fmap in Hl. destruct (mem' !! p.1) as [blk'|] eqn:E; [|done]. injection Hl as Hl. exists blk'.
  split; [done|]. rewrite Hl. done.
Qed.

Lemma block_write_lookup buf off src n buf' i :
  mem_write buf off src n = Ok buf' → n = Z.of_nat (length src) →
  buf' !! i = if decide (off ≤ Z.of_nat i < off + n) then src !! (i - Z.to_nat off)%nat else buf !! i.
Proof. intros E Hn. rewrite (mem_write_lookup _ _ _ _ _ _ E). apply mem_write_inv in E. repeat case_decide; [done|lia|lia|done]. Qed.
(** A store changes exactly its bytes. *)
Lemma row_store_ok p off bs n mem :
  in_mem p n mem → 0 ≤ off → off + Z.of_nat (length bs) ≤ n →
  ∃ mem', row_store p off bs mem = Ok mem' ∧ same_shape mem mem' ∧
    ∀ b a, byte_at mem' b a =
      if decide (b = p.1 ∧ p.2 + off ≤ a < p.2 + off + Z.of_nat (length bs)) then bs !! Z.to_nat (a - (p.2 + off)) else byte_at mem b a.
Proof.
  intros (blk & Hb & H1 & H2 & H3) Ho Hn. unfold row_store. rewrite Hb.
  destruct (mem_write blk (p.2 + off) bs (Z.of_nat (length bs))) as [blk'|] eqn:E; [|rewrite mem_write_ok in E by lia; done].
  simpl. eexists. split; [done|]. pose proof (mem_write_length _ _ _ _ _ E) as Hlen. split.
  - unfold same_shape. rewrite list_fmap_insert, Hlen. apply list_insert_id. by rewrite list_lookup_fmap, Hb.
  - intros b a. unfold byte_at. destruct (decide (b = p.1)) as [->|Hne].
    + rewrite list_lookup_insert_eq by (by eapply lookup_lt_Some). rewrite Hb. case_bool_decide as Ha; [|rewrite decide_False; [done|lia]].
      rewrite (block_write_lookup _ _ _ _ _ _ E eq_refl). rewrite Z2Nat.id by done.
      repeat case_decide; try lia; try done. f_equal. lia.
    + rewrite list_lookup_insert_ne by done. rewrite (decide_False (P := _ ∧ _)) by (by intros [? _]). done.
Qed.
(** A load reads its bytes. *)
Lemma row_load_spec p off n mem bs :
  in_mem p (off + n) mem → 0 ≤ off → Z.of_nat (length bs) = n →
  (∀ i, (i < length bs)%nat → byte_at mem p.1 (p.2 + off + Z.of_nat i) = bs !! i) → row_load p off n mem = Ok bs.
Proof.
  intros (blk & Hb & H1 & H2 & H3) Ho Hl H. unfold row_load. rewrite Hb, bool_decide_true by lia. f_equal.
  unfold mem_read. apply list_eq. intros i. destruct (decide (i < length bs)%nat) as [Hi|Hi].
  - rewrite lookup_take_lt by lia. rewrite lookup_drop. rewrite <- H by done. unfold byte_at. rewrite Hb, bool_decide_true by lia. f_equal. lia.
  - rewrite lookup_take_ge by lia. symmetry. apply lookup_ge_None_2. lia.
Qed.
Lemma row_load_inv p off n mem bs :
  row_load p off n mem = Ok bs → 0 ≤ n ∧ 0 ≤ p.2 + off ∧ Z.of_nat (length bs) = n ∧
  ∀ i, (i < length bs)%nat → byte_at mem p.1 (p.2 + off + Z.of_nat i) = bs !! i.
Proof.
  unfold row_load. destruct (mem !! p.1) as [blk|] eqn:Hb; [|done]. case_bool_decide as H; [|done]. intros [= <-]. unfold mem_read.
  rewrite length_take, length_drop. split; [lia|]. split; [lia|]. split; [lia|]. intros i Hi. rewrite lookup_take_lt by lia. rewrite lookup_drop.
  unfold byte_at. rewrite Hb, bool_decide_true by lia. f_equal. lia.
Qed.

(** ** Regions *)

(** Bytes [0..n) of two pointers do not meet. *)
Definition apart (p : row_ptr) (n : Z) (q : row_ptr) (m : Z) : Prop := p.1 ≠ q.1 ∨ p.2 + n ≤ q.2 ∨ q.2 + m ≤ p.2.
Definition same_on (p : row_ptr) (n : Z) (mem mem' : Blocks) : Prop := ∀ a, p.2 ≤ a < p.2 + n → byte_at mem' p.1 a = byte_at mem p.1 a.
(** Nothing outside the region changes. *)
Definition only_in (p : row_ptr) (n : Z) (mem mem' : Blocks) : Prop :=
  same_shape mem mem' ∧ ∀ b a, ¬ (b = p.1 ∧ p.2 ≤ a < p.2 + n) → byte_at mem' b a = byte_at mem b a.
Lemma only_in_apart p n q m mem mem' : only_in p n mem mem' → apart p n q m → same_on q m mem mem'.
Proof. intros [_ H] Ha a Hq. apply H. intros [Hb Hp]. destruct Ha as [Ha|Ha]; [by symmetry in Hb|lia]. Qed.
Lemma only_in_refl p n mem : only_in p n mem mem.
Proof. done. Qed.
Lemma only_in_trans p n m1 m2 m3 : only_in p n m1 m2 → only_in p n m2 m3 → only_in p n m1 m3.
Proof. intros [H1 H2] [H3 H4]. split; [by unfold same_shape in *; rewrite H3|]. intros b a H. rewrite H4, H2 by done. done. Qed.
Lemma row_store_only_in p off bs n mem mem' :
  in_mem p n mem → 0 ≤ off → off + Z.of_nat (length bs) ≤ n → row_store p off bs mem = Ok mem' → only_in p n mem mem'.
Proof.
  intros Hm Ho Hl E. destruct (row_store_ok p off bs n mem Hm Ho Hl) as (m & E' & Hs & Hb). rewrite E in E'. injection E' as <-.
  split; [done|]. intros b a H. rewrite Hb. rewrite decide_False; [done|]. intros [-> Ha]. apply H. split; [done|lia].
Qed.

(** A loop over rows in regions of their own: what holds of each row before its turn and after. *)
Section loops.
Context (ptr : Z → row_ptr) (size : Z → Z).
Abbreviation local P := (∀ idx mem mem', same_on (ptr idx) (size idx) mem mem' → same_shape mem mem' → P idx mem → P idx mem').
Definition only_rows (idxs : list Z) (mem mem' : Blocks) : Prop :=
  same_shape mem mem' ∧ ∀ b a, (∀ idx, idx ∈ idxs → ¬ (b = (ptr idx).1 ∧ (ptr idx).2 ≤ a < (ptr idx).2 + size idx)) → byte_at mem' b a = byte_at mem b a.
Definition rows_apart (idxs : list Z) : Prop :=
  ∀ i j, i ∈ idxs → j ∈ idxs → i ≠ j → apart (ptr i) (size i) (ptr j) (size j).

Lemma only_rows_on idxs mem mem' p n : only_rows idxs mem mem' → (∀ i, i ∈ idxs → apart (ptr i) (size i) p n) → same_on p n mem mem'.
Proof. intros [_ H] Ha a Hp. apply H. intros idx Hi [Hb Hr]. destruct (Ha idx Hi) as [Hn|Hn]; [by symmetry in Hb|lia]. Qed.
Lemma only_rows_cons idx idxs m1 m2 m3 : only_in (ptr idx) (size idx) m1 m2 → only_rows idxs m2 m3 → only_rows (idx :: idxs) m1 m3.
Proof.
  intros [H1 H2] [H3 H4]. split; [by unfold same_shape in *; rewrite H3|]. intros b a H. rewrite H4 by set_solver. apply H2. apply H. set_solver.
Qed.
Lemma only_rows_trans idxs m1 m2 m3 : only_rows idxs m1 m2 → only_rows idxs m2 m3 → only_rows idxs m1 m3.
Proof. intros [H1 H2] [H3 H4]. split; [by unfold same_shape in *; rewrite H3|]. intros b a H. rewrite H4, H2 by done. done. Qed.
Lemma rows_apart_cons idx idxs : NoDup (idx :: idxs) → rows_apart (idx :: idxs) →
  rows_apart idxs ∧ (∀ i, i ∈ idxs → apart (ptr i) (size i) (ptr idx) (size idx) ∧ apart (ptr idx) (size idx) (ptr i) (size i)).
Proof.
  intros [Hn _]%NoDup_cons H. split; [intros i j Hi Hj; apply H; set_solver|].
  intros i Hi. assert (i ≠ idx) by (by intros ->). split; apply H; set_solver.
Qed.

Lemma over_rows_cursor_ok (P Q : Z → Blocks → Prop) (cur cur' : Z → Z) f idxs mem :
  local P → local Q →
  (∀ idx mem, idx ∈ idxs → P idx mem → ∃ mem', f idx (cur idx) mem = Ok (mem', cur' idx) ∧ Q idx mem' ∧ only_in (ptr idx) (size idx) mem mem') →
  NoDup idxs → rows_apart idxs → (∀ idx, idx ∈ idxs → P idx mem) →
  ∃ mem', over_rows_cursor f idxs (cur <$> idxs) mem = Ok (mem', cur' <$> idxs) ∧ (∀ idx, idx ∈ idxs → Q idx mem') ∧ only_rows idxs mem mem'.
Proof.
  intros LP LQ Hf. revert mem. induction idxs as [|idx idxs IH]; intros mem Hnd Hap HP.
  { exists mem. split; [done|]. split; [set_solver|done]. }
  destruct (rows_apart_cons _ _ Hnd Hap) as [Hap' Hsep]. pose proof Hnd as [_ Hnd']%NoDup_cons.
  destruct (Hf idx mem ltac:(set_solver) (HP idx ltac:(set_solver))) as (m1 & E1 & HQ & Ho).
  destruct (IH ltac:(intros; apply Hf; set_solver) m1 Hnd' Hap') as (m2 & E2 & HQ2 & Ho2).
  { intros i Hi. apply (LP i mem); [by eapply only_in_apart, Hsep|apply Ho|apply HP; set_solver]. }
  exists m2. split; [rewrite !fmap_cons; cbn [over_rows_cursor]; rewrite E1; cbn [mbind result_bind]; by rewrite E2|].
  split; [|by eapply only_rows_cons].
  intros i [->|Hi]%elem_of_cons; [|by apply HQ2]. apply (LQ idx m1); [|apply Ho2|done]. eapply only_rows_on; [done|]. intros i Hi. by apply Hsep.
Qed.
Lemma over_rows_ok (P Q : Z → Blocks → Prop) f idxs mem :
  local P → local Q →
  (∀ idx mem, idx ∈ idxs → P idx mem → ∃ mem', f idx mem = Ok mem' ∧ Q idx mem' ∧ only_in (ptr idx) (size idx) mem mem') →
  NoDup idxs → rows_apart idxs → (∀ idx, idx ∈ idxs → P idx mem) →
  ∃ mem', over_rows f idxs mem = Ok mem' ∧ (∀ idx, idx ∈ idxs → Q idx mem') ∧ only_rows idxs mem mem'.
Proof.
  intros LP LQ Hf Hnd Hap HP.
  destruct (over_rows_cursor_ok P Q (λ _, 0) (λ _, 0) (λ idx _ mem, mem ← f idx mem; Ok (mem, 0)) idxs mem LP LQ) as (m & E & H & Ho); [|done|done|done|].
  { intros idx m Hi Hp. destruct (Hf idx m Hi Hp) as (m' & -> & H). by exists m'. }
  exists m. split; [|done]. clear -E. revert E. generalize ((λ _ : Z, 0) <$> idxs) at 2. intros cs. revert mem m cs.
  induction idxs as [|idx idxs IH]; intros mem m cs E; [by injection E as ->|]. rewrite fmap_cons in E. cbn [over_rows_cursor over_rows] in *.
  destruct (f idx mem) as [m1|]; cbn [mbind result_bind] in *; [|done].
  destruct (over_rows_cursor _ _ _ m1) as [[m2 cs2]|] eqn:E2; [|done]. injection E as -> _. by eapply IH.
Qed.
End loops.

(** ** Loads after stores *)

Lemma row_load_same p off n mem mem' :
  same_shape mem mem' → (∀ a, p.2 + off ≤ a < p.2 + off + n → byte_at mem' p.1 a = byte_at mem p.1 a) → row_load p off n mem' = row_load p off n mem.
Proof.
  intros Hs H. assert ((length <$> mem') !! p.1 = (length <$> mem) !! p.1) as Hl by (by rewrite Hs). rewrite !list_lookup_fmap in Hl.
  unfold row_load. destruct (mem !! p.1) as [blk|] eqn:E, (mem' !! p.1) as [blk'|] eqn:E'; try done. injection Hl as Hl. rewrite Hl.
  case_bool_decide as Hr; [|done]. f_equal. unfold mem_read. apply list_eq. intros i. destruct (decide (Z.of_nat i < n)).
  - rewrite !lookup_take_lt by lia. rewrite !lookup_drop. specialize (H (p.2 + off + Z.of_nat i) ltac:(lia)). unfold byte_at in H.
    rewrite E, E', bool_decide_true in H by lia. replace (Z.to_nat (p.2 + off) + i)%nat with (Z.to_nat (p.2 + off + Z.of_nat i)) by lia. done.
  - rewrite !lookup_take_ge by lia. done.
Qed.
(** What a store inside a region does to the loads of the region. *)
Lemma row_store_loads p off bs n mem :
  in_mem p n mem → 0 ≤ off → off + Z.of_nat (length bs) ≤ n →
  ∃ mem', row_store p off bs mem = Ok mem' ∧ only_in p n mem mem' ∧ row_load p off (Z.of_nat (length bs)) mem' = Ok bs ∧
    ∀ o k, (o + k ≤ off ∨ off + Z.of_nat (length bs) ≤ o) → row_load p o k mem' = row_load p o k mem.
Proof.
  intros Hm Ho Hn. destruct (row_store_ok p off bs n mem Hm Ho Hn) as (m & E & Hs & Hb). exists m. split; [done|].
  split; [by eapply row_store_only_in|]. split.
  - apply row_load_spec; [|done|done|].
    + apply (in_mem_shape _ _ mem); [done|]. destruct Hm as (blk & Hb' & H). exists blk. split; [done|lia].
    + intros i Hi. rewrite Hb, decide_True by (split; [done|lia]). f_equal. lia.
  - intros o k Hd. apply row_load_same; [done|]. intros a Ha. rewrite Hb. rewrite decide_False; [done|]. intros [_ H]. lia.
Qed.

(** ** Layouts *)

Definition scalar (ty : PhysicalType) : bool := is_numeric ty || bool_decide (ty = STRING).
Definition slot_width (ty : PhysicalType) : Z := if is_numeric ty then Z.of_nat (width ty) else HANDLE_SIZE.
Lemma column_width_scalar ty : scalar ty = true → column_width ty = Ok (slot_width ty).
Proof. by destruct ty. Qed.
Lemma slot_width_pos ty : 0 ≤ slot_width ty.
Proof. by destruct ty. Qed.

Record layout_ok (l : RowLayout) : Prop := {
  lo_scalar : Forall (λ ty, scalar ty = true) (rl_types l);
  lo_length : length (rl_offsets l) = length (rl_types l);
  lo_flags : ∀ c, (c < length (rl_types l))%nat → 0 ≤ flag_byte (Z.of_nat c) < rl_flag_width l;
  lo_low : ∀ c off, rl_offsets l !! c = Some off → rl_flag_width l ≤ off;
  lo_high : ∀ c off ty, rl_offsets l !! c = Some off → rl_types l !! c = Some ty → off + slot_width ty ≤ rl_fixed_width l;
  lo_order : ∀ c c' off off' ty, (c < c')%nat → rl_offsets l !! c = Some off → rl_offsets l !! c' = Some off' → rl_types l !! c = Some ty → off + slot_width ty ≤ off';
  lo_flag_width : 0 ≤ rl_flag_width l ≤ rl_fixed_width l;
  lo_constant : rl_all_constant l = forallb IsConstantSize (rl_types l) }.

Lemma AlignValue_ge n : 0 ≤ n → n ≤ AlignValue n < n + 8.
Proof.
  intros H. assert (AlignValue n = (n + 7) / 8 * 8) as ->.
  { unfold AlignValue. change (Z.lnot 7) with (Z.lnot (Z.ones 3)). rewrite <- Z.ldiff_land, Z.ldiff_ones_r by lia.
    by rewrite Z.shiftl_mul_pow2, Z.shiftr_div_pow2 by lia. }
  pose proof (Z.div_mod (n + 7) 8 ltac:(lia)). pose proof (Z.mod_pos_bound (n + 7) 8 ltac:(lia)). lia.
Qed.
Lemma layout_offsets_ok types w :
  Forall (λ ty, scalar ty = true) types → 0 ≤ w →
  ∃ offs w', layout_offsets types w = Ok (offs, w') ∧ length offs = length types ∧ w ≤ w' ∧
    (∀ c off, offs !! c = Some off → w ≤ off) ∧
    (∀ c off ty, offs !! c = Some off → types !! c = Some ty → off + slot_width ty ≤ w') ∧
    (∀ c c' off off' ty, (c < c')%nat → offs !! c = Some off → offs !! c' = Some off' → types !! c = Some ty → off + slot_width ty ≤ off').
Proof.
  intros H. revert w. induction H as [|ty types Hty Ht IH]; intros w Hw; [by exists [], w; repeat split|].
  pose proof (slot_width_pos ty). destruct (IH (w + slot_width ty) ltac:(lia)) as (offs & w' & E & Hl & Hle & H1 & H2 & H3).
  exists (w :: offs), w'. cbn [layout_offsets]. rewrite (column_width_scalar ty Hty). cbn [mbind result_bind]. rewrite E.
  split; [done|]. split; [simpl; lia|]. split; [lia|]. split; [|split].
  - intros [|c] off Hc; simplify_eq/=; [lia|]. specialize (H1 c off Hc). lia.
  - intros [|c] off ty' Hc Hty'; simplify_eq/=; [lia|]. by eapply H2.
  - intros [|c] [|c'] off off' ty' Hlt Hc Hc' Hty'; simplify_eq/=; try lia; [by eapply H1|]. eapply (H3 c c'); [lia|done..].
Qed.
(** [Initialize] lays scalar columns out one after the other behind the validity prefix. *)
Lemma Layout_Initialize_ok types :
  Forall (λ ty, scalar ty = true) types → ∃ l, Layout_Initialize types = Ok l ∧ layout_ok l ∧ rl_types l = types.
Proof.
  intros H. unfold Layout_Initialize. set (fw := if bool_decide (types = []) then 0 else _).
  assert (0 ≤ fw) as Hfw by (unfold fw; case_bool_decide; [lia|apply Z.div_pos; lia]).
  destruct (layout_offsets_ok types fw H Hfw) as (offs & w' & E & Hl & Hle & H1 & H2 & H3). rewrite E. simpl. eexists. split; [done|].
  pose proof (AlignValue_ge w' ltac:(lia)) as Ha. split; [|done]. split; simpl; try done.
  - intros c Hc. unfold flag_byte, fw. rewrite bool_decide_false by (by intros ->; simpl in Hc; lia). rewrite Z.shiftr_div_pow2 by lia. change (2 ^ 3) with 8.
    split; [apply Z.div_pos; lia|]. apply Z.div_lt_upper_bound; [lia|]. pose proof (Z.div_mod (Z.of_nat (length types) + 7) 8 ltac:(lia)).
    pose proof (Z.mod_pos_bound (Z.of_nat (length types) + 7) 8 ltac:(lia)). lia.
  - intros c off ty Hc Ht. specialize (H2 c off ty Hc Ht). lia.
  - lia.
Qed.
