(* ===== verification/RowScatter.v ===== *)
(** * [Scatter] and the readers of rows *)

From Stdlib Require Import Floats.SpecFloat.
From S2P Require Import Prelude TablePage TableHeap BTreePage BPlusTree GenericKey StringHeap ValidityMask SortKey VectorOps SortKeyOrder RowFormat.

(** ** What a row in memory holds *)

Definition payload_len (v : option cell) : Z := match v with Some (CStr s) => Z.of_nat (length s) | _ => 0 end.
Definition payload (row : list (option cell)) : Z := foldr (λ v n, payload_len v + n) 0 row.
Lemma payload_nonneg row : 0 ≤ payload row.
Proof. induction row as [|[[]|] row IH]; simpl; lia. Qed.
Lemma payload_take_S row k v : row !! k = Some v → payload (take (S k) row) = payload (take k row) + payload_len v.
Proof. revert k. induction row as [|x row IH]; intros [|k] H; simplify_eq/=; [lia|]. rewrite (IH k H). lia. Qed.
Lemma payload_take_le row k : payload (take k row) ≤ payload row.
Proof.
  rewrite <- (take_drop k row) at 2. induction (take k row) as [|x l IH]; simpl; [apply payload_nonneg|lia].
Qed.

(** A value in memory: a number in place, a string behind a handle whose payload ends before [limit]; a
    NULL string has an empty payload. *)
Definition string_of (v : option cell) : list byte := match v with Some (CStr s) => s | _ => [] end.
Definition cell_stored (p : row_ptr) (ty : PhysicalType) (off fixed limit : Z) (v : option cell) (mem : Blocks) : Prop :=
  if is_numeric ty then
    match v with Some (CNum z) => row_load p off (Z.of_nat (width ty)) mem = Ok (le_bytes (width ty) z) | _ => True end
  else
    let len := Z.of_nat (length (string_of v)) in
    ∃ h, fixed ≤ h ∧ h + len ≤ limit ∧ limit < 2 ^ 32 ∧ row_load p off HANDLE_SIZE mem = Ok (handle_bytes h len) ∧ row_load p h len mem = Ok (string_of v).
Definition flag_stored (p : row_ptr) (c : nat) (valid : bool) (mem : Blocks) : Prop :=
  ∃ b, row_load p (flag_byte (Z.of_nat c)) 1 mem = Ok [b] ∧ bool_decide (Z.land (byte_val b) (flag_bit (Z.of_nat c)) ≠ 0) = valid.

Section rows.
Context (layout : RowLayout) (L : layout_ok layout).
Definition row_size (row : list (option cell)) : Z := rl_fixed_width layout + payload row.
Definition cursor_at (k : nat) (row : list (option cell)) : Z := rl_fixed_width layout + payload (take k row).
Definition is_some (v : option cell) : bool := match v with Some _ => true | None => false end.

(** The flags of a row, and its first [k] columns. *)
Definition flags_ok (p : row_ptr) (row : list (option cell)) (mem : Blocks) : Prop :=
  ∀ c v, row !! c = Some v → flag_stored p c (is_some v) mem.
Definition cells_ok (k : nat) (p : row_ptr) (row : list (option cell)) (mem : Blocks) : Prop :=
  ∀ c ty off v, (c < k)%nat → rl_types layout !! c = Some ty → rl_offsets layout !! c = Some off → row !! c = Some v →
    cell_stored p ty off (rl_fixed_width layout) (cursor_at k row) v mem.
(** The row is in memory. *)
Definition holds_row (p : row_ptr) (row : list (option cell)) (mem : Blocks) : Prop :=
  length row = length (rl_types layout) ∧ in_mem p (row_size row) mem ∧ flags_ok p row mem ∧ cells_ok (length row) p row mem.

Lemma cursor_bounds k row : rl_fixed_width layout ≤ cursor_at k row ≤ row_size row.
Proof. unfold cursor_at, row_size. pose proof (payload_take_le row k). pose proof (payload_nonneg (take k row)). lia. Qed.

(** Only the bytes of the row matter. *)
Lemma flag_stored_local p n c v mem mem' :
  same_on p n mem mem' → same_shape mem mem' → 0 ≤ flag_byte (Z.of_nat c) < n → flag_stored p c v mem → flag_stored p c v mem'.
Proof. intros H Hs Hn (b & Hl & Hb). exists b. split; [|done]. rewrite <- Hl. apply row_load_same; [done|]. intros a Ha. apply H. lia. Qed.
Lemma cell_stored_local p n ty off fixed limit v mem mem' :
  same_on p n mem mem' → same_shape mem mem' → 0 ≤ off → off + slot_width ty ≤ n → 0 ≤ fixed → limit ≤ n →
  cell_stored p ty off fixed limit v mem → cell_stored p ty off fixed limit v mem'.
Proof.
  intros H Hs H0 H1 H2 H3. assert (∀ o k, 0 ≤ o → o + k ≤ n → row_load p o k mem' = row_load p o k mem) as Hl.
  { intros o k Ho Hok. apply row_load_same; [done|]. intros a Ha. apply H. lia. }
  unfold slot_width in H1. unfold cell_stored. destruct (is_numeric ty).
  - destruct v as [[z|s]|]; [|done..]. by rewrite Hl by lia.
  - intros (h & ? & ? & ? & E1 & E2). exists h. rewrite !Hl by lia. done.
Qed.
(** A row has values of the types of its columns. *)
Definition value_ok (ty : PhysicalType) (v : option cell) : Prop :=
  match v with Some (CNum _) => is_numeric ty = true | Some (CStr _) => ty = STRING | None => True end.
Definition typed_row (row : list (option cell)) : Prop := Forall2 value_ok (rl_types layout) row.
Lemma typed_value row c ty v : typed_row row → rl_types layout !! c = Some ty → row !! c = Some v → value_ok ty v.
Proof. intros H. by apply Forall2_lookup_lr. Qed.
Lemma typed_scalar c ty : rl_types layout !! c = Some ty → scalar ty = true.
Proof. intros H. pose proof (lo_scalar _ L) as HF. rewrite Forall_lookup in HF. by eapply HF. Qed.

Lemma flags_ok_local p n row mem mem' :
  same_on p n mem mem' → same_shape mem mem' → length row = length (rl_types layout) → rl_flag_width layout ≤ n → flags_ok p row mem → flags_ok p row mem'.
Proof.
  intros H Hs Hl Hn HF c v Hc. eapply flag_stored_local; [done|done| |by apply HF]. pose proof (lo_flags _ L c) as Hf.
  apply lookup_lt_Some in Hc. lia.
Qed.
Lemma cells_ok_local k p n row mem mem' :
  same_on p n mem mem' → same_shape mem mem' → typed_row row → row_size row ≤ n → cells_ok k p row mem → cells_ok k p row mem'.
Proof.
  intros H Hs Ht Hn HC c ty off v Hk Hty Ho Hv. pose proof (cursor_bounds k row). pose proof (lo_high _ L _ _ _ Ho Hty). pose proof (lo_low _ L _ _ Ho).
  pose proof (lo_flag_width _ L). pose proof (payload_nonneg row). unfold row_size in *.
  eapply (cell_stored_local p n); [done|done|lia|lia|lia|lia|by eapply (HC c)].
Qed.
Lemma holds_row_local p row mem mem' : same_on p (row_size row) mem mem' → same_shape mem mem' → typed_row row → holds_row p row mem → holds_row p row mem'.
Proof.
  intros H Hs Ht (Hl & Hm & HF & HC). split; [done|]. split; [by eapply in_mem_shape|]. pose proof (lo_flag_width _ L). pose proof (payload_nonneg row).
  split; [eapply flags_ok_local; [done|done|done|unfold row_size; lia|done]|by eapply cells_ok_local].
Qed.
End rows.

(** ** The flags *)

Lemma flag_testbit x c : 0 ≤ c → bool_decide (Z.land x (flag_bit c) ≠ 0) = Z.testbit x (Z.land c 7).
Proof.
  intros Hc. unfold flag_bit. assert (0 ≤ Z.land c 7) as H by (apply Z.land_nonneg; lia). set (k := Z.land c 7) in *.
  rewrite Z.shiftl_1_l. destruct (Z.testbit x k) eqn:E.
  - apply bool_decide_eq_true. intros H0. assert (Z.testbit (Z.land x (2 ^ k)) k = true) as Ht by (rewrite Z.land_spec, E, Z.pow2_bits_true by done; done).
    by rewrite H0, Z.bits_0 in Ht.
  - apply bool_decide_eq_false. intros H0. apply H0. apply Z.bits_inj'. intros n Hn. rewrite Z.land_spec, Z.bits_0.
    destruct (decide (n = k)) as [->|Hne]; [by rewrite E|]. rewrite Z.pow2_bits_false by lia. apply andb_false_r.
Qed.
Lemma clear_testbit b c c' :
  0 ≤ c → 0 ≤ c' → Z.testbit (byte_val (byte_of (Z.land (byte_val b) (Z.lnot (flag_bit c))))) (Z.land c' 7)
    = Z.testbit (byte_val b) (Z.land c' 7) && negb (bool_decide (Z.land c 7 = Z.land c' 7)).
Proof.
  intros Hc Hc'. pose proof (byte_val_range b) as Hb. assert (∀ x, 0 ≤ Z.land x 7 < 8) as Hr.
  { intros x. change 7 with (Z.ones 3). rewrite Z.land_ones by lia. apply Z.mod_pos_bound. lia. }
  rewrite byte_of_val. change 256 with (2 ^ 8). rewrite Z.mod_pow2_bits_low by apply Hr. rewrite Z.land_spec, Z.lnot_spec by apply Hr. f_equal. unfold flag_bit. rewrite Z.shiftl_1_l.
  pose proof (Hr c). pose proof (Hr c'). case_bool_decide as E; [rewrite E, Z.pow2_bits_true by lia; done|]. by rewrite Z.pow2_bits_false by lia.
Qed.

(** ** Scatter *)

(** A row of a column: its value, and an element of the column's type under it (also below a NULL). *)
Definition reads (ty : PhysicalType) (col : VectorData) (idx : Z) (v : option cell) : Prop :=
  ∃ x, col_valid col idx = Ok (is_some v) ∧ col_cell col idx = Ok x ∧ value_ok ty (Some x) ∧ (∀ y, v = Some y → y = x).

Section scatter.
Context (layout : RowLayout) (L : layout_ok layout).
Context (cols : list VectorData) (ptrs : list (option row_ptr)) (idxs : list Z).
Context (ptr : Z → row_ptr) (rowv : Z → list (option cell)).
Abbreviation ncols := (length (rl_types layout)).
Abbreviation size := (λ idx, row_size layout (rowv idx)).
Abbreviation sz idx := (row_size layout (rowv idx)).
Context (Hcols : length cols = ncols).
Context (Hptr : ∀ idx, idx ∈ idxs → ptr_at ptrs idx = Ok (ptr idx)).
Context (Hrows : ∀ idx, idx ∈ idxs → length (rowv idx) = ncols).
Context (Hread : ∀ idx c ty col, idx ∈ idxs → rl_types layout !! c = Some ty → cols !! c = Some col → ∃ v, rowv idx !! c = Some v ∧ reads ty col idx v).
Context (Hsize : ∀ idx, idx ∈ idxs → row_size layout (rowv idx) < 2 ^ 32).
Context (Hnd : NoDup idxs) (Hap : rows_apart ptr size idxs).

Lemma rowv_typed idx : idx ∈ idxs → typed_row layout (rowv idx).
Proof.
  intros Hi. apply Forall2_same_length_lookup. split; [by rewrite Hrows|]. intros c ty v Hty Hv.
  destruct (lookup_lt_is_Some_2 cols c) as [col Hc]; [rewrite Hcols; by eapply lookup_lt_Some|].
  destruct (Hread idx c ty col Hi Hty Hc) as (v' & Hv' & x & _ & _ & Hk & Hx). rewrite Hv in Hv'. injection Hv' as <-.
  destruct v as [y|]; [|done]. by rewrite (Hx y eq_refl).
Qed.
Lemma size_fixed idx : rl_flag_width layout ≤ rl_fixed_width layout ≤ sz idx.
Proof. unfold row_size. pose proof (payload_nonneg (rowv idx)). pose proof (lo_flag_width _ L). lia. Qed.

(** Flags: the first [j] columns as the rows say, the others set. *)
Definition flags_upto (j : nat) (idx : Z) (mem : Blocks) : Prop :=
  in_mem (ptr idx) (sz idx) mem ∧
  ∀ c v, rowv idx !! c = Some v → flag_stored (ptr idx) c (if decide (c < j)%nat then is_some v else true) mem.
Lemma in_rows_local : ∀ idx mem mem', same_on (ptr idx) (sz idx) mem mem' → same_shape mem mem' → in_mem (ptr idx) (sz idx) mem → in_mem (ptr idx) (sz idx) mem'.
Proof. intros idx mem mem' _ Hs. by apply in_mem_shape. Qed.
Lemma flags_upto_local j idx mem mem' :
  idx ∈ idxs → same_on (ptr idx) (sz idx) mem mem' → same_shape mem mem' → flags_upto j idx mem → flags_upto j idx mem'.
Proof.
  intros Hi H Hs [Hm HF]. split; [by eapply in_mem_shape|]. intros c v Hc. eapply flag_stored_local; [done|done| |by apply HF].
  pose proof (lo_flags _ L c) as Hf. apply lookup_lt_Some in Hc. rewrite Hrows in Hc by done. pose proof (size_fixed idx). lia.
Qed.

Lemma set_all_valid_ok mem :
  (∀ idx, idx ∈ idxs → in_mem (ptr idx) (sz idx) mem) → rl_flag_width layout ≠ 0 →
  ∃ mem', set_all_valid ptrs (rl_flag_width layout) idxs mem = Ok mem' ∧ (∀ idx, idx ∈ idxs → flags_upto 0 idx mem') ∧ only_rows ptr size idxs mem mem'.
Proof.
  intros Hm Hfw. pose proof (lo_flag_width _ L) as Hw.
  destruct (over_rows_ok ptr size (λ idx mem, in_mem (ptr idx) (sz idx) mem) (λ idx mem, idx ∈ idxs → flags_upto 0 idx mem)
    (λ idx mem, p ← ptr_at ptrs idx; RowSetAllValid p (rl_flag_width layout) mem) idxs mem) as (m & E & H & Ho).
  - apply in_rows_local.
  - intros idx m m' Hs1 Hs2 HP Hi. apply (flags_upto_local 0 idx m); [done..|by apply HP].
  - intros idx m Hi Him. rewrite Hptr by done. simpl. unfold RowSetAllValid. rewrite bool_decide_false by done.
    pose proof (size_fixed idx) as Hsz. simpl in Hsz.
    destruct (row_store_ok (ptr idx) 0 (replicate (Z.to_nat (rl_flag_width layout)) Byte.xff) (sz idx) m Him) as (m' & E & Hsh & Hb);
      [lia|rewrite length_replicate; lia|]. exists m'. split; [done|]. split.
    + intros _. split; [by eapply in_mem_shape|]. intros c v Hc. rewrite decide_False by lia. apply lookup_lt_Some in Hc. rewrite Hrows in Hc by done.
      pose proof (lo_flags _ L c Hc) as Hf. exists Byte.xff. split.
      * apply row_load_spec; [|lia|done|].
        { eapply in_mem_shape; [done|]. destruct Him as (blk & Hblk & Him). exists blk. split; [done|]. simpl in Him. lia. }
        intros i Hi'. simpl in Hi'. assert (i = 0%nat) as -> by lia. rewrite Hb, length_replicate, decide_True by (split; [done|lia]).
        rewrite lookup_replicate_2 by lia. done.
      * rewrite flag_testbit by lia. change (byte_val Byte.xff) with (Z.ones 8). apply Z.ones_spec_low.
        change 7 with (Z.ones 3). rewrite Z.land_ones by lia. apply Z.mod_pos_bound. lia.
    + eapply row_store_only_in; [done| | |done]; [lia|rewrite length_replicate; lia].
  - done.
  - done.
  - done.
  - exists m. split; [done|]. split; [|done]. intros idx Hi. by apply H.
Qed.

(** Clearing the bit of one column of one row. *)
Lemma clear_one j idx mem :
  idx ∈ idxs → rowv idx !! j = Some None → flags_upto j idx mem →
  ∃ mem', RowSetInvalid (ptr idx) (Z.of_nat j) mem = Ok mem' ∧ flags_upto (S j) idx mem' ∧ only_in (ptr idx) (sz idx) mem mem'.
Proof.
  intros Hi Hj [Hm HF]. pose proof (size_fixed idx) as Hsz. assert (j < ncols)%nat as Hlt by (rewrite <- (Hrows idx Hi); by eapply lookup_lt_Some).
  pose proof (lo_flags _ L j Hlt) as Hf. unfold RowSetInvalid. destruct (HF j None Hj) as (b & Hb & _). rewrite Hb. cbn [mbind result_bind map].
  set (b' := byte_of _). destruct (row_store_loads (ptr idx) (flag_byte (Z.of_nat j)) [b'] (sz idx) mem Hm) as (m' & E & Ho & Hl & Hother); [lia|simpl; lia|].
  exists m'. split; [done|]. split; [|done]. split; [eapply in_mem_shape; [apply Ho|done]|]. intros c v Hc.
  destruct (HF c v Hc) as (bc & Hbc & Hv). rewrite flag_testbit in Hv by lia.
  destruct (decide (flag_byte (Z.of_nat c) = flag_byte (Z.of_nat j))) as [Hsame|Hdiff].
  - rewrite Hsame, Hb in Hbc. injection Hbc as <-. exists b'. rewrite Hsame. split; [done|]. rewrite flag_testbit by lia. unfold b'.
    rewrite clear_testbit by lia. rewrite Hv. case_bool_decide as Hlow; simpl.
    + assert (c = j) as ->.
      { unfold flag_byte in Hsame. change 7 with (Z.ones 3) in Hlow. rewrite !Z.land_ones in Hlow by lia. rewrite !Z.shiftr_div_pow2 in Hsame by lia.
        pose proof (Z.div_mod (Z.of_nat c) (2 ^ 3) ltac:(lia)). pose proof (Z.div_mod (Z.of_nat j) (2 ^ 3) ltac:(lia)). lia. }
      rewrite Hj in Hc. injection Hc as <-. rewrite (decide_True (P := (j < S j)%nat)) by lia. apply andb_false_r.
    + rewrite andb_true_r. assert (c ≠ j) by (by intros ->). repeat case_decide; try done; lia.
  - exists bc. split; [|rewrite flag_testbit by lia; rewrite Hv; assert (c ≠ j) by (by intros ->); repeat case_decide; try done; lia].
    rewrite <- Hbc. apply Hother. simpl. lia.
Qed.
Lemma flags_upto_S j idx mem v : rowv idx !! j = Some v → is_some v = true → flags_upto j idx mem → flags_upto (S j) idx mem.
Proof.
  intros Hj Hv [Hm HF]. split; [done|]. intros c v' Hc. specialize (HF c v' Hc). destruct (decide (c = j)) as [->|Hne].
  - rewrite Hj in Hc. injection Hc as <-. rewrite decide_False in HF by lia. rewrite decide_True by lia. by rewrite Hv.
  - repeat case_decide; try done; lia.
Qed.
Lemma clear_columns_ok cs j mem :
  drop j cols = cs → (∀ idx, idx ∈ idxs → flags_upto j idx mem) →
  ∃ mem', clear_columns cs (Z.of_nat j) ptrs idxs mem = Ok mem' ∧ (∀ idx, idx ∈ idxs → flags_upto (j + length cs) idx mem') ∧ only_rows ptr size idxs mem mem'.
Proof.
  revert j mem. induction cs as [|col cs IH]; intros j mem Hd HF.
  { exists mem. split; [done|]. split; [|done]. intros idx Hi. rewrite Nat.add_0_r. by apply HF. }
  assert (cols !! j = Some col) as Hc by (rewrite <- (Nat.add_0_r j), <- lookup_drop, Hd; done).
  assert (drop (S j) cols = cs) as Hd' by (rewrite <- (drop_drop cols j 1) || rewrite <- Nat.add_1_r, <- drop_drop; by rewrite Hd).
  destruct (lookup_lt_is_Some_2 (rl_types layout) j) as [ty Hty]; [rewrite <- Hcols; by eapply lookup_lt_Some|].
  assert (∃ m1, match vd_validity col with None => Ok mem | Some _ => clear_column col (Z.of_nat j) ptrs idxs mem end = Ok m1 ∧
    (∀ idx, idx ∈ idxs → flags_upto (S j) idx m1) ∧ only_rows ptr size idxs mem m1) as (m1 & E1 & HF1 & Ho1).
  { destruct (vd_validity col) as [ws|] eqn:Hval.
    - unfold clear_column. destruct (over_rows_ok ptr size (λ idx mem, idx ∈ idxs → flags_upto j idx mem) (λ idx mem, idx ∈ idxs → flags_upto (S j) idx mem)
        (λ idx mem, valid ← col_valid col idx; if (valid : bool) then Ok mem else p ← ptr_at ptrs idx; RowSetInvalid p (Z.of_nat j) mem) idxs mem) as (m & E & H & Ho); try done.
      + intros idx m m' Hs1 Hs2 HP Hi. apply (flags_upto_local j idx m); [done..|by apply HP].
      + intros idx m m' Hs1 Hs2 HP Hi. apply (flags_upto_local (S j) idx m); [done..|by apply HP].
      + intros idx m Hi HP. destruct (Hread idx j ty col Hi Hty Hc) as (v & Hv & x & Hcv & _). rewrite Hcv. cbn [mbind result_bind].
        destruct v as [y|]; simpl.
        * exists m. split; [done|]. split; [|apply only_in_refl]. intros _. eapply flags_upto_S; [done|done|by apply HP].
        * rewrite Hptr by done. cbn [mbind result_bind]. destruct (clear_one j idx m Hi Hv (HP Hi)) as (m' & E & HF' & Ho). by exists m'.
      + intros idx Hi _. by apply HF.
      + exists m. split; [done|]. split; [|done]. intros idx Hi. by apply H.
    - exists mem. split; [done|]. split; [|done]. intros idx Hi. destruct (Hread idx j ty col Hi Hty Hc) as (v & Hv & x & Hcv & _).
      eapply flags_upto_S; [done| |by apply HF]. unfold col_valid in Hcv. destruct (GetIndex (vd_sel col) idx); [|done]. simpl in Hcv. rewrite Hval in Hcv. by injection Hcv as <-. }
  destruct (IH (S j) m1 Hd' HF1) as (m2 & E2 & HF2 & Ho2). exists m2. split; [|split].
  - cbn [clear_columns]. rewrite E1. cbn [mbind result_bind]. rewrite <- E2. f_equal. lia.
  - intros idx Hi. simpl. rewrite Nat.add_succ_r. by apply HF2.
  - by eapply only_rows_trans.
Qed.

(** The flags and the first [k] columns of a row. *)
Definition upto (k : nat) (idx : Z) (mem : Blocks) : Prop :=
  in_mem (ptr idx) (sz idx) mem ∧ flags_ok (ptr idx) (rowv idx) mem ∧ cells_ok layout k (ptr idx) (rowv idx) mem.
Lemma upto_local k idx mem mem' :
  idx ∈ idxs → same_on (ptr idx) (sz idx) mem mem' → same_shape mem mem' → upto k idx mem → upto k idx mem'.
Proof.
  intros Hi H Hs (Hm & HF & HC). split; [by eapply in_mem_shape|]. pose proof (size_fixed idx).
  split; [eapply (flags_ok_local layout L); [done|done|by apply Hrows|lia|done]|]. eapply (cells_ok_local layout L); [done|done|by apply rowv_typed|lia|done].
Qed.

(** Writing column [k] keeps the flags, the columns before it and their payloads. *)
Lemma upto_step k idx ty off v mem mem' :
  idx ∈ idxs → rl_types layout !! k = Some ty → rl_offsets layout !! k = Some off → rowv idx !! k = Some v → upto k idx mem → same_shape mem mem' →
  (∀ o n, o + n ≤ off ∨ (rl_fixed_width layout ≤ o ∧ o + n ≤ cursor_at layout k (rowv idx)) → row_load (ptr idx) o n mem' = row_load (ptr idx) o n mem) →
  cell_stored (ptr idx) ty off (rl_fixed_width layout) (cursor_at layout (S k) (rowv idx)) v mem' → upto (S k) idx mem'.
Proof.
  intros Hi Hty Ho Hv (Hm & HF & HC) Hs Hl Hc. split; [by eapply in_mem_shape|]. split.
  - intros c vc Hvc. destruct (HF c vc Hvc) as (b & Hb & Hbit). exists b. split; [|done]. rewrite <- Hb. apply Hl. left.
    pose proof (lo_low _ L _ _ Ho). apply lookup_lt_Some in Hvc. rewrite Hrows in Hvc by done. pose proof (lo_flags _ L c Hvc). lia.
  - intros c tc oc vc Hlt Htc Hoc Hvc. destruct (decide (c = k)) as [->|Hne]; [by simplify_eq|].
    assert (cell_stored (ptr idx) tc oc (rl_fixed_width layout) (cursor_at layout k (rowv idx)) vc mem) as Hst by (eapply (HC c); [lia|done..]).
    pose proof (lo_order _ L c k oc off tc ltac:(lia) Hoc Ho Htc) as Hord.
    assert (cursor_at layout k (rowv idx) ≤ cursor_at layout (S k) (rowv idx)) as Hcur.
    { unfold cursor_at. rewrite (payload_take_S _ _ _ Hv). assert (0 ≤ payload_len v) by (destruct v as [[]|]; simpl; lia). lia. }
    assert (cursor_at layout (S k) (rowv idx) < 2 ^ 32) as Hmax by (pose proof (cursor_bounds layout (S k) (rowv idx)); pose proof (Hsize idx Hi); lia).
    unfold cell_stored in *. unfold slot_width in Hord. destruct (is_numeric tc); [destruct vc as [[z|s]|]; [|done..]; by rewrite Hl by lia|].
    destruct Hst as (h & H1 & H2 & H3 & E1 & E2). exists h. split; [done|]. split; [lia|]. split; [done|]. rewrite !Hl by lia. done.
Qed.

(** One column of one row. *)
Lemma scatter_number_ok k ty off col idx mem :
  idx ∈ idxs → rl_types layout !! k = Some ty → rl_offsets layout !! k = Some off → cols !! k = Some col → is_numeric ty = true → upto k idx mem →
  ∃ mem', scatter_number ty col ptrs off idx mem = Ok mem' ∧
    upto (S k) idx mem' ∧ only_in (ptr idx) (sz idx) mem mem'.
Proof.
  intros Hi Hty Ho Hc Hnum HU. destruct (Hread idx k ty col Hi Hty Hc) as (v & Hv & x & _ & Hx & Hk & Heq). unfold scatter_number. rewrite Hx. cbn [mbind result_bind].
  destruct x as [z|s]; [|simpl in Hk; by subst]. simpl. rewrite Hptr by done. simpl. pose proof (le_bytes_length (width ty) z) as Hlen.
  pose proof (lo_low _ L _ _ Ho). pose proof (lo_high _ L _ _ _ Ho Hty) as Hhi. unfold slot_width in Hhi. rewrite Hnum in Hhi. pose proof (size_fixed idx). pose proof (lo_flag_width _ L).
  destruct (row_store_loads (ptr idx) off (le_bytes (width ty) z) (sz idx) mem (proj1 HU)) as (m' & E & Hon & Hl & Hoth); [lia|lia|].
  exists m'. split; [done|]. split; [|done]. rewrite Hlen in Hl, Hoth.
  eapply upto_step; [done..|apply Hon| |].
  - intros o n Hn. apply Hoth. lia.
  - unfold cell_stored. rewrite Hnum. destruct v as [y|]; [|done]. by rewrite (Heq y eq_refl).
Qed.
Lemma u32_small n : 0 ≤ n < 2 ^ 32 → u32 n = n.
Proof. intros H. unfold u32. by apply Z.mod_small. Qed.
Lemma scatter_string_ok k off col idx mem :
  idx ∈ idxs → rl_types layout !! k = Some STRING → rl_offsets layout !! k = Some off → cols !! k = Some col → upto k idx mem →
  ∃ mem', scatter_string col ptrs off idx (cursor_at layout k (rowv idx)) mem
    = Ok (mem', cursor_at layout (S k) (rowv idx)) ∧ upto (S k) idx mem' ∧ only_in (ptr idx) (sz idx) mem mem'.
Proof.
  intros Hi Hty Ho Hc HU. destruct (Hread idx k STRING col Hi Hty Hc) as (v & Hv & x & Hval & Hx & Hk & Heq).
  unfold scatter_string. rewrite Hptr by done. cbn [mbind result_bind]. rewrite Hval. cbn [mbind result_bind].
  pose proof (lo_low _ L _ _ Ho). pose proof (lo_high _ L _ _ _ Ho Hty) as Hhi. change (slot_width STRING) with 8 in Hhi. pose proof (size_fixed idx) as Hsz. pose proof (lo_flag_width _ L).
  assert (∀ a b, Z.of_nat (length (handle_bytes a b)) = 8) as Hh by (intros a b; unfold handle_bytes; rewrite length_app, !le_bytes_length; done).
  pose proof (cursor_bounds layout k (rowv idx)) as Hcur. pose proof (cursor_bounds layout (S k) (rowv idx)) as Hcur'.
  assert (cursor_at layout (S k) (rowv idx) = cursor_at layout k (rowv idx) + payload_len v) as HS by (unfold cursor_at; rewrite (payload_take_S _ _ _ Hv); lia).
  pose proof (Hsize idx Hi) as Hmax. set (cu := cursor_at layout k (rowv idx)) in *. destruct v as [y|]; simpl is_some; cbv iota.
  - specialize (Heq y eq_refl). subst y. rewrite Hx. cbn [mbind result_bind]. destruct x as [z|s]; [done|]. simpl payload_len in HS.
    rewrite (u32_small (Z.of_nat (length s))) by lia. rewrite take_ge by lia.
    destruct (row_store_loads (ptr idx) cu s (sz idx) mem (proj1 HU)) as (m1 & E1 & Hon1 & Hl1 & Hoth1); [lia|lia|]. cbv zeta. rewrite E1. cbn [mbind result_bind].
    destruct (row_store_loads (ptr idx) off (handle_bytes cu (Z.of_nat (length s))) (sz idx) m1) as (m2 & E2 & Hon2 & Hl2 & Hoth2);
      [eapply in_mem_shape; [apply Hon1|apply HU]|lia|rewrite Hh; lia|]. rewrite E2. cbn [mbind result_bind]. rewrite Hh in *.
    exists m2. split; [rewrite u32_small by lia; by rewrite HS|]. split; [|by eapply only_in_trans].
    eapply upto_step; [done..|apply (only_in_trans _ _ _ _ _ Hon1 Hon2)| |].
    + intros o n Hn. fold cu in Hn. rewrite Hoth2, Hoth1 by lia. done.
    + exists cu. cbn [string_of]. split; [lia|]. split; [lia|]. split; [lia|]. split; [done|]. rewrite Hoth2 by lia. done.
  - destruct (row_store_loads (ptr idx) off (handle_bytes cu 0) (sz idx) mem (proj1 HU)) as (m2 & E2 & Hon2 & Hl2 & Hoth2); [lia|rewrite Hh; lia|]. rewrite E2. cbn [mbind result_bind].
    rewrite Hh in *. change (payload_len None) with 0 in HS. exists m2. split; [by rewrite HS, Z.add_0_r|]. split; [|done]. eapply upto_step; [done..|apply Hon2| |].
    + intros o n Hn. fold cu in Hn. apply Hoth2. lia.
    + exists cu. cbn [string_of length Z.of_nat]. split; [lia|]. split; [lia|]. split; [lia|]. split; [done|]. apply row_load_spec; [|lia|done|intros i Hlt; simpl in Hlt; lia].
      rewrite Z.add_0_r. apply (in_mem_shape _ _ mem); [apply Hon2|]. destruct HU as ((blk & Hblk & Hin) & _). exists blk. split; [done|]. lia.
Qed.

(** The columns one after the other. *)
Lemma scatter_columns_ok tys offs cs k cursor mem :
  drop k (rl_types layout) = tys → drop k (rl_offsets layout) = offs → drop k cols = cs →
  (STRING ∈ tys → cursor = (λ idx, cursor_at layout k (rowv idx)) <$> idxs) →
  (∀ idx, idx ∈ idxs → upto k idx mem) →
  ∃ mem', scatter_columns tys offs cs ptrs idxs cursor mem = Ok mem' ∧ (∀ idx, idx ∈ idxs → upto ncols idx mem') ∧ only_rows ptr size idxs mem mem'.
Proof.
  revert offs cs k cursor mem. induction tys as [|ty tys IH]; intros offs cs k cursor mem Ht Ho Hc Hcur HU.
  { assert (ncols ≤ k)%nat as Hk by (apply (f_equal length) in Ht; rewrite length_drop in Ht; simpl in Ht; lia).
    exists mem. split; [by destruct offs, cs|]. split; [|done]. intros idx Hi. destruct (HU idx Hi) as (H1 & H2 & H3). split; [done|]. split; [done|].
    intros c ty off v Hlt Hty Hoff Hv. replace (cursor_at layout ncols (rowv idx)) with (cursor_at layout k (rowv idx)) by (unfold cursor_at; by rewrite !take_ge by (rewrite Hrows by done; lia)).
    eapply (H3 c); [lia|done..]. }
  assert (rl_types layout !! k = Some ty) as Hty by (rewrite <- (Nat.add_0_r k), <- lookup_drop, Ht; done).
  assert (k < ncols)%nat as Hk by (by eapply lookup_lt_Some).
  destruct (lookup_lt_is_Some_2 (rl_offsets layout) k) as [off Hoff]; [by rewrite (lo_length _ L)|]. destruct (lookup_lt_is_Some_2 cols k) as [col Hcol]; [by rewrite Hcols|].
  rewrite (drop_S _ _ _ Hty) in Ht. rewrite (drop_S _ _ _ Hoff) in Ho. rewrite (drop_S _ _ _ Hcol) in Hc. injection Ht as Ht. subst offs cs.
  cbn [scatter_columns]. destruct (is_numeric ty) eqn:Hnum.
  - destruct (over_rows_ok ptr size (λ idx mem, idx ∈ idxs → upto k idx mem) (λ idx mem, idx ∈ idxs → upto (S k) idx mem)
      (scatter_number ty col ptrs off) idxs mem) as (m1 & E1 & H1 & Ho1); try done.
    + intros idx m m' Hs1 Hs2 HP Hi. apply (upto_local k idx m); [done..|by apply HP].
    + intros idx m m' Hs1 Hs2 HP Hi. apply (upto_local (S k) idx m); [done..|by apply HP].
    + intros idx m Hi HP. destruct (scatter_number_ok k ty off col idx m Hi Hty Hoff Hcol Hnum (HP Hi)) as (m' & E & HU' & Hon). by exists m'.
    + intros idx Hi _. by apply HU.
    + unfold TemplatedScatter. rewrite E1. cbn [mbind result_bind].
      destruct (IH (drop (S k) (rl_offsets layout)) (drop (S k) cols) (S k) cursor m1) as (m2 & E2 & H2 & Ho2); [done..| |by intros idx Hi; apply H1|].
      { intros Hin. rewrite Hcur by set_solver. apply list_fmap_ext. intros i idx Hidx. unfold cursor_at. f_equal. symmetry.
        assert (idx ∈ idxs) as Hi by (by eapply list_elem_of_lookup_2).
        destruct (lookup_lt_is_Some_2 (rowv idx) k) as [v Hv]; [by rewrite Hrows|]. rewrite (payload_take_S _ _ _ Hv).
        pose proof (typed_value layout (rowv idx) k ty v (rowv_typed idx Hi) Hty Hv) as Hvo. destruct v as [[|]|]; simpl in *; try lia. by subst. }
      exists m2. split; [done|]. split; [done|]. by eapply only_rows_trans.
  - assert (ty = STRING) as -> by (pose proof (typed_scalar layout L k ty Hty) as Hsc; unfold scalar in Hsc; rewrite Hnum in Hsc; by apply bool_decide_eq_true in Hsc).
    rewrite bool_decide_true by done. rewrite Hcur by set_solver.
    destruct (over_rows_cursor_ok ptr size (λ idx mem, idx ∈ idxs → upto k idx mem) (λ idx mem, idx ∈ idxs → upto (S k) idx mem)
      (λ idx, cursor_at layout k (rowv idx)) (λ idx, cursor_at layout (S k) (rowv idx)) (scatter_string col ptrs off) idxs mem) as (m1 & E1 & H1 & Ho1); try done.
    + intros idx m m' Hs1 Hs2 HP Hi. apply (upto_local k idx m); [done..|by apply HP].
    + intros idx m m' Hs1 Hs2 HP Hi. apply (upto_local (S k) idx m); [done..|by apply HP].
    + intros idx m Hi HP. destruct (scatter_string_ok k off col idx m Hi Hty Hoff Hcol (HP Hi)) as (m' & E & HU' & Hon). by exists m'.
    + intros idx Hi _. by apply HU.
    + unfold ScatterStrings. rewrite E1. cbn [mbind result_bind].
      destruct (IH (drop (S k) (rl_offsets layout)) (drop (S k) cols) (S k) ((λ idx, cursor_at layout (S k) (rowv idx)) <$> idxs) m1) as (m2 & E2 & H2 & Ho2);
        [done..|by intros idx Hi; apply H1|]. exists m2. split; [done|]. split; [done|]. by eapply only_rows_trans.
Qed.

(** [Scatter] leaves every selected row in memory and touches nothing else. *)
Lemma Scatter_ok mem :
  (∀ idx, idx ∈ idxs → in_mem (ptr idx) (sz idx) mem) → rl_fixed_width layout < 2 ^ 32 → rl_types layout ≠ [] →
  ∃ mem', Scatter cols layout ptrs idxs mem = Ok mem' ∧ (∀ idx, idx ∈ idxs → holds_row layout (ptr idx) (rowv idx) mem') ∧ only_rows ptr size idxs mem mem'.
Proof.
  intros Hm Hfix Hne. unfold Scatter. case_bool_decide as Hemp; [exists mem; split; [done|]; split; [rewrite Hemp; set_solver|done]|].
  assert (0 < ncols)%nat as Hn by (destruct (rl_types layout); [done|simpl; lia]). pose proof (lo_flags _ L 0 Hn) as Hfl. rewrite bool_decide_false by lia.
  destruct (set_all_valid_ok mem Hm ltac:(lia)) as (m1 & E1 & HF1 & Ho1). rewrite E1. cbn [mbind result_bind]. rewrite take_ge by (rewrite Hcols; done).
  destruct (clear_columns_ok cols 0 m1 eq_refl HF1) as (m2 & E2 & HF2 & Ho2). change (Z.of_nat 0) with 0 in E2. rewrite E2. cbn [mbind result_bind].
  destruct (scatter_columns_ok (rl_types layout) (rl_offsets layout) cols 0
    (if rl_all_constant layout then [] else replicate (length idxs) (u32 (rl_fixed_width layout))) m2) as (m3 & E3 & HU3 & Ho3); try done.
  - intros Hs. assert (rl_all_constant layout = false) as ->.
    { rewrite (lo_constant _ L). destruct (forallb _ _) eqn:E; [|done]. rewrite forallb_forall in E. specialize (E STRING ltac:(by apply list_elem_of_In)). done. }
    rewrite u32_small by (pose proof (lo_flag_width _ L); lia). unfold cursor_at. simpl. rewrite Z.add_0_r. clear. induction idxs as [|i l IH]; simpl; [done|]. by rewrite IH.
  - intros idx Hi. destruct (HF2 idx Hi) as [Him HF]. split; [done|]. split.
    + intros c v Hc. specialize (HF c v Hc). apply lookup_lt_Some in Hc. rewrite Hrows in Hc by done. by rewrite decide_True in HF by (rewrite Hcols; lia).
    + intros c ty off v Hlt. lia.
  - exists m3. split; [done|]. split.
    + intros idx Hi. destruct (HU3 idx Hi) as (H1 & H2 & H3). split; [by apply Hrows|]. split; [done|]. split; [done|]. by rewrite Hrows.
    + eapply only_rows_trans; [done|]. by eapply only_rows_trans.
Qed.
End scatter.

(** * Reading rows back: [FullScanColumn], [Match] *)

(** ** Numbers *)

Definition is_signed (ty : PhysicalType) : bool := match ty with TINYINT | SMALLINT | INTEGER | BIGINT => true | _ => false end.
(** A value its column type can hold; FLOAT and DOUBLE are bit patterns. *)
Definition in_type (ty : PhysicalType) (c : cell) : Prop :=
  match c with
  | CNum z => is_numeric ty = true ∧
      (if is_signed ty then - 2 ^ (8 * Z.of_nat (width ty) - 1) ≤ z < 2 ^ (8 * Z.of_nat (width ty) - 1) else 0 ≤ z < 2 ^ (8 * Z.of_nat (width ty)))
  | CStr s => ty = STRING ∧ Z.of_nat (length s) < 2 ^ 32
  end.
Lemma load_num_bytes ty z : in_type ty (CNum z) → load_num ty (le_bytes (width ty) z) = CNum z.
Proof.
  intros [Hn Hr]. unfold load_num. f_equal. rewrite le_value_bytes. replace (256 ^ Z.of_nat (width ty)) with (2 ^ (8 * Z.of_nat (width ty))).
  2: { change 256 with (2 ^ 8). rewrite <- Z.pow_mul_r by lia. done. }
  assert (∀ w, 0 < w → - 2 ^ (w - 1) ≤ z < 2 ^ (w - 1) → wrap_s w (z mod 2 ^ w) = z) as Hs.
  { intros w Hw Hz. assert (2 ^ w = 2 * 2 ^ (w - 1)) as Hp by (rewrite <- Z.pow_succ_r by lia; f_equal; lia).
    destruct (wrap_s_congr w (z mod 2 ^ w) Hw) as [k Hk]. pose proof (wrap_s_range w (z mod 2 ^ w) Hw) as Hwr.
    pose proof (Z.div_mod z (2 ^ w) ltac:(lia)) as Hdm. assert (wrap_s w (z mod 2 ^ w) - z = (k - z / 2 ^ w) * 2 ^ w) as E by lia. 
    assert (k - z / 2 ^ w = 0) as E0 by nia. rewrite E0 in E. lia. }
  destruct ty; simpl in Hn, Hr |- *; try done; first [apply Hs; [lia|exact Hr]|apply Z.mod_small; exact Hr].
Qed.

(** ** One value *)

Definition cell_eq (ty : PhysicalType) (a b : cell) : bool :=
  match a, b with
  | CNum x, CNum y =>
      match ty with FLOAT => SFeqb (float32 x) (float32 y) | DOUBLE => SFeqb (float64 x) (float64 y) | _ => bool_decide (x = y) end
  | CStr s, CStr t => bool_decide (s = t)
  | _, _ => false
  end.
(** SQL [=] of two key values, or IS NOT DISTINCT FROM. *)
Definition value_eq (null_equal : bool) (ty : PhysicalType) (a b : option cell) : bool :=
  match a, b with
  | Some x, Some y => cell_eq ty x y
  | None, None => null_equal
  | _, _ => false
  end.
Fixpoint key_eq (null_equal : bool) (types : list PhysicalType) (a b : list (option cell)) : bool :=
  match types, a, b with
  | ty :: types, x :: a, y :: b => value_eq null_equal ty x y && key_eq null_equal types a b
  | _, _, _ => true
  end.

Lemma memcmp_refl s : memcmp s s = 0.
Proof. induction s as [|b s IH]; simpl; [done|]. by rewrite bool_decide_true. Qed.
Lemma memcmp_eq s t : length s = length t → memcmp s t = 0 → s = t.
Proof.
  revert t. induction s as [|b s IH]; intros [|b' t]; simpl; try done. intros [= Hl] H. case_bool_decide as E; [subst; f_equal; by apply IH|].
  exfalso. apply E, byte_val_inj. lia.
Qed.

Section read.
Context (layout : RowLayout) (L : layout_ok layout).
Definition row_in_types (row : list (option cell)) : Prop := ∀ c ty x, rl_types layout !! c = Some ty → row !! c = Some (Some x) → in_type ty x.

Lemma row_valid_ok p row mem c v : holds_row layout p row mem → row !! c = Some v → Row_RowIsValid p (Z.of_nat c) mem = Ok (is_some v).
Proof.
  intros (_ & _ & HF & _) Hc. destruct (HF c v Hc) as (b & Hb & Hbit). unfold Row_RowIsValid. rewrite Hb. cbn [mbind result_bind forallb].
  by rewrite Hbit, andb_true_r.
Qed.
Lemma load_handle_ok p off h len mem :
  0 ≤ h < 2 ^ 32 → 0 ≤ len < 2 ^ 32 → row_load p off HANDLE_SIZE mem = Ok (handle_bytes h len) → load_handle p off mem = Ok (h, len).
Proof.
  intros Hh Hl E. unfold load_handle. rewrite E. cbn [mbind result_bind]. unfold handle_bytes.
  rewrite take_app_length', drop_app_length' by (symmetry; apply le_bytes_length). rewrite !le_value_bytes. change (256 ^ Z.of_nat 4) with (2 ^ 32). by rewrite !Z.mod_small by lia.
Qed.
Lemma holds_cell p row mem c ty off x :
  holds_row layout p row mem → rl_types layout !! c = Some ty → rl_offsets layout !! c = Some off → row !! c = Some (Some x) → in_type ty x →
  match x with
  | CNum z => row_load p off (Z.of_nat (width ty)) mem = Ok (le_bytes (width ty) z)
  | CStr s => ∃ h, load_handle p off mem = Ok (h, Z.of_nat (length s)) ∧ row_load p h (Z.of_nat (length s)) mem = Ok s
  end.
Proof.
  intros (Hl & _ & _ & HC) Hty Ho Hv Hin. pose proof (lookup_lt_Some _ _ _ Hv) as Hlt. specialize (HC c ty off (Some x) Hlt Hty Ho Hv).
  unfold cell_stored in HC.
  destruct x as [z|s]; [destruct Hin as [Hn _]; by rewrite Hn in HC|]. destruct Hin as [-> _]. destruct HC as (h & H1 & H2 & H3 & E1 & E2). cbn [string_of] in *. exists h. split; [|done].
  pose proof (lo_flag_width _ L). apply load_handle_ok; [lia|lia|done].
Qed.
(** A value reads back. *)
Lemma gather_cell_ok p row mem c ty off x :
  holds_row layout p row mem → row_in_types row → rl_types layout !! c = Some ty → rl_offsets layout !! c = Some off → row !! c = Some (Some x) →
  gather_cell ty p off mem = Ok x.
Proof.
  intros H HT Hty Ho Hv. pose proof (HT c ty x Hty Hv) as Hx. pose proof (holds_cell _ _ _ _ _ _ _ H Hty Ho Hv Hx) as HC. unfold gather_cell.
  destruct x as [z|s].
  - pose proof Hx as [Hn _]. rewrite Hn, HC. cbn [mbind result_bind]. by rewrite load_num_bytes.
  - destruct Hx as [-> _]. destruct HC as (h & E1 & E2). simpl. rewrite E1. cbn [mbind result_bind]. by rewrite E2.
Qed.
(** A key value is compared. *)
Lemma match_cell_ok p row mem c ty off v w col k null_equal :
  holds_row layout p row mem → row_in_types row → rl_types layout !! c = Some ty → rl_offsets layout !! c = Some off → row !! c = Some w →
  reads ty col k v → match_cell ty null_equal col k p off (Z.of_nat c) mem = Ok (value_eq null_equal ty v w).
Proof.
  intros H HT Hty Ho Hw (x & Hval & Hcell & Hk & Heq). unfold match_cell. rewrite Hval. cbn [mbind result_bind]. rewrite (row_valid_ok _ _ _ _ _ H Hw). cbn [mbind result_bind].
  destruct v as [y|], w as [z|]; simpl; try (by rewrite ?andb_false_r, ?andb_true_r). specialize (Heq y eq_refl). subst y.
  rewrite Hcell. cbn [mbind result_bind]. pose proof (HT c ty z Hty Hw) as Hz. pose proof (holds_cell _ _ _ _ _ _ _ H Hty Ho Hw Hz) as HC.
  destruct x as [a|s]; simpl in Hk.
  - rewrite Hk. destruct z as [b|t]; [|destruct Hz as [-> _]; done]. rewrite HC. cbn [mbind result_bind]. rewrite load_num_bytes by done. by destruct ty.
  - subst ty. simpl. destruct z as [b|t]; [by destruct Hz as [? _]|]. destruct HC as (h & E1 & E2). rewrite E1. cbn [mbind result_bind].
    case_bool_decide as El; [|rewrite bool_decide_false; [done|by intros ->]]. rewrite E2. cbn [mbind result_bind]. f_equal. apply bool_decide_ext.
    split; [intros E; symmetry; apply memcmp_eq; [lia|done]|intros ->; apply memcmp_refl].
Qed.

(** ** [FullScanColumn] *)

Lemma propagate_ok vs : ∀ i count m st allocated,
  mask_wf st m → 0 ≤ i → i + Z.of_nat (length vs) ≤ count → (allocated = true → mask_ m ≠ None ∧ ∀ j, 0 ≤ j < count → word_of j < capacity_words_ m) →
  ∃ m' st', propagate vs i count m allocated st = (Ok m', st') ∧ mask_wf st' m' ∧
    ∀ j, 0 ≤ j → valid st' m' j = match vs !! Z.to_nat (j - i) with Some v => if decide (i ≤ j) then v && valid st m j else valid st m j | None => valid st m j end.
Proof.
  induction vs as [|v vs IH]; intros i count m st allocated Hwf Hi Hc Ha; cbn [propagate].
  { exists m, st. split; [done|]. split; [done|]. intros j Hj. done. }
  simpl in Hc. assert (∀ (f g : Z → bool), (∀ j, 0 ≤ j → g j = if decide (j = i) then v && f i else f j) → ∀ j, 0 ≤ j →
    match vs !! Z.to_nat (j - (i + 1)) with Some w => if decide (i + 1 ≤ j) then w && g j else g j | None => g j end
    = match (v :: vs) !! Z.to_nat (j - i) with Some w => if decide (i ≤ j) then w && f j else f j | None => f j end) as Hshift.
  { intros f g Hg j Hj. rewrite Hg by done. destruct (decide (j = i)) as [->|Hne].
    - rewrite Z.sub_diag. replace (Z.to_nat (i - (i + 1))) with 0%nat by lia. change (Z.to_nat 0) with 0%nat. cbn [lookup list_lookup]. rewrite (decide_True (P := i ≤ i)) by lia.
      destruct vs; simpl; by rewrite ?decide_False by lia.
    - destruct (decide (i ≤ j)) as [Hd|Hd].
      + replace (Z.to_nat (j - i)) with (S (Z.to_nat (j - (i + 1)))) by lia. cbn [lookup list_lookup]. destruct (vs !! _); [|done]. by rewrite decide_True by lia.
      + destruct (vs !! _), ((v :: vs) !! _); rewrite ?(decide_False (P := i + 1 ≤ j)) by lia; done. }
  destruct v.
  - destruct (IH (i + 1) count m st allocated Hwf ltac:(lia) ltac:(lia) Ha) as (m' & st' & E & Hwf' & Hv). exists m', st'. split; [done|]. split; [done|].
    intros j Hj. rewrite Hv by done. apply (Hshift (valid st m)); [|done]. intros j' _. case_decide; [by subst|done].
  - assert (∃ m1 st1, (if allocated then mret m else EnsureWritable count m) st = (Ok m1, st1) ∧ mask_wf st1 m1 ∧ mask_ m1 ≠ None ∧
      (∀ j, 0 ≤ j < count → word_of j < capacity_words_ m1) ∧ ∀ j, 0 ≤ j → valid st1 m1 j = valid st m j) as (m1 & st1 & E1 & Hwf1 & Hne1 & Hcap1 & Hv1).
    { destruct allocated; [exists m, st; destruct (Ha eq_refl); done|].
      destruct (EnsureWritable_ok st m count Hwf) as (m1 & st1 & E1 & Hf1 & [b Eb] & Hcap & _ & Hv1 & _). exists m1, st1. split; [done|].
      split; [apply (frame_wf _ _ _ _ Hf1)|]. split; [by rewrite Eb|]. split; [|done]. intros j Hj. apply Hcap. lia. }
    run E1. destruct (set_unsafe_ok st1 m1 i false Hwf1 Hi (Hcap1 i ltac:(lia)) Hne1) as (st2 & E2 & Hf2 & Hv2). simpl in E2. run E2.
    destruct (IH (i + 1) count m1 st2 true (frame_wf _ _ _ _ Hf2) ltac:(lia) ltac:(lia)) as (m' & st' & E & Hwf' & Hv); [done|].
    exists m', st'. split; [done|]. split; [done|]. intros j Hj. rewrite Hv by done. apply (Hshift (valid st m)); [|done].
    intros j' Hj'. rewrite Hv2 by done. case_decide; [done|]. by apply Hv1.
Qed.

(** The element under a NULL: some number, or the empty string. *)
Lemma gather_null junk p row mem c ty off copy_strings :
  holds_row layout p row mem → rl_types layout !! c = Some ty → rl_offsets layout !! c = Some off → row !! c = Some None →
  ∃ x, gather_cell ty p off mem = Ok x ∧ copied junk copy_strings x = Ok x.
Proof.
  intros (Hl & Hm & _ & HC) Hty Ho Hv. pose proof (lookup_lt_Some _ _ _ Hv) as Hlt. specialize (HC c ty off None Hlt Hty Ho Hv). unfold cell_stored in HC.
  pose proof (typed_scalar layout L c ty Hty) as Hsc. pose proof (lo_high _ L _ _ _ Ho Hty) as Hhi. pose proof (lo_low _ L _ _ Ho). pose proof (lo_flag_width _ L).
  unfold gather_cell, slot_width, scalar in *. destruct (is_numeric ty).
  - unfold row_load. destruct Hm as (blk & Hb & H1 & H2 & H3). unfold row_size in H3. pose proof (payload_nonneg row). rewrite Hb, bool_decide_true by lia.
    cbn [mbind result_bind]. unfold load_num. eexists. split; [done|]. done.
  - apply bool_decide_eq_true in Hsc. rewrite bool_decide_true by done. destruct HC as (h & H1 & H2 & H3 & E1 & E2). cbn [string_of length] in *.
    rewrite (load_handle_ok p off h 0 mem) by (done || lia). cbn [mbind result_bind]. change (Z.of_nat 0) with 0 in E2. rewrite E2. eexists. split; [done|].
    by destruct copy_strings.
Qed.
Definition short_strings (c : nat) (rows : list (list (option cell))) : Prop :=
  ∀ row s, row ∈ rows → row !! c = Some (Some (CStr s)) → Z.of_nat (length s) < MINIMUM_HEAP_SIZE.
Lemma full_scan_ok junk ps rows c ty off copy_strings mem :
  Forall2 (λ p row, holds_row layout p row mem ∧ row_in_types row) ps rows →
  rl_types layout !! c = Some ty → rl_offsets layout !! c = Some off → (copy_strings = true → short_strings c rows) →
  ∃ data vs, full_scan junk ty off copy_strings ps mem = Ok data ∧ scan_validity (Z.of_nat c) ps mem = Ok vs ∧ length data = length ps ∧ length vs = length ps ∧
    ∀ j row v, rows !! j = Some row → row !! c = Some v → vs !! j = Some (is_some v) ∧ ∀ x, v = Some x → data !! j = Some x.
Proof.
  intros HF Hty Ho. induction HF as [|p row ps rows [Hh Ht] HF IH]; intros Hs; [by exists [], []|].
  destruct IH as (data & vs & E1 & E2 & L1 & L2 & H); [intros Hc row' s' Hin; apply (Hs Hc); set_solver|].
  assert (∃ v, row !! c = Some v) as [v Hv].
  { apply lookup_lt_is_Some_2. destruct Hh as [-> _]. by eapply lookup_lt_Some. }
  assert (∃ x, gather_cell ty p off mem = Ok x ∧ copied junk copy_strings x = Ok x ∧ ∀ y, v = Some y → y = x) as (x & Ex & Ec & Hx).
  { destruct v as [y|].
    - exists y. split; [by eapply gather_cell_ok|]. split; [|by intros ? [= ->]]. destruct y as [z|s]; [done|]. simpl. destruct copy_strings; [|done].
      rewrite add_string_ok; [done|]. eapply (Hs eq_refl); [|done]. set_solver.
    - destruct (gather_null junk p row mem c ty off copy_strings Hh Hty Ho Hv) as (x & Ex & Ec). by exists x. }
  exists (x :: data), (is_some v :: vs). cbn [full_scan scan_validity]. rewrite Ex. cbn [mbind result_bind]. rewrite Ec. cbn [mbind result_bind]. rewrite E1.
  rewrite (row_valid_ok _ _ _ _ _ Hh Hv). cbn [mbind result_bind]. rewrite E2. split; [done|]. split; [done|]. split; [simpl; lia|]. split; [simpl; lia|].
  intros [|j] row' v' Hj Hv'; simplify_eq/=; [split; [done|]; intros y Hy; by rewrite (Hx y Hy)|by eapply H].
Qed.
(** The column of rows in memory reads as the rows say; copied strings must fit a heap chunk. *)
Lemma FullScanColumn_ok junk ps rows c ty off copy_strings mem :
  Forall2 (λ p row, holds_row layout p row mem ∧ row_in_types row) ps rows →
  rl_types layout !! c = Some ty → rl_offsets layout !! c = Some off → (copy_strings = true → short_strings c rows) →
  ∃ data mask, FullScanColumn junk layout ps c copy_strings mem = Ok (FLAT_VECTOR data mask) ∧ length data = length ps ∧
    ∀ j row v, rows !! j = Some row → row !! c = Some v →
      mask_valid mask (Z.of_nat j) = is_some v ∧ ∀ x, v = Some x → data !! j = Some x.
Proof.
  intros HF Hty Ho Hs. destruct (full_scan_ok junk ps rows c ty off copy_strings mem HF Hty Ho Hs) as (data & vs & E1 & E2 & L1 & L2 & H).
  destruct (with_mask_ok (λ m, propagate vs 0 (Z.of_nat (length ps)) m false) None
    (λ i b, b = match vs !! Z.to_nat (i - 0) with Some v => if decide (0 ≤ i) then v && true else true | None => true end)) as (mask & Em & Hm).
  { intros m st Hwf Hv. destruct (propagate_ok vs 0 (Z.of_nat (length ps)) m st false Hwf ltac:(lia) ltac:(lia)) as (m' & st' & E & Hwf' & Hv'); [done|].
    exists m', st'. split; [done|]. split; [done|]. intros i Hi. rewrite Hv' by done. by rewrite (Hv i Hi). }
  exists data, mask. unfold FullScanColumn. rewrite Hty, Ho, E1. cbn [mbind result_bind]. rewrite E2. cbn [mbind result_bind]. rewrite Em. split; [done|]. split; [done|].
  intros j row v Hj Hv. destruct (H j row v Hj Hv) as [Hvs Hd]. split; [|done]. rewrite (Hm (Z.of_nat j)) by lia. rewrite Z.sub_0_r, Nat2Z.id, Hvs.
  rewrite decide_True by lia. apply andb_true_r.
Qed.

(** ** [Gather] *)

Definition slot_ok (mem : Blocks) (r : option row_ptr) (v : option (list (option cell))) : Prop :=
  match r, v with Some p, Some row => holds_row layout p row mem ∧ row_in_types row | None, None => True | _, _ => False end.
(** Column [c] of a row; a missing row has NULLs. *)
Definition padded (v : option (list (option cell))) (c : nat) : option cell := match v with Some row => default None (row !! c) | None => None end.
Lemma invalidate_ok slots : ∀ m st allocated,
  mask_wf st m → Forall (λ k, 0 ≤ k < STANDARD_VECTOR_SIZE) slots → (allocated = true → mask_ m ≠ None ∧ ∀ j, 0 ≤ j < STANDARD_VECTOR_SIZE → word_of j < capacity_words_ m) →
  ∃ m' st', invalidate slots m allocated st = (Ok m', st') ∧ mask_wf st' m' ∧ ∀ j, 0 ≤ j → valid st' m' j = negb (bool_decide (j ∈ slots)) && valid st m j.
Proof.
  induction slots as [|k slots IH]; intros m st allocated Hwf HF Ha; cbn [invalidate]; [by exists m, st|]. apply Forall_cons in HF as [Hk HF].
  assert (∃ m1 st1, (if allocated then mret m else EnsureWritable STANDARD_VECTOR_SIZE m) st = (Ok m1, st1) ∧ mask_wf st1 m1 ∧ mask_ m1 ≠ None ∧
    (∀ j, 0 ≤ j < STANDARD_VECTOR_SIZE → word_of j < capacity_words_ m1) ∧ ∀ j, 0 ≤ j → valid st1 m1 j = valid st m j) as (m1 & st1 & E1 & Hwf1 & Hne1 & Hcap1 & Hv1).
  { destruct allocated; [exists m, st; destruct (Ha eq_refl); done|].
    destruct (EnsureWritable_ok st m STANDARD_VECTOR_SIZE Hwf) as (m1 & st1 & E1 & Hf1 & [b Eb] & Hcap & _ & Hv1 & _). exists m1, st1. split; [done|].
    split; [apply (frame_wf _ _ _ _ Hf1)|]. split; [by rewrite Eb|]. split; [|done]. intros j Hj. apply Hcap. lia. }
  run E1. destruct (set_unsafe_ok st1 m1 k false Hwf1 ltac:(lia) (Hcap1 k ltac:(lia)) Hne1) as (st2 & E2 & Hf2 & Hv2). simpl in E2. run E2.
  destruct (IH m1 st2 true (frame_wf _ _ _ _ Hf2) HF) as (m' & st' & E & Hwf' & Hv); [done|]. exists m', st'. split; [done|]. split; [done|].
  intros j Hj. rewrite Hv, Hv2 by done. case_decide as Ejk; [subst; rewrite (bool_decide_true (k ∈ k :: slots)) by set_solver; simpl; apply andb_false_r|].
  rewrite Hv1 by done. f_equal. f_equal. apply bool_decide_ext. set_solver.
Qed.
Lemma gather_slot junk r v mem c ty off copy_strings p :
  slot_ok mem r v → r = Some p → rl_types layout !! c = Some ty → rl_offsets layout !! c = Some off → (∀ row, v = Some row → copy_strings = true → short_strings c [row]) →
  ∃ x, (y ← gather_cell ty p off mem; copied junk copy_strings y) = Ok x ∧ Row_RowIsValid p (Z.of_nat c) mem = Ok (is_some (padded v c)) ∧ ∀ y, padded v c = Some y → y = x.
Proof.
  intros Hs -> Hty Ho Hsh. destruct v as [row|]; [|done]. destruct Hs as [Hh Ht]. destruct (lookup_lt_is_Some_2 row c) as [w Hw]; [destruct Hh as [-> _]; by eapply lookup_lt_Some|].
  simpl. rewrite Hw. simpl. rewrite (row_valid_ok _ _ _ _ _ Hh Hw). destruct w as [y|].
  - exists y. rewrite (gather_cell_ok p row mem c ty off y Hh Ht Hty Ho Hw). cbn [mbind result_bind]. split; [|split; [done|by intros ? [= ->]]]. destruct y as [z|s]; [done|]. simpl.
    destruct copy_strings eqn:Ecp; [|done]. rewrite add_string_ok; [done|]. eapply (Hsh row eq_refl eq_refl row); [set_solver|done].
  - destruct (gather_null junk p row mem c ty off copy_strings Hh Hty Ho Hw) as (x & Ex & Ec). exists x. rewrite Ex. cbn [mbind result_bind]. done.
Qed.
(** The identity selections of a join's output: the places that were written, and those marked NULL. *)
Lemma gather_loops junk rows vals c ty off copy_strings mem : ∀ n i data,
  Forall2 (slot_ok mem) rows vals → rl_types layout !! c = Some ty → rl_offsets layout !! c = Some off → (copy_strings = true → short_strings c (omap id vals)) →
  (i + n = length rows)%nat → (length rows ≤ length data)%nat →
  ∃ data' slots, gather_data junk ty off copy_strings rows None None (Z.of_nat i) n data mem = Ok data' ∧ null_slots (Z.of_nat c) rows None None (Z.of_nat i) n mem = Ok slots ∧
    length data' = length data ∧ (∀ k, k ∈ slots ↔ ∃ j v, k = Z.of_nat j ∧ (i ≤ j)%nat ∧ vals !! j = Some v ∧ padded v c = None) ∧
    (∀ j v x, (i ≤ j)%nat → vals !! j = Some v → padded v c = Some x → data' !! j = Some x) ∧ (∀ j, (j < i)%nat → data' !! j = data !! j).
Proof.
  induction n as [|n IH]; intros i data HF Hty Ho Hsh Hi Hl; cbn [gather_data null_slots].
  { exists data, []. split; [done|]. split; [done|]. split; [done|]. apply Forall2_length in HF. split; [|split; [|done]].
    - intros k. split; [set_solver|]. intros (j & v & _ & Hj & Hv & _). apply lookup_lt_Some in Hv. lia.
    - intros j v x Hj Hv. apply lookup_lt_Some in Hv. lia. }
  destruct (lookup_lt_is_Some_2 rows i) as [r Hr]; [lia|]. apply Forall2_length in HF as Hlen. destruct (lookup_lt_is_Some_2 vals i) as [v Hv]; [lia|].
  pose proof (Forall2_lookup_lr _ _ _ i r v HF Hr Hv) as Hslot. cbn [GetIndex mbind result_bind]. unfold row_slot. rewrite Nat2Z.id, Hr. cbn [mbind result_bind].
  replace (Z.of_nat i + 1) with (Z.of_nat (S i)) by lia.
  assert (∃ data1, (match r with None => Ok data | Some p => y ← gather_cell ty p off mem; z ← copied junk copy_strings y; put_cell data (Z.of_nat i) z end) = Ok data1 ∧
    (match r with None => Ok false | Some p => Row_RowIsValid p (Z.of_nat c) mem end) = Ok (is_some (padded v c)) ∧ length data1 = length data ∧
    (∀ x, padded v c = Some x → data1 !! i = Some x) ∧ ∀ j, j ≠ i → data1 !! j = data !! j) as (data1 & E1 & E2 & Hl1 & Hx1 & Hj1).
  { destruct r as [p|].
    - destruct (gather_slot junk (Some p) v mem c ty off copy_strings p Hslot eq_refl Hty Ho) as (x & Ex & Ev & Hx).
      { intros row -> Hcp row' s Hin. apply list_elem_of_singleton in Hin as ->. apply (Hsh Hcp). apply list_elem_of_omap. exists (Some row). split; [by eapply list_elem_of_lookup_2|done]. }
      destruct (gather_cell ty p off mem) as [y|]; cbn [mbind result_bind] in *; [|done]. rewrite Ex. cbn [mbind result_bind]. unfold put_cell. rewrite bool_decide_true by lia.
      rewrite Nat2Z.id. eexists. split; [done|]. split; [done|]. split; [apply length_insert|]. split; [|intros j Hj; by rewrite list_lookup_insert_ne].
      intros y' Hy. rewrite (Hx y' Hy). apply list_lookup_insert_eq. lia.
    - destruct v; [done|]. exists data. split; [done|]. split; [done|]. split; [done|]. split; [done|done]. }
  rewrite E1, E2. cbn [mbind result_bind]. destruct (IH (S i) data1 HF Hty Ho Hsh ltac:(lia) ltac:(lia)) as (data' & slots & E3 & E4 & Hl3 & Hsl & Hd & Hlow).
  exists data', ((if is_some (padded v c) then [] else [Z.of_nat i]) ++ slots). split; [done|]. split; [by destruct (is_some (padded v c)); cbn [mbind result_bind]; rewrite E4|].
  split; [lia|]. split; [|split].
  - intros k. rewrite elem_of_app, Hsl. split.
    + intros [Hk|(j & w & -> & Hj & Hw & Hp)]; [|exists j, w; split; [done|]; split; [lia|done]].
      destruct (is_some (padded v c)) eqn:Es; [set_solver|]. apply list_elem_of_singleton in Hk as ->. exists i, v. split; [done|]. split; [lia|]. split; [done|]. by destruct (padded v c).
    + intros (j & w & -> & Hj & Hw & Hp). destruct (decide (j = i)) as [->|Hne]; [left|right; exists j, w; split; [done|]; split; [lia|done]].
      rewrite Hv in Hw. injection Hw as <-. rewrite Hp. set_solver.
  - intros j w x Hj Hw Hp. destruct (decide (j = i)) as [->|Hne]; [|by eapply (Hd j w); [lia|..]]. rewrite Hlow by lia. rewrite Hv in Hw. injection Hw as <-. by apply Hx1.
  - intros j Hj. rewrite Hlow by lia. apply Hj1. lia.
Qed.
(** A gathered column has the values of its rows, and NULL where there is no row. *)
Lemma Gather_ok junk rows vals c ty off copy_strings data mem :
  Forall2 (slot_ok mem) rows vals → rl_types layout !! c = Some ty → rl_offsets layout !! c = Some off → (copy_strings = true → short_strings c (omap id vals)) →
  (length rows ≤ length data)%nat → Z.of_nat (length rows) ≤ STANDARD_VECTOR_SIZE →
  ∃ data' mask, Gather junk layout rows None None (length rows) c copy_strings (data, None) mem = Ok (data', mask) ∧ length data' = length data ∧
    ∀ j v, vals !! j = Some v → mask_valid mask (Z.of_nat j) = is_some (padded v c) ∧ ∀ x, padded v c = Some x → data' !! j = Some x.
Proof.
  intros HF Hty Ho Hsh Hl Hstd. unfold Gather. apply Forall2_length in HF as Hlen. case_bool_decide as Hz.
  { exists data, None. split; [done|]. split; [done|]. intros j v Hj. apply lookup_lt_Some in Hj. lia. }
  rewrite Hty, Ho. destruct (gather_loops junk rows vals c ty off copy_strings mem (length rows) 0 data HF Hty Ho Hsh ltac:(lia) Hl) as (data' & slots & E1 & E2 & Hl' & Hsl & Hd & _).
  change (Z.of_nat 0) with 0 in E1, E2. cbn [fst snd]. rewrite E1. cbn [mbind result_bind]. rewrite E2. cbn [mbind result_bind].
  destruct (with_mask_ok (λ m, invalidate slots m false) None (λ i b, b = negb (bool_decide (i ∈ slots)) && true)) as (mask & Em & Hm).
  { intros m st Hwf Hv. destruct (invalidate_ok slots m st false Hwf) as (m' & st' & E & Hwf' & Hv'); [|done|].
    - apply Forall_forall. intros k (j & v & -> & _ & Hj & _)%Hsl. apply lookup_lt_Some in Hj. lia.
    - exists m', st'. split; [done|]. split; [done|]. intros i Hi. rewrite Hv' by done. by rewrite (Hv i Hi). }
  rewrite Em. cbn [mbind result_bind]. exists data', mask. split; [done|]. split; [done|]. intros j v Hv. split; [|intros x Hx; by eapply Hd; [lia|..]].
  rewrite (Hm (Z.of_nat j)) by lia. rewrite andb_true_r. destruct (padded v c) as [x|] eqn:Ep; simpl.
  - rewrite bool_decide_false; [done|]. intros (j' & w & Ej & _ & Hw & Hp)%Hsl. assert (j' = j) as -> by lia. rewrite Hv in Hw. injection Hw as <-. by rewrite Ep in Hp.
  - rewrite bool_decide_true; [done|]. apply Hsl. exists j, v. split; [done|]. split; [lia|done].
Qed.

(** ** [Match] *)

(** Candidate [i] compares the key [key i] of a chunk row with the row [row i] in memory. *)
Section candidates.
Context (cols : list VectorData) (rows : list (option row_ptr)) (row_sel col_sel : list Z) (mem : Blocks) (null_equal : bool) (key_count count : nat).
Context (key row : nat → list (option cell)).
Definition candidate (i : nat) : Prop :=
  ∃ r p k, GetIndex (Some row_sel) (Z.of_nat i) = Ok r ∧ ptr_at rows r = Ok p ∧ GetIndex (Some col_sel) (Z.of_nat i) = Ok k ∧
    holds_row layout p (row i) mem ∧ row_in_types (row i) ∧
    ∀ c ty col, (c < key_count)%nat → rl_types layout !! c = Some ty → cols !! c = Some col → ∃ v, key i !! c = Some v ∧ reads ty col k v.
Definition matches_from (c : nat) (i : nat) : bool := key_eq null_equal (drop c (take key_count (rl_types layout))) (drop c (key i)) (drop c (row i)).

Lemma MatchColumn_ok c ty off col cur :
  (c < key_count)%nat → rl_types layout !! c = Some ty → rl_offsets layout !! c = Some off → cols !! c = Some col → Forall candidate cur →
  ∃ eq, MatchColumn ty null_equal col rows row_sel col_sel off (Z.of_nat c) (Z.of_nat <$> cur) mem
    = Ok (Z.of_nat <$> filter (λ i, eq i = true) cur, Z.of_nat <$> filter (λ i, eq i = false) cur) ∧
    ∀ i v w, i ∈ cur → key i !! c = Some v → row i !! c = Some w → eq i = value_eq null_equal ty v w.
Proof.
  intros Hc Hty Ho Hcol HF. exists (λ i, match key i !! c, row i !! c with Some v, Some w => value_eq null_equal ty v w | _, _ => false end).
  split; [|intros i v w _ -> ->; done]. induction HF as [|i cur Hi HF IH]; [done|]. destruct Hi as (r & p & k & E1 & E2 & E3 & Hh & Ht & Hk).
  rewrite fmap_cons. cbn [MatchColumn]. rewrite E1. cbn [mbind result_bind]. rewrite E2. cbn [mbind result_bind]. rewrite E3. cbn [mbind result_bind].
  destruct (Hk c ty col Hc Hty Hcol) as (v & Hv & Hr). destruct (lookup_lt_is_Some_2 (row i) c) as [w Hw]; [destruct Hh as [-> _]; by eapply lookup_lt_Some|].
  rewrite (match_cell_ok p (row i) mem c ty off v w col k null_equal Hh Ht Hty Ho Hw Hr). cbn [mbind result_bind]. rewrite IH. cbn [mbind result_bind].
  rewrite !filter_cons, Hv, Hw. by destruct (value_eq null_equal ty v w); repeat case_decide.
Qed.
Lemma matches_from_cons c i ty v w :
  (c < key_count)%nat → rl_types layout !! c = Some ty → key i !! c = Some v → row i !! c = Some w →
  matches_from c i = value_eq null_equal ty v w && matches_from (S c) i.
Proof.
  intros Hc Hty Hv Hw. unfold matches_from. rewrite (drop_S (take key_count (rl_types layout)) ty c) by (by rewrite lookup_take_lt by done).
  by rewrite (drop_S (key i) v c), (drop_S (row i) w c) by done.
Qed.
Lemma match_columns_ok n c cur no :
  (c + n = key_count)%nat → (key_count ≤ length (rl_types layout))%nat → (key_count ≤ length cols)%nat → Forall candidate cur →
  ∃ failed, match_columns (drop c (rl_types layout)) (drop c (rl_offsets layout)) null_equal (drop c cols) (Z.of_nat c) n rows row_sel col_sel (Z.of_nat <$> cur) no mem
    = Ok (Z.of_nat <$> filter (λ i, matches_from c i = true) cur, no ++ (Z.of_nat <$> failed)) ∧ failed ≡ₚ filter (λ i, matches_from c i = false) cur.
Proof.
  revert c cur no. induction n as [|n IH]; intros c cur no Hcn Hlt Hlc HF.
  - exists []. assert (∀ i, matches_from c i = true) as Hm by (intros i; unfold matches_from; by rewrite (drop_ge (take _ _)) by (rewrite length_take; lia)).
    assert (filter (λ i, matches_from c i = true) cur = cur ∧ filter (λ i, matches_from c i = false) cur = []) as [Ht Hf].
    { clear -Hm. induction cur as [|i cur [IH1 IH2]]; [done|]. rewrite !filter_cons, decide_True, decide_False by (rewrite Hm; done). by rewrite IH1, IH2. }
    rewrite Ht, Hf, fmap_nil, app_nil_r. done.
  - cbn [match_columns]. case_bool_decide as Hemp.
    { destruct cur; [|done]. exists []. by rewrite app_nil_r. }
    destruct (lookup_lt_is_Some_2 (rl_types layout) c) as [ty Hty]; [lia|]. destruct (lookup_lt_is_Some_2 (rl_offsets layout) c) as [off Ho]; [rewrite (lo_length _ L); lia|].
    destruct (lookup_lt_is_Some_2 cols c) as [col Hcol]; [lia|]. rewrite (drop_S _ _ _ Hty), (drop_S _ _ _ Ho), (drop_S _ _ _ Hcol).
    pose proof (typed_scalar layout L c ty Hty) as Hsc. unfold scalar in Hsc. rewrite Hsc.
    destruct (MatchColumn_ok c ty off col cur ltac:(lia) Hty Ho Hcol HF) as (eq & -> & Heq). cbn [mbind result_bind].
    destruct (IH (S c) (filter (λ i, eq i = true) cur) (no ++ (Z.of_nat <$> filter (λ i, eq i = false) cur)) ltac:(lia) Hlt Hlc) as (failed & E & Hp).
    { apply Forall_forall. intros i Hi%list_elem_of_filter. rewrite Forall_forall in HF. apply HF. tauto. }
    replace (Z.of_nat c + 1) with (Z.of_nat (S c)) by lia. rewrite E. exists (filter (λ i, eq i = false) cur ++ failed).
    assert (∀ i, i ∈ cur → matches_from c i = eq i && matches_from (S c) i) as Hstep.
    { intros i Hi. rewrite Forall_forall in HF. destruct (HF i Hi) as (r & p & k & _ & _ & _ & Hh & _ & Hk).
      destruct (Hk c ty col ltac:(lia) Hty Hcol) as (v & Hv & _). destruct (lookup_lt_is_Some_2 (row i) c) as [w Hw]; [destruct Hh as [-> _]; lia|].
      rewrite (matches_from_cons c i ty v w) by (done || lia). by rewrite (Heq i v w). }
    assert (filter (λ i, matches_from (S c) i = true) (filter (λ i, eq i = true) cur) = filter (λ i, matches_from c i = true) cur) as Hok.
    { clear -Hstep. induction cur as [|i cur IH]; [done|]. rewrite !filter_cons. specialize (IH ltac:(intros; apply Hstep; set_solver)).
      pose proof (Hstep i ltac:(set_solver)) as Hi. destruct (eq i); simpl in Hi; rewrite Hi.
      * rewrite (decide_True (P := true = true)) by done. rewrite filter_cons. destruct (matches_from (S c) i); simpl; by rewrite IH.
      * rewrite !(decide_False (P := false = true)) by done. done. }
    split; [by rewrite fmap_app, app_assoc, Hok|]. rewrite Hp. clear -Hstep.
    { induction cur as [|i cur IH]; [done|]. rewrite !filter_cons. specialize (IH ltac:(intros; apply Hstep; set_solver)).
      pose proof (Hstep i ltac:(set_solver)) as Hi. destruct (eq i); simpl in Hi; rewrite Hi.
      * rewrite (decide_False (P := true = false)), (decide_True (P := true = true)) by done. rewrite filter_cons. destruct (matches_from (S c) i); simpl; [done|].
        rewrite <- Permutation_middle. by rewrite IH.
      * rewrite !(decide_True (P := false = false)), (decide_False (P := false = true)) by done. simpl. by rewrite IH. }
Qed.
(** [Match] separates the candidates whose keys are equal from the others. *)
Lemma Match_ok :
  (key_count ≤ length (rl_types layout))%nat → (key_count ≤ length cols)%nat → (∀ i, (i < count)%nat → candidate i) →
  ∃ failed, Match cols layout key_count rows row_sel col_sel count null_equal mem
    = Ok (Z.of_nat <$> filter (λ i, matches_from 0 i = true) (seq 0 count), Z.of_nat <$> failed) ∧ failed ≡ₚ filter (λ i, matches_from 0 i = false) (seq 0 count).
Proof.
  intros H1 H2 HC. unfold Match. case_bool_decide as Hz; [subst; by exists []|]. rewrite bool_decide_true by done. cbn [negb].
  destruct (match_columns_ok key_count 0 (seq 0 count) [] ltac:(lia) H1 H2) as (failed & E & Hp); [apply Forall_forall; intros i Hi%elem_of_seq; apply HC; lia|].
  exists failed. split; [exact E|done].
Qed.
End candidates.
End read.
