(* ===== verification/PRLHashTable.v ===== *)
(** * The hash table of joins and aggregates ([execution/prl_hash_table.cpp])

    Rows live in bump-allocated blocks; an open-addressed directory with linear probing maps hashes to row
    addresses.  Groups are found or created a chunk at a time, in rounds: every row that is not settled yet
    looks at its bucket, the new groups are scattered at once, the rows with an equal hash are compared, and
    the others go on to their next bucket. *)

From S2P Require Import Prelude TablePage TableHeap BTreePage BPlusTree GenericKey StringHeap ValidityMask SortKey VectorOps RowFormat.

(** One directory slot; [None] is a null row. *)
Abbreviation HTEntry := (option (Z * (nat * Z))).
Definition INITIAL_CAPACITY : Z := 1024.
Definition BLOCK_SIZE : Z := 256 * 1024.

(** [blocks_] are the table's blocks in the memory all tables share. *)
Record PRLHashTable := mkTable {
  types_ : list PhysicalType;
  key_count_ : nat;
  null_equal_keys_ : bool;
  layout_ : RowLayout;
  capacity_ : Z;
  bitmask_ : Z;
  count_ : Z;
  directory_ : list HTEntry;
  blocks_ : list nat;
  block_used_ : Z;
  block_capacity_ : Z;
  row_addrs_ : list row_ptr;
  row_hashes_ : list Z;
  directory_stale_ : bool }.

Definition set_directory (capacity : Z) (dir : list HTEntry) (t : PRLHashTable) : PRLHashTable :=
  mkTable (types_ t) (key_count_ t) (null_equal_keys_ t) (layout_ t) capacity (capacity - 1) (count_ t) dir (blocks_ t)
    (block_used_ t) (block_capacity_ t) (row_addrs_ t) (row_hashes_ t) (directory_stale_ t).
Definition set_entry (bucket : Z) (h : Z) (row : row_ptr) (t : PRLHashTable) : PRLHashTable :=
  mkTable (types_ t) (key_count_ t) (null_equal_keys_ t) (layout_ t) (capacity_ t) (bitmask_ t) (count_ t)
    (<[Z.to_nat bucket := Some (h, row)]> (directory_ t)) (blocks_ t) (block_used_ t) (block_capacity_ t) (row_addrs_ t) (row_hashes_ t) (directory_stale_ t).
Definition set_blocks (blocks : list nat) (used capacity : Z) (t : PRLHashTable) : PRLHashTable :=
  mkTable (types_ t) (key_count_ t) (null_equal_keys_ t) (layout_ t) (capacity_ t) (bitmask_ t) (count_ t) (directory_ t)
    blocks used capacity (row_addrs_ t) (row_hashes_ t) (directory_stale_ t).
(** [row_addrs_.push_back], [row_hashes_.push_back], [count_++]. *)
Definition push_row (h : Z) (row : row_ptr) (t : PRLHashTable) : PRLHashTable :=
  mkTable (types_ t) (key_count_ t) (null_equal_keys_ t) (layout_ t) (capacity_ t) (bitmask_ t) (u64 (count_ t + 1)) (directory_ t) (blocks_ t)
    (block_used_ t) (block_capacity_ t) (row_addrs_ t ++ [row]) (row_hashes_ t ++ [h]) (directory_stale_ t).
Definition set_rows (count : Z) (addrs : list row_ptr) (hashes : list Z) (stale : bool) (t : PRLHashTable) : PRLHashTable :=
  mkTable (types_ t) (key_count_ t) (null_equal_keys_ t) (layout_ t) (capacity_ t) (bitmask_ t) count (directory_ t) (blocks_ t)
    (block_used_ t) (block_capacity_ t) addrs hashes stale.

(** ** The directory *)

(** The loop doubles a 64-bit number; past 2^63 it never ends. *)
Fixpoint next_power (fuel : nat) (p n : Z) : result Z :=
  match fuel with
  | O => Err EBlocked
  | S fuel => if bool_decide (p < n) then next_power fuel (u64 (Z.shiftl p 1)) n else Ok p
  end.
Definition NextPowerOfTwo (n : Z) : result Z := next_power 65 1 n.

(** [while (dir[bucket].row_ != nullptr) bucket = (bucket + 1) & mask]. *)
Fixpoint find_empty (fuel : nat) (dir : list HTEntry) (mask bucket : Z) : result Z :=
  match fuel with
  | O => Err EBlocked
  | S fuel =>
      match dir !! Z.to_nat bucket with
      | None => Err EUndefined
      | Some None => Ok bucket
      | Some (Some _) => find_empty fuel dir mask (Z.land (bucket + 1) mask)
      end
  end.
Definition link_entry (mask : Z) (dir : list HTEntry) (h : Z) (row : row_ptr) : result (list HTEntry) :=
  bucket ← find_empty (length dir) dir mask (Z.land h mask); Ok (<[Z.to_nat bucket := Some (h, row)]> dir).
Fixpoint link_all (mask : Z) (dir : list HTEntry) (entries : list (Z * row_ptr)) : result (list HTEntry) :=
  match entries with
  | [] => Ok dir
  | (h, row) :: entries => dir ← link_entry mask dir h row; link_all mask dir entries
  end.
Definition Resize (new_capacity : Z) (t : PRLHashTable) : result PRLHashTable :=
  if negb (bool_decide (Z.land new_capacity (new_capacity - 1) = 0 ∧ capacity_ t < new_capacity))
  then Err (EAssert "PRLHashTable::Resize: the capacity must be a growing power of two") else
  next ← link_all (new_capacity - 1) (replicate (Z.to_nat new_capacity) None) (omap id (directory_ t));
  Ok (set_directory new_capacity next t).

(** A [float] of an unsigned integer: 24 significant bits, ties to even. *)
Definition to_float (n : Z) : Z :=
  let e := Z.log2 n - 23 in
  if bool_decide (e ≤ 0) then n else
  let q := n / 2 ^ e in
  let r := n mod 2 ^ e in
  (if bool_decide (2 ^ (e - 1) < r ∨ (r = 2 ^ (e - 1) ∧ Z.odd q = true)) then q + 1 else q) * 2 ^ e.
(** The test of the load factor 0.75; the quotient by a power of two is exact. *)
Definition overloaded (total capacity : Z) : bool :=
  bool_decide (capacity ≤ total) || bool_decide (3 * to_float capacity < 4 * to_float total).
Fixpoint ensure_capacity (fuel : nat) (n : Z) (t : PRLHashTable) : result PRLHashTable :=
  if overloaded (u64 (count_ t + n)) (capacity_ t) then
    match fuel with
    | O => Err EBlocked
    | S fuel => t ← Resize (u64 (capacity_ t * 2)) t; ensure_capacity fuel n t
    end
  else Ok t.

Definition empty_table (types : list PhysicalType) (key_count : nat) (null_equal : bool) (layout : RowLayout) : PRLHashTable :=
  mkTable types key_count null_equal layout 0 0 0 [] [] 0 0 [] [] false.
Definition new_PRLHashTable (types : list PhysicalType) (key_count : nat) (null_equal : bool) (initial_capacity : Z) : result PRLHashTable :=
  if negb (bool_decide (types ≠ [] ∧ (0 < key_count ≤ length types)%nat))
  then Err (EAssert "PRLHashTable: the key prefix must name at least one leading column") else
  layout ← Layout_Initialize types;
  n ← NextPowerOfTwo initial_capacity;
  Resize (Z.max n INITIAL_CAPACITY) (empty_table types key_count null_equal layout).

(** ** Rows *)

(** Fresh blocks are zero. *)
Definition AllocateRow (size : Z) (t : PRLHashTable) (mem : Blocks) : result (row_ptr * PRLHashTable * Blocks) :=
  let '(t, mem) :=
    if bool_decide (blocks_ t = [] ∨ block_capacity_ t < block_used_ t + size) then
      let capacity := Z.max BLOCK_SIZE size in
      (set_blocks (blocks_ t ++ [length mem]) 0 capacity t, mem ++ [replicate (Z.to_nat capacity) Byte.x00])
    else (t, mem) in
  match last (blocks_ t) with
  | None => Err EUndefined
  | Some b => Ok ((b, block_used_ t), set_blocks (blocks_ t) (block_used_ t + size) (block_capacity_ t) t, mem)
  end.

Fixpoint add_sizes (col : VectorData) (i : Z) (sizes : list Z) : result (list Z) :=
  match sizes with
  | [] => Ok []
  | n :: sizes =>
      valid ← col_valid col i;
      n ← (if (valid : bool) then c ← col_cell col i; match c with CStr s => Ok (u32 (n + u32 (Z.of_nat (length s)))) | CNum _ => Err EUndefined end else Ok n);
      sizes ← add_sizes col (i + 1) sizes;
      Ok (n :: sizes)
  end.
Fixpoint column_sizes (types : list PhysicalType) (cols : list VectorData) (sizes : list Z) : result (list Z) :=
  match types, cols with
  | [], _ => Ok sizes
  | _ :: _, [] => Err EUndefined
  | ty :: types, col :: cols =>
      sizes ← (if bool_decide (ty = STRING) then add_sizes col 0 sizes else Ok sizes);
      column_sizes types cols sizes
  end.
Definition ComputeRowSizes (t : PRLHashTable) (cols : list VectorData) (count : nat) : result (list Z) :=
  let sizes := replicate count (u32 (rl_fixed_width (layout_ t))) in
  if rl_all_constant (layout_ t) then Ok sizes else column_sizes (types_ t) cols sizes.

Definition at_index (l : list Z) (i : Z) : result Z := match l !! Z.to_nat i with Some x => Ok x | None => Err EUndefined end.

(** ** [FindOrCreateGroups] *)

(** The rows of one round: those that created a group, those to compare, those that go on. *)
Record Round := mkRound { r_table : PRLHashTable; r_mem : Blocks; r_addr : list (option row_ptr); r_new : list Z; r_compare : list Z; r_next : list Z }.
Definition classify_row (hash_data sizes buckets : list Z) (idx : Z) (s : Round) : result Round :=
  let t := r_table s in
  bucket ← at_index buckets idx;
  h ← at_index hash_data idx;
  match directory_ t !! Z.to_nat bucket with
  | None => Err EUndefined
  | Some None =>
      size ← at_index sizes idx;
      '(row, t, mem) ← AllocateRow size t (r_mem s);
      Ok (mkRound (push_row h row (set_entry bucket h row t)) mem (<[Z.to_nat idx := Some row]> (r_addr s)) (r_new s ++ [idx]) (r_compare s) (r_next s))
  | Some (Some (hash, row)) =>
      if bool_decide (hash = h) then
        Ok (mkRound t (r_mem s) (<[Z.to_nat idx := Some row]> (r_addr s)) (r_new s) (r_compare s ++ [idx]) (r_next s))
      else Ok (mkRound t (r_mem s) (r_addr s) (r_new s) (r_compare s) (r_next s ++ [idx]))
  end.
Fixpoint classify (hash_data sizes buckets idxs : list Z) (s : Round) : result Round :=
  match idxs with
  | [] => Ok s
  | idx :: idxs => s ← classify_row hash_data sizes buckets idx s; classify hash_data sizes buckets idxs s
  end.
Fixpoint advance (mask : Z) (idxs buckets : list Z) : result (list Z) :=
  match idxs with
  | [] => Ok buckets
  | idx :: idxs => b ← at_index buckets idx; advance mask idxs (<[Z.to_nat idx := Z.land (b + 1) mask]> buckets)
  end.
Fixpoint select (sel idxs : list Z) : result (list Z) :=
  match idxs with [] => Ok [] | i :: idxs => x ← at_index sel i; xs ← select sel idxs; Ok (x :: xs) end.
Fixpoint group_rounds (fuel : nat) (cols : list VectorData) (hash_data sizes buckets remaining created : list Z) (t : PRLHashTable) (mem : Blocks)
    (addr : list (option row_ptr)) : result (PRLHashTable * Blocks * list (option row_ptr) * list Z) :=
  if bool_decide (remaining = []) then Ok (t, mem, addr, created) else
  match fuel with
  | O => Err EBlocked
  | S fuel =>
      s ← classify hash_data sizes buckets remaining (mkRound t mem addr [] [] []);
      mem ← Scatter cols (layout_ t) (r_addr s) (r_new s) (r_mem s);
      '(_, kernel_no_match) ← Match cols (layout_ t) (key_count_ t) (r_addr s) (r_compare s) (r_compare s) (length (r_compare s)) (null_equal_keys_ t) mem;
      failed ← select (r_compare s) kernel_no_match;
      let next := r_next s ++ failed in
      buckets ← advance (bitmask_ t) next buckets;
      group_rounds fuel cols hash_data sizes buckets next (created ++ r_new s) (r_table s) mem (r_addr s)
  end.
(** [hash_data] is the hash vector, flattened; the result has the addresses and the rows that made a group. *)
Definition FindOrCreateGroups (hash_data : list Z) (groups : list Vector) (count : nat) (addr : list (option row_ptr)) (t : PRLHashTable) (mem : Blocks)
    : result (PRLHashTable * Blocks * list (option row_ptr) * list Z) :=
  if bool_decide (count = 0%nat) then Ok (t, mem, addr, []) else
  if negb (bool_decide (length groups = length (types_ t)))
  then Err (EAssert "PRLHashTable::FindOrCreateGroups: the chunk must carry every layout column") else
  if directory_stale_ t then Err (EAssert "PRLHashTable::FindOrCreateGroups: call BuildDirectory after Merge") else
  t ← ensure_capacity 64 (Z.of_nat count) t;
  cols ← chunk_Orrify (Z.of_nat count) groups;
  sizes ← ComputeRowSizes t cols count;
  let idxs := Z.of_nat <$> seq 0 count in
  buckets ← select ((λ h, Z.land h (bitmask_ t)) <$> hash_data) idxs;
  group_rounds (length (directory_ t) + 1) cols hash_data sizes buckets idxs [] t mem addr.

(** ** [Append], [AppendUnbuilt], [Merge], [BuildDirectory] *)

Fixpoint append_rows (linked : bool) (hash_data sizes idxs : list Z) (t : PRLHashTable) (mem : Blocks) (addr : list (option row_ptr))
    : result (PRLHashTable * Blocks * list (option row_ptr)) :=
  match idxs with
  | [] => Ok (t, mem, addr)
  | idx :: idxs =>
      h ← at_index hash_data idx;
      bucket ← (if linked then find_empty (length (directory_ t)) (directory_ t) (bitmask_ t) (Z.land h (bitmask_ t)) else Ok 0);
      size ← at_index sizes idx;
      '(row, t, mem) ← AllocateRow size t mem;
      let t := if linked then set_entry bucket h row t else t in
      append_rows linked hash_data sizes idxs (push_row h row t) mem (<[Z.to_nat idx := Some row]> addr)
  end.
(** The selected rows [idxs] of a chunk of [size] rows. *)
Definition Append (hash_data : list Z) (rows : list Vector) (size : nat) (idxs : list Z) (t : PRLHashTable) (mem : Blocks) : result (PRLHashTable * Blocks) :=
  if bool_decide (idxs = []) then Ok (t, mem) else
  if negb (bool_decide (length rows = length (types_ t))) then Err (EAssert "PRLHashTable::Append: the chunk must carry every layout column") else
  if directory_stale_ t then Err (EAssert "PRLHashTable::Append: call BuildDirectory after Merge/AppendUnbuilt") else
  t ← ensure_capacity 64 (Z.of_nat (length idxs)) t;
  cols ← chunk_Orrify (Z.of_nat size) rows;
  sizes ← ComputeRowSizes t cols size;
  '(t, mem, addr) ← append_rows true hash_data sizes idxs t mem (replicate size None);
  mem ← Scatter cols (layout_ t) addr idxs mem;
  Ok (t, mem).
Definition AppendUnbuilt (hash_data : list Z) (rows : list Vector) (size : nat) (idxs : list Z) (t : PRLHashTable) (mem : Blocks) : result (PRLHashTable * Blocks) :=
  if bool_decide (idxs = []) then Ok (t, mem) else
  if negb (bool_decide (length rows = length (types_ t))) then Err (EAssert "PRLHashTable::AppendUnbuilt: the chunk must carry every layout column") else
  cols ← chunk_Orrify (Z.of_nat size) rows;
  sizes ← ComputeRowSizes t cols size;
  '(t, mem, addr) ← append_rows false hash_data sizes idxs t mem (replicate size None);
  mem ← Scatter cols (layout_ t) addr idxs mem;
  Ok (set_rows (count_ t) (row_addrs_ t) (row_hashes_ t) true t, mem).
Definition Merge (t other : PRLHashTable) : result (PRLHashTable * PRLHashTable) :=
  if negb (bool_decide (types_ t = types_ other ∧ key_count_ t = key_count_ other)) then Err (EAssert "PRLHashTable::Merge: the tables must share one layout") else
  if bool_decide (count_ other = 0) then Ok (t, other) else
  Ok (set_blocks (blocks_ t ++ blocks_ other) 0 0
        (set_rows (u64 (count_ t + count_ other)) (row_addrs_ t ++ row_addrs_ other) (row_hashes_ t ++ row_hashes_ other) true t),
      set_blocks [] 0 0 (set_rows 0 [] [] (directory_stale_ other) other)).
Definition BuildDirectory (t : PRLHashTable) : result PRLHashTable :=
  n ← NextPowerOfTwo (u64 (count_ t * 2));
  let capacity := Z.max INITIAL_CAPACITY n in
  dir ← link_all (capacity - 1) (replicate (Z.to_nat capacity) None) (zip (take (Z.to_nat (count_ t)) (row_hashes_ t)) (row_addrs_ t));
  Ok (set_rows (count_ t) (row_addrs_ t) (row_hashes_ t) false (set_directory capacity dir t)).

(** ** [Probe] *)

(** The candidate batch, and the pairs found so far. *)
Record ProbeState := mkProbe { cand_addr : list row_ptr; cand_row : list Z; out_addrs : list row_ptr; out_rows : list Z }.
Fixpoint select_ptrs (l : list row_ptr) (idxs : list Z) : result (list row_ptr) :=
  match idxs with
  | [] => Ok []
  | i :: idxs => match l !! Z.to_nat i with Some x => xs ← select_ptrs l idxs; Ok (x :: xs) | None => Err EUndefined end
  end.
Definition flush (cols : list VectorData) (t : PRLHashTable) (mem : Blocks) (s : ProbeState) : result ProbeState :=
  let n_cand := length (cand_addr s) in
  if bool_decide (n_cand = 0%nat) then Ok s else
  '(match_sel, _) ← Match cols (layout_ t) (key_count_ t) (Some <$> cand_addr s) (Z.of_nat <$> seq 0 n_cand) (cand_row s) n_cand (null_equal_keys_ t) mem;
  addrs ← select_ptrs (cand_addr s) match_sel;
  rows ← select (cand_row s) match_sel;
  Ok (mkProbe [] [] (out_addrs s ++ addrs) (out_rows s ++ rows)).
(** The cluster of one probe row. *)
Fixpoint walk_cluster (fuel : nat) (cols : list VectorData) (t : PRLHashTable) (mem : Blocks) (h bucket idx : Z) (s : ProbeState) : result ProbeState :=
  match fuel with
  | O => Err EBlocked
  | S fuel =>
      match directory_ t !! Z.to_nat bucket with
      | None => Err EUndefined
      | Some None => Ok s
      | Some (Some (hash, row)) =>
          s ← (if bool_decide (hash = h) then
                 let s := mkProbe (cand_addr s ++ [row]) (cand_row s ++ [idx]) (out_addrs s) (out_rows s) in
                 if bool_decide (Z.of_nat (length (cand_addr s)) = STANDARD_VECTOR_SIZE) then flush cols t mem s else Ok s
               else Ok s);
          walk_cluster fuel cols t mem h (Z.land (bucket + 1) (bitmask_ t)) idx s
      end
  end.
Fixpoint probe_rows (cols : list VectorData) (t : PRLHashTable) (mem : Blocks) (hash_data idxs : list Z) (s : ProbeState) : result ProbeState :=
  match idxs with
  | [] => Ok s
  | idx :: idxs =>
      h ← at_index hash_data idx;
      s ← walk_cluster (length (directory_ t)) cols t mem h (Z.land h (bitmask_ t)) idx s;
      probe_rows cols t mem hash_data idxs s
  end.
(** The rows [idxs] of a chunk of [size] keys; the blocks of 32 rows only order the prefetches. *)
Definition Probe (hash_data : list Z) (keys : list Vector) (size : nat) (idxs : list Z) (t : PRLHashTable) (mem : Blocks) : result (list row_ptr * list Z) :=
  if bool_decide (idxs = []) || bool_decide (count_ t = 0) then Ok ([], []) else
  if directory_stale_ t then Err (EAssert "PRLHashTable::Probe: call BuildDirectory after Merge/AppendUnbuilt") else
  cols ← chunk_Orrify (Z.of_nat size) keys;
  s ← probe_rows cols t mem hash_data idxs (mkProbe [] [] [] []);
  s ← flush cols t mem s;
  Ok (out_addrs s, out_rows s).
(** [matched]: the flag of every probe row that is in the output. *)
Definition mark_matched (rows : list Z) (matched : list bool) : list bool := fold_left (λ m r, <[Z.to_nat r := true]> m) rows matched.

(** ** [Scan] and [NonNullKeyRows] *)

Section scan.
Context (junk : byte).
Fixpoint scan_columns (layout : RowLayout) (ps : list row_ptr) (col_no ncols : nat) (copy_strings : bool) (mem : Blocks) : result (list Vector) :=
  match ncols with
  | O => Ok []
  | S ncols => v ← FullScanColumn junk layout ps col_no copy_strings mem; vs ← scan_columns layout ps (S col_no) ncols copy_strings mem; Ok (v :: vs)
  end.
Definition Scan (offset : Z) (ncols : nat) (copy_strings : bool) (t : PRLHashTable) (mem : Blocks) : result (list Vector * Z) :=
  if bool_decide (count_ t ≤ offset) then Ok ([], 0) else
  let n := Z.min STANDARD_VECTOR_SIZE (count_ t - offset) in
  vs ← scan_columns (layout_ t) (take (Z.to_nat n) (drop (Z.to_nat offset) (row_addrs_ t))) 0 ncols copy_strings mem;
  Ok (vs, n).
End scan.

Fixpoint all_valid_row (cols : list Vector) (i : Z) : result bool :=
  match cols with
  | [] => Ok true
  | v :: cols => ok ← Vector_RowIsValid v i; if (ok : bool) then all_valid_row cols i else Ok false
  end.
Fixpoint non_null_rows (cols : list Vector) (i : Z) (n : nat) : result (list Z) :=
  match n with
  | O => Ok []
  | S n => ok ← all_valid_row cols i; rest ← non_null_rows cols (i + 1) n; Ok (if (ok : bool) then i :: rest else rest)
  end.
Definition NonNullKeyRows (cols : list Vector) (size : nat) : result (list Z) :=
  vds ← chunk_Orrify (Z.of_nat size) cols;
  if forallb (λ vd, bool_decide (vd_validity vd = None)) vds then Ok (Z.of_nat <$> seq 0 size) else non_null_rows cols 0 size.
