(* ===== verification/HashInvariant.v ===== *)
(** * Linear probing

    The slots from an entry's home bucket to the entry are occupied, so a search that starts at the home
    bucket meets every entry of its hash before the first empty slot. *)

From S2P Require Import Prelude TablePage TableHeap BTreePage BPlusTree GenericKey StringHeap ValidityMask SortKey VectorOps SortKeyOrder RowFormat RowScatter PRLHashTable.

(** The slot [j] steps after the home of hash [h] in a directory of [cap] slots. *)
Definition pos (cap : nat) (h : Z) (j : nat) : nat := Z.to_nat ((h + Z.of_nat j) mod Z.of_nat cap).
Definition power_of_two (cap : nat) : Prop := ∃ k, 0 ≤ k ∧ Z.of_nat cap = 2 ^ k.
Definition occupied (dir : list HTEntry) (s : nat) : Prop := ∃ e, dir !! s = Some (Some e).
Definition entries_of (dir : list HTEntry) : list (Z * row_ptr) := omap id dir.
Definition probing (dir : list HTEntry) : Prop :=
  ∀ s h p, dir !! s = Some (Some (h, p)) → ∃ d, (d < length dir)%nat ∧ pos (length dir) h d = s ∧ ∀ j, (j < d)%nat → occupied dir (pos (length dir) h j).

Lemma power_pos cap : power_of_two cap → (0 < cap)%nat.
Proof. intros (k & Hk & E). assert (0 < 2 ^ k) by (apply Z.pow_pos_nonneg; lia). lia. Qed.
Lemma land_mask cap x : power_of_two cap → Z.land x (Z.of_nat cap - 1) = x mod Z.of_nat cap.
Proof. intros (k & Hk & ->). rewrite Z.sub_1_r, <- Z.ones_equiv. by apply Z.land_ones. Qed.
Lemma pos_lt cap h j : (0 < cap)%nat → (pos cap h j < cap)%nat.
Proof. intros H. unfold pos. pose proof (Z.mod_pos_bound (h + Z.of_nat j) (Z.of_nat cap) ltac:(lia)). lia. Qed.
Lemma pos_home cap h : power_of_two cap → Z.land h (Z.of_nat cap - 1) = Z.of_nat (pos cap h 0).
Proof.
  intros Hc. pose proof (power_pos cap Hc). rewrite land_mask by done. unfold pos. rewrite Z.add_0_r, Z2Nat.id; [done|]. apply Z.mod_pos_bound. lia.
Qed.
Lemma pos_next cap h j : power_of_two cap → Z.land (Z.of_nat (pos cap h j) + 1) (Z.of_nat cap - 1) = Z.of_nat (pos cap h (S j)).
Proof.
  intros Hc. pose proof (power_pos cap Hc). rewrite land_mask by done. unfold pos.
  rewrite !Z2Nat.id by (apply Z.mod_pos_bound; lia). rewrite Z.add_mod_idemp_l by lia. f_equal. lia.
Qed.
(** Every slot is a number of steps away. *)
Lemma pos_surj cap h s : (s < cap)%nat → ∃ d, (d < cap)%nat ∧ pos cap h d = s.
Proof.
  intros Hs. exists (Z.to_nat ((Z.of_nat s - h) mod Z.of_nat cap)).
  pose proof (Z.mod_pos_bound (Z.of_nat s - h) (Z.of_nat cap) ltac:(lia)). split; [lia|].
  unfold pos. rewrite Z2Nat.id by lia. rewrite Z.add_mod_idemp_r by lia. replace (h + (Z.of_nat s - h)) with (Z.of_nat s) by lia. rewrite Z.mod_small by lia. lia.
Qed.
Lemma pos_inj cap h i j : (i < cap)%nat → (j < cap)%nat → pos cap h i = pos cap h j → i = j.
Proof.
  intros Hi Hj E. unfold pos in E. pose proof (Z.mod_pos_bound (h + Z.of_nat i) (Z.of_nat cap) ltac:(lia)). pose proof (Z.mod_pos_bound (h + Z.of_nat j) (Z.of_nat cap) ltac:(lia)).
  assert ((h + Z.of_nat i) mod Z.of_nat cap = (h + Z.of_nat j) mod Z.of_nat cap) as E' by lia.
  pose proof (Z.div_mod (h + Z.of_nat i) (Z.of_nat cap) ltac:(lia)). pose proof (Z.div_mod (h + Z.of_nat j) (Z.of_nat cap) ltac:(lia)).
  assert (Z.of_nat i - Z.of_nat j = Z.of_nat cap * ((h + Z.of_nat i) / Z.of_nat cap - (h + Z.of_nat j) / Z.of_nat cap)) as Ed by lia.
  set (q := (h + Z.of_nat i) / Z.of_nat cap - (h + Z.of_nat j) / Z.of_nat cap) in Ed. assert (q = 0) by (assert (q < 1 ∧ -1 < q) by nia; lia). nia.
Qed.

(** ** Entries *)

Lemma entries_elem dir e : e ∈ entries_of dir ↔ ∃ s, dir !! s = Some (Some e).
Proof.
  unfold entries_of. rewrite list_elem_of_omap. split.
  - intros (x & Hx & E). simpl in E. subst x. by apply list_elem_of_lookup in Hx.
  - intros [s Hs]. exists (Some e). split; [by eapply list_elem_of_lookup_2|done].
Qed.
Lemma entries_insert dir s e : dir !! s = Some None → entries_of (<[s := Some e]> dir) ≡ₚ e :: entries_of dir.
Proof.
  intros Hs. assert (s < length dir)%nat as Hlt by (by eapply lookup_lt_Some). unfold entries_of.
  rewrite (insert_take_drop dir s (Some e)) by done. rewrite <- (take_drop_middle dir s None Hs) at 3.
  rewrite !omap_app. simpl. by rewrite Permutation_middle.
Qed.
Lemma entries_empty n : entries_of (replicate n None) = [].
Proof. unfold entries_of. by induction n. Qed.
(** Fewer entries than slots leave an empty slot. *)
Lemma free_slot dir : (length (entries_of dir) < length dir)%nat → ∃ s, dir !! s = Some None.
Proof.
  induction dir as [|[e|] dir IH]; [simpl; lia| |intros _; by exists 0%nat]. change (entries_of (Some e :: dir)) with (e :: entries_of dir). simpl. intros H.
  destruct IH as [s Hs]; [lia|]. by exists (S s).
Qed.
Lemma occupied_insert dir s e s' : occupied dir s' → occupied (<[s := Some e]> dir) s'.
Proof.
  intros [e' He]. destruct (decide (s = s')) as [->|Hne]; [exists e; apply list_lookup_insert_eq; by eapply lookup_lt_Some|].
  exists e'. by rewrite list_lookup_insert_ne.
Qed.

(** ** Searching *)

Lemma find_empty_from dir h fuel d :
  power_of_two (length dir) → (d + fuel = length dir)%nat → (∃ s, dir !! s = Some None) → (∀ j, (j < d)%nat → occupied dir (pos (length dir) h j)) →
  ∃ e, (e < length dir)%nat ∧ find_empty fuel dir (Z.of_nat (length dir) - 1) (Z.of_nat (pos (length dir) h d)) = Ok (Z.of_nat (pos (length dir) h e)) ∧
    dir !! pos (length dir) h e = Some None ∧ ∀ j, (j < e)%nat → occupied dir (pos (length dir) h j).
Proof.
  intros Hp. pose proof (power_pos _ Hp) as Hpos. revert d. induction fuel as [|fuel IH]; intros d Hd [s Hs] Ho.
  - exfalso. destruct (pos_surj (length dir) h s) as (e & He & Epos); [by eapply lookup_lt_Some|]. destruct (Ho e ltac:(lia)) as [x Hx]. rewrite Epos, Hs in Hx. done.
  - cbn [find_empty]. rewrite Nat2Z.id. destruct (lookup_lt_is_Some_2 dir (pos (length dir) h d)) as [[e|] He]; [by apply pos_lt| |].
    + rewrite He. rewrite pos_next by done. apply IH; [lia|by exists s|]. intros j Hj. destruct (decide (j = d)) as [->|]; [by exists e|]. apply Ho. lia.
    + rewrite He. exists d. split; [lia|]. split; [done|]. split; [done|]. done.
Qed.
Lemma find_empty_ok dir h :
  power_of_two (length dir) → (∃ s, dir !! s = Some None) →
  ∃ e, (e < length dir)%nat ∧ find_empty (length dir) dir (Z.of_nat (length dir) - 1) (Z.land h (Z.of_nat (length dir) - 1)) = Ok (Z.of_nat (pos (length dir) h e)) ∧
    dir !! pos (length dir) h e = Some None ∧ ∀ j, (j < e)%nat → occupied dir (pos (length dir) h j).
Proof. intros Hp Hs. rewrite pos_home by done. apply find_empty_from; [done|lia|done|intros j Hj; lia]. Qed.

(** Putting an entry into the first empty slot of its hash. *)
Lemma probing_insert dir h p e :
  probing dir → (e < length dir)%nat → (∀ j, (j < e)%nat → occupied dir (pos (length dir) h j)) → probing (<[pos (length dir) h e := Some (h, p)]> dir).
Proof.
  intros Hp He Ho s h' p' Hs. rewrite length_insert. destruct (decide (s = pos (length dir) h e)) as [->|Hne].
  - rewrite list_lookup_insert_eq in Hs by (apply pos_lt; lia). injection Hs as <- <-. exists e. split; [done|]. split; [done|]. intros j Hj. by apply occupied_insert, Ho.
  - rewrite list_lookup_insert_ne in Hs by done. destruct (Hp s h' p' Hs) as (d & Hd & Es & Hocc). exists d. split; [done|]. split; [done|].
    intros j Hj. by apply occupied_insert, Hocc.
Qed.
Lemma link_entry_ok dir h p :
  power_of_two (length dir) → probing dir → (length (entries_of dir) < length dir)%nat →
  ∃ dir', link_entry (Z.of_nat (length dir) - 1) dir h p = Ok dir' ∧ length dir' = length dir ∧ probing dir' ∧ entries_of dir' ≡ₚ (h, p) :: entries_of dir.
Proof.
  intros Hp Hpr Hl. destruct (find_empty_ok dir h Hp (free_slot dir Hl)) as (e & He & E & Hs & Ho). unfold link_entry. rewrite E. cbn [mbind result_bind]. rewrite Nat2Z.id.
  eexists. split; [done|]. split; [apply length_insert|]. split; [by apply probing_insert|by apply entries_insert].
Qed.
Lemma link_all_ok dir entries :
  power_of_two (length dir) → probing dir → (length (entries_of dir) + length entries < length dir)%nat →
  ∃ dir', link_all (Z.of_nat (length dir) - 1) dir entries = Ok dir' ∧ length dir' = length dir ∧ probing dir' ∧ entries_of dir' ≡ₚ entries ++ entries_of dir.
Proof.
  revert dir. induction entries as [|[h p] entries IH]; intros dir Hp Hpr Hl; [by exists dir|].
  simpl in Hl. destruct (link_entry_ok dir h p Hp Hpr ltac:(lia)) as (d1 & E1 & L1 & P1 & En1). cbn [link_all]. rewrite E1. cbn [mbind result_bind].
  rewrite <- L1. destruct (IH d1) as (d2 & E2 & L2 & P2 & En2); [by rewrite L1|done|rewrite En1, L1; simpl; lia|].
  exists d2. split; [done|]. split; [congruence|]. split; [done|]. rewrite En2, En1. simpl. by rewrite Permutation_middle.
Qed.
(** A directory built from nothing. *)
Lemma link_from_empty cap entries :
  power_of_two cap → (length entries < cap)%nat →
  ∃ dir, link_all (Z.of_nat cap - 1) (replicate cap None) entries = Ok dir ∧ length dir = cap ∧ probing dir ∧ entries_of dir ≡ₚ entries.
Proof.
  intros Hp Hl. destruct (link_all_ok (replicate cap None) entries) as (d & E & L & P & En); [by rewrite length_replicate| |rewrite entries_empty, length_replicate; simpl; lia|].
  - intros s h p Hs. apply lookup_replicate in Hs as [? _]. done.
  - rewrite length_replicate in E, L. exists d. rewrite entries_empty, app_nil_r in En. done.
Qed.

(** * What a hash table stores

    The rows lie in regions of their own inside the table's blocks; the directory, unless it is stale, has
    one entry for every row. *)

Abbreviation Row := (list (option cell)).

(** ** Rows in other memory *)

(** A row is in its block, whatever the other blocks hold. *)
Lemma row_load_block p off n mem mem' : mem' !! p.1 = mem !! p.1 → row_load p off n mem' = row_load p off n mem.
Proof. intros E. unfold row_load. by rewrite E. Qed.
Lemma in_mem_block p n mem mem' : mem' !! p.1 = mem !! p.1 → in_mem p n mem → in_mem p n mem'.
Proof. intros E (blk & Hb & H). exists blk. by rewrite E. Qed.
Lemma holds_row_block layout p row mem mem' : mem' !! p.1 = mem !! p.1 → holds_row layout p row mem → holds_row layout p row mem'.
Proof.
  intros E (Hl & Hm & HF & HC). split; [done|]. split; [by eapply in_mem_block|]. split.
  - intros c v Hc. destruct (HF c v Hc) as (b & Hb & Hbit). exists b. by rewrite (row_load_block _ _ _ mem).
  - intros c ty off v H1 H2 H3 H4. specialize (HC c ty off v H1 H2 H3 H4). unfold cell_stored in *. destruct (is_numeric ty).
    + destruct v as [[z|s]|]; [|done..]. by rewrite (row_load_block _ _ _ mem).
    + destruct HC as (h & ? & ? & ? & E1 & E2). exists h. by rewrite !(row_load_block _ _ _ mem mem' E).
Qed.
Lemma prefix_block p n mem mem' : mem `prefix_of` mem' → in_mem p n mem → mem' !! p.1 = mem !! p.1.
Proof. intros Hp (blk & Hb & _). rewrite Hb. by eapply prefix_lookup_Some. Qed.
Lemma in_mem_prefix p n mem mem' : mem `prefix_of` mem' → in_mem p n mem → in_mem p n mem'.
Proof. intros Hp Hm. eapply in_mem_block; [by eapply prefix_block|done]. Qed.
Lemma holds_row_prefix layout p row mem mem' : mem `prefix_of` mem' → holds_row layout p row mem → holds_row layout p row mem'.
Proof. intros Hp Hh. eapply holds_row_block; [|done]. eapply prefix_block; [done|apply Hh]. Qed.
(** Bytes determine blocks. *)
Lemma bytes_block mem mem' b : same_shape mem mem' → (∀ a, byte_at mem' b a = byte_at mem b a) → mem' !! b = mem !! b.
Proof.
  intros Hs H. assert ((length <$> mem') !! b = (length <$> mem) !! b) as Hl by (by rewrite Hs). rewrite !list_lookup_fmap in Hl.
  destruct (mem !! b) as [blk|] eqn:E, (mem' !! b) as [blk'|] eqn:E'; try done. f_equal. apply list_eq. intros i. specialize (H (Z.of_nat i)). unfold byte_at in H.
  rewrite E, E', bool_decide_true, Nat2Z.id in H by lia. done.
Qed.
(** Only some blocks, and blocks that are new, change. *)
Definition keeps (blocks : list nat) (mem mem' : Blocks) : Prop := (length mem ≤ length mem')%nat ∧ ∀ b, (b < length mem)%nat → b ∉ blocks → mem' !! b = mem !! b.
Lemma keeps_prefix blocks mem mem' : mem `prefix_of` mem' → keeps blocks mem mem'.
Proof.
  intros Hp. split; [by apply prefix_length|]. intros b Hb _. destruct (lookup_lt_is_Some_2 mem b Hb) as [blk E]. rewrite E. by eapply prefix_lookup_Some.
Qed.
Lemma keeps_trans b1 b2 m1 m2 m3 : keeps b1 m1 m2 → keeps b2 m2 m3 → (∀ b, b ∈ b2 → b ∈ b1 ∨ (length m1 ≤ b)%nat) → keeps b1 m1 m3.
Proof.
  intros [H1 H2] [H3 H4] Hb. split; [lia|]. intros b Hlt Hni. rewrite H4, H2; [done..|lia|]. intros Hin. destruct (Hb b Hin) as [?|?]; [done|lia].
Qed.

(** ** The allocator *)

Record alloc_ok (blocks : list nat) (used cap : Z) (addrs : list row_ptr) (mem : Blocks) (sizes : list Z) : Prop := {
  al_length : length addrs = length sizes;
  al_rows : ∀ g p n, addrs !! g = Some p → sizes !! g = Some n → 0 < n ∧ in_mem p n mem ∧ p.1 ∈ blocks;
  al_apart : ∀ g g' p p' n n', g ≠ g' → addrs !! g = Some p → sizes !! g = Some n → addrs !! g' = Some p' → sizes !! g' = Some n' → apart p n p' n';
  al_blocks : ∀ b, b ∈ blocks → (b < length mem)%nat;
  al_free : ∀ b, last blocks = Some b → 0 ≤ used ≤ cap ∧ in_mem (b, 0) cap mem ∧
    (0 < cap → ∀ g p n, addrs !! g = Some p → sizes !! g = Some n → p.1 = b → p.2 + n ≤ used) }.

(** Distinct rows have distinct addresses. *)
Lemma alloc_inj blocks used cap addrs mem sizes g g' p :
  alloc_ok blocks used cap addrs mem sizes → addrs !! g = Some p → addrs !! g' = Some p → g = g'.
Proof.
  intros A Hg Hg'. destruct (decide (g = g')) as [|Hne]; [done|]. exfalso.
  destruct (lookup_lt_is_Some_2 sizes g) as [n Hn]; [rewrite <- (al_length _ _ _ _ _ _ A); by eapply lookup_lt_Some|].
  destruct (lookup_lt_is_Some_2 sizes g') as [n' Hn']; [rewrite <- (al_length _ _ _ _ _ _ A); by eapply lookup_lt_Some|].
  destruct (al_rows _ _ _ _ _ _ A g p n Hg Hn) as [H1 _]. destruct (al_rows _ _ _ _ _ _ A g' p n' Hg' Hn') as [H2 _].
  destruct (al_apart _ _ _ _ _ _ A g g' p p n n' Hne Hg Hn Hg' Hn') as [H|H]; [done|lia].
Qed.
Lemma alloc_NoDup blocks used cap addrs mem sizes : alloc_ok blocks used cap addrs mem sizes → NoDup addrs.
Proof. intros A. apply NoDup_alt. intros g g' p. by eapply alloc_inj. Qed.

(** Placing a row in the free part of the last block. *)
Lemma alloc_place blocks used cap addrs mem sizes b n :
  alloc_ok blocks used cap addrs mem sizes → last blocks = Some b → 0 < n → used + n ≤ cap →
  alloc_ok blocks (used + n) cap (addrs ++ [(b, used)]) mem (sizes ++ [n]).
Proof.
  intros [Hl Hr Ha Hb Hf] Hlast Hn Hfit. destruct (Hf b Hlast) as (Hu & (blk & Hblk & H1 & H2 & H3) & Hend). simpl in Hblk, H1, H3.
  assert (∀ g p m, (addrs ++ [(b, used)]) !! g = Some p → (sizes ++ [n]) !! g = Some m →
    (addrs !! g = Some p ∧ sizes !! g = Some m) ∨ (g = length addrs ∧ p = (b, used) ∧ m = n)) as Hcase.
  { intros g p m Hg Hm. destruct (decide (g < length addrs)%nat) as [Hlt|Hge].
    - left. rewrite !lookup_app_l in * by lia. done.
    - right. rewrite lookup_app_r in Hg by lia. rewrite lookup_app_r in Hm by lia. apply list_lookup_singleton_Some in Hg as [Hg <-].
      apply list_lookup_singleton_Some in Hm as [_ <-]. split; [lia|done]. }
  assert (∀ g p m, addrs !! g = Some p → sizes !! g = Some m → apart p m (b, used) n) as Hnew.
  { intros g p m Hg Hm. destruct (decide (p.1 = b)) as [E|E]; [|by left]. right. left. simpl. by eapply Hend; [lia|..]. }
  split; [by rewrite !length_app, Hl| | |done|].
  - intros g p m Hg Hm. destruct (Hcase g p m Hg Hm) as [[? ?]|(_ & -> & ->)]; [by eapply Hr|]. split; [done|].
    split; [exists blk; simpl; split; [done|lia]|]. simpl. by eapply last_Some_elem_of.
  - intros g g' p p' m m' Hne Hg Hm Hg' Hm'. destruct (Hcase g p m Hg Hm) as [[? ?]|(-> & -> & ->)], (Hcase g' p' m' Hg' Hm') as [[? ?]|(-> & -> & ->)].
    + by eapply (Ha g g').
    + by eapply Hnew.
    + pose proof (Hnew _ _ _ H H0) as [Hap|Hap]; [left; by apply not_eq_sym|right; lia].
    + done.
  - intros b' Hb'. rewrite Hlast in Hb'. injection Hb' as <-. split; [lia|]. split; [by exists blk|]. intros Hc g p m Hg Hm Hpb.
    destruct (Hcase g p m Hg Hm) as [[? ?]|(_ & -> & ->)]; [|simpl; lia]. pose proof (Hend Hc g p m H H0 Hpb). lia.
Qed.
(** A fresh block. *)
Lemma alloc_block blocks used cap addrs mem sizes cap' :
  alloc_ok blocks used cap addrs mem sizes → 0 ≤ cap' →
  alloc_ok (blocks ++ [length mem]) 0 cap' addrs (mem ++ [replicate (Z.to_nat cap') Byte.x00]) sizes.
Proof.
  intros [Hl Hr Ha Hb Hf] Hc. assert (mem `prefix_of` mem ++ [replicate (Z.to_nat cap') Byte.x00]) as Hp by (by apply prefix_app_r).
  split; [done| |done| |].
  - intros g p n Hg Hn. destruct (Hr g p n Hg Hn) as (H1 & H2 & H3). split; [done|]. split; [by eapply in_mem_prefix|set_solver].
  - intros b Hb'. rewrite length_app. simpl. apply elem_of_app in Hb' as [Hb'|Hb']; [specialize (Hb b Hb'); lia|]. apply list_elem_of_singleton in Hb'. lia.
  - intros b Hlast. rewrite last_snoc in Hlast. injection Hlast as <-. split; [lia|]. split.
    + exists (replicate (Z.to_nat cap') Byte.x00). simpl. rewrite lookup_app_r, Nat.sub_diag by lia. split; [done|]. rewrite length_replicate. lia.
    + intros _ g p n Hg Hn Hpb. destruct (Hr g p n Hg Hn) as (_ & _ & H3). specialize (Hb _ H3). lia.
Qed.
(** [AllocateRow] gives a region apart from all rows. *)
Lemma AllocateRow_ok t mem sizes n :
  alloc_ok (blocks_ t) (block_used_ t) (block_capacity_ t) (row_addrs_ t) mem sizes → 0 < n →
  ∃ p blocks used cap mem', AllocateRow n t mem = Ok (p, set_blocks blocks used cap t, mem') ∧ mem `prefix_of` mem' ∧
    blocks_ t `prefix_of` blocks ∧ (∀ b, b ∈ blocks → b ∈ blocks_ t ∨ (length mem ≤ b)%nat) ∧
    alloc_ok blocks used cap (row_addrs_ t ++ [p]) mem' (sizes ++ [n]).
Proof.
  intros A Hn. unfold AllocateRow. case_bool_decide as Hnew.
  - set (cap := Z.max BLOCK_SIZE n). pose proof (alloc_block _ _ _ _ _ _ cap A ltac:(unfold cap; lia)) as A'. cbn [blocks_ set_blocks block_used_ block_capacity_].
    rewrite last_snoc. pose proof (alloc_place _ _ _ _ _ _ (length mem) n A' ltac:(apply last_snoc) Hn ltac:(unfold cap; lia)) as A''.
    eexists _, _, _, _, _. split; [done|]. split; [by apply prefix_app_r|]. split; [by apply prefix_app_r|]. split; [|done].
    intros b [Hb|Hb]%elem_of_app; [by left|]. apply list_elem_of_singleton in Hb. right. lia.
  - apply Decidable.not_or in Hnew as [Hne Hfit]. destruct (last (blocks_ t)) as [b|] eqn:Hlast; [|by apply last_None in Hlast].
    pose proof (alloc_place _ _ _ _ _ _ b n A Hlast Hn ltac:(lia)) as A'. eexists _, _, _, _, _. split; [done|]. split; [done|]. split; [done|]. split; [by left|done].
Qed.

(** ** The directory *)

Record dir_ok (t : PRLHashTable) : Prop := {
  do_power : power_of_two (length (directory_ t));
  do_capacity : capacity_ t = Z.of_nat (length (directory_ t));
  do_mask : bitmask_ t = capacity_ t - 1;
  do_min : INITIAL_CAPACITY ≤ capacity_ t;
  do_probing : probing (directory_ t);
  do_entries : directory_stale_ t = false → entries_of (directory_ t) ≡ₚ zip (row_hashes_ t) (row_addrs_ t);
  do_room : directory_stale_ t = false → (length (row_addrs_ t) < length (directory_ t))%nat }.
(** The fields a directory does not touch. *)
Definition same_rows (t t' : PRLHashTable) : Prop := t' = set_rows (count_ t) (row_addrs_ t) (row_hashes_ t) (directory_stale_ t') (set_directory (capacity_ t') (directory_ t') t).

Lemma same_rows_count t t' : same_rows t t' → count_ t' = count_ t.
Proof. by intros ->. Qed.
Lemma same_rows_trans t t' t'' : same_rows t t' → same_rows t' t'' → same_rows t t''.
Proof. intros H1 H2. unfold same_rows in *. rewrite H2 at 1. rewrite H1. done. Qed.

Lemma power_double cap : power_of_two cap → power_of_two (2 * cap).
Proof. intros (k & Hk & E). exists (Z.succ k). split; [lia|]. rewrite Z.pow_succ_r by done. lia. Qed.
Lemma power_land cap : power_of_two cap → Z.land (Z.of_nat cap) (Z.of_nat cap - 1) = 0.
Proof. intros Hp. pose proof (power_pos cap Hp). rewrite land_mask by done. apply Z.mod_same. lia. Qed.

Lemma Resize_ok t :
  dir_ok t → directory_stale_ t = false → length (row_hashes_ t) = length (row_addrs_ t) →
  ∃ t', Resize (capacity_ t * 2) t = Ok t' ∧ same_rows t t' ∧ directory_stale_ t' = false ∧ dir_ok t' ∧ capacity_ t' = capacity_ t * 2.
Proof.
  intros [Hp Hc Hm Hmin Hpr He Hr] Hs Hl. specialize (He Hs). specialize (Hr Hs). unfold Resize. unfold INITIAL_CAPACITY in *.
  replace (capacity_ t * 2) with (Z.of_nat (2 * length (directory_ t))) by lia. pose proof (power_double _ Hp) as Hp2.
  rewrite bool_decide_true by (split; [by apply power_land|lia]). cbn [negb]. rewrite Nat2Z.id.
  destruct (link_from_empty (2 * length (directory_ t)) (omap id (directory_ t)) Hp2) as (dir & E & Ld & Pd & Ed).
  { change (omap id (directory_ t)) with (entries_of (directory_ t)). rewrite He, length_zip_with. lia. }
  rewrite E. cbn [mbind result_bind]. eexists. split; [done|]. split; [by destruct t|]. split; [done|]. split; [|done].
  split; cbn [set_directory directory_ capacity_ bitmask_ row_hashes_ row_addrs_ directory_stale_]; rewrite ?Ld; try done; try lia.
  - unfold INITIAL_CAPACITY. lia.
  - intros _. etrans; [exact Ed|exact He].
Qed.

Lemma to_float_pow2 k : 0 ≤ k → to_float (2 ^ k) = 2 ^ k.
Proof.
  intros Hk. unfold to_float. rewrite Z.log2_pow2 by done. case_bool_decide as He; [done|]. 
  assert (2 ^ k = 2 ^ 23 * 2 ^ (k - 23)) as Ek by (rewrite <- Z.pow_add_r by lia; f_equal; lia).
  assert (0 < 2 ^ (k - 23)) by (apply Z.pow_pos_nonneg; lia). assert (0 < 2 ^ (k - 23 - 1)) by (apply Z.pow_pos_nonneg; lia).
  rewrite Ek, Z.mod_mul, Z.div_mul by lia. rewrite bool_decide_false by lia. done.
Qed.
Lemma to_float_le n : 0 < n → 0 ≤ to_float n ≤ 2 * n.
Proof.
  intros Hn. unfold to_float. case_bool_decide as He; [lia|]. set (e := Z.log2 n - 23) in *.
  assert (0 < 2 ^ e) by (apply Z.pow_pos_nonneg; lia). pose proof (Z.div_mod n (2 ^ e) ltac:(lia)). pose proof (Z.mod_pos_bound n (2 ^ e) ltac:(lia)).
  assert (1 ≤ n / 2 ^ e).
  { apply Z.div_le_lower_bound; [lia|]. pose proof (Z.log2_spec n Hn) as [Hlog _]. rewrite Z.mul_1_r. etrans; [|exact Hlog].
    apply Z.pow_le_mono_r; lia. }
  case_bool_decide; nia.
Qed.
Lemma overloaded_full total cap : overloaded total cap = false → total < cap.
Proof. unfold overloaded. intros [H _]%orb_false_elim. apply bool_decide_eq_false in H. lia. Qed.
Lemma overloaded_bound total cap : power_of_two cap → 0 < total → overloaded total (Z.of_nat cap) = true → Z.of_nat cap < 4 * total.
Proof.
  intros (k & Hk & E) Ht. unfold overloaded. rewrite E, to_float_pow2 by done. pose proof (to_float_le total Ht). intros [H0|H0]%orb_true_iff; apply bool_decide_eq_true in H0; lia.
Qed.

(** Growing for [n] more rows ends, with a directory that has room for them. *)
Lemma ensure_capacity_from fuel n t :
  dir_ok t → directory_stale_ t = false → length (row_hashes_ t) = length (row_addrs_ t) →
  0 ≤ count_ t → 0 < n → count_ t + n < 2 ^ 60 → 4 * (count_ t + n) ≤ capacity_ t * 2 ^ Z.of_nat fuel →
  ∃ t', ensure_capacity fuel n t = Ok t' ∧ same_rows t t' ∧ directory_stale_ t' = false ∧ dir_ok t' ∧ count_ t + n < capacity_ t'.
Proof.
  revert t. induction fuel as [|fuel IH]; intros t D Hs Hl H0 Hn Hb Hf.
  - cbn [ensure_capacity]. assert (u64 (count_ t + n) = count_ t + n) as -> by (unfold u64; apply Z.mod_small; lia).
    rewrite (do_capacity _ D) in *. destruct (overloaded _ _) eqn:E.
    + apply overloaded_bound in E; [|apply (do_power _ D)|lia]. lia.
    + exists t. apply overloaded_full in E. split; [done|]. split; [|rewrite <- (do_capacity _ D) in E; by rewrite (do_capacity _ D) in *].
      unfold same_rows. destruct D as [_ _ Hm _ _ _ _]. destruct t; simpl in *. by subst.
  - cbn [ensure_capacity]. assert (u64 (count_ t + n) = count_ t + n) as -> by (unfold u64; apply Z.mod_small; lia).
    destruct (overloaded _ _) eqn:E.
    + rewrite (do_capacity _ D) in E. apply overloaded_bound in E; [|apply (do_power _ D)|lia]. rewrite <- (do_capacity _ D) in E.
      pose proof (do_min _ D). assert (u64 (capacity_ t * 2) = capacity_ t * 2) as -> by (unfold u64, INITIAL_CAPACITY in *; apply Z.mod_small; lia).
      destruct (Resize_ok t D Hs Hl) as (t1 & E1 & S1 & Hs1 & D1 & Hc1). rewrite E1. cbn [mbind result_bind].
      destruct (IH t1 D1 Hs1) as (t2 & E2 & S2 & Hs2 & D2 & Hc2); rewrite ?(same_rows_count _ _ S1); try done; [by rewrite S1|rewrite Hc1; rewrite Nat2Z.inj_succ, Z.pow_succ_r in Hf by lia; lia|].
      exists t2. split; [done|]. split; [by eapply same_rows_trans|]. split; [done|]. split; [done|]. by rewrite <- (same_rows_count _ _ S1).
    + exists t. apply overloaded_full in E. split; [done|]. split; [|done].
      unfold same_rows. destruct D as [_ _ Hm _ _ _ _]. destruct t; simpl in *. by subst.
Qed.
Lemma ensure_capacity_ok n t :
  dir_ok t → directory_stale_ t = false → length (row_hashes_ t) = length (row_addrs_ t) → 0 ≤ count_ t → 0 < n → count_ t + n < 2 ^ 60 →
  ∃ t', ensure_capacity 64 n t = Ok t' ∧ same_rows t t' ∧ directory_stale_ t' = false ∧ dir_ok t' ∧ count_ t + n < capacity_ t'.
Proof.
  intros D Hs Hl H0 Hn Hb. apply ensure_capacity_from; [done..|]. pose proof (do_min _ D). unfold INITIAL_CAPACITY in *. change (2 ^ Z.of_nat 64) with (2 ^ 64). lia.
Qed.

Lemma next_power_from fuel k n :
  0 ≤ k → k + Z.of_nat fuel = 65 → n ≤ 2 ^ 63 → (k ≤ 63) → ∃ j, next_power fuel (2 ^ k) n = Ok (2 ^ j) ∧ 0 ≤ j ≤ 63 ∧ n ≤ 2 ^ j.
Proof.
  revert k. induction fuel as [|fuel IH]; intros k Hk Hf Hn Hle; [lia|]. cbn [next_power]. case_bool_decide as Hlt.
  - assert (k < 63) as Hk63 by (destruct (decide (k = 63)) as [->|]; lia). rewrite Z.shiftl_mul_pow2, Z.pow_1_r by lia.
    assert (2 ^ k * 2 = 2 ^ (k + 1)) as -> by (rewrite Z.pow_add_r by lia; lia). assert (u64 (2 ^ (k + 1)) = 2 ^ (k + 1)) as ->; [|apply IH; lia].
    unfold u64. apply Z.mod_small. split; [apply Z.pow_nonneg; lia|]. apply Z.pow_lt_mono_r; lia.
  - exists k. split; [done|]. lia.
Qed.
Lemma NextPowerOfTwo_ok n : n ≤ 2 ^ 63 → ∃ j, NextPowerOfTwo n = Ok (2 ^ j) ∧ 0 ≤ j ≤ 63 ∧ n ≤ 2 ^ j.
Proof. intros H. apply (next_power_from 65 0); lia. Qed.

(** One pass links every row. *)
Lemma BuildDirectory_ok t :
  length (row_hashes_ t) = length (row_addrs_ t) → count_ t = Z.of_nat (length (row_addrs_ t)) → count_ t < 2 ^ 60 →
  ∃ t', BuildDirectory t = Ok t' ∧ same_rows t t' ∧ directory_stale_ t' = false ∧ dir_ok t'.
Proof.
  intros Hl Hc Hb. unfold BuildDirectory. assert (u64 (count_ t * 2) = count_ t * 2) as -> by (unfold u64; apply Z.mod_small; lia).
  destruct (NextPowerOfTwo_ok (count_ t * 2) ltac:(lia)) as (j & -> & Hj & Hn). cbn [mbind result_bind].
  assert (∃ k, 0 ≤ k ∧ Z.max INITIAL_CAPACITY (2 ^ j) = 2 ^ k) as (k & Hk & Ek).
  { destruct (Z.max_spec INITIAL_CAPACITY (2 ^ j)) as [[_ ->]|[_ ->]]; [exists j; lia|exists 10; done]. }
  rewrite Ek. assert (INITIAL_CAPACITY ≤ 2 ^ k ∧ count_ t * 2 ≤ 2 ^ k) as [Hmin Hbig] by lia. unfold INITIAL_CAPACITY in *.
  rewrite (take_ge (row_hashes_ t)) by lia.
  destruct (link_from_empty (Z.to_nat (2 ^ k)) (zip (row_hashes_ t) (row_addrs_ t))) as (dir & E & Ld & Pd & Ed).
  { exists k. split; [done|]. lia. }
  { rewrite length_zip_with. lia. }
  rewrite Z2Nat.id in E by lia. rewrite E. cbn [mbind result_bind]. eexists. split; [done|]. split; [by destruct t|]. split; [done|].
  split; simpl; rewrite ?Ld; try done; try lia. exists k. lia.
Qed.

(** ** Tables *)

(** What the table needs of the hashes its callers pass: rows with equal keys have equal hashes. *)
Class KeyHash (null_equal : bool) (key_types : list PhysicalType) (row_hash : Row → Z) : Prop := {
  hash_respects : ∀ a b, (length key_types ≤ length a)%nat → (length key_types ≤ length b)%nat →
    key_eq null_equal key_types a b = true → row_hash a = row_hash b }.

Definition contents (layout : RowLayout) (addrs : list row_ptr) (rows : list Row) (mem : Blocks) : Prop :=
  Forall2 (λ p row, holds_row layout p row mem ∧ row_in_types layout row) addrs rows.
Definition key_types (t : PRLHashTable) : list PhysicalType := take (key_count_ t) (types_ t).

Record shape_ok (t : PRLHashTable) : Prop := {
  sh_layout : layout_ok (layout_ t);
  sh_types : rl_types (layout_ t) = types_ t;
  sh_columns : types_ t ≠ [];
  sh_width : rl_fixed_width (layout_ t) < 2 ^ 32;
  sh_keys : (0 < key_count_ t ≤ length (types_ t))%nat }.
(** The table holds [rows], in the order they came. *)
Record table_ok (row_hash : Row → Z) (t : PRLHashTable) (mem : Blocks) (rows : list Row) : Prop := {
  tb_shape : shape_ok t;
  tb_alloc : alloc_ok (blocks_ t) (block_used_ t) (block_capacity_ t) (row_addrs_ t) mem (row_size (layout_ t) <$> rows);
  tb_contents : contents (layout_ t) (row_addrs_ t) rows mem;
  tb_hashes : row_hashes_ t = row_hash <$> rows;
  tb_count : count_ t = Z.of_nat (length rows);
  tb_dir : dir_ok t }.

(** The rows of a chunk, as its columns read. *)
Definition chunk_reads (types : list PhysicalType) (cols : list VectorData) (size : nat) (rowv : Z → Row) : Prop :=
  length cols = length types ∧ ∀ idx, 0 ≤ idx < Z.of_nat size → length (rowv idx) = length types ∧
    ∀ c ty col, types !! c = Some ty → cols !! c = Some col → ∃ v, rowv idx !! c = Some v ∧ reads ty col idx v.

Lemma contents_lookup layout addrs rows mem g p row :
  contents layout addrs rows mem → addrs !! g = Some p → rows !! g = Some row → holds_row layout p row mem ∧ row_in_types layout row.
Proof. intros H. by apply (Forall2_lookup_lr _ _ _ g p row H). Qed.
Lemma table_lengths H t mem rows : table_ok H t mem rows → length (row_addrs_ t) = length rows ∧ length (row_hashes_ t) = length (row_addrs_ t).
Proof.
  intros T. pose proof (al_length _ _ _ _ _ _ (tb_alloc _ _ _ _ T)) as Hl. rewrite length_fmap in Hl. rewrite (tb_hashes _ _ _ _ T), length_fmap. done.
Qed.
Lemma in_types_typed layout row : length row = length (rl_types layout) → row_in_types layout row → typed_row layout row.
Proof.
  intros Hl Ht. apply Forall2_same_length_lookup_2; [done|]. intros c ty v Hty Hv. destruct v as [x|]; [|done].
  specialize (Ht c ty x Hty Hv). destruct x; simpl in *; tauto.
Qed.
Lemma key_types_length t : shape_ok t → length (key_types t) = key_count_ t.
Proof. intros S. pose proof (sh_keys _ S). unfold key_types. rewrite length_take. lia. Qed.
Lemma row_size_pos layout row : layout_ok layout → rl_types layout ≠ [] → 0 < row_size layout row.
Proof.
  intros L Hne. unfold row_size. pose proof (payload_nonneg row). assert (0 < length (rl_types layout))%nat by (destruct (rl_types layout); [done|simpl; lia]).
  pose proof (lo_flags _ L 0 ltac:(done)). pose proof (lo_flag_width _ L). lia.
Qed.
