(* ===== verification/HashAppend.v ===== *)
(** * [Probe] finds exactly the rows with an equal key *)

From S2P Require Import Prelude TablePage TableHeap BTreePage BPlusTree GenericKey StringHeap ValidityMask SortKey VectorOps SortKeyOrder RowFormat RowScatter PRLHashTable HashInvariant.

(** ** Clusters *)

(** The rows of hash [h] in the first [e] slots after its home. *)
Definition slot_row (h : Z) (entry : option HTEntry) : option row_ptr :=
  match entry with Some (Some (h', p)) => if bool_decide (h' = h) then Some p else None | _ => None end.
Definition cluster (dir : list HTEntry) (h : Z) (from n : nat) : list row_ptr :=
  omap (λ j, slot_row h (dir !! pos (length dir) h j)) (seq from n).

Lemma entries_slot_inj dir s s' e e' : NoDup (entries_of dir).*2 → dir !! s = Some (Some e) → dir !! s' = Some (Some e') → e.2 = e'.2 → s = s'.
Proof.
  revert s s'. induction dir as [|x dir IH]; intros [|s] [|s'] Hnd H1 H2 E; cbn in H1, H2; simplify_eq; try done.
  - change (entries_of (Some e :: dir)) with (e :: entries_of dir) in Hnd. rewrite fmap_cons in Hnd. apply NoDup_cons in Hnd as [Hn _]. exfalso. apply Hn.
    rewrite E. apply list_elem_of_fmap_2. apply entries_elem. by exists s'.
  - change (entries_of (Some e' :: dir)) with (e' :: entries_of dir) in Hnd. rewrite fmap_cons in Hnd. apply NoDup_cons in Hnd as [Hn _]. exfalso. apply Hn.
    rewrite <- E. apply list_elem_of_fmap_2. apply entries_elem. by exists s.
  - f_equal. eapply IH; [|done|done|done]. destruct x as [x|]; [|done]. change (entries_of (Some x :: dir)) with (x :: entries_of dir) in Hnd.
    rewrite fmap_cons in Hnd. by apply NoDup_cons in Hnd as [_ ?].
Qed.
Lemma cluster_elem dir h n p : p ∈ cluster dir h 0 n ↔ ∃ j, (j < n)%nat ∧ dir !! pos (length dir) h j = Some (Some (h, p)).
Proof.
  unfold cluster. rewrite list_elem_of_omap. split.
  - intros (j & Hj%elem_of_seq & E). exists j. split; [lia|]. unfold slot_row in E. destruct (dir !! _) as [[[h' p']|]|]; try done. case_bool_decide; naive_solver.
  - intros (j & Hj & E). exists j. split; [apply elem_of_seq; lia|]. unfold slot_row. rewrite E. by rewrite bool_decide_true.
Qed.
Lemma cluster_NoDup dir h n : (n ≤ length dir)%nat → NoDup (entries_of dir).*2 → NoDup (cluster dir h 0 n).
Proof.
  intros Hn Hnd. unfold cluster. assert (∀ js, NoDup js → (∀ j, j ∈ js → (j < length dir)%nat) → NoDup (omap (λ j, slot_row h (dir !! pos (length dir) h j)) js)) as Hgen.
  { induction js as [|j js IH]; intros Hj Hlt; [constructor|]. apply NoDup_cons in Hj as [Hj Hjs]. cbn [omap list_omap]. specialize (IH Hjs ltac:(set_solver)).
    destruct (slot_row h (dir !! pos (length dir) h j)) as [p|] eqn:E; [|done]. apply NoDup_cons. split; [|done]. intros (j' & Hj' & E')%list_elem_of_omap.
    unfold slot_row in E, E'. destruct (dir !! pos (length dir) h j) as [[[h1 p1]|]|] eqn:E1; try done. destruct (dir !! pos (length dir) h j') as [[[h2 p2]|]|] eqn:E2; try done.
    repeat case_bool_decide; simplify_eq. assert (pos (length dir) h j = pos (length dir) h j') as Ep by (by eapply (entries_slot_inj dir); [done|exact E1|exact E2|done]).
    apply pos_inj in Ep; [by subst|apply Hlt; set_solver..]. }
  apply Hgen; [apply NoDup_seq|]. intros j Hj%elem_of_seq. lia.
Qed.
(** Up to the first empty slot, a cluster has every row of its hash. *)
Lemma cluster_entries dir h e p :
  probing dir → (e < length dir)%nat → dir !! pos (length dir) h e = Some None → (∀ j, (j < e)%nat → occupied dir (pos (length dir) h j)) →
  p ∈ cluster dir h 0 e ↔ (h, p) ∈ entries_of dir.
Proof.
  intros Hp He Hemp Hocc. rewrite cluster_elem, entries_elem. split; [intros (j & _ & E); by eexists|]. intros [s Hs].
  destruct (Hp s h p Hs) as (d & Hd & Ed & Hbefore). exists d. rewrite Ed. split; [|done].
  destruct (decide (d < e)%nat) as [|Hge]; [done|]. exfalso. destruct (decide (d = e)) as [->|Hne]; [by rewrite Ed, Hs in Hemp|].
  destruct (Hbefore e ltac:(lia)) as [x Hx]. by rewrite Hemp in Hx.
Qed.

(** ** Selections of list positions *)

Lemma select_filter {A} (l : list A) (f : nat → bool) (g : A → bool) :
  (∀ i x, l !! i = Some x → f i = g x) → omap (λ i, l !! i) (filter (λ i, f i = true) (seq 0 (length l))) = filter (λ x, g x = true) l.
Proof.
  induction l as [|x l IH] using rev_ind; intros H; [done|]. rewrite length_app, seq_app, !filter_app, omap_app. simpl. f_equal.
  - rewrite <- IH by (intros i y Hy; apply H; by apply lookup_app_l_Some). apply list_omap_ext.
    apply Forall_Forall2_diag, Forall_forall. intros i [_ Hi%elem_of_seq]%list_elem_of_filter. apply lookup_app_l. lia.
  - assert ((l ++ [x]) !! length l = Some x) as Hx by (by apply list_lookup_middle). rewrite !filter_cons, (H _ _ Hx). case_decide; [|done]. simpl. by rewrite Hx.
Qed.
Lemma select_ok l idxs : Forall (λ i, (i < length l)%nat) idxs → select l (Z.of_nat <$> idxs) = Ok (omap (λ i, l !! i) idxs).
Proof.
  induction 1 as [|i idxs Hi _ IH]; [done|]. rewrite fmap_cons. cbn [select]. unfold at_index. rewrite Nat2Z.id. destruct (lookup_lt_is_Some_2 l i Hi) as [x Hx].
  rewrite Hx. cbn [mbind result_bind]. rewrite IH. cbn. by rewrite Hx.
Qed.
Lemma select_ptrs_ok l idxs : Forall (λ i, (i < length l)%nat) idxs → select_ptrs l (Z.of_nat <$> idxs) = Ok (omap (λ i, l !! i) idxs).
Proof.
  induction 1 as [|i idxs Hi _ IH]; [done|]. rewrite fmap_cons. cbn [select_ptrs]. rewrite Nat2Z.id. destruct (lookup_lt_is_Some_2 l i Hi) as [x Hx].
  rewrite Hx. rewrite IH. cbn. by rewrite Hx.
Qed.
Lemma omap_zip {A B} (l : list A) (k : list B) idxs :
  length l = length k → zip (omap (λ i, l !! i) idxs) (omap (λ i, k !! i) idxs) = omap (λ i, zip l k !! i) idxs.
Proof.
  intros Hl. induction idxs as [|i idxs IH]; [done|]. cbn. rewrite lookup_zip_with. destruct (l !! i) as [x|] eqn:Ex, (k !! i) as [y|] eqn:Ey; cbn; [by f_equal| | |done].
  - apply lookup_ge_None in Ey. apply lookup_lt_Some in Ex. lia.
  - apply lookup_ge_None in Ex. apply lookup_lt_Some in Ey. lia.
Qed.
Lemma omap_length_eq {A B} (l : list A) (k : list B) idxs : length l = length k → length (omap (λ i, l !! i) idxs) = length (omap (λ i, k !! i) idxs).
Proof.
  intros Hl. induction idxs as [|i idxs IH]; [done|]. cbn. destruct (l !! i) eqn:Ex, (k !! i) eqn:Ey; cbn; rewrite ?IH; try done.
  - apply lookup_ge_None in Ey. apply lookup_lt_Some in Ex. lia.
  - apply lookup_ge_None in Ex. apply lookup_lt_Some in Ey. lia.
Qed.

Lemma filter_fst_NoDup {A B} (P : A * B → Prop) `{!∀ x, Decision (P x)} (l : list (A * B)) : NoDup l.*1 → NoDup (filter P l).*1.
Proof. intros Hl. eapply sublist_NoDup; [exact Hl|]. apply fmap_sublist, sublist_filter. Qed.

(** ** Probing *)

Section probe.
Context (H : Row → Z) (t : PRLHashTable) (mem : Blocks) (rows : list Row) (T : table_ok H t mem rows) (Hfresh : directory_stale_ t = false).
Context (cols : list VectorData) (size : nat) (keyv : Z → Row) (C : chunk_reads (key_types t) cols size keyv).
Context (hash_data : list Z) (Hhash : ∀ idx, 0 ≤ idx < Z.of_nat size → hash_data !! Z.to_nat idx = Some (H (keyv idx))).
Context `{!KeyHash (null_equal_keys_ t) (key_types t) H}.

(** The row at an address, and whether a probe row's key equals it. *)
Definition row_of (p : row_ptr) : Row := default [] ((list_to_map (zip (row_addrs_ t) rows) : gmap row_ptr Row) !! p).
Definition hits (pr : row_ptr * Z) : bool := key_eq (null_equal_keys_ t) (key_types t) (keyv pr.2) (row_of pr.1).
Definition matching (idx : Z) : list row_ptr :=
  (filter (λ pr, key_eq (null_equal_keys_ t) (key_types t) (keyv idx) pr.2 = true) (zip (row_addrs_ t) rows)).*1.

Lemma row_of_lookup g p row : row_addrs_ t !! g = Some p → rows !! g = Some row → row_of p = row.
Proof.
  intros Hp Hr. unfold row_of. destruct (table_lengths _ _ _ _ T) as [Hl _].
  rewrite (elem_of_list_to_map_1 (M := gmap row_ptr) (zip (row_addrs_ t) rows) p row); [done| |].
  - rewrite fst_zip by lia. by eapply alloc_NoDup, T.
  - apply list_elem_of_lookup. exists g. rewrite lookup_zip_with, Hp. cbn. by rewrite Hr.
Qed.
Lemma addr_row p : p ∈ row_addrs_ t → ∃ g row, row_addrs_ t !! g = Some p ∧ rows !! g = Some row ∧ row_of p = row.
Proof.
  intros [g Hg]%list_elem_of_lookup. destruct (table_lengths _ _ _ _ T) as [Hl _]. destruct (lookup_lt_is_Some_2 rows g) as [row Hr]; [rewrite <- Hl; by eapply lookup_lt_Some|].
  exists g, row. split; [done|]. split; [done|]. by eapply row_of_lookup.
Qed.

(** Candidates wait for their comparison; what will be the output is settled. *)
Definition logical (s : ProbeState) : list (row_ptr * Z) := zip (out_addrs s) (out_rows s) ++ filter (λ pr, hits pr = true) (zip (cand_addr s) (cand_row s)).
Record state_ok (s : ProbeState) : Prop := {
  st_out : length (out_addrs s) = length (out_rows s);
  st_cand : length (cand_addr s) = length (cand_row s);
  st_addrs : ∀ p, p ∈ cand_addr s → p ∈ row_addrs_ t;
  st_rows : ∀ idx, idx ∈ cand_row s → 0 ≤ idx < Z.of_nat size }.

Lemma flush_ok s : state_ok s → ∃ s', flush cols t mem s = Ok s' ∧ state_ok s' ∧ cand_addr s' = [] ∧ cand_row s' = [] ∧ logical s' = logical s.
Proof.
  intros Hs. pose proof Hs as [Ho Hc Ha Hr]. unfold flush. case_bool_decide as Hz.
  { exists s. rewrite Hc in Hz. apply length_zero_iff_nil in Hz. split; [done|]. split; [done|]. split; [|done]. apply length_zero_iff_nil. by rewrite Hc, Hz. }
  set (n := length (cand_addr s)) in *. pose proof (tb_shape _ _ _ _ T) as S. destruct C as [Hcols Hread]. rewrite (key_types_length t S) in Hcols.
  destruct (Match_ok (layout_ t) (sh_layout _ S) cols (Some <$> cand_addr s) (Z.of_nat <$> seq 0 n) (cand_row s) mem (null_equal_keys_ t) (key_count_ t) n
    (λ i, keyv (cand_row s !!! i)) (λ i, row_of (cand_addr s !!! i))) as (failed & E & _).
  { rewrite (sh_types _ S). apply S. }
  { lia. }
  { intros i Hi. destruct (lookup_lt_is_Some_2 (cand_addr s) i Hi) as [p Hp]. destruct (lookup_lt_is_Some_2 (cand_row s) i) as [k Hk]; [lia|].
    destruct (addr_row p (Ha p ltac:(by eapply list_elem_of_lookup_2))) as (g & row & Hg & Hrow & Erow). pose proof (Hr k ltac:(by eapply list_elem_of_lookup_2)) as Hkr.
    destruct (contents_lookup _ _ _ _ _ _ _ (tb_contents _ _ _ _ T) Hg Hrow) as [Hh Ht].
    exists (Z.of_nat i), p, k. rewrite (list_lookup_total_correct _ _ _ Hp), (list_lookup_total_correct _ _ _ Hk), Erow.
    split; [apply GetIndex_Some; rewrite list_lookup_fmap, lookup_seq_lt by lia; done|]. split; [unfold ptr_at; by rewrite Nat2Z.id, list_lookup_fmap, Hp|].
    split; [by apply GetIndex_Some|]. split; [done|]. split; [done|]. intros c ty col Hck Hty Hcol. apply (proj2 (Hread k Hkr) c); [|done].
    unfold key_types. rewrite lookup_take_lt by done. by rewrite <- (sh_types _ S). }
  rewrite E. cbn [mbind result_bind]. clear E failed.
  set (sel := filter _ (seq 0 n)). assert (Forall (λ i, (i < n)%nat) sel) as Hsel by (apply Forall_forall; intros i [_ Hi%elem_of_seq]%list_elem_of_filter; lia).
  rewrite (select_ptrs_ok _ _ Hsel). cbn [mbind result_bind]. rewrite select_ok by (rewrite <- Hc; exact Hsel). cbn [mbind result_bind].
  eexists. split; [done|]. split; [|split; [done|split; [done|]]].
  - split; simpl; [|done|set_solver|set_solver]. rewrite !length_app, Ho. f_equal. by apply omap_length_eq.
  - unfold logical. simpl. rewrite app_nil_r, zip_with_app by done. f_equal. rewrite omap_zip by done.
    assert (n = length (zip (cand_addr s) (cand_row s))) as En by (rewrite length_zip_with; lia). unfold sel. rewrite En. apply select_filter.
    intros i [p k] Hi. apply lookup_zip_with_Some in Hi as (p' & k' & [= <- <-] & Hp & Hk). unfold hits, matches_from. simpl.
    rewrite (list_lookup_total_correct _ _ _ Hp), (list_lookup_total_correct _ _ _ Hk), (sh_types _ S). done.
Qed.

Lemma entries_NoDup : NoDup (entries_of (directory_ t)).*2.
Proof.
  destruct (table_lengths _ _ _ _ T) as [Hl Hl']. rewrite (do_entries _ (tb_dir _ _ _ _ T) Hfresh), snd_zip by lia. by eapply alloc_NoDup, T.
Qed.
Lemma entry_addr h p : (h, p) ∈ entries_of (directory_ t) → p ∈ row_addrs_ t.
Proof. rewrite (do_entries _ (tb_dir _ _ _ _ T) Hfresh). apply elem_of_zip_r. Qed.

Lemma walk_cluster_from h idx e : ∀ fuel d s,
  0 ≤ idx < Z.of_nat size → (e < length (directory_ t))%nat → directory_ t !! pos (length (directory_ t)) h e = Some None →
  (∀ j, (j < e)%nat → occupied (directory_ t) (pos (length (directory_ t)) h j)) → (d ≤ e)%nat → (e < d + fuel)%nat → state_ok s →
  ∃ s', walk_cluster fuel cols t mem h (Z.of_nat (pos (length (directory_ t)) h d)) idx s = Ok s' ∧ state_ok s' ∧
    logical s' = logical s ++ ((λ p, (p, idx)) <$> filter (λ p, hits (p, idx) = true) (cluster (directory_ t) h d (e - d))).
Proof.
  induction fuel as [|fuel IH]; intros d s Hidx He Hemp Hocc Hd Hf Hs; [lia|]. cbn [walk_cluster]. rewrite Nat2Z.id.
  destruct (decide (d = e)) as [->|Hne].
  { rewrite Hemp, Nat.sub_diag. exists s. split; [done|]. split; [done|]. simpl. by rewrite app_nil_r. }
  destruct (Hocc d ltac:(lia)) as [[h' p] Hp]. rewrite Hp. pose proof (tb_dir _ _ _ _ T) as D. rewrite (do_mask _ D), (do_capacity _ D), (pos_next _ _ _ (do_power _ D)).
  replace (e - d)%nat with (S (e - S d)) by lia. unfold cluster. cbn [seq omap list_omap]. rewrite Hp. cbn [slot_row].
  case_bool_decide as Eh; [|by apply IH; (lia || done)]. subst h'. rewrite filter_cons.
  set (s1 := mkProbe _ _ _ _). assert (state_ok s1) as Hs1.
  { destruct Hs as [Ho Hc Ha Hr]. split; simpl; [done|rewrite !length_app; simpl; lia| |]; intros x Hx; apply elem_of_app in Hx as [Hx|Hx]; auto; apply list_elem_of_singleton in Hx as ->; [|done].
    apply (entry_addr h). apply entries_elem. by eexists. }
  assert (logical s1 = logical s ++ (if decide (hits (p, idx) = true) then [(p, idx)] else [])) as El.
  { unfold logical, s1. simpl. rewrite zip_with_app by apply Hs. by rewrite filter_app, app_assoc. }
  assert (∃ s2, (if bool_decide (Z.of_nat (length (cand_addr s1)) = STANDARD_VECTOR_SIZE) then flush cols t mem s1 else Ok s1) = Ok s2 ∧ state_ok s2 ∧ logical s2 = logical s1)
    as (s2 & -> & Hs2 & El2).
  { case_bool_decide; [|by exists s1]. destruct (flush_ok s1 Hs1) as (s2 & E & Hs2 & _ & _ & El2). by exists s2. }
  cbn [mbind result_bind]. destruct (IH (S d) s2) as (s3 & E3 & Hs3 & El3); [done..|lia|lia|done|]. exists s3. split; [done|]. split; [done|].
  rewrite El3, El2, El, <- app_assoc. f_equal. by case_decide.
Qed.

Lemma matching_elem idx p :
  p ∈ matching idx ↔ ∃ g row, row_addrs_ t !! g = Some p ∧ rows !! g = Some row ∧ key_eq (null_equal_keys_ t) (key_types t) (keyv idx) row = true.
Proof.
  unfold matching. rewrite list_elem_of_fmap. split.
  - intros ([p' row] & -> & [Hk Hin]%list_elem_of_filter). simpl in *. apply list_elem_of_lookup in Hin as [g Hg].
    apply lookup_zip_with_Some in Hg as (? & ? & [= <- <-] & ? & ?). by exists g, row.
  - intros (g & row & Hp & Hr & Hk). exists (p, row). split; [done|]. apply list_elem_of_filter. split; [done|]. apply list_elem_of_lookup. exists g.
    rewrite lookup_zip_with, Hp. cbn. by rewrite Hr.
Qed.
(** The slots of a hash, compared with the key, are the rows with that key. *)
Lemma cluster_matching idx e :
  0 ≤ idx < Z.of_nat size → let dir := directory_ t in let h := H (keyv idx) in
  (e < length dir)%nat → dir !! pos (length dir) h e = Some None → (∀ j, (j < e)%nat → occupied dir (pos (length dir) h j)) →
  filter (λ p, hits (p, idx) = true) (cluster dir h 0 e) ≡ₚ matching idx.
Proof.
  intros Hidx dir h He Hemp Hocc. pose proof (tb_dir _ _ _ _ T) as D. pose proof (tb_shape _ _ _ _ T) as S. destruct (table_lengths _ _ _ _ T) as [Hl Hl'].
  apply NoDup_Permutation.
  - apply NoDup_filter, cluster_NoDup; [lia|apply entries_NoDup].
  - apply filter_fst_NoDup. rewrite fst_zip by lia. by eapply alloc_NoDup, T.
  - intros p. rewrite list_elem_of_filter, matching_elem, (cluster_entries dir h e p (do_probing _ D) He Hemp Hocc). split.
    + intros [Hh Hin%entry_addr]. destruct (addr_row p Hin) as (g & row & Hg & Hrow & Er). exists g, row. split; [done|]. split; [done|].
      unfold hits in Hh. simpl in Hh. by rewrite Er in Hh.
    + intros (g & row & Hg & Hrow & Hk). split; [unfold hits; simpl; by rewrite (row_of_lookup g p row)|].
      unfold dir. rewrite (do_entries _ D Hfresh). apply list_elem_of_lookup. exists g. rewrite lookup_zip_with, (tb_hashes _ _ _ _ T), list_lookup_fmap, Hrow. cbn. rewrite Hg. cbn.
      f_equal. f_equal. unfold h. symmetry. apply hash_respects; [| |done].
      * rewrite (proj1 (proj2 C idx Hidx)). lia.
      * destruct (contents_lookup _ _ _ _ _ _ _ (tb_contents _ _ _ _ T) Hg Hrow) as [[-> _] _]. rewrite (key_types_length t S), (sh_types _ S). apply S.
Qed.

Lemma probe_rows_ok idxs s :
  Forall (λ idx, 0 ≤ idx < Z.of_nat size) idxs → state_ok s →
  ∃ s' found, probe_rows cols t mem hash_data idxs s = Ok s' ∧ state_ok s' ∧ Forall2 (λ idx ps, ps ≡ₚ matching idx) idxs found ∧
    logical s' = logical s ++ concat (zip_with (λ idx ps, (λ p, (p, idx)) <$> ps) idxs found).
Proof.
  intros HF. revert s. induction HF as [|idx idxs Hidx HF IH]; intros s Hs.
  { exists s, []. split; [done|]. split; [done|]. split; [done|]. by rewrite app_nil_r. }
  pose proof (tb_dir _ _ _ _ T) as D. destruct (table_lengths _ _ _ _ T) as [Hl Hl']. cbn [probe_rows]. unfold at_index. rewrite (Hhash idx Hidx). cbn [mbind result_bind].
  destruct (find_empty_ok (directory_ t) (H (keyv idx)) (do_power _ D)) as (e & He & _ & Hemp & Hocc).
  { apply free_slot. rewrite (do_entries _ D Hfresh), length_zip_with. pose proof (do_room _ D Hfresh). lia. }
  rewrite (do_mask _ D), (do_capacity _ D), (pos_home _ _ (do_power _ D)).
  destruct (walk_cluster_from (H (keyv idx)) idx e (length (directory_ t)) 0 s Hidx He Hemp Hocc ltac:(lia) ltac:(lia) Hs) as (s1 & E1 & Hs1 & El1). rewrite E1. cbn [mbind result_bind].
  destruct (IH s1 Hs1) as (s2 & found & E2 & Hs2 & HF2 & El2). rewrite E2. eexists s2, (_ :: found). split; [done|]. split; [done|].
  split; [constructor; [by apply cluster_matching|done]|]. cbn [zip_with concat]. rewrite El2, El1, Nat.sub_0_r, <- app_assoc. done.
Qed.
(** The pairs of [Probe] come in the order of the probe rows; those of one row are the rows with its key. *)
Lemma Probe_ok keys idxs :
  chunk_Orrify (Z.of_nat size) keys = Ok cols → Forall (λ idx, 0 ≤ idx < Z.of_nat size) idxs →
  ∃ out_a out_r found, Probe hash_data keys size idxs t mem = Ok (out_a, out_r) ∧ length out_a = length out_r ∧
    Forall2 (λ idx ps, ps ≡ₚ matching idx) idxs found ∧ zip out_a out_r = concat (zip_with (λ idx ps, (λ p, (p, idx)) <$> ps) idxs found).
Proof.
  intros Ec HF. unfold Probe. destruct (bool_decide (idxs = []) || bool_decide (count_ t = 0)) eqn:Eq.
  - exists [], [], (replicate (length idxs) []). split; [done|]. split; [done|]. apply orb_true_iff in Eq as [Eq|Eq]; apply bool_decide_eq_true in Eq; [subst; done|].
    assert (rows = []) as Hr by (rewrite (tb_count _ _ _ _ T) in Eq; apply length_zero_iff_nil; lia).
    assert (∀ idx, matching idx = []) as Hm by (intros idx; unfold matching; by rewrite Hr, zip_with_nil_r).
    split; [|clear; by induction idxs]. clear -Hm. induction idxs as [|i l IH]; simpl; constructor; [by rewrite Hm|done].
  - rewrite Hfresh, Ec. cbn [mbind result_bind]. destruct (probe_rows_ok idxs (mkProbe [] [] [] []) HF) as (s & found & E & Hs & HF2 & El).
    { split; simpl; [done|done|set_solver..]. }
    rewrite E. cbn [mbind result_bind]. destruct (flush_ok s Hs) as (s' & E' & Hs' & Ha & Hr & El'). rewrite E'. cbn [mbind result_bind].
    exists (out_addrs s'), (out_rows s'), found. split; [done|]. split; [apply Hs'|]. split; [done|]. rewrite El in El'. unfold logical in El' at 1. rewrite Ha, app_nil_r in El'. exact El'.
Qed.
End probe.

(** * Rows that are added to a table *)

(** A chunk of rows for a table. *)
Record chunk_ok (t : PRLHashTable) (cols : list VectorData) (size : nat) (rowv : Z → Row) : Prop := {
  ck_reads : chunk_reads (types_ t) cols size rowv;
  ck_types : ∀ idx, 0 ≤ idx < Z.of_nat size → row_in_types (layout_ t) (rowv idx);
  ck_size : ∀ idx, 0 ≤ idx < Z.of_nat size → row_size (layout_ t) (rowv idx) < 2 ^ 32 }.

(** ** Sizes *)

Lemma reads_payload ty col idx v : reads ty col idx v → ty ≠ STRING → payload_len v = 0.
Proof. intros (x & _ & _ & Hk & Heq) Hne. destruct v as [[z|s]|]; [done| |done]. specialize (Heq _ eq_refl). by subst x. Qed.
Lemma payload_zero row : (∀ c v, row !! c = Some v → payload_len v = 0) → payload row = 0.
Proof. induction row as [|v row IH]; intros H; [done|]. simpl. rewrite (H 0%nat v eq_refl), IH; [done|]. intros c w Hc. by apply (H (S c)). Qed.

Section sizes.
Context (t : PRLHashTable) (S : shape_ok t) (cols : list VectorData) (size : nat) (rowv : Z → Row) (C : chunk_ok t cols size rowv).
Definition size_upto (c : nat) (idx : Z) : Z := rl_fixed_width (layout_ t) + payload (take c (rowv idx)).

Lemma size_upto_bound c idx : 0 ≤ idx < Z.of_nat size → 0 ≤ size_upto c idx ≤ row_size (layout_ t) (rowv idx).
Proof.
  intros Hidx. unfold size_upto, row_size. pose proof (payload_take_le (rowv idx) c). pose proof (payload_nonneg (take c (rowv idx))).
  pose proof (lo_flag_width _ (sh_layout _ S)). lia.
Qed.
Lemma add_sizes_ok col c n i :
  types_ t !! c = Some STRING → cols !! c = Some col → (i + n ≤ size)%nat →
  add_sizes col (Z.of_nat i) (size_upto c ∘ Z.of_nat <$> seq i n) = Ok (size_upto (Datatypes.S c) ∘ Z.of_nat <$> seq i n).
Proof.
  intros Hty Hcol. revert i. induction n as [|n IH]; intros i Hi; [done|]. cbn [seq]. rewrite !fmap_cons. cbn [add_sizes].
  assert (0 ≤ Z.of_nat i < Z.of_nat size) as Hidx by lia. destruct (proj2 (ck_reads _ _ _ _ C) (Z.of_nat i) Hidx) as [_ Hr].
  destruct (Hr c STRING col Hty Hcol) as (v & Hv & x & Hval & Hcell & Hk & Heq). rewrite Hval. cbn [mbind result_bind].
  assert (size_upto (Datatypes.S c) (Z.of_nat i) = size_upto c (Z.of_nat i) + payload_len v) as Es by (unfold size_upto; rewrite (payload_take_S _ _ _ Hv); lia).
  pose proof (size_upto_bound c (Z.of_nat i) Hidx). pose proof (size_upto_bound (Datatypes.S c) (Z.of_nat i) Hidx). pose proof (ck_size _ _ _ _ C _ Hidx).
  replace (Z.of_nat i + 1) with (Z.of_nat (Datatypes.S i)) by lia. simpl. destruct v as [y|]; simpl.
  - specialize (Heq y eq_refl). subst y. rewrite Hcell. cbn [mbind result_bind]. destruct x as [z|s]; [by simpl in Hk|]. cbn [mbind result_bind]. rewrite IH by lia.
    cbn [mbind result_bind]. simpl in Es. rewrite (u32_small (Z.of_nat (length s))), u32_small by lia. by rewrite Es.
  - rewrite IH by lia. cbn [mbind result_bind]. simpl in Es. by rewrite Es, Z.add_0_r.
Qed.
Lemma column_sizes_ok n c :
  (c + n = length (types_ t))%nat →
  column_sizes (drop c (types_ t)) (drop c cols) (size_upto c ∘ Z.of_nat <$> seq 0 size) = Ok (size_upto (length (types_ t)) ∘ Z.of_nat <$> seq 0 size).
Proof.
  destruct (ck_reads _ _ _ _ C) as [Hl Hr]. revert c. induction n as [|n IH]; intros c Hc.
  { rewrite (drop_ge (types_ t)) by lia. by replace c with (length (types_ t)) by lia. }
  destruct (lookup_lt_is_Some_2 (types_ t) c) as [ty Hty]; [lia|]. destruct (lookup_lt_is_Some_2 cols c) as [col Hcol]; [lia|].
  rewrite (drop_S _ _ _ Hty), (drop_S _ _ _ Hcol). cbn [column_sizes]. case_bool_decide as Es.
  - subst ty. change 0 with (Z.of_nat 0). rewrite add_sizes_ok by (done || lia). cbn [mbind result_bind]. apply IH. lia.
  - cbn [mbind result_bind]. rewrite <- (IH (Datatypes.S c)) by lia. f_equal. apply list_fmap_ext. intros k i Hi%lookup_seq. simpl. unfold size_upto.
    destruct (proj2 (Hr (Z.of_nat i) ltac:(lia)) c ty col Hty Hcol) as (v & Hv & Hread). rewrite (payload_take_S _ _ _ Hv), (reads_payload _ _ _ _ Hread Es). lia.
Qed.
(** The sizes of the rows are those their bytes need. *)
Lemma ComputeRowSizes_ok :
  ∃ sizes, ComputeRowSizes t cols size = Ok sizes ∧ ∀ idx, 0 ≤ idx < Z.of_nat size → at_index sizes idx = Ok (row_size (layout_ t) (rowv idx)).
Proof.
  destruct (ck_reads _ _ _ _ C) as [Hl Hr].
  assert (∀ idx, 0 ≤ idx < Z.of_nat size → at_index (size_upto (length (types_ t)) ∘ Z.of_nat <$> seq 0 size) idx = Ok (row_size (layout_ t) (rowv idx))) as Hfin.
  { intros idx Hidx. unfold at_index. rewrite list_lookup_fmap, lookup_seq_lt by lia. simpl. rewrite Z2Nat.id by lia. unfold size_upto, row_size.
    rewrite take_ge; [done|]. rewrite (proj1 (Hr idx Hidx)). done. }
  pose proof (sh_width _ S). pose proof (lo_flag_width _ (sh_layout _ S)).
  assert (replicate size (u32 (rl_fixed_width (layout_ t))) = size_upto 0 ∘ Z.of_nat <$> seq 0 size) as E0.
  { rewrite u32_small by lia. clear. unfold size_upto. simpl. rewrite Z.add_0_r. generalize 0%nat. induction size as [|n IH]; intros k; [done|]. cbn. by rewrite <- IH. }
  unfold ComputeRowSizes. rewrite E0. destruct (rl_all_constant (layout_ t)) eqn:Ec.
  - eexists. split; [done|]. intros idx Hidx. rewrite <- Hfin by done. unfold at_index. rewrite !list_lookup_fmap, lookup_seq_lt by lia. simpl. unfold size_upto.
    rewrite Z2Nat.id by lia. simpl. rewrite (payload_zero (take _ _)); [done|]. intros c v Hv. apply lookup_take_Some in Hv as [Hv Hc].
    destruct (lookup_lt_is_Some_2 (types_ t) c) as [ty Hty]; [lia|]. destruct (lookup_lt_is_Some_2 cols c) as [col Hcol]; [lia|].
    destruct (proj2 (Hr idx Hidx) c ty col Hty Hcol) as (w & Hw & Hread). rewrite Hv in Hw. injection Hw as <-. eapply reads_payload; [done|]. intros ->.
    rewrite (lo_constant _ (sh_layout _ S)), (sh_types _ S), forallb_forall in Ec. specialize (Ec STRING). rewrite <- list_elem_of_In in Ec.
    specialize (Ec ltac:(by eapply list_elem_of_lookup_2)). done.
  - eexists. split; [apply (column_sizes_ok (length (types_ t)) 0); lia|done].
Qed.
End sizes.

(** ** Scattering the rows that were allocated *)

Lemma alloc_ok_shape blocks used cap addrs mem mem' sizes :
  same_shape mem mem' → alloc_ok blocks used cap addrs mem sizes → alloc_ok blocks used cap addrs mem' sizes.
Proof.
  intros Hs [Hl Hr Ha Hb Hf]. split; [done| |done| |].
  - intros g p n Hp Hn. destruct (Hr g p n Hp Hn) as (? & ? & ?). split; [done|]. split; [by eapply in_mem_shape|done].
  - intros b Hin. rewrite <- (length_fmap length mem'), Hs, length_fmap. by apply Hb.
  - intros b Hlast. destruct (Hf b Hlast) as (? & ? & ?). split; [done|]. split; [by eapply in_mem_shape|done].
Qed.
Definition ptr_of (addr : list (option row_ptr)) (idx : Z) : row_ptr := match addr !! Z.to_nat idx with Some (Some p) => p | _ => (0%nat, 0) end.
Lemma fmap_lookup_Some {A B} (f : A → B) (l : list A) (i : nat) x : l !! i = Some x → (f <$> l) !! i = Some (f x).
Proof. intros E. by rewrite list_lookup_fmap, E. Qed.

Section scatter_new.
Context (t : PRLHashTable) (S : shape_ok t) (cols : list VectorData) (size : nat) (rowv : Z → Row) (C : chunk_ok t cols size rowv).
(** The rows [idxs] have just got the last addresses of the table. *)
Lemma scatter_new blocks used cap addrs rows idxs addr mem :
  Forall (λ idx, 0 ≤ idx < Z.of_nat size) idxs → NoDup idxs → (∀ idx, idx ∈ idxs → ptr_at addr idx = Ok (ptr_of addr idx)) → length addrs = length rows →
  alloc_ok blocks used cap (addrs ++ (ptr_of addr <$> idxs)) mem (row_size (layout_ t) <$> rows ++ (rowv <$> idxs)) →
  contents (layout_ t) addrs rows mem →
  ∃ mem', Scatter cols (layout_ t) addr idxs mem = Ok mem' ∧ same_shape mem mem' ∧ (∀ b, b ∉ blocks → mem' !! b = mem !! b) ∧
    contents (layout_ t) (addrs ++ (ptr_of addr <$> idxs)) (rows ++ (rowv <$> idxs)) mem'.
Proof.
  intros HF Hnd Hptr Hlen A Hold. pose proof (sh_layout _ S) as L. destruct (ck_reads _ _ _ _ C) as [Hcols Hread]. rewrite Forall_forall in HF.
  set (sz := λ idx, row_size (layout_ t) (rowv idx)).
  assert (∀ k idx, idxs !! k = Some idx → (addrs ++ (ptr_of addr <$> idxs)) !! (length addrs + k)%nat = Some (ptr_of addr idx) ∧
    (row_size (layout_ t) <$> rows ++ (rowv <$> idxs)) !! (length addrs + k)%nat = Some (sz idx)) as Hat.
  { intros k idx Hk. split; [rewrite lookup_app_r by lia; rewrite list_lookup_fmap; by replace (length addrs + k - length addrs)%nat with k by lia; rewrite Hk|].
    rewrite list_lookup_fmap, lookup_app_r by lia. rewrite list_lookup_fmap. replace (length addrs + k - length rows)%nat with k by lia. by rewrite Hk. }
  assert (∀ g p row, addrs !! g = Some p → rows !! g = Some row → (addrs ++ (ptr_of addr <$> idxs)) !! g = Some p ∧
    (row_size (layout_ t) <$> rows ++ (rowv <$> idxs)) !! g = Some (row_size (layout_ t) row)) as Hat0.
  { intros g p row Hp Hr. split; [by apply lookup_app_l_Some|]. apply fmap_lookup_Some. by apply lookup_app_l_Some. }
  destruct (Scatter_ok (layout_ t) L cols addr idxs (ptr_of addr) rowv) with (mem := mem) as (mem' & E & Hh & Ho).
  - by rewrite Hcols, (sh_types _ S).
  - done.
  - intros idx Hi. rewrite (sh_types _ S). apply Hread. by apply HF.
  - intros idx c ty col Hi Hty Hcol. rewrite (sh_types _ S) in Hty. by eapply (proj2 (Hread idx (HF idx Hi))).
  - intros idx Hi. apply C. by apply HF.
  - done.
  - intros i j [k Hk]%list_elem_of_lookup [k' Hk']%list_elem_of_lookup Hne. destruct (Hat k i Hk) as [? ?], (Hat k' j Hk') as [? ?].
    eapply (al_apart _ _ _ _ _ _ A (length addrs + k) (length addrs + k')); [|done..]. intros Ek. apply Hne. assert (k = k') by lia. subst. by rewrite Hk in Hk'; injection Hk'.
  - intros idx [k Hk]%list_elem_of_lookup. destruct (Hat k idx Hk) as [Ha Hs]. apply (al_rows _ _ _ _ _ _ A _ _ _ Ha Hs).
  - apply S.
  - rewrite (sh_types _ S). apply S.
  - exists mem'. split; [done|]. split; [apply Ho|]. split.
    + intros b Hb. apply bytes_block; [apply Ho|]. intros a. apply Ho. intros idx [k Hk]%list_elem_of_lookup [-> _]. destruct (Hat k idx Hk) as [Ha Hs].
      destruct (al_rows _ _ _ _ _ _ A _ _ _ Ha Hs) as (_ & _ & ?). done.
    + apply Forall2_app.
      * apply Forall2_same_length_lookup_2; [done|]. intros g p row Hp Hr. destruct (contents_lookup _ _ _ _ _ _ _ Hold Hp Hr) as [Hhold Ht]. split; [|done].
        destruct (Hat0 g p row Hp Hr) as [Ha Hs]. eapply holds_row_local; [done| |apply Ho|by apply in_types_typed; [apply Hhold|]|done].
        eapply only_rows_on; [done|]. intros idx [k Hk]%list_elem_of_lookup. destruct (Hat k idx Hk) as [Ha' Hs'].
        eapply (al_apart _ _ _ _ _ _ A (length addrs + k) g); [|done..]. apply lookup_lt_Some in Hp. lia.
      * apply Forall2_fmap, Forall_Forall2_diag, Forall_forall. intros idx Hi. split; [by apply Hh|]. apply C. by apply HF.
Qed.
End scatter_new.

(** ** Allocating and linking *)

(** The fields that adding rows leaves alone. *)
Record same_setup (t t' : PRLHashTable) : Prop := {
  sc_types : types_ t' = types_ t;
  sc_keys : key_count_ t' = key_count_ t;
  sc_null : null_equal_keys_ t' = null_equal_keys_ t;
  sc_layout : layout_ t' = layout_ t;
  sc_stale : directory_stale_ t' = directory_stale_ t }.
Lemma same_setup_refl t : same_setup t t.
Proof. done. Qed.
Lemma same_setup_trans t1 t2 t3 : same_setup t1 t2 → same_setup t2 t3 → same_setup t1 t3.
Proof. intros [] []. split; congruence. Qed.
Lemma shape_ok_config t t' : same_setup t t' → shape_ok t → shape_ok t'.
Proof. intros [E1 E2 E3 E4 E5] [? ? ? ? ?]. split; rewrite ?E1, ?E2, ?E4; done. Qed.
Lemma chunk_ok_config t t' cols size rowv : same_setup t t' → chunk_ok t cols size rowv → chunk_ok t' cols size rowv.
Proof. intros [E1 E2 E3 E4 E5] [? ? ?]. split; rewrite ?E1, ?E4; done. Qed.

(** The row that was allocated, entered into the first free slot of its hash. *)
Lemma dir_push t h p e blocks used cap :
  dir_ok t → directory_stale_ t = false → length (row_hashes_ t) = length (row_addrs_ t) → (e < length (directory_ t))%nat →
  directory_ t !! pos (length (directory_ t)) h e = Some None → (∀ j, (j < e)%nat → occupied (directory_ t) (pos (length (directory_ t)) h j)) →
  (length (row_addrs_ t) + 1 < length (directory_ t))%nat →
  dir_ok (push_row h p (set_entry (Z.of_nat (pos (length (directory_ t)) h e)) h p (set_blocks blocks used cap t))).
Proof.
  intros [Hp Hc Hm Hmin Hpr He Hr] Hs Hl Hlt Hemp Hocc Hroom. split; simpl; rewrite ?Nat2Z.id, ?length_insert, ?length_app; try done.
  - by apply probing_insert.
  - intros _. rewrite entries_insert by done. rewrite (He Hs). rewrite zip_with_app by done. simpl. by rewrite Permutation_app_comm.
Qed.
Lemma linked_slot t h : dir_ok t → directory_stale_ t = false →
  ∃ e, (e < length (directory_ t))%nat ∧ find_empty (length (directory_ t)) (directory_ t) (bitmask_ t) (Z.land h (bitmask_ t)) = Ok (Z.of_nat (pos (length (directory_ t)) h e)) ∧
    directory_ t !! pos (length (directory_ t)) h e = Some None ∧ ∀ j, (j < e)%nat → occupied (directory_ t) (pos (length (directory_ t)) h j).
Proof.
  intros D Hs. rewrite (do_mask _ D), (do_capacity _ D). apply find_empty_ok; [apply D|]. apply free_slot.
  rewrite (do_entries _ D Hs), length_zip_with. pose proof (do_room _ D Hs). lia.
Qed.

Section append.
Context (H : Row → Z) (size : nat) (rowv : Z → Row) (hash_data sizes : list Z) (layout : RowLayout).
Context (Hhash : ∀ idx, 0 ≤ idx < Z.of_nat size → hash_data !! Z.to_nat idx = Some (H (rowv idx))).
Context (Hsizes : ∀ idx, 0 ≤ idx < Z.of_nat size → at_index sizes idx = Ok (row_size layout (rowv idx)) ∧ 0 < row_size layout (rowv idx)).

Lemma append_rows_ok (linked : bool) idxs : ∀ t mem addr szs,
  Forall (λ idx, 0 ≤ idx < Z.of_nat size) idxs → NoDup idxs → length addr = size →
  alloc_ok (blocks_ t) (block_used_ t) (block_capacity_ t) (row_addrs_ t) mem szs → length (row_hashes_ t) = length (row_addrs_ t) →
  0 ≤ count_ t → count_ t + Z.of_nat (length idxs) < 2 ^ 60 →
  (linked = true → dir_ok t ∧ directory_stale_ t = false ∧ (length (row_addrs_ t) + length idxs < length (directory_ t))%nat) →
  ∃ t' mem' addr', append_rows linked hash_data sizes idxs t mem addr = Ok (t', mem', addr') ∧ mem `prefix_of` mem' ∧ same_setup t t' ∧
    row_addrs_ t' = row_addrs_ t ++ (ptr_of addr' <$> idxs) ∧ row_hashes_ t' = row_hashes_ t ++ (H ∘ rowv <$> idxs) ∧
    count_ t' = count_ t + Z.of_nat (length idxs) ∧ (∀ b, b ∈ blocks_ t' → b ∈ blocks_ t ∨ (length mem ≤ b)%nat) ∧
    alloc_ok (blocks_ t') (block_used_ t') (block_capacity_ t') (row_addrs_ t') mem' (szs ++ (row_size layout ∘ rowv <$> idxs)) ∧
    (∀ idx, idx ∈ idxs → ptr_at addr' idx = Ok (ptr_of addr' idx)) ∧ (∀ idx, 0 ≤ idx → idx ∉ idxs → addr' !! Z.to_nat idx = addr !! Z.to_nat idx) ∧
    (if linked then dir_ok t' else directory_ t' = directory_ t ∧ capacity_ t' = capacity_ t ∧ bitmask_ t' = bitmask_ t).
Proof.
  induction idxs as [|idx idxs IH]; intros t mem addr szs HF Hnd Hla A Hlh Hc0 Hcb Hlk.
  { exists t, mem, addr. rewrite !fmap_nil, !app_nil_r, Z.add_0_r. do 6 (split; [done|]). split; [by left|]. split; [done|]. split; [set_solver|]. split; [done|].
    destruct linked; [by apply Hlk|done]. }
  apply Forall_cons in HF as [Hidx HF]. apply NoDup_cons in Hnd as [Hni Hnd]. destruct (Hsizes idx Hidx) as [Es Hpos]. cbn [append_rows length] in *.
  set (h := H (rowv idx)). assert (at_index hash_data idx = Ok h) as -> by (unfold at_index; by rewrite (Hhash idx Hidx)). cbn [mbind result_bind].
  assert (∃ bucket, (if linked then find_empty (length (directory_ t)) (directory_ t) (bitmask_ t) (Z.land h (bitmask_ t)) else Ok 0) = Ok bucket ∧
    ∀ p blocks used cap, linked = true → dir_ok (push_row h p (set_entry bucket h p (set_blocks blocks used cap t))) ∧ (length (directory_ (set_entry bucket h p t)) = length (directory_ t))%nat)
    as (bucket & -> & Hbucket).
  { destruct linked; [|by exists 0]. destruct (Hlk eq_refl) as (D & Hs & Hroom). destruct (linked_slot t h D Hs) as (e & He & E & Hemp & Hocc).
    eexists. split; [exact E|]. intros p blocks used cap _. split; [apply dir_push; try done; lia|]. simpl. by rewrite length_insert. }
  cbn [mbind result_bind]. rewrite Es. cbn [mbind result_bind].
  destruct (AllocateRow_ok t mem szs _ A Hpos) as (p & blocks & used & cap & m1 & E1 & Hpre & _ & Hbl & A1). rewrite E1. cbn [mbind result_bind].
  set (t1 := push_row h p (if linked then set_entry bucket h p (set_blocks blocks used cap t) else set_blocks blocks used cap t)).
  assert (same_setup t t1 ∧ row_addrs_ t1 = row_addrs_ t ++ [p] ∧ row_hashes_ t1 = row_hashes_ t ++ [h] ∧ count_ t1 = count_ t + 1 ∧
    blocks_ t1 = blocks ∧ block_used_ t1 = used ∧ block_capacity_ t1 = cap) as (Cf & Ea & Eh & Ec & Eb & Eu & Ecap).
  { assert (u64 (count_ t + 1) = count_ t + 1) as Eu by (unfold u64; apply Z.mod_small; lia). unfold t1. destruct linked; simpl; rewrite Eu; done. }
  destruct (IH t1 m1 (<[Z.to_nat idx := Some p]> addr) (szs ++ [row_size layout (rowv idx)])) as
    (t' & mem' & addr' & E & Hpre' & Cf' & Ea' & Eh' & Ec' & Hbl' & A' & Hp' & Hother & Hd).
  - done.
  - done.
  - by rewrite length_insert.
  - by rewrite Eb, Eu, Ecap, Ea.
  - rewrite Ea, Eh, !length_app. simpl. lia.
  - lia.
  - lia.
  - intros Hl. destruct (Hlk Hl) as (D & Hs & Hroom). destruct (Hbucket p blocks used cap Hl) as [D1 Hld]. rewrite Ea, length_app. rewrite (sc_stale _ _ Cf). unfold t1. rewrite Hl.
    split; [exact D1|]. split; [done|]. simpl in *. rewrite length_insert. lia.
  - assert (addr' !! Z.to_nat idx = Some (Some p)) as Hown.
    { rewrite Hother by (done || lia). apply list_lookup_insert_eq. rewrite Hla. lia. }
    assert (ptr_of addr' idx = p) as Eptr by (unfold ptr_of; by rewrite Hown).
    exists t', mem', addr'. split; [exact E|]. split; [by etrans|]. split; [by eapply same_setup_trans|]. rewrite !fmap_cons, Eptr. cbn [compose].
    split; [rewrite Ea', Ea, <- app_assoc; done|]. split; [rewrite Eh', Eh, <- app_assoc; done|]. split; [lia|]. split.
    { intros b Hb. destruct (Hbl' b Hb) as [Hb1|Hb1]; [rewrite Eb in Hb1; by apply Hbl|]. right. apply prefix_length in Hpre. lia. }
    split; [by rewrite <- app_assoc in A'|]. split.
    { intros i [->|Hi]%elem_of_cons; [unfold ptr_at; by rewrite Hown, Eptr|by apply Hp']. }
    split.
    { intros i Hi0 Hi. rewrite Hother by set_solver. rewrite list_lookup_insert_ne; [done|]. set_solver by lia. }
    destruct linked; [done|]. destruct Hd as (-> & -> & ->). done.
Qed.
End append.

(** ** The operations *)

Lemma chunk_Orrify_length n vs cols : chunk_Orrify n vs = Ok cols → length cols = length vs.
Proof.
  revert cols. induction vs as [|v vs IH]; intros cols E; cbn [chunk_Orrify] in E; [by injection E as <-|].
  destruct (Orrify n v) as [vd|]; cbn [mbind result_bind] in E; [|done]. destruct (chunk_Orrify n vs) as [vds|]; [|done]. injection E as <-. simpl. by rewrite (IH vds).
Qed.
Lemma same_rows_config t t' : same_rows t t' → directory_stale_ t' = directory_stale_ t → same_setup t t' ∧ blocks_ t' = blocks_ t.
Proof. intros E Hs. split; [split; [by rewrite E..|done]|by rewrite E]. Qed.
Lemma table_same_rows H t t' mem rows : table_ok H t mem rows → same_rows t t' → dir_ok t' → table_ok H t' mem rows.
Proof.
  intros [S A Cn Hh Hc D] E D'. assert (row_addrs_ t' = row_addrs_ t ∧ row_hashes_ t' = row_hashes_ t ∧ layout_ t' = layout_ t ∧ count_ t' = count_ t ∧ blocks_ t' = blocks_ t ∧
    block_used_ t' = block_used_ t ∧ block_capacity_ t' = block_capacity_ t ∧ types_ t' = types_ t ∧ key_count_ t' = key_count_ t) as (E1 & E2 & E3 & E4 & E5 & E6 & E7 & E8 & E9).
  { rewrite E. done. }
  destruct S. split; rewrite ?E1, ?E2, ?E3, ?E4, ?E5, ?E6, ?E7; try done. split; rewrite ?E3, ?E8, ?E9; done.
Qed.
Lemma contents_prefix layout addrs rows mem mem' : mem `prefix_of` mem' → contents layout addrs rows mem → contents layout addrs rows mem'.
Proof. intros Hp HF. eapply Forall2_impl; [exact HF|]. intros p row [Hh Ht]. split; [by eapply holds_row_prefix|done]. Qed.
(** Memory of a table's own. *)
Definition grows (t t' : PRLHashTable) (mem mem' : Blocks) : Prop :=
  keeps (blocks_ t) mem mem' ∧ ∀ b, b ∈ blocks_ t' → b ∈ blocks_ t ∨ (length mem ≤ b)%nat.

Section operations.
Context (H : Row → Z) (size : nat) (rowv : Z → Row) (hash_data : list Z) (cols : list VectorData) (vecs : list Vector) (idxs : list Z).
Context (Hhash : ∀ idx, 0 ≤ idx < Z.of_nat size → hash_data !! Z.to_nat idx = Some (H (rowv idx))).
Context (Ec : chunk_Orrify (Z.of_nat size) vecs = Ok cols).
Context (HF : Forall (λ idx, 0 ≤ idx < Z.of_nat size) idxs) (Hnd : NoDup idxs).

(** Sizing, allocating, linking and scattering the rows. *)
Lemma append_batch (linked : bool) t mem rows :
  table_ok H t mem rows → chunk_ok t cols size rowv → Z.of_nat (length rows + length idxs) < 2 ^ 60 →
  (linked = true → directory_stale_ t = false ∧ (length rows + length idxs < length (directory_ t))%nat) →
  ∃ sizes t' mem1 addr mem', ComputeRowSizes t cols size = Ok sizes ∧ append_rows linked hash_data sizes idxs t mem (replicate size None) = Ok (t', mem1, addr) ∧
    Scatter cols (layout_ t') addr idxs mem1 = Ok mem' ∧ same_setup t t' ∧ grows t t' mem mem' ∧
    (linked = false → directory_ t' = directory_ t) ∧ ∀ stale, (linked = true → stale = false) → (linked = false → stale = true) →
      table_ok H (set_rows (count_ t') (row_addrs_ t') (row_hashes_ t') stale t') mem' (rows ++ (rowv <$> idxs)).
Proof.
  intros T C Hb Hlk. pose proof (tb_shape _ _ _ _ T) as S. destruct (table_lengths _ _ _ _ T) as [Hl Hl']. pose proof (tb_count _ _ _ _ T) as Hcnt.
  destruct (ComputeRowSizes_ok t S cols size rowv C) as (sizes & Es & Hsz). exists sizes.
  destruct (append_rows_ok H size rowv hash_data sizes (layout_ t) Hhash) with (linked := linked) (idxs := idxs) (t := t) (mem := mem)
    (addr := replicate size (None : option row_ptr)) (szs := row_size (layout_ t) <$> rows) as (t' & m1 & addr & E & Hpre & Cf & Ea & Eh & Ect & Hbl & A & Hp & _ & Hd).
  - intros idx Hidx. split; [by apply Hsz|]. apply row_size_pos; [apply S|]. rewrite (sh_types _ S). apply S.
  - done.
  - done.
  - apply length_replicate.
  - apply T.
  - done.
  - lia.
  - lia.
  - intros El. destruct (Hlk El) as [Hs Hr]. split; [apply T|]. split; [done|]. lia.
  - assert (row_size (layout_ t) <$> rows ++ (rowv <$> idxs) = (row_size (layout_ t) <$> rows) ++ (row_size (layout_ t) ∘ rowv <$> idxs)) as Esz by (by rewrite fmap_app, list_fmap_compose).
    destruct (scatter_new t S cols size rowv C (blocks_ t') (block_used_ t') (block_capacity_ t') (row_addrs_ t) rows idxs addr m1) as (m2 & E2 & Hs2 & Hk2 & Cn2); try done.
    { by rewrite <- Ea, Esz. }
    { eapply contents_prefix; [done|apply T]. }
    exists t', m1, addr, m2. split; [done|]. split; [done|]. rewrite (sc_layout _ _ Cf). split; [done|]. split; [done|]. split.
    + split; [|done]. apply (keeps_trans _ (blocks_ t') _ m1); [by apply keeps_prefix| |done]. split; [|by intros; apply Hk2].
      rewrite <- (length_fmap length m2), Hs2, length_fmap. done.
    + split; [intros ->; apply Hd|]. intros stale H1 H2. pose proof (shape_ok_config _ _ Cf S) as S'. destruct S'. split; simpl; try done; rewrite ?(sc_layout _ _ Cf).
      * rewrite Esz. by eapply alloc_ok_shape.
      * by rewrite Ea.
      * by rewrite Eh, (tb_hashes _ _ _ _ T), fmap_app, list_fmap_compose.
      * rewrite Ect, Hcnt, length_app, length_fmap. lia.
      * destruct linked.
        -- destruct Hd as [? ? ? ? ? He Hr]. rewrite H1 by done. pose proof (sc_stale _ _ Cf) as Hst. rewrite (proj1 (Hlk eq_refl)) in Hst. split; simpl; try done; intros _; [by apply He|by apply Hr].
        -- destruct Hd as (E3 & E4 & E5). rewrite H2 by done. destruct (tb_dir _ _ _ _ T). split; simpl; rewrite ?E3, ?E4, ?E5; done.
Qed.
Lemma set_rows_same t : set_rows (count_ t) (row_addrs_ t) (row_hashes_ t) (directory_stale_ t) t = t.
Proof. by destruct t. Qed.

Lemma grows_refl t mem : grows t t mem mem.
Proof. split; [by apply keeps_prefix|by left]. Qed.
Lemma Append_ok t mem rows :
  table_ok H t mem rows → directory_stale_ t = false → chunk_ok t cols size rowv → Z.of_nat (length rows + length idxs) < 2 ^ 60 →
  ∃ t' mem', Append hash_data vecs size idxs t mem = Ok (t', mem') ∧ table_ok H t' mem' (rows ++ (rowv <$> idxs)) ∧ same_setup t t' ∧ grows t t' mem mem'.
Proof.
  intros T Hs C Hb. unfold Append. case_bool_decide as Hz.
  { subst idxs. exists t, mem. rewrite fmap_nil, app_nil_r. split; [done|]. split; [done|]. split; [done|apply grows_refl]. }
  destruct (table_lengths _ _ _ _ T) as [Hl Hl']. pose proof (tb_count _ _ _ _ T) as Hcnt. rewrite bool_decide_true by (rewrite <- (chunk_Orrify_length _ _ _ Ec); apply C). cbn [negb]. rewrite Hs.
  assert (0 < length idxs)%nat by (destruct idxs; [done|simpl; lia]).
  destruct (ensure_capacity_ok (Z.of_nat (length idxs)) t (tb_dir _ _ _ _ T) Hs Hl') as (t1 & E1 & Sr & Hs1 & D1 & Hcap); [lia..|]. rewrite E1. cbn [mbind result_bind]. rewrite Ec. cbn [mbind result_bind].
  destruct (same_rows_config _ _ Sr ltac:(by rewrite Hs1, Hs)) as [Cf1 Eb1].
  destruct (append_batch true t1 mem rows) as (sizes & t2 & m1 & addr & m2 & Es & Ea & E2 & Cf2 & G2 & Hdir & T2).
  - by eapply table_same_rows.
  - by eapply chunk_ok_config.
  - done.
  - intros _. split; [done|]. rewrite (do_capacity _ D1) in Hcap. lia.
  - rewrite Es. cbn [mbind result_bind]. rewrite Ea. cbn [mbind result_bind]. rewrite E2. cbn [mbind result_bind]. exists t2, m2. split; [done|].
    specialize (T2 false ltac:(done) ltac:(done)). assert (directory_stale_ t2 = false) as Hs2 by (by rewrite (sc_stale _ _ Cf2)).
    rewrite <- Hs2, set_rows_same in T2. split; [done|]. split; [by eapply same_setup_trans|]. unfold grows. by rewrite <- Eb1.
Qed.
Lemma AppendUnbuilt_ok t mem rows :
  table_ok H t mem rows → chunk_ok t cols size rowv → Z.of_nat (length rows + length idxs) < 2 ^ 60 →
  ∃ t' mem', AppendUnbuilt hash_data vecs size idxs t mem = Ok (t', mem') ∧ table_ok H t' mem' (rows ++ (rowv <$> idxs)) ∧ grows t t' mem mem' ∧
    directory_stale_ t' = (if bool_decide (idxs = []) then directory_stale_ t else true) ∧ types_ t' = types_ t ∧ key_count_ t' = key_count_ t ∧ null_equal_keys_ t' = null_equal_keys_ t ∧ layout_ t' = layout_ t ∧ directory_ t' = directory_ t.
Proof.
  intros T C Hb. unfold AppendUnbuilt. case_bool_decide as Hz.
  { subst idxs. exists t, mem. rewrite fmap_nil, app_nil_r. split; [done|]. split; [done|]. split; [apply grows_refl|]. done. }
  rewrite bool_decide_true by (rewrite <- (chunk_Orrify_length _ _ _ Ec); apply C). cbn [negb]. rewrite Ec. cbn [mbind result_bind].
  destruct (append_batch false t mem rows T C Hb ltac:(done)) as (sizes & t2 & m1 & addr & m2 & Es & Ea & E2 & Cf2 & G2 & Hdir & T2).
  rewrite Es. cbn [mbind result_bind]. rewrite Ea. cbn [mbind result_bind]. rewrite E2. cbn [mbind result_bind]. eexists _, m2. split; [done|].
  split; [apply T2; done|]. split; [exact G2|]. split; [done|]. destruct Cf2. do 4 (split; [done|]). by apply Hdir.
Qed.
End operations.

(** ** Tables together *)

(** A table whose blocks nobody else changed. *)
Lemma table_keeps H t mem mem' blocks rows :
  table_ok H t mem rows → keeps blocks mem mem' → (∀ b, b ∈ blocks_ t → b ∉ blocks) → table_ok H t mem' rows.
Proof.
  intros [S A Cn Hh Hc D] [Hle Hk] Hdis. assert (∀ b, b ∈ blocks_ t → mem' !! b = mem !! b) as Hsame by (intros b Hb; apply Hk; [by apply (al_blocks _ _ _ _ _ _ A)|by apply Hdis]).
  assert (length (row_addrs_ t) = length rows) as Hl by (by rewrite (al_length _ _ _ _ _ _ A), length_fmap).
  split; try done.
  - destruct A as [Al Ar Aa Ab Af]. split; try done.
    + intros g p n Hp Hn. destruct (Ar g p n Hp Hn) as (? & ? & Hb). split; [done|]. split; [|done]. eapply in_mem_block; [by apply Hsame|done].
    + intros b Hb. specialize (Ab b Hb). lia.
    + intros b Hb. destruct (Af b Hb) as (? & ? & ?). split; [done|]. split; [|done]. eapply in_mem_block; [|done]. apply Hsame. by apply last_Some_elem_of.
  - apply Forall2_same_length_lookup_2; [done|]. intros g p row Hp Hr. destruct (contents_lookup _ _ _ _ _ _ _ Cn Hp Hr) as [Hh' Ht]. split; [|done].
    eapply holds_row_block; [|done]. apply Hsame. destruct (lookup_lt_is_Some_2 (row_size (layout_ t) <$> rows) g) as [n Hn]; [rewrite length_fmap; by eapply lookup_lt_Some|].
    apply (al_rows _ _ _ _ _ _ A g p n Hp Hn).
Qed.
(** [Merge] moves the rows of the other table; the other table is usable again when it was never linked. *)
Lemma Merge_ok H t other mem rows rows' :
  table_ok H t mem rows → table_ok H other mem rows' → types_ t = types_ other → key_count_ t = key_count_ other → layout_ t = layout_ other →
  (∀ b, b ∈ blocks_ t → b ∉ blocks_ other) → Z.of_nat (length rows + length rows') < 2 ^ 60 →
  ∃ t' other', Merge t other = Ok (t', other') ∧ table_ok H t' mem (rows ++ rows') ∧
    (∀ b, b ∈ blocks_ t' → b ∈ blocks_ t ∨ b ∈ blocks_ other) ∧ (∀ b, b ∈ blocks_ other' → b ∈ blocks_ other) ∧ (∀ b, b ∈ blocks_ t' → b ∉ blocks_ other') ∧
    directory_stale_ t' = (if bool_decide (rows' = []) then directory_stale_ t else true) ∧
    (types_ t' = types_ t ∧ key_count_ t' = key_count_ t ∧ null_equal_keys_ t' = null_equal_keys_ t ∧ layout_ t' = layout_ t) ∧
    row_addrs_ other' = [] ∧ (entries_of (directory_ other) = [] → table_ok H other' mem []).
Proof.
  intros T O Et Ek El Hdis Hb. unfold Merge. rewrite bool_decide_true by done. cbn [negb]. pose proof (tb_count _ _ _ _ O) as Hco. pose proof (tb_count _ _ _ _ T) as Hct.
  destruct (table_lengths _ _ _ _ T) as [Hlt Hlt']. destruct (table_lengths _ _ _ _ O) as [Hlo Hlo'].
  case_bool_decide as Hz.
  { assert (rows' = []) as -> by (apply length_zero_iff_nil; lia). exists t, other. rewrite app_nil_r. split; [done|]. split; [done|]. split; [by left|]. split; [done|]. split; [done|]. split; [done|]. split; [done|].
    split; [by apply length_zero_iff_nil; rewrite Hlo|done]. }
  rewrite (bool_decide_false (rows' = [])) by (intros ->; simpl in Hco; lia).
  eexists _, _. split; [done|]. split; [|split; [|split; [|split; [|split; [|split]]]]].
  - destruct T as [S A Cn Hh Hc D], O as [S' A' Cn' Hh' Hc' D']. split; simpl.
    + destruct S. by split.
    + rewrite fmap_app. destruct A as [Al Ar Aa Ab Af], A' as [Al' Ar' Aa' Ab' Af']. rewrite <- El in *. split.
      * rewrite !length_app. lia.
      * intros g p n Hp Hn. apply lookup_app_Some in Hp as [Hp|[Hge Hp]].
        -- rewrite lookup_app_l in Hn by (apply lookup_lt_Some in Hp; lia). destruct (Ar g p n Hp Hn) as (? & ? & ?). split; [done|]. split; [done|]. set_solver.
        -- rewrite lookup_app_r in Hn by lia. rewrite <- Al in Hn. destruct (Ar' _ p n Hp Hn) as (? & ? & ?). split; [done|]. split; [done|]. set_solver.
      * assert (∀ g p n, (row_addrs_ t ++ row_addrs_ other) !! g = Some p → ((row_size (layout_ t) <$> rows) ++ (row_size (layout_ t) <$> rows')) !! g = Some n →
          (row_addrs_ t !! g = Some p ∧ (row_size (layout_ t) <$> rows) !! g = Some n ∧ p.1 ∈ blocks_ t) ∨
          (∃ k, g = (length (row_addrs_ t) + k)%nat ∧ row_addrs_ other !! k = Some p ∧ (row_size (layout_ t) <$> rows') !! k = Some n ∧ p.1 ∈ blocks_ other)) as Hcase.
        { intros g p n Hp Hn. apply lookup_app_Some in Hp as [Hp|[Hge Hp]].
          - rewrite lookup_app_l in Hn by (apply lookup_lt_Some in Hp; lia). left. split; [done|]. split; [done|]. by eapply Ar.
          - rewrite lookup_app_r in Hn by lia. rewrite <- Al in Hn. right. exists (g - length (row_addrs_ t))%nat. split; [lia|]. split; [done|]. split; [done|]. by eapply Ar'. }
        intros g g' p p' n n' Hne Hp Hn Hp' Hn'.
        destruct (Hcase g p n Hp Hn) as [(H1 & H2 & H3)|(k & -> & H1 & H2 & H3)], (Hcase g' p' n' Hp' Hn') as [(H1' & H2' & H3')|(k' & -> & H1' & H2' & H3')].
        -- by eapply (Aa g g').
        -- left. intros E. rewrite E in H3. by eapply Hdis.
        -- left. intros E. rewrite <- E in H3'. by eapply Hdis.
        -- eapply (Aa' k k'); try done. lia.
      * intros b [Hb1|Hb1]%elem_of_app; auto.
      * intros b Hlast. assert (b ∈ blocks_ t ++ blocks_ other) as Hin by (by apply last_Some_elem_of). split; [lia|]. split; [|lia].
        assert (b < length mem)%nat as Hlt2 by (apply elem_of_app in Hin as [?|?]; auto). destruct (lookup_lt_is_Some_2 mem b Hlt2) as [blk Hblk]. exists blk. simpl. split; [done|]. lia.
    + apply Forall2_app; [done|]. by rewrite El.
    + by rewrite Hh, Hh', fmap_app.
    + rewrite length_app, Hct, Hco. transitivity (Z.of_nat (length rows) + Z.of_nat (length rows')); [|lia]. unfold u64. apply Z.mod_small. lia.
    + destruct D. by split.
  - intros b. simpl. rewrite elem_of_app. done.
  - simpl. set_solver.
  - simpl. set_solver.
  - done.
  - done.
  - split; [done|]. intros Hent. destruct O as [S' A' Cn' Hh' Hc' D']. split; simpl; try done.
    + destruct S'. by split.
    + split; simpl; try done; set_solver.
    + by constructor.
    + pose proof (power_pos _ (do_power _ D')). destruct D'. split; simpl; try done. by rewrite Hent.
Qed.
