(* ===== verification/HashGroups.v ===== *)
(** * [FindOrCreateGroups] in rounds

    In round [r] every row that is left looks at the slot [r] steps from its home: the slots before it are
    occupied by rows with other keys.  So a row that finds an empty slot has a key no row of the table has,
    also none that was created in the same round. *)

From S2P Require Import Prelude TablePage TableHeap BTreePage BPlusTree GenericKey StringHeap ValidityMask SortKey VectorOps SortKeyOrder RowFormat RowScatter PRLHashTable HashInvariant HashAppend.

(** No two groups have equal keys. *)
Definition distinct (null_equal : bool) (types : list PhysicalType) (rows : list Row) : Prop :=
  ∀ g g' row row', (g < g')%nat → rows !! g = Some row → rows !! g' = Some row' → key_eq null_equal types row' row = false.
Lemma distinct_snoc null_equal types rows row :
  distinct null_equal types rows → (∀ g x, rows !! g = Some x → key_eq null_equal types row x = false) → distinct null_equal types (rows ++ [row]).
Proof.
  intros Hd Hn g g' x x' Hlt Hx Hx'. apply lookup_snoc_Some in Hx' as [[Hl Hx']|[-> ->]].
  - rewrite lookup_app_l in Hx by lia. by apply (Hd g g').
  - rewrite lookup_app_l in Hx by lia. by eapply Hn.
Qed.

Section groups.
Context (H : Row → Z) (null_equal : bool) (ktypes : list PhysicalType) `{!KeyHash null_equal ktypes H}.
Context (size : nat) (rowv : Z → Row) (hash_data sizes : list Z) (layout : RowLayout).
Context (Hhash : ∀ idx, 0 ≤ idx < Z.of_nat size → hash_data !! Z.to_nat idx = Some (H (rowv idx))).
Context (Hsizes : ∀ idx, 0 ≤ idx < Z.of_nat size → at_index sizes idx = Ok (row_size layout (rowv idx)) ∧ 0 < row_size layout (rowv idx)).
Context (Hkeys : ∀ idx, 0 ≤ idx < Z.of_nat size → (length ktypes ≤ length (rowv idx))%nat).

(** A table whose last rows may still have to be written. *)
Record linked_ok (t : PRLHashTable) (mem : Blocks) (rows : list Row) : Prop := {
  lk_alloc : alloc_ok (blocks_ t) (block_used_ t) (block_capacity_ t) (row_addrs_ t) mem (row_size layout <$> rows);
  lk_hashes : row_hashes_ t = H <$> rows;
  lk_count : count_ t = Z.of_nat (length rows);
  lk_dir : dir_ok t;
  lk_fresh : directory_stale_ t = false;
  lk_keys : ∀ g row, rows !! g = Some row → (length ktypes ≤ length row)%nat }.
Lemma linked_lengths t mem rows : linked_ok t mem rows → length (row_addrs_ t) = length rows ∧ length (row_hashes_ t) = length (row_addrs_ t).
Proof. intros K. pose proof (al_length _ _ _ _ _ _ (lk_alloc _ _ _ K)) as Hl. rewrite length_fmap in Hl. rewrite (lk_hashes _ _ _ K), length_fmap. done. Qed.
(** Every row has an entry, and an entry is a row. *)
Lemma linked_entry t mem rows g p row :
  linked_ok t mem rows → row_addrs_ t !! g = Some p → rows !! g = Some row → (H row, p) ∈ entries_of (directory_ t).
Proof.
  intros K Hp Hr. rewrite (do_entries _ (lk_dir _ _ _ K) (lk_fresh _ _ _ K)). apply list_elem_of_lookup. exists g.
  rewrite lookup_zip_with, (lk_hashes _ _ _ K), list_lookup_fmap, Hr. cbn. by rewrite Hp.
Qed.
Lemma linked_row t mem rows h p :
  linked_ok t mem rows → (h, p) ∈ entries_of (directory_ t) → ∃ g row, row_addrs_ t !! g = Some p ∧ rows !! g = Some row ∧ H row = h.
Proof.
  intros K. rewrite (do_entries _ (lk_dir _ _ _ K) (lk_fresh _ _ _ K)). intros [g Hg]%list_elem_of_lookup. rewrite lookup_zip_with, (lk_hashes _ _ _ K), list_lookup_fmap in Hg.
  destruct (rows !! g) as [row|] eqn:Hr; [|done]. cbn in Hg. destruct (row_addrs_ t !! g) as [q|] eqn:Hq; [|done]. cbn in Hg. injection Hg as <- <-. by exists g, row.
Qed.

(** The slots a row has looked at. *)
Definition passed (t : PRLHashTable) (rows : list Row) (h : Z) (r : nat) (key : Row) : Prop :=
  ∀ j, (j < r)%nat → ∃ h' p, directory_ t !! pos (length (directory_ t)) h j = Some (Some (h', p)) ∧
    (h' = h → ∀ g row, row_addrs_ t !! g = Some p → rows !! g = Some row → key_eq null_equal ktypes key row = false).
(** A later table has the entries and the rows of the earlier one. *)
Definition extends (t : PRLHashTable) (rows : list Row) (t' : PRLHashTable) (rows' : list Row) : Prop :=
  length (directory_ t') = length (directory_ t) ∧ (∀ s e, directory_ t !! s = Some (Some e) → directory_ t' !! s = Some (Some e)) ∧
  row_addrs_ t `prefix_of` row_addrs_ t' ∧ rows `prefix_of` rows'.
Lemma extends_refl t rows : extends t rows t rows.
Proof. done. Qed.
Lemma extends_trans t1 r1 t2 r2 t3 r3 : extends t1 r1 t2 r2 → extends t2 r2 t3 r3 → extends t1 r1 t3 r3.
Proof. intros (H1 & H2 & H3 & H4) (H5 & H6 & H7 & H8). split; [congruence|]. split; [auto|]. split; by etrans. Qed.
Lemma passed_extends t mem rows t' mem' rows' h r key :
  linked_ok t mem rows → linked_ok t' mem' rows' → extends t rows t' rows' → passed t rows h r key → passed t' rows' h r key.
Proof.
  intros K K' (Hl & He & Ha & Hr) Hp j Hj. destruct (Hp j Hj) as (h' & p & Hs & Hn). exists h', p. rewrite Hl. split; [by apply He|].
  intros Eh g row Hg Hrow. destruct (linked_row t mem rows h' p K ltac:(apply entries_elem; by eexists)) as (g0 & row0 & Hg0 & Hr0 & _).
  assert (g = g0) as -> by (eapply alloc_inj; [apply K'|done|by eapply prefix_lookup_Some]). rewrite (prefix_lookup_Some _ _ _ _ Hr0 Hr) in Hrow. injection Hrow as <-. by eapply Hn.
Qed.
(** A row that meets an empty slot has a new key. *)
Lemma fresh_key t0 mem0 rows0 t mem rows r idx :
  linked_ok t0 mem0 rows0 → linked_ok t mem rows → extends t0 rows0 t rows → 0 ≤ idx < Z.of_nat size →
  passed t0 rows0 (H (rowv idx)) r (rowv idx) → (r < length (directory_ t))%nat → directory_ t !! pos (length (directory_ t)) (H (rowv idx)) r = Some None →
  ∀ g row, rows !! g = Some row → key_eq null_equal ktypes (rowv idx) row = false.
Proof.
  intros K0 K Hex Hidx Hp Hr Hemp g row Hrow. destruct (key_eq null_equal ktypes (rowv idx) row) eqn:Hk; [|done]. exfalso.
  assert (H (rowv idx) = H row) as Eh by (apply hash_respects; [by apply Hkeys|by eapply lk_keys|done]). destruct (linked_lengths _ _ _ K) as [Hl _].
  destruct (lookup_lt_is_Some_2 (row_addrs_ t) g) as [p Hg]; [rewrite Hl; by eapply lookup_lt_Some|].
  pose proof (linked_entry _ _ _ _ _ _ K Hg Hrow) as He. rewrite <- Eh in He. apply entries_elem in He as [s Hs].
  destruct (do_probing _ (lk_dir _ _ _ K) s _ _ Hs) as (d & Hd & Ed & Hbefore).
  destruct (decide (d < r)%nat) as [Hlt|Hge].
  - destruct (passed_extends _ _ _ _ _ _ _ _ _ K0 K Hex Hp d Hlt) as (h' & p' & Hs' & Hn). rewrite Ed, Hs in Hs'. injection Hs' as <- <-.
    by rewrite (Hn eq_refl g row Hg Hrow) in Hk.
  - destruct (decide (d = r)) as [->|Hne]; [by rewrite Ed, Hs in Hemp|]. destruct (Hbefore r ltac:(lia)) as [x Hx]. by rewrite Hemp in Hx.
Qed.

(** ** One pass over the rows that are left *)

Section round.
Context (t0 : PRLHashTable) (mem0 : Blocks) (rows0 : list Row) (addr0 : list (option row_ptr)) (buckets : list Z) (r : nat) (remaining : list Z).
Context (K0 : linked_ok t0 mem0 rows0) (Hr : (r < length (directory_ t0))%nat) (Haddr : (size ≤ length addr0)%nat).
Context (HF : Forall (λ idx, 0 ≤ idx < Z.of_nat size) remaining).
Context (Hb : ∀ idx, idx ∈ remaining → at_index buckets idx = Ok (Z.of_nat (pos (length (directory_ t0)) (H (rowv idx)) r))).
Context (Hp : ∀ idx, idx ∈ remaining → passed t0 rows0 (H (rowv idx)) r (rowv idx)).
Abbreviation slot t idx := (directory_ t !! pos (length (directory_ t)) (H (rowv idx)) r).

Record round_ok (seen : list Z) (s : Round) : Prop := {
  ro_rows : row_addrs_ (r_table s) = row_addrs_ t0 ++ (ptr_of (r_addr s) <$> r_new s);
  ro_linked : linked_ok (r_table s) (r_mem s) (rows0 ++ (rowv <$> r_new s));
  ro_extends : extends t0 rows0 (r_table s) (rows0 ++ (rowv <$> r_new s));
  ro_config : same_setup t0 (r_table s);
  ro_mask : bitmask_ (r_table s) = bitmask_ t0;
  ro_mem : mem0 `prefix_of` r_mem s;
  ro_blocks : ∀ b, b ∈ blocks_ (r_table s) → b ∈ blocks_ t0 ∨ (length mem0 ≤ b)%nat;
  ro_distinct : distinct null_equal ktypes rows0 → distinct null_equal ktypes (rows0 ++ (rowv <$> r_new s));
  ro_perm : seen ≡ₚ r_new s ++ r_compare s ++ r_next s;
  ro_length : length (r_addr s) = length addr0;
  ro_addr : ∀ idx, 0 ≤ idx → idx ∉ seen → r_addr s !! Z.to_nat idx = addr0 !! Z.to_nat idx;
  ro_new : ∀ idx, idx ∈ r_new s → ptr_at (r_addr s) idx = Ok (ptr_of (r_addr s) idx);
  ro_compare : ∀ idx, idx ∈ r_compare s → ptr_at (r_addr s) idx = Ok (ptr_of (r_addr s) idx) ∧ slot (r_table s) idx = Some (Some (H (rowv idx), ptr_of (r_addr s) idx));
  ro_next : ∀ idx, idx ∈ r_next s → ∃ h p, slot (r_table s) idx = Some (Some (h, p)) ∧ h ≠ H (rowv idx) }.

Lemma ptr_insert addr idx idx' p : 0 ≤ idx → 0 ≤ idx' → idx ≠ idx' → ptr_of (<[Z.to_nat idx := p]> addr) idx' = ptr_of addr idx' ∧ ptr_at (<[Z.to_nat idx := p]> addr) idx' = ptr_at addr idx'.
Proof. intros H0 H1 H2. unfold ptr_of, ptr_at. rewrite list_lookup_insert_ne by lia. done. Qed.
Lemma ptr_insert_eq addr idx p : 0 ≤ idx < Z.of_nat (length addr) → ptr_of (<[Z.to_nat idx := Some p]> addr) idx = p ∧ ptr_at (<[Z.to_nat idx := Some p]> addr) idx = Ok p.
Proof. intros Hi. unfold ptr_of, ptr_at. rewrite list_lookup_insert_eq by lia. done. Qed.

(** A row that makes a group. *)
Lemma round_create idx seen s :
  round_ok seen s → idx ∈ remaining → idx ∉ seen → Forall (λ i, 0 ≤ i) seen → slot (r_table s) idx = Some None →
  (length (row_addrs_ (r_table s)) + 1 < length (directory_ t0))%nat → count_ (r_table s) + 1 < 2 ^ 60 →
  ∃ s', classify_row hash_data sizes buckets idx s = Ok s' ∧ round_ok (seen ++ [idx]) s'.
Proof.
  intros R Hin Hns Hpos Hslot Hroom Hcb. pose proof R as [Ea K Hex Cf Em Hm Hbl Hd Hperm Hla Hother Hnew Hcmp Hnx]. rewrite !Forall_forall in *.
  assert (0 ≤ idx < Z.of_nat size) as Hidx by (by apply HF). destruct (Hsizes idx Hidx) as [Es Hsz]. pose proof (proj1 Hex) as Hld.
  unfold classify_row. rewrite (Hb idx Hin). cbn [mbind result_bind]. assert (at_index hash_data idx = Ok (H (rowv idx))) as -> by (unfold at_index; by rewrite Hhash).
  cbn [mbind result_bind]. rewrite Nat2Z.id, <- Hld, Hslot, Es. cbn [mbind result_bind].
  destruct (AllocateRow_ok _ _ _ _ (lk_alloc _ _ _ K) Hsz) as (p & blocks & used & cap & m1 & E1 & Hpre & _ & Hbl1 & A1). rewrite E1. cbn [mbind result_bind].
  eexists. split; [done|]. set (t1 := push_row _ _ _). destruct (linked_lengths _ _ _ K) as [Hl Hl'].
  assert (∀ i, i ∈ seen → 0 ≤ i ∧ idx ≠ i) as Hne by (intros i Hi; split; [by apply Hpos|by intros ->]).
  assert (∀ i, i ∈ r_new s ∨ i ∈ r_compare s ∨ i ∈ r_next s → i ∈ seen) as Hsub by (intros i; rewrite Hperm, !elem_of_app; tauto).
  destruct (ptr_insert_eq (r_addr s) idx p ltac:(lia)) as [Eown1 Eown2].
  assert (dir_ok t1) as D1 by (apply dir_push; try done; [apply K|apply K|by rewrite Hld| |by rewrite Hld]; intros j Hj; destruct (passed_extends _ _ _ _ _ _ _ _ _ K0 K Hex (Hp idx Hin) j Hj) as (? & ? & ? & _); by eexists).
  assert (linked_ok t1 m1 (rows0 ++ (rowv <$> r_new s) ++ [rowv idx])) as K1.
  { rewrite app_assoc. split; simpl.
    - by rewrite fmap_app.
    - by rewrite (lk_hashes _ _ _ K), !fmap_app.
    - rewrite length_app, (lk_count _ _ _ K) in *. simpl. transitivity (Z.of_nat (length (rows0 ++ (rowv <$> r_new s))) + 1); [|lia]. unfold u64. apply Z.mod_small. lia.
    - exact D1.
    - apply K.
    - intros g row Hg; apply lookup_snoc_Some in Hg as [[_ Hg]|[_ <-]]; [by eapply (lk_keys _ _ _ K)|by apply Hkeys]. }
  assert (∀ s0 e, directory_ (r_table s) !! s0 = Some (Some e) → directory_ t1 !! s0 = Some (Some e)) as Hkeep.
  { intros s0 e He. simpl. rewrite list_lookup_insert_ne; [done|]. rewrite Nat2Z.id. intros <-. by rewrite Hslot in He. }
  assert (length (directory_ t1) = length (directory_ (r_table s))) as Hld1 by (simpl; apply length_insert).
  assert (∀ i, i ∈ seen → ptr_of (<[Z.to_nat idx:=Some p]> (r_addr s)) i = ptr_of (r_addr s) i ∧ ptr_at (<[Z.to_nat idx:=Some p]> (r_addr s)) i = ptr_at (r_addr s) i) as Hpi
    by (intros i Hi; destruct (Hne i Hi); apply ptr_insert; [lia|done..]).
  split; simpl r_table; simpl r_mem; simpl r_addr; simpl r_new; simpl r_compare; simpl r_next; fold t1.
  - simpl. rewrite Ea, fmap_app, <- app_assoc. f_equal. simpl. rewrite Eown1. f_equal. apply list_fmap_ext. intros k i Hi. symmetry. apply Hpi, Hsub. left. by eapply list_elem_of_lookup_2.
  - by rewrite fmap_app.
  - rewrite fmap_app. eapply extends_trans; [exact Hex|]. split; [done|]. split; [done|]. split; [simpl; by apply prefix_app_r|]. simpl. rewrite app_assoc. by apply prefix_app_r.
  - eapply same_setup_trans; [exact Cf|]. done.
  - exact Em.
  - by etrans.
  - intros b Hbin. destruct (Hbl1 b Hbin) as [?|?]; [by apply Hbl|]. right. apply prefix_length in Hm. lia.
  - intros Hd0. rewrite fmap_app, app_assoc. apply distinct_snoc; [by apply Hd|]. eapply fresh_key; [exact K0|exact K|exact Hex|done|by apply Hp|by rewrite Hld|done].
  - rewrite Hperm, <- !app_assoc. apply Permutation_app_head. rewrite app_assoc. apply Permutation_app_comm.
  - rewrite length_insert. done.
  - intros i Hi0 Hi. rewrite list_lookup_insert_ne; [apply Hother; [done|set_solver]|]. assert (i ≠ idx) by set_solver. lia.
  - intros i [Hi|Hi]%elem_of_app; [|apply list_elem_of_singleton in Hi as ->; by rewrite Eown1].
    destruct (Hpi i (Hsub i (or_introl Hi))) as [-> ->]. by apply Hnew.
  - intros i Hi. destruct (Hpi i (Hsub i (or_intror (or_introl Hi)))) as [-> ->]. destruct (Hcmp i Hi) as [? Hsl]. split; [done|]. rewrite Hld1. by apply Hkeep.
  - intros i Hi. destruct (Hnx i Hi) as (h & q & Hsl & ?). exists h, q. split; [|done]. rewrite Hld1. by apply Hkeep.
Qed.
(** A row whose slot is taken. *)
Lemma round_look idx seen s h p :
  round_ok seen s → idx ∈ remaining → idx ∉ seen → Forall (λ i, 0 ≤ i) seen → slot (r_table s) idx = Some (Some (h, p)) →
  ∃ s', classify_row hash_data sizes buckets idx s = Ok s' ∧ round_ok (seen ++ [idx]) s'.
Proof.
  intros R Hin Hns Hpos Hslot. pose proof R as [Ea K Hex Cf Em Hm Hbl Hd Hperm Hla Hother Hnew Hcmp Hnx]. rewrite !Forall_forall in *.
  assert (0 ≤ idx < Z.of_nat size) as Hidx by (by apply HF). pose proof (proj1 Hex) as Hld.
  unfold classify_row. rewrite (Hb idx Hin). cbn [mbind result_bind]. assert (at_index hash_data idx = Ok (H (rowv idx))) as -> by (unfold at_index; by rewrite Hhash).
  cbn [mbind result_bind]. rewrite Nat2Z.id, <- Hld, Hslot.
  assert (∀ i, i ∈ r_new s ∨ i ∈ r_compare s ∨ i ∈ r_next s → i ∈ seen) as Hsub by (intros i; rewrite Hperm, !elem_of_app; tauto).
  case_bool_decide as Eh; (eexists; split; [done|]).
  - subst h. destruct (ptr_insert_eq (r_addr s) idx p ltac:(lia)) as [Eown1 Eown2].
    assert (∀ i, i ∈ seen → ptr_of (<[Z.to_nat idx:=Some p]> (r_addr s)) i = ptr_of (r_addr s) i ∧ ptr_at (<[Z.to_nat idx:=Some p]> (r_addr s)) i = ptr_at (r_addr s) i) as Hpi
      by (intros i Hi; apply ptr_insert; [lia|by apply Hpos|by intros ->]).
    split; simpl r_table; simpl r_mem; simpl r_addr; simpl r_new; simpl r_compare; simpl r_next; try done.
    + rewrite Ea. f_equal. apply list_fmap_ext. intros k i Hi. symmetry. apply Hpi, Hsub. left. by eapply list_elem_of_lookup_2.
    + rewrite Hperm, <- !app_assoc. do 2 apply Permutation_app_head. apply Permutation_app_comm.
    + by rewrite length_insert.
    + intros i Hi0 Hi. rewrite list_lookup_insert_ne; [apply Hother; [done|set_solver]|]. assert (i ≠ idx) by set_solver. lia.
    + intros i Hi. destruct (Hpi i (Hsub i (or_introl Hi))) as [-> ->]. by apply Hnew.
    + intros i [Hi|Hi]%elem_of_app; [destruct (Hpi i (Hsub i (or_intror (or_introl Hi)))) as [-> ->]; by apply Hcmp|].
      apply list_elem_of_singleton in Hi as ->. by rewrite Eown1.
  - split; simpl r_table; simpl r_mem; simpl r_addr; simpl r_new; simpl r_compare; simpl r_next; try done.
    + by rewrite Hperm, <- !app_assoc.
    + intros i Hi0 Hi. apply Hother; [done|set_solver].
    + intros i [Hi|Hi]%elem_of_app; [by apply Hnx|]. apply list_elem_of_singleton in Hi as ->. by exists h, p.
Qed.
Lemma classify_from idxs : ∀ seen s,
  round_ok seen s → remaining = seen ++ idxs → NoDup remaining → (length rows0 + length remaining < length (directory_ t0))%nat →
  Z.of_nat (length rows0 + length remaining) < 2 ^ 60 → ∃ s', classify hash_data sizes buckets idxs s = Ok s' ∧ round_ok remaining s'.
Proof.
  induction idxs as [|idx idxs IH]; intros seen s R Erem Hnd Hroom Hcb.
  { exists s. rewrite app_nil_r in Erem. by rewrite Erem at 1. }
  assert (idx ∈ remaining) as Hin by (rewrite Erem; set_solver). assert (idx ∉ seen) as Hns by (rewrite Erem in Hnd; apply NoDup_app in Hnd as (_ & Hnd & _); set_solver).
  assert (Forall (λ i, 0 ≤ i) seen) as Hpos by (apply Forall_forall; intros i Hi; rewrite Forall_forall in HF; apply HF; rewrite Erem; set_solver).
  pose proof (ro_linked _ _ R) as K. destruct (linked_lengths _ _ _ K) as [Hl _]. pose proof (lk_count _ _ _ K) as Hcnt.
  assert (length (rows0 ++ (rowv <$> r_new s)) + 1 ≤ length rows0 + length remaining)%nat as Hlen.
  { rewrite length_app, length_fmap, Erem, length_app. rewrite (ro_perm _ _ R), !length_app. simpl. lia. }
  assert (∃ s', classify_row hash_data sizes buckets idx s = Ok s' ∧ round_ok (seen ++ [idx]) s') as (s' & E & R').
  { pose proof (proj1 (ro_extends _ _ R)) as Hld.
    destruct (lookup_lt_is_Some_2 (directory_ (r_table s)) (pos (length (directory_ (r_table s))) (H (rowv idx)) r)) as [[[h p]|] Hs]; [apply pos_lt; lia| |].
    - by eapply round_look.
    - eapply round_create; try done; lia. }
  cbn [classify]. rewrite E. cbn [mbind result_bind]. eapply IH; [exact R'|by rewrite <- app_assoc|done..].
Qed.
Lemma round_start : round_ok [] (mkRound t0 mem0 addr0 [] [] []).
Proof.
  split; simpl; rewrite ?app_nil_r; try done; [by left|set_solver..].
Qed.
(** The rows that are left split into new groups, rows to compare, and rows to move on. *)
Lemma classify_ok :
  NoDup remaining → (length rows0 + length remaining < length (directory_ t0))%nat → Z.of_nat (length rows0 + length remaining) < 2 ^ 60 →
  ∃ s, classify hash_data sizes buckets remaining (mkRound t0 mem0 addr0 [] [] []) = Ok s ∧ round_ok remaining s.
Proof. intros Hnd Hroom Hcb. by apply (classify_from remaining [] _ round_start). Qed.
End round.
End groups.

(** * The rounds of [FindOrCreateGroups] end with every row at its group *)

Lemma advance_ok mask idxs : ∀ buckets (f : Z → Z),
  NoDup idxs → Forall (λ i, 0 ≤ i) idxs → (∀ idx, idx ∈ idxs → at_index buckets idx = Ok (f idx)) →
  ∃ buckets', advance mask idxs buckets = Ok buckets' ∧ (∀ idx, idx ∈ idxs → at_index buckets' idx = Ok (Z.land (f idx + 1) mask)) ∧
    ∀ idx, 0 ≤ idx → idx ∉ idxs → at_index buckets' idx = at_index buckets idx.
Proof.
  induction idxs as [|idx idxs IH]; intros buckets f Hnd HF Hb; [exists buckets; split; [done|]; split; [set_solver|done]|].
  apply NoDup_cons in Hnd as [Hni Hnd]. apply Forall_cons in HF as [H0 HF]. cbn [advance]. rewrite (Hb idx) by set_solver. cbn [mbind result_bind].
  assert (Z.to_nat idx < length buckets)%nat as Hlt.
  { specialize (Hb idx ltac:(set_solver)). unfold at_index in Hb. destruct (buckets !! Z.to_nat idx) eqn:E; [by eapply lookup_lt_Some|done]. }
  destruct (IH (<[Z.to_nat idx := Z.land (f idx + 1) mask]> buckets) f Hnd HF) as (b' & E & Hin & Hout).
  { intros i Hi. rewrite Forall_forall in HF. specialize (HF i Hi). unfold at_index. rewrite list_lookup_insert_ne; [apply Hb; set_solver|]. intros Ei. apply Hni.
    replace idx with i by lia. done. }
  exists b'. split; [done|]. split.
  - intros i [->|Hi]%elem_of_cons; [|by apply Hin]. rewrite Hout by done. unfold at_index. by rewrite list_lookup_insert_eq.
  - intros i Hi0 Hi. rewrite Hout by set_solver. unfold at_index. rewrite list_lookup_insert_ne; [done|]. assert (i ≠ idx) by set_solver. lia.
Qed.
Lemma grows_trans t1 t2 t3 m1 m2 m3 : grows t1 t2 m1 m2 → grows t2 t3 m2 m3 → grows t1 t3 m1 m3.
Proof.
  intros [K1 B1] [K2 B2]. split; [eapply keeps_trans; [done|done|exact B1]|]. intros b Hb. destruct (B2 b Hb) as [?|?]; [by apply B1|]. right. destruct K1. lia.
Qed.
Lemma omap_perm {A B} (f : A → option B) (l k : list A) : l ≡ₚ k → omap f l ≡ₚ omap f k.
Proof. intros Hp. by rewrite Hp. Qed.

Section rounds.
Context (H : Row → Z) (tc : PRLHashTable) `{!KeyHash (null_equal_keys_ tc) (key_types tc) H}.
Context (S : shape_ok tc) (Hstale : directory_stale_ tc = false).
Context (cols : list VectorData) (size : nat) (rowv : Z → Row) (C : chunk_ok tc cols size rowv) (hash_data sizes : list Z).
Context (Hhash : ∀ idx, 0 ≤ idx < Z.of_nat size → hash_data !! Z.to_nat idx = Some (H (rowv idx))).
Context (Hsizes : ∀ idx, 0 ≤ idx < Z.of_nat size → at_index sizes idx = Ok (row_size (layout_ tc) (rowv idx))).
Abbreviation keq := (key_eq (null_equal_keys_ tc) (key_types tc)).
Abbreviation linked := (linked_ok H (key_types tc) (layout_ tc)).
Abbreviation in_chunk := (λ idx, 0 ≤ idx < Z.of_nat size).

Lemma key_types_config t : same_setup tc t → key_types t = key_types tc.
Proof. intros []. unfold key_types. congruence. Qed.
Lemma chunk_keys idx : in_chunk idx → (length (key_types tc) ≤ length (rowv idx))%nat.
Proof. intros Hi. rewrite (key_types_length tc S), (proj1 (proj2 (ck_reads _ _ _ _ C) idx Hi)). apply S. Qed.
Lemma chunk_sizes idx : in_chunk idx → at_index sizes idx = Ok (row_size (layout_ tc) (rowv idx)) ∧ 0 < row_size (layout_ tc) (rowv idx).
Proof. intros Hi. split; [by apply Hsizes|]. apply row_size_pos; [apply S|]. rewrite (sh_types _ S). apply S. Qed.
Lemma linked_of_table t mem rows : same_setup tc t → table_ok H t mem rows → linked t mem rows.
Proof.
  intros Cf [S' A Cn Hh Hc D]. rewrite (sc_layout _ _ Cf) in *. split; try done; [by rewrite (sc_stale _ _ Cf)|].
  intros g row Hr. rewrite (key_types_length tc S). pose proof (al_length _ _ _ _ _ _ A) as Hl. rewrite length_fmap in Hl.
  destruct (lookup_lt_is_Some_2 (row_addrs_ t) g) as [p Hp]; [rewrite Hl; by eapply lookup_lt_Some|].
  destruct (contents_lookup _ _ _ _ _ _ _ Cn Hp Hr) as [[-> _] _]. rewrite (sh_types _ S). apply S.
Qed.

(** The rows to compare: those whose group has another key move on. *)
Lemma compare_ok t mem rows addr compare :
  same_setup tc t → table_ok H t mem rows → Forall in_chunk compare →
  (∀ idx, idx ∈ compare → ptr_at addr idx = Ok (ptr_of addr idx) ∧ ptr_of addr idx ∈ row_addrs_ t) →
  ∃ matched failed_sel failed,
    Match cols (layout_ tc) (key_count_ tc) addr compare compare (length compare) (null_equal_keys_ tc) mem = Ok (matched, failed_sel) ∧
    select compare failed_sel = Ok failed ∧ failed ≡ₚ filter (λ idx, keq (rowv idx) (row_of t rows (ptr_of addr idx)) = false) compare.
Proof.
  intros Cf T HF Hptr. pose proof (sh_types _ S) as Ety. destruct (ck_reads _ _ _ _ C) as [Hcols Hread]. pose proof (sh_keys _ S) as Hkc. rewrite Forall_forall in HF.
  destruct (Match_ok (layout_ tc) (sh_layout _ S) cols addr compare compare mem (null_equal_keys_ tc) (key_count_ tc) (length compare)
    (λ i, rowv (compare !!! i)) (λ i, row_of t rows (ptr_of addr (compare !!! i)))) as (failed & E & Hfp).
  - rewrite Ety. apply Hkc.
  - rewrite Hcols. apply Hkc.
  - intros i Hi. destruct (lookup_lt_is_Some_2 compare i Hi) as [k Hk]. assert (k ∈ compare) as Hin by (by eapply list_elem_of_lookup_2).
    destruct (Hptr k Hin) as [Hpk Hpin]. destruct (addr_row H t mem rows T _ Hpin) as (g & row & Hg & Hrow & Erow).
    destruct (contents_lookup _ _ _ _ _ _ _ (tb_contents _ _ _ _ T) Hg Hrow) as [Hh Ht]. rewrite (sc_layout _ _ Cf) in *.
    exists k, (ptr_of addr k), k. rewrite (list_lookup_total_correct _ _ _ Hk), Erow. split; [by apply GetIndex_Some|]. split; [done|]. split; [by apply GetIndex_Some|].
    split; [done|]. split; [done|]. intros c ty col Hck Hty Hcol. rewrite Ety in Hty. by apply (proj2 (Hread k (HF k Hin)) c).
  - exists (Z.of_nat <$> filter (λ i, matches_from (layout_ tc) (null_equal_keys_ tc) (key_count_ tc) (λ i, rowv (compare !!! i)) (λ i, row_of t rows (ptr_of addr (compare !!! i))) 0 i = true) (seq 0 (length compare))).
    exists (Z.of_nat <$> failed). eexists. split; [exact E|]. split.
    { apply select_ok. rewrite Hfp. apply Forall_forall. intros i [_ Hi%elem_of_seq]%list_elem_of_filter. lia. }
    rewrite (omap_perm _ _ _ Hfp).
    pose proof (select_filter compare (λ i, negb (matches_from (layout_ tc) (null_equal_keys_ tc) (key_count_ tc) (λ i, rowv (compare !!! i)) (λ i, row_of t rows (ptr_of addr (compare !!! i))) 0 i))
      (λ idx, negb (keq (rowv idx) (row_of t rows (ptr_of addr idx))))) as Hsf.
    rewrite (list_filter_iff _ (λ i, negb (matches_from (layout_ tc) (null_equal_keys_ tc) (key_count_ tc) (λ i, rowv (compare !!! i)) (λ i, row_of t rows (ptr_of addr (compare !!! i))) 0 i) = true))
      by (intros i; rewrite negb_true_iff; done).
    rewrite Hsf; [|intros i k Hk; unfold matches_from, key_types; rewrite (list_lookup_total_correct _ _ _ Hk), Ety; done].
    rewrite (list_filter_iff _ (λ idx, keq (rowv idx) (row_of t rows (ptr_of addr idx)) = false)) by (intros i; rewrite negb_true_iff; done). done.
Qed.

(** ** The state between two rounds *)

Definition settled (t : PRLHashTable) (rows : list Row) (addr : list (option row_ptr)) (created : list Z) (idx : Z) : Prop :=
  ∃ g p row, addr !! Z.to_nat idx = Some (Some p) ∧ row_addrs_ t !! g = Some p ∧ rows !! g = Some row ∧ (keq (rowv idx) row = true ∨ (idx ∈ created ∧ row = rowv idx)).

Context (mem0 : Blocks) (rows0 : list Row).
Record between (r : nat) (remaining created : list Z) (t : PRLHashTable) (mem : Blocks) (addr : list (option row_ptr)) (buckets : list Z) : Prop := {
  bt_table : table_ok H t mem (rows0 ++ (rowv <$> created));
  bt_config : same_setup tc t;
  bt_distinct : distinct (null_equal_keys_ tc) (key_types tc) (rows0 ++ (rowv <$> created));
  bt_range : Forall in_chunk (remaining ++ created);
  bt_nodup : NoDup (remaining ++ created);
  bt_addr : (size ≤ length addr)%nat;
  bt_buckets : ∀ idx, idx ∈ remaining → at_index buckets idx = Ok (Z.of_nat (pos (length (directory_ t)) (H (rowv idx)) r));
  bt_passed : ∀ idx, idx ∈ remaining → passed (null_equal_keys_ tc) (key_types tc) t (rows0 ++ (rowv <$> created)) (H (rowv idx)) r (rowv idx);
  bt_settled : ∀ idx, in_chunk idx → idx ∉ remaining → settled t (rows0 ++ (rowv <$> created)) addr created idx;
  bt_room : (length rows0 + length created + length remaining < length (directory_ t))%nat;
  bt_bound : Z.of_nat (length rows0 + length created + length remaining) < 2 ^ 60;
  bt_grows : grows tc t mem0 mem;
  bt_prefix : row_addrs_ tc `prefix_of` row_addrs_ t }.

(** Some slot is empty, so the rows that are left have not been everywhere. *)
Lemma between_slots r remaining created t mem addr buckets : between r remaining created t mem addr buckets → remaining ≠ [] → (r < length (directory_ t))%nat.
Proof.
  intros B Hne. destruct (decide (r < length (directory_ t))%nat) as [|Hge]; [done|]. exfalso. destruct remaining as [|idx remaining]; [done|].
  pose proof (tb_dir _ _ _ _ (bt_table _ _ _ _ _ _ _ B)) as D. destruct (table_lengths _ _ _ _ (bt_table _ _ _ _ _ _ _ B)) as [Hl Hl'].
  assert (directory_stale_ t = false) as Hs by (by rewrite (sc_stale _ _ (bt_config _ _ _ _ _ _ _ B))).
  destruct (free_slot (directory_ t)) as [s Hs']; [rewrite (do_entries _ D Hs), length_zip_with; pose proof (do_room _ D Hs); lia|].
  destruct (pos_surj (length (directory_ t)) (H (rowv idx)) s) as (d & Hd & Ed); [by eapply lookup_lt_Some|].
  destruct (bt_passed _ _ _ _ _ _ _ B idx ltac:(set_solver) d ltac:(lia)) as (h & p & He & _). by rewrite Ed, Hs' in He.
Qed.
Lemma settled_extends t rows t' rows' addr addr' created created' idx :
  settled t rows addr created idx → row_addrs_ t `prefix_of` row_addrs_ t' → rows `prefix_of` rows' → addr' !! Z.to_nat idx = addr !! Z.to_nat idx →
  (∀ i, i ∈ created → i ∈ created') → settled t' rows' addr' created' idx.
Proof.
  intros (g & p & row & Ha & Hp & Hr & Hor) Hpa Hpr Ea Hc. exists g, p, row. rewrite Ea. split; [done|]. split; [by eapply prefix_lookup_Some|].
  split; [by eapply prefix_lookup_Some|]. destruct Hor as [?|[? ?]]; [by left|right; auto].
Qed.

(** The rows of a round that were created, compared and found to be of another group. *)
Section one_round.
Context (r : nat) (remaining created : list Z) (t : PRLHashTable) (mem : Blocks) (addr : list (option row_ptr)) (buckets : list Z).
Context (B : between r remaining created t mem addr buckets).
Abbreviation rows := (rows0 ++ (rowv <$> created)).
Record round_done (s : Round) (m2 : Blocks) (failed : list Z) : Prop := {
  rd_round : round_ok H (null_equal_keys_ tc) (key_types tc) rowv (layout_ tc) t mem rows addr r remaining s;
  rd_table : table_ok H (r_table s) m2 (rows ++ (rowv <$> r_new s));
  rd_shape : same_shape (r_mem s) m2;
  rd_blocks : ∀ b, b ∉ blocks_ (r_table s) → m2 !! b = r_mem s !! b;
  rd_pointer : ∀ idx, idx ∈ r_compare s → ptr_at (r_addr s) idx = Ok (ptr_of (r_addr s) idx) ∧ ptr_of (r_addr s) idx ∈ row_addrs_ (r_table s);
  rd_failed : failed ≡ₚ filter (λ idx, keq (rowv idx) (row_of (r_table s) (rows ++ (rowv <$> r_new s)) (ptr_of (r_addr s) idx)) = false) (r_compare s) }.

Lemma round_run :
  remaining ≠ [] → ∃ s m2 matched failed_sel failed,
    classify hash_data sizes buckets remaining (mkRound t mem addr [] [] []) = Ok s ∧
    Scatter cols (layout_ t) (r_addr s) (r_new s) (r_mem s) = Ok m2 ∧
    Match cols (layout_ t) (key_count_ t) (r_addr s) (r_compare s) (r_compare s) (length (r_compare s)) (null_equal_keys_ t) m2 = Ok (matched, failed_sel) ∧
    select (r_compare s) failed_sel = Ok failed ∧ round_done s m2 failed.
Proof.
  intros Hne. pose proof B as [T Cf Hd HF Hnd Hla Hb Hp Hs Hroom Hbd Hg Hpx]. pose proof (between_slots _ _ _ _ _ _ _ B Hne) as Hr.
  pose proof (linked_of_table _ _ _ Cf T) as K. apply Forall_app in HF as [HF HFc]. apply NoDup_app in Hnd as (Hnd & Hdj & Hndc).
  assert (length rows = length rows0 + length created)%nat as Hlr by (by rewrite length_app, length_fmap).
  destruct (classify_ok H (null_equal_keys_ tc) (key_types tc) size rowv hash_data sizes (layout_ tc) Hhash chunk_sizes chunk_keys t mem rows addr buckets r remaining
    K Hr Hla HF Hb Hp Hnd) as (s & Ecl & R); [lia..|].
  pose proof R as [Ea K' Hex Cf' Em Hm Hbl Hd' Hperm Hla' Hother Hnew Hcmp Hnx].
  assert (∀ i, i ∈ r_new s ∨ i ∈ r_compare s → in_chunk i) as Hin by (rewrite Forall_forall in HF; intros i Hi; apply HF; rewrite Hperm, !elem_of_app; tauto).
  rewrite Hperm in Hnd. apply NoDup_app in Hnd as (Hndn & _ & _). pose proof (same_setup_trans _ _ _ Cf Cf') as Cf2. destruct (table_lengths _ _ _ _ T) as [Hlen _].
  destruct (scatter_new tc S cols size rowv C (blocks_ (r_table s)) (block_used_ (r_table s)) (block_capacity_ (r_table s)) (row_addrs_ t) rows (r_new s) (r_addr s) (r_mem s))
    as (m2 & E2 & Hs2 & Hk2 & Cn2); try done; [apply Forall_forall; auto|rewrite <- Ea; apply K'|eapply contents_prefix; [done|]; rewrite <- (sc_layout _ _ Cf); apply T|].
  assert (table_ok H (r_table s) m2 (rows ++ (rowv <$> r_new s))) as T'.
  { destruct K' as [A' Hh' Hc' D' Hs' _]. split; try done; [by eapply shape_ok_config|rewrite (sc_layout _ _ Cf2); by eapply alloc_ok_shape|by rewrite (sc_layout _ _ Cf2), Ea]. }
  assert (∀ idx, idx ∈ r_compare s → ptr_at (r_addr s) idx = Ok (ptr_of (r_addr s) idx) ∧ ptr_of (r_addr s) idx ∈ row_addrs_ (r_table s)) as Hcp.
  { intros idx Hi. destruct (Hcmp idx Hi) as [? Hsl]. split; [done|]. eapply (entry_addr H _ m2 _ T'); [by rewrite (sc_stale _ _ Cf2)|]. apply entries_elem. by eexists. }
  destruct (compare_ok (r_table s) m2 (rows ++ (rowv <$> r_new s)) (r_addr s) (r_compare s) Cf2 T') as (matched & fsel & failed & E3 & E4 & Hfailed); [apply Forall_forall; auto|done|].
  rewrite (sc_layout _ _ Cf), (sc_keys _ _ Cf), (sc_null _ _ Cf). by exists s, m2, matched, fsel, failed.
Qed.

Context (s : Round) (m2 : Blocks) (failed : list Z) (D : round_done s m2 failed).
Abbreviation next := (r_next s ++ failed).
Abbreviation rows' := (rows0 ++ (rowv <$> created ++ r_new s)).
Lemma rows_next : rows ++ (rowv <$> r_new s) = rows'.
Proof. by rewrite fmap_app, app_assoc. Qed.
Lemma remaining_elem i : i ∈ remaining ↔ i ∈ r_new s ∨ i ∈ r_compare s ∨ i ∈ r_next s.
Proof. rewrite (ro_perm _ _ _ _ _ _ _ _ _ _ _ _ (rd_round _ _ _ D)), !elem_of_app. tauto. Qed.
Lemma failed_elem i : i ∈ failed ↔ keq (rowv i) (row_of (r_table s) rows' (ptr_of (r_addr s) i)) = false ∧ i ∈ r_compare s.
Proof. by rewrite (rd_failed _ _ _ D), list_elem_of_filter, rows_next. Qed.
Lemma next_sub i : i ∈ next → i ∈ remaining.
Proof. rewrite elem_of_app, remaining_elem, failed_elem. tauto. Qed.
(** The rows that move on are other rows than those created before and now. *)
Lemma next_nodup : NoDup (next ++ created ++ r_new s).
Proof.
  pose proof (bt_nodup _ _ _ _ _ _ _ B) as (Hnd & Hdj & Hndc)%NoDup_app. rewrite (ro_perm _ _ _ _ _ _ _ _ _ _ _ _ (rd_round _ _ _ D)) in Hnd.
  apply NoDup_app in Hnd as (Hndn & Hdj1 & Hnd2). apply NoDup_app in Hnd2 as (Hndc2 & Hdj2 & Hndx).
  assert (NoDup failed) as Hndf by (rewrite (rd_failed _ _ _ D); by apply NoDup_filter).
  apply NoDup_app. split; [|split].
  - apply NoDup_app. split; [done|]. split; [|done]. intros i Hi [_ Hi']%failed_elem. by eapply Hdj2.
  - intros i Hi [Hc|Hc]%elem_of_app; [by eapply Hdj; [apply next_sub|]|]. apply (Hdj1 i Hc). apply elem_of_app. apply elem_of_app in Hi as [Hi|[_ Hi]%failed_elem]; tauto.
  - apply NoDup_app. split; [done|]. split; [|done]. intros i Hi Hn. eapply Hdj; [|exact Hi]. apply remaining_elem. tauto.
Qed.
Lemma next_passed idx : idx ∈ next → passed (null_equal_keys_ tc) (key_types tc) (r_table s) rows' (H (rowv idx)) (Datatypes.S r) (rowv idx).
Proof.
  destruct D as [[Ea K' Hex Cf' Em Hm Hbl Hd' Hperm Hla' Hother Hnew Hcmp Hnx] T' Hs2 Hk2 Hcp Hf]. rewrite rows_next in *.
  pose proof (linked_of_table _ _ _ (bt_config _ _ _ _ _ _ _ B) (bt_table _ _ _ _ _ _ _ B)) as K. intros Hi j Hj. destruct (decide (j = r)) as [->|Hjr].
  - apply elem_of_app in Hi as [Hi|[Hk Hi]%failed_elem].
    + destruct (Hnx idx Hi) as (h & p & Hsl & Hneq). by exists h, p.
    + destruct (Hcmp idx Hi) as [_ Hsl]. eexists _, _. split; [exact Hsl|]. intros _ g row Hgp Hrow. by rewrite (row_of_lookup H _ m2 _ T' g _ row Hgp Hrow) in Hk.
  - eapply (passed_extends H _ _ _ _ _ _ _ _ _ _ r _ K K' Hex); [by apply (bt_passed _ _ _ _ _ _ _ B), next_sub|lia].
Qed.
Lemma ptr_at_lookup a idx p : ptr_at a idx = Ok p → a !! Z.to_nat idx = Some (Some p).
Proof. unfold ptr_at. destruct (a !! Z.to_nat idx) as [[q|]|]; [|done..]. by intros [= ->]. Qed.
Lemma next_settled idx : in_chunk idx → idx ∉ next → settled (r_table s) rows' (r_addr s) (created ++ r_new s) idx.
Proof.
  pose proof rows_next as Erows. pose proof D as [[Ea K' Hex Cf' Em Hm Hbl Hd' Hperm Hla' Hother Hnew Hcmp Hnx] T' Hs2 Hk2 Hcp Hf]. rewrite Erows in *.
  destruct (table_lengths _ _ _ _ (bt_table _ _ _ _ _ _ _ B)) as [Hlen _]. intros Hi Hni. destruct (decide (idx ∈ remaining)) as [Hrem|Hrem].
  - apply remaining_elem in Hrem as [Hn|[Hc|Hn]]; [| |exfalso; set_solver].
    + pose proof (ptr_at_lookup _ _ _ (Hnew idx Hn)) as Hpt. pose proof Hn as Hn'. apply list_elem_of_lookup in Hn as [k Hk].
      exists (length (row_addrs_ t) + k)%nat, (ptr_of (r_addr s) idx), (rowv idx). split; [done|].
      split; [rewrite Ea, lookup_app_r by lia; rewrite list_lookup_fmap; by replace (length (row_addrs_ t) + k - length (row_addrs_ t))%nat with k by lia; rewrite Hk|].
      split; [|right; split; [set_solver|done]]. rewrite <- Erows, lookup_app_r by lia. rewrite list_lookup_fmap.
      replace (length (row_addrs_ t) + k - length rows)%nat with k by lia. by rewrite Hk.
    + destruct (Hcp idx Hc) as [Hpt Hin]. destruct (addr_row H _ m2 _ T' _ Hin) as (g & row & Hgp & Hrow & Er). exists g, (ptr_of (r_addr s) idx), row.
      split; [by apply ptr_at_lookup|]. split; [done|]. split; [done|]. left.
      destruct (keq (rowv idx) row) eqn:Ek; [done|]. exfalso. apply Hni, elem_of_app. right. apply failed_elem. by rewrite Er.
  - eapply settled_extends; [by apply (bt_settled _ _ _ _ _ _ _ B)|apply Hex|apply Hex|by apply Hother; [lia|]|set_solver].
Qed.
Lemma next_length : (length (created ++ r_new s) + length next ≤ length created + length remaining)%nat.
Proof.
  rewrite (ro_perm _ _ _ _ _ _ _ _ _ _ _ _ (rd_round _ _ _ D)), !length_app. assert (length failed ≤ length (r_compare s))%nat by (rewrite (rd_failed _ _ _ D); apply length_filter). lia.
Qed.
(** The state before the next round. *)
Lemma between_next buckets' :
  (∀ idx, idx ∈ next → at_index buckets' idx = Ok (Z.land (Z.of_nat (pos (length (directory_ t)) (H (rowv idx)) r) + 1) (bitmask_ t))) →
  between (Datatypes.S r) next (created ++ r_new s) (r_table s) m2 (r_addr s) buckets' ∧ length (directory_ (r_table s)) = length (directory_ t).
Proof.
  intros Hb'. pose proof D as [[Ea K' Hex Cf' Em Hm Hbl Hd' Hperm Hla' Hother Hnew Hcmp Hnx] T' Hs2 Hk2 Hcp Hf]. rewrite rows_next in *.
  pose proof B as [T Cf Hd HF Hnd Hla Hb Hp Hs Hroom Hbd Hg Hpx]. pose proof (proj1 Hex) as Hld. pose proof next_length as Hnl. apply Forall_app in HF as [HF HFc]. rewrite Forall_forall in HF.
  split; [|done]. split.
  - done.
  - by eapply same_setup_trans.
  - by apply Hd'.
  - apply Forall_app. split; [apply Forall_forall; intros i Hi; by apply HF, next_sub|]. apply Forall_app. split; [done|]. apply Forall_forall. intros i Hi. apply HF, remaining_elem. tauto.
  - apply next_nodup.
  - by rewrite Hla'.
  - intros idx Hi. rewrite Hb' by done. pose proof (tb_dir _ _ _ _ T) as Dt. rewrite Hld, (do_mask _ Dt), (do_capacity _ Dt), (pos_next _ _ _ (do_power _ Dt)). done.
  - apply next_passed.
  - apply next_settled.
  - rewrite Hld. lia.
  - lia.
  - eapply grows_trans; [exact Hg|]. split; [|done]. apply (keeps_trans _ (blocks_ (r_table s)) _ (r_mem s)); [by apply keeps_prefix| |done].
    split; [rewrite <- (length_fmap length m2), Hs2, length_fmap; done|]. by intros; apply Hk2.
  - etrans; [exact Hpx|]. apply Hex.
Qed.
End one_round.

(** One round. *)
Lemma round_step fuel r remaining created t mem addr buckets :
  between r remaining created t mem addr buckets → remaining ≠ [] →
  ∃ remaining' created' t' mem' addr' buckets',
    group_rounds (Datatypes.S fuel) cols hash_data sizes buckets remaining created t mem addr = group_rounds fuel cols hash_data sizes buckets' remaining' created' t' mem' addr' ∧
    between (Datatypes.S r) remaining' created' t' mem' addr' buckets' ∧ length (directory_ t') = length (directory_ t).
Proof.
  intros B Hne. destruct (round_run _ _ _ _ _ _ _ B Hne) as (s & m2 & matched & fsel & failed & E1 & E2 & E3 & E4 & D).
  cbn [group_rounds]. rewrite bool_decide_false by done. rewrite E1. cbn [mbind result_bind]. rewrite E2. cbn [mbind result_bind]. rewrite E3. cbn [mbind result_bind]. rewrite E4. cbn [mbind result_bind].
  pose proof (next_nodup _ _ _ _ _ _ _ B _ _ _ D) as (Hndx & _ & _)%NoDup_app. pose proof (bt_range _ _ _ _ _ _ _ B) as [HF _]%Forall_app. rewrite Forall_forall in HF.
  destruct (advance_ok (bitmask_ t) (r_next s ++ failed) buckets (λ idx, Z.of_nat (pos (length (directory_ t)) (H (rowv idx)) r)) Hndx) as (b' & E5 & Hb' & _).
  { apply Forall_forall. intros i Hi. specialize (HF i (next_sub _ _ _ _ _ _ _ _ _ D i Hi)). lia. }
  { intros i Hi. apply (bt_buckets _ _ _ _ _ _ _ B). by apply (next_sub _ _ _ _ _ _ _ _ _ D). }
  rewrite E5. cbn [mbind result_bind]. eexists _, _, _, _, _, b'. split; [reflexivity|]. by apply (between_next _ _ _ _ _ _ _ B _ _ _ D).
Qed.

(** Enough rounds settle every row. *)
Lemma group_rounds_ok fuel : ∀ r remaining created t mem addr buckets,
  between r remaining created t mem addr buckets → (length (directory_ t) < r + fuel)%nat →
  ∃ created' t' mem' addr' buckets' r', group_rounds fuel cols hash_data sizes buckets remaining created t mem addr = Ok (t', mem', addr', created') ∧
    between r' [] created' t' mem' addr' buckets'.
Proof.
  induction fuel as [|fuel IH]; intros r remaining created t mem addr buckets B Hf.
  - destruct (decide (remaining = [])) as [->|Hne]; [|pose proof (between_slots _ _ _ _ _ _ _ B Hne); lia].
    eexists _, _, _, _, _, _. split; [done|exact B].
  - destruct (decide (remaining = [])) as [->|Hne]; [eexists _, _, _, _, _, _; split; [done|exact B]|].
    destruct (round_step fuel r remaining created t mem addr buckets B Hne) as (rem' & cr' & t' & m' & a' & b' & -> & B' & Hld). eapply IH; [exact B'|]. rewrite Hld. lia.
Qed.
End rounds.

(** ** The whole call *)

Lemma identity_select (l : list Z) n : (n ≤ length l)%nat → select l (Z.of_nat <$> seq 0 n) = Ok (take n l).
Proof.
  intros Hn. rewrite select_ok by (apply Forall_forall; intros i Hi%elem_of_seq; lia). f_equal. revert l Hn. induction n as [|n IH]; intros [|x l] Hn; try done; [simpl in Hn; lia|].
  cbn [seq omap list_omap lookup list_lookup take]. f_equal. rewrite <- seq_shift. simpl in Hn. rewrite <- (IH l) by lia. clear. generalize 0%nat as k.
  induction n as [|n IH]; intros k; [done|]. cbn [seq map omap list_omap]. cbn [lookup list_lookup]. destruct (l !! k); [f_equal|]; apply IH.
Qed.
Lemma FindOrCreateGroups_ok H t mem rows cols vecs size rowv hash_data addr `{!KeyHash (null_equal_keys_ t) (key_types t) H} :
  table_ok H t mem rows → directory_stale_ t = false → chunk_Orrify (Z.of_nat size) vecs = Ok cols → chunk_ok t cols size rowv →
  (∀ idx, 0 ≤ idx < Z.of_nat size → hash_data !! Z.to_nat idx = Some (H (rowv idx))) → (size ≤ length addr)%nat →
  distinct (null_equal_keys_ t) (key_types t) rows → Z.of_nat (length rows + size) < 2 ^ 60 →
  ∃ t' mem' addr' created, FindOrCreateGroups hash_data vecs size addr t mem = Ok (t', mem', addr', created) ∧
    table_ok H t' mem' (rows ++ (rowv <$> created)) ∧ same_setup t t' ∧ grows t t' mem mem' ∧
    row_addrs_ t `prefix_of` row_addrs_ t' ∧ distinct (null_equal_keys_ t) (key_types t) (rows ++ (rowv <$> created)) ∧ NoDup created ∧ Forall (λ idx, 0 ≤ idx < Z.of_nat size) created ∧
    ∀ idx, 0 ≤ idx < Z.of_nat size → settled t rowv t' (rows ++ (rowv <$> created)) addr' created idx.
Proof.
  intros T Hs Ec C Hhash Hla Hd Hb. unfold FindOrCreateGroups. case_bool_decide as Hz.
  { subst size. exists t, mem, addr, []. rewrite fmap_nil, app_nil_r. split; [done|]. split; [done|]. split; [done|]. split; [apply grows_refl|]. split; [done|]. split; [done|].
    split; [constructor|]. split; [constructor|]. intros idx Hi. lia. }
  pose proof (tb_shape _ _ _ _ T) as S. destruct (table_lengths _ _ _ _ T) as [Hl Hl']. pose proof (tb_count _ _ _ _ T) as Hcnt.
  rewrite bool_decide_true by (rewrite <- (chunk_Orrify_length _ _ _ Ec); apply C). cbn [negb]. rewrite Hs.
  destruct (ensure_capacity_ok (Z.of_nat size) t (tb_dir _ _ _ _ T) Hs Hl') as (t1 & E1 & Sr & Hs1 & D1 & Hcap); [lia..|]. rewrite E1. cbn [mbind result_bind]. rewrite Ec. cbn [mbind result_bind].
  destruct (same_rows_config _ _ Sr ltac:(by rewrite Hs1, Hs)) as [Cf1 Eb1]. pose proof (table_same_rows _ _ _ _ _ T Sr D1) as T1.
  assert (length hash_data ≥ size)%nat as Hlh.
  { specialize (Hhash (Z.of_nat size - 1) ltac:(lia)). apply lookup_lt_Some in Hhash. lia. }
  destruct (ComputeRowSizes_ok t1 (tb_shape _ _ _ _ T1) cols size rowv ltac:(by eapply chunk_ok_config)) as (sizes & Es & Hsz). rewrite Es. cbn [mbind result_bind].
  rewrite identity_select by (rewrite length_fmap; lia). cbn [mbind result_bind]. rewrite (sc_layout _ _ Cf1) in Hsz.
  destruct (group_rounds_ok H t S Hs cols size rowv C hash_data sizes Hhash Hsz mem rows (length (directory_ t1) + 1) 0 (Z.of_nat <$> seq 0 size) [] t1 mem addr
    (take size ((λ h, Z.land h (bitmask_ t1)) <$> hash_data))) as (created & t' & mem' & addr' & b' & r' & E & B).
  - split; rewrite ?fmap_nil, ?app_nil_r; try done.
    + apply Forall_forall. intros idx (i & -> & Hi%elem_of_seq)%list_elem_of_fmap. lia.
    + apply NoDup_fmap; [apply _|apply NoDup_seq].
    + intros idx (i & -> & Hi%elem_of_seq)%list_elem_of_fmap. unfold at_index. rewrite lookup_take_lt by lia. rewrite list_lookup_fmap, Hhash by lia. simpl.
      by rewrite (do_mask _ D1), (do_capacity _ D1), (pos_home _ _ (do_power _ D1)).
    + intros idx _ j Hj. lia.
    + intros idx Hi Hni. exfalso. apply Hni. apply list_elem_of_fmap. exists (Z.to_nat idx). split; [lia|]. apply elem_of_seq. lia.
    + rewrite length_fmap, length_seq. simpl. rewrite (do_capacity _ D1) in Hcap. lia.
    + rewrite length_fmap, length_seq. simpl. lia.
    + split; [by apply keeps_prefix|]. rewrite Eb1. by left.
    + by rewrite Sr.
  - lia.
  - exists t', mem', addr', created. destruct B as [T' Cf' Hd' HF' Hnd' _ _ _ Hset _ _ Hg' Hpx]. do 8 (split; [done|]). intros idx Hi. apply Hset; [done|set_solver].
Qed.
