(* ===== verification/VectorHash.v ===== *)
(** * Hashes of columns and rows ([common/hash.cpp], [vector_hash.cpp], [DataChunk::Hash])

    The first key column seeds the hash of a row and the others are folded in, whatever the encodings of the
    columns.  Rows whose keys compare equal have equal hashes, NULLs and zeros of either sign included; the
    library's hash of floating-point numbers is a parameter. *)

From Stdlib Require Import Floats.SpecFloat.
From S2P Require Import Prelude TablePage TableHeap BTreePage BPlusTree GenericKey StringHeap ValidityMask SortKey VectorOps SortKeyOrder RowFormat RowScatter PRLHashTable HashInvariant.

(** [std::hash<float>] and [std::hash<double>] of a bit pattern; numbers that are equal hash equal. *)
Class StdHash (hash32 hash64 : Z → Z) : Prop := {
  std_hash32_eq : ∀ x y, SFeqb (float32 x) (float32 y) = true → hash32 x = hash32 y;
  std_hash64_eq : ∀ x y, SFeqb (float64 x) (float64 y) = true → hash64 x = hash64 y }.

(** ** Values *)

Definition MURMUR : Z := 0xbf58476d1ce4e5b9.
Definition MurmurHash64 (x : Z) : Z := u64 (x * MURMUR).
Definition MurmurHash32 (x : Z) : Z := MurmurHash64 (u32 x).
Definition NULL_HASH : Z := 0x9e3779b97f4a7c15.
Definition CombineHashScalar (a b : Z) : Z := Z.lxor (u64 (a * MURMUR)) b.

(** The words of a string, 8 bytes at a time; up to 7 bytes remain. *)
Definition HASH_M : Z := 0x9E3779B97F4A7C15.
Definition mix (h k : Z) : Z := u64 (Z.lxor h k * HASH_M).
Fixpoint hash_words (h : Z) (s : list byte) : Z * list byte :=
  match s with
  | b0 :: b1 :: b2 :: b3 :: b4 :: b5 :: b6 :: b7 :: rest =>
      let h := mix h (le_value [b0; b1; b2; b3; b4; b5; b6; b7]) in
      hash_words (Z.lxor h (Z.shiftr h 29)) rest
  | _ => (h, s)
  end.
Definition Hash_string (s : list byte) : Z :=
  let '(h, rest) := hash_words (Z.lxor 0xcbf29ce484222325 (u64 (Z.of_nat (length s) * HASH_M))) s in
  let h := if bool_decide (rest = []) then h else mix h (le_value rest) in
  let h := u64 (Z.lxor h (Z.shiftr h 32) * HASH_M) in
  Z.lxor h (Z.shiftr h 29).

Section hash.
Context (hash32 hash64 : Z → Z).
(** [Hash<T>]: small integers are converted to 32 bits, 64-bit integers are taken as they are. *)
Definition Hash_cell (ty : PhysicalType) (c : cell) : result Z :=
  match c with
  | CNum z =>
      match ty with
      | TINYINT | SMALLINT | INTEGER | UTINYINT | USMALLINT | UINTEGER => Ok (MurmurHash32 z)
      | BIGINT | UBIGINT => Ok (MurmurHash64 (u64 z))
      | FLOAT => Ok (hash32 z)
      | DOUBLE => Ok (hash64 z)
      | _ => Err EUndefined
      end
  | CStr s => if bool_decide (ty = STRING) then Ok (Hash_string s) else Err EUndefined
  end.

(** ** Columns *)

(** A vector of hashes: constant or flat, over one buffer. *)
Record HashVector := mkHashVector { hv_constant : bool; hv_buf : list Z }.
Definition hash_at (buf : list Z) (i : Z) : result Z := match buf !! Z.to_nat i with Some h => Ok h | None => Err EUndefined end.
Fixpoint over_hashes (f : Z → Z → result Z) (idxs : list Z) (buf : list Z) : result (list Z) :=
  match idxs with
  | [] => Ok buf
  | i :: idxs => old ← hash_at buf i; h ← f i old; over_hashes f idxs (<[Z.to_nat i := h]> buf)
  end.
Definition element_hash (ty : PhysicalType) (vd : VectorData) (ridx : Z) : result Z :=
  lidx ← GetIndex (vd_sel vd) ridx;
  if is_null_at (vd_validity vd) lidx then Ok NULL_HASH else c ← data_at (vd_data vd) lidx; Hash_cell ty c.
Definition constant_hash (ty : PhysicalType) (data : cell) (validity : option (list Z)) : result Z :=
  if mask_valid validity 0 then Hash_cell ty data else Ok NULL_HASH.
Definition unsupported (what : string) (ty : PhysicalType) : result HashVector :=
  match ty with LIST | ARRAY => Err EUndefined | _ => Err (EException NOT_IMPLEMENTED what) end.

(** [VectorOperations::Hash]; [rsel] selects the rows, and the hashes go to the selected places. *)
Definition Vector_Hash (ty : PhysicalType) (input : Vector) (rsel : option (list Z)) (count : nat) (hashes : HashVector) : result HashVector :=
  if is_numeric ty || bool_decide (ty = STRING) then
    match input with
    | CONSTANT_VECTOR data validity =>
        h ← constant_hash ty data validity; _ ← hash_at (hv_buf hashes) 0; Ok (mkHashVector true (<[0%nat := h]> (hv_buf hashes)))
    | _ =>
        vd ← Orrify (Z.of_nat count) input;
        idxs ← read_indices rsel 0 count;
        buf ← over_hashes (λ ridx _, element_hash ty vd ridx) idxs (hv_buf hashes);
        Ok (mkHashVector false buf)
    end
  else unsupported "hash: unsupported type" ty.
(** [VectorOperations::CombineHash]. *)
Definition Vector_CombineHash (ty : PhysicalType) (input : Vector) (rsel : option (list Z)) (count : nat) (hashes : HashVector) : result HashVector :=
  if is_numeric ty || bool_decide (ty = STRING) then
    match input, hv_constant hashes with
    | CONSTANT_VECTOR data validity, true =>
        old ← hash_at (hv_buf hashes) 0; h ← constant_hash ty data validity;
        Ok (mkHashVector true (<[0%nat := CombineHashScalar old h]> (hv_buf hashes)))
    | _, constant =>
        vd ← Orrify (Z.of_nat count) input;
        idxs ← read_indices rsel 0 count;
        if constant then
          hash ← hash_at (hv_buf hashes) 0;
          buf ← over_hashes (λ ridx _, h ← element_hash ty vd ridx; Ok (CombineHashScalar hash h)) idxs (hv_buf hashes);
          Ok (mkHashVector false buf)
        else
          buf ← over_hashes (λ ridx old, h ← element_hash ty vd ridx; Ok (CombineHashScalar old h)) idxs (hv_buf hashes);
          Ok (mkHashVector false buf)
    end
  else unsupported "combine hash: unsupported type" ty.
Fixpoint combine_columns (types : list PhysicalType) (cols : list Vector) (count : nat) (hashes : HashVector) : result HashVector :=
  match types, cols with
  | ty :: types, v :: cols => hashes ← Vector_CombineHash ty v None count hashes; combine_columns types cols count hashes
  | _, _ => Ok hashes
  end.
(** [DataChunk::Hash] over the given columns. *)
Definition Chunk_Hash (types : list PhysicalType) (cols : list Vector) (count : nat) (hashes : HashVector) : result HashVector :=
  match types, cols with
  | ty :: types, v :: cols => hashes ← Vector_Hash ty v None count hashes; combine_columns types cols count hashes
  | _, _ => Ok hashes
  end.
(** [Normalify(count)] of a hash vector, and its data. *)
Definition hash_data_of (count : nat) (hashes : HashVector) : result (list Z) :=
  if hv_constant hashes then
    h ← hash_at (hv_buf hashes) 0;
    if bool_decide (STANDARD_VECTOR_SIZE < Z.of_nat count) then Err EUndefined else Ok (replicate count h)
  else Ok (hv_buf hashes).

(** ** The hash of a row *)

Definition value_hash (ty : PhysicalType) (v : option cell) : Z := match v with None => NULL_HASH | Some c => match Hash_cell ty c with Ok h => h | Err _ => 0 end end.
Definition row_hash (types : list PhysicalType) (row : Row) : Z :=
  match types, row with
  | ty :: types, v :: row => foldl (λ h x, CombineHashScalar h (value_hash x.1 x.2)) (value_hash ty v) (zip types row)
  | _, _ => 0
  end.
End hash.

(** ** Equal keys *)

Section laws.
Context (hash32 hash64 : Z → Z) `{!StdHash hash32 hash64}.
Abbreviation vhash := (value_hash hash32 hash64).
Abbreviation rhash := (row_hash hash32 hash64).

Lemma value_hash_eq null_equal ty a b : value_eq null_equal ty a b = true → vhash ty a = vhash ty b.
Proof.
  destruct a as [x|], b as [y|]; simpl; try done. intros E. destruct x as [x|s], y as [y|s']; simpl in E; try done.
  - destruct ty; try (apply bool_decide_eq_true in E; by subst); simpl; [by apply std_hash32_eq|by apply std_hash64_eq].
  - apply bool_decide_eq_true in E. by subst.
Qed.
Lemma fold_hash_eq null_equal types : ∀ a b h, (length types ≤ length a)%nat → (length types ≤ length b)%nat → key_eq null_equal types a b = true →
  foldl (λ h x, CombineHashScalar h (vhash x.1 x.2)) h (zip types a) = foldl (λ h x, CombineHashScalar h (vhash x.1 x.2)) h (zip types b).
Proof.
  induction types as [|ty types IH]; intros [|x a] [|y b] h Ha Hb E; simpl in *; try done; try lia. apply andb_true_iff in E as [E1 E2].
  rewrite (value_hash_eq _ _ _ _ E1). apply IH; [lia|lia|done].
Qed.
(** The hash a table needs. *)
#[global] Instance row_hash_key null_equal types : KeyHash null_equal types (rhash types).
Proof.
  split. intros a b Ha Hb E. destruct types as [|ty types], a as [|x a], b as [|y b]; simpl in *; try done; try lia. apply andb_true_iff in E as [E1 E2].
  rewrite (value_hash_eq _ _ _ _ E1). by apply (fold_hash_eq null_equal); [lia|lia|].
Qed.

(** ** The hash vector *)

Lemma element_hash_ok ty vd idx v : reads ty vd idx v → element_hash hash32 hash64 ty vd idx = Ok (vhash ty v).
Proof.
  intros (x & Hval & Hcell & Hk & Heq). unfold col_valid, col_cell, element_hash in *. destruct (GetIndex (vd_sel vd) idx) as [lidx|]; [|done].
  cbn [mbind result_bind] in *. injection Hval as Hval. assert (is_null_at (vd_validity vd) lidx = negb (is_some v)) as ->.
  { unfold is_null_at. destruct (vd_validity vd) eqn:E; [by rewrite Hval|]. by rewrite <- Hval. }
  destruct v as [y|]; [|done]. specialize (Heq y eq_refl). subst y. simpl. rewrite Hcell. cbn [mbind result_bind]. unfold value_hash. destruct x as [z|s]; simpl in Hk |- *; [by destruct ty|].
  subst ty. by rewrite bool_decide_true.
Qed.
Lemma constant_hash_ok ty data validity n idx v vd :
  Orrify n (CONSTANT_VECTOR data validity) = Ok vd → reads ty vd idx v → constant_hash hash32 hash64 ty data validity = Ok (vhash ty v).
Proof.
  intros [= <-] Hr. pose proof (element_hash_ok _ _ _ _ Hr) as Hh. unfold element_hash in Hh. simpl in Hh. destruct (replicate _ 0 !! Z.to_nat idx) as [z|] eqn:E; [|done].
  apply lookup_replicate in E as [-> _]. cbn [mbind result_bind] in Hh. unfold constant_hash. unfold is_null_at in Hh. destruct validity as [ws|]; [|exact Hh].
  destruct (mask_valid (Some ws) 0); exact Hh.
Qed.
Lemma over_hashes_ok f (g : Z → Z) idxs : ∀ buf,
  NoDup idxs → Forall (λ i, 0 ≤ i) idxs → (∀ i, i ∈ idxs → ∃ old, buf !! Z.to_nat i = Some old ∧ f i old = Ok (g i)) →
  ∃ buf', over_hashes f idxs buf = Ok buf' ∧ length buf' = length buf ∧ ∀ i, i ∈ idxs → buf' !! Z.to_nat i = Some (g i).
Proof.
  assert (∀ idxs buf, NoDup idxs → Forall (λ i, 0 ≤ i) idxs → (∀ i, i ∈ idxs → ∃ old, buf !! Z.to_nat i = Some old ∧ f i old = Ok (g i)) →
    ∃ buf', over_hashes f idxs buf = Ok buf' ∧ length buf' = length buf ∧ (∀ i, i ∈ idxs → buf' !! Z.to_nat i = Some (g i)) ∧
      ∀ i, 0 ≤ i → i ∉ idxs → buf' !! Z.to_nat i = buf !! Z.to_nat i) as Hgen.
  { clear idxs. induction idxs as [|i idxs IH]; intros buf Hnd HF Hf; [exists buf; split; [done|]; split; [done|]; split; [set_solver|done]|].
    apply NoDup_cons in Hnd as [Hni Hnd]. apply Forall_cons in HF as [H0 HF]. destruct (Hf i ltac:(set_solver)) as (old & Ho & Ef). cbn [over_hashes]. unfold hash_at. rewrite Ho. cbn [mbind result_bind].
    rewrite Ef. cbn [mbind result_bind]. rewrite Forall_forall in HF.
    destruct (IH (<[Z.to_nat i := g i]> buf) Hnd ltac:(by apply Forall_forall)) as (buf' & E & Hl & Hin & Hout).
    { intros j Hj. destruct (Hf j ltac:(set_solver)) as (o & ? & ?). exists o. split; [|done]. rewrite list_lookup_insert_ne; [done|]. assert (i ≠ j) by (by intros ->). specialize (HF j Hj). lia. }
    exists buf'. split; [done|]. split; [by rewrite Hl, length_insert|]. split.
    - intros j [->|Hj]%elem_of_cons; [|by apply Hin]. rewrite Hout by done. apply list_lookup_insert_eq. by eapply lookup_lt_Some.
    - intros j Hj0 Hj. rewrite Hout by set_solver. rewrite list_lookup_insert_ne; [done|]. assert (i ≠ j) by set_solver. lia. }
  intros buf Hnd HF Hf. destruct (Hgen idxs buf Hnd HF Hf) as (b & E & Hl & Hin & _). by exists b.
Qed.

Section chunk.
Context (size : nat) (Hpos : (0 < size)%nat).
Abbreviation all_rows := (Z.of_nat <$> seq 0 size).
(** The vector has hash [f idx] for row [idx]. *)
Definition hv_reads (hv : HashVector) (f : Z → Z) : Prop :=
  (size ≤ length (hv_buf hv))%nat ∧ ∀ idx, 0 ≤ idx < Z.of_nat size → hv_buf hv !! (if hv_constant hv then 0%nat else Z.to_nat idx) = Some (f idx).
Lemma read_all : read_indices None 0 size = Ok all_rows.
Proof.
  change 0 with (Z.of_nat 0). clear. generalize 0%nat as i. induction size as [|n IH]; intros i; [done|]. cbn [read_indices GetIndex mbind result_bind].
  replace (Z.of_nat i + 1) with (Z.of_nat (S i)) by lia. by rewrite IH.
Qed.
Lemma all_rows_ok : NoDup all_rows ∧ Forall (λ i, 0 ≤ i) all_rows ∧ ∀ i, i ∈ all_rows ↔ 0 ≤ i < Z.of_nat size.
Proof.
  split; [apply NoDup_fmap; [apply _|apply NoDup_seq]|]. assert (∀ i, i ∈ all_rows ↔ 0 ≤ i < Z.of_nat size) as Hi.
  { intros i. rewrite list_elem_of_fmap. split; [intros (j & -> & Hj%elem_of_seq); lia|]. intros Hi. exists (Z.to_nat i). split; [lia|]. apply elem_of_seq. lia. }
  split; [|done]. apply Forall_forall. intros i Hin%Hi. lia.
Qed.
Lemma loop_reads f g buf :
  (size ≤ length buf)%nat → (∀ i old, 0 ≤ i < Z.of_nat size → buf !! Z.to_nat i = Some old → f i old = Ok (g i)) →
  ∃ buf', over_hashes f all_rows buf = Ok buf' ∧ hv_reads (mkHashVector false buf') g.
Proof.
  intros Hl Hf. destruct all_rows_ok as (Hnd & HF & Hin). destruct (over_hashes_ok f g all_rows buf Hnd HF) as (b & E & Hlb & Hb).
  { intros i Hi%Hin. destruct (lookup_lt_is_Some_2 buf (Z.to_nat i)) as [o Ho]; [lia|]. exists o. split; [done|]. by apply Hf. }
  exists b. split; [done|]. split; [simpl; lia|]. intros idx Hi. simpl. apply Hb. by apply Hin.
Qed.

Lemma constant_value ty data validity vd (val : Z → option cell) :
  Orrify (Z.of_nat size) (CONSTANT_VECTOR data validity) = Ok vd → (∀ idx, 0 ≤ idx < Z.of_nat size → reads ty vd idx (val idx)) →
  ∃ h, constant_hash hash32 hash64 ty data validity = Ok h ∧ ∀ idx, 0 ≤ idx < Z.of_nat size → h = vhash ty (val idx).
Proof.
  intros Ev Hread. exists (vhash ty (val 0)). split; [eapply constant_hash_ok; [done|apply Hread; lia]|]. intros idx Hi.
  pose proof (constant_hash_ok ty data validity _ idx _ vd Ev (Hread idx Hi)) as E. rewrite (constant_hash_ok ty data validity _ 0 _ vd Ev (Hread 0 ltac:(lia))) in E. by injection E.
Qed.

Context (ty : PhysicalType) (Hty : scalar ty = true) (v : Vector) (vd : VectorData) (Ev : Orrify (Z.of_nat size) v = Ok vd).
Context (val : Z → option cell) (Hread : ∀ idx, 0 ≤ idx < Z.of_nat size → reads ty vd idx (val idx)).
Lemma Vector_Hash_ok hv : (size ≤ length (hv_buf hv))%nat → ∃ hv', Vector_Hash hash32 hash64 ty v None size hv = Ok hv' ∧ hv_reads hv' (λ idx, vhash ty (val idx)).
Proof.
  intros Hl. unfold Vector_Hash. unfold scalar in Hty. rewrite Hty.
  assert (∃ hv', (vd ← Orrify (Z.of_nat size) v; idxs ← read_indices None 0 size; buf ← over_hashes (λ ridx _, element_hash hash32 hash64 ty vd ridx) idxs (hv_buf hv);
    Ok (mkHashVector false buf)) = Ok hv' ∧ hv_reads hv' (λ idx, vhash ty (val idx))) as Hflat.
  { rewrite Ev. cbn [mbind result_bind]. rewrite read_all. cbn [mbind result_bind].
    destruct (loop_reads (λ ridx _, element_hash hash32 hash64 ty vd ridx) (λ idx, vhash ty (val idx)) (hv_buf hv) Hl) as (b & E & Hb); [intros i _ Hi _; by apply element_hash_ok, Hread|].
    rewrite E. by eexists. }
  destruct v as [d m|data validity|sel ch] eqn:Evv; [exact Hflat| |exact Hflat].
  destruct (constant_value ty data validity vd val Ev Hread) as (h & -> & Hh). cbn [mbind result_bind]. unfold hash_at. destruct (lookup_lt_is_Some_2 (hv_buf hv) 0) as [o Ho]; [lia|].
  change (Z.to_nat 0) with 0%nat. rewrite Ho. cbn [mbind result_bind]. eexists. split; [done|]. split; [simpl; by rewrite length_insert|]. intros idx Hi. simpl.
  rewrite list_lookup_insert_eq by lia. by rewrite (Hh idx Hi).
Qed.
Lemma Vector_CombineHash_ok hv f :
  hv_reads hv f → ∃ hv', Vector_CombineHash hash32 hash64 ty v None size hv = Ok hv' ∧ hv_reads hv' (λ idx, CombineHashScalar (f idx) (vhash ty (val idx))).
Proof.
  intros [Hl Hf]. unfold Vector_CombineHash. unfold scalar in Hty. rewrite Hty.
  assert (∃ hv', (vd ← Orrify (Z.of_nat size) v; idxs ← read_indices None 0 size;
    if hv_constant hv then
      hash ← hash_at (hv_buf hv) 0;
      buf ← over_hashes (λ ridx _, h ← element_hash hash32 hash64 ty vd ridx; Ok (CombineHashScalar hash h)) idxs (hv_buf hv); Ok (mkHashVector false buf)
    else buf ← over_hashes (λ ridx old, h ← element_hash hash32 hash64 ty vd ridx; Ok (CombineHashScalar old h)) idxs (hv_buf hv); Ok (mkHashVector false buf)) = Ok hv' ∧
    hv_reads hv' (λ idx, CombineHashScalar (f idx) (vhash ty (val idx)))) as Hflat.
  { rewrite Ev. cbn [mbind result_bind]. rewrite read_all. cbn [mbind result_bind]. destruct (hv_constant hv) eqn:Ec.
    - pose proof (Hf 0 ltac:(lia)) as H0. unfold hash_at. change (Z.to_nat 0) with 0%nat. rewrite H0. cbn [mbind result_bind].
      edestruct (loop_reads (λ ridx _, h ← element_hash hash32 hash64 ty vd ridx; Ok (CombineHashScalar (f 0) h)) (λ idx, CombineHashScalar (f idx) (vhash ty (val idx))) (hv_buf hv) Hl) as (b & E & Hb);
        [|rewrite E; by eexists]. intros i _ Hi _. rewrite (element_hash_ok _ _ _ _ (Hread i Hi)). cbn [mbind result_bind]. do 2 f_equal. specialize (Hf i Hi). rewrite H0 in Hf. by injection Hf.
    - edestruct (loop_reads (λ ridx old, h ← element_hash hash32 hash64 ty vd ridx; Ok (CombineHashScalar old h)) (λ idx, CombineHashScalar (f idx) (vhash ty (val idx))) (hv_buf hv) Hl) as (b & E & Hb);
        [|rewrite E; by eexists]. intros i old Hi Ho. rewrite (element_hash_ok _ _ _ _ (Hread i Hi)). cbn [mbind result_bind]. do 2 f_equal. specialize (Hf i Hi). rewrite Ho in Hf. by injection Hf. }
  destruct v as [d m|data validity|sel ch] eqn:Evv; [exact Hflat| |exact Hflat]. destruct (hv_constant hv) eqn:Ec; [|exact Hflat].
  destruct (constant_value ty data validity vd val Ev Hread) as (h & Eh & Hh). pose proof (Hf 0 ltac:(lia)) as H0. unfold hash_at. change (Z.to_nat 0) with 0%nat. rewrite H0. cbn [mbind result_bind].
  rewrite Eh. cbn [mbind result_bind]. eexists. split; [done|]. split; [simpl; by rewrite length_insert|]. intros idx Hi. simpl. rewrite list_lookup_insert_eq by lia.
  specialize (Hf idx Hi). rewrite H0 in Hf. injection Hf as ->. by rewrite (Hh idx Hi).
Qed.
End chunk.

(** ** Chunks *)

Lemma chunk_reads_cons ty types vd cols size rowv :
  chunk_reads (ty :: types) (vd :: cols) size rowv →
  (∀ idx, 0 ≤ idx < Z.of_nat size → ∃ v, rowv idx = v :: tail (rowv idx) ∧ reads ty vd idx v) ∧ chunk_reads types cols size (λ idx, tail (rowv idx)).
Proof.
  intros [Hl Hr]. split.
  - intros idx Hi. destruct (Hr idx Hi) as [Hlen Hc]. destruct (Hc 0%nat ty vd eq_refl eq_refl) as (v & Hv & Hread). exists v. destruct (rowv idx); [done|]. by injection Hv as ->.
  - split; [by injection Hl|]. intros idx Hi. destruct (Hr idx Hi) as [Hlen Hc]. destruct (rowv idx) as [|v row]; [done|]. simpl. split; [by injection Hlen|].
    intros c ty' col Hty Hcol. by apply (Hc (S c)).
Qed.
Lemma combine_columns_ok size types : ∀ vecs cols rowv hv f,
  (0 < size)%nat → Forall (λ ty, scalar ty = true) types → chunk_Orrify (Z.of_nat size) vecs = Ok cols → chunk_reads types cols size rowv → hv_reads size hv f →
  ∃ hv', combine_columns hash32 hash64 types vecs size hv = Ok hv' ∧
    hv_reads size hv' (λ idx, foldl (λ h x, CombineHashScalar h (vhash x.1 x.2)) (f idx) (zip types (rowv idx))).
Proof.
  induction types as [|ty types IH]; intros vecs cols rowv hv f Hpos HF Ec C Hhv; [by exists hv|].
  apply Forall_cons in HF as [Hty HF]. destruct cols as [|vd cols]; [by destruct C as [? _]|]. destruct vecs as [|v vecs]; [done|]. cbn [chunk_Orrify] in Ec.
  destruct (Orrify (Z.of_nat size) v) as [vd'|] eqn:Ev; cbn [mbind result_bind] in Ec; [|done]. destruct (chunk_Orrify (Z.of_nat size) vecs) as [vds|] eqn:Evs; [|done]. injection Ec as -> ->.
  destruct (chunk_reads_cons _ _ _ _ _ _ C) as [Hhead C']. set (val := λ idx, match rowv idx with v :: _ => v | [] => None end).
  assert (∀ idx, 0 ≤ idx < Z.of_nat size → rowv idx = val idx :: tail (rowv idx) ∧ reads ty vd idx (val idx)) as Hval.
  { intros idx Hi. destruct (Hhead idx Hi) as (w & E & Hr). unfold val. rewrite E. done. }
  destruct (Vector_CombineHash_ok size Hpos ty Hty v vd Ev val (λ idx Hi, proj2 (Hval idx Hi)) hv f Hhv) as (hv1 & E1 & Hhv1). cbn [combine_columns]. rewrite E1. cbn [mbind result_bind].
  destruct (IH vecs cols (λ idx, tail (rowv idx)) hv1 _ Hpos HF Evs C' Hhv1) as (hv2 & E2 & Hl2 & Hr2). exists hv2. split; [done|]. split; [done|]. intros idx Hi. rewrite Hr2 by done.
  rewrite (proj1 (Hval idx Hi)) at 2. done.
Qed.
(** [DataChunk::Hash] gives every row the hash of its values. *)
Lemma Chunk_Hash_ok size types vecs cols rowv hv :
  (0 < size)%nat → types ≠ [] → Forall (λ ty, scalar ty = true) types → chunk_Orrify (Z.of_nat size) vecs = Ok cols → chunk_reads types cols size rowv → (size ≤ length (hv_buf hv))%nat →
  ∃ hv', Chunk_Hash hash32 hash64 types vecs size hv = Ok hv' ∧ hv_reads size hv' (λ idx, rhash types (rowv idx)).
Proof.
  intros Hpos Hne HF Ec C Hl. destruct types as [|ty types]; [done|]. apply Forall_cons in HF as [Hty HF]. destruct cols as [|vd cols]; [by destruct C as [? _]|]. destruct vecs as [|v vecs]; [done|].
  cbn [chunk_Orrify] in Ec. destruct (Orrify (Z.of_nat size) v) as [vd'|] eqn:Ev; cbn [mbind result_bind] in Ec; [|done]. destruct (chunk_Orrify (Z.of_nat size) vecs) as [vds|] eqn:Evs; [|done].
  injection Ec as -> ->. destruct (chunk_reads_cons _ _ _ _ _ _ C) as [Hhead C']. set (val := λ idx, match rowv idx with v :: _ => v | [] => None end).
  assert (∀ idx, 0 ≤ idx < Z.of_nat size → rowv idx = val idx :: tail (rowv idx) ∧ reads ty vd idx (val idx)) as Hval.
  { intros idx Hi. destruct (Hhead idx Hi) as (w & E & Hr). unfold val. rewrite E. done. }
  destruct (Vector_Hash_ok size Hpos ty Hty v vd Ev val (λ idx Hi, proj2 (Hval idx Hi)) hv Hl) as (hv1 & E1 & Hhv1). cbn [Chunk_Hash]. rewrite E1. cbn [mbind result_bind].
  destruct (combine_columns_ok size types vecs cols _ hv1 _ Hpos HF Evs C' Hhv1) as (hv2 & E2 & Hl2 & Hr2). exists hv2. split; [done|]. split; [done|]. intros idx Hi. rewrite Hr2 by done.
  rewrite (proj1 (Hval idx Hi)) at 2. done.
Qed.
Lemma hash_data_ok size hv f :
  hv_reads size hv f → (0 < size)%nat → Z.of_nat size ≤ STANDARD_VECTOR_SIZE → ∃ data, hash_data_of size hv = Ok data ∧ ∀ idx, 0 ≤ idx < Z.of_nat size → data !! Z.to_nat idx = Some (f idx).
Proof.
  intros [Hl Hr] Hpos Hs. unfold hash_data_of. destruct (hv_constant hv); [|by eexists]. pose proof (Hr 0 ltac:(lia)) as H0. unfold hash_at. change (Z.to_nat 0) with 0%nat. rewrite H0. cbn [mbind result_bind].
  rewrite bool_decide_false by lia. eexists. split; [done|]. intros idx Hi. rewrite lookup_replicate_2 by lia. specialize (Hr idx Hi). rewrite H0 in Hr. done.
Qed.
(** The hash looks at the key columns only. *)
Lemma row_hash_take types n row : (length types ≤ n)%nat → rhash types (take n row) = rhash types row.
Proof.
  intros Hn. destruct types as [|ty types], row as [|v row], n as [|n]; simpl in *; try done; try lia. f_equal. assert (length types ≤ n)%nat as Hn' by lia. clear Hn. revert n row Hn'.
  induction types as [|ty' types IH]; intros [|n] [|w row] Hn; simpl in *; try done; try lia. f_equal. apply IH. lia.
Qed.
Lemma chunk_reads_take k types cols size rowv : chunk_reads types cols size rowv → chunk_reads (take k types) (take k cols) size (λ idx, take k (rowv idx)).
Proof.
  intros [Hl Hr]. split; [rewrite !length_take; lia|]. intros idx Hi. destruct (Hr idx Hi) as [Hlen Hc]. split; [rewrite !length_take; lia|].
  intros c ty col Hty Hcol. apply lookup_take_Some in Hty as [Hty Hck]. apply lookup_take_Some in Hcol as [Hcol _]. destruct (Hc c ty col Hty Hcol) as (v & Hv & Hread). exists v. split; [|done].
  by rewrite lookup_take_lt.
Qed.
Lemma chunk_Orrify_take k n vecs cols : chunk_Orrify n vecs = Ok cols → chunk_Orrify n (take k vecs) = Ok (take k cols).
Proof.
  revert k cols. induction vecs as [|v vecs IH]; intros [|k] cols E; cbn [chunk_Orrify] in E; try (injection E as <-; done); try done.
  destruct (Orrify n v) as [vd|] eqn:Ev; cbn [mbind result_bind] in E; [|done]. destruct (chunk_Orrify n vecs) as [vds|] eqn:Evs; [|done]. injection E as <-. simpl. rewrite Ev. cbn [mbind result_bind].
  by rewrite (IH k vds eq_refl).
Qed.
End laws.
