(* ===== verification/HashSystem.v ===== *)
(** * Many tables over one memory

    The threads of a join build append to tables of their own, the tables are merged into one, its directory
    is built once, and the probes follow; the tables of an aggregate find or create groups.  A system of
    tables takes such calls one at a time, each with the hashes of the key columns of its chunk. *)

From S2P Require Import Prelude TablePage TableHeap BTreePage BPlusTree GenericKey StringHeap ValidityMask SortKey VectorOps SortKeyOrder RowFormat RowScatter PRLHashTable HashInvariant HashAppend HashGroups VectorHash.

(** ** New tables *)

Lemma layout_offsets_width types w offs w' : 0 ≤ w → Forall (λ ty, scalar ty = true) types → layout_offsets types w = Ok (offs, w') → w' ≤ w + 8 * Z.of_nat (length types).
Proof.
  intros Hw HF. revert w offs w' Hw. induction HF as [|ty types Hty HF IH]; intros w offs w' Hw E; cbn [layout_offsets] in E; [injection E as <- <-; simpl; lia|].
  rewrite (column_width_scalar ty Hty) in E. cbn [mbind result_bind] in E. destruct (layout_offsets types (w + slot_width ty)) as [[o w1]|] eqn:E1; [|done]. injection E as <- <-.
  pose proof (slot_width_pos ty). specialize (IH (w + slot_width ty) o w1 ltac:(lia) E1). assert (slot_width ty ≤ 8) by (by destruct ty). simpl length. lia.
Qed.
Lemma layout_width types l : Forall (λ ty, scalar ty = true) types → Z.of_nat (length types) < 2 ^ 24 → Layout_Initialize types = Ok l → rl_fixed_width l < 2 ^ 32.
Proof.
  intros HF Hn. unfold Layout_Initialize. set (fw := if bool_decide (types = []) then 0 else _). assert (0 ≤ fw ≤ Z.of_nat (length types) + 7) as Hfw.
  { unfold fw. case_bool_decide; [lia|]. split; [apply Z.div_pos; lia|]. apply Z.div_le_upper_bound; lia. }
  destruct (layout_offsets types fw) as [[o w]|] eqn:E; [|done]. cbn [mbind result_bind]. intros [= <-]. simpl.
  destruct (layout_offsets_ok types fw HF ltac:(lia)) as (o' & w' & E' & _ & Hw & _). rewrite E in E'. injection E' as <- <-.
  pose proof (layout_offsets_width types fw o w ltac:(lia) HF E). pose proof (AlignValue_ge w ltac:(lia)). lia.
Qed.
(** The constructor makes an empty table. *)
Lemma new_table_ok H types key_count null_equal capacity :
  Forall (λ ty, scalar ty = true) types → Z.of_nat (length types) < 2 ^ 24 → (0 < key_count ≤ length types)%nat → capacity ≤ 2 ^ 60 →
  ∃ t, new_PRLHashTable types key_count null_equal capacity = Ok t ∧ (∀ mem, table_ok H t mem []) ∧ directory_stale_ t = false ∧ blocks_ t = [] ∧
    types_ t = types ∧ key_count_ t = key_count ∧ null_equal_keys_ t = null_equal ∧ Layout_Initialize types = Ok (layout_ t).
Proof.
  intros HF Hn Hk Hc. assert (types ≠ []) as Hne by (by intros ->; simpl in Hk; lia). unfold new_PRLHashTable. rewrite bool_decide_true by done. cbn [negb].
  destruct (Layout_Initialize_ok types HF) as (l & El & L & Etl). rewrite El. cbn [mbind result_bind]. pose proof (layout_width types l HF Hn El) as Hw.
  destruct (NextPowerOfTwo_ok capacity ltac:(lia)) as (j & Ej & Hj & _). rewrite Ej. cbn [mbind result_bind].
  assert (∃ k, 0 ≤ k ∧ Z.max (2 ^ j) INITIAL_CAPACITY = 2 ^ k) as (k & Hk0 & Ek).
  { destruct (Z.max_spec (2 ^ j) INITIAL_CAPACITY) as [[_ ->]|[_ ->]]; [by exists 10|exists j; lia]. }
  rewrite Ek. assert (INITIAL_CAPACITY ≤ 2 ^ k) as Hmin by lia. unfold INITIAL_CAPACITY in *.
  assert (power_of_two (Z.to_nat (2 ^ k))) as Hp by (exists k; split; [done|rewrite Z2Nat.id by lia; done]).
  unfold Resize. pose proof (power_land _ Hp) as Hland. rewrite Z2Nat.id in Hland by lia. rewrite bool_decide_true by (split; [done|simpl; lia]). cbn [negb].
  destruct (link_from_empty (Z.to_nat (2 ^ k)) [] Hp) as (dir & E & Ld & Pd & Ed); [simpl; lia|]. rewrite Z2Nat.id in E by lia. cbn [empty_table directory_ omap list_omap]. rewrite E. cbn [mbind result_bind].
  eexists. split; [done|]. split; [|done]. intros mem. split; simpl; try done.
  - split; simpl; try done; set_solver.
  - by constructor.
  - split; simpl; rewrite ?Ld; try done; try (unfold INITIAL_CAPACITY); try lia.
Qed.

(** ** The system *)

(** Row [idx] of a chunk. *)
Definition chunk_row (cols : list VectorData) (idx : Z) : Row :=
  (λ col, match col_valid col idx, col_cell col idx with Ok true, Ok c => Some c | _, _ => None end) <$> cols.
Definition rows_of (size : nat) (vecs : list Vector) (idx : Z) : Row :=
  match chunk_Orrify (Z.of_nat size) vecs with Ok cols => chunk_row cols idx | Err _ => [] end.

Inductive HashOp :=
  | ONew (i : nat)
  | OAppend (i : nat) (vecs : list Vector) (size : nat) (idxs : list Z)
  | OAppendUnbuilt (i : nat) (vecs : list Vector) (size : nat) (idxs : list Z)
  | OMerge (i j : nat)
  | OBuild (i : nat)
  | OGroups (i : nat) (vecs : list Vector) (size : nat).
Record HashSystem := mkSystem { tables : gmap nat PRLHashTable; memory : Blocks }.

Section system.
Context (hash32 hash64 : Z → Z) (types : list PhysicalType) (key_count : nat) (null_equal : bool) (initial_capacity : Z).
Abbreviation ktypes := (take key_count types).

(** The hashes of the key columns, in a fresh vector. *)
Definition key_hashes (vecs : list Vector) (size : nat) : result (list Z) :=
  hv ← Chunk_Hash hash32 hash64 ktypes (take key_count vecs) size (mkHashVector false (replicate (Z.to_nat (Z.max (Z.of_nat size) STANDARD_VECTOR_SIZE)) 0));
  hash_data_of size hv.
Definition table_at (i : nat) (s : HashSystem) : result PRLHashTable := match tables s !! i with Some t => Ok t | None => Err EUndefined end.
Definition put (i : nat) (t : PRLHashTable) (mem : Blocks) (s : HashSystem) : HashSystem := mkSystem (<[i := t]> (tables s)) mem.

(** The second component is the selection of new groups. *)
Definition exec (op : HashOp) (s : HashSystem) : result (HashSystem * list Z) :=
  match op with
  | ONew i => t ← new_PRLHashTable types key_count null_equal initial_capacity; Ok (put i t (memory s) s, [])
  | OAppend i vecs size idxs =>
      t ← table_at i s; h ← key_hashes vecs size; '(t, mem) ← Append h vecs size idxs t (memory s); Ok (put i t mem s, [])
  | OAppendUnbuilt i vecs size idxs =>
      t ← table_at i s; h ← key_hashes vecs size; '(t, mem) ← AppendUnbuilt h vecs size idxs t (memory s); Ok (put i t mem s, [])
  | OMerge i j =>
      t ← table_at i s; other ← table_at j s; '(t, _) ← Merge t other; Ok (mkSystem (<[i := t]> (delete j (tables s))) (memory s), [])
  | OBuild i => t ← table_at i s; t ← BuildDirectory t; Ok (put i t (memory s) s, [])
  | OGroups i vecs size =>
      t ← table_at i s; h ← key_hashes vecs size;
      '(t, mem, _, created) ← FindOrCreateGroups h vecs size (replicate size None) t (memory s); Ok (put i t mem s, created)
  end.

(** ** What the tables stand for *)

(** The rows of each table in order, and whether its directory is stale. *)
Abbreviation Model := (gmap nat (list Row * bool)).
Definition model_after (op : HashOp) (created : list Z) (m : Model) : Model :=
  let get i := default ([], false) (m !! i) in
  match op with
  | ONew i => <[i := ([], false)]> m
  | OAppend i vecs size idxs => <[i := ((get i).1 ++ (rows_of size vecs <$> idxs), (get i).2)]> m
  | OAppendUnbuilt i vecs size idxs => <[i := ((get i).1 ++ (rows_of size vecs <$> idxs), if bool_decide (idxs = []) then (get i).2 else true)]> m
  | OMerge i j => <[i := ((get i).1 ++ (get j).1, if bool_decide ((get j).1 = []) then (get i).2 else true)]> (delete j m)
  | OBuild i => <[i := ((get i).1, false)]> m
  | OGroups i vecs size => <[i := ((get i).1 ++ (rows_of size vecs <$> created), (get i).2)]> m
  end.
(** A chunk of rows of the table's types. *)
Definition good_chunk (layout : RowLayout) (vecs : list Vector) (size : nat) : Prop :=
  (0 < size)%nat ∧ Z.of_nat size ≤ STANDARD_VECTOR_SIZE ∧ ∃ cols, chunk_Orrify (Z.of_nat size) vecs = Ok cols ∧ chunk_reads types cols size (chunk_row cols) ∧
    ∀ idx, 0 ≤ idx < Z.of_nat size → row_in_types layout (chunk_row cols idx) ∧ row_size layout (chunk_row cols idx) < 2 ^ 32.
Definition selection (size : nat) (idxs : list Z) : Prop := Forall (λ idx, 0 ≤ idx < Z.of_nat size) idxs ∧ NoDup idxs.
Definition op_ok (layout : RowLayout) (m : Model) (op : HashOp) : Prop :=
  match op with
  | ONew i => m !! i = None
  | OAppend i vecs size idxs => ∃ rows, m !! i = Some (rows, false) ∧ good_chunk layout vecs size ∧ selection size idxs ∧ Z.of_nat (length rows + length idxs) < 2 ^ 60
  | OAppendUnbuilt i vecs size idxs => ∃ rows stale, m !! i = Some (rows, stale) ∧ good_chunk layout vecs size ∧ selection size idxs ∧ Z.of_nat (length rows + length idxs) < 2 ^ 60
  | OMerge i j => i ≠ j ∧ ∃ rows stale rows' stale', m !! i = Some (rows, stale) ∧ m !! j = Some (rows', stale') ∧ Z.of_nat (length rows + length rows') < 2 ^ 60
  | OBuild i => ∃ rows stale, m !! i = Some (rows, stale) ∧ Z.of_nat (length rows) < 2 ^ 60
  | OGroups i vecs size => ∃ rows, m !! i = Some (rows, false) ∧ good_chunk layout vecs size ∧ distinct null_equal ktypes rows ∧ Z.of_nat (length rows + size) < 2 ^ 60
  end.
Inductive reachable (layout : RowLayout) : HashSystem → Model → Prop :=
  | reach_start : reachable layout (mkSystem ∅ []) ∅
  | reach_step s m op s' created : reachable layout s m → op_ok layout m op → exec op s = Ok (s', created) → reachable layout s' (model_after op created m).
End system.

(** ** Every call keeps the tables right *)

Section system_ok.
Context (hash32 hash64 : Z → Z) `{!StdHash hash32 hash64}.
Context (types : list PhysicalType) (key_count : nat) (null_equal : bool) (initial_capacity : Z) (layout : RowLayout).
Context (Htypes : Forall (λ ty, scalar ty = true) types) (Hcols : Z.of_nat (length types) < 2 ^ 24) (Hkeys : (0 < key_count ≤ length types)%nat) (Hcap : initial_capacity ≤ 2 ^ 60).
Context (Hlayout : Layout_Initialize types = Ok layout).
Abbreviation ktypes := (take key_count types).
Abbreviation rhash := (row_hash hash32 hash64 ktypes).

(** A table of this system. *)
Definition of_system (t : PRLHashTable) : Prop := types_ t = types ∧ key_count_ t = key_count ∧ null_equal_keys_ t = null_equal ∧ layout_ t = layout.
Definition good_table (mem : Blocks) (t : PRLHashTable) (x : list Row * bool) : Prop := table_ok rhash t mem x.1 ∧ directory_stale_ t = x.2 ∧ of_system t.
Record system_ok (s : HashSystem) (m : gmap nat (list Row * bool)) : Prop := {
  sy_tables : map_Forall2 (λ _, good_table (memory s)) (tables s) m;
  sy_apart : ∀ i j t t', i ≠ j → tables s !! i = Some t → tables s !! j = Some t' → ∀ b, b ∈ blocks_ t → b ∉ blocks_ t' }.

Lemma system_table s m i x : system_ok s m → m !! i = Some x → ∃ t, tables s !! i = Some t ∧ good_table (memory s) t x.
Proof. intros [Hf _] Hx. specialize (Hf i). rewrite Hx in Hf. inversion Hf as [t ? Hg Et|]; subst. by exists t. Qed.
Lemma system_model s m i t : system_ok s m → tables s !! i = Some t → ∃ x, m !! i = Some x ∧ good_table (memory s) t x.
Proof. intros [Hf _] Ht. specialize (Hf i). rewrite Ht in Hf. inversion Hf as [? x Hg|]; subst. by exists x. Qed.
(** A table changes memory of its own. *)
Lemma system_put s m i t x t' mem' x' :
  system_ok s m → tables s !! i = Some t → m !! i = Some x → good_table mem' t' x' → grows t t' (memory s) mem' → system_ok (put i t' mem' s) (<[i := x']> m).
Proof.
  intros Y Ht Hx Hg [Hk Hb]. pose proof Y as [Hf Ha].
  assert (∀ j t1 b, j ≠ i → tables s !! j = Some t1 → b ∈ blocks_ t1 → (b ∉ blocks_ t') ∧ (b ∉ blocks_ t)) as Hout.
  { intros j t1 b Hne Hj Hin. assert (b ∉ blocks_ t) as Hni by (by eapply (Ha j i)). split; [|done]. intros [?|Hge]%Hb; [done|].
    destruct (system_model _ _ _ _ Y Hj) as (x1 & _ & T1 & _). pose proof (al_blocks _ _ _ _ _ _ (tb_alloc _ _ _ _ T1) b Hin). lia. }
  split; simpl.
  - intros j. destruct (decide (j = i)) as [->|Hne]; [rewrite !lookup_insert_eq; by constructor|]. rewrite !lookup_insert_ne by done. specialize (Hf j).
    destruct (tables s !! j) as [t1|] eqn:Hj; inversion Hf as [? x1 (T1 & Hs1 & Hc1)|]; subst; constructor. split; [|done]. eapply table_keeps; [exact T1|exact Hk|]. intros b Hb1. apply (Hout j t1 b Hne Hj Hb1).
  - intros j k t1 t2 Hne Hj Hk' b Hb1 Hb2. destruct (decide (j = i)) as [->|Hji], (decide (k = i)) as [->|Hki]; try done.
    + rewrite lookup_insert_eq in Hj. injection Hj as <-. rewrite lookup_insert_ne in Hk' by done. by destruct (Hout k t2 b Hki Hk' Hb2).
    + rewrite lookup_insert_eq in Hk'. injection Hk' as <-. rewrite lookup_insert_ne in Hj by done. by destruct (Hout j t1 b Hji Hj Hb1).
    + rewrite lookup_insert_ne in Hj by done. rewrite lookup_insert_ne in Hk' by done. by eapply (Ha j k).
Qed.

(** Rows and hashes of a chunk. *)
Lemma good_chunk_ok t vecs size :
  of_system t → good_chunk types layout vecs size → ∃ cols, chunk_Orrify (Z.of_nat size) vecs = Ok cols ∧ chunk_ok t cols size (rows_of size vecs) ∧
    ∃ h, key_hashes hash32 hash64 types key_count vecs size = Ok h ∧ ∀ idx, 0 ≤ idx < Z.of_nat size → h !! Z.to_nat idx = Some (rhash (rows_of size vecs idx)).
Proof.
  intros (E1 & E2 & E3 & E4) (Hpos & Hstd & cols & Ec & Hr & Hrow). exists cols. split; [done|]. assert (rows_of size vecs = chunk_row cols) as Er by (unfold rows_of; by rewrite Ec).
  rewrite Er. split.
  - split; rewrite ?E1, ?E4; try done; intros idx Hi; by apply Hrow.
  - unfold key_hashes. destruct (Chunk_Hash_ok hash32 hash64 size ktypes (take key_count vecs) (take key_count cols) (λ idx, take key_count (chunk_row cols idx))
      (mkHashVector false (replicate (Z.to_nat (Z.max (Z.of_nat size) STANDARD_VECTOR_SIZE)) 0))) as (hv & -> & Hhv); try done.
    + intros E. apply (f_equal length) in E. rewrite length_take in E. simpl in E. lia.
    + by apply Forall_take.
    + by apply chunk_Orrify_take.
    + by apply chunk_reads_take.
    + simpl. rewrite length_replicate. lia.
    + cbn [mbind result_bind]. destruct (hash_data_ok size hv _ Hhv Hpos Hstd) as (data & -> & Hd). exists data. split; [done|]. intros idx Hi. rewrite (Hd idx Hi). f_equal.
      apply row_hash_take. rewrite length_take. lia.
Qed.
Lemma of_system_keys t : of_system t → key_types t = ktypes.
Proof. intros (E1 & E2 & _ & _). unfold key_types. by rewrite E1, E2. Qed.
Lemma of_system_config t t' : same_setup t t' → of_system t → of_system t'.
Proof. intros [E1 E2 E3 E4 E5] (? & ? & ? & ?). unfold of_system. rewrite E1, E2, E3, E4. done. Qed.

Lemma exec_append s m i vecs size idxs :
  system_ok s m → op_ok types key_count null_equal layout m (OAppend i vecs size idxs) →
  ∃ s', exec hash32 hash64 types key_count null_equal initial_capacity (OAppend i vecs size idxs) s = Ok (s', []) ∧ system_ok s' (model_after (OAppend i vecs size idxs) [] m).
Proof.
  intros Y (rows & Hm & Hch & [HF Hnd] & Hb). destruct (system_table _ _ _ _ Y Hm) as (t & Ht & T & Hs & O). destruct (good_chunk_ok t vecs size O Hch) as (cols & Ec & C & h & Eh & Hh).
  cbn [exec model_after]. unfold table_at. rewrite Ht, Hm. cbn [mbind result_bind]. rewrite Eh. cbn [mbind result_bind].
  destruct (Append_ok rhash size (rows_of size vecs) h cols vecs idxs Hh Ec HF Hnd t (memory s) rows T Hs C Hb) as (t' & mem' & E & T' & Cf & G). rewrite E. cbn [mbind result_bind].
  eexists. split; [done|]. eapply system_put; [exact Y|done|done| |exact G]. split; [done|]. split; [by rewrite (sc_stale _ _ Cf)|by eapply of_system_config].
Qed.
Lemma exec_append_unbuilt s m i vecs size idxs :
  system_ok s m → op_ok types key_count null_equal layout m (OAppendUnbuilt i vecs size idxs) →
  ∃ s', exec hash32 hash64 types key_count null_equal initial_capacity (OAppendUnbuilt i vecs size idxs) s = Ok (s', []) ∧ system_ok s' (model_after (OAppendUnbuilt i vecs size idxs) [] m).
Proof.
  intros Y (rows & stale & Hm & Hch & [HF Hnd] & Hb). destruct (system_table _ _ _ _ Y Hm) as (t & Ht & T & Hs & O). destruct (good_chunk_ok t vecs size O Hch) as (cols & Ec & C & h & Eh & Hh).
  cbn [exec model_after]. unfold table_at. rewrite Ht, Hm. cbn [mbind result_bind]. rewrite Eh. cbn [mbind result_bind].
  destruct (AppendUnbuilt_ok rhash size (rows_of size vecs) h cols vecs idxs Hh Ec HF Hnd t (memory s) rows T C Hb) as (t' & mem' & E & T' & G & Hst & E1 & E2 & E3 & E4 & _). rewrite E. cbn [mbind result_bind].
  eexists. split; [done|]. eapply system_put; [exact Y|done|done| |exact G]. split; [done|]. split; [simpl; simpl in Hs; by rewrite Hst, Hs|]. destruct O as (? & ? & ? & ?). unfold of_system. by rewrite E1, E2, E3, E4.
Qed.
Lemma exec_build s m i :
  system_ok s m → op_ok types key_count null_equal layout m (OBuild i) →
  ∃ s', exec hash32 hash64 types key_count null_equal initial_capacity (OBuild i) s = Ok (s', []) ∧ system_ok s' (model_after (OBuild i) [] m).
Proof.
  intros Y (rows & stale & Hm & Hb). destruct (system_table _ _ _ _ Y Hm) as (t & Ht & T & Hs & O). destruct (table_lengths _ _ _ _ T) as [Hl Hl']. pose proof (tb_count _ _ _ _ T) as Hc. simpl in Hl, Hc.
  cbn [exec model_after]. unfold table_at. rewrite Ht, Hm. cbn [mbind result_bind]. destruct (BuildDirectory_ok t Hl') as (t' & E & Sr & Hs' & D'); [by rewrite Hl|lia|]. rewrite E. cbn [mbind result_bind].
  eexists. split; [done|]. eapply system_put; [exact Y|done|done| |]; [split; [by eapply table_same_rows|]; split; [done|]|].
  - destruct O as (? & ? & ? & ?). unfold of_system. by rewrite Sr.
  - split; [by apply keeps_prefix|]. rewrite Sr. by left.
Qed.
Lemma exec_groups s m i vecs size :
  system_ok s m → op_ok types key_count null_equal layout m (OGroups i vecs size) →
  ∃ s' created, exec hash32 hash64 types key_count null_equal initial_capacity (OGroups i vecs size) s = Ok (s', created) ∧ system_ok s' (model_after (OGroups i vecs size) created m).
Proof.
  intros Y (rows & Hm & Hch & Hd & Hb). destruct (system_table _ _ _ _ Y Hm) as (t & Ht & T & Hs & O). destruct (good_chunk_ok t vecs size O Hch) as (cols & Ec & C & h & Eh & Hh).
  pose proof (of_system_keys t O) as Ek. pose proof O as (E1 & E2 & E3 & E4). cbn [exec model_after]. unfold table_at. rewrite Ht, Hm. cbn [mbind result_bind]. rewrite Eh. cbn [mbind result_bind].
  assert (KeyHash (null_equal_keys_ t) (key_types t) rhash) as HK by (rewrite Ek; apply _).
  destruct (FindOrCreateGroups_ok rhash t (memory s) rows cols vecs size (rows_of size vecs) h (replicate size None)) as (t' & mem' & addr & created & E & T' & Cf & G & _); try done.
  - by rewrite length_replicate.
  - by rewrite E3, Ek.
  - rewrite E. cbn [mbind result_bind]. eexists _, _. split; [done|]. eapply system_put; [exact Y|done|done| |exact G]. split; [done|]. split; [by rewrite (sc_stale _ _ Cf)|by eapply of_system_config].
Qed.
Lemma exec_new s m i :
  system_ok s m → op_ok types key_count null_equal layout m (ONew i) →
  ∃ s', exec hash32 hash64 types key_count null_equal initial_capacity (ONew i) s = Ok (s', []) ∧ system_ok s' (model_after (ONew i) [] m).
Proof.
  intros Y Hm. cbn [op_ok] in Hm. destruct (new_table_ok rhash types key_count null_equal initial_capacity Htypes Hcols Hkeys Hcap) as (t & E & T & Hs & Hbl & E1 & E2 & E3 & E4).
  cbn [exec model_after]. rewrite E. cbn [mbind result_bind]. eexists. split; [done|]. destruct Y as [Hf Ha]. rewrite Hlayout in E4. injection E4 as E4.
  split; simpl.
  - apply map_Forall2_insert_2; [|done]. split; [apply T|]. split; [done|]. unfold of_system. by rewrite E4.
  - intros j k t1 t2 Hne Hj Hk b Hb1 Hb2. destruct (decide (j = i)) as [->|Hji], (decide (k = i)) as [->|Hki]; try done.
    + rewrite lookup_insert_eq in Hj. injection Hj as <-. rewrite Hbl in Hb1. set_solver.
    + rewrite lookup_insert_eq in Hk. injection Hk as <-. rewrite Hbl in Hb2. set_solver.
    + rewrite lookup_insert_ne in Hj by done. rewrite lookup_insert_ne in Hk by done. by eapply (Ha j k).
Qed.
Lemma exec_merge s m i j :
  system_ok s m → op_ok types key_count null_equal layout m (OMerge i j) →
  ∃ s', exec hash32 hash64 types key_count null_equal initial_capacity (OMerge i j) s = Ok (s', []) ∧ system_ok s' (model_after (OMerge i j) [] m).
Proof.
  intros Y (Hij & rows & stale & rows' & stale' & Hm & Hm' & Hb). destruct (system_table _ _ _ _ Y Hm) as (t & Ht & T & Hs & O). destruct (system_table _ _ _ _ Y Hm') as (t1 & Ht1 & T1 & Hs1 & O1).
  pose proof O as (E1 & E2 & E3 & E4). pose proof O1 as (F1 & F2 & F3 & F4). pose proof Y as [Hf Ha].
  cbn [exec model_after]. unfold table_at. rewrite Ht, Hm, Ht1, Hm'. cbn [mbind result_bind].
  destruct (Merge_ok rhash t t1 (memory s) rows rows' T T1) as (t' & other & E & T' & Hbl & _ & _ & Hst & Hcf & _); try congruence; [by eapply (Ha i j)|]. rewrite E. cbn [mbind result_bind].
  eexists. split; [done|]. split; simpl.
  - apply map_Forall2_insert_2; [|by apply map_Forall2_delete]. split; [done|]. split; [simpl; simpl in Hs; by rewrite Hst, Hs|]. unfold of_system. destruct Hcf as (-> & -> & -> & ->). done.
  - assert (∀ k tk b, k ≠ i → delete j (tables s) !! k = Some tk → b ∈ blocks_ tk → b ∉ blocks_ t') as Hout.
    { intros k tk b Hk Hlk Hin Hb'. apply lookup_delete_Some in Hlk as [Hkj Hlk]. apply Hbl in Hb' as [Hb'|Hb']; [by eapply (Ha k i)|by eapply (Ha k j)]. }
    intros k l tk tl Hne Hk Hl b Hb1 Hb2. destruct (decide (k = i)) as [->|Hki], (decide (l = i)) as [->|Hli]; try done.
    + rewrite lookup_insert_eq in Hk. injection Hk as <-. rewrite lookup_insert_ne in Hl by done. by eapply (Hout l).
    + rewrite lookup_insert_eq in Hl. injection Hl as <-. rewrite lookup_insert_ne in Hk by done. by eapply (Hout k).
    + rewrite lookup_insert_ne in Hk by done. rewrite lookup_insert_ne in Hl by done. apply lookup_delete_Some in Hk as [_ Hk]. apply lookup_delete_Some in Hl as [_ Hl]. by eapply (Ha k l).
Qed.
(** Every allowed call returns, and the tables hold what the model says. *)
Lemma call_ok s m op :
  system_ok s m → op_ok types key_count null_equal layout m op →
  ∃ s' created, exec hash32 hash64 types key_count null_equal initial_capacity op s = Ok (s', created) ∧ system_ok s' (model_after op created m).
Proof.
  intros Y Hop. destruct op; [destruct (exec_new _ _ _ Y Hop) as (s' & ?)|destruct (exec_append _ _ _ _ _ _ Y Hop) as (s' & ?)|destruct (exec_append_unbuilt _ _ _ _ _ _ Y Hop) as (s' & ?)|
    destruct (exec_merge _ _ _ _ Y Hop) as (s' & ?)|destruct (exec_build _ _ _ Y Hop) as (s' & ?)|by apply exec_groups]; by exists s', [].
Qed.
Lemma reachable_ok s m : reachable hash32 hash64 types key_count null_equal initial_capacity layout s m → system_ok s m.
Proof.
  induction 1 as [|s m op s' created _ IH Hop E]; [by split; [apply map_Forall2_empty|]|]. destruct (call_ok s m op IH Hop) as (s1 & c1 & E1 & Y1). rewrite E in E1. by injection E1 as <- <-.
Qed.
End system_ok.
