(* ===== verification/HashTheorems.v ===== *)
(** * Theorems about hash tables *)

From Stdlib Require Import Floats.SpecFloat.
From S2P Require Import Prelude TablePage TableHeap BTreePage BPlusTree GenericKey StringHeap ValidityMask SortKey VectorOps SortKeyOrder RowFormat RowScatter PRLHashTable HashInvariant HashAppend HashGroups VectorHash HashSystem.

(** ** Scanning *)

(** The columns of some rows, read as a chunk, are the rows. *)
Lemma scan_columns_ok junk layout ps rows copy_strings mem n : ∀ k c,
  layout_ok layout → Forall2 (λ p row, holds_row layout p row mem ∧ row_in_types layout row) ps rows → (c + k = length (rl_types layout))%nat →
  (copy_strings = true → ∀ c, short_strings c rows) →
  ∃ vs cols, scan_columns junk layout ps c k copy_strings mem = Ok vs ∧ length vs = k ∧ chunk_Orrify n vs = Ok cols ∧
    ∀ j row, rows !! j = Some row → chunk_row cols (Z.of_nat j) = drop c row.
Proof.
  induction k as [|k IH]; intros c L HF Hc Hs.
  { exists [], []. split; [done|]. split; [done|]. split; [done|]. intros j row Hj. rewrite drop_ge; [done|]. apply Forall2_length in HF as Hl.
    destruct (lookup_lt_is_Some_2 ps j) as [p Hp]; [rewrite Hl; by eapply lookup_lt_Some|]. destruct (Forall2_lookup_lr _ _ _ j p row HF Hp Hj) as [[-> _] _]. lia. }
  destruct (IH (S c) L HF ltac:(lia) Hs) as (vs & cols & E & Hlen & Ec & Hrow).
  destruct (lookup_lt_is_Some_2 (rl_types layout) c) as [ty Hty]; [lia|]. destruct (lookup_lt_is_Some_2 (rl_offsets layout) c) as [off Ho]; [rewrite (lo_length _ L); lia|].
  destruct (FullScanColumn_ok layout L junk ps rows c ty off copy_strings mem HF Hty Ho ltac:(auto)) as (data & mask & Ef & Hl & Hd).
  exists (FLAT_VECTOR data mask :: vs), (mkVectorData None data mask :: cols). cbn [scan_columns]. rewrite Ef. cbn [mbind result_bind]. rewrite E. split; [done|]. split; [simpl; lia|].
  split; [cbn [chunk_Orrify Orrify mbind result_bind]; by rewrite Ec|]. intros j row Hj. apply Forall2_length in HF as Hlp.
  destruct (lookup_lt_is_Some_2 ps j) as [p Hp]; [rewrite Hlp; by eapply lookup_lt_Some|]. destruct (Forall2_lookup_lr _ _ _ j p row HF Hp Hj) as [[Hlr _] _].
  destruct (lookup_lt_is_Some_2 row c) as [v Hv]; [lia|]. rewrite (drop_S _ _ _ Hv). destruct (Hd j row v Hj Hv) as [Hm Hx]. unfold chunk_row in *. rewrite fmap_cons. f_equal; [|by apply Hrow].
  unfold col_valid, col_cell, data_at. simpl. rewrite Hm, Nat2Z.id. destruct v as [x|]; [|done]. simpl. by rewrite (Hx x eq_refl).
Qed.
Lemma Forall2_window {A B} (P : A → B → Prop) l k n off : Forall2 P l k → Forall2 P (take n (drop off l)) (take n (drop off k)).
Proof. intros HF. by apply Forall2_take, Forall2_drop. Qed.

Section theorems.
Context (hash32 hash64 : Z → Z) `{!StdHash hash32 hash64}.
Context (types : list PhysicalType) (key_count : nat) (null_equal : bool) (initial_capacity : Z) (layout : RowLayout).
Context (Htypes : Forall (λ ty, scalar ty = true) types) (Hcols : Z.of_nat (length types) < 2 ^ 24) (Hkeys : (0 < key_count ≤ length types)%nat) (Hcap : initial_capacity ≤ 2 ^ 60).
Context (Hlayout : Layout_Initialize types = Ok layout).
Abbreviation ktypes := (take key_count types).
Abbreviation reach := (reachable hash32 hash64 types key_count null_equal initial_capacity layout).
Abbreviation run := (exec hash32 hash64 types key_count null_equal initial_capacity).
Abbreviation hashes := (key_hashes hash32 hash64 types key_count).

(** C13: The system of tables behaves as lists of rows: every call that the callers' contract allows returns and
    leaves the tables with the rows the model has, and [Scan] reads the rows of a table back in the order they
    came, a window of a vector's size at a time; copied strings must fit a heap chunk. *)
Theorem hash_tables_refine s m :
  reach s m →
  (∀ op, op_ok types key_count null_equal layout m op → ∃ s' created, run op s = Ok (s', created) ∧ reach s' (model_after op created m)) ∧
  (∀ i rows stale junk offset copy_strings, m !! i = Some (rows, stale) → 0 ≤ offset → (copy_strings = true → ∀ c, short_strings c rows) →
    ∃ t vs, tables s !! i = Some t ∧ count_ t = Z.of_nat (length rows) ∧ directory_stale_ t = stale ∧
      Scan junk offset (length types) copy_strings t (memory s) = Ok (vs, Z.max 0 (Z.min STANDARD_VECTOR_SIZE (count_ t - offset))) ∧
      ∀ j row, Z.of_nat j < STANDARD_VECTOR_SIZE → rows !! (Z.to_nat offset + j)%nat = Some row → rows_of (Z.to_nat (Z.min STANDARD_VECTOR_SIZE (count_ t - offset))) vs (Z.of_nat j) = row).
Proof.
  intros R. pose proof (reachable_ok hash32 hash64 types key_count null_equal initial_capacity layout Htypes Hcols Hkeys Hcap Hlayout s m R) as Y. split.
  - intros op Hop. destruct (call_ok hash32 hash64 types key_count null_equal initial_capacity layout Htypes Hcols Hkeys Hcap Hlayout s m op Y Hop) as (s' & created & E & _).
    exists s', created. split; [done|]. by eapply reach_step.
  - intros i rows stale junk offset copy_strings Hm Hoff Hs. destruct (system_table _ _ _ _ _ _ _ _ _ _ Y Hm) as (t & Ht & T & Hst & (E1 & _ & _ & E4)). simpl in T, Hst.
    pose proof (tb_count _ _ _ _ T) as Hc. destruct (decide (count_ t ≤ offset)) as [Hz|Hz].
    { exists t, []. split; [done|]. split; [done|]. split; [done|]. split; [unfold Scan; rewrite bool_decide_true by done; f_equal; f_equal; lia|]. intros j row _ Hj. apply lookup_lt_Some in Hj. lia. }
    set (n := Z.min STANDARD_VECTOR_SIZE (count_ t - offset)).
    destruct (scan_columns_ok junk (layout_ t) (take (Z.to_nat n) (drop (Z.to_nat offset) (row_addrs_ t))) (take (Z.to_nat n) (drop (Z.to_nat offset) rows)) copy_strings (memory s)
      (Z.of_nat (Z.to_nat n)) (length types) 0) as (vs & cols & E & Hlen & Ec & Hrow).
    + apply T.
    + apply Forall2_window. apply T.
    + rewrite (sh_types _ (tb_shape _ _ _ _ T)), E1. done.
    + intros Hcp c row x Hin. apply (Hs Hcp c). apply (elem_of_take _ _ _) in Hin as (k & Hk & _). rewrite lookup_drop in Hk. by eapply list_elem_of_lookup_2.
    + exists t, vs. split; [done|]. split; [done|]. split; [done|].
      split; [unfold Scan; rewrite bool_decide_false by done; fold n; rewrite E; cbn [mbind result_bind]; f_equal; f_equal; unfold n, STANDARD_VECTOR_SIZE in *; lia|].
      intros j row Hj Hr. unfold rows_of. fold n. rewrite Ec. rewrite (Hrow j row); [done|]. pose proof (lookup_lt_Some _ _ _ Hr). rewrite lookup_take_lt by (unfold n; lia). by rewrite lookup_drop.
Qed.

(** A chunk of keys. *)
Definition good_keys (keys : list Vector) (size : nat) : Prop :=
  (0 < size)%nat ∧ Z.of_nat size ≤ STANDARD_VECTOR_SIZE ∧ ∃ cols, chunk_Orrify (Z.of_nat size) keys = Ok cols ∧ chunk_reads ktypes cols size (chunk_row cols).
Lemma good_keys_ok keys size : good_keys keys size → ∃ cols, chunk_Orrify (Z.of_nat size) keys = Ok cols ∧ chunk_reads ktypes cols size (rows_of size keys) ∧
  ∃ h, hashes keys size = Ok h ∧ ∀ idx, 0 ≤ idx < Z.of_nat size → h !! Z.to_nat idx = Some (row_hash hash32 hash64 ktypes (rows_of size keys idx)).
Proof.
  intros (Hpos & Hstd & cols & Ec & Hr). assert (rows_of size keys = chunk_row cols) as Er by (unfold rows_of; by rewrite Ec). rewrite Er. exists cols. split; [done|]. split; [done|].
  assert (length ktypes = key_count) as Hlk by (rewrite length_take; lia).
  unfold key_hashes. rewrite (take_ge keys) by (rewrite <- (chunk_Orrify_length _ _ _ Ec), (proj1 Hr), Hlk; done).
  destruct (Chunk_Hash_ok hash32 hash64 size ktypes keys cols (chunk_row cols) (mkHashVector false (replicate (Z.to_nat (Z.max (Z.of_nat size) STANDARD_VECTOR_SIZE)) 0))) as (hv & -> & Hhv); try done.
  - intros E. rewrite E in Hlk. simpl in Hlk. lia.
  - by apply Forall_take.
  - simpl. rewrite length_replicate. lia.
  - cbn [mbind result_bind]. by apply hash_data_ok.
Qed.

(** The addresses of the rows with a key. *)
Definition rows_with_key (null_equal : bool) (key_types : list PhysicalType) (addrs : list row_ptr) (rows : list Row) (key : Row) : list row_ptr :=
  (filter (λ pr, key_eq null_equal key_types key pr.2 = true) (zip addrs rows)).*1.

(** C14: Probing a table whose directory is built, with the hashes of the probe keys, returns the matches in the
    order of the probe rows, and for each probe row exactly the rows of the table with an equal key, each
    once. *)
Theorem probe_exact s m i rows keys size idxs :
  reach s m → m !! i = Some (rows, false) → good_keys keys size → Forall (λ idx, 0 ≤ idx < Z.of_nat size) idxs →
  ∃ t h out_addrs out_rows found, tables s !! i = Some t ∧ hashes keys size = Ok h ∧ Probe h keys size idxs t (memory s) = Ok (out_addrs, out_rows) ∧
    length out_addrs = length out_rows ∧ Forall2 (λ idx ps, ps ≡ₚ rows_with_key null_equal ktypes (row_addrs_ t) rows (rows_of size keys idx)) idxs found ∧
    zip out_addrs out_rows = concat (zip_with (λ idx ps, (λ p, (p, idx)) <$> ps) idxs found) ∧
    contents layout (row_addrs_ t) rows (memory s).
Proof.
  intros R Hm Hk HF. pose proof (reachable_ok hash32 hash64 types key_count null_equal initial_capacity layout Htypes Hcols Hkeys Hcap Hlayout s m R) as Y.
  destruct (system_table _ _ _ _ _ _ _ _ _ _ Y Hm) as (t & Ht & T & Hst & O). simpl in T, Hst. destruct (good_keys_ok keys size Hk) as (cols & Ec & C & h & Eh & Hh).
  pose proof (of_system_keys _ _ _ _ t O) as Ek. assert (KeyHash (null_equal_keys_ t) (key_types t) (row_hash hash32 hash64 ktypes)) as HK by (rewrite Ek; apply _). rewrite <- Ek in C.
  destruct (Probe_ok _ t (memory s) rows T Hst cols size (rows_of size keys) C h Hh keys idxs Ec HF) as (oa & orw & found & E & Hl & Hf & Hz).
  destruct O as (_ & _ & E3 & E4). unfold matching in Hf. rewrite E3, Ek in Hf. exists t, h, oa, orw, found. do 6 (split; [done|]). rewrite <- E4. apply T.
Qed.

(** C15: Finding or creating the groups of a chunk returns.  Every row gets the address of a group whose key is
    equal to its own, or of the group it created; the groups created are rows of the chunk, each once, the
    groups there were before are still there, and no two groups have equal keys. *)
Theorem groups_exact s m i rows vecs size addr :
  reach s m → op_ok types key_count null_equal layout m (OGroups i vecs size) → m !! i = Some (rows, false) → (size ≤ length addr)%nat →
  ∃ t h t' mem' addr' created, tables s !! i = Some t ∧ hashes vecs size = Ok h ∧
    FindOrCreateGroups h vecs size addr t (memory s) = Ok (t', mem', addr', created) ∧
    contents layout (row_addrs_ t') (rows ++ (rows_of size vecs <$> created)) mem' ∧ row_addrs_ t `prefix_of` row_addrs_ t' ∧
    NoDup created ∧ Forall (λ idx, 0 ≤ idx < Z.of_nat size) created ∧ distinct null_equal ktypes (rows ++ (rows_of size vecs <$> created)) ∧
    ∀ idx, 0 ≤ idx < Z.of_nat size → ∃ g p row, addr' !! Z.to_nat idx = Some (Some p) ∧ row_addrs_ t' !! g = Some p ∧ (rows ++ (rows_of size vecs <$> created)) !! g = Some row ∧
      (key_eq null_equal ktypes (rows_of size vecs idx) row = true ∨ (idx ∈ created ∧ row = rows_of size vecs idx)).
Proof.
  intros R Hop Hm Hla. pose proof (reachable_ok hash32 hash64 types key_count null_equal initial_capacity layout Htypes Hcols Hkeys Hcap Hlayout s m R) as Y.
  destruct Hop as (rows1 & Hm1 & Hch & Hd & Hb). rewrite Hm in Hm1. injection Hm1 as <-.
  destruct (system_table _ _ _ _ _ _ _ _ _ _ Y Hm) as (t & Ht & T & Hst & O). simpl in T, Hst. destruct (good_chunk_ok hash32 hash64 types key_count null_equal layout Htypes Hkeys t vecs size O Hch) as (cols & Ec & C & h & Eh & Hh).
  pose proof (of_system_keys _ _ _ _ t O) as Ek. pose proof O as (E1 & E2 & E3 & E4). assert (KeyHash (null_equal_keys_ t) (key_types t) (row_hash hash32 hash64 ktypes)) as HK by (rewrite Ek; apply _).
  destruct (FindOrCreateGroups_ok _ t (memory s) rows cols vecs size (rows_of size vecs) h addr T Hst Ec C Hh Hla) as (t' & mem' & addr' & created & E & T' & Cf & _ & Hpx & Hd' & Hnd & HF & Hset).
  { by rewrite E3, Ek. }
  { done. }
  exists t, h, t', mem', addr', created. rewrite <- E4, <- (sc_layout _ _ Cf). split; [done|]. split; [done|]. split; [done|]. split; [apply T'|]. split; [done|]. split; [done|]. split; [done|].
  unfold settled in Hset. rewrite E3, Ek in Hset, Hd'. done.
Qed.

(** Calls that make no groups, one after the other. *)
Fixpoint plain_calls (m : gmap nat (list Row * bool)) (ops : list HashOp) : Prop :=
  match ops with
  | [] => True
  | op :: ops => match op with OGroups _ _ _ => False | _ => True end ∧ op_ok types key_count null_equal layout m op ∧ plain_calls (model_after op [] m) ops
  end.
Lemma plain_calls_reach s m ops : reach s m → plain_calls m ops → ∃ s', reach s' (foldl (λ m op, model_after op [] m) m ops).
Proof.
  revert s m. induction ops as [|op ops IH]; intros s m R Hp; [by exists s|]. destruct Hp as (Hg & Hop & Hp).
  pose proof (reachable_ok hash32 hash64 types key_count null_equal initial_capacity layout Htypes Hcols Hkeys Hcap Hlayout s m R) as Y.
  destruct (call_ok hash32 hash64 types key_count null_equal initial_capacity layout Htypes Hcols Hkeys Hcap Hlayout s m op Y Hop) as (s' & created & E & _).
  assert (created = []) as ->.
  { destruct op; cbn [exec] in E; try done; repeat (match type of E with (mbind ?f ?r) = _ => destruct r as [?|]; cbn [mbind result_bind] in E; [|done] end);
      repeat (match type of E with context [let '(_, _) := ?p in _] => destruct p end); try (by injection E). }
  apply (IH s'); [|done]. by eapply reach_step.
Qed.
End theorems.

(** ** Rows without NULL *)

Lemma RowIsValid_column n v vd idx ok : Orrify n v = Ok vd → col_valid vd idx = Ok ok → Vector_RowIsValid v idx = Ok ok.
Proof.
  destruct v as [data validity|data validity|sel child]; simpl.
  - by intros [= <-] [= <-].
  - intros [= <-]. unfold col_valid. simpl. destruct (replicate _ 0 !! Z.to_nat idx) as [z|] eqn:E; [|done]. apply lookup_replicate in E as [-> _]. done.
  - destruct child; try done. intros [= <-]. unfold col_valid. simpl. by destruct (sel !! Z.to_nat idx).
Qed.
Definition no_null (row : Row) : bool := forallb is_some row.
Lemma all_valid_row_ok n vecs : ∀ cols types size rowv idx,
  chunk_Orrify n vecs = Ok cols → chunk_reads types cols size rowv → 0 ≤ idx < Z.of_nat size → all_valid_row vecs idx = Ok (no_null (rowv idx)).
Proof.
  induction vecs as [|v vecs IH]; intros cols types size rowv idx Ec [Hl Hr] Hi; cbn [chunk_Orrify] in Ec.
  { injection Ec as <-. destruct types; [|done]. destruct (Hr idx Hi) as [Hlen _]. by destruct (rowv idx). }
  destruct (Orrify n v) as [vd|] eqn:Ev; cbn [mbind result_bind] in Ec; [|done]. destruct (chunk_Orrify n vecs) as [vds|] eqn:Evs; [|done]. injection Ec as <-.
  destruct types as [|ty types]; [done|]. destruct (chunk_reads_cons _ _ _ _ _ _ (conj Hl Hr)) as [Hhead C']. destruct (Hhead idx Hi) as (w & Ew & (x & Hval & _)).
  cbn [all_valid_row]. rewrite (RowIsValid_column n v vd idx _ Ev Hval). cbn [mbind result_bind]. rewrite Ew. unfold no_null at 1. cbn [forallb]. destruct (is_some w); [|done].
  by rewrite (IH vds types size _ idx eq_refl C' Hi).
Qed.
Lemma non_null_rows_ok vecs (f : Z → bool) n : ∀ i,
  (∀ idx, 0 ≤ idx < i + Z.of_nat n → all_valid_row vecs idx = Ok (f idx)) → 0 ≤ i →
  non_null_rows vecs i n = Ok (filter (λ idx, f idx = true) ((λ j, i + Z.of_nat j) <$> seq 0 n)).
Proof.
  induction n as [|n IH]; intros i Hf Hi; [done|]. cbn [non_null_rows]. rewrite (Hf i) by lia. cbn [mbind result_bind]. rewrite IH by (lia || (intros; apply Hf; lia)). cbn [mbind result_bind].
  cbn [seq]. rewrite fmap_cons, filter_cons, Z.add_0_r, <- seq_shift.
  assert ((λ j, i + Z.of_nat j) <$> map S (seq 0 n) = (λ j, i + 1 + Z.of_nat j) <$> seq 0 n) as ->.
  { change (map S (seq 0 n)) with (S <$> seq 0 n). rewrite <- list_fmap_compose. apply list_fmap_ext. intros k j _. simpl. lia. }
  destruct (f i); by repeat case_decide.
Qed.
(** The rows [NonNullKeyRows] selects, with its fast path and its loop, are the rows of the chunk that have no
    NULL, in order. *)
Theorem NonNullKeyRows_exact types vecs cols size :
  chunk_Orrify (Z.of_nat size) vecs = Ok cols → chunk_reads types cols size (chunk_row cols) →
  NonNullKeyRows vecs size = Ok (filter (λ idx, no_null (rows_of size vecs idx) = true) (Z.of_nat <$> seq 0 size)).
Proof.
  intros Ec C. unfold NonNullKeyRows. rewrite Ec. cbn [mbind result_bind]. assert (rows_of size vecs = chunk_row cols) as Er by (unfold rows_of; by rewrite Ec). rewrite Er.
  destruct (forallb _ cols) eqn:Ef.
  - f_equal. symmetry. assert (∀ l, Forall (λ idx, 0 ≤ idx < Z.of_nat size) l → filter (λ idx, no_null (chunk_row cols idx) = true) l = l) as Hall.
    { induction 1 as [|idx l Hi _ IH]; [done|]. rewrite filter_cons, IH, decide_True; [done|]. unfold no_null. apply forallb_forall. intros v Hv%list_elem_of_In.
      apply list_elem_of_lookup in Hv as [c Hc]. destruct C as [Hl Hr]. destruct (Hr idx Hi) as [Hlen Hread].
      destruct (lookup_lt_is_Some_2 types c) as [ty Hty]; [rewrite <- Hlen; by eapply lookup_lt_Some|]. destruct (lookup_lt_is_Some_2 cols c) as [col Hcol]; [rewrite Hl; by eapply lookup_lt_Some|].
      destruct (Hread c ty col Hty Hcol) as (w & Hw & (x & Hval & _)). rewrite Hc in Hw. injection Hw as <-. unfold col_valid in Hval. destruct (GetIndex (vd_sel col) idx) as [k|]; [|done].
      cbn [mbind result_bind] in Hval. injection Hval as <-. rewrite forallb_forall in Ef. specialize (Ef col ltac:(apply list_elem_of_In; by eapply list_elem_of_lookup_2)).
      apply bool_decide_eq_true in Ef. by rewrite Ef. }
    apply Hall, Forall_forall. intros idx (j & -> & Hj%elem_of_seq)%list_elem_of_fmap. lia.
  - rewrite (non_null_rows_ok vecs (λ idx, no_null (chunk_row cols idx))); [|intros idx Hi; by apply (all_valid_row_ok _ _ cols types size _ idx Ec C)|lia].
    done.
Qed.

(** ** A join of two threads *)

Module Demo.
#[global] Instance zero_hash : StdHash (λ _, 0) (λ _, 0).
Proof. by split. Qed.
Definition types : list PhysicalType := [INTEGER; STRING].
Definition layout : RowLayout := match Layout_Initialize types with Ok l => l | Err _ => mkLayout [] [] 0 0 false end.
(** Rows (7, "ab"), (NULL, "c"), (7, "c"): flat numbers with a mask, and strings behind a dictionary. *)
Definition chunk : list Vector :=
  [FLAT_VECTOR [CNum 7; CNum 0; CNum 7] (Some [5]); DICTIONARY_VECTOR [1; 0; 0] (FLAT_VECTOR [CStr [Byte.x63]; CStr [Byte.x61; Byte.x62]] None)].
Definition keys : list Vector := [FLAT_VECTOR [CNum 7; CNum 8] None].
Definition build : list HashOp := [ONew 0; ONew 1; OAppendUnbuilt 0 chunk 3 [0; 1]; OAppendUnbuilt 1 chunk 3 [2]; OMerge 0 1; OBuild 0].
Definition built : gmap nat (list Row * bool) := foldl (λ m op, model_after op [] m) ∅ build.

Lemma types_ok : Forall (λ ty, scalar ty = true) types.
Proof. by repeat constructor. Qed.
Lemma chunk_good : good_chunk types layout chunk 3.
Proof.
  split; [lia|]. split; [done|]. eexists. split; [reflexivity|]. split.
  - split; [done|]. intros idx Hi. assert (idx = 0 ∨ idx = 1 ∨ idx = 2) as [->|[->| ->]] by lia; (split; [done|]; intros [|[|c]] ty col Hty Hcol; simplify_eq/=; eexists; (split; [reflexivity|]);
      eexists; (split; [reflexivity|]); (split; [reflexivity|]); (split; [done|]); by intros ? [= <-]).
  - intros idx Hi. assert (idx = 0 ∨ idx = 1 ∨ idx = 2) as [->|[->| ->]] by lia; (split; [|vm_compute; done]); intros [|[|c]] ty x Hty Hx; vm_compute in Hty, Hx; simplify_eq; vm_compute; done.
Qed.
Lemma keys_good : good_keys types 1 keys 2.
Proof.
  split; [lia|]. split; [done|]. eexists. split; [reflexivity|]. split; [done|]. intros idx Hi. assert (idx = 0 ∨ idx = 1) as [->| ->] by lia;
    (split; [done|]; intros [|c] ty col Hty Hcol; simplify_eq/=; eexists; (split; [reflexivity|]); eexists; (split; [reflexivity|]); (split; [reflexivity|]); (split; [done|]); by intros ? [= <-]).
Qed.
Lemma selection_ok size idxs : Forall (λ idx, 0 ≤ idx < Z.of_nat size) idxs → NoDup idxs → selection size idxs.
Proof. done. Qed.
Lemma build_allowed : plain_calls types 1 true layout ∅ build.
Proof.
  split; [done|]. split; [done|]. split; [done|]. split; [done|].
  split; [done|]. split; [exists [], false; split; [done|]; split; [apply chunk_good|]; split; [split; [repeat constructor; lia|repeat constructor; set_solver]|done]|].
  split; [done|]. split; [exists [], false; split; [done|]; split; [apply chunk_good|]; split; [split; [repeat constructor; lia|repeat constructor; set_solver]|done]|].
  split; [done|]. split; [split; [done|]; eexists _, _, _, _; split; [vm_compute; reflexivity|]; split; [vm_compute; reflexivity|done]|].
  split; [done|]. split; [eexists _, _; split; [vm_compute; reflexivity|done]|done].
Qed.
Lemma build_reachable : ∃ s, reachable (λ _, 0) (λ _, 0) types 1 true 0 layout s built.
Proof.
  apply (plain_calls_reach (λ _, 0) (λ _, 0) types 1 true 0 layout types_ok eq_refl ltac:(simpl; lia) ltac:(lia) eq_refl (mkSystem ∅ []) ∅ build); [constructor|apply build_allowed].
Qed.
End Demo.

Lemma hash_tables_refine_witness :
  ∃ s, reachable (λ _, 0) (λ _, 0) Demo.types 1 true 0 Demo.layout s Demo.built ∧
    ∃ t vs, tables s !! 0%nat = Some t ∧ count_ t = 3 ∧ Scan Byte.x00 0 2 false t (memory s) = Ok (vs, 3).
Proof.
  destruct Demo.build_reachable as [s R]. exists s. split; [done|].
  destruct (proj2 (hash_tables_refine (λ _, 0) (λ _, 0) Demo.types 1 true 0 Demo.layout Demo.types_ok eq_refl ltac:(simpl; lia) ltac:(lia) eq_refl s Demo.built R) 0%nat _ false Byte.x00 0 false
    ltac:(vm_compute; reflexivity) ltac:(lia) ltac:(done)) as (t & vs & Ht & Hc & _ & E & _).
  exists t, vs. split; [done|]. split; [done|]. rewrite Hc in E. exact E.
Defined.
Lemma probe_exact_witness :
  ∃ s t h out_addrs, tables s !! 0%nat = Some t ∧ Probe h Demo.keys 2 [0; 1] t (memory s) = Ok (out_addrs, [0; 0]).
Proof.
  destruct Demo.build_reachable as [s R].
  destruct (probe_exact (λ _, 0) (λ _, 0) Demo.types 1 true 0 Demo.layout Demo.types_ok eq_refl ltac:(simpl; lia) ltac:(lia) eq_refl s Demo.built 0%nat _ Demo.keys 2 [0; 1] R
    ltac:(vm_compute; reflexivity) Demo.keys_good ltac:(repeat constructor; lia)) as (t & h & oa & orw & found & Ht & _ & E & Hl & HF & Hz & Hc).
  exists s, t, h, oa. split; [done|]. rewrite E. f_equal. f_equal. apply Forall2_length in Hc. destruct (row_addrs_ t) as [|a1 [|a2 [|a3 [|a4 l]]]]; try discriminate Hc.
  inversion HF as [|? f0 ? ? H0 HF1]; subst. inversion HF1 as [|? f1 ? ? H1 HF2]; subst. inversion HF2; subst. vm_compute in H0, H1. apply Permutation_nil_r in H1 as ->.
  apply Permutation_length in H0. destruct f0 as [|x [|y [|z f0]]]; try discriminate H0. simpl in Hz. destruct oa as [|p1 [|p2 [|p3 oa]]], orw as [|r1 [|r2 [|r3 orw]]]; simplify_eq/=. done.
Defined.
Lemma groups_exact_witness :
  ∃ s t h t' mem' addr' created, reachable (λ _, 0) (λ _, 0) Demo.types 1 true 0 Demo.layout s (model_after (ONew 0) [] ∅) ∧ tables s !! 0%nat = Some t ∧
    FindOrCreateGroups h Demo.chunk 3 (replicate 3 None) t (memory s) = Ok (t', mem', addr', created) ∧ NoDup created ∧
    distinct true [INTEGER] ([] ++ (rows_of 3 Demo.chunk <$> created)).
Proof.
  destruct (plain_calls_reach (λ _, 0) (λ _, 0) Demo.types 1 true 0 Demo.layout Demo.types_ok eq_refl ltac:(simpl; lia) ltac:(lia) eq_refl (mkSystem ∅ []) ∅ [ONew 0] ltac:(constructor) ltac:(done))
    as [s R].
  destruct (groups_exact (λ _, 0) (λ _, 0) Demo.types 1 true 0 Demo.layout Demo.types_ok eq_refl ltac:(simpl; lia) ltac:(lia) eq_refl s _ 0%nat [] Demo.chunk 3 (replicate 3 None) R
    ltac:(exists []; split; [reflexivity|]; split; [apply Demo.chunk_good|]; split; [by intros g g' row row' _ Hg|done]) ltac:(reflexivity) ltac:(simpl; lia))
    as (t & h & t' & mem' & addr' & created & Ht & _ & E & _ & _ & Hnd & _ & Hd & _).
  exists s, t, h, t', mem', addr', created. done.
Defined.
Lemma NonNullKeyRows_exact_witness : NonNullKeyRows (take 1 Demo.chunk) 3 = Ok [0; 2].
Proof.
  destruct Demo.chunk_good as (_ & _ & cols & Ec & C & _).
  rewrite (NonNullKeyRows_exact [INTEGER] (take 1 Demo.chunk) (take 1 cols) 3); [vm_compute; reflexivity|by apply chunk_Orrify_take|].
  assert (chunk_row (take 1 cols) = λ idx, take 1 (chunk_row cols idx)) as -> by (by injection Ec as <-). apply (chunk_reads_take 1 _ _ _ _ C).
Defined.
