(* ===== verification/HashJoin.v ===== *)
(** * The hash join operator ([execution/operator/join/physical_hash_join.cpp])

    The tasks of the build pipeline key and hash their chunks and scatter the rows without a NULL key into
    tables of their own, which are spliced together; the directory is built once.  The probe pipeline keys its
    chunks, collects the pairs of matching rows and emits them a batch at a time.  The values of the key
    expressions come with each chunk. *)

From S2P Require Import Prelude TablePage TableHeap BTreePage BPlusTree GenericKey StringHeap ValidityMask SortKey VectorOps StreamOperator RowFormat PRLHashTable HashInvariant VectorHash HashSystem.

Inductive JoinType := JT_INVALID | LEFT | RIGHT | INNER | OUTER | SEMI | ANTI.
#[global] Instance JoinType_eq_dec : EqDecision JoinType.
Proof. solve_decision. Defined.

(** [build_types_] is the schema of the build child; [live_build_columns_] is sorted. *)
Record PhysicalHashJoin := mkJoin {
  key_types_of : list PhysicalType;
  build_types_ : list PhysicalType;
  join_type_ : JoinType;
  null_aware_ : bool;
  live_build_columns_ : list nat }.
Definition IsLeftJoin (op : PhysicalHashJoin) : bool := bool_decide (join_type_ op = LEFT).
Definition IsSemiOrAnti (op : PhysicalHashJoin) : bool := bool_decide (join_type_ op = SEMI) || bool_decide (join_type_ op = ANTI).

(** ** State *)

(** The tables are named; the name of a task's table is its own. *)
Record LocalSink := mkLocalSink { ls_ht : nat; ls_has_null_key : bool }.
Record GlobalSink := mkGlobalSink { gs_ht : option nat; build_has_null_key_ : bool }.
Record JoinBuild := mkBuild { jb_system : HashSystem; jb_global : GlobalSink; jb_locals : gmap nat LocalSink }.
Definition no_build : JoinBuild := mkBuild (mkSystem ∅ []) (mkGlobalSink None false) ∅.
(** The pairs of the current probe chunk, and how many were emitted. *)
Record LocalProbe := mkProbeState { have_matches_ : bool; match_addrs_ : list (option row_ptr); match_rows_ : list Z; cursor_ : nat }.
Definition no_matches : LocalProbe := mkProbeState false [] [] 0.

Section join.
Context (hash32 hash64 : Z → Z) (junk : byte) (junk_cell : cell) (op : PhysicalHashJoin).
Definition layout_types : list PhysicalType := key_types_of op ++ ((λ c, default UNKNOWN (build_types_ op !! c)) <$> live_build_columns_ op).
Definition key_count : nat := length (key_types_of op).
Definition MakeJoinTable : result PRLHashTable := new_PRLHashTable layout_types key_count false INITIAL_CAPACITY.

(** ** Build *)

Definition GetLocalSinkState (i : nat) (b : JoinBuild) : result JoinBuild :=
  t ← MakeJoinTable;
  Ok (mkBuild (put i t (memory (jb_system b)) (jb_system b)) (jb_global b) (<[i := mkLocalSink i false]> (jb_locals b))).
Fixpoint live_columns (live : list nat) (input : list Vector) : result (list Vector) :=
  match live with
  | [] => Ok []
  | c :: live => match input !! c with Some v => vs ← live_columns live input; Ok (v :: vs) | None => Err EUndefined end
  end.
(** [MemoryLimitException] (common/exception.h). *)
Definition memory_limit : error := EException OUT_OF_MEMORY "operator exceeded the query memory budget".
(** [keys] are the values of the build keys over the chunk; [reserved] is what the memory budget answered. *)
Definition Join_Sink (reserved : bool) (i : nat) (keys input : list Vector) (size : nat) (b : JoinBuild) : result JoinBuild :=
  match jb_locals b !! i with
  | None => Err EUndefined
  | Some ls =>
      if negb reserved then Err memory_limit else
      live ← live_columns (live_build_columns_ op) input;
      let full := keys ++ live in
      hashes ← key_hashes hash32 hash64 layout_types key_count full size;
      sel ← NonNullKeyRows keys size;
      let has_null := ls_has_null_key ls || bool_decide (length sel < size)%nat in
      t ← table_at (ls_ht ls) (jb_system b);
      '(t, mem) ← AppendUnbuilt hashes full size sel t (memory (jb_system b));
      Ok (mkBuild (put (ls_ht ls) t mem (jb_system b)) (jb_global b) (<[i := mkLocalSink (ls_ht ls) has_null]> (jb_locals b)))
  end.
(** Under the lock of the global state; the local table is gone afterwards. *)
Definition Join_Combine (i : nat) (b : JoinBuild) : result JoinBuild :=
  match jb_locals b !! i with
  | None => Err EUndefined
  | Some ls =>
      let has_null := build_has_null_key_ (jb_global b) || ls_has_null_key ls in
      match gs_ht (jb_global b) with
      | None => Ok (mkBuild (jb_system b) (mkGlobalSink (Some (ls_ht ls)) has_null) (delete i (jb_locals b)))
      | Some g =>
          t ← table_at g (jb_system b);
          other ← table_at (ls_ht ls) (jb_system b);
          '(t, _) ← Merge t other;
          Ok (mkBuild (mkSystem (<[g := t]> (delete (ls_ht ls) (tables (jb_system b)))) (memory (jb_system b))) (mkGlobalSink (Some g) has_null) (delete i (jb_locals b)))
      end
  end.
(** The table is there after [Finalize]. *)
Definition finalize_table (b : JoinBuild) : result (nat * JoinBuild) :=
  match gs_ht (jb_global b) with
  | Some g => Ok (g, b)
  | None =>
      t ← MakeJoinTable;
      Ok (0%nat, mkBuild (put 0 t (memory (jb_system b)) (jb_system b)) (mkGlobalSink (Some 0%nat) (build_has_null_key_ (jb_global b))) (jb_locals b))
  end.
Definition Join_Finalize (b : JoinBuild) : result (SinkFinalizeType * JoinBuild) :=
  '(g, b) ← finalize_table b;
  if bool_decide (join_type_ op = ANTI) && null_aware_ op && build_has_null_key_ (jb_global b) then Ok (NO_OUTPUT_POSSIBLE, b) else
  t ← table_at g (jb_system b);
  if bool_decide (count_ t = 0) then
    Ok (if bool_decide (join_type_ op = INNER) || bool_decide (join_type_ op = SEMI) then NO_OUTPUT_POSSIBLE else READY, b)
  else
    t ← BuildDirectory t;
    Ok (READY, mkBuild (put g t (memory (jb_system b)) (jb_system b)) (jb_global b) (jb_locals b)).

(** ** Probe *)

Definition probe_hashes (keys : list Vector) (size : nat) : result (list Z) := key_hashes hash32 hash64 (key_types_of op) key_count keys size.
(** The pairs of probe row [i], at the front of the list. *)
Fixpoint pairs_of (i : Z) (pairs : list (row_ptr * Z)) : list (option row_ptr * Z) * list (row_ptr * Z) :=
  match pairs with
  | [] => ([], [])
  | (p, r) :: rest => if bool_decide (r = i) then let '(out, rest) := pairs_of i rest in ((Some p, r) :: out, rest) else ([], pairs)
  end.
Fixpoint merge_unmatched (matched : list bool) (i : Z) (pairs : list (row_ptr * Z)) : list (option row_ptr * Z) :=
  match matched with
  | [] => []
  | true :: matched => let '(out, rest) := pairs_of i pairs in out ++ merge_unmatched matched (i + 1) rest
  | false :: matched => (None, i) :: merge_unmatched matched (i + 1) pairs
  end.
Definition CollectMatches (t : PRLHashTable) (keys : list Vector) (size : nat) (left : bool) (mem : Blocks) : result (list (option row_ptr) * list Z) :=
  hashes ← probe_hashes keys size;
  valid_sel ← NonNullKeyRows keys size;
  '(addrs, rows) ← Probe hashes keys size valid_sel t mem;
  if left then
    let out := merge_unmatched (mark_matched rows (replicate size false)) 0 (zip addrs rows) in Ok (out.*1, out.*2)
  else Ok (Some <$> addrs, rows).

(** [Vector(Value::Null(type))]. *)
Definition null_vector : result Vector := mask ← with_mask (SetInvalid 0) None; Ok (CONSTANT_VECTOR junk_cell mask).
(** The build columns from column [c] on: the [k]-th live one is gathered, the dead ones are NULL. *)
Fixpoint emit_build (layout : RowLayout) (rows : list (option row_ptr)) (live : list nat) (k c ncols : nat) (mem : Blocks) : result (list Vector) :=
  match ncols with
  | O => Ok []
  | S ncols =>
      match live with
      | l :: live' =>
          if bool_decide (l = c) then
            '(data, mask) ← Gather junk layout rows None None (length rows) (key_count + k) false (replicate (Z.to_nat STANDARD_VECTOR_SIZE) junk_cell, None) mem;
            vs ← emit_build layout rows live' (S k) (S c) ncols mem; Ok (FLAT_VECTOR data mask :: vs)
          else v ← null_vector; vs ← emit_build layout rows live k (S c) ncols mem; Ok (v :: vs)
      | [] => v ← null_vector; vs ← emit_build layout rows live k (S c) ncols mem; Ok (v :: vs)
      end
  end.
(** [DataChunk::Slice]. *)
Fixpoint chunk_Slice (input : list Vector) (sel : list Z) (count : nat) : result (list Vector) :=
  match input with
  | [] => Ok []
  | v :: input => v ← Vector_Slice sel count v; vs ← chunk_Slice input sel count; Ok (v :: vs)
  end.
(** [n] pairs from the cursor on; the left input's columns come first. *)
Definition EmitBatch (t : PRLHashTable) (input : list Vector) (addrs : list (option row_ptr)) (rows : list Z) (offset n : nat) (mem : Blocks) : result (list Vector) :=
  build ← emit_build (layout_ t) (take n (drop offset addrs)) (live_build_columns_ op) 0 0 (length (build_types_ op)) mem;
  probe ← chunk_Slice input (take n (drop offset rows)) n;
  Ok (if IsLeftJoin op then probe ++ build else build ++ probe).

(** The rows SEMI and ANTI let through. *)
Fixpoint emit_rows (anti drop_null_probe : bool) (i : Z) (matched null_key : list bool) : list Z :=
  match matched, null_key with
  | m :: matched, nk :: null_key =>
      let emit := if anti then negb m && (negb drop_null_probe || negb nk) else m in
      (if emit then [i] else []) ++ emit_rows anti drop_null_probe (i + 1) matched null_key
  | _, _ => []
  end.
Definition Execute_semi (t : PRLHashTable) (keys input : list Vector) (size : nat) (mem : Blocks) : result (list Vector * nat) :=
  hashes ← probe_hashes keys size;
  valid_sel ← NonNullKeyRows keys size;
  matched ← (if bool_decide (0 < count_ t) then '(_, rows) ← Probe hashes keys size valid_sel t mem; Ok (mark_matched rows (replicate size false)) else Ok (replicate size false));
  let null_key := fold_left (λ m i, <[Z.to_nat i := false]> m) valid_sel (replicate size true) in
  let drop_null_probe := null_aware_ op && bool_decide (0 < count_ t) in
  let out_sel := emit_rows (bool_decide (join_type_ op = ANTI)) drop_null_probe 0 matched null_key in
  vs ← chunk_Slice input out_sel (length out_sel);
  Ok (vs, length out_sel).
(** [Execute]: the output chunk with its cardinality, what the operator asks for, and its state. *)
Definition Join_Execute (b : JoinBuild) (keys input : list Vector) (size : nat) (ls : LocalProbe) : result (list Vector * nat * OperatorResultType * LocalProbe) :=
  match gs_ht (jb_global b) with
  | None => Err EUndefined
  | Some g =>
      t ← table_at g (jb_system b);
      let mem := memory (jb_system b) in
      if IsSemiOrAnti op then '(vs, n) ← Execute_semi t keys input size mem; Ok (vs, n, NEED_MORE_INPUT, ls) else
      ls ← (if have_matches_ ls then Ok ls else '(addrs, rows) ← CollectMatches t keys size (IsLeftJoin op) mem; Ok (mkProbeState true addrs rows 0));
      let total := length (match_rows_ ls) in
      let n := Nat.min (Z.to_nat STANDARD_VECTOR_SIZE) (total - cursor_ ls) in
      vs ← (if bool_decide (0 < n)%nat then EmitBatch t input (match_addrs_ ls) (match_rows_ ls) (cursor_ ls) n mem else Ok []);
      let cursor := (cursor_ ls + n)%nat in
      if bool_decide (total ≤ cursor)%nat then Ok (vs, n, NEED_MORE_INPUT, mkProbeState false (match_addrs_ ls) (match_rows_ ls) cursor)
      else Ok (vs, n, HAVE_MORE_OUTPUT, mkProbeState true (match_addrs_ ls) (match_rows_ ls) cursor)
  end.
End join.
