(* ===== verification/JoinProbe.v ===== *)
(** * The pairs a probe chunk joins *)

From S2P Require Import Prelude TablePage TableHeap BTreePage BPlusTree GenericKey StringHeap ValidityMask SortKey VectorOps SortKeyOrder StreamOperator RowFormat RowScatter PRLHashTable HashInvariant HashAppend HashGroups VectorHash HashSystem HashTheorems HashJoin.

(** ** Matches per probe row *)

(** The pairs of some probe rows, as a function of the row. *)
Definition pairs_for {A} (F : Z → list A) (idxs : list Z) : list (A * Z) := concat ((λ idx, (λ p, (p, idx)) <$> F idx) <$> idxs).
Lemma found_function {A} (P : Z → list A → Prop) idxs (found : list (list A)) :
  NoDup idxs → Forall2 P idxs found →
  ∃ F, (∀ idx, idx ∈ idxs → P idx (F idx)) ∧ (∀ idx, idx ∉ idxs → F idx = []) ∧ concat (zip_with (λ idx ps, (λ p, (p, idx)) <$> ps) idxs found) = pairs_for F idxs.
Proof.
  intros Hnd HF. induction HF as [|idx ps idxs found HP HF IH]; [exists (λ _, []); split; [set_solver|]; done|]. apply NoDup_cons in Hnd as [Hni Hnd].
  destruct (IH Hnd) as (F & H1 & H2 & H3). exists (λ i, if decide (i = idx) then ps else F i). split; [|split].
  - intros i [->|Hi]%elem_of_cons; [by rewrite decide_True|]. rewrite decide_False by (by intros ->). by apply H1.
  - intros i Hi. rewrite decide_False by set_solver. apply H2. set_solver.
  - unfold pairs_for in *. cbn [zip_with concat fmap list_fmap]. rewrite decide_True by done. f_equal. rewrite H3. f_equal. apply list_fmap_ext. intros k i Hi.
    rewrite decide_False; [done|]. intros ->. apply Hni. by eapply list_elem_of_lookup_2.
Qed.
(** Rows without pairs do not matter. *)
Lemma pairs_for_filter {A} (F : Z → list A) (P : Z → Prop) `{!∀ x, Decision (P x)} idxs :
  (∀ idx, idx ∈ idxs → ¬ P idx → F idx = []) → pairs_for F (filter P idxs) = pairs_for F idxs.
Proof.
  unfold pairs_for. induction idxs as [|idx idxs IH]; intros HF; [done|]. rewrite filter_cons. case_decide as Hp; cbn [fmap list_fmap concat]; rewrite IH by (intros; apply HF; set_solver); [done|].
  by rewrite (HF idx) by set_solver.
Qed.
Lemma pairs_for_rows {A} (F : Z → list A) idxs r : r ∈ (pairs_for F idxs).*2 ↔ r ∈ idxs ∧ F r ≠ [].
Proof.
  unfold pairs_for. induction idxs as [|idx idxs IH]; cbn [fmap list_fmap concat]; [set_solver|]. rewrite fmap_app, elem_of_app, IH, elem_of_cons. rewrite <- list_fmap_compose.
  assert (r ∈ (snd ∘ λ p : A, (p, idx)) <$> F idx ↔ r = idx ∧ F idx ≠ []) as ->.
  { rewrite list_elem_of_fmap. split; [intros (x & -> & Hx); split; [done|]; intros E; rewrite E in Hx; set_solver|]. intros [-> Hne]. destruct (F idx) as [|x l]; [done|]. exists x. set_solver. }
  split; [intros [[-> ?]|?]; tauto|]. intros [[->|?] ?]; tauto.
Qed.
Lemma elem_of_pairs_for {A} (F : Z → list A) idxs a i : (a, i) ∈ pairs_for F idxs ↔ i ∈ idxs ∧ a ∈ F i.
Proof.
  unfold pairs_for. induction idxs as [|idx idxs IH]; cbn [fmap list_fmap concat]; [set_solver|]. rewrite elem_of_app, IH, elem_of_cons, list_elem_of_fmap.
  split; [intros [(x & [= -> ->] & ?)|[? ?]]; tauto|]. intros [[->|?] ?]; [left; by exists a|tauto].
Qed.
Lemma pairs_for_app {A} (F : Z → list A) l k : pairs_for F (l ++ k) = pairs_for F l ++ pairs_for F k.
Proof. unfold pairs_for. by rewrite fmap_app, concat_app. Qed.
Lemma pairs_for_fmap {A B} (f : A → B) (F : Z → list A) idxs : (λ x, (f x.1, x.2)) <$> pairs_for F idxs = pairs_for (λ idx, f <$> F idx) idxs.
Proof.
  unfold pairs_for. induction idxs as [|idx idxs IH]; [done|]. cbn [fmap list_fmap concat]. rewrite fmap_app, IH. f_equal. rewrite <- !list_fmap_compose. done.
Qed.

(** ** Flags *)

Lemma mark_lookup rows : ∀ flags i, Forall (λ r, 0 ≤ r) rows → mark_matched rows flags !! i = (λ b, b || bool_decide (Z.of_nat i ∈ rows)) <$> flags !! i.
Proof.
  unfold mark_matched. induction rows as [|r rows IH]; intros flags i HF; cbn [fold_left].
  { destruct (flags !! i) as [b|]; [|done]. cbn [fmap option_fmap option_map]. rewrite bool_decide_false by set_solver. by rewrite orb_false_r. }
  apply Forall_cons in HF as [Hr HF]. rewrite IH by done. destruct (decide (i = Z.to_nat r)) as [->|Hne].
  - destruct (flags !! Z.to_nat r) as [b|] eqn:E.
    + rewrite list_lookup_insert_eq by (by eapply lookup_lt_Some). cbn [fmap option_fmap option_map]. rewrite Z2Nat.id by done. rewrite (bool_decide_true (r ∈ r :: rows)) by set_solver. by rewrite orb_true_r.
    + rewrite list_insert_ge by (by apply lookup_ge_None). by rewrite E.
  - rewrite list_lookup_insert_ne by done. destruct (flags !! i); [|done]. cbn [fmap option_fmap option_map]. f_equal. f_equal. apply bool_decide_ext. rewrite elem_of_cons. split; [tauto|]. intros [?|?]; [lia|done].
Qed.
Lemma mark_length rows size : length (mark_matched rows (replicate size false)) = size.
Proof.
  unfold mark_matched. generalize (replicate size false) as l, (length_replicate size false) as Hlen. induction rows as [|r rows IH]; intros l Hlen; [done|]. cbn. apply IH. by rewrite length_insert.
Qed.
Definition none_if_empty {A} (l : list A) : list (option A) := match l with [] => [None] | _ => Some <$> l end.

Lemma pairs_of_ok (F : Z → list row_ptr) i rest :
  (∀ p r, (p, r) ∈ rest → r ≠ i) → pairs_of i (((λ p, (p, i)) <$> F i) ++ rest) = ((λ p, (Some p, i)) <$> F i, rest).
Proof.
  intros Hrest. induction (F i) as [|p l IH]; cbn.
  - destruct rest as [|[p r] rest]; [done|]. cbn. rewrite bool_decide_false; [done|]. apply (Hrest p). set_solver.
  - rewrite bool_decide_true by done. change ((λ p0, (p0, i)) <$> l) with (list_fmap _ _ (λ p0 : row_ptr, (p0, i)) l) in *. by rewrite IH.
Qed.
Lemma merge_unmatched_ok (F : Z → list row_ptr) n : ∀ i flags,
  0 ≤ i → length flags = n → (∀ j b, flags !! j = Some b → b = negb (bool_decide (F (i + Z.of_nat j) = []))) →
  merge_unmatched flags i (pairs_for F ((λ j, i + Z.of_nat j) <$> seq 0 n)) = pairs_for (λ idx, none_if_empty (F idx)) ((λ j, i + Z.of_nat j) <$> seq 0 n).
Proof.
  induction n as [|n IH]; intros i flags Hi Hl Hf; [by destruct flags|]. destruct flags as [|b flags]; [done|].
  assert ((λ j, i + Z.of_nat j) <$> seq 0 (S n) = i :: ((λ j, (i + 1) + Z.of_nat j) <$> seq 0 n)) as ->.
  { cbn [seq]. rewrite fmap_cons, Z.add_0_r, <- seq_shift. f_equal. change (map S (seq 0 n)) with (S <$> seq 0 n). rewrite <- list_fmap_compose. apply list_fmap_ext. intros k j _. simpl. lia. }
  set (tl := (λ j, (i + 1) + Z.of_nat j) <$> seq 0 n). change (i :: tl) with ([i] ++ tl). rewrite !pairs_for_app.
  assert (merge_unmatched flags (i + 1) (pairs_for F tl) = pairs_for (λ idx, none_if_empty (F idx)) tl) as IHtl.
  { apply IH; [lia|by injection Hl|]. intros j b' Hj. specialize (Hf (S j) b' Hj). replace (i + 1 + Z.of_nat j) with (i + Z.of_nat (S j)) by lia. done. }
  pose proof (Hf 0%nat b eq_refl) as Hb. rewrite Z.add_0_r in Hb. unfold pairs_for at 1. cbn [fmap list_fmap concat]. rewrite app_nil_r.
  assert (pairs_for (λ idx, none_if_empty (F idx)) [i] = (λ p, (p, i)) <$> none_if_empty (F i)) as -> by (unfold pairs_for; cbn; by rewrite app_nil_r).
  destruct (F i) as [|p l] eqn:EF.
  - simpl in Hb. subst b. cbn [merge_unmatched]. cbn. by rewrite IHtl.
  - simpl in Hb. subst b. cbn [merge_unmatched]. rewrite <- EF at 1. rewrite (pairs_of_ok F i).
    + rewrite IHtl, EF. f_equal. cbn [none_if_empty]. by rewrite <- list_fmap_compose.
    + intros q r Hin ->. assert (i ∈ (pairs_for F tl).*2) as [Hi' _]%pairs_for_rows by (apply list_elem_of_fmap; by exists (q, i)).
      apply list_elem_of_fmap in Hi' as (j & Ej & _). lia.
Qed.

(** ** [CollectMatches] *)

(** The build rows a probe row joins with; LEFT keeps a row without a match. *)
Definition join_matches (left : bool) (key_types : list PhysicalType) (rows : list Row) (key : Row) : list (option Row) :=
  let ms := filter (λ row, key_eq false key_types key row = true) rows in if left then none_if_empty ms else Some <$> ms.
Lemma none_if_empty_perm {A} (l k : list A) : l ≡ₚ k → none_if_empty l ≡ₚ none_if_empty k.
Proof. intros Hp. destruct l as [|x l]; [by apply Permutation_nil_l in Hp as ->|]. destruct k as [|y k]; [by apply Permutation_nil_r in Hp|]. cbn [none_if_empty]. by apply fmap_Permutation. Qed.
Lemma none_if_empty_fmap {A B} (f : A → B) l : (λ r : option A, f <$> r) <$> none_if_empty l = none_if_empty (f <$> l).
Proof. destruct l as [|x l]; [done|]. cbn. f_equal. induction l as [|y l IH]; [done|]. cbn. by f_equal. Qed.
Lemma filter_no_match {A} (P : A → Prop) `{!∀ x, Decision (P x)} l : (∀ x, x ∈ l → ¬ P x) → filter P l = [].
Proof. induction l as [|x l IH]; intros Hn; [done|]. rewrite filter_cons_False by (apply Hn; set_solver). apply IH. set_solver. Qed.
Lemma key_eq_null types : ∀ a b, length a = length types → (length types ≤ length b)%nat → no_null a = false → key_eq false types a b = false.
Proof.
  unfold no_null. induction types as [|ty types IH]; intros [|x a] [|y b] Ha Hb Hn; simpl in *; try done; try lia.
  destruct x as [x|]; simpl in *; [|by destruct y]. destruct y; [|done]. simpl. rewrite IH by (done || lia). apply andb_false_r.
Qed.
Definition all_rows (size : nat) : list Z := Z.of_nat <$> seq 0 size.
Lemma all_rows_elem size idx : idx ∈ all_rows size ↔ 0 ≤ idx < Z.of_nat size.
Proof.
  unfold all_rows. rewrite list_elem_of_fmap. split; [intros (j & -> & Hj%elem_of_seq); lia|]. intros Hi. exists (Z.to_nat idx). split; [lia|]. apply elem_of_seq. lia.
Qed.
Lemma all_rows_NoDup size : NoDup (all_rows size).
Proof. apply NoDup_fmap; [apply _|apply NoDup_seq]. Qed.

Section collect.
Context (hash32 hash64 : Z → Z) `{!StdHash hash32 hash64} (op : PhysicalHashJoin) (layout : RowLayout).
Context (Hkeys : Forall (λ ty, scalar ty = true) (key_types_of op)) (Hne : key_types_of op ≠ []).
Abbreviation ktypes := (key_types_of op).
Abbreviation rhash := (row_hash hash32 hash64 ktypes).

(** A join table that can be probed. *)
Record join_table (t : PRLHashTable) (mem : Blocks) (rows : list Row) : Prop := {
  jt_table : table_ok rhash t mem rows;
  jt_fresh : directory_stale_ t = false ∨ rows = [];
  jt_keys : key_types t = ktypes;
  jt_null : null_equal_keys_ t = false;
  jt_layout : layout_ t = layout }.

Lemma key_types_full : take (key_count op) ktypes = ktypes.
Proof. by apply take_ge. Qed.
Lemma keys_ok keys size : good_keys ktypes (key_count op) keys size → ∃ cols h, chunk_Orrify (Z.of_nat size) keys = Ok cols ∧ chunk_reads ktypes cols size (rows_of size keys) ∧
  probe_hashes hash32 hash64 op keys size = Ok h ∧ (∀ idx, 0 ≤ idx < Z.of_nat size → h !! Z.to_nat idx = Some (rhash (rows_of size keys idx))) ∧
  NonNullKeyRows keys size = Ok (filter (λ idx, no_null (rows_of size keys idx) = true) (all_rows size)).
Proof.
  intros Hk. destruct (good_keys_ok hash32 hash64 ktypes (key_count op) Hkeys) with (keys := keys) (size := size) as (cols & Ec & C & h & Eh & Hh); [unfold key_count; destruct ktypes; [done|simpl; lia]|done|].
  rewrite key_types_full in C, Hh. exists cols, h. do 3 (split; [done|]). split; [done|]. unfold all_rows. eapply NonNullKeyRows_exact; [exact Ec|]. unfold rows_of in C. by rewrite Ec in C.
Qed.

Section table.
Context (t : PRLHashTable) (mem : Blocks) (rows : list Row) (J : join_table t mem rows).
Lemma rows_long row : row ∈ rows → (length ktypes ≤ length row)%nat.
Proof.
  intros [g Hg]%list_elem_of_lookup. pose proof (jt_table _ _ _ J) as T. destruct (table_lengths _ _ _ _ T) as [Hl _]. destruct (lookup_lt_is_Some_2 (row_addrs_ t) g) as [p Hp]; [rewrite Hl; by eapply lookup_lt_Some|].
  destruct (contents_lookup _ _ _ _ _ _ _ (tb_contents _ _ _ _ T) Hp Hg) as [[-> _] _]. rewrite <- (jt_keys _ _ _ J), (key_types_length t (tb_shape _ _ _ _ T)), (sh_types _ (tb_shape _ _ _ _ T)). apply T.
Qed.
(** Addresses stand for rows. *)
Lemma rows_of_addresses key : (row_of t rows <$> rows_with_key false ktypes (row_addrs_ t) rows key) = filter (λ row, key_eq false ktypes key row = true) rows.
Proof.
  pose proof (jt_table _ _ _ J) as T. destruct (table_lengths _ _ _ _ T) as [Hl _]. unfold rows_with_key. rewrite <- list_fmap_compose.
  assert (∀ l, (∀ x, x ∈ l → row_of t rows x.1 = x.2) → row_of t rows ∘ fst <$> filter (λ pr, key_eq false ktypes key pr.2 = true) l = filter (λ row, key_eq false ktypes key row = true) l.*2) as Hgen.
  { induction l as [|[p row] l IH]; intros Hr; [done|]. rewrite fmap_cons, !filter_cons. cbn [snd]. case_decide; [|apply IH; set_solver]. rewrite fmap_cons. f_equal; [|apply IH; set_solver]. cbn. apply (Hr (p, row)). set_solver. }
  rewrite Hgen; [by rewrite snd_zip by lia|]. intros [p row] [g Hg]%list_elem_of_lookup. apply lookup_zip_with_Some in Hg as (? & ? & [= <- <-] & Hp & Hr). by eapply row_of_lookup.
Qed.
Lemma addresses_ok ps : (∀ p, p ∈ ps → p ∈ row_addrs_ t) → Forall2 (slot_ok layout mem) (Some <$> ps) ((λ p, Some (row_of t rows p)) <$> ps).
Proof.
  intros Hin. pose proof (jt_table _ _ _ J) as T. apply Forall2_fmap, Forall_Forall2_diag, Forall_forall. intros p Hp. destruct (addr_row _ _ _ _ T p (Hin p Hp)) as (g & row & Hg & Hr & ->).
  rewrite <- (jt_layout _ _ _ J). simpl. by eapply contents_lookup; [apply T|..].
Qed.

(** The pairs of [Probe], over all rows of the chunk. *)
Lemma probe_pairs keys size : good_keys ktypes (key_count op) keys size →
  ∃ h sel addrs rws F, probe_hashes hash32 hash64 op keys size = Ok h ∧ NonNullKeyRows keys size = Ok sel ∧ sel = filter (λ idx, no_null (rows_of size keys idx) = true) (all_rows size) ∧
    Probe h keys size sel t mem = Ok (addrs, rws) ∧ length addrs = length rws ∧ zip addrs rws = pairs_for F (all_rows size) ∧ (∀ p, p ∈ addrs → p ∈ row_addrs_ t) ∧
    ∀ idx, 0 ≤ idx < Z.of_nat size → F idx ≡ₚ rows_with_key false ktypes (row_addrs_ t) rows (rows_of size keys idx).
Proof.
  intros Hk. destruct (keys_ok keys size Hk) as (cols & h & Ec & C & Eh & Hh & En). exists h. eexists. pose proof (jt_table _ _ _ J) as T.
  set (sel := filter _ (all_rows size)) in *. assert (Forall (λ idx, 0 ≤ idx < Z.of_nat size) sel) as HF by (apply Forall_forall; intros idx [_ Hi%all_rows_elem]%list_elem_of_filter; done).
  assert (∃ addrs rws found, Probe h keys size sel t mem = Ok (addrs, rws) ∧ length addrs = length rws ∧ Forall2 (λ idx ps, ps ≡ₚ rows_with_key false ktypes (row_addrs_ t) rows (rows_of size keys idx)) sel found ∧
    zip addrs rws = concat (zip_with (λ idx ps, (λ p, (p, idx)) <$> ps) sel found)) as (addrs & rws & found & E & Hl & HFd & Hz).
  { destruct (jt_fresh _ _ _ J) as [Hs|Hr].
    - rewrite <- (jt_keys _ _ _ J) in C. assert (KeyHash (null_equal_keys_ t) (key_types t) rhash) as HK by (rewrite (jt_keys _ _ _ J); apply _).
      destruct (Probe_ok rhash t mem rows T Hs cols size (rows_of size keys) C h Hh keys sel Ec HF) as (oa & orw & found & E & Hl & HFd & Hz). exists oa, orw, found.
      unfold matching in HFd. rewrite (jt_keys _ _ _ J), (jt_null _ _ _ J) in HFd. done.
    - exists [], [], (replicate (length sel) []). split; [unfold Probe; rewrite (bool_decide_true (count_ t = 0)) by (rewrite (tb_count _ _ _ _ T), Hr; done); by rewrite orb_true_r|].
      split; [done|]. split; [|clear; by induction sel]. clear -Hr. induction sel as [|i l IH]; simpl; constructor; [|done]. subst rows. unfold rows_with_key. by rewrite zip_with_nil_r. }
  destruct (found_function _ sel found ltac:(apply NoDup_filter, all_rows_NoDup) HFd) as (F & HF1 & HF2 & HF3). rewrite HF3 in Hz. exists addrs, rws, F. split; [done|]. split; [done|]. split; [done|].
  split; [done|]. split; [done|]. split; [|split].
  - rewrite Hz. unfold sel. apply pairs_for_filter. intros idx Hi Hn. apply HF2. intros [? _]%list_elem_of_filter. done.
  - intros p Hp. apply list_elem_of_lookup in Hp as [j Hj]. destruct (lookup_lt_is_Some_2 rws j) as [r Hr]; [rewrite <- Hl; by eapply lookup_lt_Some|].
    assert ((p, r) ∈ pairs_for F sel) as Hin by (rewrite <- Hz; apply list_elem_of_lookup; exists j; rewrite lookup_zip_with, Hj; cbn; by rewrite Hr).
    apply elem_of_pairs_for in Hin as [Hidx Hq].
    rewrite (HF1 _ Hidx) in Hq. unfold rows_with_key in Hq. apply list_elem_of_fmap in Hq as ([q row] & -> & [_ Hq]%list_elem_of_filter). by eapply elem_of_zip_l.
  - intros idx Hi. destruct (decide (idx ∈ sel)) as [Hin|Hout]; [by apply HF1|]. rewrite (HF2 idx Hout). unfold rows_with_key.
    assert (filter (λ pr : row_ptr * Row, key_eq false ktypes (rows_of size keys idx) pr.2 = true) (zip (row_addrs_ t) rows) = []) as ->; [|done].
    destruct (decide (no_null (rows_of size keys idx) = true)) as [Hn|Hn]; [exfalso; apply Hout, list_elem_of_filter; split; [done|by apply all_rows_elem]|].
    apply filter_no_match. intros [p row] Hin%elem_of_zip_r. simpl. rewrite key_eq_null; [done| |by apply rows_long|by destruct (no_null _)].
    apply (proj2 C idx Hi).
Qed.
Lemma CollectMatches_ok keys size left : good_keys ktypes (key_count op) keys size →
  ∃ addrs rws vals V, CollectMatches hash32 hash64 op t keys size left mem = Ok (addrs, rws) ∧ Forall2 (slot_ok layout mem) addrs vals ∧ length addrs = length rws ∧
    zip vals rws = pairs_for V (all_rows size) ∧ ∀ idx, 0 ≤ idx < Z.of_nat size → V idx ≡ₚ join_matches left ktypes rows (rows_of size keys idx).
Proof.
  intros Hk. destruct (probe_pairs keys size Hk) as (h & sel & addrs & rws & F & Eh & En & _ & E & Hl & Hz & Hin & HF). unfold CollectMatches. rewrite Eh. cbn [mbind result_bind]. rewrite En. cbn [mbind result_bind].
  rewrite E. cbn [mbind result_bind]. set (rof := row_of t rows).
  assert (∀ idx, 0 ≤ idx < Z.of_nat size → (rof <$> F idx) ≡ₚ filter (λ row, key_eq false ktypes (rows_of size keys idx) row = true) rows) as HFr by (intros idx Hi; rewrite (HF idx Hi); by rewrite <- rows_of_addresses).
  destruct left.
  - assert (rws = (pairs_for F (all_rows size)).*2) as Er by (rewrite <- Hz; by rewrite snd_zip by lia).
    assert (Forall (λ r, 0 ≤ r) rws) as Hpos by (apply Forall_forall; intros r Hr; rewrite Er in Hr; apply pairs_for_rows in Hr as [Hr%all_rows_elem _]; lia).
    assert (merge_unmatched (mark_matched rws (replicate size false)) 0 (zip addrs rws) = pairs_for (λ idx, none_if_empty (F idx)) (all_rows size)) as Em.
    { rewrite Hz. assert (all_rows size = (λ j, 0 + Z.of_nat j) <$> seq 0 size) as -> by done. apply merge_unmatched_ok; [done| |].
      - apply mark_length.
      - intros j b Hj. rewrite mark_lookup in Hj by done. destruct (replicate size false !! j) as [b0|] eqn:E0; [|done]. apply lookup_replicate in E0 as [-> Hlt]. cbn in Hj. injection Hj as <-.
        rewrite Z.add_0_l. destruct (decide (F (Z.of_nat j) = [])) as [EF|EF].
        + rewrite (bool_decide_true (F _ = [])) by done. rewrite bool_decide_false; [done|]. rewrite Er, pairs_for_rows. tauto.
        + rewrite (bool_decide_false (F _ = [])) by done. rewrite bool_decide_true; [done|]. rewrite Er, pairs_for_rows, all_rows_elem. split; [lia|done]. }
    rewrite Em. set (out := pairs_for _ _). set (val := λ r : option row_ptr, rof <$> r).
    eexists _, _, (val <$> out.*1), (λ idx, val <$> none_if_empty (F idx)). split; [done|]. split; [|split; [by rewrite !length_fmap|split]].
    + apply Forall2_fmap_r, Forall_Forall2_diag, Forall_forall. intros r Hr. destruct r as [p|]; [|done]. pose proof (addresses_ok [p]) as Ha. cbn in Ha.
      assert (p ∈ row_addrs_ t) as Hp; [|specialize (Ha ltac:(set_solver)); by inversion Ha].
      apply list_elem_of_fmap in Hr as ([r idx] & Er' & Hin'). simpl in Er'. subst r. apply elem_of_pairs_for in Hin' as [Hi Hq].
      assert (p ∈ F idx) as Hq' by (destruct (F idx) as [|x l]; cbn [none_if_empty] in Hq; [set_solver|]; apply list_elem_of_fmap in Hq as (y & [= <-] & ?); done).
      rewrite (HF idx) in Hq' by (by apply all_rows_elem). unfold rows_with_key in Hq'. apply list_elem_of_fmap in Hq' as ([q row] & -> & [_ Hq']%list_elem_of_filter). by eapply elem_of_zip_l.
    + rewrite <- pairs_for_fmap. fold out. clear. induction out as [|[r i] out IH]; [done|]. cbn. by rewrite <- IH.
    + intros idx Hi. unfold join_matches. rewrite <- (none_if_empty_perm _ _ (HFr idx Hi)). unfold val. by rewrite none_if_empty_fmap.
  - exists (Some <$> addrs), rws, ((λ p, Some (rof p)) <$> addrs), (λ idx, (λ p, Some (rof p)) <$> F idx). split; [done|]. split; [by apply addresses_ok|]. split; [by rewrite length_fmap|]. split.
    + rewrite <- pairs_for_fmap, <- Hz. clear. revert rws. induction addrs as [|a addrs IH]; intros [|r rws]; [done..|]. cbn. by rewrite <- IH.
    + intros idx Hi. unfold join_matches. rewrite <- (HFr idx Hi), <- list_fmap_compose. done.
Qed.
End table.
End collect.

(** * The output chunks of the hash join *)

(** ** Chunks as rows *)

Definition col_value (col : VectorData) (idx : Z) : option cell := match col_valid col idx, col_cell col idx with Ok true, Ok c => Some c | _, _ => None end.
Definition readable (col : VectorData) (idx : Z) : Prop := ∃ b x, col_valid col idx = Ok b ∧ col_cell col idx = Ok x.
Definition readable_chunk (vecs : list Vector) (size : nat) : Prop :=
  ∃ cols, chunk_Orrify (Z.of_nat size) vecs = Ok cols ∧ ∀ col idx, col ∈ cols → 0 ≤ idx < Z.of_nat size → readable col idx.
Lemma chunk_reads_readable types vecs cols size : chunk_Orrify (Z.of_nat size) vecs = Ok cols → chunk_reads types cols size (chunk_row cols) → readable_chunk vecs size.
Proof.
  intros E [Hl Hr]. exists cols. split; [done|]. intros col idx [c Hc]%list_elem_of_lookup Hi. destruct (lookup_lt_is_Some_2 types c) as [ty Hty]; [rewrite <- Hl; by eapply lookup_lt_Some|].
  destruct (Hr idx Hi) as [_ Hrd]. destruct (Hrd c ty col Hty Hc) as (v & _ & x & Hv & Hx & _). by exists (is_some v), x.
Qed.
Lemma chunk_Orrify_app n vs ws cols cols' : chunk_Orrify n vs = Ok cols → chunk_Orrify n ws = Ok cols' → chunk_Orrify n (vs ++ ws) = Ok (cols ++ cols').
Proof.
  revert cols. induction vs as [|v vs IH]; intros cols E E'; simpl in *; [by injection E as <-|]. destruct (Orrify n v) as [vd|]; [|done]. simpl in *.
  destruct (chunk_Orrify n vs) as [vds|]; [|done]. simpl in *. injection E as <-. by rewrite (IH vds).
Qed.
Lemma chunk_Orrify_lookup n vs cols c v : chunk_Orrify n vs = Ok cols → vs !! c = Some v → ∃ col, Orrify n v = Ok col ∧ cols !! c = Some col.
Proof.
  revert cols c. induction vs as [|w vs IH]; intros cols c E Hc; [done|]. simpl in E. destruct (Orrify n w) as [vd|] eqn:Ew; [|done]. simpl in E. destruct (chunk_Orrify n vs) as [vds|] eqn:Ev; [|done]. simpl in E.
  injection E as <-. destruct c as [|c]; simpl in *; [injection Hc as <-; by exists vd|]. by apply IH.
Qed.
(** Columns side by side. *)
Lemma rows_of_app size vs ws cols cols' idx : chunk_Orrify (Z.of_nat size) vs = Ok cols → chunk_Orrify (Z.of_nat size) ws = Ok cols' → rows_of size (vs ++ ws) idx = rows_of size vs idx ++ rows_of size ws idx.
Proof. intros E E'. unfold rows_of. rewrite E, E', (chunk_Orrify_app _ _ _ _ _ E E'). unfold chunk_row. by rewrite fmap_app. Qed.
Lemma rows_of_cons size v vs col cols idx : Orrify (Z.of_nat size) v = Ok col → chunk_Orrify (Z.of_nat size) vs = Ok cols → rows_of size (v :: vs) idx = col_value col idx :: rows_of size vs idx.
Proof. intros E E'. unfold rows_of. simpl. by rewrite E; simpl; rewrite E'. Qed.

(** ** Slices *)

(** Row [j] of one column is row [i] of the other. *)
Definition same_cells (col' : VectorData) (j : Z) (col : VectorData) (i : Z) : Prop := col_valid col' j = col_valid col i ∧ col_cell col' j = col_cell col i.
Lemma same_value col' j col i : same_cells col' j col i → readable col i → col_value col' j = col_value col i ∧ readable col' j.
Proof. intros [Hv Hc]. unfold col_value, readable. by rewrite Hv, Hc. Qed.
Lemma Vector_Slice_value v size col sel :
  Orrify (Z.of_nat size) v = Ok col → Forall (λ i, 0 ≤ i < Z.of_nat size ∧ readable col i) sel → Z.of_nat (length sel) ≤ STANDARD_VECTOR_SIZE →
  ∃ v' col', Vector_Slice sel (length sel) v = Ok v' ∧ Orrify (Z.of_nat (length sel)) v' = Ok col' ∧ ∀ j i, sel !! j = Some i → same_cells col' (Z.of_nat j) col i.
Proof.
  intros E HF Hstd. destruct v as [data validity|data validity|s child]; cbn [Vector_Slice].
  - injection E as <-. eexists _, _. split; [done|]. split; [done|]. intros j i Hj. pose proof (Forall_lookup_1 _ _ _ _ HF Hj) as [Hi Hr]. unfold same_cells, col_valid, col_cell. cbn [vd_sel vd_data vd_validity].
    rewrite (proj2 (GetIndex_Some sel j i) Hj). cbn [GetIndex mbind result_bind]. done.
  - injection E as <-. eexists _, _. split; [done|]. split; [done|]. intros j i Hj. pose proof (Forall_lookup_1 _ _ _ _ HF Hj) as [Hi _]. pose proof (lookup_lt_Some _ _ _ Hj) as Hjl.
    assert (∀ n k : nat, (k < n)%nat → GetIndex (Some (replicate n 0)) (Z.of_nat k) = Ok 0) as Hz by (intros n k Hk; apply GetIndex_Some; by apply lookup_replicate).
    unfold same_cells, col_valid, col_cell. cbn [vd_sel vd_data vd_validity]. rewrite <- (Z2Nat.id i) by lia. by rewrite !Hz by lia.
  - destruct child as [data validity|?|?]; [|done..]. injection E as <-.
    destruct (sel_Slice_ok (Some s) (Some sel) (length sel) 0) as (ys & Es & Hl & Hy).
    { intros j Hj. destruct (lookup_lt_is_Some_2 sel j Hj) as [i Hi]. pose proof (Forall_lookup_1 _ _ _ _ HF Hi) as [Hpos (b & x & Hv & _)]. unfold col_valid in Hv. cbn [vd_sel] in Hv.
      destruct (GetIndex (Some s) i) as [y|] eqn:Ey; [|done]. exists i, y. split; [|done]. rewrite Z.add_0_l. by apply GetIndex_Some. }
    rewrite Es. cbn [mbind result_bind]. eexists _, _. split; [done|]. split; [done|]. intros j i Hj. pose proof (Forall_lookup_1 _ _ _ _ HF Hj) as [Hi Hr].
    destruct (lookup_lt_is_Some_2 ys j) as [y Hyj]; [rewrite Hl; by eapply lookup_lt_Some|]. destruct (Hy j y Hyj) as (x & Hx & Hxy). rewrite Z.add_0_l in Hx. rewrite (proj2 (GetIndex_Some sel j i) Hj) in Hx. injection Hx as <-.
    unfold same_cells, col_valid, col_cell. cbn [vd_sel vd_data vd_validity]. rewrite Hxy, (proj2 (GetIndex_Some ys j y) Hyj). done.
Qed.
(** A slice takes the selected rows of every column. *)
Lemma chunk_Slice_cols input size sel cols :
  chunk_Orrify (Z.of_nat size) input = Ok cols → (∀ col idx, col ∈ cols → 0 ≤ idx < Z.of_nat size → readable col idx) → Forall (λ i, 0 ≤ i < Z.of_nat size) sel → Z.of_nat (length sel) ≤ STANDARD_VECTOR_SIZE →
  ∃ vs cols', chunk_Slice input sel (length sel) = Ok vs ∧ chunk_Orrify (Z.of_nat (length sel)) vs = Ok cols' ∧ Forall2 (λ col' col, ∀ j i, sel !! j = Some i → same_cells col' (Z.of_nat j) col i) cols' cols.
Proof.
  intros Ec Hr HF Hstd. revert cols Ec Hr. induction input as [|v input IH]; intros cols Ec Hr; cbn [chunk_Slice].
  { injection Ec as <-. by eexists _, []. }
  simpl in Ec. destruct (Orrify (Z.of_nat size) v) as [col|] eqn:Ev; [|done]. simpl in Ec. destruct (chunk_Orrify (Z.of_nat size) input) as [cols1|] eqn:Ec'; [|done]. simpl in Ec. injection Ec as <-.
  destruct (Vector_Slice_value v size col sel Ev) as (v' & col' & E1 & E2 & H1); [|done|].
  { eapply Forall_impl; [exact HF|]. intros i Hi. split; [done|]. apply Hr; [set_solver|done]. }
  destruct (IH cols1 eq_refl) as (vs & cols' & E3 & E4 & H4); [intros; apply Hr; set_solver|]. rewrite E1. cbn [mbind result_bind]. rewrite E3. cbn [mbind result_bind]. exists (v' :: vs), (col' :: cols'). split; [done|]. split; [simpl; rewrite E2; simpl; by rewrite E4|by constructor].
Qed.
Lemma chunk_Slice_ok input size sel :
  readable_chunk input size → Forall (λ i, 0 ≤ i < Z.of_nat size) sel → Z.of_nat (length sel) ≤ STANDARD_VECTOR_SIZE →
  ∃ vs, chunk_Slice input sel (length sel) = Ok vs ∧ readable_chunk vs (length sel) ∧ ∀ j i, sel !! j = Some i → rows_of (length sel) vs (Z.of_nat j) = rows_of size input i.
Proof.
  intros (cols & Ec & Hr) HF Hstd. destruct (chunk_Slice_cols input size sel cols Ec Hr HF Hstd) as (vs & cols' & E & Ec' & H2). exists vs. split; [done|].
  assert (∀ j i k col' col, sel !! j = Some i → cols' !! k = Some col' → cols !! k = Some col → col_value col' (Z.of_nat j) = col_value col i ∧ readable col' (Z.of_nat j)) as Hcell.
  { intros j i k col' col Hj Hk' Hk. apply same_value; [by apply (Forall2_lookup_lr _ _ _ _ _ _ H2 Hk' Hk)|]. apply Hr; [by eapply list_elem_of_lookup_2|by apply (Forall_lookup_1 _ _ _ _ HF Hj)]. }
  apply Forall2_length in H2 as Hl. split.
  - exists cols'. split; [done|]. intros col' idx [k Hk]%list_elem_of_lookup Hi. destruct (lookup_lt_is_Some_2 sel (Z.to_nat idx)) as [i Hji]; [lia|]. destruct (lookup_lt_is_Some_2 cols k) as [col Hkc]; [rewrite <- Hl; by eapply lookup_lt_Some|].
    destruct (Hcell _ _ _ _ _ Hji Hk Hkc) as [_ Hrd]. by rewrite Z2Nat.id in Hrd by lia.
  - intros j i Hj. unfold rows_of. rewrite Ec, Ec'. apply list_eq_same_length with (n := length cols); [by unfold chunk_row; rewrite length_fmap|by unfold chunk_row; rewrite length_fmap|].
    intros k x y _ Hx Hy. apply list_lookup_fmap_Some in Hx as (col' & -> & Hk'). apply list_lookup_fmap_Some in Hy as (col & -> & Hk). by apply (Hcell j i k col' col).
Qed.

(** ** The build columns *)

Fixpoint ascending (c : nat) (live : list nat) : Prop := match live with [] => True | l :: live => (c ≤ l)%nat ∧ ascending (S l) live end.
Lemma ascending_ge live : ∀ c x, ascending c live → x ∈ live → (c ≤ x)%nat.
Proof. induction live as [|l live IH]; intros c x Ha Hx; [set_solver|]. destruct Ha as [Hc Ha]. apply elem_of_cons in Hx as [->|Hx]; [done|]. specialize (IH _ _ Ha Hx). lia. Qed.
Lemma ascending_next live c : ascending c live → c ∉ live → ascending (S c) live.
Proof. destruct live as [|l live]; [done|]. intros [Hc Ha] Hn. split; [|done]. assert (c ≠ l) by set_solver. lia. Qed.
(** Column [c] of a build row in the output; there is none to pad with. *)
Definition build_cell (live : list nat) (b : option Row) (c : nat) : option cell := if bool_decide (c ∈ live) then row ← b; default None (row !! c) else None.

Lemma null_vector_ok junk_cell n : ∃ v col, null_vector junk_cell = Ok v ∧ Orrify (Z.of_nat n) v = Ok col ∧ ∀ j, (j < n)%nat → col_value col (Z.of_nat j) = None ∧ readable col (Z.of_nat j).
Proof.
  unfold null_vector. destruct (with_mask_ok (SetInvalid 0) None (λ i b, i = 0 → b = false)) as (mask & E & Hm).
  { intros m st Hwf Hv. destruct (SetInvalid_ok st m 0 Hwf ltac:(done)) as (m' & st' & E & Hf & Hv' & _). exists m', st'. split; [done|]. split; [apply (frame_wf _ _ _ _ Hf)|].
    intros i Hi ->. rewrite Hv' by done. by rewrite decide_True. }
  rewrite E. cbn [mbind result_bind]. eexists _, _. split; [done|]. split; [done|]. intros j Hj. unfold readable, col_value, col_valid, col_cell. cbn [vd_sel vd_data vd_validity].
  assert (GetIndex (Some (replicate (Z.to_nat (Z.max (Z.of_nat n) STANDARD_VECTOR_SIZE)) 0)) (Z.of_nat j) = Ok 0) as -> by (apply GetIndex_Some, lookup_replicate; lia).
  cbn [mbind result_bind]. rewrite (Hm 0) by done. split; [done|]. by eexists _, _.
Qed.

Section emit.
Context (junk : byte) (junk_cell : cell) (op : PhysicalHashJoin) (layout : RowLayout) (L : layout_ok layout) (Htypes : rl_types layout = layout_types op).
Context (mem : Blocks) (rows : list (option row_ptr)) (vals : list (option Row)) (Hslots : Forall2 (slot_ok layout mem) rows vals) (Hstd : Z.of_nat (length rows) ≤ STANDARD_VECTOR_SIZE).
Lemma emit_build_ok (bs : list (option Row)) ncols : ∀ live k c,
  ascending c live → Forall (λ l, l < c + ncols)%nat live → (key_count op + k + length live = length (rl_types layout))%nat → length bs = length vals →
  (∀ i l j v b, live !! i = Some l → vals !! j = Some v → bs !! j = Some b → padded v (key_count op + (k + i)) = (row ← b; default None (row !! l))) →
  ∃ vs, emit_build junk junk_cell op layout rows live k c ncols mem = Ok vs ∧ readable_chunk vs (length rows) ∧
    ∀ j b, bs !! j = Some b → rows_of (length rows) vs (Z.of_nat j) = build_cell live b <$> seq c ncols.
Proof.
  induction ncols as [|ncols IH]; intros live k c Ha HF Hk Hbs Hp; cbn [emit_build].
  { exists []. split; [done|]. split; [exists []; split; [done|set_solver]|done]. }
  assert (∀ v col vs live', Orrify (Z.of_nat (length rows)) v = Ok col → (∀ j b, bs !! j = Some b → col_value col (Z.of_nat j) = build_cell live b c ∧ readable col (Z.of_nat j)) →
    readable_chunk vs (length rows) → (∀ j b, bs !! j = Some b → rows_of (length rows) vs (Z.of_nat j) = build_cell live' b <$> seq (S c) ncols) → (∀ x, (c < x)%nat → x ∈ live ↔ x ∈ live') →
    readable_chunk (v :: vs) (length rows) ∧ ∀ j b, bs !! j = Some b → rows_of (length rows) (v :: vs) (Z.of_nat j) = build_cell live b <$> seq c (S ncols)) as Hcons.
  { intros v col vs live' Eo Hv (cs & Ecs & Hcs) Hvs Hl. split.
    - exists (col :: cs). split; [simpl; rewrite Eo; simpl; by rewrite Ecs|]. intros col' idx [->|Hin]%elem_of_cons Hi; [|by apply Hcs]. apply Forall2_length in Hslots as Hlen.
      destruct (lookup_lt_is_Some_2 bs (Z.to_nat idx)) as [b Hb]; [lia|]. destruct (Hv _ _ Hb) as [_ Hr]. by rewrite Z2Nat.id in Hr by lia.
    - intros j b Hb. rewrite (rows_of_cons _ _ _ _ _ _ Eo Ecs). cbn [seq fmap list_fmap]. f_equal; [by apply Hv|]. rewrite (Hvs j b Hb). apply list_fmap_ext. intros i x Hx. apply lookup_seq in Hx as [-> _].
      unfold build_cell. erewrite bool_decide_ext; [done|]. symmetry. apply Hl. lia. }
  assert (c ∉ live → ∃ vs, (v ← null_vector junk_cell; vs ← emit_build junk junk_cell op layout rows live k (S c) ncols mem; Ok (v :: vs)) = Ok vs ∧ readable_chunk vs (length rows) ∧
    ∀ j b, bs !! j = Some b → rows_of (length rows) vs (Z.of_nat j) = build_cell live b <$> seq c (S ncols)) as Hdead.
  { intros Hn. destruct (null_vector_ok junk_cell (length rows)) as (v & col & Ev & Eo & Hv). destruct (IH live k (S c)) as (vs & Evs & Hr & Hrow); [by apply ascending_next|eapply Forall_impl; [exact HF|]; simpl; lia|done..|].
    rewrite Ev. cbn [mbind result_bind]. rewrite Evs. cbn [mbind result_bind]. eexists. split; [done|]. eapply Hcons; [exact Eo| |done|exact Hrow|done].
    intros j b Hb. unfold build_cell. rewrite bool_decide_false by done. apply Hv. apply lookup_lt_Some in Hb. apply Forall2_length in Hslots. lia. }
  destruct live as [|l live]; [apply Hdead; set_solver|]. destruct Ha as [Hc Ha]. case_bool_decide as Hlc; [subst l|].
  2:{ apply Hdead. intros [->|Hin]%elem_of_cons; [done|]. pose proof (ascending_ge _ _ _ Ha Hin). lia. }
  destruct (lookup_lt_is_Some_2 (rl_types layout) (key_count op + k)) as [ty Hty]; [simpl in Hk; lia|]. destruct (lookup_lt_is_Some_2 (rl_offsets layout) (key_count op + k)) as [off Hoff]; [rewrite (lo_length _ L); simpl in Hk; lia|].
  destruct (Gather_ok layout L junk rows vals (key_count op + k) ty off false (replicate (Z.to_nat STANDARD_VECTOR_SIZE) junk_cell) mem Hslots Hty Hoff) as (data & mask & Eg & Hdl & Hg); [done|rewrite length_replicate; lia|done|].
  rewrite Eg. cbn [mbind result_bind]. apply Forall_cons in HF as [_ HF]. destruct (IH live (S k) (S c) Ha) as (vs & Evs & Hr & Hrow); [eapply Forall_impl; [exact HF|]; simpl; lia|simpl in Hk; lia|done| |].
  { intros i l j v b Hl Hv Hb. rewrite <- (Hp (S i) l j v b Hl Hv Hb). f_equal. lia. }
  rewrite Evs. cbn [mbind result_bind]. eexists. split; [done|]. eapply Hcons; [done| |done|exact Hrow|].
  - intros j b Hb. destruct (lookup_lt_is_Some_2 vals j) as [v Hv]; [rewrite <- Hbs; by eapply lookup_lt_Some|]. destruct (Hg j v Hv) as [Hm Hd]. pose proof (Hp 0%nat c j v b eq_refl Hv Hb) as Hpad. rewrite Nat.add_0_r in Hpad.
    destruct (lookup_lt_is_Some_2 data j) as [x Hx]; [rewrite Hdl, length_replicate; apply lookup_lt_Some in Hv; apply Forall2_length in Hslots; lia|].
    unfold readable, col_value, col_valid, col_cell, data_at. cbn [vd_sel vd_data vd_validity GetIndex mbind result_bind]. rewrite Nat2Z.id, Hx, Hm. split; [|by eexists _, _].
    unfold build_cell. rewrite bool_decide_true by set_solver. rewrite <- Hpad. destruct (padded v (key_count op + k)) as [y|] eqn:Ey; [|done]. simpl. specialize (Hd y eq_refl). congruence.
  - intros x Hx. rewrite elem_of_cons. split; [intros [->|?]; [lia|done]|tauto].
Qed.
End emit.
