(* ===== verification/JoinExecute.v ===== *)
(** * A probe chunk through the join *)

From S2P Require Import Prelude TablePage TableHeap BTreePage BPlusTree GenericKey StringHeap ValidityMask SortKey VectorOps SortKeyOrder StreamOperator RowFormat RowScatter PRLHashTable HashInvariant HashAppend HashGroups VectorHash HashSystem HashTheorems HashJoin JoinProbe.

(** ** What a join returns *)

(** A row of an input, with the values of its keys. *)
Abbreviation Keyed := (Row * Row)%type.
Section spec.
Context (op : PhysicalHashJoin).
Abbreviation live := (live_build_columns_ op).
Abbreviation ktypes := (key_types_of op).
(** The row the table keeps for a build row. *)
Definition stored (b : Keyed) : Row := b.1 ++ ((λ c, default None (b.2 !! c)) <$> live).
(** The build columns of an output row; the pruned ones are NULL. *)
Definition build_side (b : option Row) : Row := build_cell live b <$> seq 0 (length (build_types_ op)).
Definition join_row (b : option Keyed) (probe : Row) : Row := if IsLeftJoin op then probe ++ build_side (snd <$> b) else build_side (snd <$> b) ++ probe.
Definition partners (B : list Keyed) (key : Row) : list Keyed := filter (λ b, key_eq false ktypes key b.1 = true) B.
(** SQL's [=]: unknown on a NULL. *)
Definition sql_eq (a b : Row) : option bool := if no_null a && no_null b then Some (key_eq false ktypes a b) else None.
Definition not_in (B : list Keyed) (key : Row) : bool := forallb (λ b, bool_decide (sql_eq key b.1 = Some false)) B.
(** The output rows of a probe row. *)
Definition joined (B : list Keyed) (key row : Row) : list Row :=
  match join_type_ op with
  | LEFT => (λ b, join_row b row) <$> none_if_empty (partners B key)
  | SEMI => if bool_decide (partners B key = []) then [] else [row]
  | ANTI => if null_aware_ op then (if not_in B key then [row] else []) else if bool_decide (partners B key = []) then [row] else []
  | _ => (λ b, join_row (Some b) row) <$> partners B key
  end.
End spec.

Lemma key_eq_app types : ∀ a b c, (length types ≤ length b)%nat → key_eq false types a (b ++ c) = key_eq false types a b.
Proof. induction types as [|ty types IH]; intros [|x a] [|y b] c Hl; simpl in *; try done; try lia. rewrite IH by lia. done. Qed.

(** Permuted images are images of permuted lists, for each of some rows. *)
Lemma choose_preimages {A B} (f : A → B) (V : Z → list B) (M : Z → list A) idxs :
  NoDup idxs → (∀ idx, idx ∈ idxs → V idx ≡ₚ f <$> M idx) → ∃ W, ∀ idx, idx ∈ idxs → V idx = f <$> W idx ∧ W idx ≡ₚ M idx.
Proof.
  induction idxs as [|i idxs IH]; intros Hnd HV; [exists M; set_solver|]. apply NoDup_cons in Hnd as [Hni Hnd]. destruct IH as [W HW]; [done|set_solver|].
  destruct (Permutation_map_inv f _ (HV i ltac:(set_solver))) as (l & El & Hl). exists (λ j, if decide (j = i) then l else W j).
  intros idx [->|Hin]%elem_of_cons; [by rewrite decide_True|]. rewrite decide_False by (by intros ->). by apply HW.
Qed.
(** ** Flags of SEMI and ANTI *)

Lemma clear_lookup idxs : ∀ (flags : list bool) i, Forall (λ r, 0 ≤ r) idxs → fold_left (λ m r, <[Z.to_nat r := false]> m) idxs flags !! i = (λ b, b && negb (bool_decide (Z.of_nat i ∈ idxs))) <$> flags !! i.
Proof.
  induction idxs as [|r idxs IH]; intros flags i HF; cbn [fold_left].
  { destruct (flags !! i) as [b|]; [|done]. cbn. by rewrite andb_true_r. }
  apply Forall_cons in HF as [Hr HF]. rewrite IH by done. destruct (decide (i = Z.to_nat r)) as [->|Hne].
  - destruct (flags !! Z.to_nat r) as [b|] eqn:E.
    + rewrite list_lookup_insert_eq by (by eapply lookup_lt_Some). cbn. rewrite Z2Nat.id by done. rewrite (bool_decide_true (r ∈ r :: idxs)) by set_solver. by rewrite andb_false_r.
    + by rewrite list_insert_ge, E by (by apply lookup_ge_None).
  - rewrite list_lookup_insert_ne by done. destruct (flags !! i) as [b|]; [|done]. cbn. do 3 f_equal. apply bool_decide_ext. rewrite elem_of_cons. split; [tauto|]. intros [<-|?]; [lia|done].
Qed.
Lemma emit_rows_ok (anti drop_null : bool) (P : Z → bool) n : ∀ i (matched null_key : list bool), length matched = n → length null_key = n →
  (∀ j m k, matched !! j = Some m → null_key !! j = Some k → P (i + Z.of_nat j) = if anti then negb m && (negb drop_null || negb k) else m) →
  emit_rows anti drop_null i matched null_key = filter (λ idx, P idx = true) ((λ j, i + Z.of_nat j) <$> seq 0 n).
Proof.
  induction n as [|n IH]; intros i [|m matched] [|k null_key] Hm Hk HP; try done. cbn [emit_rows seq fmap list_fmap]. rewrite filter_cons. pose proof (HP 0%nat m k eq_refl eq_refl) as H0.
  assert (emit_rows anti drop_null (i + 1) matched null_key = filter (λ idx, P idx = true) ((λ j, i + Z.of_nat j) <$> seq 1 n)) as ->.
  { rewrite (IH (i + 1) matched null_key); [|by injection Hm|by injection Hk|].
    - rewrite <- seq_shift. f_equal. change (map S (seq 0 n)) with (S <$> seq 0 n). rewrite <- list_fmap_compose. apply list_fmap_ext. intros ? j _. simpl. lia.
    - intros j m' k' Hj Hj'. replace (i + 1 + Z.of_nat j) with (i + Z.of_nat (S j)) by lia. by apply HP. }
  change (Z.of_nat 0) with 0 in *. rewrite Z.add_0_r in *. rewrite <- H0. case_decide as HPi; [by rewrite HPi|]. by destruct (P i).
Qed.
Lemma key_eq_null_r types : ∀ a b, (length types ≤ length a)%nat → length b = length types → no_null b = false → key_eq false types a b = false.
Proof.
  unfold no_null. induction types as [|ty types IH]; intros [|x a] [|y b] Ha Hb Hn; simpl in *; try done; try lia.
  destruct y as [y|]; simpl in *; [|by destruct x]. destruct x; [|done]. simpl. rewrite (IH a b) by (done || lia). apply andb_false_r.
Qed.
Lemma partners_nonnull op B key : length key = key_count op → Forall (λ b : Keyed, length b.1 = key_count op) B → partners op (filter (λ b, no_null b.1 = true) B) key = partners op B key.
Proof.
  intros Hk. unfold partners. induction 1 as [|b B Hb _ IH]; [done|]. rewrite !filter_cons. destruct (decide (no_null b.1 = true)) as [Hn|Hn]; [rewrite filter_cons; by rewrite IH|].
  rewrite IH. rewrite decide_False; [done|]. rewrite key_eq_null_r; [done|by rewrite Hk|exact Hb|by destruct (no_null b.1)].
Qed.
Lemma not_in_nonnull op B key : Forall (λ b : Keyed, no_null b.1 = true) B → not_in op B key = bool_decide (B = []) || (no_null key && bool_decide (partners op B key = [])).
Proof.
  intros HF. destruct B as [|b B]; [done|]. rewrite (bool_decide_false (b :: B = [])) by done. cbn [orb]. destruct (no_null key) eqn:Ek; cbn [andb].
  - unfold not_in, partners, sql_eq. rewrite Ek. cbn [andb]. induction HF as [|x l Hx _ IH]; [done|]. cbn [forallb]. rewrite filter_cons, Hx. cbn [andb]. rewrite IH.
    destruct (key_eq false (key_types_of op) key x.1); [by rewrite bool_decide_false|]. by rewrite bool_decide_true.
  - unfold not_in, sql_eq. cbn [forallb]. rewrite Ek. done.
Qed.
Lemma pairs_for_ext {A} (F G : Z → list A) idxs : (∀ idx, idx ∈ idxs → F idx = G idx) → pairs_for F idxs = pairs_for G idxs.
Proof. intros Heq. unfold pairs_for. f_equal. apply list_fmap_ext. intros k idx Hk. by rewrite Heq by (by eapply list_elem_of_lookup_2). Qed.

(** The rows of some chunks. *)
Definition chunk_rows (n : nat) (vs : list Vector) : list Row := (λ j, rows_of n vs (Z.of_nat j)) <$> seq 0 n.
Definition output_rows (outs : list (list Vector * nat)) : list Row := concat ((λ c, chunk_rows c.2 c.1) <$> outs).

(** A chunk of at most a vector's worth of rows, all of which can be read. *)
Definition good_output (c : list Vector * nat) : Prop := Z.of_nat c.2 ≤ STANDARD_VECTOR_SIZE ∧ readable_chunk c.1 c.2.
Lemma readable_app vs ws n : readable_chunk vs n → readable_chunk ws n → readable_chunk (vs ++ ws) n.
Proof. intros (cs & E & H) (ds & E' & H'). exists (cs ++ ds). split; [by apply chunk_Orrify_app|]. intros col idx [Hc|Hc]%elem_of_app Hi; [by apply H|by apply H']. Qed.

(** ** Matches as build rows *)

Section execute.
Context (hash32 hash64 : Z → Z) `{!StdHash hash32 hash64} (junk : byte) (junk_cell : cell) (op : PhysicalHashJoin) (layout : RowLayout) (L : layout_ok layout).
Context (Hkeys : Forall (λ ty, scalar ty = true) (key_types_of op)) (Hne : key_types_of op ≠ []) (Htypes : rl_types layout = layout_types op).
Context (Hlive : ascending 0 (live_build_columns_ op)) (Hbound : Forall (λ l, l < length (build_types_ op))%nat (live_build_columns_ op)).
Context (t : PRLHashTable) (mem : Blocks) (B : list Keyed) (J : join_table hash32 hash64 op layout t mem (stored op <$> B)) (HB : Forall (λ b : Keyed, length b.1 = key_count op) B).
Definition pair_matches (left : bool) (key : Row) : list (option Keyed) := let ms := partners op B key in if left then none_if_empty ms else Some <$> ms.
Definition store_opt (b : option Keyed) : option Row := stored op <$> b.

Lemma stored_partners key : filter (λ row, key_eq false (key_types_of op) key row = true) (stored op <$> B) = stored op <$> partners op B key.
Proof.
  unfold partners. clear J. induction B as [|b B' IH]; [done|]. apply Forall_cons in HB as [Hb HB']. rewrite fmap_cons, !filter_cons.
  assert (key_eq false (key_types_of op) key (stored op b) = key_eq false (key_types_of op) key b.1) as Hs by (apply key_eq_app; by rewrite Hb). rewrite Hs.
  case_decide; [rewrite fmap_cons; f_equal|]; by apply IH.
Qed.
Lemma join_matches_stored left key : join_matches left (key_types_of op) (stored op <$> B) key = store_opt <$> pair_matches left key.
Proof.
  unfold join_matches, pair_matches. rewrite stored_partners. destruct left; [unfold store_opt; by rewrite none_if_empty_fmap|]. rewrite <- !list_fmap_compose. done.
Qed.
Lemma CollectMatches_rows keys size left : good_keys (key_types_of op) (key_count op) keys size →
  ∃ addrs rws bs W, CollectMatches hash32 hash64 op t keys size left mem = Ok (addrs, rws) ∧ Forall2 (slot_ok layout mem) addrs (store_opt <$> bs) ∧ length addrs = length rws ∧
    zip bs rws = pairs_for W (all_rows size) ∧ ∀ idx, 0 ≤ idx < Z.of_nat size → W idx ≡ₚ pair_matches left (rows_of size keys idx).
Proof.
  intros Hk. destruct (CollectMatches_ok hash32 hash64 op layout Hkeys Hne t mem (stored op <$> B) J keys size left Hk) as (addrs & rws & vals & V & E & HF & Hl & Hz & HV).
  destruct (choose_preimages store_opt V (λ idx, pair_matches left (rows_of size keys idx)) (all_rows size) (all_rows_NoDup size)) as [W HW].
  { intros idx Hi%all_rows_elem. by rewrite (HV idx Hi), join_matches_stored. }
  exists addrs, rws, (pairs_for W (all_rows size)).*1, W. split; [done|]. apply Forall2_length in HF as Hlv.
  assert (zip vals rws = (λ x, (store_opt x.1, x.2)) <$> pairs_for W (all_rows size)) as Hz'.
  { rewrite Hz, pairs_for_fmap. apply pairs_for_ext. intros idx Hi. by apply HW. }
  assert (vals = store_opt <$> (pairs_for W (all_rows size)).*1) as ->.
  { rewrite <- (fst_zip vals rws) by lia. rewrite Hz', <- !list_fmap_compose. done. }
  split; [done|]. split; [done|]. split; [|by intros idx Hi; apply HW, all_rows_elem].
  assert (rws = (pairs_for W (all_rows size)).*2) as ->; [|apply zip_fst_snd]. rewrite <- (snd_zip (store_opt <$> (pairs_for W (all_rows size)).*1) rws) at 1 by lia. rewrite Hz', <- list_fmap_compose. done.
Qed.

(** ** Output batches *)

Lemma EmitBatch_ok input size addrs rws bs offset n :
  readable_chunk input size → Forall2 (slot_ok layout mem) addrs (store_opt <$> bs) → length addrs = length rws → Forall (λ i, 0 ≤ i < Z.of_nat size) rws →
  (∀ b, Some b ∈ bs → length b.1 = key_count op) → (offset + n ≤ length rws)%nat → Z.of_nat n ≤ STANDARD_VECTOR_SIZE →
  ∃ vs, EmitBatch junk junk_cell op t input addrs rws offset n mem = Ok vs ∧ readable_chunk vs n ∧ chunk_rows n vs = take n (drop offset (zip_with (λ b i, join_row op b (rows_of size input i)) bs rws)).
Proof.
  intros Hin HF Hl Hr Hb Hoff Hstd. unfold EmitBatch. rewrite (jt_layout _ _ _ _ _ _ _ J). apply Forall2_length in HF as Hlen. rewrite length_fmap in Hlen.
  set (sel := take n (drop offset rws)). assert (length sel = n) as Hsel by (unfold sel; rewrite length_take, length_drop; lia).
  set (ads := take n (drop offset addrs)). assert (length ads = n) as Hads by (unfold ads; rewrite length_take, length_drop; lia).
  set (wbs := take n (drop offset bs)). assert (length wbs = n) as Hwbs by (unfold wbs; rewrite length_take, length_drop; lia).
  assert (Forall2 (slot_ok layout mem) ads (store_opt <$> wbs)) as HF' by (unfold ads, wbs; rewrite fmap_take, fmap_drop; by apply Forall2_take, Forall2_drop).
  destruct (chunk_Slice_ok input size sel Hin) as (ps & Ep & Hpr & Hps); [by apply Forall_take, Forall_drop|by rewrite Hsel|]. rewrite Hsel in *.
  destruct (emit_build_ok junk junk_cell op layout L Htypes mem ads (store_opt <$> wbs) HF' ltac:(by rewrite Hads) ((λ b : option Keyed, snd <$> b) <$> wbs) (length (build_types_ op)) (live_build_columns_ op) 0 0 Hlive) as (vs & Ev & Hvr & Hvs).
  - done.
  - rewrite Htypes. unfold layout_types. rewrite length_app, length_fmap. unfold key_count. lia.
  - by rewrite !length_fmap.
  - intros i l j v b Hi Hv Hbj. rewrite list_lookup_fmap in Hv, Hbj. destruct (wbs !! j) as [b0|] eqn:E0; [|done]. injection Hv as <-. injection Hbj as <-.
    destruct b0 as [b0|]; [|done]. assert (length b0.1 = key_count op) as Hb0 by (apply Hb; unfold wbs in E0; apply lookup_take_Some in E0 as [E0 _]; rewrite lookup_drop in E0; by eapply list_elem_of_lookup_2).
    unfold store_opt, stored. cbn. rewrite lookup_app_r by lia. rewrite Hb0. replace (key_count op + i - key_count op)%nat with i by lia. by rewrite list_lookup_fmap, Hi.
  - rewrite Hads in *. rewrite Ev. cbn [mbind result_bind]. rewrite Ep. cbn [mbind result_bind]. eexists. split; [done|]. split; [by destruct (IsLeftJoin op); apply readable_app|]. destruct Hpr as (pcols & Epc & _), Hvr as (vcols & Evc & _).
    rewrite zip_with_drop, zip_with_take. fold wbs sel. unfold chunk_rows. apply list_eq_same_length with (n := n); [rewrite length_zip_with; lia|by rewrite length_fmap, length_seq|].
    intros j x y Hj Hx Hy. apply list_lookup_fmap_Some in Hx as (j' & -> & Hj'). apply lookup_seq in Hj' as [-> _]. cbn [Nat.add]. apply lookup_zip_with_Some in Hy as (b & i & -> & Hwb & Hi).
    specialize (Hvs j (snd <$> b) ltac:(by rewrite list_lookup_fmap, Hwb)). specialize (Hps j i Hi). unfold join_row, build_side. rewrite <- Hvs, <- Hps. destruct (IsLeftJoin op); by eapply rows_of_app.
Qed.

Section one_chunk.
Context (b : JoinBuild) (g : nat) (Hg : gs_ht (jb_global b) = Some g) (Ht : tables (jb_system b) !! g = Some t) (Hmem : memory (jb_system b) = mem).
Context (keys input : list Vector) (size : nat) (Hgood : good_keys (key_types_of op) (key_count op) keys size) (Hinput : readable_chunk input size).
Abbreviation run := (Join_Execute hash32 hash64 junk junk_cell op b keys input size).
Abbreviation key := (rows_of size keys).
Abbreviation row := (rows_of size input).

Lemma batches addrs rws bs (Hsemi : IsSemiOrAnti op = false) : Forall2 (slot_ok layout mem) addrs (store_opt <$> bs) → length addrs = length rws → Forall (λ i, 0 ≤ i < Z.of_nat size) rws →
  (∀ p, Some p ∈ bs → length p.1 = key_count op) → ∀ k cursor, (cursor ≤ length rws)%nat → (length rws - cursor ≤ k)%nat →
  ∃ outs ls, drain run (S k) (mkProbeState true addrs rws cursor) = Ok (outs, NEED_MORE_INPUT, ls) ∧ have_matches_ ls = false ∧ Forall good_output outs ∧
    output_rows outs = drop cursor (zip_with (λ p i, join_row op p (row i)) bs rws).
Proof.
  intros HF Hl Hr Hb. apply Forall2_length in HF as Hlen. rewrite length_fmap in Hlen. induction k as [|k IH]; intros cursor Hc Hk.
  all: set (n := Nat.min (Z.to_nat STANDARD_VECTOR_SIZE) (length rws - cursor)).
  all: assert (∃ vs, (if bool_decide (0 < n)%nat then EmitBatch junk junk_cell op t input addrs rws cursor n mem else Ok []) = Ok vs ∧ readable_chunk vs n ∧
    chunk_rows n vs = take n (drop cursor (zip_with (λ p i, join_row op p (row i)) bs rws))) as (vs & Ev & Hvr & Hvs)
    by (case_bool_decide as Hn; [apply EmitBatch_ok; try done; lia|]; exists []; split; [done|]; replace n with 0%nat by lia; split; [exists []; split; [done|set_solver]|done]).
  all: assert (good_output (vs, n)) as Hgo by (split; [cbn [snd]; unfold n, STANDARD_VECTOR_SIZE; lia|done]).
  all: assert (run (mkProbeState true addrs rws cursor) = if bool_decide (length rws ≤ cursor + n)%nat then Ok (vs, n, NEED_MORE_INPUT, mkProbeState false addrs rws (cursor + n))
    else Ok (vs, n, HAVE_MORE_OUTPUT, mkProbeState true addrs rws (cursor + n))) as E
    by (unfold Join_Execute; rewrite Hg; unfold table_at; rewrite Ht, Hmem, Hsemi; cbn [mbind result_bind have_matches_ match_rows_ match_addrs_ cursor_]; fold n; by rewrite Ev).
  all: assert ((length rws ≤ cursor + n)%nat → output_rows [(vs, n)] = drop cursor (zip_with (λ p i, join_row op p (row i)) bs rws)) as Hlast
    by (intros Hle; unfold output_rows; cbn [fmap list_fmap concat fst snd]; rewrite app_nil_r, Hvs; apply take_ge; rewrite length_drop, length_zip_with; lia).
  - rewrite bool_decide_true in E by lia. eexists _, _. split; [by apply (drain_step _ _ _ _ _ _ E)|]. split; [done|]. split; [by constructor|]. apply Hlast. lia.
  - case_bool_decide as Hle; [eexists _, _; split; [by apply (drain_step _ _ _ _ _ _ E)|]; split; [done|]; split; [by constructor|]; by apply Hlast|].
    assert (0 < n)%nat as Hn by (unfold n, STANDARD_VECTOR_SIZE in *; lia). destruct (IH (cursor + n)%nat ltac:(lia) ltac:(lia)) as (outs & ls & Ed & Hls & Hos & Ho).
    eexists _, ls. split; [by apply (drain_more _ _ _ _ _ _ _ _ E Ed)|]. split; [done|]. split; [by constructor|]. unfold output_rows in *. cbn [fmap list_fmap concat fst snd]. rewrite Hvs, Ho, <- drop_drop. apply take_drop.
Qed.

(** The first call collects the pairs. *)
Lemma first_batch ls addrs rws : IsSemiOrAnti op = false → have_matches_ ls = false → CollectMatches hash32 hash64 op t keys size (IsLeftJoin op) mem = Ok (addrs, rws) →
  ∀ fuel, drain run fuel ls = drain run fuel (mkProbeState true addrs rws 0).
Proof.
  intros Hsemi Hls E [|fuel]; [done|]. assert (run ls = run (mkProbeState true addrs rws 0)) as Er.
  { unfold Join_Execute. rewrite Hg. unfold table_at. rewrite Ht, Hmem, Hsemi. cbn [mbind result_bind have_matches_ match_rows_ match_addrs_ cursor_]. rewrite Hls, E. done. }
  cbn [drain]. by rewrite Er.
Qed.
Lemma joined_pairs idx : join_type_ op = INNER ∨ join_type_ op = LEFT → joined op B (key idx) (row idx) = (λ p, join_row op p (row idx)) <$> pair_matches (IsLeftJoin op) (key idx).
Proof. unfold joined, pair_matches, IsLeftJoin. intros [-> | ->]; [|done]. rewrite bool_decide_false by done. by rewrite <- list_fmap_compose. Qed.
Lemma Execute_pairs ls : join_type_ op = INNER ∨ join_type_ op = LEFT → have_matches_ ls = false →
  ∃ fuel outs ls' parts, drain run fuel ls = Ok (outs, NEED_MORE_INPUT, ls') ∧ have_matches_ ls' = false ∧ Forall good_output outs ∧ output_rows outs = concat parts ∧
    Forall2 (λ idx part, part ≡ₚ joined op B (key idx) (row idx)) (all_rows size) parts.
Proof.
  intros Hty Hls. assert (IsSemiOrAnti op = false) as Hsemi by (unfold IsSemiOrAnti; by destruct Hty as [-> | ->]).
  destruct (CollectMatches_rows keys size (IsLeftJoin op) Hgood) as (addrs & rws & bs & W & E & HF & Hl & Hz & HW). apply Forall2_length in HF as Hlen. rewrite length_fmap in Hlen.
  assert (∀ x, x ∈ pairs_for W (all_rows size) → 0 ≤ x.2 < Z.of_nat size ∧ ∀ p, x.1 = Some p → length p.1 = key_count op) as Hx.
  { intros [m i] [Hi%all_rows_elem Hm]%elem_of_pairs_for. split; [done|]. intros p Ep. simpl in Ep. subst m. rewrite (HW i Hi) in Hm. rewrite Forall_forall in HB. apply HB.
    assert (p ∈ partners op B (key i)) as [_ Hp]%list_elem_of_filter; [|done]. unfold pair_matches in Hm. destruct (IsLeftJoin op); [destruct (partners op B (key i)) as [|q l]; cbn [none_if_empty] in Hm; [set_solver|]|];
    apply list_elem_of_fmap in Hm as (? & [= <-] & ?); done. }
  destruct (batches addrs rws bs Hsemi HF Hl) with (k := length rws) (cursor := 0%nat) as (outs & ls' & Ed & Hls' & Hgo & Ho); [| |lia|lia|].
  - assert (rws = (zip bs rws).*2) as -> by (by rewrite snd_zip by lia). rewrite Hz. apply Forall_fmap, Forall_forall. intros x Hin. by apply Hx.
  - intros p Hp. assert (bs = (zip bs rws).*1) as Eb by (by rewrite fst_zip by lia). rewrite Eb, Hz in Hp. apply list_elem_of_fmap in Hp as (x & Ex & Hin). by eapply Hx.
  - exists (S (length rws)), outs, ls', ((λ idx, (λ p, join_row op p (row idx)) <$> W idx) <$> all_rows size). rewrite (first_batch ls addrs rws Hsemi Hls E). split; [done|]. split; [done|]. split; [done|]. split.
    + rewrite Ho, drop_0. assert (zip_with (λ p i, join_row op p (row i)) bs rws = (λ x, join_row op x.1 (row x.2)) <$> zip bs rws) as -> by (clear; revert rws; induction bs as [|x bs IH]; intros [|y rws]; [done..|]; cbn; f_equal; apply IH).
      rewrite Hz. unfold pairs_for. clear. induction (all_rows size) as [|i l IH]; [done|]. cbn [fmap list_fmap concat]. rewrite fmap_app, IH, <- list_fmap_compose. done.
    + apply Forall2_fmap_r, Forall_Forall2_diag, Forall_forall. intros idx Hi%all_rows_elem. rewrite joined_pairs by done. by apply fmap_Permutation, HW.
Qed.

Lemma partners_found (F : list row_ptr) idx : F ≡ₚ rows_with_key false (key_types_of op) (row_addrs_ t) (stored op <$> B) (key idx) → F = [] ↔ partners op B (key idx) = [].
Proof.
  intros HF. pose proof (rows_of_addresses hash32 hash64 op layout Hkeys Hne t mem (stored op <$> B) J (key idx)) as E. rewrite stored_partners in E.
  apply (f_equal length) in E. rewrite !length_fmap, <- (Permutation_length HF) in E. split; intros Hz; rewrite Hz in E; [by destruct (partners _ _ _)|by destruct F].
Qed.
(** SEMI and ANTI answer a chunk in one call; the keys in the table are not NULL. *)
Lemma Execute_filter ls : IsSemiOrAnti op = true → Forall (λ p : Keyed, no_null p.1 = true) B →
  ∃ vs n, run ls = Ok (vs, n, NEED_MORE_INPUT, ls) ∧ good_output (vs, n) ∧ output_rows [(vs, n)] = concat ((λ idx, joined op B (key idx) (row idx)) <$> all_rows size).
Proof.
  intros Hsemi Hnn. pose proof (jt_table _ _ _ _ _ _ _ J) as T. pose proof (tb_count _ _ _ _ T) as Hcount. rewrite length_fmap in Hcount. destruct Hgood as (Hpos & Hstd & _).
  destruct (probe_pairs hash32 hash64 op layout Hkeys Hne t mem (stored op <$> B) J keys size Hgood) as (h & sel & addrs & rws & F & Eh & En & Hsel & Ep & Hl & Hz & _ & HF).
  assert (rws = (pairs_for F (all_rows size)).*2) as Er by (rewrite <- Hz; by rewrite snd_zip by lia).
  assert (Forall (λ r, 0 ≤ r) rws) as Hrpos by (apply Forall_forall; intros r Hr; rewrite Er in Hr; apply pairs_for_rows in Hr as [Hr%all_rows_elem _]; lia).
  assert (Forall (λ r, 0 ≤ r) sel) as Hspos by (apply Forall_forall; intros r Hr; rewrite Hsel in Hr; apply list_elem_of_filter in Hr as [_ Hr%all_rows_elem]; lia).
  set (drop_null := null_aware_ op && bool_decide (0 < count_ t)). set (anti := bool_decide (join_type_ op = ANTI)).
  set (P := λ idx, let found := negb (bool_decide (partners op B (key idx) = [])) in if anti then negb found && (negb drop_null || no_null (key idx)) else found).
  set (out_sel := filter (λ idx, P idx = true) (all_rows size)).
  assert (emit_rows anti drop_null 0 (mark_matched rws (replicate size false)) (fold_left (λ m i, <[Z.to_nat i := false]> m) sel (replicate size true)) = out_sel) as Eout.
  { unfold out_sel. assert (all_rows size = (λ j, 0 + Z.of_nat j) <$> seq 0 size) as -> by done. apply emit_rows_ok.
    - apply mark_length.
    - clear. generalize (length_replicate size true). generalize (replicate size true) as l. induction sel as [|r sel IH]; intros l Hl; [done|]. cbn. apply IH. by rewrite length_insert.
    - intros j m k Hm Hk. rewrite mark_lookup in Hm by done. rewrite clear_lookup in Hk by done. destruct (replicate size false !! j) as [b0|] eqn:E0; [|done]. apply lookup_replicate in E0 as [-> Hj].
      rewrite (proj2 (lookup_replicate _ _ _ _) (conj eq_refl Hj)) in Hk. cbn in Hm, Hk. injection Hm as <-. injection Hk as <-. rewrite Z.add_0_l. unfold P.
      assert (0 ≤ Z.of_nat j < Z.of_nat size) as Hj' by lia. pose proof (partners_found _ _ (HF _ Hj')) as Hpf.
      assert (bool_decide (Z.of_nat j ∈ rws) = negb (bool_decide (partners op B (key (Z.of_nat j)) = []))) as ->.
      { rewrite <- bool_decide_not. apply bool_decide_ext. rewrite Er, pairs_for_rows, all_rows_elem. rewrite Hpf. tauto. }
      assert (bool_decide (Z.of_nat j ∈ sel) = no_null (key (Z.of_nat j))) as ->; [|by rewrite !negb_involutive].
      rewrite Hsel. destruct (no_null (key (Z.of_nat j))) eqn:Enn; [apply bool_decide_true, list_elem_of_filter; split; [done|by apply all_rows_elem]|apply bool_decide_false; intros [Hn _]%list_elem_of_filter; congruence]. }
  assert ((if bool_decide (0 < count_ t) then '(_, rows) ← Probe h keys size sel t mem; Ok (mark_matched rows (replicate size false)) else Ok (replicate size false)) = Ok (mark_matched rws (replicate size false))) as Em.
  { case_bool_decide as Hc; [by rewrite Ep|]. assert (B = []) as HBn by (destruct B; [done|]; simpl in Hcount; lia).
    unfold Probe in Ep. rewrite (bool_decide_true (count_ t = 0)) in Ep by (rewrite Hcount, HBn; done). rewrite orb_true_r in Ep. by injection Ep as <- <-. }
  assert (length out_sel ≤ size)%nat as Hol by (unfold out_sel; etransitivity; [apply length_filter|]; unfold all_rows; rewrite length_fmap, length_seq; done).
  destruct (chunk_Slice_ok input size out_sel Hinput) as (vs & Es & Hvr & Hvs); [|lia|].
  { apply Forall_forall. intros i [_ Hi%all_rows_elem]%list_elem_of_filter. done. }
  exists vs, (length out_sel). split; [|split; [split; [cbn [snd]; lia|done]|]].
  - unfold Join_Execute. rewrite Hg. unfold table_at. rewrite Ht, Hmem, Hsemi. cbn [mbind result_bind]. unfold Execute_semi. rewrite Eh. cbn [mbind result_bind]. rewrite En. cbn [mbind result_bind].
    fold drop_null anti. rewrite Em. cbn [mbind result_bind]. rewrite Eout, Es. done.
  - unfold output_rows. cbn [fmap list_fmap concat fst snd]. rewrite app_nil_r. assert (chunk_rows (length out_sel) vs = row <$> out_sel) as ->.
    { unfold chunk_rows. apply list_eq_same_length with (n := length out_sel); [by rewrite length_fmap|by rewrite length_fmap, length_seq|]. intros j x y Hj Hx Hy. apply list_lookup_fmap_Some in Hx as (j' & -> & Hj'). apply lookup_seq in Hj' as [-> _].
      apply list_lookup_fmap_Some in Hy as (i & -> & Hi). by apply Hvs. }
    unfold out_sel. assert (∀ idx, joined op B (key idx) (row idx) = if P idx then [row idx] else []) as HJ.
    { intros idx. unfold joined, P, anti. unfold IsSemiOrAnti in Hsemi. destruct (join_type_ op) eqn:Ety; try done; cbn [negb]; [rewrite (bool_decide_false (SEMI = ANTI)) by done; by destruct (bool_decide (partners op B (key idx) = []))|]. rewrite (bool_decide_true (ANTI = ANTI)) by done. rewrite negb_involutive.
      unfold drop_null. destruct (null_aware_ op); cbn [andb negb orb]; [|rewrite andb_true_r; done]. rewrite (not_in_nonnull op B (key idx) Hnn). destruct B as [|q B'].
      - rewrite (bool_decide_false (0 < count_ t)) by (rewrite Hcount; done). done.
      - rewrite (bool_decide_true (0 < count_ t)) by (rewrite Hcount; simpl; lia). rewrite (bool_decide_false (q :: B' = [])) by done. cbn [negb orb]. by rewrite andb_comm. }
    clear -HJ. induction (all_rows size) as [|i l IH]; [done|]. rewrite filter_cons. cbn [fmap list_fmap concat]. rewrite HJ. case_decide as HP; [rewrite HP; cbn; by rewrite <- IH|]. destruct (P i); [done|]. exact IH.
Qed.
End one_chunk.
End execute.

(** * Building the join's table

    The tasks of the build pipeline in any interleaving: each has a table of its own, the tables end up in one,
    and that holds the rows of all tasks without a NULL key. *)

(** ** The calls of the build pipeline *)

Inductive BuildOp :=
  | BStart (i : nat)
  | BSink (reserved : bool) (i : nat) (keys input : list Vector) (size : nat)
  | BCombine (i : nat).
(** [TryReserve] answers each [Sink]; these are the builds it never refuses. *)
Definition granted (o : BuildOp) : bool := match o with BSink reserved _ _ _ _ => reserved | _ => true end.
Definition all_granted (ops : list BuildOp) : bool := forallb granted ops.
Section build.
Context (hash32 hash64 : Z → Z) (op : PhysicalHashJoin) (layout : RowLayout).
Definition build_step (o : BuildOp) (b : JoinBuild) : result JoinBuild :=
  match o with
  | BStart i => GetLocalSinkState op i b
  | BSink reserved i keys input size => Join_Sink hash32 hash64 op reserved i keys input size b
  | BCombine i => Join_Combine i b
  end.
Fixpoint run_build (ops : list BuildOp) (b : JoinBuild) : result JoinBuild :=
  match ops with [] => Ok b | o :: ops => b ← build_step o b; run_build ops b end.

(** What the tasks saw. *)
Record Seen := mkSeen { combined : list Keyed; opened : gmap nat (list Keyed); started : list nat }.
Definition keyed_rows (keys input : list Vector) (size : nat) : list Keyed := (λ idx, (rows_of size keys idx, rows_of size input idx)) <$> all_rows size.
Definition seen_after (o : BuildOp) (s : Seen) : Seen :=
  let get i := default [] (opened s !! i) in
  match o with
  | BStart i => mkSeen (combined s) (<[i := []]> (opened s)) (i :: started s)
  | BSink _ i keys input size => mkSeen (combined s) (<[i := get i ++ keyed_rows keys input size]> (opened s)) (started s)
  | BCombine i => mkSeen (combined s ++ get i) (delete i (opened s)) (started s)
  end.
Definition good_build (keys input : list Vector) (size : nat) : Prop :=
  good_keys (key_types_of op) (key_count op) keys size ∧
  (∃ cols, chunk_Orrify (Z.of_nat size) input = Ok cols ∧ chunk_reads (build_types_ op) cols size (chunk_row cols)) ∧
  ∀ b, b ∈ keyed_rows keys input size → row_in_types layout (stored op b) ∧ row_size layout (stored op b) < 2 ^ 32.
Definition build_ok (s : Seen) (o : BuildOp) : Prop :=
  match o with
  | BStart i => i ∉ started s
  | BSink _ i keys input size => ∃ l, opened s !! i = Some l ∧ good_build keys input size ∧ Z.of_nat (length l + size) < 2 ^ 60
  | BCombine i => ∃ l, opened s !! i = Some l ∧ Z.of_nat (length (combined s) + length l) < 2 ^ 60
  end.
Fixpoint builds_ok (s : Seen) (ops : list BuildOp) : Prop :=
  match ops with [] => True | o :: ops => build_ok s o ∧ builds_ok (seen_after o s) ops end.
Definition seen_all (ops : list BuildOp) : Seen := fold_left (λ s o, seen_after o s) ops (mkSeen [] ∅ []).
End build.

(** ** Chunks of the build side *)

Definition nonnull (l : list Keyed) : list Keyed := filter (λ b, no_null b.1 = true) l.
Definition has_null (l : list Keyed) : bool := existsb (λ b : Keyed, negb (no_null b.1)) l.
Lemma nonnull_app l k : nonnull (l ++ k) = nonnull l ++ nonnull k.
Proof. apply filter_app. Qed.
Lemma has_null_app l k : has_null (l ++ k) = has_null l || has_null k.
Proof. apply existsb_app. Qed.
Lemma has_null_nonnull l : has_null l = false → nonnull l = l.
Proof. induction l as [|b l IH]; [done|]. unfold has_null, nonnull in *. cbn [existsb]. intros [Hb Hl]%orb_false_iff. rewrite filter_cons, IH by done. by rewrite decide_True by (by destruct (no_null b.1)). Qed.
Lemma has_null_length l : has_null l = bool_decide (length (nonnull l) < length l)%nat.
Proof.
  unfold has_null, nonnull. induction l as [|b l IH]; [done|]. cbn [existsb]. rewrite filter_cons. destruct (no_null b.1) eqn:E; cbn [negb orb].
  - rewrite decide_True by done. rewrite IH. apply bool_decide_ext. simpl. lia.
  - rewrite decide_False by done. symmetry. apply bool_decide_true. pose proof (length_filter (λ b : Keyed, no_null b.1 = true) l). simpl. lia.
Qed.
Lemma filter_image {A B} (f : A → B) (P : B → Prop) `{!∀ x, Decision (P x)} (Q : A → Prop) `{!∀ x, Decision (Q x)} (l : list A) : (∀ x, x ∈ l → P (f x) ↔ Q x) → filter P (f <$> l) = f <$> filter Q l.
Proof.
  induction l as [|x l IH]; intros Hpq; [done|]. rewrite fmap_cons, !filter_cons. rewrite IH by set_solver. pose proof (Hpq x ltac:(set_solver)) as Hx. destruct (decide (P (f x))), (decide (Q x)); tauto || done.
Qed.
Lemma chunk_reads_app types types' cols cols' size r r' : chunk_reads types cols size r → chunk_reads types' cols' size r' → chunk_reads (types ++ types') (cols ++ cols') size (λ idx, r idx ++ r' idx).
Proof.
  intros [Hl Hr] [Hl' Hr']. split; [rewrite !length_app; lia|]. intros idx Hi. destruct (Hr idx Hi) as [H1 H2], (Hr' idx Hi) as [H1' H2']. split; [rewrite !length_app; lia|].
  intros c ty col Hty Hcol. destruct (decide (c < length types)%nat) as [Hc|Hc].
  - rewrite lookup_app_l in Hty by done. rewrite lookup_app_l in Hcol by lia. destruct (H2 c ty col Hty Hcol) as (v & Hv & Hrd). exists v. by rewrite lookup_app_l by lia.
  - rewrite lookup_app_r in Hty by lia. rewrite lookup_app_r in Hcol by lia. rewrite Hl in Hcol. destruct (H2' _ ty col Hty Hcol) as (v & Hv & Hrd). exists v. rewrite lookup_app_r by lia. by rewrite H1.
Qed.
(** The live columns of a chunk. *)
Lemma live_columns_ok types live : ∀ input cols size, chunk_Orrify (Z.of_nat size) input = Ok cols → chunk_reads types cols size (chunk_row cols) → Forall (λ l, l < length types)%nat live →
  ∃ vs vcols, live_columns live input = Ok vs ∧ chunk_Orrify (Z.of_nat size) vs = Ok vcols ∧ chunk_reads ((λ c, default UNKNOWN (types !! c)) <$> live) vcols size (chunk_row vcols) ∧
    ∀ idx, chunk_row vcols idx = (λ c, default None (chunk_row cols idx !! c)) <$> live.
Proof.
  intros input cols size E [Hl Hr] HF. induction HF as [|c live Hc _ IH]; [exists [], []; split; [done|]; split; [done|]; split; [split; [done|]; intros idx _; by split|done]|].
  destruct IH as (vs & vcols & E1 & E2 & [H3 H3'] & H4). assert (length cols = length input) as Hli by (by eapply chunk_Orrify_length).
  destruct (lookup_lt_is_Some_2 input c) as [v Hv]; [lia|]. destruct (chunk_Orrify_lookup _ _ _ _ _ E Hv) as (col & Eo & Hcol). destruct (lookup_lt_is_Some_2 types c Hc) as [ty Hty].
  exists (v :: vs), (col :: vcols). cbn [live_columns]. rewrite Hv, E1. split; [done|]. split; [simpl; rewrite Eo; simpl; by rewrite E2|]. rewrite fmap_cons, Hty. split.
  - split; [simpl; by rewrite H3|]. intros idx Hi. destruct (H3' idx Hi) as [H5 H6]. split; [unfold chunk_row; rewrite length_fmap; simpl; by rewrite H3|]. intros [|k] ty' col' Hty' Hcol'; simpl in *; [|by apply H6].
    injection Hty' as <-. injection Hcol' as <-. destruct (Hr idx Hi) as [_ H7]. destruct (H7 c ty col Hty Hcol) as (w & Hw & Hrd). exists w. split; [|done]. unfold chunk_row in Hw. rewrite list_lookup_fmap, Hcol in Hw. done.
  - intros idx. rewrite fmap_cons, <- H4. unfold chunk_row at 1. rewrite fmap_cons. f_equal. unfold chunk_row. by rewrite list_lookup_fmap, Hcol.
Qed.

(** ** The invariant *)

Section invariant.
Context (hash32 hash64 : Z → Z) `{!StdHash hash32 hash64} (op : PhysicalHashJoin) (layout : RowLayout).
Context (Htypes : Forall (λ ty, scalar ty = true) (layout_types op)) (Hcols : Z.of_nat (length (layout_types op)) < 2 ^ 24) (Hne : key_types_of op ≠ []).
Context (Hlayout : Layout_Initialize (layout_types op) = Ok layout) (Hbound : Forall (λ l, l < length (build_types_ op))%nat (live_build_columns_ op)).
Abbreviation sys_ok := (system_ok hash32 hash64 (layout_types op) (key_count op) false layout).
Abbreviation call := (exec hash32 hash64 (layout_types op) (key_count op) false INITIAL_CAPACITY).

Lemma layout_keys : take (key_count op) (layout_types op) = key_types_of op.
Proof. unfold layout_types, key_count. by rewrite take_app_length. Qed.
Lemma keys_bound : (0 < key_count op ≤ length (layout_types op))%nat.
Proof. unfold layout_types, key_count. rewrite length_app. destruct (key_types_of op); [done|]. simpl. lia. Qed.
Lemma call_returns s m o : sys_ok s m → op_ok (layout_types op) (key_count op) false layout m o → ∃ s' created, call o s = Ok (s', created) ∧ sys_ok s' (model_after o created m).
Proof. apply call_ok; try done. apply keys_bound. Qed.

Record build_inv (b : JoinBuild) (s : Seen) (m : gmap nat (list Row * bool)) : Prop := {
  bi_system : sys_ok (jb_system b) m;
  bi_locals : ∀ i, jb_locals b !! i = (λ l, mkLocalSink i (has_null l)) <$> opened s !! i;
  bi_opened : ∀ i l, opened s !! i = Some l → i ∈ started s ∧ gs_ht (jb_global b) ≠ Some i ∧ ∃ stale, m !! i = Some (stored op <$> nonnull l, stale);
  bi_global : match gs_ht (jb_global b) with None => combined s = [] | Some g => g ∈ started s ∧ ∃ stale, m !! g = Some (stored op <$> nonnull (combined s), stale) end;
  bi_null : build_has_null_key_ (jb_global b) = has_null (combined s);
  bi_tables : ∀ i x, m !! i = Some x → is_Some (opened s !! i) ∨ gs_ht (jb_global b) = Some i;
  bi_keys : Forall (λ p : Keyed, length p.1 = key_count op) (combined s) ∧ ∀ i l, opened s !! i = Some l → Forall (λ p : Keyed, length p.1 = key_count op) l;
  bi_bound : Z.of_nat (length (combined s)) < 2 ^ 60 }.

Lemma no_build_inv : build_inv no_build (mkSeen [] ∅ []) ∅.
Proof. split; simpl; try done. split; [apply map_Forall2_empty|done]. Qed.
Lemma start_ok b s m i : build_inv b s m → build_ok op layout s (BStart i) → ∃ b' m', build_step hash32 hash64 op (BStart i) b = Ok b' ∧ build_inv b' (seen_after (BStart i) s) m'.
Proof.
  intros I Hi. cbn [build_ok] in Hi. assert (m !! i = None) as Hm.
  { destruct (m !! i) as [x|] eqn:E; [|done]. exfalso. apply Hi. destruct (bi_tables _ _ _ I i x E) as [[l Hl]|Hg]; [by apply (bi_opened _ _ _ I i l)|]. pose proof (bi_global _ _ _ I) as Hgl. rewrite Hg in Hgl. apply Hgl. }
  destruct (call_returns _ m (ONew i) (bi_system _ _ _ I) Hm) as (s' & created & E & Y). cbn [exec] in E. cbn [build_step]. unfold GetLocalSinkState, MakeJoinTable.
  destruct (new_PRLHashTable _ _ _ _) as [t|]; [|done]. cbn [mbind result_bind] in *. injection E as <- <-. eexists _, _. split; [done|]. cbn [model_after] in Y.
  assert (opened s !! i = None) as Ho by (destruct (opened s !! i) as [l|] eqn:El; [|done]; exfalso; apply Hi; by apply (bi_opened _ _ _ I i l)). destruct I as [_ H2 H3 H4 H5 H6 [H7 H7'] H8]. split; cbn [seen_after combined opened started jb_system jb_global jb_locals].
  - exact Y.
  - intros k. destruct (decide (k = i)) as [->|Hk]; [by rewrite !lookup_insert_eq|]. rewrite !lookup_insert_ne by done. apply H2.
  - intros k l Hk. destruct (decide (k = i)) as [->|Hki].
    + rewrite lookup_insert_eq in Hk. injection Hk as <-. split; [set_solver|]. split; [|rewrite lookup_insert_eq; by exists false]. intros Hg. rewrite Hg in H4. by apply Hi, H4.
    + rewrite lookup_insert_ne in Hk by done. destruct (H3 k l Hk) as (? & ? & ?). rewrite lookup_insert_ne by done. split; [set_solver|done].
  - destruct (gs_ht (jb_global b)) as [g|]; [|done]. destruct H4 as [Hg H4]. split; [set_solver|]. rewrite lookup_insert_ne by (intros ->; done). done.
  - done.
  - intros k x Hk. destruct (decide (k = i)) as [->|Hki]; [left; rewrite lookup_insert_eq; by eexists|]. rewrite lookup_insert_ne in Hk by done. rewrite lookup_insert_ne by done. by eapply H6.
  - split; [done|]. intros k l Hk. destruct (decide (k = i)) as [->|Hki]; [rewrite lookup_insert_eq in Hk; injection Hk as <-; constructor|]. rewrite lookup_insert_ne in Hk by done. by eapply H7'.
  - done.
Qed.
(** The chunk a task scatters. *)
Lemma sink_chunk keys input size : good_build op layout keys input size →
  ∃ live sel, live_columns (live_build_columns_ op) input = Ok live ∧ NonNullKeyRows keys size = Ok sel ∧ good_chunk (layout_types op) layout (keys ++ live) size ∧ selection size sel ∧
    rows_of size (keys ++ live) <$> sel = stored op <$> nonnull (keyed_rows keys input size) ∧ length sel = length (nonnull (keyed_rows keys input size)).
Proof.
  intros ((Hpos & Hstd & kcols & Ek & Hk) & (cols & Ec & Hr) & Hrow). destruct (live_columns_ok _ _ _ _ _ Ec Hr Hbound) as (live & lcols & El & Elc & Hlr & Hlrow).
  unfold key_count in Hk. rewrite take_ge in Hk by done. pose proof (NonNullKeyRows_exact _ _ _ _ Ek Hk) as En.
  assert (∀ idx, rows_of size (keys ++ live) idx = stored op (rows_of size keys idx, rows_of size input idx)) as Est.
  { intros idx. rewrite (rows_of_app _ _ _ _ _ _ Ek Elc). unfold stored, rows_of. rewrite Elc, Ec. cbn [fst snd]. by rewrite Hlrow. }
  exists live. eexists. split; [done|]. split; [exact En|]. split; [|split; [|split]].
  - split; [done|]. split; [done|]. exists (kcols ++ lcols). split; [by apply chunk_Orrify_app|]. split.
    + unfold layout_types. destruct (chunk_reads_app _ _ _ _ _ _ _ Hk Hlr) as [Hl Ha]. split; [done|]. intros idx Hi. unfold chunk_row. rewrite fmap_app. by apply Ha.
    + intros idx Hi. assert (chunk_row (kcols ++ lcols) idx = stored op (rows_of size keys idx, rows_of size input idx)) as ->.
      { rewrite <- Est. unfold rows_of. by rewrite (chunk_Orrify_app _ _ _ _ _ Ek Elc). }
      apply Hrow. unfold keyed_rows. apply list_elem_of_fmap. exists idx. split; [done|by apply all_rows_elem].
  - split; [|apply NoDup_filter, all_rows_NoDup]. apply Forall_forall. intros idx [_ Hi%all_rows_elem]%list_elem_of_filter. done.
  - unfold nonnull, keyed_rows. rewrite (filter_image _ _ (λ idx, no_null (rows_of size keys idx) = true)) by done. rewrite <- list_fmap_compose. apply list_fmap_ext. intros k idx _. apply Est.
  - unfold nonnull, keyed_rows. rewrite (filter_image _ _ (λ idx, no_null (rows_of size keys idx) = true)) by done. by rewrite length_fmap.
Qed.
Lemma keyed_lengths keys input size : good_build op layout keys input size → Forall (λ p : Keyed, length p.1 = key_count op) (keyed_rows keys input size) ∧ length (keyed_rows keys input size) = size.
Proof.
  intros ((_ & _ & kcols & Ek & [_ Hk]) & _). unfold keyed_rows, all_rows. split; [|by rewrite !length_fmap, length_seq]. apply Forall_fmap, Forall_forall. intros idx Hi%all_rows_elem. cbn.
  destruct (Hk idx Hi) as [Hl _]. unfold rows_of. rewrite Ek, Hl. unfold key_count. by rewrite take_ge.
Qed.
Lemma sink_ok b s m i keys input size : build_inv b s m → build_ok op layout s (BSink true i keys input size) →
  ∃ b' m', build_step hash32 hash64 op (BSink true i keys input size) b = Ok b' ∧ build_inv b' (seen_after (BSink true i keys input size) s) m'.
Proof.
  intros I (l & Hl & Hgood & Hb). destruct (bi_opened _ _ _ I i l Hl) as (Hst & Hgi & stale & Hm). destruct (sink_chunk keys input size Hgood) as (live & sel & El & En & Hch & Hsel & Hrows & Hlen).
  destruct (keyed_lengths _ _ _ Hgood) as [Hkl Hksz]. assert (length sel ≤ size)%nat as Hsl by (pose proof (length_filter (λ p : Keyed, no_null p.1 = true) (keyed_rows keys input size)) as Hlf; unfold nonnull in Hlen; lia).
  destruct (call_returns _ m (OAppendUnbuilt i (keys ++ live) size sel) (bi_system _ _ _ I)) as (s' & created & E & Y).
  { exists (stored op <$> nonnull l), stale. split; [done|]. split; [done|]. split; [done|]. rewrite length_fmap. pose proof (length_filter (λ p : Keyed, no_null p.1 = true) l). unfold nonnull. lia. }
  cbn [exec] in E. cbn [build_step]. unfold Join_Sink. rewrite (bi_locals _ _ _ I), Hl. cbn [fmap option_fmap option_map negb ls_ht ls_has_null_key]. rewrite El. cbn [mbind result_bind].
  destruct (table_at i (jb_system b)) as [t|]; [|done]. cbn [mbind result_bind] in E. destruct (key_hashes _ _ _ _ _ _) as [h|] eqn:Eh; [|done]. cbn [mbind result_bind] in *. rewrite En. cbn [mbind result_bind].
  destruct (AppendUnbuilt _ _ _ _ _ _) as [[t' mem']|]; [|done]. cbn [mbind result_bind] in *. injection E as <- <-. eexists _, _. split; [done|]. cbn [model_after] in Y. rewrite Hm in Y. cbn [default from_option id fst snd] in Y.
  rewrite Hrows, <- fmap_app, <- nonnull_app in Y. destruct I as [_ H2 H3 H4 H5 H6 [H7 H7'] H8]. split; cbn [seen_after combined opened started jb_system jb_global jb_locals]; rewrite ?Hl; cbn [default from_option id].
  - exact Y.
  - intros k. destruct (decide (k = i)) as [->|Hk]; [|rewrite !lookup_insert_ne by done; apply H2]. rewrite !lookup_insert_eq. cbn. do 2 f_equal. rewrite has_null_app, (has_null_length (keyed_rows _ _ _)), Hksz, Hlen. done.
  - intros k l' Hk. destruct (decide (k = i)) as [->|Hki].
    + rewrite lookup_insert_eq in Hk. injection Hk as <-. split; [done|]. split; [done|]. rewrite lookup_insert_eq. by eexists.
    + rewrite lookup_insert_ne in Hk by done. rewrite lookup_insert_ne by done. by apply H3.
  - destruct (gs_ht (jb_global b)) as [g|]; [|done]. rewrite lookup_insert_ne by (intros ->; done). done.
  - done.
  - intros k x Hk. destruct (decide (k = i)) as [->|Hki]; [left; rewrite lookup_insert_eq; by eexists|]. rewrite lookup_insert_ne in Hk by done. rewrite lookup_insert_ne by done. by eapply H6.
  - split; [done|]. intros k l' Hk. destruct (decide (k = i)) as [->|Hki]; [rewrite lookup_insert_eq in Hk; injection Hk as <-; apply Forall_app; split; [by eapply H7'|done]|]. rewrite lookup_insert_ne in Hk by done. by eapply H7'.
  - done.
Qed.
Lemma combine_ok b s m i : build_inv b s m → build_ok op layout s (BCombine i) → ∃ b' m', build_step hash32 hash64 op (BCombine i) b = Ok b' ∧ build_inv b' (seen_after (BCombine i) s) m'.
Proof.
  intros I (l & Hl & Hb). destruct (bi_opened _ _ _ I i l Hl) as (Hst & Hgi & stale & Hm). cbn [build_step]. unfold Join_Combine. rewrite (bi_locals _ _ _ I), Hl. cbn [fmap option_fmap option_map ls_ht ls_has_null_key].
  pose proof (bi_global _ _ _ I) as Hgl. destruct (gs_ht (jb_global b)) as [g|] eqn:Eg.
  - destruct Hgl as (Hgs & stale' & Hmg). assert (g ≠ i) as Hne' by congruence. destruct (call_returns _ m (OMerge g i) (bi_system _ _ _ I)) as (s' & created & E & Y).
    { split; [done|]. exists (stored op <$> nonnull (combined s)), stale', (stored op <$> nonnull l), stale. split; [done|]. split; [done|]. rewrite !length_fmap. unfold nonnull.
      pose proof (length_filter (λ p : Keyed, no_null p.1 = true) l). pose proof (length_filter (λ p : Keyed, no_null p.1 = true) (combined s)). lia. }
    cbn [exec] in E. destruct (table_at g (jb_system b)) as [t|]; [|done]. destruct (table_at i (jb_system b)) as [t1|]; [|done]. cbn [mbind result_bind] in *. destruct (Merge t t1) as [[t' o']|]; [|done]. cbn [mbind result_bind] in *.
    injection E as <- <-. eexists _, _. split; [done|]. cbn [model_after] in Y. rewrite Hm, Hmg in Y. cbn [default from_option id fst snd] in Y. rewrite <- fmap_app, <- nonnull_app in Y.
    destruct I as [_ H2 H3 H4 H5 H6 [H7 H7'] H8]. split; cbn [seen_after combined opened started jb_system jb_global jb_locals gs_ht build_has_null_key_]; rewrite ?Hl; cbn [default from_option id].
    + exact Y.
    + intros k. destruct (decide (k = i)) as [->|Hk]; [by rewrite !lookup_delete_eq|]. rewrite !lookup_delete_ne by done. apply H2.
    + intros k l' Hk. apply lookup_delete_Some in Hk as [Hki Hk]. destruct (H3 k l' Hk) as (? & Hkg & stk & Hmk). split; [done|]. split; [congruence|]. exists stk. rewrite lookup_insert_ne by congruence. by rewrite lookup_delete_ne by done.
    + split; [done|]. rewrite lookup_insert_eq. by eexists.
    + by rewrite has_null_app, H5.
    + intros k x Hk. destruct (decide (k = g)) as [->|Hkg]; [by right|]. rewrite lookup_insert_ne in Hk by done. apply lookup_delete_Some in Hk as [Hki Hk]. destruct (H6 k x Hk) as [?|?]; [|congruence]. left. by rewrite lookup_delete_ne by done.
    + split; [apply Forall_app; split; [done|by eapply H7']|]. intros k l' [_ Hk]%lookup_delete_Some. by eapply H7'.
    + by rewrite length_app.
  - eexists _, m. split; [done|]. destruct I as [H1 H2 H3 H4 H5 H6 [H7 H7'] H8]. rewrite Eg in H4. split; cbn [seen_after combined opened started jb_system jb_global jb_locals gs_ht build_has_null_key_]; rewrite ?Hl, ?Hgl; cbn [default from_option id app].
    + done.
    + intros k. destruct (decide (k = i)) as [->|Hk]; [by rewrite !lookup_delete_eq|]. rewrite !lookup_delete_ne by done. apply H2.
    + intros k l' [Hki Hk]%lookup_delete_Some. destruct (H3 k l' Hk) as (? & _ & ?). split; [done|]. split; [congruence|done].
    + split; [done|]. by eexists.
    + rewrite H5, Hgl. done.
    + intros k x Hk. destruct (decide (k = i)) as [->|Hki]; [by right|]. destruct (H6 k x Hk) as [?|?]; [|congruence]. left. by rewrite lookup_delete_ne by done.
    + split; [by eapply H7'|]. intros k l' [_ Hk]%lookup_delete_Some. by eapply H7'.
    + rewrite Hgl in Hb. done.
Qed.
(** Any sequence of calls returns, unless the budget refuses a reservation: then the first one refused throws. *)
Lemma build_step_ok o b s m : build_inv b s m → build_ok op layout s o → granted o = true → ∃ b' m', build_step hash32 hash64 op o b = Ok b' ∧ build_inv b' (seen_after o s) m'.
Proof. intros I Ho Hg. destruct o as [|[]|]; [by eapply start_ok|by eapply sink_ok|done|by eapply combine_ok]. Qed.
Lemma build_step_refused o b s m : build_inv b s m → build_ok op layout s o → granted o = false → build_step hash32 hash64 op o b = Err memory_limit.
Proof. intros I Ho Hg. destruct o as [|[] i|]; try done. destruct Ho as (l & Hl & _). cbn [build_step]. unfold Join_Sink. by rewrite (bi_locals _ _ _ I), Hl. Qed.
Lemma run_build_ok ops : ∀ b s m, build_inv b s m → builds_ok op layout s ops → all_granted ops = true → ∃ b' m', run_build hash32 hash64 op ops b = Ok b' ∧ build_inv b' (fold_left (λ s o, seen_after o s) ops s) m'.
Proof.
  induction ops as [|o ops IH]; intros b s m I Hok Hg; [by exists b, m|]. destruct Hok as [Ho Hok]. apply andb_true_iff in Hg as [Hg Hgs]. cbn [run_build fold_left].
  destruct (build_step_ok o b s m I Ho Hg) as (b' & m' & E & I'). rewrite E. cbn [mbind result_bind]. by eapply IH.
Qed.
Lemma run_build_refused ops : ∀ b s m, build_inv b s m → builds_ok op layout s ops → all_granted ops = false → run_build hash32 hash64 op ops b = Err memory_limit.
Proof.
  induction ops as [|o ops IH]; intros b s m I Hok Hg; [done|]. destruct Hok as [Ho Hok]. cbn [run_build]. unfold all_granted in Hg. cbn [forallb] in Hg. destruct (granted o) eqn:Eg.
  - destruct (build_step_ok o b s m I Ho Eg) as (b' & m' & E & I'). rewrite E. cbn [mbind result_bind]. by eapply IH.
  - by rewrite (build_step_refused o b s m I Ho Eg).
Qed.
End invariant.
