(* ===== verification/JoinTheorems.v ===== *)
(** * The hash join is the join of its inputs *)

From S2P Require Import Prelude TablePage TableHeap BTreePage BPlusTree GenericKey StringHeap ValidityMask SortKey VectorOps SortKeyOrder StreamOperator RowFormat RowScatter PRLHashTable HashInvariant HashAppend HashGroups VectorHash HashSystem HashTheorems HashJoin JoinProbe JoinExecute.

(** What the planner guarantees of a join: one type per pair of keys, that the rows can hold, and live columns in order. *)
Record join_config (op : PhysicalHashJoin) (layout : RowLayout) : Prop := {
  jc_types : Forall (λ ty, scalar ty = true) (layout_types op);
  jc_width : Z.of_nat (length (layout_types op)) < 2 ^ 24;
  jc_keys : key_types_of op ≠ [];
  jc_layout : Layout_Initialize (layout_types op) = Ok layout;
  jc_live : ascending 0 (live_build_columns_ op);
  jc_bound : Forall (λ l, l < length (build_types_ op))%nat (live_build_columns_ op);
  jc_kind : join_type_ op = INNER ∨ join_type_ op = LEFT ∨ join_type_ op = SEMI ∨ join_type_ op = ANTI }.

Lemma Forall2_ext_rows {A} (P Q : Z → A → Prop) size l : (∀ idx x, idx ∈ all_rows size → P idx x → Q idx x) → Forall2 P (all_rows size) l → Forall2 Q (all_rows size) l.
Proof. generalize (all_rows size). intros idxs HPQ HF. induction HF; constructor; [apply HPQ; [set_solver|done]|]. apply IHHF. intros; apply HPQ; [set_solver|done]. Qed.

Section join_correct.
Context (hash32 hash64 : Z → Z) `{!StdHash hash32 hash64} (junk : byte) (junk_cell : cell) (op : PhysicalHashJoin) (layout : RowLayout) (JC : join_config op layout).

Lemma not_in_null B key : has_null B = true → not_in op B key = false.
Proof.
  unfold has_null, not_in. induction B as [|b B IH]; [done|]. cbn [existsb forallb]. intros [Hb|Hb]%orb_true_iff; [|by rewrite IH, andb_false_r].
  unfold sql_eq. destruct (no_null b.1); [done|]. by rewrite andb_false_r.
Qed.
Lemma joined_no_partner B key row : join_type_ op = INNER ∨ join_type_ op = SEMI → partners op B key = [] → joined op B key row = [].
Proof. intros Hty E. unfold joined. rewrite E. by destruct Hty as [-> | ->]. Qed.
(** Building on what was null-free, as far as the operator's kind can tell. *)
Lemma joined_nonnull B key row : length key = key_count op → Forall (λ b : Keyed, length b.1 = key_count op) B → (join_type_ op = ANTI → null_aware_ op = true → has_null B = false) →
  joined op (nonnull B) key row = joined op B key row.
Proof.
  intros Hk HB Hn. assert (partners op (nonnull B) key = partners op B key) as E by (by apply partners_nonnull). unfold joined. rewrite E. destruct (join_type_ op); try done. destruct (null_aware_ op); [|done]. by rewrite has_null_nonnull by (by apply Hn).
Qed.
Lemma nonnull_Forall (P : Keyed → Prop) l : Forall P l → Forall P (nonnull l).
Proof. intros HF. unfold nonnull. apply Forall_forall. intros b [_ Hb]%list_elem_of_filter. by eapply Forall_forall in HF. Qed.

Lemma of_good_table mem t rows stale : good_table hash32 hash64 (layout_types op) (key_count op) false layout mem t (rows, stale) → stale = false ∨ rows = [] → join_table hash32 hash64 op layout t mem rows.
Proof.
  intros (T & Hs & O) Hf. simpl in T, Hs. pose proof (of_system_keys _ _ _ _ _ O) as Ek. destruct O as (_ & _ & E3 & E4). rewrite (layout_keys op) in Ek, T. split; try done. by rewrite Hs.
Qed.
Lemma Join_Finalize_ok b s m : build_inv hash32 hash64 op layout b s m → opened s = ∅ →
  ∃ r b', Join_Finalize op b = Ok (r, b') ∧
    match r with
    | NO_OUTPUT_POSSIBLE => ∀ key row, length key = key_count op → joined op (combined s) key row = []
    | READY => (join_type_ op = ANTI → null_aware_ op = true → has_null (combined s) = false) ∧
        ∃ g t, gs_ht (jb_global b') = Some g ∧ tables (jb_system b') !! g = Some t ∧ join_table hash32 hash64 op layout t (memory (jb_system b')) (stored op <$> nonnull (combined s))
    end.
Proof.
  intros I Ho. destruct JC as [H1 H2 H3 H4 H5 H6 H7].
  assert (∃ g b1 m1 stale, finalize_table op b = Ok (g, b1) ∧ gs_ht (jb_global b1) = Some g ∧ build_has_null_key_ (jb_global b1) = has_null (combined s) ∧
    system_ok hash32 hash64 (layout_types op) (key_count op) false layout (jb_system b1) m1 ∧ m1 !! g = Some (stored op <$> nonnull (combined s), stale)) as (g & b1 & m1 & stale & E & Hg & Hnull & Y & Hm).
  { unfold finalize_table. pose proof (bi_global _ _ _ _ _ _ _ I) as Hgl. destruct (gs_ht (jb_global b)) as [g|] eqn:Eg.
    - destruct Hgl as (_ & stale & Hm). exists g, b, m, stale. split; [done|]. split; [done|]. split; [apply I|]. split; [apply I|done].
    - assert (m !! 0%nat = None) as Hm0. { destruct (m !! 0%nat) as [x|] eqn:Ex; [|done]. destruct (bi_tables _ _ _ _ _ _ _ I _ _ Ex) as [[l Hl]|Hg]; [by rewrite Ho in Hl|congruence]. }
      destruct (call_returns hash32 hash64 op layout H1 H2 H3 H4 _ m (ONew 0) (bi_system _ _ _ _ _ _ _ I) Hm0) as (s' & created & E & Y). cbn [exec] in E. unfold MakeJoinTable.
      destruct (new_PRLHashTable _ _ _ _) as [t|]; [|done]. cbn [mbind result_bind] in *. injection E as <- <-. cbn [model_after] in Y. eexists 0%nat, _, _, false. split; [done|]. split; [done|]. split; [apply I|]. split; [exact Y|]. rewrite Hgl. by rewrite lookup_insert_eq. }
  destruct (system_table _ _ _ _ _ _ _ _ _ _ Y Hm) as (t & Ht & Gt). pose proof Gt as (T & Hst & O). simpl in T, Hst. pose proof (tb_count _ _ _ _ T) as Hc. rewrite length_fmap in Hc. pose proof (proj1 (bi_keys _ _ _ _ _ _ _ I)) as Hkl.
  unfold Join_Finalize. rewrite E. cbn [mbind result_bind]. rewrite Hnull. destruct (bool_decide (join_type_ op = ANTI) && null_aware_ op && has_null (combined s)) eqn:En.
  { apply andb_true_iff in En as [[En1%bool_decide_eq_true En2]%andb_true_iff En3]. eexists _, _. split; [done|]. intros key row Hk. unfold joined. rewrite En1, En2. by rewrite not_in_null. }
  assert (join_type_ op = ANTI → null_aware_ op = true → has_null (combined s) = false) as Hn by (intros Ea Eb; rewrite Ea, Eb, bool_decide_true in En by done; done).
  clear En. unfold table_at. rewrite Ht. cbn [mbind result_bind]. destruct (bool_decide (count_ t = 0)) eqn:Hz; [apply bool_decide_eq_true in Hz|apply bool_decide_eq_false in Hz].
  - assert (nonnull (combined s) = []) as Hnil by (apply nil_length_inv; lia). destruct (bool_decide (join_type_ op = INNER) || bool_decide (join_type_ op = SEMI)) eqn:Ek; eexists _, _; (split; [done|]).
    + intros key row Hk. rewrite <- (joined_nonnull (combined s) key row Hk Hkl Hn), Hnil. apply joined_no_partner; [|done]. apply orb_true_iff in Ek as [?%bool_decide_eq_true|?%bool_decide_eq_true]; tauto.
    + split; [done|]. exists g, t. split; [done|]. split; [done|]. eapply of_good_table; [exact Gt|]. right. by rewrite Hnil.
  - destruct (call_returns hash32 hash64 op layout H1 H2 H3 H4 _ m1 (OBuild g) Y) as (s' & created & Eb & Y').
    { exists (stored op <$> nonnull (combined s)), stale. split; [done|]. rewrite length_fmap. pose proof (bi_bound _ _ _ _ _ _ _ I) as Hbd. pose proof (length_filter (λ p : Keyed, no_null p.1 = true) (combined s)). unfold nonnull. lia. }
    cbn [exec] in Eb. unfold table_at in Eb. rewrite Ht in Eb. cbn [mbind result_bind] in Eb. destruct (BuildDirectory t) as [t'|]; [|done]. cbn [mbind result_bind] in *. injection Eb as <- <-. eexists _, _. split; [done|]. split; [done|].
    cbn [model_after] in Y'. rewrite Hm in Y'. cbn [default from_option id fst] in Y'.     destruct (system_table _ _ _ _ _ _ _ _ _ (stored op <$> nonnull (combined s), false) Y' ltac:(by rewrite lookup_insert_eq)) as (t2 & Ht2 & Gt2). exists g, t2. split; [done|]. split; [done|]. eapply of_good_table; [exact Gt2|by left].
Qed.
Lemma key_lengths keys size idx : good_keys (key_types_of op) (key_count op) keys size → idx ∈ all_rows size → length (rows_of size keys idx) = key_count op.
Proof. intros (_ & _ & cols & Ec & [_ Hr]) Hi%all_rows_elem. destruct (Hr idx Hi) as [Hl _]. unfold rows_of. rewrite Ec, Hl. unfold key_count. by rewrite take_ge. Qed.

(** Building in any order, and what a probe then answers, chunk by chunk. *)
Lemma join_phases ops : builds_ok op layout (mkSeen [] ∅ []) ops → opened (seen_all ops) = ∅ → all_granted ops = true →
  ∃ b r b', run_build hash32 hash64 op ops no_build = Ok b ∧ Join_Finalize op b = Ok (r, b') ∧
    let B := combined (seen_all ops) in
    match r with
    | NO_OUTPUT_POSSIBLE => ∀ key row, length key = key_count op → joined op B key row = []
    | READY => ∀ keys input size ls, good_keys (key_types_of op) (key_count op) keys size → readable_chunk input size → have_matches_ ls = false →
        ∃ fuel outs ls' parts, drain (Join_Execute hash32 hash64 junk junk_cell op b' keys input size) fuel ls = Ok (outs, NEED_MORE_INPUT, ls') ∧ have_matches_ ls' = false ∧ Forall good_output outs ∧
          output_rows outs = concat parts ∧ Forall2 (λ idx part, part ≡ₚ joined op B (rows_of size keys idx) (rows_of size input idx)) (all_rows size) parts
    end.
Proof.
  intros Hops Hopen Hgrant. pose proof JC as [H1 H2 H3 H4 H5 H6 H7].
  destruct (run_build_ok hash32 hash64 op layout H1 H2 H3 H4 H6 ops no_build _ ∅ (no_build_inv hash32 hash64 op layout) Hops Hgrant) as (b & m & E & I). fold (seen_all ops) in I. set (B := combined (seen_all ops)) in *.
  destruct (Join_Finalize_ok b _ m I Hopen) as (r & b' & Ef & Hr). exists b, r, b'. split; [done|]. split; [done|]. destruct r; cbn zeta; [|done].
  intros keys input size ls Hk Hin Hls. destruct Hr as (Hn & g & t & Hg & Ht & J). destruct (Layout_Initialize_ok _ H1) as (l & El & L & Elt). rewrite H4 in El. injection El as <-. pose proof (proj1 (bi_keys _ _ _ _ _ _ _ I)) as Hkl. fold B in Hkl.
  pose proof (nonnull_Forall _ _ Hkl) as Hkl'. assert (Forall (λ ty, scalar ty = true) (key_types_of op)) as Hsc by (rewrite <- (layout_keys op); by apply Forall_take).
  assert (∀ idx, idx ∈ all_rows size → joined op (nonnull B) (rows_of size keys idx) (rows_of size input idx) = joined op B (rows_of size keys idx) (rows_of size input idx)) as Ej
    by (intros idx Hi; apply joined_nonnull; [by eapply key_lengths|done|done]).
  destruct (IsSemiOrAnti op) eqn:Es.
  - destruct (Execute_filter hash32 hash64 junk junk_cell op layout Hsc H3 t _ (nonnull B) J Hkl' b' g Hg Ht eq_refl keys input size Hk Hin ls Es) as (vs & n & Er & Hgo & Ho).
    { apply Forall_forall. by intros p [Hp _]%list_elem_of_filter. }
    exists 1%nat, [(vs, n)], ls, ((λ idx, joined op (nonnull B) (rows_of size keys idx) (rows_of size input idx)) <$> all_rows size). split; [by apply drain_step with (fuel := 0%nat)|]. split; [done|]. split; [by constructor|]. split; [done|].
    apply Forall2_fmap_r, Forall_Forall2_diag, Forall_forall. intros idx Hi. cbn. by rewrite (Ej idx Hi).
  - assert (join_type_ op = INNER ∨ join_type_ op = LEFT) as Hty by (unfold IsSemiOrAnti in Es; destruct H7 as [?|[?|[H7|H7]]]; [tauto..| |]; rewrite H7 in Es; done).
    destruct (Execute_pairs hash32 hash64 junk junk_cell op layout L Hsc H3 Elt H5 H6 t _ (nonnull B) J Hkl' b' g Hg Ht eq_refl keys input size Hk Hin ls Hty Hls) as (fuel & outs & ls' & parts & Ed & Hls' & Hgo & Ho & HF).
    exists fuel, outs, ls', parts. split; [done|]. split; [done|]. split; [done|]. split; [done|]. eapply Forall2_ext_rows; [|exact HF]. intros idx part Hi Hp. by rewrite <- Ej.
Qed.

(** C16: The hash join computes the INNER, LEFT, SEMI or ANTI join of its inputs.  Whatever tasks the build
    pipeline runs, with whatever chunks and in whatever order they start, sink and combine: if the memory budget
    refuses a reservation the build throws the memory-limit exception, and otherwise every call returns and, when
    all tasks have combined, [Finalize] returns.  If it answers NO_OUTPUT_POSSIBLE no probe row has an output row.
    Otherwise a probe chunk is answered by finitely many calls of [Execute], after which the operator takes the
    next chunk, and the output is, probe row by probe row, what SQL says: for INNER the row with each build row of
    an equal key, for LEFT also the rows without one, padded with NULLs, for SEMI and ANTI the rows with and
    without a partner, and for NOT IN (a null-aware ANTI) the rows whose key is known to differ from every build
    key. *)
Theorem hash_join_correct ops keys input size ls :
  builds_ok op layout (mkSeen [] ∅ []) ops → opened (seen_all ops) = ∅ → good_keys (key_types_of op) (key_count op) keys size → readable_chunk input size → have_matches_ ls = false →
  if all_granted ops then
    ∃ b r b', run_build hash32 hash64 op ops no_build = Ok b ∧ Join_Finalize op b = Ok (r, b') ∧
      let B := combined (seen_all ops) in
      match r with
      | NO_OUTPUT_POSSIBLE => ∀ idx, idx ∈ all_rows size → joined op B (rows_of size keys idx) (rows_of size input idx) = []
      | READY => ∃ fuel outs ls' parts, drain (Join_Execute hash32 hash64 junk junk_cell op b' keys input size) fuel ls = Ok (outs, NEED_MORE_INPUT, ls') ∧ have_matches_ ls' = false ∧
          output_rows outs = concat parts ∧ Forall2 (λ idx part, part ≡ₚ joined op B (rows_of size keys idx) (rows_of size input idx)) (all_rows size) parts
      end
  else run_build hash32 hash64 op ops no_build = Err memory_limit.
Proof.
  intros Hops Hopen Hk Hin Hls. destruct (all_granted ops) eqn:Hg; [|pose proof JC as [H1 H2 H3 H4 _ H6 _]; by eapply (run_build_refused hash32 hash64 op layout H1 H2 H3 H4 H6 ops no_build _ ∅ (no_build_inv hash32 hash64 op layout))].
  destruct (join_phases ops Hops Hopen Hg) as (b & r & b' & E & Ef & Hr). exists b, r, b'. split; [done|]. split; [done|]. destruct r; cbn zeta in *.
  - destruct (Hr keys input size ls Hk Hin Hls) as (fuel & outs & ls' & parts & Ed & Hls' & _ & Ho & HF). by exists fuel, outs, ls', parts.
  - intros idx Hi. apply Hr. by eapply key_lengths.
Qed.
End join_correct.

(** ** A join of two tables *)

Module JoinDemo.
(** LEFT JOIN on an INTEGER key, with the key column of the build side pruned. *)
Definition op : PhysicalHashJoin := mkJoin [INTEGER] [INTEGER; STRING] LEFT false [1%nat].
Definition layout (op : PhysicalHashJoin) : RowLayout := match Layout_Initialize (layout_types op) with Ok l => l | Err _ => mkLayout [] [] 0 0 false end.
Definition calls (reserved : bool) : list BuildOp := [BStart 3; BStart 5; BSink reserved 5 (take 1 Demo.chunk) Demo.chunk 3; BCombine 3; BCombine 5].
Definition ops : list BuildOp := calls true.
Definition refused : list BuildOp := calls false.
Definition probe : list Vector := [FLAT_VECTOR [CNum 7; CNum 8; CNum 0] (Some [3])].

Lemma config : join_config op (layout op).
Proof.
  split; [|done|done|done|by split; [lia|]| |by right; left].
  - apply Forall_cons. split; [done|]. apply Forall_cons. done.
  - apply Forall_cons. split; [simpl; lia|done].
Qed.
Lemma sunk : good_build op (layout op) (take 1 Demo.chunk) Demo.chunk 3.
Proof.
  split; [|split].
  - split; [lia|]. split; [done|]. eexists. split; [reflexivity|]. split; [done|]. intros idx Hi. assert (idx = 0 ∨ idx = 1 ∨ idx = 2) as [->|[->| ->]] by lia;
      (split; [done|]; intros [|c] ty col Hty Hcol; simplify_eq/=; eexists; (split; [reflexivity|]); eexists; (split; [reflexivity|]); (split; [reflexivity|]); (split; [done|]); by intros ? [= <-]).
  - destruct Demo.chunk_good as (_ & _ & cols & Ec & Hr & _). exists cols. done.
  - intros b (idx & -> & Hi%all_rows_elem)%list_elem_of_fmap. assert (idx = 0 ∨ idx = 1 ∨ idx = 2) as [->|[->| ->]] by lia; (split; [|vm_compute; done]); intros [|[|c]] ty x Hty Hx; vm_compute in Hty, Hx; simplify_eq; vm_compute; done.
Qed.
Lemma probe_good : good_keys (key_types_of op) (key_count op) probe 3.
Proof.
  split; [lia|]. split; [done|]. eexists. split; [reflexivity|]. split; [done|]. intros idx Hi. assert (idx = 0 ∨ idx = 1 ∨ idx = 2) as [->|[->| ->]] by lia;
    (split; [done|]; intros [|c] ty col Hty Hcol; simplify_eq/=; eexists; (split; [reflexivity|]); eexists; (split; [reflexivity|]); (split; [reflexivity|]); (split; [done|]); by intros ? [= <-]).
Qed.
Lemma probe_readable : readable_chunk probe 3.
Proof. destruct probe_good as (_ & _ & cols & Ec & Hr). by eapply chunk_reads_readable. Qed.
Lemma allowed reserved : builds_ok op (layout op) (mkSeen [] ∅ []) (calls reserved).
Proof.
  split; [simpl; set_solver|]. split; [simpl; set_solver|]. split; [exists []; split; [done|]; split; [apply sunk|done]|]. split; [exists []; done|]. split; [eexists; split; [vm_compute; reflexivity|done]|done].
Qed.
Abbreviation wanted := ([[Some (CNum 7); None; Some (CStr [Byte.x61; Byte.x62])]; [Some (CNum 7); None; Some (CStr [Byte.x63])]; [Some (CNum 8); None; None]; [None; None; None]]).
Lemma output parts :
  Forall2 (λ idx part, part ≡ₚ joined op (combined (seen_all ops)) (rows_of 3 probe idx) (rows_of 3 probe idx)) (all_rows 3) parts → concat parts ≡ₚ wanted.
Proof.
  intros HF. change (all_rows 3) with [0; 1; 2] in HF. inversion HF as [|? p0 ? ? H0 HF1]; subst. inversion HF1 as [|? p1 ? ? H1 HF2]; subst. inversion HF2 as [|? p2 ? ? H2 HF3]; subst. inversion HF3; subst.
  vm_compute in H0, H1, H2. cbn [concat]. rewrite H0, H1, H2. done.
Qed.
Lemma some_output : ¬ ∀ idx, idx ∈ all_rows 3 → joined op (combined (seen_all ops)) (rows_of 3 probe idx) (rows_of 3 probe idx) = [].
Proof. intros Hr. specialize (Hr 0 ltac:(by apply all_rows_elem)). vm_compute in Hr. discriminate Hr. Qed.
End JoinDemo.

(** The row 7 joins two build rows, 8 and NULL none; a build whose chunk does not get its memory throws. *)
Lemma hash_join_correct_witness :
  run_build (λ _, 0) (λ _, 0) JoinDemo.op JoinDemo.refused no_build = Err memory_limit ∧
  ∃ b b' fuel outs ls', run_build (λ _, 0) (λ _, 0) JoinDemo.op JoinDemo.ops no_build = Ok b ∧ Join_Finalize JoinDemo.op b = Ok (READY, b') ∧
    drain (Join_Execute (λ _, 0) (λ _, 0) Byte.x00 (CNum 0) JoinDemo.op b' JoinDemo.probe JoinDemo.probe 3) fuel no_matches = Ok (outs, NEED_MORE_INPUT, ls') ∧
    output_rows outs ≡ₚ JoinDemo.wanted.
Proof.
  split; [exact (hash_join_correct (λ _, 0) (λ _, 0) Byte.x00 (CNum 0) JoinDemo.op (JoinDemo.layout JoinDemo.op) JoinDemo.config JoinDemo.refused JoinDemo.probe JoinDemo.probe 3 no_matches
    (JoinDemo.allowed false) ltac:(vm_compute; reflexivity) JoinDemo.probe_good JoinDemo.probe_readable eq_refl)|].
  destruct (hash_join_correct (λ _, 0) (λ _, 0) Byte.x00 (CNum 0) JoinDemo.op (JoinDemo.layout JoinDemo.op) JoinDemo.config JoinDemo.ops JoinDemo.probe JoinDemo.probe 3 no_matches
    (JoinDemo.allowed true) ltac:(vm_compute; reflexivity) JoinDemo.probe_good JoinDemo.probe_readable eq_refl) as (b & r & b' & E & Ef & Hr).
  destruct r; [|destruct (JoinDemo.some_output Hr)]. destruct Hr as (fuel & outs & ls' & parts & Ed & _ & Ho & HF). exists b, b', fuel, outs, ls'.
  split; [exact E|]. split; [exact Ef|]. split; [exact Ed|]. rewrite Ho. exact (JoinDemo.output parts HF).
Defined.
