(* ===== verification/PipelineExecutor.v ===== *)
(** * The push loop of a pipeline ([parallel/pipeline_executor.cpp])

    A task pulls chunks from the source and pushes each through the operators into the sink.  There is one chunk
    per boundary between operators, and a stack of the operators that still owe output for the chunk before
    them; the operator on the top goes first.  The chunks of a pipeline are of any type with a size. *)

From S2P Require Import Prelude TablePage TableHeap Watermark Transaction StreamOperator.

Section pipeline.
Context {C : Type} (csize : C → nat) (empty : C).

(** An operator with its local state. *)
Record StreamOp := mkOp { so_state : Type; so_exec : C → so_state → result (C * OperatorResultType * so_state) }.
Record OpInst := mkInst { inst_op : StreamOp; inst_state : so_state inst_op }.
Definition op_Execute (c : C) (o : OpInst) : result (C * OperatorResultType * OpInst) :=
  '(out, res, s) ← so_exec (inst_op o) c (inst_state o); Ok (out, res, mkInst (inst_op o) s).

Context {K R : Type} (sink : C → K → result (SinkResultType * K)) (combine : K → result K) (get_data : R → result (C * SourceResultType * R)).
(** The [batch_idx_] of the source's local state, and of the sink's. *)
Context (source_batch : R → Z) (set_batch : Z → K → K).
(** [stop_] or an error of another task, and the cancellation of the transaction, as the loop finds them. *)
Inductive Poll := GO | STOP | CANCELLED.
Context (dead_ : bool) (poll : nat → Poll).

(** [in_process_operators_] has its back first. *)
Record PipelineExecutor := mkExecutor {
  local_source_state_ : R;
  intermediate_states_ : list OpInst;
  local_sink_state_ : K;
  intermediate_chunks_ : list C;
  final_chunk_ : C;
  in_process_operators_ : list nat;
  exhausted_source_ : bool;
  finished_ : bool;
  finalized_ : bool }.
Definition new_PipelineExecutor (source : R) (ops : list OpInst) (k : K) : PipelineExecutor :=
  mkExecutor source ops k (replicate (Nat.max 1 (length ops)) empty) empty [] false false false.
Definition with_stack (st : list nat) (s : PipelineExecutor) : PipelineExecutor :=
  mkExecutor (local_source_state_ s) (intermediate_states_ s) (local_sink_state_ s) (intermediate_chunks_ s) (final_chunk_ s) st (exhausted_source_ s) (finished_ s) (finalized_ s).
Definition with_final (c : C) (s : PipelineExecutor) : PipelineExecutor :=
  mkExecutor (local_source_state_ s) (intermediate_states_ s) (local_sink_state_ s) (intermediate_chunks_ s) c (in_process_operators_ s) (exhausted_source_ s) (finished_ s) (finalized_ s).
Definition with_chunk (i : nat) (c : C) (s : PipelineExecutor) : PipelineExecutor :=
  mkExecutor (local_source_state_ s) (intermediate_states_ s) (local_sink_state_ s) (<[i := c]> (intermediate_chunks_ s)) (final_chunk_ s) (in_process_operators_ s) (exhausted_source_ s) (finished_ s) (finalized_ s).
Definition with_op (i : nat) (o : OpInst) (s : PipelineExecutor) : PipelineExecutor :=
  mkExecutor (local_source_state_ s) (<[i := o]> (intermediate_states_ s)) (local_sink_state_ s) (intermediate_chunks_ s) (final_chunk_ s) (in_process_operators_ s) (exhausted_source_ s) (finished_ s) (finalized_ s).
Definition with_sink (k : K) (s : PipelineExecutor) : PipelineExecutor :=
  mkExecutor (local_source_state_ s) (intermediate_states_ s) k (intermediate_chunks_ s) (final_chunk_ s) (in_process_operators_ s) (exhausted_source_ s) (finished_ s) (finalized_ s).
Definition with_source (r : R) (exhausted : bool) (s : PipelineExecutor) : PipelineExecutor :=
  mkExecutor r (intermediate_states_ s) (local_sink_state_ s) (intermediate_chunks_ s) (final_chunk_ s) (in_process_operators_ s) exhausted (finished_ s) (finalized_ s).
Definition with_flags (finished finalized : bool) (s : PipelineExecutor) : PipelineExecutor :=
  mkExecutor (local_source_state_ s) (intermediate_states_ s) (local_sink_state_ s) (intermediate_chunks_ s) (final_chunk_ s) (in_process_operators_ s) (exhausted_source_ s) finished finalized.

(** ** One chunk through the operators *)

(** [initial_idx] is 0 in every call: the source. *)
Definition GoToSource (s : PipelineExecutor) : nat * PipelineExecutor :=
  match in_process_operators_ s with i :: st => (i, with_stack st s) | [] => (0%nat, s) end.
Definition prev_chunk (cur : nat) (input : C) (s : PipelineExecutor) : result C :=
  if bool_decide (cur = 1%nat) then Ok input else match intermediate_chunks_ s !! (cur - 1)%nat with Some c => Ok c | None => Err EUndefined end.
(** The operator writes into a chunk that was just reset. *)
Definition set_current (cur : nat) (c : C) (s : PipelineExecutor) : PipelineExecutor :=
  if bool_decide (cur = length (intermediate_states_ s)) then with_final c s else with_chunk cur c s.
Fixpoint Execute_loop (fuel : nat) (input : C) (cur : nat) (s : PipelineExecutor) : result (OperatorResultType * PipelineExecutor) :=
  match fuel with
  | O => Err EBlocked
  | S fuel =>
      if negb (bool_decide (cur ≤ length (intermediate_states_ s))%nat) then
        Ok (if bool_decide (in_process_operators_ s = []) then NEED_MORE_INPUT else HAVE_MORE_OUTPUT, s)
      else
        prev ← prev_chunk cur input s;
        match intermediate_states_ s !! (cur - 1)%nat with
        | None => Err EUndefined
        | Some o =>
            '(out, res, o) ← op_Execute prev o;
            let s := set_current cur out (with_op (cur - 1) o s) in
            if bool_decide (res = FINISHED) then Ok (FINISHED, s) else
            if bool_decide (res = HAVE_MORE_OUTPUT) && bool_decide (csize out = 0%nat) then Err (EAssert "HAVE_MORE_OUTPUT with an empty chunk loops forever") else
            let s := if bool_decide (res = HAVE_MORE_OUTPUT) then with_stack (cur :: in_process_operators_ s) s else s in
            if bool_decide (csize out = 0%nat) then
              if bool_decide (in_process_operators_ s = []) then Ok (NEED_MORE_INPUT, s)
              else let '(cur, s) := GoToSource s in Execute_loop fuel input cur s
            else Execute_loop fuel input (cur + 1) s
        end
  end.
Definition pipeline_Execute (fuel : nat) (input : C) (s : PipelineExecutor) : result (OperatorResultType * PipelineExecutor) :=
  let '(cur, s) := GoToSource s in
  Execute_loop fuel input (if bool_decide (cur = 0%nat) then cur + 1 else cur)%nat s.

Definition pipeline_Sink (c : C) (s : PipelineExecutor) : result (SinkResultType * PipelineExecutor) :=
  '(r, k) ← sink c (local_sink_state_ s); Ok (r, with_sink k s).
Fixpoint push_loop (fuel : nat) (input : C) (s : PipelineExecutor) : result (OperatorResultType * PipelineExecutor) :=
  match fuel with
  | O => Err EBlocked
  | S fuel =>
      '(res, s) ← pipeline_Execute fuel input (with_final empty s);
      if bool_decide (res = FINISHED) then Ok (FINISHED, s) else
      '(r, s) ← (if bool_decide (0 < csize (final_chunk_ s))%nat then pipeline_Sink (final_chunk_ s) s else Ok (SINK_NEED_MORE_INPUT, s));
      if bool_decide (r = SINK_FINISHED) then Ok (FINISHED, s) else
      if bool_decide (res = NEED_MORE_INPUT) then Ok (NEED_MORE_INPUT, s) else push_loop fuel input s
  end.
Definition ExecutePushInternal (fuel : nat) (input : C) (s : PipelineExecutor) : result (OperatorResultType * PipelineExecutor) :=
  if bool_decide (length (intermediate_states_ s) = 0%nat) then
    '(r, s) ← pipeline_Sink input s; Ok (if bool_decide (r = SINK_FINISHED) then FINISHED else NEED_MORE_INPUT, s)
  else push_loop fuel input s.

(** ** The whole drain *)

Definition FetchFromSource (s : PipelineExecutor) : result (C * SourceResultType * PipelineExecutor) :=
  if dead_ then Ok (empty, SOURCE_FINISHED, s) else
  '(c, r, src) ← get_data (local_source_state_ s); Ok (c, r, with_source src (exhausted_source_ s) s).
Definition PushFinalize (s : PipelineExecutor) : result PipelineExecutor :=
  if finalized_ s then Ok s else
  let s := with_flags (finished_ s) true s in
  k ← combine (local_sink_state_ s); Ok (with_sink k s).
(** [i] counts the turns of the loop. *)
Fixpoint run_loop (fuel i : nat) (s : PipelineExecutor) : result (nat * PipelineExecutor) :=
  match fuel with
  | O => Err EBlocked
  | S fuel =>
      if finished_ s then Ok (i, s) else
      match poll i with
      | CANCELLED => Err cancelled
      | STOP => Ok (S i, s)
      | GO =>
          let push s :=
            match intermediate_chunks_ s !! 0%nat with
            | None => Err EUndefined
            | Some chunk =>
                '(res, s) ← ExecutePushInternal fuel chunk s;
                run_loop fuel (S i) (if bool_decide (res = FINISHED) then with_flags true (finalized_ s) s else s)
            end in
          if bool_decide (in_process_operators_ s = []) then
            if exhausted_source_ s then Ok (S i, s) else
            '(c, r, s) ← FetchFromSource s;
            let s := with_chunk 0 c s in
            let s := if bool_decide (r = SOURCE_FINISHED) then with_source (local_source_state_ s) true s else s in
            if bool_decide (csize c = 0%nat) then run_loop fuel (S i) s else
            push (with_sink (set_batch (source_batch (local_source_state_ s)) (local_sink_state_ s)) s)
          else push s
      end
  end.
Definition Run (fuel : nat) (s : PipelineExecutor) : result PipelineExecutor :=
  '(i, s) ← run_loop fuel 0 s;
  match poll i with CANCELLED => Err cancelled | _ => PushFinalize s end.
End pipeline.

(** * The push loop runs nested loops

    Read recursively, a pipeline pushes a chunk into its first operator, every chunk that comes out into the
    rest of the pipeline, and goes back to the operator while it owes output.  The executor does the same with
    its stack. *)

(** ** Enough fuel *)

Definition evals_to {A} (X : nat → result A) (Q : result A → Prop) : Prop := ∃ N r, Q r ∧ ∀ n, (N ≤ n)%nat → X n = r.
Lemma evals_to_const {A} (X : nat → result A) (Q : result A → Prop) r : (∀ n, X n = r) → Q r → evals_to X Q.
Proof. intros E HQ. by exists 0%nat, r. Qed.
Lemma evals_to_step {A} (X Y : nat → result A) Q : (∀ n, X (S n) = Y n) → evals_to Y Q → evals_to X Q.
Proof. intros E (N & r & HQ & HY). exists (S N), r. split; [done|]. intros [|n] Hn; [lia|]. rewrite E. apply HY. lia. Qed.
Lemma evals_to_ext {A} (X Y : nat → result A) Q : (∀ n, X n = Y n) → evals_to Y Q → evals_to X Q.
Proof. intros E (N & r & HQ & HY). exists N, r. split; [done|]. intros n Hn. rewrite E. by apply HY. Qed.
Lemma evals_to_mono {A} (X : nat → result A) (P Q : result A → Prop) : (∀ r, P r → Q r) → evals_to X P → evals_to X Q.
Proof. intros HPQ (N & r & HP & HX). exists N, r. split; [by apply HPQ|done]. Qed.
Lemma evals_to_bind {A B} (X : nat → result A) (F : A → nat → result B) (P : result A → Prop) Q :
  evals_to X P → (∀ r, P r → match r with Ok a => evals_to (F a) Q | Err e => Q (Err e) end) → evals_to (λ n, a ← X n; F a n) Q.
Proof.
  intros (N & r & HP & HX) HF. specialize (HF r HP). destruct r as [a|e].
  - destruct HF as (M & r & HQ & HF). exists (Nat.max N M), r. split; [done|]. intros n Hn. rewrite HX by lia. apply HF. lia.
  - exists N, (Err e). split; [done|]. intros n Hn. by rewrite HX.
Qed.
(** Two loops, one in the other, with fuel of their own. *)
Definition evals2_to {A} (X : nat → nat → result A) (Q : result A → Prop) : Prop := ∃ N r, Q r ∧ ∀ n m, (N ≤ n)%nat → (N ≤ m)%nat → X n m = r.
Lemma evals2_to_now {A} (X : nat → nat → result A) (Q : result A → Prop) r : (∀ n m, X (S n) (S m) = r) → Q r → evals2_to X Q.
Proof. intros E HQ. exists 1%nat, r. split; [done|]. intros [|n] [|m] Hn Hm; [lia..|]. apply E. Qed.
Lemma evals2_to_step {A} (X Y : nat → nat → result A) Q : (∀ n m, X (S n) m = Y n m) → evals2_to Y Q → evals2_to X Q.
Proof. intros E (N & r & HQ & HY). exists (S N), r. split; [done|]. intros [|n] m Hn Hm; [lia|]. rewrite E. apply HY; lia. Qed.
(** The outer loop turns: both loops get its fuel. *)
Lemma evals2_to_turn {A} (X Y : nat → nat → result A) Q : (∀ n m, X (S n) (S m) = Y m m) → evals2_to Y Q → evals2_to X Q.
Proof. intros E (N & r & HQ & HY). exists (S N), r. split; [done|]. intros [|n] [|m] Hn Hm; [lia..|]. rewrite E. apply HY; lia. Qed.
Lemma evals2_to_mono {A} (X : nat → nat → result A) (P Q : result A → Prop) : (∀ r, P r → Q r) → evals2_to X P → evals2_to X Q.
Proof. intros HPQ (N & r & HP & HX). exists N, r. split; [by apply HPQ|done]. Qed.
Lemma evals2_to_diag {A} (X : nat → nat → result A) Q : evals2_to X Q → evals_to (λ n, X n n) Q.
Proof. intros (N & r & HQ & HX). exists N, r. split; [done|]. intros n Hn. by apply HX. Qed.

Ltac fields := cbn [local_source_state_ intermediate_states_ local_sink_state_ intermediate_chunks_ final_chunk_ in_process_operators_ exhausted_source_ finished_ finalized_ with_stack with_final with_chunk with_op with_sink with_source with_flags].
Ltac fields_in H := cbn [local_source_state_ intermediate_states_ local_sink_state_ intermediate_chunks_ final_chunk_ in_process_operators_ exhausted_source_ finished_ finalized_ with_stack with_final with_chunk with_op with_sink with_source with_flags] in H.

Section run.
Context {C : Type} (csize : C → nat) (empty : C) (Hempty : csize empty = 0%nat).
Context {K R : Type} (sink : C → K → result (SinkResultType * K)) (combine : K → result K) (get_data : R → result (C * SourceResultType * R)).
Context (source_batch : R → Z) (set_batch : Z → K → K).
Context (dead_ : bool) (poll : nat → Poll).
Abbreviation OpInst := (@OpInst C).
Abbreviation Executor := (@PipelineExecutor C K R).

(** ** Nested loops *)

(** The operators and the sink after chunk [c] went through; [true] when one of them wants no more. *)
Fixpoint push (fuel : nat) (ops : list OpInst) (c : C) (k : K) : result (list OpInst * K * bool) :=
  match fuel with
  | O => Err EBlocked
  | S fuel =>
      match ops with
      | [] => '(r, k) ← sink c k; Ok ([], k, bool_decide (r = SINK_FINISHED))
      | o :: os =>
          '(out, res, o) ← op_Execute c o;
          match res with
          | FINISHED => Ok (o :: os, k, true)
          | NEED_MORE_INPUT => if bool_decide (csize out = 0%nat) then Ok (o :: os, k, false) else '(os, k, fin) ← push fuel os out k; Ok (o :: os, k, fin)
          | HAVE_MORE_OUTPUT =>
              if bool_decide (csize out = 0%nat) then Err (EAssert "HAVE_MORE_OUTPUT with an empty chunk loops forever") else
              '(os, k, fin) ← push fuel os out k;
              if (fin : bool) then Ok (o :: os, k, true) else push fuel (o :: os) c k
          end
      end
  end.
(** All chunks of the source. *)
Fixpoint push_all (fuel i : nat) (src : R) (exhausted : bool) (ops : list OpInst) (k : K) : result (nat * R * list OpInst * K) :=
  match fuel with
  | O => Err EBlocked
  | S fuel =>
      match poll i with
      | CANCELLED => Err cancelled
      | STOP => Ok (S i, src, ops, k)
      | GO =>
          if exhausted then Ok (S i, src, ops, k) else
          '(c, r, src) ← (if dead_ then Ok (empty, SOURCE_FINISHED, src) else get_data src);
          let exhausted := bool_decide (r = SOURCE_FINISHED) in
          if bool_decide (csize c = 0%nat) then push_all fuel (S i) src exhausted ops k else
          '(ops, k, fin) ← push fuel ops c (set_batch (source_batch src) k);
          if (fin : bool) then Ok (S i, src, ops, k) else push_all fuel (S i) src exhausted ops k
      end
  end.
Lemma push_length fuel : ∀ ops c k ops' k' fin, push fuel ops c k = Ok (ops', k', fin) → length ops' = length ops.
Proof.
  induction fuel as [|fuel IH]; intros ops c k ops' k' fin E; [done|]. cbn [push] in E. destruct ops as [|o os].
  - destruct (sink c k) as [[r k1]|]; [|done]. by injection E as <- _ _.
  - destruct (op_Execute c o) as [[[out res] o1]|]; [|done]. cbn [mbind result_bind] in E. destruct res.
    + case_bool_decide; [by injection E as <- _ _|]. destruct (push fuel os out k) as [[[os1 k1] f1]|] eqn:E1; [|done]. injection E as <- _ _. simpl. by rewrite (IH _ _ _ _ _ _ E1).
    + case_bool_decide; [done|]. destruct (push fuel os out k) as [[[os1 k1] f1]|] eqn:E1; [|done]. cbn [mbind result_bind] in E. pose proof (IH _ _ _ _ _ _ E1) as H1.
      destruct f1; [injection E as <- _ _; simpl; by rewrite H1|]. rewrite (IH _ _ _ _ _ _ E). simpl. by rewrite H1.
    + by injection E as <- _ _.
Qed.

(** ** The executor follows *)

Abbreviation exec_loop := (@Execute_loop C csize K R).
Abbreviation pushl := (@push_loop C csize empty K R sink).
(** What [push_loop] does once [Execute] has returned. *)
Definition after_execute (m : nat) (input : C) (x : OperatorResultType * Executor) : result (OperatorResultType * Executor) :=
  let '(res, s) := x in
  if bool_decide (res = FINISHED) then Ok (FINISHED, s) else
  '(r, s) ← (if bool_decide (0 < csize (final_chunk_ s))%nat then pipeline_Sink sink (final_chunk_ s) s else Ok (SINK_NEED_MORE_INPUT, s));
  if bool_decide (r = SINK_FINISHED) then Ok (FINISHED, s) else
  if bool_decide (res = NEED_MORE_INPUT) then Ok (NEED_MORE_INPUT, s) else pushl m input s.
Definition go (input : C) (cur : nat) (s : Executor) (n m : nat) : result (OperatorResultType * Executor) := x ← exec_loop n input cur s; after_execute m input x.
(** Back to the operator on the stack. *)
Definition resume (input : C) (s : Executor) : nat → nat → result (OperatorResultType * Executor) :=
  match in_process_operators_ s with [] => λ _ _, Ok (NEED_MORE_INPUT, s) | i :: st => go input i (with_stack st s) end.

(** What the operators do not touch. *)
Record same_outside (s s' : Executor) : Prop := {
  so_source : local_source_state_ s' = local_source_state_ s;
  so_exhausted : exhausted_source_ s' = exhausted_source_ s;
  so_finished : finished_ s' = finished_ s;
  so_finalized : finalized_ s' = finalized_ s;
  so_chunks : length (intermediate_chunks_ s') = length (intermediate_chunks_ s) }.
Record after_push (cur : nat) (s : Executor) (ops : list OpInst) (k : K) (s' : Executor) : Prop := {
  ap_ops : intermediate_states_ s' = ops;
  ap_sink : local_sink_state_ s' = k;
  ap_stack : in_process_operators_ s' = in_process_operators_ s;
  ap_before : ∀ i, (i < cur)%nat → intermediate_chunks_ s' !! i = intermediate_chunks_ s !! i;
  ap_final : in_process_operators_ s' ≠ [] → csize (final_chunk_ s') = 0%nat;
  ap_outside : same_outside s s' }.
(** The state before operator [cur] takes [c]. *)
Record at_op (input : C) (pre os : list OpInst) (cur : nat) (c : C) (k : K) (s : Executor) : Prop := {
  ao_ops : intermediate_states_ s = pre ++ os;
  ao_cur : cur = S (length pre);
  ao_sink : local_sink_state_ s = k;
  ao_chunk : match os with [] => final_chunk_ s = c ∧ (0 < csize c)%nat | _ => prev_chunk cur input s = Ok c ∧ csize (final_chunk_ s) = 0%nat end;
  ao_chunks : length (intermediate_chunks_ s) = Nat.max 1 (length (pre ++ os));
  ao_stack : Forall (λ i, 1 ≤ i < cur)%nat (in_process_operators_ s) }.
Lemma with_stack_id (s : Executor) : with_stack (in_process_operators_ s) s = s.
Proof. by destruct s. Qed.
Definition written (cur : nat) (out : C) (o : OpInst) (s : Executor) : Executor := set_current cur out (with_op (cur - 1) o s).
Section written.
Context (input : C) (pre os : list OpInst) (o o' : OpInst) (cur : nat) (c out : C) (k : K) (s : Executor) (A : at_op input pre (o :: os) cur c k s).
Abbreviation s1 := (written cur out o' s).
Lemma written_fields : intermediate_states_ s1 = pre ++ o' :: os ∧ local_sink_state_ s1 = k ∧ in_process_operators_ s1 = in_process_operators_ s ∧
  (∀ i, (i < cur)%nat → intermediate_chunks_ s1 !! i = intermediate_chunks_ s !! i) ∧ same_outside s s1.
Proof.
  destruct A as [H1 H2 H3 _ H5 _]. assert (<[(cur - 1)%nat:=o']> (intermediate_states_ s) = pre ++ o' :: os) as Ei.
  { rewrite H1, H2. replace (S (length pre) - 1)%nat with (length pre + 0)%nat by lia. by rewrite insert_app_r. }
  unfold written, set_current. cbn [intermediate_states_ with_op]. case_bool_decide as Hn; fields; rewrite Ei; (split; [done|]; split; [done|]; split; [done|]; split; [|by split; fields; rewrite ?length_insert]); [done|].
  intros i Hi. by rewrite list_lookup_insert_ne by lia.
Qed.
Lemma written_length : length (intermediate_states_ (with_op (cur - 1) o' s)) = (length pre + S (length os))%nat.
Proof. fields. rewrite length_insert, (ao_ops _ _ _ _ _ _ _ A), length_app. done. Qed.
Lemma written_final : csize out = 0%nat → csize (final_chunk_ s1) = 0%nat.
Proof. intros Ho. unfold written, set_current. case_bool_decide; fields; [done|]. apply (proj2 (ao_chunk _ _ _ _ _ _ _ A)). Qed.
Lemma written_next st : (0 < csize out)%nat → Forall (λ i, 1 ≤ i < S cur)%nat st → at_op input (pre ++ [o']) os (S cur) out k (with_stack st s1).
Proof.
  intros Ho Hst. destruct written_fields as (F1 & F2 & F3 & F4 & F5). pose proof written_length as Hl. destruct A as [H1 H2 H3 H4 H5 H6].
  split; cbn [with_stack intermediate_states_ local_sink_state_ in_process_operators_ intermediate_chunks_].
  - by rewrite F1, <- app_assoc.
  - rewrite length_app. simpl. lia.
  - done.
  - destruct os as [|o2 os2].
    + unfold written, set_current. rewrite bool_decide_true by (rewrite Hl; simpl; lia). done.
    + unfold prev_chunk. rewrite bool_decide_false by lia. cbn [with_stack intermediate_chunks_]. unfold written, set_current. rewrite bool_decide_false by (rewrite Hl; simpl; lia). fields.
      replace (S cur - 1)%nat with cur by lia. rewrite list_lookup_insert_eq by (rewrite H5, length_app; simpl; lia). split; [done|]. apply H4.
  - destruct F5 as [_ _ _ _ ->]. rewrite H5, !length_app. simpl. lia.
  - done.
Qed.
End written.
(** The executor does what [push] does, and goes back to the stack. *)
Definition simulates (input : C) (pre : list OpInst) (cur : nat) (s : Executor) (r : result (list OpInst * K * bool)) : Prop :=
  match r with
  | Err e => evals2_to (go input cur s) (eq (Err e))
  | Ok (os', k', true) => evals2_to (go input cur s) (λ r, ∃ s', r = Ok (FINISHED, s') ∧ intermediate_states_ s' = pre ++ os' ∧ local_sink_state_ s' = k' ∧ same_outside s s')
  | Ok (os', k', false) => ∀ Q, (∀ s', after_push cur s (pre ++ os') k' s' → evals2_to (resume input s') Q) → evals2_to (go input cur s) Q
  end.
Lemma same_outside_trans s1 s2 s3 : same_outside s1 s2 → same_outside s2 s3 → same_outside s1 s3.
Proof. intros [] []. split; congruence. Qed.
Lemma sink_sim input pre cur c k s fuel : at_op input pre [] cur c k s → simulates input pre cur s (push (S fuel) [] c k).
Proof.
  intros [H1 H2 H3 [H4 H4'] H5 H6]. rewrite app_nil_r in H1. cbn [push]. unfold simulates.
  assert (∀ n m, go input cur s (S n) m = after_execute m input (if bool_decide (in_process_operators_ s = []) then NEED_MORE_INPUT else HAVE_MORE_OUTPUT, s)) as E.
  { intros n m. unfold go. cbn [Execute_loop]. rewrite bool_decide_false by (rewrite H1, H2; lia). done. }
  unfold after_execute in E. rewrite H4 in E. rewrite (bool_decide_true (0 < csize c)%nat) in E by done. unfold pipeline_Sink in E. rewrite H3 in E.
  assert (∀ b : bool, bool_decide ((if b then NEED_MORE_INPUT else HAVE_MORE_OUTPUT) = FINISHED) = false) as Eb by (by intros []). setoid_rewrite Eb in E. clear Eb.
  destruct (sink c k) as [[r k']|e]; cbn [mbind result_bind] in *; [|by eapply evals2_to_now]. destruct (bool_decide (r = SINK_FINISHED)) eqn:Er.
  - eapply evals2_to_now; [intros n m; exact (E n (S m))|]. eexists. split; [done|]. fields. rewrite app_nil_r. done.
  - intros Q HQ. destruct (in_process_operators_ s) as [|i st] eqn:Est.
    + rewrite bool_decide_true in E by done. specialize (HQ (with_sink k' s)). unfold resume in HQ. fields_in HQ. rewrite Est in HQ. destruct HQ as (N & r0 & HQ & HN); [split; fields; rewrite ?app_nil_r; done|].
      eapply evals2_to_now; [intros n m; exact (E n (S m))|]. by rewrite <- (HN N N) in HQ.
    + rewrite bool_decide_false in E by done. eapply (evals2_to_turn _ (resume input (with_final empty (with_sink k' s)))).
      * intros n m. rewrite E. cbn [push_loop]. unfold pipeline_Execute, GoToSource, resume. fields. rewrite Est.
        apply Forall_cons in H6 as [Hi _]. rewrite (bool_decide_false (i = 0%nat)) by lia. unfold go, after_execute. by destruct (exec_loop m input i _) as [[]|].
      * apply HQ. split; fields; rewrite ?app_nil_r; done.
Qed.
(** One turn of [Execute]'s loop at an operator. *)
Lemma go_step input pre o os cur c k s n m :
  at_op input pre (o :: os) cur c k s →
  go input cur s (S n) m = '(out, res, o') ← op_Execute c o;
    let s1 := written cur out o' s in
    match res with
    | FINISHED => Ok (FINISHED, s1)
    | HAVE_MORE_OUTPUT => if bool_decide (csize out = 0%nat) then Err (EAssert "HAVE_MORE_OUTPUT with an empty chunk loops forever")
        else go input (S cur) (with_stack (cur :: in_process_operators_ s) s1) n m
    | NEED_MORE_INPUT => if bool_decide (csize out = 0%nat) then
          match in_process_operators_ s with [] => Ok (NEED_MORE_INPUT, s1) | i :: st => go input i (with_stack st s1) n m end
        else go input (S cur) s1 n m
    end.
Proof.
  intros A. pose proof A as [H1 H2 H3 [H4 H4'] H5 H6]. unfold go at 1. cbn [Execute_loop]. rewrite bool_decide_true by (rewrite H1, H2, length_app; simpl; lia). cbn [negb]. rewrite H4. cbn [mbind result_bind].
  replace (intermediate_states_ s !! (cur - 1)%nat) with (Some o) by (rewrite H1, H2, lookup_app_r by lia; replace (S (length pre) - 1 - length pre)%nat with 0%nat by lia; done).
  destruct (op_Execute c o) as [[[out res] o']|e]; [|done]. cbn [mbind result_bind]. fold (written cur out o' s). destruct (written_fields input pre os o o' cur c out k s A) as (F1 & F2 & F3 & F4 & F5). pose proof (written_final input pre os o o' cur c out k s A) as Hf.
  replace (cur + 1)%nat with (S cur) by lia. cbn zeta. destruct res.
  - rewrite (bool_decide_false (NEED_MORE_INPUT = FINISHED)), (bool_decide_false (NEED_MORE_INPUT = HAVE_MORE_OUTPUT)) by done. cbn [andb].
    destruct (bool_decide (csize out = 0%nat)) eqn:Eo; [|done]. apply bool_decide_eq_true in Eo. unfold GoToSource. rewrite F3. destruct (in_process_operators_ s) as [|i st] eqn:Est.
    + rewrite bool_decide_true by done. cbn [mbind result_bind after_execute]. rewrite (bool_decide_false (NEED_MORE_INPUT = FINISHED)), (bool_decide_false (0 < csize (final_chunk_ (written cur out o' s)))%nat) by (done || rewrite Hf by done; lia). done.
    + rewrite bool_decide_false by done. done.
  - rewrite (bool_decide_false (HAVE_MORE_OUTPUT = FINISHED)), (bool_decide_true (HAVE_MORE_OUTPUT = HAVE_MORE_OUTPUT)) by done. cbn [andb]. rewrite F3. by destruct (bool_decide (csize out = 0%nat)).
  - rewrite (bool_decide_true (FINISHED = FINISHED)) by done. done.
Qed.
Lemma push_sim input fuel : ∀ os pre cur c k s, at_op input pre os cur c k s → push fuel os c k ≠ Err EBlocked → simulates input pre cur s (push fuel os c k).
Proof.
  induction fuel as [|fuel IH]; intros os pre cur c k s A Hb; [done|]. destruct os as [|o os]; [by apply sink_sim|]. pose proof (λ n m, go_step input pre o os cur c k s n m A) as E. cbn [push] in *.
  destruct (op_Execute c o) as [[[out res] o']|e]; cbn [mbind result_bind] in *; [|by eapply evals2_to_now]. destruct (written_fields input pre os o o' cur c out k s A) as (F1 & F2 & F3 & F4 & F5). cbn zeta in E.
  pose proof (ao_stack _ _ _ _ _ _ _ A) as Hst. pose proof (written_next input pre os o o' cur c out k s A) as Hnext. pose proof (written_final input pre os o o' cur c out k s A) as Hf. pose proof (ao_cur _ _ _ _ _ _ _ A) as Hcur.
  destruct res.
  - destruct (bool_decide (csize out = 0%nat)) eqn:Eo.
    + apply bool_decide_eq_true in Eo. intros Q HQ. specialize (HQ (written cur out o' s)). assert (after_push cur s (pre ++ o' :: os) k (written cur out o' s)) as Hap by (split; try done; intros _; by apply Hf).
      specialize (HQ Hap). unfold resume in HQ. rewrite F3 in HQ. destruct (in_process_operators_ s) as [|i st].
      * destruct HQ as (N & r & HQ & HN). eapply evals2_to_now; [intros n m; exact (E n (S m))|]. by rewrite <- (HN N N) in HQ.
      * by eapply evals2_to_step.
    + apply bool_decide_eq_false in Eo. specialize (Hnext (in_process_operators_ (written cur out o' s)) ltac:(lia)). rewrite with_stack_id, F3 in Hnext. specialize (Hnext ltac:(eapply Forall_impl; [exact Hst|]; simpl; lia)).
      specialize (IH os (pre ++ [o']) (S cur) out k _ Hnext). destruct (push fuel os out k) as [[[os' k'] fin]|e]; cbn [mbind result_bind] in *; specialize (IH ltac:(done)); [|by eapply evals2_to_step].
      destruct fin; unfold simulates in *.
      * eapply evals2_to_step; [exact E|]. destruct IH as (N & r & (s' & -> & H1 & H2 & H3) & HN). exists N, (Ok (FINISHED, s')). split; [|done]. exists s'. split; [done|]. rewrite H1, <- app_assoc. split; [done|]. split; [done|]. by eapply same_outside_trans.
      * intros Q HQ. eapply evals2_to_step; [exact E|]. apply IH. intros s' [P1 P2 P3 P4 P5 P6]. apply HQ. rewrite <- app_assoc in P1. split; try done; [congruence| |by eapply same_outside_trans].
        intros i Hi. rewrite P4 by lia. by apply F4.
  - destruct (bool_decide (csize out = 0%nat)) eqn:Eo; [by eapply evals2_to_now; [intros n m; exact (E n (S m))|]|]. apply bool_decide_eq_false in Eo.
    specialize (Hnext (cur :: in_process_operators_ s) ltac:(lia)). specialize (Hnext ltac:(apply Forall_cons; split; [lia|]; eapply Forall_impl; [exact Hst|]; simpl; lia)).
    pose proof (IH os (pre ++ [o']) (S cur) out k _ Hnext) as IH1. destruct (push fuel os out k) as [[[os' k'] fin]|e] eqn:Epush; cbn [mbind result_bind] in *; specialize (IH1 ltac:(done)); [|by eapply evals2_to_step].
    destruct fin; unfold simulates in IH1.
    + eapply evals2_to_step; [exact E|]. destruct IH1 as (N & r & (s' & -> & H1 & H2 & H3) & HN). exists N, (Ok (FINISHED, s')). split; [|done]. exists s'. split; [done|]. rewrite H1, <- app_assoc. split; [done|]. split; [done|].
      eapply same_outside_trans; [exact F5|]. destruct H3. by split.
    + assert (∀ Q, (∀ s', after_push (S cur) (with_stack (cur :: in_process_operators_ s) (written cur out o' s)) ((pre ++ [o']) ++ os') k' s' → evals2_to (go input cur (with_stack (in_process_operators_ s) s')) Q) → evals2_to (go input cur s) Q) as Hback.
      { intros Q HQ. eapply evals2_to_step; [exact E|]. apply IH1. intros s' Hs'. specialize (HQ s' Hs'). unfold resume. rewrite (ap_stack _ _ _ _ _ Hs'). fields. exact HQ. }
      assert (∀ s', after_push (S cur) (with_stack (cur :: in_process_operators_ s) (written cur out o' s)) ((pre ++ [o']) ++ os') k' s' → same_outside s s' ∧ (∀ i, (i < cur)%nat → intermediate_chunks_ s' !! i = intermediate_chunks_ s !! i) ∧
        at_op input pre (o' :: os') cur c k' (with_stack (in_process_operators_ s) s')) as Hagain.
      { intros s' [P1 P2 P3 P4 P5 P6]. fields_in P3. assert (same_outside s s') as Hso by (eapply same_outside_trans; [exact F5|]; destruct P6; by split). assert (∀ i, (i < cur)%nat → intermediate_chunks_ s' !! i = intermediate_chunks_ s !! i) as Hch.
        { intros i Hi. rewrite P4 by lia. fields. by apply F4. }
        split; [done|]. split; [done|]. destruct A as [A1 A2 A3 [A4 A4'] A5 A6]. split; fields; try done.
        - by rewrite P1, <- app_assoc.
        - split; [|apply P5; by rewrite P3]. unfold prev_chunk in *. fields. destruct (bool_decide (cur = 1%nat)) eqn:E1; [done|]. apply bool_decide_eq_false in E1. by rewrite Hch by lia.
        - rewrite (so_chunks _ _ Hso), A5, <- A1, !length_app. pose proof (push_length _ _ _ _ _ _ _ Epush) as Hpl. rewrite A1, length_app. simpl. lia. }
      assert (∀ s', after_push (S cur) (with_stack (cur :: in_process_operators_ s) (written cur out o' s)) ((pre ++ [o']) ++ os') k' s' → simulates input pre cur (with_stack (in_process_operators_ s) s') (push fuel (o' :: os') c k')) as IH2
        by (intros s' Hs'; destruct (Hagain s' Hs') as (_ & _ & A'); by apply IH).
      destruct (push fuel (o' :: os') c k') as [[[os2 k2] fin]|e]; [destruct fin|]; unfold simulates in *.
      * apply Hback. intros s' Hs'. destruct (Hagain s' Hs') as (Hso & _ & _). eapply evals2_to_mono; [|by apply IH2]. intros r (s2 & -> & H1 & H2 & H3). exists s2. split; [done|]. split; [done|]. split; [done|].
        eapply same_outside_trans; [exact Hso|]. destruct H3. by split.
      * intros Q HQ. apply Hback. intros s' Hs'. destruct (Hagain s' Hs') as (Hso & Hch & _). apply (IH2 s' Hs'). intros s2 [P1 P2 P3 P4 P5 P6]. apply HQ. split; try done; [|by eapply same_outside_trans; [exact Hso|]; destruct P6; split].
        intros i Hi. rewrite P4 by done. fields. by apply Hch.
      * apply Hback. intros s' Hs'. by apply IH2.
  - eapply evals2_to_now; [intros n m; exact (E n (S m))|]. eexists. split; [done|]. done.
Qed.

Lemma ExecutePushInternal_sim fuel ops c k s :
  intermediate_states_ s = ops → local_sink_state_ s = k → in_process_operators_ s = [] → length (intermediate_chunks_ s) = Nat.max 1 (length ops) → (0 < csize c)%nat → push fuel ops c k ≠ Err EBlocked →
  evals_to (λ n, ExecutePushInternal csize empty sink n c s) (λ out,
    match push fuel ops c k with
    | Err e => out = Err e
    | Ok (ops', k', fin) => ∃ s', out = Ok (if (fin : bool) then FINISHED else NEED_MORE_INPUT, s') ∧ intermediate_states_ s' = ops' ∧ local_sink_state_ s' = k' ∧ same_outside s s' ∧ (fin = false → in_process_operators_ s' = [])
    end).
Proof.
  intros H1 H2 H3 H4 Hc Hb. destruct fuel as [|fuel]; [done|]. destruct ops as [|o ops].
  { cbn [push]. unfold ExecutePushInternal, pipeline_Sink. rewrite H1, H2. cbn [length]. rewrite (bool_decide_true (0 = 0)%nat) by done. eapply evals_to_const; [done|].
    destruct (sink c k) as [[r k']|e]; [|done]. cbn [mbind result_bind]. eexists. split; [done|]. fields. done. }
  set (P := push (S fuel) (o :: ops) c k) in *. assert (at_op c [] (o :: ops) 1 c k (with_final empty s)) as A by (split; fields; try done; rewrite ?H3; done).
  pose proof (push_sim c (S fuel) (o :: ops) [] 1 c k _ A Hb) as HS. fold P in HS.
  assert (∀ n, ExecutePushInternal csize empty sink (S n) c s = go c 1 (with_final empty s) n n) as E.
  { intros n. unfold ExecutePushInternal. rewrite H1. cbn [length]. rewrite (bool_decide_false (S (length ops) = 0)%nat) by done. cbn [push_loop]. unfold pipeline_Execute, GoToSource. fields. rewrite H3. rewrite (bool_decide_true (0 = 0)%nat) by done. cbn [Nat.add]. unfold go, after_execute. by destruct (exec_loop n c 1 _) as [[]|]. }
  eapply evals_to_step; [exact E|]. apply evals2_to_diag. destruct P as [[[ops' k'] fin]|e]; [destruct fin|]; unfold simulates in HS.
  - eapply evals2_to_mono; [|exact HS]. intros r (s' & -> & F1 & F2 & F3). exists s'. split; [done|]. split; [done|]. split; [done|]. split; [destruct F3; by split|done].
  - apply HS. intros s' [P1 P2 P3 P4 P5 P6]. fields_in P3. unfold resume. rewrite P3, H3. exists 0%nat. eexists. split; [|done]. exists s'. split; [done|]. split; [done|]. split; [done|]. split; [destruct P6; by split|]. intros _. by rewrite P3.
  - eapply evals2_to_mono; [|exact HS]. by intros r <-.
Qed.

(** ** The whole run *)

Lemma run_sim fuel : ∀ i src exhausted ops k s,
  intermediate_states_ s = ops → local_sink_state_ s = k → local_source_state_ s = src → exhausted_source_ s = exhausted → finished_ s = false → finalized_ s = false → in_process_operators_ s = [] →
  length (intermediate_chunks_ s) = Nat.max 1 (length ops) → push_all fuel i src exhausted ops k ≠ Err EBlocked →
  evals_to (λ n, run_loop csize empty sink get_data source_batch set_batch dead_ poll n i s) (λ out,
    match push_all fuel i src exhausted ops k with
    | Err e => out = Err e
    | Ok (i', src', ops', k') => ∃ s', out = Ok (i', s') ∧ intermediate_states_ s' = ops' ∧ local_sink_state_ s' = k' ∧ local_source_state_ s' = src' ∧ finalized_ s' = false
    end).
Proof.
  induction fuel as [|fuel IH]; intros i src exhausted ops k s H1 H2 H3 H4 H5 H6 H7 H8 Hb; [done|]. cbn [push_all] in *.
  assert (∀ n, run_loop csize empty sink get_data source_batch set_batch dead_ poll (S n) i s = match poll i with CANCELLED => Err cancelled | STOP => Ok (S i, s) | GO =>
    if exhausted then Ok (S i, s) else '(c, r, src') ← (if dead_ then Ok (empty, SOURCE_FINISHED, src) else get_data src);
    let s1 := with_source src' (bool_decide (r = SOURCE_FINISHED)) (with_chunk 0 c s) in
    if bool_decide (csize c = 0%nat) then run_loop csize empty sink get_data source_batch set_batch dead_ poll n (S i) s1
    else '(res, s') ← ExecutePushInternal csize empty sink n c (with_sink (set_batch (source_batch src') k) s1); run_loop csize empty sink get_data source_batch set_batch dead_ poll n (S i) (if bool_decide (res = FINISHED) then with_flags true (finalized_ s') s' else s') end) as E.
  { intros n. cbn [run_loop]. rewrite H5. destruct (poll i); [|done|done]. rewrite H7, (bool_decide_true ([] = [])) by done. rewrite H4. destruct exhausted; [done|]. unfold FetchFromSource. rewrite H3.
    assert (∀ c r src', (let s1 := with_chunk 0 c (with_source src' false s) in if bool_decide (r = SOURCE_FINISHED) then with_source (local_source_state_ s1) true s1 else s1) = with_source src' (bool_decide (r = SOURCE_FINISHED)) (with_chunk 0 c s)) as Es by (by intros c []).
    destruct dead_; cbn [mbind result_bind].
    - rewrite !(bool_decide_true (SOURCE_FINISHED = _)) by done. fields. rewrite H2, H3, (list_lookup_insert_eq _ 0%nat) by lia. done.
    - destruct (get_data src) as [[[c r] src']|e]; [|done]. cbn [mbind result_bind]. rewrite H4. cbn zeta in Es. rewrite Es. fields. rewrite (list_lookup_insert_eq _ 0%nat) by lia. rewrite H2. done. }
  destruct (poll i); [|eapply evals_to_step; [exact E|]; eapply evals_to_const; [done|]; by eexists|by eapply evals_to_step; [exact E|]; eapply evals_to_const].
  destruct exhausted; [eapply evals_to_step; [exact E|]; eapply evals_to_const; [done|]; by eexists|].
  destruct (if dead_ then Ok (empty, SOURCE_FINISHED, src) else get_data src) as [[[c r] src']|e]; cbn [mbind result_bind] in *; [|by eapply evals_to_step; [exact E|]; eapply evals_to_const].
  set (s1 := with_source src' (bool_decide (r = SOURCE_FINISHED)) (with_chunk 0 c s)) in *. cbn zeta in E. destruct (bool_decide (csize c = 0%nat)) eqn:Ec.
  { eapply evals_to_step; [exact E|]. apply IH; unfold s1; fields; rewrite ?length_insert; done. }
  apply bool_decide_eq_false in Ec. eapply evals_to_step; [exact E|].
  eapply evals_to_bind; [apply (ExecutePushInternal_sim fuel ops c (set_batch (source_batch src') k) (with_sink (set_batch (source_batch src') k) s1)); unfold s1; fields; rewrite ?length_insert; try done; [lia|]|].
  { intros Eb. rewrite Eb in Hb. done. }
  destruct (push fuel ops c (set_batch (source_batch src') k)) as [[[ops' k'] fin]|e] eqn:Ep; cbn [mbind result_bind] in *; [|by intros r0 ->].
  intros r0 (s' & -> & F1 & F2 & [G1 G2 G3 G4 G5] & F4). unfold s1 in G1, G2, G3, G4, G5. fields_in G1. fields_in G2. fields_in G3. fields_in G4. fields_in G5. rewrite length_insert in G5. destruct fin.
  - rewrite bool_decide_true by done. eapply (evals_to_step _ (λ _, Ok (S i, with_flags true (finalized_ s') s'))); [intros n; cbn [run_loop]; done|]. eapply evals_to_const; [done|]. eexists. split; [done|]. fields. rewrite G4. done.
  - rewrite bool_decide_false by done. apply IH; try done; try congruence; [by apply F4|]. rewrite G5, H8. by rewrite (push_length _ _ _ _ _ _ _ Ep).
Qed.
Definition ends (r : result (nat * R * list OpInst * K)) (out : result Executor) : Prop :=
  match r with
  | Err e => out = Err e
  | Ok (i, src, ops, k) =>
      match poll i with
      | CANCELLED => out = Err cancelled
      | _ => match combine k with
             | Err e => out = Err e
             | Ok k => ∃ s, out = Ok s ∧ intermediate_states_ s = ops ∧ local_sink_state_ s = k ∧ local_source_state_ s = src ∧ finalized_ s = true
             end
      end
  end.
Lemma Run_sim fuel src ops k : push_all fuel 0 src false ops k ≠ Err EBlocked →
  evals_to (λ n, Run csize empty sink combine get_data source_batch set_batch dead_ poll n (new_PipelineExecutor empty src ops k)) (ends (push_all fuel 0 src false ops k)).
Proof.
  intros Hb. unfold Run. eapply evals_to_bind; [apply (run_sim fuel 0 src false ops k); try done; simpl; by rewrite length_replicate|]. destruct (push_all fuel 0 src false ops k) as [[[[i src'] ops'] k']|e]; [|by intros r ->].
  intros r (s & -> & H1 & H2 & H3 & H4). unfold ends. destruct (poll i); [| |by eapply evals_to_const].
  all: unfold PushFinalize; rewrite H4; fields; rewrite H2; eapply evals_to_const; [done|]; destruct (combine k') as [k2|e]; [|done]; cbn [mbind result_bind]; eexists; split; [done|]; fields; done.
Qed.
End run.

(** * What a pipeline computes

    An operator that answers every chunk with the rows of a function applied row by row is composed with others,
    and with a sink that keeps what it gets, by the executor. *)

(** ** Row by row *)

(** The output follows the order of the input; the rows that come from one row may be in any order. *)
Definition row_wise {A B} (f : A → list B) (ins : list A) (outs : list B) : Prop := ∃ parts, outs = concat parts ∧ Forall2 (λ a p, p ≡ₚ f a) ins parts.
Lemma row_wise_nil {A B} (f : A → list B) : row_wise f [] [].
Proof. by exists []. Qed.
Lemma row_wise_app {A B} (f : A → list B) xs xs' ys ys' : row_wise f xs ys → row_wise f xs' ys' → row_wise f (xs ++ xs') (ys ++ ys').
Proof. intros (ps & -> & H) (ps' & -> & H'). exists (ps ++ ps'). split; [by rewrite concat_app|by apply Forall2_app]. Qed.
Lemma row_wise_cons {A B} (f : A → list B) x xs p ys : p ≡ₚ f x → row_wise f xs ys → row_wise f (x :: xs) (p ++ ys).
Proof. intros Hp (ps & -> & H). exists (p :: ps). split; [done|]. by constructor. Qed.
Lemma row_wise_id {A} (xs : list A) : row_wise (λ x, [x]) xs xs.
Proof. exists ((λ x, [x]) <$> xs). split; [induction xs; [done|]; cbn; by f_equal|]. apply Forall2_fmap_r, Forall_Forall2_diag, Forall_forall. intros x _. unfold compose. reflexivity. Qed.
Lemma row_wise_app_inv {A B} (f : A → list B) xs xs' ys : row_wise f (xs ++ xs') ys → ∃ zs zs', ys = zs ++ zs' ∧ row_wise f xs zs ∧ row_wise f xs' zs'.
Proof.
  intros (ps & -> & H). apply Forall2_app_inv_l in H as (ps1 & ps2 & H1 & H2 & ->). exists (concat ps1), (concat ps2). split; [by rewrite concat_app|]. split; [by exists ps1|by exists ps2].
Qed.
Lemma row_wise_perm {A B} (f : A → list B) xs ys : row_wise f xs ys → ys ≡ₚ xs ≫= f.
Proof. intros (ps & -> & H). induction H as [|x p xs ps Hp H IH]; [done|]. cbn. by rewrite Hp, IH. Qed.
Lemma row_wise_compose {A B D} (f : A → list B) (g : B → list D) xs ys zs : row_wise f xs ys → row_wise g ys zs → row_wise (λ x, f x ≫= g) xs zs.
Proof.
  intros (ps & -> & H). revert zs. induction H as [|x p xs ps Hp H IH]; intros zs Hz.
  - destruct Hz as (qs & -> & Hq). apply Forall2_nil_inv_l in Hq as ->. apply row_wise_nil.
  - cbn [concat] in Hz. apply row_wise_app_inv in Hz as (z1 & z2 & -> & H1 & H2). change (x :: xs) with ([x] ++ xs). apply row_wise_app; [|by apply IH].
    exists [z1]. split; [cbn; by rewrite app_nil_r|]. constructor; [|done]. rewrite (row_wise_perm _ _ _ H1). by apply bind_Permutation.
Qed.

Section flow.
Context {C Row : Type} (csize : C → nat) (rows : C → list Row) (Hrows : ∀ c, length (rows c) = csize c).
Abbreviation OpInst := (@OpInst C).
Abbreviation StreamOp := (@StreamOp C).

(** ** Operators *)

(** Between two inputs the operator is at [rest].  A chunk [Pin] allows takes finitely many calls; what is pushed on is as [Pout] says. *)
Record streams (Pin Pout : C → Prop) (f : Row → list Row) (op : StreamOp) (rest : so_state op → Prop) : Prop := {
  st_drain : ∀ s c, rest s → Pin c → (0 < csize c)%nat → ∃ fuel outs s', drain (so_exec op c) fuel s = Ok (outs, NEED_MORE_INPUT, s') ∧ rest s' ∧
    Forall (λ out, csize out = 0%nat ∨ Pout out) outs ∧ row_wise f (rows c) (concat (rows <$> outs));
  st_more : ∀ s c out s', so_exec op c s = Ok (out, HAVE_MORE_OUTPUT, s') → (0 < csize out)%nat }.

Context {K R : Type} (sink : C → K → result (SinkResultType * K)).
(** What a sink has received, with the batch index it had; the index, and what it does not touch. *)
Context {G : Type} (received : K → list (Z * list Row)) (batch : K → Z) (shared : K → G).
Definition kept (k k' : K) : Prop := batch k' = batch k ∧ shared k' = shared k.
Definition appends (P : C → Prop) : Prop :=
  ∀ c k, P c → (0 < csize c)%nat → ∃ k', sink c k = Ok (SINK_NEED_MORE_INPUT, k') ∧ received k' = received k ++ [(batch k, rows c)] ∧ kept k k'.

(** Operators in a row, up to a sink that takes what [Psink] allows. *)
Inductive flows (Psink : C → Prop) : (C → Prop) → list OpInst → (Row → list Row) → Prop :=
  | flows_sink (Pin : C → Prop) : (∀ c, Pin c → Psink c) → flows Psink Pin [] (λ r, [r])
  | flows_op Pin Pout op rest s f ops g : streams Pin Pout f op rest → rest s → flows Psink Pout ops g → flows Psink Pin (mkInst op s :: ops) (λ r, f r ≫= g).

Abbreviation push := (push csize sink).
Lemma push_mono fuel : ∀ fuel' ops c k x, (fuel ≤ fuel')%nat → push fuel ops c k = Ok x → push fuel' ops c k = Ok x.
Proof.
  induction fuel as [|fuel IH]; intros fuel' ops c k x Hf E; [done|]. destruct fuel' as [|fuel']; [lia|]. cbn [PipelineExecutor.push] in *. destruct ops as [|o os]; [done|].
  destruct (op_Execute c o) as [[[out res] o1]|]; [|done]. cbn [mbind result_bind] in *. destruct res; [| |done].
  - case_bool_decide; [done|]. destruct (push fuel os out k) as [y|] eqn:Ey; [|done]. by rewrite (IH fuel' _ _ _ y ltac:(lia) Ey).
  - case_bool_decide; [done|]. destruct (push fuel os out k) as [y|] eqn:Ey; [|done]. rewrite (IH fuel' _ _ _ y ltac:(lia) Ey). destruct y as [[os1 k1] f1]. cbn [mbind result_bind] in *. destruct f1; [done|]. apply IH; [lia|done].
Qed.

Context (Psink : C → Prop) (Hsink : appends Psink).
Definition pushes (f : Row → list Row) (Pin : C → Prop) (ops : list OpInst) (ins : list Row) (k : K) (r : nat → result (list OpInst * K * bool)) : Prop :=
  ∃ fuel ops' k' new, r fuel = Ok (ops', k', false) ∧ flows Psink Pin ops' f ∧ received k' = received k ++ ((batch k,.) <$> new) ∧ kept k k' ∧ row_wise f ins (concat new).
(** All the output an operator owes for [c], pushed on. *)
Lemma push_drain (Pout : C → Prop) g op c (Hmore : ∀ s out s', so_exec op c s = Ok (out, HAVE_MORE_OUTPUT, s') → (0 < csize out)%nat) n :
  (∀ os out k, length os = n → flows Psink Pout os g → Pout out → (0 < csize out)%nat → pushes g Pout os (rows out) k (λ fuel, push fuel os out k)) →
  ∀ d s os k outs s', drain (so_exec op c) d s = Ok (outs, NEED_MORE_INPUT, s') → length os = n → flows Psink Pout os g → Forall (λ out, csize out = 0%nat ∨ Pout out) outs →
  ∃ fuel os' k' new, push fuel (mkInst op s :: os) c k = Ok (mkInst op s' :: os', k', false) ∧ flows Psink Pout os' g ∧ received k' = received k ++ ((batch k,.) <$> new) ∧ kept k k' ∧
    row_wise g (concat (rows <$> outs)) (concat new).
Proof.
  intros IH. induction d as [|d IHd]; intros s os k outs s' E Hn Hfl HP; [done|]. cbn [drain] in E. destruct (so_exec op c s) as [[[out res] s1]|] eqn:Ex; [|done]. cbn [mbind result_bind] in E.
  assert (op_Execute c (mkInst op s) = Ok (out, res, mkInst op s1)) as Eo by (unfold op_Execute; cbn [inst_op inst_state]; by rewrite Ex).
  assert (csize out = 0%nat → rows out = []) as Hnil by (intros Hz; apply nil_length_inv; by rewrite Hrows). destruct res; [| |done].
  - injection E as <- <-. apply Forall_cons in HP as [HP _]. cbn. rewrite app_nil_r. destruct (decide (csize out = 0%nat)) as [Hz|Hz].
    + exists 1%nat, os, k, []. cbn [PipelineExecutor.push]. rewrite Eo. cbn [mbind result_bind]. rewrite bool_decide_true by done. split; [done|]. split; [done|]. split; [by rewrite app_nil_r|]. split; [done|]. rewrite Hnil by done. apply row_wise_nil.
    + destruct (IH os out k Hn Hfl) as (fuel & os' & k' & new & Ep & H1 & H2 & H3 & H4); [destruct HP as [HP|HP]; [lia|exact HP]|lia|]. exists (S fuel), os', k', new. cbn [PipelineExecutor.push]. rewrite Eo. cbn [mbind result_bind]. rewrite bool_decide_false by done. by rewrite Ep.
  - destruct (drain (so_exec op c) d s1) as [[[outs1 res1] s2]|] eqn:Ed; [|done]. cbn [mbind result_bind] in E. injection E as <- -> <-. apply Forall_cons in HP as [HP HPs]. pose proof (Hmore _ _ _ Ex) as Hz.
    destruct (IH os out k Hn Hfl) as (fuel & os' & k' & new & Ep & H1 & H2 & H3 & H4); [destruct HP; [lia|done]|done|].
    destruct (IHd s1 os' k' outs1 s2 Ed) as (fuel' & os2 & k2 & new2 & Ep2 & F1 & F2 & F3 & F4); [by rewrite (push_length _ _ _ _ _ _ _ _ _ Ep)|done..|].
    exists (S (Nat.max fuel fuel')), os2, k2, (new ++ new2). cbn [PipelineExecutor.push]. rewrite Eo. cbn [mbind result_bind]. rewrite (bool_decide_false (csize out = 0%nat)) by lia. rewrite (push_mono fuel (Nat.max fuel fuel') _ _ _ _ ltac:(lia) Ep). cbn [mbind result_bind].
    split; [by apply (push_mono fuel'); [lia|]|]. split; [done|]. destruct H3 as [H3 H3'], F3 as [F3 F3']. split; [by rewrite F2, H2, H3, fmap_app, <- app_assoc|]. split; [split; congruence|]. cbn [fmap list_fmap concat]. rewrite concat_app. by apply row_wise_app.
Qed.
Lemma push_flows n : ∀ ops Pin f c k, length ops = n → flows Psink Pin ops f → Pin c → (0 < csize c)%nat → pushes f Pin ops (rows c) k (λ fuel, push fuel ops c k).
Proof.
  induction n as [|n IH]; intros ops Pin f c k Hn Hfl HP Hc; destruct ops as [|o ops]; try done.
  - inversion Hfl as [? Himp|]; subst. destruct (Hsink c k (Himp c HP) Hc) as (k' & E & Hr & Hb). exists 1%nat, [], k', [rows c]. cbn [PipelineExecutor.push]. rewrite E. cbn [mbind result_bind]. split; [done|]. split; [by constructor|]. split; [done|]. split; [done|]. cbn. rewrite app_nil_r. apply row_wise_id.
  - inversion Hfl as [|? Pout op rest s f1 ? g Hst Hr Hfl']; subst. injection Hn as Hn. destruct (st_drain _ _ _ _ _ Hst s c Hr HP Hc) as (d & outs & s' & Ed & Hr' & HPo & Hw).
    destruct (push_drain Pout g op c (λ s, st_more _ _ _ _ _ Hst s c) n) with (d := d) (s := s) (os := ops) (k := k) (outs := outs) (s' := s') as (fuel & os' & k' & new & E & H1 & H2 & H3 & H4); try done.
    { intros os out k1 Hl Hf HPo1 Ho. by apply IH. }
    exists fuel, (mkInst op s' :: os'), k', new. split; [done|]. split; [by econstructor|]. split; [done|]. split; [done|]. by eapply row_wise_compose.
Qed.

(** ** A task *)

Context (empty : C) (get_data : R → result (C * SourceResultType * R)) (source_batch : R → Z) (set_batch : Z → K → K).
Context (Hreceived : ∀ b k, received (set_batch b k) = received k) (Hbatch : ∀ b k, batch (set_batch b k) = b) (Hshared : ∀ b k, shared (set_batch b k) = shared k).
(** The chunks a source gives, with the batch of each. *)
Inductive yields : R → list (Z * C) → Prop :=
  | yields_last src c src' : get_data src = Ok (c, SOURCE_FINISHED, src') → yields src [(source_batch src', c)]
  | yields_more src c src' cs : get_data src = Ok (c, SOURCE_HAVE_MORE_OUTPUT, src') → yields src' cs → yields src ((source_batch src', c) :: cs).
(** What a sink gets from one chunk of the source. *)
Definition delivered (f : Row → list Row) (bc : Z * C) (new : list (Z * list Row)) : Prop := Forall (λ x, x.1 = bc.1) new ∧ row_wise f (rows bc.2) (concat new.*2).
Abbreviation push_all := (push_all csize empty sink get_data source_batch set_batch false (λ _, GO)).
Lemma push_all_flows src cs : yields src cs → ∀ i ops Pin f k, flows Psink Pin ops f → Forall (λ bc, csize bc.2 = 0%nat ∨ Pin bc.2) cs →
  ∃ fuel i' src' ops' k' news, push_all fuel i src false ops k = Ok (i', src', ops', k') ∧ received k' = received k ++ concat news ∧ shared k' = shared k ∧ Forall2 (delivered f) cs news.
Proof.
  assert (∀ i ops Pin f k c src' (r : SourceResultType), flows Psink Pin ops f → csize c = 0%nat ∨ Pin c → ∃ fuel ops' k' new, flows Psink Pin ops' f ∧ received k' = received k ++ new ∧ shared k' = shared k ∧ delivered f (source_batch src', c) new ∧
    ∀ n : nat, (fuel ≤ n)%nat → (if bool_decide (csize c = 0%nat) then push_all n (S i) src' (bool_decide (r = SOURCE_FINISHED)) ops k else
      '(ops, k, fin) ← push n ops c (set_batch (source_batch src') k); if (fin : bool) then Ok (S i, src', ops, k) else push_all n (S i) src' (bool_decide (r = SOURCE_FINISHED)) ops k)
      = push_all n (S i) src' (bool_decide (r = SOURCE_FINISHED)) ops' k') as Hone.
  { intros i ops Pin f k c src' r Hfl HP. destruct (decide (csize c = 0%nat)) as [Hz|Hz].
    - exists 0%nat, ops, k, []. split; [done|]. split; [by rewrite app_nil_r|]. split; [done|]. split; [|intros n _; by rewrite bool_decide_true]. split; [done|]. cbn [snd]. rewrite (nil_length_inv (rows c)) by (by rewrite Hrows). apply row_wise_nil.
    - destruct HP as [HP|HP]; [done|]. destruct (push_flows _ ops Pin f c (set_batch (source_batch src') k) eq_refl Hfl HP ltac:(lia)) as (fuel & ops' & k' & new & E & H1 & H2 & H3 & H4). rewrite Hreceived, Hbatch in H2.
      exists fuel, ops', k', ((source_batch src',.) <$> new). split; [done|]. split; [done|]. split; [destruct H3 as [_ ->]; apply Hshared|]. split.
      + split; [apply Forall_fmap, Forall_forall; done|]. cbn [snd]. by rewrite <- list_fmap_compose, list_fmap_id.
      + intros n Hn. rewrite bool_decide_false by done. by rewrite (push_mono fuel n _ _ _ _ Hn E). }
  induction 1 as [src c src' E|src c src' cs E Hy IH]; intros i ops Pin f k Hfl HP.
  - apply Forall_cons in HP as [HP _]. destruct (Hone i ops Pin f k c src' SOURCE_FINISHED Hfl HP) as (fuel & ops' & k' & new & H1 & H2 & Hg & H3 & H4). exists (S (S fuel)), (S (S i)), src', ops', k', [new]. split; [|cbn; rewrite app_nil_r; split; [done|]; split; [done|]; constructor; [done|apply Forall2_nil; done]].
    specialize (H4 (S fuel) ltac:(lia)). remember (S fuel) as n eqn:En. cbn [PipelineExecutor.push_all]. rewrite E. cbn [mbind result_bind]. cbn zeta. rewrite H4, En. cbn [PipelineExecutor.push_all]. by rewrite bool_decide_true.
  - apply Forall_cons in HP as [HP HPs]. destruct (Hone i ops Pin f k c src' SOURCE_HAVE_MORE_OUTPUT Hfl HP) as (fuel & ops' & k' & new & H1 & H2 & Hg & H3 & H4).
    destruct (IH (S i) ops' Pin f k' H1 HPs) as (fuel2 & i2 & src2 & ops2 & k2 & news & E2 & F2 & Fg & F3). 
    assert (∀ a b i src ex ops k x, (a ≤ b)%nat → push_all a i src ex ops k = Ok x → push_all b i src ex ops k = Ok x) as Hmono.
    { clear. induction a as [|a IH]; intros [|b] i src ex ops k x Hab E; [done|done|lia|]. cbn [PipelineExecutor.push_all] in *. destruct ex; [done|]. destruct (get_data src) as [[[c r] src']|]; [|done]. cbn [mbind result_bind] in *. case_bool_decide; [apply IH; [lia|done]|].
      destruct (push a ops c (set_batch (source_batch src') k)) as [y|] eqn:Ey; [|done]. rewrite (push_mono a b _ _ _ y ltac:(lia) Ey). destruct y as [[os1 k1] f1]. cbn [mbind result_bind] in *. destruct f1; [done|]. apply IH; [lia|done]. }
    exists (S (Nat.max fuel fuel2)), i2, src2, ops2, k2, (new :: news). split; [|split; [cbn; by rewrite F2, H2, <- app_assoc|split; [congruence|by constructor]]].
    cbn [PipelineExecutor.push_all]. rewrite E. cbn [mbind result_bind]. cbn zeta. rewrite H4 by lia. rewrite (bool_decide_false (SOURCE_HAVE_MORE_OUTPUT = SOURCE_FINISHED)) by done. apply (Hmono fuel2); [lia|done].
Qed.
End flow.
