(* ===== verification/ResultCollector.v ===== *)
(** * The result collector ([execution/operator/helper/physical_result_collector.h])

    The root sink of a SELECT.  A task keeps the chunks it gets, flattened, with the batch index of the source
    chunk they come from; the tasks' buffers are put together as they finish, and sorted by batch at the end. *)

From stdpp Require Import sorting.
From S2P Require Import Prelude TablePage TableHeap BTreePage BPlusTree GenericKey StringHeap ValidityMask SortKey VectorOps StreamOperator RowFormat HashInvariant VectorHash HashSystem HashJoin JoinProbe JoinExecute.

(** A [DataChunk]: its columns and its cardinality. *)
Abbreviation Chunk := (list Vector * nat)%type.

(** [ls_batch_idx_] is the [batch_idx_] every local sink state has. *)
Record ResultCollectorLocalState := mkCollectorLocal { ls_batch_idx_ : Z; ls_chunks_ : list (Z * Chunk) }.
Record ResultCollectorGlobalState := mkCollectorGlobal { chunks_ : list Chunk; tagged_ : list (Z * Chunk) }.
Definition new_CollectorLocal : ResultCollectorLocalState := mkCollectorLocal 0 [].
Definition new_CollectorGlobal : ResultCollectorGlobalState := mkCollectorGlobal [] [].
Definition RowCount (gs : ResultCollectorGlobalState) : nat := sum_list (snd <$> chunks_ gs).
Definition TakeChunks (gs : ResultCollectorGlobalState) : list Chunk * ResultCollectorGlobalState := (chunks_ gs, mkCollectorGlobal [] []).

(** [std::stable_sort] by the first component. *)
Fixpoint stable_insert {A} (x : Z * A) (l : list (Z * A)) : list (Z * A) :=
  match l with
  | [] => [x]
  | y :: l' => if bool_decide (y.1 < x.1) then y :: stable_insert x l' else x :: l
  end.
Definition stable_sort {A} (l : list (Z * A)) : list (Z * A) := foldr stable_insert [] l.

Section collector.
Context (junk : byte) (junk_cell : cell) (types : list PhysicalType).
(** [DataChunk::Normalify]; the clone it works on shares the columns. *)
Fixpoint chunk_Normalify (types : list PhysicalType) (n : nat) (vs : list Vector) : result (list Vector) :=
  match types, vs with
  | ty :: types, v :: vs => v ← Normalify junk junk_cell ty n v; vs ← chunk_Normalify types n vs; Ok (v :: vs)
  | _, _ => Ok []
  end.
Definition Collector_Sink (input : Chunk) (ls : ResultCollectorLocalState) : result (SinkResultType * ResultCollectorLocalState) :=
  owned ← chunk_Normalify types input.2 input.1;
  Ok (SINK_NEED_MORE_INPUT, mkCollectorLocal (ls_batch_idx_ ls) (ls_chunks_ ls ++ [(ls_batch_idx_ ls, (owned, input.2))])).
End collector.
Definition Collector_Combine (gs : ResultCollectorGlobalState) (ls : ResultCollectorLocalState) : ResultCollectorGlobalState * ResultCollectorLocalState :=
  (mkCollectorGlobal (chunks_ gs) (tagged_ gs ++ ls_chunks_ ls), mkCollectorLocal (ls_batch_idx_ ls) []).
Definition Collector_Finalize (gs : ResultCollectorGlobalState) : SinkFinalizeType * ResultCollectorGlobalState :=
  (READY, mkCollectorGlobal (chunks_ gs ++ (stable_sort (tagged_ gs)).*2) []).

(** ** Sorting by batch *)

Section sorting.
Context {A : Type}.
Definition batch_le (x y : Z * A) : Prop := x.1 ≤ y.1.
Definition of_batch (b : Z) (l : list (Z * A)) : list (Z * A) := filter (λ x, x.1 = b) l.
Lemma stable_insert_perm (x : Z * A) l : stable_insert x l ≡ₚ x :: l.
Proof. induction l as [|y l IH]; [done|]. simpl. case_bool_decide; [|done]. rewrite IH. apply Permutation_swap. Qed.
Lemma stable_sort_perm (l : list (Z * A)) : stable_sort l ≡ₚ l.
Proof. induction l as [|x l IH]; [done|]. simpl. by rewrite stable_insert_perm, IH. Qed.
Lemma stable_insert_sorted (x : Z * A) l : StronglySorted batch_le l → StronglySorted batch_le (stable_insert x l).
Proof.
  induction l as [|y l IH]; intros Hs; simpl; [by repeat constructor|]. apply StronglySorted_inv in Hs as [Hs Hy]. case_bool_decide as Hlt.
  - constructor; [by apply IH|]. rewrite stable_insert_perm. constructor; [unfold batch_le; lia|done].
  - assert (batch_le x y) by (unfold batch_le; lia). constructor; [by constructor|]. constructor; [done|]. eapply Forall_impl; [exact Hy|]. unfold batch_le in *. intros z Hz. simpl in Hz. lia.
Qed.
Lemma stable_sort_sorted (l : list (Z * A)) : StronglySorted batch_le (stable_sort l).
Proof. induction l; [constructor|]. by apply stable_insert_sorted. Qed.
Lemma of_batch_insert b (x : Z * A) l : of_batch b (stable_insert x l) = of_batch b (x :: l).
Proof.
  induction l as [|y l IH]; [done|]. simpl. case_bool_decide as Hlt; [|done]. unfold of_batch in *. rewrite filter_cons, IH, !filter_cons. repeat case_decide; try done. lia.
Qed.
(** The order within a batch is kept. *)
Lemma stable_sort_batch b (l : list (Z * A)) : of_batch b (stable_sort l) = of_batch b l.
Proof. induction l as [|x l IH]; [done|]. simpl. rewrite of_batch_insert. unfold of_batch in *. rewrite !filter_cons, IH. done. Qed.
Lemma of_batch_app b (l k : list (Z * A)) : of_batch b (l ++ k) = of_batch b l ++ of_batch b k.
Proof. apply filter_app. Qed.
Lemma of_batch_all b (l : list (Z * A)) : Forall (λ x, x.1 = b) l → of_batch b l = l.
Proof. induction 1 as [|x l Hx Hl IH]; [done|]. unfold of_batch in *. rewrite filter_cons, decide_True by done. by rewrite IH. Qed.
Lemma of_batch_none b (l : list (Z * A)) : (∀ x, x ∈ l → x.1 ≠ b) → of_batch b l = [].
Proof. apply filter_no_match. Qed.
(** A sorted list is its batches, one after the other. *)
Lemma sorted_batches bs (l : list (Z * A)) : StronglySorted Z.lt bs → StronglySorted batch_le l → (∀ x, x ∈ l → x.1 ∈ bs) → l = concat ((λ b, of_batch b l) <$> bs).
Proof.
  revert l. induction bs as [|b bs IH]; intros l Hbs Hl Hin.
  { destruct l as [|x l]; [done|]. specialize (Hin x ltac:(set_solver)). set_solver. }
  apply StronglySorted_inv in Hbs as [Hbs Hb]. rewrite Forall_forall in Hb.
  assert (∃ l1 l2, l = l1 ++ l2 ∧ Forall (λ x, x.1 = b) l1 ∧ (∀ x, x ∈ l2 → x.1 ∈ bs)) as (l1 & l2 & -> & H1 & H2).
  { clear IH. induction l as [|x l IHl]; [exists [], []; split; [done|]; split; [done|set_solver]|]. apply StronglySorted_inv in Hl as [Hl Hx]. destruct (decide (x.1 = b)) as [Hxb|Hxb].
    - destruct IHl as (l1 & l2 & -> & H1 & H2); [done|set_solver|]. exists (x :: l1), l2. split; [done|]. split; [by constructor|done].
    - exists [], (x :: l). split; [done|]. split; [done|]. assert (x.1 ∈ bs) as Hxin by (specialize (Hin x ltac:(set_solver)); set_solver). intros y [->|Hy]%elem_of_cons; [done|].
      rewrite Forall_forall in Hx. specialize (Hx y Hy). specialize (Hb _ Hxin). unfold batch_le in Hx. specialize (Hin y ltac:(set_solver)) as [Hyb|?]%elem_of_cons; [lia|done]. }
  assert (StronglySorted batch_le l2) as Hl2 by (by eapply StronglySorted_app_1_r). cbn [fmap list_fmap concat]. rewrite of_batch_app, (of_batch_none b l2), app_nil_r by (intros x Hx Hxb; specialize (Hb _ (H2 x Hx)); lia).
  f_equal; [by rewrite of_batch_all|]. rewrite (IH l2 Hbs Hl2 H2) at 1. f_equal. apply list_fmap_ext. intros i b' Hb'%list_elem_of_lookup_2. rewrite of_batch_app, (of_batch_none b' l1); [done|].
  intros x Hx Hxb. rewrite Forall_forall in H1. specialize (H1 x Hx). specialize (Hb _ Hb'). lia.
Qed.
End sorting.

(** ** Flattening keeps the rows *)

Definition storable_value (ty : PhysicalType) (v : option cell) : Prop := match v with Some c => storable ty c false | None => True end.
(** What the collector takes: at most a vector's worth of rows that can be read, with values of the types. *)
Record collectable (types : list PhysicalType) (c : Chunk) : Prop := {
  co_size : Z.of_nat c.2 ≤ STANDARD_VECTOR_SIZE;
  co_readable : readable_chunk c.1 c.2;
  co_columns : length c.1 = length types;
  co_values : Forall (λ row, Forall2 storable_value types row) (chunk_rows c.2 c.1) }.

Section flatten.
Context (junk : byte) (junk_cell : cell).
(** A NULL string is not looked at. *)
Definition as_string (c : cell) : cell := match c with CStr _ => c | CNum _ => CStr [] end.
Lemma data_at_fmap f data idx : data_at (f <$> data) idx = (c ← data_at data idx; Ok (f c)).
Proof. unfold data_at. rewrite list_lookup_fmap. by destruct (data !! Z.to_nat idx). Qed.
Lemma copy_cells_strings data validity idxs : ∀ t target, Forall (λ idx, mask_valid validity idx = true → ∃ s, data_at data idx = Ok (CStr s)) idxs →
  copy_cells junk STRING data validity idxs t target = copy_cells junk STRING (as_string <$> data) validity idxs t target.
Proof.
  induction idxs as [|idx idxs IH]; intros t target HF; [done|]. apply Forall_cons in HF as [Hi HF]. cbn [copy_cells].
  assert (copied_cell junk STRING data validity idx = copied_cell junk STRING (as_string <$> data) validity idx) as ->.
  { unfold copied_cell. destruct (mask_valid validity idx); [|done]. destruct (Hi eq_refl) as [s E]. by rewrite data_at_fmap, E. }
  destruct (copied_cell junk STRING (as_string <$> data) validity idx); [|done]. cbn [mbind result_bind]. case_bool_decide; [by apply IH|done].
Qed.
Lemma read_indices_Forall (P : Z → Prop) sel n : ∀ i idxs, read_indices sel i n = Ok idxs → (∀ j x, (j < n)%nat → GetIndex sel (i + Z.of_nat j) = Ok x → P x) → Forall P idxs.
Proof.
  induction n as [|n IH]; intros i idxs E HP; simpl in E; [by injection E as <-|]. destruct (GetIndex sel i) as [x|] eqn:Ex; [|done]. cbn [mbind result_bind] in E. destruct (read_indices sel (i + 1) n) as [rest|] eqn:Er; [|done]. cbn [mbind result_bind] in E. injection E as <-.
  constructor; [apply (HP 0%nat); [lia|by rewrite Z.add_0_r]|]. apply (IH (i + 1)); [done|]. intros j y Hj Ey. apply (HP (S j)); [lia|]. rewrite <- Ey. f_equal. lia.
Qed.
Lemma Normalify_strings sel data validity n : (∀ j x, (j < n)%nat → GetIndex (Some sel) (Z.of_nat j) = Ok x → mask_valid validity x = true → ∃ s, data_at data x = Ok (CStr s)) →
  Normalify junk junk_cell STRING n (DICTIONARY_VECTOR sel (FLAT_VECTOR data validity)) = Normalify junk junk_cell STRING n (DICTIONARY_VECTOR sel (FLAT_VECTOR (as_string <$> data) validity)).
Proof.
  intros Hv. unfold Normalify. rewrite !Vector_Copy_source. case_bool_decide; [|done]. cbn [negb source_of resolve mbind result_bind]. cbv zeta. case_bool_decide; [done|].
  destruct (read_indices (Some sel) 0 (Z.to_nat (Z.of_nat n - 0))) as [idxs|] eqn:E; [|done]. cbn [mbind result_bind]. rewrite copy_cells_strings; [done|].
  apply (read_indices_Forall _ _ _ _ _ E). intros j x Hj Ex. apply (Hv j x); [lia|]. by rewrite Z.add_0_l in Ex.
Qed.
Definition flat_col (data : list cell) (mask : option (list Z)) : VectorData := mkVectorData None data mask.
Lemma read_row_col v n col r : Orrify n v = Ok col → 0 ≤ r < Z.max n STANDARD_VECTOR_SIZE → read_row v n r = (c ← col_cell col r; ok ← col_valid col r; Ok (c, negb ok)).
Proof.
  intros E Hr. assert (∀ validity i, is_null_at validity i = negb (mask_valid validity i)) as Hnull by (by intros [] ?). destruct v as [data validity|data validity|sel [data validity| |]]; try done; cbn [Orrify] in E; injection E as <-;
    unfold col_cell, col_valid; cbn [vd_sel vd_data vd_validity read_row].
  - cbn [GetIndex mbind result_bind]. destruct (data_at data r); [|done]. cbn [mbind result_bind]. by rewrite Hnull.
  - assert (GetIndex (Some (replicate (Z.to_nat (Z.max n STANDARD_VECTOR_SIZE)) 0)) r = Ok 0) as -> by (unfold GetIndex; rewrite lookup_replicate_2 by lia; done). done.
  - cbn [Orrify mbind result_bind vd_sel vd_data vd_validity]. destruct (GetIndex (Some sel) r) as [x|]; [|done]. cbn [mbind result_bind]. destruct (data_at data x); [|done]. cbn [mbind result_bind]. by rewrite Hnull.
Qed.
Lemma col_value_read v n col r c b : Orrify n v = Ok col → 0 ≤ r < Z.max n STANDARD_VECTOR_SIZE → read_row v n r = Ok (c, b) → col_value col r = (if b then None else Some c) ∧ readable col r.
Proof.
  intros E Hr. rewrite (read_row_col v n col r E Hr). unfold col_value, readable. destruct (col_cell col r) as [x|]; [|done]. cbn [mbind result_bind]. destruct (col_valid col r) as [ok|]; [|done]. cbn [mbind result_bind].
  intros [= -> <-]. split; [by destruct ok|by eexists _, _].
Qed.
Lemma read_row_readable v n col r : Orrify n v = Ok col → 0 ≤ r < Z.max n STANDARD_VECTOR_SIZE → readable col r → ∃ c b, read_row v n r = Ok (c, b).
Proof. intros E Hr (b & x & Hb & Hx). rewrite (read_row_col v n col r E Hr), Hb, Hx. by eexists _, _. Qed.
(** Flattening a column keeps its values. *)
Lemma Normalify_value ty v n col : (0 < n)%nat → Z.of_nat n ≤ STANDARD_VECTOR_SIZE → Orrify (Z.of_nat n) v = Ok col → scalar ty = true →
  (∀ r, 0 ≤ r < Z.of_nat n → readable col r ∧ storable_value ty (col_value col r)) →
  ∃ data mask, Normalify junk junk_cell ty n v = Ok (FLAT_VECTOR data mask) ∧ ∀ r, 0 ≤ r < Z.of_nat n → col_value (flat_col data mask) r = col_value col r ∧ readable (flat_col data mask) r.
Proof.
  intros H0 Hmax E Hs Hr. assert (∀ w colw, Orrify (Z.of_nat n) w = Ok colw → (∀ r, 0 ≤ r < Z.of_nat n → readable colw r ∧ col_value colw r = col_value col r) →
    (∀ r, 0 ≤ r < Z.of_nat n → ∃ c b, read_row w (Z.of_nat n) r = Ok (c, b) ∧ storable ty c b) →
    ∃ data mask, Normalify junk junk_cell ty n w = Ok (FLAT_VECTOR data mask) ∧ ∀ r, 0 ≤ r < Z.of_nat n → col_value (flat_col data mask) r = col_value col r ∧ readable (flat_col data mask) r) as Hvia.
  { intros w colw Ew Hw Hst. destruct (Normalify_ok junk junk_cell ty w n H0 Hmax) as (data & mask & En & Hsame); [intros r Hlt; apply Hst; lia|]. exists data, mask. split; [done|]. intros r Hi.
    destruct (Hsame (Z.to_nat r) ltac:(lia) (Z.of_nat n)) as (c & c' & b & E1 & E2 & Hc & _). rewrite Z2Nat.id in * by lia. destruct (col_value_read _ _ colw r c b Ew ltac:(lia) E1) as [V1 _].
    destruct (col_value_read (FLAT_VECTOR data mask) (Z.of_nat n) (flat_col data mask) r c' b eq_refl ltac:(lia) E2) as [V2 R2]. split; [|done]. destruct (Hw r Hi) as [_ <-]. rewrite V1, V2. destruct b; [done|]. by rewrite Hc. }
  destruct (decide (ty = STRING)) as [->|Hty].
  2:{ apply (Hvia v col E); [intros r Hi; split; [by apply Hr|done]|]. intros r Hi. destruct (Hr r Hi) as [Hrd _]. destruct (read_row_readable _ _ _ r E ltac:(lia) Hrd) as (c & b & Er). exists c, b. split; [done|]. by destruct ty. }
  destruct v as [data validity|x validity|sel [data validity| |]]; try done; cbn [Orrify] in E; injection E as <-.
  - exists data, validity. split; [done|]. intros r Hi. split; [done|]. by apply Hr.
  - destruct (Hr 0 ltac:(lia)) as [_ Hv]. unfold Normalify. cbn [flattens mbind result_bind]. rewrite bool_decide_false by lia.
    set (data := replicate n x ++ replicate (Z.to_nat STANDARD_VECTOR_SIZE - n) junk_cell). assert (∀ r, 0 ≤ r < Z.of_nat n → data_at data r = Ok x) as Hd.
    { intros r Hi. unfold data_at, data. rewrite lookup_app_l by (rewrite length_replicate; lia). by rewrite lookup_replicate_2 by lia. }
    assert (∀ r, 0 ≤ r < Z.of_nat n → GetIndex (Some (replicate (Z.to_nat (Z.max (Z.of_nat n) STANDARD_VECTOR_SIZE)) 0)) r = Ok 0) as Hg by (intros r Hi; unfold GetIndex; by rewrite lookup_replicate_2 by lia).
    destruct (mask_valid validity 0) eqn:Em.
    + exists data, None. split; [done|]. intros r Hi. unfold col_value, readable, col_valid, col_cell, flat_col. cbn [vd_sel vd_data vd_validity]. rewrite !Hg by done. cbn [GetIndex mbind result_bind]. rewrite !Hd by done. cbn [mbind result_bind mask_valid]. rewrite Em. split; [done|]. by eexists _, _.
    + destruct (with_mask_ok (SetAllInvalid (Z.of_nat n)) None (λ i b, i < Z.of_nat n → b = false)) as (mask & Es & Hm).
      { intros m st Hwf _. destruct (SetAllInvalid_ok st m (Z.of_nat n) Hwf) as (m' & st' & Es & Hf & Hv'). exists m', st'. split_and!; [done|by eapply frame_wf|]. intros i Hi. by apply Hv'. }
      rewrite Es. exists data, mask. split; [done|]. intros r Hi. unfold col_value, readable, col_valid, col_cell, flat_col. cbn [vd_sel vd_data vd_validity]. rewrite !Hg by done. cbn [GetIndex mbind result_bind]. rewrite !Hd by done. cbn [mbind result_bind]. rewrite Em, Hm by lia. split; [done|]. by eexists _, _.
  - assert (∀ j y, (j < n)%nat → GetIndex (Some sel) (Z.of_nat j) = Ok y → mask_valid validity y = true → ∃ s, data_at data y = Ok (CStr s) ∧ storable STRING (CStr s) false) as Hstr.
    { intros j y Hj Ey Hv. destruct (Hr (Z.of_nat j) ltac:(lia)) as [(b & c & _ & Hc) Hst]. unfold col_value, col_valid, col_cell in *. cbn [vd_sel vd_data vd_validity] in *. rewrite Ey in *. cbn [mbind result_bind] in *. rewrite Hv, Hc in Hst. destruct Hst as (s & -> & Hl). exists s. split; [done|]. by exists s. }
    rewrite Normalify_strings by (intros j y Hj Ey Hv; destruct (Hstr j y Hj Ey Hv) as (s & Hs' & _); by exists s).
    apply (Hvia (DICTIONARY_VECTOR sel (FLAT_VECTOR (as_string <$> data) validity)) (mkVectorData (Some sel) (as_string <$> data) validity) eq_refl).
    + intros r Hi. destruct (Hr r Hi) as [(b & c & Hb & Hc) _]. unfold readable, col_value, col_valid, col_cell in *. cbn [vd_sel vd_data vd_validity] in *. destruct (GetIndex (Some sel) r) as [y|] eqn:Ey; [|done]. cbn [mbind result_bind] in *.
      rewrite data_at_fmap, Hc. cbn [mbind result_bind]. split; [by eexists _, _|]. destruct (mask_valid validity y) eqn:Ev; [|done]. rewrite <- (Z2Nat.id r) in Ey by lia. destruct (Hstr (Z.to_nat r) y ltac:(lia) Ey Ev) as (s & Hs' & _). rewrite Hs' in Hc. by injection Hc as <-.
    + intros r Hi. destruct (Hr r Hi) as [(b & c & Hb & Hc) _]. unfold col_valid, col_cell in *. cbn [vd_sel vd_data vd_validity] in *. cbn [read_row Orrify mbind result_bind vd_sel vd_data vd_validity]. destruct (GetIndex (Some sel) r) as [y|] eqn:Ey; [|done]. cbn [mbind result_bind] in *.
      rewrite data_at_fmap, Hc. cbn [mbind result_bind]. eexists _, _. split; [done|]. rewrite <- (Z2Nat.id r) in Ey by lia. assert (is_null_at validity y = negb (mask_valid validity y)) as -> by (by destruct validity).
      destruct (mask_valid validity y) eqn:Ev; [destruct (Hstr (Z.to_nat r) y ltac:(lia) Ey Ev) as (s & Hs' & Hst); rewrite Hs' in Hc; by injection Hc as <-|]. destruct c as [z|s]; [by exists []|by exists s].
Qed.
End flatten.
Section collect.
Context (junk : byte) (junk_cell : cell).
Lemma chunk_Normalify_ok types : ∀ vs n cols, (0 < n)%nat → Z.of_nat n ≤ STANDARD_VECTOR_SIZE → Forall (λ ty, scalar ty = true) types → length vs = length types → chunk_Orrify (Z.of_nat n) vs = Ok cols →
  (∀ col idx, col ∈ cols → 0 ≤ idx < Z.of_nat n → readable col idx) → (∀ idx, 0 ≤ idx < Z.of_nat n → Forall2 storable_value types (chunk_row cols idx)) →
  ∃ vs' cols', chunk_Normalify junk junk_cell types n vs = Ok vs' ∧ chunk_Orrify (Z.of_nat n) vs' = Ok cols' ∧ ∀ idx, 0 ≤ idx < Z.of_nat n → chunk_row cols' idx = chunk_row cols idx.
Proof.
  induction types as [|ty types IH]; intros [|v vs] n cols H0 Hmax Hsc Hl Ec Hr Hv; try done.
  { exists [], []. injection Ec as <-. done. }
  apply Forall_cons in Hsc as [Hty Hsc]. simpl in Ec. destruct (Orrify (Z.of_nat n) v) as [col|] eqn:Ev; [|done]. simpl in Ec. destruct (chunk_Orrify (Z.of_nat n) vs) as [cols1|] eqn:Ecs; [|done]. simpl in Ec. injection Ec as <-.
  destruct (Normalify_value junk junk_cell ty v n col H0 Hmax Ev Hty) as (data & mask & En & Hd).
  { intros r Hi. split; [apply Hr; [set_solver|done]|]. specialize (Hv r Hi). by apply Forall2_cons_1 in Hv as [? _]. }
  destruct (IH vs n cols1) as (vs' & cols' & En' & Ec' & Hrow); try done; [by injection Hl|intros; apply Hr; [set_solver|done]|intros idx Hi; specialize (Hv idx Hi); by apply Forall2_cons_1 in Hv as [_ ?]|].
  exists (FLAT_VECTOR data mask :: vs'), (flat_col data mask :: cols'). cbn [chunk_Normalify]. rewrite En. cbn [mbind result_bind]. rewrite En'. split; [done|]. split; [simpl; by rewrite Ec'|]. intros idx Hi. unfold chunk_row in *. cbn [fmap list_fmap]. rewrite (Hrow idx Hi). f_equal. by apply Hd.
Qed.
(** The chunk the collector keeps has the rows of the chunk it got. *)
Lemma Collector_Sink_ok types c ls : Forall (λ ty, scalar ty = true) types → collectable types c → (0 < c.2)%nat →
  ∃ vs, Collector_Sink junk junk_cell types c ls = Ok (SINK_NEED_MORE_INPUT, mkCollectorLocal (ls_batch_idx_ ls) (ls_chunks_ ls ++ [(ls_batch_idx_ ls, (vs, c.2))])) ∧ chunk_rows c.2 vs = chunk_rows c.2 c.1.
Proof.
  intros Hsc [H1 (cols & Ec & Hr) H3 H4] H0. assert (∀ idx, 0 ≤ idx < Z.of_nat c.2 → chunk_row cols idx ∈ chunk_rows c.2 c.1) as Hin.
  { intros idx Hi. unfold chunk_rows. apply list_elem_of_fmap. exists (Z.to_nat idx). unfold rows_of. rewrite Ec, Z2Nat.id by lia. split; [done|]. apply elem_of_seq. lia. }
  destruct (chunk_Normalify_ok types c.1 c.2 cols H0 H1 Hsc H3 Ec Hr) as (vs & cols' & En & Ec' & Hrow).
  { intros idx Hi. rewrite Forall_forall in H4. by apply H4, Hin. }
  exists vs. unfold Collector_Sink. rewrite En. split; [done|]. unfold chunk_rows. apply list_fmap_ext. intros i j Hj. apply lookup_seq in Hj as [-> Hj]. unfold rows_of. rewrite Ec, Ec'. apply Hrow. lia.
Qed.
End collect.
