(* ===== verification/StreamOps.v ===== *)
(** * Tasks of a pipeline in parallel

    The tasks of a pipeline share its source and its sink.  A batch of the source goes to one task, in order; the
    collector puts the tasks' results together by batch, so that the result is the one a single task gives. *)

From stdpp Require Import sorting.
From S2P Require Import Prelude TablePage TableHeap Watermark Transaction BTreePage BPlusTree GenericKey StringHeap ValidityMask SortKey VectorOps SortKeyOrder StreamOperator RowFormat RowScatter PRLHashTable HashInvariant HashAppend HashGroups VectorHash HashSystem HashTheorems HashJoin JoinProbe JoinExecute JoinTheorems PipelineExecutor ResultCollector.

(** ** Batches *)

Lemma sorted_keys (l : list Z) : ∃ bs, StronglySorted Z.lt bs ∧ ∀ x, x ∈ l → x ∈ bs.
Proof.
  exists (merge_sort Z.le (remove_dups l)). split; [|intros x Hx; rewrite merge_sort_Permutation; by apply elem_of_remove_dups].
  assert (NoDup (merge_sort Z.le (remove_dups l))) as Hnd by (rewrite merge_sort_Permutation; apply NoDup_remove_dups). pose proof (StronglySorted_merge_sort Z.le (remove_dups l)) as Hs.
  induction Hs as [|x k Hk IH Hx]; constructor; apply NoDup_cons in Hnd as [Hn Hnd]; [by apply IH|]. rewrite Forall_forall in *. intros y Hy. specialize (Hx y Hy). assert (x ≠ y) by (by intros ->). lia.
Qed.
Section batches.
Context {C Row : Type} (rows : C → list Row) (f : Row → list Row).
Abbreviation delivered := (delivered rows f).
Lemma delivered_keys cs news x : Forall2 delivered cs news → x ∈ concat news → x.1 ∈ cs.*1.
Proof.
  induction 1 as [|bc new cs news [Hk _] _ IH]; [set_solver|]. cbn [concat fmap list_fmap]. intros [Hx|Hx]%elem_of_app; [|set_solver]. rewrite Forall_forall in Hk. rewrite (Hk x Hx). set_solver.
Qed.
Lemma delivered_batch b cs news : Forall2 delivered cs news → row_wise f (concat (rows <$> (of_batch b cs).*2)) (concat (of_batch b (concat news)).*2).
Proof.
  induction 1 as [|bc new cs news [Hk Hw] _ IH]; [apply row_wise_nil|]. cbn [concat]. rewrite of_batch_app, fmap_app, concat_app. unfold of_batch at 1. rewrite filter_cons. case_decide as Hb.
  - cbn [fmap list_fmap concat]. apply row_wise_app; [|done]. rewrite of_batch_all; [done|]. eapply Forall_impl; [exact Hk|]. simpl. congruence.
  - rewrite (of_batch_none b new); [done|]. intros x Hx. rewrite Forall_forall in Hk. by rewrite (Hk x Hx).
Qed.
Context (all : list (Z * C)) (owner : Z → nat).
Definition chunks_of (t : nat) : list (Z * C) := filter (λ bc, owner bc.1 = t) all.
Definition task_delivers (t : nat) (T : list (Z * list Row)) : Prop := ∃ news, T = concat news ∧ Forall2 delivered (chunks_of t) news.
Lemma task_owns t T x : task_delivers t T → x ∈ T → owner x.1 = t.
Proof. intros (news & -> & HF) Hx. apply (delivered_keys _ _ x HF) in Hx. apply list_elem_of_fmap in Hx as (bc & -> & Hbc). by apply list_elem_of_filter in Hbc as [? _]. Qed.
Lemma task_of ids Ts x : Forall2 task_delivers ids Ts → x ∈ concat Ts → ∃ t T, t ∈ ids ∧ task_delivers t T ∧ x ∈ T.
Proof.
  induction 1 as [|t T ids Ts HT _ IH]; [set_solver|]. cbn [concat]. intros [Hx|Hx]%elem_of_app; [exists t, T; set_solver|]. destruct (IH Hx) as (t' & T' & ? & ? & ?). exists t', T'. set_solver.
Qed.
Lemma tasks_batch b ids Ts : NoDup ids → Forall2 task_delivers ids Ts → owner b ∈ ids → row_wise f (concat (rows <$> (of_batch b all).*2)) (concat (of_batch b (concat Ts)).*2).
Proof.
  intros Hnd HF. induction HF as [|t T ids Ts HT HF IH]; [set_solver|]. apply NoDup_cons in Hnd as [Hn Hnd]. intros Hb. cbn [concat]. rewrite of_batch_app. destruct (decide (owner b = t)) as [Ht|Ht].
  - rewrite (of_batch_none b (concat Ts)), app_nil_r.
    + destruct HT as (news & -> & HD). pose proof (delivered_batch b _ _ HD) as Hw. replace (of_batch b (chunks_of t)) with (of_batch b all) in Hw; [done|].
      unfold of_batch, chunks_of. symmetry. apply list_filter_filter_l. intros bc Hbc. by rewrite Hbc.
    + intros x Hx Hxb. destruct (task_of _ _ _ HF Hx) as (t' & T' & Ht' & HD & Hx'). pose proof (task_owns _ _ _ HD Hx') as Ho. rewrite Hxb, Ht in Ho. by subst t'.
  - rewrite (of_batch_none b T); [apply IH; [done|set_solver]|]. intros x Hx Hxb. apply Ht. rewrite <- Hxb. by eapply task_owns.
Qed.
(** Sorted by batch, what the tasks delivered is what the chunks give one after the other. *)
Lemma in_serial_order ids Ts L : NoDup ids → Forall2 task_delivers ids Ts → (∀ bc, bc ∈ all → owner bc.1 ∈ ids) → StronglySorted batch_le all → StronglySorted batch_le L → (∀ b, of_batch b L = of_batch b (concat Ts)) →
  row_wise f (concat (rows <$> all.*2)) (concat L.*2).
Proof.
  intros Hnd HF Hown Hall HL Hb. destruct (sorted_keys all.*1) as (bs & Hbs & Hin).
  assert (∀ x, x ∈ L → x.1 ∈ bs) as HLin.
  { intros x Hx. assert (x ∈ of_batch x.1 (concat Ts)) as Hx' by (rewrite <- Hb; by apply list_elem_of_filter). apply list_elem_of_filter in Hx' as [_ Hx']. destruct (task_of _ _ _ HF Hx') as (t & T & _ & (news & -> & HD) & HxT). apply Hin. apply (delivered_keys _ _ x HD) in HxT. apply list_elem_of_fmap in HxT as (bc & -> & Hbc). apply list_elem_of_filter in Hbc as [_ Hbc]. by apply list_elem_of_fmap_2. }
  rewrite (sorted_batches bs L Hbs HL HLin). rewrite (sorted_batches bs all Hbs Hall) by (intros x Hx; by apply Hin, list_elem_of_fmap_2). clear HLin Hin Hbs.
  induction bs as [|b bs IH]; [apply row_wise_nil|]. cbn [fmap list_fmap concat]. rewrite !fmap_app, !concat_app. apply row_wise_app; [|exact IH]. rewrite Hb. destruct (decide (owner b ∈ ids)) as [Hi|Hi]; [by eapply tasks_batch|].
  rewrite (of_batch_none b all); [|intros bc Hbc Hbb; apply Hi; rewrite <- Hbb; by apply Hown]. rewrite (of_batch_none b (concat Ts)); [apply row_wise_nil|].
  intros x Hx Hxb. destruct (task_of _ _ _ HF Hx) as (t & T & Ht & HD & HxT). apply Hi. by rewrite <- Hxb, (task_owns _ _ _ HD HxT).
Qed.
End batches.

(** ** A task with the collector as its sink *)

(** A task's sink state is its own; the global one is touched by [Combine] alone, under its lock. *)
Abbreviation TaskSink := (ResultCollectorLocalState * ResultCollectorGlobalState)%type.
Definition no_chunk : Chunk := ([], 0%nat).
Definition rows_in (c : Chunk) : list Row := chunk_rows c.2 c.1.
Definition tag_rows (x : Z * Chunk) : Z * list Row := (x.1, rows_in x.2).
Section task.
Context (junk : byte) (junk_cell : cell) (types : list PhysicalType) (Hscalar : Forall (λ ty, scalar ty = true) types).
Definition task_sink (c : Chunk) (k : TaskSink) : result (SinkResultType * TaskSink) := '(r, ls) ← Collector_Sink junk junk_cell types c k.1; Ok (r, (ls, k.2)).
Definition task_combine (k : TaskSink) : result TaskSink := let '(gs, ls) := Collector_Combine k.2 k.1 in Ok (ls, gs).
Definition task_batch (b : Z) (k : TaskSink) : TaskSink := (mkCollectorLocal b (ls_chunks_ k.1), k.2).
Definition task_received (k : TaskSink) : list (Z * list Row) := tag_rows <$> ls_chunks_ k.1.
Lemma rows_in_length c : length (rows_in c) = c.2.
Proof. unfold rows_in, chunk_rows. by rewrite length_fmap, length_seq. Qed.
Lemma task_appends : appends snd rows_in task_sink task_received (λ k : TaskSink, ls_batch_idx_ k.1) snd (collectable types).
Proof.
  intros c [ls gs] Hc H0. destruct (Collector_Sink_ok junk junk_cell types c ls Hscalar Hc H0) as (vs & E & Hrow). eexists. unfold task_sink. cbn [fst snd]. rewrite E. split; [done|]. split; [|by split].
  unfold task_received. cbn [fst ls_chunks_ mbind result_bind]. rewrite fmap_app. f_equal. unfold tag_rows, rows_in. cbn [fmap list_fmap fst snd]. by rewrite Hrow.
Qed.

Context {R : Type} (get_data : R → result (Chunk * SourceResultType * R)) (source_batch : R → Z) (dead : bool) (ops : list (@OpInst Chunk)).
(** One task after the other, in the order in which they combine. *)
Definition task_Run (fuel : nat) (src : R) (gs : ResultCollectorGlobalState) : result ResultCollectorGlobalState :=
  s ← Run snd no_chunk task_sink task_combine get_data source_batch task_batch dead (λ _, GO) fuel (new_PipelineExecutor no_chunk src ops (new_CollectorLocal, gs)); Ok (local_sink_state_ s).2.
Fixpoint run_tasks (fuel : nat) (srcs : list R) (gs : ResultCollectorGlobalState) : result ResultCollectorGlobalState :=
  match srcs with [] => Ok gs | src :: srcs => gs ← task_Run fuel src gs; run_tasks fuel srcs gs end.

Context (Pin : Chunk → Prop) (f : Row → list Row).
(** The operators compute [f]; or the pipeline is dead, because [f] has no output. *)
Definition runnable (cs : list (Z * Chunk)) : Prop := if dead then ∀ bc r, bc ∈ cs → r ∈ rows_in bc.2 → f r = [] else flows snd rows_in (collectable types) Pin ops f ∧ Forall (λ bc, bc.2.2 = 0%nat ∨ Pin bc.2) cs.
Lemma concat_nils {A B} (l : list A) : concat ((λ _, []) <$> l) = @nil B.
Proof. by induction l. Qed.
Lemma nothing_delivered cs : (∀ bc r, bc ∈ cs → r ∈ rows_in bc.2 → f r = []) → Forall2 (delivered rows_in f) cs ((λ _, []) <$> cs).
Proof.
  intros Hf. apply Forall2_fmap_r, Forall_Forall2_diag, Forall_forall. intros bc Hbc. split; [done|]. cbn. exists ((λ _, []) <$> rows_in bc.2). split; [symmetry; apply concat_nils|].
  apply Forall2_fmap_r, Forall_Forall2_diag, Forall_forall. intros r Hr. unfold compose. by rewrite (Hf bc r).
Qed.
Lemma task_Run_ok src cs gs : yields get_data source_batch src cs → runnable cs →
  evals_to (λ n, task_Run n src gs) (λ out, ∃ T news, out = Ok (mkCollectorGlobal (chunks_ gs) (tagged_ gs ++ T)) ∧ tag_rows <$> T = concat news ∧ Forall2 (delivered rows_in f) cs news).
Proof.
  intros Hy Hr. assert (∃ fuel i src' ops' k' news, push_all snd no_chunk task_sink get_data source_batch task_batch dead (λ _, GO) fuel 0 src false ops (new_CollectorLocal, gs) = Ok (i, src', ops', k') ∧
    task_received k' = concat news ∧ k'.2 = gs ∧ Forall2 (delivered rows_in f) cs news) as (fuel & i & src' & ops' & k' & news & E & H1 & H2 & H3).
  { unfold runnable in Hr. destruct dead.
    - exists 2%nat. eexists _, _, _, _, ((λ _, []) <$> cs). split; [done|]. split; [symmetry; apply concat_nils|]. split; [done|]. by apply nothing_delivered.
    - destruct Hr as [Hfl HF]. destruct (push_all_flows snd rows_in rows_in_length task_sink task_received (λ k : TaskSink, ls_batch_idx_ k.1) snd (collectable types) task_appends no_chunk get_data source_batch task_batch
        (λ _ _, eq_refl) (λ _ _, eq_refl) (λ _ _, eq_refl) src cs Hy 0 ops Pin f (new_CollectorLocal, gs) Hfl HF) as (fuel & i & src' & ops' & k' & news & E & H1 & H2 & H3). by exists fuel, i, src', ops', k', news. }
  unfold task_Run. eapply evals_to_bind; [apply (Run_sim snd no_chunk eq_refl task_sink task_combine get_data source_batch task_batch dead (λ _, GO) fuel src ops (new_CollectorLocal, gs)); by rewrite E|].
  rewrite E. unfold ends, task_combine. intros r (s & -> & _ & Hk & _). eapply evals_to_const; [done|]. exists (ls_chunks_ k'.1), news. rewrite Hk. cbn [snd Collector_Combine]. by rewrite H2.
Qed.

Context (all : list (Z * Chunk)) (owner : Z → nat) (srcs : nat → R).
Lemma run_tasks_ok ids : ∀ gs, (∀ t, t ∈ ids → yields get_data source_batch (srcs t) (chunks_of all owner t)) → (∀ t, t ∈ ids → runnable (chunks_of all owner t)) →
  evals_to (λ n, run_tasks n (srcs <$> ids) gs) (λ out, ∃ T Ts, out = Ok (mkCollectorGlobal (chunks_ gs) (tagged_ gs ++ T)) ∧ tag_rows <$> T = concat Ts ∧ Forall2 (task_delivers rows_in f all owner) ids Ts).
Proof.
  induction ids as [|t ids IH]; intros gs Hy Hr; cbn [run_tasks fmap list_fmap].
  { eapply evals_to_const; [done|]. exists [], []. split; [|done]. rewrite app_nil_r. by destruct gs. }
  eapply evals_to_bind; [apply task_Run_ok; [apply Hy; set_solver|apply Hr; set_solver]|]. intros r (T & news & -> & HT & HF). eapply evals_to_mono; [|apply IH; intros t' Ht'; [apply Hy|apply Hr]; set_solver].
  cbn [chunks_ tagged_]. intros out (T' & Ts & -> & HT' & HF'). exists (T ++ T'), (concat news :: Ts). split; [by rewrite app_assoc|]. split; [by rewrite fmap_app, HT, HT'|]. constructor; [by exists news|done].
Qed.
(** The result of all tasks, in the order of the source. *)
Lemma tasks_result ids : NoDup ids → (∀ t, t ∈ ids → yields get_data source_batch (srcs t) (chunks_of all owner t)) → (∀ t, t ∈ ids → runnable (chunks_of all owner t)) →
  (∀ bc, bc ∈ all → owner bc.1 ∈ ids) → StronglySorted batch_le all →
  evals_to (λ n, run_tasks n (srcs <$> ids) new_CollectorGlobal) (λ out, ∃ gs gs', out = Ok gs ∧ Collector_Finalize gs = (READY, gs') ∧ row_wise f (concat (rows_in <$> all.*2)) (concat (rows_in <$> chunks_ gs'))).
Proof.
  intros Hnd Hy Hr Hown Hall. eapply evals_to_mono; [|by apply run_tasks_ok]. intros out (T & Ts & -> & HT & HF). eexists _, _. split; [done|]. split; [done|]. cbn [chunks_ tagged_ new_CollectorGlobal app].
  assert (rows_in <$> (stable_sort T).*2 = (tag_rows <$> stable_sort T).*2) as -> by (rewrite <- !list_fmap_compose; done). eapply in_serial_order; try done.
  - eapply StronglySorted_fmap; [|apply stable_sort_sorted]. done.
  - intros b. rewrite <- HT. assert (∀ l, of_batch b (tag_rows <$> l) = tag_rows <$> of_batch b l) as Hc by (intros l; unfold of_batch; by apply filter_image). by rewrite !Hc, stable_sort_batch.
Qed.
End task.

(** * Filter and hash join in a pipeline

    [PhysicalFilter] ([execution/operator/filter/physical_filter.h]) and the probe side of the hash join keep
    what a pipeline asks of its operators. *)

(** [select] is the [Select] of the filter's expression executor: the indices of the rows that pass. *)
Definition Filter_Execute (select : Chunk → result (list Z)) (input : Chunk) : result (Chunk * OperatorResultType) :=
  sel ← select input;
  let n := length sel in
  if bool_decide (n = 0%nat) then Ok (([], 0%nat), NEED_MORE_INPUT) else
  vs ← chunk_Slice input.1 sel n; Ok ((vs, n), NEED_MORE_INPUT).
Definition filter_op (select : Chunk → result (list Z)) : @StreamOp Chunk := mkOp unit (λ c _, '(out, res) ← Filter_Execute select c; Ok (out, res, tt)).
(** The probe side of a join; [keys] evaluates the key expressions on a chunk. *)
Definition probe_op (hash32 hash64 : Z → Z) (junk : byte) (junk_cell : cell) (op : PhysicalHashJoin) (b : JoinBuild) (keys : Chunk → list Vector) : @StreamOp Chunk :=
  mkOp LocalProbe (λ c ls, Join_Execute hash32 hash64 junk junk_cell op b (keys c) c.1 c.2 ls).

(** ** Typed chunks *)

Abbreviation typed types := (Forall2 storable_value types).
Lemma Orrify_length n vs cols : chunk_Orrify n vs = Ok cols → length cols = length vs.
Proof.
  revert cols. induction vs as [|v vs IH]; intros cols E; simpl in E; [by injection E as <-|]. destruct (Orrify n v) as [col|]; [|done]. simpl in E. destruct (chunk_Orrify n vs) as [cols'|]; [|done]. simpl in E. injection E as <-. simpl. by rewrite (IH cols').
Qed.
Lemma row_length c idx : readable_chunk c.1 c.2 → length (rows_of c.2 c.1 idx) = length c.1.
Proof.
  intros (cols & E & _). unfold rows_of. rewrite E. unfold chunk_row. rewrite length_fmap. by eapply Orrify_length.
Qed.
Lemma good_collectable types c : good_output c → (0 < c.2)%nat → Forall (typed types) (rows_in c) → collectable types c.
Proof.
  intros [Hs Hr] H0 Ht. split; try done. assert (rows_of c.2 c.1 0 ∈ rows_in c) as Hin by (unfold rows_in, chunk_rows; apply list_elem_of_fmap; exists 0%nat; split; [done|]; apply elem_of_seq; lia).
  rewrite Forall_forall in Ht. specialize (Ht _ Hin). apply Forall2_length in Ht. by rewrite Ht, row_length.
Qed.
(** Every row can be read, and its elements are of the columns' types, also below a NULL. *)
Record well_typed (types : list PhysicalType) (c : Chunk) : Prop := {
  wt_size : Z.of_nat c.2 ≤ STANDARD_VECTOR_SIZE;
  wt_reads : ∃ cols, chunk_Orrify (Z.of_nat c.2) c.1 = Ok cols ∧ chunk_reads types cols c.2 (chunk_row cols);
  wt_values : Forall (typed types) (rows_in c) }.
Lemma well_typed_readable types c : well_typed types c → readable_chunk c.1 c.2.
Proof. intros [_ (cols & E & Hr) _]. by eapply chunk_reads_readable. Qed.
Lemma well_typed_collectable types c : well_typed types c → collectable types c.
Proof. intros Hw. pose proof (well_typed_readable _ _ Hw) as Hr. destruct Hw as [H1 (cols & E & Hl & _) H3]. split; try done. by rewrite <- (Orrify_length _ _ _ E). Qed.
Lemma rows_in_all c : rows_in c = rows_of c.2 c.1 <$> all_rows c.2.
Proof. unfold rows_in, chunk_rows, all_rows. by rewrite <- list_fmap_compose. Qed.

(** ** The filter *)

(** [Select] gives the rows for which a predicate holds, in order. *)
Definition selects (pred : Row → bool) (select : Chunk → result (list Z)) (P : Chunk → Prop) : Prop :=
  ∀ c, P c → (0 < c.2)%nat → select c = Ok (filter (λ i, pred (rows_of c.2 c.1 i) = true) (all_rows c.2)).
Definition passes (pred : Row → bool) (r : Row) : list Row := if pred r then [r] else [].
Lemma filter_passes (g : Z → Row) (pred : Row → bool) l : row_wise (passes pred) (g <$> l) (g <$> filter (λ i, pred (g i) = true) l).
Proof.
  induction l as [|i l IH]; [apply row_wise_nil|]. rewrite filter_cons, fmap_cons. case_decide as Hp; [rewrite fmap_cons|].
  - apply (row_wise_cons _ _ _ [g i]); [|done]. unfold passes. by rewrite Hp.
  - apply (row_wise_cons _ _ _ []); [|done]. unfold passes. by destruct (pred (g i)).
Qed.
Lemma slice_reads types c sel vs : (∃ cols, chunk_Orrify (Z.of_nat c.2) c.1 = Ok cols ∧ chunk_reads types cols c.2 (chunk_row cols)) → Forall (λ i, 0 ≤ i < Z.of_nat c.2) sel → Z.of_nat (length sel) ≤ STANDARD_VECTOR_SIZE →
  chunk_Slice c.1 sel (length sel) = Ok vs → ∃ cols, chunk_Orrify (Z.of_nat (length sel)) vs = Ok cols ∧ chunk_reads types cols (length sel) (chunk_row cols).
Proof.
  intros (cols & Ec & Hl & Hr) HF Hs E. destruct (chunk_reads_readable types c.1 cols c.2 Ec (conj Hl Hr)) as (cols1 & Ec1 & Hrd). rewrite Ec in Ec1. injection Ec1 as <-.
  destruct (chunk_Slice_cols c.1 c.2 sel cols Ec Hrd HF Hs) as (vs' & cols' & E' & Ec' & H2). rewrite E in E'. injection E' as <-. apply Forall2_length in H2 as Hl2. exists cols'. split; [done|]. split; [congruence|].
  intros idx Hi. split; [unfold chunk_row; rewrite length_fmap; congruence|]. intros k ty col' Hty Hk'. destruct (lookup_lt_is_Some_2 cols k) as [col Hk]; [rewrite Hl; by eapply lookup_lt_Some|].
  destruct (lookup_lt_is_Some_2 sel (Z.to_nat idx)) as [i Hji]; [lia|]. pose proof (Forall2_lookup_lr _ _ _ _ _ _ H2 Hk' Hk _ _ Hji) as [Hv Hc]. rewrite Z2Nat.id in Hv, Hc by lia.
  destruct (proj2 (Hr i (Forall_lookup_1 _ _ _ _ HF Hji)) k ty col Hty Hk) as (v & Hvk & Hread). exists v. unfold chunk_row in *. rewrite list_lookup_fmap in *. rewrite Hk' , Hk in *. cbn in *. unfold reads in *. by rewrite Hv, Hc.
Qed.
(** Rows picked from a typed chunk are typed. *)
Lemma slice_rows c sel vs : readable_chunk c.1 c.2 → Forall (λ i, 0 ≤ i < Z.of_nat c.2) sel → Z.of_nat (length sel) ≤ STANDARD_VECTOR_SIZE → chunk_Slice c.1 sel (length sel) = Ok vs → rows_in (vs, length sel) = rows_of c.2 c.1 <$> sel.
Proof.
  intros Hr Hin Hs Ev. destruct (chunk_Slice_ok c.1 c.2 sel Hr Hin Hs) as (vs' & Ev' & _ & Hvs). rewrite Ev in Ev'. injection Ev' as <-. unfold rows_in, chunk_rows. cbn [fst snd]. apply list_eq_same_length with (n := length sel); [by rewrite length_fmap|by rewrite length_fmap, length_seq|].
  intros j x y Hj Hx Hy. apply list_lookup_fmap_Some in Hx as (j' & -> & Hj'). apply lookup_seq in Hj' as [-> _]. apply list_lookup_fmap_Some in Hy as (i & -> & Hi). by apply Hvs.
Qed.
Lemma slice_typed types c sel vs : well_typed types c → Forall (λ i, 0 ≤ i < Z.of_nat c.2) sel → (length sel ≤ c.2)%nat → chunk_Slice c.1 sel (length sel) = Ok vs → well_typed types (vs, length sel).
Proof.
  intros Hc Hin Hle Ev. pose proof (well_typed_readable _ _ Hc) as Hr. destruct Hc as [Hs Hrd Ht]. split; [cbn [snd]; lia|apply (slice_reads types c sel vs); try done; lia|]. rewrite (slice_rows c) by (done || lia). apply Forall_fmap, Forall_forall. intros i Hi. rewrite Forall_forall in Ht. rewrite Forall_forall in Hin.
  apply Ht. rewrite rows_in_all. by apply list_elem_of_fmap_2, all_rows_elem, Hin.
Qed.
(** A filter lets rows through, in order, and needs one call. *)
Lemma filter_streams pred select types (P Q : Chunk → Prop) : (∀ c, P c → well_typed types c) →
  (∀ c sel vs, P c → Forall (λ i, 0 ≤ i < Z.of_nat c.2) sel → (length sel ≤ c.2)%nat → chunk_Slice c.1 sel (length sel) = Ok vs → Q (vs, length sel)) →
  selects pred select P → streams snd rows_in P Q (passes pred) (filter_op select) (λ _, True).
Proof.
  intros HP HQ Hsel. split.
  - intros [] c _ Hpc H0. pose proof (HP c Hpc) as Hc. set (sel := filter (λ i, pred (rows_of c.2 c.1 i) = true) (all_rows c.2)). pose proof (Hsel c Hpc H0) as Es. fold sel in Es. pose proof (well_typed_readable _ _ Hc) as Hr. destruct Hc as [Hs Hrd Ht].
    assert (length sel ≤ c.2)%nat as Hle by (unfold sel; etransitivity; [apply length_filter|]; unfold all_rows; by rewrite length_fmap, length_seq).
    assert (Forall (λ i, 0 ≤ i < Z.of_nat c.2) sel) as Hin by (apply Forall_forall; intros i [_ Hi%all_rows_elem]%list_elem_of_filter; done).
    destruct (chunk_Slice_ok c.1 c.2 sel Hr Hin) as (vs & Ev & _); [lia|].
    assert (row_wise (passes pred) (rows_in c) (rows_in (vs, length sel))) as Hw by (rewrite (slice_rows c), rows_in_all by (done || lia); apply filter_passes).
    exists 1%nat. eexists [_], tt. split; [|split; [done|]].
    + cbn [drain filter_op so_exec]. unfold Filter_Execute. rewrite Es. cbn [mbind result_bind]. rewrite Ev. instantiate (1 := if bool_decide (length sel = 0%nat) then no_chunk else (vs, length sel)). by case_bool_decide.
    + case_bool_decide as Hz.
      * split; [constructor; [by left|done]|]. cbn [fmap list_fmap concat]. rewrite app_nil_r. rewrite Hz in Hw. exact Hw.
      * split; [|cbn [fmap list_fmap concat]; by rewrite app_nil_r]. constructor; [right|done]. by apply (HQ c).
  - intros [] c out [] E. cbn [filter_op so_exec] in E. unfold Filter_Execute in E. destruct (select c) as [sel|]; [|done]. cbn [mbind result_bind] in E. case_bool_decide; [done|]. by destruct (chunk_Slice c.1 sel (length sel)).
Qed.

(** ** The join *)

Definition join_types (op : PhysicalHashJoin) (types : list PhysicalType) : list PhysicalType :=
  if IsSemiOrAnti op then types else if IsLeftJoin op then types ++ build_types_ op else build_types_ op ++ types.
Section probe.
Context (op : PhysicalHashJoin) (types : list PhysicalType) (B : list Keyed) (HB : Forall (λ b : Keyed, typed (build_types_ op) b.2) B).
Lemma build_side_typed b : (∀ row, b = Some row → typed (build_types_ op) row) → typed (build_types_ op) (build_side op b).
Proof.
  intros Hb. unfold build_side. apply Forall2_fmap_r, Forall2_same_length_lookup. split; [by rewrite length_seq|]. intros i ty j Hty Hj. apply lookup_seq in Hj as [-> _]. unfold compose, build_cell. case_bool_decide; [|done]. cbn [Nat.add].
  destruct b as [row|]; [|done]. cbn. destruct (row !! i) as [v|] eqn:E; [|done]. cbn. by apply (Forall2_lookup_lr _ _ _ _ _ _ (Hb row eq_refl) Hty E).
Qed.
Lemma join_row_typed b row : IsSemiOrAnti op = false → (∀ p, b = Some p → p ∈ B) → typed types row → typed (join_types op types) (join_row op b row).
Proof.
  intros Hs Hb Hr. unfold join_types, join_row. rewrite Hs. assert (typed (build_types_ op) (build_side op (snd <$> b))) as Hside.
  { apply build_side_typed. intros r Er. destruct b as [p|]; [|done]. injection Er as <-. rewrite Forall_forall in HB. by apply HB, Hb. }
  destruct (IsLeftJoin op); by apply Forall2_app.
Qed.
Lemma partners_in key p : p ∈ partners op B key → p ∈ B.
Proof. unfold partners. by intros [_ ?]%list_elem_of_filter. Qed.
Lemma joined_typed key row : typed types row → Forall (typed (join_types op types)) (joined op B key row).
Proof.
  intros Hr. unfold joined. assert (IsSemiOrAnti op = true → Forall (typed (join_types op types)) [row]) as Hone by (intros Hs; constructor; [unfold join_types; by rewrite Hs|done]).
  assert (IsSemiOrAnti op = false → Forall (typed (join_types op types)) ((λ b, join_row op (Some b) row) <$> partners op B key)) as Hin.
  { intros Hs. apply Forall_fmap, Forall_forall. intros p Hp. apply join_row_typed; [done| |done]. intros q [= ->]. by eapply partners_in. }
  unfold IsSemiOrAnti in *. destruct (join_type_ op) eqn:Ety; try (apply Hin; done).
  - apply Forall_fmap, Forall_forall. intros b Hb. apply join_row_typed; [unfold IsSemiOrAnti; by rewrite Ety| |done]. intros p ->. apply (partners_in key). destruct (partners op B key) as [|q l]; cbn in Hb; [by apply list_elem_of_singleton in Hb|]. exact (list_elem_of_fmap_inj_2 Some (q :: l) p Hb).
  - destruct (bool_decide (partners op B key = [])); [constructor|]. by apply Hone.
  - destruct (null_aware_ op); [destruct (not_in op B key); [by apply Hone|constructor]|]. destruct (bool_decide (partners op B key = [])); [by apply Hone|constructor].
Qed.

Context (hash32 hash64 : Z → Z) (junk : byte) (junk_cell : cell) (b : JoinBuild) (keys : Chunk → list Vector) (key_of : Row → Row).
(** What the key expressions compute. *)
Definition keyed : Prop := ∀ c, well_typed types c → (0 < c.2)%nat → good_keys (key_types_of op) (key_count op) (keys c) c.2 ∧ ∀ idx, idx ∈ all_rows c.2 → rows_of c.2 (keys c) idx = key_of (rows_of c.2 c.1 idx).
Definition answers : Prop := ∀ keys input size ls, good_keys (key_types_of op) (key_count op) keys size → readable_chunk input size → have_matches_ ls = false →
  ∃ fuel outs ls' parts, drain (Join_Execute hash32 hash64 junk junk_cell op b keys input size) fuel ls = Ok (outs, NEED_MORE_INPUT, ls') ∧ have_matches_ ls' = false ∧ Forall good_output outs ∧
    output_rows outs = concat parts ∧ Forall2 (λ idx part, part ≡ₚ joined op B (rows_of size keys idx) (rows_of size input idx)) (all_rows size) parts.
Lemma probe_more keys' input size ls out n ls' : Join_Execute hash32 hash64 junk junk_cell op b keys' input size ls = Ok (out, n, HAVE_MORE_OUTPUT, ls') → (0 < n)%nat.
Proof.
  unfold Join_Execute. destruct (gs_ht _) as [g|]; [|done]. destruct (table_at g (jb_system b)) as [t|]; [|done]. cbn [mbind result_bind]. destruct (IsSemiOrAnti op); [by destruct (Execute_semi _ _ _ _ _ _ _ _) as [[]|]|].
  destruct (if have_matches_ ls then _ else _) as [ls1|]; [|done]. cbn [mbind result_bind]. set (m := Nat.min _ _). destruct (if bool_decide (0 < m)%nat then _ else _) as [vs|]; [|done]. cbn [mbind result_bind]. case_bool_decide as Hle; [done|]. intros [= _ <- _]. unfold m, STANDARD_VECTOR_SIZE in *. lia.
Qed.
(** The probe side puts every row together with its partners. *)
Lemma probe_streams : keyed → answers → streams snd rows_in (well_typed types) (collectable (join_types op types)) (λ r, joined op B (key_of r) r) (probe_op hash32 hash64 junk junk_cell op b keys) (λ ls, have_matches_ ls = false).
Proof.
  intros Hk Ha. split; [|intros s c [out n] s' E; by apply probe_more in E]. intros ls c Hls Hc H0. destruct (Hk c Hc H0) as [Hgk Hkey]. destruct (Ha (keys c) c.1 c.2 ls Hgk (well_typed_readable _ _ Hc) Hls) as (fuel & outs & ls' & parts & Ed & Hls' & Hgo & Ho & HF).
  exists fuel, outs, ls'. split; [done|]. split; [done|]. assert (concat (rows_in <$> outs) = concat parts) as Ec by done.
  assert (row_wise (λ r, joined op B (key_of r) r) (rows_in c) (concat parts)) as Hw.
  { exists parts. split; [done|]. rewrite rows_in_all. apply Forall2_fmap_l. eapply Forall2_ext_rows; [|exact HF]. intros idx p Hi Hp. unfold compose. by rewrite <- (Hkey idx Hi). }
  split; [|by rewrite Ec]. assert (Forall (typed (join_types op types)) (concat (rows_in <$> outs))) as Hty.
  { rewrite Ec, (row_wise_perm _ _ _ Hw). apply Forall_bind. eapply Forall_impl; [exact (wt_values _ _ Hc)|]. intros r Hr. by apply joined_typed. }
  clear -Hgo Hty. induction Hgo as [|out outs Hout _ IH]; [done|]. cbn [fmap list_fmap concat] in Hty. apply Forall_app in Hty as [H1 H2]. constructor; [|by apply IH]. destruct (decide (out.2 = 0%nat)); [by left|right]. apply good_collectable; [done|lia|done].
Qed.
End probe.
