(* ===== verification/LikeMatch.v ===== *)
(** * SQL LIKE ([execution/expression_executor.cpp])

    [LikeMatch] walks the string and the pattern once, and comes back to the last [%] when they do not agree. *)

From S2P Require Import Prelude.

Definition any_run : byte := Byte.x25.
Definition any_byte : byte := Byte.x5f.

Section like.
Context (s p : list byte).
(** [star] is [star_pi] and [star_si]; [None] is [npos]. *)
Fixpoint like_loop (fuel si pi : nat) (star : option (nat * nat)) : option bool :=
  match fuel with
  | O => None
  | S fuel =>
      match s !! si with
      | Some c =>
          let retry := match star with
                       | Some (star_pi, star_si) => like_loop fuel (S star_si) (S star_pi) (Some (star_pi, S star_si))
                       | None => Some false
                       end in
          match p !! pi with
          | Some x =>
              if bool_decide (x = any_run) then like_loop fuel si (S pi) (Some (pi, si)) else
              if bool_decide (x = any_byte) || bool_decide (x = c) then like_loop fuel (S si) (S pi) star else retry
          | None => retry
          end
      | None => Some (forallb (λ x, bool_decide (x = any_run)) (drop pi p))
      end
  end.
Definition like_fuel : nat := (length s + 2) * (length p + 1) + 1.
Definition LikeMatch : option bool := like_loop like_fuel 0 0 None.
End like.

(** ** What LIKE means *)

Inductive like : list byte → list byte → Prop :=
  | like_nil : like [] []
  | like_run p t s : like p s → like (any_run :: p) (t ++ s)
  | like_one p c s : like p s → like (any_byte :: p) (c :: s)
  | like_literal p c s : c ≠ any_run → c ≠ any_byte → like p s → like (c :: p) (c :: s).

Lemma like_nil_l s : like [] s ↔ s = [].
Proof. split; [by inversion 1|intros ->; constructor]. Qed.
Lemma like_run_l p s : like (any_run :: p) s ↔ ∃ k, (k ≤ length s)%nat ∧ like p (drop k s).
Proof.
  split.
  - inversion 1 as [|? t s' H'| |]; subst; try done. exists (length t). rewrite length_app. split; [lia|]. by rewrite drop_app_length.
  - intros (k & _ & H). rewrite <- (take_drop k s). by constructor.
Qed.
Lemma like_step_l x p c s : x ≠ any_run → like (x :: p) (c :: s) ↔ (x = any_byte ∨ x = c) ∧ like p s.
Proof.
  intros Hx. split.
  - intros H. inversion H as [| |p' c' s' H' E1 E2|p' c' s' Hr Ho H' E1 E2]; subst; [congruence|split; [by left|done]|split; [by right|done]].
  - intros [Hm H]. destruct (decide (x = any_byte)) as [->|Hn]; [by apply like_one|]. destruct Hm as [Hm|Hm]; [done|]. subst x. by apply like_literal.
Qed.
Lemma like_step_nil x p : x ≠ any_run → ¬ like (x :: p) [].
Proof. intros Hx H. inversion H; congruence. Qed.
Lemma like_end p : like p [] ↔ forallb (λ x, bool_decide (x = any_run)) p = true.
Proof.
  induction p as [|x p IH]; [split; [done|constructor]|]. cbn [forallb]. case_bool_decide as Hx; cbn [andb].
  - subst x. rewrite <- IH, like_run_l. split; [intros (k & _ & H); by rewrite drop_nil in H|]. intros H. by exists 0%nat.
  - split; [intros H; by apply like_step_nil in H|done].
Qed.
(** A pattern without [%] needs as many bytes as it has. *)
Lemma like_split q r s : Forall (λ x, x ≠ any_run) q → like (q ++ r) s → (length q ≤ length s)%nat ∧ like r (drop (length q) s).
Proof.
  intros HF. revert s. induction HF as [|x q Hx _ IH]; intros s Hl; [split; [simpl; lia|done]|]. destruct s as [|c s]; [by apply like_step_nil in Hl|]. cbn [app] in Hl. apply like_step_l in Hl as [_ Hl]; [|done].
  destruct (IH s Hl) as [H1 H2]. split; [simpl; lia|done].
Qed.

(** ** The loop *)

Section correct.
Context (s p : list byte).
Definition from (pi si : nat) : Prop := like (drop pi p) (drop si s).
(** The [%] may take more bytes than it has now. *)
Definition later (star : option (nat * nat)) : Prop := match star with Some (spi, ssi) => ∃ k, (ssi < k ≤ length s)%nat ∧ from (S spi) k | None => False end.
(** Since the last [%], pattern and string have moved together. *)
Record star_ok (si pi : nat) (star : option (nat * nat)) : Prop := {
  so_si : (si ≤ length s)%nat;
  so_pi : (pi ≤ length p)%nat;
  so_star : ∀ spi ssi, star = Some (spi, ssi) → (ssi ≤ si)%nat ∧ pi = (S spi + (si - ssi))%nat ∧ Forall (λ x, x ≠ any_run) (take (si - ssi) (drop (S spi) p)) }.
Definition since (star : option (nat * nat)) : nat := match star with Some (_, ssi) => S ssi | None => 0 end.
Definition turns_left (pi : nat) (star : option (nat * nat)) : nat := (length s + 1 - since star) * (length p + 1) + (length p - pi).

(** What the last [%] could still do needs the rest of the segment after it. *)
Lemma later_segment si pi spi ssi : star_ok si pi (Some (spi, ssi)) → later (Some (spi, ssi)) → ∃ k, (si < k ≤ length s)%nat ∧ from pi k.
Proof.
  intros [H1 H2 H3] (k & Hk & Hl). destruct (H3 spi ssi eq_refl) as (Hs & Hp & HF). unfold from in *. set (q := take (si - ssi) (drop (S spi) p)) in *. assert (length q = (si - ssi)%nat) as Hq by (unfold q; rewrite length_take, length_drop; lia).
  assert (drop (S spi) p = q ++ drop pi p) as Eq by (unfold q; rewrite Hp, <- drop_drop; by rewrite take_drop). rewrite Eq in Hl. destruct (like_split _ _ _ HF Hl) as [Hlen Hrest]. rewrite length_drop, drop_drop, Hq in *. exists (k + (si - ssi))%nat. split; [lia|done].
Qed.
Lemma from_step si pi c : s !! si = Some c → from pi si ↔ match p !! pi with
  | Some x => if bool_decide (x = any_run) then ∃ k, (si ≤ k ≤ length s)%nat ∧ from (S pi) k else (x = any_byte ∨ x = c) ∧ from (S pi) (S si)
  | None => False end.
Proof.
  intros Hc. unfold from. rewrite (drop_S s c si Hc). destruct (p !! pi) as [x|] eqn:Hx.
  - rewrite (drop_S p x pi Hx). case_bool_decide as Hr; [subst x|by rewrite like_step_l]. rewrite like_run_l, <- (drop_S s c si Hc). pose proof (lookup_lt_Some _ _ _ Hc). split.
    + intros (k & Hk & Hl). rewrite length_drop in Hk. rewrite drop_drop in Hl. exists (si + k)%nat. split; [lia|done].
    + intros (k & Hk & Hl). exists (k - si)%nat. rewrite length_drop, drop_drop. split; [lia|]. by replace (si + (k - si))%nat with k by lia.
  - apply lookup_ge_None in Hx. rewrite drop_ge by done. by rewrite like_nil_l.
Qed.
Lemma like_loop_ok fuel : ∀ si pi star, star_ok si pi star → (turns_left pi star < fuel)%nat → ∃ b, like_loop s p fuel si pi star = Some b ∧ (b = true ↔ from pi si ∨ later star).
Proof.
  induction fuel as [|fuel IH]; intros si pi star Hok Hf; [lia|]. cbn [like_loop]. pose proof Hok as [H1 H2 H3]. destruct (s !! si) as [c|] eqn:Hc.
  2:{ eexists. split; [done|]. rewrite <- like_end. apply lookup_ge_None in Hc. unfold from. rewrite (drop_ge s si) by done. split; [tauto|]. intros [Hl|Hl]; [done|]. destruct star as [[spi ssi]|]; [|done]. destruct (later_segment _ _ _ _ Hok Hl) as (k & Hk & _). lia. }
  apply lookup_lt_Some in Hc as Hlt. pose proof (from_step si pi c Hc) as Hfrom.
  assert (¬ from pi si → ∃ b, match star with Some (star_pi, star_si) => like_loop s p fuel (S star_si) (S star_pi) (Some (star_pi, S star_si)) | None => Some false end = Some b ∧ (b = true ↔ from pi si ∨ later star)) as Hretry.
  { intros Hn. destruct star as [[spi ssi]|]; [|exists false; split; [done|]; cbn; split; [done|tauto]]. destruct (H3 spi ssi eq_refl) as (Hs & Hp & HF).
    destruct (IH (S ssi) (S spi) (Some (spi, S ssi))) as (b & E & Hb).
    - split; [lia|lia|]. intros ? ? [= <- <-]. split; [lia|]. rewrite Nat.sub_diag. split; [lia|done].
    - unfold turns_left, since in *. nia.
    - exists b. split; [done|]. rewrite Hb. cbn [later]. split.
      + intros [Hl|(k & Hk & Hl)]; right; [exists (S ssi)|exists k]; split; (done || lia).
      + intros [Hl|(k & Hk & Hl)]; [done|]. destruct (decide (k = S ssi)) as [->|]; [by left|right]. exists k. split; [lia|done]. }
  destruct (p !! pi) as [x|] eqn:Hx; [|apply Hretry; tauto]. apply lookup_lt_Some in Hx as Hxl. destruct (bool_decide (x = any_run)) eqn:Hr.
  - destruct (IH si (S pi) (Some (pi, si))) as (b & E & Hb).
    + split; [lia|lia|]. intros ? ? [= <- <-]. split; [lia|]. rewrite Nat.sub_diag. split; [lia|done].
    + unfold turns_left, since in *. destruct star as [[spi ssi]|]; [destruct (H3 spi ssi eq_refl) as (Hs & _ & _)|]; nia.
    + exists b. split; [done|]. rewrite Hb, Hfrom. cbn [later]. split.
      * intros [Hl|(k & Hk & Hl)]; left; [exists si|exists k]; split; (done || lia).
      * assert (∀ k, (si ≤ k ≤ length s)%nat → from (S pi) k → from (S pi) si ∨ ∃ k, (si < k ≤ length s)%nat ∧ from (S pi) k) as Hsplit by (intros k Hk Hl; destruct (decide (k = si)) as [->|]; [by left|right; exists k; split; [lia|done]]).
        intros [(k & Hk & Hl)|Hl]; [by eapply Hsplit|]. destruct star as [[spi ssi]|]; [|done]. destruct (later_segment _ _ _ _ Hok Hl) as (k & Hk & Hl').
        assert (from pi k) as Hfk by done. unfold from in Hl'. rewrite (drop_S p x pi Hx) in Hl'. apply bool_decide_eq_true in Hr. subst x. apply like_run_l in Hl' as (j & Hj & Hl'). rewrite drop_drop in Hl'. rewrite length_drop in Hj. apply (Hsplit (k + j)%nat); [lia|done].
  - destruct (bool_decide (x = any_byte) || bool_decide (x = c)) eqn:Hm.
    + destruct (IH (S si) (S pi) star) as (b & E & Hb).
      * split; [lia|lia|]. intros spi ssi ->. destruct (H3 spi ssi eq_refl) as (Hs & Hp & HF). split; [lia|]. split; [lia|]. replace (S si - ssi)%nat with (S (si - ssi)) by lia. rewrite (take_S_r _ _ x); [apply Forall_app; split; [done|]; constructor; [by apply bool_decide_eq_false in Hr|done]|].
        rewrite lookup_drop. by replace (S spi + (si - ssi))%nat with pi by lia.
      * unfold turns_left in *. lia.
      * exists b. split; [done|]. rewrite Hb, Hfrom. apply orb_true_iff in Hm. assert (x = any_byte ∨ x = c) as Hm' by (destruct Hm as [Hm|Hm]; apply bool_decide_eq_true in Hm; tauto). tauto.
    + apply Hretry. rewrite Hfrom. apply orb_false_iff in Hm as [Hm1%bool_decide_eq_false Hm2%bool_decide_eq_false]. tauto.
Qed.
(** The loop ends within the fuel, with the answer. *)
Lemma LikeMatch_ok : ∃ b, LikeMatch s p = Some b ∧ (b = true ↔ like p s).
Proof.
  destruct (like_loop_ok (like_fuel s p) 0 0 None) as (b & E & Hb); [split; [lia|lia|done]|unfold turns_left, since, like_fuel; nia|]. exists b. split; [done|]. rewrite Hb. unfold from. rewrite !drop_0. cbn [later]. tauto.
Qed.
End correct.
