(* ===== verification/VectorKernels.v ===== *)
(** * SQL types ([type/logical_type.cpp])

    The logical types with the physical type that stores them, and the type two operands are brought to.  The
    element types of LIST and ARRAY are left out. *)

From Stdlib Require Import Floats.SpecFloat.
From S2P Require Import Prelude TablePage TableHeap BTreePage BPlusTree GenericKey NumericText StringHeap ValidityMask SortKey VectorOps RowFormat.

Inductive LogicalTypeId :=
  | LT_BOOLEAN | LT_TINYINT | LT_SMALLINT | LT_INTEGER | LT_BIGINT | LT_UTINYINT | LT_USMALLINT | LT_UINTEGER | LT_UBIGINT | LT_HASH | LT_ADDRESS
  | LT_FLOAT | LT_DOUBLE | LT_DECIMAL | LT_STRING | LT_STRUCT | LT_LIST | LT_ARRAY | LT_DATE | LT_TIMESTAMP | LT_UNKNOWN.
#[global] Instance LogicalTypeId_eq_dec : EqDecision LogicalTypeId.
Proof. solve_decision. Defined.

Definition PhysicalTypeOf (type : LogicalTypeId) : PhysicalType :=
  match type with
  | LT_TINYINT => TINYINT
  | LT_SMALLINT => SMALLINT
  | LT_INTEGER | LT_DATE => INTEGER
  | LT_BIGINT | LT_TIMESTAMP | LT_DECIMAL => BIGINT
  | LT_BOOLEAN | LT_UTINYINT => UTINYINT
  | LT_USMALLINT => USMALLINT
  | LT_UINTEGER => UINTEGER
  | LT_UBIGINT | LT_HASH | LT_ADDRESS => UBIGINT
  | LT_FLOAT => FLOAT
  | LT_DOUBLE => DOUBLE
  | LT_STRING => STRING
  | LT_STRUCT => STRUCT
  | LT_LIST => LIST
  | LT_ARRAY => ARRAY
  | LT_UNKNOWN => UNKNOWN
  end.
(** [data_] is the width and the scale of a DECIMAL. *)
Record LogicalType := mkLogicalType { ctype_ : PhysicalType; type_ : LogicalTypeId; data_ : option (Z * Z) }.
#[global] Instance LogicalType_eq_dec : EqDecision LogicalType.
Proof. solve_decision. Defined.

Definition MAX_DECIMAL_WIDTH_INT16 : Z := 4.
Definition MAX_DECIMAL_WIDTH_INT32 : Z := 9.
Definition MAX_DECIMAL_WIDTH_INT64 : Z := 18.
Definition of_id (type : LogicalTypeId) : LogicalType := mkLogicalType (PhysicalTypeOf type) type (if bool_decide (type = LT_DECIMAL) then Some (MAX_DECIMAL_WIDTH_INT64, 0) else None).
Definition Decimal (width scale : Z) : result LogicalType :=
  if bool_decide (width ≤ MAX_DECIMAL_WIDTH_INT16) then Ok (mkLogicalType SMALLINT LT_DECIMAL (Some (width, scale)))
  else if bool_decide (width ≤ MAX_DECIMAL_WIDTH_INT32) then Ok (mkLogicalType INTEGER LT_DECIMAL (Some (width, scale)))
  else if bool_decide (width ≤ MAX_DECIMAL_WIDTH_INT64) then Ok (mkLogicalType BIGINT LT_DECIMAL (Some (width, scale)))
  else Err (EException NOT_IMPLEMENTED "DECIMAL precision exceeds the maximum").

Definition scale_of (t : LogicalType) : Z := if bool_decide (type_ t = LT_DECIMAL) then match data_ t with Some (_, scale) => scale | None => 0 end else 0.
Definition CommonType (lhs rhs : LogicalType) : result LogicalType :=
  if bool_decide (lhs = rhs) then Ok lhs else
  if bool_decide (type_ lhs = LT_UNKNOWN) then Ok rhs else
  if bool_decide (type_ rhs = LT_UNKNOWN) then Ok lhs else
  let has id := bool_decide (type_ lhs = id) || bool_decide (type_ rhs = id) in
  if has LT_STRING then
    Ok (if has LT_DATE then of_id LT_DATE else if has LT_TIMESTAMP then of_id LT_TIMESTAMP else of_id LT_STRING) else
  if has LT_DOUBLE then Ok (of_id LT_DOUBLE) else
  if has LT_FLOAT then Ok (of_id LT_FLOAT) else
  if has LT_DECIMAL then Decimal MAX_DECIMAL_WIDTH_INT64 (Z.max (scale_of lhs) (scale_of rhs)) else
  l ← SizeOf (ctype_ lhs); r ← SizeOf (ctype_ rhs); Ok (if bool_decide (l >= r) then lhs else rhs).

(** * Kernels over vectors ([type/vector/operations/], [type/vector/operator/])

    Comparisons that filter rows, casts and arithmetic, on any encoding of their inputs.  The casts and the
    arithmetic that leave the integers are parameters, and so is the comparison of DECIMALs of different scales. *)

Inductive ComparisonType := Equal | NotEqual | LessThan | LessThanOrEqual | GreaterThan | GreaterThanOrEqual.
#[global] Instance ComparisonType_eq_dec : EqDecision ComparisonType.
Proof. solve_decision. Defined.
Inductive ArithmeticType := Plus | Minus | Multiply | Divide.
#[global] Instance ArithmeticType_eq_dec : EqDecision ArithmeticType.
Proof. solve_decision. Defined.

(** ** Values ([type/vector/operator/comparison_operators.h]) *)

Definition compare_with {A} (eqb ltb leb : A → A → bool) (t : ComparisonType) (x y : A) : bool :=
  match t with Equal => eqb x y | NotEqual => negb (eqb x y) | LessThan => ltb x y | LessThanOrEqual => leb x y | GreaterThan => ltb y x | GreaterThanOrEqual => leb y x end.
Definition compare_Z : ComparisonType → Z → Z → bool := compare_with Z.eqb Z.ltb Z.leb.
Definition compare_float : ComparisonType → spec_float → spec_float → bool := compare_with SFeqb SFltb SFleb.
(** Equality compares lengths first; an order compares the shared prefix, then the lengths. *)
Definition compare_string (t : ComparisonType) (x y : list byte) : bool :=
  let n := Nat.min (length x) (length y) in
  let memcmp_res := memcmp (take n x) (take n y) in
  match t with
  | Equal => bool_decide (length x = length y) && bool_decide (memcmp_res = 0)
  | NotEqual => negb (bool_decide (length x = length y) && bool_decide (memcmp_res = 0))
  | _ => if bool_decide (memcmp_res = 0) then compare_Z t (Z.of_nat (length x)) (Z.of_nat (length y)) else compare_Z t memcmp_res 0
  end.
Definition Operation (t : ComparisonType) (ty : PhysicalType) (x y : cell) : result bool :=
  match x, y with
  | CNum a, CNum b => match ty with FLOAT => Ok (compare_float t (float32 a) (float32 b)) | DOUBLE => Ok (compare_float t (float64 a) (float64 b)) | STRING => Err EUndefined | _ => Ok (compare_Z t a b) end
  | CStr a, CStr b => match ty with STRING => Ok (compare_string t a b) | _ => Err EUndefined end
  | _, _ => Err EUndefined
  end.

(** ** Rows ([type/vector/operations/binary_execution.h]) *)

(** A loop over rows that keeps those for which [f] holds. *)
Fixpoint select_rows (f : Z → result bool) (idxs : list Z) : result (list Z) :=
  match idxs with [] => Ok [] | i :: idxs => b ← f i; rest ← select_rows f idxs; Ok (if (b : bool) then i :: rest else rest) end.
Section binary.
Context (t : ComparisonType) (ty : PhysicalType).
Definition SelectConstant (ldata rdata : cell) (lvalidity rvalidity : option (list Z)) (idxs : list Z) : result (list Z) :=
  result ← (if mask_valid lvalidity 0 && mask_valid rvalidity 0 then Operation t ty ldata rdata else Ok false);
  Ok (if (result : bool) then idxs else []).
Definition compare_row (has_nulls : bool) (ldata rdata : list cell) (lvalidity rvalidity : option (list Z)) (lidx ridx : Z) : result bool :=
  if has_nulls && negb (mask_valid lvalidity lidx && mask_valid rvalidity ridx) then Ok false
  else x ← data_at ldata lidx; y ← data_at rdata ridx; Operation t ty x y.
Definition mask_free (validity : option (list Z)) : bool := match validity with None => true | Some _ => false end.
Definition SelectFlat (left_constant right_constant : bool) (ldata rdata : list cell) (lvalidity rvalidity : option (list Z)) (idxs : list Z) : result (list Z) :=
  let has_nulls := negb (mask_free lvalidity) || negb (mask_free rvalidity) in
  select_rows (λ idx, compare_row has_nulls ldata rdata lvalidity rvalidity (if left_constant then 0 else idx) (if right_constant then 0 else idx)) idxs.
Definition SelectGeneric (count : nat) (left right : Vector) (idxs : list Z) : result (list Z) :=
  l ← Orrify (Z.of_nat count) left;
  r ← Orrify (Z.of_nat count) right;
  let has_nulls := negb (mask_free (vd_validity l)) || negb (mask_free (vd_validity r)) in
  select_rows (λ idx, lindex ← GetIndex (vd_sel l) idx; rindex ← GetIndex (vd_sel r) idx; compare_row has_nulls (vd_data l) (vd_data r) (vd_validity l) (vd_validity r) lindex rindex) idxs.
(** [BinaryExecution::Select]; no selection is the identity. *)
Definition Binary_Select (left right : Vector) (sel : option (list Z)) (count : nat) : result (list Z) :=
  idxs ← read_indices sel 0 count;
  match left, right with
  | CONSTANT_VECTOR x lv, CONSTANT_VECTOR y rv => SelectConstant x y lv rv idxs
  | CONSTANT_VECTOR x lv, FLAT_VECTOR ys rv => SelectFlat true false [x] ys lv rv idxs
  | FLAT_VECTOR xs lv, CONSTANT_VECTOR y rv => SelectFlat false true xs [y] lv rv idxs
  | FLAT_VECTOR xs lv, FLAT_VECTOR ys rv => SelectFlat false false xs ys lv rv idxs
  | _, _ => SelectGeneric count left right idxs
  end.
End binary.

(** ** Fills ([Vector::WriteNullFill], [type/null_value.h]) *)

Definition int_of (ty : PhysicalType) : option int_type :=
  match ty with TINYINT => Some I8 | SMALLINT => Some I16 | INTEGER => Some I32 | BIGINT => Some I64 | UTINYINT => Some U8 | USMALLINT => Some U16 | UINTEGER => Some U32 | UBIGINT => Some U64 | _ => None end.
Definition NullValue (dst : int_type) : cell := CNum (Minimum dst).
Definition NAN32 : Z := 0x7fc00000.
Definition NAN64 : Z := 0x7ff8000000000000.
Definition WriteNullFill (ty : PhysicalType) : result cell :=
  match int_of ty, ty with
  | Some it, _ => Ok (NullValue it)
  | None, FLOAT => Ok (CNum NAN32)
  | None, DOUBLE => Ok (CNum NAN64)
  | None, STRING => Ok (CStr [Byte.x80])
  | None, UNKNOWN => Ok (NullValue I8)
  | None, (LIST | ARRAY) => Err EUndefined
  | None, _ => Err (EException NOT_IMPLEMENTED "Vector::SetValue: unsupported type for the null fill")
  end.
(** [Vector(val)], the constant vector of a value; a string goes to the vector's heap. *)
Definition Constant_Vector (junk : byte) (ty : PhysicalType) (val : option cell) : result Vector :=
  match val with
  | Some (CStr s) => s ← add_string junk s; Ok (CONSTANT_VECTOR (CStr s) None)
  | Some c => Ok (CONSTANT_VECTOR c None)
  | None => fill ← WriteNullFill ty; mask ← with_mask (SetInvalid 0) None; Ok (CONSTANT_VECTOR fill mask)
  end.

Section kernels.
Context (junk : byte) (junk_cell : cell).
Context (decimal_select : ComparisonType → Vector → Vector → option (list Z) → nat → result (list Z)).

(** The dispatch of [SelectOperation].  A LIST or ARRAY has no element here. *)
Definition SelectOperation (t : ComparisonType) (left right : Vector * LogicalType) (sel : option (list Z)) (count : nat) : result (list Z) :=
  let '(l, lty) := left in let '(r, rty) := right in
  let nested ty := bool_decide (ctype_ ty = LIST) || bool_decide (ctype_ ty = ARRAY) in
  if nested lty || nested rty then Err EUndefined else
  let both_decimal := bool_decide (type_ lty = LT_DECIMAL) && bool_decide (type_ rty = LT_DECIMAL) in
  if bool_decide (ctype_ lty = ctype_ rty) && (negb both_decimal || bool_decide (lty = rty)) then
    match ctype_ lty with STRUCT | UNKNOWN => Err (EException NOT_IMPLEMENTED "comparison: unsupported type") | ty => Binary_Select t ty l r sel count end
  else decimal_select t l r sel count.

(** ** Results *)

(** A loop that writes row after row of a fresh flat vector; [false] marks a row NULL. *)
Fixpoint rows_loop (f : Z → result (cell * bool)) (i : Z) (n : nat) : result (list (cell * bool)) :=
  match n with O => Ok [] | S n => x ← f i; rest ← rows_loop f (i + 1) n; Ok (x :: rest) end.
Definition flat_result (f : Z → result (cell * bool)) (count : nat) : result Vector :=
  if bool_decide (STANDARD_VECTOR_SIZE < Z.of_nat count) then Err EUndefined else
  rows ← rows_loop f 0 count;
  mask ← with_mask (for_rows 0 count (λ i m, match rows !! Z.to_nat i with Some (_, false) => SetInvalid i m | _ => mret m end)) None;
  Ok (FLAT_VECTOR (rows.*1 ++ replicate (Z.to_nat STANDARD_VECTOR_SIZE - count) junk_cell) mask).
Definition constant_result (c : cell) (valid : bool) : result Vector :=
  mask ← (if valid then Ok None else with_mask (SetInvalid 0) None); Ok (CONSTANT_VECTOR c mask).

(** ** Casts ([vector_cast.cpp], [unary_execution.h]) *)

(** The integer type a value is cast from or to.  A DECIMAL is scaled; a DATE or a TIMESTAMP is only cast to. *)
Definition int_target (ty : LogicalType) : option int_type := if bool_decide (type_ ty = LT_DECIMAL) then None else int_of (ctype_ ty).
Definition int_source (ty : LogicalType) : option int_type :=
  match type_ ty with LT_DECIMAL | LT_DATE | LT_TIMESTAMP => None | _ => int_of (ctype_ ty) end.
(** A value that does not fit leaves [NullValue<T>()] in a row that is marked NULL. *)
Definition VectorTryCast (src dst : int_type) (c : cell) : result (cell * bool) :=
  match c with CNum z => Ok (match NumericTryCast src dst z with Some y => (CNum y, true) | None => (NullValue dst, false) end) | CStr _ => Err EUndefined end.
Definition cast_row (src dst : int_type) (vd : VectorData) (i : Z) : result (cell * bool) :=
  idx ← GetIndex (vd_sel vd) i;
  if mask_valid (vd_validity vd) idx then c ← data_at (vd_data vd) idx; VectorTryCast src dst c else Ok (NullValue dst, false).
Definition VectorCastLoop (src dst : int_type) (count : nat) (v : Vector) : result Vector :=
  match v with
  | CONSTANT_VECTOR c validity =>
      '(c, ok) ← (if mask_valid validity 0 then VectorTryCast src dst c else Ok (NullValue dst, false));
      constant_result c (ok && mask_free validity)
  | _ => vd ← Orrify (Z.of_nat count) v; flat_result (cast_row src dst vd) count
  end.
(** [all_converted_]: no row that has a value failed. *)
Definition all_converted (src dst : int_type) (count : nat) (v : Vector) : result bool :=
  match v with
  | CONSTANT_VECTOR c validity => if mask_valid validity 0 then '(_, ok) ← VectorTryCast src dst c; Ok ok else Ok true
  | _ =>
      vd ← Orrify (Z.of_nat count) v;
      rows ← rows_loop (λ i, idx ← GetIndex (vd_sel vd) i; if mask_valid (vd_validity vd) idx then c ← data_at (vd_data vd) idx; VectorTryCast src dst c else Ok (NullValue dst, true)) 0 count;
      Ok (forallb snd rows)
  end.
Context (other_cast : LogicalType → LogicalType → nat → Vector → result (Vector * bool)).
Definition TryCast (source target : LogicalType) (count : nat) (v : Vector) : result (Vector * bool) :=
  if bool_decide (type_ source = LT_UNKNOWN) then v ← Constant_Vector junk (ctype_ target) None; Ok (v, true) else
  match int_source source, int_target target with
  | Some src, Some dst => w ← VectorCastLoop src dst count v; ok ← all_converted src dst count v; Ok (w, ok)
  | _, _ =>
      if (bool_decide (type_ source = LT_DATE) || bool_decide (type_ source = LT_TIMESTAMP)) && negb (bool_decide (type_ target = LT_STRING))
      then Err (EException NOT_IMPLEMENTED "cast: unsupported target type")
      else other_cast source target count v
  end.

(** ** Arithmetic ([vector_arith.cpp], [arith_operators.h], [binary_execution.h]) *)

(** Signed operands are computed in the matching unsigned type; operands narrower than [int] are promoted to it,
    where an overflow is undefined. *)
Definition promoted (it : int_type) (z : Z) : result Z :=
  if bool_decide (NumericText.width it < 32) && negb (bool_decide (in_range I32 z)) then Err EUndefined else Ok (narrow it z).
Definition arith_int (t : ArithmeticType) (it : int_type) (left right : Z) : result Z :=
  let a := wrap_u (NumericText.width it) left in let b := wrap_u (NumericText.width it) right in
  match t with
  | Plus => promoted it (a + b)
  | Minus => promoted it (a - b)
  | Multiply => promoted it (a * b)
  | Divide =>
      if bool_decide (right = 0) then Ok (Maximum it) else
      let q := Z.quot left right in
      if bool_decide (NumericText.width it < 32) then Ok (narrow it q) else if bool_decide (in_range it q) then Ok q else Err EUndefined
  end.
(** On the bits of two floats of a type. *)
Context (float_arith : ArithmeticType → PhysicalType → Z → Z → Z).
Definition arith_cell (t : ArithmeticType) (ty : PhysicalType) (x y : cell) : result cell :=
  match x, y, int_of ty with
  | CNum a, CNum b, Some it => z ← arith_int t it a b; Ok (CNum z)
  | CNum a, CNum b, None => Ok (CNum (float_arith t ty a b))
  | CStr a, CStr _, _ => Ok (CStr a)
  | _, _, _ => Err EUndefined
  end.
Definition arith_row (op : cell → cell → result cell) (lnulls rnulls : bool) (l r : VectorData) (i : Z) : result (cell * bool) :=
  li ← GetIndex (vd_sel l) i; ri ← GetIndex (vd_sel r) i;
  x ← data_at (vd_data l) li; y ← data_at (vd_data r) ri;
  c ← op x y;
  Ok (c, negb (lnulls && negb (mask_valid (vd_validity l) li)) && negb (rnulls && negb (mask_valid (vd_validity r) ri))).
(** The operation runs on every row, also on what lies below a NULL; the validity is combined afterwards. *)
Definition Binary_Execute (op : cell → cell → result cell) (left right : Vector) (count : nat) : result Vector :=
  match left, right with
  | CONSTANT_VECTOR x lv, CONSTANT_VECTOR y rv => c ← op x y; constant_result c (mask_free lv && mask_free rv)
  | _, _ =>
      l ← Orrify (Z.of_nat count) left;
      r ← Orrify (Z.of_nat count) right;
      flat_result (arith_row op (negb (mask_free (vd_validity l))) (negb (mask_free (vd_validity r))) l r) count
  end.
Definition EqualType (t : ArithmeticType) (ty : LogicalType) (left right : Vector) (count : nat) : result Vector :=
  match type_ ty with
  | LT_TINYINT => Binary_Execute (arith_cell t TINYINT) left right count
  | LT_SMALLINT => Binary_Execute (arith_cell t SMALLINT) left right count
  | LT_DATE | LT_INTEGER => Binary_Execute (arith_cell t INTEGER) left right count
  | LT_TIMESTAMP | LT_DECIMAL | LT_BIGINT => Binary_Execute (arith_cell t BIGINT) left right count
  | LT_UTINYINT => Binary_Execute (arith_cell t UTINYINT) left right count
  | LT_USMALLINT => Binary_Execute (arith_cell t USMALLINT) left right count
  | LT_UINTEGER => Binary_Execute (arith_cell t UINTEGER) left right count
  | LT_HASH | LT_ADDRESS | LT_UBIGINT => Binary_Execute (arith_cell t UBIGINT) left right count
  | LT_FLOAT => Binary_Execute (arith_cell t FLOAT) left right count
  | LT_DOUBLE => Binary_Execute (arith_cell t DOUBLE) left right count
  | LT_STRING => Binary_Execute (arith_cell t STRING) left right count
  | _ => Err (EException NOT_IMPLEMENTED "arithmetic: unsupported type")
  end.
(** The promoting path, which knows neither DATE, TIMESTAMP, BOOLEAN nor STRING as an operand, by a
    conversion to the result type; DECIMALs and floats are left to [mixed]. *)
Definition operand_int (ty : LogicalType) : option int_type :=
  match type_ ty with LT_DATE | LT_TIMESTAMP | LT_BOOLEAN | LT_DECIMAL => None | _ => int_of (ctype_ ty) end.
Definition result_int (ty : LogicalType) : option int_type :=
  match type_ ty with LT_BOOLEAN | LT_DECIMAL => None | _ => int_of (ctype_ ty) end.
Definition common_cast (t : ArithmeticType) (it : int_type) (x y : cell) : result cell :=
  match x, y with CNum a, CNum b => z ← arith_int t it (narrow it a) (narrow it b); Ok (CNum z) | _, _ => Err EUndefined end.
Definition is_real (ty : LogicalType) : bool := match type_ ty with LT_FLOAT | LT_DOUBLE | LT_DECIMAL => true | _ => false end.
Context (mixed : ArithmeticType → Vector * LogicalType → Vector * LogicalType → LogicalType → nat → result Vector).
Definition SwitchLeft (t : ArithmeticType) (left right : Vector * LogicalType) (rtype : LogicalType) (count : nat) : result Vector :=
  let supported ty := bool_decide (is_Some (operand_int ty)) || is_real ty in
  if negb (supported left.2) then Err (EException NOT_IMPLEMENTED "arithmetic: unsupported left type")
  else if negb (supported right.2) then Err (EException NOT_IMPLEMENTED "arithmetic: unsupported right type")
  else if is_real left.2 || is_real right.2 || is_real rtype then mixed t left right rtype count
  else match result_int rtype with
       | Some it => Binary_Execute (common_cast t it) left.1 right.1 count
       | None => Err (EException NOT_IMPLEMENTED "arithmetic: unsupported result type")
       end.
Definition ExecuteOperation (t : ArithmeticType) (left right : Vector * LogicalType) (rtype : LogicalType) (count : nat) : result Vector :=
  if bool_decide (left.2 = right.2) && bool_decide (left.2 = rtype) then EqualType t left.2 left.1 right.1 count else SwitchLeft t left right rtype count.
End kernels.
