(* ===== verification/ColumnReads.v ===== *)
(** * What a vector reads as

    A column as a function of the row, whatever its encoding, and the kernels of comparison, cast and arithmetic
    row by row. *)

From Stdlib Require Import Floats.SpecFloat.
From S2P Require Import Prelude TablePage TableHeap BTreePage BPlusTree GenericKey NumericText StringHeap ValidityMask SortKey VectorOps StreamOperator RowFormat RowScatter HashInvariant VectorHash HashSystem HashJoin JoinProbe JoinExecute ResultCollector VectorKernels.

(** ** Comparing values *)

(** A comparison of two values by how they are ordered: numbers by value, strings byte by byte, a NaN not at all. *)
Definition order_holds (t : ComparisonType) (c : comparison) : bool :=
  match t, c with Equal, Eq | NotEqual, (Lt | Gt) | LessThan, Lt | LessThanOrEqual, (Lt | Eq) | GreaterThan, Gt | GreaterThanOrEqual, (Gt | Eq) => true | _, _ => false end.
Definition float_holds (t : ComparisonType) (x y : spec_float) : bool := match SFcompare x y with Some c => order_holds t c | None => bool_decide (t = NotEqual) end.
Definition holds (t : ComparisonType) (ty : PhysicalType) (x y : cell) : bool :=
  match x, y with
  | CNum a, CNum b => match ty with FLOAT => float_holds t (float32 a) (float32 b) | DOUBLE => float_holds t (float64 a) (float64 b) | _ => order_holds t (a ?= b) end
  | CStr a, CStr b => order_holds t (bcmp a b)
  | _, _ => false
  end.
(** ** The operators *)

Lemma compare_Z_holds t a b : compare_Z t a b = order_holds t (a ?= b).
Proof. destruct t; cbn; unfold Z.ltb, Z.leb; rewrite ?(Z.compare_antisym a b), ?Z.eqb_compare; by destruct (a ?= b). Qed.
Lemma SFcompare_antisym x y : SFcompare y x = CompOpp <$> SFcompare x y.
Proof.
  destruct x as [[]|[]| |[] mx ex], y as [[]|[]| |[] my ey]; try done; cbn; rewrite (Z.compare_antisym ey ex); destruct (ey ?= ex); try done; cbn; change (Pcompare mx my Eq) with (Pos.compare mx my); change (Pcompare my mx Eq) with (Pos.compare my mx); by rewrite (Pos.compare_antisym mx my); destruct (mx ?= my)%positive.
Qed.
Lemma compare_float_holds t x y : compare_float t x y = float_holds t x y.
Proof. unfold float_holds. destruct t; cbn; unfold SFeqb, SFltb, SFleb; rewrite ?(SFcompare_antisym x y); by destruct (SFcompare x y) as [[]|]. Qed.
Lemma compare_string_holds t a b : compare_string t a b = order_holds t (bcmp a b).
Proof.
  destruct (operators_spec a b) as (Hl & Hg & _). unfold compare_string, string_lt, string_gt in *. cbv zeta in *. set (m := memcmp (take _ _) (take _ _)) in *. rewrite <- !bool_decide_and, <- bool_decide_or in Hl, Hg. apply (f_equal Is_true) in Hl, Hg.
  assert (m < 0 ∨ m = 0 ∧ (length a < length b)%nat ↔ bcmp a b = Lt) as Hl' by (rewrite <- (bool_decide_spec (bcmp a b = Lt)), <- Hl; by rewrite bool_decide_spec). assert (m > 0 ∨ m = 0 ∧ (length b < length a)%nat ↔ bcmp a b = Gt) as Hg' by (rewrite <- (bool_decide_spec (bcmp a b = Gt)), <- Hg; by rewrite bool_decide_spec). clear Hl Hg.
  rewrite !compare_Z_holds, <- bool_decide_and. assert (bcmp a b = if bool_decide (m = 0) then Z.of_nat (length a) ?= Z.of_nat (length b) else m ?= 0) as Hc.
  { destruct (bcmp a b); case_bool_decide as Hm; symmetry; [apply Z.compare_eq_iff|exfalso|apply Z.compare_lt_iff|apply Z.compare_lt_iff|apply Z.compare_gt_iff|apply Z.compare_gt_iff]; destruct Hl' as [Hl1 Hl2], Hg' as [Hg1 Hg2]; try specialize (Hl2 eq_refl); try specialize (Hg2 eq_refl); try lia.
    - destruct (decide (length a < length b)%nat) as [H|H]; [discriminate (Hl1 (or_intror (conj Hm H)))|]. destruct (decide (length b < length a)%nat) as [H'|H']; [discriminate (Hg1 (or_intror (conj Hm H')))|]. lia.
    - destruct (decide (m < 0)) as [H|H]; [discriminate (Hl1 (or_introl H))|]. assert (m > 0) as H' by lia. discriminate (Hg1 (or_introl H')). }
  assert (bool_decide (length a = length b ∧ m = 0) = order_holds Equal (bcmp a b)) as He.
  { rewrite Hc. destruct (decide (m = 0)) as [Hm|Hm]; [rewrite (bool_decide_true (m = 0)) by done|rewrite (bool_decide_false (m = 0)), bool_decide_false by tauto; by destruct (Z.compare_spec m 0)].
    destruct (Z.compare_spec (Z.of_nat (length a)) (Z.of_nat (length b))); [apply bool_decide_true; lia|apply bool_decide_false; lia|apply bool_decide_false; lia]. }
  rewrite He. destruct t; [done|by destruct (bcmp a b)|..]; rewrite Hc; by destruct (bool_decide (m = 0)).
Qed.

(** ** Loops *)

Lemma select_rows_ok f g idxs : (∀ i, i ∈ idxs → f i = Ok (g i)) → select_rows f idxs = Ok (filter (λ i, g i = true) idxs).
Proof.
  induction idxs as [|i idxs IH]; intros Hf; [done|]. cbn [select_rows]. rewrite Hf by set_solver. cbn [mbind result_bind]. rewrite IH by (intros; apply Hf; set_solver). cbn [mbind result_bind]. rewrite filter_cons. by destruct (g i).
Qed.
Lemma filter_same {A} (f g : A → bool) (l : list A) : (∀ x, x ∈ l → f x = g x) → filter (λ x, f x = true) l = filter (λ x, g x = true) l.
Proof. induction l as [|x l IH]; intros Hfg; [done|]. rewrite !filter_cons, Hfg by set_solver. rewrite IH by (intros; apply Hfg; set_solver). done. Qed.
Lemma mapM_ok {A B} (f : A → result B) g l : (∀ x, x ∈ l → f x = Ok (g x)) → mapM f l = Ok (g <$> l).
Proof. induction l as [|x l IH]; intros Hf; [done|]. cbn. rewrite Hf by set_solver. cbn. rewrite IH by (intros; apply Hf; set_solver). done. Qed.


Definition holds2 (t : ComparisonType) (ty : PhysicalType) (x y : option cell) : bool := match x, y with Some x, Some y => holds t ty x y | _, _ => false end.

(** A value of a type: an integer within its width, a string short enough for a string heap. *)
Definition in_width (ty : PhysicalType) (z : Z) : Prop := match int_of ty with Some it => in_range it z | None => True end.
Definition elem_ok (ty : PhysicalType) (v : option cell) : Prop :=
  match v with Some (CNum z) => is_numeric ty = true ∧ in_width ty z | Some (CStr s) => ty = STRING ∧ Z.of_nat (length s) < MINIMUM_HEAP_SIZE | None => True end.
Lemma elem_ok_storable ty v : elem_ok ty v → storable_value ty v.
Proof. destruct v as [[z|s]|]; cbn; [intros [? _]; by destruct ty|intros [-> ?]; by exists s|done]. Qed.
Lemma numeric_int ty it : int_of ty = Some it → is_numeric ty = true ∧ scalar ty = true.
Proof. by destruct ty. Qed.
Lemma numeric_elem ty it v : int_of ty = Some it → elem_ok ty v → v = None ∨ ∃ z, v = Some (CNum z) ∧ in_range it z.
Proof. intros Hi. destruct v as [[z|s]|]; cbn; [intros [_ Hw]; right; exists z; unfold in_width in Hw; by rewrite Hi in Hw|intros [-> _]; done|by left]. Qed.

(** ** Integers *)

Lemma narrow_range it z : in_range it (narrow it z).
Proof.
  unfold in_range, narrow. destruct it; cbn [IsSigned NumericText.width];
    [pose proof (wrap_s_range 8 z ltac:(lia))|pose proof (wrap_s_range 16 z ltac:(lia))|pose proof (wrap_s_range 32 z ltac:(lia))|pose proof (wrap_s_range 64 z ltac:(lia))|pose proof (wrap_u_range 8 z ltac:(lia))|pose proof (wrap_u_range 16 z ltac:(lia))|pose proof (wrap_u_range 32 z ltac:(lia))|pose proof (wrap_u_range 64 z ltac:(lia))];
    cbn in *; lia.
Qed.
Lemma narrow_shift it z k : narrow it (z + k * 2 ^ NumericText.width it) = narrow it z.
Proof.
  unfold narrow, wrap_s, wrap_u. assert (0 < 2 ^ NumericText.width it) as Hw by (by destruct it). destruct (IsSigned it); [|by rewrite Z_mod_plus_full].
  replace (z + k * 2 ^ NumericText.width it + 2 ^ (NumericText.width it - 1)) with (z + 2 ^ (NumericText.width it - 1) + k * 2 ^ NumericText.width it) by lia. by rewrite Z_mod_plus_full.
Qed.
(** Arithmetic in the mathematical integers, brought back to the type. *)
Definition arith_spec (t : ArithmeticType) (it : int_type) (a b : Z) : Z :=
  match t with Plus => narrow it (a + b) | Minus => narrow it (a - b) | Multiply => narrow it (a * b) | Divide => if bool_decide (b = 0) then Maximum it else narrow it (Z.quot a b) end.
(** The operands for which the language defines the operation. *)
Definition arith_defined (t : ArithmeticType) (it : int_type) (a b : Z) : Prop :=
  match t with
  | Plus | Minus => True
  | Multiply => NumericText.width it = 16 → wrap_u 16 a * wrap_u 16 b ≤ Maximum I32
  | Divide => IsSigned it = true → 32 ≤ NumericText.width it → ¬ (a = Minimum it ∧ b = -1)
  end.
#[global] Instance arith_defined_dec t it a b : Decision (arith_defined t it a b).
Proof. destruct t; apply _. Defined.
Lemma quot_smaller a b : 2 ≤ Z.abs b → 2 * Z.abs (Z.quot a b) ≤ Z.abs a.
Proof.
  intros Hb. rewrite <- Z.quot_abs by lia. rewrite Z.quot_div_nonneg by lia. pose proof (Z.mul_div_le (Z.abs a) (Z.abs b) ltac:(lia)). pose proof (Z.div_pos (Z.abs a) (Z.abs b) ltac:(lia) ltac:(lia)). nia.
Qed.
(** A quotient leaves the type only when the least number is divided by -1. *)
Lemma quot_range it a b : in_range it a → in_range it b → b ≠ 0 → in_range it (Z.quot a b) ↔ ¬ (IsSigned it = true ∧ a = Minimum it ∧ b = -1).
Proof.
  intros Ha Hb Hz. destruct (decide (b = -1)) as [->|H1].
  - assert (Z.quot a (-1) = - a) as -> by (change (-1) with (- (1)); rewrite Z.quot_opp_r by lia; by rewrite Z.quot_1_r). destruct (decide (IsSigned it = true)) as [Hs|Hs].
    + assert (- Maximum it - 1 = Minimum it) as Hm by (by destruct it). unfold in_range in *. split; [intros ? (_ & ? & _); lia|]. intros Hn. assert (a ≠ Minimum it) by (intros ?; apply Hn; done). lia.
    + assert (Minimum it = 0) as Hm by (by destruct it). unfold in_range in *. lia.
  - split; [by intros _ (_ & _ & ?)|]. intros _. destruct (decide (b = 1)) as [->|H2]; [by rewrite Z.quot_1_r|]. pose proof (quot_smaller a b ltac:(lia)) as Hq. destruct (decide (IsSigned it = true)) as [Hs|Hs].
    + assert (- Maximum it - 1 = Minimum it ∧ 0 < Maximum it) as [Hm ?] by (by destruct it). unfold in_range in *. lia.
    + assert (Minimum it = 0) as Hm by (by destruct it). unfold in_range in *. rewrite Hm in *. pose proof (Z.quot_pos a b ltac:(lia) ltac:(lia)). lia.
Qed.
Lemma unsigned_congr it z : ∃ k, wrap_u (NumericText.width it) z = z + k * 2 ^ NumericText.width it.
Proof. apply wrap_u_congr. by destruct it. Qed.
(** The code computes it, or the language leaves the operation undefined. *)
Lemma arith_int_ok t it a b : in_range it a → in_range it b → arith_int t it a b = if bool_decide (arith_defined t it a b) then Ok (arith_spec t it a b) else Err EUndefined.
Proof.
  intros Ha Hb. unfold arith_int. cbv zeta. destruct (unsigned_congr it a) as [ka Ea], (unsigned_congr it b) as [kb Eb]. set (w := 2 ^ NumericText.width it) in *.
  assert (0 < NumericText.width it) as Hw by (by destruct it). pose proof (wrap_u_range (NumericText.width it) a ltac:(lia)) as Ra. pose proof (wrap_u_range (NumericText.width it) b ltac:(lia)) as Rb. fold w in Ra, Rb.
  assert (∀ z, promoted it z = if bool_decide (NumericText.width it < 32 → in_range I32 z) then Ok (narrow it z) else Err EUndefined) as Hp.
  { intros z. unfold promoted. destruct (decide (NumericText.width it < 32)) as [Hl|Hl]; [rewrite (bool_decide_true (_ < 32)) by done|rewrite (bool_decide_false (_ < 32)) by done; cbn [andb]; by rewrite bool_decide_true by tauto]. cbn [andb]. destruct (decide (in_range I32 z)) as [Hr|Hr]; [by rewrite !bool_decide_true by tauto|by rewrite !bool_decide_false by tauto]. }
  assert (NumericText.width it < 32 → w ≤ 65536) as Hw16 by (unfold w; destruct it; cbn; lia).
  destruct t; cbn [arith_defined arith_spec].
  - rewrite Hp, (bool_decide_true True), bool_decide_true by (done || (intros ?%Hw16; unfold in_range; cbn; lia)). f_equal. rewrite Ea, Eb. replace (a + ka * w + (b + kb * w)) with (a + b + (ka + kb) * w) by lia. apply narrow_shift.
  - rewrite Hp, (bool_decide_true True), bool_decide_true by (done || (intros ?%Hw16; unfold in_range; cbn; lia)). f_equal. rewrite Ea, Eb. replace (a + ka * w - (b + kb * w)) with (a - b + (ka - kb) * w) by lia. apply narrow_shift.
  - rewrite Hp. assert ((NumericText.width it < 32 → in_range I32 (wrap_u (NumericText.width it) a * wrap_u (NumericText.width it) b)) ↔ (NumericText.width it = 16 → wrap_u 16 a * wrap_u 16 b ≤ Maximum I32)) as Hd.
    { unfold in_range. split.
      - intros H E. rewrite E in H. apply H. lia.
      - intros H Hl. split; [change (Minimum I32) with (- 2 ^ 31); nia|]. destruct (decide (NumericText.width it = 16)) as [E|E]; [rewrite E; by apply H|]. assert (w = 256) as -> by (unfold w; destruct it; cbn in *; done || lia). change (Maximum I32) with (2 ^ 31 - 1). nia. }
    rewrite (bool_decide_ext _ _ Hd). destruct (decide (NumericText.width it = 16 → wrap_u 16 a * wrap_u 16 b ≤ Maximum I32)) as [Hdef|Hdef]; [rewrite !bool_decide_true by exact Hdef|by rewrite !bool_decide_false by exact Hdef]. f_equal. rewrite Ea, Eb. replace ((a + ka * w) * (b + kb * w)) with (a * b + (a * kb + b * ka + ka * kb * w) * w) by lia. apply narrow_shift.
  - destruct (decide (b = 0)) as [->|Hz].
    { rewrite !(bool_decide_true (0 = 0)) by done. rewrite bool_decide_true; [done|]. intros _ _ [_ ?]. done. }
    rewrite !(bool_decide_false (b = 0)) by done. pose proof (quot_range it a b Ha Hb Hz) as Hq. destruct (decide (NumericText.width it < 32)) as [Hl|Hl].
    + rewrite (bool_decide_true (_ < 32)) by done. rewrite bool_decide_true; [done|]. lia.
    + rewrite (bool_decide_false (_ < 32)) by done. assert (in_range it (Z.quot a b) ↔ (IsSigned it = true → 32 ≤ NumericText.width it → ¬ (a = Minimum it ∧ b = -1))) as Hd by (rewrite Hq; split; [tauto|intros H [? ?]; apply H; (tauto || lia)]).
      destruct (decide (in_range it (Z.quot a b))) as [Hdef|Hdef]; [rewrite (bool_decide_true (in_range _ _)) by done; rewrite bool_decide_true by (by apply Hd)|rewrite (bool_decide_false (in_range _ _)) by done; rewrite bool_decide_false by (by rewrite <- Hd); done]. rewrite narrow_in; done.
Qed.

Section chunk.
Context (junk : byte) (junk_cell : cell).
Context (count : nat) (Hpos : (0 < count)%nat) (Hstd : Z.of_nat count ≤ STANDARD_VECTOR_SIZE).
Abbreviation in_chunk := (λ i, 0 ≤ i < Z.of_nat count).

(** ** Columns of values *)

(** The vector reads as [f], with values of type [ty]. *)
Definition value_reads (ty : PhysicalType) (col : VectorData) (i : Z) (v : option cell) : Prop := col_value col i = v ∧ readable col i ∧ elem_ok ty v.
Definition column_reads (v : Vector) (ty : PhysicalType) (f : Z → option cell) : Prop :=
  ∃ col, (∀ n, (n ≤ count)%nat → Orrify (Z.of_nat n) v = Ok col) ∧ ∀ i, in_chunk i → value_reads ty col i (f i).
Lemma reads_value ty col i v : reads ty col i v → elem_ok ty v → value_reads ty col i v.
Proof.
  intros (x & Hv & Hc & Hok & Hx) He. unfold value_reads, col_value, readable. rewrite Hv, Hc. split; [|split; [by eexists _, _|]]; destruct v as [y|]; cbn; try done; by rewrite (Hx y eq_refl).
Qed.
Lemma value_reads_inv ty col i v : value_reads ty col i v → ∃ b c, col_valid col i = Ok b ∧ col_cell col i = Ok c ∧ v = if b then Some c else None.
Proof. intros (Hv & (b & c & Hb & Hc) & _). exists b, c. unfold col_value in Hv. rewrite Hb, Hc in Hv. destruct b; done. Qed.
Lemma Orrify_small n v : (n ≤ count)%nat → Orrify (Z.of_nat n) v = Orrify (Z.of_nat count) v.
Proof. intros Hn. destruct v as [| |sel []]; try done. cbn [Orrify]. by rewrite !Z.max_r by lia. Qed.
Lemma column_intro v ty f col : Orrify (Z.of_nat count) v = Ok col → (∀ i, in_chunk i → value_reads ty col i (f i)) → column_reads v ty f.
Proof. intros E Hr. exists col. split; [|done]. intros n Hn. by rewrite Orrify_small. Qed.
(** ** Comparisons *)

Lemma Operation_ok t ty x y : scalar ty = true → elem_ok ty (Some x) → elem_ok ty (Some y) → Operation t ty x y = Ok (holds t ty x y).
Proof.
  intros Hs Hx Hy. unfold holds, Operation. destruct x as [a|a], y as [b|b]; cbn in Hx, Hy.
  - destruct Hx as [Hx _]. destruct ty; try done; by rewrite ?compare_float_holds, ?compare_Z_holds.
  - destruct Hy as [-> _], Hx as [? _]. done.
  - destruct Hx as [-> _], Hy as [? _]. done.
  - destruct Hx as [-> _]. by rewrite compare_string_holds.
Qed.
Lemma mask_free_valid validity i : mask_free validity = true → mask_valid validity i = true.
Proof. by destruct validity. Qed.
(** One row, however its elements are found. *)
Lemma compare_row_ok t ty has_nulls ldata rdata lv rv lidx ridx x y bx by_ : scalar ty = true → has_nulls = negb (mask_free lv) || negb (mask_free rv) →
  data_at ldata lidx = Ok x → data_at rdata ridx = Ok y → mask_valid lv lidx = bx → mask_valid rv ridx = by_ →
  elem_ok ty (if bx then Some x else None) → elem_ok ty (if by_ then Some y else None) →
  compare_row t ty has_nulls ldata rdata lv rv lidx ridx = Ok (holds2 t ty (if bx then Some x else None) (if by_ then Some y else None)).
Proof.
  intros Hs -> Hx Hy Hbx Hby Hvx Hvy. unfold compare_row. rewrite Hx, Hy, Hbx, Hby. cbn [mbind result_bind]. destruct (mask_free lv) eqn:El, (mask_free rv) eqn:Er; cbn [negb orb andb];
    try (apply (mask_free_valid _ lidx) in El; rewrite El in Hbx; subst bx); try (apply (mask_free_valid _ ridx) in Er; rewrite Er in Hby; subst by_); try destruct bx; try destruct by_; cbn [negb andb] in *; try done; by apply Operation_ok.
Qed.
Lemma column_cells v ty f i : column_reads v ty f → in_chunk i → match v with
  | CONSTANT_VECTOR x m => f i = if mask_valid m 0 then Some x else None
  | FLAT_VECTOR xs m => ∃ x, data_at xs i = Ok x ∧ f i = if mask_valid m i then Some x else None
  | DICTIONARY_VECTOR _ _ => True end.
Proof.
  intros (col & Eo & Hr) Hi. specialize (Eo count ltac:(lia)). destruct (value_reads_inv _ _ _ _ (Hr i Hi)) as (b & c & Hb & Hc & Hf). destruct v as [xs m|x m|]; [| |done]; cbn [Orrify] in Eo; injection Eo as <-; unfold col_valid, col_cell in *; cbn [vd_sel vd_data vd_validity] in *.
  - cbn [GetIndex mbind result_bind] in *. injection Hb as <-. by exists c.
  - assert (GetIndex (Some (replicate (Z.to_nat (Z.max (Z.of_nat count) STANDARD_VECTOR_SIZE)) 0)) i = Ok 0) as Eg by (unfold GetIndex; by rewrite lookup_replicate_2 by lia). rewrite Eg in *. cbn [mbind result_bind] in *. injection Hb as <-. injection Hc as <-. done.
Qed.
Lemma column_value v ty f i : column_reads v ty f → in_chunk i → elem_ok ty (f i).
Proof. intros (col & _ & Hr) Hi. apply (Hr i Hi). Qed.
(** All kernels keep the rows for which the comparison is true. *)
Lemma Binary_Select_ok t ty l r f g sel n idxs : scalar ty = true → column_reads l ty f → column_reads r ty g → (n ≤ count)%nat → read_indices sel 0 n = Ok idxs → Forall in_chunk idxs →
  Binary_Select t ty l r sel n = Ok (filter (λ i, holds2 t ty (f i) (g i) = true) idxs).
Proof.
  intros Hs Hl Hr Hn Ei HF. unfold Binary_Select. rewrite Ei. cbn [mbind result_bind]. rewrite Forall_forall in HF.
  assert (SelectGeneric t ty n l r idxs = Ok (filter (λ i, holds2 t ty (f i) (g i) = true) idxs)) as Hgen.
  { destruct Hl as (lc & El & Hlr), Hr as (rc & Er & Hrr). unfold SelectGeneric. rewrite El, Er by done. cbn [mbind result_bind]. apply select_rows_ok. intros i Hi. destruct (value_reads_inv _ _ _ _ (Hlr i (HF i Hi))) as (bl & x & Hbl & Hx & Hf), (value_reads_inv _ _ _ _ (Hrr i (HF i Hi))) as (br & y & Hbr & Hy & Hg).
    unfold col_valid, col_cell in *. destruct (GetIndex (vd_sel lc) i) as [li|]; [|done]. destruct (GetIndex (vd_sel rc) i) as [ri|]; [|done]. cbn [mbind result_bind] in *. injection Hbl as Hbl. injection Hbr as Hbr. rewrite Hf, Hg.
    eapply compare_row_ok; try done; [rewrite <- Hf; apply (Hlr i (HF i Hi))|rewrite <- Hg; apply (Hrr i (HF i Hi))]. }
  pose proof (λ i Hi, column_cells l ty f i Hl (HF i Hi)) as Cl. pose proof (λ i Hi, column_cells r ty g i Hr (HF i Hi)) as Cr. pose proof (λ i Hi, column_value l ty f i Hl (HF i Hi)) as Vl. pose proof (λ i Hi, column_value r ty g i Hr (HF i Hi)) as Vr.
  destruct l as [xs lv|x lv|]; [destruct r as [ys rv|y rv|]|destruct r as [ys rv|y rv|]|done]; try done.
  - apply select_rows_ok. intros i Hi. destruct (Cl i Hi) as (x & Hx & Hf). pose proof (Cr i Hi) as Hg. specialize (Vl i Hi). specialize (Vr i Hi). rewrite Hf, Hg in *. by eapply compare_row_ok.
  - apply select_rows_ok. intros i Hi. destruct (Cr i Hi) as (y & Hy & Hg). pose proof (Cl i Hi) as Hf. specialize (Vl i Hi). specialize (Vr i Hi). rewrite Hf, Hg in *. by eapply compare_row_ok.
  - unfold SelectConstant. assert (0 ≤ 0 < Z.of_nat count) as H00 by lia. pose proof (column_cells _ ty f 0 Hl H00) as Hf. pose proof (column_cells _ ty g 0 Hr H00) as Hg. pose proof (column_value _ ty f 0 Hl H00) as Hvf. pose proof (column_value _ ty g 0 Hr H00) as Hvg. cbn in Hf, Hg. rewrite Hf in Hvf. rewrite Hg in Hvg.
    assert (filter (λ i, holds2 t ty (f i) (g i) = true) idxs = if holds2 t ty (f 0) (g 0) then idxs else []) as ->.
    { assert (∀ i, i ∈ idxs → f i = f 0 ∧ g i = g 0) as Hsame by (intros i Hi; rewrite Hf, Hg; split; [by apply Cl|by apply Cr]). clear -Hsame. induction idxs as [|i idxs IH]; [by destruct (holds2 _ _ _ _)|]. rewrite filter_cons, IH by (intros; apply Hsame; set_solver). destruct (Hsame i ltac:(set_solver)) as [-> ->]. by destruct (holds2 t ty (f 0) (g 0)). }
    rewrite Hf, Hg. destruct (mask_valid lv 0), (mask_valid rv 0); cbn [andb mbind result_bind]; try done. by rewrite (Operation_ok t ty x y Hs Hvf Hvg).
Qed.

(** ** Results *)

Lemma rows_loop_ok f g n : ∀ i, (∀ j, (j < n)%nat → f (i + Z.of_nat j) = Ok (g (i + Z.of_nat j))) → rows_loop f i n = Ok ((λ j, g (i + Z.of_nat j)) <$> seq 0 n).
Proof.
  induction n as [|n IH]; intros i Hf; [done|]. cbn [rows_loop]. pose proof (Hf 0%nat ltac:(lia)) as H0. rewrite Z.add_0_r in H0. rewrite H0. cbn [mbind result_bind]. rewrite (IH (i + 1)).
  - cbn [mbind result_bind seq fmap list_fmap]. rewrite Z.add_0_r, <- seq_shift. do 2 f_equal. change (map S (seq 0 n)) with (S <$> seq 0 n). rewrite <- list_fmap_compose. apply list_fmap_ext. intros ? j _. unfold compose. f_equal. lia.
  - intros j Hj. replace (i + 1 + Z.of_nat j) with (i + Z.of_nat (S j)) by lia. apply Hf. lia.
Qed.
(** Marking the rows for which [p] is false. *)
Lemma mark_rows (p : Z → bool) (body : Z → ValidityMask → ST Buffers ValidityMask) n : ∀ i st m, 0 ≤ i → mask_wf st m → (∀ j, i ≤ j < i + Z.of_nat n → body j = if p j then mret else SetInvalid j) →
  ∃ m' st', for_rows i n body m st = (Ok m', st') ∧ mask_wf st' m' ∧ ∀ j, 0 ≤ j → valid st' m' j = if bool_decide (i ≤ j < i + Z.of_nat n) then p j && valid st m j else valid st m j.
Proof.
  induction n as [|n IH]; intros i st m Hi Hwf Hb; cbn [for_rows].
  { exists m, st. split; [done|]. split; [done|]. intros j _. by rewrite bool_decide_false by lia. }
  rewrite (Hb i) by lia. assert (∃ m1 st1, (if p i then mret else SetInvalid i) m st = (Ok m1, st1) ∧ mask_wf st1 m1 ∧ ∀ j, 0 ≤ j → valid st1 m1 j = if decide (j = i) then p i && valid st m j else valid st m j) as (m1 & st1 & E & Hwf1 & Hv1).
  { destruct (p i); [exists m, st; split; [done|]; split; [done|]; intros j _; by destruct (decide (j = i))|]. destruct (SetInvalid_ok st m i Hwf Hi) as (m' & st' & E & Hf & Hv & _). exists m', st'. split; [done|]. split; [apply (frame_wf _ _ _ _ Hf)|]. intros j Hj. rewrite Hv by done. by destruct (decide (j = i)). }
  destruct (IH (i + 1) st1 m1 ltac:(lia) Hwf1) as (m2 & st2 & E2 & Hwf2 & Hv2); [intros j Hj; apply Hb; lia|]. exists m2, st2. split; [unfold mbind, ST_bind; rewrite E; exact E2|]. split; [done|].
  intros j Hj. rewrite Hv2, Hv1 by done. destruct (decide (j = i)) as [->|Hne]; [by rewrite bool_decide_false, bool_decide_true by lia|]. by rewrite (bool_decide_ext (i + 1 ≤ j < i + 1 + Z.of_nat n) (i ≤ j < i + Z.of_nat (S n))) by lia.
Qed.

(** A column of numbers reads as [f], and holds the numbers [g], also below a NULL. *)
Definition numeric_reads (v : Vector) (ty : PhysicalType) (f : Z → option cell) (g : Z → Z) : Prop :=
  ∃ col, (∀ n, (n ≤ count)%nat → Orrify (Z.of_nat n) v = Ok col) ∧ ∀ i, in_chunk i → value_reads ty col i (f i) ∧ col_cell col i = Ok (CNum (g i)) ∧ in_width ty (g i).
Lemma numeric_column v ty f g : numeric_reads v ty f g → column_reads v ty f.
Proof. intros (col & Eo & Hr). exists col. split; [done|]. intros i Hi. by apply Hr. Qed.
Lemma numeric_value v ty f g i x : numeric_reads v ty f g → in_chunk i → f i = Some x → x = CNum (g i).
Proof. intros (col & _ & Hr) Hi Hf. destruct (Hr i Hi) as (Hv & Hc & _). destruct (value_reads_inv _ _ _ _ Hv) as (b & c & _ & Hc' & Hx). rewrite Hc in Hc'. injection Hc' as <-. rewrite Hf in Hx. destruct b; congruence. Qed.
(** What a loop over the rows writes. *)
Lemma flat_result_ok f g : (∀ i, in_chunk i → f i = Ok (g i)) →
  ∃ v col, flat_result junk_cell f count = Ok v ∧ (∀ n, (n ≤ count)%nat → Orrify (Z.of_nat n) v = Ok col) ∧ ∀ i, in_chunk i → col_valid col i = Ok (g i).2 ∧ col_cell col i = Ok (g i).1.
Proof.
  intros Hf. unfold flat_result. rewrite bool_decide_false by lia. rewrite (rows_loop_ok f g count 0) by (intros j Hj; apply Hf; lia). cbn [mbind result_bind]. set (rows := (λ j, g (0 + Z.of_nat j)) <$> seq 0 count).
  assert (∀ i, in_chunk i → rows !! Z.to_nat i = Some (g i)) as Hrow by (intros i Hi; unfold rows; rewrite list_lookup_fmap, lookup_seq_lt by lia; cbn; by rewrite Z2Nat.id by lia).
  destruct (with_mask_ok (for_rows 0 count (λ i m, match rows !! Z.to_nat i with Some (_, false) => SetInvalid i m | _ => mret m end)) None (λ i b, in_chunk i → b = (g i).2)) as (mask & E & Hm).
  { intros m st Hwf Hv. destruct (mark_rows (λ i, (g i).2) (λ i m, match rows !! Z.to_nat i with Some (_, false) => SetInvalid i m | _ => mret m end) count 0 st m ltac:(lia) Hwf) as (m' & st' & E & Hwf' & Hv').
    { intros j Hj. rewrite Hrow by lia. by destruct (g j) as [? []]. }
    exists m', st'. split; [done|]. split; [done|]. intros i Hi Hc. rewrite Hv', Hv by done. rewrite bool_decide_true by lia. cbn. by rewrite andb_true_r. }
  rewrite E. cbn [mbind result_bind]. eexists _, _. split; [done|]. split; [done|]. intros i Hi. unfold col_valid, col_cell, data_at. cbn [vd_sel vd_data vd_validity GetIndex mbind result_bind]. rewrite (Hm i) by lia. split; [done|].
  rewrite lookup_app_l by (unfold rows; rewrite !length_fmap, length_seq; lia). by rewrite list_lookup_fmap, Hrow.
Qed.
Lemma read_column col i b c ty v : col_valid col i = Ok b → col_cell col i = Ok c → v = (if b then Some c else None) → elem_ok ty v → value_reads ty col i v.
Proof. intros Hb Hc -> He. unfold value_reads, col_value, readable. rewrite Hb, Hc. split; [by destruct b|]. split; [by eexists _, _|done]. Qed.
(** A constant, NULL or not. *)
Lemma constant_column c mask : ∃ col, (∀ n, (n ≤ count)%nat → Orrify (Z.of_nat n) (CONSTANT_VECTOR c mask) = Ok col) ∧ ∀ i, in_chunk i → col_valid col i = Ok (mask_valid mask 0) ∧ col_cell col i = Ok c.
Proof.
  eexists. split; [intros n Hn; rewrite Orrify_small by done; reflexivity|]. intros i Hi. unfold col_valid, col_cell. cbn [vd_sel vd_data vd_validity]. assert (GetIndex (Some (replicate (Z.to_nat (Z.max (Z.of_nat count) STANDARD_VECTOR_SIZE)) 0)) i = Ok 0) as -> by (unfold GetIndex; by rewrite lookup_replicate_2 by lia). done.
Qed.
Lemma null_mask : ∃ mask, with_mask (SetInvalid 0) None = Ok mask ∧ mask_valid mask 0 = false.
Proof.
  destruct (with_mask_ok (SetInvalid 0) None (λ i b, i = 0 → b = false)) as (mask & E & Hm); [|exists mask; split; [done|by apply Hm]].
  intros m st Hwf Hv. destruct (SetInvalid_ok st m 0 Hwf ltac:(done)) as (m' & st' & E & Hf & Hv' & _). exists m', st'. split; [done|]. split; [apply (frame_wf _ _ _ _ Hf)|]. intros i Hi ->. rewrite Hv' by done. by rewrite decide_True.
Qed.
Lemma constant_result_ok c valid : ∃ v col, constant_result c valid = Ok v ∧ (∀ n, (n ≤ count)%nat → Orrify (Z.of_nat n) v = Ok col) ∧ ∀ i, in_chunk i → col_valid col i = Ok valid ∧ col_cell col i = Ok c.
Proof.
  unfold constant_result. destruct valid.
  - destruct (constant_column c None) as (col & Eo & Hr). by eexists _, col.
  - destruct null_mask as (mask & -> & Hm). destruct (constant_column c mask) as (col & Eo & Hr). rewrite Hm in Hr. by eexists _, col.
Qed.
(** A constant has a mask only to be NULL. *)
Definition tidy (v : Vector) : Prop := match v with CONSTANT_VECTOR _ mask => mask_free mask = mask_valid mask 0 | _ => True end.
Lemma constant_tidy c valid v : constant_result c valid = Ok v → tidy v.
Proof.
  unfold constant_result. destruct valid; [by intros [= <-]|]. destruct null_mask as (mask & -> & Hm). intros [= <-]. cbn. rewrite Hm. by destruct mask.
Qed.
Lemma null_fill ty : scalar ty = true → ∃ c, WriteNullFill ty = Ok c ∧ (is_numeric ty = true → ∃ z, c = CNum z ∧ in_width ty z).
Proof. destruct ty; try done; intros _; eexists; (split; [reflexivity|]); intros; try done; eexists; (split; [reflexivity|]); unfold in_width, in_range; cbn; try done; lia. Qed.
Lemma constant_reads v ty : scalar ty = true → elem_ok ty v → ∃ w, Constant_Vector junk ty v = Ok w ∧ column_reads w ty (λ _, v) ∧ tidy w ∧ (is_numeric ty = true → ∃ z, numeric_reads w ty (λ _, v) (λ _, z)).
Proof.
  intros Hs Hv. assert (∃ c (valid : bool) w, Constant_Vector junk ty v = Ok w ∧ v = (if valid then Some c else None) ∧ (is_numeric ty = true → ∃ z, c = CNum z ∧ in_width ty z) ∧ constant_result c valid = Ok w) as (c & valid & w & Ew & Hc & Hn & Er).
  { destruct v as [[z|s]|]; cbn [Constant_Vector].
    - exists (CNum z), true. eexists. split; [done|]. split; [done|]. split; [intros _; exists z; split; [done|apply Hv]|done].
    - destruct Hv as [-> Hl]. rewrite add_string_ok by done. exists (CStr s), true. eexists. split; [done|]. done.
    - destruct (null_fill ty Hs) as (c & -> & Hn). destruct null_mask as (mask & E & Hm). cbn [mbind result_bind]. rewrite E. exists c, false. eexists. split; [done|]. split; [done|]. split; [done|]. unfold constant_result. by rewrite E. }
  destruct (constant_result_ok c valid) as (w' & col & Er' & Eo & Hr). rewrite Er in Er'. injection Er' as <-. exists w. split; [done|]. split; [|split; [by eapply constant_tidy|]].
  - exists col. split; [done|]. intros i Hi. destruct (Hr i Hi). by eapply read_column.
  - intros (z & -> & Hz)%Hn. exists z, col. split; [done|]. intros i Hi. destruct (Hr i Hi). split; [by eapply read_column|by split].
Qed.

(** ** Casts and arithmetic *)

Lemma flat_tidy f v : flat_result junk_cell f count = Ok v → tidy v.
Proof. unfold flat_result. case_bool_decide; [done|]. destruct (rows_loop f 0 count); [|done]. cbn [mbind result_bind]. destruct (with_mask _ _); [|done]. by intros [= <-]. Qed.
(** A number that the target type does not hold becomes a NULL. *)
Definition cast_num (dst : int_type) (v : option cell) : option cell := match v with Some (CNum z) => if bool_decide (in_range dst z) then v else None | _ => None end.
Lemma cast_element src dst ty c : int_of ty = Some src → elem_ok ty (Some c) → VectorTryCast src dst c = Ok (default (NullValue dst) (cast_num dst (Some c)), bool_decide (is_Some (cast_num dst (Some c)))).
Proof.
  intros Hi He. destruct (numeric_elem ty src _ Hi He) as [?|(z & [= ->] & Hz)]; [done|]. cbn. rewrite NumericTryCast_ok by done. destruct (decide (in_range dst z)); [by rewrite (bool_decide_true (in_range dst z))|by rewrite (bool_decide_false (in_range dst z))].
Qed.
Lemma null_range it : in_range it (Minimum it).
Proof. unfold in_range. by destruct it. Qed.
Lemma VectorCastLoop_ok src dst sty dty v f : int_of sty = Some src → int_of dty = Some dst → column_reads v sty f → tidy v →
  ∃ w g, VectorCastLoop junk_cell src dst count v = Ok w ∧ numeric_reads w dty (λ i, cast_num dst (f i)) g ∧ tidy w.
Proof.
  intros Hsrc Hdst Hv Ht. destruct (numeric_int _ _ Hsrc) as [Hns _], (numeric_int _ _ Hdst) as [Hnd _]. pose proof Hv as (col & Eo & Hr).
  set (val := λ i, cast_num dst (f i)). set (out := λ i, (default (NullValue dst) (val i), bool_decide (is_Some (val i)))).
  assert (∀ i, in_chunk i → ∀ c, f i = Some c → VectorTryCast src dst c = Ok (out i)) as Hcell.
  { intros i Hi c Hf. destruct (Hr i Hi) as (_ & _ & He). unfold out, val. rewrite Hf in *. by eapply cast_element. }
  assert (∀ v, ∃ z, default (NullValue dst) (cast_num dst v) = CNum z ∧ in_range dst z) as Hcast.
  { intros u. unfold cast_num, NullValue. pose proof (null_range dst). destruct u as [[z|]|]; cbn; try (by eexists). case_bool_decide; cbn; by eexists. }
  assert (∀ i, ∃ z, (out i).1 = CNum z ∧ in_width dty z) as Hnum by (intros i; unfold in_width; rewrite Hdst; apply Hcast).
  assert (∀ i, val i = if (out i).2 then Some (out i).1 else None) as Hval by (intros i; unfold out; cbn; destruct (val i); done).
  assert (∀ i, f i = None → out i = (NullValue dst, false)) as Hnull by (intros i Hf; unfold out, val; by rewrite Hf).
  assert (∀ i, elem_ok dty (val i)) as Hok by (intros i; unfold val, cast_num; destruct (f i) as [[z|]|]; try done; case_bool_decide; try done; cbn; unfold in_width; by rewrite Hdst).
  assert (∀ w colw, (∀ n, (n ≤ count)%nat → Orrify (Z.of_nat n) w = Ok colw) → (∀ i, in_chunk i → col_valid colw i = Ok (out i).2 ∧ col_cell colw i = Ok (out i).1) → ∃ g, numeric_reads w dty val g) as Hdone.
  { intros w colw Ew Hw. exists (λ i, match (out i).1 with CNum z => z | CStr _ => 0 end), colw. split; [done|]. intros i Hi. destruct (Hw i Hi) as [H1 H2]. split; [by eapply read_column|]. destruct (Hnum i) as (z & Hz & Hzr). rewrite H2, Hz. by split. }
  assert (∀ i, in_chunk i → cast_row src dst col i = Ok (out i)) as Hrow.
  { intros i Hi. destruct (value_reads_inv _ _ _ _ (Hr i Hi)) as (b & c & Hb & Hc & Hf). unfold cast_row, col_valid, col_cell in *. destruct (GetIndex (vd_sel col) i) as [idx|]; [|done]. cbn [mbind result_bind] in *. injection Hb as Hb. rewrite Hb. destruct b; [rewrite Hc; cbn [mbind result_bind]; by apply Hcell|by rewrite Hnull]. }
  destruct v as [data mask|c mask|sel child]; cbn [VectorCastLoop].
  - rewrite (Eo count) by lia. cbn [mbind result_bind]. destruct (flat_result_ok _ _ Hrow) as (w & colw & Ew & Ewo & Hw). destruct (Hdone w colw Ewo Hw) as [g Hg]. exists w, g. split; [done|]. split; [done|]. by eapply flat_tidy.
  - assert (in_chunk 0) as H0 by lia. pose proof (column_cells _ _ _ 0 Hv H0) as Hf0. cbn in Hf0. assert (∀ i, in_chunk i → out i = out 0) as Hsame by (intros i Hi; pose proof (column_cells _ _ _ i Hv Hi) as Hfi; cbn in Hfi; unfold out, val; by rewrite Hfi, Hf0).
    assert ((if mask_valid mask 0 then VectorTryCast src dst c else Ok (NullValue dst, false)) = Ok (out 0)) as ->.
    { destruct (mask_valid mask 0); [by apply (Hcell 0)|by rewrite Hnull]. }
    cbn [mbind result_bind]. destruct (out 0) as [c0 ok0] eqn:E0. assert (ok0 && mask_free mask = ok0) as ->. { cbn in Ht. rewrite Ht. destruct (mask_valid mask 0); [by rewrite andb_true_r|]. assert (out 0 = (NullValue dst, false)) as E1 by (by apply Hnull). rewrite E0 in E1. injection E1 as _ ->. done. }
    destruct (constant_result_ok c0 ok0) as (w & colw & Ew & Ewo & Hw). destruct (Hdone w colw Ewo) as [g Hg]; [intros i Hi; rewrite (Hsame i Hi); by apply Hw|]. exists w, g. split; [done|]. split; [done|]. by eapply constant_tidy.
  - rewrite (Eo count) by lia. cbn [mbind result_bind]. destruct (flat_result_ok _ _ Hrow) as (w & colw & Ew & Ewo & Hw). destruct (Hdone w colw Ewo Hw) as [g Hg]. exists w, g. split; [done|]. split; [done|]. by eapply flat_tidy.
Qed.
(** Whether every value converts. *)
Lemma all_converted_ok src dst sty v f : int_of sty = Some src → column_reads v sty f →
  ∃ b, all_converted src dst count v = Ok b ∧ (b = true ↔ ∀ i, in_chunk i → f i ≠ None → cast_num dst (f i) ≠ None).
Proof.
  intros Hsrc Hv. pose proof Hv as (col & Eo & Hr). set (ok := λ i, bool_decide (f i = None) || bool_decide (is_Some (cast_num dst (f i)))).
  assert (∀ i, ok i = true ↔ (f i ≠ None → cast_num dst (f i) ≠ None)) as Hok.
  { intros i. unfold ok. rewrite orb_true_iff, !bool_decide_eq_true, <- not_eq_None_Some. destruct (decide (f i = None)); tauto. }
  assert (∀ i, in_chunk i → ∀ c, f i = Some c → VectorTryCast src dst c = Ok (default (NullValue dst) (cast_num dst (Some c)), ok i)) as Hcell.
  { intros i Hi c Hf. destruct (Hr i Hi) as (_ & _ & He). unfold ok. rewrite Hf in *. rewrite (bool_decide_false (Some c = None)) by done. by eapply cast_element. }
  assert (∃ b, (vd ← Orrify (Z.of_nat count) v; rows ← rows_loop (λ i, idx ← GetIndex (vd_sel vd) i; if mask_valid (vd_validity vd) idx then c ← data_at (vd_data vd) idx; VectorTryCast src dst c else Ok (NullValue dst, true)) 0 count; Ok (forallb snd rows)) = Ok b ∧ (b = true ↔ ∀ i, in_chunk i → f i ≠ None → cast_num dst (f i) ≠ None)) as Hrows.
  { rewrite (Eo count) by lia. cbn [mbind result_bind]. rewrite (rows_loop_ok _ (λ i, (default (NullValue dst) (cast_num dst (f i)), ok i))).
    - cbn [mbind result_bind]. eexists. split; [done|]. rewrite forallb_forall. setoid_rewrite <- list_elem_of_In. split.
      + intros H i Hi. apply Hok. apply (H (default (NullValue dst) (cast_num dst (f i)), ok i)). apply list_elem_of_fmap. exists (Z.to_nat i). rewrite Z.add_0_l, Z2Nat.id by lia. split; [done|]. apply elem_of_seq. lia.
      + intros H x (j & -> & Hj%elem_of_seq)%list_elem_of_fmap. apply Hok, H. lia.
    - intros j Hj. rewrite Z.add_0_l. set (i := Z.of_nat j). assert (in_chunk i) as Hi by (unfold i; lia). destruct (value_reads_inv _ _ _ _ (Hr i Hi)) as (b & c & Hb & Hc & Hf). unfold col_valid, col_cell in *. destruct (GetIndex (vd_sel col) i) as [idx|]; [|done]. cbn [mbind result_bind] in *. injection Hb as Hb. rewrite Hb. destruct b; [rewrite Hc; cbn [mbind result_bind]; rewrite Hf; by apply Hcell|]. unfold ok. by rewrite Hf. }
  destruct v as [data mask|c mask|sel child]; cbn [all_converted]; [exact Hrows| |exact Hrows]. clear Hrows. assert (in_chunk 0) as H0 by lia. pose proof (column_cells _ _ _ 0 Hv H0) as Hf0. cbn in Hf0.
  assert (∀ i, in_chunk i → f i = f 0) as Hsame by (intros i Hi; pose proof (column_cells _ _ _ i Hv Hi) as Hfi; cbn in Hfi; by rewrite Hfi, Hf0). assert (ok 0 = true ↔ ∀ i, in_chunk i → f i ≠ None → cast_num dst (f i) ≠ None) as Hall by (rewrite Hok; split; [intros H i Hi; by rewrite Hsame|intros H; by apply H]).
  destruct (mask_valid mask 0); [rewrite (Hcell 0 H0 c Hf0); by exists (ok 0)|]. exists true. split; [done|]. split; [|done]. intros _ i Hi. rewrite Hsame by done. by rewrite Hf0.
Qed.
Definition both (x y : option cell) (z : Z) : option cell := match x, y with Some _, Some _ => Some (CNum z) | _, _ => None end.
Lemma Binary_Execute_ok op l r ty fl fr gl gr h : numeric_reads l ty fl gl → numeric_reads r ty fr gr → tidy l → tidy r → is_numeric ty = true → (∀ i, in_chunk i → op (CNum (gl i)) (CNum (gr i)) = Ok (CNum (h i)) ∧ in_width ty (h i)) →
  ∃ v, Binary_Execute junk_cell op l r count = Ok v ∧ numeric_reads v ty (λ i, both (fl i) (fr i) (h i)) h ∧ tidy v.
Proof.
  intros Hl Hr Htl Htr Hn Hoph. assert (∀ i, in_chunk i → op (CNum (gl i)) (CNum (gr i)) = Ok (CNum (h i))) as Hop by (intros i Hi; by apply Hoph). pose proof Hl as (lc & El & Hlr). pose proof Hr as (rc & Er & Hrr). set (valid_at := λ i, bool_decide (is_Some (fl i)) && bool_decide (is_Some (fr i))).
  assert (∀ w colw, (∀ n, (n ≤ count)%nat → Orrify (Z.of_nat n) w = Ok colw) → (∀ i, in_chunk i → col_valid colw i = Ok (valid_at i) ∧ col_cell colw i = Ok (CNum (h i))) → numeric_reads w ty (λ i, both (fl i) (fr i) (h i)) h) as Hdone.
  { intros w colw Ew Hw. exists colw. split; [done|]. intros i Hi. destruct (Hw i Hi) as [H1 H2], (Hoph i Hi) as [_ H3]. split; [|by split]. eapply read_column; [done|done| |]; unfold valid_at, both; destruct (fl i), (fr i); done. }
  assert (∀ i, in_chunk i → arith_row op (negb (mask_free (vd_validity lc))) (negb (mask_free (vd_validity rc))) lc rc i = Ok (CNum (h i), valid_at i)) as Hrow.
  { intros i Hi. destruct (Hlr i Hi) as (Hvl & Hcl & _), (Hrr i Hi) as (Hvr & Hcr & _). destruct (value_reads_inv _ _ _ _ Hvl) as (bl & xl & Hbl & _ & Hfl), (value_reads_inv _ _ _ _ Hvr) as (br & xr & Hbr & _ & Hfr). unfold arith_row, col_valid, col_cell, valid_at in *. destruct (GetIndex (vd_sel lc) i) as [li|]; [|done]. destruct (GetIndex (vd_sel rc) i) as [ri|]; [|done]. cbn [mbind result_bind] in *. injection Hbl as Hbl. injection Hbr as Hbr.
    rewrite Hcl, Hcr. cbn [mbind result_bind]. rewrite (Hop i Hi). cbn [mbind result_bind]. rewrite Hbl, Hbr. do 2 f_equal. assert (∀ m idx b, mask_valid m idx = b → negb (negb (mask_free m) && negb b) = b) as Hmask by (intros [ws|] idx b; cbn; [intros _; by destruct b|by intros <-]). rewrite (Hmask _ _ _ Hbl), (Hmask _ _ _ Hbr), Hfl, Hfr. by destruct bl, br. }
  assert (∃ v, (l' ← Orrify (Z.of_nat count) l; r' ← Orrify (Z.of_nat count) r; flat_result junk_cell (arith_row op (negb (mask_free (vd_validity l'))) (negb (mask_free (vd_validity r'))) l' r') count) = Ok v ∧ numeric_reads v ty (λ i, both (fl i) (fr i) (h i)) h ∧ tidy v) as Hflat.
  { rewrite (El count), (Er count) by lia. cbn [mbind result_bind]. destruct (flat_result_ok _ _ Hrow) as (w & colw & Ew & Ewo & Hw). exists w. split; [done|]. split; [by eapply Hdone|]. by eapply flat_tidy. }
  destruct l as [| x lv|], r as [|y rv|]; try exact Hflat. cbn [Binary_Execute]. clear Hflat. assert (in_chunk 0) as H0 by lia.
  assert (∀ w t f g c m i, w = CONSTANT_VECTOR c m → numeric_reads w t f g → tidy w → in_chunk i → c = CNum (g i) ∧ mask_free m = bool_decide (is_Some (f i))) as Hconst.
  { intros w t f g c m i -> Hw Ht Hi. cbn in Ht. rewrite Ht. pose proof (column_cells _ _ _ i (numeric_column _ _ _ _ Hw) Hi) as Hf. cbn in Hf. destruct Hw as (cw & Ew & Hw). destruct (constant_column c m) as (cw' & Ew' & Hw'). specialize (Ew count ltac:(lia)). rewrite (Ew' count ltac:(lia)) in Ew. injection Ew as <-. destruct (Hw' i Hi) as [_ Hc], (Hw i Hi) as (_ & Hc' & _). rewrite Hc in Hc'. split; [congruence|]. rewrite Hf. by destruct (mask_valid m 0). }
  destruct (Hconst _ _ _ _ _ _ 0 eq_refl Hl Htl H0) as [-> Hlv], (Hconst _ _ _ _ _ _ 0 eq_refl Hr Htr H0) as [-> Hrv]. rewrite (Hop 0 H0). cbn [mbind result_bind]. destruct (constant_result_ok (CNum (h 0)) (mask_free lv && mask_free rv)) as (w & colw & Ew & Ewo & Hw). exists w. split; [done|]. split; [|by eapply constant_tidy].
  eapply Hdone; [done|]. intros i Hi. destruct (Hconst _ _ _ _ _ _ i eq_refl Hl Htl Hi) as [Hgl Hlv'], (Hconst _ _ _ _ _ _ i eq_refl Hr Htr Hi) as [Hgr Hrv']. destruct (Hw i Hi) as [H1 H2]. rewrite H1, H2. unfold valid_at. split; [by rewrite Hlv', Hrv'|].
  pose proof (Hop 0 H0) as E0. pose proof (Hop i Hi) as Ei. rewrite <- Hgl, <- Hgr, E0 in Ei. by injection Ei as ->.
Qed.

Section select.
Context (decimal_select : ComparisonType → Vector → Vector → option (list Z) → nat → result (list Z)).
Abbreviation select_op := (SelectOperation decimal_select).
Lemma SelectOperation_ok t ty l r f g sel n idxs : scalar (ctype_ ty) = true → column_reads l (ctype_ ty) f → column_reads r (ctype_ ty) g → (n ≤ count)%nat → read_indices sel 0 n = Ok idxs → Forall in_chunk idxs →
  select_op t (l, ty) (r, ty) sel n = Ok (filter (λ i, holds2 t (ctype_ ty) (f i) (g i) = true) idxs).
Proof.
  intros Hs Hl Hr Hn Ei HF. unfold SelectOperation. rewrite (bool_decide_false (ctype_ ty = LIST)), (bool_decide_false (ctype_ ty = ARRAY)) by (intros E; by rewrite E in Hs). cbn [orb]. rewrite (bool_decide_true (ctype_ ty = ctype_ ty)), (bool_decide_true (ty = ty)), orb_true_r by done. cbn [andb].
  rewrite <- (Binary_Select_ok t (ctype_ ty) l r f g sel n idxs Hs Hl Hr Hn Ei HF). by destruct (ctype_ ty).
Qed.
End select.
Lemma rows_index n : read_indices None 0 n = Ok (Z.of_nat <$> seq 0 n).
Proof.
  assert (∀ i, read_indices None i n = Ok ((λ j, i + Z.of_nat j) <$> seq 0 n)) as ->; [|by f_equal]. induction n as [|n IH]; intros i; [done|]. cbn [read_indices GetIndex mbind result_bind seq fmap list_fmap]. rewrite IH. cbn [mbind result_bind]. rewrite Z.add_0_r, <- seq_shift. do 2 f_equal.
  change (map S (seq 0 n)) with (S <$> seq 0 n). rewrite <- list_fmap_compose. apply list_fmap_ext. intros ? j _. unfold compose. lia.
Qed.
Lemma all_in_chunk : Forall in_chunk (all_rows count).
Proof. apply Forall_forall. intros i. by rewrite all_rows_elem. Qed.

End chunk.
