(* ===== verification/ExpressionExecutor.v ===== *)
(** * Evaluating expressions ([execution/expression_executor.cpp])

    Columns, constants, arithmetic, casts, upper and lower, comparisons, AND and OR, IS NULL, LIKE and IN, over
    a chunk at a time, and the filter over the result. *)

From stdpp Require Import sorting.
From S2P Require Import Prelude TablePage TableHeap BTreePage BPlusTree GenericKey NumericText StringHeap ValidityMask SortKey VectorOps RowFormat LikeMatch VectorKernels.

Inductive LogicType := And | Or.
Inductive StringExpressionType := Lower | Upper.
(** The nodes of [execution/expressions/], with the return types their constructors store. *)
Inductive Expr :=
  | ColumnValue (tuple_idx col_idx : nat) (ret_type : LogicalType)
  | ConstantValue (val_ : option cell) (ret_type : LogicalType)
  | Arithmetic (compute_type_ : ArithmeticType) (left right : Expr) (ret_type : LogicalType)
  | CastTo (strict_ : bool) (child : Expr) (target : LogicalType)
  | StringCall (expr_type_ : StringExpressionType) (arg : Expr)
  | Comparison (comp_type_ : ComparisonType) (left right : Expr)
  | Logic (logic_type_ : LogicType) (left right : Expr)
  | IsNull (negated_ : bool) (child : Expr)
  | Like (negated_ : bool) (input pattern : Expr)
  | In (negated_ : bool) (tested : Expr) (elems : list Expr).
Definition BOOLEAN : LogicalType := of_id LT_BOOLEAN.
Definition GetReturnType (e : Expr) : LogicalType :=
  match e with ColumnValue _ _ ty | ConstantValue _ ty | Arithmetic _ _ _ ty | CastTo _ _ ty => ty | StringCall _ _ => of_id LT_STRING | _ => BOOLEAN end.
(** [ArithmeticExpression::ResultType]: the common type, but a DECIMAL is computed as a DOUBLE. *)
Definition ResultType (left right : LogicalType) : result LogicalType :=
  common ← CommonType left right; Ok (if bool_decide (type_ common = LT_DECIMAL) then of_id LT_DOUBLE else common).

Section executor.
Context (junk : byte) (junk_cell : cell).
Context (other_cast : LogicalType → LogicalType → nat → Vector → result (Vector * bool)) (decimal_select : ComparisonType → Vector → Vector → option (list Z) → nat → result (list Z)).
Context (float_arith : ArithmeticType → PhysicalType → Z → Z → Z) (mixed : ArithmeticType → Vector * LogicalType → Vector * LogicalType → LogicalType → nat → result Vector).

(** Two types with one physical type are not told apart. *)
Definition CastIfNeeded (v : Vector * LogicalType) (target : LogicalType) (count : nat) : result (Vector * LogicalType) :=
  let '(v, ty) := v in
  if bool_decide (ctype_ ty = ctype_ target) then Ok (v, ty) else
  '(v, _) ← TryCast junk junk_cell other_cast ty target count v; Ok (v, target).
(** An explicit CAST fails on a row that does not convert. *)
Definition StrictCast (v : Vector * LogicalType) (target : LogicalType) (count : nat) : result (Vector * LogicalType) :=
  let '(v, ty) := v in
  if bool_decide (ty = target) then Ok (v, ty) else
  '(v, ok) ← TryCast junk junk_cell other_cast ty target count v;
  if (ok : bool) then Ok (v, target) else Err (EException EXECUTION "CAST failed").

(** ** Strings *)

(** [std::toupper] and [std::tolower] of the C locale. *)
Definition shift_byte (first last : Z) (by_ : Z) (b : byte) : byte :=
  if bool_decide (first ≤ byte_val b ≤ last) then default b (Byte.of_N (Z.to_N (byte_val b + by_))) else b.
Definition change_case (t : StringExpressionType) : byte → byte := match t with Upper => shift_byte 97 122 (-32) | Lower => shift_byte 65 90 32 end.
Definition RunString (t : StringExpressionType) (arg : Vector) (count : nat) : result Vector :=
  arg ← Normalify junk junk_cell STRING count arg;
  match arg with
  | FLAT_VECTOR data validity =>
      flat_result junk_cell (λ i,
        if mask_valid validity i then
          c ← data_at data i;
          match c with CStr s => s ← add_string junk (change_case t <$> s); Ok (CStr s, true) | CNum _ => Err EUndefined end
        else fill ← WriteNullFill STRING; Ok (fill, false)) count
  | _ => Err EUndefined
  end.

(** ** Boolean vectors *)

Fixpoint bool_rows (f : Z → result bool) (i : Z) (n : nat) : result (list cell) :=
  match n with O => Ok [] | S n => b ← f i; rest ← bool_rows f (i + 1) n; Ok (CNum (Z.b2z b) :: rest) end.
(** A loop that writes 0 or 1 for every row of a fresh vector. *)
Definition bool_vector (f : Z → result bool) (count : nat) : result Vector :=
  if bool_decide (STANDARD_VECTOR_SIZE < Z.of_nat count) then Err EUndefined else
  out ← bool_rows f 0 count; Ok (FLAT_VECTOR (out ++ replicate (Z.to_nat STANDARD_VECTOR_SIZE - count) junk_cell) None).
Definition BoolVectorFromSelection (true_sel : list Z) (count : nat) : result Vector := bool_vector (λ i, Ok (bool_decide (i ∈ true_sel))) count.
(** A NULL reads as false; without a mask there is none. *)
Definition truth_at (data : list cell) (validity : option (list Z)) (i : Z) : result bool :=
  if mask_valid validity i then x ← data_at data i; match x with CNum z => Ok (negb (bool_decide (z = 0))) | CStr _ => Err EUndefined end else Ok false.
Definition RunLogic (t : LogicType) (left right : Vector) (count : nat) : result Vector :=
  l ← Normalify junk junk_cell UTINYINT count left;
  r ← Normalify junk junk_cell UTINYINT count right;
  match l, r with
  | FLAT_VECTOR ld lv, FLAT_VECTOR rd rv =>
      bool_vector (λ i, a ← truth_at ld lv i; b ← truth_at rd rv i; Ok (match t with And => a && b | Or => a || b end)) count
  | _, _ => Err EUndefined
  end.
Definition is_null_row (vd : VectorData) (i : Z) : result bool := ok ← col_valid vd i; Ok (negb ok).
Definition RunIsNull (negated : bool) (child : Vector) (count : nat) : result Vector :=
  vd ← Orrify (Z.of_nat count) child; bool_vector (λ i, row_is_null ← is_null_row vd i; Ok (xorb row_is_null negated)) count.
Definition RunLike (negated : bool) (input pattern : Vector) (count : nat) : result Vector :=
  vi ← Orrify (Z.of_nat count) input;
  vp ← Orrify (Z.of_nat count) pattern;
  bool_vector (λ i,
    a ← is_null_row vi i; b ← is_null_row vp i;
    if a || b then Ok false else
    s ← col_cell vi i; p ← col_cell vp i;
    match s, p with CStr s, CStr p => match LikeMatch s p with Some matched => Ok (xorb matched negated) | None => Err EBlocked end | _, _ => Err EUndefined end) count.

(** ** IN *)

Definition IsBinarySearchable (ptype : PhysicalType) : bool := match ptype with TINYINT | SMALLINT | INTEGER | BIGINT | UTINYINT | USMALLINT | UINTEGER | UBIGINT => true | _ => false end.
(** [None] is a list that cannot be prepared.  The bytes of an element are taken whether or not its cast is NULL. *)
Fixpoint constant_elements (common : LogicalType) (elems : list Expr) : result (option (list Z * bool)) :=
  match elems with
  | [] => Ok (Some ([], false))
  | ConstantValue None _ :: elems => rest ← constant_elements common elems; Ok (option_map (λ x : list Z * bool, (x.1, true)) rest)
  | ConstantValue (Some c) ty :: elems =>
      one ← Constant_Vector junk (ctype_ ty) (Some c);
      '(v, _) ← CastIfNeeded (one, ty) common 1;
      v ← Normalify junk junk_cell (ctype_ common) 1 v;
      rest ← constant_elements common elems;
      match v with
      | FLAT_VECTOR (CNum z :: _) _ => Ok (option_map (λ x : list Z * bool, (z :: x.1, x.2)) rest)
      | _ => Err EUndefined
      end
  | _ => Ok None
  end.
Definition GetConstantInList (common : LogicalType) (elems : list Expr) : result (option (list Z * bool)) :=
  if IsBinarySearchable (ctype_ common) then prepared ← constant_elements common elems; Ok (option_map (λ x : list Z * bool, (merge_sort Z.le x.1, x.2)) prepared) else Ok None.
(** [std::binary_search]: the range is halved at the first element not below [x]. *)
Fixpoint lower_bound (fuel : nat) (values : list Z) (x : Z) (first last : nat) : nat :=
  match fuel with
  | O => first
  | S fuel =>
      if bool_decide (first < last)%nat then
        let mid := (first + (last - first) / 2)%nat in
        if bool_decide (default 0 (values !! mid) < x) then lower_bound fuel values x (S mid) last else lower_bound fuel values x first mid
      else first
  end.
Definition binary_search (values : list Z) (x : Z) : bool :=
  match values !! lower_bound (length values) values x 0 (length values) with Some y => negb (bool_decide (x < y)) | None => false end.
Definition ProbeSortedIn (negated : bool) (tested : Vector) (values : list Z) (list_has_null : bool) (count : nat) : result Vector :=
  tv ← Orrify (Z.of_nat count) tested;
  bool_vector (λ i,
    null ← is_null_row tv i;
    if (null : bool) then Ok false else
    x ← col_cell tv i;
    match x with CNum z => let matched := binary_search values z in Ok (if negated then negb matched && negb list_has_null else matched) | CStr _ => Err EUndefined end) count.
(** [matched] and [null_seen] after the elements of the list. *)
Fixpoint in_loop (tested : Vector * LogicalType) (items : list (Vector * LogicalType)) (count : nat) (matched null_seen : list bool) : result (list bool * list bool) :=
  match items with
  | [] => Ok (matched, null_seen)
  | item :: items =>
      true_sel ← SelectOperation decimal_select Equal tested item None count;
      let matched := imap (λ i m, m || bool_decide (Z.of_nat i ∈ true_sel)) matched in
      iv ← Orrify (Z.of_nat count) item.1;
      nulls ← (if mask_free (vd_validity iv) then Ok (replicate count false) else mapM (is_null_row iv) (Z.of_nat <$> seq 0 count));
      in_loop tested items count matched (zip_with orb null_seen nulls)
  end.
Definition RunIn (negated : bool) (tested : Vector * LogicalType) (items : list (Vector * LogicalType)) (count : nat) : result Vector :=
  tv ← Orrify (Z.of_nat count) tested.1;
  null_seen ← mapM (is_null_row tv) (Z.of_nat <$> seq 0 count);
  '(matched, null_seen) ← in_loop tested items count (replicate count false) null_seen;
  bool_vector (λ i, match matched !! Z.to_nat i, null_seen !! Z.to_nat i with Some m, Some n => Ok (if negated then negb m && negb n else m) | _, _ => Err EUndefined end) count.

(** ** Expressions *)

Fixpoint common_of (common : LogicalType) (elems : list Expr) : result LogicalType :=
  match elems with [] => Ok common | e :: elems => common ← CommonType common (GetReturnType e); common_of common elems end.
Context (input : list Vector) (count : nat).
Definition compare_operands (left right : Vector * LogicalType) : result ((Vector * LogicalType) * (Vector * LogicalType)) :=
  common ← CommonType left.2 right.2; l ← CastIfNeeded left common count; r ← CastIfNeeded right common count; Ok (l, r).
Fixpoint Evaluate (expr : Expr) : result (Vector * LogicalType) :=
  match expr with
  | ColumnValue _ col ty => match input !! col with Some v => Ok (v, ty) | None => Err EUndefined end
  | ConstantValue val ty => v ← Constant_Vector junk (ctype_ ty) val; Ok (v, ty)
  | Arithmetic t lhs rhs rtype =>
      l ← Evaluate lhs; l ← CastIfNeeded l rtype count;
      r ← Evaluate rhs; r ← CastIfNeeded r rtype count;
      v ← ExecuteOperation junk_cell float_arith mixed t l r rtype count; Ok (v, rtype)
  | CastTo strict child target => c ← Evaluate child; if (strict : bool) then StrictCast c target count else CastIfNeeded c target count
  | StringCall t arg => a ← Evaluate arg; v ← RunString t a.1 count; Ok (v, of_id LT_STRING)
  | Comparison t lhs rhs =>
      l ← Evaluate lhs; r ← Evaluate rhs;
      '(l, r) ← compare_operands l r;
      true_sel ← SelectOperation decimal_select t l r None count;
      v ← BoolVectorFromSelection true_sel count; Ok (v, BOOLEAN)
  | Logic t lhs rhs => l ← Evaluate lhs; r ← Evaluate rhs; v ← RunLogic t l.1 r.1 count; Ok (v, BOOLEAN)
  | IsNull negated child => c ← Evaluate child; v ← RunIsNull negated c.1 count; Ok (v, BOOLEAN)
  | Like negated input pattern => s ← Evaluate input; p ← Evaluate pattern; v ← RunLike negated s.1 p.1 count; Ok (v, BOOLEAN)
  | In negated tested elems =>
      common ← common_of (GetReturnType tested) elems;
      tv ← Evaluate tested; tv ← CastIfNeeded tv common count;
      prepared ← GetConstantInList common elems;
      v ← match prepared with
          | Some (values, has_null) => ProbeSortedIn negated tv.1 values has_null count
          | None =>
              items ← (fix items (elems : list Expr) := match elems with [] => Ok [] | e :: elems => v ← Evaluate e; v ← CastIfNeeded v common count; rest ← items elems; Ok (v :: rest) end) elems;
              RunIn negated tv items count
          end;
      Ok (v, BOOLEAN)
  end.

(** [ExpressionExecutor::Execute]: one column per root, with its type. *)
Definition Execute_roots (roots : list Expr) : result (list (Vector * LogicalType)) := mapM Evaluate roots.

(** ** The filter *)

Fixpoint CollectComparisonConjuncts (expr : Expr) : option (list (ComparisonType * Expr * Expr)) :=
  match expr with
  | Comparison t l r => Some [(t, l, r)]
  | Logic And l r => match CollectComparisonConjuncts l, CollectComparisonConjuncts r with Some a, Some b => Some (a ++ b) | _, _ => None end
  | _ => None
  end.
(** Each comparison tests the rows its predecessor left. *)
Fixpoint narrow_chain (conjuncts : list (ComparisonType * Expr * Expr)) (cur : option (list Z)) (n : nat) : result (list Z) :=
  match conjuncts with
  | [] => match cur with Some sel => Ok sel | None => Err EUndefined end
  | (t, lhs, rhs) :: conjuncts =>
      if bool_decide (n = 0%nat) then Ok [] else
      l ← Evaluate lhs; r ← Evaluate rhs;
      '(l, r) ← compare_operands l r;
      sel ← SelectOperation decimal_select t l r cur n;
      narrow_chain conjuncts (Some sel) (length sel)
  end.
Definition Select (root : Expr) : result (list Z) :=
  match (if bool_decide (0 < count)%nat then CollectComparisonConjuncts root else None) with
  | Some conjuncts => narrow_chain conjuncts None count
  | None =>
      b ← Evaluate root;
      v ← Normalify junk junk_cell (ctype_ b.2) count b.1;
      match v with
      | FLAT_VECTOR data validity =>
          select_rows (truth_at data validity) (Z.of_nat <$> seq 0 count)
      | _ => Err EUndefined
      end
  end.
End executor.
