(* ===== verification/ExpressionEval.v ===== *)
(** * Expressions mean what SQL says

    The value of an expression on a row, in three-valued logic for a predicate, and that evaluating and filtering
    a chunk follows it.  Integers of different types meet in their common type, where a value that does not
    fit is NULL; other operands are of one type. *)

From stdpp Require Import sorting.
From S2P Require Import Prelude TablePage TableHeap BTreePage BPlusTree GenericKey NumericText StringHeap ValidityMask SortKey VectorOps StreamOperator RowFormat RowScatter HashInvariant VectorHash HashSystem HashJoin JoinProbe JoinExecute ResultCollector LikeMatch VectorKernels ColumnReads ExpressionExecutor.

(** ** Values *)

(** The casts that leave the integers, value by value. *)
Class Casts := cast_other : LogicalType → LogicalType → option cell → option cell.
Section expressions.
Context {casts : Casts}.
(** A value brought to another type. *)
Definition cast_value (src dst : LogicalType) (v : option cell) : option cell :=
  if bool_decide (src = dst) then v else match int_source src, int_target dst with Some _, Some it => cast_num it v | _, _ => cast_other src dst v end.
Definition arith_value (t : ArithmeticType) (ty : LogicalType) (x y : option cell) : option cell :=
  match int_of (ctype_ ty), x, y with Some it, Some (CNum a), Some (CNum b) => Some (CNum (arith_spec t it a b)) | _, _, _ => None end.
Fixpoint value_of (e : Expr) (row : Row) : option cell :=
  match e with
  | ColumnValue _ c _ => default None (row !! c)
  | ConstantValue v _ => v
  | Arithmetic t l r ty => arith_value t ty (cast_value (GetReturnType l) ty (value_of l row)) (cast_value (GetReturnType r) ty (value_of r row))
  | CastTo _ e ty => cast_value (GetReturnType e) ty (value_of e row)
  | StringCall t e => match value_of e row with Some (CStr s) => Some (CStr (change_case t <$> s)) | _ => None end
  | _ => None
  end.
Definition common_type (l r : LogicalType) : LogicalType := match CommonType l r with Ok ty => ty | Err _ => l end.

(** ** Three-valued logic *)

Definition and3 (a b : option bool) : option bool := match a, b with Some false, _ | _, Some false => Some false | Some true, Some true => Some true | _, _ => None end.
Definition or3 (a b : option bool) : option bool := match a, b with Some true, _ | _, Some true => Some true | Some false, Some false => Some false | _, _ => None end.
Definition compare3 (t : ComparisonType) (ty : PhysicalType) (x y : option cell) : option bool := match x, y with Some x, Some y => Some (holds t ty x y) | _, _ => None end.
#[global] Instance like_dec p s : Decision (like p s).
Proof.
  destruct (LikeMatch s p) as [[]|] eqn:E; [left|right|right]; destruct (LikeMatch_ok s p) as (x & E' & Hx); rewrite E in E'; try done; injection E' as <-; [by apply Hx|by intros ?%Hx].
Defined.
Definition like3 (s p : option cell) : option bool := match s, p with Some (CStr s), Some (CStr p) => Some (bool_decide (like p s)) | _, _ => None end.
Fixpoint eval3 (e : Expr) (row : Row) : option bool :=
  match e with
  | Comparison t l r =>
      let common := common_type (GetReturnType l) (GetReturnType r) in
      compare3 t (ctype_ common) (cast_value (GetReturnType l) common (value_of l row)) (cast_value (GetReturnType r) common (value_of r row))
  | Logic And l r => and3 (eval3 l row) (eval3 r row)
  | Logic Or l r => or3 (eval3 l row) (eval3 r row)
  | IsNull negated e => Some (xorb (bool_decide (value_of e row = None)) negated)
  | Like negated s p => xorb negated <$> like3 (value_of s row) (value_of p row)
  | In negated e elems => xorb negated <$> foldr or3 (Some false) ((λ x, compare3 Equal (ctype_ (GetReturnType e)) (value_of e row) (value_of x row)) <$> elems)
  | _ => match value_of e row with Some (CNum z) => Some (negb (bool_decide (z = 0))) | _ => None end
  end.
Definition passes3 (e : Expr) (row : Row) : bool := bool_decide (eval3 e row = Some true).

(** ** Well-formed expressions over columns of some types *)

(** Types that are equal, or integers of different width or sign. *)
Definition castable (src dst : LogicalType) : Prop :=
  src = dst ∨ (ctype_ src ≠ ctype_ dst ∧ type_ src ≠ LT_UNKNOWN ∧ is_Some (int_source src) ∧ is_Some (int_target dst)).
(** Arithmetic on integers for which no operands are undefined: 16-bit products are left out, and a division of 32
    or 64 bits has an unsigned type or a constant divisor other than -1. *)
Definition arith_ok (t : ArithmeticType) (ty : LogicalType) (r : Expr) : Prop :=
  ∃ it, int_of (ctype_ ty) = Some it ∧ ctype_ ty = PhysicalTypeOf (type_ ty) ∧ type_ ty ≠ LT_BOOLEAN ∧ type_ ty ≠ LT_DECIMAL ∧
  match t with
  | Plus | Minus => True
  | Multiply => NumericText.width it ≠ 16
  | Divide => IsSigned it = false ∨ NumericText.width it < 32 ∨ ∃ z, r = ConstantValue (Some (CNum z)) ty ∧ z ≠ -1
  end.
Fixpoint operand_ok (types : list PhysicalType) (e : Expr) : Prop :=
  scalar (ctype_ (GetReturnType e)) = true ∧
  match e with
  | ColumnValue _ c ty => types !! c = Some (ctype_ ty)
  | ConstantValue v ty => elem_ok (ctype_ ty) v
  | Arithmetic t l r ty => operand_ok types l ∧ operand_ok types r ∧ castable (GetReturnType l) ty ∧ castable (GetReturnType r) ty ∧ arith_ok t ty r
  | CastTo strict e ty => strict = false ∧ operand_ok types e ∧ castable (GetReturnType e) ty
  | StringCall _ e => operand_ok types e ∧ ctype_ (GetReturnType e) = STRING
  | _ => False
  end.
Fixpoint pred_ok (types : list PhysicalType) (e : Expr) : Prop :=
  match e with
  | Comparison _ l r => operand_ok types l ∧ operand_ok types r ∧ ∃ common, CommonType (GetReturnType l) (GetReturnType r) = Ok common ∧ castable (GetReturnType l) common ∧ castable (GetReturnType r) common
  | Logic _ l r => pred_ok types l ∧ pred_ok types r
  | IsNull _ e => operand_ok types e
  | Like _ s p => operand_ok types s ∧ operand_ok types p ∧ ctype_ (GetReturnType s) = STRING ∧ ctype_ (GetReturnType p) = STRING
  | In _ e elems => operand_ok types e ∧ elems ≠ [] ∧ Forall (λ x, operand_ok types x ∧ GetReturnType x = GetReturnType e) elems
  | _ => operand_ok types e ∧ ctype_ (GetReturnType e) = UTINYINT
  end.

(** ** Loops *)

Lemma bool_rows_ok f g n : ∀ i, (∀ j, (j < n)%nat → f (i + Z.of_nat j) = Ok (g (i + Z.of_nat j))) → bool_rows f i n = Ok ((λ j, CNum (Z.b2z (g (i + Z.of_nat j)))) <$> seq 0 n).
Proof.
  induction n as [|n IH]; intros i Hf; [done|]. cbn [bool_rows]. pose proof (Hf 0%nat ltac:(lia)) as H0. rewrite Z.add_0_r in H0. rewrite H0. cbn [mbind result_bind]. rewrite (IH (i + 1)).
  - cbn [mbind result_bind seq fmap list_fmap]. rewrite Z.add_0_r, <- seq_shift. do 2 f_equal. change (map S (seq 0 n)) with (S <$> seq 0 n). rewrite <- list_fmap_compose. apply list_fmap_ext. intros ? j _. unfold compose. do 3 f_equal. lia.
  - intros j Hj. replace (i + 1 + Z.of_nat j) with (i + Z.of_nat (S j)) by lia. apply Hf. lia.
Qed.

(** ** Searching a sorted list *)

Lemma lower_bound_ok l x : StronglySorted Z.le l → ∀ fuel first last, (first ≤ last ≤ length l)%nat → (last - first ≤ fuel)%nat →
  (∀ i y, (i < first)%nat → l !! i = Some y → y < x) → (∀ i y, (last ≤ i)%nat → l !! i = Some y → x ≤ y) →
  let k := lower_bound fuel l x first last in (∀ i y, (i < k)%nat → l !! i = Some y → y < x) ∧ (∀ i y, (k ≤ i)%nat → l !! i = Some y → x ≤ y).
Proof.
  intros Hs. assert (∀ i j y z, (i ≤ j)%nat → l !! i = Some y → l !! j = Some z → y ≤ z) as Hmono.
  { induction Hs as [|a l' _ IH HF]; [done|]. intros [|i] [|j] y z Hij Hy Hz; simpl in *; [simplify_eq; done|simplify_eq; rewrite Forall_forall in HF; apply HF; by eapply list_elem_of_lookup_2|lia|eapply (IH i j); [lia|done..]]. }
  induction fuel as [|fuel IH]; intros first last Hr Hf Hlo Hhi; cbn [lower_bound]; [assert (first = last) as -> by lia; done|]. case_bool_decide as Hlt; [|assert (first = last) as -> by lia; done].
  set (mid := (first + (last - first) / 2)%nat). assert (first ≤ mid < last)%nat as Hm by (pose proof (Nat.div_lt (last - first) 2 ltac:(lia) ltac:(lia)); unfold mid; lia). destruct (lookup_lt_is_Some_2 l mid) as [v Hv]; [lia|]. rewrite Hv. cbn [default from_option id]. case_bool_decide as Hvx.
  - apply IH; [lia|lia| |done]. intros i y Hi Hy. assert (y ≤ v) by (eapply (Hmono i mid); [lia|done..]). lia.
  - apply IH; [lia|lia|done|]. intros i y Hi Hy. assert (v ≤ y) by (by eapply (Hmono mid i)). lia.
Qed.
Lemma binary_search_ok l x : StronglySorted Z.le l → binary_search l x = bool_decide (x ∈ l).
Proof.
  intros Hs. unfold binary_search. destruct (lower_bound_ok l x Hs (length l) 0 (length l)) as [Hlo Hhi]; [lia|lia|lia|intros i y Hi Hy; apply lookup_lt_Some in Hy; lia|]. set (k := lower_bound (length l) l x 0 (length l)) in *. cbn zeta in *.
  destruct (l !! k) as [y|] eqn:Ey.
  - pose proof (Hhi k y ltac:(lia) Ey) as Hxy. case_bool_decide as Hlt; cbn [negb]; symmetry; [apply bool_decide_false|apply bool_decide_true; assert (x = y) as -> by lia; by eapply list_elem_of_lookup_2].
    intros [i Hi]%list_elem_of_lookup. destruct (decide (i < k)%nat) as [Hik|Hik]; [specialize (Hlo _ _ Hik Hi); lia|].
    assert (∀ i j y z, (i ≤ j)%nat → l !! i = Some y → l !! j = Some z → y ≤ z) as Hmono.
    { clear -Hs. induction Hs as [|a l' _ IH HF]; [done|]. intros [|i] [|j] y z Hij Hy Hz; simpl in *; [simplify_eq; done|simplify_eq; rewrite Forall_forall in HF; apply HF; by eapply list_elem_of_lookup_2|lia|eapply (IH i j); [lia|done..]]. }
    assert (y ≤ x) by (eapply (Hmono k i); [lia|done..]). lia.
  - symmetry. apply bool_decide_false. intros [i Hi]%list_elem_of_lookup. apply lookup_ge_None in Ey. apply lookup_lt_Some in Hi as Hl. specialize (Hlo i x ltac:(lia) Hi). lia.
Qed.

(** ** IN *)

Lemma or3_true l : foldr or3 (Some false) l = Some true ↔ Some true ∈ l.
Proof. induction l as [|a l IH]; [split; [done|set_solver]|]. cbn [foldr]. rewrite elem_of_cons, <- IH. destruct a as [[]|], (foldr or3 (Some false) l) as [[]|]; cbn; split; try done; try tauto; intros [?|?]; congruence. Qed.
Lemma or3_false l : foldr or3 (Some false) l = Some false ↔ Forall (λ a, a = Some false) l.
Proof. induction l as [|a l IH]; [done|]. cbn [foldr]. rewrite Forall_cons, <- IH. destruct a as [[]|], (foldr or3 (Some false) l) as [[]|]; cbn; split; try done; try tauto; intros [? ?]; congruence. Qed.
(** The values of the list on a row. *)
Definition elem_values (elems : list Expr) (w : Row) : list (option cell) := (λ e, value_of e w) <$> elems.
Definition is_none (v : option cell) : bool := bool_decide (v = None).
Definition some_equal (ty : PhysicalType) (v : option cell) (vals : list (option cell)) : bool := existsb (holds2 Equal ty v) vals.
Lemma some_equal_null ty vals : some_equal ty None vals = false.
Proof. by induction vals. Qed.
Lemma passes_In negated e elems w : elems ≠ [] → let v := value_of e w in let vals := elem_values elems w in
  passes3 (In negated e elems) w = if negated then negb (some_equal (ctype_ (GetReturnType e)) v vals) && negb (is_none v || existsb is_none vals) else some_equal (ctype_ (GetReturnType e)) v vals.
Proof.
  intros Hne. cbn zeta. unfold passes3. cbn [eval3]. set (ty := ctype_ (GetReturnType e)). set (v := value_of e w). assert ((λ x, compare3 Equal ty v (value_of x w)) <$> elems = compare3 Equal ty v <$> elem_values elems w) as -> by (unfold elem_values; by rewrite <- list_fmap_compose).
  assert (elem_values elems w ≠ []) as Hnv by (unfold elem_values; by destruct elems). generalize (elem_values elems w) Hnv. clear. intros vals Hnv.
  assert (some_equal ty v vals = bool_decide (Some true ∈ compare3 Equal ty v <$> vals)) as Heq.
  { unfold some_equal. apply eq_bool_prop_intro. rewrite bool_decide_spec. rewrite Is_true_true, existsb_exists, list_elem_of_fmap. split; intros (x & H1 & H2); exists x; rewrite <- list_elem_of_In in *; [split; [|done]|split; [done|]]; unfold holds2, compare3 in *; destruct v, x; congruence. }
  destruct negated.
  - assert (xorb true <$> foldr or3 (Some false) (compare3 Equal ty v <$> vals) = Some true ↔ Forall (λ a, a = Some false) (compare3 Equal ty v <$> vals)) as Hf.
    { rewrite <- or3_false. destruct (foldr _ _ _) as [[]|]; cbn; split; try done; congruence. }
    rewrite (bool_decide_ext _ _ Hf), Heq. apply eq_bool_prop_intro. assert (Is_true (existsb is_none vals) ↔ None ∈ vals) as Hnone by (rewrite Is_true_true, existsb_exists; split; [intros (x & Hx & Hn); rewrite <- list_elem_of_In in Hx; unfold is_none in Hn; apply bool_decide_eq_true in Hn; by subst|intros Hn; exists None; split; [by apply list_elem_of_In|done]]).
    unfold is_none at 1. rewrite bool_decide_spec, andb_True, !negb_True, orb_True, Hnone, !bool_decide_spec. rewrite Forall_fmap, Forall_forall. split.
    + intros Hall. split; [intros (x & Ex & Hx)%list_elem_of_fmap; specialize (Hall x Hx); unfold compose in Hall; congruence|]. intros [->|Hn].
      * destruct vals as [|x vals]; [done|]. specialize (Hall x ltac:(set_solver)). done.
      * specialize (Hall None Hn). unfold compose, compare3 in Hall. by destruct v.
    + intros [Hn Hv] x Hx. unfold compose, compare3. destruct v as [a|]; [|exfalso; tauto]. destruct x as [b|]; [|exfalso; tauto]. destruct (holds Equal ty a b) eqn:Eh; [|done]. exfalso. apply Hn, list_elem_of_fmap. exists (Some b). cbn. by rewrite Eh.
  - rewrite Heq. apply bool_decide_ext. rewrite <- or3_true. destruct (foldr _ _ _) as [[]|]; cbn; split; congruence.
Qed.

Section chunk.
Context (junk : byte) (junk_cell : cell).
Context (other_cast : LogicalType → LogicalType → nat → Vector → result (Vector * bool)) (decimal_select : ComparisonType → Vector → Vector → option (list Z) → nat → result (list Z)).
Context (float_arith : ArithmeticType → PhysicalType → Z → Z → Z) (mixed : ArithmeticType → Vector * LogicalType → Vector * LogicalType → LogicalType → nat → result Vector).
Context (count : nat) (Hpos : (0 < count)%nat) (Hstd : Z.of_nat count ≤ STANDARD_VECTOR_SIZE).
Abbreviation in_chunk := (λ i, 0 ≤ i < Z.of_nat count).
Abbreviation column_reads := (column_reads count).
Abbreviation numeric_reads := (numeric_reads count).
Abbreviation evaluate := (Evaluate junk junk_cell other_cast decimal_select float_arith mixed).

(** ** Operands *)

Record operand_reads (v : Vector) (ty : PhysicalType) (f : Z → option cell) : Prop := {
  or_reads : column_reads v ty f;
  or_tidy : tidy v;
  or_numeric : is_numeric ty = true → ∃ g, numeric_reads v ty f g }.
Lemma castable_int src dst : castable src dst → src = dst ∨ ∃ s d, int_source src = Some s ∧ int_of (ctype_ src) = Some s ∧ int_target dst = Some d ∧ int_of (ctype_ dst) = Some d ∧ ctype_ src ≠ ctype_ dst ∧ type_ src ≠ LT_UNKNOWN ∧ src ≠ dst.
Proof.
  intros [->|(Hne & Hu & [s Hs] & [d Hd])]; [by left|right]. exists s, d. split; [done|]. split; [unfold int_source in Hs; by destruct (type_ src)|]. split; [done|]. split; [unfold int_target in Hd; by case_bool_decide|]. split; [done|]. split; [done|congruence].
Qed.
Lemma TryCast_ok src dst v f : castable src dst → src ≠ dst → operand_reads v (ctype_ src) f →
  ∃ w b, TryCast junk junk_cell other_cast src dst count v = Ok (w, b) ∧ operand_reads w (ctype_ dst) (λ i, cast_value src dst (f i)) ∧ (b = true ↔ ∀ i, in_chunk i → f i ≠ None → cast_value src dst (f i) ≠ None).
Proof.
  intros Hc Hne [Hv Ht _]. destruct (castable_int src dst Hc) as [?|(s & d & Hs & Hs' & Hd & Hd' & _ & Hu & _)]; [done|]. unfold TryCast. rewrite bool_decide_false by done. rewrite Hs, Hd.
  destruct (VectorCastLoop_ok junk_cell count Hpos Hstd s d _ _ v f Hs' Hd' Hv Ht) as (w & g & Ew & Hw & Htw). destruct (all_converted_ok count Hpos s d _ v f Hs' Hv) as (b & Eb & Hb). rewrite Ew. cbn [mbind result_bind]. rewrite Eb. cbn [mbind result_bind].
  exists w, b. split; [done|]. unfold cast_value. rewrite (bool_decide_false (src = dst)), Hs, Hd by done. split; [|done]. split; [by eapply numeric_column|done|by exists g].
Qed.
Lemma CastIfNeeded_ok src dst v f : castable src dst → operand_reads v (ctype_ src) f →
  ∃ w, CastIfNeeded junk junk_cell other_cast (v, src) dst count = Ok (w, dst) ∧ operand_reads w (ctype_ dst) (λ i, cast_value src dst (f i)).
Proof.
  intros Hc Hv. unfold CastIfNeeded. destruct (castable_int src dst Hc) as [->|(s & d & _ & _ & _ & _ & Hne & _ & Hne')].
  - rewrite bool_decide_true by done. exists v. split; [done|]. unfold cast_value. by rewrite bool_decide_true by done.
  - rewrite bool_decide_false by done. destruct (TryCast_ok src dst v f Hc Hne' Hv) as (w & b & E & Hw & _). rewrite E. by exists w.
Qed.
Lemma cast_same v ty n : CastIfNeeded junk junk_cell other_cast (v, ty) ty n = Ok (v, ty).
Proof. unfold CastIfNeeded. by rewrite bool_decide_true. Qed.
Lemma EqualType_ok t ty l r n it : int_of (ctype_ ty) = Some it → ctype_ ty = PhysicalTypeOf (type_ ty) → type_ ty ≠ LT_BOOLEAN → type_ ty ≠ LT_DECIMAL →
  EqualType junk_cell float_arith t ty l r n = Binary_Execute junk_cell (arith_cell float_arith t (ctype_ ty)) l r n.
Proof. intros Hi Hp Hb Hd. unfold EqualType. rewrite Hp in *. by destruct (type_ ty). Qed.
Lemma arith_spec_range t it a b : in_range it (arith_spec t it a b).
Proof. destruct t; cbn; try apply narrow_range. case_bool_decide; [|apply narrow_range]. unfold in_range. by destruct it. Qed.
Lemma numeric_ext v ty f f' g : (∀ i, in_chunk i → f i = f' i) → numeric_reads v ty f g → numeric_reads v ty f' g.
Proof. intros Hf (col & Eo & Hr). exists col. split; [done|]. intros i Hi. rewrite <- Hf by done. by apply Hr. Qed.
Lemma numeric_const v ty f z : operand_reads v ty f → is_numeric ty = true → (∀ i, in_chunk i → f i = Some (CNum z)) → numeric_reads v ty f (λ _, z).
Proof.
  intros [_ _ Hn] Hty Hf. destruct (Hn Hty) as [g Hg]. pose proof Hg as (col & Eo & Hr). exists col. split; [done|]. intros i Hi. assert (g i = z) as <-; [|by apply Hr]. pose proof (numeric_value _ _ _ _ _ _ _ Hg Hi (Hf i Hi)) as E. congruence.
Qed.
Lemma arithmetic_ok t ty r vl vr fl fr : arith_ok t ty r → operand_reads vl (ctype_ ty) fl → operand_reads vr (ctype_ ty) fr → (∀ z, r = ConstantValue (Some (CNum z)) ty → numeric_reads vr (ctype_ ty) fr (λ _, z)) →
  ∃ v, ExecuteOperation junk_cell float_arith mixed t (vl, ty) (vr, ty) ty count = Ok v ∧ operand_reads v (ctype_ ty) (λ i, arith_value t ty (fl i) (fr i)).
Proof.
  intros (it & Hit & Hp & Hb & Hd & Hdef) [_ Htl Hnl] [_ Htr Hnr] Hconst. destruct (numeric_int _ _ Hit) as [Hn _]. destruct (Hnl Hn) as [gl Hgl].
  assert (∃ gr, numeric_reads vr (ctype_ ty) fr gr ∧ ∀ i, in_chunk i → arith_defined t it (gl i) (gr i)) as (gr & Hgr & Hall).
  { destruct (Hnr Hn) as [gr Hgr]. destruct t; cbn [arith_defined]; [by exists gr|by exists gr|exists gr; split; [done|]; intros i _ ?; done|].
    destruct Hdef as [Hs|[Hw|(z & Hr & Hz)]]; [exists gr; split; [done|]; intros i _; by rewrite Hs|exists gr; split; [done|]; intros i _; lia|]. exists (λ _, z). split; [by apply Hconst|]. intros i _ _ _ [_ ?]. done. }
  unfold ExecuteOperation. cbn [fst snd]. rewrite !(bool_decide_true (ty = ty)) by done. cbn [andb]. rewrite (EqualType_ok t ty _ _ _ it Hit Hp Hb Hd). set (h := λ i, arith_spec t it (gl i) (gr i)).
  assert (∀ v f g i, numeric_reads v (ctype_ ty) f g → in_chunk i → in_range it (g i)) as Hrange by (intros v f g i (col & _ & Hr) Hi; destruct (Hr i Hi) as (_ & _ & Hw); unfold in_width in Hw; by rewrite Hit in Hw).
  destruct (Binary_Execute_ok junk_cell count Hpos Hstd (arith_cell float_arith t (ctype_ ty)) vl vr (ctype_ ty) fl fr gl gr h Hgl Hgr Htl Htr Hn) as (v & Ev & Hv & Ht).
  { intros i Hi. unfold arith_cell. rewrite Hit, arith_int_ok by (by eapply Hrange). rewrite bool_decide_true by (by apply Hall). split; [done|]. unfold in_width. rewrite Hit. apply arith_spec_range. }
  exists v. split; [done|]. assert (numeric_reads v (ctype_ ty) (λ i, arith_value t ty (fl i) (fr i)) h) as Hv'.
  { eapply numeric_ext; [|exact Hv]. intros i Hi. unfold both, arith_value. rewrite Hit. destruct (fl i) as [x|] eqn:El; [|done]. destruct (fr i) as [y|] eqn:Er; [|by destruct x]. rewrite (numeric_value _ _ _ _ _ _ _ Hgl Hi El), (numeric_value _ _ _ _ _ _ _ Hgr Hi Er). done. }
  split; [by eapply numeric_column|done|by exists h].
Qed.
Definition call_value (t : StringExpressionType) (v : option cell) : option cell := match v with Some (CStr s) => Some (CStr (change_case t <$> s)) | _ => None end.
Lemma Normalify_column v ty f : scalar ty = true → column_reads v ty f → ∃ data mask, Normalify junk junk_cell ty count v = Ok (FLAT_VECTOR data mask) ∧ column_reads (FLAT_VECTOR data mask) ty f.
Proof.
  intros Hs (col & Eo & Hr). destruct (Normalify_value junk junk_cell ty v count col Hpos Hstd (Eo count ltac:(lia)) Hs) as (data & mask & E & Hd).
  { intros i Hi. destruct (Hr i Hi) as (Hf & Hrd & He). split; [done|]. rewrite Hf. by apply elem_ok_storable. }
  exists data, mask. split; [done|]. eapply column_intro; [done|done|reflexivity|]. intros i Hi. destruct (Hd i Hi) as [Hv Hrd], (Hr i Hi) as (Hf & _ & Hok). split; [by rewrite <- Hf, <- Hv|]. by split.
Qed.
Lemma RunString_ok t v f : column_reads v STRING f → ∃ w, RunString junk junk_cell t v count = Ok w ∧ operand_reads w STRING (λ i, call_value t (f i)).
Proof.
  intros Hv. destruct (Normalify_column v STRING f eq_refl Hv) as (data & mask & E & Hd). unfold RunString. rewrite E. cbn [mbind result_bind].
  destruct (flat_result_ok junk_cell count Hpos Hstd (λ i, if mask_valid mask i then c ← data_at data i; match c with CStr s => s ← add_string junk (change_case t <$> s); Ok (CStr s, true) | CNum _ => Err EUndefined end else fill ← WriteNullFill STRING; Ok (fill, false)) (λ i, match f i with Some (CStr s) => (CStr (change_case t <$> s), true) | _ => (CStr [Byte.x80], false) end)) as (w & col & Ew & Eo & Hw).
  { intros i Hi. destruct (column_cells count Hpos _ _ _ _ Hd Hi) as (x & Hx & Hf). pose proof (column_value _ _ _ _ _ Hd Hi) as He. rewrite Hf in *. destruct (mask_valid mask i); [|done]. rewrite Hx. cbn [mbind result_bind]. destruct x as [z|s]; [by destruct He|]. destruct He as [_ Hl]. rewrite add_string_ok by (by rewrite length_fmap). done. }
  exists w. split; [done|]. split; [|by eapply flat_tidy|done]. exists col. split; [done|]. intros i Hi. destruct (Hw i Hi) as [H1 H2]. pose proof (column_value _ _ _ _ _ Hd Hi) as He. eapply read_column; [done|done| |]; unfold call_value; destruct (f i) as [[z|s]|]; try done. cbn in *. by rewrite length_fmap.
Qed.

Context (types : list PhysicalType) (input : list Vector) (cols : list VectorData) (Ecols : chunk_Orrify (Z.of_nat count) input = Ok cols).
Abbreviation row := (rows_of count input).
(** The columns of the input. *)
Definition input_ok : Prop := ∀ c ty, types !! c = Some ty → scalar ty = true → ∃ v, input !! c = Some v ∧ operand_reads v ty (λ i, default None (row i !! c)).
Context (Hinput : input_ok).
Lemma operand_evaluates e : operand_ok types e → ∃ v, evaluate input count e = Ok (v, GetReturnType e) ∧ operand_reads v (ctype_ (GetReturnType e)) (λ i, value_of e (row i)).
Proof.
  induction e as [k c ty|v ty|t l IHl r IHr ty|strict e IH ty|t e IH|t l IHl r IHr|t l IHl r IHr|n e IH|n s IHs p IHp|n e IH elems]; intros [Hs He]; try done; cbn [GetReturnType value_of Evaluate] in *.
  - destruct (Hinput c _ He Hs) as (v & Ev & Hv). rewrite Ev. by exists v.
  - destruct (constant_reads junk count Hpos Hstd v (ctype_ ty) Hs He) as (w & Ew & Hw & Ht & Hn). rewrite Ew. exists w. split; [done|]. split; [done|done|intros H; destruct (Hn H) as [z Hz]; by eexists].
  - destruct He as (Hl & Hr & Hcl & Hcr & Ha). destruct (IHl Hl) as (vl & El & Cl), (IHr Hr) as (vr & Er & Cr). rewrite El. cbn [mbind result_bind]. destruct (CastIfNeeded_ok _ _ _ _ Hcl Cl) as (wl & Ewl & Dl). rewrite Ewl. cbn [mbind result_bind]. rewrite Er. cbn [mbind result_bind]. destruct (CastIfNeeded_ok _ _ _ _ Hcr Cr) as (wr & Ewr & Dr). rewrite Ewr. cbn [mbind result_bind].
    destruct (arithmetic_ok t ty r wl wr _ _ Ha Dl Dr) as (v & Ev & Cv); [|rewrite Ev; by exists v]. intros z ->. destruct Ha as (it & Hit & _). eapply numeric_const; [exact Dr|by eapply numeric_int|]. intros i _. cbn [GetReturnType value_of]. unfold cast_value. by rewrite bool_decide_true.
  - destruct He as (-> & He & Hc). destruct (IH He) as (v & Ev & Cv). rewrite Ev. cbn [mbind result_bind]. by apply CastIfNeeded_ok.
  - destruct He as [He Hst]. destruct (IH He) as (v & Ev & Cv). rewrite Ev. cbn [mbind result_bind fst]. rewrite Hst in Cv. destruct (RunString_ok t v _ (or_reads _ _ _ Cv)) as (w & Ew & Hw). rewrite Ew. by exists w.
Qed.
Lemma operand_column e : operand_ok types e → ∃ v, evaluate input count e = Ok (v, GetReturnType e) ∧ column_reads v (ctype_ (GetReturnType e)) (λ i, value_of e (row i)).
Proof. intros He. destruct (operand_evaluates e He) as (v & Ev & [Cv _ _]). by exists v. Qed.
Lemma operand_scalar e : operand_ok types e → scalar (ctype_ (GetReturnType e)) = true.
Proof. destruct e; by intros [? _]. Qed.

(** ** Predicates *)

Definition truthy (v : option cell) : bool := match v with Some (CNum z) => negb (bool_decide (z = 0)) | _ => false end.
(** A boolean column that is true where the predicate is; NULL and false are not told apart. *)
Definition evaluates (e : Expr) : Prop := ∃ v ty f, evaluate input count e = Ok (v, ty) ∧ ctype_ ty = UTINYINT ∧ column_reads v UTINYINT f ∧ ∀ i, in_chunk i → truthy (f i) = passes3 e (row i).
Lemma truthy_b2z b : truthy (Some (CNum (Z.b2z b))) = b.
Proof. by destruct b. Qed.
Lemma bool_vector_ok f g : (∀ i, in_chunk i → f i = Ok (g i)) → ∃ v, bool_vector junk_cell f count = Ok v ∧ column_reads v UTINYINT (λ i, Some (CNum (Z.b2z (g i)))).
Proof.
  intros Hf. unfold bool_vector. rewrite bool_decide_false by lia. rewrite (bool_rows_ok f g count 0) by (intros j Hj; apply Hf; lia). cbn [mbind result_bind]. eexists. split; [done|]. eapply column_intro; [done|done|reflexivity|]. intros i Hi.
  eapply (read_column _ _ true (CNum (Z.b2z (g i)))); [done| |done|].
  - unfold col_cell, data_at. cbn [vd_sel vd_data GetIndex mbind result_bind]. rewrite lookup_app_l by (rewrite length_fmap, length_seq; lia). rewrite list_lookup_fmap, lookup_seq_lt by lia. cbn. by rewrite Z2Nat.id by lia.
  - split; [done|]. unfold in_width, in_range. cbn. destruct (g i); cbn; lia.
Qed.
Lemma evaluates_bool e f g : evaluate input count e = (v ← bool_vector junk_cell f count; Ok (v, BOOLEAN)) → (∀ i, in_chunk i → f i = Ok (g i)) → (∀ i, in_chunk i → g i = passes3 e (row i)) → evaluates e.
Proof.
  intros E Hf Hg. destruct (bool_vector_ok f g Hf) as (v & Ev & Hv). exists v, BOOLEAN. eexists. rewrite E, Ev. split; [done|]. split; [done|]. split; [exact Hv|]. intros i Hi. cbn beta. rewrite truthy_b2z. by apply Hg.
Qed.
Lemma truth_at_ok data mask f i : column_reads (FLAT_VECTOR data mask) UTINYINT f → in_chunk i → truth_at data mask i = Ok (truthy (f i)).
Proof.
  intros Hc Hi. destruct (column_cells count Hpos _ _ _ _ Hc Hi) as (x & Hx & Hf). pose proof (column_value _ _ _ _ _ Hc Hi) as Hv. unfold truth_at. rewrite Hx, Hf in *. destruct (mask_valid mask i); [|done]. cbn [mbind result_bind truthy]. destruct x; [done|]. by destruct Hv.
Qed.
Lemma is_null_ok vd ty i v : value_reads ty vd i v → is_null_row vd i = Ok (bool_decide (v = None)).
Proof. intros (b & c & Hb & _ & ->)%value_reads_inv. unfold is_null_row. rewrite Hb. cbn [mbind result_bind]. by destruct b. Qed.
Lemma passes_And l r w : passes3 (Logic And l r) w = passes3 l w && passes3 r w.
Proof. unfold passes3. cbn [eval3]. by destruct (eval3 l w) as [[]|], (eval3 r w) as [[]|]. Qed.
Lemma passes_Or l r w : passes3 (Logic Or l r) w = passes3 l w || passes3 r w.
Proof. unfold passes3. cbn [eval3]. by destruct (eval3 l w) as [[]|], (eval3 r w) as [[]|]. Qed.
(** Both sides of a comparison at their common type. *)
Lemma comparison_operands t l r : pred_ok types (Comparison t l r) → ∃ vl vr wl wr common fl fr,
  evaluate input count l = Ok (vl, GetReturnType l) ∧ evaluate input count r = Ok (vr, GetReturnType r) ∧
  compare_operands junk junk_cell other_cast count (vl, GetReturnType l) (vr, GetReturnType r) = Ok ((wl, common), (wr, common)) ∧
  scalar (ctype_ common) = true ∧ column_reads wl (ctype_ common) fl ∧ column_reads wr (ctype_ common) fr ∧ ∀ i, holds2 t (ctype_ common) (fl i) (fr i) = passes3 (Comparison t l r) (row i).
Proof.
  intros (Hl & Hr & common & Ec & Kl & Kr). destruct (operand_evaluates l Hl) as (vl & El & Cl), (operand_evaluates r Hr) as (vr & Er & Cr). destruct (CastIfNeeded_ok _ _ _ _ Kl Cl) as (wl & Ewl & Dl), (CastIfNeeded_ok _ _ _ _ Kr Cr) as (wr & Ewr & Dr).
  exists vl, vr, wl, wr, common. eexists _, _. split; [done|]. split; [done|]. split; [unfold compare_operands; cbn [snd]; rewrite Ec; cbn [mbind result_bind]; rewrite Ewl; cbn [mbind result_bind]; by rewrite Ewr|].
  split; [destruct (castable_int _ _ Kl) as [<-|(s & d & _ & _ & _ & Hd & _)]; [by apply operand_scalar|by eapply numeric_int]|]. split; [exact (or_reads _ _ _ Dl)|]. split; [exact (or_reads _ _ _ Dr)|].
  intros i. unfold passes3. cbn [eval3]. unfold common_type. rewrite Ec. cbv zeta. unfold holds2, compare3. destruct (cast_value (GetReturnType l) common _) as [x|]; [|done]. destruct (cast_value (GetReturnType r) common _) as [y|]; [|done]. by destruct (holds _ _ _ _).
Qed.
Lemma comparison_evaluates t l r : pred_ok types (Comparison t l r) → evaluates (Comparison t l r).
Proof.
  intros Hp. destruct (comparison_operands t l r Hp) as (vl & vr & wl & wr & common & fl & fr & El & Er & Ec & Hs & Cl & Cr & Hh). eapply evaluates_bool; [|intros i Hi; reflexivity|].
  - cbn [Evaluate]. rewrite El, Er. cbn [mbind result_bind]. rewrite Ec. cbn [mbind result_bind]. rewrite (SelectOperation_ok count Hpos decimal_select t common wl wr fl fr None count _ Hs Cl Cr ltac:(lia) (rows_index count Hpos count) (all_in_chunk count)). cbn [mbind result_bind]. reflexivity.
  - intros i Hi. rewrite <- Hh. destruct (holds2 _ _ _ _) eqn:E; [apply bool_decide_true, list_elem_of_filter|apply bool_decide_false; intros [Hn _]%list_elem_of_filter; congruence]. split; [done|]. by apply all_rows_elem.
Qed.
Lemma logic_evaluates t l r : evaluates l → evaluates r → evaluates (Logic t l r).
Proof.
  intros (vl & tl & fl & El & _ & Cl & Hl) (vr & tr & fr & Er & _ & Cr & Hr). destruct (Normalify_column vl UTINYINT fl eq_refl Cl) as (ld & lm & Nl & Cl'), (Normalify_column vr UTINYINT fr eq_refl Cr) as (rd & rm & Nr & Cr').
  eapply evaluates_bool.
  - cbn [Evaluate]. rewrite El, Er. cbn [mbind result_bind fst]. unfold RunLogic. rewrite Nl, Nr. cbn [mbind result_bind]. reflexivity.
  - intros i Hi. cbn beta. rewrite (truth_at_ok _ _ _ _ Cl' Hi), (truth_at_ok _ _ _ _ Cr' Hi). cbn [mbind result_bind]. reflexivity.
  - intros i Hi. cbn. rewrite (Hl i Hi), (Hr i Hi). destruct t; [by rewrite passes_And|by rewrite passes_Or].
Qed.
Lemma is_null_evaluates negated e : operand_ok types e → evaluates (IsNull negated e).
Proof.
  intros He. destruct (operand_column e He) as (v & Ev & (col & Eo & Hr)). eapply evaluates_bool.
  - cbn [Evaluate]. rewrite Ev. cbn [mbind result_bind fst]. unfold RunIsNull. rewrite (Eo count) by lia. cbn [mbind result_bind]. reflexivity.
  - intros i Hi. cbn beta. rewrite (is_null_ok _ _ _ _ (Hr i Hi)). cbn [mbind result_bind]. reflexivity.
  - intros i Hi. cbn. unfold passes3. cbn [eval3]. by destruct (xorb _ _).
Qed.
Lemma like_evaluates negated s p : pred_ok types (Like negated s p) → evaluates (Like negated s p).
Proof.
  intros (Hs & Hp & Es & Ep). destruct (operand_column s Hs) as (vs & Evs & (cs & Eos & Hrs)), (operand_column p Hp) as (vp & Evp & (cp & Eop & Hrp)). rewrite Es in Hrs. rewrite Ep in Hrp. eapply evaluates_bool.
  - cbn [Evaluate]. rewrite Evs, Evp. cbn [mbind result_bind fst]. unfold RunLike. rewrite (Eos count), (Eop count) by lia. cbn [mbind result_bind]. reflexivity.
  - instantiate (1 := λ i, match like3 (value_of s (row i)) (value_of p (row i)) with Some b => xorb b negated | None => false end). intros i Hi. cbn beta. rewrite (is_null_ok _ _ _ _ (Hrs i Hi)), (is_null_ok _ _ _ _ (Hrp i Hi)). cbn [mbind result_bind].
    pose proof (Hrs i Hi) as (_ & _ & Hts). pose proof (Hrp i Hi) as (_ & _ & Htp). destruct (value_reads_inv _ _ _ _ (Hrs i Hi)) as (b1 & c1 & _ & Hc1 & Hv1), (value_reads_inv _ _ _ _ (Hrp i Hi)) as (b2 & c2 & _ & Hc2 & Hv2). rewrite Hv1, Hv2 in *.
    destruct b1; [|by rewrite bool_decide_true]. destruct b2; [|rewrite (bool_decide_true (None = None)), orb_true_r by done; by destruct c1]. rewrite !bool_decide_false by done. cbn [orb]. rewrite Hc1, Hc2. cbn [mbind result_bind]. destruct c1 as [|x]; [by destruct Hts|]. destruct c2 as [|y]; [by destruct Htp|]. destruct (LikeMatch_ok x y) as (b & E & Hb). rewrite E. cbn [like3].
    do 2 f_equal. apply eq_bool_prop_intro. rewrite bool_decide_spec. rewrite <- Hb. by destruct b.
  - intros i Hi. cbn. unfold passes3. cbn [eval3]. destruct (like3 _ _) as [b|]; cbn; [by destruct b, negated|done].
Qed.


(** ** Lists *)

Lemma common_same ty elems : Forall (λ x, GetReturnType x = ty) elems → common_of ty elems = Ok ty.
Proof. induction 1 as [|x elems Hx _ IH]; [done|]. cbn [common_of]. rewrite Hx. unfold CommonType. by rewrite bool_decide_true. Qed.
(** An all-constant list is prepared as the numbers in it, and whether it has a NULL. *)
Lemma constant_elements_ok ty elems : IsBinarySearchable (ctype_ ty) = true → Forall (λ x, operand_ok types x ∧ GetReturnType x = ty) elems →
  ∃ res, constant_elements junk junk_cell other_cast ty elems = Ok res ∧ ∀ zs hn, res = Some (zs, hn) → ∀ w, (∀ z, z ∈ zs ↔ Some (CNum z) ∈ elem_values elems w) ∧ hn = existsb is_none (elem_values elems w).
Proof.
  intros Hb. induction 1 as [|x elems [Hox Ht] _ IH]; cbn [constant_elements].
  { eexists. split; [done|]. intros zs hn [= <- <-] w. split; [set_solver|done]. }
  destruct IH as (res & E & Hres). destruct x as [c xt|v xt|at' l r xt|st e xt|sc e| | | | |]; try (by destruct Hox); cbn [GetReturnType] in Ht; try subst xt; try (eexists; split; [reflexivity|]; done). destruct Hox as [_ Hx].
  destruct v as [c|].
    + destruct c as [z|s]; [|destruct Hx as [Hx _]; cbn in Hx; by rewrite Hx in Hb]. cbn [Constant_Vector mbind result_bind]. rewrite cast_same. cbn [mbind result_bind]. unfold Normalify. rewrite (bool_decide_false (STANDARD_VECTOR_SIZE < Z.of_nat 1)) by done.
      assert (flattens (ctype_ ty) = Ok tt) as -> by (by destruct (ctype_ ty)). cbn [mbind result_bind mask_valid replicate app]. rewrite E. cbn [mbind result_bind]. eexists. split; [done|]. intros zs hn Er w. destruct res as [[zs' hn']|]; [|done]. cbn in Er. injection Er as <- <-. destruct (Hres zs' hn' eq_refl w) as [H1 H2].
      split; [|done]. intros z'. unfold elem_values. cbn [fmap list_fmap value_of]. rewrite !elem_of_cons, H1. split; (intros [Hz|?]; [left; congruence|by right]).
    + rewrite E. cbn [mbind result_bind]. eexists. split; [done|]. intros zs hn Er w. destruct res as [[zs' hn']|]; [|done]. cbn in Er. injection Er as <- <-. destruct (Hres zs' hn' eq_refl w) as [H1 H2]. split; [|done].
      intros z. rewrite H1. unfold elem_values. cbn [fmap list_fmap value_of]. rewrite elem_of_cons. split; [by right|intros [?|?]; [done|done]].
Qed.
Lemma searchable_equal ty a b : IsBinarySearchable ty = true → holds Equal ty (CNum a) (CNum b) = Z.eqb a b.
Proof. rewrite Z.eqb_compare. destruct ty; try done; intros _; cbn; by destruct (a ?= b). Qed.
Lemma prepared_evaluates negated e elems v zs hn : operand_ok types e → elems ≠ [] → Forall (λ x, operand_ok types x ∧ GetReturnType x = GetReturnType e) elems → IsBinarySearchable (ctype_ (GetReturnType e)) = true →
  column_reads v (ctype_ (GetReturnType e)) (λ i, value_of e (row i)) → (∀ w, (∀ z, z ∈ zs ↔ Some (CNum z) ∈ elem_values elems w) ∧ hn = existsb is_none (elem_values elems w)) →
  evaluate input count (In negated e elems) = (v ← ProbeSortedIn junk_cell negated v (merge_sort Z.le zs) hn count; Ok (v, BOOLEAN)) → evaluates (In negated e elems).
Proof.
  intros He Hne Hel Hb (col & Eo & Hr) Hz Ev. eapply evaluates_bool.
  - rewrite Ev. unfold ProbeSortedIn. rewrite (Eo count) by lia. cbn [mbind result_bind]. reflexivity.
  - instantiate (1 := λ i, passes3 (In negated e elems) (row i)). intros i Hi. cbn beta. rewrite (is_null_ok _ _ _ _ (Hr i Hi)). cbn [mbind result_bind]. pose proof (Hr i Hi) as (_ & _ & Hty). destruct (value_reads_inv _ _ _ _ (Hr i Hi)) as (b & c & _ & Hc & Hv). rewrite (passes_In negated e elems (row i) Hne). rewrite Hv in *. destruct (Hz (row i)) as [Hz1 Hz2].
    destruct b; [rewrite bool_decide_false by done|rewrite bool_decide_true by done].
    2:{ unfold is_none at 1. rewrite bool_decide_true by done. cbn [orb negb]. rewrite andb_false_r. rewrite some_equal_null. by destruct negated. }
    rewrite Hc. cbn [mbind result_bind]. destruct c as [z|s]; [|destruct Hty as [Hty _]; by rewrite Hty in Hb]. rewrite binary_search_ok by (apply (StronglySorted_merge_sort Z.le)). unfold is_none at 1. rewrite (bool_decide_false (Some (CNum z) = None)) by done. cbn [orb]. rewrite <- Hz2.
    assert (some_equal (ctype_ (GetReturnType e)) (Some (CNum z)) (elem_values elems (row i)) = bool_decide (z ∈ merge_sort Z.le zs)) as ->; [|by destruct negated].
    apply eq_bool_prop_intro. rewrite bool_decide_spec, merge_sort_Permutation, Hz1. unfold some_equal. rewrite Is_true_true, existsb_exists. split.
    + intros (x & Hx & Hh). rewrite <- list_elem_of_In in Hx. destruct x as [[y|s]|]; [|done|done]. cbn [holds2] in Hh. rewrite searchable_equal in Hh by done. apply Z.eqb_eq in Hh. by subst y.
    + intros Hx. exists (Some (CNum z)). split; [by apply list_elem_of_In|]. cbn [holds2]. rewrite searchable_equal by done. apply Z.eqb_refl.
  - done.
Qed.
Lemma in_loop_ok ty v f items gs (Hs : scalar (ctype_ ty) = true) : column_reads v (ctype_ ty) f → Forall2 (λ (item : Vector * LogicalType) g, item.2 = ty ∧ column_reads item.1 (ctype_ ty) g) items gs → ∀ (m n : Z → bool),
  in_loop decimal_select (v, ty) items count (m <$> all_rows count) (n <$> all_rows count) =
  Ok ((λ i, m i || some_equal (ctype_ ty) (f i) ((λ g : Z → option cell, g i) <$> gs)) <$> all_rows count, (λ i, n i || existsb is_none ((λ g : Z → option cell, g i) <$> gs)) <$> all_rows count).
Proof.
  intros Hv. induction 1 as [|[w wt] g items gs [Ht Hw] _ IH]; intros m n; cbn [in_loop].
  { do 2 f_equal; apply list_fmap_ext; intros ? i _; cbn; by rewrite orb_false_r. }
  cbn [fst snd] in Ht, Hw. subst wt. rewrite (SelectOperation_ok count Hpos decimal_select Equal ty v w f g None count _ Hs Hv Hw ltac:(lia) (rows_index count Hpos count) (all_in_chunk count)). cbn [mbind result_bind fst]. destruct Hw as (col & Eo & Hr). rewrite (Eo count) by lia. cbn [mbind result_bind].
  assert ((if mask_free (vd_validity col) then Ok (replicate count false) else mapM (is_null_row col) (Z.of_nat <$> seq 0 count)) = Ok ((λ i, is_none (g i)) <$> all_rows count)) as ->.
  { destruct (mask_free (vd_validity col)) eqn:Ea; [|apply mapM_ok; intros i Hi%all_rows_elem; by apply (is_null_ok _ _ _ _ (Hr i Hi))]. f_equal. symmetry. apply list_eq_same_length with (n := count); [by rewrite length_replicate|unfold all_rows; by rewrite !length_fmap, length_seq|].
    intros k x y Hk Hx Hy. apply lookup_replicate in Hy as [-> _]. apply list_lookup_fmap_Some in Hx as (i & -> & Hi). apply list_elem_of_lookup_2, all_rows_elem in Hi. destruct (value_reads_inv _ _ _ _ (Hr i Hi)) as (b & c & Hb & _ & ->). unfold col_valid in Hb. destruct (GetIndex (vd_sel col) i); [|done]. cbn [mbind result_bind] in Hb. rewrite mask_free_valid in Hb by done. by injection Hb as <-. }
  cbn [mbind result_bind]. assert (imap (λ i b, b || bool_decide (Z.of_nat i ∈ filter (λ i, holds2 Equal (ctype_ ty) (f i) (g i) = true) (Z.of_nat <$> seq 0 count))) (m <$> all_rows count) = (λ i, m i || holds2 Equal (ctype_ ty) (f i) (g i)) <$> all_rows count) as ->.
  { apply list_eq_same_length with (n := count); [unfold all_rows; by rewrite !length_fmap, length_seq|unfold all_rows; by rewrite length_imap, !length_fmap, length_seq|]. intros k x y Hk Hx Hy. rewrite list_lookup_imap in Hx. unfold all_rows in Hx, Hy. rewrite !list_lookup_fmap, lookup_seq_lt in Hx by lia. rewrite !list_lookup_fmap, lookup_seq_lt in Hy by lia. cbn in Hx, Hy. injection Hx as <-. injection Hy as <-. f_equal.
    destruct (holds2 Equal (ctype_ ty) (f (Z.of_nat k)) (g (Z.of_nat k))) eqn:Eh; [apply bool_decide_true, list_elem_of_filter; split; [done|]; apply list_elem_of_fmap_2, elem_of_seq; lia|apply bool_decide_false; intros [? _]%list_elem_of_filter; congruence]. }
  assert (zip_with orb (n <$> all_rows count) ((λ i, is_none (g i)) <$> all_rows count) = (λ i, n i || is_none (g i)) <$> all_rows count) as -> by (rewrite zip_with_fmap_l, zip_with_fmap_r, zip_with_diag; done).
  rewrite IH. do 2 f_equal; apply list_fmap_ext; intros ? i _; cbn; unfold some_equal; cbn; by rewrite orb_assoc.
Qed.
Abbreviation eval_items common := (fix items (elems : list Expr) := match elems with [] => Ok [] | e :: elems => v ← evaluate input count e; v ← CastIfNeeded junk junk_cell other_cast v common count; rest ← items elems; Ok (v :: rest) end).
Lemma items_ok ty elems : Forall (λ x, operand_ok types x ∧ GetReturnType x = ty) elems →
  ∃ items, eval_items ty elems = Ok items ∧ Forall2 (λ (item : Vector * LogicalType) (g : Z → option cell), item.2 = ty ∧ column_reads item.1 (ctype_ ty) g) items ((λ e i, value_of e (row i)) <$> elems).
Proof.
  induction 1 as [|x elems [Hx <-] _ (items & E & HF)]; [by exists []|]. destruct (operand_column x Hx) as (v & Ev & Cv). rewrite Ev. cbn [mbind result_bind]. rewrite cast_same. cbn [mbind result_bind]. rewrite E. cbn [mbind result_bind]. eexists. split; [done|]. by constructor.
Qed.
Lemma general_evaluates negated e elems v items : operand_ok types e → elems ≠ [] → column_reads v (ctype_ (GetReturnType e)) (λ i, value_of e (row i)) →
  Forall2 (λ (item : Vector * LogicalType) (g : Z → option cell), item.2 = GetReturnType e ∧ column_reads item.1 (ctype_ (GetReturnType e)) g) items ((λ e i, value_of e (row i)) <$> elems) →
  evaluate input count (In negated e elems) = (v ← RunIn junk_cell decimal_select negated (v, GetReturnType e) items count; Ok (v, BOOLEAN)) → evaluates (In negated e elems).
Proof.
  intros He Hne Cv HF Ev. pose proof (operand_scalar e He) as Hs. pose proof Cv as (col & Eo & Hr). set (ty := ctype_ (GetReturnType e)) in *.
  assert (mapM (is_null_row col) (Z.of_nat <$> seq 0 count) = Ok ((λ i, is_none (value_of e (row i))) <$> all_rows count)) as En by (apply mapM_ok; intros i Hi%all_rows_elem; by apply (is_null_ok _ _ _ _ (Hr i Hi))).
  assert (replicate count false = (λ _ : Z, false) <$> all_rows count) as Ef by (unfold all_rows; rewrite <- list_fmap_compose; generalize 0%nat; clear; induction count as [|k IH]; intros j; [done|]; cbn; f_equal; apply IH).
  eapply evaluates_bool.
  - rewrite Ev. unfold RunIn. cbn [fst]. rewrite (Eo count) by lia. cbn [mbind result_bind]. rewrite En. cbn [mbind result_bind]. rewrite Ef, (in_loop_ok _ v _ items _ Hs Cv HF). cbn [mbind result_bind]. reflexivity.
  - instantiate (1 := λ i, passes3 (In negated e elems) (row i)). intros i Hi. cbn beta. rewrite (passes_In negated e elems (row i) Hne). unfold all_rows. rewrite !list_lookup_fmap, lookup_seq_lt by lia. cbn [fmap option_fmap option_map]. rewrite Nat.add_0_l, Z2Nat.id by lia. rewrite <- !list_fmap_compose. done.
  - done.
Qed.
Lemma in_evaluates negated e elems : pred_ok types (In negated e elems) → evaluates (In negated e elems).
Proof.
  intros (He & Hne & Hel). destruct (operand_column e He) as (v & Ev & Cv). set (ty := GetReturnType e) in *. destruct (items_ok ty elems Hel) as (items & Ei & HF). pose proof (common_same ty elems ltac:(eapply Forall_impl; [exact Hel|by intros ? [_ ?]])) as Ec.
  assert (∀ k, (common ← common_of ty elems; k common) = k ty :> result (Vector * LogicalType)) as Hk by (intros k; by rewrite Ec).
  destruct (IsBinarySearchable (ctype_ ty)) eqn:Eb.
  - destruct (constant_elements_ok ty elems Eb Hel) as ([[zs hn]|] & Er & Hres).
    + eapply prepared_evaluates; [done|done|done|exact Eb|exact Cv|by apply Hres|]. cbn [Evaluate]. fold ty. rewrite Hk, Ev. cbn [mbind result_bind]. rewrite cast_same. cbn [mbind result_bind]. unfold GetConstantInList. rewrite Eb, Er. reflexivity.
    + eapply general_evaluates; [done|done|exact Cv|exact HF|]. cbn [Evaluate]. fold ty. rewrite Hk, Ev. cbn [mbind result_bind]. rewrite cast_same. cbn [mbind result_bind]. unfold GetConstantInList. rewrite Eb, Er. cbn [mbind result_bind option_map].
      cbn [snd]. rewrite Ei. reflexivity.
  - eapply general_evaluates; [done|done|exact Cv|exact HF|]. cbn [Evaluate]. fold ty. rewrite Hk, Ev. cbn [mbind result_bind]. rewrite cast_same. cbn [mbind result_bind]. unfold GetConstantInList. rewrite Eb. cbn [mbind result_bind option_map]. rewrite Ei. reflexivity.
Qed.

(** ** The filter *)

Lemma boolean_evaluates e : operand_ok types e → ctype_ (GetReturnType e) = UTINYINT → (∀ w, eval3 e w = match value_of e w with Some (CNum z) => Some (negb (bool_decide (z = 0))) | _ => None end) → evaluates e.
Proof.
  intros He Ht E3. destruct (operand_column e He) as (v & Ev & Cv). rewrite Ht in Cv. exists v, (GetReturnType e). eexists. split; [exact Ev|]. split; [done|]. split; [exact Cv|]. intros i Hi. unfold passes3. rewrite E3. cbn beta. destruct (value_of e (row i)) as [[z|]|]; try done. cbn. by destruct (bool_decide (z = 0)).
Qed.
Lemma pred_evaluates e : pred_ok types e → evaluates e.
Proof.
  induction e as [k c ty|v ty|t l _ r _ ty|strict e _ ty|t e _|t l _ r _|t l IHl r IHr|negated e _|negated s _ p _|negated e _ elems]; intros He; try (destruct He; by apply boolean_evaluates).
  - by apply comparison_evaluates.
  - destruct He. apply logic_evaluates; auto.
  - by apply is_null_evaluates.
  - by apply like_evaluates.
  - by apply in_evaluates.
Qed.
Definition conjunct_holds (w : Row) (x : ComparisonType * Expr * Expr) : bool := let '(t, l, r) := x in passes3 (Comparison t l r) w.
Lemma Collect_ok e conjuncts : pred_ok types e → CollectComparisonConjuncts e = Some conjuncts →
  conjuncts ≠ [] ∧ Forall (λ '(t, l, r), pred_ok types (Comparison t l r)) conjuncts ∧ ∀ w, passes3 e w = forallb (conjunct_holds w) conjuncts.
Proof.
  revert conjuncts. induction e as [| | | | |t l _ r _|[] l IHl r IHr| | |]; intros conjuncts He E; try done; cbn [CollectComparisonConjuncts] in E.
  - injection E as <-. split; [done|]. split; [constructor; [exact He|constructor]|]. intros w. cbn. by rewrite andb_true_r.
  - destruct (CollectComparisonConjuncts l) as [a|]; [|done]. destruct (CollectComparisonConjuncts r) as [b|]; [|done]. injection E as <-. destruct He as [Hl Hr]. destruct (IHl a Hl eq_refl) as (Ha & Fa & Pa), (IHr b Hr eq_refl) as (Hb & Fb & Pb).
    split; [by destruct a|]. split; [by apply Forall_app|]. intros w. by rewrite passes_And, Pa, Pb, forallb_app.
Qed.
Lemma read_selection sel : read_indices (Some sel) 0 (length sel) = Ok sel.
Proof.
  assert (∀ pre, read_indices (Some (pre ++ sel)) (Z.of_nat (length pre)) (length sel) = Ok sel) as H; [|apply (H [])]. induction sel as [|x sel IH]; intros pre; [done|]. cbn [length read_indices GetIndex]. rewrite Nat2Z.id, list_lookup_middle by done. cbn [mbind result_bind].
  specialize (IH (pre ++ [x])). rewrite <- app_assoc, length_app in IH. cbn in IH. replace (Z.of_nat (length pre) + 1) with (Z.of_nat (length pre + 1)) by lia. by rewrite IH.
Qed.
Lemma narrow_ok conjuncts : Forall (λ '(t, l, r), pred_ok types (Comparison t l r)) conjuncts → ∀ cur idxs n, read_indices cur 0 n = Ok idxs → length idxs = n → (n ≤ count)%nat → Forall in_chunk idxs → (conjuncts = [] → cur = Some idxs) →
  narrow_chain junk junk_cell other_cast decimal_select float_arith mixed input count conjuncts cur n = Ok (filter (λ i, forallb (conjunct_holds (row i)) conjuncts = true) idxs).
Proof.
  induction 1 as [|[[t l] r] conjuncts Hp _ IH]; intros cur idxs n Ei Hlen Hn Hin Hcur; cbn [narrow_chain].
  { rewrite (Hcur eq_refl). f_equal. symmetry. clear. induction idxs as [|i idxs IH]; [done|]. rewrite filter_cons, decide_True by done. by f_equal. }
  case_bool_decide as Hz. { subst n. by destruct idxs. }
  destruct (comparison_operands t l r Hp) as (vl & vr & wl & wr & common & fl & fr & El & Er & Ec & Hs & Cl & Cr & Hh). rewrite El, Er. cbn [mbind result_bind]. rewrite Ec. cbn [mbind result_bind]. rewrite (SelectOperation_ok count Hpos decimal_select t common wl wr fl fr cur n idxs Hs Cl Cr Hn Ei Hin). cbn [mbind result_bind].
  rewrite (IH _ _ _ (read_selection _) eq_refl); [|etransitivity; [apply length_filter|]; lia| |done].
  - f_equal. rewrite list_filter_filter. apply list_filter_iff. intros i. cbn [forallb conjunct_holds]. rewrite <- Hh, andb_true_iff. tauto.
  - apply Forall_forall. intros i [_ Hi]%list_elem_of_filter. rewrite Forall_forall in Hin. by apply Hin.
Qed.
Lemma Select_ok e : pred_ok types e → Select junk junk_cell other_cast decimal_select float_arith mixed input count e = Ok (filter (λ i, passes3 e (row i) = true) (all_rows count)).
Proof.
  intros He. unfold Select. rewrite bool_decide_true by done. destruct (CollectComparisonConjuncts e) as [conjuncts|] eqn:Ec.
  - destruct (Collect_ok e conjuncts He Ec) as (Hne & HF & Hp). rewrite (narrow_ok conjuncts HF None _ count (rows_index count Hpos count)); [|unfold all_rows; by rewrite length_fmap, length_seq|lia|exact (all_in_chunk count)|done]. f_equal. apply list_filter_iff. intros i. by rewrite Hp.
  - destruct (pred_evaluates e He) as (v & ty & f & Ev & Et & Cv & Hf). rewrite Ev. cbn [mbind result_bind fst snd]. rewrite Et. destruct (Normalify_column v UTINYINT f eq_refl Cv) as (data & mask & En & Cn). rewrite En. cbn [mbind result_bind]. rewrite (select_rows_ok _ (λ i, truthy (f i))).
    + f_equal. apply filter_same. intros i Hi%all_rows_elem. by rewrite Hf.
    + intros i Hi%all_rows_elem. by apply truth_at_ok.
Qed.
End chunk.
End expressions.
