(* ===== verification/ExpressionTheorems.v ===== *)
(** * Expressions and filters follow SQL *)

From S2P Require Import Prelude TablePage TableHeap Watermark Transaction BTreePage BPlusTree GenericKey NumericText StringHeap ValidityMask SortKey VectorOps SortKeyOrder StreamOperator RowFormat RowScatter PRLHashTable HashInvariant HashAppend HashGroups VectorHash HashSystem HashTheorems HashJoin JoinProbe JoinExecute JoinTheorems PipelineExecutor ResultCollector StreamOps LikeMatch VectorKernels ColumnReads ExpressionExecutor ExpressionEval.

(** C23: LIKE matching ends and is the language of the pattern.  The matcher walks the string and the pattern
    once, remembering only the last [%] and where that began, and goes back to it when a byte does not fit.  On
    every string and pattern it stops within (|s| + 2) (|p| + 1) + 1 turns of its loop, with true exactly when the
    string can be cut so that each [%] takes a run of bytes, each [_] one byte, and every other byte itself. *)
Theorem like_correct s p : ∃ b, LikeMatch s p = Some b ∧ (b = true ↔ like p s).
Proof. apply LikeMatch_ok. Qed.

(** C24: Integer arithmetic wraps, and is undefined in two places only.  For each of the eight integer types, sums,
    differences and products are those of the integers taken modulo the width of the type; a quotient is rounded
    towards zero, and the greatest number of the type for a zero divisor.  The language leaves the code's
    expression undefined exactly for the least 32- or 64-bit number divided by -1, and for 16-bit products whose
    factors, read as unsigned, multiply to more than an [int] holds: [-1 * -1] of two SMALLINTs is one. *)
Theorem integer_arithmetic t it a b : in_range it a → in_range it b →
  arith_int t it a b = (if bool_decide (arith_defined t it a b) then Ok (arith_spec t it a b) else Err EUndefined) ∧ in_range it (arith_spec t it a b).
Proof. intros Ha Hb. split; [by apply arith_int_ok|apply arith_spec_range]. Qed.
Lemma integer_arithmetic_witness : arith_int Plus I8 127 1 = Ok (-128) ∧ arith_int Multiply I16 (-1) (-1) = Err EUndefined ∧ arith_int Divide I32 (-7) 2 = Ok (-3).
Proof.
  split; [|split].
  - rewrite (proj1 (integer_arithmetic Plus I8 127 1 ltac:(vm_compute; split; discriminate) ltac:(vm_compute; split; discriminate))). vm_compute. reflexivity.
  - rewrite (proj1 (integer_arithmetic Multiply I16 (-1) (-1) ltac:(vm_compute; split; discriminate) ltac:(vm_compute; split; discriminate))). vm_compute. reflexivity.
  - rewrite (proj1 (integer_arithmetic Divide I32 (-7) 2 ltac:(vm_compute; split; discriminate) ltac:(vm_compute; split; discriminate))). vm_compute. reflexivity.
Defined.

(** ** Chunks to evaluate on *)

Record evaluable (types : list PhysicalType) (c : Chunk) : Prop := {
  ev_typed : well_typed types c;
  ev_tidy : Forall tidy c.1;
  ev_width : ∀ cols k ty col i z, chunk_Orrify (Z.of_nat c.2) c.1 = Ok cols → types !! k = Some ty → cols !! k = Some col → 0 ≤ i < Z.of_nat c.2 → col_cell col i = Ok (CNum z) → in_width ty z }.
Lemma evaluable_input types c : evaluable types c → (0 < c.2)%nat → input_ok c.2 types c.1.
Proof.
  intros [Hw Ht Hr] H0. pose proof Hw as [Hs (cols & Ec & Hl & Hc) Hval]. intros k ty Hty Hsc. destruct (lookup_lt_is_Some_2 cols k) as [col Hcol]; [rewrite Hl; by eapply lookup_lt_Some|].
  destruct (lookup_lt_is_Some_2 c.1 k) as [v Hv]; [rewrite <- (Orrify_length _ _ _ Ec); by eapply lookup_lt_Some|]. destruct (chunk_Orrify_lookup _ _ _ _ _ Ec Hv) as (col' & Eo & Hc'). rewrite Hcol in Hc'. injection Hc' as <-. exists v. split; [done|].
  assert (∀ i, 0 ≤ i < Z.of_nat c.2 → ∃ x y, rows_of c.2 c.1 i !! k = Some x ∧ reads ty col i x ∧ col_cell col i = Ok y ∧ value_ok ty (Some y) ∧ elem_ok ty x) as Hread.
  { intros i Hi. destruct (proj2 (Hc i Hi) k ty col Hty Hcol) as (x & Hx & Hrd). pose proof Hrd as (y & _ & Hy & Hvy & Hxy). unfold rows_of. rewrite Ec. exists x, y. split; [done|]. split; [done|]. split; [done|]. split; [done|].
    assert (rows_of c.2 c.1 i ∈ rows_in c) as Hin by (rewrite rows_in_all; by apply list_elem_of_fmap_2, all_rows_elem). rewrite Forall_forall in Hval. pose proof (Forall2_lookup_lr _ _ _ _ _ _ (Hval _ Hin) Hty ltac:(unfold rows_of; rewrite Ec; exact Hx)) as Hst.
    destruct x as [[z|s]|]; [|cbn in Hst|done]; pose proof (Hxy _ eq_refl) as <-; [split; [done|by eapply Hr]|]. cbn in Hvy. subst ty. destruct Hst as (s' & [= <-] & Hlen). split; [done|by apply Hlen]. }
  assert (∀ i, 0 ≤ i < Z.of_nat c.2 → value_reads ty col i (default None (rows_of c.2 c.1 i !! k))) as Hvr.
  { intros i Hi. destruct (Hread i Hi) as (x & y & -> & Hrd & _ & _ & He). by apply reads_value. }
  split; [by eapply column_intro|rewrite Forall_forall in Ht; apply Ht; by eapply list_elem_of_lookup_2|]. intros Hn. exists (λ i, match col_cell col i with Ok (CNum z) => z | _ => 0 end), col. split; [intros n Hle; rewrite (Orrify_small c.2); done|].
  intros i Hi. split; [by apply Hvr|]. destruct (Hread i Hi) as (x & y & _ & _ & Hy & Hvy & _). rewrite Hy. destruct y as [z|s]; [|cbn in Hvy; by subst ty]. split; [done|]. by eapply Hr.
Qed.

Section evaluate.
Context {casts : Casts}.
Context (junk : byte) (junk_cell : cell) (other_cast : LogicalType → LogicalType → nat → Vector → result (Vector * bool)) (decimal_select : ComparisonType → Vector → Vector → option (list Z) → nat → result (list Z)).
Context (float_arith : ArithmeticType → PhysicalType → Z → Z → Z) (mixed : ArithmeticType → Vector * LogicalType → Vector * LogicalType → LogicalType → nat → result Vector).
Abbreviation evaluate := (Evaluate junk junk_cell other_cast decimal_select float_arith mixed).
Abbreviation select := (Select junk junk_cell other_cast decimal_select float_arith mixed).


(** C25: Casts between integer types convert what fits.  Without [strict_] the cast of a column gives the value of
    each row that the target holds and NULL otherwise.  An explicit CAST does the same when every value of the
    chunk fits, and throws when one does not; a NULL is never an error. *)
Theorem cast_correct types e ty c : operand_ok types e → castable (GetReturnType e) ty → GetReturnType e ≠ ty → evaluable types c → (0 < c.2)%nat →
  let wanted i := cast_value (GetReturnType e) ty (value_of e (rows_of c.2 c.1 i)) in
  let fits i := value_of e (rows_of c.2 c.1 i) ≠ None → wanted i ≠ None in
  (∃ v, evaluate c.1 c.2 (CastTo false e ty) = Ok (v, ty) ∧ column_reads c.2 v (ctype_ ty) wanted) ∧
  ((∀ i, 0 ≤ i < Z.of_nat c.2 → fits i) → ∃ v, evaluate c.1 c.2 (CastTo true e ty) = Ok (v, ty) ∧ column_reads c.2 v (ctype_ ty) wanted) ∧
  (¬ (∀ i, 0 ≤ i < Z.of_nat c.2 → fits i) → evaluate c.1 c.2 (CastTo true e ty) = Err (EException EXECUTION "CAST failed")).
Proof.
  intros He Hk Hne Hc H0. cbv zeta. pose proof (evaluable_input _ _ Hc H0) as Hin. destruct Hc as [[Hs (cols & Ec & _) _] _ _]. destruct (operand_evaluates junk junk_cell other_cast decimal_select float_arith mixed c.2 H0 Hs types c.1 Hin e He) as (v & Ev & Cv).
  cbn [Evaluate]. rewrite Ev. cbn [mbind result_bind]. split; [destruct (CastIfNeeded_ok junk junk_cell other_cast c.2 H0 Hs _ _ _ _ Hk Cv) as (w & Ew & [Hw _ _]); by exists w|].
  destruct (TryCast_ok junk junk_cell other_cast c.2 H0 Hs _ _ _ _ Hk Hne Cv) as (w & b & Ew & [Hw _ _] & Hb). unfold StrictCast. rewrite bool_decide_false by done. rewrite Ew. cbn [mbind result_bind]. split.
  - intros Hf. assert (b = true) as -> by (by apply Hb). by exists w.
  - intros Hn. destruct b; [|done]. exfalso. apply Hn. by apply Hb.
Qed.
(** Every root evaluates to a column of its values. *)
Lemma roots_read types roots c : Forall (operand_ok types) roots → evaluable types c → (0 < c.2)%nat →
  ∃ args, Execute_roots junk junk_cell other_cast decimal_select float_arith mixed c.1 c.2 roots = Ok args ∧
    Forall2 (λ e (arg : Vector * LogicalType), arg.2 = GetReturnType e ∧ column_reads c.2 arg.1 (ctype_ (GetReturnType e)) (λ i, value_of e (rows_of c.2 c.1 i))) roots args.
Proof.
  intros He Hc H0. pose proof (evaluable_input _ _ Hc H0) as Hin. destruct Hc as [[Hs _ _] _ _]. unfold Execute_roots. induction He as [|e roots He _ IH]; [by exists []|]. destruct IH as (args & Ea & H2).
  destruct (operand_evaluates junk junk_cell other_cast decimal_select float_arith mixed c.2 H0 Hs types c.1 Hin e He) as (v & Ev & [Hv _ _]). exists ((v, GetReturnType e) :: args). cbn [mapM]. rewrite Ev. cbn [mbind result_bind]. rewrite Ea. split; [done|]. by constructor.
Qed.
Lemma select_selects types e : pred_ok types e → selects (passes3 e) (λ c, select c.1 c.2 e) (evaluable types).
Proof. intros He c Hc H0. pose proof (evaluable_input _ _ Hc H0) as Hin. destruct Hc as [[Hs (cols & Ec & _) _] _ _]. by apply (Select_ok junk junk_cell other_cast decimal_select float_arith mixed c.2 H0 Hs types c.1 cols Ec Hin). Qed.
End evaluate.

(** Three rows of an INTEGER, as a dictionary with a NULL in it, and a STRING. *)
Module FilterDemo.
Definition num : LogicalType := of_id LT_INTEGER.
Definition text : LogicalType := of_id LT_STRING.
Definition ints : Vector := DICTIONARY_VECTOR [2; 0; 1] (FLAT_VECTOR [CNum 5; CNum 9; CNum 7] (Some [5])).
Definition texts : Vector := FLAT_VECTOR [CStr [Byte.x61; Byte.x62]; CStr [Byte.x61]; CStr [Byte.x62]] None.
Definition c : Chunk := ([ints; texts], 3%nat).
Definition lit (z : Z) : Expr := ConstantValue (Some (CNum z)) num.
(** [a + 1 NOT IN (9, 7) AND (a < 6 OR upper(t) LIKE 'A_%')]. *)
Definition e : Expr := Logic And (In true (Arithmetic Plus (ColumnValue 0 0 num) (lit 1) num) [lit 9; lit 7])
  (Logic Or (Comparison LessThan (ColumnValue 0 0 num) (lit 6)) (Like false (StringCall Upper (ColumnValue 0 1 text)) (ConstantValue (Some (CStr [Byte.x41; Byte.x5f; Byte.x25])) text))).
Lemma typed_chunk : well_typed [INTEGER; STRING] c.
Proof.
  split; [done| |]; [|vm_compute; repeat constructor; try (eexists; split; [reflexivity|]); done].
  eexists. split; [reflexivity|]. split; [done|]. intros idx Hi. cbn in Hi. assert (idx = 0 ∨ idx = 1 ∨ idx = 2) as [->|[->| ->]] by lia; (split; [done|]); intros [|[|k]] ty col Hty Hcol; simplify_eq/=;
    (eexists; split; [reflexivity|]; eexists; split; [reflexivity|]; split; [reflexivity|]; split; [done|]; by intros ? [= <-]).
Qed.
Lemma ready : evaluable [INTEGER; STRING] c.
Proof.
  split; [exact typed_chunk|by repeat constructor|]. intros cols k ty col i z Ec Hty Hcol Hi Hz. vm_compute in Ec. injection Ec as <-. cbn in Hi. assert (i = 0 ∨ i = 1 ∨ i = 2) as [->|[->| ->]] by lia; destruct k as [|[|k]]; simplify_eq/=; vm_compute in Hz; simplify_eq; (vm_compute; split; discriminate).
Qed.
#[global] Instance no_casts : Casts := λ _ _ _, None.
Definition no_cast (a b : LogicalType) (n : nat) (v : Vector) : result (Vector * bool) := Err EUndefined.
Definition no_decimal (t : ComparisonType) (l r : Vector) (sel : option (list Z)) (n : nat) : result (list Z) := Err EUndefined.
Definition no_float (t : ArithmeticType) (ty : PhysicalType) (a b : Z) : Z := 0.
Definition no_mixed (t : ArithmeticType) (l r : Vector * LogicalType) (ty : LogicalType) (n : nat) : result Vector := Err EUndefined.
Abbreviation demo_select := (Select Byte.x00 (CNum 0) no_cast no_decimal no_float no_mixed).
Abbreviation demo_evaluate := (Evaluate Byte.x00 (CNum 0) no_cast no_decimal no_float no_mixed).
End FilterDemo.
Lemma cast_correct_witness : Evaluate Byte.x00 (CNum 0) FilterDemo.no_cast FilterDemo.no_decimal FilterDemo.no_float FilterDemo.no_mixed FilterDemo.c.1 FilterDemo.c.2 (CastTo true (Arithmetic Minus (ColumnValue 0 0 FilterDemo.num) (FilterDemo.lit 6) FilterDemo.num) (of_id LT_UTINYINT)) = Err (EException EXECUTION "CAST failed").
Proof.
  apply (cast_correct Byte.x00 (CNum 0) FilterDemo.no_cast FilterDemo.no_decimal FilterDemo.no_float FilterDemo.no_mixed [INTEGER; STRING]).
  - split; [done|]. split; [done|]. split; [split; [done|]; split; [done|]; vm_compute; split; discriminate|]. split; [by left|]. split; [by left|]. by exists I32.
  - right. split; [done|]. split; [done|]. by split; eexists.
  - done.
  - exact FilterDemo.ready.
  - cbn. lia.
  - intros H. apply (H 1); vm_compute; try done; split; done.
Defined.

(** ** Where operands of different types meet *)

Module MixedDemo.
Import FilterDemo.
Definition unsigned : LogicalType := of_id LT_UINTEGER.
Definition big : LogicalType := of_id LT_BIGINT.
Definition one_row (v : Vector) : list Vector := [v].
Definition flat (z : Z) : Vector := FLAT_VECTOR [CNum z] None.
(** The operation runs below a NULL, where a NULL INTEGER or the cast of a narrower NULL leaves the least number:
    divided by -1 it traps. *)
Lemma null_division_traps :
  demo_evaluate [] 1 (Arithmetic Divide (ConstantValue None num) (lit (-1)) num) = Err EUndefined ∧
  demo_evaluate (one_row (FLAT_VECTOR [CNum 0] (Some [0]))) 1 (Arithmetic Divide (ColumnValue 0 0 (of_id LT_SMALLINT)) (lit (-1)) num) = Err EUndefined.
Proof. split; vm_compute; reflexivity. Qed.
(** An element of the list that the column's type does not hold is looked up as the fill of its failed cast. *)
Lemma in_list_finds_fill : demo_select (one_row (flat 0)) 1 (In false (ColumnValue 0 0 unsigned) [lit (-1)]) = Ok [0] ∧ demo_select (one_row (flat 0)) 1 (Comparison Equal (ColumnValue 0 0 unsigned) (lit (-1))) = Ok [].
Proof. split; vm_compute; reflexivity. Qed.
(** [u > i] and [i < u] differ: the common type of two types of one size is the left one. *)
Lemma comparison_depends_on_side :
  demo_select [flat 0; flat (-1)] 1 (Comparison GreaterThan (ColumnValue 0 0 unsigned) (ColumnValue 0 1 num)) = Ok [] ∧ demo_select [flat 0; flat (-1)] 1 (Comparison LessThan (ColumnValue 0 1 num) (ColumnValue 0 0 unsigned)) = Ok [0].
Proof. split; vm_compute; reflexivity. Qed.
(** A BIGINT and a DECIMAL(18, 2) have one physical type, so neither is scaled: 100 equals 1.00. *)
Lemma decimal_compared_raw : ∃ dec, Decimal 18 2 = Ok dec ∧ Select Byte.x00 (CNum 0) no_cast (λ _ _ _ _ _, Ok []) no_float no_mixed [flat 100; flat 100] 1 (Comparison Equal (ColumnValue 0 0 big) (ColumnValue 0 1 dec)) = Ok [0].
Proof. eexists. split; [reflexivity|]. vm_compute. reflexivity. Qed.
(** A comparison with NULL evaluates to 0, not to NULL, so [(a = NULL) IS NULL] is false. *)
Lemma comparison_is_never_null : demo_select (one_row (flat 1)) 1 (IsNull false (Comparison Equal (ColumnValue 0 0 num) (ConstantValue None num))) = Ok [].
Proof. vm_compute. reflexivity. Qed.
End MixedDemo.
