(* ===== verification/ExactFloat.v ===== *)
(** * Integers in floating point

    IEEE 754 arithmetic is that of [SpecFloat].  An integer smaller than 2 to the precision has exactly one
    floating-point representation, and sums, products, comparisons and conversions of such integers are those
    of the integers. *)

From Stdlib Require Import Floats.SpecFloat.
From S2P Require Import Prelude TablePage TableHeap NumericText.

(** ** Conversions *)

(** [static_cast] of an integer, and of another floating-point type. *)
Definition float_of_Z (prec emax z : Z) : spec_float := binary_normalize prec emax z 0 false.
Definition float_of_float (prec emax : Z) (f : spec_float) : spec_float :=
  match f with S754_finite s m e => binary_normalize prec emax (if s then Z.neg m else Z.pos m) e s | _ => f end.
(** The integer part of a finite number. *)
Definition truncate (f : spec_float) : option Z :=
  match f with
  | S754_zero _ => Some 0
  | S754_finite s m e => let a := if bool_decide (0 ≤ e) then Z.pos m * 2 ^ e else Z.pos m / 2 ^ (- e) in Some (if s then - a else a)
  | _ => None
  end.
(** [static_cast] to an integer type: the integer part, which has to fit. *)
Definition int_of_float (it : int_type) (f : spec_float) : result Z :=
  match truncate f with Some z => if bool_decide (in_range it z) then Ok z else Err EUndefined | None => Err EUndefined end.
(** The bit pattern of a number of a format with [mbits] mantissa and [ebits] exponent bits. *)
Definition bits_of_float (mbits ebits : Z) (f : spec_float) : Z :=
  let sign (s : bool) := if s then 2 ^ (mbits + ebits) else 0 in
  match f with
  | S754_zero s => sign s
  | S754_infinity s => sign s + (2 ^ ebits - 1) * 2 ^ mbits
  | S754_nan => (2 ^ ebits - 1) * 2 ^ mbits + 2 ^ (mbits - 1)
  | S754_finite s m e => sign s + if bool_decide (Z.pos m < 2 ^ mbits) then Z.pos m else (e + (2 ^ (ebits - 1) - 1 + mbits)) * 2 ^ mbits + (Z.pos m - 2 ^ mbits)
  end.

(** ** Digits *)

Lemma digits_log2 p : Z.pos (digits2_pos p) = Z.log2 (Z.pos p) + 1.
Proof.
  assert (∀ q, Z.pos (digits2_pos q) = Z.pos (Pos.size q)) as H by (induction q as [q IH|q IH|]; cbn [digits2_pos Pos.size]; rewrite ?Pos2Z.inj_succ, ?IH; done). rewrite H. destruct p as [p|p|]; cbn [Z.log2 Pos.size]; rewrite ?Pos2Z.inj_succ; lia.
Qed.
Lemma log2_shift z k : 0 < z → 0 ≤ k → Z.log2 (z * 2 ^ k) = Z.log2 z + k.
Proof. intros Hz Hk. rewrite Z.log2_mul_pow2 by lia. lia. Qed.
Lemma shift_iter m d : Z.pos (Pos.iter xO m d) = Z.pos m * 2 ^ Z.pos d.
Proof.
  induction d as [|d IH] using Pos.peano_ind; [cbn; lia|]. rewrite Pos.iter_succ, (Pos2Z.inj_xO (Pos.iter _ _ _)), IH, Pos2Z.inj_succ, Z.pow_succ_r by lia. lia.
Qed.
Lemma iter_shr p : ∀ m, 0 < m → SpecFloat.iter_pos shr_1 p (Build_shr_record (m * 2 ^ Z.pos p) false false) = Build_shr_record m false false.
Proof.
  assert (∀ m, 0 < m → shr_1 (Build_shr_record (2 * m) false false) = Build_shr_record m false false) as H1 by (intros [|q|q] Hq; [lia|done|lia]).
  induction p as [p IH|p IH|]; intros m Hm; cbn [SpecFloat.iter_pos].
  - rewrite Pos2Z.inj_xI, Z.pow_add_r, Z.pow_1_r, Z.pow_twice_r by lia. replace (m * (2 ^ Z.pos p * 2 ^ Z.pos p * 2)) with (2 * (m * 2 ^ Z.pos p * 2 ^ Z.pos p)) by lia. rewrite H1 by (repeat apply Z.mul_pos_pos; lia). rewrite IH by (apply Z.mul_pos_pos; lia). by apply IH.
  - rewrite (Pos2Z.inj_xO p), Z.pow_twice_r by lia. rewrite Z.mul_assoc, IH by (apply Z.mul_pos_pos; lia). by apply IH.
  - rewrite Z.pow_1_r, Z.mul_comm. by apply H1.
Qed.

(** ** A format that holds the integers below [2 ^ prec] *)

Section format.
Context (prec emax : Z) (Hp : 1 < prec) (He : prec ≤ emax).
Definition exponent (z : Z) : Z := Z.log2 z + 1 - prec.
Definition exact (z : Z) : spec_float :=
  if bool_decide (z = 0) then S754_zero false else S754_finite (bool_decide (z < 0)) (Z.to_pos (Z.abs z * 2 ^ (- exponent (Z.abs z)))) (exponent (Z.abs z)).
Abbreviation fits z := (Z.abs z < 2 ^ prec).

Lemma log2_fits z : 0 < z < 2 ^ prec → 0 ≤ Z.log2 z < prec.
Proof. intros Hz. split; [apply Z.log2_nonneg|]. apply Z.log2_lt_pow2; lia. Qed.
Lemma shr_exact z k : 0 < z < 2 ^ prec → - exponent z ≤ k → shr_fexp prec emax (z * 2 ^ k) (- k) loc_Exact = (Build_shr_record (z * 2 ^ (- exponent z)) false false, exponent z).
Proof.
  intros Hz Hk. pose proof (log2_fits z Hz) as Hl. assert (0 ≤ - exponent z) as He0 by (unfold exponent; lia). unfold shr_fexp. assert (0 < z * 2 ^ k) as Hm by (apply Z.mul_pos_pos; lia).
  assert (Zdigits2 (z * 2 ^ k) = Z.log2 z + k + 1) as -> by (rewrite <- (log2_shift z k) by lia; destruct (z * 2 ^ k) as [|p|p]; [lia|apply digits_log2|lia]).
  replace (fexp prec emax (Z.log2 z + k + 1 + - k) - - k) with (exponent z + k) by (unfold fexp, emin, exponent in *; lia). unfold shr. cbn [shr_record_of_loc]. destruct (exponent z + k) as [|p|p] eqn:E; [|f_equal|lia].
  - replace k with (- exponent z) by lia. do 2 f_equal. lia.
  - replace k with (- exponent z + Z.pos p) by lia. rewrite Z.pow_add_r, Z.mul_assoc by lia. apply iter_shr. apply Z.mul_pos_pos; lia.
  - lia.
Qed.
Lemma round_aux_exact s z k : 0 < z < 2 ^ prec → - exponent z ≤ k → binary_round_aux prec emax s (z * 2 ^ k) (- k) loc_Exact = S754_finite s (Z.to_pos (z * 2 ^ (- exponent z))) (exponent z).
Proof.
  intros Hz Hk. pose proof (log2_fits z Hz) as Hl. unfold binary_round_aux. rewrite (shr_exact z k Hz Hk). cbn [shr_m loc_of_shr_record round_nearest_even]. pose proof (shr_exact z (- exponent z) Hz ltac:(lia)) as E. rewrite Z.opp_involutive in E. rewrite E. cbn [shr_m].
  assert (0 < z * 2 ^ (- exponent z)) as Hm by (apply Z.mul_pos_pos; [lia|apply Z.pow_pos_nonneg; unfold exponent; lia]). destruct (z * 2 ^ (- exponent z)) as [|p|p]; [lia| |lia]. cbn [Z.to_pos]. assert ((exponent z <=? emax - prec) = true) as -> by (unfold exponent; lia). done.
Qed.
Lemma round_exact s m z k : 0 < z < 2 ^ prec → 0 ≤ k → Z.pos m = z * 2 ^ k → binary_round prec emax s m (- k) = S754_finite s (Z.to_pos (z * 2 ^ (- exponent z))) (exponent z).
Proof.
  intros Hz Hk Em. pose proof (log2_fits z Hz) as Hl. unfold binary_round. rewrite digits_log2, Em, (log2_shift z k) by lia. unfold shl_align. replace (fexp prec emax (Z.log2 z + k + 1 + - k) - - k) with (exponent z + k) by (unfold fexp, emin, exponent in *; lia).
  destruct (exponent z + k) as [|p|p] eqn:E; [rewrite Em; apply round_aux_exact; lia|rewrite Em; apply round_aux_exact; lia|]. rewrite shift_iter, Em, <- Z.mul_assoc, <- Z.pow_add_r by lia.
  replace (fexp prec emax (Z.log2 z + k + 1 + - k)) with (exponent z) by (unfold fexp, emin, exponent in *; lia). replace (k + Z.pos p) with (- exponent z) by lia. pose proof (round_aux_exact s z (- exponent z) Hz ltac:(lia)) as H. by rewrite Z.opp_involutive in H.
Qed.
Lemma normalize_exact m z k b : fits z → 0 ≤ k → m = z * 2 ^ k → (z = 0 → b = false) → binary_normalize prec emax m (- k) b = exact z.
Proof.
  intros Hz Hk -> Hb. assert (0 < 2 ^ k) by (apply Z.pow_pos_nonneg; lia). unfold exact. destruct z as [|p|p].
  - rewrite bool_decide_true by done. cbn. by rewrite Hb.
  - rewrite !bool_decide_false by lia. rewrite Z.abs_eq in * by lia. assert (0 < Z.pos p * 2 ^ k) as Hm by lia. destruct (Z.pos p * 2 ^ k) as [|m|m] eqn:E; [lia| |lia]. cbn [binary_normalize]. apply round_exact; lia.
  - rewrite bool_decide_false, bool_decide_true by lia. change (Z.abs (Z.neg p)) with (Z.pos p) in *. assert (Z.neg p * 2 ^ k = - (Z.pos p * 2 ^ k)) as -> by lia. assert (0 < Z.pos p * 2 ^ k) as Hm by lia. destruct (Z.pos p * 2 ^ k) as [|m|m] eqn:E; [lia| |lia]. cbn [Z.opp binary_normalize]. apply round_exact; lia.
Qed.
Lemma of_Z_exact z : fits z → float_of_Z prec emax z = exact z.
Proof. intros Hz. apply (normalize_exact z z 0); [done|lia|lia|done]. Qed.

(** An exact number by its sign, mantissa and exponent. *)
Lemma exact_finite z : z ≠ 0 → fits z → ∃ (s : bool) m k, exact z = S754_finite s m (- k) ∧ 0 ≤ k ∧ (if s then Z.neg m else Z.pos m) = z * 2 ^ k ∧ s = bool_decide (z < 0) ∧ k = - exponent (Z.abs z).
Proof.
  intros Hn Hz. pose proof (log2_fits (Z.abs z) ltac:(lia)) as Hl. assert (0 ≤ - exponent (Z.abs z)) as Hk by (unfold exponent; lia). assert (0 < Z.abs z * 2 ^ (- exponent (Z.abs z))) as Hm by (apply Z.mul_pos_pos; [lia|apply Z.pow_pos_nonneg; lia]).
  unfold exact. rewrite bool_decide_false by done. eexists _, _, (- exponent (Z.abs z)). rewrite Z.opp_involutive. split; [done|]. split; [done|]. split; [|done]. case_bool_decide; [rewrite <- Pos2Z.opp_pos|]; rewrite Z2Pos.id by done; [rewrite Z.abs_neq by lia; lia|rewrite Z.abs_eq by lia; lia].
Qed.
Lemma aligned (s : bool) m k z k' : 0 ≤ k ≤ k' → (if s then Z.neg m else Z.pos m) = z * 2 ^ k → cond_Zopp s (Z.pos (shl_align m (- k) (- k')).1) = z * 2 ^ k'.
Proof.
  intros Hk Em. assert (Z.pos (shl_align m (- k) (- k')).1 = Z.pos m * 2 ^ (k' - k)) as ->.
  { unfold shl_align. destruct (- k' - - k) as [|p|p] eqn:E; [replace (k' - k) with 0 by lia; cbn; lia|lia|]. cbn [fst]. rewrite shift_iter. do 2 f_equal. lia. }
  replace (2 ^ k') with (2 ^ k * 2 ^ (k' - k)) by (rewrite <- Z.pow_add_r by lia; f_equal; lia). rewrite Z.mul_assoc, <- Em. destruct s; cbn [cond_Zopp]; lia.
Qed.
Lemma SFadd_exact a b : fits a → fits b → fits (a + b) → SFadd prec emax (exact a) (exact b) = exact (a + b).
Proof.
  intros Ha Hb Hab. destruct (decide (a = 0)) as [->|Hna]; [change (exact 0) with (S754_zero false); destruct (decide (b = 0)) as [->|Hnb]; [done|]; destruct (exact_finite b Hnb Hb) as (s & m & k & E & _); rewrite Z.add_0_l, E; done|].
  destruct (exact_finite a Hna Ha) as (s & m & k & E & Hk & Em & _). rewrite E. destruct (decide (b = 0)) as [->|Hnb]; [rewrite Z.add_0_r, E; done|]. destruct (exact_finite b Hnb Hb) as (s' & m' & k' & E' & Hk' & Em' & _). rewrite E'. cbn [SFadd].
  replace (Z.min (- k) (- k')) with (- Z.max k k') by lia. rewrite (aligned s m k a) by (done || lia). rewrite (aligned s' m' k' b) by (done || lia). apply normalize_exact; [done|lia|lia|done].
Qed.
Lemma SFmul_exact a n : 0 < n → fits a → fits n → fits (a * n) → SFmul prec emax (exact a) (exact n) = exact (a * n).
Proof.
  intros Hn0 Ha Hn Han. destruct (exact_finite n ltac:(lia) Hn) as (s' & m' & k' & E' & Hk' & Em' & Es' & Ek'). rewrite E', bool_decide_false in * by lia. subst s'. destruct (decide (a = 0)) as [->|Hna]; [done|].
  destruct (exact_finite a Hna Ha) as (s & m & k & E & Hk & Em & Es & Ek). rewrite E. cbn [SFmul]. rewrite xorb_false_r. assert (0 < Z.abs (a * n)) by lia. replace (- k + - k') with (- (k + k')) by lia.
  assert (Z.pos (m * m') = Z.abs (a * n) * 2 ^ (k + k')) as ->.
  { rewrite Pos2Z.inj_mul, Em', Z.pow_add_r, Z.abs_mul, (Z.abs_eq n) by lia. assert (Z.pos m = Z.abs a * 2 ^ k) as -> by (destruct s; [rewrite <- Pos2Z.opp_pos in Em|]; symmetry in Es; [apply bool_decide_eq_true in Es|apply bool_decide_eq_false in Es]; nia). lia. }
  rewrite round_aux_exact; [|lia|].
  - unfold exact. rewrite bool_decide_false by lia. subst s. f_equal. apply bool_decide_ext. nia.
  - subst k k'. rewrite (Z.abs_eq n) by lia. unfold exponent. rewrite Z.abs_mul, (Z.abs_eq n) by lia. pose proof (Z.log2_mul_below (Z.abs a) n ltac:(lia) ltac:(lia)). pose proof (log2_fits (Z.abs (a * n)) ltac:(lia)). lia.
Qed.
Lemma SFcompare_exact a b : fits a → fits b → SFcompare (exact a) (exact b) = Some (a ?= b).
Proof.
  intros Ha Hb. assert (∀ x y, 0 < x < 2 ^ prec → 0 < y < 2 ^ prec → match exponent x ?= exponent y with Eq => Pos.compare_cont Eq (Z.to_pos (x * 2 ^ (- exponent x))) (Z.to_pos (y * 2 ^ (- exponent y))) | Lt => Lt | Gt => Gt end = (x ?= y)) as Hpos.
  { intros x y Hx Hy. pose proof (log2_fits x Hx) as Hlx. pose proof (log2_fits y Hy) as Hly. unfold exponent at 1 2. destruct (Z.compare_spec (Z.log2 x + 1 - prec) (Z.log2 y + 1 - prec)) as [H|H|H].
    - assert (exponent x = exponent y) as E by (unfold exponent; lia). rewrite E. change (Pos.compare_cont Eq) with Pos.compare. assert (0 < 2 ^ (- exponent y)) as H2 by (apply Z.pow_pos_nonneg; unfold exponent; lia). rewrite Pos2Z.inj_compare, !Z2Pos.id by (apply Z.mul_pos_pos; lia). symmetry. apply Zmult_compare_compat_r. lia.
    - symmetry. apply Z.compare_lt_iff. apply Z.log2_lt_cancel. lia.
    - symmetry. apply Z.compare_gt_iff. apply Z.log2_lt_cancel. lia. }
  unfold exact. repeat case_bool_decide; subst; try lia; cbn [SFcompare]; f_equal; try (symmetry; first [apply Z.compare_refl|apply Z.compare_lt_iff; lia|apply Z.compare_gt_iff; lia]).
  - assert ((a ?= b) = CompOpp (Z.abs a ?= Z.abs b)) as -> by (rewrite !Z.abs_neq by lia; rewrite Z.compare_opp; apply Z.compare_antisym). rewrite <- (Hpos (Z.abs a) (Z.abs b)) by lia. by destruct (exponent (Z.abs a) ?= exponent (Z.abs b)).
  - assert ((a ?= b) = (Z.abs a ?= Z.abs b)) as -> by (by rewrite !Z.abs_eq by lia). apply Hpos; lia.
Qed.
Lemma SFltb_exact a b : fits a → fits b → SFltb (exact a) (exact b) = bool_decide (a < b).
Proof. intros Ha Hb. unfold SFltb. rewrite SFcompare_exact by done. destruct (Z.compare_spec a b); symmetry; [apply bool_decide_false; lia|apply bool_decide_true; lia|apply bool_decide_false; lia]. Qed.
Lemma truncate_exact z : fits z → truncate (exact z) = Some z.
Proof.
  intros Hz. destruct (decide (z = 0)) as [->|Hn]; [done|]. destruct (exact_finite z Hn Hz) as (s & m & k & E & Hk & Em & _). rewrite E. cbn [truncate]. assert (0 < 2 ^ k) by (apply Z.pow_pos_nonneg; lia).
  assert (Z.pos m = (if s then - z else z) * 2 ^ k) as -> by (destruct s; [rewrite <- Pos2Z.opp_pos in Em|]; lia). case_bool_decide; [replace k with 0 by lia; cbn; f_equal; destruct s; lia|]. rewrite Z.opp_involutive, Z.div_mul by lia. f_equal. destruct s; lia.
Qed.
Lemma int_of_exact it z : fits z → in_range it z → int_of_float it (exact z) = Ok z.
Proof. intros Hz Hr. unfold int_of_float. rewrite truncate_exact by done. by rewrite bool_decide_true. Qed.
End format.
Lemma convert_exact prec emax prec' emax' z : 1 < prec → prec ≤ emax → 1 < prec' → prec' ≤ emax' → Z.abs z < 2 ^ prec → Z.abs z < 2 ^ prec' → float_of_float prec' emax' (exact prec z) = exact prec' z.
Proof.
  intros Hp He Hp' He' Hz Hz'. destruct (decide (z = 0)) as [->|Hn]; [done|]. destruct (exact_finite prec Hp z Hn Hz) as (s & m & k & E & Hk & Em & _). rewrite E. cbn [float_of_float]. rewrite Em. by apply normalize_exact.
Qed.
