(* ===== verification/Aggregate.v ===== *)
(** * Aggregates without GROUP BY

    [Value] ([type/value.cpp]), the running state of one aggregate ([execution/aggregate/aggregate_state.h],
    [aggregate_semantics.h]) and [PhysicalUngroupedAggregate].  [lprec] and [lemax] are the format of
    [long double], which the platform chooses.  The loop over FLOAT and DOUBLE columns, whose order of
    additions the compiler may choose, is the argument [real_flat]. *)

From Stdlib Require Import Floats.SpecFloat.
From S2P Require Import Prelude TablePage TableHeap BTreePage BPlusTree GenericKey NumericText DateTime StringHeap ValidityMask SortKey VectorOps StreamOperator RowFormat HashJoin ResultCollector LikeMatch VectorKernels ColumnReads ExpressionExecutor ExactFloat.

(** ** Values *)

(** What the union or the string of a [Value] holds. *)
Inductive Payload := PNum (z : Z) | PReal (f : spec_float) | PStr (s : list byte).
Record Value := mkValue { value_type : LogicalType; payload : option Payload }.
Definition Value_Null (ty : LogicalType) : Value := mkValue ty None.
Definition Value_IsNull (v : Value) : bool := bool_decide (payload v = None).
Definition not_a_number {A} : result A := Err (EException MISMATCH_TYPE "cannot read as a number").
(** [GetAs] an integer, and a floating-point, type; the union of a NULL is zero. *)
Definition GetAs_int (it : int_type) (v : Value) : result Z :=
  match int_of (ctype_ (value_type v)), ctype_ (value_type v), payload v with
  | Some _, _, Some (PNum z) => Ok (narrow it z)
  | None, (FLOAT | DOUBLE), Some (PReal f) => int_of_float it f
  | Some _, _, None | None, (FLOAT | DOUBLE), None => Ok 0
  | _, _, _ => not_a_number
  end.
Definition GetAs_real (prec emax : Z) (v : Value) : result spec_float :=
  match int_of (ctype_ (value_type v)), ctype_ (value_type v), payload v with
  | Some _, _, Some (PNum z) => Ok (float_of_Z prec emax z)
  | None, FLOAT, Some (PReal f) => Ok (if bool_decide (prec = 24) then f else float_of_float prec emax f)
  | None, DOUBLE, Some (PReal f) => Ok (if bool_decide (prec = 53) then f else float_of_float prec emax f)
  | Some _, _, None | None, (FLOAT | DOUBLE), None => Ok (S754_zero false)
  | _, _, _ => not_a_number
  end.
Definition GetString (v : Value) : result (list byte) :=
  if bool_decide (ctype_ (value_type v) = STRING) then match payload v with Some (PStr s) => Ok s | _ => Ok [] end
  else Err (EException MISMATCH_TYPE "cannot read as a string").
Definition true_texts : list (list byte) := [[Byte.x74; Byte.x72; Byte.x75; Byte.x65]; [Byte.x74]; [Byte.x31]].

Section cast.
(** The rendering of values that are no strings. *)
Context (to_string : Value → list byte).
Definition CastAs (v : Value) (ty : LogicalType) : result Value :=
  if bool_decide (value_type v = ty) then Ok v else
  if Value_IsNull v then Ok (Value_Null ty) else
  let int it ty := z ← GetAs_int it v; Ok (mkValue ty (Some (PNum z))) in
  match type_ ty with
  | LT_BOOLEAN =>
      if bool_decide (ctype_ (value_type v) = STRING) then s ← GetString v; Ok (mkValue (of_id LT_BOOLEAN) (Some (PNum (Z.b2z (bool_decide (s ∈ true_texts))))))
      else z ← GetAs_int I64 v; Ok (mkValue (of_id LT_BOOLEAN) (Some (PNum (Z.b2z (negb (bool_decide (z = 0)))))))
  | LT_TINYINT => int I8 (of_id LT_TINYINT)
  | LT_SMALLINT => int I16 (of_id LT_SMALLINT)
  | LT_INTEGER => int I32 (of_id LT_INTEGER)
  | LT_BIGINT => int I64 (of_id LT_BIGINT)
  | LT_DATE => int I32 ty
  | LT_TIMESTAMP => int I64 ty
  | LT_DECIMAL => int (match ctype_ ty with SMALLINT => I16 | INTEGER => I32 | _ => I64 end) ty
  | LT_UTINYINT => int U8 (of_id LT_UTINYINT)
  | LT_USMALLINT => int U16 (of_id LT_USMALLINT)
  | LT_UINTEGER => int U32 (of_id LT_UINTEGER)
  | LT_UBIGINT => int U64 (of_id LT_UBIGINT)
  | LT_FLOAT => f ← GetAs_real 24 128 v; Ok (mkValue (of_id LT_FLOAT) (Some (PReal f)))
  | LT_DOUBLE => f ← GetAs_real 53 1024 v; Ok (mkValue (of_id LT_DOUBLE) (Some (PReal f)))
  | LT_STRING => if bool_decide (ctype_ (value_type v) = STRING) then s ← GetString v; Ok (mkValue (of_id LT_STRING) (Some (PStr s))) else Ok (mkValue (of_id LT_STRING) (Some (PStr (to_string v))))
  | _ => Err (EException NOT_IMPLEMENTED "cannot cast")
  end.

(** [Vector::GetValue]: the element as its physical type has it, stamped with the column's type. *)
Definition raw_value (ty : PhysicalType) (c : cell) : result Value :=
  let num id := match c with CNum z => Ok (mkValue (of_id id) (Some (PNum z))) | CStr _ => Err EUndefined end in
  match ty with
  | TINYINT => num LT_TINYINT | SMALLINT => num LT_SMALLINT | INTEGER => num LT_INTEGER | BIGINT => num LT_BIGINT
  | UTINYINT => num LT_UTINYINT | USMALLINT => num LT_USMALLINT | UINTEGER => num LT_UINTEGER | UBIGINT => num LT_UBIGINT
  | FLOAT => match c with CNum z => Ok (mkValue (of_id LT_FLOAT) (Some (PReal (float32 z)))) | CStr _ => Err EUndefined end
  | DOUBLE => match c with CNum z => Ok (mkValue (of_id LT_DOUBLE) (Some (PReal (float64 z)))) | CStr _ => Err EUndefined end
  | STRING => match c with CStr s => Ok (mkValue (of_id LT_STRING) (Some (PStr s))) | CNum _ => Err EUndefined end
  | LIST | ARRAY => Err EUndefined
  | _ => Err (EException NOT_IMPLEMENTED "Vector::GetValue: unsupported type")
  end.
Definition WrapValue (ty : LogicalType) (raw : Value) : result Value :=
  if bool_decide (value_type raw = ty) then Ok raw else match type_ ty with LT_HASH | LT_ADDRESS => Ok raw | _ => CastAs raw ty end.
Definition element_value (ty : LogicalType) (data : list cell) (validity : option (list Z)) (index : Z) : result Value :=
  if mask_valid validity index then c ← data_at data index; raw ← raw_value (ctype_ ty) c; WrapValue ty raw else Ok (Value_Null ty).
Fixpoint Vector_GetValue (ty : LogicalType) (v : Vector) (index : Z) : result Value :=
  match v with
  | FLAT_VECTOR data validity => element_value ty data validity index
  | CONSTANT_VECTOR c validity => element_value ty [c] validity 0
  | DICTIONARY_VECTOR sel child => i ← GetIndex (Some sel) index; Vector_GetValue ty child i
  end.
(** [Vector::SetValue] on a flat vector. *)
Definition cell_value (junk : byte) (ty : PhysicalType) (v : Value) : result cell :=
  match int_of ty, ty with
  | Some it, _ => z ← GetAs_int it v; Ok (CNum z)
  | None, FLOAT => f ← GetAs_real 24 128 v; Ok (CNum (bits_of_float 23 8 f))
  | None, DOUBLE => f ← GetAs_real 53 1024 v; Ok (CNum (bits_of_float 52 11 f))
  | None, STRING => s ← GetString v; s ← add_string junk s; Ok (CStr s)
  | None, (LIST | ARRAY) => Err EUndefined
  | None, _ => Err (EException NOT_IMPLEMENTED "Vector::SetValue: unsupported type")
  end.
Definition Vector_SetValue (junk : byte) (ty : LogicalType) (index : Z) (v : Value) (data : list cell) (validity : option (list Z)) : result (list cell * option (list Z)) :=
  if Value_IsNull v then
    fill ← WriteNullFill (ctype_ ty); mask ← with_mask (SetInvalid index) validity;
    if bool_decide (Z.to_nat index < length data)%nat then Ok (<[Z.to_nat index := fill]> data, mask) else Err EUndefined
  else if negb (bool_decide (ctype_ (value_type v) = ctype_ ty)) then Err (EAssert "Vector::SetValue: the value has a different physical type than the vector") else
    mask ← with_mask (SetValid index) validity; c ← cell_value junk (ctype_ ty) v;
    if bool_decide (Z.to_nat index < length data)%nat then Ok (<[Z.to_nat index := c]> data, mask) else Err EUndefined.

(** ** The rules of the aggregates ([aggregate_semantics.h]) *)

Inductive AggregationType := CountStarAggregate | CountAggregate | SumAggregate | MinAggregate | MaxAggregate | AvgAggregate.
#[global] Instance AggregationType_eq_dec : EqDecision AggregationType.
Proof. solve_decision. Defined.
Definition IsSumLike (type : AggregationType) : bool := bool_decide (type = SumAggregate) || bool_decide (type = AvgAggregate).
Definition IsExtremeAgg (type : AggregationType) : bool := bool_decide (type = MinAggregate) || bool_decide (type = MaxAggregate).
(** [lt] is the [<] of the type compared. *)
Definition TakesExtreme {A} (lt : A → A → bool) (type : AggregationType) (cur candidate : A) : bool := if bool_decide (type = MinAggregate) then lt candidate cur else lt cur candidate.
Definition FoldExtreme {A} (lt : A → A → bool) (type : AggregationType) (cur candidate : A) : A := if TakesExtreme lt type cur candidate then candidate else cur.
(** [operator<] of [std::string]. *)
Definition bytes_lt (a b : list byte) : bool := bool_decide (bcmp a b = Lt).
(** The type of an aggregate's result ([AggregationPlanNode::AggResultType]). *)
Definition AggResultType (agg_type : AggregationType) (input_type : LogicalType) : LogicalType :=
  match agg_type with
  | CountStarAggregate | CountAggregate => of_id LT_INTEGER
  | SumAggregate =>
      match type_ input_type with
      | LT_TINYINT | LT_SMALLINT | LT_INTEGER | LT_BIGINT | LT_UTINYINT | LT_USMALLINT | LT_UINTEGER | LT_UBIGINT => of_id LT_BIGINT
      | _ => input_type
      end
  | MinAggregate | MaxAggregate => input_type
  | AvgAggregate => of_id LT_DOUBLE
  end.

(** ** The state of one aggregate ([AggregateAccumulator]) *)

Record AggregateAccumulator := mkAccumulator {
  agg_type_ : AggregationType; count_ : Z; sum_ : spec_float; acc_ : spec_float; has_acc_ : bool; is_string_ : bool; str_acc_ : list byte }.
Definition new_Accumulator (type : AggregationType) : AggregateAccumulator := mkAccumulator type 0 (S754_zero false) (S754_zero false) false false [].
Definition with_count (n : Z) (a : AggregateAccumulator) : AggregateAccumulator := mkAccumulator (agg_type_ a) n (sum_ a) (acc_ a) (has_acc_ a) (is_string_ a) (str_acc_ a).
Definition with_sum (s : spec_float) (a : AggregateAccumulator) : AggregateAccumulator := mkAccumulator (agg_type_ a) (count_ a) s (acc_ a) (has_acc_ a) (is_string_ a) (str_acc_ a).
Definition with_acc (x : spec_float) (a : AggregateAccumulator) : AggregateAccumulator := mkAccumulator (agg_type_ a) (count_ a) (sum_ a) x true (is_string_ a) (str_acc_ a).
Definition add_count (n : Z) (a : AggregateAccumulator) : result AggregateAccumulator := c ← s64 (count_ a + n); Ok (with_count c a).

Context (lprec lemax : Z).
Definition IsStringMinMax (v : Value) (a : AggregateAccumulator) : bool := IsExtremeAgg (agg_type_ a) && bool_decide (ctype_ (value_type v) = STRING).
Definition FoldStr (s : list byte) (a : AggregateAccumulator) : AggregateAccumulator :=
  if negb (has_acc_ a) then mkAccumulator (agg_type_ a) (count_ a) (sum_ a) (acc_ a) true true s
  else if TakesExtreme bytes_lt (agg_type_ a) (str_acc_ a) s then mkAccumulator (agg_type_ a) (count_ a) (sum_ a) (acc_ a) (has_acc_ a) (is_string_ a) s else a.
(** [FoldMin] and [FoldMax]. *)
Definition FoldScalar (d : spec_float) (a : AggregateAccumulator) : AggregateAccumulator :=
  with_acc (if has_acc_ a then FoldExtreme SFltb (agg_type_ a) (acc_ a) d else d) a.
Definition add_sum (d : spec_float) (a : AggregateAccumulator) : AggregateAccumulator := with_sum (SFadd lprec lemax (sum_ a) d) a.
Definition acc_Update (v : Value) (a : AggregateAccumulator) : result AggregateAccumulator :=
  if bool_decide (agg_type_ a = CountStarAggregate) then add_count 1 a else
  if Value_IsNull v then Ok a else
  a ← add_count 1 a;
  if IsStringMinMax v a then s ← GetString v; Ok (FoldStr s a) else
  d ← GetAs_real lprec lemax v;
  Ok (if IsSumLike (agg_type_ a) then add_sum d a else if IsExtremeAgg (agg_type_ a) then FoldScalar d a else a).

(** The loop over [n] rows from row [i] on, for the valid ones. *)
Definition int_at (data : list cell) (i : Z) : result Z := c ← data_at data i; match c with CNum z => Ok z | CStr _ => Err EUndefined end.
Fixpoint fold_rows {A} (data : list cell) (valid : Z → bool) (f : Z → A → result A) (i : Z) (n : nat) (x : A) : result A :=
  match n with
  | O => Ok x
  | S n => x ← (if valid i then z ← int_at data i; f z x else Ok x); fold_rows data valid f (i + 1) n x
  end.
(** The sum of a chunk is kept in an [int64_t]. *)
Definition sum_step (z : Z) (st : Z * Z) : result (Z * Z) := local ← s64 (st.1 + narrow I64 z); Ok (local, st.2 + 1).
Definition extreme_step (type : AggregationType) (z : Z) (st : option Z * Z) : result (option Z * Z) :=
  Ok (Some (match st.1 with None => z | Some m => FoldExtreme Z.ltb type m z end), st.2 + 1).
Fixpoint count_valid (valid : Z → bool) (i : Z) (n : nat) : Z := match n with O => 0 | S n => Z.b2z (valid i) + count_valid valid (i + 1) n end.
(** [UpdateFlat] on an integer column. *)
Definition UpdateFlat (data : list cell) (validity : option (list Z)) (count : nat) (a : AggregateAccumulator) : result AggregateAccumulator :=
  let type := agg_type_ a in
  if mask_free validity then
    a ← add_count (Z.of_nat count) a;
    if IsSumLike type then '(local, _) ← fold_rows data (λ _, true) sum_step 0 count (0, 0); Ok (add_sum (float_of_Z lprec lemax local) a)
    else if IsExtremeAgg type then
      m ← int_at data 0; '(m, _) ← fold_rows data (λ _, true) (extreme_step type) 1 (count - 1) (Some m, 1);
      match m with Some m => Ok (FoldScalar (float_of_Z lprec lemax m) a) | None => Ok a end
    else Ok a
  else
    let valid := mask_valid validity in
    if IsSumLike type then '(local, n) ← fold_rows data valid sum_step 0 count (0, 0); add_count n (add_sum (float_of_Z lprec lemax local) a)
    else if IsExtremeAgg type then
      '(m, n) ← fold_rows data valid (extreme_step type) 0 count (None, 0);
      add_count n (match m with Some m => FoldScalar (float_of_Z lprec lemax m) a | None => a end)
    else add_count (count_valid valid 0 count) a.
Fixpoint update_rows (ty : LogicalType) (v : Vector) (i : Z) (n : nat) (a : AggregateAccumulator) : result AggregateAccumulator :=
  match n with O => Ok a | S n => x ← Vector_GetValue ty v i; a ← acc_Update x a; update_rows ty v (i + 1) n a end.

Context (junk : byte) (junk_cell : cell) (real_flat : PhysicalType → list cell → option (list Z) → nat → AggregateAccumulator → result AggregateAccumulator).
Definition UpdateVector (v : Vector) (ty : LogicalType) (count : nat) (a : AggregateAccumulator) : result AggregateAccumulator :=
  if bool_decide (count = 0%nat) then Ok a else
  if bool_decide (agg_type_ a = CountStarAggregate) then add_count (Z.of_nat count) a else
  match v with
  | CONSTANT_VECTOR _ _ =>
      val ← Vector_GetValue ty v 0;
      if Value_IsNull val then Ok a else
      a ← add_count (Z.of_nat count) a;
      if IsStringMinMax val a then s ← GetString val; Ok (FoldStr s a) else
      d ← GetAs_real lprec lemax val;
      Ok (if IsSumLike (agg_type_ a) then add_sum (SFmul lprec lemax d (float_of_Z lprec lemax (Z.of_nat count))) a else if IsExtremeAgg (agg_type_ a) then FoldScalar d a else a)
  | _ =>
      v ← Normalify junk junk_cell (ctype_ ty) count v;
      match v, int_of (ctype_ ty), ctype_ ty with
      | FLAT_VECTOR data validity, Some _, _ => UpdateFlat data validity count a
      | FLAT_VECTOR data validity, None, (FLOAT | DOUBLE) => real_flat (ctype_ ty) data validity count a
      | _, _, _ => update_rows ty v 0 count a
      end
  end.

Definition acc_Merge (o a : AggregateAccumulator) : result AggregateAccumulator :=
  a ← add_count (count_ o) a;
  let a := add_sum (sum_ o) a in
  Ok (if has_acc_ o then
        if is_string_ o then let a := FoldStr (str_acc_ o) a in mkAccumulator (agg_type_ a) (count_ a) (sum_ a) (acc_ a) true (is_string_ a) (str_acc_ a)
        else if negb (has_acc_ a) then with_acc (acc_ o) a
        else if IsExtremeAgg (agg_type_ a) then with_acc (FoldExtreme SFltb (agg_type_ a) (acc_ a) (acc_ o)) a
        else a
      else a).
(** [static_cast<double>] of a [long double], as a value. *)
Definition double_value (f : spec_float) : Value := mkValue (of_id LT_DOUBLE) (Some (PReal (float_of_float 53 1024 f))).
Definition acc_Finalize (a : AggregateAccumulator) (out_type : LogicalType) : result Value :=
  match agg_type_ a with
  | CountStarAggregate | CountAggregate => CastAs (mkValue (of_id LT_BIGINT) (Some (PNum (count_ a)))) out_type
  | SumAggregate => if bool_decide (count_ a = 0) then Ok (Value_Null out_type) else CastAs (double_value (sum_ a)) out_type
  | AvgAggregate => if bool_decide (count_ a = 0) then Ok (Value_Null out_type) else CastAs (double_value (SFdiv lprec lemax (sum_ a) (float_of_Z lprec lemax (count_ a)))) out_type
  | MinAggregate | MaxAggregate =>
      if negb (has_acc_ a) then Ok (Value_Null out_type) else
      if is_string_ a then CastAs (mkValue (of_id LT_STRING) (Some (PStr (str_acc_ a)))) out_type else CastAs (double_value (acc_ a)) out_type
  end.

(** ** The operator ([physical_ungrouped_aggregate.cpp]) *)

Context (other_cast : LogicalType → LogicalType → nat → Vector → result (Vector * bool)) (decimal_select : ComparisonType → Vector → Vector → option (list Z) → nat → result (list Z)).
Context (float_arith : ArithmeticType → PhysicalType → Z → Z → Z) (mixed : ArithmeticType → Vector * LogicalType → Vector * LogicalType → LogicalType → nat → result Vector).
(** An aggregate function and its argument. *)
Context (aggregates_ : list (AggregationType * Expr)).
Definition new_accums : list AggregateAccumulator := new_Accumulator <$> aggregates_.*1.
Fixpoint update_all (args : list (Vector * LogicalType)) (count : nat) (accums : list AggregateAccumulator) : result (list AggregateAccumulator) :=
  match accums, args with
  | a :: accums, (v, ty) :: args => a ← UpdateVector v ty count a; accums ← update_all args count accums; Ok (a :: accums)
  | [], _ => Ok []
  | _, [] => Err EUndefined
  end.
Definition Aggregate_Sink (input : Chunk) (accums : list AggregateAccumulator) : result (SinkResultType * list AggregateAccumulator) :=
  args ← Execute_roots junk junk_cell other_cast decimal_select float_arith mixed input.1 input.2 aggregates_.*2;
  accums ← update_all args input.2 accums; Ok (SINK_NEED_MORE_INPUT, accums).
Fixpoint Aggregate_Combine (gs ls : list AggregateAccumulator) : result (list AggregateAccumulator) :=
  match gs, ls with
  | g :: gs, l :: ls => g ← acc_Merge l g; gs ← Aggregate_Combine gs ls; Ok (g :: gs)
  | [], _ => Ok []
  | _, [] => Err EUndefined
  end.
(** The output chunk's columns are fresh vectors. *)
Definition output_column (ty : LogicalType) (v : Value) : result Vector :=
  '(data, mask) ← Vector_SetValue junk ty 0 v (replicate (Z.to_nat STANDARD_VECTOR_SIZE) junk_cell) None; Ok (FLAT_VECTOR data mask).
Definition finalize_column (a : AggregateAccumulator) (ty : LogicalType) : result Vector := v ← acc_Finalize a ty; output_column ty v.
Fixpoint finalize_columns (accums : list AggregateAccumulator) (types : list LogicalType) : result (list Vector) :=
  match accums, types with
  | a :: accums, ty :: types => v ← finalize_column a ty; vs ← finalize_columns accums types; Ok (v :: vs)
  | [], _ => Ok []
  | _, [] => Err EUndefined
  end.
(** [emitted] is the flag that is exchanged. *)
Definition Aggregate_GetData (types : list LogicalType) (accums : list AggregateAccumulator) (emitted : bool) : result (Chunk * SourceResultType * bool) :=
  if emitted then Ok (([], 0%nat), SOURCE_FINISHED, true) else
  vs ← finalize_columns accums types; Ok ((vs, 1%nat), SOURCE_FINISHED, true).
End cast.
