(* ===== verification/AggregateState.v ===== *)
(** * The state of an aggregate

    The accumulator of an aggregate over integers or strings after any rows, in whatever pieces they came: the
    number of values, their sum and their extreme, all exact as long as a double holds them. *)

From Stdlib Require Import Floats.SpecFloat.
From S2P Require Import Prelude TablePage TableHeap BTreePage BPlusTree GenericKey NumericText DateTime StringHeap ValidityMask SortKey VectorOps StreamOperator RowFormat RowScatter HashJoin JoinProbe JoinExecute ResultCollector LikeMatch VectorKernels ColumnReads ExpressionExecutor ExactFloat Aggregate.

(** ** Sums *)

Definition zsum (l : list Z) : Z := foldr Z.add 0 l.
Definition mass (l : list Z) : Z := foldr (λ z s, Z.abs z + s) 0 l.
Lemma zsum_app l k : zsum (l ++ k) = zsum l + zsum k.
Proof. induction l as [|z l IH]; cbn; [done|]. unfold zsum in *. rewrite IH. lia. Qed.
Lemma mass_app l k : mass (l ++ k) = mass l + mass k.
Proof. induction l as [|z l IH]; cbn; [done|]. unfold mass in *. rewrite IH. lia. Qed.
Lemma mass_bound l : Z.abs (zsum l) ≤ mass l.
Proof. induction l as [|z l IH]; cbn; [done|]. unfold zsum, mass in *. lia. Qed.
Lemma zsum_replicate n z : zsum (replicate n z) = Z.of_nat n * z ∧ mass (replicate n z) = Z.of_nat n * Z.abs z.
Proof. induction n as [|n [IH1 IH2]]; cbn; [done|]. unfold zsum, mass in *. rewrite IH1, IH2. lia. Qed.

Lemma Forall_replicate_inv {A} (P : A → Prop) n x : (0 < n)%nat → Forall P (replicate n x) → P x.
Proof. destruct n; [lia|]. by intros _ [? _]%Forall_cons. Qed.

(** The values that are not NULL. *)
Definition present (vals : list (option cell)) : list cell := omap id vals.
(** A count is an INTEGER; the divisor of an average is a floating-point number. *)
Definition row_limit (t : AggregationType) : Z := match t with CountStarAggregate | CountAggregate => 2 ^ 31 | _ => 2 ^ 53 end.
Definition num_of (c : cell) : Z := match c with CNum z => z | CStr _ => 0 end.
Definition numbers (vals : list (option cell)) : list Z := num_of <$> present vals.
Lemma present_app u v : present (u ++ v) = present u ++ present v.
Proof. apply omap_app. Qed.
Lemma numbers_app u v : numbers (u ++ v) = numbers u ++ numbers v.
Proof. unfold numbers. by rewrite present_app, fmap_app. Qed.
Lemma present_length vals : (length (present vals) ≤ length vals)%nat.
Proof. induction vals as [|[x|] vals IH]; cbn; unfold present in *; lia. Qed.
Lemma present_all vals : Forall (λ v, is_Some v) vals → length (present vals) = length vals.
Proof. induction 1 as [|v vals [x ->] _ IH]; [done|]. cbn. by f_equal. Qed.

(** ** Extremes *)

Section extreme.
Context (t : AggregationType) (ty : PhysicalType).
Definition better (c x : cell) : Prop := holds (if bool_decide (t = MinAggregate) then LessThanOrEqual else GreaterThanOrEqual) ty c x = true.
Definition wins (c x : cell) : bool := holds (if bool_decide (t = MinAggregate) then LessThan else GreaterThan) ty c x.
(** A value of the list that none of it beats. *)
Definition extreme (l : list cell) (c : cell) : Prop := c ∈ l ∧ Forall (better c) l.
(** All numbers of an integer type, or all strings. *)
Definition alike (str : bool) (c : cell) : Prop := match c with CNum _ => str = false ∧ is_Some (int_of ty) | CStr _ => str = true end.
Definition cell_compare (x y : cell) : comparison := match x, y with CNum a, CNum b => a ?= b | CStr a, CStr b => bcmp a b | _, _ => Eq end.
Lemma holds_compare str op x y : alike str x → alike str y → holds op ty x y = order_holds op (cell_compare x y).
Proof. destruct x as [a|a], y as [b|b]; cbn; [intros [_ [it Hi]] _; by destruct ty|intros [-> _]; done|intros -> [? _]; done|done]. Qed.
Lemma compare_antisym x y : cell_compare y x = CompOpp (cell_compare x y).
Proof. destruct x, y; cbn; [apply Z.compare_antisym|done..|apply bcmp_antisym]. Qed.
Lemma compare_trans str x y z : alike str x → alike str y → alike str z → cell_compare x y ≠ Gt → cell_compare y z ≠ Gt → cell_compare x z ≠ Gt.
Proof.
  destruct x as [a|a], y as [b|b], z as [c|c]; cbn; try (intros; naive_solver).
  - intros _ _ _ H1 H2. rewrite Z.compare_le_iff in *. lia.
  - intros _ _ _ H1 H2. destruct (bcmp a b) eqn:E1; [apply bcmp_eq in E1 as ->; done| |done]. destruct (bcmp b c) eqn:E2; [apply bcmp_eq in E2 as ->; by rewrite E1|by rewrite (bcmp_lt_trans _ _ _ E1 E2)|done].
Qed.
Lemma better_compare str x y : alike str x → alike str y → better x y ↔ (if bool_decide (t = MinAggregate) then cell_compare x y else cell_compare y x) ≠ Gt.
Proof.
  intros Hx Hy. unfold better. rewrite (holds_compare str) by done. case_bool_decide; [|rewrite (compare_antisym x y)]; by destruct (cell_compare x y).
Qed.
Lemma better_refl str x : alike str x → better x x.
Proof. intros Hx. apply (better_compare str); [done..|]. assert (cell_compare x x = Eq) as E by (destruct x; [apply Z.compare_refl|apply bcmp_refl]). rewrite E. by case_bool_decide. Qed.
Lemma better_trans str x y z : alike str x → alike str y → alike str z → better x y → better y z → better x z.
Proof.
  intros Hx Hy Hz. rewrite !(better_compare str) by done. case_bool_decide; [by apply (compare_trans str)|]. intros H1 H2. by apply (compare_trans str z y x).
Qed.
Lemma wins_better str x y : alike str x → alike str y → if wins x y then better x y else better y x.
Proof.
  intros Hx Hy. unfold wins, better. rewrite !(holds_compare str) by done. rewrite (compare_antisym x y). case_bool_decide; by destruct (cell_compare x y).
Qed.
Lemma extreme_one str c : alike str c → extreme [c] c.
Proof. intros Hc. split; [by left|]. constructor; [by eapply better_refl|done]. Qed.
Lemma extreme_app str l k c d : Forall (alike str) l → Forall (alike str) k → extreme l c → extreme k d → extreme (l ++ k) (if wins d c then d else c).
Proof.
  intros Hl Hk [Hc Bc] [Hd Bd]. rewrite Forall_forall in Hl. rewrite Forall_forall in Hk. rewrite Forall_forall in Bc. rewrite Forall_forall in Bd. pose proof (wins_better str d c (Hk d Hd) (Hl c Hc)) as Hw. split; [destruct (wins d c); set_solver|].
  apply Forall_forall. intros x [Hx|Hx]%elem_of_app; destruct (wins d c); auto; [apply (better_trans str d c x)|apply (better_trans str c d x)]; auto.
Qed.
End extreme.

(** ** The accumulator *)

Section state.
Context (lprec lemax : Z) (Hlp : 53 ≤ lprec) (Hle : lprec ≤ lemax).
Abbreviation ex := (exact lprec).
Lemma small z : Z.abs z < 2 ^ 53 → Z.abs z < 2 ^ lprec.
Proof. intros Hz. assert (2 ^ 53 ≤ 2 ^ lprec) by (apply Z.pow_le_mono_r; lia). lia. Qed.
Lemma add_sum_exact a x y : sum_ a = ex x → Z.abs x < 2 ^ 53 → Z.abs y < 2 ^ 53 → Z.abs (x + y) < 2 ^ 53 → sum_ (add_sum lprec lemax (ex y) a) = ex (x + y).
Proof. intros Ha Hx Hy Hxy. cbn. rewrite Ha. apply SFadd_exact; try lia; by apply small. Qed.
Lemma of_Z_small z : Z.abs z < 2 ^ 53 → float_of_Z lprec lemax z = ex z.
Proof. intros Hz. apply of_Z_exact; try lia. by apply small. Qed.

Context (t : AggregationType) (str : bool) (ty : PhysicalType).
Definition counted (vals : list (option cell)) : Z := Z.of_nat (if bool_decide (t = CountStarAggregate) then length vals else length (present vals)).
Definition summed (vals : list (option cell)) : Z := if IsSumLike t then zsum (numbers vals) else 0.
Record tallied (vals : list (option cell)) (a : AggregateAccumulator) : Prop := {
  ta_type : agg_type_ a = t;
  ta_count : count_ a = counted vals;
  ta_sum : sum_ a = ex (summed vals) }.
Record extremal (vals : list (option cell)) (a : AggregateAccumulator) : Prop := {
  et_has : has_acc_ a = IsExtremeAgg t && negb (bool_decide (present vals = []));
  et_str : is_string_ a = has_acc_ a && str;
  et_ext : IsExtremeAgg t = true → present vals ≠ [] → if str then extreme t ty (present vals) (CStr (str_acc_ a)) else ∃ m, acc_ a = ex m ∧ extreme t ty (present vals) (CNum m) }.
(** The rows so far are few enough and their numbers small enough for a double. *)
Record bounded (vals : list (option cell)) : Prop := {
  bo_length : Z.of_nat (length vals) < 2 ^ 53;
  bo_alike : Forall (alike ty str) (present vals);
  bo_sum : IsSumLike t = true → mass (numbers vals) < 2 ^ 53;
  bo_small : IsExtremeAgg t = true → str = false → Forall (λ z, Z.abs z < 2 ^ 53) (numbers vals) }.
Lemma bounded_app u v : bounded (u ++ v) → bounded u ∧ bounded v.
Proof.
  assert (∀ l, 0 ≤ mass l) as Hm by (intros l; pose proof (mass_bound l); lia). intros [H1 H2 H3 H4]. rewrite length_app in H1. rewrite present_app, Forall_app in H2. rewrite numbers_app in H3, H4. rewrite mass_app in H3. setoid_rewrite Forall_app in H4. pose proof (Hm (numbers u)). pose proof (Hm (numbers v)).
  split; split; try lia; try tauto; try (intros Hs; specialize (H3 Hs); lia); intros Hx Hs; by apply H4.
Qed.
Lemma counted_app u v : counted (u ++ v) = counted u + counted v.
Proof. unfold counted. rewrite present_app, !length_app. case_bool_decide; lia. Qed.
Lemma counted_bound vals : bounded vals → 0 ≤ counted vals < 2 ^ 53.
Proof. intros [Hl _ _ _]. unfold counted. pose proof (present_length vals). case_bool_decide; lia. Qed.
Lemma summed_app u v : summed (u ++ v) = summed u + summed v.
Proof. unfold summed. destruct (IsSumLike t); [|done]. by rewrite numbers_app, zsum_app. Qed.
Lemma summed_bound vals : bounded vals → Z.abs (summed vals) < 2 ^ 53.
Proof. intros [_ _ Hs _]. unfold summed. destruct (IsSumLike t); [|done]. pose proof (mass_bound (numbers vals)). specialize (Hs eq_refl). lia. Qed.
Lemma add_count_ok vals new a : tallied vals a → bounded (vals ++ new) → add_count (counted new) a = Ok (with_count (counted (vals ++ new)) a).
Proof.
  intros [_ Hc _] Hb. unfold add_count, s64. rewrite Hc, <- counted_app. pose proof (counted_bound _ Hb). rewrite bool_decide_true by lia. done.
Qed.

(** *** Folding in the extreme of some values *)

Lemma extremal_skip vals new a a' : extremal vals a → (IsExtremeAgg t = true → present new = []) → has_acc_ a' = has_acc_ a → is_string_ a' = is_string_ a → acc_ a' = acc_ a → str_acc_ a' = str_acc_ a → extremal (vals ++ new) a'.
Proof.
  intros [H1 H2 H3] Hn E1 E2 E3 E4. rewrite <- E1 in H1. split.
  - rewrite H1. destruct (IsExtremeAgg t); [|done]. by rewrite present_app, Hn, app_nil_r.
  - by rewrite E1, E2.
  - intros Hx. rewrite present_app, (Hn Hx), app_nil_r, E3, E4. by apply H3.
Qed.
Lemma fold_extreme_exact x y : Z.abs x < 2 ^ 53 → Z.abs y < 2 ^ 53 → is_Some (int_of ty) → FoldExtreme SFltb t (ex x) (ex y) = ex (if wins t ty (CNum y) (CNum x) then y else x) ∧ FoldExtreme Z.ltb t x y = if wins t ty (CNum y) (CNum x) then y else x.
Proof.
  intros Hx Hy [it Hi]. unfold FoldExtreme, TakesExtreme, wins. rewrite !SFltb_exact by (lia || by apply small).
  assert (∀ op, holds op ty (CNum y) (CNum x) = order_holds op (y ?= x)) as -> by (intros op; by destruct ty). unfold Z.ltb. rewrite (Z.compare_antisym y x). case_bool_decide.
  - destruct (Z.compare_spec y x); cbn; [rewrite bool_decide_false by lia|rewrite bool_decide_true by lia|rewrite bool_decide_false by lia]; done.
  - destruct (Z.compare_spec y x); cbn; [rewrite bool_decide_false by lia|rewrite bool_decide_false by lia|rewrite bool_decide_true by lia]; done.
Qed.
Lemma extremal_number vals new a a' m : extremal vals a → agg_type_ a = t → str = false → IsExtremeAgg t = true → bounded (vals ++ new) → extreme t ty (present new) (CNum m) →
  has_acc_ a' = true → is_string_ a' = is_string_ a → acc_ a' = (if has_acc_ a then FoldExtreme SFltb (agg_type_ a) (acc_ a) (ex m) else ex m) → extremal (vals ++ new) a'.
Proof.
  intros [H1 H2 H3] Ht Hs Hx [_ Hal _ Hsm] Hm E1 E2 E3. rewrite present_app, Forall_app in Hal. rewrite numbers_app in Hsm. specialize (Hsm Hx Hs). rewrite Forall_app in Hsm. assert (present new ≠ []) as Hne by (intros E; destruct Hm as [Hm _]; rewrite E in Hm; by apply not_elem_of_nil in Hm).
  assert (∀ z l, CNum z ∈ present l → Forall (λ z, Z.abs z < 2 ^ 53) (numbers l) → Z.abs z < 2 ^ 53) as Hz by (intros z l Hz HF; unfold numbers in HF; rewrite Forall_fmap, Forall_forall in HF; exact (HF _ Hz)).
  assert (is_Some (int_of ty)) as Hint by (destruct Hm as [Hm _]; destruct Hal as [_ Hal]; rewrite Forall_forall in Hal; apply (Hal _ Hm)). split.
  - rewrite E1, Hx, bool_decide_false; [done|]. rewrite present_app. by destruct (present vals).
  - rewrite E1, E2, H2, Hs. by rewrite !andb_false_r.
  - intros _ _. rewrite Hs, present_app. rewrite Hx in H1. cbn [andb] in H1. rewrite H1 in E3. case_bool_decide as Hv; cbn [negb] in E3.
    + exists m. split; [done|]. by rewrite Hv.
    + specialize (H3 Hx Hv). rewrite Hs in H3. destruct H3 as (m0 & Ea & Hm0). rewrite Ea, Ht in E3. destruct (fold_extreme_exact m0 m) as [Ef _]; [apply (Hz m0 vals); [by destruct Hm0|tauto]|apply (Hz m new); [by destruct Hm|tauto]|done|]. rewrite Ef in E3. eexists. split; [exact E3|].
      pose proof (extreme_app t ty str _ _ _ _ (proj1 Hal) (proj2 Hal) Hm0 Hm) as He. by destruct (wins t ty (CNum m) (CNum m0)).
Qed.
Lemma extremal_string vals new a a' s : extremal vals a → agg_type_ a = t → str = true → IsExtremeAgg t = true → bounded (vals ++ new) → extreme t ty (present new) (CStr s) →
  has_acc_ a' = true → is_string_ a' = true → str_acc_ a' = str_acc_ (FoldStr s a) → extremal (vals ++ new) a'.
Proof.
  intros [H1 H2 H3] Ht Hs Hx [_ Hal _ _] Hm E1 E2 E3. rewrite present_app, Forall_app in Hal. assert (present new ≠ []) as Hne by (intros E; destruct Hm as [Hm _]; rewrite E in Hm; by apply not_elem_of_nil in Hm). split.
  - rewrite E1, Hx, bool_decide_false; [done|]. rewrite present_app. by destruct (present vals).
  - by rewrite E1, E2, Hs.
  - intros _ _. rewrite Hs, present_app, E3. rewrite Hx in H1. cbn [andb] in H1. unfold FoldStr. rewrite H1. case_bool_decide as Hv; cbn [negb].
    + cbn. by rewrite Hv.
    + specialize (H3 Hx Hv). rewrite Hs in H3. pose proof (extreme_app t ty str _ _ _ _ (proj1 Hal) (proj2 Hal) H3 Hm) as He. assert (TakesExtreme bytes_lt (agg_type_ a) (str_acc_ a) s = wins t ty (CStr s) (CStr (str_acc_ a))) as ->.
      { rewrite Ht. unfold TakesExtreme, wins, bytes_lt. cbn [holds]. rewrite (bcmp_antisym s (str_acc_ a)). case_bool_decide; by destruct (bcmp s (str_acc_ a)). }
      destruct (wins t ty (CStr s) (CStr (str_acc_ a))); done.
Qed.
Definition folded (vals : list (option cell)) (a : AggregateAccumulator) : Prop := tallied vals a ∧ extremal vals a.
Lemma new_folded : folded [] (new_Accumulator t).
Proof.
  split; [split; [done|by unfold counted; case_bool_decide|]|split; [by rewrite andb_false_r|done|done]]. unfold summed. by destruct (IsSumLike t).
Qed.

(** *** Loops over rows *)

Fixpoint fold_list {A} (f : Z → A → result A) (l : list Z) (x : A) : result A := match l with [] => Ok x | z :: l => x ← f z x; fold_list f l x end.
Definition rows_at (data : list cell) (valid : Z → bool) (i : Z) (vals : list (option cell)) : Prop :=
  ∀ j v, vals !! j = Some v → match v with Some (CNum z) => valid (i + Z.of_nat j) = true ∧ int_at data (i + Z.of_nat j) = Ok z | Some (CStr _) => False | None => valid (i + Z.of_nat j) = false end.
Lemma rows_at_tail data valid i v vals : rows_at data valid i (v :: vals) → rows_at data valid (i + 1) vals.
Proof. intros H j w Hj. specialize (H (S j) w Hj). by replace (i + 1 + Z.of_nat j) with (i + Z.of_nat (S j)) by lia. Qed.
Lemma fold_rows_ok {A} data valid (f : Z → A → result A) vals : ∀ i x, rows_at data valid i vals → fold_rows data valid f i (length vals) x = fold_list f (numbers vals) x.
Proof.
  induction vals as [|v vals IH]; intros i x H; [done|]. cbn [length fold_rows]. pose proof (H 0%nat v eq_refl) as Hv. rewrite Z.add_0_r in Hv. destruct v as [[z|s]|]; [|done|].
  - destruct Hv as [-> Ez]. rewrite Ez. cbn [mbind result_bind]. unfold numbers. cbn [present omap list_omap id fmap list_fmap num_of fold_list]. destruct (f z x) as [y|]; [|done]. cbn [mbind result_bind]. by apply IH, (rows_at_tail _ _ _ _ _ H).
  - rewrite Hv. cbn [mbind result_bind]. by apply IH, (rows_at_tail _ _ _ _ _ H).
Qed.
Lemma sum_rows l : ∀ s k, Z.abs s + mass l < 2 ^ 53 → fold_list sum_step l (s, k) = Ok (s + zsum l, k + Z.of_nat (length l)).
Proof.
  induction l as [|z l IH]; intros s k Hm; [cbn; do 2 f_equal; lia|]. cbn [mass foldr] in Hm. fold (mass l) in Hm. assert (0 ≤ mass l) by (pose proof (mass_bound l); lia). cbn [fold_list]. assert (sum_step z (s, k) = Ok (s + z, k + 1)) as -> by (unfold sum_step, s64; cbn [fst snd]; rewrite narrow_in by (unfold in_range; cbn; lia); rewrite bool_decide_true by lia; done). cbn [mbind result_bind].
  rewrite IH by lia. cbn [zsum foldr length]. fold (zsum l). do 2 f_equal; lia.
Qed.
Lemma extreme_rows l : ∀ pre m k, is_Some (int_of ty) → str = false → Forall (alike ty str) pre → Forall (λ z, Z.abs z < 2 ^ 53) l → Z.abs m < 2 ^ 53 → extreme t ty pre (CNum m) →
  ∃ m', fold_list (extreme_step t) l (Some m, k) = Ok (Some m', k + Z.of_nat (length l)) ∧ extreme t ty (pre ++ (CNum <$> l)) (CNum m') ∧ Z.abs m' < 2 ^ 53.
Proof.
  induction l as [|z l IH]; intros pre m k Hi Hs Hp Hl Hm He; [exists m; rewrite app_nil_r; split; [cbn; do 2 f_equal; lia|done]|]. apply Forall_cons in Hl as [Hz Hl]. cbn [fold_list]. assert (extreme_step t z (Some m, k) = Ok (Some (if wins t ty (CNum z) (CNum m) then z else m), k + 1)) as -> by (unfold extreme_step; cbn [fst snd]; by rewrite (proj2 (fold_extreme_exact m z Hm Hz Hi))). cbn [mbind result_bind]. assert (alike ty str (CNum z)) as Ha by (by split). pose proof (extreme_app t ty str pre [CNum z] _ _ Hp ltac:(by constructor) He (extreme_one t ty str _ Ha)) as He2.
  destruct (IH (pre ++ [CNum z]) (if wins t ty (CNum z) (CNum m) then z else m) (k + 1) Hi Hs) as (m' & E & He' & Hm'); [by apply Forall_app; split; [|constructor]|done|by destruct (wins _ _ _ _)|by destruct (wins _ _ _ _)|]. exists m'. rewrite E. split; [do 2 f_equal; cbn [length]; lia|]. by rewrite <- app_assoc in He'.
Qed.
Lemma count_valid_ok data valid vals : ∀ i, rows_at data valid i vals → count_valid valid i (length vals) = Z.of_nat (length (present vals)).
Proof.
  induction vals as [|v vals IH]; intros i H; [done|]. cbn [length count_valid]. rewrite (IH (i + 1)) by (by eapply rows_at_tail). pose proof (H 0%nat v eq_refl) as Hv. rewrite Z.add_0_r in Hv. destruct v as [[z|s]|]; [destruct Hv as [-> _]|done|rewrite Hv]; cbn; unfold present; lia.
Qed.
Lemma add_count_eq a n c : count_ a + n = c → 0 ≤ c < 2 ^ 53 → add_count n a = Ok (with_count c a).
Proof. intros <- Hc. unfold add_count, s64. rewrite bool_decide_true by lia. done. Qed.
Lemma present_numbers vals : str = false → Forall (alike ty str) (present vals) → present vals = CNum <$> numbers vals.
Proof. intros Hs. unfold numbers. induction (present vals) as [|[z|x] l IH]; intros HF; [done|apply Forall_cons in HF as [_ HF]; cbn; by f_equal; apply IH|]. apply Forall_cons in HF as [Hx _]. cbn in Hx. congruence. Qed.
Lemma rows_at_free data validity i vals : mask_free validity = true → rows_at data (mask_valid validity) i vals → rows_at data (λ _, true) i vals ∧ length (present vals) = length vals.
Proof.
  intros Hf H. split.
  - intros j v Hj. specialize (H j v Hj). destruct v as [[z|s]|]; [by destruct H|done|]. by rewrite (mask_free_valid _ _ Hf) in H.
  - apply present_all, Forall_forall. intros v [j Hj]%list_elem_of_lookup. specialize (H j v Hj). destruct v as [[z|s]|]; [by eexists|done|]. by rewrite (mask_free_valid _ _ Hf) in H.
Qed.
(** The extreme of a list of numbers that is not empty. *)
Lemma extreme_list l : is_Some (int_of ty) → str = false → Forall (λ z, Z.abs z < 2 ^ 53) l →
  ∃ m, fold_list (extreme_step t) l (None, 0) = Ok (m, Z.of_nat (length l)) ∧ match m with Some m => extreme t ty (CNum <$> l) (CNum m) ∧ Z.abs m < 2 ^ 53 | None => l = [] end.
Proof.
  intros Hi Hs Hl. destruct l as [|z l]; [by exists None|]. apply Forall_cons in Hl as [Hz Hl]. destruct (extreme_rows l [CNum z] z 1 Hi Hs) as (m & E & He & Hm); [by repeat constructor|done|done|by apply (extreme_one t ty str)|]. exists (Some m). split; [|done]. cbn [fold_list].
  assert (extreme_step t z (None, 0) = Ok (Some z, 1)) as -> by done. cbn [mbind result_bind]. rewrite E. do 2 f_equal. cbn [length]. lia.
Qed.
Lemma counted_present vals : t ≠ CountStarAggregate → counted vals = Z.of_nat (length (present vals)).
Proof. intros Ht. unfold counted. by rewrite bool_decide_false. Qed.
Lemma UpdateFlat_ok data validity vals new a : folded vals a → bounded (vals ++ new) → new ≠ [] → t ≠ CountStarAggregate → str = false → is_Some (int_of ty) → rows_at data (mask_valid validity) 0 new →
  ∃ a', UpdateFlat lprec lemax data validity (length new) a = Ok a' ∧ folded (vals ++ new) a'.
Proof.
  intros [[Ht Hc Hsum] Hx] Hb Hne Hcs Hs Hi Hrows. pose proof (counted_bound _ Hb) as Hcb. pose proof (summed_bound _ Hb) as Hsb. destruct (bounded_app _ _ Hb) as [Hb1 Hb2]. pose proof (summed_bound _ Hb1) as Hs1. pose proof (summed_bound _ Hb2) as Hs2. pose proof Hb2 as [_ Hal Hmass Hsm].
  assert (count_ a + Z.of_nat (length (present new)) = counted (vals ++ new)) as Hcount by (rewrite Hc, counted_app, (counted_present new Hcs); lia).
  assert (length (numbers new) = length (present new)) as Hln by (unfold numbers; by rewrite length_fmap).
  assert (∀ k, IsSumLike t = true → sum_ (add_sum lprec lemax (float_of_Z lprec lemax (0 + zsum (numbers new))) (with_count k a)) = ex (summed (vals ++ new))) as Hadd.
  { intros k Hsl. assert (summed new = zsum (numbers new)) as En by (unfold summed; by rewrite Hsl). rewrite Z.add_0_l, <- En, of_Z_small by done. rewrite summed_app in *. by apply add_sum_exact. }
  assert (IsSumLike t = false → ∀ a', sum_ a' = sum_ a → sum_ a' = ex (summed (vals ++ new))) as Hsame by (intros Hsl a' ->; rewrite Hsum, summed_app; unfold summed; rewrite Hsl; done).
  assert (IsSumLike t = true → IsExtremeAgg t = false) as Hnx by (unfold IsSumLike, IsExtremeAgg; by destruct t).
  assert (present new = CNum <$> numbers new) as Hpn by (by apply present_numbers). unfold UpdateFlat. rewrite Ht. destruct (mask_free validity) eqn:Hf.
  - destruct (rows_at_free _ _ _ _ Hf Hrows) as [Hrows' Hlen]. rewrite <- Hlen. rewrite (add_count_eq a _ _ Hcount Hcb). cbn [mbind result_bind]. rewrite Hlen. destruct (IsSumLike t) eqn:Hsl.
    + rewrite (fold_rows_ok data _ sum_step new 0 _ Hrows'), sum_rows by (specialize (Hmass eq_refl); cbn; lia). eexists. split; [done|]. split; [split; [done|done|by apply Hadd]|by apply (extremal_skip vals new a); [|rewrite Hnx|..]].
    + destruct (IsExtremeAgg t) eqn:Hex; [|eexists; split; [done|]; split; [split; [done|done|by apply Hsame]|by apply (extremal_skip vals new a); [|rewrite Hex|..]]].
      destruct new as [|v new]; [done|]. pose proof (Hrows' 0%nat v eq_refl) as Hv. destruct v as [[z|x]|]; [|done|done]. destruct Hv as [_ Ez]. change (0 + Z.of_nat 0) with 0 in Ez. rewrite Ez. cbn [mbind result_bind length]. rewrite Nat.sub_succ, Nat.sub_0_r. rewrite (fold_rows_ok data _ (extreme_step t) new 1 _ (rows_at_tail _ _ _ _ _ Hrows')).
      specialize (Hsm eq_refl Hs). change (numbers (Some (CNum z) :: new)) with (z :: numbers new) in *. apply Forall_cons in Hsm as [Hz Hsm]. destruct (extreme_rows (numbers new) [CNum z] z 1 Hi Hs) as (m & E & He & Hm); [by repeat constructor|done|done|by apply (extreme_one t ty str)|].
      rewrite E. cbn [mbind result_bind]. eexists. split; [done|]. split; [split; [done|done|by apply Hsame]|]. eapply (extremal_number vals _ a _ m); try done; [by rewrite Hpn|]. cbn. by rewrite of_Z_small.
  - destruct (IsSumLike t) eqn:Hsl.
    + rewrite (fold_rows_ok data _ sum_step new 0 _ Hrows), sum_rows by (specialize (Hmass eq_refl); cbn; lia). cbn [mbind result_bind]. rewrite Z.add_0_l, Hln. erewrite add_count_eq by done. eexists. split; [done|]. split; [split; [done|done|]|by apply (extremal_skip vals new a); [|rewrite Hnx|..]].
      pose proof (Hadd (count_ a) eq_refl) as H. by rewrite Z.add_0_l in H.
    + destruct (IsExtremeAgg t) eqn:Hex.
      * rewrite (fold_rows_ok data _ (extreme_step t) new 0 _ Hrows). destruct (extreme_list (numbers new) Hi Hs (Hsm eq_refl Hs)) as (m & -> & Hm). cbn [mbind result_bind]. rewrite Hln. destruct m as [m|].
        -- destruct Hm as [He Hm]. erewrite add_count_eq by done. eexists. split; [done|]. split; [split; [done|done|by apply Hsame]|]. eapply (extremal_number vals _ a _ m); try done; [by rewrite Hpn|]. cbn. by rewrite of_Z_small.
        -- erewrite add_count_eq by done. eexists. split; [done|]. split; [split; [done|done|by apply Hsame]|]. by apply (extremal_skip vals new a); [|rewrite Hpn, Hm|..].
      * rewrite (count_valid_ok data _ new 0 Hrows). erewrite add_count_eq by done. eexists. split; [done|]. split; [split; [done|done|by apply Hsame]|by apply (extremal_skip vals new a); [|rewrite Hex|..]].
Qed.
End state.

(** ** Vectors *)

(** The types of integers, dates and timestamps. *)
Definition int_ids : list LogicalTypeId := [LT_TINYINT; LT_SMALLINT; LT_INTEGER; LT_BIGINT; LT_UTINYINT; LT_USMALLINT; LT_UINTEGER; LT_UBIGINT].
Definition int_kind (ty : LogicalType) : Prop := ty = of_id (type_ ty) ∧ type_ ty ∈ int_ids ++ [LT_DATE; LT_TIMESTAMP].
Lemma int_kind_cases (P : LogicalType → Prop) ty : int_kind ty → Forall (λ id, P (of_id id)) (int_ids ++ [LT_DATE; LT_TIMESTAMP]) → P ty.
Proof. intros [-> Hin] HF. rewrite Forall_forall in HF. by apply HF. Qed.
Lemma int_kind_int ty : int_kind ty → is_Some (int_of (ctype_ ty)).
Proof. intros H. apply (int_kind_cases (λ ty, is_Some (int_of (ctype_ ty))) ty H). repeat constructor; by eexists. Qed.

Section vector.
Context (to_string : Value → list byte) (lprec lemax : Z) (Hlp : 53 ≤ lprec) (Hle : lprec ≤ lemax).
Context (junk : byte) (junk_cell : cell) (real_flat : PhysicalType → list cell → option (list Z) → nat → AggregateAccumulator → result AggregateAccumulator).
Abbreviation ex := (exact lprec).
Lemma number_value ty z : int_kind ty → in_width (ctype_ ty) z → (raw ← raw_value (ctype_ ty) (CNum z); WrapValue to_string ty raw) = Ok (mkValue ty (Some (PNum z))).
Proof.
  intros H. apply (int_kind_cases (λ ty, in_width (ctype_ ty) z → (raw ← raw_value (ctype_ ty) (CNum z); WrapValue to_string ty raw) = Ok (mkValue ty (Some (PNum z)))) ty H). unfold in_width.
  unfold int_ids. cbn [app]. repeat (apply Forall_cons; split; [intros Hz; cbn in Hz; first [done|unfold WrapValue; cbn; unfold CastAs, GetAs_int; cbn; rewrite !bool_decide_false by done; do 4 f_equal; first [by apply (narrow_in I32)|by apply (narrow_in I64)]]|]). constructor.
Qed.
Context (t : AggregationType) (str : bool) (ty : LogicalType).
Abbreviation folded := (folded lprec t str (ctype_ ty)).
Abbreviation bounded := (bounded t str (ctype_ ty)).
Definition agg_kind : Prop := (str = false ∧ int_kind ty) ∨ (str = true ∧ ty = of_id LT_STRING ∧ (IsExtremeAgg t = true ∨ t = CountStarAggregate)).
Context (Hk : agg_kind).
(** The value of an element. *)
Definition value_for (x : option cell) : Value := mkValue ty (match x with Some (CNum z) => Some (PNum z) | Some (CStr s) => Some (PStr s) | None => None end).
Lemma element_value_ok data validity i c : data_at data i = Ok c → elem_ok (ctype_ ty) (if mask_valid validity i then Some c else None) → element_value to_string ty data validity i = Ok (value_for (if mask_valid validity i then Some c else None)).
Proof.
  intros Hc. unfold element_value. destruct (mask_valid validity i); [|done]. rewrite Hc. cbn [mbind result_bind]. intros He. destruct Hk as [[_ Hint]|(_ & Hty & _)].
  - destruct (int_kind_int ty Hint) as [it Hit]. destruct (numeric_elem _ _ _ Hit He) as [?|(z & [= ->] & Hz)]; [done|]. apply number_value; [done|]. unfold in_width. by rewrite Hit.
  - unfold value_for. rewrite Hty in *. by destruct c as [z|s]; [by destruct He|].
Qed.
Lemma FoldStr_fields s a : agg_type_ (FoldStr s a) = agg_type_ a ∧ count_ (FoldStr s a) = count_ a ∧ sum_ (FoldStr s a) = sum_ a ∧ acc_ (FoldStr s a) = acc_ a ∧ has_acc_ (FoldStr s a) = true ∧ is_string_ (FoldStr s a) = (if has_acc_ a then is_string_ a else true).
Proof. unfold FoldStr. destruct (has_acc_ a) eqn:E; cbn [negb]; [|done]. destruct (TakesExtreme _ _ _ _); cbn; rewrite ?E; done. Qed.
(** One string, or [count] times the same. *)
Lemma fold_string vals new s a : folded vals a → bounded (vals ++ new) → str = true → IsExtremeAgg t = true → extreme t (ctype_ ty) (present new) (CStr s) → folded (vals ++ new) (FoldStr s (with_count (counted t (vals ++ new)) a)).
Proof.
  intros [[Ht Hc Hsum] Hx] Hb Hs Hex Hm. destruct (FoldStr_fields s (with_count (counted t (vals ++ new)) a)) as (E1 & E2 & E3 & E4 & E5 & E6). assert (IsSumLike t = false) as Hsl by (unfold IsSumLike, IsExtremeAgg in *; by destruct t). split.
  - split; [by rewrite E1|by rewrite E2|]. rewrite E3. cbn. rewrite Hsum, summed_app. unfold summed. by rewrite Hsl.
  - apply (extremal_string lprec t str (ctype_ ty) vals new a _ s); try done; [|by unfold FoldStr; cbn [has_acc_ with_count agg_type_ str_acc_]; destruct (has_acc_ a); [|done]; cbn [negb]; destruct (TakesExtreme _ _ _ _)]. rewrite E6. cbn. destruct Hx as [_ Hst _]. rewrite Hst, Hs, andb_true_r. by destruct (has_acc_ a).
Qed.
Lemma fold_null vals new a : folded vals a → present new = [] → t ≠ CountStarAggregate → folded (vals ++ new) a.
Proof.
  intros [[Ht Hc Hsum] Hx] Hn Hcs. split; [split; [done| |]|by apply (extremal_skip lprec t str (ctype_ ty) vals new a)].
  - rewrite Hc, counted_app, (counted_present t new Hcs), Hn. cbn. lia.
  - rewrite Hsum, summed_app. unfold summed, numbers. rewrite Hn. destruct (IsSumLike t); [|done]. cbn. by rewrite Z.add_0_r.
Qed.
Lemma Update_string vals a x : str = true → IsExtremeAgg t = true → ty = of_id LT_STRING → folded vals a → bounded (vals ++ [x]) → ∃ a', acc_Update lprec lemax (value_for x) a = Ok a' ∧ folded (vals ++ [x]) a'.
Proof.
  intros Hs Hex Hty Hf Hb. assert (t ≠ CountStarAggregate) as Hcs by (by intros ->). pose proof Hf as [[Ht Hc Hsum] _]. unfold acc_Update. rewrite Ht, bool_decide_false by done. destruct x as [c|]; [|exists a; split; [done|]; by apply fold_null]. pose proof Hb as [_ Hal _ _]. rewrite present_app, Forall_app in Hal. destruct Hal as [_ Hal].
  apply Forall_cons in Hal as [Hc1 _]. destruct c as [z|s]; [destruct Hc1; congruence|]. assert (Value_IsNull (value_for (Some (CStr s))) = false) as -> by done. rewrite (add_count_eq a 1 (counted t (vals ++ [Some (CStr s)]))); [|rewrite Hc, counted_app, (counted_present t [_] Hcs); done|by apply (counted_bound t str (ctype_ ty))].
  cbn [mbind result_bind]. unfold IsStringMinMax. cbn [with_count agg_type_]. rewrite Ht, Hex. unfold value_for at 1. cbn [value_type]. rewrite bool_decide_true by (by rewrite Hty). cbn [andb]. assert (GetString (value_for (Some (CStr s))) = Ok s) as -> by (unfold GetString, value_for; cbn [value_type payload]; by rewrite Hty). eexists. split; [done|]. apply fold_string; try done. by apply (extreme_one t (ctype_ ty) str).
Qed.
Lemma update_rows_ok data validity new : str = true → IsExtremeAgg t = true → ty = of_id LT_STRING → ∀ i vals a, folded vals a → bounded (vals ++ new) →
  (∀ j x, new !! j = Some x → element_value to_string ty data validity (i + Z.of_nat j) = Ok (value_for x)) → ∃ a', update_rows to_string lprec lemax ty (FLAT_VECTOR data validity) i (length new) a = Ok a' ∧ folded (vals ++ new) a'.
Proof.
  intros Hs Hex Hty. induction new as [|x new IH]; intros i vals a Hf Hb Hv; [exists a; by rewrite app_nil_r|]. cbn [length update_rows Vector_GetValue]. pose proof (Hv 0%nat x eq_refl) as H0. rewrite Z.add_0_r in H0. rewrite H0. cbn [mbind result_bind]. change (x :: new) with ([x] ++ new) in *. rewrite app_assoc in *.
  destruct (Update_string vals a x Hs Hex Hty Hf (proj1 (bounded_app _ _ _ _ _ Hb))) as (a1 & -> & Hf1). cbn [mbind result_bind]. apply IH; [done|done|]. intros j y Hj. specialize (Hv (S j) y Hj). by replace (i + 1 + Z.of_nat j) with (i + Z.of_nat (S j)) by lia.
Qed.
Lemma new_lookup (f : Z → option cell) count j x : (f <$> all_rows count) !! j = Some x → (j < count)%nat ∧ x = f (Z.of_nat j).
Proof. intros H. apply list_lookup_fmap_Some in H as (i & -> & Hi). unfold all_rows in Hi. apply list_lookup_fmap_Some in Hi as (k & -> & Hi'). apply lookup_seq in Hi' as [-> ?]. done. Qed.
Lemma new_length {A} (f : Z → A) count : length (f <$> all_rows count) = count.
Proof. unfold all_rows. by rewrite !length_fmap, length_seq. Qed.
Lemma present_same n c : present (replicate n (Some c)) = replicate n c ∧ present (replicate n None) = [].
Proof. split; induction n as [|n IH]; [done| |done|]; unfold present in *; cbn; by rewrite IH. Qed.
Lemma extreme_same n c : (0 < n)%nat → alike (ctype_ ty) str c → extreme t (ctype_ ty) (replicate n c) c.
Proof. intros Hn Hc. split; [by apply elem_of_replicate; split; [|lia]|]. apply Forall_replicate. by apply (better_refl t (ctype_ ty) str). Qed.
Lemma UpdateConstant_ok n x vals a : (0 < n)%nat → t ≠ CountStarAggregate → folded vals a → bounded (vals ++ replicate n x) → ∃ a',
  (if Value_IsNull (value_for x) then Ok a else
   a ← add_count (Z.of_nat n) a;
   if IsStringMinMax (value_for x) a then s ← GetString (value_for x); Ok (FoldStr s a) else
   d ← GetAs_real lprec lemax (value_for x);
   Ok (if IsSumLike (agg_type_ a) then add_sum lprec lemax (SFmul lprec lemax d (float_of_Z lprec lemax (Z.of_nat n))) a else if IsExtremeAgg (agg_type_ a) then FoldScalar d a else a)) = Ok a' ∧ folded (vals ++ replicate n x) a'.
Proof.
  intros Hn Hcs Hf Hb. pose proof Hf as [[Ht Hc Hsum] Hx]. pose proof (counted_bound t str _ _ Hb) as Hcb. destruct (bounded_app _ _ _ _ _ Hb) as [Hb1 Hb2]. pose proof Hb2 as [Hlen Hal Hmass Hsm]. rewrite length_replicate in Hlen.
  destruct x as [c|]; [|exists a; split; [done|]; apply fold_null; [done|apply present_same; exact (CNum 0)|done]]. destruct (present_same n c) as [Hp _]. rewrite Hp in Hal. pose proof (Forall_replicate_inv _ _ _ Hn Hal) as Hc1.
  assert (Value_IsNull (value_for (Some c)) = false) as -> by (by destruct c). rewrite (add_count_eq a _ (counted t (vals ++ replicate n (Some c)))); [|by rewrite Hc, counted_app, (counted_present t (replicate _ _) Hcs), Hp, length_replicate|done]. cbn [mbind result_bind].
  assert (IsSumLike t = true → IsExtremeAgg t = false) as Hnx by (unfold IsSumLike, IsExtremeAgg; by destruct t). destruct c as [z|s].
  - destruct Hc1 as [Hs [it Hi]]. assert (IsStringMinMax (value_for (Some (CNum z))) (with_count (counted t (vals ++ replicate n (Some (CNum z)))) a) = false) as -> by (unfold IsStringMinMax, value_for; cbn [value_type]; rewrite (bool_decide_false (ctype_ ty = STRING)) by (intros E; by rewrite E in Hi); apply andb_false_r).
    assert (GetAs_real lprec lemax (value_for (Some (CNum z))) = Ok (float_of_Z lprec lemax z)) as -> by (unfold GetAs_real, value_for; cbn [value_type payload]; by rewrite Hi). cbn [mbind result_bind with_count agg_type_]. rewrite Ht.
    assert (numbers (replicate n (Some (CNum z))) = replicate n z) as Hnum by (unfold numbers; rewrite Hp, fmap_replicate; done). destruct (zsum_replicate n z) as [Hzs Hms]. destruct (IsSumLike t) eqn:Hsl.
    + eexists. split; [done|]. split; [split; [done|done|]|by apply (extremal_skip lprec t str (ctype_ ty) vals _ a); [|rewrite Hnx|..]]. specialize (Hmass eq_refl). rewrite Hnum, Hms in Hmass. pose proof (summed_bound t str (ctype_ ty) _ Hb) as H12. pose proof (summed_bound t str (ctype_ ty) _ Hb1) as H1. pose proof (summed_bound t str (ctype_ ty) _ Hb2) as H2.
      assert (summed t (replicate n (Some (CNum z))) = z * Z.of_nat n) as Hs2 by (unfold summed; rewrite Hsl, Hnum, Hzs; lia). rewrite summed_app, Hs2 in *. rewrite !of_Z_small by (done || nia). rewrite SFmul_exact by first [lia|apply (small lprec Hlp); first [done|nia]]. by apply add_sum_exact.
    + destruct (IsExtremeAgg t) eqn:Hex.
      * eexists. split; [done|]. specialize (Hsm eq_refl Hs). rewrite Hnum in Hsm. pose proof (Forall_replicate_inv _ _ _ Hn Hsm) as Hz. split; [split; [done|done|cbn; rewrite Hsum, summed_app; unfold summed; by rewrite Hsl]|]. apply (extremal_number lprec Hlp t str (ctype_ ty) vals _ a _ z); try done; [rewrite Hp; by apply extreme_same|]. cbn. by rewrite of_Z_small.
      * eexists. split; [done|]. split; [split; [done|done|cbn; rewrite Hsum, summed_app; unfold summed; by rewrite Hsl]|]. by apply (extremal_skip lprec t str (ctype_ ty) vals _ a); [|rewrite Hex|..].
  - assert (ty = of_id LT_STRING ∧ IsExtremeAgg t = true) as [Hty Hex] by (destruct Hk as [[? _]|(_ & ? & [?|?])]; [cbn in Hc1; congruence|done|done]). assert (IsStringMinMax (value_for (Some (CStr s))) (with_count (counted t (vals ++ replicate n (Some (CStr s)))) a) = true) as -> by (unfold IsStringMinMax, value_for; cbn [value_type with_count agg_type_]; by rewrite Ht, Hex, Hty).
    assert (GetString (value_for (Some (CStr s))) = Ok s) as -> by (unfold GetString, value_for; cbn [value_type payload]; by rewrite Hty). eexists. split; [done|]. apply fold_string; try done. rewrite Hp. by apply extreme_same.
Qed.
Lemma UpdateVector_ok v f n vals a : (0 < n)%nat → Z.of_nat n ≤ STANDARD_VECTOR_SIZE → column_reads n v (ctype_ ty) f → folded vals a → bounded (vals ++ (f <$> all_rows n)) →
  ∃ a', UpdateVector to_string lprec lemax junk junk_cell real_flat v ty n a = Ok a' ∧ folded (vals ++ (f <$> all_rows n)) a'.
Proof.
  intros Hn Hstd Hv Hf Hb. pose proof Hf as [[Ht Hc Hsum] Hx]. unfold UpdateVector. rewrite bool_decide_false by lia. rewrite Ht. case_bool_decide as Hcs.
  { rewrite (add_count_eq a _ (counted t (vals ++ (f <$> all_rows n)))); [|rewrite Hc, counted_app; unfold counted; rewrite Hcs, bool_decide_true, new_length by done; done|by apply (counted_bound t str (ctype_ ty))]. eexists. split; [done|].
    split; [split; [done|done|cbn; rewrite Hsum, summed_app; unfold summed; by rewrite Hcs]|]. by apply (extremal_skip lprec t str (ctype_ ty) vals _ a); [|rewrite Hcs|..]. }
  assert (scalar (ctype_ ty) = true) as Hsc by (destruct Hk as [[_ Hint]|(_ & -> & _)]; [destruct (int_kind_int ty Hint) as [it Hi]; by destruct (numeric_int _ _ Hi)|done]).
  assert (∀ data validity, (∀ r, 0 ≤ r < Z.of_nat n → col_value (flat_col data validity) r = f r ∧ readable (flat_col data validity) r) →
    ∃ a', match int_of (ctype_ ty), ctype_ ty with Some _, _ => UpdateFlat lprec lemax data validity n a | None, (FLOAT | DOUBLE) => real_flat (ctype_ ty) data validity n a | _, _ => update_rows to_string lprec lemax ty (FLAT_VECTOR data validity) 0 n a end = Ok a' ∧ folded (vals ++ (f <$> all_rows n)) a') as Hflat.
  { intros data validity Hr. assert (∀ j x, (f <$> all_rows n) !! j = Some x → ∃ c, data_at data (Z.of_nat j) = Ok c ∧ x = (if mask_valid validity (Z.of_nat j) then Some c else None) ∧ elem_ok (ctype_ ty) x) as Hat.
    { intros j x Hj. apply new_lookup in Hj as [Hj ->]. destruct (Hr (Z.of_nat j) ltac:(lia)) as [Hval (b & c & Hb1 & Hc1)]. unfold col_value, col_valid, col_cell in *. cbn [flat_col vd_sel vd_data vd_validity GetIndex mbind result_bind] in *. injection Hb1 as Hb1. rewrite Hc1 in *. rewrite Hb1 in *. exists c. split; [done|]. split; [by destruct b|]. eapply column_value; [exact Hv|lia]. }
    destruct Hk as [[Hs Hint]|(Hs & Hty & Hex)].
    - destruct (int_kind_int ty Hint) as [it Hi]. rewrite Hi. assert (rows_at data (mask_valid validity) 0 (f <$> all_rows n)) as Hrows; [|assert (f <$> all_rows n ≠ []) as Hne by (intros E; apply (f_equal length) in E; rewrite new_length in E; cbn in E; lia); pose proof (UpdateFlat_ok lprec lemax Hlp Hle t str (ctype_ ty) data validity vals _ a Hf Hb Hne Hcs Hs ltac:(by eexists) Hrows) as H; by rewrite new_length in H].
      intros j x Hj. destruct (Hat j x Hj) as (c & Hd & Hx1 & He). rewrite Z.add_0_l. unfold int_at. rewrite Hd. destruct (mask_valid validity (Z.of_nat j)); [|by subst x]. destruct (numeric_elem _ _ _ Hi He) as [?|(z & -> & _)]; [congruence|]. by injection Hx1 as <-.
    - destruct Hex as [Hex|?]; [|done]. assert (int_of (ctype_ ty) = None ∧ ctype_ ty = STRING) as [-> Est] by (by rewrite Hty). assert (∀ X (a b : X), match ctype_ ty with FLOAT | DOUBLE => a | _ => b end = b) as -> by (intros; by rewrite Est). assert (∀ j x, (f <$> all_rows n) !! j = Some x → element_value to_string ty data validity (0 + Z.of_nat j) = Ok (value_for x)) as Hel; [|pose proof (update_rows_ok data validity _ Hs Hex Hty 0 vals a Hf Hb Hel) as H; by rewrite new_length in H].
      intros j x Hj. destruct (Hat j x Hj) as (c & Hd & -> & He). rewrite Z.add_0_l. by apply element_value_ok. }
  assert (match v with CONSTANT_VECTOR _ _ => True | _ => ∃ data validity, Normalify junk junk_cell (ctype_ ty) n v = Ok (FLAT_VECTOR data validity) ∧ ∀ r, 0 ≤ r < Z.of_nat n → col_value (flat_col data validity) r = f r ∧ readable (flat_col data validity) r end) as Hnorm.
  { destruct Hv as (col & Eo & Hr). destruct (Normalify_value junk junk_cell (ctype_ ty) v n col Hn Hstd (Eo n ltac:(lia)) Hsc) as (data & validity & En & Hd); [intros r Hir; destruct (Hr r Hir) as (-> & ? & ?); split; [done|by apply elem_ok_storable]|].
    assert (∃ data validity, Normalify junk junk_cell (ctype_ ty) n v = Ok (FLAT_VECTOR data validity) ∧ ∀ r, 0 ≤ r < Z.of_nat n → col_value (flat_col data validity) r = f r ∧ readable (flat_col data validity) r) as H by (exists data, validity; split; [done|]; intros r Hir; destruct (Hd r Hir) as [-> ?]; by destruct (Hr r Hir) as (-> & _)). by destruct v. }
  destruct v as [data0 validity0|c m|sel child].
  - destruct Hnorm as (data & validity & -> & Hr). cbn [mbind result_bind]. exact (Hflat data validity Hr).
  - assert (∀ i, 0 ≤ i < Z.of_nat n → f i = if mask_valid m 0 then Some c else None) as Hfi by (intros i Hi; exact (column_cells n ltac:(lia) _ _ _ _ Hv Hi)).
    assert (f <$> all_rows n = replicate n (if mask_valid m 0 then Some c else None)) as Hnew.
    { apply list_eq_same_length with (n := n); [by rewrite length_replicate|by rewrite new_length|]. intros j x y Hj Hx1 Hy. apply new_lookup in Hx1 as [_ ->]. apply lookup_replicate in Hy as [-> _]. apply Hfi. lia. }
    rewrite Hnew in *. cbn [Vector_GetValue]. rewrite (element_value_ok [c] m 0 c eq_refl) by (rewrite <- (Hfi 0) by lia; eapply column_value; [exact Hv|lia]). cbn [mbind result_bind]. rewrite <- Ht in Hcs. pose proof (UpdateConstant_ok n (if mask_valid m 0 then Some c else None) vals a Hn ltac:(by rewrite <- Ht) Hf Hb) as H. exact H.
  - destruct Hnorm as (data & validity & -> & Hr). cbn [mbind result_bind]. exact (Hflat data validity Hr).
Qed.
Lemma acc_Merge_ok u v a o : folded u a → folded v o → bounded (u ++ v) → ∃ a', acc_Merge lprec lemax o a = Ok a' ∧ folded (u ++ v) a'.
Proof.
  intros [[Ht Hc Hsum] Hx] [[Ht' Hc' Hsum'] [H1 H2 H3]] Hb. destruct (bounded_app _ _ _ _ _ Hb) as [Hb1 Hb2]. unfold acc_Merge. rewrite (add_count_eq a _ (counted t (u ++ v))); [|by rewrite Hc, Hc', counted_app|by apply (counted_bound t str (ctype_ ty))]. cbn [mbind result_bind]. set (a1 := add_sum lprec lemax (sum_ o) (with_count (counted t (u ++ v)) a)).
  assert (sum_ a1 = ex (summed t (u ++ v))) as Hs1.
  { unfold a1. rewrite Hsum', summed_app. apply add_sum_exact; try done; [by apply (summed_bound t str (ctype_ ty))..|]. rewrite <- summed_app. by apply (summed_bound t str (ctype_ ty)). }
  rewrite H1. destruct (IsExtremeAgg t) eqn:Hex; cbn [andb]; [|eexists; split; [done|]; split; [done|by apply (extremal_skip lprec t str (ctype_ ty) u v a); [|rewrite Hex|..]]].
  case_bool_decide as Hv; cbn [negb]; [eexists; split; [done|]; split; [done|by apply (extremal_skip lprec t str (ctype_ ty) u v a)]|]. rewrite H1 in H2. specialize (H3 eq_refl Hv). cbn [andb negb] in H2. rewrite H2. destruct str eqn:Hstr.
  - eexists. split; [done|]. destruct (FoldStr_fields (str_acc_ o) a1) as (E1 & E2 & E3 & E4 & E5 & E6). split; [split; cbn [agg_type_ count_ sum_]; [by rewrite E1|by rewrite E2|by rewrite E3]|]. apply (extremal_string lprec t true (ctype_ ty) u v a _ (str_acc_ o)); try done; cbn.
    + rewrite E6. cbn. destruct Hx as [_ Hst _]. rewrite Hst, andb_true_r. by destruct (has_acc_ a).
    + unfold FoldStr. cbn [a1 add_sum with_sum with_count has_acc_ agg_type_ str_acc_]. destruct (has_acc_ a); [|done]. cbn [negb]. by destruct (TakesExtreme _ _ _ _).
  - destruct H3 as (m & Em & Hm). change (has_acc_ a1) with (has_acc_ a). change (agg_type_ a1) with (agg_type_ a). change (acc_ a1) with (acc_ a). destruct (has_acc_ a) eqn:Ha; cbn [negb]; rewrite ?Ht, ?Hex; eexists; (split; [done|]); (split; [done|]); apply (extremal_number lprec Hlp t false (ctype_ ty) u v a _ m); try done; cbn; rewrite Ha, Em; by rewrite ?Ht.
Qed.

(** ** Results *)

Lemma cast_double oty m : int_kind oty → in_width (ctype_ oty) m → Z.abs m < 2 ^ 53 → CastAs to_string (double_value (ex m)) oty = Ok (mkValue oty (Some (PNum m))).
Proof.
  intros H Hw Hm. unfold double_value. rewrite (convert_exact lprec lemax) by (lia || by apply (small lprec Hlp)). revert Hw. apply (int_kind_cases (λ oty, in_width (ctype_ oty) m → CastAs to_string (mkValue (of_id LT_DOUBLE) (Some (PReal (exact 53 m)))) oty = Ok (mkValue oty (Some (PNum m)))) oty H). unfold in_width, int_ids. cbn [app].
  repeat (apply Forall_cons; split; [intros Hz; unfold CastAs; cbn [of_id type_ value_type]; rewrite bool_decide_false by done; cbn [Value_IsNull payload]; unfold GetAs_int; cbn [of_id value_type ctype_ PhysicalTypeOf int_of payload Value_IsNull]; unfold Value_IsNull; cbn [payload]; rewrite (bool_decide_false (Some _ = None)) by done; rewrite int_of_exact by (lia || done); done|]). constructor.
Qed.
(** The first row of an output column. *)
Definition outputs (oty : LogicalType) (v : Value) (x : option cell) : Prop := ∃ w col, output_column junk junk_cell oty v = Ok w ∧ Orrify 1 w = Ok col ∧ col_value col 0 = x ∧ readable col 0.
Lemma first_row data mask c b : data !! 0%nat = Some c → mask_valid mask 0 = b → ∃ col, Orrify 1 (FLAT_VECTOR data mask) = Ok col ∧ col_value col 0 = (if b then Some c else None) ∧ readable col 0.
Proof.
  intros Hd Hm. eexists. split; [done|]. unfold col_value, readable, col_valid, col_cell, data_at. cbn [vd_sel vd_data vd_validity GetIndex mbind result_bind]. change (Z.to_nat 0) with 0%nat. rewrite Hd, Hm. split; [by destruct b|by eexists _, _].
Qed.
Lemma output_null oty : scalar (ctype_ oty) = true → outputs oty (Value_Null oty) None.
Proof.
  intros Hs. destruct (null_fill _ Hs) as (c & Ec & _). destruct null_mask as (mask & Em & Hm). destruct (first_row (<[0%nat := c]> (replicate (Z.to_nat STANDARD_VECTOR_SIZE) junk_cell)) mask c false) as (col & Eo & Hv & Hr); [apply list_lookup_insert_eq; rewrite length_replicate; unfold STANDARD_VECTOR_SIZE; lia|done|].
  exists (FLAT_VECTOR (<[0%nat := c]> (replicate (Z.to_nat STANDARD_VECTOR_SIZE) junk_cell)) mask), col. split; [|done]. unfold output_column, Vector_SetValue. assert (Value_IsNull (Value_Null oty) = true) as -> by done. rewrite Ec. cbn [mbind result_bind]. rewrite Em. cbn [mbind result_bind]. rewrite bool_decide_true by (rewrite length_replicate; unfold STANDARD_VECTOR_SIZE; lia). done.
Qed.
Lemma output_some oty v c : Value_IsNull v = false → ctype_ (value_type v) = ctype_ oty → cell_value junk (ctype_ oty) v = Ok c → outputs oty v (Some c).
Proof.
  intros Hn Ht Hc. destruct (first_row (<[0%nat := c]> (replicate (Z.to_nat STANDARD_VECTOR_SIZE) junk_cell)) None c true) as (col & Eo & Hv & Hr); [apply list_lookup_insert_eq; rewrite length_replicate; unfold STANDARD_VECTOR_SIZE; lia|done|].
  exists (FLAT_VECTOR (<[0%nat := c]> (replicate (Z.to_nat STANDARD_VECTOR_SIZE) junk_cell)) None), col. split; [|done]. unfold output_column, Vector_SetValue. rewrite Hn, (bool_decide_true (_ = _)) by done. cbn [negb]. assert (with_mask (SetValid 0) None = Ok None) as -> by (vm_compute; done). cbn [mbind result_bind]. rewrite Hc. cbn [mbind result_bind]. rewrite bool_decide_true by (rewrite length_replicate; unfold STANDARD_VECTOR_SIZE; lia). done.
Qed.
Lemma output_number oty m : int_kind oty → in_width (ctype_ oty) m → outputs oty (mkValue oty (Some (PNum m))) (Some (CNum m)).
Proof.
  intros H Hw. destruct (int_kind_int oty H) as [it Hi]. apply output_some; [done|done|]. unfold cell_value, GetAs_int. cbn [value_type payload]. rewrite Hi. cbn [mbind result_bind]. unfold in_width in Hw. rewrite Hi in Hw. by rewrite narrow_in.
Qed.
(** The quotient of the exact sum and the exact count, rounded to [long double] and then to [double]. *)
Definition average (s n : Z) : Z := bits_of_float 52 11 (float_of_float 53 1024 (SFdiv lprec lemax (ex s) (ex n))).
(** What an aggregate over [vals] is. *)
Definition agg_result (vals : list (option cell)) (x : option cell) : Prop :=
  match t with
  | CountStarAggregate => x = Some (CNum (Z.of_nat (length vals)))
  | CountAggregate => x = Some (CNum (Z.of_nat (length (present vals))))
  | SumAggregate => x = if bool_decide (present vals = []) then None else Some (CNum (zsum (numbers vals)))
  | AvgAggregate => x = if bool_decide (present vals = []) then None else Some (CNum (average (zsum (numbers vals)) (Z.of_nat (length (present vals)))))
  | MinAggregate | MaxAggregate => if bool_decide (present vals = []) then x = None else ∃ c, x = Some c ∧ extreme t (ctype_ ty) (present vals) c
  end.
Lemma counted_length t' vals : 0 ≤ counted t' vals ≤ Z.of_nat (length vals).
Proof. pose proof (present_length vals). unfold counted. case_bool_decide; lia. Qed.
Lemma count_narrow n : 0 ≤ n < 2 ^ 31 → narrow I32 n = n.
Proof. intros H. apply narrow_in. unfold in_range. cbn. lia. Qed.
Lemma count_result n : outputs (of_id LT_INTEGER) (mkValue (of_id LT_INTEGER) (Some (PNum (narrow I32 n)))) (Some (CNum (narrow I32 n))).
Proof. apply output_number; [split; [done|apply (bool_decide_unpack _); vm_compute; done]|exact (narrow_range I32 n)]. Qed.
Lemma acc_Finalize_ok vals a : folded vals a → bounded vals → Z.of_nat (length vals) < row_limit t → Forall (elem_ok (ctype_ ty)) vals → (IsSumLike t = true → type_ ty ∈ int_ids) →
  ∃ v x, acc_Finalize to_string lprec lemax a (AggResultType t ty) = Ok v ∧ outputs (AggResultType t ty) v x ∧ agg_result vals x.
Proof.
  intros [[Ht Hc Hsum] [H1 H2 H3]] Hb Hlim Hel Hids. unfold acc_Finalize, agg_result. rewrite Ht. assert (scalar (ctype_ ty) = true) as Hsc by (destruct Hk as [[_ Hint]|(_ & -> & _)]; [destruct (int_kind_int ty Hint) as [it Hi]; by destruct (numeric_int _ _ Hi)|done]).
  assert (t ≠ CountStarAggregate → bool_decide (count_ a = 0) = bool_decide (present vals = [])) as Hzero by (intros Hn; rewrite Hc, (counted_present t vals Hn); apply bool_decide_ext; destruct (present vals); cbn; split; try done; lia).
  assert (∀ n, CastAs to_string (mkValue (of_id LT_BIGINT) (Some (PNum n))) (of_id LT_INTEGER) = Ok (mkValue (of_id LT_INTEGER) (Some (PNum (narrow I32 n))))) as Hcast by done.
  assert (IsSumLike t = true → int_kind ty) as Hkind by (intros Hs; specialize (Hids Hs); destruct Hk as [[_ ?]|(_ & Hty & _)]; [done|]; rewrite Hty in Hids; by apply (bool_decide_pack _) in Hids; vm_compute in Hids).
  assert (IsExtremeAgg t = true → ∃ v x, (if negb (has_acc_ a) then Ok (Value_Null ty) else if is_string_ a then CastAs to_string (mkValue (of_id LT_STRING) (Some (PStr (str_acc_ a)))) ty else CastAs to_string (double_value (acc_ a)) ty) = Ok v ∧ outputs ty v x ∧
    if bool_decide (present vals = []) then x = None else ∃ c, x = Some c ∧ extreme t (ctype_ ty) (present vals) c) as Hext.
  { clear Hzero. intros Hex. rewrite Hex in H1. rewrite H1 in *. cbn [andb] in *. case_bool_decide as Hv; cbn [negb andb] in *; [eexists _, None; split; [done|]; split; [by apply output_null|done]|]. specialize (H3 Hex Hv). rewrite H2.
    assert (∀ c, c ∈ present vals → elem_ok (ctype_ ty) (Some c)) as Hin by (intros c Hin; unfold present in Hin; apply list_elem_of_omap in Hin as (y & Hy & Ey); cbn in Ey; subst y; rewrite Forall_forall in Hel; by apply Hel).
    destruct Hk as [[Hs Hint]|(Hs & Hty & _)]; rewrite Hs in *.
    - destruct H3 as (m & -> & Hm). destruct (Hin (CNum m) (proj1 Hm)) as [_ Hw]. assert (Z.abs m < 2 ^ 53) as Hsm by (destruct Hb as [_ _ _ Hb]; specialize (Hb Hex eq_refl); unfold numbers in Hb; rewrite Forall_fmap, Forall_forall in Hb; exact (Hb _ (proj1 Hm))).
      rewrite cast_double by done. eexists _, _. split; [done|]. split; [by apply output_number|by eexists].
    - destruct (Hin (CStr (str_acc_ a)) (proj1 H3)) as [_ Hl]. exists (mkValue ty (Some (PStr (str_acc_ a)))), (Some (CStr (str_acc_ a))). split; [by rewrite Hty|]. split; [|by eexists]. apply output_some; [done|done|]. rewrite Hty. unfold cell_value. cbn [of_id ctype_ PhysicalTypeOf int_of]. assert (GetString (mkValue ty (Some (PStr (str_acc_ a)))) = Ok (str_acc_ a)) as E by (by rewrite Hty). rewrite Hty in E. rewrite E. cbn [mbind result_bind]. by rewrite add_string_ok. }
  destruct t eqn:Et; cbn [AggResultType]; try (by apply Hext); try (eexists _, _; split; [apply Hcast|]; split; [apply count_result|rewrite Hc, count_narrow by (match goal with |- 0 ≤ counted ?t _ < _ => pose proof (counted_length t vals) end; cbn in Hlim; lia); unfold counted; by case_bool_decide]).
  - rewrite Hzero by done. assert (int_kind (of_id LT_BIGINT)) as Hbig by (split; [done|apply (bool_decide_unpack _); vm_compute; done]). assert (match type_ ty with LT_TINYINT | LT_SMALLINT | LT_INTEGER | LT_BIGINT | LT_UTINYINT | LT_USMALLINT | LT_UINTEGER | LT_UBIGINT => of_id LT_BIGINT | _ => ty end = of_id LT_BIGINT) as ->.
    { specialize (Hids eq_refl). unfold int_ids in Hids. destruct (type_ ty); try done; exfalso; apply (bool_decide_pack _) in Hids; by vm_compute in Hids. }
    case_bool_decide; [eexists _, None; split; [done|]; split; [by apply output_null|done]|]. pose proof (summed_bound SumAggregate str (ctype_ ty) _ Hb) as Hsb. change (summed SumAggregate vals) with (zsum (numbers vals)) in *. rewrite Hsum, cast_double by (done || unfold in_width; cbn; unfold in_range; cbn; lia). eexists _, _. split; [done|]. split; [|done]. apply output_number; [done|]. unfold in_width; cbn; unfold in_range; cbn; lia.
  - rewrite Hzero by done. case_bool_decide as Hv; [eexists _, None; split; [done|]; split; [by apply output_null|done]|]. change (summed AvgAggregate vals) with (zsum (numbers vals)) in Hsum. rewrite Hsum, Hc, (counted_present AvgAggregate vals) by done. pose proof (counted_bound AvgAggregate str (ctype_ ty) _ Hb) as Hcb. rewrite (counted_present AvgAggregate vals) in Hcb by done. rewrite of_Z_small by (done || lia).
    eexists _, _. split; [done|]. split; [|done]. by apply output_some.
Qed.
End vector.
