(* ===== verification/AggregateTheorems.v ===== *)
(** * Aggregates are exact *)

From Stdlib Require Import Floats.SpecFloat.
From S2P Require Import Prelude TablePage TableHeap BTreePage BPlusTree GenericKey NumericText DateTime StringHeap ValidityMask SortKey VectorOps SortKeyOrder StreamOperator RowFormat RowScatter PRLHashTable HashInvariant VectorHash HashSystem HashJoin JoinProbe JoinExecute PipelineExecutor ResultCollector StreamOps LikeMatch VectorKernels ColumnReads ExpressionExecutor ExpressionEval ExpressionTheorems ExactFloat Aggregate AggregateState.

Section operator.
Context {casts : Casts}.
Context (to_string : Value → list byte) (lprec lemax : Z) (junk : byte) (junk_cell : cell).
Context (real_flat : PhysicalType → list cell → option (list Z) → nat → AggregateAccumulator → result AggregateAccumulator).
Context (other_cast : LogicalType → LogicalType → nat → Vector → result (Vector * bool)) (decimal_select : ComparisonType → Vector → Vector → option (list Z) → nat → result (list Z)).
Context (float_arith : ArithmeticType → PhysicalType → Z → Z → Z) (mixed : ArithmeticType → Vector * LogicalType → Vector * LogicalType → LogicalType → nat → result Vector).
Abbreviation Agg := (AggregationType * Expr)%type.
Context (aggregates : list Agg).
Abbreviation sink := (Aggregate_Sink to_string lprec lemax junk junk_cell real_flat other_cast decimal_select float_arith mixed aggregates).
Abbreviation combine := (Aggregate_Combine lprec lemax).

(** A task sinks its chunks into a local state; the local states are combined in the order in which the tasks finish. *)
Fixpoint sink_all (cs : list Chunk) (ls : list AggregateAccumulator) : result (list AggregateAccumulator) :=
  match cs with [] => Ok ls | c :: cs => '(_, ls) ← sink c ls; sink_all cs ls end.
Fixpoint aggregate_tasks (tasks : list (list Chunk)) (gs : list AggregateAccumulator) : result (list AggregateAccumulator) :=
  match tasks with [] => Ok gs | cs :: tasks => ls ← sink_all cs (new_accums aggregates); gs ← combine gs ls; aggregate_tasks tasks gs end.
Definition result_types : list LogicalType := (λ te : Agg, AggResultType te.1 (GetReturnType te.2)) <$> aggregates.

(** ** What is aggregated *)

(** Integers, dates and timestamps, and the extremes of strings. *)
Definition supported (types : list PhysicalType) (te : Agg) : Prop :=
  let ty := GetReturnType te.2 in operand_ok types te.2 ∧
  ((int_kind ty ∧ (IsSumLike te.1 = true → type_ ty ∈ int_ids)) ∨ (ty = of_id LT_STRING ∧ (IsExtremeAgg te.1 = true ∨ te.1 = CountStarAggregate))).
Definition values (te : Agg) (rows : list Row) : list (option cell) := value_of te.2 <$> rows.
(** A count fits an INTEGER, and the other numbers an aggregate goes through are integers that a double holds. *)
Definition fits_double (rows : list Row) (te : Agg) : Prop :=
  Z.of_nat (length rows) < row_limit te.1 ∧ (IsSumLike te.1 = true → mass (numbers (values te rows)) < 2 ^ 53) ∧ (IsExtremeAgg te.1 = true → Forall (λ z, Z.abs z < 2 ^ 53) (numbers (values te rows))).

Context (Hlp : 53 ≤ lprec) (Hle : lprec ≤ lemax) (types : list PhysicalType).
Definition is_str (te : Agg) : bool := bool_decide (ctype_ (GetReturnType te.2) = STRING).
Abbreviation atype te := (ctype_ (GetReturnType (te : Agg).2)).
Lemma supported_kind te : supported types te → agg_kind te.1 (is_str te) (GetReturnType te.2) ∧ (IsSumLike te.1 = true → type_ (GetReturnType te.2) ∈ int_ids).
Proof.
  intros (_ & [[Hk Hs]|[Hty Hx]]); unfold agg_kind, is_str.
  - split; [left|done]. split; [|done]. destruct (int_kind_int _ Hk) as [it Hi]. apply bool_decide_false. intros E. by rewrite E in Hi.
  - rewrite Hty. split; [by right|]. intros Hs. exfalso. destruct te as [t e]. cbn [fst] in *. destruct Hx as [Hx|Hx]; [|by rewrite Hx in Hs]. by destruct t.
Qed.
Definition valued (te : Agg) (rows : list Row) : Prop := Forall (elem_ok (atype te)) (values te rows).
Record acc_ok (rows : list Row) (te : Agg) (a : AggregateAccumulator) : Prop := {
  ac_folded : folded lprec te.1 (is_str te) (atype te) (values te rows) a;
  ac_valued : valued te rows }.
Lemma fits_bounded te rows : supported types te → valued te rows → fits_double rows te → bounded te.1 (is_str te) (atype te) (values te rows).
Proof.
  intros Hs Hv (H1 & H2 & H3). destruct (supported_kind te Hs) as [Hk _]. split; [unfold values; rewrite length_fmap; unfold row_limit in H1; case_match; lia| |done|intros Hx _; by apply H3].
  apply Forall_forall. intros c Hc. unfold present in Hc. apply list_elem_of_omap in Hc as (y & Hy & Ey). cbn in Ey. subst y. unfold valued in Hv. rewrite Forall_forall in Hv. specialize (Hv _ Hy). destruct Hk as [[Es Hk]|(Es & Hty & _)]; rewrite Es.
  - destruct (int_kind_int _ Hk) as [it Hi]. destruct (numeric_elem _ _ _ Hi Hv) as [?|(z & [= ->] & _)]; [done|]. split; [done|by eexists].
  - rewrite Hty in Hv. by destruct c as [z|s]; [destruct Hv|].
Qed.
Lemma values_app te rows rows' : values te (rows ++ rows') = values te rows ++ values te rows'.
Proof. apply fmap_app. Qed.
Lemma valued_app te rows rows' : valued te (rows ++ rows') ↔ valued te rows ∧ valued te rows'.
Proof. unfold valued. rewrite values_app. apply Forall_app. Qed.
Lemma fits_app te rows rows' : fits_double (rows ++ rows') te → fits_double rows te ∧ fits_double rows' te.
Proof.
  intros (H1 & H2 & H3). unfold fits_double. rewrite length_app in H1. rewrite values_app, numbers_app, mass_app in H2. rewrite values_app, numbers_app in H3. setoid_rewrite Forall_app in H3. pose proof (mass_bound (numbers (values te rows))). pose proof (mass_bound (numbers (values te rows'))).
  split; (split; [lia|]); split; try (intros Hs; specialize (H2 Hs); lia); intros Hx; by apply H3.
Qed.

(** ** Sinking and combining *)

Lemma update_all_ok aggs : Forall (supported types) aggs → ∀ c args accums rows, (0 < c.2)%nat → Z.of_nat c.2 ≤ STANDARD_VECTOR_SIZE →
  Forall2 (λ (te : Agg) (arg : Vector * LogicalType), arg.2 = GetReturnType te.2 ∧ column_reads c.2 arg.1 (atype te) (λ i, value_of te.2 (rows_of c.2 c.1 i))) aggs args →
  Forall2 (acc_ok rows) aggs accums → Forall (fits_double (rows ++ rows_in c)) aggs →
  ∃ accums', update_all to_string lprec lemax junk junk_cell real_flat args c.2 accums = Ok accums' ∧ Forall2 (acc_ok (rows ++ rows_in c)) aggs accums'.
Proof.
  induction 1 as [|te aggs Hs _ IH]; intros c args accums rows H0 Hstd Hargs Hacc Hfit; [apply Forall2_nil_inv_l in Hacc as ->; exists []; split; [by destruct args|done]|].
  apply Forall2_cons_inv_l in Hargs as ([v ty] & args' & [Hty Hv] & Hargs & ->). apply Forall2_cons_inv_l in Hacc as (a & accums' & [Hf Hval] & Hacc & ->). apply Forall_cons in Hfit as [Hfit1 Hfit]. cbn [fst snd] in *. subst ty. cbn [update_all].
  assert (values te (rows_in c) = (λ i, value_of te.2 (rows_of c.2 c.1 i)) <$> all_rows c.2) as Hnew by (unfold values; rewrite rows_in_all, <- list_fmap_compose; done).
  assert (valued te (rows_in c)) as Hvc.
  { unfold valued. rewrite Hnew. apply Forall_fmap, Forall_forall. intros i Hi%all_rows_elem. unfold compose. by apply (column_value _ _ _ _ _ Hv). }
  assert (valued te (rows ++ rows_in c)) as Hva by (by apply valued_app). pose proof (fits_bounded te _ Hs Hva Hfit1) as Hb. rewrite values_app, Hnew in Hb. destruct (supported_kind te Hs) as [Hk _].
  destruct (UpdateVector_ok to_string lprec lemax Hlp Hle junk junk_cell real_flat te.1 (is_str te) (GetReturnType te.2) Hk v _ c.2 (values te rows) a H0 Hstd Hv Hf Hb) as (a' & -> & Hf'). cbn [mbind result_bind].
  destruct (IH c args' accums' rows H0 Hstd Hargs Hacc Hfit) as (accums2 & -> & H2). eexists. split; [done|]. constructor; [|done]. split; [|done]. by rewrite values_app, Hnew.
Qed.
Lemma aggregate_sink_ok c accums rows : Forall (supported types) aggregates → evaluable types c → (0 < c.2)%nat → Forall2 (acc_ok rows) aggregates accums → Forall (fits_double (rows ++ rows_in c)) aggregates →
  ∃ accums', sink c accums = Ok (SINK_NEED_MORE_INPUT, accums') ∧ Forall2 (acc_ok (rows ++ rows_in c)) aggregates accums'.
Proof.
  intros Hs Hc H0 Hacc Hfit. destruct (roots_read junk junk_cell other_cast decimal_select float_arith mixed types aggregates.*2 c) as (args & Ea & Hargs); [apply Forall_fmap; eapply Forall_impl; [exact Hs|]; by intros te [? _]|done|done|].
  rewrite Forall2_fmap_l in Hargs. destruct Hc as [[Hstd _ _] _ _]. destruct (update_all_ok aggregates Hs c args accums rows H0 Hstd Hargs Hacc Hfit) as (accums' & Eu & H2). exists accums'. split; [|done]. unfold Aggregate_Sink. rewrite Ea. cbn [mbind result_bind]. by rewrite Eu.
Qed.
Lemma fits_all_app rows rows' : Forall (fits_double (rows ++ rows')) aggregates → Forall (fits_double rows) aggregates ∧ Forall (fits_double rows') aggregates.
Proof. intros H. split; (eapply Forall_impl; [exact H|]); intros te Hte; by apply fits_app in Hte as [? ?]. Qed.
Abbreviation good := (λ c : Chunk, (0 < c.2)%nat ∧ evaluable types c).
Definition chunk_list_rows (cs : list Chunk) : list Row := concat (rows_in <$> cs).
Lemma sink_all_ok cs : Forall (supported types) aggregates → Forall good cs → ∀ accums rows, Forall2 (acc_ok rows) aggregates accums → Forall (fits_double (rows ++ chunk_list_rows cs)) aggregates →
  ∃ accums', sink_all cs accums = Ok accums' ∧ Forall2 (acc_ok (rows ++ chunk_list_rows cs)) aggregates accums'.
Proof.
  intros Hs. induction 1 as [|c cs [H0 Hc] _ IH]; intros accums rows Hacc Hfit; [exists accums; by rewrite app_nil_r|]. unfold chunk_list_rows in *. cbn [fmap list_fmap concat] in *. rewrite app_assoc in *. destruct (fits_all_app _ _ Hfit) as [Hfit1 _].
  destruct (aggregate_sink_ok c accums rows Hs Hc H0 Hacc Hfit1) as (accums' & Es & Hacc'). cbn [sink_all]. rewrite Es. cbn [mbind result_bind]. by apply IH.
Qed.
Lemma new_ok : Forall2 (acc_ok []) aggregates (new_accums aggregates).
Proof. unfold new_accums. rewrite <- list_fmap_compose. apply Forall2_fmap_r, Forall_Forall2_diag, Forall_forall. intros te _. split; [apply new_folded|constructor]. Qed.
Lemma aggregate_combine_ok aggs : Forall (supported types) aggs → ∀ rows rows' gs ls, Forall2 (acc_ok rows) aggs gs → Forall2 (acc_ok rows') aggs ls → Forall (fits_double (rows ++ rows')) aggs → ∃ gs', combine gs ls = Ok gs' ∧ Forall2 (acc_ok (rows ++ rows')) aggs gs'.
Proof.
  induction 1 as [|te aggs Hs _ IH]; intros rows rows' gs ls Hg Hl Hfit; [apply Forall2_nil_inv_l in Hg as ->; by exists []|]. apply Forall2_cons_inv_l in Hg as (g & gs' & [Hf Hv] & Hg & ->). apply Forall2_cons_inv_l in Hl as (l & ls' & [Hf' Hv'] & Hl & ->). apply Forall_cons in Hfit as [Hfit1 Hfit].
  assert (valued te (rows ++ rows')) as Hva by (by apply valued_app). pose proof (fits_bounded te _ Hs Hva Hfit1) as Hb. rewrite values_app in Hb. destruct (supported_kind te Hs) as [Hk _]. cbn [Aggregate_Combine].
  destruct (acc_Merge_ok lprec lemax Hlp Hle te.1 (is_str te) (GetReturnType te.2) (values te rows) (values te rows') g l Hf Hf' Hb) as (g' & -> & Hf2). cbn [mbind result_bind]. destruct (IH rows rows' gs' ls' Hg Hl Hfit) as (gs2 & -> & H2). eexists. split; [done|]. constructor; [|done]. split; [by rewrite values_app|done].
Qed.
Lemma tasks_ok tasks : Forall (supported types) aggregates → Forall (Forall good) tasks → ∀ gs rows, Forall2 (acc_ok rows) aggregates gs → Forall (fits_double (rows ++ concat (chunk_list_rows <$> tasks))) aggregates →
  ∃ gs', aggregate_tasks tasks gs = Ok gs' ∧ Forall2 (acc_ok (rows ++ concat (chunk_list_rows <$> tasks))) aggregates gs'.
Proof.
  intros Hs. induction 1 as [|cs tasks Hcs _ IH]; intros gs rows Hg Hfit; [exists gs; by rewrite app_nil_r|]. cbn [fmap list_fmap concat] in *. rewrite app_assoc in *. destruct (fits_all_app _ _ Hfit) as [Hfit1 _]. destruct (fits_all_app _ _ Hfit1) as [_ Hfit2].
  destruct (sink_all_ok cs Hs Hcs (new_accums aggregates) [] new_ok Hfit2) as (ls & Es & Hl). destruct (aggregate_combine_ok aggregates Hs rows _ gs ls Hg Hl Hfit1) as (gs' & Ec & Hg'). cbn [aggregate_tasks]. rewrite Es. cbn [mbind result_bind]. rewrite Ec. cbn [mbind result_bind]. by apply IH.
Qed.
Lemma finalize_ok aggs : Forall (supported types) aggs → ∀ rows gs, Forall2 (acc_ok rows) aggs gs → Forall (fits_double rows) aggs →
  ∃ vs cols, finalize_columns to_string lprec lemax junk junk_cell gs ((λ te : Agg, AggResultType te.1 (GetReturnType te.2)) <$> aggs) = Ok vs ∧ chunk_Orrify 1 vs = Ok cols ∧ Forall2 (λ (te : Agg) col, agg_result lprec lemax te.1 (GetReturnType te.2) (values te rows) (col_value col 0)) aggs cols.
Proof.
  induction 1 as [|te aggs Hs _ IH]; intros rows gs Hg Hfit; [apply Forall2_nil_inv_l in Hg as ->; by exists [], []|]. apply Forall2_cons_inv_l in Hg as (g & gs' & [Hf Hv] & Hg & ->). apply Forall_cons in Hfit as [Hfit1 Hfit]. pose proof (fits_bounded te _ Hs Hv Hfit1) as Hb. destruct (supported_kind te Hs) as [Hk Hids].
  destruct (acc_Finalize_ok to_string lprec lemax Hlp Hle junk junk_cell te.1 (is_str te) (GetReturnType te.2) Hk (values te rows) g Hf Hb ltac:(unfold values; rewrite length_fmap; apply Hfit1) Hv Hids) as (v & x & Ef & (w & col & Eo & Ew & Hx & _) & Hres). destruct (IH rows gs' Hg Hfit) as (vs & cols & Evs & Ecs & H2).
  exists (w :: vs), (col :: cols). cbn [fmap list_fmap finalize_columns]. unfold finalize_column. rewrite Ef. cbn [mbind result_bind]. rewrite Eo. cbn [mbind result_bind]. rewrite Evs. split; [done|]. split; [cbn [chunk_Orrify]; rewrite Ew; cbn [mbind result_bind]; by rewrite Ecs|]. constructor; [by rewrite Hx|done].
Qed.

(** C20: Aggregates without GROUP BY are exact within the ranges the code supports.  However the chunks of the
    input are dealt to the tasks, whatever the encoding of their columns and in whatever order the tasks are
    combined, the aggregates succeed and give one row: COUNT the number of rows or of values that are not NULL, SUM
    their sum, AVG their quotient rounded to a double, MIN and MAX a value that none of them beats, and NULL where
    there is no value.  The ranges: fewer than 2 to the 31 rows under a COUNT, whose type is INTEGER ([counts_wrap]
    shows the count wrap there); COUNT(star) over any column, but COUNT, SUM and AVG of a column over integers only
    (COUNT of a VARCHAR column throws, [count_of_strings_throws]); MIN and MAX over integers, dates, timestamps and
    strings; and the magnitudes that are summed, and each number compared, below 2 to the 53 ([extremes_are_rounded],
    [sums_overflow] show what happens beyond). *)
Theorem ungrouped_aggregate_correct tasks : Forall (supported types) aggregates → Forall (Forall good) tasks → Forall (fits_double (concat (chunk_list_rows <$> tasks))) aggregates →
  ∃ gs vs row, aggregate_tasks tasks (new_accums aggregates) = Ok gs ∧ Aggregate_GetData to_string lprec lemax junk junk_cell result_types gs false = Ok ((vs, 1%nat), SOURCE_FINISHED, true) ∧
    rows_in (vs, 1%nat) = [row] ∧ Forall2 (λ te x, agg_result lprec lemax te.1 (GetReturnType te.2) (values te (concat (chunk_list_rows <$> tasks))) x) aggregates row.
Proof.
  intros Hs Ht Hfit. destruct (tasks_ok tasks Hs Ht (new_accums aggregates) [] new_ok Hfit) as (gs & Eg & Hg). cbn [app] in Hg. destruct (finalize_ok aggregates Hs _ gs Hg Hfit) as (vs & cols & Ev & Ec & H2). exists gs, vs, (chunk_row cols 0).
  split; [done|]. split; [unfold Aggregate_GetData, result_types; by rewrite Ev|]. split; [unfold rows_in, chunk_rows, rows_of; cbn [fst snd seq fmap list_fmap]; change (Z.of_nat 1) with 1; by rewrite Ec|]. unfold chunk_row. by apply Forall2_fmap_r.
Qed.
End operator.

Module AggregateDemo.
Import FilterDemo.
Abbreviation no_text := (λ _ : Value, @nil byte).
Definition no_real (ty : PhysicalType) (data : list cell) (validity : option (list Z)) (n : nat) (a : AggregateAccumulator) : result AggregateAccumulator := Ok a.
(** COUNT over all rows, and COUNT, SUM, AVG and MIN of the number, MAX of the text. *)
Definition aggs : list (AggregationType * Expr) :=
  [(CountStarAggregate, lit 1); (CountAggregate, ColumnValue 0 0 num); (SumAggregate, ColumnValue 0 0 num); (AvgAggregate, ColumnValue 0 0 num); (MinAggregate, ColumnValue 0 0 num); (MaxAggregate, ColumnValue 0 1 text)].
(** Two tasks with the chunk of [FilterDemo] each. *)
Definition tasks : list (list Chunk) := [[c]; [c]].
Lemma aggs_supported : Forall (supported [INTEGER; STRING]) aggs.
Proof.
  assert (int_kind num) as Hn by (split; [done|apply (bool_decide_unpack _); vm_compute; done]). assert (operand_ok [INTEGER; STRING] (ColumnValue 0 0 num)) as Hc by done. assert (type_ num ∈ int_ids) as Hi by (apply (bool_decide_unpack _); vm_compute; done).
  constructor; [split; [split; [done|]; split; [done|]; vm_compute; split; discriminate|by left]|]. repeat (constructor; [split; [done|by left]|]). constructor; [split; [done|]; right; split; [done|by left]|done].
Qed.
Lemma aggs_fit : Forall (fits_double (concat (chunk_list_rows <$> tasks))) aggs.
Proof. unfold fits_double. repeat constructor; try (vm_compute; done); intros _; vm_compute; repeat constructor. Qed.
Lemma tasks_good : Forall (Forall (λ c : Chunk, (0 < c.2)%nat ∧ evaluable [INTEGER; STRING] c)) tasks.
Proof. assert ((0 < c.2)%nat ∧ evaluable [INTEGER; STRING] c) as H by (split; [cbn; lia|exact ready]). apply Forall_cons. split; [apply Forall_singleton; exact H|apply Forall_singleton, Forall_singleton; exact H]. Qed.

(** ** Where the numbers do not fit *)

Definition big : LogicalType := of_id LT_BIGINT.
Definition ubig : LogicalType := of_id LT_UBIGINT.
Definition flat (l : list Z) : Vector := FLAT_VECTOR (CNum <$> l) None.
(** One aggregate over one column, finalized. *)
Definition run (t : AggregationType) (v : Vector) (ty : LogicalType) (n : nat) : result Value :=
  a ← UpdateVector no_text 64 16384 Byte.x00 (CNum 0) no_real v ty n (new_Accumulator t); acc_Finalize no_text 64 16384 a (AggResultType t ty).
(** MIN and MAX of a BIGINT go through a double: 2 to the 53 plus one is not found, and the greatest BIGINT does not convert back. *)
Lemma extremes_are_rounded : run MaxAggregate (flat [9007199254740993; 5]) big 2 = Ok (mkValue big (Some (PNum 9007199254740992))) ∧ run MaxAggregate (flat [9223372036854775807; 5]) big 2 = Err EUndefined.
Proof. split; vm_compute; reflexivity. Qed.
(** The sum of a flat chunk is an [int64_t]: a UBIGINT from 2 to the 63 on counts as negative, two large BIGINTs overflow. *)
Lemma sums_overflow : run SumAggregate (flat [9223372036854775808]) ubig 1 = Ok (mkValue big (Some (PNum (-9223372036854775808)))) ∧ run SumAggregate (flat [9223372036854775807; 1]) big 2 = Err EUndefined.
Proof. split; vm_compute; reflexivity. Qed.
(** COUNT of a string that is not NULL reads it as a number. *)
Lemma count_of_strings_throws : run CountAggregate (FLAT_VECTOR [CStr [Byte.x61]] None) text 1 = Err (EException MISMATCH_TYPE "cannot read as a number").
Proof. vm_compute. reflexivity. Qed.
(** A count is an INTEGER, and wraps. *)
Lemma counts_wrap : acc_Finalize no_text 64 16384 (with_count 2147483648 (new_Accumulator CountStarAggregate)) (AggResultType CountStarAggregate num) = Ok (mkValue num (Some (PNum (-2147483648)))).
Proof. vm_compute. reflexivity. Qed.
End AggregateDemo.
Lemma ungrouped_aggregate_correct_witness : ∃ gs vs x y,
  aggregate_tasks AggregateDemo.no_text 64 16384 Byte.x00 (CNum 0) AggregateDemo.no_real FilterDemo.no_cast FilterDemo.no_decimal FilterDemo.no_float FilterDemo.no_mixed AggregateDemo.aggs AggregateDemo.tasks (new_accums AggregateDemo.aggs) = Ok gs ∧
  Aggregate_GetData AggregateDemo.no_text 64 16384 Byte.x00 (CNum 0) (result_types AggregateDemo.aggs) gs false = Ok ((vs, 1%nat), SOURCE_FINISHED, true) ∧
  rows_in (vs, 1%nat) = [[Some (CNum 6); Some (CNum 4); Some (CNum 24); Some (CNum 0x4018000000000000); Some x; Some y]] ∧ extreme MinAggregate INTEGER [CNum 7; CNum 5; CNum 7; CNum 5] x.
Proof.
  destruct (ungrouped_aggregate_correct AggregateDemo.no_text 64 16384 Byte.x00 (CNum 0) AggregateDemo.no_real FilterDemo.no_cast FilterDemo.no_decimal FilterDemo.no_float FilterDemo.no_mixed AggregateDemo.aggs ltac:(lia) ltac:(lia) [INTEGER; STRING]
    AggregateDemo.tasks AggregateDemo.aggs_supported AggregateDemo.tasks_good AggregateDemo.aggs_fit) as (gs & vs & row & E & Eg & Er & H).
  repeat (apply Forall2_cons_inv_l in H as (?x & ?row & ?Hx & H & ->)). apply Forall2_nil_inv_l in H as ->. vm_compute in Hx, Hx0, Hx1, Hx2, Hx3, Hx4.
  destruct Hx3 as (c & -> & Hc), Hx4 as (d & -> & _). subst. exists gs, vs, c, d. split; [exact E|]. split; [exact Eg|]. split; [exact Er|]. exact Hc.
Defined.
