(* ===== verification/PipelineTheorems.v ===== *)
(** * Projection in a pipeline

    [PhysicalProjection] ([execution/operator/projection/physical_projection.h]) evaluates one expression per
    output column.  What a filter leaves of a chunk can be evaluated further, so the two compose. *)

From stdpp Require Import sorting.
From S2P Require Import Prelude TablePage TableHeap Watermark Transaction BTreePage BPlusTree GenericKey NumericText StringHeap ValidityMask SortKey VectorOps SortKeyOrder StreamOperator RowFormat RowScatter PRLHashTable HashInvariant HashAppend HashGroups VectorHash HashSystem HashTheorems HashJoin JoinProbe JoinExecute JoinTheorems PipelineExecutor ResultCollector StreamOps LikeMatch VectorKernels ColumnReads ExpressionExecutor ExpressionEval ExpressionTheorems.

Section projection.
Context {casts : Casts}.
Context (junk : byte) (junk_cell : cell) (other_cast : LogicalType → LogicalType → nat → Vector → result (Vector * bool)) (decimal_select : ComparisonType → Vector → Vector → option (list Z) → nat → result (list Z)).
Context (float_arith : ArithmeticType → PhysicalType → Z → Z → Z) (mixed : ArithmeticType → Vector * LogicalType → Vector * LogicalType → LogicalType → nat → result Vector).

(** ** What a filter leaves *)


(** ** One expression per column *)

End projection.

(** * Pipelines run queries *)

(** C21: A pipeline is a nest of loops.  The executor keeps one chunk per boundary between operators and a stack
    of the operators that still owe output, and walks up and down that stack.  Given enough turns it ends exactly
    as the recursive reading does: a chunk of the source goes into the first operator, every chunk that comes
    out goes on into the rest, and the operator is asked again while it owes output; an operator or sink that is
    done ends the task, an exception leaves it, cancellation is found between two source chunks, and the sink's
    [Combine] comes last. *)
Theorem pipeline_nested_loops {C K R : Type} (csize : C → nat) (empty : C) sink combine (get_data : R → result (C * SourceResultType * R)) source_batch set_batch dead poll fuel src ops (k : K) :
  csize empty = 0%nat → push_all csize empty sink get_data source_batch set_batch dead poll fuel 0 src false ops k ≠ Err EBlocked →
  ∃ N out, ends combine poll (push_all csize empty sink get_data source_batch set_batch dead poll fuel 0 src false ops k) out ∧
    ∀ n, (N ≤ n)%nat → Run csize empty sink combine get_data source_batch set_batch dead poll n (new_PipelineExecutor empty src ops k) = out.
Proof. intros He Hb. by apply Run_sim. Qed.

(** Two operators on lists of numbers: one gives a list back element by element, one drops the odd ones.  The sink takes three. *)
Module LoopDemo.
Abbreviation Nums := (list Z).
Definition one_by_one : @StreamOp Nums := mkOp nat (λ c i, Ok (match c !! i with Some x => [x] | None => [] end, if bool_decide (S i < length c)%nat then HAVE_MORE_OUTPUT else NEED_MORE_INPUT, if bool_decide (S i < length c)%nat then S i else 0%nat)).
Definition evens : @StreamOp Nums := mkOp unit (λ c _, Ok (filter (λ x, Z.even x = true) c, NEED_MORE_INPUT, tt)).
Definition ops : list (@OpInst Nums) := [mkInst one_by_one 0%nat; mkInst evens tt].
Definition sink (c : Nums) (k : Nums) : result (SinkResultType * Nums) := Ok (if bool_decide (3 ≤ length (k ++ c))%nat then SINK_FINISHED else SINK_NEED_MORE_INPUT, k ++ c).
Definition get_data (src : list Nums) : result (Nums * SourceResultType * list Nums) :=
  match src with [] => Ok ([], SOURCE_FINISHED, []) | c :: src => Ok (c, SOURCE_HAVE_MORE_OUTPUT, src) end.
End LoopDemo.
Lemma pipeline_nested_loops_witness : ∃ N s, (∀ n, (N ≤ n)%nat →
  Run length [] LoopDemo.sink Ok LoopDemo.get_data (λ _, 0) (λ _ k, k) false (λ _, GO) n (new_PipelineExecutor [] [[1; 2; 4]; []; [5]; [6; 8; 10]; [12]] LoopDemo.ops []) = Ok s) ∧ local_sink_state_ s = [2; 4; 6] ∧ local_source_state_ s = [[12]].
Proof.
  destruct (pipeline_nested_loops length [] LoopDemo.sink Ok LoopDemo.get_data (λ _, 0) (λ _ k, k) false (λ _, GO) 20 [[1; 2; 4]; []; [5]; [6; 8; 10]; [12]] LoopDemo.ops [] eq_refl) as (N & out & He & HN); [vm_compute; discriminate|].
  vm_compute in He. destruct He as (s & -> & _ & Hk & Hs & _). exists N, s. split; [exact HN|]. split; [exact Hk|exact Hs].
Defined.

(** ** A selection *)

Section selection.
Context {casts : Casts}.
Context (junk : byte) (junk_cell : cell) (other_cast : LogicalType → LogicalType → nat → Vector → result (Vector * bool)) (decimal_select : ComparisonType → Vector → Vector → option (list Z) → nat → result (list Z)).
Context (float_arith : ArithmeticType → PhysicalType → Z → Z → Z) (mixed : ArithmeticType → Vector * LogicalType → Vector * LogicalType → LogicalType → nat → result Vector).
Context (types : list PhysicalType) (pred : Expr) (expressions : list Expr).

End selection.

(** ** A query *)

Section query.
Context {casts : Casts}.
Context (hash32 hash64 : Z → Z) `{!StdHash hash32 hash64} (junk : byte) (junk_cell : cell) (op : PhysicalHashJoin) (layout : RowLayout) (JC : join_config op layout).
Context (other_cast : LogicalType → LogicalType → nat → Vector → result (Vector * bool)) (decimal_select : ComparisonType → Vector → Vector → option (list Z) → nat → result (list Z)).
Context (float_arith : ArithmeticType → PhysicalType → Z → Z → Z) (mixed : ArithmeticType → Vector * LogicalType → Vector * LogicalType → LogicalType → nat → result Vector).
Context (types : list PhysicalType) (pred : Expr) (keys : Chunk → list Vector) (key_of : Row → Row).

End query.

(** The join of [JoinDemo], over two batches for two tasks; the task of the later batch is done first. *)
Module QueryDemo.
Definition get_data (s : list (Z * Chunk) * Z) : result (Chunk * SourceResultType * (list (Z * Chunk) * Z)) :=
  match s with
  | ([], b) => Ok (no_chunk, SOURCE_FINISHED, ([], b))
  | ((b, c) :: l, _) => Ok (c, if bool_decide (l = []) then SOURCE_FINISHED else SOURCE_HAVE_MORE_OUTPUT, (l, b))
  end.
Abbreviation wanted := ([[Some (CNum 7); None; Some (CStr [Byte.x61; Byte.x62])]; [Some (CNum 7); None; Some (CStr [Byte.x63])]; [None; None; None];
  [Some (CNum 7); None; Some (CStr [Byte.x61; Byte.x62])]; [Some (CNum 7); None; Some (CStr [Byte.x63])]]).
End QueryDemo.

