(* ===== verification/Plan.v ===== *)
(** * Query plans ([execution/plans/]) and what they answer

    The nodes of a plan, and the answers of one over the contents of the tables.  A plan has several answers:
    scans and joins deliver their rows in any order, equal sort keys come out in any order, and a LIMIT keeps
    the rows that happen to come first.  A grouped aggregate and the statements that write are arguments: what
    they answer depends on the values of their expressions, or on the whole rows, of their input. *)

From stdpp Require Import sorting.
From S2P Require Import Prelude TablePage TableHeap BTreePage BPlusTree GenericKey NumericText StringHeap ValidityMask SortKey VectorOps SortKeyOrder StreamOperator RowFormat RowScatter HashInvariant VectorHash HashSystem HashJoin JoinProbe JoinExecute ResultCollector LikeMatch VectorKernels ColumnReads ExpressionExecutor ExpressionEval ExactFloat Aggregate.

(** ** Schemas and ORDER BY items ([catalog/schema.h], [binder/bound_order_by.h]) *)

Record Column := mkCol { col_name : string; col_type : LogicalType }.
Abbreviation Schema := (list Column).
Inductive OrderByType := OB_INVALID | OB_DEFAULT | ASC | DESC.
Inductive OrderByNullType := NULLS_DEFAULT | NULLS_FIRST | NULLS_LAST.
#[global] Instance OrderByType_eq_dec : EqDecision OrderByType.
Proof. solve_decision. Defined.
Abbreviation OrderBy := (OrderByType * OrderByNullType * Expr)%type.

(** ** Nodes *)

(** [build_live_columns_] is [None] in a join that was not annotated. *)
Inductive Plan :=
  | SeqScanPlanNode (output_schema_ : Schema) (table_oid_ : nat) (table_name_ : string) (filter_predicate_ : option Expr) (pruned_columns_ : list nat)
  | ValuesPlanNode (output_schema_ : Schema) (values_ : list (list Expr))
  | FilterPlanNode (output_schema_ : Schema) (predicate_ : Expr) (child : Plan)
  | ProjectionPlanNode (output_schema_ : Schema) (expressions_ : list Expr) (child : Plan)
  | NestedLoopJoinPlanNode (output_schema_ : Schema) (left right : Plan) (predicate_ : Expr) (join_type_ : JoinType)
  | HashJoinPlanNode (output_schema_ : Schema) (left right : Plan) (left_key_expressions_ right_key_expressions_ : list Expr) (join_type_ : JoinType) (null_aware_ : bool) (build_live_columns_ : option (list nat))
  | LimitPlanNode (output_schema_ : Schema) (child : Plan) (limit_ : nat)
  | SortPlanNode (output_schema_ : Schema) (child : Plan) (order_bys_ : list OrderBy)
  | TopNPlanNode (output_schema_ : Schema) (child : Plan) (order_bys_ : list OrderBy) (n_ : nat)
  | AggregationPlanNode (output_schema_ : Schema) (child : Plan) (group_bys_ aggregates_ : list Expr) (agg_types_ : list AggregationType)
  | InsertPlanNode (output_schema_ : Schema) (child : Plan) (table_oid_ : nat)
  | UpdatePlanNode (output_schema_ : Schema) (child : Plan) (table_oid_ : nat) (target_expressions_ : list Expr)
  | DeletePlanNode (output_schema_ : Schema) (child : Plan) (table_oid_ : nat).

Definition OutputSchema (p : Plan) : Schema :=
  match p with
  | SeqScanPlanNode s _ _ _ _ | ValuesPlanNode s _ | FilterPlanNode s _ _ | ProjectionPlanNode s _ _ | NestedLoopJoinPlanNode s _ _ _ _ | HashJoinPlanNode s _ _ _ _ _ _ _
  | LimitPlanNode s _ _ | SortPlanNode s _ _ | TopNPlanNode s _ _ _ | AggregationPlanNode s _ _ _ _ | InsertPlanNode s _ _ | UpdatePlanNode s _ _ _ | DeletePlanNode s _ _ => s
  end.
Abbreviation GetColumnCount p := (length (OutputSchema p)).
(** [plan->CloneWithChildren] with every child rewritten by [f], in their order. *)
Definition rewrite_children (f : Plan → result Plan) (p : Plan) : result Plan :=
  match p with
  | SeqScanPlanNode _ _ _ _ _ | ValuesPlanNode _ _ => Ok p
  | FilterPlanNode s e c => c ← f c; Ok (FilterPlanNode s e c)
  | ProjectionPlanNode s es c => c ← f c; Ok (ProjectionPlanNode s es c)
  | NestedLoopJoinPlanNode s l r e jt => l ← f l; r ← f r; Ok (NestedLoopJoinPlanNode s l r e jt)
  | HashJoinPlanNode s l r lk rk jt aware live => l ← f l; r ← f r; Ok (HashJoinPlanNode s l r lk rk jt aware live)
  | LimitPlanNode s c n => c ← f c; Ok (LimitPlanNode s c n)
  | SortPlanNode s c obs => c ← f c; Ok (SortPlanNode s c obs)
  | TopNPlanNode s c obs n => c ← f c; Ok (TopNPlanNode s c obs n)
  | AggregationPlanNode s c gs es ts => c ← f c; Ok (AggregationPlanNode s c gs es ts)
  | InsertPlanNode s c oid => c ← f c; Ok (InsertPlanNode s c oid)
  | UpdatePlanNode s c oid es => c ← f c; Ok (UpdatePlanNode s c oid es)
  | DeletePlanNode s c oid => c ← f c; Ok (DeletePlanNode s c oid)
  end.
(** A node with another output schema. *)
Definition with_schema (s : Schema) (p : Plan) : Plan :=
  match p with
  | SeqScanPlanNode _ oid name pred cols => SeqScanPlanNode s oid name pred cols
  | ValuesPlanNode _ vs => ValuesPlanNode s vs
  | FilterPlanNode _ e c => FilterPlanNode s e c
  | ProjectionPlanNode _ es c => ProjectionPlanNode s es c
  | NestedLoopJoinPlanNode _ l r e jt => NestedLoopJoinPlanNode s l r e jt
  | HashJoinPlanNode _ l r lk rk jt aware live => HashJoinPlanNode s l r lk rk jt aware live
  | LimitPlanNode _ c n => LimitPlanNode s c n
  | SortPlanNode _ c obs => SortPlanNode s c obs
  | TopNPlanNode _ c obs n => TopNPlanNode s c obs n
  | AggregationPlanNode _ c gs es ts => AggregationPlanNode s c gs es ts
  | InsertPlanNode _ c oid => InsertPlanNode s c oid
  | UpdatePlanNode _ c oid es => UpdatePlanNode s c oid es
  | DeletePlanNode _ c oid => DeletePlanNode s c oid
  end.

(** What a node that writes does with the rows of its child. *)
Inductive WriteOp := InsertInto (table_oid_ : nat) | UpdateIn (table_oid_ : nat) (target_expressions_ : list Expr) | DeleteFrom (table_oid_ : nat).

(** ** Column references *)

(** [CloneWithChildren] all the way down, with every column reference readdressed. *)
Fixpoint map_columns (f : nat → nat → nat * nat) (e : Expr) : Expr :=
  match e with
  | ColumnValue tuple col ty => let '(tuple, col) := f tuple col in ColumnValue tuple col ty
  | ConstantValue v ty => ConstantValue v ty
  | Arithmetic t l r ty => Arithmetic t (map_columns f l) (map_columns f r) ty
  | CastTo strict e ty => CastTo strict (map_columns f e) ty
  | StringCall t e => StringCall t (map_columns f e)
  | Comparison t l r => Comparison t (map_columns f l) (map_columns f r)
  | Logic t l r => Logic t (map_columns f l) (map_columns f r)
  | IsNull negated e => IsNull negated (map_columns f e)
  | Like negated s p => Like negated (map_columns f s) (map_columns f p)
  | In negated e elems => In negated (map_columns f e) (map_columns f <$> elems)
  end.
(** The references of an expression, in the order a walk over the children meets them. *)
Fixpoint column_refs (e : Expr) : list (nat * nat) :=
  match e with
  | ColumnValue tuple col _ => [(tuple, col)]
  | ConstantValue _ _ => []
  | Arithmetic _ l r _ | Comparison _ l r | Logic _ l r | Like _ l r => column_refs l ++ column_refs r
  | CastTo _ e _ | StringCall _ e | IsNull _ e => column_refs e
  | In _ e elems => column_refs e ++ mjoin (column_refs <$> elems)
  end.
(** [PhysicalNestedLoopJoin]: the predicate of a join, over the columns of both inputs in one chunk. *)
Definition RemapOntoCombined (left_cols : nat) : Expr → Expr := map_columns (λ tuple col, (0%nat, if bool_decide (tuple = 0%nat) then col else (left_cols + col)%nat)).

(** ** Hash join keys ([execution/physical_plan_generator.cpp]) *)

Definition NumericJoinKeyRank (t : PhysicalType) : Z :=
  match t with
  | TINYINT | UTINYINT => 1 | SMALLINT | USMALLINT => 2 | INTEGER | UINTEGER => 3 | BIGINT | UBIGINT => 4 | FLOAT => 5 | DOUBLE => 6 | _ => -1
  end.
Definition CoerceJoinKey (l r : Expr) : Expr * Expr :=
  let lt := GetReturnType l in let rt := GetReturnType r in
  if bool_decide (ctype_ lt = ctype_ rt) then (l, r) else
  let lr := NumericJoinKeyRank (ctype_ lt) in let rr := NumericJoinKeyRank (ctype_ rt) in
  if bool_decide (lr < 0) || bool_decide (rr < 0) then (l, r) else
  if bool_decide (lr < rr) then (CastTo false l rt, r) else (l, CastTo false r lt).
Definition CoerceJoinKeys (left_keys right_keys : list Expr) : list Expr * list Expr :=
  let pairs := zip_with CoerceJoinKey left_keys right_keys in (pairs.*1, pairs.*2).

(** ** Answers *)

Section meaning.
Context {casts : Casts}.
(** The vector of a condition holds 1 or 0; other expressions have their value. *)
Definition result_of (e : Expr) (row : Row) : option cell :=
  match e with
  | Comparison _ _ _ | Logic _ _ _ | IsNull _ _ | Like _ _ _ | In _ _ _ => Some (CNum (Z.b2z (passes3 e row)))
  | _ => value_of e row
  end.
Definition results_of (es : list Expr) (row : Row) : Row := (λ e, result_of e row) <$> es.
Definition order_type (o : OrderByType) : OrderType := if bool_decide (o = DESC) then DESCENDING else ASCENDING.
Definition sort_schema (obs : list OrderBy) : list (PhysicalType * OrderType) := (λ ob, (ctype_ (GetReturnType ob.2), order_type ob.1.1)) <$> obs.
Definition row_le (obs : list OrderBy) (a b : Row) : Prop := order_by (sort_schema obs) (results_of obs.*2 a) (results_of obs.*2 b) ≠ Gt.
(** A column the scan was told to leave out is NULL. *)
Definition mask (cols : list nat) (row : Row) : Row :=
  match cols with [] => row | _ => imap (λ c v, if bool_decide (c ∈ cols) then v else None) row end.
Definition passes_opt (pred : option Expr) (row : Row) : bool := match pred with Some e => passes3 e row | None => true end.
(** The rows of a nested loop join for one left row. *)
Definition nested_loop (jt : JoinType) (pred : Expr) (left_cols right_cols : nat) (rs : list Row) (l : Row) : list Row :=
  let pairs := (λ r, l ++ r) <$> filter (λ r, passes3 (RemapOntoCombined left_cols pred) (l ++ r) = true) rs in
  match jt, pairs with LEFT, [] => [l ++ replicate right_cols None] | _, _ => pairs end.
(** [CreateHashJoin]: LEFT, SEMI and ANTI joins build on the right, the others on the left. *)
Definition builds_right (jt : JoinType) : bool := match jt with LEFT | SEMI | ANTI => true | _ => false end.
Definition physical_types (s : Schema) : list PhysicalType := (λ c, ctype_ (col_type c)) <$> s.
Definition CreateHashJoin (ls rs : Schema) (lk rk : list Expr) (jt : JoinType) (aware : bool) (live : option (list nat)) : PhysicalHashJoin :=
  let build := physical_types (if builds_right jt then rs else ls) in
  let keys := if builds_right jt then rk else lk in
  mkJoin ((λ e, ctype_ (GetReturnType e)) <$> keys) build jt aware (default (seq 0 (length build)) live).
Definition keyed (keys : list Expr) (row : Row) : Keyed := (results_of keys row, row).
Definition hash_join (ls rs : Schema) (lk rk : list Expr) (jt : JoinType) (aware : bool) (live : option (list nat)) (lrows rrows : list Row) : list Row :=
  let '(lk, rk) := CoerceJoinKeys lk rk in
  let op := CreateHashJoin ls rs lk rk jt aware live in
  let '(bk, build, pk, probe) := if builds_right jt then (rk, rrows, lk, lrows) else (lk, lrows, rk, rrows) in
  row ← probe; joined op (keyed bk <$> build) (results_of pk row) row.

Section answers.
(** The rows of a table; what an aggregate over [n] grouping columns answers for the values of the groups and
    the arguments, and a write for the rows it was given. *)
Context (table : nat → list Row) (aggregate : nat → list AggregationType → list (Row * Row) → list Row → Prop) (write : WriteOp → list Row → list Row → Prop).

Fixpoint answers (p : Plan) (rows : list Row) : Prop :=
  match p with
  | SeqScanPlanNode _ oid _ pred cols => rows ≡ₚ filter (λ r, passes_opt pred r = true) (mask cols <$> table oid)
  | ValuesPlanNode _ vs => rows = (λ es, results_of es []) <$> vs
  | FilterPlanNode _ pred c => ∃ r, answers c r ∧ rows = filter (λ r, passes3 pred r = true) r
  | ProjectionPlanNode _ es c => ∃ r, answers c r ∧ rows = results_of es <$> r
  | NestedLoopJoinPlanNode s l r pred jt => ∃ ls rs, answers l ls ∧ answers r rs ∧
      rows ≡ₚ (ls ≫= nested_loop jt pred (GetColumnCount l) (length s - GetColumnCount l) rs)
  | HashJoinPlanNode _ l r lk rk jt aware live => ∃ ls rs, answers l ls ∧ answers r rs ∧
      rows ≡ₚ hash_join (OutputSchema l) (OutputSchema r) lk rk jt aware live ls rs
  | LimitPlanNode _ c n => ∃ r, answers c r ∧ rows = take n r
  | SortPlanNode _ c obs => ∃ r, answers c r ∧ rows ≡ₚ r ∧ StronglySorted (row_le obs) rows
  | TopNPlanNode _ c obs n => ∃ r sorted, answers c r ∧ sorted ≡ₚ r ∧ StronglySorted (row_le obs) sorted ∧ rows = take n sorted
  | AggregationPlanNode _ c gs es ts => ∃ r, answers c r ∧ aggregate (length gs) ts ((λ row, (results_of gs row, results_of es row)) <$> r) rows
  | InsertPlanNode _ c oid => ∃ r, answers c r ∧ write (InsertInto oid) r rows
  | UpdatePlanNode _ c oid es => ∃ r, answers c r ∧ write (UpdateIn oid es) r rows
  | DeletePlanNode _ c oid => ∃ r, answers c r ∧ write (DeleteFrom oid) r rows
  end.
End answers.
End meaning.
