(* ===== verification/Optimizer.v ===== *)
(** * The optimizer ([optimizer/])

    The structural rules: merging projections, folding filters into joins and scans, pushing conjuncts below
    joins, equi-joins as hash joins, a sort under a limit as a top-N, and column pruning. *)

From S2P Require Import Prelude TablePage TableHeap BTreePage BPlusTree GenericKey NumericText StringHeap ValidityMask SortKey VectorOps SortKeyOrder StreamOperator RowFormat RowScatter HashInvariant VectorHash HashSystem HashJoin JoinProbe JoinExecute ResultCollector LikeMatch VectorKernels ColumnReads ExpressionExecutor ExpressionEval ExactFloat Aggregate Plan.

(** ** Identity projections ([merge_projection.cpp]) *)

Definition same_types (a b : Schema) : bool := bool_decide (col_type <$> a = col_type <$> b).
Fixpoint identity_from (idx : nat) (exprs : list Expr) : bool :=
  match exprs with
  | [] => true
  | ColumnValue 0 col _ :: exprs => bool_decide (col = idx) && identity_from (S idx) exprs
  | _ => false
  end.
Fixpoint OptimizeMergeProjection (plan : Plan) : result Plan :=
  optimized_plan ← rewrite_children OptimizeMergeProjection plan;
  match optimized_plan with
  | ProjectionPlanNode schema exprs child =>
      if negb (same_types (OutputSchema child) schema) then Ok optimized_plan else
      if negb (identity_from 0 exprs) then Ok optimized_plan else Ok (with_schema schema child)
  | _ => Ok optimized_plan
  end.

(** ** Filters over joins ([merge_filter_nlj.cpp]) *)

Fixpoint traverse_columns (f : nat → nat → result (nat * nat)) (e : Expr) : result Expr :=
  match e with
  | ColumnValue tuple col ty => '(tuple, col) ← f tuple col; Ok (ColumnValue tuple col ty)
  | ConstantValue v ty => Ok (ConstantValue v ty)
  | Arithmetic t l r ty => l ← traverse_columns f l; r ← traverse_columns f r; Ok (Arithmetic t l r ty)
  | CastTo strict e ty => e ← traverse_columns f e; Ok (CastTo strict e ty)
  | StringCall t e => e ← traverse_columns f e; Ok (StringCall t e)
  | Comparison t l r => l ← traverse_columns f l; r ← traverse_columns f r; Ok (Comparison t l r)
  | Logic t l r => l ← traverse_columns f l; r ← traverse_columns f r; Ok (Logic t l r)
  | IsNull negated e => e ← traverse_columns f e; Ok (IsNull negated e)
  | Like negated s p => s ← traverse_columns f s; p ← traverse_columns f p; Ok (Like negated s p)
  | In negated e elems => e ← traverse_columns f e; elems ← mapM (traverse_columns f) elems; Ok (In negated e elems)
  end.
Definition RewriteExpressionForJoin (expr : Expr) (left_column_cnt right_column_cnt : nat) : result Expr :=
  traverse_columns (λ tuple col,
    if negb (bool_decide (tuple = 0%nat)) then Err EAbort else
    if bool_decide (col < left_column_cnt)%nat then Ok (0%nat, col) else
    if bool_decide (col < left_column_cnt + right_column_cnt)%nat then Ok (1%nat, (col - left_column_cnt)%nat) else
    Err (EException INVALID "column index is past the end of the join's inputs")) expr.
(** The [Value] of a literal. *)
Definition literal (c : cell) (ty : LogicalType) : Value :=
  mkValue ty (Some match c with CStr s => PStr s | CNum z => match ctype_ ty with FLOAT => PReal (float32 z) | DOUBLE => PReal (float64 z) | _ => PNum z end end).
Definition IsPredicateTrue (expr : Expr) : result bool :=
  match expr with
  | ConstantValue (Some c) ty => v ← CastAs (λ _, []) (literal c ty) BOOLEAN; z ← GetAs_int I8 v; Ok (negb (bool_decide (z = 0)))
  | _ => Ok false
  end.
Fixpoint OptimizeMergeFilterNLJ (plan : Plan) : result Plan :=
  optimized_plan ← rewrite_children OptimizeMergeFilterNLJ plan;
  match optimized_plan with
  | FilterPlanNode schema predicate (NestedLoopJoinPlanNode _ l r nlj_predicate join_type) =>
      rewritten ← RewriteExpressionForJoin predicate (GetColumnCount l) (GetColumnCount r);
      always ← IsPredicateTrue nlj_predicate;
      if (always : bool) then Ok (NestedLoopJoinPlanNode schema l r rewritten join_type) else
      if bool_decide (join_type = INNER) then Ok (NestedLoopJoinPlanNode schema l r (Logic And nlj_predicate rewritten) join_type) else
      Ok optimized_plan
  | _ => Ok optimized_plan
  end.

(** ** Pushing conjuncts down ([filter_push_down.cpp]) *)

Inductive Side := NEITHER | LEFT_SIDE | RIGHT_SIDE | BOTH.
#[global] Instance Side_eq_dec : EqDecision Side.
Proof. solve_decision. Defined.
Definition CombineSides (a b : Side) : Side :=
  if bool_decide (a = NEITHER) then b else if bool_decide (b = NEITHER) then a else if bool_decide (a = b) then a else BOTH.
(** The references are combined in the order of the walk. *)
Definition SideOf (expr : Expr) (left_width : nat) : Side :=
  foldl CombineSides NEITHER ((λ ref, if bool_decide (ref.2 < left_width)%nat then LEFT_SIDE else RIGHT_SIDE) <$> column_refs expr).
Fixpoint SplitConjuncts (expr : Expr) : list Expr :=
  match expr with Logic And l r => SplitConjuncts l ++ SplitConjuncts r | _ => [expr] end.
Definition TRUE : Expr := ConstantValue (Some (CNum 1)) BOOLEAN.
Definition Conjoin (conjuncts : list Expr) : Expr :=
  match conjuncts with [] => TRUE | e :: conjuncts => foldl (Logic And) e conjuncts end.
Definition FlattenJoinPredicate (expr : Expr) (left_width : nat) : Expr :=
  map_columns (λ tuple col, (0%nat, if bool_decide (tuple = 0%nat) then col else (left_width + col)%nat)) expr.
Definition RebaseRightToChild (expr : Expr) (left_width : nat) : Expr := map_columns (λ _ col, (0%nat, (col - left_width)%nat)) expr.
(** The conjuncts of each side, and those that stay at the join. *)
Fixpoint distribute (left_width : nat) (conjuncts : list Expr) : list Expr * list Expr * list Expr :=
  match conjuncts with
  | [] => ([], [], [])
  | conjunct :: conjuncts =>
      let '(ls, rs, js) := distribute left_width conjuncts in
      match SideOf conjunct left_width with
      | LEFT_SIDE => (conjunct :: ls, rs, js)
      | RIGHT_SIDE => (ls, RebaseRightToChild conjunct left_width :: rs, js)
      | NEITHER | BOTH => (ls, rs, conjunct :: js)
      end
  end.
(** [FilterPushDownInto]; [OptimizeFilterPushDown] is the push of no conjuncts. *)
Fixpoint FilterPushDownInto (node : Plan) (pending : list Expr) : result Plan :=
  let re_apply optimized := if bool_decide (pending = []) then Ok optimized else Ok (FilterPlanNode (OutputSchema optimized) (Conjoin pending) optimized) in
  match node with
  | NestedLoopJoinPlanNode schema l r predicate INNER =>
      let left_width := GetColumnCount l in let right_width := GetColumnCount r in
      always ← IsPredicateTrue predicate;
      let conjuncts := pending ++ if (always : bool) then [] else SplitConjuncts (FlattenJoinPredicate predicate left_width) in
      let '(left_conjuncts, right_conjuncts, join_conjuncts) := distribute left_width conjuncts in
      l ← FilterPushDownInto l left_conjuncts;
      r ← FilterPushDownInto r right_conjuncts;
      predicate ← RewriteExpressionForJoin (Conjoin join_conjuncts) left_width right_width;
      Ok (NestedLoopJoinPlanNode schema l r predicate INNER)
  | _ => optimized ← rewrite_children (λ child, FilterPushDownInto child []) node; re_apply optimized
  end.
Definition OptimizeFilterPushDown (plan : Plan) : result Plan := FilterPushDownInto plan [].

(** ** Equi-joins ([nlj_as_hash_join.cpp]) *)

Fixpoint HasOrPredicate (expr : Expr) : bool :=
  match expr with
  | Logic Or _ _ => true
  | ColumnValue _ _ _ | ConstantValue _ _ => false
  | Arithmetic _ l r _ | Comparison _ l r | Logic And l r | Like _ l r => HasOrPredicate l || HasOrPredicate r
  | CastTo _ e _ | StringCall _ e | IsNull _ e => HasOrPredicate e
  | In _ e elems => HasOrPredicate e || existsb HasOrPredicate elems
  end.
(** The keys found, and whether the predicate is nothing but keys; an OR trips an assertion. *)
Fixpoint ExtractKeys (predicate : Expr) : result (list Expr * list Expr * bool) :=
  match predicate with
  | Logic And l r => '(ll, lr, lb) ← ExtractKeys l; '(rl, rr, rb) ← ExtractKeys r; Ok (ll ++ rl, lr ++ rr, lb && rb)
  | Logic Or _ _ => Err (EAssert "OR in a join predicate reached ExtractKeys")
  | Comparison Equal (ColumnValue lt _ _ as l) (ColumnValue rt _ _ as r) =>
      if bool_decide (lt = rt) then Ok ([], [], false) else
      if bool_decide (lt = 0%nat) then Ok ([l], [r], true) else Ok ([r], [l], true)
  | _ => Ok ([], [], false)
  end.
Fixpoint OptimizeNLJAsHashJoin (plan : Plan) : result Plan :=
  optimized_plan ← rewrite_children OptimizeNLJAsHashJoin plan;
  match optimized_plan with
  | NestedLoopJoinPlanNode schema l r predicate join_type =>
      if HasOrPredicate predicate then Ok optimized_plan else
      '(left_keys, right_keys, keys_only) ← ExtractKeys predicate;
      if negb keys_only || bool_decide (left_keys = []) then Ok optimized_plan else
      Ok (HashJoinPlanNode schema l r left_keys right_keys join_type false None)
  | _ => Ok optimized_plan
  end.

(** ** Filters ([eliminate_true_filter.cpp], [merge_filter_scan.cpp]) *)

Fixpoint OptimizeEliminateTrueFilter (plan : Plan) : result Plan :=
  optimized_plan ← rewrite_children OptimizeEliminateTrueFilter plan;
  match optimized_plan with
  | FilterPlanNode _ predicate child => always ← IsPredicateTrue predicate; Ok (if (always : bool) then child else optimized_plan)
  | _ => Ok optimized_plan
  end.
Fixpoint OptimizeMergeFilterScan (plan : Plan) : result Plan :=
  optimized_plan ← rewrite_children OptimizeMergeFilterScan plan;
  match optimized_plan with
  | FilterPlanNode schema predicate (SeqScanPlanNode _ oid name None _) => Ok (SeqScanPlanNode schema oid name (Some predicate) [])
  | _ => Ok optimized_plan
  end.

(** ** Sort under limit ([sort_limit_as_topn.cpp]) *)

Fixpoint OptimizeSortLimitAsTopN (plan : Plan) : result Plan :=
  optimized_plan ← rewrite_children OptimizeSortLimitAsTopN plan;
  match optimized_plan with
  | LimitPlanNode schema (SortPlanNode _ child order_bys) limit => Ok (TopNPlanNode schema child order_bys limit)
  | _ => Ok optimized_plan
  end.

(** ** Column pruning ([column_pruning.cpp]) *)

(** A [std::set] of indices is the ascending list of them. *)
Fixpoint set_insert (x : nat) (l : list nat) : list nat :=
  match l with [] => [x] | y :: l' => if bool_decide (x < y)%nat then x :: l else if bool_decide (x = y) then l else y :: set_insert x l' end.
Definition CollectColumnRefs (expr : Expr) (tuple_idx : nat) (out : list nat) : list nat :=
  foldl (λ out ref, if bool_decide (ref.1 = tuple_idx) then set_insert ref.2 out else out) out (column_refs expr).
Definition collect_all (exprs : list Expr) (tuple_idx : nat) (out : list nat) : list nat := foldl (λ out e, CollectColumnRefs e tuple_idx out) out exprs.
Definition AllColumnsOf (node : Plan) : list nat := seq 0 (GetColumnCount node).
Definition SplitRequirementAtSeam (required : list nat) (left_count : nat) : list nat * list nat :=
  (filter (λ i, i < left_count)%nat required, (λ i, i - left_count)%nat <$> filter (λ i, ¬ (i < left_count)%nat) required).
(** The keys of a side, written against either tuple. *)
Definition collect_keys (keys : list Expr) (out : list nat) : list nat := foldl (λ out k, CollectColumnRefs k 1 (CollectColumnRefs k 0 out)) out keys.
(** The expressions some ancestor reads. *)
Definition read_exprs (required : list nat) (exprs : list Expr) : list Expr := (filter (λ ie, ie.1 ∈ required) (imap pair exprs)).*2.
Fixpoint PruneColumns (plan : Plan) (required : list nat) : Plan :=
  match plan with
  | SeqScanPlanNode s oid name pred _ =>
      let required := match pred with Some e => CollectColumnRefs e 0 required | None => required end in
      if bool_decide (length s ≤ length required)%nat then plan else
      SeqScanPlanNode s oid name pred (if bool_decide (required = []) then [0%nat] else required)
  | ProjectionPlanNode s exprs c => ProjectionPlanNode s exprs (PruneColumns c (collect_all (read_exprs required exprs) 0 []))
  | FilterPlanNode s pred c => FilterPlanNode s pred (PruneColumns c (CollectColumnRefs pred 0 required))
  | LimitPlanNode s c n => LimitPlanNode s (PruneColumns c required) n
  | SortPlanNode s c obs => SortPlanNode s (PruneColumns c (collect_all obs.*2 0 required)) obs
  | TopNPlanNode s c obs n => TopNPlanNode s (PruneColumns c (collect_all obs.*2 0 required)) obs n
  | AggregationPlanNode s c gs es ts => AggregationPlanNode s (PruneColumns c (collect_all es 0 (collect_all gs 0 []))) gs es ts
  | HashJoinPlanNode s l r lk rk jt aware _ =>
      let '(left_req, right_req) := SplitRequirementAtSeam required (GetColumnCount l) in
      let build_is_left := negb (bool_decide (jt = LEFT) || bool_decide (jt = SEMI) || bool_decide (jt = ANTI)) in
      let build_live := if negb (bool_decide (jt = SEMI)) && negb (bool_decide (jt = ANTI)) then if build_is_left then left_req else right_req else [] in
      HashJoinPlanNode s (PruneColumns l (collect_keys lk left_req)) (PruneColumns r (collect_keys rk right_req)) lk rk jt aware (Some build_live)
  | NestedLoopJoinPlanNode s l r pred jt =>
      let '(left_req, right_req) := SplitRequirementAtSeam required (GetColumnCount l) in
      NestedLoopJoinPlanNode s (PruneColumns l (CollectColumnRefs pred 0 left_req)) (PruneColumns r (CollectColumnRefs pred 1 right_req)) pred jt
  | ValuesPlanNode _ _ => plan
  | InsertPlanNode s c oid => InsertPlanNode s (PruneColumns c (AllColumnsOf c)) oid
  | UpdatePlanNode s c oid es => UpdatePlanNode s (PruneColumns c (AllColumnsOf c)) oid es
  | DeletePlanNode s c oid => DeletePlanNode s (PruneColumns c (AllColumnsOf c)) oid
  end.
Definition OptimizeColumnPruning (plan : Plan) : Plan := PruneColumns plan (AllColumnsOf plan).
