(* ===== verification/JoinOrder.v ===== *)
(** * Join ordering ([optimizer/join_order/])

    The cost-based search over the inner joins under a filter: the graph of relations and predicates, the
    greedy search, and the tree of joins it is turned into.  A cardinality is a [double], here a SpecFloat
    number of binary64; the row count of a table's storage is an argument. *)

From Stdlib Require Import Floats.SpecFloat.
From S2P Require Import Prelude TablePage TableHeap BTreePage BPlusTree GenericKey NumericText StringHeap ValidityMask SortKey VectorOps SortKeyOrder StreamOperator RowFormat RowScatter HashInvariant VectorHash HashSystem HashJoin JoinProbe JoinExecute ResultCollector LikeMatch VectorKernels ColumnReads ExpressionExecutor ExpressionEval ExactFloat Aggregate Plan Optimizer.

(** ** Numbers of type [double] *)

Definition dmul : spec_float → spec_float → spec_float := SFmul 53 1024.
Definition dadd : spec_float → spec_float → spec_float := SFadd 53 1024.
Definition ddiv : spec_float → spec_float → spec_float := SFdiv 53 1024.
Definition double_of (z : Z) : spec_float := float_of_Z 53 1024 z.
Definition DOUBLE_MAX : spec_float := S754_finite false 9007199254740991 971.
(** The double nearest to 0.1. *)
Definition RESIDUAL_SELECTIVITY : spec_float := S754_finite false 7205759403792794 (-56).
Definition dmin (a b : spec_float) : spec_float := if SFltb b a then b else a.
Definition dmax (a b : spec_float) : spec_float := if SFltb a b then b else a.

(** ** Sets of relations ([join_graph.h]) *)

Definition MAX_REORDER_RELATIONS : nat := 12.
Definition Singleton (id : nat) : Z := Z.shiftl 1 (Z.of_nat id).
Definition rs_Union (a b : Z) : Z := Z.lor a b.
Definition Intersects (a b : Z) : bool := negb (bool_decide (Z.land a b = 0)).
Definition IsSubsetOf (a b : Z) : bool := bool_decide (Z.land a (Z.lnot b) = 0).
Definition rs_Contains (a : Z) (id : nat) : bool := negb (bool_decide (Z.land a (Singleton id) = 0)).
Definition rs_Count (a : Z) : nat := length (filter (λ id, Z.testbit a (Z.of_nat id) = true) (seq 0 64)).

Record JoinRelation := mkRelation { id_ : nat; cardinality_ : spec_float; plan_ : Plan; base_col_offset_ : nat; col_count_ : nat }.
Record JoinEdge := mkEdge { relations_of : Z; edge_predicate_ : Expr; is_equi_ : bool; ndv_ : spec_float }.
Definition Crosses (a b : Z) (e : JoinEdge) : bool := IsSubsetOf (relations_of e) (rs_Union a b) && Intersects (relations_of e) a && Intersects (relations_of e) b.
Record JoinGraph := mkGraph { graph_relations : list JoinRelation; edges_ : list JoinEdge }.
Definition EdgesCrossing (graph : JoinGraph) (a b : Z) : list JoinEdge := filter (λ e, Crosses a b e = true) (edges_ graph).

(** ** The estimate and the search ([cardinality_estimator.h], [greedy_join_order.cpp]) *)

Definition EstimateJoin (l r : spec_float) (crossing : list JoinEdge) : spec_float :=
  if bool_decide (crossing = []) then dmul l r else
  let one := double_of 1 in
  let selectivity := foldl (λ sel edge,
    if negb (is_equi_ edge) then dmul sel RESIDUAL_SELECTIVITY else
    if SFltb (double_of 0) (ndv_ edge) then dmul sel (ddiv one (ndv_ edge)) else
    let denom := dmin l r in dmul sel (if SFltb (double_of 0) denom then ddiv one denom else one)) one crossing in
  dmax one (dmul (dmul l r) selectivity).

Inductive JoinTree :=
  | TLeaf (relations_ : Z) (cardinality_ : spec_float) (leaf_id_ : nat)
  | TJoin (relations_ : Z) (cardinality_ : spec_float) (left_ right_ : JoinTree).
Definition tree_relations (t : JoinTree) : Z := match t with TLeaf s _ _ | TJoin s _ _ _ => s end.
Definition tree_card (t : JoinTree) : spec_float := match t with TLeaf _ c _ | TJoin _ c _ _ => c end.

(** The pair whose join is estimated smallest, the first of them, with its estimate. *)
Definition best_pair (graph : JoinGraph) (subtrees : list JoinTree) : nat * nat * spec_float :=
  let n := length subtrees in
  foldl (λ best ij, let '(bi, bj, bc) := best in
    match subtrees !! ij.1, subtrees !! ij.2 with
    | Some ti, Some tj =>
        let card := EstimateJoin (tree_card ti) (tree_card tj) (EdgesCrossing graph (tree_relations ti) (tree_relations tj)) in
        if SFltb card bc then (ij.1, ij.2, card) else best
    | _, _ => best
    end) (0%nat, 1%nat, DOUBLE_MAX) (i ← seq 0 n; j ← seq (S i) (n - S i); [(i, j)]).
Fixpoint fuse (graph : JoinGraph) (fuel : nat) (subtrees : list JoinTree) : result (option JoinTree) :=
  match fuel, subtrees with
  | _, [] => Ok None
  | _, [t] => Ok (Some t)
  | O, _ => Err EBlocked
  | S fuel, _ =>
      let '(bi, bj, best_card) := best_pair graph subtrees in
      match subtrees !! bi, subtrees !! bj with
      | Some ti, Some tj =>
          fuse graph fuel (delete bi (delete bj subtrees) ++ [TJoin (rs_Union (tree_relations ti) (tree_relations tj)) best_card ti tj])
      | _, _ => Err EUndefined
      end
  end.
(** [GreedyJoinOrder::Order]. *)
Definition Order (graph : JoinGraph) : result (option JoinTree) :=
  fuse graph (length (graph_relations graph)) ((λ r, TLeaf (Singleton (id_ r)) (cardinality_ r) (id_ r)) <$> graph_relations graph).

(** ** The region under a filter ([join_order_optimizer.cpp]) *)

Fixpoint FlattenConjuncts (expr : Expr) : list Expr :=
  match expr with Logic And l r => FlattenConjuncts l ++ FlattenConjuncts r | _ => [expr] end.
Definition CollectFlatColumns (expr : Expr) : option (list nat) :=
  if forallb (λ ref, bool_decide (ref.1 = 0%nat)) (column_refs expr) then Some (column_refs expr).*2 else None.
Definition Reindex (expr : Expr) (remap : nat → result (nat * nat)) : result Expr := traverse_columns (λ _ col, remap col) expr.
Definition ConjoinAll (preds : list Expr) : option Expr := match preds with [] => None | e :: preds => Some (foldl (Logic And) e preds) end.
(** The two key columns of an equality between columns. *)
Definition IsEquiEdge (pred : Expr) : option (nat * nat) :=
  match pred with Comparison Equal (ColumnValue _ a _) (ColumnValue _ b _) => Some (a, b) | _ => None end.
Fixpoint SumInternalCardinalities (t : JoinTree) : spec_float :=
  match t with TLeaf _ _ _ => double_of 0 | TJoin _ c l r => dadd (dadd c (SumInternalCardinalities l)) (SumInternalCardinalities r) end.
Fixpoint left_deep (graph : JoinGraph) (k : nat) (relations : list JoinRelation) (acc : Z) (acc_card total : spec_float) : spec_float :=
  match relations with
  | [] => total
  | r :: relations =>
      let leaf := Singleton k in
      let card := EstimateJoin acc_card (cardinality_ r) (EdgesCrossing graph acc leaf) in
      left_deep graph (S k) relations (rs_Union acc leaf) card (dadd total card)
  end.
Definition LeftDeepCost (graph : JoinGraph) : spec_float :=
  match graph_relations graph with r :: s :: rest => left_deep graph 1 (s :: rest) (Singleton 0) (cardinality_ r) (double_of 0) | _ => double_of 0 end.

Definition owns (flat_col : nat) (rel : JoinRelation) : bool := bool_decide (base_col_offset_ rel ≤ flat_col < base_col_offset_ rel + col_count_ rel)%nat.
Fixpoint LocalPosition (leaf_order : list nat) (relations : list JoinRelation) (flat_col pos : nat) : result nat :=
  match leaf_order with
  | [] => Err (EAssert "flat column not found in emitted subtree")
  | id :: leaf_order =>
      match relations !! id with
      | None => Err EUndefined
      | Some rel => if owns flat_col rel then Ok (pos + (flat_col - base_col_offset_ rel))%nat else LocalPosition leaf_order relations flat_col (pos + col_count_ rel)
      end
  end.
Fixpoint OwnerLeaf (relations : list JoinRelation) (flat_col : nat) : result nat :=
  match relations with
  | [] => Err (EAssert "flat column has no owning relation")
  | rel :: relations => if owns flat_col rel then Ok (id_ rel) else OwnerLeaf relations flat_col
  end.

Record PendingEdge := mkPending { refs_ : Z; pred_ : Expr; keys_ : option (nat * nat) }.
Fixpoint CollectRegionLeaves (n : Plan) : result (list Plan) :=
  match n with
  | NestedLoopJoinPlanNode _ l r predicate INNER =>
      always ← IsPredicateTrue predicate;
      if (always : bool) then ls ← CollectRegionLeaves l; rs ← CollectRegionLeaves r; Ok (ls ++ rs) else Ok [n]
  | _ => Ok [n]
  end.

(** The conjuncts of one relation at most, per relation, and the others as edges; nothing when a reference is not flat. *)
Fixpoint owners (relations : list JoinRelation) (cols : list nat) (refs : Z) : result Z :=
  match cols with [] => Ok refs | c :: cols => id ← OwnerLeaf relations c; owners relations cols (rs_Union refs (Singleton id)) end.
Fixpoint ClassifyRegionConjuncts (conjuncts : list Expr) (relations : list JoinRelation) (single_filters : list (list Expr)) (pending : list PendingEdge) : result (option (list (list Expr) * list PendingEdge)) :=
  match conjuncts with
  | [] => Ok (Some (single_filters, pending))
  | conjunct :: conjuncts =>
      match CollectFlatColumns conjunct with
      | None => Ok None
      | Some cols =>
          refs ← owners relations cols 0;
          if bool_decide (rs_Count refs ≤ 1)%nat then
            leaf ← match cols with [] => Ok 0%nat | c :: _ => OwnerLeaf relations c end;
            match single_filters !! leaf with
            | None => Err EUndefined
            | Some fs => ClassifyRegionConjuncts conjuncts relations (<[leaf := fs ++ [conjunct]]> single_filters) pending
            end
          else ClassifyRegionConjuncts conjuncts relations single_filters (pending ++ [mkPending refs conjunct (IsEquiEdge conjunct)])
      end
  end.

(** ** Distinct keys *)

(** The root of a column's class, with path halving; [fuel] counts the steps of the loop. *)
Fixpoint uf_find (fuel : nat) (uf : list nat) (x : nat) : result (list nat * nat) :=
  match uf !! x with
  | None => Err EUndefined
  | Some p =>
      if bool_decide (p = x) then Ok (uf, x) else
      match fuel, uf !! p with
      | O, _ => Err EBlocked
      | S _, None => Err EUndefined
      | S fuel, Some g => uf_find fuel (<[x := g]> uf) g
      end
  end.
(** The right operand of an assignment is evaluated first. *)
Definition uf_union (uf : list nat) (a b : nat) : result (list nat) :=
  '(uf, rb) ← uf_find (length uf) uf b; '(uf, ra) ← uf_find (length uf) uf a; Ok (<[ra := rb]> uf).
Fixpoint uf_unions (uf : list nat) (pending : list PendingEdge) : result (list nat) :=
  match pending with
  | [] => Ok uf
  | e :: pending => uf ← match keys_ e with Some (a, b) => uf_union uf a b | None => Ok uf end; uf_unions uf pending
  end.
Definition note_ndv (relations : list JoinRelation) (flat : nat) (st : list nat * gmap nat spec_float) : result (list nat * gmap nat spec_float) :=
  '(uf, root) ← uf_find (length st.1) st.1 flat;
  owner ← OwnerLeaf relations flat;
  match relations !! owner with
  | None => Err EUndefined
  | Some rel => let card := cardinality_ rel in Ok (uf, <[root := match st.2 !! root with None => card | Some ndv => dmin ndv card end]> st.2)
  end.
Fixpoint note_ndvs (relations : list JoinRelation) (pending : list PendingEdge) (st : list nat * gmap nat spec_float) : result (list nat * gmap nat spec_float) :=
  match pending with
  | [] => Ok st
  | e :: pending => st ← match keys_ e with Some (a, b) => st ← note_ndv relations a st; note_ndv relations b st | None => Ok st end; note_ndvs relations pending st
  end.
(** [operator[]] of the map gives 0 for a class it does not have. *)
Fixpoint annotate (pending : list PendingEdge) (uf : list nat) (class_ndv : gmap nat spec_float) : result (list JoinEdge) :=
  match pending with
  | [] => Ok []
  | e :: pending =>
      '(uf, ndv) ← match keys_ e with
        | Some (a, _) => '(uf, root) ← uf_find (length uf) uf a; Ok (uf, default (double_of 0) (class_ndv !! root))
        | None => Ok (uf, double_of 0)
        end;
      edges ← annotate pending uf class_ndv;
      Ok (mkEdge (refs_ e) (pred_ e) (bool_decide (keys_ e ≠ None)) ndv :: edges)
  end.
Definition AddEdgesWithKeyNdv (pending : list PendingEdge) (relations : list JoinRelation) (flat_width : nat) : result (list JoinEdge) :=
  uf ← uf_unions (seq 0 flat_width) pending;
  '(uf, class_ndv) ← note_ndvs relations pending (uf, ∅);
  annotate pending uf class_ndv.

(** ** The tree as a plan *)

Definition ConcatSchemas (l r : Schema) : Schema := l ++ r.
Definition leaf_set (ids : list nat) : Z := foldl (λ s id, rs_Union s (Singleton id)) 0 ids.
Fixpoint EmitJoinTree (tree : JoinTree) (graph : JoinGraph) (single_filters : list (list Expr)) : result (Plan * list nat) :=
  let relations := graph_relations graph in
  match tree with
  | TLeaf _ _ leaf_id =>
      match relations !! leaf_id, single_filters !! leaf_id with
      | Some rel, Some fs =>
          match ConjoinAll fs with
          | None => Ok (plan_ rel, [leaf_id])
          | Some e => pred ← Reindex e (λ f, Ok (0%nat, (f - base_col_offset_ rel)%nat)); Ok (FilterPlanNode (OutputSchema (plan_ rel)) pred (plan_ rel), [leaf_id])
          end
      | _, _ => Err EUndefined
      end
  | TJoin _ _ tl tr =>
      a ← EmitJoinTree tl graph single_filters; b ← EmitJoinTree tr graph single_filters;
      let '((lp, lo), (rp, ro)) := if SFltb (tree_card tr) (tree_card tl) then (b, a) else (a, b) in
      let left_set := leaf_set lo in let right_set := leaf_set ro in
      preds ← mapM (λ edge, Reindex (edge_predicate_ edge) (λ f,
        owner ← OwnerLeaf relations f;
        if rs_Contains left_set owner then pos ← LocalPosition lo relations f 0; Ok (0%nat, pos) else pos ← LocalPosition ro relations f 0; Ok (1%nat, pos)))
        (EdgesCrossing graph left_set right_set);
      Ok (NestedLoopJoinPlanNode (ConcatSchemas (OutputSchema lp) (OutputSchema rp)) lp rp (default TRUE (ConjoinAll preds)) INNER, lo ++ ro)
  end.

Section optimize.
(** [EstimatedRowCount] of the storage of a table the catalog knows. *)
Context (EstimatedRowCount : string → option Z).

Definition EndsWith (s suffix : string) : bool :=
  bool_decide (String.length suffix ≤ String.length s)%nat && String.eqb (String.substring (String.length s - String.length suffix) (String.length suffix) s) suffix.
Definition EstimatedCardinality (table_name : string) : option Z :=
  let by_name :=
    if EndsWith table_name "_1m" then Some 1000000 else if EndsWith table_name "_100k" then Some 100000 else if EndsWith table_name "_50k" then Some 50000 else
    if EndsWith table_name "_10k" then Some 10000 else if EndsWith table_name "_1k" then Some 1000 else if EndsWith table_name "_100" then Some 100 else None in
  match EstimatedRowCount table_name with Some rows => if bool_decide (0 < rows) then Some rows else by_name | None => by_name end.
Definition leaf_card (leaf : Plan) : spec_float :=
  match leaf with SeqScanPlanNode _ _ name _ _ => double_of (default 1000 (EstimatedCardinality name)) | _ => double_of 1000 end.
Fixpoint add_relations (leaves : list Plan) (id offset : nat) : list JoinRelation * nat :=
  match leaves with
  | [] => ([], offset)
  | leaf :: leaves =>
      let width := GetColumnCount leaf in
      let '(rels, total) := add_relations leaves (S id) (offset + width) in
      (mkRelation id (leaf_card leaf) leaf offset width :: rels, total)
  end.
(** The size of a relation after its filters, a tenth for each. *)
Definition filtered_card (card : spec_float) (fs : list Expr) : spec_float := foldl (λ c _, dmul c RESIDUAL_SELECTIVITY) card fs.
(** The shape to build, if the FROM order is not to be kept. *)
Definition choose_tree (graph : JoinGraph) (single_filters : list (list Expr)) : result (option JoinTree) :=
  match graph_relations graph, single_filters with
  | [r0; r1], [f0; f1] =>
      let c0 := filtered_card (cardinality_ r0) f0 in let c1 := filtered_card (cardinality_ r1) f1 in
      if SFleb c0 c1 then Ok None else
      Ok (Some (TJoin (rs_Union (Singleton 0) (Singleton 1)) (double_of 1) (TLeaf (Singleton 0) c0 0) (TLeaf (Singleton 1) c1 1)))
  | _, _ =>
      tree ← Order graph;
      match tree with
      | None => Ok None
      | Some t => Ok (if SFleb (LeftDeepCost graph) (SumInternalCardinalities t) then None else Some t)
      end
  end.
Fixpoint restore_columns (leaf_order : list nat) (relations : list JoinRelation) (p : nat) (columns : Schema) : result (list Expr) :=
  match columns with
  | [] => Ok []
  | col :: columns => pos ← LocalPosition leaf_order relations p 0; es ← restore_columns leaf_order relations (S p) columns; Ok (ColumnValue 0 pos (col_type col) :: es)
  end.
Definition reorder_region (node : Plan) (schema : Schema) (predicate : Expr) (child : Plan) : result Plan :=
  leaves ← CollectRegionLeaves child;
  if bool_decide (length leaves < 2)%nat || bool_decide (MAX_REORDER_RELATIONS < length leaves)%nat then Ok node else
  let '(relations, offset) := add_relations leaves 0 0 in
  if negb (bool_decide (offset = length schema)) then Err EAbort else
  classified ← ClassifyRegionConjuncts (FlattenConjuncts predicate) relations (replicate (length leaves) []) [];
  match classified with
  | None => Ok node
  | Some (single_filters, pending) =>
      edges ← AddEdgesWithKeyNdv pending relations offset;
      let graph := mkGraph relations edges in
      tree ← choose_tree graph single_filters;
      match tree with
      | None => Ok node
      | Some tree =>
          '(root, leaf_order) ← EmitJoinTree tree graph single_filters;
          projections ← restore_columns leaf_order relations 0 schema;
          Ok (ProjectionPlanNode schema projections root)
      end
  end.
Fixpoint OptimizeJoinOrder (plan : Plan) : result Plan :=
  node ← rewrite_children OptimizeJoinOrder plan;
  match node with FilterPlanNode schema predicate child => reorder_region node schema predicate child | _ => Ok node end.

(** ** The passes in order ([optimizer.cpp]) *)

Inductive PlanType := PT_SeqScan | PT_Insert | PT_Update | PT_Delete | PT_Aggregation | PT_Limit | PT_NestedLoopJoin | PT_HashJoin | PT_Filter | PT_Values | PT_Projection | PT_Sort | PT_TopN.
#[global] Instance PlanType_eq_dec : EqDecision PlanType.
Proof. solve_decision. Defined.
Fixpoint CollectPlanTypes (plan : Plan) : list PlanType :=
  match plan with
  | SeqScanPlanNode _ _ _ _ _ => [PT_SeqScan] | ValuesPlanNode _ _ => [PT_Values]
  | FilterPlanNode _ _ c => PT_Filter :: CollectPlanTypes c | ProjectionPlanNode _ _ c => PT_Projection :: CollectPlanTypes c
  | NestedLoopJoinPlanNode _ l r _ _ => PT_NestedLoopJoin :: CollectPlanTypes l ++ CollectPlanTypes r
  | HashJoinPlanNode _ l r _ _ _ _ _ => PT_HashJoin :: CollectPlanTypes l ++ CollectPlanTypes r
  | LimitPlanNode _ c _ => PT_Limit :: CollectPlanTypes c | SortPlanNode _ c _ => PT_Sort :: CollectPlanTypes c | TopNPlanNode _ c _ _ => PT_TopN :: CollectPlanTypes c
  | AggregationPlanNode _ c _ _ _ => PT_Aggregation :: CollectPlanTypes c
  | InsertPlanNode _ c _ => PT_Insert :: CollectPlanTypes c | UpdatePlanNode _ c _ _ => PT_Update :: CollectPlanTypes c | DeletePlanNode _ c _ => PT_Delete :: CollectPlanTypes c
  end.
Definition Optimize (plan : Plan) : result Plan :=
  let present := CollectPlanTypes plan in
  let has t := bool_decide (t ∈ present) in
  let when (b : bool) (pass : Plan → result Plan) (p : Plan) := if b then pass p else Ok p in
  let joins_or_filters := has PT_Filter || has PT_NestedLoopJoin in
  p ← when (has PT_Projection) OptimizeMergeProjection plan;
  p ← when joins_or_filters (λ p, p ← OptimizeJoinOrder p; p ← OptimizeMergeFilterNLJ p; p ← OptimizeFilterPushDown p; p ← OptimizeNLJAsHashJoin p; p ← OptimizeEliminateTrueFilter p; OptimizeMergeFilterScan p) p;
  p ← when (has PT_Limit || has PT_Sort) OptimizeSortLimitAsTopN p;
  when (has PT_SeqScan || has PT_HashJoin || has PT_NestedLoopJoin) (λ p, Ok (OptimizeColumnPruning p)) p.
End optimize.
