(* ===== verification/OptimizerRules.v ===== *)
(** * What the optimizer relies on

    Expressions under a change of columns, the conjuncts of a predicate, well-formed plans and the width of
    their answers; then, rule by rule, that a rewritten plan answers the same rows. *)

From stdpp Require Import sorting.
From Stdlib Require Import Floats.SpecFloat.
From S2P Require Import Prelude TablePage TableHeap BTreePage BPlusTree GenericKey NumericText StringHeap ValidityMask SortKey VectorOps SortKeyOrder StreamOperator RowFormat RowScatter HashInvariant VectorHash HashSystem HashJoin JoinProbe JoinExecute ResultCollector LikeMatch VectorKernels ColumnReads ExpressionExecutor ExpressionEval ExactFloat Aggregate Plan Optimizer.

(** ** Expressions *)

Section meaning.
Context {casts : Casts}.
(** Induction that reaches the elements of an IN list. *)
Lemma Expr_strong_ind (P : Expr → Prop) :
  (∀ t c ty, P (ColumnValue t c ty)) → (∀ v ty, P (ConstantValue v ty)) → (∀ t l r ty, P l → P r → P (Arithmetic t l r ty)) →
  (∀ s e ty, P e → P (CastTo s e ty)) → (∀ t e, P e → P (StringCall t e)) → (∀ t l r, P l → P r → P (Comparison t l r)) →
  (∀ t l r, P l → P r → P (Logic t l r)) → (∀ n e, P e → P (IsNull n e)) → (∀ n s p, P s → P p → P (Like n s p)) →
  (∀ n e elems, P e → Forall P elems → P (In n e elems)) → ∀ e, P e.
Proof.
  intros H1 H2 H3 H4 H5 H6 H7 H8 H9 H10. fix IH 1. intros [t c ty|v ty|t l r ty|s e ty|t e|t l r|t l r|n e|n s p|n e elems]; [apply H1|apply H2|apply H3|apply H4|apply H5|apply H6|apply H7|apply H8|apply H9|apply H10]; try apply IH.
  induction elems as [|x elems IHe]; constructor; [apply IH|exact IHe].
Qed.

Definition cell_of (row : Row) (c : nat) : option cell := default None (row !! c).
Definition reads_as (f : nat → nat → nat * nat) (row row' : Row) (refs : list (nat * nat)) : Prop := Forall (λ ref, cell_of row (f ref.1 ref.2).2 = cell_of row' ref.2) refs.
Lemma map_columns_type f e : GetReturnType (map_columns f e) = GetReturnType e.
Proof. destruct e; cbn; try done. by destruct (f _ _). Qed.
Lemma reads_as_app f row row' a b : reads_as f row row' (a ++ b) ↔ reads_as f row row' a ∧ reads_as f row row' b.
Proof. apply Forall_app. Qed.
Lemma reads_as_join {A} f row row' (g : A → list (nat * nat)) l : reads_as f row row' (mjoin (g <$> l)) → Forall (λ x, reads_as f row row' (g x)) l.
Proof. induction l as [|x l IH]; [done|]. cbn. intros [Hx Hl]%reads_as_app. constructor; [done|by apply IH]. Qed.
Lemma Forall_apply {A} (P Q : A → Prop) l : Forall (λ x, P x → Q x) l → Forall P l → Forall Q l.
Proof. induction 1; inversion 1; constructor; auto. Qed.

Lemma map_columns_value f row row' e : reads_as f row row' (column_refs e) → value_of (map_columns f e) row = value_of e row'.
Proof.
  induction e as [t c ty|v ty|t l r ty IHl IHr|s e ty IH|t e IH|t l r IHl IHr|t l r IHl IHr|n e IH|n s p IHs IHp|n e elems IH IHe] using Expr_strong_ind; cbn [column_refs map_columns]; intros Hr; try done.
  - unfold reads_as in Hr. rewrite Forall_singleton in Hr. cbn [fst snd] in Hr. destruct (f t c). exact Hr.
  - apply reads_as_app in Hr as [Hl Hr]. cbn [value_of]. by rewrite !map_columns_type, IHl, IHr.
  - cbn [value_of]. by rewrite map_columns_type, IH.
  - cbn [value_of]. by rewrite IH.
Qed.
Lemma map_columns_eval f row row' e : reads_as f row row' (column_refs e) → eval3 (map_columns f e) row = eval3 e row'.
Proof.
  assert (∀ x, reads_as f row row' (column_refs x) → match value_of (map_columns f x) row with Some (CNum z) => Some (negb (bool_decide (z = 0))) | _ => None end = match value_of x row' with Some (CNum z) => Some (negb (bool_decide (z = 0))) | _ => None end) as Hv by (intros x Hx; by rewrite (map_columns_value _ _ _ _ Hx)).
  induction e as [t c ty|v ty|t l r ty IHl IHr|s e ty IH|t e IH|t l r IHl IHr|t l r IHl IHr|n e IH|n s p IHs IHp|n e elems IH IHe] using Expr_strong_ind; intros Hr.
  - specialize (Hv _ Hr). cbn [map_columns] in *. destruct (f t c). exact Hv.
  - done.
  - exact (Hv _ Hr).
  - exact (Hv _ Hr).
  - exact (Hv _ Hr).
  - apply reads_as_app in Hr as [Hl Hr]. cbn [map_columns eval3]. by rewrite !map_columns_type, (map_columns_value _ _ _ _ Hl), (map_columns_value _ _ _ _ Hr).
  - apply reads_as_app in Hr as [Hl Hr]. cbn [map_columns eval3]. by rewrite IHl, IHr.
  - cbn [map_columns eval3]. by rewrite (map_columns_value f row row' e Hr).
  - apply reads_as_app in Hr as [Hl Hr]. cbn [map_columns eval3]. by rewrite (map_columns_value _ _ _ _ Hl), (map_columns_value _ _ _ _ Hr).
  - cbn [column_refs] in Hr. apply reads_as_app in Hr as [He Hes%reads_as_join]. cbn [map_columns eval3]. rewrite map_columns_type, (map_columns_value _ _ _ _ He). f_equal. f_equal.
    rewrite <- list_fmap_compose. apply list_fmap_ext. intros i x Hx. cbn. eapply Forall_lookup in Hes; [|done]. by rewrite (map_columns_value _ _ _ _ Hes).
Qed.
Lemma map_columns_passes f row row' e : reads_as f row row' (column_refs e) → passes3 (map_columns f e) row = passes3 e row'.
Proof. intros Hr. unfold passes3. by rewrite (map_columns_eval _ _ _ _ Hr). Qed.
Lemma map_columns_result f row row' e : reads_as f row row' (column_refs e) → result_of (map_columns f e) row = result_of e row'.
Proof.
  intros Hr. pose proof (map_columns_value _ _ _ _ Hr) as Hv. pose proof (map_columns_passes _ _ _ _ Hr) as Hp. destruct e; cbn [map_columns result_of] in *; try exact Hv; try (by rewrite Hp). by destruct (f _ _).
Qed.

Lemma map_columns_id e : map_columns pair e = e.
Proof.
  induction e as [t c ty|v ty|t l r ty IHl IHr|s e ty IH|t e IH|t l r IHl IHr|t l r IHl IHr|n e IH|n s p IHs IHp|n e elems IH IHe] using Expr_strong_ind; cbn; try congruence. f_equal; [done|]. induction IHe; cbn; congruence.
Qed.
(** Rows that agree on the columns read. *)
Definition agrees (row row' : Row) (refs : list (nat * nat)) : Prop := Forall (λ ref, cell_of row ref.2 = cell_of row' ref.2) refs.
Lemma agrees_passes row row' e : agrees row row' (column_refs e) → passes3 e row = passes3 e row'.
Proof. intros H. rewrite <- (map_columns_id e) at 1. by apply map_columns_passes. Qed.
Lemma agrees_result row row' e : agrees row row' (column_refs e) → result_of e row = result_of e row'.
Proof. intros H. rewrite <- (map_columns_id e) at 1. by apply map_columns_result. Qed.

Lemma Forall_join {A B} (P : B → Prop) (g : A → list B) l : Forall P (mjoin (g <$> l)) ↔ Forall (λ x, Forall P (g x)) l.
Proof. induction l as [|x l IH]; cbn; [split; constructor|]. rewrite Forall_app, Forall_cons, <- IH. done. Qed.
Lemma map_columns_refs f e : column_refs (map_columns f e) = (λ ref, f ref.1 ref.2) <$> column_refs e.
Proof.
  induction e as [t c ty|v ty|t l r ty IHl IHr|s e ty IH|t e IH|t l r IHl IHr|t l r IHl IHr|n e IH|n s p IHs IHp|n e elems IH IHe] using Expr_strong_ind; cbn [map_columns column_refs]; rewrite ?fmap_app; try congruence; try done.
  - cbn. by destruct (f t c).
  - rewrite IH. f_equal. induction IHe as [|x elems Hx _ IHl]; [done|]. cbn. rewrite fmap_app, Hx. f_equal. exact IHl.
Qed.
(** A fallible rewrite that succeeds on every reference is a rewrite. *)
Lemma traverse_columns_ok f g e : Forall (λ ref, f ref.1 ref.2 = Ok (g ref.1 ref.2)) (column_refs e) → traverse_columns f e = Ok (map_columns g e).
Proof.
  induction e as [t c ty|v ty|t l r ty IHl IHr|s e ty IH|t e IH|t l r IHl IHr|t l r IHl IHr|n e IH|n s p IHs IHp|n e elems IH IHe] using Expr_strong_ind; cbn [column_refs traverse_columns map_columns]; intros H; try done;
    try (apply Forall_app in H as [Hl Hr]; first [by rewrite (IHl Hl); cbn [mbind result_bind]; rewrite (IHr Hr)|by rewrite (IHs Hl); cbn [mbind result_bind]; rewrite (IHp Hr)]); try (by rewrite (IH H)).
  - rewrite Forall_singleton in H. cbn in H. rewrite H. cbn [mbind result_bind]. by destruct (g t c).
  - apply Forall_app in H as [He Hes%Forall_join]. rewrite (IH He). cbn [mbind result_bind]. assert (mapM (traverse_columns f) elems = Ok (map_columns g <$> elems)) as ->; [|done].
    induction IHe as [|x elems Hx _ IHl]; [done|]. apply Forall_cons in Hes as [H1 H2]. cbn. rewrite (Hx H1). cbn [mbind result_bind]. by rewrite (IHl H2).
Qed.

(** ** Conjuncts *)

Definition all_pass (es : list Expr) (row : Row) : bool := forallb (λ e, passes3 e row) es.
Lemma all_pass_app a b row : all_pass (a ++ b) row = all_pass a row && all_pass b row.
Proof. apply forallb_app. Qed.
Lemma SplitConjuncts_passes e row : all_pass (SplitConjuncts e) row = passes3 e row.
Proof. induction e as [| | | | | |[] l IHl r IHr| | |]; try (apply andb_true_r). cbn [SplitConjuncts]. by rewrite all_pass_app, IHl, IHr, passes_And. Qed.
Lemma TRUE_passes row : passes3 TRUE row = true.
Proof. done. Qed.
Lemma conjoin_passes es e row : passes3 (foldl (Logic And) e es) row = passes3 e row && all_pass es row.
Proof. revert e. induction es as [|x es IH]; intros e; cbn [foldl all_pass forallb]; [by rewrite andb_true_r|]. rewrite IH, passes_And. cbn. by rewrite andb_assoc. Qed.
Lemma Conjoin_passes es row : passes3 (Conjoin es) row = all_pass es row.
Proof. destruct es as [|e es]; [done|]. apply conjoin_passes. Qed.
Lemma conjoin_refs es : ∀ e, column_refs (foldl (Logic And) e es) = column_refs e ++ mjoin (column_refs <$> es).
Proof. induction es as [|x es IH]; intros e; cbn; [by rewrite app_nil_r|]. rewrite IH. cbn. by rewrite app_assoc. Qed.
Lemma Conjoin_refs es : column_refs (Conjoin es) = mjoin (column_refs <$> es).
Proof. destruct es as [|e es]; [done|]. apply conjoin_refs. Qed.
Lemma SplitConjuncts_refs e : mjoin (column_refs <$> SplitConjuncts e) = column_refs e.
Proof.
  assert (∀ x, mjoin (column_refs <$> [x]) = column_refs x) as Hx by (intros x; cbn; by rewrite app_nil_r).
  induction e as [| | | | | |[] l IHl r IHr| | |]; try apply Hx. cbn [SplitConjuncts column_refs]. rewrite fmap_app, join_app. by f_equal.
Qed.

(** ** Well-formed plans *)

(** References to the columns of one input, and to those of the two inputs of a join. *)
Definition flat_in (n : nat) (e : Expr) : Prop := Forall (λ ref, ref.1 = 0%nat ∧ (ref.2 < n)%nat) (column_refs e).
Definition two_sided (lw rw : nat) (e : Expr) : Prop := Forall (λ ref, ref.1 = 0%nat ∧ (ref.2 < lw)%nat ∨ ref.1 = 1%nat ∧ (ref.2 < rw)%nat) (column_refs e).
Definition key_in (n : nat) (e : Expr) : Prop := Forall (λ ref, (ref.1 < 2)%nat ∧ (ref.2 < n)%nat) (column_refs e).
(** Types an equality between columns may join: one type on both sides, or two numeric types other than DECIMAL
    of different rank. *)
Definition plain_number (t : LogicalType) : bool :=
  bool_decide (t = of_id (type_ t)) && match type_ t with LT_DECIMAL | LT_STRING | LT_STRUCT | LT_LIST | LT_ARRAY | LT_UNKNOWN => false | _ => true end.
Definition comparable (lt rt : LogicalType) : bool :=
  bool_decide (lt = rt) || (plain_number lt && plain_number rt && negb (bool_decide (NumericJoinKeyRank (ctype_ lt) = NumericJoinKeyRank (ctype_ rt)))).
(** A literal that stands as a condition is an integer, and columns set equal are comparable. *)
Definition conjunct_ok (e : Expr) : Prop :=
  match e with
  | ConstantValue (Some c) ty => (∃ z, c = CNum z) ∧ is_Some (int_of (ctype_ ty))
  | Comparison Equal (ColumnValue _ _ lt) (ColumnValue _ _ rt) => comparable lt rt = true
  | _ => True
  end.
Definition condition_ok (e : Expr) : Prop := Forall conjunct_ok (SplitConjuncts e).
Lemma conjunct_ok_map f e : conjunct_ok e → conjunct_ok (map_columns f e).
Proof. destruct e as [t c ty| | | | |[] [] []| | | |]; cbn [map_columns conjunct_ok]; try done; repeat (case_match; try done). all: simplify_eq; done. Qed.
Lemma SplitConjuncts_map f e : SplitConjuncts (map_columns f e) = map_columns f <$> SplitConjuncts e.
Proof. induction e as [t c ty| | | | | |[] l IHl r IHr| | |]; cbn [map_columns SplitConjuncts]; try done; [cbn; by destruct (f t c)|]. by rewrite fmap_app, IHl, IHr. Qed.
Lemma condition_ok_map f e : condition_ok e → condition_ok (map_columns f e).
Proof. unfold condition_ok. rewrite SplitConjuncts_map. intros H. apply Forall_fmap. eapply Forall_impl; [exact H|]. intros x. apply conjunct_ok_map. Qed.
(** What is not a conjunction is its own conjunct. *)
Lemma SplitConjuncts_conjuncts e : Forall (λ x, SplitConjuncts x = [x]) (SplitConjuncts e).
Proof. induction e as [| | | | | |[] l IHl r IHr| | |]; try (by repeat constructor). cbn [SplitConjuncts]. by apply Forall_app. Qed.
Definition conjuncts_ok (es : list Expr) : Prop := Forall condition_ok es.
Lemma SplitConjuncts_foldl es : ∀ e, SplitConjuncts (foldl (Logic And) e es) = SplitConjuncts e ++ mjoin (SplitConjuncts <$> es).
Proof. induction es as [|x es IH]; intros e; cbn; [by rewrite app_nil_r|]. rewrite IH. cbn. by rewrite app_assoc. Qed.
Lemma condition_ok_TRUE : condition_ok TRUE.
Proof. constructor; [|constructor]. split; [by eexists|by eexists]. Qed.
Lemma condition_ok_Conjoin es : conjuncts_ok es → condition_ok (Conjoin es).
Proof.
  intros H. destruct es as [|e es]; [apply condition_ok_TRUE|]. cbn [Conjoin]. apply Forall_cons in H as [He Hes]. unfold condition_ok. rewrite SplitConjuncts_foldl. apply Forall_app. split; [done|]. by apply Forall_join.
Qed.
Lemma condition_ok_conjuncts e : condition_ok e → conjuncts_ok (SplitConjuncts e).
Proof.
  intros H. unfold conjuncts_ok, condition_ok in *. pose proof (SplitConjuncts_conjuncts e) as Hc. apply Forall_forall. intros x Hx. rewrite Forall_forall in Hc, H. rewrite (Hc _ Hx). constructor; [by apply H|constructor].
Qed.
Lemma IsPredicateTrue_ok e : condition_ok e → ∃ b, IsPredicateTrue e = Ok b ∧ (b = true → ∀ row, passes3 e row = true).
Proof.
  intros H. destruct e as [|[c|] ty| | | | | | | |]; cbn [IsPredicateTrue]; try (by exists false). unfold condition_ok in H. cbn [SplitConjuncts] in H. rewrite Forall_singleton in H. destruct H as [[z ->] [it Hit]].
  assert (∀ b : bool, (b = true → z ≠ 0) → b = true → ∀ row, passes3 (ConstantValue (Some (CNum z)) ty) row = true) as Hp by (intros b Hz Hb row; apply bool_decide_true; cbn; by rewrite bool_decide_false by (by apply Hz)).
  assert (literal (CNum z) ty = mkValue ty (Some (PNum z))) as -> by (unfold literal; by destruct (ctype_ ty)). unfold CastAs, Value_IsNull. cbn [value_type payload]. case_bool_decide as Eb.
  - cbn [mbind result_bind]. unfold GetAs_int. cbn [value_type payload]. rewrite Hit. eexists. split; [done|]. apply Hp. intros Hn ->. by destruct it.
  - rewrite bool_decide_false by done. cbn [type_ BOOLEAN of_id]. rewrite bool_decide_false by (intros E; by rewrite E in Hit). assert (GetAs_int I64 (mkValue ty (Some (PNum z))) = Ok (narrow I64 z)) as -> by (unfold GetAs_int; cbn [value_type payload]; by rewrite Hit). cbn [mbind result_bind].
    eexists. split; [by unfold GetAs_int|]. apply Hp. intros Hn ->. by cbn in Hn.
Qed.

Section wf.
Context (table : nat → list Row) (aggregate : nat → list AggregationType → list (Row * Row) → list Row → Prop) (write : WriteOp → list Row → list Row → Prop).
(** A group by has its columns before the aggregates; a write answers how many rows it touched. *)
Context (aggregate_width : ∀ n ts vals rows, aggregate n ts vals rows → Forall (λ r, length r = (n + length ts)%nat) rows).
Context (write_width : ∀ op rows out, write op rows out → Forall (λ r, length r = 1%nat) out).
Local Abbreviation answers := (answers table aggregate write).

(** Plans as the planner makes them.  An outer join is not on a constant true. *)
Fixpoint wf (p : Plan) : Prop :=
  match p with
  | SeqScanPlanNode s oid _ pred cols => cols = [] ∧ Forall (λ r, length r = length s) (table oid) ∧ match pred with Some e => flat_in (length s) e | None => True end
  | ValuesPlanNode s vs => Forall (λ es, length es = length s) vs
  | FilterPlanNode s e c => wf c ∧ length s = GetColumnCount c ∧ flat_in (GetColumnCount c) e ∧ condition_ok e
  | ProjectionPlanNode s es c => wf c ∧ length es = length s ∧ Forall (flat_in (GetColumnCount c)) es
  | NestedLoopJoinPlanNode s l r e jt => wf l ∧ wf r ∧ length s = (GetColumnCount l + GetColumnCount r)%nat ∧ two_sided (GetColumnCount l) (GetColumnCount r) e ∧ condition_ok e ∧
      jt ≠ SEMI ∧ jt ≠ ANTI ∧ (jt ≠ INNER → IsPredicateTrue e = Ok false)
  | HashJoinPlanNode s l r lk rk jt _ live => wf l ∧ wf r ∧ live = None ∧ length lk = length rk ∧ Forall (key_in (GetColumnCount l)) lk ∧ Forall (key_in (GetColumnCount r)) rk ∧
      length s = (GetColumnCount l + if bool_decide (jt = SEMI) || bool_decide (jt = ANTI) then 0 else GetColumnCount r)%nat
  | LimitPlanNode s c _ => wf c ∧ length s = GetColumnCount c
  | SortPlanNode s c obs | TopNPlanNode s c obs _ => wf c ∧ length s = GetColumnCount c ∧ Forall (flat_in (GetColumnCount c)) obs.*2
  | AggregationPlanNode s c gs es ts => wf c ∧ length s = (length gs + length ts)%nat ∧ Forall (flat_in (GetColumnCount c)) gs ∧ Forall (flat_in (GetColumnCount c)) es
  | InsertPlanNode s c _ | UpdatePlanNode s c _ _ | DeletePlanNode s c _ => wf c ∧ length s = 1%nat
  end.

(** ** Widths *)

Definition wide (n : nat) (rows : list Row) : Prop := Forall (λ r, length r = n) rows.
Lemma wide_perm n a b : a ≡ₚ b → wide n b → wide n a.
Proof. unfold wide. by intros ->. Qed.
Lemma wide_filter n (P : Row → bool) rows : wide n rows → wide n (filter (λ r, P r = true) rows).
Proof. intros H. apply Forall_forall. intros r [_ Hr]%list_elem_of_filter. by eapply Forall_forall in H. Qed.
Lemma wide_bind {A} n (f : A → list Row) l : Forall (λ x, wide n (f x)) l → wide n (l ≫= f).
Proof. induction 1 as [|x l Hx _ IH]; [constructor|]. cbn. by apply Forall_app. Qed.
Lemma mask_length cols row : length (mask cols row) = length row.
Proof. destruct cols; [done|]. apply length_imap. Qed.
Lemma nested_loop_wide jt pred lc n m rs l : length l = n → wide m rs → wide (n + m) (nested_loop jt pred lc m rs l).
Proof.
  intros Hl Hr. unfold nested_loop. set (pairs := _ <$> _). assert (wide (n + m) pairs) as Hp.
  { apply Forall_fmap, Forall_forall. intros r [_ Hin]%list_elem_of_filter. cbn. rewrite length_app, Hl. eapply Forall_forall in Hr; [|exact Hin]. cbn in Hr. by rewrite Hr. }
  destruct jt; try exact Hp. destruct pairs; [|exact Hp]. constructor; [|constructor]. by rewrite length_app, Hl, length_replicate.
Qed.
Lemma results_length es row : length (results_of es row) = length es.
Proof. apply length_fmap. Qed.
Lemma joined_wide op n B key row : length row = n → wide (if bool_decide (join_type_ op = SEMI) || bool_decide (join_type_ op = ANTI) then n else n + length (build_types_ op)) (joined op B key row).
Proof.
  intros Hr. assert (∀ b, length (join_row op b row) = (n + length (build_types_ op))%nat) as Hj by (intros b; unfold join_row, build_side; case_match; rewrite length_app, length_fmap, length_seq; lia).
  unfold joined. destruct (join_type_ op); cbn; try (apply Forall_fmap, Forall_forall; intros b _; apply Hj).
  - rewrite bool_decide_true by done. cbn. destruct (bool_decide (partners _ _ _ = [])); by repeat constructor.
  - rewrite (bool_decide_true (ANTI = ANTI)), orb_true_r by done. destruct (null_aware_ op); [destruct (not_in _ _ _)|destruct (bool_decide (partners _ _ _ = []))]; by repeat constructor.
Qed.
Lemma CreateHashJoin_width ls rs lk rk jt aware live : length (build_types_ (CreateHashJoin ls rs lk rk jt aware live)) = if builds_right jt then length rs else length ls.
Proof. unfold CreateHashJoin. cbn. unfold physical_types. rewrite length_fmap. by case_match. Qed.
Lemma hash_join_wide ls rs lk rk jt aware live lrows rrows : length lk = length rk → wide (length ls) lrows → wide (length rs) rrows →
  wide (length ls + if bool_decide (jt = SEMI) || bool_decide (jt = ANTI) then 0 else length rs) (hash_join ls rs lk rk jt aware live lrows rrows).
Proof.
  intros Hk Hl Hr. unfold hash_join. destruct (CoerceJoinKeys lk rk) as [lk' rk']. destruct (builds_right jt) eqn:Eb; apply wide_bind, Forall_forall; intros row Hrow.
  - eapply Forall_forall in Hl; [|exact Hrow]. pose proof (joined_wide (CreateHashJoin ls rs lk' rk' jt aware live) _ (keyed rk' <$> rrows) (results_of lk' row) row Hl) as H.
    rewrite CreateHashJoin_width, Eb in H. destruct jt; try done; first [exact H|cbn; rewrite Nat.add_0_r; exact H].
  - eapply Forall_forall in Hr; [|exact Hrow]. pose proof (joined_wide (CreateHashJoin ls rs lk' rk' jt aware live) _ (keyed lk' <$> lrows) (results_of rk' row) row Hr) as H.
    rewrite CreateHashJoin_width, Eb, Nat.add_comm in H. destruct jt; try done; exact H.
Qed.
Lemma answers_wide p : wf p → ∀ rows, answers p rows → wide (GetColumnCount p) rows.
Proof.
  induction p as [s oid name pred cols|s vs|s e c IH|s es c IH|s l IHl r IHr e jt|s l IHl r IHr lk rk jt aware live|s c IH n|s c IH obs|s c IH obs n|s c IH gs es ts|s c IH oid|s c IH oid es|s c IH oid]; cbn [wf Plan.answers OutputSchema].
  - intros (-> & Ht & _) rows Hr. eapply wide_perm; [exact Hr|]. apply wide_filter, Forall_fmap. exact Ht.
  - intros H rows ->. apply Forall_fmap. eapply Forall_impl; [exact H|]. intros es Hes. cbn. by rewrite results_length.
  - intros (Hc & Hs & _) rows (r & Hr & ->). rewrite Hs. by apply wide_filter, IH.
  - intros (Hc & Hs & _) rows (r & Hr & ->). apply Forall_fmap, Forall_forall. intros x _. cbn. by rewrite results_length.
  - intros (Hl & Hr & Hs & _) rows (ls & rs & Als & Ars & Hp). eapply wide_perm; [exact Hp|]. rewrite Hs. replace (GetColumnCount l + GetColumnCount r - GetColumnCount l)%nat with (GetColumnCount r) by lia.
    apply wide_bind, Forall_forall. intros x Hx. apply nested_loop_wide; [by eapply Forall_forall in Hx; [|apply (IHl Hl _ Als)]|by apply IHr].
  - intros (Hl & Hr & _ & Hk & _ & _ & Hs) rows (ls & rs & Als & Ars & Hp). eapply wide_perm; [exact Hp|]. rewrite Hs. apply hash_join_wide; [done|by apply IHl|by apply IHr].
  - intros (Hc & Hs) rows (r & Hr & ->). rewrite Hs. apply Forall_take. by apply IH.
  - intros (Hc & Hs & _) rows (r & Hr & Hp & _). rewrite Hs. eapply wide_perm; [exact Hp|]. by apply IH.
  - intros (Hc & Hs & _) rows (r & so & Hr & Hp & _ & ->). rewrite Hs. apply Forall_take. eapply wide_perm; [exact Hp|]. by apply IH.
  - intros (Hc & Hs & _) rows (r & Hr & Ha). rewrite Hs. by eapply aggregate_width.
  - intros (Hc & Hs) rows (r & Hr & Hw). rewrite Hs. by eapply write_width.
  - intros (Hc & Hs) rows (r & Hr & Hw). rewrite Hs. by eapply write_width.
  - intros (Hc & Hs) rows (r & Hr & Hw). rewrite Hs. by eapply write_width.
Qed.
End wf.

(** * The rules keep the answers of a plan *)

Definition GetChildren (p : Plan) : list Plan :=
  match p with
  | SeqScanPlanNode _ _ _ _ _ | ValuesPlanNode _ _ => []
  | NestedLoopJoinPlanNode _ l r _ _ | HashJoinPlanNode _ l r _ _ _ _ _ => [l; r]
  | FilterPlanNode _ _ c | ProjectionPlanNode _ _ c | LimitPlanNode _ c _ | SortPlanNode _ c _ | TopNPlanNode _ c _ _ | AggregationPlanNode _ c _ _ _
  | InsertPlanNode _ c _ | UpdatePlanNode _ c _ _ | DeletePlanNode _ c _ => [c]
  end.
Lemma Plan_children_ind (P : Plan → Prop) : (∀ p, Forall P (GetChildren p) → P p) → ∀ p, P p.
Proof. intros H p. induction p; apply H; repeat constructor; done. Qed.
Lemma joined_width_only kt b b' jt aware live B key row : length b = length b' → joined (mkJoin kt b jt aware live) B key row = joined (mkJoin kt b' jt aware live) B key row.
Proof. intros E. unfold joined, join_row, build_side, partners, not_in, sql_eq, IsLeftJoin. cbn. by rewrite E. Qed.
Lemma hash_join_width_only ls ls' rs rs' lk rk jt aware live a b : length ls = length ls' → length rs = length rs' → hash_join ls rs lk rk jt aware live a b = hash_join ls' rs' lk rk jt aware live a b.
Proof.
  intros El Er. unfold hash_join. destruct (CoerceJoinKeys lk rk) as [lk' rk']. unfold CreateHashJoin, physical_types. destruct (builds_right jt); apply list_bind_ext; try done; intros row; rewrite !length_fmap, ?El, ?Er; apply joined_width_only; by rewrite !length_fmap.
Qed.


(** ** Filtered lists and pairs of rows *)

Local Abbreviation keep P := (filter (λ x, P x = true)).
Lemma keep_all {A} (P : A → bool) (l : list A) : Forall (λ x, P x = true) l → keep P l = l.
Proof. induction 1 as [|x l Hx _ IH]; [done|]. by rewrite filter_cons_True, IH. Qed.
Lemma keep_none {A} (P : A → bool) (l : list A) : Forall (λ x, P x = false) l → keep P l = [].
Proof. induction 1 as [|x l Hx _ IH]; [done|]. by rewrite filter_cons_False by congruence. Qed.
Lemma keep_ext {A} (P Q : A → bool) (l : list A) : Forall (λ x, P x = Q x) l → keep P l = keep Q l.
Proof. induction 1 as [|x l Hx _ IH]; [done|]. rewrite !filter_cons, IH. destruct (P x) eqn:E; [by rewrite !decide_True by congruence|by rewrite !decide_False by congruence]. Qed.
Lemma keep_keep {A} (P Q : A → bool) (l : list A) : keep P (keep Q l) = keep (λ x, Q x && P x) l.
Proof. rewrite list_filter_filter. apply list_filter_iff. intros x. rewrite andb_true_iff. tauto. Qed.
Lemma keep_fmap {A B} (f : A → B) (P : B → bool) (l : list A) : keep P (f <$> l) = f <$> keep (λ x, P (f x)) l.
Proof. induction l as [|x l IH]; [done|]. rewrite fmap_cons, !filter_cons, IH. by case_decide. Qed.
Lemma keep_bind {A B} (f : A → list B) (P : B → bool) (l : list A) : keep P (l ≫= f) = l ≫= λ x, keep P (f x).
Proof. induction l as [|x l IH]; [done|]. rewrite !bind_cons, filter_app. by rewrite IH. Qed.
Lemma keep_perm {A} (P : A → bool) (l rows : list A) : rows ≡ₚ keep P l ↔ ∃ r, r ≡ₚ l ∧ rows = keep P r.
Proof.
  split; [|intros (r & Hr & ->); by rewrite Hr]. intros Hp. exists (rows ++ keep (λ x, negb (P x)) l). split.
  - rewrite Hp. clear Hp. induction l as [|x l IH]; [done|]. rewrite !filter_cons. destruct (P x) eqn:E; cbn [negb]; [rewrite decide_True, decide_False by done; cbn; by rewrite IH|rewrite decide_False, decide_True by done]. rewrite <- Permutation_middle. by rewrite IH.
  - rewrite filter_app, keep_all, keep_none, app_nil_r; [done| |].
    + apply Forall_forall. intros x [Hx _]%list_elem_of_filter. by destruct (P x).
    + rewrite Hp. apply Forall_forall. by intros x [Hx _]%list_elem_of_filter.
Qed.
Definition pairs_where (P : Row → Row → bool) (ls rs : list Row) : list Row := l ← ls; (λ r, l ++ r) <$> keep (P l) rs.
Lemma bind_ext_in {A B} (f g : A → list B) l : Forall (λ x, f x = g x) l → l ≫= f = l ≫= g.
Proof. induction 1 as [|x l Hx _ IH]; [done|]. by rewrite !bind_cons, Hx, IH. Qed.
Lemma pairs_ext P Q ls rs : (∀ l r, l ∈ ls → r ∈ rs → P l r = Q l r) → pairs_where P ls rs = pairs_where Q ls rs.
Proof. intros H. apply bind_ext_in, Forall_forall. intros l Hl. f_equal. apply keep_ext, Forall_forall. intros r Hr. by apply H. Qed.
Lemma pairs_keep P Q ls rs : keep Q (pairs_where P ls rs) = pairs_where (λ l r, P l r && Q (l ++ r)) ls rs.
Proof. unfold pairs_where. rewrite keep_bind. apply bind_ext_in, Forall_forall. intros l _. by rewrite keep_fmap, keep_keep. Qed.
Lemma pairs_sides PL PR P ls rs : pairs_where P (keep PL ls) (keep PR rs) = pairs_where (λ l r, PL l && PR r && P l r) ls rs.
Proof.
  unfold pairs_where. induction ls as [|l ls IH]; [done|]. rewrite filter_cons, bind_cons, <- IH. destruct (PL l) eqn:El.
  - rewrite decide_True by done. rewrite bind_cons. do 2 f_equal. rewrite keep_keep. apply keep_ext, Forall_forall. done.
  - rewrite decide_False by done. rewrite (keep_none (λ r, false && PR r && P l r)); [done|]. by apply Forall_forall.
Qed.
Lemma nested_loop_pairs jt pred lc rc ls rs : jt ≠ LEFT → ls ≫= nested_loop jt pred lc rc rs = pairs_where (λ l r, passes3 (RemapOntoCombined lc pred) (l ++ r)) ls rs.
Proof. intros H. apply bind_ext_in, Forall_forall. intros l _. unfold nested_loop. by destruct jt. Qed.

(** ** Readdressing the two sides of a join *)

Lemma map_columns_ext f g e : Forall (λ ref, f ref.1 ref.2 = g ref.1 ref.2) (column_refs e) → map_columns f e = map_columns g e.
Proof.
  intros H. assert (Ok (map_columns f e) = Ok (map_columns g e)) as [= E]; [|done]. rewrite <- (traverse_columns_ok (λ t c, Ok (f t c)) f e) by (by apply Forall_forall).
  apply traverse_columns_ok. eapply Forall_impl; [exact H|]. intros ref ->. done.
Qed.
Lemma map_columns_compose f g e : map_columns f (map_columns g e) = map_columns (λ t c, let '(t, c) := g t c in f t c) e.
Proof.
  induction e as [t c ty|v ty|t l r ty IHl IHr|s e ty IH|t e IH|t l r IHl IHr|t l r IHl IHr|n e IH|n s p IHs IHp|n e elems IH IHe] using Expr_strong_ind; cbn; try congruence; [by destruct (g t c)|]. f_equal; [done|]. induction IHe; cbn; congruence.
Qed.
Definition unflatten (lw t c : nat) : nat * nat := if bool_decide (c < lw)%nat then (0%nat, c) else (1%nat, (c - lw)%nat).
Lemma RewriteExpressionForJoin_ok e lw rw : flat_in (lw + rw) e → RewriteExpressionForJoin e lw rw = Ok (map_columns (unflatten lw) e).
Proof.
  intros H. apply traverse_columns_ok. eapply Forall_impl; [exact H|]. intros [t c] [Ht Hc]. cbn in *. subst t. unfold unflatten. rewrite (bool_decide_true (0%nat = 0%nat)) by done. cbn [negb]. case_bool_decide; [done|]. by rewrite bool_decide_true.
Qed.
Lemma unflatten_two_sided e lw rw : flat_in (lw + rw) e → two_sided lw rw (map_columns (unflatten lw) e).
Proof. intros H. unfold two_sided. rewrite map_columns_refs. apply Forall_fmap. eapply Forall_impl; [exact H|]. intros [t c] [Ht Hc]. cbn in *. unfold unflatten. case_bool_decide; cbn; [by left|right; split; [done|lia]]. Qed.
Lemma remap_unflatten e lw rw : flat_in (lw + rw) e → RemapOntoCombined lw (map_columns (unflatten lw) e) = e.
Proof.
  intros H. unfold RemapOntoCombined. rewrite map_columns_compose. rewrite <- (map_columns_id e) at 2. apply map_columns_ext. eapply Forall_impl; [exact H|]. intros [t c] [-> Hc]. unfold unflatten. cbn.
  case_bool_decide as E; cbn; [done|]. rewrite bool_decide_false by done. f_equal. lia.
Qed.
Lemma flatten_flat e lw rw : two_sided lw rw e → flat_in (lw + rw) (FlattenJoinPredicate e lw).
Proof. intros H. unfold flat_in, FlattenJoinPredicate. rewrite map_columns_refs. apply Forall_fmap. eapply Forall_impl; [exact H|]. intros [t c]. cbn. intros [[-> Hc]|[-> Hc]]; [rewrite bool_decide_true by done|rewrite bool_decide_false by done]; cbn; lia. Qed.

(** ** Join keys *)

Lemma cell_eq_holds ty x y : holds Equal ty x y = cell_eq ty x y.
Proof.
  assert (∀ a b, float_holds Equal a b = SFeqb a b) as Hf by (intros a b; unfold float_holds, SFeqb; by destruct (SFcompare a b) as [[]|]). assert (∀ a b : Z, order_holds Equal (a ?= b) = bool_decide (a = b)) as Hz by (intros a b; cbn; destruct (Z.compare_spec a b); symmetry; [by apply bool_decide_true|apply bool_decide_false; lia|apply bool_decide_false; lia]).
  destruct x as [a|a], y as [b|b]; cbn [holds cell_eq]; try done; [destruct ty; first [apply Hf|apply Hz]|]. cbn. destruct (bcmp a b) eqn:E; symmetry; [by apply bool_decide_true, bcmp_eq|..]; apply bool_decide_false; intros ->; by rewrite bcmp_refl in E.
Qed.
Lemma value_eq_sym ty x y : value_eq false ty x y = value_eq false ty y x.
Proof.
  assert (∀ a b, SFeqb a b = SFeqb b a) as Hf by (intros a b; unfold SFeqb; rewrite (SFcompare_antisym b a); by destruct (SFcompare b a) as [[]|]).
  destruct x as [[a|a]|], y as [[b|b]|]; cbn [value_eq cell_eq]; try done; [destruct ty; first [apply Hf|apply bool_decide_ext; split; congruence]|apply bool_decide_ext; split; congruence].
Qed.
Definition pair_matches (a b : Expr) (l r : Row) : bool := let '(a, b) := CoerceJoinKey a b in value_eq false (ctype_ (GetReturnType a)) (result_of a l) (result_of b r).
Definition one_type (a b : Expr) : Prop := let '(a, b) := CoerceJoinKey a b in ctype_ (GetReturnType a) = ctype_ (GetReturnType b).
Fixpoint keys_match (lk rk : list Expr) (l r : Row) : bool := match lk, rk with a :: lk, b :: rk => pair_matches a b l r && keys_match lk rk l r | _, _ => true end.
Definition key_ctypes (keys : list Expr) : list PhysicalType := (λ e, ctype_ (GetReturnType e)) <$> keys.
Lemma coerced_keys lk rk l r : Forall2 one_type lk rk → let '(lk', rk') := CoerceJoinKeys lk rk in
  key_ctypes lk' = key_ctypes rk' ∧ key_eq false (key_ctypes lk') (results_of lk' l) (results_of rk' r) = keys_match lk rk l r ∧ key_eq false (key_ctypes lk') (results_of rk' r) (results_of lk' l) = keys_match lk rk l r.
Proof.
  unfold CoerceJoinKeys. induction 1 as [|a b lk rk Hab _ (IH1 & IH2 & IH3)]; [done|]. cbn [zip_with]. rewrite !fmap_cons. unfold one_type in Hab. cbn [keys_match]. unfold pair_matches. destruct (CoerceJoinKey a b) as [a' b']. cbn [fst snd]. unfold key_ctypes, results_of in *. rewrite !fmap_cons. cbn [key_eq].
  rewrite IH1, Hab, <- IH1, IH2, IH3. split; [done|]. split; [done|]. by rewrite value_eq_sym.
Qed.
(** The type two keys meet in. *)
Definition key_type (lt rt : LogicalType) : LogicalType := if bool_decide (lt = rt) then lt else if bool_decide (NumericJoinKeyRank (ctype_ lt) < NumericJoinKeyRank (ctype_ rt)) then rt else lt.
(** For these types the comparison and the hash join meet in one type, whichever side is first. *)
Lemma comparable_cases lt rt : comparable lt rt = true → lt = rt ∨ NumericJoinKeyRank (ctype_ lt) ≠ NumericJoinKeyRank (ctype_ rt) ∧ 0 ≤ NumericJoinKeyRank (ctype_ lt) ∧ 0 ≤ NumericJoinKeyRank (ctype_ rt) ∧
  CommonType lt rt = Ok (if bool_decide (NumericJoinKeyRank (ctype_ lt) < NumericJoinKeyRank (ctype_ rt)) then rt else lt).
Proof.
  unfold comparable, plain_number. intros [E%bool_decide_eq_true|[[[El%bool_decide_eq_true Hl]%andb_true_iff [Er%bool_decide_eq_true Hr]%andb_true_iff]%andb_true_iff Hne%negb_true_iff]%andb_true_iff]%orb_true_iff; [by left|right].
  destruct lt as [lc lid ld], rt as [rc rid rd]. cbn [type_ ctype_] in *. injection El as -> ->. injection Er as -> ->. destruct lid, rid; try discriminate Hl; try discriminate Hr; vm_compute in Hne; try discriminate Hne; vm_compute; (split; [|split; [|split]]); done.
Qed.
Lemma comparable_type lt rt : comparable lt rt = true → common_type lt rt = key_type lt rt.
Proof. intros [->|(_ & _ & _ & E)]%comparable_cases; unfold common_type, key_type; [unfold CommonType; by rewrite !bool_decide_true|]. rewrite E. destruct (decide (lt = rt)) as [->|Hne]; [rewrite (bool_decide_true (rt = rt)) by done; by case_bool_decide|by rewrite (bool_decide_false (lt = rt)) by done]. Qed.
Lemma key_type_sym lt rt : comparable lt rt = true → key_type rt lt = key_type lt rt.
Proof. unfold key_type. intros [->|(Hr & _)]%comparable_cases; [done|]. repeat case_bool_decide; try done; subst; try done; lia. Qed.
Lemma column_pair tc td c d lt rt l r : comparable lt rt = true ∨ comparable rt lt = true → let K := key_type lt rt in
  one_type (ColumnValue tc c lt) (ColumnValue td d rt) ∧
  pair_matches (ColumnValue tc c lt) (ColumnValue td d rt) l r = value_eq false (ctype_ K) (cast_value lt K (cell_of l c)) (cast_value rt K (cell_of r d)).
Proof.
  intros HC K. subst K. unfold one_type, pair_matches, CoerceJoinKey, key_type. cbn [GetReturnType]. assert (∀ ty v, cast_value ty ty v = v) as Hc by (intros; unfold cast_value; by rewrite bool_decide_true). destruct (decide (lt = rt)) as [->|Hne].
  - rewrite !bool_decide_true by done. cbn [result_of value_of GetReturnType]. by rewrite !Hc.
  - rewrite (bool_decide_false (lt = rt)) by done. assert (NumericJoinKeyRank (ctype_ lt) ≠ NumericJoinKeyRank (ctype_ rt) ∧ 0 ≤ NumericJoinKeyRank (ctype_ lt) ∧ 0 ≤ NumericJoinKeyRank (ctype_ rt)) as (Hr & H1 & H2) by (destruct HC as [[?|?]%comparable_cases|[?|?]%comparable_cases]; [done|tauto|done|split_and!; [intros E; symmetry in E; tauto|tauto|tauto]]).
    rewrite (bool_decide_false (ctype_ lt = ctype_ rt)) by (intros E; by rewrite E in Hr). rewrite (bool_decide_false (NumericJoinKeyRank (ctype_ lt) < 0)), (bool_decide_false (NumericJoinKeyRank (ctype_ rt) < 0)) by lia. cbn [orb]. case_bool_decide; cbn [result_of value_of GetReturnType]; rewrite Hc; done.
Qed.
Lemma equality_passes tc td c d lt rt row : comparable lt rt = true → let K := key_type lt rt in
  passes3 (Comparison Equal (ColumnValue tc c lt) (ColumnValue td d rt)) row = value_eq false (ctype_ K) (cast_value lt K (cell_of row c)) (cast_value rt K (cell_of row d)).
Proof.
  intros HC K. subst K. unfold passes3. cbn [eval3 GetReturnType]. rewrite (comparable_type _ _ HC). cbn [value_of]. fold (cell_of row c) (cell_of row d). destruct (cast_value lt _ _), (cast_value rt _ _); cbn; try done. rewrite cell_eq_holds. by destruct (cell_eq _ _ _).
Qed.
Definition extracts (lw rw : nat) (e : Expr) (lk rk : list Expr) : Prop :=
  Forall2 one_type lk rk ∧ Forall (key_in lw) lk ∧ Forall (key_in rw) rk ∧ ∀ l r, length l = lw → passes3 (RemapOntoCombined lw e) (l ++ r) = keys_match lk rk l r.
Lemma keys_match_app lk rk lk' rk' l r : length lk = length rk → keys_match (lk ++ lk') (rk ++ rk') l r = keys_match lk rk l r && keys_match lk' rk' l r.
Proof. revert rk. induction lk as [|a lk IH]; intros [|b rk] E; try done. cbn. rewrite IH by (cbn in E; lia). by rewrite andb_assoc. Qed.
Lemma extract_equality lw rw tl cl tyl tr cr tyr : two_sided lw rw (Comparison Equal (ColumnValue tl cl tyl) (ColumnValue tr cr tyr)) → comparable tyl tyr = true → tl ≠ tr →
  let '(lk, rk) := if bool_decide (tl = 0%nat) then ([ColumnValue tl cl tyl], [ColumnValue tr cr tyr]) else ([ColumnValue tr cr tyr], [ColumnValue tl cl tyl]) in
  extracts lw rw (Comparison Equal (ColumnValue tl cl tyl) (ColumnValue tr cr tyr)) lk rk.
Proof.
  intros H2 HC Hne. unfold two_sided in H2. cbn [column_refs app] in H2. rewrite Forall_cons, Forall_singleton in H2. cbn [fst snd] in H2. destruct H2 as [Hl Hr].
  destruct (decide (tl = 0%nat)) as [->|Ht].
  - rewrite bool_decide_true by done. destruct Hl as [[_ Hl]|[? _]]; [|done]. destruct Hr as [[-> _]|[-> Hr]]; [done|]. unfold extracts.
    split; [constructor; [|constructor]; by apply (column_pair 0 1 cl cr tyl tyr [] []); left|]. split; [constructor; [constructor; [cbn; lia|constructor]|constructor]|]. split; [constructor; [constructor; [cbn; lia|constructor]|constructor]|].
    intros l r El. cbn [keys_match]. rewrite andb_true_r. unfold RemapOntoCombined. cbn [map_columns]. rewrite (bool_decide_true (0%nat = 0%nat)), (bool_decide_false (1%nat = 0%nat)) by done. rewrite equality_passes by done. destruct (column_pair 0 1 cl cr tyl tyr l r (or_introl HC)) as [_ ->].
    unfold cell_of. rewrite lookup_app_l, lookup_app_r by lia. by replace (lw + cr - length l)%nat with cr by lia.
  - rewrite bool_decide_false by done. destruct Hl as [[? _]|[-> Hl]]; [done|]. destruct Hr as [[-> Hr]|[-> _]]; [|done]. unfold extracts.
    split; [constructor; [|constructor]; by apply (column_pair 0 1 cr cl tyr tyl [] []); right|]. split; [constructor; [constructor; [cbn; lia|constructor]|constructor]|]. split; [constructor; [constructor; [cbn; lia|constructor]|constructor]|].
    intros l r El. cbn [keys_match]. rewrite andb_true_r. unfold RemapOntoCombined. cbn [map_columns]. rewrite (bool_decide_true (0%nat = 0%nat)), (bool_decide_false (1%nat = 0%nat)) by done. rewrite equality_passes by done. destruct (column_pair 0 1 cr cl tyr tyl l r (or_intror HC)) as [_ ->]. rewrite (key_type_sym _ _ HC), value_eq_sym.
    unfold cell_of. rewrite lookup_app_l, lookup_app_r by lia. by replace (lw + cl - length l)%nat with cl by lia.
Qed.
Lemma ExtractKeys_ok lw rw e : HasOrPredicate e = false → two_sided lw rw e → condition_ok e → ∃ lk rk b, ExtractKeys e = Ok (lk, rk, b) ∧ (b = true → extracts lw rw e lk rk).
Proof.
  assert (∀ x, ∃ lk rk b, Ok ([], [], false) = Ok (lk, rk, b) ∧ (b = true → extracts lw rw x lk rk)) as Hno by (intros; by exists [], [], false).
  induction e as [| | | | |t l _ r _|[] l IHl r IHr| | |]; cbn [ExtractKeys]; intros Ho H2 HC; try apply Hno; try done.
  - destruct t; try apply Hno. destruct l as [tl cl tyl| | | | | | | | |]; try apply Hno. destruct r as [tr cr tyr| | | | | | | | |]; try apply Hno. case_bool_decide as Et; [apply Hno|].
    unfold condition_ok in HC. cbn [SplitConjuncts] in HC. rewrite Forall_singleton in HC. pose proof (extract_equality lw rw _ _ _ _ _ _ H2 HC Et) as HE. case_bool_decide; eexists _, _, _; split; done.
  - cbn [HasOrPredicate] in Ho. apply orb_false_iff in Ho as [Ho1 Ho2]. apply Forall_app in H2 as [H2l H2r]. apply Forall_app in HC as [Cl Cr]. destruct (IHl Ho1 H2l Cl) as (ll & lr & lb & -> & Hl), (IHr Ho2 H2r Cr) as (rl & rr & rb & -> & Hr). cbn [mbind result_bind].
    eexists _, _, _. split; [done|]. intros [-> ->]%andb_true_iff. destruct (Hl eq_refl) as (A1 & A2 & A3 & A4), (Hr eq_refl) as (B1 & B2 & B3 & B4). split; [by apply Forall2_app|]. split; [by apply Forall_app|]. split; [by apply Forall_app|].
    intros a b Ea. rewrite keys_match_app by (by eapply Forall2_length). rewrite <- A4, <- B4 by done. apply passes_And.
Qed.

(** ** A hash join over all its columns *)

Lemma pairs_cons M ls r rs : pairs_where M ls (r :: rs) ≡ₚ ((λ l, l ++ r) <$> keep (λ l, M l r) ls) ++ pairs_where M ls rs.
Proof.
  unfold pairs_where. induction ls as [|l ls IH]; [done|]. rewrite !bind_cons, IH. rewrite !filter_cons. destruct (decide (M l r = true)); cbn [fmap list_fmap app]; [constructor|]; by rewrite !app_assoc, (Permutation_app_comm ((λ l, l ++ r) <$> _) ((λ r, l ++ r) <$> _)).
Qed.
Lemma pairs_swap M ls rs : (r ← rs; (λ l, l ++ r) <$> keep (λ l, M l r) ls) ≡ₚ pairs_where M ls rs.
Proof. induction rs as [|r rs IH]; [|by rewrite bind_cons, pairs_cons, IH]. unfold pairs_where. induction ls as [|l ls IH]; [done|]. by rewrite bind_cons. Qed.
Lemma build_all n (row : Row) : length row = n → build_cell (seq 0 n) (Some row) <$> seq 0 n = row.
Proof.
  intros <-. apply list_eq. intros i. rewrite list_lookup_fmap. destruct (row !! i) as [v|] eqn:E.
  - assert (i < length row)%nat as Hi by (by apply lookup_lt_is_Some; eexists). rewrite lookup_seq_lt by done. cbn. unfold build_cell. rewrite bool_decide_true by (apply elem_of_seq; lia). cbn. by rewrite E.
  - apply lookup_ge_None in E. by rewrite lookup_seq_ge.
Qed.
Lemma build_none n live : build_cell live None <$> seq 0 n = replicate n None.
Proof. generalize 0%nat. induction n as [|n IH]; intros k; cbn; [done|]. rewrite IH. f_equal. unfold build_cell. by case_bool_decide. Qed.
Lemma keyed_partners op keys rows key (M : Row → bool) : (∀ row, key_eq false (key_types_of op) key (results_of keys row) = M row) → partners op (keyed keys <$> rows) key = keyed keys <$> keep M rows.
Proof. intros H. unfold partners. rewrite keep_fmap. f_equal. apply keep_ext, Forall_forall. intros row _. apply H. Qed.
Lemma nested_loop_left pred lc rc rs l : nested_loop LEFT pred lc rc rs l = match keep (λ r, passes3 (RemapOntoCombined lc pred) (l ++ r)) rs with [] => [l ++ replicate rc None] | ms => (λ r, l ++ r) <$> ms end.
Proof. unfold nested_loop. by destruct (filter _ rs). Qed.
Lemma hash_join_nested ls rs lk rk jt e lrows rrows : Forall2 one_type lk rk → jt ≠ SEMI → jt ≠ ANTI → wide (length ls) lrows → wide (length rs) rrows →
  (∀ l r, length l = length ls → passes3 (RemapOntoCombined (length ls) e) (l ++ r) = keys_match lk rk l r) →
  hash_join ls rs lk rk jt false None lrows rrows ≡ₚ (lrows ≫= nested_loop jt e (length ls) (length rs) rrows).
Proof.
  intros Hk Hs Ha Wl Wr HM. unfold hash_join. pose proof (λ l r, coerced_keys lk rk l r Hk) as HK. destruct (CoerceJoinKeys lk rk) as [lk' rk']. set (op := CreateHashJoin ls rs lk' rk' jt false None). assert (length (build_types_ op) = if builds_right jt then length rs else length ls) as Hb by apply CreateHashJoin_width.
  assert (live_build_columns_ op = seq 0 (length (build_types_ op))) as Hlive by done. destruct (decide (jt = LEFT)) as [->|Hj].
  - cbn [builds_right] in *. assert (∀ l, l ∈ lrows → joined op (keyed rk' <$> rrows) (results_of lk' l) l = nested_loop LEFT e (length ls) (length rs) rrows l) as Hx; [|by rewrite (bind_ext_in _ _ lrows) by (apply Forall_forall; exact Hx)].
    intros l Hl. assert (length l = length ls) as El by (by eapply Forall_forall in Wl). rewrite nested_loop_left. unfold joined. cbn [join_type_ op CreateHashJoin]. rewrite (keyed_partners op rk' rrows _ (λ r, passes3 (RemapOntoCombined (length ls) e) (l ++ r))).
    2: { intros r. destruct (HK l r) as (E1 & E2 & _). unfold op, CreateHashJoin. cbn [key_types_of builds_right]. fold (key_ctypes rk'). rewrite <- E1, E2. symmetry. by apply HM. }
    unfold join_row, IsLeftJoin. rewrite (bool_decide_true (_ = LEFT)) by done. unfold build_side. rewrite Hlive, Hb. destruct (filter _ rrows) as [|m ms] eqn:Em; [cbn [none_if_empty fmap list_fmap]; by rewrite build_none|].
    assert (wide (length rs) (m :: ms)) as Hms by (rewrite <- Em; by apply wide_filter).
    assert (∀ ms, wide (length rs) ms → (λ b : option Keyed, l ++ (build_cell (seq 0 (length rs)) (snd <$> b) <$> seq 0 (length rs))) <$> (Some <$> (keyed rk' <$> ms)) = (λ r, l ++ r) <$> ms) as HG; [|exact (HG _ Hms)].
    clear. induction 1 as [|x ms Hx _ IH]; [done|]. rewrite !fmap_cons, IH. f_equal. cbn [keyed snd fmap option_fmap option_map]. by rewrite build_all.
  - assert (builds_right jt = false) as Eb by (by destruct jt). rewrite Eb in *. rewrite (nested_loop_pairs jt) by done. rewrite <- pairs_swap. apply reflexive_eq, bind_ext_in, Forall_forall. intros r Hr.
    rewrite <- (keep_ext (λ l, keys_match lk rk l r)) by (eapply Forall_impl; [exact Wl|]; intros l El; cbn in El; symmetry; by apply HM).
    assert (joined op (keyed lk' <$> lrows) (results_of rk' r) r = (λ b, join_row op (Some b) r) <$> partners op (keyed lk' <$> lrows) (results_of rk' r)) as -> by (unfold joined; cbn [join_type_ op CreateHashJoin]; by destruct jt).
    rewrite (keyed_partners op lk' lrows _ (λ l, keys_match lk rk l r)).
    2: { intros l. destruct (HK l r) as (E1 & _ & E3). unfold op, CreateHashJoin. cbn [key_types_of]. rewrite Eb. exact E3. }
    rewrite <- list_fmap_compose. apply list_fmap_ext. intros i l Hl. cbn. unfold join_row, IsLeftJoin. rewrite (bool_decide_false (_ = LEFT)) by done. unfold build_side. rewrite Hlive, Hb. cbn. rewrite build_all; [done|]. apply list_elem_of_lookup_2, list_elem_of_filter in Hl as [_ Hl]. by eapply Forall_forall in Wl.
Qed.
Section rules.
Context (table : nat → list Row) (aggregate : nat → list AggregationType → list (Row * Row) → list Row → Prop) (write : WriteOp → list Row → list Row → Prop).
Context (aggregate_width : ∀ n ts vals rows, aggregate n ts vals rows → Forall (λ r, length r = (n + length ts)%nat) rows).
Context (write_width : ∀ op rows out, write op rows out → Forall (λ r, length r = 1%nat) out).
Local Abbreviation answers := (answers table aggregate write).
Local Abbreviation wf := (wf table).

(** [p'] may take the place of [p]. *)
Definition replaces (p p' : Plan) : Prop := GetColumnCount p' = GetColumnCount p ∧ wf p' ∧ ∀ rows, answers p' rows ↔ answers p rows.
Lemma replaces_refl p : wf p → replaces p p.
Proof. intros W. split; [done|]. split; [exact W|done]. Qed.
Lemma replaces_trans p q r : replaces p q → replaces q r → replaces p r.
Proof. intros (E1 & _ & A1) (E2 & W2 & A2). split_and!; [congruence|done|]. intros rows. by rewrite A2, A1. Qed.

(** ** Rewriting below a node *)

Lemma wf_children p : wf p → Forall wf (GetChildren p).
Proof. destruct p; cbn; intros H; repeat constructor; tauto. Qed.
Ltac one_child IH :=
  match goal with |- context [?f ?c ≫= _] => destruct (IH c) as (c' & -> & Ec & Wc & Ac); [set_solver|tauto|] end; cbn [mbind result_bind]; eexists; split; [done|]; split_and!; [done|..].
Lemma rewrite_children_replaces f p : wf p → (∀ c, c ∈ GetChildren p → wf c → ∃ c', f c = Ok c' ∧ replaces c c') → ∃ p', rewrite_children f p = Ok p' ∧ replaces p p'.
Proof.
  destruct p as [s oid name pred cols|s vs|s e c|s es c|s l r e jt|s l r lk rk jt aware live|s c n|s c obs|s c obs n|s c gs es ts|s c oid|s c oid es|s c oid]; cbn [rewrite_children GetChildren]; intros W IH; try (eexists; split; [done|by apply replaces_refl]);
    try (cbn in W; one_child IH; [cbn; rewrite ?Ec; tauto|cbn; intros rows; setoid_rewrite Ac; done]).
  all: cbn in W; destruct (IH l) as (l' & -> & El & Wl & Al); [set_solver|tauto|]; cbn [mbind result_bind]; destruct (IH r) as (r' & -> & Er & Wr & Ar); [set_solver|tauto|]; cbn [mbind result_bind]; eexists; split; [done|]; split_and!; [done|cbn; rewrite ?El, ?Er; tauto|].
  - cbn. intros rows. setoid_rewrite Al. setoid_rewrite Ar. by rewrite El.
  - intros rows. cbn [Plan.answers]. setoid_rewrite Al. setoid_rewrite Ar. apply exist_proper. intros ls. apply exist_proper. intros rs. by rewrite (hash_join_width_only _ _ _ _ _ _ _ _ _ _ _ El Er).
Qed.
(** A rule that rewrites the children, then the node. *)
Lemma bottom_up (R step : Plan → result Plan) : (∀ p, R p = (q ← rewrite_children R p; step q)) → (∀ q, wf q → ∃ q', step q = Ok q' ∧ replaces q q') → ∀ p, wf p → ∃ p', R p = Ok p' ∧ replaces p p'.
Proof.
  intros HR Hstep p. induction p as [p IH] using Plan_children_ind. intros W. rewrite HR. destruct (rewrite_children_replaces R p W) as (q & -> & Hq).
  { intros c Hc. rewrite Forall_forall in IH. by apply IH. }
  cbn [mbind result_bind]. destruct (Hstep q) as (q' & -> & Hq'); [apply Hq|]. exists q'. split; [done|by eapply replaces_trans].
Qed.

(** ** Filters over joins and scans *)

Lemma join_keep s l r np jt (Q : Row → bool) rows : jt ≠ LEFT → (∃ out, answers (NestedLoopJoinPlanNode s l r np jt) out ∧ rows = keep Q out) ↔
  ∃ ls rs, answers l ls ∧ answers r rs ∧ rows ≡ₚ pairs_where (λ a b, passes3 (RemapOntoCombined (GetColumnCount l) np) (a ++ b) && Q (a ++ b)) ls rs.
Proof.
  intros Hj. cbn [Plan.answers]. split.
  - intros (r0 & (ls & rs & Al & Ar & Hp) & ->). exists ls, rs. split_and!; [done|done|]. rewrite Hp, nested_loop_pairs, pairs_keep by done. done.
  - intros (ls & rs & Al & Ar & Hp). rewrite <- pairs_keep in Hp. apply keep_perm in Hp as (r0 & Hr0 & ->). exists r0. split; [|done]. exists ls, rs. split_and!; [done|done|]. by rewrite nested_loop_pairs.
Qed.
Lemma filter_of_join s s' l r pred np jt rows : jt ≠ LEFT → answers (FilterPlanNode s pred (NestedLoopJoinPlanNode s' l r np jt)) rows ↔
  ∃ ls rs, answers l ls ∧ answers r rs ∧ rows ≡ₚ pairs_where (λ a b, passes3 (RemapOntoCombined (GetColumnCount l) np) (a ++ b) && passes3 pred (a ++ b)) ls rs.
Proof. apply (join_keep s' l r np jt (passes3 pred)). Qed.
Lemma OptimizeMergeFilterNLJ_ok p : wf p → ∃ p', OptimizeMergeFilterNLJ p = Ok p' ∧ replaces p p'.
Proof.
  eapply bottom_up; [intros q; by destruct q|]. cbn beta. intros q W. destruct q as [| |s pred c| | | | | | | | | |]; try (eexists; split; [done|by apply replaces_refl]). destruct c as [| | | |s' l r np jt| | | | | | | |]; try (eexists; split; [done|by apply replaces_refl]).
  pose proof W as W0. cbn in W. destruct W as ((Wl & Wr & Es' & Hn & Cn & Hs & Ha & Ht) & Es & Hf & Cp). rewrite Es' in Hf. rewrite (RewriteExpressionForJoin_ok _ _ _ Hf). cbn [mbind result_bind]. destruct (IsPredicateTrue_ok np Cn) as (b & Eb & Hb). rewrite Eb. cbn [mbind result_bind].
  assert (condition_ok (map_columns (unflatten (GetColumnCount l)) pred)) as Cm by (by apply condition_ok_map). destruct b.
  - assert (jt = INNER) as -> by (destruct (decide (jt = INNER)); [done|by rewrite Ht in Eb]). eexists. split; [done|]. split_and!; [done|cbn; split_and!; try done; [lia|by apply unflatten_two_sided]|].
    intros rows. rewrite filter_of_join by done. cbn [Plan.answers]. setoid_rewrite (nested_loop_pairs INNER); [|done]. rewrite (remap_unflatten _ _ _ Hf). apply exist_proper. intros ls. apply exist_proper. intros rs. repeat (apply and_iff_compat_l). 
    assert (∀ row, passes3 (RemapOntoCombined (GetColumnCount l) np) row = true) as Hr. { intros row. unfold RemapOntoCombined. destruct np as [|v ty| | | | | | | |]; try done. by apply (Hb eq_refl). }
    rewrite (pairs_ext _ (λ a b, passes3 (RemapOntoCombined (GetColumnCount l) np) (a ++ b) && passes3 pred (a ++ b))); [done|]. intros a b _ _. by rewrite Hr.
  - case_bool_decide as Ej; [|eexists; split; [done|by apply replaces_refl]]. subst jt. eexists. split; [done|].
    split_and!; [done|cbn; split_and!; try done; [lia|apply Forall_app; split; [done|by apply unflatten_two_sided]|by apply Forall_app]|].
    intros rows. rewrite filter_of_join by done. cbn [Plan.answers]. setoid_rewrite (nested_loop_pairs INNER); [|done]. apply exist_proper. intros ls. apply exist_proper. intros rs. repeat (apply and_iff_compat_l).
    rewrite (pairs_ext _ (λ a b, passes3 (RemapOntoCombined (GetColumnCount l) np) (a ++ b) && passes3 pred (a ++ b))); [done|]. intros a b _ _. unfold RemapOntoCombined at 1. cbn [map_columns]. rewrite passes_And. f_equal.
    by rewrite <- (remap_unflatten _ _ _ Hf) at 2.
Qed.
Lemma OptimizeEliminateTrueFilter_ok p : wf p → ∃ p', OptimizeEliminateTrueFilter p = Ok p' ∧ replaces p p'.
Proof.
  eapply bottom_up; [intros q; by destruct q|]. cbn beta. intros q W. destruct q as [| |s pred c| | | | | | | | | |]; try (eexists; split; [done|by apply replaces_refl]).
  pose proof W as W0. cbn in W. destruct W as (Wc & Es & Hf & Cp). destruct (IsPredicateTrue_ok pred Cp) as (b & Eb & Hb). rewrite Eb. cbn [mbind result_bind]. destruct b; [|eexists; split; [done|by apply replaces_refl]].
  eexists. split; [done|]. split_and!; [done|done|]. intros rows. cbn [Plan.answers].
  assert (∀ r : list Row, keep (λ x, passes3 pred x) r = r) as Hk by (intros r; apply keep_all, Forall_forall; intros; by apply Hb). split; [intros Hr; exists rows; by rewrite Hk|]. intros (r & Hr & ->). by rewrite Hk.
Qed.
Lemma OptimizeMergeFilterScan_ok p : wf p → ∃ p', OptimizeMergeFilterScan p = Ok p' ∧ replaces p p'.
Proof.
  eapply bottom_up; [intros q; by destruct q|]. cbn beta. intros q W. destruct q as [| |s pred c| | | | | | | | | |]; try (eexists; split; [done|by apply replaces_refl]). destruct c as [s' oid name [e|] cols| | | | | | | | | | | |]; try (eexists; split; [done|by apply replaces_refl]).
  cbn in W. destruct W as ((-> & Ht & _) & Es & Hf & Cp). eexists. split; [done|]. split_and!; [done|cbn; split_and!; [done|by rewrite Es|by rewrite Es]|]. intros rows. cbn [Plan.answers passes_opt].
  rewrite (keep_all (λ _ : Row, true)) by (by apply Forall_forall). rewrite keep_perm. split; [intros (r & Hr & ->)|intros (r & Hr & ->)]; by exists r.
Qed.

(** ** Pushing conjuncts down *)

Definition is_inner_join (p : Plan) : bool := match p with NestedLoopJoinPlanNode _ _ _ _ INNER => true | _ => false end.
(** The rewritten subtree answers what passes the conjuncts. *)
Definition pushed (p : Plan) (pending : list Expr) (p' : Plan) : Prop :=
  GetColumnCount p' = GetColumnCount p ∧ wf p' ∧ ∀ rows, answers p' rows ↔ ∃ r, answers p r ∧ rows = keep (all_pass pending) r.
Lemma pushed_nothing p p' : pushed p [] p' ↔ replaces p p'.
Proof.
  assert (∀ r : list Row, keep (all_pass []) r = r) as Hk by (intros r; by apply keep_all, Forall_forall). unfold pushed, replaces. split; intros (E & W & A); (split_and!; [done|done|]); intros rows; rewrite A.
  - split; [intros (r & Hr & ->); by rewrite Hk|intros Hr; exists rows; by rewrite Hk].
  - split; [intros Hr; exists rows; by rewrite Hk|intros (r & Hr & ->); by rewrite Hk].
Qed.
Lemma push_other p pending : is_inner_join p = false →
  FilterPushDownInto p pending = (q ← rewrite_children (λ c, FilterPushDownInto c []) p; if bool_decide (pending = []) then Ok q else Ok (FilterPlanNode (OutputSchema q) (Conjoin pending) q)).
Proof. intros H. destruct p as [| | | |s l r e jt| | | | | | | |]; try done. by destruct jt. Qed.
Lemma push_other_ok p pending : is_inner_join p = false → wf p → (∀ c, c ∈ GetChildren p → wf c → ∃ c', FilterPushDownInto c [] = Ok c' ∧ replaces c c') →
  Forall (flat_in (GetColumnCount p)) pending → conjuncts_ok pending → ∃ p', FilterPushDownInto p pending = Ok p' ∧ pushed p pending p'.
Proof.
  intros Hi W IH Hf Hc. rewrite push_other by done. destruct (rewrite_children_replaces _ p W IH) as (q & -> & Hq). cbn [mbind result_bind]. case_bool_decide as E; [subst; exists q; split; [done|by apply pushed_nothing]|].
  eexists. split; [done|]. destruct Hq as (Ew & Wq & Aq). split_and!; [done|cbn; split_and!; [done|done| |by apply condition_ok_Conjoin]|].
  - unfold flat_in. rewrite Conjoin_refs. apply Forall_join. by rewrite Ew.
  - intros rows. cbn [Plan.answers]. setoid_rewrite Aq. apply exist_proper. intros r. apply and_iff_compat_l. by rewrite (keep_ext (passes3 (Conjoin pending)) (all_pass pending)) by (apply Forall_forall; intros; apply Conjoin_passes).
Qed.

Lemma sides_left lw refs : ∀ acc, foldl CombineSides acc ((λ ref : nat * nat, if bool_decide (ref.2 < lw)%nat then LEFT_SIDE else RIGHT_SIDE) <$> refs) = LEFT_SIDE →
  (acc = NEITHER ∨ acc = LEFT_SIDE) ∧ Forall (λ ref, ref.2 < lw)%nat refs.
Proof.
  induction refs as [|ref refs IH]; intros acc; cbn; [intros ->; by split; [right|]|]. intros [Ha Hr]%IH. case_bool_decide as E; destruct acc; cbn in Ha; repeat (rewrite ?bool_decide_true in Ha by done; rewrite ?bool_decide_false in Ha by done); try (by destruct Ha as [Ha|Ha]); split; auto.
Qed.
Lemma sides_right lw refs : ∀ acc, foldl CombineSides acc ((λ ref : nat * nat, if bool_decide (ref.2 < lw)%nat then LEFT_SIDE else RIGHT_SIDE) <$> refs) = RIGHT_SIDE →
  (acc = NEITHER ∨ acc = RIGHT_SIDE) ∧ Forall (λ ref, ¬ (ref.2 < lw)%nat) refs.
Proof.
  induction refs as [|ref refs IH]; intros acc; cbn; [intros ->; by split; [right|]|]. intros [Ha Hr]%IH. case_bool_decide as E; destruct acc; cbn in Ha; repeat (rewrite ?bool_decide_true in Ha by done; rewrite ?bool_decide_false in Ha by done); try (by destruct Ha as [Ha|Ha]); split; auto.
Qed.
Lemma left_conjunct lw e l r : SideOf e lw = LEFT_SIDE → length l = lw → passes3 e (l ++ r) = passes3 e l.
Proof. intros [_ H]%sides_left Hl. apply agrees_passes. eapply Forall_impl; [exact H|]. intros ref Hr. cbn in Hr. unfold cell_of. by rewrite lookup_app_l by lia. Qed.
Lemma right_conjunct lw e l r : SideOf e lw = RIGHT_SIDE → length l = lw → passes3 (RebaseRightToChild e lw) r = passes3 e (l ++ r).
Proof. intros [_ H]%sides_right Hl. apply map_columns_passes. eapply Forall_impl; [exact H|]. intros ref Hr. cbn in *. unfold cell_of. rewrite lookup_app_r by lia. by rewrite Hl. Qed.
Lemma distribute_ok lw rw cs : Forall (flat_in (lw + rw)) cs → conjuncts_ok cs → ∃ ls rs js, distribute lw cs = (ls, rs, js) ∧
  Forall (flat_in lw) ls ∧ Forall (flat_in rw) rs ∧ Forall (flat_in (lw + rw)) js ∧ conjuncts_ok ls ∧ conjuncts_ok rs ∧ conjuncts_ok js ∧
  ∀ l r, length l = lw → all_pass cs (l ++ r) = all_pass ls l && all_pass rs r && all_pass js (l ++ r).
Proof.
  induction cs as [|c cs IH]; intros Hf Hc; [by exists [], [], []|]. apply Forall_cons in Hf as [Hf1 Hf], Hc as [Hc1 Hc]. destruct (IH Hf Hc) as (ls & rs & js & E & H1 & H2 & H3 & H4 & H5 & H6 & H7). cbn [distribute]. rewrite E.
  destruct (SideOf c lw) eqn:Es.
  - exists ls, rs, (c :: js). split_and!; try done; [by constructor|by constructor|]. intros l r Hl. cbn [all_pass forallb]. fold (all_pass cs (l ++ r)). fold (all_pass js (l ++ r)). rewrite H7 by done. destruct (passes3 c (l ++ r)), (all_pass ls l), (all_pass rs r); done.
  - exists (c :: ls), rs, js. split_and!; try done; [|by constructor|].
    + constructor; [|done]. apply sides_left in Es as [_ Es]. unfold flat_in in *. apply Forall_forall. intros ref Hr. rewrite Forall_forall in Hf1, Es. split; [by apply Hf1|by apply Es].
    + intros l r Hl. cbn [all_pass forallb]. fold (all_pass cs (l ++ r)). fold (all_pass ls l). rewrite H7, (left_conjunct lw) by done. by rewrite !andb_assoc.
  - exists ls, (RebaseRightToChild c lw :: rs), js. split_and!; try done; [|constructor; [by apply condition_ok_map|done]|].
    + constructor; [|done]. apply sides_right in Es as [_ Es]. unfold flat_in, RebaseRightToChild in *. rewrite map_columns_refs. apply Forall_fmap, Forall_forall. intros ref Hr. rewrite Forall_forall in Hf1, Es. destruct (Hf1 _ Hr) as [_ Hn]. specialize (Es _ Hr). cbn in *. lia.
    + intros l r Hl. cbn [all_pass forallb]. fold (all_pass cs (l ++ r)). fold (all_pass rs r). rewrite H7, (right_conjunct lw _ l r) by done. destruct (passes3 c (l ++ r)), (all_pass ls l), (all_pass rs r); done.
  - exists ls, rs, (c :: js). split_and!; try done; [by constructor|by constructor|]. intros l r Hl. cbn [all_pass forallb]. fold (all_pass cs (l ++ r)). fold (all_pass js (l ++ r)). rewrite H7 by done. destruct (passes3 c (l ++ r)), (all_pass ls l), (all_pass rs r); done.
Qed.
(** What an inner join distributes: the conjuncts handed down and its own. *)
Lemma join_conjuncts_ok lw rw e pending : two_sided lw rw e → condition_ok e → Forall (flat_in (lw + rw)) pending → conjuncts_ok pending →
  ∃ b cs, IsPredicateTrue e = Ok b ∧ cs = pending ++ (if b then [] else SplitConjuncts (FlattenJoinPredicate e lw)) ∧ Forall (flat_in (lw + rw)) cs ∧ conjuncts_ok cs ∧
    ∀ row, all_pass cs row = passes3 (RemapOntoCombined lw e) row && all_pass pending row.
Proof.
  intros He Ce Hp Cp. destruct (IsPredicateTrue_ok e Ce) as (b & Eb & Hb). exists b. eexists. split_and!; [done|done|..].
  - apply Forall_app. split; [done|]. destruct b; [constructor|]. apply Forall_join. rewrite SplitConjuncts_refs. by apply flatten_flat.
  - apply Forall_app. split; [done|]. destruct b; [constructor|]. by apply condition_ok_conjuncts, condition_ok_map.
  - intros row. rewrite all_pass_app. rewrite andb_comm. destruct b; [|by rewrite SplitConjuncts_passes].
    assert (passes3 (RemapOntoCombined lw e) row = true) as -> by (unfold RemapOntoCombined; destruct e as [|v ty| | | | | | | |]; try done; by apply (Hb eq_refl)). done.
Qed.
Lemma push_inner_ok s l r e pending : wf (NestedLoopJoinPlanNode s l r e INNER) →
  (∀ c pend, c = l ∨ c = r → wf c → Forall (flat_in (GetColumnCount c)) pend → conjuncts_ok pend → ∃ c', FilterPushDownInto c pend = Ok c' ∧ pushed c pend c') →
  Forall (flat_in (length s)) pending → conjuncts_ok pending → ∃ p', FilterPushDownInto (NestedLoopJoinPlanNode s l r e INNER) pending = Ok p' ∧ pushed (NestedLoopJoinPlanNode s l r e INNER) pending p'.
Proof.
  intros (Wl & Wr & Es & He & Ce & _) IH Hf Hc. rewrite Es in Hf. destruct (join_conjuncts_ok _ _ _ _ He Ce Hf Hc) as (b & cs & Eb & Ecs & Hcs & Ccs & Hpass). cbn [FilterPushDownInto]. rewrite Eb. cbn [mbind result_bind]. rewrite <- Ecs.
  destruct (distribute_ok _ _ _ Hcs Ccs) as (lc & rc & js & -> & Hlc & Hrc & Hjs & Clc & Crc & Cjs & Hsplit). destruct (IH l lc) as (l' & -> & El & Wl' & Al); [by left|done|done|done|]. cbn [mbind result_bind].
  destruct (IH r rc) as (r' & -> & Er & Wr' & Ar); [by right|done|done|done|]. cbn [mbind result_bind]. assert (flat_in (GetColumnCount l + GetColumnCount r) (Conjoin js)) as Hj by (unfold flat_in; rewrite Conjoin_refs; by apply Forall_join).
  rewrite (RewriteExpressionForJoin_ok _ _ _ Hj). cbn [mbind result_bind]. eexists. split; [done|]. split_and!; [done| |].
  - cbn. rewrite El, Er. split_and!; try done; [by apply unflatten_two_sided|by apply condition_ok_map, condition_ok_Conjoin].
  - intros rows. rewrite (join_keep s l r e INNER (all_pass pending)) by done. cbn [Plan.answers]. setoid_rewrite (nested_loop_pairs INNER); [|done]. rewrite El, (remap_unflatten _ _ _ Hj).
    assert (∀ ls0 rs0, answers l ls0 → pairs_where (λ a b, passes3 (Conjoin js) (a ++ b)) (keep (all_pass lc) ls0) (keep (all_pass rc) rs0) =
      pairs_where (λ a b, passes3 (RemapOntoCombined (GetColumnCount l) e) (a ++ b) && all_pass pending (a ++ b)) ls0 rs0) as Hx.
    { intros ls0 rs0 H0. rewrite pairs_sides. apply pairs_ext. intros a b' Ha _. rewrite <- Hpass, Conjoin_passes. symmetry. apply Hsplit. apply (answers_wide table aggregate write aggregate_width write_width) in H0; [|done]. by eapply Forall_forall in H0. }
    split.
    + intros (ls & rs & (ls0 & H0 & ->)%Al & (rs0 & H1 & ->)%Ar & Hp). exists ls0, rs0. split_and!; [done|done|]. by rewrite Hp, Hx.
    + intros (ls0 & rs0 & H0 & H1 & Hp). exists (keep (all_pass lc) ls0), (keep (all_pass rc) rs0). split_and!; [apply Al; by exists ls0|apply Ar; by exists rs0|]. by rewrite Hx.
Qed.
Lemma FilterPushDownInto_ok p : wf p → ∀ pending, Forall (flat_in (GetColumnCount p)) pending → conjuncts_ok pending → ∃ p', FilterPushDownInto p pending = Ok p' ∧ pushed p pending p'.
Proof.
  induction p as [p IH] using Plan_children_ind. rewrite Forall_forall in IH. intros W pending Hf Hc. destruct (is_inner_join p) eqn:Ei.
  - destruct p as [| | | |s l r e jt| | | | | | | |]; try done. destruct jt; try done. apply push_inner_ok; try done. intros c pend [-> | ->] Wc; apply IH; try done; set_solver.
  - apply push_other_ok; try done. intros c Hin Wc. destruct (IH c Hin Wc [] ltac:(constructor) ltac:(constructor)) as (c' & E & Hp). exists c'. split; [done|]. by apply pushed_nothing.
Qed.
Lemma OptimizeFilterPushDown_ok p : wf p → ∃ p', OptimizeFilterPushDown p = Ok p' ∧ replaces p p'.
Proof. intros W. destruct (FilterPushDownInto_ok p W [] ltac:(constructor) ltac:(constructor)) as (p' & E & Hp). exists p'. split; [done|]. by apply pushed_nothing. Qed.

(** ** Equi-joins *)

Lemma OptimizeNLJAsHashJoin_ok p : wf p → ∃ p', OptimizeNLJAsHashJoin p = Ok p' ∧ replaces p p'.
Proof.
  eapply bottom_up; [intros q; by destruct q|]. cbn beta. intros q W. destruct q as [| | | |s l r e jt| | | | | | | |]; try (eexists; split; [done|by apply replaces_refl]).
  destruct (HasOrPredicate e) eqn:Eo; [eexists; split; [done|by apply replaces_refl]|]. pose proof W as W0. cbn in W. destruct W as (Wl & Wr & Es & He & Ce & Hs & Ha & _).
  destruct (ExtractKeys_ok _ _ _ Eo He Ce) as (lk & rk & b & -> & Hx). cbn [mbind result_bind]. destruct b; cbn [negb orb]; [|eexists; split; [done|by apply replaces_refl]]. case_bool_decide; [eexists; split; [done|by apply replaces_refl]|].
  destruct (Hx eq_refl) as (H1 & H2 & H3 & H4). eexists. split; [done|]. split_and!; [done| |].
  - cbn. split_and!; try done; [by eapply Forall2_length|]. by rewrite (bool_decide_false (jt = SEMI)), (bool_decide_false (jt = ANTI)).
  - intros rows. cbn [Plan.answers]. replace (length s - GetColumnCount l)%nat with (GetColumnCount r) by lia. apply exist_proper. intros ls. apply exist_proper. intros rs. split; intros (Al & Ar & Hp); (split_and!; [done|done|]); rewrite Hp; [|symmetry];
      apply hash_join_nested; try done; by eapply answers_wide.
Qed.

(** ** Projections and limits *)

Lemma with_schema_answers s p rows : length s = GetColumnCount p → answers (with_schema s p) rows ↔ answers p rows.
Proof. intros E. destruct p; cbn [with_schema OutputSchema Plan.answers] in *; rewrite ?E; done. Qed.
Lemma with_schema_replaces s p : length s = GetColumnCount p → wf p → replaces p (with_schema s p).
Proof. intros E W. split_and!; [by destruct p|destruct p; cbn in *; rewrite ?E; done|]. intros rows. by apply with_schema_answers. Qed.
Lemma identity_result n : ∀ es row, identity_from n es = true → length row = (n + length es)%nat → results_of es row = drop n row.
Proof.
  intros es. revert n. induction es as [|e es IH]; intros n row; cbn [identity_from]; [intros _ Hl; by rewrite drop_ge by (cbn in Hl; lia)|].
  destruct e as [[|t] c ty| | | | | | | | |]; try done. intros [->%bool_decide_eq_true Hi]%andb_true_iff Hl. destruct (row !! n) as [v|] eqn:Ev; [|apply lookup_ge_None in Ev; cbn in Hl; lia].
  rewrite (drop_S _ v) by done. unfold results_of. cbn. f_equal; [by rewrite Ev|]. apply IH; [done|]. cbn in Hl. lia.
Qed.
Lemma OptimizeMergeProjection_ok p : wf p → ∃ p', OptimizeMergeProjection p = Ok p' ∧ replaces p p'.
Proof.
  eapply bottom_up; [intros q; by destruct q|]. cbn beta. intros q W. destruct q as [| | |s es c| | | | | | | | |]; try (eexists; split; [done|by apply replaces_refl]). cbn [OutputSchema].
  destruct (same_types (OutputSchema c) s) eqn:Et; cbn [negb]; [|eexists; split; [done|by apply replaces_refl]]. destruct (identity_from 0 es) eqn:Ei; cbn [negb]; [|eexists; split; [done|by apply replaces_refl]].
  eexists. split; [done|]. apply bool_decide_eq_true in Et. apply (f_equal length) in Et. rewrite !length_fmap in Et. cbn in W. destruct W as (Wc & He & Hf). destruct (with_schema_replaces s c) as (E1 & W1 & A1); [done|done|]. split_and!; [cbn [OutputSchema]; congruence|done|].
  intros rows. rewrite A1. cbn [Plan.answers]. assert (∀ r, answers c r → results_of es <$> r = r) as Hid.
  { intros r Hr. apply (answers_wide table aggregate write aggregate_width write_width) in Hr; [|done]. induction Hr as [|x r Hx _ IH]; [done|]. cbn [fmap list_fmap]. f_equal; [|exact IH]. rewrite (identity_result 0); [done|done|]. cbn. lia. }
  split; [intros Hr; exists rows; by rewrite Hid|]. intros (r & Hr & ->). by rewrite Hid.
Qed.
Lemma OptimizeSortLimitAsTopN_ok p : wf p → ∃ p', OptimizeSortLimitAsTopN p = Ok p' ∧ replaces p p'.
Proof.
  eapply bottom_up; [intros q; by destruct q|]. cbn beta. intros q W. destruct q as [| | | | | |s c n| | | | | |]; try (eexists; split; [done|by apply replaces_refl]). destruct c as [| | | | | | |s' c obs| | | | |]; try (eexists; split; [done|by apply replaces_refl]).
  eexists. split; [done|]. cbn in W. split_and!; [done|cbn; destruct W as ((W & E & F) & E'); split_and!; [done|cbn in E'; congruence|done]|].
  intros rows. cbn [Plan.answers]. split; [intros (r & so & Hr & Hp & Hs & ->); exists so; split; [by exists r|done]|intros (so & (r & Hr & Hp & Hs) & ->); by exists r, so].
Qed.
End rules.
End meaning.
