(* ===== verification/JoinOrderRegion.v ===== *)
(** * The search for a join order returns a tree of the relations

    Sets of relations, the union-find over join keys, the greedy search, and the relations of a region; then the plan made of the tree, whose rows are those of
    the filter over the cross product. *)

From Stdlib Require Import Floats.SpecFloat.
From stdpp Require Import sorting.
From S2P Require Import Prelude TablePage TableHeap BTreePage BPlusTree GenericKey NumericText StringHeap ValidityMask SortKey VectorOps SortKeyOrder StreamOperator RowFormat RowScatter HashInvariant VectorHash HashSystem HashJoin JoinProbe JoinExecute ResultCollector LikeMatch VectorKernels ColumnReads ExpressionExecutor ExpressionEval ExactFloat Aggregate Plan Optimizer JoinOrder OptimizerRules.

(** ** Sets of relations *)

Section meaning.
Context {casts : Casts}.
Definition has_bit (s : Z) (i : nat) : Prop := Z.testbit s (Z.of_nat i) = true.
Lemma singleton_bit i j : has_bit (Singleton i) j ↔ j = i.
Proof. unfold has_bit, Singleton. rewrite Z.shiftl_1_l, Z.pow2_bits_eqb by lia. rewrite Z.eqb_eq. lia. Qed.
Lemma union_bit a b i : has_bit (rs_Union a b) i ↔ has_bit a i ∨ has_bit b i.
Proof. unfold has_bit, rs_Union. rewrite Z.lor_spec. apply orb_true_iff. Qed.
Lemma land_zero a b : 0 ≤ a → Z.land a b = 0 ↔ ∀ i : nat, has_bit a i → Z.testbit b (Z.of_nat i) = false.
Proof.
  intros Ha. unfold has_bit. split.
  - intros E i Hi. assert (Z.testbit (Z.land a b) (Z.of_nat i) = false) as H by (rewrite E; apply Z.bits_0). rewrite Z.land_spec, Hi in H. done.
  - intros H. apply Z.bits_inj_iff'. intros n Hn. rewrite Z.land_spec, Z.bits_0. specialize (H (Z.to_nat n)). rewrite Z2Nat.id in H by done. destruct (Z.testbit a n); [by rewrite H|done].
Qed.
Lemma subset_bits a b : 0 ≤ a → IsSubsetOf a b = true ↔ ∀ i, has_bit a i → has_bit b i.
Proof. intros Ha. unfold IsSubsetOf. rewrite bool_decide_eq_true, land_zero by done. unfold has_bit. split; intros H i Hi; specialize (H i Hi); rewrite Z.lnot_spec in * by lia; by destruct (Z.testbit b (Z.of_nat i)). Qed.
Lemma intersects_bits a b : 0 ≤ a → Intersects a b = false ↔ ∀ i, has_bit a i → ¬ has_bit b i.
Proof. intros Ha. unfold Intersects. rewrite negb_false_iff, bool_decide_eq_true, land_zero by done. unfold has_bit. split; intros H i Hi; specialize (H i Hi); [congruence|by destruct (Z.testbit b _)]. Qed.
Lemma contains_bit a i : 0 ≤ a → rs_Contains a i = true ↔ has_bit a i.
Proof.
  intros Ha. unfold rs_Contains. rewrite Z.land_comm, negb_true_iff, bool_decide_eq_false, land_zero by (unfold Singleton; rewrite Z.shiftl_mul_pow2 by lia; lia). unfold has_bit at 2. split.
  - intros H. destruct (Z.testbit a (Z.of_nat i)) eqn:E; [done|]. exfalso. apply H. intros j ->%singleton_bit. done.
  - intros H H'. specialize (H' i ltac:(by apply singleton_bit)). congruence.
Qed.
Lemma singleton_nonneg i : 0 ≤ Singleton i.
Proof. unfold Singleton. rewrite Z.shiftl_mul_pow2 by lia. lia. Qed.
Lemma union_nonneg a b : 0 ≤ a → 0 ≤ b → 0 ≤ rs_Union a b.
Proof. intros. by apply Z.lor_nonneg. Qed.
Lemma leaf_set_spec ids : 0 ≤ leaf_set ids ∧ ∀ i, has_bit (leaf_set ids) i ↔ i ∈ ids.
Proof.
  unfold leaf_set. assert (∀ s, 0 ≤ s → 0 ≤ foldl (λ s id, rs_Union s (Singleton id)) s ids ∧ ∀ i, has_bit (foldl (λ s id, rs_Union s (Singleton id)) s ids) i ↔ has_bit s i ∨ i ∈ ids) as H.
  { induction ids as [|id ids IH]; intros s Hs; cbn [foldl]; [set_solver|]. destruct (IH (rs_Union s (Singleton id))) as [H1 H2]; [by apply union_nonneg, singleton_nonneg|]. split; [done|]. intros i. rewrite H2, union_bit, singleton_bit. set_solver. }
  destruct (H 0 ltac:(done)) as [H1 H2]. split; [done|]. intros i. rewrite H2. unfold has_bit. rewrite Z.bits_0. split; [by intros [?|?]|by right].
Qed.
(** A set of two or more relations is no part of a single one. *)
Lemma count_many s i : (1 < rs_Count s)%nat → ∃ j, j ≠ i ∧ has_bit s j.
Proof.
  unfold rs_Count. intros Hc. destruct (filter (λ id, Z.testbit s (Z.of_nat id) = true) (seq 0 64)) as [|x [|y l]] eqn:E; cbn in Hc; try lia. assert (NoDup (x :: y :: l)) as Hn by (rewrite <- E; apply NoDup_filter, NoDup_seq).
  assert (has_bit s x) as Hx by (assert (x ∈ x :: y :: l) as H by set_solver; rewrite <- E in H; by apply list_elem_of_filter in H as [H _]). assert (has_bit s y) as Hy by (assert (y ∈ x :: y :: l) as H by set_solver; rewrite <- E in H; by apply list_elem_of_filter in H as [H _]).
  destruct (decide (x = i)) as [->|]; [|by exists x]. exists y. split; [|done]. apply NoDup_cons in Hn as [Hn _]. set_solver.
Qed.

(** ** The union-find over the key columns *)

(** [root] names the class of each column; [h] falls along the parents. *)
Record uf_ok (uf : list nat) (root h : nat → nat) : Prop := {
  uf_parent : ∀ x p, uf !! x = Some p → (p < length uf)%nat ∧ root p = root x ∧ (p ≠ x → (h p < h x)%nat);
  uf_root : ∀ x, (x < length uf)%nat → uf !! root x = Some (root x);
  uf_self : ∀ x, uf !! x = Some x → root x = x }.
Definition below (h : nat → nat) (w x : nat) : nat := length (filter (λ y, (h y < h x)%nat) (seq 0 w)).
Lemma filter_length_lt (P Q : nat → Prop) `{!∀ x, Decision (P x), !∀ x, Decision (Q x)} l y : (∀ x, P x → Q x) → y ∈ l → ¬ P y → Q y → (length (filter P l) < length (filter Q l))%nat.
Proof.
  intros HPQ. induction l as [|x l IH]; intros Hy HP HQ; [by apply not_elem_of_nil in Hy|]. rewrite !filter_cons. assert (length (filter P l) ≤ length (filter Q l))%nat as Hle.
  { clear -HPQ. induction l as [|x l IH]; [done|]. rewrite !filter_cons. repeat case_decide; cbn; try lia. exfalso. auto. }
  apply elem_of_cons in Hy as [->|Hy]; [rewrite decide_False, decide_True by done; cbn; lia|]. specialize (IH Hy HP HQ). repeat case_decide; cbn; try lia. exfalso. auto.
Qed.
Lemma below_lt h w p x : (h p < h x)%nat → (p < w)%nat → (below h w p < below h w x)%nat.
Proof. intros Hh Hp. unfold below. apply (filter_length_lt _ _ _ p); [intros y; cbn; lia|apply elem_of_seq; lia|lia|done]. Qed.
Lemma uf_halve uf root h x p g : uf_ok uf root h → uf !! x = Some p → p ≠ x → uf !! p = Some g → uf_ok (<[x := g]> uf) root h ∧ (h g < h x)%nat ∧ (g < length uf)%nat ∧ root g = root x.
Proof.
  intros U Hx Hne Hp. destruct (uf_parent _ _ _ U _ _ Hx) as (Hpw & Hpr & Hph), (uf_parent _ _ _ U _ _ Hp) as (Hgw & Hgr & Hgh). assert (h g < h x)%nat as Hh by (specialize (Hph Hne); destruct (decide (g = p)) as [->|E]; [done|]; specialize (Hgh E); lia).
  split_and!; [|done|done|congruence]. split.
  - intros y q. rewrite length_insert. intros Hq. destruct (decide (y = x)) as [->|E]; [rewrite list_lookup_insert_eq in Hq by (by eapply lookup_lt_Some); injection Hq as <-; split_and!; [done|congruence|done]|]. rewrite list_lookup_insert_ne in Hq by done. by apply (uf_parent _ _ _ U).
  - intros y. rewrite length_insert. intros Hy. pose proof (uf_root _ _ _ U y Hy) as Hr. destruct (decide (root y = x)) as [E|E]; [|by rewrite list_lookup_insert_ne]. rewrite E, Hx in Hr. injection Hr as Hr. by destruct Hne.
  - intros y Hy. destruct (decide (y = x)) as [->|E]; [|rewrite list_lookup_insert_ne in Hy by done; by apply (uf_self _ _ _ U)]. rewrite list_lookup_insert_eq in Hy by (by eapply lookup_lt_Some). injection Hy as ->. lia.
Qed.
Lemma uf_find_ok root h fuel : ∀ uf x, uf_ok uf root h → (x < length uf)%nat → (below h (length uf) x ≤ fuel)%nat →
  ∃ uf', uf_find fuel uf x = Ok (uf', root x) ∧ uf_ok uf' root h ∧ length uf' = length uf.
Proof.
  induction fuel as [|fuel IH]; intros uf x U Hx Hb; destruct (lookup_lt_is_Some_2 uf x Hx) as [p Hp]; cbn [uf_find]; rewrite Hp; case_bool_decide as E; try (subst p; exists uf; by rewrite (uf_self _ _ _ U x Hp)).
  - destruct (uf_parent _ _ _ U _ _ Hp) as (Hpw & _ & Hh). pose proof (below_lt h _ _ _ (Hh E) Hpw). lia.
  - destruct (uf_parent _ _ _ U _ _ Hp) as (Hpw & _ & _). destruct (lookup_lt_is_Some_2 uf p Hpw) as [g Hg]. rewrite Hg. destruct (uf_halve _ _ _ _ _ _ U Hp E Hg) as (U' & Hh & Hgw & Hgr).
    destruct (IH (<[x := g]> uf) g U') as (uf' & Ef & U'' & Hl); [by rewrite length_insert|rewrite length_insert; pose proof (below_lt h _ _ _ Hh Hgw); lia|]. exists uf'. rewrite Ef, Hgr. split; [done|]. split; [done|]. by rewrite Hl, length_insert.
Qed.
Lemma find_ok uf root h x : uf_ok uf root h → (x < length uf)%nat → ∃ uf', uf_find (length uf) uf x = Ok (uf', root x) ∧ uf_ok uf' root h ∧ length uf' = length uf.
Proof. intros U Hx. apply uf_find_ok; [done|done|]. unfold below. pose proof (length_filter (λ y, (h y < h x)%nat) (seq 0 (length uf))) as H. by rewrite length_seq in H. Qed.
Lemma uf_initial w : uf_ok (seq 0 w) id id.
Proof.
  split.
  - intros x p [-> Hx]%lookup_seq. rewrite length_seq. cbn. split; [lia|]. by split.
  - intros x. rewrite length_seq. intros Hx. by rewrite lookup_seq_lt.
  - done.
Qed.
(** The height above which a class of columns is moved. *)
Definition top (h : nat → nat) (w : nat) : nat := foldr (λ x m, Nat.max (h x) m) 0%nat (seq 0 w).
Lemma top_ge h w x : (x < w)%nat → (h x ≤ top h w)%nat.
Proof. intros Hx. unfold top. assert (x ∈ seq 0 w) as Hin by (apply elem_of_seq; lia). induction (seq 0 w) as [|y l IH]; [by apply not_elem_of_nil in Hin|]. cbn. apply elem_of_cons in Hin as [->|Hin]; [lia|]. specialize (IH Hin). lia. Qed.
Lemma uf_link uf root h a b : uf_ok uf root h → (a < length uf)%nat → (b < length uf)%nat → ∃ root' h', uf_ok (<[root a := root b]> uf) root' h'.
Proof.
  intros U Ha Hb. set (ra := root a). set (rb := root b). pose proof (uf_root _ _ _ U a Ha) as Hra. pose proof (uf_root _ _ _ U b Hb) as Hrb. fold ra in Hra. fold rb in Hrb. destruct (decide (ra = rb)) as [E|Hne]; [exists root, h; rewrite <- E, list_insert_id by done; done|].
  assert (ra < length uf)%nat as Hraw by (by eapply lookup_lt_Some). assert (rb < length uf)%nat as Hrbw by (by eapply lookup_lt_Some). assert (root ra = ra) as Era by (by apply (uf_self _ _ _ U)). assert (root rb = rb) as Erb by (by apply (uf_self _ _ _ U)).
  exists (λ x, if bool_decide (root x = ra) then rb else root x), (λ x, if bool_decide (root x = ra) then (h x + S (top h (length uf)))%nat else h x). split.
  - intros x p. rewrite length_insert. intros Hp. destruct (decide (x = ra)) as [->|E].
    + rewrite list_lookup_insert_eq in Hp by done. injection Hp as <-. rewrite Erb, Era, (bool_decide_true (ra = ra)) by done. rewrite bool_decide_false by done. split_and!; [done|done|]. intros _. pose proof (top_ge h _ _ Hrbw). lia.
    + rewrite list_lookup_insert_ne in Hp by done. destruct (uf_parent _ _ _ U _ _ Hp) as (H1 & H2 & H3). rewrite H2. split_and!; [done|done|]. intros Hx. specialize (H3 Hx). case_bool_decide; lia.
  - intros x. rewrite length_insert. intros Hx. case_bool_decide as E; [by rewrite list_lookup_insert_ne|]. rewrite list_lookup_insert_ne by congruence. by apply (uf_root _ _ _ U).
  - intros x Hx. destruct (decide (x = ra)) as [->|E]; [rewrite list_lookup_insert_eq in Hx by done; congruence|]. rewrite list_lookup_insert_ne in Hx by done. pose proof (uf_self _ _ _ U x Hx) as Hs. rewrite Hs. by rewrite bool_decide_false.
Qed.

(** ** Relations and their columns *)

Record relations_ok (rels : list JoinRelation) (w : nat) : Prop := {
  ro_id : ∀ i r, rels !! i = Some r → id_ r = i;
  ro_owner : ∀ f, (f < w)%nat → ∃ i r, rels !! i = Some r ∧ owns f r = true;
  ro_unique : ∀ f i j r s, rels !! i = Some r → rels !! j = Some s → owns f r = true → owns f s = true → i = j;
  ro_bound : ∀ f i r, rels !! i = Some r → owns f r = true → (f < w)%nat }.
Lemma OwnerLeaf_ok rels w f i r : relations_ok rels w → rels !! i = Some r → owns f r = true → OwnerLeaf rels f = Ok i.
Proof.
  intros [Hid _ Hu _] Hi Ho. assert (∀ l k, (∀ j s, l !! j = Some s → rels !! (k + j)%nat = Some s) → ∀ j s, l !! j = Some s → owns f s = true → OwnerLeaf l f = Ok (k + j)%nat) as H; [|apply (H rels 0%nat ltac:(done) i r Hi Ho)].
  induction l as [|x l IH]; intros k Hl j s Hj Hs; [done|]. cbn [OwnerLeaf]. destruct (owns f x) eqn:Ex.
  - pose proof (Hl 0%nat x eq_refl) as Hx. rewrite Nat.add_0_r in Hx. rewrite (Hid _ _ Hx). f_equal. eapply Hu; [exact Hx|by apply Hl|done|done].
  - destruct j as [|j]; [cbn in Hj; congruence|]. replace (k + S j)%nat with (S k + j)%nat by lia. eapply IH; [|exact Hj|done]. intros m t Hm. replace (S k + m)%nat with (k + S m)%nat by lia. by apply Hl.
Qed.
Lemma OwnerLeaf_total rels w f : relations_ok rels w → (f < w)%nat → ∃ i r, OwnerLeaf rels f = Ok i ∧ rels !! i = Some r ∧ owns f r = true.
Proof. intros H Hf. destruct (ro_owner _ _ H f Hf) as (i & r & Hi & Ho). exists i, r. split; [by eapply OwnerLeaf_ok|done]. Qed.

Definition total_width (leaves : list Plan) : nat := sum_list_with (λ p, GetColumnCount p) leaves.
Lemma total_cons p leaves : total_width (p :: leaves) = (GetColumnCount p + total_width leaves)%nat.
Proof. done. Qed.
Lemma add_relations_spec rows leaves : ∀ id off, ∃ rels, add_relations rows leaves id off = (rels, (off + total_width leaves)%nat) ∧ length rels = length leaves ∧
  ∀ i leaf, leaves !! i = Some leaf → ∃ card, rels !! i = Some (mkRelation (id + i) card leaf (off + total_width (take i leaves)) (GetColumnCount leaf)).
Proof.
  induction leaves as [|p leaves IH]; intros id off; cbn [add_relations]; [exists []; split; [f_equal; unfold total_width; cbn; lia|by split]|].
  destruct (IH (S id) (off + GetColumnCount p)%nat) as (rels & E & Hl & Hr). rewrite E. eexists. split; [f_equal; unfold total_width; cbn; lia|]. split; [cbn; by rewrite Hl|]. intros [|i] leaf Hi; cbn in Hi.
  - injection Hi as ->. exists (leaf_card rows leaf). cbn [lookup list_lookup]. f_equal. f_equal; unfold total_width; cbn; lia.
  - destruct (Hr i leaf Hi) as (card & Hc). exists card. etransitivity; [exact Hc|]. f_equal. f_equal; unfold total_width; cbn; lia.
Qed.
Lemma total_take leaves i leaf : leaves !! i = Some leaf → (total_width (take (S i) leaves) = total_width (take i leaves) + GetColumnCount leaf)%nat.
Proof. intros Hi. unfold total_width. rewrite (take_S_r _ _ leaf) by done. rewrite sum_list_with_app. cbn. lia. Qed.
Lemma total_take_le leaves i j : (i ≤ j)%nat → (total_width (take i leaves) ≤ total_width (take j leaves))%nat.
Proof. intros H. replace (take j leaves) with (take i leaves ++ take (j - i) (drop i leaves)) by (by rewrite take_take_drop; f_equal; lia). unfold total_width. rewrite sum_list_with_app. lia. Qed.
Lemma total_bound leaves i leaf : leaves !! i = Some leaf → (total_width (take i leaves) + GetColumnCount leaf ≤ total_width leaves)%nat.
Proof. intros Hi. rewrite <- (total_take _ _ _ Hi). rewrite <- (take_ge leaves (length leaves)) at 2 by done. apply total_take_le. apply lookup_lt_Some in Hi. lia. Qed.
Lemma total_owner leaves : ∀ f, (f < total_width leaves)%nat → ∃ i leaf, leaves !! i = Some leaf ∧ (total_width (take i leaves) ≤ f < total_width (take i leaves) + GetColumnCount leaf)%nat.
Proof.
  induction leaves as [|p leaves IH]; intros f Hf; [cbn in Hf; lia|]. destruct (decide (f < GetColumnCount p)%nat) as [Hp|Hp]; [exists 0%nat, p; split; [done|]; change (total_width (take 0 (p :: leaves))) with 0%nat; lia|].
  destruct (IH (f - GetColumnCount p)%nat) as (i & leaf & Hi & Hb); [rewrite total_cons in Hf; lia|]. exists (S i), leaf. split; [done|]. cbn [take]. rewrite total_cons. lia.
Qed.
Definition region_relations (rels : list JoinRelation) (leaves : list Plan) : Prop :=
  length rels = length leaves ∧ ∀ i leaf, leaves !! i = Some leaf → ∃ card, rels !! i = Some (mkRelation i card leaf (total_width (take i leaves)) (GetColumnCount leaf)).
Lemma region_relation rels leaves i r : region_relations rels leaves → rels !! i = Some r → ∃ leaf card, leaves !! i = Some leaf ∧ r = mkRelation i card leaf (total_width (take i leaves)) (GetColumnCount leaf).
Proof. intros [Hl Hr] Hi. destruct (lookup_lt_is_Some_2 leaves i) as [leaf Hleaf]; [rewrite <- Hl; by eapply lookup_lt_Some|]. destruct (Hr i leaf Hleaf) as (card & Hc). exists leaf, card. split; [done|]. congruence. Qed.
Lemma region_ok rels leaves : region_relations rels leaves → relations_ok rels (total_width leaves).
Proof.
  intros HR. split.
  - intros i r Hi. by destruct (region_relation _ _ _ _ HR Hi) as (leaf & card & _ & ->).
  - intros f Hf. destruct (total_owner leaves f Hf) as (i & leaf & Hi & Hb). destruct (proj2 HR i leaf Hi) as (card & Hc). eexists i, _. split; [exact Hc|]. by apply bool_decide_true.
  - intros f i j r s Hi Hj. destruct (region_relation _ _ _ _ HR Hi) as (li & ci & Li & ->), (region_relation _ _ _ _ HR Hj) as (lj & cj & Lj & ->). unfold owns. cbn. rewrite !bool_decide_eq_true. intros Ho Ho'.
    destruct (Nat.lt_trichotomy i j) as [Hlt|[?|Hlt]]; [|done|]; [pose proof (total_take_le leaves (S i) j Hlt) as H; rewrite (total_take _ _ _ Li) in H; lia|pose proof (total_take_le leaves (S j) i Hlt) as H; rewrite (total_take _ _ _ Lj) in H; lia].
  - intros f i r Hi. destruct (region_relation _ _ _ _ HR Hi) as (li & ci & Li & ->). unfold owns. cbn. rewrite bool_decide_eq_true. pose proof (total_bound _ _ _ Li). lia.
Qed.

(** ** Annotated edges *)

Definition keys_in (w : nat) (e : PendingEdge) : Prop := match keys_ e with Some (a, b) => (a < w)%nat ∧ (b < w)%nat | None => True end.
Lemma uf_unions_ok w pending : Forall (keys_in w) pending → ∀ uf root h, uf_ok uf root h → length uf = w → ∃ uf' root' h', uf_unions uf pending = Ok uf' ∧ uf_ok uf' root' h' ∧ length uf' = w.
Proof.
  induction 1 as [|e pending He _ IH]; intros uf root h U Hl; cbn [uf_unions]; [by exists uf, root, h|]. unfold keys_in in He. destruct (keys_ e) as [[a b]|]; cbn [mbind result_bind]; [|by eapply IH]. unfold uf_union.
  destruct (find_ok uf root h b U) as (uf1 & -> & U1 & L1); [lia|]. cbn [mbind result_bind]. destruct (find_ok uf1 root h a U1) as (uf2 & -> & U2 & L2); [lia|]. cbn [mbind result_bind].
  destruct (uf_link uf2 root h a b U2) as (root' & h' & U3); [lia|lia|]. eapply IH; [exact U3|]. rewrite length_insert. lia.
Qed.
Lemma note_ndv_ok rels w uf root h ndv f : relations_ok rels w → uf_ok uf root h → length uf = w → (f < w)%nat → ∃ uf' ndv', note_ndv rels f (uf, ndv) = Ok (uf', ndv') ∧ uf_ok uf' root h ∧ length uf' = w.
Proof.
  intros HR U Hl Hf. unfold note_ndv. cbn [fst snd]. destruct (find_ok uf root h f U) as (uf1 & -> & U1 & L1); [lia|]. cbn [mbind result_bind]. destruct (OwnerLeaf_total _ _ _ HR Hf) as (i & r & Ei & Er & _). rewrite Ei. cbn [mbind result_bind]. rewrite Er. eexists _, _. split; [done|]. split; [done|lia].
Qed.
Lemma note_ndvs_ok rels w root h pending : relations_ok rels w → Forall (keys_in w) pending → ∀ uf ndv, uf_ok uf root h → length uf = w → ∃ uf' ndv', note_ndvs rels pending (uf, ndv) = Ok (uf', ndv') ∧ uf_ok uf' root h ∧ length uf' = w.
Proof.
  intros HR. induction 1 as [|e pending He _ IH]; intros uf ndv U Hl; cbn [note_ndvs]; [by exists uf, ndv|]. unfold keys_in in He. destruct (keys_ e) as [[a b]|]; cbn [mbind result_bind]; [|by apply IH]. destruct He as [Ha Hb].
  destruct (note_ndv_ok rels w uf root h ndv a HR U Hl Ha) as (uf1 & n1 & -> & U1 & L1). cbn [mbind result_bind]. destruct (note_ndv_ok rels w uf1 root h n1 b HR U1 L1 Hb) as (uf2 & n2 & -> & U2 & L2). cbn [mbind result_bind]. by apply IH.
Qed.
Definition annotates (e : JoinEdge) (p : PendingEdge) : Prop := relations_of e = refs_ p ∧ edge_predicate_ e = pred_ p.
Lemma annotate_ok w root h ndv pending : Forall (keys_in w) pending → ∀ uf, uf_ok uf root h → length uf = w → ∃ edges, annotate pending uf ndv = Ok edges ∧ Forall2 annotates edges pending.
Proof.
  induction 1 as [|e pending He _ IH]; intros uf U Hl; cbn [annotate]; [by exists []|]. unfold keys_in in He. destruct (keys_ e) as [[a b]|]; cbn [mbind result_bind].
  - destruct (find_ok uf root h a U) as (uf1 & -> & U1 & L1); [lia|]. cbn [mbind result_bind]. destruct (IH uf1 U1) as (edges & -> & HF); [lia|]. cbn [mbind result_bind]. eexists. split; [done|]. by constructor.
  - destruct (IH uf U Hl) as (edges & -> & HF). cbn [mbind result_bind]. eexists. split; [done|]. by constructor.
Qed.
Lemma AddEdgesWithKeyNdv_ok rels w pending : relations_ok rels w → Forall (keys_in w) pending → ∃ edges, AddEdgesWithKeyNdv pending rels w = Ok edges ∧ Forall2 annotates edges pending.
Proof.
  intros HR HK. unfold AddEdgesWithKeyNdv. destruct (uf_unions_ok w pending HK (seq 0 w) id id (uf_initial w)) as (uf & root & h & -> & U & L); [apply length_seq|]. cbn [mbind result_bind].
  destruct (note_ndvs_ok rels w root h pending HR HK uf ∅ U L) as (uf' & ndv & -> & U' & L'). cbn [mbind result_bind]. by eapply annotate_ok.
Qed.

(** ** Conjuncts and their relations *)

Lemma count_one s i j : (rs_Count s ≤ 1)%nat → has_bit s i → has_bit s j → (i < 64)%nat → (j < 64)%nat → i = j.
Proof.
  unfold rs_Count. intros Hc Hi Hj Li Lj. assert (∀ k, has_bit s k → (k < 64)%nat → k ∈ filter (λ id, Z.testbit s (Z.of_nat id) = true) (seq 0 64)) as Hin by (intros k Hk Lk; apply list_elem_of_filter; split; [done|apply elem_of_seq; lia]).
  apply Hin in Hi, Hj; [|done|done]. destruct (filter _ _) as [|x [|y l]]; [by apply not_elem_of_nil in Hi| |cbn in Hc; lia]. apply list_elem_of_singleton in Hi, Hj. congruence.
Qed.
Definition owned (rels : list JoinRelation) (i f : nat) : Prop := ∃ r, rels !! i = Some r ∧ owns f r = true.
Lemma owned_unique rels w i j f : relations_ok rels w → owned rels i f → owned rels j f → i = j.
Proof. intros HR (r & Hi & Hr) (s & Hj & Hs). by eapply (ro_unique _ _ HR). Qed.
Lemma owners_ok rels w cols : relations_ok rels w → Forall (λ c, c < w)%nat cols → ∀ refs, 0 ≤ refs → ∃ s, owners rels cols refs = Ok s ∧ 0 ≤ s ∧ ∀ i, has_bit s i ↔ has_bit refs i ∨ ∃ c, c ∈ cols ∧ owned rels i c.
Proof.
  intros HR. induction 1 as [|c cols Hc _ IH]; intros refs Hs; cbn [owners]; [exists refs; set_solver|]. destruct (OwnerLeaf_total _ _ _ HR Hc) as (k & r & -> & Hk & Ho). cbn [mbind result_bind].
  destruct (IH (rs_Union refs (Singleton k))) as (s & -> & Hs' & Hb); [by apply union_nonneg, singleton_nonneg|]. exists s. split_and!; [done|done|]. intros i. rewrite Hb, union_bit, singleton_bit. split.
  - intros [[?| ->]|(c' & ? & ?)]; [by left|right; exists c; split; [set_solver|by exists r]|right; exists c'; set_solver].
  - intros [?|(c' & [->|?]%elem_of_cons & Hi)]; [by do 2 left| |right; by exists c']. left; right. eapply owned_unique; [done|exact Hi|by exists r].
Qed.
Definition filter_ok (rels : list JoinRelation) (w id : nat) (e : Expr) : Prop := flat_in w e ∧ condition_ok e ∧ Forall (λ ref, owned rels id ref.2) (column_refs e).
Definition filters_ok (rels : list JoinRelation) (w : nat) (sf : list (list Expr)) : Prop := ∀ id fs, sf !! id = Some fs → Forall (filter_ok rels w id) fs.
Record pending_ok (rels : list JoinRelation) (w : nat) (p : PendingEdge) : Prop := {
  po_flat : flat_in w (pred_ p); po_cond : condition_ok (pred_ p); po_nonneg : 0 ≤ refs_ p; po_many : (1 < rs_Count (refs_ p))%nat;
  po_bits : ∀ i, has_bit (refs_ p) i ↔ ∃ c, c ∈ (column_refs (pred_ p)).*2 ∧ owned rels i c; po_keys : keys_in w p }.
Lemma mjoin_cons {A} (x : list A) l : mjoin (x :: l) = x ++ mjoin l.
Proof. done. Qed.
Lemma all_pass_insert sf id fs e row : sf !! id = Some fs → all_pass (mjoin (<[id := fs ++ [e]]> sf)) row = all_pass (mjoin sf) row && passes3 e row.
Proof.
  revert id. induction sf as [|x sf IH]; intros [|id] Hi; cbn in Hi; try done.
  - injection Hi as ->. change (<[0%nat := fs ++ [e]]> (fs :: sf)) with ((fs ++ [e]) :: sf). rewrite !mjoin_cons, !all_pass_app. cbn [all_pass forallb]. fold (all_pass (mjoin sf) row). rewrite andb_true_r. destruct (all_pass fs row), (passes3 e row), (all_pass (mjoin sf) row); done.
  - change (<[S id := fs ++ [e]]> (x :: sf)) with (x :: <[id := fs ++ [e]]> sf). rewrite !mjoin_cons, !all_pass_app, (IH id Hi). by rewrite andb_assoc.
Qed.
Lemma flat_columns w e : flat_in w e → CollectFlatColumns e = Some (column_refs e).*2 ∧ Forall (λ c, c < w)%nat (column_refs e).*2.
Proof.
  intros H. unfold CollectFlatColumns. assert (forallb (λ ref : nat * nat, bool_decide (ref.1 = 0%nat)) (column_refs e) = true) as ->.
  { apply Is_true_true, forallb_True. eapply Forall_impl; [exact H|]. intros ref [E _]. by apply bool_decide_pack. }
  split; [done|]. apply Forall_fmap. eapply Forall_impl; [exact H|]. by intros ref [_ ?].
Qed.
Lemma equi_keys w e r : flat_in w e → keys_in w (mkPending r e (IsEquiEdge e)).
Proof.
  intros H. unfold keys_in. cbn. destruct e as [| | | | |[] [tl cl tyl| | | | | | | | |] [tr cr tyr| | | | | | | | |]| | | |]; try done. unfold flat_in in H. cbn in H. rewrite Forall_cons, Forall_singleton in H. cbn in H. cbn. lia.
Qed.
Lemma ClassifyRegionConjuncts_ok rels w conjuncts : relations_ok rels w → (0 < length rels ≤ 64)%nat → Forall (flat_in w) conjuncts → conjuncts_ok conjuncts →
  ∀ sf pd, length sf = length rels → filters_ok rels w sf → Forall (pending_ok rels w) pd →
  ∃ sf' pd', ClassifyRegionConjuncts conjuncts rels sf pd = Ok (Some (sf', pd')) ∧ length sf' = length rels ∧ filters_ok rels w sf' ∧ Forall (pending_ok rels w) pd' ∧
    ∀ row, all_pass (mjoin sf') row && all_pass (pred_ <$> pd') row = all_pass (mjoin sf) row && all_pass (pred_ <$> pd) row && all_pass conjuncts row.
Proof.
  intros HR Hn. induction conjuncts as [|e conjuncts IH]; intros Hf Hc sf pd Hl Hsf Hpd; cbn [ClassifyRegionConjuncts].
  { exists sf, pd. split_and!; try done. intros row. by rewrite andb_true_r. }
  apply Forall_cons in Hf as [He Hf], Hc as [Ce Hc]. destruct (flat_columns _ _ He) as [-> Hcols]. destruct (owners_ok _ _ _ HR Hcols 0 ltac:(done)) as (refs & -> & Hnn & Hbits). cbn [mbind result_bind].
  assert (∀ i, has_bit refs i ↔ ∃ c, c ∈ (column_refs e).*2 ∧ owned rels i c) as Hb by (intros i; rewrite Hbits; unfold has_bit at 1; rewrite Z.bits_0; split; [by intros [?|?]|by right]). case_bool_decide as Hcount.
  - assert (∃ leaf, match (column_refs e).*2 with [] => Ok 0%nat | c :: _ => OwnerLeaf rels c end = Ok leaf ∧ (leaf < length rels)%nat ∧ Forall (λ ref, owned rels leaf ref.2) (column_refs e)) as (leaf & -> & Hleaf & Hown).
    { destruct (column_refs e) as [|[t c] refs'] eqn:Er; [exists 0%nat; split_and!; [done|lia|constructor]|]. cbn [fmap list_fmap snd] in *. apply Forall_cons in Hcols as [Hc0 Hcols]. destruct (OwnerLeaf_total _ _ _ HR Hc0) as (i & r & Ei & Hi & Ho). exists i. split_and!; [done|by eapply lookup_lt_Some|].
      apply Forall_forall. intros [t' c'] Hin. cbn. assert (c' ∈ c :: refs'.*2) as Hin' by (change (c :: refs'.*2) with ((t, c) :: refs').*2; change c' with (t', c').2; by apply list_elem_of_fmap_2).
      assert (c' < w)%nat as Hc' by (apply elem_of_cons in Hin' as [->|Hin']; [done|by eapply Forall_forall in Hcols]). destruct (ro_owner _ _ HR c' Hc') as (j & s & Hj & Hs). assert (i = j) as ->; [|by exists s].
      eapply (count_one refs); [done|apply Hb; exists c; split; [set_solver|by exists r]|apply Hb; exists c'; split; [done|by exists s]|apply lookup_lt_Some in Hi; lia|apply lookup_lt_Some in Hj; lia]. }
    cbn [mbind result_bind]. destruct (lookup_lt_is_Some_2 sf leaf) as [fs Hfs]; [lia|]. rewrite Hfs. destruct (IH Hf Hc (<[leaf := fs ++ [e]]> sf) pd) as (sf' & pd' & E & L & F & P & A); [by rewrite length_insert| |done|].
    + intros id fs' Hid. destruct (decide (id = leaf)) as [->|Hne]; [|rewrite list_lookup_insert_ne in Hid by done; by apply Hsf]. rewrite list_lookup_insert_eq in Hid by lia. injection Hid as <-. apply Forall_app. split; [by apply Hsf|]. by constructor.
    + exists sf', pd'. split_and!; try done. intros row. rewrite A, (all_pass_insert _ _ _ _ _ Hfs). cbn [all_pass forallb]. fold (all_pass conjuncts row). destruct (all_pass (mjoin sf) row), (passes3 e row), (all_pass (pred_ <$> pd) row); done.
  - destruct (IH Hf Hc sf (pd ++ [mkPending refs e (IsEquiEdge e)])) as (sf' & pd' & E & L & F & P & A); [done|done| |].
    + apply Forall_app. split; [done|]. constructor; [|constructor]. split; [exact He|exact Ce|exact Hnn|by apply Nat.nle_gt|exact Hb|by apply equi_keys].
    + exists sf', pd'. split_and!; try done. intros row. rewrite A, fmap_app, all_pass_app. cbn [all_pass forallb fmap list_fmap pred_]. fold (all_pass conjuncts row). destruct (all_pass (mjoin sf) row), (passes3 e row), (all_pass (pred_ <$> pd) row); done.
Qed.

(** ** The tree of the search *)

Fixpoint tree_leaves (t : JoinTree) : list nat := match t with TLeaf _ _ id => [id] | TJoin _ _ l r => tree_leaves l ++ tree_leaves r end.
Lemma best_pair_ok graph subtrees : (2 ≤ length subtrees)%nat → let '(i, j, _) := best_pair graph subtrees in (i < j < length subtrees)%nat.
Proof.
  intros Hn. unfold best_pair. set (pairs := _ ≫= _). assert (Forall (λ ij : nat * nat, ij.1 < ij.2 < length subtrees)%nat pairs) as HP.
  { subst pairs. apply Forall_forall. intros [i j] (x & Hin & Hx)%list_elem_of_bind. apply list_elem_of_bind in Hin as (y & Hin & Hy). apply list_elem_of_singleton in Hin as [= -> ->]. apply elem_of_seq in Hx, Hy. cbn. lia. }
  assert (∀ best, (best.1.1 < best.1.2 < length subtrees)%nat → let '(i, j, _) := foldl (λ best ij, let '(bi, bj, bc) := best in
    match subtrees !! ij.1, subtrees !! ij.2 with
    | Some ti, Some tj =>
        let card := EstimateJoin (tree_card ti) (tree_card tj) (EdgesCrossing graph (tree_relations ti) (tree_relations tj)) in
        if SFltb card bc then (ij.1, ij.2, card) else best
    | _, _ => best
    end) best pairs in (i < j < length subtrees)%nat) as H; [|apply (H (0%nat, 1%nat, DOUBLE_MAX)); cbn; lia].
  induction HP as [|[a b] pairs Hab _ IH]; intros [[i j] card] Hij; cbn [foldl fst snd] in *; [done|]. destruct (subtrees !! a), (subtrees !! b); try (by apply IH). cbv zeta. destruct (SFltb _ card); by apply IH.
Qed.
Lemma delete_perm {A} (l : list A) i x : l !! i = Some x → x :: delete i l ≡ₚ l.
Proof. intros H. symmetry. by apply delete_Permutation. Qed.
Lemma fuse_ok graph fuel : ∀ subtrees, (0 < length subtrees ≤ S fuel)%nat → ∃ t, fuse graph fuel subtrees = Ok (Some t) ∧ tree_leaves t ≡ₚ mjoin (tree_leaves <$> subtrees).
Proof.
  induction fuel as [|fuel IH]; intros [|t [|t' subtrees]] Hl; cbn in Hl; try lia; try (exists t; split; [done|cbn; by rewrite app_nil_r]). cbn [fuse]. set (ts := t :: t' :: subtrees) in *.
  pose proof (best_pair_ok graph ts ltac:(subst ts; cbn; lia)) as Hb. destruct (best_pair graph ts) as [[i j] card]. destruct (lookup_lt_is_Some_2 ts i) as [ti Hi]; [lia|]. destruct (lookup_lt_is_Some_2 ts j) as [tj Hj]; [lia|]. rewrite Hi, Hj.
  assert (delete j ts !! i = Some ti) as Hi' by (rewrite list_lookup_delete_lt by lia; done). set (rest := delete i (delete j ts)). set (tn := TJoin _ _ _ _). assert (length (rest ++ [tn]) = S (length subtrees)) as Hlen.
  { subst rest. rewrite length_app, !length_delete; [|by eexists|by eexists]. cbn. subst ts. cbn. lia. }
  destruct (IH (rest ++ [tn])) as (t0 & -> & Hp); [lia|]. exists t0. split; [done|]. rewrite Hp, fmap_app, join_app. subst tn. cbn [fmap list_fmap tree_leaves]. rewrite mjoin_cons, app_nil_r.
  rewrite (delete_Permutation _ _ _ Hj), (delete_Permutation _ _ _ Hi'). fold rest. rewrite !fmap_cons, !mjoin_cons. rewrite (Permutation_app_comm (mjoin _)), (app_assoc (tree_leaves tj)). apply Permutation_app_tail, Permutation_app_comm.
Qed.
Lemma Order_ok graph n : length (graph_relations graph) = n → (0 < n)%nat → (∀ i r, graph_relations graph !! i = Some r → id_ r = i) → ∃ t, Order graph = Ok (Some t) ∧ tree_leaves t ≡ₚ seq 0 n.
Proof.
  intros Hl Hn Hid. unfold Order. destruct (fuse_ok graph (length (graph_relations graph)) ((λ r, TLeaf (Singleton (id_ r)) (cardinality_ r) (id_ r)) <$> graph_relations graph)) as (t & -> & Hp); [rewrite length_fmap; lia|]. exists t. split; [done|]. rewrite Hp, <- list_fmap_compose.
  apply reflexive_eq. transitivity (id_ <$> graph_relations graph); [generalize (graph_relations graph) as l; induction l as [|r l IHl]; [done|]; rewrite !fmap_cons, mjoin_cons, IHl; done|].
  apply list_eq. intros i. rewrite list_lookup_fmap. destruct (graph_relations graph !! i) as [r|] eqn:Ei; cbn.
  - rewrite (Hid _ _ Ei). apply lookup_lt_Some in Ei. by rewrite lookup_seq_lt by lia.
  - apply lookup_ge_None in Ei. by rewrite lookup_seq_ge by lia.
Qed.
Lemma choose_tree_ok graph sf n : length (graph_relations graph) = n → (0 < n)%nat → (∀ i r, graph_relations graph !! i = Some r → id_ r = i) → length sf = n →
  ∃ t, choose_tree graph sf = Ok t ∧ ∀ tree, t = Some tree → tree_leaves tree ≡ₚ seq 0 n.
Proof.
  intros Hl Hn Hid Hs. assert (∃ t, (tree ← Order graph; match tree with None => Ok None | Some t => Ok (if SFleb (LeftDeepCost graph) (SumInternalCardinalities t) then None else Some t) end) = Ok t ∧ ∀ tree, t = Some tree → tree_leaves tree ≡ₚ seq 0 n) as HO.
  { destruct (Order_ok graph n Hl Hn Hid) as (t & -> & Hp). cbn [mbind result_bind]. eexists. split; [done|]. intros tree. case_match; [done|]. by intros [= <-]. }
  unfold choose_tree. destruct (graph_relations graph) as [|r0 [|r1 [|r2 rs]]], sf as [|f0 [|f1 [|f2 fs]]]; try exact HO; cbn in Hl, Hs; try lia. subst n. case_match; (eexists; split; [done|]); [done|]. intros tree [= <-]. done.
Qed.
End meaning.

(** * A reordered region answers what the filter over its cross product does *)

(** ** One row of each relation *)

Abbreviation Pick := (list (nat * Row)).
Local Abbreviation keep P := (filter (λ x, P x = true)).
Fixpoint prods (L : list (nat * list Row)) : list Pick :=
  match L with [] => [[]] | (id, rs) :: L => r ← rs; (λ c, (id, r) :: c) <$> prods L end.
Definition cat (c : Pick) : Row := mjoin c.*2.
Definition pick_app (X Y : list Pick) : list Pick := a ← X; (λ b, a ++ b) <$> Y.
Lemma bind_assoc {A B C} (f : A → list B) (g : B → list C) l : (l ≫= f) ≫= g = l ≫= λ x, f x ≫= g.
Proof. induction l as [|x l IH]; [done|]. rewrite !bind_cons, bind_app. by rewrite IH. Qed.
Lemma bind_fmap {A B C} (f : A → B) (g : B → list C) l : (f <$> l) ≫= g = l ≫= λ x, g (f x).
Proof. induction l as [|x l IH]; [done|]. rewrite fmap_cons, !bind_cons. by rewrite IH. Qed.
Lemma fmap_bind {A B C} (f : A → list B) (g : B → C) l : g <$> (l ≫= f) = l ≫= λ x, g <$> f x.
Proof. induction l as [|x l IH]; [done|]. rewrite !bind_cons, fmap_app. by rewrite IH. Qed.
Lemma cat_app a b : cat (a ++ b) = cat a ++ cat b.
Proof. unfold cat. by rewrite fmap_app, join_app. Qed.
Lemma prods_app L M : prods (L ++ M) = pick_app (prods L) (prods M).
Proof.
  unfold pick_app. induction L as [|[id rs] L IH]; [cbn [app prods]; rewrite bind_cons; cbn [mbind list_bind]; rewrite app_nil_r; by rewrite (list_fmap_ext (λ b, [] ++ b) id), list_fmap_id|]. cbn [app prods]. rewrite IH, bind_assoc. apply bind_ext_in, Forall_forall. intros r _. rewrite fmap_bind, bind_fmap. apply bind_ext_in, Forall_forall. intros a _. by rewrite <- list_fmap_compose.
Qed.
(** The order of the relations does not matter to what does not depend on it. *)
Lemma bind_perm_in {A B} (f g : A → list B) l : (∀ x, f x ≡ₚ g x) → l ≫= f ≡ₚ l ≫= g.
Proof. intros H. induction l as [|x l IH]; [done|]. rewrite !bind_cons. by rewrite H, IH. Qed.
Lemma bind_comm {A B C} (f : A → B → list C) l k : (x ← l; y ← k; f x y) ≡ₚ (y ← k; x ← l; f x y).
Proof.
  induction l as [|x l IH]; [induction k as [|y k IHk]; [done|]; rewrite bind_cons; exact IHk|]. rewrite bind_cons, IH. clear IH. induction k as [|y k IHk]; [done|]. rewrite !bind_cons. rewrite <- IHk. rewrite <- !app_assoc. apply Permutation_app_head. rewrite !app_assoc. apply Permutation_app_tail, Permutation_app_comm.
Qed.
Lemma prods_two {B} (F : Pick → B) i rs j ss L : F <$> prods ((i, rs) :: (j, ss) :: L) = r ← rs; s ← ss; (λ c, F ((i, r) :: (j, s) :: c)) <$> prods L.
Proof. cbn [prods]. rewrite fmap_bind. apply bind_ext_in, Forall_forall. intros r _. rewrite !fmap_bind. apply bind_ext_in, Forall_forall. intros s _. by rewrite <- !list_fmap_compose. Qed.
Lemma prods_perm {B} L M : L ≡ₚ M → ∀ F : Pick → B, (∀ a b, a ≡ₚ b → F a = F b) → F <$> prods L ≡ₚ F <$> prods M.
Proof.
  induction 1 as [|[id rs] L M _ IH|[i rs] [j ss] L|L M N _ IH1 _ IH2]; intros F HF.
  - done.
  - cbn [prods]. rewrite !fmap_bind. apply bind_perm_in. intros r. rewrite <- !list_fmap_compose. apply IH. intros a b Hab. cbn. apply HF. by rewrite Hab.
  - rewrite !prods_two, bind_comm. apply bind_perm_in. intros r. apply bind_perm_in. intros s. apply reflexive_eq, list_fmap_ext. intros n c _. apply HF. constructor.
  - etransitivity; [by apply IH1|by apply IH2].
Qed.
Lemma pairs_perm P ls ls' rs rs' : ls ≡ₚ ls' → rs ≡ₚ rs' → pairs_where P ls rs ≡ₚ pairs_where P ls' rs'.
Proof. intros Hl Hr. unfold pairs_where. rewrite Hl. apply bind_perm_in. intros l. by rewrite Hr. Qed.
(** Joining picks that pass on each side. *)
Lemma pairs_picks (P : Row → Row → bool) (QA QB Q : Pick → bool) X Y : (∀ a b, a ∈ X → b ∈ Y → Q (a ++ b) = QA a && QB b && P (cat a) (cat b)) →
  pairs_where P (cat <$> keep QA X) (cat <$> keep QB Y) = cat <$> keep Q (pick_app X Y).
Proof.
  intros H. unfold pairs_where, pick_app. rewrite bind_fmap. induction X as [|a X IH]; [done|]. rewrite bind_cons, filter_app, fmap_app, <- IH by (intros; apply H; [set_solver|done]). rewrite (keep_fmap (λ b, a ++ b)), <- list_fmap_compose. rewrite filter_cons. destruct (QA a) eqn:Ea.
  - rewrite decide_True, bind_cons by done. f_equal. rewrite (keep_fmap cat), <- list_fmap_compose, keep_keep.
    rewrite (keep_ext (λ b, QB b && P (cat a) (cat b)) (λ b, Q (a ++ b))) by (apply Forall_forall; intros b Hb; rewrite H, Ea by (done || set_solver); done). apply list_fmap_ext. intros i b _. symmetry. apply cat_app.
  - rewrite decide_False by done. rewrite (keep_none (λ b, Q (a ++ b))) by (apply Forall_forall; intros b Hb; rewrite H, Ea by (done || set_solver); done). done.
Qed.

(** ** The columns of a pick *)

Section region.
Context (rels : list JoinRelation) (w : nat).

Fixpoint env (c : Pick) (f : nat) : option cell :=
  match c with
  | [] => None
  | (id, t) :: c => match rels !! id with Some rel => if owns f rel then cell_of t (f - base_col_offset_ rel) else env c f | None => env c f end
  end.
Definition flat (c : Pick) : Row := env c <$> seq 0 w.
Lemma flat_cell c f : (f < w)%nat → cell_of (flat c) f = env c f.
Proof. intros Hf. unfold flat, cell_of. rewrite list_lookup_fmap, lookup_seq_lt by done. done. Qed.
Definition width_of (id : nat) : nat := match rels !! id with Some rel => col_count_ rel | None => 0 end.
Definition pick_ok (o : list nat) (c : Pick) : Prop := c.*1 = o ∧ Forall (λ x, length x.2 = width_of x.1) c.
Definition ids_ok (o : list nat) : Prop := Forall (λ id, id < length rels)%nat o.
Definition owned_in (o : list nat) (f : nat) : Prop := ∃ id, id ∈ o ∧ owned rels id f.
Definition order_width (o : list nat) : nat := sum_list_with width_of o.

Lemma env_app_l a b f : owned_in a.*1 f → env (a ++ b) f = env a f.
Proof.
  intros (id & Hid & Ho). induction a as [|[i t] a IH]; [by apply not_elem_of_nil in Hid|]. cbn [app env]. destruct (rels !! i) as [rel|] eqn:Ei; [destruct (owns f rel) eqn:Eo; [done|]|]; apply IH; cbn in Hid; apply elem_of_cons in Hid as [->|]; try done; destruct Ho as (r & Hr & Hw); congruence.
Qed.
Lemma env_app_r a b f : ¬ owned_in a.*1 f → env (a ++ b) f = env b f.
Proof.
  intros H. induction a as [|[i t] a IH]; [done|]. cbn [app env]. destruct (rels !! i) as [rel|] eqn:Ei; [destruct (owns f rel) eqn:Eo|].
  - exfalso. apply H. exists i. split; [set_solver|by exists rel].
  - apply IH. intros (id & Hid & Ho). apply H. exists id. split; [set_solver|done].
  - apply IH. intros (id & Hid & Ho). apply H. exists id. split; [set_solver|done].
Qed.
(** What a pick holds does not depend on the order of its relations. *)
Lemma env_perm a b f : relations_ok rels w → NoDup a.*1 → a ≡ₚ b → env a f = env b f.
Proof.
  intros HR Hn Hp. induction Hp as [|[i t] a b Hp IH|[i t] [j u] a|a b c Hp1 IH1 Hp2 IH2].
  - done.
  - cbn [env]. apply NoDup_cons in Hn as [_ Hn]. by rewrite IH.
  - cbn [env]. destruct (rels !! i) as [r|] eqn:Ei, (rels !! j) as [s|] eqn:Ej; try done. destruct (owns f r) eqn:Er, (owns f s) eqn:Es; try done. exfalso. assert (i = j) as -> by (by eapply (ro_unique _ _ HR)). apply NoDup_cons in Hn as [Hn _]. set_solver.
  - rewrite IH1 by done. apply IH2. by rewrite <- Hp1.
Qed.
Lemma LocalPosition_ok o f : ids_ok o → owned_in o f → ∃ k, (∀ pos, LocalPosition o rels f pos = Ok (pos + k)%nat) ∧ (k < order_width o)%nat ∧ ∀ c, pick_ok o c → cell_of (cat c) k = env c f.
Proof.
  induction o as [|id o IH]; intros Hids (i & Hi & Ho); [by apply not_elem_of_nil in Hi|]. apply Forall_cons in Hids as [Hid Hids]. destruct (lookup_lt_is_Some_2 rels id Hid) as [rel Hrel]. unfold order_width. cbn [sum_list_with]. assert (width_of id = col_count_ rel) as Ew by (unfold width_of; by rewrite Hrel).
  destruct (owns f rel) eqn:Eo.
  - exists (f - base_col_offset_ rel)%nat. pose proof Eo as Hb. apply bool_decide_eq_true in Hb. split_and!; [intros pos; cbn [LocalPosition]; by rewrite Hrel, Eo|rewrite Ew; lia|]. intros c [Ec Fc]. destruct c as [|[i' t] c]; [done|]. injection Ec as -> Ec. apply Forall_cons in Fc as [Ht Fc]. cbn in Ht. cbn [env]. rewrite Hrel, Eo. unfold cat, cell_of. cbn [fmap list_fmap snd]. rewrite mjoin_cons, lookup_app_l by lia. done.
  - assert (owned_in o f) as Ho' by (exists i; split; [|done]; apply elem_of_cons in Hi as [->|]; [|done]; destruct Ho as (r & Hr & Hw); congruence). destruct (IH Hids Ho') as (k & Hpos & Hk & Hc). exists (width_of id + k)%nat. split_and!.
    + intros pos. cbn [LocalPosition]. rewrite Hrel, Eo, Hpos, Ew. f_equal. lia.
    + unfold order_width in Hk. lia.
    + intros c [Ec Fc]. destruct c as [|[i' t] c]; [done|]. injection Ec as -> Ec. apply Forall_cons in Fc as [Ht Fc]. cbn in Ht. cbn [env]. rewrite Hrel, Eo. rewrite <- Hc by done. unfold cat, cell_of. cbn [fmap list_fmap snd]. rewrite mjoin_cons, lookup_app_r by lia. by replace (width_of id + k - length t)%nat with k by lia.
Qed.
Lemma cat_length o c : pick_ok o c → length (cat c) = order_width o.
Proof. intros [<- HF]. unfold cat, order_width. induction HF as [|[i t] c Ht _ IH]; [done|]. cbn in Ht. rewrite !fmap_cons, mjoin_cons, length_app, IH. cbn. lia. Qed.
End region.

Section emit.
Context {casts : Casts}.
Context (table : nat → list Row) (aggregate : nat → list AggregationType → list (Row * Row) → list Row → Prop) (write : WriteOp → list Row → list Row → Prop).
Context (aggregate_width : ∀ n ts vals rows, aggregate n ts vals rows → Forall (λ r, length r = (n + length ts)%nat) rows).
Context (write_width : ∀ op rows out, write op rows out → Forall (λ r, length r = 1%nat) out).
Local Abbreviation answers := (answers table aggregate write).
Local Abbreviation wf := (wf table).

(** ** The region *)

(** The answers of a plan, in any order. *)
Definition answers_any (p : Plan) (rows : list Row) : Prop := ∃ r, answers p r ∧ rows ≡ₚ r.
Lemma join_any s l r e rows : answers_any (NestedLoopJoinPlanNode s l r e INNER) rows ↔
  ∃ ls rs, answers_any l ls ∧ answers_any r rs ∧ rows ≡ₚ pairs_where (λ a b, passes3 (RemapOntoCombined (GetColumnCount l) e) (a ++ b)) ls rs.
Proof.
  unfold answers_any. cbn [Plan.answers]. split.
  - intros (out & (ls & rs & Al & Ar & Hp) & Hr). exists ls, rs. split_and!; [by exists ls|by exists rs|]. by rewrite Hr, Hp, nested_loop_pairs.
  - intros (ls & rs & (ls0 & Al & Hl) & (rs0 & Ar & Hrs) & Hp). exists rows. split; [|done]. exists ls0, rs0. split_and!; [done|done|]. rewrite Hp, nested_loop_pairs by done. by apply pairs_perm.
Qed.
Lemma join_answers_any s l r e jt rows : answers_any (NestedLoopJoinPlanNode s l r e jt) rows ↔ answers (NestedLoopJoinPlanNode s l r e jt) rows.
Proof. unfold answers_any. cbn [Plan.answers]. split; [intros (r0 & (ls & rs & Al & Ar & Hp) & Hr); exists ls, rs; split_and!; [done|done|by rewrite Hr]|intros H; by exists rows]. Qed.
Lemma CollectRegionLeaves_ok p : wf p → ∃ leaves, CollectRegionLeaves p = Ok leaves ∧ Forall wf leaves ∧ total_width leaves = GetColumnCount p ∧ (0 < length leaves)%nat ∧ ((2 ≤ length leaves)%nat → is_inner_join p = true) ∧
  ∀ tags rows, length tags = length leaves → answers_any p rows ↔ ∃ Rs, Forall2 answers leaves Rs ∧ rows ≡ₚ cat <$> prods (zip tags Rs).
Proof.
  assert (∀ q, wf q → ∃ leaves, Ok [q] = Ok leaves ∧ Forall wf leaves ∧ total_width leaves = GetColumnCount q ∧ (0 < length leaves)%nat ∧ ((2 ≤ length leaves)%nat → is_inner_join q = true) ∧
    ∀ tags rows, length tags = length leaves → answers_any q rows ↔ ∃ Rs, Forall2 answers leaves Rs ∧ rows ≡ₚ cat <$> prods (zip tags Rs)) as Hleaf.
  { intros q Wq. exists [q]. split; [done|]. split; [by constructor|]. split; [unfold total_width; cbn; lia|]. split; [cbn; lia|]. split; [cbn; lia|]. intros [|tag [|]] rows Ht; try done. assert (∀ rs, cat <$> prods (zip [tag] [rs]) = rs) as Hcat.
    { intros rs. cbn [zip zip_with prods]. rewrite fmap_bind. induction rs as [|r rs IH]; [done|]. rewrite bind_cons, IH. cbn. by rewrite app_nil_r. }
    split; [intros (r & Hr & Hp); exists [r]; split; [by constructor|]; by rewrite Hcat|]. intros (Rs & HF & Hp). inversion HF as [|? r ? Rs' Hr HF']; subst. inversion HF'; subst. exists r. by rewrite Hcat in Hp. }
  induction p as [| | | |s l IHl r IHr e jt| | | | | | | |]; intros W; try (by apply Hleaf). destruct jt; try (by apply Hleaf). cbn [CollectRegionLeaves]. pose proof W as (Wl & Wr & Es & He & Ce & _). destruct (IsPredicateTrue_ok e Ce) as (b & Eb & Hb). rewrite Eb. cbn [mbind result_bind]. destruct b; [|by apply Hleaf].
  destruct (IHl Wl) as (ll & -> & Fl & Tl & Nl & _ & Al), (IHr Wr) as (lr & -> & Fr & Tr & Nr & _ & Ar). cbn [mbind result_bind]. eexists. split; [done|]. split; [by apply Forall_app|]. split; [unfold total_width in *; rewrite sum_list_with_app; cbn [OutputSchema]; lia|]. split; [rewrite length_app; lia|]. split; [done|].
  intros tags rows Ht. rewrite length_app in Ht. rewrite <- (take_drop (length ll) tags). set (tl := take _ tags). set (tr := drop _ tags). assert (length tl = length ll) as Htl by (subst tl; rewrite length_take; lia). assert (length tr = length lr) as Htr by (subst tr; rewrite length_drop; lia).
  rewrite join_any. setoid_rewrite (λ rows, Al tl rows Htl). setoid_rewrite (λ rows, Ar tr rows Htr).
  assert (∀ A B, length A = length ll → length B = length lr → ∀ ls rs, ls ≡ₚ cat <$> prods (zip tl A) → rs ≡ₚ cat <$> prods (zip tr B) → pairs_where (λ a b, passes3 (RemapOntoCombined (GetColumnCount l) e) (a ++ b)) ls rs ≡ₚ cat <$> prods (zip (tl ++ tr) (A ++ B))) as HX.
  { intros A B HA HB ls rs Hls Hrs. rewrite (pairs_perm _ _ _ _ _ Hls Hrs). rewrite zip_with_app by lia. rewrite prods_app. rewrite <- (keep_all (λ _ : Pick, true) (prods (zip tl A))), <- (keep_all (λ _ : Pick, true) (prods (zip tr B))) by (by apply Forall_forall).
    rewrite (pairs_picks _ _ _ (λ _, true)); [rewrite !(keep_all (λ _ : Pick, true)) by (by apply Forall_forall); done|]. intros a b _ _. symmetry. cbn. unfold RemapOntoCombined. destruct e as [|v ty| | | | | | | |]; try done; by apply (Hb eq_refl). }
  split.
  - intros (ls & rs & (A & FA & HA) & (B & FB & HB) & Hp). exists (A ++ B). split; [by apply Forall2_app|]. rewrite Hp. apply HX; try done; symmetry; by eapply Forall2_length.
  - intros (Rs & HF & Hp). apply Forall2_app_inv_l in HF as (A & B & FA & FB & ->). eexists _, _. split; [exists A; split; [done|reflexivity]|]. split; [exists B; split; [done|reflexivity]|]. rewrite Hp. symmetry. apply HX; try done; symmetry; by eapply Forall2_length.
Qed.

(** ** The emitted tree *)

Section tree.
Context (leaves : list Plan) (rels : list JoinRelation) (HRL : region_relations rels leaves) (Hleaves : Forall wf leaves).
Local Abbreviation w := (total_width leaves).
Record edge_ok (e : JoinEdge) : Prop := {
  eo_flat : flat_in w (edge_predicate_ e); eo_cond : condition_ok (edge_predicate_ e); eo_nonneg : 0 ≤ relations_of e; eo_many : (1 < rs_Count (relations_of e))%nat;
  eo_bits : ∀ i, has_bit (relations_of e) i ↔ ∃ c, c ∈ (column_refs (edge_predicate_ e)).*2 ∧ owned rels i c }.
Context (sf : list (list Expr)) (Hsf : length sf = length rels) (Fsf : filters_ok rels w sf) (edges : list JoinEdge) (Hedges : Forall edge_ok edges).
Local Abbreviation graph := (mkGraph rels edges).
Local Abbreviation env := (env rels).
Local Abbreviation flat := (flat rels w).

(** The conditions on some relations only. *)
Definition inside (o : list nat) (c : Pick) (e : JoinEdge) : bool := negb (IsSubsetOf (relations_of e) (leaf_set o)) || passes3 (edge_predicate_ e) (flat c).
Definition local_pass (o : list nat) (c : Pick) : bool := forallb (λ id, all_pass (default [] (sf !! id)) (flat c)) o.
Definition qualifies (o : list nat) (c : Pick) : bool := local_pass o c && forallb (inside o c) edges.
Definition source (x : nat * list Row) : Prop := ∃ leaf, leaves !! x.1 = Some leaf ∧ answers leaf x.2.
Record emitted (p : Plan) (o : list nat) : Prop := {
  em_wf : wf p; em_width : GetColumnCount p = order_width rels o; em_ids : ids_ok rels o; em_nodup : NoDup o;
  em_answers : ∀ rows, answers_any p rows ↔ ∃ L, L.*1 = o ∧ Forall source L ∧ rows ≡ₚ cat <$> keep (qualifies o) (prods L) }.

Lemma HRok : relations_ok rels w.
Proof. by apply region_ok. Qed.
Lemma leaf_width id leaf : leaves !! id = Some leaf → width_of rels id = GetColumnCount leaf.
Proof. intros Hl. destruct (proj2 HRL id leaf Hl) as (card & Hc). unfold width_of. by rewrite Hc. Qed.
Lemma source_picks L : Forall source L → Forall (pick_ok rels L.*1) (prods L).
Proof.
  induction 1 as [|[id rs] L (leaf & Hleaf & Hans) _ IH]; [by repeat constructor|]. cbn [fst snd] in *. apply Forall_forall. intros c (r & Hin & Hr)%list_elem_of_bind. apply list_elem_of_fmap in Hin as (c' & -> & Hc'). eapply Forall_forall in IH as [E F]; [|exact Hc'].
  split; [cbn; by rewrite E|]. constructor; [|done]. cbn. rewrite (leaf_width _ _ Hleaf). assert (wf leaf) as W by (eapply Forall_forall in Hleaves; [exact Hleaves|by eapply list_elem_of_lookup_2]). eapply (answers_wide table aggregate write aggregate_width write_width) in Hans; [|done]. by eapply Forall_forall in Hans.
Qed.
Lemma conjoin_all fs : match ConjoinAll fs with None => fs = [] | Some e => fs ≠ [] ∧ e = Conjoin fs end.
Proof. destruct fs as [|e fs]; [done|]. by split. Qed.
Lemma single_not_subset e id : edge_ok e → IsSubsetOf (relations_of e) (leaf_set [id]) = false.
Proof.
  intros He. apply not_true_is_false. rewrite subset_bits by apply He. intros H. destruct (count_many _ id (eo_many _ He)) as (j & Hne & Hj). apply H in Hj. apply (proj2 (leaf_set_spec [id])) in Hj. by apply list_elem_of_singleton in Hj.
Qed.
Lemma qualifies_single id c : qualifies [id] c = all_pass (default [] (sf !! id)) (flat c).
Proof.
  unfold qualifies, local_pass. cbn [forallb]. rewrite andb_true_r. assert (forallb (inside [id] c) edges = true) as ->; [|apply andb_true_r]. apply Is_true_true, forallb_True. eapply Forall_impl; [exact Hedges|]. intros e He. unfold inside. by rewrite (single_not_subset _ _ He).
Qed.
Lemma prods_single id rs (Q : Pick → bool) : cat <$> keep Q (prods [(id, rs)]) = keep (λ r, Q [(id, r)]) rs.
Proof. cbn [prods]. induction rs as [|r rs IH]; [done|]. rewrite bind_cons, filter_app, fmap_app, IH. rewrite (filter_cons _ r). cbn [fmap list_fmap app]. rewrite filter_cons. case_decide; [|done]. cbn. by rewrite app_nil_r. Qed.
Lemma local_row id rel leaf r f : rels !! id = Some rel → leaves !! id = Some leaf → owns f rel = true → cell_of r (f - base_col_offset_ rel) = cell_of (flat [(id, r)]) f.
Proof. intros Hr Hl Ho. rewrite (flat_cell rels w) by (by eapply (ro_bound _ _ HRok)). cbn [JoinOrderRegion.env]. by rewrite Hr, Ho. Qed.
Lemma emit_leaf s card id : (id < length rels)%nat → ∃ p, EmitJoinTree (TLeaf s card id) graph sf = Ok (p, [id]) ∧ emitted p [id].
Proof.
  intros Hid. destruct (lookup_lt_is_Some_2 rels id Hid) as [rel Hrel]. destruct (lookup_lt_is_Some_2 sf id) as [fs Hfs]; [lia|]. destruct (region_relation _ _ _ _ HRL Hrel) as (leaf & card' & Hleaf & Erel). cbn [EmitJoinTree graph_relations]. rewrite Hrel, Hfs.
  assert (wf leaf) as W by (eapply Forall_forall in Hleaves; [exact Hleaves|by eapply list_elem_of_lookup_2]). assert (plan_ rel = leaf) as Hplan by (by rewrite Erel). pose proof (Fsf id fs Hfs) as Hf.
  assert (∀ (P : Row → bool) q, (∀ r, P r = all_pass fs (flat [(id, r)])) → (∀ rows, answers_any q rows ↔ ∃ r, answers leaf r ∧ rows ≡ₚ keep P r) → ∀ rows, answers_any q rows ↔ ∃ L, L.*1 = [id] ∧ Forall source L ∧ rows ≡ₚ cat <$> keep (qualifies [id]) (prods L)) as Hans.
  { intros P q HP Hq rows. rewrite Hq. assert (∀ rs, cat <$> keep (qualifies [id]) (prods [(id, rs)]) = keep P rs) as HE by (intros rs; rewrite prods_single; apply keep_ext, Forall_forall; intros r _; by rewrite qualifies_single, Hfs, HP). split.
    - intros (r & Hr & Hp). exists [(id, r)]. split; [done|]. split; [constructor; [by exists leaf|constructor]|]. by rewrite HE.
    - intros ([|[i rs] [|]] & Ei & HF & Hp); try done. injection Ei as ->. apply Forall_cons in HF as [(leaf' & Hl' & Hr) _]. cbn in Hl', Hr. rewrite HE in Hp. exists rs. split; [congruence|done]. }
  pose proof (conjoin_all fs) as HC. destruct (ConjoinAll fs) as [e|].
  - destruct HC as [Hne ->]. assert (Forall (λ ref, owned rels id ref.2) (column_refs (Conjoin fs))) as Hown by (rewrite Conjoin_refs; apply Forall_join; eapply Forall_impl; [exact Hf|]; intros e He; apply He).
    unfold Reindex. rewrite (traverse_columns_ok _ (λ _ f, (0%nat, (f - base_col_offset_ rel)%nat))) by (by apply Forall_forall). cbn [mbind result_bind]. eexists. split; [done|]. rewrite Hplan.
    assert (∀ r, passes3 (map_columns (λ _ f, (0%nat, (f - base_col_offset_ rel)%nat)) (Conjoin fs)) r = all_pass fs (flat [(id, r)])) as Hpass.
    { intros r. rewrite <- Conjoin_passes. apply map_columns_passes. eapply Forall_impl; [exact Hown|]. intros ref (rel' & Hrel' & Ho). assert (rel' = rel) as -> by congruence. cbn. by eapply local_row. }
    split.
    + cbn. split_and!; [done|done| |].
      * unfold flat_in. rewrite map_columns_refs. apply Forall_fmap. eapply Forall_impl; [exact Hown|]. intros ref (rel' & Hrel' & Ho). assert (rel' = rel) as -> by congruence. cbn. split; [done|]. unfold owns in Ho. rewrite Erel in Ho |- *. cbn in Ho |- *. apply bool_decide_eq_true in Ho. lia.
      * apply condition_ok_map, condition_ok_Conjoin. eapply Forall_impl; [exact Hf|]. intros e He. apply He.
    + cbn [OutputSchema]. unfold order_width. cbn. rewrite (leaf_width _ _ Hleaf). lia.
    + by constructor.
    + apply NoDup_singleton.
    + apply (Hans _ _ Hpass). intros rows. unfold answers_any. cbn [Plan.answers]. split; [intros (out & (r & Hr & ->) & Hp); by exists r|intros (r & Hr & Hp); eexists; split; [by exists r|done]].
  - subst fs. eexists. split; [done|]. rewrite Hplan. split; [done| |by constructor|apply NoDup_singleton|].
    + unfold order_width. cbn. rewrite (leaf_width _ _ Hleaf). lia.
    + apply (Hans (λ _, true)); [done|]. intros rows. unfold answers_any. split; intros (r & Hr & Hp); exists r; (split; [done|]); [by rewrite (keep_all (λ _ : Row, true)) by (by apply Forall_forall)|by rewrite (keep_all (λ _ : Row, true)) in Hp by (by apply Forall_forall)].
Qed.

(** ** A join of two emitted trees *)

Section join.
Context (lp rp : Plan) (lo ro : list nat) (EL : emitted lp lo) (ER : emitted rp ro) (Hdis : NoDup (lo ++ ro)).
Definition remap (f : nat) : result (nat * nat) :=
  owner ← OwnerLeaf rels f;
  if rs_Contains (leaf_set lo) owner then pos ← LocalPosition lo rels f 0; Ok (0%nat, pos) else pos ← LocalPosition ro rels f 0; Ok (1%nat, pos).
Definition remapped (_ f : nat) : nat * nat := match remap f with Ok x => x | Err _ => (0%nat, 0%nat) end.
Lemma not_owned_left f : owned_in rels ro f → ¬ owned_in rels lo f.
Proof. intros (i & Hi & Oi) (j & Hj & Oj). assert (i = j) as -> by (eapply owned_unique; [apply HRok|done|done]). apply NoDup_app in Hdis as (_ & Hd & _). by apply (Hd j). Qed.
Lemma remap_ok f : owned_in rels (lo ++ ro) f → ∃ t k, remap f = Ok (t, k) ∧ (t = 0%nat ∧ (k < order_width rels lo)%nat ∨ t = 1%nat ∧ (k < order_width rels ro)%nat) ∧
  ∀ a b, pick_ok rels lo a → pick_ok rels ro b → cell_of (cat a ++ cat b) (if bool_decide (t = 0%nat) then k else (order_width rels lo + k)%nat) = env (a ++ b) f.
Proof.
  intros (i & Hi & r & Hr & Ho). unfold remap. rewrite (OwnerLeaf_ok _ _ _ _ _ HRok Hr Ho). cbn [mbind result_bind]. destruct (leaf_set_spec lo) as [Hnn Hbits]. destruct (rs_Contains (leaf_set lo) i) eqn:Ec.
  - apply contains_bit in Ec; [|done]. apply Hbits in Ec. destruct (LocalPosition_ok rels lo f (em_ids _ _ EL)) as (k & Hp & Hk & Hc); [exists i; split; [done|by exists r]|]. rewrite Hp. cbn [mbind result_bind]. eexists _, _. split; [done|]. split; [by left|].
    intros a b Ha Hb. cbn [Nat.add]. rewrite bool_decide_true by done. unfold cell_of. rewrite lookup_app_l by (rewrite (cat_length rels lo) by done; done). pose proof (Hc a Ha) as Ha'. unfold cell_of in Ha'. rewrite Ha'. symmetry. apply env_app_l. exists i. destruct Ha as [-> _]. split; [done|by exists r].
  - assert (i ∉ lo) as Hni by (intros Hin; apply Hbits in Hin; apply contains_bit in Hin; [congruence|done]). apply elem_of_app in Hi as [Hi|Hi]; [done|]. assert (owned_in rels ro f) as Hro by (exists i; split; [done|by exists r]). destruct (LocalPosition_ok rels ro f (em_ids _ _ ER) Hro) as (k & Hp & Hk & Hc). rewrite Hp. cbn [mbind result_bind]. eexists _, _. split; [done|]. split; [by right|].
    intros a b Ha Hb. rewrite bool_decide_false by done. unfold cell_of. rewrite lookup_app_r by (rewrite (cat_length rels lo) by done; lia). rewrite (cat_length rels lo) by done. replace (order_width rels lo + (0 + k) - order_width rels lo)%nat with k by lia. pose proof (Hc b Hb) as Hb'. unfold cell_of in Hb'. rewrite Hb'. symmetry. apply env_app_r. destruct Ha as [-> _]. by apply not_owned_left.
Qed.
Lemma edge_owned o e : edge_ok e → (∀ i, has_bit (relations_of e) i → i ∈ o) → Forall (λ ref, owned_in rels o ref.2) (column_refs (edge_predicate_ e)).
Proof.
  intros He Ho. apply Forall_forall. intros [t f] Hin. pose proof (eo_flat _ He) as Hf. unfold flat_in in Hf. rewrite Forall_forall in Hf. destruct (Hf _ Hin) as [_ Hfw]. destruct (ro_owner _ _ HRok f Hfw) as (i & r & Hi & Hr). exists i. cbn. split; [|by exists r]. apply Ho, (eo_bits _ He). exists f. split; [change f with (t, f).2; by apply list_elem_of_fmap_2|by exists r].
Qed.
Lemma crossing_owned e : edge_ok e → Crosses (leaf_set lo) (leaf_set ro) e = true → Forall (λ ref, owned_in rels (lo ++ ro) ref.2) (column_refs (edge_predicate_ e)).
Proof.
  intros He Hc. apply edge_owned; [done|]. unfold Crosses in Hc. apply andb_true_iff in Hc as [[Hc _]%andb_true_iff _]. rewrite subset_bits in Hc by apply He. intros i Hi. apply Hc, union_bit in Hi. rewrite elem_of_app. destruct Hi as [Hi|Hi]; [left|right]; by apply (proj2 (leaf_set_spec _)).
Qed.
Lemma flat_agree o c c' e : Forall (λ ref, owned_in rels o ref.2) (column_refs e) → flat_in w e → (∀ f, owned_in rels o f → env c f = env c' f) → passes3 e (flat c) = passes3 e (flat c').
Proof.
  intros Ho Hf HE. apply agrees_passes. apply Forall_forall. intros ref Hin. unfold flat_in in Hf. rewrite Forall_forall in Hf, Ho. destruct (Hf _ Hin) as [_ Hw]. rewrite !(flat_cell rels w) by done. by apply HE, Ho.
Qed.
Lemma env_left a b f : pick_ok rels lo a → owned_in rels lo f → env a f = env (a ++ b) f.
Proof. intros [<- _] H. symmetry. by apply env_app_l. Qed.
Lemma env_right a b f : pick_ok rels lo a → owned_in rels ro f → env b f = env (a ++ b) f.
Proof. intros [Ea _] H. symmetry. apply env_app_r. rewrite Ea. by apply not_owned_left. Qed.
Lemma inside_join a b e : edge_ok e → pick_ok rels lo a → pick_ok rels ro b →
  inside (lo ++ ro) (a ++ b) e = inside lo a e && inside ro b e && (negb (Crosses (leaf_set lo) (leaf_set ro) e) || passes3 (edge_predicate_ e) (flat (a ++ b))).
Proof.
  intros He Ha Hb. unfold inside, Crosses. set (p := passes3 _ (flat (a ++ b))). pose proof (eo_nonneg _ He) as Hnn.
  assert (∀ o, IsSubsetOf (relations_of e) (leaf_set o) = true ↔ ∀ i, has_bit (relations_of e) i → i ∈ o) as Hsub by (intros o; rewrite subset_bits by done; split; intros H i Hi; [by apply (proj2 (leaf_set_spec o)), H|apply (proj2 (leaf_set_spec o)); by apply H]).
  assert (IsSubsetOf (relations_of e) (leaf_set lo) = true → passes3 (edge_predicate_ e) (flat a) = p) as Hl by (rewrite Hsub; intros H; eapply (flat_agree lo); [by apply edge_owned|apply He|intros f Hf; by apply env_left]).
  assert (IsSubsetOf (relations_of e) (leaf_set ro) = true → passes3 (edge_predicate_ e) (flat b) = p) as Hr by (rewrite Hsub; intros H; eapply (flat_agree ro); [by apply edge_owned|apply He|intros f Hf; by apply env_right]).
  assert (IsSubsetOf (relations_of e) (leaf_set (lo ++ ro)) = IsSubsetOf (relations_of e) (rs_Union (leaf_set lo) (leaf_set ro))) as Eu.
  { apply eq_iff_eq_true. rewrite !subset_bits by done. pose proof (proj2 (leaf_set_spec lo)) as L1. pose proof (proj2 (leaf_set_spec ro)) as L2. pose proof (proj2 (leaf_set_spec (lo ++ ro))) as L3.
    split; intros H i Hi; specialize (H i Hi); rewrite union_bit, ?L1, ?L2, ?L3, elem_of_app in *; tauto. }
  assert (IsSubsetOf (relations_of e) (leaf_set lo) = true → IsSubsetOf (relations_of e) (leaf_set (lo ++ ro)) = true) as H1 by (rewrite !Hsub; set_solver). assert (IsSubsetOf (relations_of e) (leaf_set ro) = true → IsSubsetOf (relations_of e) (leaf_set (lo ++ ro)) = true) as H2 by (rewrite !Hsub; set_solver).
  assert (Intersects (relations_of e) (leaf_set lo) = false → IsSubsetOf (relations_of e) (leaf_set (lo ++ ro)) = true → IsSubsetOf (relations_of e) (leaf_set ro) = true) as H3.
  { rewrite intersects_bits by done. rewrite !Hsub. intros Hi Hu i Hbit. specialize (Hu i Hbit). specialize (Hi i Hbit). rewrite (proj2 (leaf_set_spec lo)) in Hi. set_solver. }
  assert (Intersects (relations_of e) (leaf_set ro) = false → IsSubsetOf (relations_of e) (leaf_set (lo ++ ro)) = true → IsSubsetOf (relations_of e) (leaf_set lo) = true) as H4.
  { rewrite intersects_bits by done. rewrite !Hsub. intros Hi Hu i Hbit. specialize (Hu i Hbit). specialize (Hi i Hbit). rewrite (proj2 (leaf_set_spec ro)) in Hi. set_solver. }
  rewrite <- Eu. clear Eu Hsub. destruct (IsSubsetOf _ (leaf_set lo)), (IsSubsetOf _ (leaf_set ro)), (IsSubsetOf _ (leaf_set (lo ++ ro))), (Intersects _ (leaf_set lo)), (Intersects _ (leaf_set ro)); cbn [negb orb andb];
    rewrite ?Hl, ?Hr by done; try (specialize (H1 eq_refl)); try (specialize (H2 eq_refl)); try (specialize (H3 eq_refl eq_refl)); try (specialize (H4 eq_refl eq_refl)); try done; by destruct p.
Qed.
Lemma local_join a b : pick_ok rels lo a → pick_ok rels ro b → local_pass (lo ++ ro) (a ++ b) = local_pass lo a && local_pass ro b.
Proof.
  intros Ha Hb. unfold local_pass. rewrite forallb_app. assert (∀ o c, (∀ f, owned_in rels o f → env c f = env (a ++ b) f) → ∀ id, id ∈ o → all_pass (default [] (sf !! id)) (flat (a ++ b)) = all_pass (default [] (sf !! id)) (flat c)) as H.
  { intros o c HE id Hid. destruct (sf !! id) as [fs|] eqn:Ef; [|done]. cbn. pose proof (Fsf id fs Ef) as HF. clear Ef. induction HF as [|e fs (H1 & _ & H3) _ IH]; [done|]. cbn [all_pass forallb]. f_equal; [|exact IH]. symmetry. eapply (flat_agree o); [|done|done]. eapply Forall_impl; [exact H3|]. intros ref Ho. by exists id. }
  assert (∀ (f g : nat → bool) l, (∀ x, x ∈ l → f x = g x) → forallb f l = forallb g l) as Hext by (intros f g l Hl; induction l as [|x l IH]; [done|]; cbn; rewrite Hl by set_solver; f_equal; apply IH; set_solver).
  f_equal; apply Hext; intros id Hid; [by apply (H lo); [intros; by apply env_left|]|by apply (H ro); [intros; by apply env_right|]].
Qed.
Lemma crossing_edges : EdgesCrossing graph (leaf_set lo) (leaf_set ro) = keep (Crosses (leaf_set lo) (leaf_set ro)) edges.
Proof. done. Qed.
Local Abbreviation crossing := (keep (Crosses (leaf_set lo) (leaf_set ro)) edges).
Lemma crossing_ok : Forall (λ e, edge_ok e ∧ Forall (λ ref, owned_in rels (lo ++ ro) ref.2) (column_refs (edge_predicate_ e))) crossing.
Proof. apply Forall_forall. intros e [Hc Hin]%list_elem_of_filter. pose proof Hedges as HE. rewrite Forall_forall in HE. split; [by apply HE|]. apply crossing_owned; [by apply HE|done]. Qed.
Lemma reindex_crossing : mapM (λ edge, Reindex (edge_predicate_ edge) remap) crossing = Ok ((λ e, map_columns remapped (edge_predicate_ e)) <$> crossing).
Proof.
  pose proof crossing_ok as HC. induction HC as [|e es [He Ho] _ IH]; [done|]. assert (Reindex (edge_predicate_ e) remap = Ok (map_columns remapped (edge_predicate_ e))) as E.
  { apply traverse_columns_ok. eapply Forall_impl; [exact Ho|]. intros [t f] Hf. cbn in Hf |- *. unfold remapped. destruct (remap_ok f Hf) as (t' & k & -> & _). done. }
  change (mapM (λ edge, Reindex (edge_predicate_ edge) remap) (e :: es)) with (y ← Reindex (edge_predicate_ e) remap; k ← mapM (λ edge, Reindex (edge_predicate_ edge) remap) es; Ok (y :: k)). rewrite E. cbn [mbind result_bind]. by rewrite IH.
Qed.
Lemma join_predicate_passes a b : pick_ok rels lo a → pick_ok rels ro b →
  passes3 (RemapOntoCombined (order_width rels lo) (Conjoin ((λ e, map_columns remapped (edge_predicate_ e)) <$> crossing))) (cat a ++ cat b) = forallb (λ e, negb (Crosses (leaf_set lo) (leaf_set ro) e) || passes3 (edge_predicate_ e) (flat (a ++ b))) edges.
Proof.
  intros Ha Hb. transitivity (forallb (λ e, passes3 (edge_predicate_ e) (flat (a ++ b))) crossing).
  - unfold RemapOntoCombined. set (m := λ tuple col : nat, _). assert (∀ l, Forall (λ e, edge_ok e ∧ Forall (λ ref, owned_in rels (lo ++ ro) ref.2) (column_refs (edge_predicate_ e))) l →
      all_pass ((λ e, map_columns m (map_columns remapped (edge_predicate_ e))) <$> l) (cat a ++ cat b) = forallb (λ e, passes3 (edge_predicate_ e) (flat (a ++ b))) l) as HL.
    { induction 1 as [|e l [He Ho] _ IH]; [done|]. cbn [fmap list_fmap all_pass forallb]. f_equal; [|exact IH]. rewrite map_columns_compose. apply map_columns_passes. apply Forall_forall. intros [t f] Hin. cbn. rewrite Forall_forall in Ho. specialize (Ho _ Hin). cbn in Ho. destruct (remap_ok f Ho) as (t' & k & Er & _ & Hc). unfold remapped. rewrite Er. cbn. rewrite Hc by done.
      symmetry. apply (flat_cell rels w). pose proof (eo_flat _ He) as Hf. unfold flat_in in Hf. rewrite Forall_forall in Hf. by destruct (Hf _ Hin). }
    rewrite <- HL by apply crossing_ok. assert (∀ l, map_columns m (Conjoin l) = Conjoin (map_columns m <$> l)) as HM.
    { intros [|e l]; [done|]. cbn [Conjoin fmap list_fmap]. revert e. induction l as [|x l IH]; intros e; [done|]. cbn [foldl]. rewrite IH. done. }
    rewrite HM, Conjoin_passes, <- list_fmap_compose. done.
  - clear. induction edges as [|e l IH]; [done|]. rewrite filter_cons. cbn [forallb]. destruct (Crosses (leaf_set lo) (leaf_set ro) e) eqn:Ec; [rewrite decide_True by done; cbn [forallb]; by rewrite IH|rewrite decide_False by done; exact IH].
Qed.
Lemma qualifies_join a b : pick_ok rels lo a → pick_ok rels ro b →
  qualifies (lo ++ ro) (a ++ b) = qualifies lo a && qualifies ro b && passes3 (RemapOntoCombined (order_width rels lo) (Conjoin ((λ e, map_columns remapped (edge_predicate_ e)) <$> crossing))) (cat a ++ cat b).
Proof.
  intros Ha Hb. rewrite join_predicate_passes by done. unfold qualifies. rewrite local_join by done. assert (∀ l, Forall edge_ok l → forallb (inside (lo ++ ro) (a ++ b)) l = forallb (inside lo a) l && forallb (inside ro b) l && forallb (λ e, negb (Crosses (leaf_set lo) (leaf_set ro) e) || passes3 (edge_predicate_ e) (flat (a ++ b))) l) as HL.
  { induction 1 as [|e l He _ IH]; [done|]. cbn [forallb]. rewrite IH, inside_join by done. destruct (inside lo a e), (inside ro b e), (negb _ || _), (forallb (inside lo a) l), (forallb (inside ro b) l); done. }
  rewrite HL by done. destruct (local_pass lo a), (local_pass ro b), (forallb (inside lo a) edges), (forallb (inside ro b) edges); done.
Qed.
Lemma order_width_app a b : order_width rels (a ++ b) = (order_width rels a + order_width rels b)%nat.
Proof. apply sum_list_with_app. Qed.
Lemma emit_join : emitted (NestedLoopJoinPlanNode (ConcatSchemas (OutputSchema lp) (OutputSchema rp)) lp rp (default TRUE (ConjoinAll ((λ e, map_columns remapped (edge_predicate_ e)) <$> crossing))) INNER) (lo ++ ro).
Proof.
  set (preds := _ <$> crossing). assert (default TRUE (ConjoinAll preds) = Conjoin preds) as -> by (by destruct preds). pose proof (em_width _ _ EL) as WL. pose proof (em_width _ _ ER) as WR. pose proof (em_ids _ _ EL) as IL. pose proof (em_ids _ _ ER) as IR. split.
  - split; [apply EL|]. split; [apply ER|]. split; [unfold ConcatSchemas; by rewrite length_app|]. rewrite WL, WR. split; [|split; [|done]].
    + unfold two_sided. rewrite Conjoin_refs. apply Forall_join. subst preds. apply Forall_fmap. eapply Forall_impl; [apply crossing_ok|]. intros e [He Ho]. cbn. rewrite map_columns_refs. apply Forall_fmap. eapply Forall_impl; [exact Ho|]. intros [t f] Hf. cbn in *. unfold remapped. destruct (remap_ok f Hf) as (t' & k & -> & Hb & _). exact Hb.
    + apply condition_ok_Conjoin. subst preds. apply Forall_fmap. eapply Forall_impl; [apply crossing_ok|]. intros e [He _]. apply condition_ok_map, He.
  - cbn [OutputSchema]. unfold ConcatSchemas. rewrite length_app, order_width_app. lia.
  - by apply Forall_app.
  - done.
  - intros rows. rewrite join_any, WL. setoid_rewrite (em_answers _ _ EL). setoid_rewrite (em_answers _ _ ER).
    assert (∀ A B, A.*1 = lo → B.*1 = ro → Forall source A → Forall source B → ∀ ls rs, ls ≡ₚ cat <$> keep (qualifies lo) (prods A) → rs ≡ₚ cat <$> keep (qualifies ro) (prods B) →
      pairs_where (λ a b, passes3 (RemapOntoCombined (order_width rels lo) (Conjoin preds)) (a ++ b)) ls rs ≡ₚ cat <$> keep (qualifies (lo ++ ro)) (prods (A ++ B))) as HX.
    { intros A B EA EB SA SB ls rs Hls Hrs. rewrite (pairs_perm _ _ _ _ _ Hls Hrs), prods_app. apply reflexive_eq, pairs_picks. intros a b Ha Hb. apply source_picks in SA, SB. rewrite EA in SA. rewrite EB in SB. eapply Forall_forall in SA; [|exact Ha]. eapply Forall_forall in SB; [|exact Hb]. by apply qualifies_join. }
    split.
    + intros (ls & rs & (A & EA & SA & HA) & (B & EB & SB & HB) & Hp). exists (A ++ B). split; [by rewrite fmap_app, EA, EB|]. split; [by apply Forall_app|]. rewrite Hp. by apply HX.
    + intros (L & E1 & SL & Hp). apply fmap_app_inv in E1 as (A & B & EA & EB & ->). apply Forall_app in SL as [SA SB]. eexists _, _. split; [exists A; split_and!; [done|done|reflexivity]|]. split; [exists B; split_and!; [done|done|reflexivity]|]. rewrite Hp. symmetry. by apply HX.
Qed.
End join.
Lemma EmitJoinTree_ok t : NoDup (tree_leaves t) → ids_ok rels (tree_leaves t) → ∃ p o, EmitJoinTree t graph sf = Ok (p, o) ∧ emitted p o ∧ o ≡ₚ tree_leaves t.
Proof.
  induction t as [s card id|s card tl IHl tr IHr]; cbn [tree_leaves]; intros Hn Hi.
  - unfold ids_ok in Hi; rewrite Forall_singleton in Hi. destruct (emit_leaf s card id Hi) as (p & E & Hp). by exists p, [id].
  - pose proof Hn as (Nl & Nd & Nr)%NoDup_app. apply Forall_app in Hi as [Il Ir]. destruct (IHl Nl Il) as (lp & lo & El & Hl & Pl), (IHr Nr Ir) as (rp & ro & Er & Hr & Pr). cbn [EmitJoinTree]. rewrite El, Er. cbn [mbind result_bind].
    assert (NoDup (lo ++ ro)) as H1 by (by rewrite Pl, Pr). assert (NoDup (ro ++ lo)) as H2 by (by rewrite Permutation_app_comm). destruct (SFltb (tree_card tr) (tree_card tl)); cbn [graph_relations].
    + rewrite crossing_edges. pose proof (reindex_crossing rp lp ro lo Hr Hl H2) as HM. unfold remap in HM at 1. rewrite HM. cbn [mbind result_bind]. eexists _, _. split; [done|]. split; [by apply emit_join|]. by rewrite Pl, Pr, Permutation_app_comm.
    + rewrite crossing_edges. pose proof (reindex_crossing lp rp lo ro Hl Hr H1) as HM. unfold remap in HM at 1. rewrite HM. cbn [mbind result_bind]. eexists _, _. split; [done|]. split; [by apply emit_join|]. by rewrite Pl, Pr.
Qed.
(** ** The whole region *)

Lemma seq_width i m : (i + m = length leaves)%nat → ∀ c, pick_ok rels (seq i m) c → ∀ k, (total_width (take i leaves) + k < w)%nat → cell_of (cat c) k = env c (total_width (take i leaves) + k).
Proof.
  revert i. induction m as [|m IH]; intros i Hm c [Ec Fc] k Hk; [replace i with (length leaves) in Hk by lia; rewrite firstn_all in Hk; lia|]. destruct c as [|[j t] c]; [done|]. injection Ec as -> Ec. apply Forall_cons in Fc as [Ht Fc]. cbn in Ht.
  destruct (lookup_lt_is_Some_2 leaves i) as [leaf Hleaf]; [lia|]. destruct (proj2 HRL i leaf Hleaf) as (card & Hc). rewrite (leaf_width _ _ Hleaf) in Ht. cbn [JoinOrderRegion.env]. rewrite Hc. unfold owns. cbn [base_col_offset_ col_count_]. unfold cat, cell_of. cbn [fmap list_fmap snd]. rewrite mjoin_cons. case_bool_decide as Ho.
  - rewrite lookup_app_l by lia. unfold cell_of. do 2 f_equal. lia.
  - rewrite lookup_app_r by lia. pose proof (IH (S i) ltac:(lia) c (conj Ec Fc) (k - length t)%nat) as H. rewrite (total_take _ _ _ Hleaf) in H. unfold cell_of, cat in H. rewrite H by lia. f_equal. lia.
Qed.
Lemma order_width_seq : order_width rels (seq 0 (length leaves)) = w.
Proof.
  assert (∀ i m, (i + m = length leaves)%nat → (total_width (take i leaves) + order_width rels (seq i m) = w)%nat) as H; [|specialize (H 0%nat (length leaves) eq_refl); cbn in H; exact H].
  intros i m. revert i. induction m as [|m IH]; intros i Hm; [replace i with (length leaves) by lia; rewrite firstn_all; cbn; lia|]. destruct (lookup_lt_is_Some_2 leaves i) as [leaf Hleaf]; [lia|]. specialize (IH (S i) ltac:(lia)). rewrite (total_take _ _ _ Hleaf) in IH. unfold order_width in *. cbn [seq sum_list_with]. rewrite (leaf_width _ _ Hleaf). lia.
Qed.
(** The rows of the relations as they were written, one after the other, are the flat row. *)
Lemma cat_flat c : pick_ok rels (seq 0 (length leaves)) c → cat c = flat c.
Proof.
  intros Hc. apply list_eq. intros k. destruct (decide (k < w)%nat) as [Hk|Hk].
  - pose proof (seq_width 0 (length leaves) eq_refl c Hc k Hk) as H. rewrite take_0 in H. change (total_width []) with 0%nat in H. cbn [Nat.add] in H. unfold flat. rewrite list_lookup_fmap, lookup_seq_lt by done. cbn. rewrite <- H. unfold cell_of. destruct (cat c !! k) eqn:E; [done|]. apply lookup_ge_None in E. rewrite (cat_length rels (seq 0 (length leaves))), order_width_seq in E by done. lia.
  - rewrite !lookup_ge_None_2; [done| |]; [unfold flat; rewrite length_fmap, length_seq; lia|]. rewrite (cat_length rels (seq 0 (length leaves))), order_width_seq by done. lia.
Qed.
Lemma source_seq L : L.*1 = seq 0 (length leaves) → Forall source L ↔ Forall2 answers leaves L.*2.
Proof.
  intros E. rewrite Forall_lookup, Forall2_lookup. assert (length L = length leaves) as Hl by (rewrite <- (length_fmap fst L), E; apply length_seq).
  assert (∀ i x, L !! i = Some x → x.1 = i) as Hi by (intros i x Hx; pose proof (lookup_lt_Some _ _ _ Hx) as Hlt; assert (L.*1 !! i = Some x.1) as Hf by (by rewrite list_lookup_fmap, Hx); rewrite E, lookup_seq_lt in Hf by lia; by injection Hf as ->). split.
  - intros H i. rewrite list_lookup_fmap. destruct (L !! i) as [x|] eqn:Ex.
    + destruct (H i x Ex) as (leaf & Hleaf & Ha). rewrite (Hi i x Ex) in Hleaf. rewrite Hleaf. by constructor.
    + rewrite (lookup_ge_None_2 leaves) by (apply lookup_ge_None in Ex; lia). constructor.
  - intros H i x Ex. specialize (H i). rewrite list_lookup_fmap, Ex in H. inversion H as [leaf y Ha El Ey|]. exists leaf. rewrite (Hi i x Ex). by split.
Qed.
Section whole.
Context (e : Expr) (Hpass : ∀ row, all_pass (mjoin sf) row && all_pass (edge_predicate_ <$> edges) row = passes3 e row).
Context (p : Plan) (o : list nat) (EP : emitted p o) (Ho : o ≡ₚ seq 0 (length leaves)).
Lemma whole_in i : (i < length rels)%nat ↔ i ∈ o.
Proof. rewrite Ho, elem_of_seq. rewrite (proj1 HRL). lia. Qed.
Lemma whole_qualifies c : qualifies o c = passes3 e (flat c).
Proof.
  rewrite <- Hpass. unfold qualifies. f_equal.
  - unfold local_pass. assert (∀ a b : list nat, a ≡ₚ b → ∀ f, forallb f a = forallb f b) as HP by (intros a b Hab f; induction Hab; cbn; [done|by f_equal|by rewrite !andb_assoc, (andb_comm (f y))|congruence]). rewrite (HP _ _ Ho), <- (proj1 HRL), <- Hsf. clear -sf. generalize (flat c). intros row. set (k := 0%nat). assert (∀ pre, length pre = k → forallb (λ id, all_pass (default [] ((pre ++ sf) !! id)) row) (seq k (length sf)) = all_pass (mjoin sf) row) as H; [|exact (H [] eq_refl)].
    generalize k. clear k. induction sf as [|fs l IH]; intros k pre Hk; [done|]. cbn [length seq forallb]. rewrite mjoin_cons, all_pass_app. rewrite lookup_app_r, Hk, Nat.sub_diag by lia. cbn [lookup list_lookup default]. f_equal. rewrite <- (IH (S k) (pre ++ [fs])) by (rewrite length_app; cbn; lia). rewrite <- app_assoc. done.
  - assert (∀ l, Forall edge_ok l → forallb (inside o c) l = all_pass (edge_predicate_ <$> l) (flat c)) as H; [|by apply H]. induction 1 as [|x es Hx _ IH]; [done|]. cbn [forallb fmap list_fmap all_pass]. f_equal; [|exact IH]. unfold inside. assert (IsSubsetOf (relations_of x) (leaf_set o) = true) as ->; [|done]. apply subset_bits; [apply Hx|]. intros i Hi. apply (eo_bits _ Hx) in Hi as (f & _ & r & Hr & _). apply (proj2 (leaf_set_spec o)), whole_in. by eapply lookup_lt_Some.
Qed.
Lemma whole_owned f : (f < w)%nat → owned_in rels o f.
Proof. intros Hf. destruct (ro_owner _ _ HRok f Hf) as (i & r & Hi & Hr). exists i. split; [apply whole_in; by eapply lookup_lt_Some|by exists r]. Qed.
Lemma restore_columns_ok columns : ∀ k, (k + length columns = w)%nat → ∃ es, restore_columns o rels k columns = Ok es ∧ length es = length columns ∧ Forall (flat_in (order_width rels o)) es ∧ ∀ c, pick_ok rels o c → results_of es (cat c) = env c <$> seq k (length columns).
Proof.
  induction columns as [|col columns IH]; intros k Hk; [by exists []|]. cbn [length] in Hk. destruct (IH (S k) ltac:(lia)) as (es & E & Hl & Hf & Hc). destruct (LocalPosition_ok rels o k (em_ids _ _ EP) (whole_owned k ltac:(lia))) as (j & Hj & Hjw & Hjc).
  cbn [restore_columns]. rewrite Hj, E. cbn [mbind result_bind]. eexists. split; [done|]. split; [cbn; by rewrite Hl|]. split; [constructor; [|done]; unfold flat_in; cbn; apply Forall_singleton; cbn; lia|]. intros c Pc. cbn [length seq fmap list_fmap results_of]. f_equal; [|by apply Hc]. by rewrite <- Hjc.
Qed.
(** What is picked, flat, does not depend on the order of the relations. *)
Lemma flat_picks L L0 : L ≡ₚ L0 → L0.*1 = seq 0 (length leaves) → Forall source L → Forall source L0 → flat <$> prods L ≡ₚ cat <$> prods L0.
Proof.
  intros HL E0 SL SL0. assert (L.*1 ≡ₚ seq 0 (length leaves)) as E by (by rewrite HL, E0). set (F := λ c : Pick, if decide (NoDup c.*1) then flat c else []).
  assert (∀ M, Forall source M → NoDup M.*1 → flat <$> prods M = F <$> prods M) as HF.
  { intros M SM Hn. apply list_fmap_ext. intros i c Hi. apply source_picks in SM. eapply Forall_lookup_1 in SM as [Ec _]; [|exact Hi]. unfold F. by rewrite decide_True by (by rewrite Ec). }
  assert (flat <$> prods L0 = cat <$> prods L0) as <-.
  { apply list_fmap_ext. intros i c Hi. symmetry. apply cat_flat. apply source_picks in SL0. rewrite E0 in SL0. by eapply Forall_lookup_1. }
  rewrite !HF; [|done|rewrite E0; apply NoDup_seq|done|rewrite E; apply NoDup_seq]. apply prods_perm; [done|]. intros a b Hab. unfold F. destruct (decide (NoDup a.*1)) as [Hn|Hn].
  - rewrite decide_True by (by rewrite <- Hab). unfold flat. apply list_fmap_ext. intros i f _. eapply env_perm; [apply HRok|done|done].
  - rewrite decide_False; [done|]. by rewrite <- Hab.
Qed.
Lemma whole_answers es : (∀ c, pick_ok rels o c → results_of es (cat c) = flat c) → ∀ rows,
  (∃ r, answers_any p r ∧ rows ≡ₚ results_of es <$> r) ↔ ∃ Rs, Forall2 answers leaves Rs ∧ rows ≡ₚ keep (passes3 e) (cat <$> prods (zip (seq 0 (length leaves)) Rs)).
Proof.
  intros Hes rows. assert (∀ L L0, L.*1 = o → L ≡ₚ L0 → L0.*1 = seq 0 (length leaves) → Forall source L → Forall source L0 → results_of es <$> (cat <$> keep (qualifies o) (prods L)) ≡ₚ keep (passes3 e) (cat <$> prods L0)) as HX.
  { intros L L0 E HL E0 SL SL0. rewrite <- (flat_picks L L0) by done. rewrite (keep_fmap flat), (keep_ext (λ x, passes3 e (flat x)) (qualifies o)) by (apply Forall_forall; intros c _; symmetry; apply whole_qualifies). rewrite <- list_fmap_compose. apply reflexive_eq, list_fmap_ext. intros i c Hi%list_elem_of_lookup_2. apply list_elem_of_filter in Hi as [_ Hi]. cbn. apply Hes. apply source_picks in SL. rewrite E in SL. by eapply Forall_forall in SL. }
  split.
  - intros (r & (L & E & SL & Hr)%(em_answers _ _ EP) & Hrows). assert (seq 0 (length leaves) ≡ₚ L.*1) as HP by (by rewrite E). destruct (Permutation_map_inv _ _ HP) as (L0 & E0 & HL). rewrite HL in SL. exists L0.*2. split; [by apply source_seq|]. change (List.map fst L0) with L0.*1 in E0. rewrite E0, zip_fst_snd. rewrite Hrows, Hr. apply HX; try done. by rewrite HL.
  - intros (Rs & HF & Hrows). pose proof (Forall2_length _ _ _ HF) as Hlen. set (L0 := zip (seq 0 (length leaves)) Rs) in *. assert (L0.*1 = seq 0 (length leaves)) as E0 by (apply fst_zip; rewrite length_seq; lia). assert (L0.*2 = Rs) as E2 by (apply snd_zip; rewrite length_seq; lia).
    assert (Forall source L0) as S0 by (apply source_seq; [done|by rewrite E2]). assert (o ≡ₚ L0.*1) as HP by (by rewrite E0). destruct (Permutation_map_inv _ _ HP) as (L & E & HL). change (List.map fst L) with L.*1 in E. assert (Forall source L) as SL by (by rewrite <- HL).
    eexists. split; [apply (em_answers _ _ EP); exists L; split_and!; [done|done|reflexivity]|]. rewrite Hrows. symmetry. by apply HX.
Qed.
End whole.
End tree.
End emit.
