(* ===== verification/OptimizerTheorems.v ===== *)
(** * Column pruning, and the theorem about the optimizer

    Rows of a pruned subtree agree with the original ones on the columns that some ancestor reads; at the root
    these are all of them.  With join ordering and the other rules, the optimized plan answers what the given
    one does. *)

From stdpp Require Import sorting.
From Stdlib Require Import Floats.SpecFloat.
From S2P Require Import Prelude TablePage TableHeap BTreePage BPlusTree GenericKey NumericText StringHeap ValidityMask SortKey VectorOps SortKeyOrder StreamOperator RowFormat RowScatter HashInvariant VectorHash HashSystem HashJoin JoinProbe JoinExecute ResultCollector LikeMatch VectorKernels ColumnReads ExpressionExecutor ExpressionEval ExactFloat Aggregate Plan Optimizer JoinOrder OptimizerRules JoinOrderRegion.

(** ** Required columns *)

Section meaning.
Context {casts : Casts}.
Lemma elem_of_set_insert x y l : x ∈ set_insert y l ↔ x = y ∨ x ∈ l.
Proof. induction l as [|z l IH]; cbn; [set_solver|]. repeat case_bool_decide; subst; set_solver. Qed.
Lemma elem_of_CollectColumnRefs c e t out : c ∈ CollectColumnRefs e t out ↔ c ∈ out ∨ (t, c) ∈ column_refs e.
Proof.
  unfold CollectColumnRefs. generalize (column_refs e). intros refs. revert out. induction refs as [|[t' c'] refs IH]; intros out; cbn [foldl fst snd]; [set_solver|]. rewrite IH. case_bool_decide as E; [subst; rewrite elem_of_set_insert|]; set_solver.
Qed.
Lemma elem_of_collect_all c es t out : c ∈ collect_all es t out ↔ c ∈ out ∨ ∃ e, e ∈ es ∧ (t, c) ∈ column_refs e.
Proof. unfold collect_all. revert out. induction es as [|e es IH]; intros out; cbn [foldl]; [set_solver|]. rewrite IH, elem_of_CollectColumnRefs. set_solver. Qed.
Lemma elem_of_collect_keys c es out : c ∈ collect_keys es out ↔ c ∈ out ∨ ∃ e t, e ∈ es ∧ (t < 2)%nat ∧ (t, c) ∈ column_refs e.
Proof.
  unfold collect_keys. revert out. induction es as [|e es IH]; intros out; cbn [foldl]; [set_solver|]. rewrite IH, !elem_of_CollectColumnRefs. split.
  - intros [[[?|?]|?]|(e' & t & ? & ? & ?)]; [by left|right; exists e, 0%nat|right; exists e, 1%nat|right; exists e', t]; (split_and!; [set_solver|lia|done]).
  - intros [?|(e' & t & [->|He]%elem_of_cons & Ht & Hin)]; [by do 3 left| |right; by exists e', t]. left. destruct t as [|[|t]]; [left; by right|by right|lia].
Qed.
Lemma elem_of_read_exprs R es c e : c ∈ R → es !! c = Some e → e ∈ read_exprs R es.
Proof. intros Hc He. unfold read_exprs. apply list_elem_of_fmap. exists (c, e). split; [done|]. apply list_elem_of_filter. split; [done|]. apply list_elem_of_lookup. exists c. rewrite list_lookup_imap, He. done. Qed.

(** ** Rows that agree *)

Record agree (n : nat) (R : list nat) (a b : Row) : Prop := { ag_left : length a = n; ag_right : length b = n; ag_cells : ∀ c, c ∈ R → cell_of a c = cell_of b c }.
#[global] Instance agree_sym n R : Symmetric (agree n R).
Proof. intros a b [? ? H]. split; [done|done|]. intros c Hc. by rewrite H. Qed.
Lemma agree_sub n R R' a b : (∀ c, c ∈ R → c ∈ R') → agree n R' a b → agree n R a b.
Proof. intros HR [? ? H]. split; [done|done|]. intros c Hc. apply H, HR, Hc. Qed.
Lemma agree_all n a b : agree n (seq 0 n) a b → a = b.
Proof.
  intros [Ha Hb H]. apply list_eq. intros i. destruct (decide (i < n)%nat) as [Hi|Hi]; [|rewrite !lookup_ge_None_2 by lia; done]. specialize (H i ltac:(apply elem_of_seq; lia)). unfold cell_of in H.
  destruct (lookup_lt_is_Some_2 a i ltac:(lia)) as [x Ex], (lookup_lt_is_Some_2 b i ltac:(lia)) as [y Ey]. rewrite Ex, Ey in *. cbn in H. by subst.
Qed.
Lemma agree_results n R es a b : (∀ e t c, e ∈ es → (t, c) ∈ column_refs e → c ∈ R) → agree n R a b → results_of es a = results_of es b.
Proof.
  intros HR [_ _ H]. apply list_fmap_ext. intros i e He. apply agrees_result, Forall_forall. intros [t c] Hc. cbn. eapply H, HR; [|exact Hc]. by apply list_elem_of_lookup_2 in He.
Qed.
Lemma agree_passes n R e a b : (∀ t c, (t, c) ∈ column_refs e → c ∈ R) → agree n R a b → passes3 e a = passes3 e b.
Proof. intros HR [_ _ H]. apply agrees_passes, Forall_forall. intros [t c] Hc. cbn. eapply H, HR. exact Hc. Qed.
Lemma agree_app n m R Rl Rr a a' b b' : agree n Rl a a' → agree m Rr b b' → (∀ c, c ∈ R → (c < n)%nat → c ∈ Rl) → (∀ c, c ∈ R → ¬ (c < n)%nat → (c - n)%nat ∈ Rr) → agree (n + m) R (a ++ b) (a' ++ b').
Proof.
  intros [? ? Ha] [? ? Hb] Hl Hr. split; [rewrite length_app; lia|rewrite length_app; lia|]. intros c Hc. unfold cell_of. destruct (decide (c < n)%nat) as [E|E].
  - rewrite !lookup_app_l by lia. by apply Ha, Hl.
  - rewrite !lookup_app_r by lia. specialize (Hb _ (Hr c Hc E)). unfold cell_of in Hb. by replace (length a) with n by lia; replace (length a') with n by lia.
Qed.

(** ** Lists of rows that agree *)

Lemma Forall2_perm {A B} (P : A → B → Prop) X Y x : Forall2 P X Y → x ≡ₚ X → ∃ y, y ≡ₚ Y ∧ Forall2 P x y.
Proof.
  intros HF Hp. symmetry in Hp. revert Y HF. induction Hp as [|a X x Hp IH|a b X|X Z x Hp IH Hp' IH']; intros Y HF.
  - inversion HF; subst. by exists [].
  - inversion HF as [|? b ? Y' Hab HF']; subst. destruct (IH _ HF') as (y & Hy & Hf). exists (b :: y). by split; [rewrite Hy|constructor].
  - inversion HF as [|? c ? Y' Hac HF']; subst. inversion HF' as [|? d ? Y'' Hbd HF'']; subst. exists (d :: c :: Y''). split; [constructor|by repeat constructor].
  - destruct (IH _ HF) as (z & Hz & Hf). destruct (IH' _ Hf) as (y & Hy & Hf'). exists y. split; [by rewrite Hy|done].
Qed.
Lemma Forall2_keep {A B} (R : A → B → Prop) (P : A → bool) (Q : B → bool) x y : (∀ a b, R a b → P a = Q b) → Forall2 R x y → Forall2 R (filter (λ a, P a = true) x) (filter (λ b, Q b = true) y).
Proof. intros H. induction 1 as [|a b x y Hab _ IH]; [constructor|]. rewrite !filter_cons. rewrite (H _ _ Hab). case_decide; [by constructor|done]. Qed.
Lemma Forall2_bind {A B C D} (R : A → B → Prop) (S : C → D → Prop) (f : A → list C) (g : B → list D) x y : (∀ a b, R a b → Forall2 S (f a) (g b)) → Forall2 R x y → Forall2 S (x ≫= f) (y ≫= g).
Proof. intros H. induction 1 as [|a b x y Hab _ IH]; [constructor|]. rewrite !bind_cons. apply Forall2_app; [by apply H|done]. Qed.
Lemma Forall2_map {A B C D} (R : A → B → Prop) (S : C → D → Prop) (f : A → C) (g : B → D) x y : (∀ a b, R a b → S (f a) (g b)) → Forall2 R x y → Forall2 S (f <$> x) (g <$> y).
Proof. intros H HF. apply Forall2_fmap. eapply Forall2_impl; [exact HF|]. done. Qed.
Lemma Forall2_sorted {A B} (R : A → B → Prop) (P : A → A → Prop) (Q : B → B → Prop) x y : (∀ a b a' b', R a b → R a' b' → P a a' → Q b b') → Forall2 R x y → StronglySorted P x → StronglySorted Q y.
Proof.
  intros H. induction 1 as [|a b x y Hab HF IH]; [constructor|]. intros [Hs Ha]%StronglySorted_inv. constructor; [by apply IH|]. clear IH Hs. induction HF as [|a' b' x y Hab' _ IH]; [constructor|]. apply Forall_cons in Ha as [H1 H2]. constructor; [by eapply H|by apply IH].
Qed.

(** ** Joins *)

Lemma nested_loop_agree jt e lw rw R Rl Rr l l' rs rs' :
  two_sided lw rw e → (∀ c, (0%nat, c) ∈ column_refs e → c ∈ Rl) → (∀ c, (1%nat, c) ∈ column_refs e → c ∈ Rr) →
  (∀ c, c ∈ R → (c < lw)%nat → c ∈ Rl) → (∀ c, c ∈ R → ¬ (c < lw)%nat → (c - lw)%nat ∈ Rr) →
  agree lw Rl l l' → Forall2 (agree rw Rr) rs rs' → Forall2 (agree (lw + rw) R) (nested_loop jt e lw rw rs l) (nested_loop jt e lw rw rs' l').
Proof.
  intros H2 He0 He1 HRl HRr Hl Hrs.
  assert (Forall2 (agree (lw + rw) R) ((λ r, l ++ r) <$> filter (λ r, passes3 (RemapOntoCombined lw e) (l ++ r) = true) rs) ((λ r, l' ++ r) <$> filter (λ r, passes3 (RemapOntoCombined lw e) (l' ++ r) = true) rs')) as Hp.
  { eapply Forall2_map; [|eapply (Forall2_keep (agree rw Rr)); [|exact Hrs]]; [intros a b Hab; by eapply agree_app|]. intros a b Hab. apply agrees_passes. unfold RemapOntoCombined. rewrite map_columns_refs. apply Forall_fmap, Forall_forall. intros [t c] Hin. cbn.
    pose proof H2 as H2'. unfold two_sided in H2'. rewrite Forall_forall in H2'. destruct Hl as [E1 E2 Hl], Hab as [E3 E4 Hab]. unfold cell_of. specialize (H2' _ Hin). cbn in H2'. destruct H2' as [[-> Hc]|[-> Hc]].
    - rewrite (bool_decide_true (0%nat = 0%nat)) by done. rewrite !lookup_app_l by lia. by apply Hl, He0.
    - rewrite (bool_decide_false (1%nat = 0%nat)) by done. rewrite !lookup_app_r by lia. replace (lw + c - length l)%nat with c by lia. replace (lw + c - length l')%nat with c by lia. by apply Hab, He1. }
  unfold nested_loop. destruct jt; try exact Hp. destruct Hp as [|a b x y Hab Hp]; [|by constructor]. constructor; [|constructor]. eapply agree_app; [exact Hl|split; [by rewrite length_replicate|by rewrite length_replicate|done]|done|done].
Qed.
Definition keyed_agree (n : nat) (R : list nat) (b b' : Keyed) : Prop := b.1 = b'.1 ∧ agree n R b.2 b'.2.
Lemma build_side_agree op op' n R b b' : length (build_types_ op) = n → length (build_types_ op') = n → live_build_columns_ op = seq 0 n → (∀ c, c ∈ R → (c < n)%nat → c ∈ live_build_columns_ op') →
  option_Forall2 (λ x y : Row, agree n R x y) b b' → agree n R (build_side op b) (build_side op' b').
Proof.
  intros E1 E2 El HR Hb. unfold build_side. split; [by rewrite length_fmap, length_seq|by rewrite length_fmap, length_seq|]. intros c Hc. rewrite E1, E2. unfold cell_of. rewrite !list_lookup_fmap. destruct (decide (c < n)%nat) as [Hn|Hn]; [|by rewrite lookup_seq_ge by lia].
  rewrite lookup_seq_lt by done. cbn. unfold build_cell. rewrite El, (bool_decide_true (c ∈ seq 0 n)) by (apply elem_of_seq; lia). rewrite bool_decide_true by (by apply HR). destruct Hb as [x y [_ _ Hxy]|]; [|done]. cbn. by apply Hxy.
Qed.
Lemma joined_agree kt bt jt aware live n bn R Rb Rp B B' key row row' : length bt = bn →
  let op := mkJoin kt bt jt aware (seq 0 bn) in let op' := mkJoin kt bt jt aware live in
  let out := (n + if bool_decide (jt = SEMI) || bool_decide (jt = ANTI) then 0 else bn)%nat in
  (if bool_decide (jt = SEMI) || bool_decide (jt = ANTI) then ∀ c, c ∈ R → c ∈ Rp else
   (∀ c, c ∈ Rb → (c < bn)%nat → c ∈ live) ∧
   if bool_decide (jt = LEFT) then (∀ c, c ∈ R → (c < n)%nat → c ∈ Rp) ∧ (∀ c, c ∈ R → ¬ (c < n)%nat → (c - n)%nat ∈ Rb)
   else (∀ c, c ∈ R → (c < bn)%nat → c ∈ Rb) ∧ (∀ c, c ∈ R → ¬ (c < bn)%nat → (c - bn)%nat ∈ Rp)) →
  Forall2 (keyed_agree bn Rb) B B' → agree n Rp row row' → Forall2 (agree out R) (joined op B key row) (joined op' B' key row').
Proof.
  intros Hbt op op' out HR HB Hrow. assert (Forall2 (keyed_agree bn Rb) (partners op B key) (partners op' B' key)) as Hp by (apply (Forall2_keep (keyed_agree bn Rb)); [intros a b [E _]; cbn; by rewrite E|done]).
  assert (∀ b b', option_Forall2 (keyed_agree bn Rb) b b' → jt ≠ SEMI → jt ≠ ANTI → agree out R (join_row op b row) (join_row op' b' row')) as Hj.
  { intros b b' Hb Hs Ha. subst out. rewrite (bool_decide_false (jt = SEMI)), (bool_decide_false (jt = ANTI)) in * by done. cbn [orb] in *. destruct HR as [HR1 HR2]. assert (agree bn Rb (build_side op (snd <$> b)) (build_side op' (snd <$> b'))) as Hbs.
    { apply build_side_agree; try done. destruct Hb as [x y [_ Hxy]|]; [by constructor|constructor]. }
    unfold join_row, IsLeftJoin. cbn [join_type_ op op']. destruct (bool_decide (jt = LEFT)) eqn:EL; destruct HR2 as [HR2 HR3]; [by eapply agree_app|]. rewrite Nat.add_comm. by eapply agree_app. }
  assert (partners op B key = [] ↔ partners op' B' key = []) as He by (destruct Hp; done). unfold joined. cbn [join_type_ null_aware_ op op']. fold op op'. destruct jt; try (eapply Forall2_map; [|exact Hp]; intros a b Hab; apply Hj; [by constructor|done|done]).
  - eapply Forall2_map; [intros a b Hab; apply Hj; [exact Hab|done|done]|]. unfold none_if_empty. destruct Hp as [|a b x y Hab Hp]; [by repeat constructor|]. constructor; [by constructor|]. eapply Forall2_map; [|exact Hp]. by constructor.
  - assert (agree out R row row') as Hr by (subst out; rewrite (bool_decide_true (SEMI = SEMI)) in * by done; cbn [orb] in *; rewrite Nat.add_0_r; by eapply agree_sub).
    rewrite (bool_decide_ext _ _ He). destruct (bool_decide (partners op' B' key = [])); [constructor|constructor; [exact Hr|constructor]].
  - assert (agree out R row row') as Hr by (subst out; rewrite (bool_decide_true (ANTI = ANTI)), orb_true_r in * by done; rewrite Nat.add_0_r; by eapply agree_sub).
    destruct aware; [|rewrite (bool_decide_ext _ _ He); destruct (bool_decide (partners op' B' key = [])); [constructor; [exact Hr|constructor]|constructor]]. assert (not_in op B key = not_in op' B' key) as ->; [|destruct (not_in op' B' key); [constructor; [exact Hr|constructor]|constructor]].
    unfold not_in. clear -HB. induction HB as [|a b x y [E _] _ IH]; [done|]. cbn [forallb]. rewrite IH, E. done.
Qed.
Lemma CoerceJoinKeys_refs lk rk : length lk = length rk → column_refs <$> (CoerceJoinKeys lk rk).1 = column_refs <$> lk ∧ column_refs <$> (CoerceJoinKeys lk rk).2 = column_refs <$> rk.
Proof.
  unfold CoerceJoinKeys. revert rk. induction lk as [|a lk IH]; intros [|b rk] E; try done. destruct (IH rk ltac:(cbn in E; lia)) as [IH1 IH2]. cbn [fst snd] in *. cbn [zip_with]. rewrite !fmap_cons. unfold CoerceJoinKey at 1 3. repeat case_match; cbn [fst snd]; cbn [column_refs]; split; f_equal; done.
Qed.
Lemma keyed_rows_agree n R R' keys rows rows' : (∀ e t c, e ∈ keys → (t, c) ∈ column_refs e → c ∈ R') → (∀ c, c ∈ R → c ∈ R') → Forall2 (agree n R') rows rows' → Forall2 (keyed_agree n R) (keyed keys <$> rows) (keyed keys <$> rows').
Proof. intros H HR. apply Forall2_map. intros a b Hab. split; [cbn; by eapply agree_results|by eapply agree_sub]. Qed.
Lemma coerced_refs (keys keys' : list Expr) (P : nat → Prop) : column_refs <$> keys' = column_refs <$> keys → (∀ e t c, e ∈ keys → (t, c) ∈ column_refs e → P c) → ∀ e t c, e ∈ keys' → (t, c) ∈ column_refs e → P c.
Proof.
  intros E H e t c He Hc. apply (list_elem_of_fmap_2 column_refs) in He. rewrite E in He. apply list_elem_of_fmap in He as (e' & Ee & He'). rewrite Ee in Hc. by eapply H.
Qed.
(** [lreq] and [rreq] are what is required of the output of each side, [Rl] and [Rr] what its rows agree on. *)
Lemma hash_join_agree ls rs lk rk jt aware R lreq rreq Rl Rr lrows lrows' rrows rrows' :
  let keys_only := bool_decide (jt = SEMI) || bool_decide (jt = ANTI) in
  let live := if keys_only then [] else if builds_right jt then rreq else lreq in
  length lk = length rk → (∀ e t c, e ∈ lk → (t, c) ∈ column_refs e → c ∈ Rl) → (∀ e t c, e ∈ rk → (t, c) ∈ column_refs e → c ∈ Rr) →
  (∀ c, c ∈ lreq → c ∈ Rl) → (∀ c, c ∈ rreq → c ∈ Rr) → (∀ c, c ∈ R → (c < length ls)%nat → c ∈ lreq) → (∀ c, c ∈ R → ¬ (c < length ls)%nat → (c - length ls)%nat ∈ rreq) → (keys_only = true → ∀ c, c ∈ R → (c < length ls)%nat) →
  Forall2 (agree (length ls) Rl) lrows lrows' → Forall2 (agree (length rs) Rr) rrows rrows' →
  Forall2 (agree (length ls + if keys_only then 0 else length rs) R) (hash_join ls rs lk rk jt aware None lrows rrows) (hash_join ls rs lk rk jt aware (Some live) lrows' rrows').
Proof.
  intros keys_only live Hk Hlk Hrk HL HR Hseam Hseam' Honly Hlrows Hrrows. unfold hash_join. pose proof (CoerceJoinKeys_refs lk rk Hk) as [E1 E2]. destruct (CoerceJoinKeys lk rk) as [lk' rk']. cbn [fst snd] in *. pose proof (coerced_refs _ _ _ E1 Hlk) as Hlk'. pose proof (coerced_refs _ _ _ E2 Hrk) as Hrk'.
  unfold CreateHashJoin, physical_types. destruct (builds_right jt) eqn:Eb.
  - eapply Forall2_bind; [|exact Hlrows]. intros a b Hab. rewrite (agree_results _ _ lk' _ _ Hlk' Hab). rewrite length_fmap. apply (joined_agree _ _ _ _ live (length ls) (length rs) R rreq Rl); [apply length_fmap| |by apply (keyed_rows_agree _ _ Rr)|exact Hab].
    fold keys_only. destruct keys_only eqn:Ek; [intros c Hc; apply HL, Hseam; [done|by apply Honly]|]. split; [done|]. assert (jt = LEFT) as -> by (subst keys_only; destruct jt; done). rewrite bool_decide_true by done. split; [intros; by apply HL, Hseam|done].
  - assert (keys_only = false) as Ek by (subst keys_only; by destruct jt). assert (bool_decide (jt = LEFT) = false) as EL by (by destruct jt). eapply Forall2_bind; [|exact Hrrows]. intros a b Hab. rewrite (agree_results _ _ rk' _ _ Hrk' Hab). rewrite length_fmap.
    pose proof (joined_agree ((λ e, ctype_ (GetReturnType e)) <$> lk') ((λ c, ctype_ (col_type c)) <$> ls) jt aware live (length rs) (length ls) R lreq Rr (keyed lk' <$> lrows) (keyed lk' <$> lrows') (results_of rk' b) a b) as HJ. fold keys_only in HJ. rewrite Ek in HJ |- *. rewrite EL, Nat.add_comm in HJ. subst live. rewrite Ek in *.
    apply HJ; [apply length_fmap| |by apply (keyed_rows_agree _ _ Rl)|exact Hab]. split; [done|]. split; [done|]. intros; by apply HR, Hseam'.
Qed.

(** ** Answers that agree *)

Definition leads (n : nat) (R : list nat) (S T : list Row → Prop) : Prop := ∀ x, S x → ∃ y, T y ∧ Forall2 (agree n R) x y.
Definition both (n : nat) (R : list nat) (S T : list Row → Prop) : Prop := leads n R S T ∧ leads n R T S.
Lemma flip_agree n R x y : Forall2 (agree n R) x y → Forall2 (agree n R) y x.
Proof. intros H. by symmetry. Qed.
Lemma both_unary n m R R' (S T : list Row → Prop) (F : list Row → list Row → Prop) :
  (∀ x y out, Forall2 (agree n R) x y → F x out → ∃ out', F y out' ∧ Forall2 (agree m R') out out') → both n R S T → both m R' (λ out, ∃ x, S x ∧ F x out) (λ out, ∃ y, T y ∧ F y out).
Proof.
  intros HF [H1 H2]. split; intros out (x & Hx & Hout); [destruct (H1 x Hx) as (y & Hy & Hxy)|destruct (H2 x Hx) as (y & Hy & Hxy)]; destruct (HF _ _ _ Hxy Hout) as (out' & H' & Ha); exists out'; (split; [by exists y|done]).
Qed.
Lemma both_join nl nr m Rl Rr R (Sl Tl Sr Tr : list Row → Prop) (F G : list Row → list Row → list Row) :
  (∀ x x' y y', Forall2 (agree nl Rl) x x' → Forall2 (agree nr Rr) y y' → Forall2 (agree m R) (F x y) (G x' y')) → both nl Rl Sl Tl → both nr Rr Sr Tr →
  both m R (λ out, ∃ x y, Sl x ∧ Sr y ∧ out ≡ₚ F x y) (λ out, ∃ x y, Tl x ∧ Tr y ∧ out ≡ₚ G x y).
Proof.
  intros HF [L1 L2] [R1 R2]. split; intros out (x & y & Hx & Hy & Hp).
  - destruct (L1 x Hx) as (x' & Hx' & Hxx), (R1 y Hy) as (y' & Hy' & Hyy). destruct (Forall2_perm _ _ _ out (HF _ _ _ _ Hxx Hyy) Hp) as (out' & Hp' & Ha). exists out'. split; [by exists x', y'|done].
  - destruct (L2 x Hx) as (x' & Hx' & Hxx), (R2 y Hy) as (y' & Hy' & Hyy). destruct (Forall2_perm _ _ _ out (flip_agree _ _ _ _ (HF _ _ _ _ (flip_agree _ _ _ _ Hxx) (flip_agree _ _ _ _ Hyy))) Hp) as (out' & Hp' & Ha). exists out'. split; [by exists x', y'|done].
Qed.
Lemma both_sub n R R' S T : (∀ c, c ∈ R → c ∈ R') → both n R' S T → both n R S T.
Proof. intros HR [H1 H2]. split; intros x Hx; [destruct (H1 x Hx) as (y & Hy & Ha)|destruct (H2 x Hx) as (y & Hy & Ha)]; exists y; (split; [done|]); eapply Forall2_impl; try exact Ha; intros a b; by apply agree_sub. Qed.
Lemma PruneColumns_schema p R : OutputSchema (PruneColumns p R) = OutputSchema p.
Proof. destruct p; cbn; try done; by case_bool_decide. Qed.
Lemma mask_agree cols R row : (∀ c, c ∈ R → c ∈ cols) → agree (length row) R row (mask cols row).
Proof.
  intros H. split; [done|apply mask_length|]. intros c Hc. specialize (H c Hc). unfold mask. destruct cols as [|k cols]; [done|]. unfold cell_of. rewrite list_lookup_imap. destruct (row !! c) as [v|]; [|done]. cbn. by rewrite bool_decide_true.
Qed.
Lemma flat_refs n e : flat_in n e → ∀ t c, (t, c) ∈ column_refs e → t = 0%nat ∧ (c < n)%nat.
Proof. intros H t c Hc. unfold flat_in in H. rewrite Forall_forall in H. by apply (H (t, c)). Qed.
Lemma flat_refs_all n es : Forall (flat_in n) es → ∀ e t c, e ∈ es → (t, c) ∈ column_refs e → t = 0%nat ∧ (c < n)%nat.
Proof. intros H e t c He. rewrite Forall_forall in H. by apply flat_refs, H. Qed.
Lemma seam_left R k c : c ∈ R → (c < k)%nat → c ∈ (SplitRequirementAtSeam R k).1.
Proof. intros. by apply list_elem_of_filter. Qed.
Lemma seam_right R k c : c ∈ R → ¬ (c < k)%nat → (c - k)%nat ∈ (SplitRequirementAtSeam R k).2.
Proof. intros Hc Hk. apply (list_elem_of_fmap_2 (λ i, (i - k)%nat)). by apply list_elem_of_filter. Qed.
Lemma seam_bounds R k n : (∀ c, c ∈ R → (c < k + n)%nat) → (∀ c, c ∈ (SplitRequirementAtSeam R k).1 → (c < k)%nat) ∧ (∀ c, c ∈ (SplitRequirementAtSeam R k).2 → (c < n)%nat).
Proof. intros H. split; intros c; cbn; [by intros [? _]%list_elem_of_filter|]. intros (i & -> & [Hi Hin]%list_elem_of_filter)%list_elem_of_fmap. specialize (H _ Hin). lia. Qed.

Section pruning.
Context (table : nat → list Row) (aggregate : nat → list AggregationType → list (Row * Row) → list Row → Prop) (write : WriteOp → list Row → list Row → Prop).
Context (aggregate_width : ∀ n ts vals rows, aggregate n ts vals rows → Forall (λ r, length r = (n + length ts)%nat) rows).
Context (write_width : ∀ op rows out, write op rows out → Forall (λ r, length r = 1%nat) out).
Local Abbreviation answers := (answers table aggregate write).
Local Abbreviation wf := (wf table).

Lemma wide_agree n R rows : wide n rows → Forall2 (agree n R) rows rows.
Proof. induction 1 as [|x rows Hx _ IH]; constructor; [by split|done]. Qed.
Definition pruned_ok (p : Plan) : Prop := ∀ R, (∀ c, c ∈ R → (c < GetColumnCount p)%nat) → both (GetColumnCount p) R (answers p) (answers (PruneColumns p R)).
Lemma prune_scan s oid name pred cols : wf (SeqScanPlanNode s oid name pred cols) → pruned_ok (SeqScanPlanNode s oid name pred cols).
Proof.
  intros W R HR. pose proof W as (-> & Ht & Hp). cbn [OutputSchema PruneColumns]. set (R' := match pred with Some e => _ | None => R end). assert (∀ c, c ∈ R → c ∈ R') as Hsub by (intros c Hc; subst R'; destruct pred; [|done]; apply elem_of_CollectColumnRefs; by left).
  case_bool_decide as Hlen.
  { split; intros x Hx; exists x; (split; [done|]); apply wide_agree; by apply (answers_wide table aggregate write aggregate_width write_width _ W). }
  set (cols := if bool_decide (R' = []) then [0%nat] else R'). assert (∀ c, c ∈ R' → c ∈ cols) as Hcols by (intros c Hc; subst cols; case_bool_decide as E; [by rewrite E in Hc; apply not_elem_of_nil in Hc|done]).
  assert (Forall2 (agree (length s) R') (filter (λ r, passes_opt pred r = true) (table oid)) (filter (λ r, passes_opt pred r = true) (mask cols <$> table oid))) as HF.
  { apply (Forall2_keep (agree (length s) R')).
    - intros a b Hab. destruct pred as [e|]; [|done]. cbn. eapply agree_passes; [|exact Hab]. intros t c Hc. destruct (flat_refs _ _ Hp _ _ Hc) as [-> _]. subst R'. apply elem_of_CollectColumnRefs. by right.
    - clear -Ht Hcols. induction Ht as [|r rows Hr _ IH]; [constructor|]. constructor; [|exact IH]. rewrite <- Hr. by apply mask_agree. }
  apply (both_sub _ _ R' _ _ Hsub). cbn [Plan.answers]. replace (mask [] <$> table oid) with (table oid) by (by rewrite (list_fmap_ext (mask []) id), list_fmap_id). split; intros x Hx.
  - destruct (Forall2_perm _ _ _ x HF Hx) as (y & Hy & Ha). by exists y.
  - destruct (Forall2_perm _ _ _ x (flip_agree _ _ _ _ HF) Hx) as (y & Hy & Ha). by exists y.
Qed.
Lemma prune_nlj s l r e jt : wf (NestedLoopJoinPlanNode s l r e jt) → pruned_ok l → pruned_ok r → pruned_ok (NestedLoopJoinPlanNode s l r e jt).
Proof.
  intros (Wl & Wr & Es & He & _) Pl Pr R HR. cbn [OutputSchema PruneColumns] in *. destruct (SplitRequirementAtSeam R (GetColumnCount l)) as [lr rr] eqn:Er. rewrite Es in HR. destruct (seam_bounds R _ _ HR) as [HB1 HB2]. rewrite Er in HB1, HB2. cbn [fst snd] in *.
  pose proof (seam_left R (GetColumnCount l)) as HS1. pose proof (seam_right R (GetColumnCount l)) as HS2. rewrite Er in HS1, HS2. cbn [fst snd] in *. unfold two_sided in He. rewrite Forall_forall in He.
  cbn [Plan.answers]. rewrite !PruneColumns_schema. replace (length s - GetColumnCount l)%nat with (GetColumnCount r) by lia. rewrite Es. eapply (both_join _ _ _ _ _ _ _ _ _ _ (λ ls rs, ls ≫= nested_loop jt e (GetColumnCount l) (GetColumnCount r) rs) (λ ls rs, ls ≫= nested_loop jt e (GetColumnCount l) (GetColumnCount r) rs)); [|apply Pl|apply Pr].
  - intros x x' y y' Hx Hy. eapply Forall2_bind; [|exact Hx]. intros a b Hab. eapply nested_loop_agree; [by apply Forall_forall|..|exact Hab|exact Hy]; intros c; rewrite elem_of_CollectColumnRefs; auto.
  - intros c. rewrite elem_of_CollectColumnRefs. intros [Hc|Hc]; [by apply HB1|]. specialize (He _ Hc). cbn in He. lia.
  - intros c. rewrite elem_of_CollectColumnRefs. intros [Hc|Hc]; [by apply HB2|]. specialize (He _ Hc). cbn in He. lia.
Qed.
Lemma prune_hash_join s l r lk rk jt aware live : wf (HashJoinPlanNode s l r lk rk jt aware live) → pruned_ok l → pruned_ok r → pruned_ok (HashJoinPlanNode s l r lk rk jt aware live).
Proof.
  intros (Wl & Wr & -> & Hk & Hlk & Hrk & Es) Pl Pr R HR. cbn [OutputSchema PruneColumns] in *. destruct (SplitRequirementAtSeam R (GetColumnCount l)) as [lr rr] eqn:Er. rewrite Es in HR. destruct (seam_bounds R (GetColumnCount l) (GetColumnCount r)) as [HB1 HB2]; [intros c Hc; specialize (HR c Hc); destruct (_ || _); lia|]. rewrite Er in HB1, HB2. cbn [fst snd] in *.
  pose proof (seam_left R (GetColumnCount l)) as HS1. pose proof (seam_right R (GetColumnCount l)) as HS2. rewrite Er in HS1, HS2. cbn [fst snd] in *. cbn [Plan.answers]. rewrite !PruneColumns_schema.
  assert (∀ n ks, Forall (key_in n) ks → ∀ e t c, e ∈ ks → (t, c) ∈ column_refs e → (t < 2)%nat ∧ (c < n)%nat) as Hkey by (intros n ks H e t c He Hc; rewrite Forall_forall in H; specialize (H _ He); unfold key_in in H; rewrite Forall_forall in H; by apply (H (t, c))).
  set (live' := if negb (bool_decide (jt = SEMI)) && negb (bool_decide (jt = ANTI)) then _ else []). assert (live' = if bool_decide (jt = SEMI) || bool_decide (jt = ANTI) then [] else if builds_right jt then rr else lr) as -> by (subst live'; by destruct jt). rewrite Es.
  eapply both_join; [|apply Pl|apply Pr].
  - intros x x' y y' Hx Hy. apply (hash_join_agree _ _ _ _ _ _ R lr rr (collect_keys lk lr) (collect_keys rk rr)); try done; try (intros c Hc; apply elem_of_collect_keys; by left).
    + intros e t c He Hc. apply elem_of_collect_keys. right. exists e, t. split_and!; [done|by apply (Hkey _ _ Hlk e t c)|done].
    + intros e t c He Hc. apply elem_of_collect_keys. right. exists e, t. split_and!; [done|by apply (Hkey _ _ Hrk e t c)|done].
    + intros Ho c Hc. rewrite Ho in HR. specialize (HR c Hc). lia.
  - intros c [Hc|(e & t & He & _ & Hc)]%elem_of_collect_keys; [by apply HB1|by apply (Hkey _ _ Hlk e t c)].
  - intros c [Hc|(e & t & He & _ & Hc)]%elem_of_collect_keys; [by apply HB2|by apply (Hkey _ _ Hrk e t c)].
Qed.
Lemma prune_sort c obs : Forall (flat_in (GetColumnCount c)) obs.*2 → ∀ R, (∀ k, k ∈ R → (k < GetColumnCount c)%nat) → (∀ k, k ∈ collect_all obs.*2 0 R → (k < GetColumnCount c)%nat) ∧
  ∀ x y out, Forall2 (agree (GetColumnCount c) (collect_all obs.*2 0 R)) x y → out ≡ₚ x → StronglySorted (row_le obs) out → ∃ out', out' ≡ₚ y ∧ StronglySorted (row_le obs) out' ∧ Forall2 (agree (GetColumnCount c) R) out out'.
Proof.
  intros Hf R HR. assert (∀ e t k, e ∈ obs.*2 → (t, k) ∈ column_refs e → k ∈ collect_all obs.*2 0 R) as Hread by (intros e t k He Hk; destruct (flat_refs_all _ _ Hf _ _ _ He Hk) as [-> _]; apply elem_of_collect_all; right; by exists e).
  split; [intros k [Hk|(e & He & Hk)]%elem_of_collect_all; [by apply HR|by apply (flat_refs_all _ _ Hf e 0%nat k He Hk)]|]. intros x y out Hxy Hp Hs. destruct (Forall2_perm _ _ _ out Hxy Hp) as (out' & Hp' & Ha). exists out'. split_and!; [done| |].
  - eapply Forall2_sorted; [|exact Ha|exact Hs]. intros a b a' b' Hab Hab' Hle. unfold row_le in *. by rewrite <- (agree_results _ _ _ _ _ Hread Hab), <- (agree_results _ _ _ _ _ Hread Hab').
  - eapply Forall2_impl; [exact Ha|]. intros a b. apply agree_sub. intros k Hk. apply elem_of_collect_all. by left.
Qed.
Lemma prune_projection s es c : wf (ProjectionPlanNode s es c) → pruned_ok c → pruned_ok (ProjectionPlanNode s es c).
Proof.
  intros (Wc & He & Hf) Pc R HR. cbn [OutputSchema PruneColumns Plan.answers] in *. set (R' := collect_all (read_exprs R es) 0 []).
  assert (∀ e, e ∈ read_exprs R es → e ∈ es) as Hsub by (intros e ([k e'] & -> & [_ Hin]%list_elem_of_filter)%list_elem_of_fmap; apply list_elem_of_lookup in Hin as [i Hi]; rewrite list_lookup_imap in Hi; destruct (es !! i) as [e''|] eqn:Ei; [|done]; injection Hi as -> ->; by eapply list_elem_of_lookup_2).
  apply (both_unary (GetColumnCount c) _ R'); [|apply Pc].
  - intros x y out Hxy ->. eexists. split; [done|]. eapply Forall2_map; [|exact Hxy]. intros a b Hab. split; [by rewrite results_length|by rewrite results_length|]. intros k Hk. unfold cell_of, results_of. rewrite !list_lookup_fmap. destruct (es !! k) as [e|] eqn:Ee; [|done]. cbn.
    apply agrees_result, Forall_forall. intros [t j] Hj. apply Hab. subst R'. apply elem_of_collect_all. right. exists e. split; [by eapply elem_of_read_exprs|]. by destruct (flat_refs_all _ _ Hf e t j (list_elem_of_lookup_2 _ _ _ Ee) Hj) as [-> _].
  - intros k [Hk|(e & Hin & Hk)]%elem_of_collect_all; [by apply not_elem_of_nil in Hk|]. by apply (flat_refs_all _ _ Hf e 0%nat k (Hsub _ Hin) Hk).
Qed.
Lemma prune_aggregation s c gs es ts : wf (AggregationPlanNode s c gs es ts) → pruned_ok c → pruned_ok (AggregationPlanNode s c gs es ts).
Proof.
  intros (Wc & Es & Hg & He) Pc R HR. cbn [OutputSchema PruneColumns Plan.answers] in *. set (R' := collect_all es 0 (collect_all gs 0 [])). apply (both_unary (GetColumnCount c) _ R'); [|apply Pc].
  - intros x y out Hxy Ha. exists out. assert ((λ row, (results_of gs row, results_of es row)) <$> y = (λ row, (results_of gs row, results_of es row)) <$> x) as ->.
    + clear Ha. induction Hxy as [|a b x y Hab _ IH]; [done|]. rewrite !fmap_cons, IH. f_equal. f_equal; symmetry; eapply agree_results; try exact Hab; intros e t k Hin Hk; subst R'; rewrite !elem_of_collect_all.
      * destruct (flat_refs_all _ _ Hg _ _ _ Hin Hk) as [-> _]. left. right. by exists e.
      * destruct (flat_refs_all _ _ He _ _ _ Hin Hk) as [-> _]. right. by exists e.
    + split; [done|]. apply wide_agree. rewrite Es. by eapply aggregate_width.
  - intros k [[Hk|(e & Hin & Hk)]%elem_of_collect_all|(e & Hin & Hk)]%elem_of_collect_all; [by apply not_elem_of_nil in Hk|by apply (flat_refs_all _ _ Hg e 0%nat k Hin Hk)|by apply (flat_refs_all _ _ He e 0%nat k Hin Hk)].
Qed.
(** A node that writes is given every column. *)
Lemma prune_write c op : wf c → pruned_ok c → ∀ R, both 1 R (λ out, ∃ r, answers c r ∧ write op r out) (λ out, ∃ r, answers (PruneColumns c (AllColumnsOf c)) r ∧ write op r out).
Proof.
  intros Wc Pc R. apply (both_unary (GetColumnCount c) _ (AllColumnsOf c)); [|apply Pc; intros k Hk; apply elem_of_seq in Hk; lia]. intros x y out Hxy Hw. exists out. assert (y = x) as -> by (clear Hw; induction Hxy as [|a b x y Hab _ IH]; [done|]; f_equal; [symmetry; by eapply agree_all|done]).
  split; [done|]. apply wide_agree. by eapply write_width.
Qed.
Lemma PruneColumns_ok p : wf p → pruned_ok p.
Proof.
  induction p as [s oid name pred cols|s vs|s e c IH|s es c IH|s l IHl r IHr e jt|s l IHl r IHr lk rk jt aware live|s c IH n|s c IH obs|s c IH obs n|s c IH gs es ts|s c IH oid|s c IH oid es|s c IH oid]; intros W.
  - by apply prune_scan.
  - intros R HR. cbn [PruneColumns]. split; intros x Hx; exists x; (split; [done|]); apply wide_agree; by apply (answers_wide table aggregate write aggregate_width write_width _ W).
  - destruct W as (Wc & Es & Hf & _). intros R HR. cbn [OutputSchema PruneColumns Plan.answers] in *. rewrite Es in *. apply (both_unary (GetColumnCount c) _ (CollectColumnRefs e 0 R)).
    + intros x y out Hxy ->. eexists. split; [done|]. eapply Forall2_impl; [apply (Forall2_keep (agree (GetColumnCount c) (CollectColumnRefs e 0 R))); [|exact Hxy]|].
      * intros a b. apply agree_passes. intros t k Hk. destruct (flat_refs _ _ Hf _ _ Hk) as [-> _]. apply elem_of_CollectColumnRefs. by right.
      * intros a b. apply agree_sub. intros k Hk. apply elem_of_CollectColumnRefs. by left.
    + apply IH; [done|]. intros k [Hk|Hk]%elem_of_CollectColumnRefs; [by apply HR|by apply (flat_refs _ _ Hf 0%nat k Hk)].
  - apply prune_projection; [done|]. apply IH, W.
  - apply prune_nlj; [done|apply IHl, W|apply IHr, W].
  - apply prune_hash_join; [done|apply IHl, W|apply IHr, W].
  - destruct W as (Wc & Es). intros R HR. cbn [OutputSchema PruneColumns Plan.answers] in *. rewrite Es in *. apply (both_unary (GetColumnCount c) _ R); [|by apply IH]. intros x y out Hxy ->. eexists. split; [done|]. by apply Forall2_take.
  - destruct W as (Wc & Es & Hf). intros R HR. cbn [OutputSchema PruneColumns Plan.answers] in *. rewrite Es in *. destruct (prune_sort c obs Hf R HR) as [Hb Hsort]. apply (both_unary (GetColumnCount c) _ (collect_all obs.*2 0 R)); [|by apply IH]. intros x y out Hxy [Hp Hs]. destruct (Hsort _ _ _ Hxy Hp Hs) as (out' & ? & ? & ?). by exists out'.
  - destruct W as (Wc & Es & Hf). intros R HR. cbn [OutputSchema PruneColumns Plan.answers] in *. rewrite Es in *. destruct (prune_sort c obs Hf R HR) as [Hb Hsort].
    assert (∀ S out, (∃ r sorted, S r ∧ sorted ≡ₚ r ∧ StronglySorted (row_le obs) sorted ∧ out = take n sorted) ↔ ∃ r, S r ∧ ∃ sorted, sorted ≡ₚ r ∧ StronglySorted (row_le obs) sorted ∧ out = take n sorted) as Hex by (intros S out; naive_solver).
    destruct (both_unary (GetColumnCount c) (GetColumnCount c) (collect_all obs.*2 0 R) R (answers c) (answers (PruneColumns c (collect_all obs.*2 0 R))) (λ r out, ∃ sorted, sorted ≡ₚ r ∧ StronglySorted (row_le obs) sorted ∧ out = take n sorted)) as [H1 H2]; [|by apply IH|].
    + intros x y out Hxy (so & Hp & Hs & ->). destruct (Hsort _ _ _ Hxy Hp Hs) as (out' & Hp' & Hs' & Ha). exists (take n out'). split; [by exists out'|by apply Forall2_take].
    + split; intros x Hx%Hex; [destruct (H1 x Hx) as (y & Hy & Ha)|destruct (H2 x Hx) as (y & Hy & Ha)]; exists y; (split; [by apply Hex|done]).
  - apply prune_aggregation; [done|]. apply IH, W.
  - destruct W as [Wc Es]. intros R HR. cbn [OutputSchema PruneColumns Plan.answers]. rewrite Es. by apply prune_write, IH.
  - destruct W as [Wc Es]. intros R HR. cbn [OutputSchema PruneColumns Plan.answers]. rewrite Es. by apply prune_write, IH.
  - destruct W as [Wc Es]. intros R HR. cbn [OutputSchema PruneColumns Plan.answers]. rewrite Es. by apply prune_write, IH.
Qed.
Lemma OptimizeColumnPruning_ok p : wf p → ∀ rows, answers (OptimizeColumnPruning p) rows ↔ answers p rows.
Proof.
  intros W. destruct (PruneColumns_ok p W (AllColumnsOf p)) as [H1 H2]; [intros c Hc; apply elem_of_seq in Hc; lia|]. assert (∀ x y, Forall2 (agree (GetColumnCount p) (AllColumnsOf p)) x y → y = x) as Heq by (induction 1 as [|a b x y Hab _ IH]; [done|]; f_equal; [symmetry; by eapply agree_all|done]).
  intros rows. split; intros Hr; [destruct (H2 _ Hr) as (y & Hy & Ha)|destruct (H1 _ Hr) as (y & Hy & Ha)]; apply Heq in Ha as ->; done.
Qed.
End pruning.

(** * The optimizer returns a plan with the same answers *)

Lemma FlattenConjuncts_split e : FlattenConjuncts e = SplitConjuncts e.
Proof. induction e as [| | | | | |[] l IHl r IHr| | |]; try done. Qed.
Lemma split_flat n e : flat_in n e → Forall (flat_in n) (SplitConjuncts e).
Proof. unfold flat_in. rewrite <- (SplitConjuncts_refs e). apply Forall_join. Qed.

Section optimizer.
Context (table : nat → list Row) (aggregate : nat → list AggregationType → list (Row * Row) → list Row → Prop) (write : WriteOp → list Row → list Row → Prop).
Context (aggregate_width : ∀ n ts vals rows, aggregate n ts vals rows → Forall (λ r, length r = (n + length ts)%nat) rows).
Context (write_width : ∀ op rows out, write op rows out → Forall (λ r, length r = 1%nat) out).
Context (EstimatedRowCount : string → option Z).
Local Abbreviation answers := (answers table aggregate write).
Local Abbreviation wf := (wf table).
Local Abbreviation replaces := (replaces table aggregate write).
Local Abbreviation answers_any := (answers_any table aggregate write).
Local Abbreviation keep P := (filter (λ x, P x = true)).

(** ** Join ordering *)

Lemma inner_join_any p rows : is_inner_join p = true → answers_any p rows ↔ answers p rows.
Proof. destruct p as [| | | |s l r e []| | | | | | | |]; try done. intros _. apply join_answers_any. Qed.
Lemma emitted_join t graph sf p o : (2 ≤ length (tree_leaves t))%nat → EmitJoinTree t graph sf = Ok (p, o) → is_inner_join p = true.
Proof.
  destruct t as [|s card tl tr]; [cbn; lia|]. intros _. cbn [EmitJoinTree]. destruct (EmitJoinTree tl graph sf) as [[lp lo]|], (EmitJoinTree tr graph sf) as [[rp ro]|]; try done. cbn [mbind result_bind]. destruct (SFltb _ _); intros (preds & _ & [= <- _])%result_bind_ok; done.
Qed.
Lemma pending_edges rels leaves edges pd : Forall2 annotates edges pd → Forall (pending_ok rels (total_width leaves)) pd → Forall (edge_ok leaves rels) edges ∧ edge_predicate_ <$> edges = pred_ <$> pd.
Proof.
  induction 1 as [|x y edges pd [H1 H2] _ IH]; intros HF; [done|]. apply Forall_cons in HF as [[] HF]. destruct (IH HF) as [IH1 IH2]. split; [constructor; [split; rewrite ?H1, ?H2; done|done]|]. cbn. by rewrite H2, IH2.
Qed.
Lemma reorder_region_ok s e child : wf (FilterPlanNode s e child) → ∃ p', reorder_region EstimatedRowCount (FilterPlanNode s e child) s e child = Ok p' ∧ replaces (FilterPlanNode s e child) p'.
Proof.
  intros W. pose proof W as (Wc & Es & He & Ce). assert (∃ p', Ok (FilterPlanNode s e child) = Ok p' ∧ replaces (FilterPlanNode s e child) p') as Hkeep by (eexists; split; [done|by apply replaces_refl]).
  destruct (CollectRegionLeaves_ok table aggregate write child Wc) as (leaves & El & Fl & Tw & _ & Hin & Al). assert (length s = total_width leaves) as Esw by (by rewrite Tw). unfold reorder_region. rewrite El. cbn [mbind result_bind]. case_bool_decide as H2; [exact Hkeep|]. case_bool_decide as H12; [exact Hkeep|]. cbn [orb]. specialize (Hin ltac:(lia)). rename Hin into Hinner.
  destruct (add_relations_spec EstimatedRowCount leaves 0 0) as (rels & -> & Lr & Hr). cbn [Nat.add] in Hr |- *. assert (region_relations rels leaves) as HRL by (by split). pose proof (region_ok _ _ HRL) as HR. rewrite Tw, Es, bool_decide_true by done. cbn [negb].
  rewrite FlattenConjuncts_split. destruct (ClassifyRegionConjuncts_ok rels (total_width leaves) (SplitConjuncts e) HR) with (sf := replicate (length leaves) ([] : list Expr)) (pd := [] : list PendingEdge) as (sf & pd & -> & Lsf & Fsf & Fpd & Hpass).
  { unfold MAX_REORDER_RELATIONS in H12. lia. } { rewrite Tw. by apply split_flat. } { by apply condition_ok_conjuncts. } { rewrite length_replicate. lia. } { intros id fs Hid. apply lookup_replicate in Hid as [-> _]. constructor. } { constructor. }
  cbn [mbind result_bind]. rewrite <- Tw. destruct (AddEdgesWithKeyNdv_ok rels (total_width leaves) pd HR) as (edges & -> & Hann); [eapply Forall_impl; [exact Fpd|]; intros x Hx; apply Hx|]. cbn [mbind result_bind]. destruct (pending_edges _ _ _ _ Hann Fpd) as [Hedges Hpreds].
  destruct (choose_tree_ok (mkGraph rels edges) sf (length leaves)) as (t & -> & Ht); [done|lia|apply HR|lia|]. cbn [mbind result_bind]. destruct t as [t|]; [|exact Hkeep]. specialize (Ht t eq_refl).
  destruct (EmitJoinTree_ok table aggregate write aggregate_width write_width leaves rels HRL Fl sf Lsf Fsf edges Hedges t) as (p & o & Ep & EP & Po); [rewrite Ht; apply NoDup_seq|unfold ids_ok; rewrite Ht; apply Forall_forall; intros i Hi; apply elem_of_seq in Hi; lia|]. rewrite Ep. cbn [mbind result_bind].
  assert (o ≡ₚ seq 0 (length leaves)) as Ho by (by rewrite Po). assert (∀ row, all_pass (mjoin sf) row && all_pass (edge_predicate_ <$> edges) row = passes3 e row) as HP.
  { intros row. rewrite Hpreds, Hpass, SplitConjuncts_passes. assert (all_pass (mjoin (replicate (length leaves) [])) row = true) as ->; [|done]. generalize (length leaves). intros n. induction n; [done|]. by cbn [replicate]; rewrite mjoin_cons. }
  destruct (restore_columns_ok table aggregate write leaves rels HRL sf Lsf edges p o EP Ho s 0) as (es & -> & Hl & Hf & Hc); [exact Esw|]. cbn [mbind result_bind]. eexists. split; [done|].
  assert (length (tree_leaves t) = length leaves) as Ltl by (rewrite Ht; apply length_seq). assert (is_inner_join p = true) as Hj by (eapply emitted_join; [|exact Ep]; lia). split; [done|]. split; [cbn; rewrite (em_width _ _ _ _ _ _ _ _ _ EP); by split_and!; [apply EP|..]|].
  intros rows. cbn [Plan.answers]. transitivity (∃ r, answers_any p r ∧ rows ≡ₚ results_of es <$> r).
  - split; [intros (r & Hr' & ->); exists r; split; [by apply inner_join_any|done]|]. intros (r & Hr' & Hp). symmetry in Hp. destruct (Permutation_map_inv _ _ (symmetry Hp)) as (r' & -> & Hp'). exists r'. split; [|done]. apply inner_join_any; [done|]. destruct Hr' as (r0 & Hr0 & Hp0). exists r0. split; [done|]. by rewrite <- Hp0, Hp'.
  - rewrite (whole_answers table aggregate write aggregate_width write_width leaves rels HRL Fl sf Lsf edges Hedges e HP p o EP Ho es) by (intros c Pc; rewrite Hc by done; unfold flat; by rewrite <- Esw).
    transitivity (∃ r, answers_any child r ∧ rows ≡ₚ keep (passes3 e) r).
    + setoid_rewrite (λ rows, Al (seq 0 (length leaves)) rows (length_seq _ _)). split; [intros (Rs & HF & Hp); eexists; split; [by exists Rs|done]|intros (r & (Rs & HF & Hr0) & Hp); exists Rs; split; [done|]; by rewrite Hp, Hr0].
    + setoid_rewrite (λ rows, inner_join_any child rows Hinner). split; [|intros (r & Hr' & ->); by exists r]. intros (r & Hr' & Hp). apply keep_perm in Hp as (r' & Hp & ->). exists r'. split; [|done]. apply inner_join_any; [exact Hinner|]. by exists r.
Qed.
Lemma OptimizeJoinOrder_ok p : wf p → ∃ p', OptimizeJoinOrder EstimatedRowCount p = Ok p' ∧ replaces p p'.
Proof.
  apply (bottom_up table aggregate write aggregate_width write_width) with (step := λ q, match q with FilterPlanNode s e c => reorder_region EstimatedRowCount q s e c | _ => Ok q end); [by intros []|].
  intros q Wq. destruct q; try (eexists; split; [done|by apply replaces_refl]). by apply reorder_region_ok.
Qed.

(** ** The passes in a row *)

(** A pass, or a group of them, that keeps the answers; one that is skipped does. *)
Definition sound (pass : Plan → result Plan) : Prop := ∀ p, wf p → ∃ p', pass p = Ok p' ∧ replaces p p'.
Lemma sound_bind f g : sound f → sound g → sound (λ p, f p ≫= g).
Proof. intros Hf Hg p W. destruct (Hf p W) as (p1 & -> & R1). cbn [mbind result_bind]. destruct (Hg p1) as (p2 & E & R2); [apply R1|]. exists p2. split; [done|]. by eapply replaces_trans. Qed.
Lemma sound_when (b : bool) f : sound f → sound (λ p, if b then f p else Ok p).
Proof. intros Hf. destruct b; [done|]. intros p W. exists p. split; [done|]. by apply replaces_refl. Qed.
Lemma Optimize_sound plan : wf plan → ∃ plan', Optimize EstimatedRowCount plan = Ok plan' ∧ GetColumnCount plan' = GetColumnCount plan ∧ ∀ rows, answers plan' rows ↔ answers plan rows.
Proof.
  intros W. unfold Optimize. cbv zeta. match goal with |- context[if ?b then OptimizeMergeProjection plan else _] => destruct (sound_when b OptimizeMergeProjection) with (p := plan) as (p1 & -> & R1) end; [intros q Wq; by apply OptimizeMergeProjection_ok|done|]. cbn [mbind result_bind].
  match goal with |- context[if ?b then _ else Ok p1] => destruct (sound_when b (λ p, p ← OptimizeJoinOrder EstimatedRowCount p; p ← OptimizeMergeFilterNLJ p; p ← OptimizeFilterPushDown p; p ← OptimizeNLJAsHashJoin p; p ← OptimizeEliminateTrueFilter p; OptimizeMergeFilterScan p)) with (p := p1) as (p2 & -> & R2) end.
  { repeat apply sound_bind; intros q Wq; [by apply OptimizeJoinOrder_ok|by apply OptimizeMergeFilterNLJ_ok|by apply OptimizeFilterPushDown_ok|by apply OptimizeNLJAsHashJoin_ok|by apply OptimizeEliminateTrueFilter_ok|by apply OptimizeMergeFilterScan_ok]. } { apply R1. }
  cbn [mbind result_bind]. match goal with |- context[if ?b then _ else Ok p2] => destruct (sound_when b OptimizeSortLimitAsTopN) with (p := p2) as (p3 & -> & R3) end; [intros q Wq; by apply OptimizeSortLimitAsTopN_ok|apply R2|]. cbn [mbind result_bind].
  pose proof (replaces_trans _ _ _ _ _ _ R1 (replaces_trans _ _ _ _ _ _ R2 R3)) as (Hw & W3 & HA). match goal with |- context[if ?b then _ else _] => destruct b end; (eexists; split; [done|]); (split; [|intros rows; rewrite <- HA]).
  - rewrite <- Hw. f_equal. apply PruneColumns_schema.
  - by apply OptimizeColumnPruning_ok.
  - done.
  - done.
Qed.
End optimizer.
End meaning.

(** ** An example: [SELECT a.v, c.v FROM a_100k a, b_100 b, c_1k c WHERE a.k = b.k AND b.j = c.j AND c.v > 1 ORDER BY a.v LIMIT 2] *)

Definition INT : LogicalType := of_id LT_INTEGER.
Definition two_columns (x y : string) : Schema := [mkCol x INT; mkCol y INT].
Definition scan (oid : nat) (name x y : string) : Plan := SeqScanPlanNode (two_columns x y) oid name None [].
Definition cross (l r : Plan) : Plan := NestedLoopJoinPlanNode (OutputSchema l ++ OutputSchema r) l r TRUE INNER.
Definition int_column (c : nat) : Expr := ColumnValue 0 c INT.
Definition join3 : Plan := cross (cross (scan 0 "a_100k" "a.k" "a.v") (scan 1 "b_100" "b.k" "b.j")) (scan 2 "c_1k" "c.j" "c.v").
Definition where3 : Expr := Logic And (Logic And (Comparison Equal (int_column 0) (int_column 2)) (Comparison Equal (int_column 3) (int_column 4))) (Comparison GreaterThan (int_column 5) (ConstantValue (Some (CNum 1)) INT)).
Definition query3 : Plan :=
  LimitPlanNode (two_columns "a.v" "c.v") (SortPlanNode (two_columns "a.v" "c.v") (ProjectionPlanNode (two_columns "a.v" "c.v") [int_column 1; int_column 5] (FilterPlanNode (OutputSchema join3) where3 join3)) [(ASC, NULLS_DEFAULT, int_column 0)]) 2.
Definition int_row (zs : list Z) : Row := (λ z, Some (CNum z)) <$> zs.
Definition tables3 (oid : nat) : list Row :=
  match oid with 0%nat => int_row <$> [[1; 30]; [2; 10]; [1; 20]] | 1%nat => int_row <$> [[1; 7]; [2; 8]] | 2%nat => int_row <$> [[7; 5]; [8; 1]] | _ => [] end.
(** COUNT over all rows, and the number of rows a statement wrote. *)
Definition count_rows (n : nat) (ts : list AggregationType) (vals : list (Row * Row)) (rows : list Row) : Prop := rows = [replicate n None ++ ((λ _, Some (CNum (Z.of_nat (length vals)))) <$> ts)].
Definition count_written (op : WriteOp) (rows out : list Row) : Prop := out = [[Some (CNum (Z.of_nat (length rows)))]].
Definition no_statistics (name : string) : option Z := None.
(** The tables are joined from the smallest, the conditions are the keys of hash joins or move into a scan, sort
    and limit become a top-N, and the joins keep only the columns that are read. *)
Example query3_optimized : Optimize no_statistics query3 = Ok (TopNPlanNode (two_columns "a.v" "c.v")
  (ProjectionPlanNode (two_columns "a.v" "c.v") [int_column 1; int_column 5] (ProjectionPlanNode (OutputSchema join3) (int_column <$> [4; 5; 0; 1; 2; 3]%nat)
    (HashJoinPlanNode (two_columns "b.k" "b.j" ++ two_columns "c.j" "c.v" ++ two_columns "a.k" "a.v")
      (HashJoinPlanNode (two_columns "b.k" "b.j" ++ two_columns "c.j" "c.v") (scan 1 "b_100" "b.k" "b.j")
        (SeqScanPlanNode (two_columns "c.j" "c.v") 2 "c_1k" (Some (Comparison GreaterThan (int_column 1) (ConstantValue (Some (CNum 1)) INT))) []) [int_column 1] [ColumnValue 1 0 INT] INNER false (Some [0%nat]))
      (scan 0 "a_100k" "a.k" "a.v") [int_column 0] [ColumnValue 1 0 INT] INNER false (Some [3%nat]))))
  [(ASC, NULLS_DEFAULT, int_column 0)] 2).
Proof. vm_compute. reflexivity. Qed.

(** C18: The optimizer accepts every plan of the planner whose outer joins are not on a constant true and whose
    equalities between columns are between columns of one type or of two numeric types other than DECIMAL of
    different rank, and the plan it returns has exactly the answers of the given one, whatever the tables hold,
    their statistics say and the casts outside the integers do: projections that only rename are merged, the inner
    joins under a WHERE are reordered by the greedy search, filters are folded into joins, split and pushed down to
    the scans, equi-joins become hash joins, sort and limit a top-N, and the columns nobody reads are pruned.  The
    two exceptions are where the rewriting changes answers ([filtered_left_join_on_true], [mixed_equality]). *)
Theorem optimizer_preserves_answers `{!Casts} (table : nat → list Row) (aggregate : nat → list AggregationType → list (Row * Row) → list Row → Prop) (write : WriteOp → list Row → list Row → Prop) (EstimatedRowCount : string → option Z) (plan : Plan) :
  (∀ n ts vals rows, aggregate n ts vals rows → Forall (λ r, length r = (n + length ts)%nat) rows) →
  (∀ op rows out, write op rows out → Forall (λ r, length r = 1%nat) out) →
  wf table plan →
  ∃ plan', Optimize EstimatedRowCount plan = Ok plan' ∧ length (OutputSchema plan') = length (OutputSchema plan) ∧
    ∀ rows, answers table aggregate write plan' rows ↔ answers table aggregate write plan rows.
Proof. intros Ha Hw W. by apply Optimize_sound. Qed.
(** Casts to text of one digit, and to a DECIMAL of two places. *)
Definition demo_casts : Casts := λ _ dst v,
  match v, type_ dst with
  | Some (CNum z), LT_STRING => Some (CStr [byte_of (48 + z)])
  | Some (CNum z), LT_DECIMAL => Some (CNum (100 * z))
  | _, _ => None
  end.
#[local] Existing Instance demo_casts.
Lemma optimizer_preserves_answers_witness : ∃ plan', Optimize no_statistics query3 = Ok plan' ∧ length (OutputSchema plan') = 2%nat ∧
  ∀ rows, answers tables3 count_rows count_written plan' rows ↔ answers tables3 count_rows count_written query3 rows.
Proof.
  apply (optimizer_preserves_answers tables3 count_rows count_written no_statistics query3).
  - intros n ts vals rows ->. repeat constructor. by rewrite length_app, length_replicate, length_fmap.
  - intros op rows out ->. by repeat constructor.
  - cbn. unfold two_sided, flat_in, condition_ok, conjunct_ok, comparable. cbn. split_and!; try done; repeat constructor; cbn; try lia; try (by eexists).
Defined.

(** An equality of columns the rewriting does not handle.  [SELECT * FROM a JOIN b ON a.k = b.t] compares an INTEGER
    with a VARCHAR as text, and a BIGINT with a DECIMAL at the scale of the DECIMAL; the hash join it becomes is given
    the two keys as they are. *)
Definition mixed_join (lt rt : LogicalType) : Plan :=
  let l := SeqScanPlanNode [mkCol "a.k" lt] 0 "a" None [] in let r := SeqScanPlanNode [mkCol "b.t" rt] 1 "b" None [] in
  NestedLoopJoinPlanNode (OutputSchema l ++ OutputSchema r) l r (Comparison Equal (ColumnValue 0 0 lt) (ColumnValue 1 0 rt)) INNER.
Definition mixed_tables (other : cell) (oid : nat) : list Row := match oid with 0%nat => [[Some (CNum 5)]] | _ => [[Some other]] end.
Definition MONEY : LogicalType := mkLogicalType BIGINT LT_DECIMAL (Some (18, 2)).
Lemma mixed_equality lt rt other : (lt, rt, other) ∈ [(INT, of_id LT_STRING, CStr [Byte.x35]); (of_id LT_BIGINT, MONEY, CNum 500)] →
  comparable lt rt = false ∧ answers (mixed_tables other) count_rows count_written (mixed_join lt rt) [[Some (CNum 5); Some other]] ∧
  ∃ plan', Optimize no_statistics (mixed_join lt rt) = Ok plan' ∧ ∀ rows, answers (mixed_tables other) count_rows count_written plan' rows → rows = [].
Proof.
  rewrite !elem_of_cons, elem_of_nil. intros [[= -> -> ->]|[[= -> -> ->]|[]]]; (split; [vm_compute; reflexivity|]; split).
  1,3: eexists _, _; split_and!; [hnf; apply reflexive_eq; vm_compute; reflexivity..|]; apply reflexive_eq; vm_compute; reflexivity.
  all: eexists; (split; [vm_compute; reflexivity|]); intros rows (ls & rs & Hl & Hr & Hp); cbn [Plan.answers] in Hl, Hr; vm_compute in Hl, Hr;
    apply Permutation_singleton_r in Hl as ->; apply Permutation_singleton_r in Hr as ->; vm_compute in Hp; by apply Permutation_nil_r in Hp.
Qed.

(** The comment in [merge_filter_nlj.cpp] leaves the filter over an outer join in place; the code does so only
    when the join has a condition.  [SELECT * FROM a LEFT JOIN b ON true WHERE b.k = 9] has no answers here; the
    optimized plan gives every row of [a], padded with NULLs. *)
Definition left_true : Plan :=
  let l := scan 0 "a" "a.k" "a.v" in let r := scan 1 "b" "b.k" "b.j" in let s := OutputSchema l ++ OutputSchema r in
  FilterPlanNode s (Comparison Equal (int_column 2) (ConstantValue (Some (CNum 9)) INT)) (NestedLoopJoinPlanNode s l r TRUE LEFT).
Lemma filtered_left_join_on_true : answers tables3 count_rows count_written left_true [] ∧
  ∃ plan', Optimize no_statistics left_true = Ok plan' ∧ ¬ answers tables3 count_rows count_written plan' [].
Proof.
  split.
  - exists (tables3 0 ≫= nested_loop LEFT TRUE 2 2 (tables3 1)). split; [|vm_compute; reflexivity]. exists (tables3 0), (tables3 1). split_and!; [..|done]; hnf; apply reflexive_eq; vm_compute; reflexivity.
  - eexists. split; [vm_compute; reflexivity|]. intros (ls & rs & Hl & _ & Hp). apply Permutation_nil in Hp.
    destruct ls as [|l ls]; [apply Permutation_length in Hl; vm_compute in Hl; lia|]. rewrite bind_cons in Hp. apply app_eq_nil in Hp as [Hp _]. unfold nested_loop in Hp. revert Hp. cbv zeta. match goal with |- context[match ?x with [] => _ | _ => _ end] => destruct x end; done.
Qed.
